(* ===== verification/_CoqProject ===== *)
-Q . S2P
Prelude.v
Ebpf.v
BpfTypes.v
BpfSpill.v
BpfMem.v
BpfAlu.v
BpfExec.v
BpfInv.v
BpfSafety.v
BpfRfc.v
BpfSpillSpec.v
BpfExamples.v
Modem.v
ModemProofs.v
ModemStream.v
Frame.v
Messages.v
BoardLayout.v
BleEnvelope.v
ProgramImage.v
CborModel.v
Session.v
MapStorage.v
AsyncQueue.v
NodeM.v
NodeState.v
NodePairing.v
NodeRadio.v
NodeStore.v
BpfDispatch.v
WakeCycle.v
NodeLogic.v
WakeProofs.v
WakeSeq.v
WakeEnd.v
BpfAdapter.v
BpfNode.v
HelperMaps.v
NodeSystem.v
CborCompact.v
NodeDemo.v
GwStore.v
GwState.v
GwPairing.v
GwEngine.v
GwLogic.v
GwRegistry.v
GwReplies.v
GwCommands.v
GwServe.v
EndToEnd.v
GwDemo.v
PhonePairing.v
PairingLink.v
PairingDemo.v
GwElf.v
GwPlatform.v
GwElfProofs.v
GwIngest.v
GwIngestDemo.v
BpfDownlink.v
GwDecoder.v
GwDecoderProofs.v
ModemRadio.v
ModemBridge.v
ModemTotal.v
ModemTransparent.v
ModemEspNow.v
ModemPanel.v
ModemBle.v
ModemBleSafety.v
GwModem.v
ModemLink.v
ModemDemo.v
GwSqlite.v
GwRotation.v
GwRotationSafety.v
GwRotationLives.v
GwRotationDemo.v
GwBundle.v
