(* ===== verification/Prelude.v ===== *)
(** * Sonde: a verification library

    Sonde is a sensor network: battery-powered nodes wake up, exchange
    authenticated radio frames with a gateway, and run small BPF programs the
    gateway sends them; a modem firmware carries the radio frames between the
    gateway's serial port and the air.  This library models the parts of the
    Rust workspace that decide whether that is correct, and proves the
    properties they promise.

    ** Parts and files

    - [sonde-bpf], the BPF interpreter that runs downloaded code on the node.
      [Ebpf]: opcodes and instruction decoding ([ebpf.rs]).
      [BpfTypes]: errors, region tags, tagged registers, call frames.
      [BpfSpill]: the table that remembers the region of a pointer saved on the
      stack.  [BpfMem]: region-checked loads, stores and atomics on a byte
      memory.  [BpfAlu]: arithmetic and jump conditions.  [BpfExec]: the loop of
      [execute_program], one definition per group of match arms ([step] is one
      iteration, [run] the loop).  (All [interpreter.rs].)
      [BpfInv]: the machine invariant and its preservation; [BpfSafety]: what
      follows for whole runs; [BpfRfc]: RFC 9669 as an independent reference and
      conformance to it; [BpfSpillSpec]: the spill table as a finite map,
      and saving and reloading a pointer; [BpfExamples]: concrete
      programs and witnesses.
    - [sonde-protocol/src/modem.rs], the serial codec between gateway and modem,
      and the reader task of [sonde-gateway/src/modem.rs].
      [Modem]: messages, encoder, decoder, the streaming [FrameDecoder].
      [ModemProofs]: round trips and error behaviour.  [ModemStream]: the reader
      loop over arbitrary splits of the byte stream.
    - [sonde-protocol], the radio protocol.  [Frame]: header, authenticated
      framing ([aead_codec.rs]), key hint, chunking.  [Messages]: node and gateway
      messages ([messages.rs]).  [ProgramImage]: program images
      ([program_image.rs]).  [BoardLayout]: the pin layout ([board_layout.rs]).
      [BleEnvelope]: the messages over Bluetooth ([ble_envelope.rs]).  [CborModel]: a
      concrete instance of the CBOR interface and the witnesses that need one.
    - [sonde-gateway/src/session.rs].  [Session]: the table of active sessions and
      the interleavings of the tasks that use it.
    - [sonde-node/src/map_storage.rs].  [MapStorage]: the BPF maps in memory that
      survives deep sleep, as a table over an RTC memory whose writes are recorded
      in order.
    - [sonde-node/src/async_queue.rs].  [AsyncQueue]: the queue of blobs waiting
      for the next contact with the gateway, in the same memory.
    - [sonde-node], one wake-up of the node.  [NodeM]: the monad of the firmware
      code (state, errors, panics, fuel) with its weakest-precondition rules, and
      the sleep policy ([sleep.rs]).  [NodeState]: the platform traits
      ([traits.rs], [hal.rs]) as a class of environments, persistent storage whose
      writes may fail, and the node's state.  [NodeRadio]: the exchanges with the
      gateway ([wake_cycle.rs], [peer_request.rs]).  [NodeStore]: programs and
      keys in flash ([program_store.rs], [key_store.rs]).  [BpfDispatch]: the
      helpers a program calls ([bpf_dispatch.rs], [bpf_helpers.rs]).  [WakeCycle]:
      [run_wake_cycle], against an interface for the interpreter
      ([bpf_runtime.rs]).  [BpfAdapter]: the instance of that interface over
      [execute_program] ([sonde_bpf_adapter.rs]).
      [NodeLogic]: which relations every operation respects, proved once for all
      of them and used by [WakeProofs] (programs and keys), [WakeSeq] (frames and
      sequence numbers) and [WakeEnd] (termination, outcomes and panics).
      [BpfNode]: memory safety on the node's memory layout.  [HelperMaps]: the map
      helpers.  [NodeSystem]: the wake cycle with the real interpreter, and factory
      reset.  [NodeDemo]: a concrete node, its runs, and the
      witnesses.
    - [sonde-gateway], the message engine.  [GwStore]: node, phone, program and
      handler records ([registry.rs], [phone_trust.rs], [program.rs]), the [Storage]
      trait as a class with its laws as a second one, and [InMemoryStorage]
      ([storage.rs]) as an instance of both.  [GwState]: handler routing
      ([handler.rs]), the tracker of unknown key hints, the state of the engine, and
      its monad (an early return with [None] is an [Err]).  [GwEngine]: [engine.rs],
      one definition per handler, composed in [process_frame].  [GwLogic]: weakest
      preconditions for that monad.  [GwRegistry], [GwReplies],
      [GwCommands]: the properties named below.
    - The link.  [CborCompact]: a second instance of the CBOR interface, the wire
      format of RFC 8949 itself, with the sizes of encoded messages.  [GwServe]: what
      the engine answers to each frame of a transfer.  [EndToEnd]: the node's wake
      cycle with the gateway engine at the other end of its radio.  [GwDemo]: a
      concrete gateway and node, and the witnesses.

    - Pairing.  [GwPairing]: the registration window, the controller and the messages of
      a phone at the gateway ([sonde-gateway/src/ble_pairing.rs]).  [NodePairing]:
      provisioning and the radio test on the node ([sonde-node/src/ble_pairing.rs],
      the dispatch of [esp_ble_pairing.rs]), in the monad of the node, so that any
      write may fail.  [PhonePairing]: the pairing tool ([sonde-pair]: [phase1.rs],
      [phase2.rs], [crypto.rs], [cbor.rs], [envelope.rs], [validation.rs]), its
      transport, random numbers and clocks a class over a state.  [PairingLink]: a
      phone with the gateway and a node at the other end of its connections, and the
      node's radio answered by the gateway.  [PairingDemo]: a concrete phone, gateway
      and node, and the witnesses.
    - [sonde-gateway/src/program.rs], the programs an administrator uploads.  [GwElf]:
      the functions that read an ELF file, and the rewriting of relocations.
      [GwElfProofs]: they do not panic, what a rewritten instruction refers to, and how
      the interpreter executes it.  [GwIngest]: the library,
      over an interface for the Prevail verifier ([Prevail], [PrevailTyped]).
      [GwIngestDemo]: concrete files, and the witnesses.  [GwPlatform]: what Prevail is
      told of the node and of decoders ([sonde_platform.rs], [decoder_platform.rs],
      [verifier_maps.rs]).
    - [sonde-gateway/src/decoder.rs], the decoder programs the gateway runs on what
      nodes send.  [GwDecoder]: its helpers, which keep their state in a cell and follow
      raw pointers, and their use by the interpreter.  [GwDecoderProofs]: what a run
      keeps to, and a decoder at work.  [BpfDownlink]: the node's side of
      the platform, data a COMMAND carries for a program.
    - [sonde-modem], the firmware of the modem.  [ModemRadio]: the table of radio
      peers ([peer_table.rs]), the ring of received frames ([espnow.rs]) and the
      counters ([status.rs]).  [ModemBridge]: [bridge.rs], the main loop with its
      commands and the button; the hardware traits are classes over a state, which
      the bridge threads.  [ModemTotal]: an iteration never panics.
      [ModemTransparent]: what goes through the bridge; it states, as classes
      ([RadioTyped], [BleTyped], [ButtonTyped]), what the bridge needs of its drivers.
      [ModemEspNow]: the radio driver ([espnow.rs]) over the ESP-NOW stack;
      [ModemPanel]: the display driver ([display.rs]) over the I2C calls and the
      panel; [ModemBle]: the BLE server ([ble.rs]) over the NimBLE stack, whose
      callbacks may run whenever the main loop takes the lock; [ModemBleSafety]: its
      critical sections as the steps of a state machine.  The drivers are instances of
      the classes.  A driver that can panic has a [Res] as its state.
    - [GwModem]: the gateway's side of the serial line ([sonde-gateway/src/modem.rs]):
      requests, the slots in which they wait, the dispatch of what arrives, display
      transfers.  [ModemLink]: the two sides of a display transfer over a line that
      loses and delays.  [ModemDemo]: concrete stacks, a panel and a line, and the
      witnesses.
    - [sonde-gateway], keys at rest.  [GwSqlite]: [sqlite_storage.rs], its tables as
      finite maps, its closures as transactions over them and a tape of random bytes.
      [GwRotation]: the rotation of the master key ([rotation.rs],
      [rotation_engine.rs]) and the start of the gateway ([bin/gateway.rs]) as
      computations over a world of storage, key provider and a schedule of events: at
      each access the process may be stopped, the access may fail, or other tasks may
      go first.  [GwRotationSafety]: the stages of a rotation as an invariant of disk
      and memory, and what each computation makes of it.  [GwRotationLives]: lives of
      the process on one disk.  [GwRotationDemo]: a concrete gateway, and the
      witnesses.  [GwBundle]: the encrypted bundles that move the state of a gateway
      ([state_bundle.rs]), and their import into SQLite.

    How they meet: a program image ([ProgramImage]) is cut into chunks and carried
    in gateway messages ([Messages]) inside sealed frames ([Frame]), which travel
    through the modem as [SendFrame] and [RecvFrame] messages ([Modem],
    [ModemStream], [ModemBridge]); the gateway accepts a node's frames only in sequence
    ([Session]).  On the node the image's map definitions are allocated
    ([MapStorage], which uses the [MapDef] of [ProgramImage]) and its bytecode is
    run by the interpreter ([BpfExec]) with the map regions as part of its
    environment.  [WakeCycle] puts these together: it authenticates a COMMAND,
    installs or loads the program it orders ([NodeStore]), allocates its maps, and
    runs it with helpers that reach back into the maps, the queue, the radio and
    the sleep policy ([BpfDispatch]).  The interpreter unfolds to a tree of helper
    calls, so that the helpers run in the node's monad; [BpfAdapter] shows that
    this tree computes what [execute_program] does.

    ** Conventions

    An unsigned or signed machine integer is a [Z] kept in range by [wrap] and
    [signed]; plain [+], [-], [*] that may overflow go through [arith_u] and
    [arith_i], which take the build's overflow checking as an argument.  A
    computation returns a [Res]: [Ok], [Err], [Panic], or [UB] for a raw access
    outside live memory; [let?] is its bind.  Slices and indexing panic out of
    range as in Rust.  Bytes are [Z] values with [uN 8].  Code outside the
    repository is a type class with its documented laws: the AEAD and hash
    providers ([Frame]), the CBOR library ([Messages]); helper functions of the
    embedding application are an argument of the interpreter; clocks, random
    numbers, handler processes and the radio are classes of environments.

    ** What the theorems show

    - The interpreter is safe ([BpfSafety]): no access outside the regions the
      caller granted ([execute_program_safe]), no write to a read-only context, no
      forged region, callee-saved registers restored, termination within the budget.
      The loop is [run] with fuel; [execute_program_terminates] shows that fuel
      beyond the instruction budget is always enough and that the result does not
      depend on it.
    - Arithmetic and jumps conform to RFC 9669 ([BpfRfc]).  The spill table refines a
      finite map ([BpfSpillSpec]).  Conformance covers pointers: [tag_rule] says which
      operations they may take part in and what becomes of their regions.  The adapter runs
      [execute_program] ([BpfAdapter]), and on the node's memory layout every program is
      safe to run as long as its helpers write only where it may ([BpfNode]); the node's
      helpers follow the pointers they are given, so that is a condition on the program.
    - The serial codec ([ModemProofs], [ModemStream]): round trip, totality on
      arbitrary bytes, delivery of every message however reads are split (the
      reader's inner loop runs with fuel one more than the buffered bytes, which
      [reader_drain_total] shows enough).
    - The radio protocol ([Frame], [Messages], [ProgramImage]): sealed frames,
      messages and program images arrive as sent; what is authenticated is what was
      received.
    - Sessions ([Session]): replay protection and availability over every
      interleaving.  [WakeSeq.session_takes_cycle]: how a session takes the frames of
      a wake cycle, and that one lost frame ends it.
    - Map storage ([MapStorage]): refinement to arrays, crash consistency of
      allocation; [HelperMaps]: the map helpers implement lookups and updates inside
      the granted regions.  The send queue ([AsyncQueue]): a bounded FIFO across deep
      sleeps, each operation atomic under resets.
    - The wake cycle.  Only a program ordered by a COMMAND that is sealed under the node's
      key and answers its WAKE becomes active, atomically under flash faults
      ([WakeProofs]); the frames sent carry consecutive numbers ([WakeSeq]); every cycle
      comes to an end, never with an error value, without overflow checks cut off by nothing
      but the program it runs ([cycle_cut]), and asks for a bounded sleep ([NodeSystem]):
      its receive loops run with fuel, and fuel beyond the number of
      frames that arrive and the registration timeout in milliseconds is shown enough,
      the BPF run needing its instruction budget; a factory reset is complete or can
      be retried ([factory_reset_complete]); [NodeDemo] has a run in which a program whose
      acknowledgement is lost starts on stale maps.
    - The gateway engine.  Whatever arrives and whichever storage operations fail,
      the registry changes only by authorised steps ([GwRegistry]); replies are bound
      to the requests they answer, and a frame no key opens is ignored ([GwReplies]);
      the command for a node is the one the queue, the assignment and the library
      call for ([GwCommands]); the record of unknown key hints is an LRU cache
      ([GwCommands.KeyHints]).  [GwDemo] shows a lost command that is never repeated and a
      one-shot program recorded as the current one.
    - The system.  [EndToEnd.assigned_program_delivered]: the wake cycle of a node,
      its radio answered by the gateway engine, ends with the assigned program
      installed on the node and confirmed in the registry, if no frame is lost, no write
      fails and nothing has precedence.  No fuel of the gateway is
      involved (its handlers are total); the node's loops need fuel for one frame.

    - Pairing.  A node the tool reports as provisioned registers at its next wake-up if its
      identifier, sensors and clock are ones the gateway accepts and nothing fails, and
      gateway and node then hold the same key ([paired_node_registers]; the loop
      that waits for the acknowledgement needs fuel for one frame).  A phone is stored
      only while a window is open ([phone_registration_gated]).  Provisioning is
      atomic up to one flash fault ([provision_atomic]); with two faults the rollback
      itself may fail.  An identifier that is too long only by its padding is reported
      as provisioned and then lost ([padded_id_lost]).  The codecs round-trip
      ([board_layout_roundtrip], [ble_envelope_roundtrip], [run_test_command_roundtrip],
      [test_result_roundtrip]).
    - Programs.  An image in the library is that of the program Prevail accepted with every
      relocation of its section applied as the ELF file, read by its format alone
      ([GwElfProofs.ElfFile]), asks for ([ingest_elf_sound]), and a linked reference is the load
      of that variable on the node ([global_reference_loads]).  Looking at a file is
      total ([elf_scans_total]); rewriting it is not, and trusts the offsets of
      relocations ([relocation_offset_unchecked]).  The numbers of maps identify them
      ([map_fds_identify]).  A decoder ends, within its bounds, and is safe if its calls
      keep to the prototypes ([execute_decoder_sound]; fuel beyond its budget of 100000
      is enough).  On the node no program can load the data that came with a COMMAND
      ([downlink_unreadable]).
    - The modem.  An iteration of its main loop ends without a panic in a well-formed
      state whatever arrives (the decode loop has fuel, and fuel beyond the decoder's
      capacity of 4108 bytes is shown enough; 1200 is enough for a stream whose frames
      are taken as they come, where at most one incomplete frame is left over);
      frames pass through it unchanged in both directions while it is neither reset nor
      reconnected, towards the gateway if no write fails ([ModemTransparent]); the
      radio driver keeps the stack's peers like its table ([ModemEspNow]); the panel
      shows the frame it was given ([ModemPanel]); indications arrive whole, and
      nothing of a phone is relayed before the operator's approval while connections
      follow one another ([ModemBleSafety]); disabling BLE or the end of another connection
      meanwhile makes the server forget that approval is due ([ble_approval_bypassed]).
      Display transfers ([ModemLink]) are exact over a line that keeps messages in order
      but loses and delays them and mixes in those of other transfers, and recover from
      losses, except the loss of the last acknowledgement, which is fatal.
    - Keys at rest ([GwRotationLives]).  A rotation that is not disturbed completes;
      whatever stops the process and whichever accesses fail, the next undisturbed
      start completes the rotation the disk records and every key is readable
      ([rotation_crash_safe]).  Both need a tape of random bytes: one entry for each
      key, one for the seed, two for an identity and six for each code, none above 251
      in its first byte ([start_draws], [rotation_draws]).  Other tasks may use
      storage meanwhile, but not register nodes or phones: [GwRotationDemo] has a run in
      which a node registered during the migration makes storage unusable.
    - State bundles ([GwBundle]).  A bundle reads back as what was written, and whatever
      it decodes to is well formed ([bundle_codec_exact]); an import into SQLite drops
      channels, sensors, registering phones and decoders ([import_drops_fields]).

    ** Not modelled

    The node's hardware drivers, among them its flash storage (the storage trait's
    operations are atomic steps here, while [esp_storage.rs] writes several entries for a
    key or a layout), and the callbacks of its BLE stack, the modem's USB
    driver and boot sequence, the stores and transports of the pairing tool, network I/O, the user interfaces and the cloud connectors
    (I/O and calls to external libraries); of SQL storage the schema migrations and the
    table of handlers; the administrative interface around export and import; the back ends of the key
    provider, whose writes are taken to be atomic as its trait asks; the health monitor of the gateway's modem
    transport and concurrent requests for one slot of it;
    AES-GCM, SHA-256 and the Prevail verifier themselves (interfaces); logging; the host build of the map
    storage and of the queue; the gateway's identity cache, which no code uses.  Time
    passes in the gateway between frames, not within the handling of one. *)

From Stdlib Require Export ZArith Lia.
From stdpp Require Export base list gmap numbers.

(** Every file of the library works in [Z_scope]; list indices are [nat] and
    are annotated where they occur. *)
Open Scope Z_scope.

(** ** Outcomes

    A Rust computation ends in one of four ways: it returns a value, returns an
    error value, panics, or performs an operation whose behaviour is undefined
    (a raw-pointer access outside any live allocation). *)

Inductive Res (E A : Type) : Type :=
  | Ok (a : A)
  | Err (e : E)
  | Panic
  | UB.
Arguments Ok {E A} a.
Arguments Err {E A} e.
Arguments Panic {E A}.
Arguments UB {E A}.

Definition res_bind {E A B} (r : Res E A) (k : A -> Res E B) : Res E B :=
  match r with
  | Ok a => k a
  | Err e => Err e
  | Panic => Panic
  | UB => UB
  end.

Definition res_map {E A B} (f : A -> B) (r : Res E A) : Res E B :=
  res_bind r (fun a => Ok (f a)).

(** [Result::map_err]. *)
Definition map_err {E F A} (f : E -> F) (r : Res E A) : Res F A :=
  match r with Ok a => Ok a | Err e => Err (f e) | Panic => Panic | UB => UB end.

(** [Option::ok_or]. *)
Definition ok_or {E A} (o : option A) (e : E) : Res E A :=
  match o with Some a => Ok a | None => Err e end.

Lemma map_err_Ok {X Y A} (f : X -> Y) (r : Res X A) a : map_err f r = Ok a -> r = Ok a.
Proof. destruct r; simpl; congruence. Qed.

Lemma ok_or_Ok {E A} (o : option A) (e : E) a : ok_or o e = Ok a -> o = Some a.
Proof. destruct o; simpl; congruence. Qed.

Declare Scope sonde_scope.
Delimit Scope sonde_scope with sonde.
Notation "'let?' x ':=' r 'in' k" := (res_bind r (fun x => k))
  (at level 10, x name, r at level 100, k at level 200) : sonde_scope.
Notation "'let?' ' p ':=' r 'in' k" := (res_bind r (fun p => k))
  (at level 10, p strict pattern, r at level 100, k at level 200) : sonde_scope.
Open Scope sonde_scope.

(** [res_post P crash r]: an [Ok] value satisfies [P], a panic happens only
    where [crash] holds, and undefined behaviour never happens.  Error values
    are unconstrained. *)
Definition res_post {E A} (P : A -> Prop) (crash : Prop) (r : Res E A) : Prop :=
  match r with
  | Ok a => P a
  | Err _ => True
  | Panic => crash
  | UB => False
  end.

Lemma res_post_bind {E A B} (P : A -> Prop) (Q : B -> Prop) crash
    (r : Res E A) (k : A -> Res E B) :
  res_post P crash r -> (forall a, P a -> res_post Q crash (k a)) ->
  res_post Q crash (res_bind r k).
Proof. destruct r; simpl; auto. Qed.

Lemma res_post_mono {E A} (P Q : A -> Prop) (c d : Prop) (r : Res E A) :
  res_post P c r -> (forall a, P a -> Q a) -> (c -> d) -> res_post Q d r.
Proof. destruct r; simpl; auto. Qed.

(** The errors [r] can return. *)
Definition errs_only {E A} (P : E -> Prop) (r : Res E A) : Prop :=
  match r with Err e => P e | _ => True end.

Lemma errs_only_bind {E A B} (P : E -> Prop) (r : Res E A) (k : A -> Res E B) :
  errs_only P r -> (forall a, errs_only P (k a)) -> errs_only P (res_bind r k).
Proof. destruct r; simpl; auto. Qed.

Lemma res_bind_Ok {E A B} (r : Res E A) (k : A -> Res E B) b :
  res_bind r k = Ok b <-> exists a, r = Ok a /\ k a = Ok b.
Proof.
  destruct r; simpl; split; try discriminate; try (intros (? & ? & ?); congruence).
  eauto.
Qed.

(** ** Machine integers *)

(** [uN w x]: [x] is a value of the unsigned type of width [w]. *)
Definition uN (w x : Z) : Prop := 0 <= x < 2 ^ w.

(** [iN w x]: [x] is a value of the signed type of width [w]. *)
Definition iN (w x : Z) : Prop := - 2 ^ (w - 1) <= x < 2 ^ (w - 1).

(** The [as uW] cast: reduction modulo [2^w]. *)
Definition wrap (w x : Z) : Z := x mod 2 ^ w.

(** The [as iW] cast: two's complement reading of the low [w] bits. *)
Definition signed (w x : Z) : Z :=
  let y := wrap w x in if y <? 2 ^ (w - 1) then y else y - 2 ^ w.

Definition as_u8 := wrap 8.
Definition as_u16 := wrap 16.
Definition as_u32 := wrap 32.
Definition as_u64 := wrap 64.
Definition as_i8 := signed 8.
Definition as_i16 := signed 16.
Definition as_i32 := signed 32.
Definition as_i64 := signed 64.

(** [uW::checked_add]. *)
Definition checked_add (w a b : Z) : option Z :=
  if a + b <? 2 ^ w then Some (a + b) else None.

(** [uW::checked_mul]. *)
Definition checked_mul (w a b : Z) : option Z :=
  if a * b <? 2 ^ w then Some (a * b) else None.

(** [uW::checked_add_signed]. *)
Definition checked_add_signed (w a b : Z) : option Z :=
  if (0 <=? a + b) && (a + b <? 2 ^ w) then Some (a + b) else None.

(** [uW::saturating_add]. *)
Definition saturating_add (w a b : Z) : Z := Z.min (a + b) (2 ^ w - 1).

(** Plain [+], [-] on an unsigned type: a panic in a build with overflow
    checks, wrap-around in one without. *)
Definition arith_u {E} (overflow_checks : bool) (w r : Z) : Res E Z :=
  if (0 <=? r) && (r <? 2 ^ w) then Ok r
  else if overflow_checks then Panic else Ok (wrap w r).

(** Plain [+], [-] on a signed type. *)
Definition arith_i {E} (overflow_checks : bool) (w r : Z) : Res E Z :=
  if (- 2 ^ (w - 1) <=? r) && (r <? 2 ^ (w - 1)) then Ok r
  else if overflow_checks then Panic else Ok (signed w r).

Lemma wrap_range w x : 0 <= w -> uN w (wrap w x).
Proof. intros Hw. unfold uN, wrap. apply Z.mod_pos_bound. lia. Qed.

Lemma wrap_small w x : uN w x -> wrap w x = x.
Proof. intros H. unfold wrap. by apply Z.mod_small. Qed.

Lemma wrap_wrap_le v w x : 0 <= v <= w -> wrap v (wrap w x) = wrap v x.
Proof.
  intros H. unfold wrap.
  apply Z.mod_mod_divide. exists (2 ^ (w - v)). rewrite <- Z.pow_add_r by lia. f_equal. lia.
Qed.

Lemma signed_range w x : 1 <= w -> iN w (signed w x).
Proof.
  intros Hw. unfold iN, signed.
  assert (E : 2 ^ w = 2 * 2 ^ (w - 1)).
  { rewrite <- Z.pow_succ_r by lia. f_equal. lia. }
  pose proof (wrap_range w x ltac:(lia)) as Hr. unfold uN in Hr.
  destruct (Z.ltb_spec (wrap w x) (2 ^ (w - 1))); lia.
Qed.

Lemma wrap_signed w x : 1 <= w -> wrap w (signed w x) = wrap w x.
Proof.
  intros Hw. unfold signed.
  destruct (wrap w x <? 2 ^ (w - 1)).
  - apply wrap_small, wrap_range. lia.
  - unfold wrap. rewrite Zminus_mod, Z.mod_same, Z.sub_0_r, !Z.mod_mod; lia.
Qed.

Lemma signed_small w x : 1 <= w -> iN w x -> signed w (wrap w x) = x.
Proof.
  intros Hw H. unfold iN in H. unfold signed. rewrite wrap_wrap_le by lia.
  assert (E : 2 ^ w = 2 * 2 ^ (w - 1)).
  { rewrite <- Z.pow_succ_r by lia. f_equal. lia. }
  unfold wrap. destruct (Z.ltb_spec x 0) as [Hx|Hx].
  - assert (x mod 2 ^ w = x + 2 ^ w) as ->.
    { symmetry. apply Z.mod_unique with (-1); lia. }
    destruct (Z.ltb_spec (x + 2 ^ w) (2 ^ (w - 1))); lia.
  - rewrite Z.mod_small by lia.
    destruct (Z.ltb_spec x (2 ^ (w - 1))); lia.
Qed.

Lemma checked_add_Some w a b c :
  checked_add w a b = Some c <-> c = a + b /\ a + b < 2 ^ w.
Proof.
  unfold checked_add. destruct (Z.ltb_spec (a + b) (2 ^ w));
    (split; [intros [= <-]|intros [-> ?]]); first [done | lia].
Qed.

Lemma checked_add_lt w a b : a + b < 2 ^ w -> checked_add w a b = Some (a + b).
Proof. intros H. unfold checked_add. by destruct (Z.ltb_spec (a + b) (2 ^ w)); [|lia]. Qed.

Lemma checked_mul_Some w a b c :
  checked_mul w a b = Some c <-> c = a * b /\ a * b < 2 ^ w.
Proof.
  unfold checked_mul. destruct (Z.ltb_spec (a * b) (2 ^ w));
    (split; [intros [= <-]|intros [-> ?]]); first [done | lia].
Qed.

Lemma arith_u_post {E} (oc : bool) w r :
  0 <= w -> res_post (uN w) (oc = true) (arith_u (E := E) oc w r).
Proof.
  intros Hw. unfold arith_u.
  destruct (0 <=? r) eqn:H1, (r <? 2 ^ w) eqn:H2; simpl;
    try (destruct oc; simpl; auto using wrap_range).
  all: unfold uN; lia.
Qed.

Lemma arith_u_in_range {E} oc w x : 0 <= x < 2 ^ w -> arith_u (E := E) oc w x = Ok x.
Proof.
  intros Hx. unfold arith_u. by rewrite (proj2 (Z.leb_le 0 x)), (proj2 (Z.ltb_lt x (2 ^ w))) by lia.
Qed.

Lemma arith_u_Ok {E} oc w x y :
  arith_u (E := E) oc w x = Ok y -> 0 <= x -> y = wrap w x /\ (oc = true -> x < 2 ^ w).
Proof.
  unfold arith_u. intros H Hx. destruct (Z.leb_spec 0 x), (Z.ltb_spec x (2 ^ w)); simpl in H; try lia.
  - injection H as <-. by rewrite wrap_small by (unfold uN; lia).
  - destruct oc; [done|]. by injection H as <-.
Qed.

Lemma wrap_add_l w a b : 0 <= w -> wrap w (wrap w a + b) = wrap w (a + b).
Proof. intros Hw. unfold wrap. apply Zplus_mod_idemp_l. Qed.

Lemma wrap_inj w a b : 0 <= w -> wrap w a = wrap w b -> Z.abs (a - b) < 2 ^ w -> a = b.
Proof.
  intros Hw H Hab. unfold wrap in H. assert (0 < 2 ^ w) by lia.
  pose proof (Z.div_mod a (2 ^ w) ltac:(lia)) as Ea. pose proof (Z.div_mod b (2 ^ w) ltac:(lia)) as Eb.
  assert (E : a - b = 2 ^ w * (a / 2 ^ w - b / 2 ^ w)) by lia.
  assert (a / 2 ^ w - b / 2 ^ w = 0) by nia. nia.
Qed.

(** Bitwise operations stay within the width of their operands. *)
Lemma uN_land w a b : 0 <= w -> uN w a -> 0 <= b -> uN w (Z.land a b).
Proof.
  unfold uN. intros Hw Ha Hb. split; [apply Z.land_nonneg; lia|].
  destruct (Z.eq_dec (Z.land a b) 0) as [->|Hn]; [lia|].
  assert (0 <= Z.land a b) by (apply Z.land_nonneg; lia).
  destruct (Z.eq_dec a 0) as [->|Ha0]; [rewrite Z.land_0_l in *; lia|].
  apply Z.log2_lt_pow2; [lia|].
  pose proof (Z.log2_land a b ltac:(lia) ltac:(lia)).
  assert (Z.log2 a < w) by (apply Z.log2_lt_pow2; lia). lia.
Qed.

Lemma uN_lor w a b : 0 <= w -> uN w a -> uN w b -> uN w (Z.lor a b).
Proof.
  unfold uN. intros Hw Ha Hb. split; [apply Z.lor_nonneg; lia|].
  destruct (Z.eq_dec (Z.lor a b) 0) as [->|Hn]; [lia|].
  assert (0 <= Z.lor a b) by (apply Z.lor_nonneg; lia).
  apply Z.log2_lt_pow2; [lia|]. rewrite Z.log2_lor by lia.
  destruct (Z.eq_dec a 0) as [->|Ha0], (Z.eq_dec b 0) as [->|Hb0]; [done|..].
  - rewrite Z.max_r by apply Z.log2_nonneg. apply Z.log2_lt_pow2; lia.
  - rewrite Z.max_l by apply Z.log2_nonneg. apply Z.log2_lt_pow2; lia.
  - apply Z.max_lub_lt; apply Z.log2_lt_pow2; lia.
Qed.

Lemma uN_lxor w a b : 0 <= w -> uN w a -> uN w b -> uN w (Z.lxor a b).
Proof.
  unfold uN. intros Hw Ha Hb.
  assert (0 <= Z.lxor a b) by (apply Z.lxor_nonneg; lia). split; [lia|].
  destruct (Z.eq_dec (Z.lxor a b) 0) as [->|Hn]; [lia|].
  apply Z.log2_lt_pow2; [lia|].
  pose proof (Z.log2_lxor a b ltac:(lia) ltac:(lia)).
  destruct (Z.eq_dec a 0) as [->|Ha0]; [rewrite Z.lxor_0_l in *; apply Z.log2_lt_pow2; lia|].
  destruct (Z.eq_dec b 0) as [->|Hb0]; [rewrite Z.lxor_0_r in *; apply Z.log2_lt_pow2; lia|].
  assert (Z.log2 a < w) by (apply Z.log2_lt_pow2; lia).
  assert (Z.log2 b < w) by (apply Z.log2_lt_pow2; lia). lia.
Qed.

Lemma uN_weaken v w x : 0 <= v <= w -> uN v x -> uN w x.
Proof.
  unfold uN. intros Hvw Hx. split; [lia|].
  assert (2 ^ v <= 2 ^ w) by (apply Z.pow_le_mono_r; lia). lia.
Qed.

Lemma uN_div w a b : uN w a -> 0 <= b -> uN w (a / b).
Proof.
  unfold uN. intros Ha Hb. destruct (Z.eq_dec b 0) as [->|Hb0]; [rewrite Z.div_0_r; lia|].
  split; [apply Z.div_pos; lia|]. apply Z.div_lt_upper_bound; [lia|]. nia.
Qed.

Lemma uN_mod w a b : uN w a -> 0 <= b -> uN w (a mod b).
Proof.
  unfold uN. intros Ha Hb. destruct (Z.eq_dec b 0) as [->|Hb0]; [by rewrite Z.mod_0_r|].
  pose proof (Z.mod_pos_bound a b ltac:(lia)).
  pose proof (Z.mod_le a b ltac:(lia) ltac:(lia)). lia.
Qed.

Lemma uN_shiftr w a k : uN w a -> 0 <= k -> uN w (Z.shiftr a k).
Proof.
  intros Ha Hk. rewrite Z.shiftr_div_pow2 by done. apply uN_div; [done|]. lia.
Qed.

Lemma wrap_nonneg w x : 0 <= w -> 0 <= wrap w x.
Proof. intros Hw. by apply (wrap_range w x). Qed.

(** ** Byte strings *)

Abbreviation byte_ok := (uN 8).
Abbreviation bytes_ok := (Forall (uN 8)).

(** Little-endian encoding of the low [n] bytes ([to_le_bytes]). *)
Fixpoint to_le_bytes (n : nat) (x : Z) : list Z :=
  match n with
  | O => []
  | S n' => x mod 256 :: to_le_bytes n' (x / 256)
  end.

Fixpoint from_le_bytes (l : list Z) : Z :=
  match l with
  | [] => 0
  | b :: l' => b + 256 * from_le_bytes l'
  end.

(** Big-endian encoding ([to_be_bytes], [from_be_bytes]). *)
Definition to_be_bytes (n : nat) (x : Z) : list Z := rev (to_le_bytes n x).
Definition from_be_bytes (l : list Z) : Z := from_le_bytes (rev l).

Lemma length_to_le_bytes n x : length (to_le_bytes n x) = n.
Proof. revert x. induction n; intros x; simpl; [done|by rewrite IHn]. Qed.

Lemma length_to_be_bytes n x : length (to_be_bytes n x) = n.
Proof. unfold to_be_bytes. by rewrite length_rev, length_to_le_bytes. Qed.

Lemma to_le_bytes_ok n x : bytes_ok (to_le_bytes n x).
Proof.
  revert x. induction n; intros x; simpl; constructor; [|apply IHn].
  unfold uN. pose proof (Z.mod_pos_bound x 256). lia.
Qed.

Lemma to_be_bytes_ok n x : bytes_ok (to_be_bytes n x).
Proof. unfold to_be_bytes. apply Forall_rev, to_le_bytes_ok. Qed.

Lemma pow256_S (n : nat) : 2 ^ (8 * Z.of_nat (S n)) = 256 * 2 ^ (8 * Z.of_nat n).
Proof. replace (8 * Z.of_nat (S n)) with (8 + 8 * Z.of_nat n) by lia. rewrite Z.pow_add_r by lia. done. Qed.

Lemma from_to_le_bytes n x :
  from_le_bytes (to_le_bytes n x) = wrap (8 * Z.of_nat n) x.
Proof.
  revert x. induction n as [|n IH]; intros x; simpl to_le_bytes; simpl from_le_bytes.
  - unfold wrap. simpl. by rewrite Z.mod_1_r.
  - rewrite IH. unfold wrap. rewrite pow256_S.
    symmetry. apply Z.rem_mul_r; lia.
Qed.

Lemma from_to_be_bytes n x :
  from_be_bytes (to_be_bytes n x) = wrap (8 * Z.of_nat n) x.
Proof. unfold from_be_bytes, to_be_bytes. rewrite rev_involutive. apply from_to_le_bytes. Qed.

Lemma from_le_bytes_range l :
  bytes_ok l -> uN (8 * Z.of_nat (length l)) (from_le_bytes l).
Proof.
  unfold uN. induction 1 as [|b l Hb Hl IH]; [simpl; lia|].
  change (length (b :: l)) with (S (length l)). rewrite pow256_S.
  unfold uN in Hb. simpl from_le_bytes. lia.
Qed.

Lemma from_be_bytes_range l :
  bytes_ok l -> uN (8 * Z.of_nat (length l)) (from_be_bytes l).
Proof.
  intros H. unfold from_be_bytes. rewrite <- length_rev.
  apply from_le_bytes_range. by apply Forall_rev.
Qed.

Lemma to_from_le_bytes l :
  bytes_ok l -> to_le_bytes (length l) (from_le_bytes l) = l.
Proof.
  induction 1 as [|b l Hb Hl IH]; [done|]. unfold uN in Hb. simpl.
  rewrite (Z.mul_comm 256), Z_mod_plus_full, Z.div_add by lia.
  rewrite (Z.mod_small b), (Z.div_small b), Z.add_0_l, IH by lia. done.
Qed.

Lemma to_from_be_bytes l :
  bytes_ok l -> to_be_bytes (length l) (from_be_bytes l) = l.
Proof.
  intros H. unfold from_be_bytes, to_be_bytes. rewrite <- length_rev.
  rewrite to_from_le_bytes by (by apply Forall_rev). apply rev_involutive.
Qed.

(** ** Slices

    Rust indexing panics out of bounds. *)

Definition index {E A} (l : list A) (i : Z) : Res E A :=
  if i <? 0 then Panic else
  match l !! Z.to_nat i with Some x => Ok x | None => Panic end.

(** [&l[a..b]]. *)
Definition slice {E A} (l : list A) (a b : Z) : Res E (list A) :=
  if (0 <=? a) && (a <=? b) && (b <=? Z.of_nat (length l))
  then Ok (take (Z.to_nat (b - a)) (drop (Z.to_nat a) l)) else Panic.

(** [&l[a..]]. *)
Definition slice_from {E A} (l : list A) (a : Z) : Res E (list A) :=
  slice l a (Z.of_nat (length l)).

(** [Vec::len] and friends, as a machine integer. *)
Definition len {A} (l : list A) : Z := Z.of_nat (length l).

Lemma len_nonneg {A} (l : list A) : 0 <= len l.
Proof. unfold len. lia. Qed.

Lemma len_nil {A} : len (@nil A) = 0.
Proof. done. Qed.

Lemma len_cons {A} (x : A) l : len (x :: l) = 1 + len l.
Proof. unfold len. simpl length. lia. Qed.

Lemma len_app {A} (l k : list A) : len (l ++ k) = len l + len k.
Proof. unfold len. rewrite length_app. lia. Qed.

Lemma slice_Ok {E A} (l : list A) a b :
  0 <= a <= b -> b <= len l ->
  slice (E := E) l a b = Ok (take (Z.to_nat (b - a)) (drop (Z.to_nat a) l)).
Proof.
  unfold slice, len. intros H1 H2.
  destruct (Z.leb_spec 0 a), (Z.leb_spec a b), (Z.leb_spec b (Z.of_nat (length l))); simpl; try lia; done.
Qed.

Lemma index_Ok {E A} (l : list A) i x :
  0 <= i -> l !! Z.to_nat i = Some x -> index (E := E) l i = Ok x.
Proof. intros Hi Hx. unfold index. destruct (Z.ltb_spec i 0); [lia|]. by rewrite Hx. Qed.

(** A [slice] of a concatenation that falls on the seam. *)
Lemma slice_app_l {E A} (l k : list A) n :
  n = len l -> slice (E := E) (l ++ k) 0 n = Ok l.
Proof.
  intros ->. rewrite slice_Ok by (rewrite ?len_app; unfold len; lia).
  rewrite Z.sub_0_r. unfold len. rewrite Nat2Z.id. change (Z.to_nat 0) with 0%nat.
  by rewrite drop_0, take_app_length.
Qed.

Lemma slice_from_app {E A} (l k : list A) n :
  n = len l -> slice_from (E := E) (l ++ k) n = Ok k.
Proof.
  intros ->. unfold slice_from. fold (len (l ++ k)).
  rewrite slice_Ok by (rewrite ?len_app; unfold len; lia).
  rewrite len_app. unfold len. rewrite Nat2Z.id, drop_app_length.
  rewrite take_ge; [done|]. lia.
Qed.

(** A [slice] strictly inside a concatenation. *)
Lemma slice_app_mid {E A} (l m k : list A) a b :
  a = len l -> b = len l + len m -> slice (E := E) (l ++ m ++ k) a b = Ok m.
Proof.
  intros -> ->. rewrite slice_Ok by (rewrite ?len_app; unfold len; lia).
  unfold len. rewrite Nat2Z.id, drop_app_length.
  replace (Z.to_nat _) with (length m) by lia. by rewrite take_app_length.
Qed.

Lemma index_app_mid {E A} (l k : list A) x i :
  i = len l -> index (E := E) (l ++ x :: k) i = Ok x.
Proof.
  intros ->. apply index_Ok; [apply len_nonneg|]. unfold len. rewrite Nat2Z.id.
  by apply list_lookup_middle.
Qed.

Lemma index_cons_0 {E A} (x : A) l : index (E := E) (x :: l) 0 = Ok x.
Proof. reflexivity. Qed.

Lemma index_cons_1 {E A} (x y : A) l : index (E := E) (x :: y :: l) 1 = Ok y.
Proof. reflexivity. Qed.

Lemma slice_from_cons {E A} (x : A) l : slice_from (E := E) (x :: l) 1 = Ok l.
Proof. by apply (slice_from_app [x]). Qed.

Lemma slice_from_cons2 {E A} (x y : A) l : slice_from (E := E) (x :: y :: l) 2 = Ok l.
Proof. by apply (slice_from_app [x; y]). Qed.

(** A list long enough splits after [n] elements. *)
Lemma split_at {A} (l : list A) n :
  0 <= n <= len l -> exists l1 l2, l = l1 ++ l2 /\ len l1 = n /\ len l2 = len l - n.
Proof.
  intros Hn. exists (take (Z.to_nat n) l), (drop (Z.to_nat n) l).
  rewrite take_drop. unfold len in *. rewrite length_take, length_drop. split_and!; [done|lia|lia].
Qed.

(** Fields of [n] bytes read back as written. *)
Lemma be_bytes_back n l : bytes_ok l -> len l = Z.of_nat n -> to_be_bytes n (from_be_bytes l) = l.
Proof. intros Hl Hn. replace n with (length l) by (unfold len in Hn; lia). by apply to_from_be_bytes. Qed.

Lemma be_range n l : bytes_ok l -> len l = Z.of_nat n -> uN (8 * Z.of_nat n) (from_be_bytes l).
Proof. intros Hl Hn. replace n with (length l) by (unfold len in Hn; lia). by apply from_be_bytes_range. Qed.

(** ** Block writes ([list_inserts]) *)

Lemma insert_inserts {A} a (x : A) bs b : list_inserts (S a) bs (<[a := x]> b) = list_inserts a (x :: bs) b.
Proof.
  simpl. apply list_eq. intros k. destruct (decide (k = a)) as [->|Hk].
  - rewrite list_lookup_inserts_lt by lia. destruct (decide (a < length b)%nat).
    + by rewrite !list_lookup_insert_eq by (rewrite ?length_inserts; lia).
    + rewrite !lookup_ge_None_2; rewrite ?length_insert, ?length_inserts; done || lia.
  - rewrite (list_lookup_insert_ne (list_inserts _ _ _)) by done.
    destruct (decide (S a <= k < S a + length bs)%nat).
    + destruct (decide (k < length b)%nat).
      * rewrite !list_lookup_inserts by (rewrite ?length_insert; lia). done.
      * rewrite !lookup_ge_None_2; rewrite ?length_inserts, ?length_insert; done || lia.
    + destruct (decide (k < S a)%nat).
      * rewrite !list_lookup_inserts_lt by lia. by rewrite list_lookup_insert_ne.
      * rewrite !list_lookup_inserts_ge by lia. by rewrite list_lookup_insert_ne.
Qed.

Lemma take_inserts {A} (l ds : list A) :
  (length ds <= length l)%nat -> take (length ds) (list_inserts 0 ds l) = ds.
Proof.
  intros H. apply list_eq. intros k. destruct (decide (k < length ds)%nat) as [Hk|Hk].
  - rewrite lookup_take_lt by done. rewrite list_lookup_inserts by lia. f_equal. lia.
  - rewrite !lookup_ge_None_2; rewrite ?length_take; done || lia.
Qed.

(** ** UTF-8 ([core::str::from_utf8]) *)

Definition cont (b : Z) : bool := (0x80 <=? b) && (b <=? 0xBF).

Fixpoint utf8_ok (fuel : nat) (s : list Z) : bool :=
  match fuel with
  | O => false
  | S fuel' =>
      match s with
      | [] => true
      | a :: s' =>
          if a <? 0x80 then utf8_ok fuel' s' else
          if (0xC2 <=? a) && (a <=? 0xDF) then
            match s' with b :: t => cont b && utf8_ok fuel' t | _ => false end
          else if (0xE0 <=? a) && (a <=? 0xEF) then
            match s' with
            | b :: c :: t =>
                cont b && cont c && negb ((a =? 0xE0) && (b <? 0xA0)) && negb ((a =? 0xED) && (b >? 0x9F)) && utf8_ok fuel' t
            | _ => false
            end
          else if (0xF0 <=? a) && (a <=? 0xF4) then
            match s' with
            | b :: c :: d :: t =>
                cont b && cont c && cont d && negb ((a =? 0xF0) && (b <? 0x90)) && negb ((a =? 0xF4) && (b >? 0x8F)) && utf8_ok fuel' t
            | _ => false
            end
          else false
      end
  end.

Definition from_utf8 (s : list Z) : bool := utf8_ok (S (length s)) s.

(** The code points of White_Space, in UTF-8. *)
Definition WHITE_SPACE : list (list Z) :=
  [[0x09]; [0x0A]; [0x0B]; [0x0C]; [0x0D]; [0x20]; [0xC2; 0x85]; [0xC2; 0xA0]; [0xE1; 0x9A; 0x80];
   [0xE2; 0x80; 0x80]; [0xE2; 0x80; 0x81]; [0xE2; 0x80; 0x82]; [0xE2; 0x80; 0x83]; [0xE2; 0x80; 0x84];
   [0xE2; 0x80; 0x85]; [0xE2; 0x80; 0x86]; [0xE2; 0x80; 0x87]; [0xE2; 0x80; 0x88]; [0xE2; 0x80; 0x89];
   [0xE2; 0x80; 0x8A]; [0xE2; 0x80; 0xA8]; [0xE2; 0x80; 0xA9]; [0xE2; 0x80; 0xAF]; [0xE2; 0x81; 0x9F]; [0xE3; 0x80; 0x80]].

Fixpoint strip_prefix (p s : list Z) : option (list Z) :=
  match p, s with
  | [], _ => Some s
  | x :: p', y :: s' => if x =? y then strip_prefix p' s' else None
  | _ :: _, [] => None
  end.

(** The first of these prefixes taken off, again and again. *)
Fixpoint trim_prefixes (fuel : nat) (ps : list (list Z)) (s : list Z) : list Z :=
  match fuel with
  | O => s
  | S fuel' => match head (omap (fun p => strip_prefix p s) ps) with Some s' => trim_prefixes fuel' ps s' | None => s end
  end.

(** [str::trim] of a UTF-8 string. *)
Definition trim_start (s : list Z) : list Z := trim_prefixes (length s) WHITE_SPACE s.
Definition trim_end (s : list Z) : list Z := rev (trim_prefixes (length s) (@rev Z <$> WHITE_SPACE) (rev s)).
Definition trim (s : list Z) : list Z := trim_end (trim_start s).

(** ** Automation *)

Create HintDb sonde discriminated.
Create Rewrite HintDb sonde_len.
#[export] Hint Resolve wrap_range signed_range to_le_bytes_ok to_be_bytes_ok
  from_le_bytes_range from_be_bytes_range len_nonneg : sonde.
#[export] Hint Rewrite @len_nil @len_cons @len_app length_to_be_bytes length_to_le_bytes : sonde_len.

(** Splits the boolean tests of the goal and of the hypotheses into the
    propositions they decide. *)
Ltac zbool :=
  repeat match goal with
  | H : context [_ >? _] |- _ => rewrite Z.gtb_ltb in H
  | H : context [_ >=? _] |- _ => rewrite Z.geb_leb in H
  | H : (_ <? _) = true |- _ => apply Z.ltb_lt in H
  | H : (_ <? _) = false |- _ => apply Z.ltb_ge in H
  | H : (_ <=? _) = true |- _ => apply Z.leb_le in H
  | H : (_ <=? _) = false |- _ => apply Z.leb_gt in H
  | H : (_ =? _) = true |- _ => apply Z.eqb_eq in H
  | H : (_ =? _) = false |- _ => apply Z.eqb_neq in H
  | H : (_ && _)%bool = true |- _ => apply andb_true_iff in H as [? ?]
  | H : (_ || _)%bool = false |- _ => apply orb_false_iff in H as [? ?]
  | H : negb _ = true |- _ => apply negb_true_iff in H
  | H : negb _ = false |- _ => apply negb_false_iff in H
  end.

(** Inverts a chain of monadic binds ending in [Ok]. *)
Ltac inv_bind H :=
  repeat match type of H with
  | res_bind _ _ = Ok _ =>
      let a := fresh "a" in let Ha := fresh "Ha" in
      apply res_bind_Ok in H as (a & Ha & H)
  end.
