(* ===== verification/Ebpf.v ===== *)
(** * Opcodes and instruction decoding ([sonde-bpf/src/ebpf.rs])

    The numeric opcode table of RFC 9669 as the crate writes it, the decoded
    instruction [Insn] and its decoder [get_insn], and the build configuration
    (cargo features, pointer width, overflow checks) the interpreter is compiled
    under. *)

From S2P Require Import Prelude.
Open Scope Z_scope.

Local Infix "|||" := Z.lor (at level 50, left associativity).


(** Instruction size *)
Definition INSN_SIZE : Z := 8.
Definition STACK_SIZE_PER_FRAME : Z := 512.

(** Instruction classes (3 LSBs of opcode) *)
Definition BPF_LD : Z := 0x00.
Definition BPF_LDX : Z := 0x01.
Definition BPF_ST : Z := 0x02.
Definition BPF_STX : Z := 0x03.
Definition BPF_ALU : Z := 0x04.
Definition BPF_JMP : Z := 0x05.
Definition BPF_JMP32 : Z := 0x06.
Definition BPF_ALU64 : Z := 0x07.

(** Size modifiers (load/store) *)
Definition BPF_W : Z := 0x00.
Definition BPF_H : Z := 0x08.
Definition BPF_B : Z := 0x10.
Definition BPF_DW : Z := 0x18.

(** Mode modifiers (load/store) *)
Definition BPF_IMM : Z := 0x00.
Definition BPF_ABS : Z := 0x20.
Definition BPF_IND : Z := 0x40.
Definition BPF_MEM : Z := 0x60.
Definition BPF_MEMSX : Z := 0x80.
Definition BPF_ATOMIC : Z := 0xc0.

(** Source modifiers (ALU/JMP) *)
Definition BPF_K : Z := 0x00.
Definition BPF_X : Z := 0x08.

(** ALU operation codes *)
Definition BPF_ADD : Z := 0x00.
Definition BPF_SUB : Z := 0x10.
Definition BPF_MUL : Z := 0x20.
Definition BPF_DIV : Z := 0x30.
Definition BPF_OR : Z := 0x40.
Definition BPF_AND : Z := 0x50.
Definition BPF_LSH : Z := 0x60.
Definition BPF_RSH : Z := 0x70.
Definition BPF_NEG : Z := 0x80.
Definition BPF_MOD : Z := 0x90.
Definition BPF_XOR : Z := 0xa0.
Definition BPF_MOV : Z := 0xb0.
Definition BPF_ARSH : Z := 0xc0.
Definition BPF_END : Z := 0xd0.

(** JMP operation codes *)
Definition BPF_JA : Z := 0x00.
Definition BPF_JEQ : Z := 0x10.
Definition BPF_JGT : Z := 0x20.
Definition BPF_JGE : Z := 0x30.
Definition BPF_JSET : Z := 0x40.
Definition BPF_JNE : Z := 0x50.
Definition BPF_JSGT : Z := 0x60.
Definition BPF_JSGE : Z := 0x70.
Definition BPF_CALL : Z := 0x80.
Definition BPF_EXIT : Z := 0x90.
Definition BPF_JLT : Z := 0xa0.
Definition BPF_JLE : Z := 0xb0.
Definition BPF_JSLT : Z := 0xc0.
Definition BPF_JSLE : Z := 0xd0.

(** Atomic operation imm field values *)
Definition BPF_ATOMIC_ADD : Z := 0x00.
Definition BPF_ATOMIC_OR : Z := 0x40.
Definition BPF_ATOMIC_AND : Z := 0x50.
Definition BPF_ATOMIC_XOR : Z := 0xa0.
Definition BPF_ATOMIC_FETCH : Z := 0x01.
Definition BPF_ATOMIC_XCHG : Z := Eval compute in 0xe0 ||| 0x01.
Definition BPF_ATOMIC_CMPXCHG : Z := Eval compute in 0xf0 ||| 0x01.

(** Composite opcodes — ALU32 *)
Definition ADD32_IMM : Z := Eval compute in BPF_ALU ||| BPF_K ||| BPF_ADD.
Definition ADD32_REG : Z := Eval compute in BPF_ALU ||| BPF_X ||| BPF_ADD.
Definition SUB32_IMM : Z := Eval compute in BPF_ALU ||| BPF_K ||| BPF_SUB.
Definition SUB32_REG : Z := Eval compute in BPF_ALU ||| BPF_X ||| BPF_SUB.
Definition MUL32_IMM : Z := Eval compute in BPF_ALU ||| BPF_K ||| BPF_MUL.
Definition MUL32_REG : Z := Eval compute in BPF_ALU ||| BPF_X ||| BPF_MUL.
Definition DIV32_IMM : Z := Eval compute in BPF_ALU ||| BPF_K ||| BPF_DIV.
Definition DIV32_REG : Z := Eval compute in BPF_ALU ||| BPF_X ||| BPF_DIV.
Definition OR32_IMM : Z := Eval compute in BPF_ALU ||| BPF_K ||| BPF_OR.
Definition OR32_REG : Z := Eval compute in BPF_ALU ||| BPF_X ||| BPF_OR.
Definition AND32_IMM : Z := Eval compute in BPF_ALU ||| BPF_K ||| BPF_AND.
Definition AND32_REG : Z := Eval compute in BPF_ALU ||| BPF_X ||| BPF_AND.
Definition LSH32_IMM : Z := Eval compute in BPF_ALU ||| BPF_K ||| BPF_LSH.
Definition LSH32_REG : Z := Eval compute in BPF_ALU ||| BPF_X ||| BPF_LSH.
Definition RSH32_IMM : Z := Eval compute in BPF_ALU ||| BPF_K ||| BPF_RSH.
Definition RSH32_REG : Z := Eval compute in BPF_ALU ||| BPF_X ||| BPF_RSH.
Definition NEG32 : Z := Eval compute in BPF_ALU ||| BPF_K ||| BPF_NEG.
Definition MOD32_IMM : Z := Eval compute in BPF_ALU ||| BPF_K ||| BPF_MOD.
Definition MOD32_REG : Z := Eval compute in BPF_ALU ||| BPF_X ||| BPF_MOD.
Definition XOR32_IMM : Z := Eval compute in BPF_ALU ||| BPF_K ||| BPF_XOR.
Definition XOR32_REG : Z := Eval compute in BPF_ALU ||| BPF_X ||| BPF_XOR.
Definition MOV32_IMM : Z := Eval compute in BPF_ALU ||| BPF_K ||| BPF_MOV.
Definition MOV32_REG : Z := Eval compute in BPF_ALU ||| BPF_X ||| BPF_MOV.
Definition ARSH32_IMM : Z := Eval compute in BPF_ALU ||| BPF_K ||| BPF_ARSH.
Definition ARSH32_REG : Z := Eval compute in BPF_ALU ||| BPF_X ||| BPF_ARSH.
Definition LE : Z := Eval compute in BPF_ALU   ||| BPF_K ||| BPF_END.
Definition BE : Z := Eval compute in BPF_ALU   ||| BPF_X ||| BPF_END.
Definition BSWAP : Z := Eval compute in BPF_ALU64 ||| BPF_K ||| BPF_END.

(** Composite opcodes — ALU64 *)
Definition ADD64_IMM : Z := Eval compute in BPF_ALU64 ||| BPF_K ||| BPF_ADD.
Definition ADD64_REG : Z := Eval compute in BPF_ALU64 ||| BPF_X ||| BPF_ADD.
Definition SUB64_IMM : Z := Eval compute in BPF_ALU64 ||| BPF_K ||| BPF_SUB.
Definition SUB64_REG : Z := Eval compute in BPF_ALU64 ||| BPF_X ||| BPF_SUB.
Definition MUL64_IMM : Z := Eval compute in BPF_ALU64 ||| BPF_K ||| BPF_MUL.
Definition MUL64_REG : Z := Eval compute in BPF_ALU64 ||| BPF_X ||| BPF_MUL.
Definition DIV64_IMM : Z := Eval compute in BPF_ALU64 ||| BPF_K ||| BPF_DIV.
Definition DIV64_REG : Z := Eval compute in BPF_ALU64 ||| BPF_X ||| BPF_DIV.
Definition OR64_IMM : Z := Eval compute in BPF_ALU64 ||| BPF_K ||| BPF_OR.
Definition OR64_REG : Z := Eval compute in BPF_ALU64 ||| BPF_X ||| BPF_OR.
Definition AND64_IMM : Z := Eval compute in BPF_ALU64 ||| BPF_K ||| BPF_AND.
Definition AND64_REG : Z := Eval compute in BPF_ALU64 ||| BPF_X ||| BPF_AND.
Definition LSH64_IMM : Z := Eval compute in BPF_ALU64 ||| BPF_K ||| BPF_LSH.
Definition LSH64_REG : Z := Eval compute in BPF_ALU64 ||| BPF_X ||| BPF_LSH.
Definition RSH64_IMM : Z := Eval compute in BPF_ALU64 ||| BPF_K ||| BPF_RSH.
Definition RSH64_REG : Z := Eval compute in BPF_ALU64 ||| BPF_X ||| BPF_RSH.
Definition NEG64 : Z := Eval compute in BPF_ALU64 ||| BPF_K ||| BPF_NEG.
Definition MOD64_IMM : Z := Eval compute in BPF_ALU64 ||| BPF_K ||| BPF_MOD.
Definition MOD64_REG : Z := Eval compute in BPF_ALU64 ||| BPF_X ||| BPF_MOD.
Definition XOR64_IMM : Z := Eval compute in BPF_ALU64 ||| BPF_K ||| BPF_XOR.
Definition XOR64_REG : Z := Eval compute in BPF_ALU64 ||| BPF_X ||| BPF_XOR.
Definition MOV64_IMM : Z := Eval compute in BPF_ALU64 ||| BPF_K ||| BPF_MOV.
Definition MOV64_REG : Z := Eval compute in BPF_ALU64 ||| BPF_X ||| BPF_MOV.
Definition ARSH64_IMM : Z := Eval compute in BPF_ALU64 ||| BPF_K ||| BPF_ARSH.
Definition ARSH64_REG : Z := Eval compute in BPF_ALU64 ||| BPF_X ||| BPF_ARSH.

(** Composite opcodes — Load / Store *)
Definition LD_DW_IMM : Z := Eval compute in BPF_LD  ||| BPF_IMM ||| BPF_DW.
Definition LD_B_REG : Z := Eval compute in BPF_LDX ||| BPF_MEM ||| BPF_B.
Definition LD_H_REG : Z := Eval compute in BPF_LDX ||| BPF_MEM ||| BPF_H.
Definition LD_W_REG : Z := Eval compute in BPF_LDX ||| BPF_MEM ||| BPF_W.
Definition LD_DW_REG : Z := Eval compute in BPF_LDX ||| BPF_MEM ||| BPF_DW.
Definition LDSX_B_REG : Z := Eval compute in BPF_LDX ||| BPF_MEMSX ||| BPF_B.
Definition LDSX_H_REG : Z := Eval compute in BPF_LDX ||| BPF_MEMSX ||| BPF_H.
Definition LDSX_W_REG : Z := Eval compute in BPF_LDX ||| BPF_MEMSX ||| BPF_W.
Definition ST_B_IMM : Z := Eval compute in BPF_ST  ||| BPF_MEM ||| BPF_B.
Definition ST_H_IMM : Z := Eval compute in BPF_ST  ||| BPF_MEM ||| BPF_H.
Definition ST_W_IMM : Z := Eval compute in BPF_ST  ||| BPF_MEM ||| BPF_W.
Definition ST_DW_IMM : Z := Eval compute in BPF_ST  ||| BPF_MEM ||| BPF_DW.
Definition ST_B_REG : Z := Eval compute in BPF_STX ||| BPF_MEM ||| BPF_B.
Definition ST_H_REG : Z := Eval compute in BPF_STX ||| BPF_MEM ||| BPF_H.
Definition ST_W_REG : Z := Eval compute in BPF_STX ||| BPF_MEM ||| BPF_W.
Definition ST_DW_REG : Z := Eval compute in BPF_STX ||| BPF_MEM ||| BPF_DW.
Definition ST_W_ATOMIC : Z := Eval compute in BPF_STX ||| BPF_ATOMIC ||| BPF_W.
Definition ST_DW_ATOMIC : Z := Eval compute in BPF_STX ||| BPF_ATOMIC ||| BPF_DW.

(** Legacy packet access (deprecated, but included for completeness) *)
Definition LD_ABS_B : Z := Eval compute in BPF_LD ||| BPF_ABS ||| BPF_B.
Definition LD_ABS_H : Z := Eval compute in BPF_LD ||| BPF_ABS ||| BPF_H.
Definition LD_ABS_W : Z := Eval compute in BPF_LD ||| BPF_ABS ||| BPF_W.
Definition LD_ABS_DW : Z := Eval compute in BPF_LD ||| BPF_ABS ||| BPF_DW.
Definition LD_IND_B : Z := Eval compute in BPF_LD ||| BPF_IND ||| BPF_B.
Definition LD_IND_H : Z := Eval compute in BPF_LD ||| BPF_IND ||| BPF_H.
Definition LD_IND_W : Z := Eval compute in BPF_LD ||| BPF_IND ||| BPF_W.
Definition LD_IND_DW : Z := Eval compute in BPF_LD ||| BPF_IND ||| BPF_DW.

(** Composite opcodes — JMP (64-bit comparisons) *)
Definition JA : Z := Eval compute in BPF_JMP ||| BPF_JA.
Definition JEQ_IMM : Z := Eval compute in BPF_JMP ||| BPF_K ||| BPF_JEQ.
Definition JEQ_REG : Z := Eval compute in BPF_JMP ||| BPF_X ||| BPF_JEQ.
Definition JGT_IMM : Z := Eval compute in BPF_JMP ||| BPF_K ||| BPF_JGT.
Definition JGT_REG : Z := Eval compute in BPF_JMP ||| BPF_X ||| BPF_JGT.
Definition JGE_IMM : Z := Eval compute in BPF_JMP ||| BPF_K ||| BPF_JGE.
Definition JGE_REG : Z := Eval compute in BPF_JMP ||| BPF_X ||| BPF_JGE.
Definition JLT_IMM : Z := Eval compute in BPF_JMP ||| BPF_K ||| BPF_JLT.
Definition JLT_REG : Z := Eval compute in BPF_JMP ||| BPF_X ||| BPF_JLT.
Definition JLE_IMM : Z := Eval compute in BPF_JMP ||| BPF_K ||| BPF_JLE.
Definition JLE_REG : Z := Eval compute in BPF_JMP ||| BPF_X ||| BPF_JLE.
Definition JSET_IMM : Z := Eval compute in BPF_JMP ||| BPF_K ||| BPF_JSET.
Definition JSET_REG : Z := Eval compute in BPF_JMP ||| BPF_X ||| BPF_JSET.
Definition JNE_IMM : Z := Eval compute in BPF_JMP ||| BPF_K ||| BPF_JNE.
Definition JNE_REG : Z := Eval compute in BPF_JMP ||| BPF_X ||| BPF_JNE.
Definition JSGT_IMM : Z := Eval compute in BPF_JMP ||| BPF_K ||| BPF_JSGT.
Definition JSGT_REG : Z := Eval compute in BPF_JMP ||| BPF_X ||| BPF_JSGT.
Definition JSGE_IMM : Z := Eval compute in BPF_JMP ||| BPF_K ||| BPF_JSGE.
Definition JSGE_REG : Z := Eval compute in BPF_JMP ||| BPF_X ||| BPF_JSGE.
Definition JSLT_IMM : Z := Eval compute in BPF_JMP ||| BPF_K ||| BPF_JSLT.
Definition JSLT_REG : Z := Eval compute in BPF_JMP ||| BPF_X ||| BPF_JSLT.
Definition JSLE_IMM : Z := Eval compute in BPF_JMP ||| BPF_K ||| BPF_JSLE.
Definition JSLE_REG : Z := Eval compute in BPF_JMP ||| BPF_X ||| BPF_JSLE.
Definition CALL : Z := Eval compute in BPF_JMP ||| BPF_K ||| BPF_CALL.
Definition EXIT : Z := Eval compute in BPF_JMP ||| BPF_K ||| BPF_EXIT.

(** Composite opcodes — JMP32 (32-bit comparisons) *)
Definition JA32 : Z := Eval compute in BPF_JMP32 ||| BPF_K ||| BPF_JA.
Definition JEQ_IMM32 : Z := Eval compute in BPF_JMP32 ||| BPF_K ||| BPF_JEQ.
Definition JEQ_REG32 : Z := Eval compute in BPF_JMP32 ||| BPF_X ||| BPF_JEQ.
Definition JGT_IMM32 : Z := Eval compute in BPF_JMP32 ||| BPF_K ||| BPF_JGT.
Definition JGT_REG32 : Z := Eval compute in BPF_JMP32 ||| BPF_X ||| BPF_JGT.
Definition JGE_IMM32 : Z := Eval compute in BPF_JMP32 ||| BPF_K ||| BPF_JGE.
Definition JGE_REG32 : Z := Eval compute in BPF_JMP32 ||| BPF_X ||| BPF_JGE.
Definition JLT_IMM32 : Z := Eval compute in BPF_JMP32 ||| BPF_K ||| BPF_JLT.
Definition JLT_REG32 : Z := Eval compute in BPF_JMP32 ||| BPF_X ||| BPF_JLT.
Definition JLE_IMM32 : Z := Eval compute in BPF_JMP32 ||| BPF_K ||| BPF_JLE.
Definition JLE_REG32 : Z := Eval compute in BPF_JMP32 ||| BPF_X ||| BPF_JLE.
Definition JSET_IMM32 : Z := Eval compute in BPF_JMP32 ||| BPF_K ||| BPF_JSET.
Definition JSET_REG32 : Z := Eval compute in BPF_JMP32 ||| BPF_X ||| BPF_JSET.
Definition JNE_IMM32 : Z := Eval compute in BPF_JMP32 ||| BPF_K ||| BPF_JNE.
Definition JNE_REG32 : Z := Eval compute in BPF_JMP32 ||| BPF_X ||| BPF_JNE.
Definition JSGT_IMM32 : Z := Eval compute in BPF_JMP32 ||| BPF_K ||| BPF_JSGT.
Definition JSGT_REG32 : Z := Eval compute in BPF_JMP32 ||| BPF_X ||| BPF_JSGT.
Definition JSGE_IMM32 : Z := Eval compute in BPF_JMP32 ||| BPF_K ||| BPF_JSGE.
Definition JSGE_REG32 : Z := Eval compute in BPF_JMP32 ||| BPF_X ||| BPF_JSGE.
Definition JSLT_IMM32 : Z := Eval compute in BPF_JMP32 ||| BPF_K ||| BPF_JSLT.
Definition JSLT_REG32 : Z := Eval compute in BPF_JMP32 ||| BPF_X ||| BPF_JSLT.
Definition JSLE_IMM32 : Z := Eval compute in BPF_JMP32 ||| BPF_K ||| BPF_JSLE.
Definition JSLE_REG32 : Z := Eval compute in BPF_JMP32 ||| BPF_X ||| BPF_JSLE.

(** Masks *)
Definition BPF_CLS_MASK : Z := 0x07.
Definition BPF_ALU_OP_MASK : Z := 0xf0.

(** ** Build configuration

    The cargo features of [sonde-bpf/Cargo.toml] that select match arms
    ([base32] is mandatory), the pointer width of the target and whether the
    profile checks integer overflow. *)
Record Build := mkBuild {
  overflow_checks : bool;
  usize_bits : Z;
  base64 : bool;
  atomic32 : bool;
  atomic64 : bool;
  divmul32 : bool;
  divmul64 : bool;
  stack_512 : bool
}.

Definition MAX_CALL_DEPTH (b : Build) : Z := if stack_512 b then 1 else 8.

Definition STACK_SIZE (b : Build) : Z := STACK_SIZE_PER_FRAME * MAX_CALL_DEPTH b.

(** The pointer widths of the supported targets: 32 bits on the ESP32 family,
    64 bits on hosts. *)
Definition build_ok (b : Build) : Prop := usize_bits b = 32 \/ usize_bits b = 64.

(** The default feature set, on a 64-bit host ([sonde-gateway]). *)
Definition host_build (oc : bool) : Build := mkBuild oc 64 true true true true true false.

(** The firmware configuration ([sonde-node], 32-bit target, release profile). *)
Definition firmware_build : Build := mkBuild false 32 true true true true true false.

Lemma STACK_SIZE_cases b : STACK_SIZE b = 512 \/ STACK_SIZE b = 4096.
Proof. unfold STACK_SIZE, MAX_CALL_DEPTH. destruct (stack_512 b); [by left|by right]. Qed.

(** ** Instructions *)

Record Insn := mkInsn {
  opc : Z;   (* u8 *)
  dst : Z;   (* u8 *)
  src : Z;   (* u8 *)
  off : Z;   (* i16 *)
  imm : Z    (* i32 *)
}.

Definition decode_insn {E} (b : list Z) : Res E Insn :=
  let? b0 := index b 0 in
  let? b1 := index b 1 in
  let? b2 := index b 2 in
  let? b3 := index b 3 in
  let? b4 := index b 4 in
  let? b5 := index b 5 in
  let? b6 := index b 6 in
  let? b7 := index b 7 in
  Ok {| opc := b0;
        dst := Z.land b1 0x0f;
        src := Z.land (Z.shiftr b1 4) 0x0f;
        off := signed 16 (from_le_bytes [b2; b3]);
        imm := signed 32 (from_le_bytes [b4; b5; b6; b7]) |}.

(** Decode instruction number [idx]; slicing panics when [prog] is too short. *)
Definition get_insn {E} (prog : list Z) (idx : Z) : Res E Insn :=
  let off := idx * INSN_SIZE in
  let? b := slice prog off (off + INSN_SIZE) in
  decode_insn b.

(** The instruction's wire form, the inverse of [decode_insn]. *)
Definition encode_insn (i : Insn) : list Z :=
  [opc i; dst i ||| Z.shiftl (src i) 4] ++ to_le_bytes 2 (off i) ++ to_le_bytes 4 (imm i).

Definition insn_ok (i : Insn) : Prop :=
  uN 8 (opc i) /\ uN 4 (dst i) /\ uN 4 (src i) /\ iN 16 (off i) /\ iN 32 (imm i).

(** ** Lemmas *)

Lemma decode_insn_eq {E} b0 b1 b2 b3 b4 b5 b6 b7 :
  decode_insn (E := E) [b0; b1; b2; b3; b4; b5; b6; b7] =
  Ok {| opc := b0; dst := Z.land b1 0x0f; src := Z.land (Z.shiftr b1 4) 0x0f;
        off := signed 16 (from_le_bytes [b2; b3]);
        imm := signed 32 (from_le_bytes [b4; b5; b6; b7]) |}.
Proof. reflexivity. Qed.

Lemma decode_insn_Ok {E} (b : list Z) :
  length b = 8%nat -> bytes_ok b -> exists i, decode_insn (E := E) b = Ok i /\ insn_ok i.
Proof.
  intros Hl Hb.
  destruct b as [|b0 [|b1 [|b2 [|b3 [|b4 [|b5 [|b6 [|b7 [|? ?]]]]]]]]]; try discriminate.
  eexists. split; [reflexivity|].
  rewrite !Forall_cons_iff in Hb. destruct Hb as (? & ? & ? & ? & ? & ? & ? & ? & _).
  split_and!; simpl; auto using signed_range with lia.
  - unfold uN. change 0x0f with (Z.ones 4). rewrite Z.land_ones by lia. by apply Z.mod_pos_bound.
  - unfold uN. change 0x0f with (Z.ones 4). rewrite Z.land_ones by lia. by apply Z.mod_pos_bound.
Qed.

Lemma get_insn_Ok {E} (prog : list Z) idx :
  bytes_ok prog -> 0 <= idx -> idx < len prog / INSN_SIZE ->
  exists i, get_insn (E := E) prog idx = Ok i /\ insn_ok i.
Proof.
  intros Hb H0 H1. unfold get_insn, INSN_SIZE in *.
  assert (8 * (len prog / 8) <= len prog) by (apply Z.mul_div_le; lia).
  rewrite slice_Ok by lia. simpl.
  apply decode_insn_Ok; [|by apply Forall_take, Forall_drop].
  rewrite length_take, length_drop. unfold len in *. lia.
Qed.

(** A register pair packed in one byte unpacks. *)
Lemma unpack_nibbles d s :
  uN 4 d -> uN 4 s ->
  Z.land (d ||| Z.shiftl s 4) 0x0f = d /\
  Z.land (Z.shiftr (d ||| Z.shiftl s 4) 4) 0x0f = s.
Proof.
  intros Hd Hs. change 0x0f with (Z.ones 4).
  assert (Z.shiftr d 4 = 0) as Hd0.
  { rewrite Z.shiftr_div_pow2 by lia. apply Z.div_small. exact Hd. }
  rewrite Z.shiftr_lor, Hd0, Z.lor_0_l, Z.shiftr_shiftl_l by lia.
  change (4 - 4) with 0. rewrite Z.shiftl_0_r, Z.land_lor_distr_l, !Z.land_ones by lia.
  rewrite (Z.mod_small d), (Z.mod_small s) by assumption. split; [|done].
  rewrite Z.shiftl_mul_pow2, Z.mod_mul, Z.lor_0_r by lia. done.
Qed.

Lemma decode_encode_insn {E} (i : Insn) :
  insn_ok i -> decode_insn (E := E) (encode_insn i) = Ok i.
Proof.
  intros (Ho & Hd & Hs & Hoff & Himm).
  destruct (unpack_nibbles (dst i) (src i) Hd Hs) as [E1 E2].
  cbv [encode_insn]. cbn [app to_le_bytes]. rewrite decode_insn_eq.
  rewrite E1, E2.
  change [off i mod 256; off i / 256 mod 256] with (to_le_bytes 2 (off i)).
  change [imm i mod 256; imm i / 256 mod 256; imm i / 256 / 256 mod 256;
          imm i / 256 / 256 / 256 mod 256] with (to_le_bytes 4 (imm i)).
  rewrite !from_to_le_bytes.
  change (8 * Z.of_nat 2) with 16. change (8 * Z.of_nat 4) with 32.
  rewrite (signed_small 16 _ ltac:(lia) Hoff), (signed_small 32 _ ltac:(lia) Himm).
  by destruct i.
Qed.

(** The byte code of a list of instructions. *)
Definition assemble (insns : list Insn) : list Z := concat (encode_insn <$> insns).

Lemma length_encode_insn i : length (encode_insn i) = 8%nat.
Proof. unfold encode_insn. by rewrite !length_app, !length_to_le_bytes. Qed.

Lemma assemble_cons i insns : assemble (i :: insns) = encode_insn i ++ assemble insns.
Proof. reflexivity. Qed.

Lemma assemble_drop insns (n : nat) i :
  insns !! n = Some i -> exists rest, drop (8 * n) (assemble insns) = encode_insn i ++ rest.
Proof.
  revert n. induction insns as [|j insns IH]; intros [|n] Hn; [done..| |].
  - injection Hn as ->. by exists (assemble insns).
  - destruct (IH n Hn) as [rest Hr]. exists rest. rewrite <- Hr.
    rewrite assemble_cons, drop_app_ge by (rewrite length_encode_insn; lia).
    rewrite length_encode_insn. f_equal. lia.
Qed.

Lemma length_assemble insns : length (assemble insns) = (8 * length insns)%nat.
Proof.
  induction insns as [|i insns IH]; [done|].
  rewrite assemble_cons, length_app, length_cons, length_encode_insn, IH. lia.
Qed.

(** Instruction fetch inverts the wire encoding: fetching slot [n] of an
    assembled program yields exactly its [n]-th instruction, with the signed offset
    and immediate fields and both register nibbles intact. *)
Lemma get_insn_assemble {E} insns (n : nat) i :
  Forall insn_ok insns -> insns !! n = Some i -> get_insn (E := E) (assemble insns) (Z.of_nat n) = Ok i.
Proof.
  intros Hok Hn. pose proof (lookup_lt_Some _ _ _ Hn) as Hl. unfold get_insn, INSN_SIZE.
  pose proof (length_assemble insns) as Hla. rewrite slice_Ok by (unfold len; lia). cbn [res_bind].
  destruct (assemble_drop insns n i Hn) as [rest Hr].
  replace (Z.to_nat (Z.of_nat n * 8)) with (8 * n)%nat by lia. rewrite Hr.
  rewrite take_app_length' by (rewrite length_encode_insn; lia).
  apply decode_encode_insn. by eapply Forall_lookup_1.
Qed.

