(* ===== verification/BpfTypes.v ===== *)
(** * Interpreter data types ([sonde-bpf/src/interpreter.rs], lines 24-181, 283-310)

    Errors, tagged registers, helper and map descriptors, and call frames of the
    BPF interpreter, with the decidable equalities the code relies on.  Memory is
    the flat byte-addressed address space the interpreter dereferences through raw
    pointers: a finite map whose domain is the set of live addresses. *)

From S2P Require Import Prelude.
From S2P Require Import Ebpf.
Open Scope Z_scope.

Inductive BpfError : Type :=
  | OutOfBounds (pc : Z)
  | UnknownOpcode (pc opc : Z)
  | UnknownHelper (pc id : Z)
  | CallDepthExceeded (pc : Z)
  | MemoryAccessViolation (pc addr len : Z)
  | NonDereferenceableAccess (pc : Z)
  | InvalidHelperArgument (pc arg : Z)
  | ReadOnlyWrite (pc : Z)
  | InvalidPointerArithmetic (pc : Z)
  | InvalidMapIndex (pc index : Z)
  | InstructionBudgetExceeded (pc : Z).

Abbreviation Exec := (Res BpfError).

(** The address space: live addresses and the byte each holds. *)
Abbreviation memory := (gmap Z Z).

Inductive RegionTag : Type :=
  | Stack
  | Context
  | Memory
  | MapValue (value_size : Z)
  | MapDescriptor (map_index : Z).

Record Region := mkRegion { tag : RegionTag; base : Z; rend : Z }.

Record TaggedReg := mkReg { value : Z; region : option Region }.

Definition scalar (v : Z) : TaggedReg := mkReg v None.
Definition zeroed : TaggedReg := mkReg 0 None.

#[export] Instance RegionTag_eq_dec : EqDecision RegionTag.
Proof. solve_decision. Defined.
#[export] Instance Region_eq_dec : EqDecision Region.
Proof. solve_decision. Defined.
#[export] Instance TaggedReg_inhabited : Inhabited TaggedReg := populate zeroed.

Inductive HelperReturn : Type :=
  | Scalar
  | MapValueOrNull (map_arg : Z).

(** A helper is native code of the embedding application: it receives r1-r5,
    may change memory, and returns r0. *)
Definition Helper : Type := Z -> Z -> Z -> Z -> Z -> memory -> Z * memory.

Record HelperDescriptor := mkHelper { id : Z; func : Helper; ret : HelperReturn }.

Record MapRegion := mkMap {
  relocated_ptr : Z;
  key_size : Z;
  value_size : Z;
  data_start : Z;
  data_end : Z
}.

Record ContextPointerField := mkCtxPtr { cp_offset : Z; cp_region : Region }.

Record CallFrame := mkFrame {
  saved_regs : list Z;
  saved_regions : list (option Region);
  return_pc : Z;
  frame_size : Z
}.

Definition CallFrame_zeroed : CallFrame :=
  mkFrame (replicate 4 0) (replicate 4 None) 0 0.

#[export] Instance CallFrame_inhabited : Inhabited CallFrame := populate CallFrame_zeroed.

(** [matches!(region.tag, RegionTag::MapDescriptor { .. })] and its siblings. *)
Definition is_map_descriptor (r : Region) : bool :=
  match tag r with MapDescriptor _ => true | _ => false end.
Definition is_context (r : Region) : bool :=
  match tag r with Context => true | _ => false end.
Definition is_stack (r : Region) : bool :=
  match tag r with Stack => true | _ => false end.

(** [matches!(reg.region, Some(Region { tag: RegionTag::Stack, .. }))] and its siblings. *)
Definition reg_on_stack (r : TaggedReg) : bool :=
  match region r with Some g => is_stack g | None => false end.
Definition reg_on_context (r : TaggedReg) : bool :=
  match region r with
  | Some g => match tag g with Context | Memory => true | _ => false end
  | None => false
  end.
Definition reg_is_map_descriptor (r : TaggedReg) : bool :=
  match region r with Some g => is_map_descriptor g | None => false end.

(** ** The register file

    Eleven registers; every index the interpreter uses was checked to be at most
    10 ([dst > 10 || src > 10]) or is a literal. *)

Abbreviation regs := (list TaggedReg).

Definition rget (rs : regs) (i : Z) : TaggedReg := rs !!! Z.to_nat i.
Definition rset (rs : regs) (i : Z) (r : TaggedReg) : regs := <[Z.to_nat i := r]> rs.

Lemma reg_eta (r : TaggedReg) : mkReg (value r) (region r) = r.
Proof. by destruct r. Qed.

Lemma rget_rset_eq rs i r :
  0 <= i -> i < len rs -> rget (rset rs i r) i = r.
Proof.
  intros H0 H1. unfold rget, rset, len in *.
  apply list_lookup_total_insert_eq. lia.
Qed.

Lemma rget_rset_ne rs i j r :
  0 <= i -> 0 <= j -> i <> j -> rget (rset rs i r) j = rget rs j.
Proof. intros H0 H1 H2. unfold rget, rset. apply list_lookup_total_insert_ne. lia. Qed.

Lemma len_rset rs i r : len (rset rs i r) = len rs.
Proof. unfold len, rset. by rewrite length_insert. Qed.

Lemma Forall_rset (P : TaggedReg -> Prop) rs i r :
  Forall P rs -> P r -> Forall P (rset rs i r).
Proof. intros. unfold rset. by apply Forall_insert. Qed.

Lemma Forall_rget (P : TaggedReg -> Prop) rs i :
  Forall P rs -> 0 <= i -> i < len rs -> P (rget rs i).
Proof.
  intros HF H0 H1. unfold rget, len in *. rewrite Forall_lookup in HF.
  apply (HF (Z.to_nat i)). apply list_lookup_lookup_total_lt. lia.
Qed.
