(* ===== verification/BpfSpill.v ===== *)
(** * Spill tracker ([SpillTracker], interpreter.rs lines 183-286)

    The interpreter keeps the region tag of a pointer register that the program
    saves to its stack, in a bitmap with one bit per 8-byte slot and a table of 32
    entries.  [BpfSpillSpec] shows that it implements a finite map from slot
    numbers to regions. *)

From S2P Require Import Prelude.
From S2P Require Import Ebpf.
From S2P Require Import BpfTypes.
Open Scope Z_scope.

Definition MAX_SPILL_SLOTS : Z := 32.

Record SpillEntry := mkEntry { stack_offset : Z; e_region : Region }.

Record SpillTracker := mkTracker {
  bitmap : list Z;
  entries : list SpillEntry;
  count : Z
}.

Definition empty_entry : SpillEntry := mkEntry 0 (mkRegion Stack 0 0).

#[export] Instance SpillEntry_inhabited : Inhabited SpillEntry := populate empty_entry.

(** Bits of the slot bitmap. *)
Definition bit_set (bm : list Z) (slot : Z) : list Z :=
  let byte_idx := Z.to_nat (slot / 8) in
  <[byte_idx := Z.lor (bm !!! byte_idx) (Z.shiftl 1 (slot mod 8))]> bm.

Definition bit_clear (bm : list Z) (slot : Z) : list Z :=
  let byte_idx := Z.to_nat (slot / 8) in
  <[byte_idx := Z.land (bm !!! byte_idx) (Z.lxor (Z.shiftl 1 (slot mod 8)) 255)]> bm.

Definition bit_test (bm : list Z) (slot : Z) : bool :=
  negb (Z.land (bm !!! Z.to_nat (slot / 8)) (Z.shiftl 1 (slot mod 8)) =? 0).

(** The linear search of [for i in 0..self.count]: the first live entry for
    [off]. *)
Definition find_entry (off : Z) (t : SpillTracker) : option (nat * SpillEntry) :=
  list_find (fun e => stack_offset e = off) (take (Z.to_nat (count t)) (entries t)).

Section Tracker.
Context (b : Build).

Definition spill_new : SpillTracker :=
  mkTracker (replicate (Z.to_nat (STACK_SIZE b / 64)) 0)
            (replicate (Z.to_nat MAX_SPILL_SLOTS) empty_entry) 0.

(** [addr.wrapping_sub(stack_base) as usize]. *)
Definition stack_off (stack_base addr : Z) : Z :=
  wrap (usize_bits b) (as_u64 (addr - stack_base)).

Definition record_spill (t : SpillTracker) (stack_base addr : Z) (r : Region) : SpillTracker :=
  let offset := stack_off stack_base addr in
  let slot := offset / 8 in
  if slot >=? STACK_SIZE b / 8 then t else
  let bm := bit_set (bitmap t) slot in
  let offset_u16 := as_u16 offset in
  match find_entry offset_u16 t with
  | Some (i, e) =>
      mkTracker bm (<[i := mkEntry (stack_offset e) r]> (entries t)) (count t)
  | None =>
      if count t <? MAX_SPILL_SLOTS then
        mkTracker bm (<[Z.to_nat (count t) := mkEntry offset_u16 r]> (entries t)) (count t + 1)
      else mkTracker (bit_clear bm slot) (entries t) (count t)
  end.

Definition check_restore (t : SpillTracker) (stack_base addr : Z) : option Region :=
  let offset := stack_off stack_base addr in
  let slot := offset / 8 in
  if slot >=? STACK_SIZE b / 8 then None else
  if negb (bit_test (bitmap t) slot) then None else
  match find_entry (as_u16 offset) t with
  | Some (_, e) => Some (e_region e)
  | None => None
  end.

(** [for slot in first..=last { if slot >= STACK_SIZE / 8 { break } ... }]; the
    break bounds the iterations by [STACK_SIZE / 8]. *)
Fixpoint clear_slots (fuel : nat) (slot last : Z) (bm : list Z) : list Z :=
  match fuel with
  | O => bm
  | S fuel' =>
      if slot >? last then bm else
      if slot >=? STACK_SIZE b / 8 then bm else
      clear_slots fuel' (slot + 1) last (bit_clear bm slot)
  end.

Definition invalidate (t : SpillTracker) (stack_base addr len : Z) : SpillTracker :=
  let offset_start := stack_off stack_base addr in
  let offset_end := saturating_add (usize_bits b) offset_start len in
  let first_slot := offset_start / 8 in
  let last_slot := if offset_end =? 0 then 0 else (offset_end - 1) / 8 in
  mkTracker (clear_slots (Z.to_nat (STACK_SIZE b / 8)) first_slot last_slot (bitmap t))
            (entries t) (count t).
End Tracker.
