(* ===== verification/BpfMem.v ===== *)
(** * Choke-point memory accesses (interpreter.rs lines 316-608)

    The functions through which every load, store and atomic instruction reaches
    memory.  The bounds test that all of them start with is [check_access]; the
    raw-pointer access itself is undefined behaviour on an address that is not
    live. *)

From S2P Require Import Prelude.
From S2P Require Import Ebpf.
From S2P Require Import BpfTypes.
Open Scope Z_scope.

(** ** Raw memory *)

Fixpoint load_bytes (m : memory) (p : Z) (n : nat) : option (list Z) :=
  match n with
  | O => Some []
  | S n' =>
      match m !! p, load_bytes m (p + 1) n' with
      | Some x, Some l => Some (x :: l)
      | _, _ => None
      end
  end.

Fixpoint store_bytes (m : memory) (p : Z) (l : list Z) : option memory :=
  match l with
  | [] => Some m
  | x :: l' =>
      match m !! p with
      | Some _ => store_bytes (<[p := x]> m) (p + 1) l'
      | None => None
      end
  end.

Section Access.
Context (b : Build).

(** [(addr as *const uN).read_unaligned()]: the [u64] address is truncated to
    the pointer width; the targets are little-endian. *)
Definition read_unaligned (m : memory) (addr : Z) (n : nat) : Exec Z :=
  match load_bytes m (wrap (usize_bits b) addr) n with
  | Some l => Ok (from_le_bytes l)
  | None => UB
  end.

(** [(addr as *mut uN).write_unaligned(val as uN)]. *)
Definition write_unaligned (m : memory) (addr : Z) (n : nat) (v : Z) : Exec memory :=
  match store_bytes m (wrap (usize_bits b) addr) (to_le_bytes n v) with
  | Some m' => Ok m'
  | None => UB
  end.

(** [value.wrapping_add_signed(off as i64)]. *)
Definition eff_addr (r : TaggedReg) (off : Z) : Z := as_u64 (value r + off).

(** The tag and bounds checks every access starts with. *)
Definition check_access (n : Z) (base_reg : TaggedReg) (off pc : Z) : Exec (Region * Z) :=
  let? g := ok_or (region base_reg) (NonDereferenceableAccess pc) in
  if is_map_descriptor g then Err (NonDereferenceableAccess pc) else
  let addr := eff_addr base_reg off in
  let? end_ := ok_or (checked_add 64 addr n) (MemoryAccessViolation pc addr n) in
  if (addr <? base g) || (end_ >? rend g) then Err (MemoryAccessViolation pc addr n)
  else Ok (g, addr).

Definition mem_load (n : nat) (m : memory) (base_reg : TaggedReg) (off pc : Z) : Exec Z :=
  let? '(g, addr) := check_access (Z.of_nat n) base_reg off pc in
  read_unaligned m addr n.

Definition mem_load_sign_extend (n : nat) (m : memory) (base_reg : TaggedReg)
    (off pc : Z) : Exec Z :=
  let? '(g, addr) := check_access (Z.of_nat n) base_reg off pc in
  let? v := read_unaligned m addr n in
  Ok (as_u64 (signed (8 * Z.of_nat n) v)).

(** Writes to the read-only context are bounds-checked and dropped. *)
Definition mem_store (n : nat) (m : memory) (base_reg : TaggedReg) (off v pc : Z) :
    Exec memory :=
  let? '(g, addr) := check_access (Z.of_nat n) base_reg off pc in
  if is_context g then Ok m else write_unaligned m addr n v.

(** The body shared by [mem_atomic32] and [mem_atomic64], which differ in the
    access width [8 * n] and in the opcode an unknown operation reports. *)
Definition mem_atomic (n : nat) (opcode : Z) (m : memory) (base_reg : TaggedReg)
    (off : Z) (rs : regs) (src op pc : Z) : Exec (regs * memory) :=
  let w := 8 * Z.of_nat n in
  let? '(g, addr) := check_access (Z.of_nat n) base_reg off pc in
  let read_only := is_context g in
  let fetch := negb (Z.land op BPF_ATOMIC_FETCH =? 0) in
  let base_op := Z.land op (Z.lxor BPF_ATOMIC_FETCH (2 ^ 32 - 1)) in
  let? old := read_unaligned m addr n in
  let write (c : bool) (v : Z) : Exec memory :=
    if c then write_unaligned m addr n v else Ok m in
  let s := wrap w (value (rget rs src)) in
  let rmw (v : Z) : Exec (regs * memory) :=
    let? m' := write (negb read_only) v in
    Ok (if fetch then rset rs src (scalar old) else rs, m') in
  if base_op =? BPF_ATOMIC_ADD then rmw (wrap w (old + s))
  else if base_op =? BPF_ATOMIC_OR then rmw (Z.lor old s)
  else if base_op =? BPF_ATOMIC_AND then rmw (Z.land old s)
  else if base_op =? BPF_ATOMIC_XOR then rmw (Z.lxor old s)
  else if base_op =? 0xe0 then
    let? m' := write (negb read_only) s in
    Ok (rset rs src (scalar old), m')
  else if base_op =? 0xf0 then
    let? m' := write (negb read_only && (old =? wrap w (value (rget rs 0)))) s in
    Ok (rset rs 0 (scalar old), m')
  else Err (UnknownOpcode pc opcode).

Definition mem_atomic32 := mem_atomic 4 ST_W_ATOMIC.
Definition mem_atomic64 := mem_atomic 8 ST_DW_ATOMIC.
End Access.

(** ** Lemmas on raw memory *)

(** [live m p n]: the [n] bytes from [p] on are all live. *)
Definition live (m : memory) (lo hi : Z) : Prop :=
  forall a, lo <= a < hi -> is_Some (m !! a).

Definition mem_ok (m : memory) : Prop := forall a x, m !! a = Some x -> byte_ok x.

(** [m'] differs from [m] only inside [W], and has the same live addresses. *)
Definition mem_frame (W : Z -> Prop) (m m' : memory) : Prop :=
  (forall a, is_Some (m' !! a) <-> is_Some (m !! a)) /\
  (forall a, ~ W a -> m' !! a = m !! a).

Lemma mem_frame_refl W m : mem_frame W m m.
Proof. split; done. Qed.

Lemma mem_frame_trans W m1 m2 m3 :
  mem_frame W m1 m2 -> mem_frame W m2 m3 -> mem_frame W m1 m3.
Proof.
  intros [L1 F1] [L2 F2]. split.
  - intros a. by rewrite L2, L1.
  - intros a Ha. by rewrite F2, F1.
Qed.

Lemma mem_frame_live W m m' lo hi : mem_frame W m m' -> live m lo hi -> live m' lo hi.
Proof. intros [L _] H a Ha. apply L. by apply H. Qed.

Lemma load_bytes_live m p n :
  live m p (p + Z.of_nat n) -> exists l, load_bytes m p n = Some l /\ length l = n.
Proof.
  revert p. induction n as [|n IH]; intros p Hl; simpl; [by exists []|].
  destruct (Hl p ltac:(lia)) as [x ->].
  destruct (IH (p + 1)) as (l & -> & Hlen); [intros a Ha; apply Hl; lia|].
  exists (x :: l). by rewrite <- Hlen.
Qed.

Lemma load_bytes_ok m p n l : mem_ok m -> load_bytes m p n = Some l -> bytes_ok l.
Proof.
  intros Hm. revert p l. induction n as [|n IH]; intros p l; simpl; [intros [= <-]; constructor|].
  destruct (m !! p) as [x|] eqn:Hx; [|done].
  destruct (load_bytes m (p + 1) n) as [l'|] eqn:Hl; [|done].
  intros [= <-]. constructor; eauto.
Qed.

Lemma store_bytes_live m p l :
  live m p (p + len l) -> exists m', store_bytes m p l = Some m'.
Proof.
  revert m p. induction l as [|x l IH]; intros m p Hl; simpl; [by eexists|].
  rewrite len_cons in Hl. pose proof (len_nonneg l).
  destruct (Hl p ltac:(lia)) as [y ->]. apply IH.
  intros a Ha. destruct (decide (a = p)) as [->|Hne]; [lia|].
  rewrite lookup_insert_ne by done. apply Hl. lia.
Qed.

Lemma store_bytes_frame m p l m' :
  store_bytes m p l = Some m' -> mem_frame (fun a => p <= a < p + len l) m m'.
Proof.
  revert m p. induction l as [|x l IH]; intros m p; simpl;
    [intros [= <-]; apply mem_frame_refl|].
  destruct (m !! p) as [y|] eqn:Hy; [|done]. intros Hs.
  destruct (IH _ _ Hs) as [L F]. rewrite len_cons. pose proof (len_nonneg l). split.
  - intros a. rewrite L. destruct (decide (a = p)) as [->|Hne].
    + rewrite lookup_insert_eq, Hy. split; eauto.
    + by rewrite lookup_insert_ne.
  - intros a Ha. rewrite F by lia. apply lookup_insert_ne. lia.
Qed.

Lemma store_bytes_mem_ok m p l m' :
  mem_ok m -> bytes_ok l -> store_bytes m p l = Some m' -> mem_ok m'.
Proof.
  intros Hm Hl. revert m p Hm. induction Hl as [|x l Hx Hl IH]; intros m p Hm; simpl;
    [by intros [= <-]|].
  destruct (m !! p) as [y|]; [|done]. apply IH.
  intros a z. rewrite lookup_insert. case_decide; naive_solver.
Qed.

Lemma load_bytes_ext m m' p n :
  (forall a, p <= a < p + Z.of_nat n -> m' !! a = m !! a) ->
  load_bytes m' p n = load_bytes m p n.
Proof.
  revert p. induction n as [|n IH]; intros p H; simpl; [done|].
  rewrite H by lia. rewrite IH; [done|]. intros a Ha. apply H. lia.
Qed.

Lemma load_store_bytes m p l m' :
  store_bytes m p l = Some m' -> load_bytes m' p (length l) = Some l.
Proof.
  revert m p. induction l as [|x l IH]; intros m p; simpl; [done|].
  destruct (m !! p) as [y|]; [|done]. intros Hs.
  destruct (store_bytes_frame _ _ _ _ Hs) as [_ F].
  rewrite F, lookup_insert_eq by lia. by rewrite (IH _ _ Hs).
Qed.
