(* ===== verification/BpfAlu.v ===== *)
(** * ALU and jump semantics (interpreter.rs lines 1131-1896)

    The right-hand sides of the arithmetic and conditional-jump arms of the
    interpreter's opcode match, one function per group.  A group function returns
    [None] on an opcode that is not one of its arms in this build (a cargo feature
    removes the arms it guards), so that the match as a whole is the sequence of
    its groups. *)

From S2P Require Import Prelude.
From S2P Require Import Ebpf.
From S2P Require Import BpfTypes.
Open Scope Z_scope.

(** [uN::swap_bytes]; [to_be] on the little-endian targets. *)
Definition swap_bytes (n : nat) (x : Z) : Z := from_be_bytes (to_le_bytes n x).

(** [uW::wrapping_shl], [uW::wrapping_shr] and [iW::wrapping_shr] with an amount
    already masked to the width. *)
Definition wrapping_shl (w x k : Z) : Z := wrap w (Z.shiftl x k).
Definition wrapping_shr (x k : Z) : Z := Z.shiftr x k.

(** The test of a match arm: opcode constants are compared as patterns. *)
Definition opeq (x y : Z) : bool := match x ?= y with Eq => true | _ => false end.

Lemma opeq_eq x y : opeq x y = (x =? y).
Proof. unfold opeq. by rewrite Z.eqb_compare. Qed.

Section Alu.
Context (b : Build).

(** ALU32 arithmetic, lines 1115-1277. *)
Definition alu32_arith (opcode d s imm off pc : Z) : option (Exec TaggedReg) :=
  if opeq opcode ADD32_IMM then
    Some (Ok (scalar (as_u32 (as_u32 d + as_u32 imm))))
  else if opeq opcode ADD32_REG then
    Some (Ok (scalar (as_u32 (as_u32 d + as_u32 s))))
  else if opeq opcode SUB32_IMM then
    Some (Ok (scalar (as_u32 (as_u32 d - as_u32 imm))))
  else if opeq opcode SUB32_REG then
    Some (Ok (scalar (as_u32 (as_u32 d - as_u32 s))))
  else if opeq opcode MUL32_IMM && divmul32 b then
    Some (Ok (scalar (as_u32 (as_u32 d * as_u32 imm))))
  else if opeq opcode MUL32_REG && divmul32 b then
    Some (Ok (scalar (as_u32 (as_u32 d * as_u32 s))))
  else if opeq opcode DIV32_IMM && divmul32 b then
    if off =? 0
    then Some (Ok (scalar (if as_u32 imm =? 0 then 0 else as_u32 d / as_u32 imm)))
    else Some (Ok (scalar (if imm =? 0 then 0 else as_u32 (Z.quot (as_i32 d) imm))))
  else if opeq opcode DIV32_REG && divmul32 b then
    if off =? 0
    then Some (Ok (scalar (if as_u32 s =? 0 then 0 else as_u32 d / as_u32 s)))
    else Some (Ok (scalar (if as_i32 s =? 0 then 0 else as_u32 (Z.quot (as_i32 d) (as_i32 s)))))
  else if opeq opcode OR32_IMM then
    Some (Ok (scalar (Z.lor (as_u32 d) (as_u32 imm))))
  else if opeq opcode OR32_REG then
    Some (Ok (scalar (Z.lor (as_u32 d) (as_u32 s))))
  else if opeq opcode AND32_IMM then
    Some (Ok (scalar (Z.land (as_u32 d) (as_u32 imm))))
  else if opeq opcode AND32_REG then
    Some (Ok (scalar (Z.land (as_u32 d) (as_u32 s))))
  else if opeq opcode LSH32_IMM then
    Some (Ok (scalar (wrapping_shl 32 (as_u32 d) (Z.land (as_u32 imm) 0x1f))))
  else if opeq opcode LSH32_REG then
    Some (Ok (scalar (wrapping_shl 32 (as_u32 d) (Z.land (as_u32 s) 0x1f))))
  else if opeq opcode RSH32_IMM then
    Some (Ok (scalar (wrapping_shr (as_u32 d) (Z.land (as_u32 imm) 0x1f))))
  else if opeq opcode RSH32_REG then
    Some (Ok (scalar (wrapping_shr (as_u32 d) (Z.land (as_u32 s) 0x1f))))
  else if opeq opcode NEG32 then
    Some (Ok (scalar (as_u32 (- as_i32 d))))
  else if opeq opcode MOD32_IMM && divmul32 b then
    Some (Ok (scalar
      (if off =? 0
       then if negb (as_u32 imm =? 0) then as_u32 d mod as_u32 imm else Z.land d 0xffffffff
       else if negb (imm =? 0) then as_u32 (Z.rem (as_i32 d) imm) else Z.land d 0xffffffff)))
  else if opeq opcode MOD32_REG && divmul32 b then
    Some (Ok (scalar
      (if off =? 0
       then if negb (as_u32 s =? 0) then as_u32 d mod as_u32 s else Z.land d 0xffffffff
       else if negb (as_i32 s =? 0) then as_u32 (Z.rem (as_i32 d) (as_i32 s))
            else Z.land d 0xffffffff)))
  else if opeq opcode XOR32_IMM then
    Some (Ok (scalar (Z.lxor (as_u32 d) (as_u32 imm))))
  else if opeq opcode XOR32_REG then
    Some (Ok (scalar (Z.lxor (as_u32 d) (as_u32 s))))
  else None.

(** ALU32 moves and arithmetic shifts, lines 1278-1318. *)
Definition alu32_mov (opcode d s imm off pc : Z) : option (Exec TaggedReg) :=
  if opeq opcode MOV32_IMM then
    if off =? 0 then Some (Ok (scalar (as_u32 imm)))
    else Some (Err (UnknownOpcode (pc - 1) opcode))
  else if opeq opcode MOV32_REG then
    if off =? 0 then Some (Ok (scalar (as_u32 s)))
    else if off =? 8 then Some (Ok (scalar (as_u32 (as_i8 s))))
    else if off =? 16 then Some (Ok (scalar (as_u32 (as_i16 s))))
    else Some (Err (UnknownOpcode (pc - 1) opcode))
  else if opeq opcode ARSH32_IMM then
    Some (Ok (scalar (as_u32 (wrapping_shr (as_i32 d) (Z.land (as_u32 imm) 0x1f)))))
  else if opeq opcode ARSH32_REG then
    Some (Ok (scalar (as_u32 (wrapping_shr (as_i32 d) (Z.land (as_u32 s) 0x1f)))))
  else None.

(** Byte swaps (ALU class END), lines 1320-1392. *)
Definition alu_end (opcode d imm pc : Z) : option (Exec TaggedReg) :=
  if opeq opcode LE then
    if imm =? 16 then Some (Ok (scalar (as_u16 d)))
    else if imm =? 32 then Some (Ok (scalar (as_u32 d)))
    else if (imm =? 64) && base64 b then Some (Ok (scalar (d)))
    else Some (Err (UnknownOpcode (pc - 1) opcode))
  else if opeq opcode BE then
    if imm =? 16 then Some (Ok (scalar (swap_bytes 2 (as_u16 d))))
    else if imm =? 32 then Some (Ok (scalar (swap_bytes 4 (as_u32 d))))
    else if (imm =? 64) && base64 b then Some (Ok (scalar (swap_bytes 8 d)))
    else Some (Err (UnknownOpcode (pc - 1) opcode))
  else if opeq opcode BSWAP then
    if imm =? 16 then Some (Ok (scalar (swap_bytes 2 (as_u16 d))))
    else if imm =? 32 then Some (Ok (scalar (swap_bytes 4 (as_u32 d))))
    else if (imm =? 64) && base64 b then Some (Ok (scalar (swap_bytes 8 d)))
    else Some (Err (UnknownOpcode (pc - 1) opcode))
  else None.

(** ALU64 additive arithmetic: the result keeps the tag of its one pointer
    operand; the difference of two pointers into one region is a scalar. *)
Definition alu64_add (opcode : Z) (rd rs : TaggedReg) (imm pc : Z) : option (Exec TaggedReg) :=
  if opeq opcode ADD64_IMM && base64 b then
    if reg_is_map_descriptor rd then Some (Err (InvalidPointerArithmetic (pc - 1)))
    else Some (Ok (mkReg (as_u64 (value rd + as_u64 imm)) (region rd)))
  else if opeq opcode ADD64_REG && base64 b then
    let new_val := as_u64 (value rd + value rs) in
    match region rd, region rs with
    | Some r, None | None, Some r =>
        if is_map_descriptor r then Some (Err (InvalidPointerArithmetic (pc - 1)))
        else Some (Ok (mkReg new_val (Some r)))
    | None, None => Some (Ok (mkReg new_val None))
    | Some _, Some _ => Some (Err (InvalidPointerArithmetic (pc - 1)))
    end
  else if opeq opcode SUB64_IMM && base64 b then
    if reg_is_map_descriptor rd then Some (Err (InvalidPointerArithmetic (pc - 1)))
    else Some (Ok (mkReg (as_u64 (value rd - as_u64 imm)) (region rd)))
  else if opeq opcode SUB64_REG && base64 b then
    let new_val := as_u64 (value rd - value rs) in
    match region rd, region rs with
    | Some d, Some s =>
        if decide (d = s) then Some (Ok (mkReg new_val None)) else Some (Err (InvalidPointerArithmetic (pc - 1)))
    | Some r, None =>
        if is_map_descriptor r then Some (Err (InvalidPointerArithmetic (pc - 1))) else Some (Ok (mkReg new_val (Some r)))
    | None, Some _ => Some (Err (InvalidPointerArithmetic (pc - 1)))
    | None, None => Some (Ok (mkReg new_val None))
    end
  else None.

(** ALU64 multiplication and division: always scalars. *)
Definition alu64_muldiv (opcode d s imm off : Z) : option (Exec TaggedReg) :=
  if opeq opcode MUL64_IMM && divmul64 b then
    Some (Ok (scalar (as_u64 (d * as_u64 imm))))
  else if opeq opcode MUL64_REG && divmul64 b then
    Some (Ok (scalar (as_u64 (d * s))))
  else if opeq opcode DIV64_IMM && divmul64 b then
    if off =? 0
    then Some (Ok (scalar (if as_u64 imm =? 0 then 0 else d / as_u64 imm)))
    else Some (Ok (scalar (if imm =? 0 then 0 else as_u64 (Z.quot (as_i64 d) imm))))
  else if opeq opcode DIV64_REG && divmul64 b then
    if off =? 0
    then Some (Ok (scalar (if s =? 0 then 0 else d / s)))
    else Some (Ok (scalar (if as_i64 s =? 0 then 0 else as_u64 (Z.quot (as_i64 d) (as_i64 s)))))
  else None.

(** ALU64 bitwise or and and: pointers are refused. *)
Definition alu64_orand (opcode : Z) (rd rs : TaggedReg) (imm pc : Z) : option (Exec TaggedReg) :=
  if opeq opcode OR64_IMM && base64 b then
    if bool_decide (is_Some (region rd)) then Some (Err (InvalidPointerArithmetic (pc - 1)))
    else Some (Ok (mkReg (Z.lor (value rd) (as_u64 imm)) (region rd)))
  else if opeq opcode OR64_REG && base64 b then
    if bool_decide (is_Some (region rd)) || bool_decide (is_Some (region rs)) then Some (Err (InvalidPointerArithmetic (pc - 1)))
    else Some (Ok (mkReg (Z.lor (value rd) (value rs)) (region rd)))
  else if opeq opcode AND64_IMM && base64 b then
    if bool_decide (is_Some (region rd)) then Some (Err (InvalidPointerArithmetic (pc - 1)))
    else Some (Ok (mkReg (Z.land (value rd) (as_u64 imm)) (region rd)))
  else if opeq opcode AND64_REG && base64 b then
    if bool_decide (is_Some (region rd)) || bool_decide (is_Some (region rs)) then Some (Err (InvalidPointerArithmetic (pc - 1)))
    else Some (Ok (mkReg (Z.land (value rd) (value rs)) (region rd)))
  else None.

(** ALU64 logical shifts, negation and remainder: always scalars. *)
Definition alu64_shift_mod (opcode d s imm off : Z) : option (Exec TaggedReg) :=
  if opeq opcode LSH64_IMM && base64 b then
    Some (Ok (scalar (wrapping_shl 64 d (Z.land (as_u32 imm) 0x3f))))
  else if opeq opcode LSH64_REG && base64 b then
    Some (Ok (scalar (wrapping_shl 64 d (Z.land (as_u32 s) 0x3f))))
  else if opeq opcode RSH64_IMM && base64 b then
    Some (Ok (scalar (wrapping_shr d (Z.land (as_u32 imm) 0x3f))))
  else if opeq opcode RSH64_REG && base64 b then
    Some (Ok (scalar (wrapping_shr d (Z.land (as_u32 s) 0x3f))))
  else if opeq opcode NEG64 && base64 b then
    Some (Ok (scalar (as_u64 (- as_i64 d))))
  else if opeq opcode MOD64_IMM && divmul64 b then
    Some (Ok (scalar
      (if off =? 0
       then if negb (as_u64 imm =? 0) then d mod as_u64 imm else d
       else if negb (imm =? 0) then as_u64 (Z.rem (as_i64 d) imm) else d)))
  else if opeq opcode MOD64_REG && divmul64 b then
    Some (Ok (scalar
      (if off =? 0
       then if negb (s =? 0) then d mod s else d
       else if negb (as_i64 s =? 0) then as_u64 (Z.rem (as_i64 d) (as_i64 s)) else d)))
  else None.

(** ALU64 bitwise xor. *)
Definition alu64_xor (opcode : Z) (rd rs : TaggedReg) (imm pc : Z) : option (Exec TaggedReg) :=
  if opeq opcode XOR64_IMM && base64 b then
    if bool_decide (is_Some (region rd)) then Some (Err (InvalidPointerArithmetic (pc - 1)))
    else Some (Ok (mkReg (Z.lxor (value rd) (as_u64 imm)) (region rd)))
  else if opeq opcode XOR64_REG && base64 b then
    if bool_decide (is_Some (region rd)) || bool_decide (is_Some (region rs)) then Some (Err (InvalidPointerArithmetic (pc - 1)))
    else Some (Ok (mkReg (Z.lxor (value rd) (value rs)) (region rd)))
  else None.

(** ALU64 moves and arithmetic shifts: a plain register move copies the tag,
    MOVSX drops it. *)
Definition alu64_mov (opcode : Z) (rd rs : TaggedReg) (imm off pc : Z) : option (Exec TaggedReg) :=
  if opeq opcode MOV64_IMM && base64 b then
    Some (Ok (scalar (as_u64 imm)))
  else if opeq opcode MOV64_REG && base64 b then
    if off =? 0 then Some (Ok rs)
    else if off =? 8 then Some (Ok (scalar (as_u64 (as_i8 (value rs)))))
    else if off =? 16 then Some (Ok (scalar (as_u64 (as_i16 (value rs)))))
    else if off =? 32 then Some (Ok (scalar (as_u64 (as_i32 (value rs)))))
    else Some (Err (UnknownOpcode (pc - 1) opcode))
  else if opeq opcode ARSH64_IMM && base64 b then
    Some (Ok (scalar (as_u64 (wrapping_shr (as_i64 (value rd)) (Z.land (as_u32 imm) 0x3f)))))
  else if opeq opcode ARSH64_REG && base64 b then
    Some (Ok (scalar (as_u64 (wrapping_shr (as_i64 (value rd)) (Z.land (as_u32 (value rs)) 0x3f)))))
  else None.

(** The ALU64 arms. *)
Definition alu64 (opcode : Z) (rd rs : TaggedReg) (imm off pc : Z) : option (Exec TaggedReg) :=
  let d := value rd in
  let s := value rs in
  match alu64_add opcode rd rs imm pc with Some r => Some r | None =>
  match alu64_muldiv opcode d s imm off with Some r => Some r | None =>
  match alu64_orand opcode rd rs imm pc with Some r => Some r | None =>
  match alu64_shift_mod opcode d s imm off with Some r => Some r | None =>
  match alu64_xor opcode rd rs imm pc with Some r => Some r | None =>
  alu64_mov opcode rd rs imm off pc
  end end end end end.

(** The ALU32 and byte-swap arms. *)
Definition alu32 (opcode d s imm off pc : Z) : option (Exec TaggedReg) :=
  match alu32_arith opcode d s imm off pc with Some r => Some r | None =>
  match alu32_mov opcode d s imm off pc with Some r => Some r | None =>
  alu_end opcode d imm pc
  end end.

(** All ALU arms: the new contents of [reg[dst]]. *)
Definition alu (opcode : Z) (rd rs : TaggedReg) (imm off pc : Z) : option (Exec TaggedReg) :=
  match alu32 opcode (value rd) (value rs) imm off pc with Some r => Some r | None =>
  alu64 opcode rd rs imm off pc
  end.

(** Conditional jumps on 64-bit operands: whether the branch is taken. *)
Definition jmp64_cond (opcode d s imm : Z) : option bool :=
  if opeq opcode JEQ_IMM && base64 b then
    Some (d =? as_u64 imm)
  else if opeq opcode JEQ_REG && base64 b then
    Some (d =? s)
  else if opeq opcode JGT_IMM && base64 b then
    Some (d >? as_u64 imm)
  else if opeq opcode JGT_REG && base64 b then
    Some (d >? s)
  else if opeq opcode JGE_IMM && base64 b then
    Some (d >=? as_u64 imm)
  else if opeq opcode JGE_REG && base64 b then
    Some (d >=? s)
  else if opeq opcode JLT_IMM && base64 b then
    Some (d <? as_u64 imm)
  else if opeq opcode JLT_REG && base64 b then
    Some (d <? s)
  else if opeq opcode JLE_IMM && base64 b then
    Some (d <=? as_u64 imm)
  else if opeq opcode JLE_REG && base64 b then
    Some (d <=? s)
  else if opeq opcode JSET_IMM && base64 b then
    Some (negb (Z.land d (as_u64 imm) =? 0))
  else if opeq opcode JSET_REG && base64 b then
    Some (negb (Z.land d s =? 0))
  else if opeq opcode JNE_IMM && base64 b then
    Some (negb (d =? as_u64 imm))
  else if opeq opcode JNE_REG && base64 b then
    Some (negb (d =? s))
  else if opeq opcode JSGT_IMM && base64 b then
    Some (as_i64 d >? imm)
  else if opeq opcode JSGT_REG && base64 b then
    Some (as_i64 d >? as_i64 s)
  else if opeq opcode JSGE_IMM && base64 b then
    Some (as_i64 d >=? imm)
  else if opeq opcode JSGE_REG && base64 b then
    Some (as_i64 d >=? as_i64 s)
  else if opeq opcode JSLT_IMM && base64 b then
    Some (as_i64 d <? imm)
  else if opeq opcode JSLT_REG && base64 b then
    Some (as_i64 d <? as_i64 s)
  else if opeq opcode JSLE_IMM && base64 b then
    Some (as_i64 d <=? imm)
  else if opeq opcode JSLE_REG && base64 b then
    Some (as_i64 d <=? as_i64 s)
  else None.

(** Conditional jumps on 32-bit operands. *)
Definition jmp32_cond (opcode d s imm : Z) : option bool :=
  if opeq opcode JEQ_IMM32 then
    Some (as_u32 d =? as_u32 imm)
  else if opeq opcode JEQ_REG32 then
    Some (as_u32 d =? as_u32 s)
  else if opeq opcode JGT_IMM32 then
    Some (as_u32 d >? as_u32 imm)
  else if opeq opcode JGT_REG32 then
    Some (as_u32 d >? as_u32 s)
  else if opeq opcode JGE_IMM32 then
    Some (as_u32 d >=? as_u32 imm)
  else if opeq opcode JGE_REG32 then
    Some (as_u32 d >=? as_u32 s)
  else if opeq opcode JLT_IMM32 then
    Some (as_u32 d <? as_u32 imm)
  else if opeq opcode JLT_REG32 then
    Some (as_u32 d <? as_u32 s)
  else if opeq opcode JLE_IMM32 then
    Some (as_u32 d <=? as_u32 imm)
  else if opeq opcode JLE_REG32 then
    Some (as_u32 d <=? as_u32 s)
  else if opeq opcode JSET_IMM32 then
    Some (negb (Z.land (as_u32 d) (as_u32 imm) =? 0))
  else if opeq opcode JSET_REG32 then
    Some (negb (Z.land (as_u32 d) (as_u32 s) =? 0))
  else if opeq opcode JNE_IMM32 then
    Some (negb (as_u32 d =? as_u32 imm))
  else if opeq opcode JNE_REG32 then
    Some (negb (as_u32 d =? as_u32 s))
  else if opeq opcode JSGT_IMM32 then
    Some (as_i32 d >? imm)
  else if opeq opcode JSGT_REG32 then
    Some (as_i32 d >? as_i32 s)
  else if opeq opcode JSGE_IMM32 then
    Some (as_i32 d >=? imm)
  else if opeq opcode JSGE_REG32 then
    Some (as_i32 d >=? as_i32 s)
  else if opeq opcode JSLT_IMM32 then
    Some (as_i32 d <? imm)
  else if opeq opcode JSLT_REG32 then
    Some (as_i32 d <? as_i32 s)
  else if opeq opcode JSLE_IMM32 then
    Some (as_i32 d <=? imm)
  else if opeq opcode JSLE_REG32 then
    Some (as_i32 d <=? as_i32 s)
  else None.

(** Compute and validate a jump target ([check_jump]). *)
Definition check_jump (pc offset num_insns : Z) : Exec Z :=
  let? target := arith_i (overflow_checks b) (usize_bits b)
                   (signed (usize_bits b) pc + offset) in
  if (target <? 0) || (wrap (usize_bits b) target >=? num_insns)
  then Err (OutOfBounds (pc - 1))
  else Ok (wrap (usize_bits b) target).
End Alu.
