(* ===== verification/BpfExec.v ===== *)
(** * The interpreter loop (interpreter.rs lines 609-1129, 1646-1656, 1898-2029)

    The state of a run, the instruction groups that touch memory, calls and the
    fetch-decode-execute loop of [execute_program].  [pc] is the program counter
    after the fetch, as in the source, so errors report [pc - 1]. *)

From S2P Require Import Prelude.
From S2P Require Import Ebpf.
From S2P Require Import BpfTypes.
From S2P Require Import BpfSpill.
From S2P Require Import BpfMem.
From S2P Require Import BpfAlu.
Open Scope Z_scope.

(** ** Inputs and state *)

Definition UNLIMITED_BUDGET : Z := 2 ^ 64 - 1.

(** The arguments of [execute_program], with the addresses the platform gives to
    the context slice and to the local [stack] array. *)
Record Env := mkEnv {
  build : Build;
  prog : list Z;
  ctx_base : Z;
  ctx_len : Z;
  helpers : list HelperDescriptor;
  maps : list MapRegion;
  read_only_ctx : bool;
  instruction_budget : Z;
  ctx_ptrs : list ContextPointerField;
  stack_base : Z
}.

Definition num_insns (e : Env) : Z := len (prog e) / INSN_SIZE.

(** The local variables of the loop, and memory. *)
Record VM := mkVM {
  reg : regs;
  mem : memory;
  spill : SpillTracker;
  frames : list CallFrame;
  frame_idx : Z;
  pc : Z;
  insn_count : Z
}.

Definition set_reg (v : VM) (rs : regs) : VM :=
  mkVM rs (mem v) (spill v) (frames v) (frame_idx v) (pc v) (insn_count v).
Definition set_mem (v : VM) (m : memory) : VM :=
  mkVM (reg v) m (spill v) (frames v) (frame_idx v) (pc v) (insn_count v).
Definition set_spill (v : VM) (t : SpillTracker) : VM :=
  mkVM (reg v) (mem v) t (frames v) (frame_idx v) (pc v) (insn_count v).
Definition set_frames (v : VM) (fs : list CallFrame) (i : Z) : VM :=
  mkVM (reg v) (mem v) (spill v) fs i (pc v) (insn_count v).
Definition set_pc (v : VM) (p : Z) : VM :=
  mkVM (reg v) (mem v) (spill v) (frames v) (frame_idx v) p (insn_count v).
Definition set_count (v : VM) (c : Z) : VM :=
  mkVM (reg v) (mem v) (spill v) (frames v) (frame_idx v) (pc v) c.

(** The loop goes on, or the program returned [r0]. *)
Inductive Ctl : Type :=
  | Continue (v : VM)
  | Return (r0 : Z) (m : memory).

Section Exec.
Context (e : Env).

Let b := build e.

(** ** LD_DW_IMM *)

(** Pseudo-source 1: the address of a map descriptor. *)
Definition ld_map_descriptor (i : Insn) (pc : Z) : Exec TaggedReg :=
  if imm i <? 0 then Err (InvalidMapIndex (pc - 2) (imm i)) else
  let idx := as_u32 (imm i) in
  match maps e !! Z.to_nat idx with
  | None => Err (InvalidMapIndex (pc - 2) (imm i))
  | Some mp => Ok (mkReg (relocated_ptr mp) (Some (mkRegion (MapDescriptor idx) 0 0)))
  end.

(** Pseudo-source 6: the address of a byte of entry 0's value. *)
Definition ld_map_value (i next : Insn) (pc : Z) : Exec TaggedReg :=
  if imm i <? 0 then Err (InvalidMapIndex (pc - 2) (imm i)) else
  let idx := as_u32 (imm i) in
  match maps e !! Z.to_nat idx with
  | None => Err (InvalidMapIndex (pc - 2) (imm i))
  | Some mp =>
      let? value_base := ok_or (checked_add 64 (data_start mp) (key_size mp))
        (MemoryAccessViolation (pc - 2) (data_start mp) (key_size mp)) in
      let? value_addr := ok_or (checked_add_signed 64 value_base (imm next))
        (MemoryAccessViolation (pc - 2) value_base (value_size mp)) in
      let? value_end := ok_or (checked_add 64 value_base (value_size mp))
        (MemoryAccessViolation (pc - 2) value_base (value_size mp)) in
      if (value_base <? data_start mp) || (value_end >? data_end mp) then
        Err (MemoryAccessViolation (pc - 2) value_base (value_size mp)) else
      if (value_addr <? value_base) || (value_addr >=? value_end) then
        Err (MemoryAccessViolation (pc - 2) value_addr 0) else
      Ok (mkReg value_addr (Some (mkRegion (MapValue (value_size mp)) value_base value_end)))
  end.

Definition exec_ld_dw_imm (v : VM) (i : Insn) : Exec VM :=
  if pc v >=? num_insns e then Err (OutOfBounds (pc v - 1)) else
  let? next := get_insn (prog e) (pc v) in
  let pc := pc v + 1 in
  let? count := arith_u (overflow_checks b) 64 (insn_count v + 1) in
  if count >? instruction_budget e then Err (InstructionBudgetExceeded (pc - 1)) else
  let? r :=
    if src i =? 0 then
      Ok (scalar (Z.lor (as_u32 (imm i)) (as_u64 (Z.shiftl (as_u64 (imm next)) 32))))
    else if src i =? 1 then ld_map_descriptor i pc
    else if src i =? 6 then ld_map_value i next pc
    else Err (UnknownOpcode (pc - 2) (opc i)) in
  Ok (set_count (set_pc (set_reg v (rset (reg v) (dst i) r)) pc) count).

(** ** Loads *)

(** The tag of an 8-byte value loaded from the context: the region of the
    matching pointer field, if any. *)
Definition ctx_ptr_region (addr : Z) : option Region :=
  let ctx_off := as_u64 (addr - ctx_base e) in
  if as_u64 (ctx_off + 8) <=? ctx_len e then
    match list_find (fun cpf => ctx_off = cp_offset cpf) (ctx_ptrs e) with
    | Some (_, cpf) => Some (cp_region cpf)
    | None => None
    end
  else None.

(** LD_DW_REG: a pointer comes back from a spill slot, or from a declared
    pointer field of the context, with its region. *)
Definition load_dw (v : VM) (i : Insn) : Exec TaggedReg :=
  let rs := rget (reg v) (src i) in
  let? x := mem_load b 8 (mem v) rs (off i) (pc v - 1) in
  let addr := eff_addr rs (off i) in
  if reg_on_stack rs then
    Ok (mkReg x (check_restore b (spill v) (stack_base e) addr))
  else if reg_on_context rs then Ok (mkReg x (ctx_ptr_region addr))
  else Ok (scalar x).

(** LDX MEM and LDX MEMSX: the new contents of [reg[dst]]. *)
Definition exec_ldx (v : VM) (i : Insn) : option (Exec TaggedReg) :=
  let rs := rget (reg v) (src i) in
  let load n := Some (res_map scalar (mem_load b n (mem v) rs (off i) (pc v - 1))) in
  let load_sx n :=
    Some (res_map scalar (mem_load_sign_extend b n (mem v) rs (off i) (pc v - 1))) in
  if opc i =? LD_B_REG then load 1%nat
  else if opc i =? LD_H_REG then load 2%nat
  else if opc i =? LD_W_REG then load 4%nat
  else if (opc i =? LD_DW_REG) && base64 b then Some (load_dw v i)
  else if opc i =? LDSX_B_REG then load_sx 1%nat
  else if opc i =? LDSX_H_REG then load_sx 2%nat
  else if opc i =? LDSX_W_REG then load_sx 4%nat
  else None.

(** ** Stores *)

(** A store that writes plain data: any pointer spilled under it is forgotten. *)
Definition store_plain (v : VM) (i : Insn) (n : nat) (x : Z) : Exec VM :=
  let rd := rget (reg v) (dst i) in
  let? m := mem_store b n (mem v) rd (off i) x (pc v - 1) in
  let v := set_mem v m in
  Ok (if reg_on_stack rd
      then set_spill v (invalidate b (spill v) (stack_base e) (eff_addr rd (off i)) (Z.of_nat n))
      else v).

(** ST_DW_REG: an aligned store of a pointer register to the stack records its
    region. *)
Definition store_dw_reg (v : VM) (i : Insn) : Exec VM :=
  let rd := rget (reg v) (dst i) in
  let rs := rget (reg v) (src i) in
  let? m := mem_store b 8 (mem v) rd (off i) (value rs) (pc v - 1) in
  let v := set_mem v m in
  let addr := eff_addr rd (off i) in
  Ok (if reg_on_stack rd then
        match region rs with
        | Some g =>
            if as_u64 (addr - stack_base e) mod 8 =? 0
            then set_spill v (record_spill b (spill v) (stack_base e) addr g)
            else set_spill v (invalidate b (spill v) (stack_base e) addr 8)
        | None => set_spill v (invalidate b (spill v) (stack_base e) addr 8)
        end
      else v).

(** ST and STX. *)
Definition exec_st (v : VM) (i : Insn) : option (Exec VM) :=
  let s := value (rget (reg v) (src i)) in
  if opc i =? ST_B_IMM then Some (store_plain v i 1 (as_u64 (imm i)))
  else if opc i =? ST_H_IMM then Some (store_plain v i 2 (as_u64 (imm i)))
  else if opc i =? ST_W_IMM then Some (store_plain v i 4 (as_u64 (imm i)))
  else if (opc i =? ST_DW_IMM) && base64 b then Some (store_plain v i 8 (as_u64 (imm i)))
  else if opc i =? ST_B_REG then Some (store_plain v i 1 s)
  else if opc i =? ST_H_REG then Some (store_plain v i 2 s)
  else if opc i =? ST_W_REG then Some (store_plain v i 4 s)
  else if (opc i =? ST_DW_REG) && base64 b then Some (store_dw_reg v i)
  else None.

(** Atomic read-modify-write operations. *)
Definition atomic_op (v : VM) (i : Insn) (n : nat) (opcode : Z) : Exec VM :=
  let base := rget (reg v) (dst i) in
  let? '(rs, m) := mem_atomic b n opcode (mem v) base (off i) (reg v) (src i)
                     (as_u32 (imm i)) (pc v - 1) in
  let v := set_mem (set_reg v rs) m in
  Ok (if reg_on_stack base
      then set_spill v (invalidate b (spill v) (stack_base e) (eff_addr base (off i)) (Z.of_nat n))
      else v).

Definition exec_atomic (v : VM) (i : Insn) : option (Exec VM) :=
  if (opc i =? ST_W_ATOMIC) && atomic32 b then Some (atomic_op v i 4 ST_W_ATOMIC)
  else if (opc i =? ST_DW_ATOMIC) && atomic64 b then Some (atomic_op v i 8 ST_DW_ATOMIC)
  else None.

(** ** Jumps *)

(** The relative target of the jump, if the instruction is one and it is taken
    ([Some None]: a jump that falls through). *)
Definition jump_offset (i : Insn) (d s : Z) : option (option Z) :=
  let cond (o : option bool) := (fun t : bool => if t then Some (off i) else None) <$> o in
  if opc i =? JA then Some (Some (off i)) else
  match cond (jmp64_cond b (opc i) d s (imm i)) with Some r => Some r | None =>
  if opc i =? JA32 then Some (Some (imm i)) else
  cond (jmp32_cond (opc i) d s (imm i))
  end.

Definition exec_jmp (v : VM) (i : Insn) : option (Exec VM) :=
  match jump_offset i (value (rget (reg v) (dst i))) (value (rget (reg v) (src i))) with
  | None => None
  | Some None => Some (Ok v)
  | Some (Some o) => Some (res_map (set_pc v) (check_jump b (pc v) o (num_insns e)))
  end.

(** ** Calls *)

(** The register file after a helper returned [result]. *)
Definition helper_return (rs : regs) (ret : HelperReturn) (result pc : Z) : Exec regs :=
  match ret with
  | Scalar => Ok (rset rs 0 (scalar result))
  | MapValueOrNull map_arg =>
      if negb ((1 <=? map_arg) && (map_arg <=? 5)) then
        Err (InvalidHelperArgument (pc - 1) map_arg) else
      if result =? 0 then Ok (rset rs 0 (scalar 0)) else
      match region (rget rs map_arg) with
      | Some (mkRegion (MapDescriptor map_index) _ _) =>
          let? mp := index (maps e) map_index in
          let vs := value_size mp in
          let? end_ := ok_or (checked_add 64 result vs)
                         (MemoryAccessViolation (pc - 1) result vs) in
          if (result <? data_start mp) || (end_ >? data_end mp) then
            Err (MemoryAccessViolation (pc - 1) result vs)
          else Ok (rset rs 0 (mkReg result (Some (mkRegion (MapValue vs) result end_))))
      | _ => Err (InvalidHelperArgument (pc - 1) map_arg)
      end
  end.

(** [for r in &mut reg[1..=5] { r.region = None }]. *)
Definition clobber_args (rs : regs) : regs :=
  let clear rs i := rset rs i (scalar (value (rget rs i))) in
  fold_left clear [1; 2; 3; 4; 5] rs.

Definition call_helper (v : VM) (i : Insn) : Exec VM :=
  let rs := reg v in
  let hid := as_u32 (imm i) in
  match list_find (fun d => id d = hid) (helpers e) with
  | None => Err (UnknownHelper (pc v - 1) hid)
  | Some (_, desc) =>
      let '(result, m) := func desc (value (rget rs 1)) (value (rget rs 2))
        (value (rget rs 3)) (value (rget rs 4)) (value (rget rs 5)) (mem v) in
      let? rs := helper_return rs (ret desc) result (pc v) in
      Ok (set_mem (set_reg v (clobber_args rs)) m)
  end.

(** BPF-to-BPF call: r6-r9 and the return address are saved, the frame pointer
    moves down one frame. *)
Definition call_local (v : VM) (i : Insn) : Exec VM :=
  if frame_idx v >=? MAX_CALL_DEPTH b then Err (CallDepthExceeded (pc v - 1)) else
  let rs := reg v in
  let saved := [rget rs 6; rget rs 7; rget rs 8; rget rs 9] in
  let fr := mkFrame (value <$> saved) (region <$> saved) (pc v) STACK_SIZE_PER_FRAME in
  let? fp := arith_u (overflow_checks b) 64 (value (rget rs 10) - STACK_SIZE_PER_FRAME) in
  let rs := rset rs 10 (mkReg fp (region (rget rs 10))) in
  let v' := set_frames (set_reg v rs) (<[Z.to_nat (frame_idx v) := fr]> (frames v))
              (frame_idx v + 1) in
  let? target := check_jump b (pc v) (imm i) (num_insns e) in
  Ok (set_pc v' target).

Definition exec_call (v : VM) (i : Insn) : Exec VM :=
  if (src i =? 0) || (src i =? 2) then call_helper v i
  else if (src i =? 1) && negb (stack_512 b) then call_local v i
  else Err (UnknownOpcode (pc v - 1) (opc i)).

(** Restores r6-r9 from a frame. *)
Definition restore_saved (rs : regs) (fr : CallFrame) : regs :=
  let put rs k := rset rs (6 + Z.of_nat k)
    (mkReg (saved_regs fr !!! k) (saved_regions fr !!! k)) in
  fold_left put [0; 1; 2; 3]%nat rs.

Definition exec_exit (v : VM) : Exec Ctl :=
  if frame_idx v >? 0 then
    let fi := frame_idx v - 1 in
    let fr := frames v !!! Z.to_nat fi in
    let rs := restore_saved (reg v) fr in
    let? fp := arith_u (overflow_checks b) 64 (value (rget rs 10) + frame_size fr) in
    Ok (Continue (set_pc (set_frames
      (set_reg v (rset rs 10 (mkReg fp (region (rget rs 10))))) (frames v) fi) (return_pc fr)))
  else Ok (Return (value (rget (reg v) 0)) (mem v)).

(** ** The loop *)

(** The opcode match, group by group. *)
Definition exec_insn (v : VM) (i : Insn) : Exec Ctl :=
  let rd := rget (reg v) (dst i) in
  let rs := rget (reg v) (src i) in
  let put r := Continue (set_reg v (rset (reg v) (dst i) r)) in
  if (opc i =? LD_DW_IMM) && base64 b then res_map Continue (exec_ld_dw_imm v i) else
  match exec_ldx v i with Some r => res_map put r | None =>
  match exec_st v i with Some r => res_map Continue r | None =>
  match exec_atomic v i with Some r => res_map Continue r | None =>
  match alu b (opc i) rd rs (imm i) (off i) (pc v) with Some r => res_map put r | None =>
  match exec_jmp v i with Some r => res_map Continue r | None =>
  if opc i =? CALL then res_map Continue (exec_call v i) else
  if opc i =? EXIT then exec_exit v else
  Err (UnknownOpcode (pc v - 1) (opc i))
  end end end end end.

(** One iteration of [while pc < num_insns]; leaving the loop is an error. *)
Definition step (v : VM) : Exec Ctl :=
  if pc v <? num_insns e then
    let? count := arith_u (overflow_checks b) 64 (insn_count v + 1) in
    if count >? instruction_budget e then Err (InstructionBudgetExceeded (pc v)) else
    let? i := get_insn (prog e) (pc v) in
    let v := set_pc (set_count v count) (pc v + 1) in
    if (dst i >? 10) || (src i >? 10) then Err (UnknownOpcode (pc v - 1) (opc i)) else
    exec_insn v i
  else Err (OutOfBounds (pc v)).

(** The loop; [None] is a run cut short by the fuel. *)
Fixpoint run (fuel : nat) (v : VM) : option (Exec (Z * memory)) :=
  match fuel with
  | O => None
  | S fuel' =>
      match step v with
      | Ok (Continue v') => run fuel' v'
      | Ok (Return r m) => Some (Ok (r, m))
      | Err err => Some (Err err)
      | Panic => Some Panic
      | UB => Some UB
      end
  end.

(** The registers the program starts with. *)
Definition init_regs : regs :=
  let ctx_tag := if read_only_ctx e then Context else Memory in
  let r1 := mkReg (ctx_base e)
    (if ctx_len e =? 0 then None
     else Some (mkRegion ctx_tag (ctx_base e) (ctx_base e + ctx_len e))) in
  let r10 := mkReg (stack_base e + STACK_SIZE b)
    (Some (mkRegion Stack (stack_base e) (stack_base e + STACK_SIZE b))) in
  rset (rset (rset (replicate 11 zeroed) 1 r1) 2 (scalar (ctx_len e))) 10 r10.

(** The zeroed [stack] array, as live memory from [base] on. *)
Fixpoint alloc_zeroed (m : memory) (base : Z) (n : nat) : memory :=
  match n with
  | O => m
  | S n' => <[base := 0]> (alloc_zeroed m (base + 1) n')
  end.

Definition init_vm (m : memory) : VM :=
  mkVM init_regs (alloc_zeroed m (stack_base e) (Z.to_nat (STACK_SIZE b)))
    (spill_new b) (replicate (Z.to_nat (MAX_CALL_DEPTH b)) CallFrame_zeroed) 0 0 0.

Definition execute_program (fuel : nat) (m : memory) : option (Exec (Z * memory)) :=
  if negb (len (prog e) mod INSN_SIZE =? 0) then Some (Err (OutOfBounds (num_insns e))) else
  match checked_add 64 (stack_base e) (STACK_SIZE b), checked_add 64 (ctx_base e) (ctx_len e) with
  | Some _, Some _ => run fuel (init_vm m)
  | _, _ => Some Panic
  end.
End Exec.

(** [execute_program_no_maps]: no maps, no context pointer fields. *)
Definition execute_program_no_maps (b : Build) (prog : list Z) (ctx_base ctx_len : Z)
    (helpers : list HelperDescriptor) (read_only_ctx : bool) (instruction_budget stack_base : Z)
    (fuel : nat) (m : memory) : option (Exec (Z * memory)) :=
  execute_program (mkEnv b prog ctx_base ctx_len helpers [] read_only_ctx
    instruction_budget [] stack_base) fuel m.
