(* ===== verification/BpfInv.v ===== *)
(** * Memory-safety invariant of the interpreter

    What a caller of [execute_program] must provide ([env_ok], the "Safety"
    section of its documentation), the regions the interpreter may hand to a
    program ([granted]), and the invariant of the loop ([vm_ok]).  The lemmas
    show that each instruction group keeps the invariant and never touches dead
    memory; [BpfSafety] composes them. *)

From S2P Require Import Prelude.
From S2P Require Import Ebpf.
From S2P Require Import BpfTypes.
From S2P Require Import BpfSpill.
From S2P Require Import BpfMem.
From S2P Require Import BpfAlu.
From S2P Require Import BpfExec.
Open Scope Z_scope.

(** ** Contracts *)

Definition stack_region (e : Env) : Region :=
  mkRegion Stack (stack_base e) (stack_base e + STACK_SIZE (build e)).

Definition ctx_region (e : Env) : Region :=
  mkRegion (if read_only_ctx e then Context else Memory) (ctx_base e) (ctx_base e + ctx_len e).

(** The regions a register may carry during a run. *)
Inductive granted (e : Env) : Region -> Prop :=
  | granted_stack : granted e (stack_region e)
  | granted_ctx : granted e (ctx_region e)
  | granted_desc idx :
      0 <= idx < len (maps e) -> granted e (mkRegion (MapDescriptor idx) 0 0)
  | granted_map mp lo :
      mp ∈ maps e -> data_start mp <= lo -> lo + value_size mp <= data_end mp ->
      granted e (mkRegion (MapValue (value_size mp)) lo (lo + value_size mp))
  | granted_ptr cpf : cpf ∈ ctx_ptrs e -> granted e (cp_region cpf).

(** The bytes a program may change: the stack, a writable context, map values and
    the regions of context pointer fields not tagged read-only. *)
Definition writable (e : Env) (a : Z) : Prop :=
  (stack_base e <= a < stack_base e + STACK_SIZE (build e)) \/
  (read_only_ctx e = false /\ ctx_base e <= a < ctx_base e + ctx_len e) \/
  (exists mp, mp ∈ maps e /\ data_start mp <= a < data_end mp) \/
  (exists cpf, cpf ∈ ctx_ptrs e /\ is_context (cp_region cpf) = false /\
     base (cp_region cpf) <= a < rend (cp_region cpf)).

(** A live allocation within the address space of the target. *)
Definition alloc_ok (b : Build) (m : memory) (lo hi : Z) : Prop :=
  0 <= lo /\ hi < 2 ^ usize_bits b /\ live m lo hi.

(** What the interpreter relies on of a helper: it returns a [u64] and changes
    only bytes the program itself may change. *)
Definition helper_ok (e : Env) (d : HelperDescriptor) : Prop :=
  forall a1 a2 a3 a4 a5 m r m',
    mem_ok m -> func d a1 a2 a3 a4 a5 m = (r, m') ->
    uN 64 r /\ mem_ok m' /\ mem_frame (writable e) m m'.

Record env_ok (e : Env) (m : memory) : Prop := {
  eo_build : build_ok (build e);
  eo_prog : bytes_ok (prog e);
  eo_prog_len : len (prog e) < 2 ^ (usize_bits (build e) - 1);
  eo_mem : mem_ok m;
  eo_budget : uN 64 (instruction_budget e);
  eo_stack : 0 <= stack_base e /\
             stack_base e + STACK_SIZE (build e) < 2 ^ usize_bits (build e);
  eo_stack_fresh : forall a,
    stack_base e <= a < stack_base e + STACK_SIZE (build e) -> m !! a = None;
  eo_ctx_len : 0 <= ctx_len e;
  eo_ctx : alloc_ok (build e) m (ctx_base e) (ctx_base e + ctx_len e);
  eo_maps : Forall (fun mp => alloc_ok (build e) m (data_start mp) (data_end mp) /\
                              uN 64 (relocated_ptr mp) /\ uN 32 (key_size mp) /\
                              uN 32 (value_size mp)) (maps e);
  eo_ptrs : Forall (fun cpf =>
    alloc_ok (build e) m (base (cp_region cpf)) (rend (cp_region cpf)) /\
    forall idx, tag (cp_region cpf) = MapDescriptor idx -> 0 <= idx < len (maps e)) (ctx_ptrs e);
  eo_helpers : Forall (helper_ok e) (helpers e)
}.

(** ** The loop invariant *)

Definition reg_ok (e : Env) (r : TaggedReg) : Prop :=
  uN 64 (value r) /\ forall g, region r = Some g -> granted e g.

Definition spill_ok (e : Env) (t : SpillTracker) : Prop :=
  0 <= count t <= MAX_SPILL_SLOTS /\ len (entries t) = MAX_SPILL_SLOTS /\
  Forall (fun en => granted e (e_region en)) (take (Z.to_nat (count t)) (entries t)).

Definition frame_ok (e : Env) (f : CallFrame) : Prop :=
  length (saved_regs f) = 4%nat /\ length (saved_regions f) = 4%nat /\
  Forall (uN 64) (saved_regs f) /\
  Forall (fun o => forall g, o = Some g -> granted e g) (saved_regions f) /\
  0 <= return_pc f <= num_insns e /\ uN 64 (frame_size f).

Record vm_ok (e : Env) (m0 : memory) (v : VM) : Prop := {
  vo_len : len (reg v) = 11;
  vo_reg : Forall (reg_ok e) (reg v);
  vo_mem : mem_ok (mem v);
  vo_frame : mem_frame (writable e) m0 (mem v);
  vo_spill : spill_ok e (spill v);
  vo_frames_len : len (frames v) = MAX_CALL_DEPTH (build e);
  vo_frames : Forall (frame_ok e) (frames v);
  vo_frame_idx : 0 <= frame_idx v <= MAX_CALL_DEPTH (build e);
  vo_pc : 0 <= pc v <= num_insns e;
  vo_count : 0 <= insn_count v <= instruction_budget e
}.

(** ** Ranges *)

Lemma as_u64_range x : uN 64 (as_u64 x).
Proof. apply wrap_range. lia. Qed.
Lemma as_u32_range x : uN 64 (as_u32 x).
Proof. apply (uN_weaken 32); [lia|]. apply wrap_range. lia. Qed.
Lemma as_u16_range x : uN 64 (as_u16 x).
Proof. apply (uN_weaken 16); [lia|]. apply wrap_range. lia. Qed.
Lemma u64_zero : uN 64 0.
Proof. unfold uN. lia. Qed.
Lemma u64_lor a b : uN 64 a -> uN 64 b -> uN 64 (Z.lor a b).
Proof. apply uN_lor. lia. Qed.
Lemma u64_lxor a b : uN 64 a -> uN 64 b -> uN 64 (Z.lxor a b).
Proof. apply uN_lxor. lia. Qed.
Lemma u64_land a b : uN 64 a -> 0 <= b -> uN 64 (Z.land a b).
Proof. apply uN_land. lia. Qed.
Lemma u64_nonneg x : uN 64 x -> 0 <= x.
Proof. by intros [? _]. Qed.
Lemma land_lit_nonneg x n : 0 <= n -> 0 <= Z.land x n.
Proof. intros. apply Z.land_nonneg. auto. Qed.
Lemma swap_bytes_range n x : (n <= 8)%nat -> uN 64 (swap_bytes n x).
Proof.
  intros Hn. unfold swap_bytes. pose proof (length_to_le_bytes n x) as Hl.
  pose proof (from_be_bytes_range _ (to_le_bytes_ok n x)) as Hr. rewrite Hl in Hr.
  eapply uN_weaken; [|exact Hr]. lia.
Qed.
Lemma wrapping_shl_range x k : uN 64 (wrapping_shl 64 x k).
Proof. apply wrap_range. lia. Qed.
Lemma wrapping_shl32_range x k : uN 64 (wrapping_shl 32 x k).
Proof. apply (uN_weaken 32); [lia|]. apply wrap_range. lia. Qed.
Lemma wrapping_shr_range x k : uN 64 x -> 0 <= k -> uN 64 (wrapping_shr x k).
Proof. apply uN_shiftr. Qed.

Create HintDb range discriminated.
#[export] Hint Resolve as_u64_range as_u32_range as_u16_range u64_zero u64_lor u64_lxor
  u64_land u64_nonneg uN_div uN_mod wrapping_shl_range wrapping_shl32_range
  wrapping_shr_range : range.
#[export] Hint Extern 1 (uN 64 (swap_bytes _ _)) => apply swap_bytes_range; lia : range.
#[export] Hint Extern 1 (0 <= Z.land _ _) => apply land_lit_nonneg; lia : range.
#[export] Hint Extern 5 (0 <= _) => lia : range.
#[export] Hint Constants Opaque : range.

(** ** ALU *)

Lemma scalar_ok e x : uN 64 x -> reg_ok e (scalar x).
Proof. intros H. by split. Qed.

Lemma reg_ok_scalar_value e r x : uN 64 x -> reg_ok e r -> reg_ok e (mkReg x (region r)).
Proof. intros Hx [_ Hr]. by split. Qed.

#[export] Hint Resolve scalar_ok reg_ok_scalar_value : range.

Ltac alu_arms :=
  repeat match goal with
  | |- context [if ?c then _ else _] => destruct c
  | H : context [if ?c then _ else _] |- _ => destruct c
  end.

Lemma alu32_post b opcode d s im o p r e :
  uN 64 d -> uN 64 s -> alu32 b opcode d s im o p = Some r ->
  res_post (reg_ok e) False r.
Proof.
  intros Hd Hs. unfold alu32, alu32_arith, alu32_mov, alu_end.
  alu_arms; intros [= <-]; simpl; try exact I; eauto 10 with range.
Qed.

(** The tag-aware arms: the region of the result is that of an operand. *)
Lemma alu64_add_post b opcode rd rs im p r e :
  reg_ok e rd -> reg_ok e rs -> alu64_add b opcode rd rs im p = Some r ->
  res_post (reg_ok e) False r.
Proof.
  intros [Hd Gd] [Hs Gs]. unfold alu64_add.
  destruct (region rd) as [gd|] eqn:Ed, (region rs) as [gs|] eqn:Es;
    alu_arms; intros [= <-]; simpl; try exact I;
    (split; simpl; [eauto with range|naive_solver]).
Qed.

Lemma alu64_post b opcode rd rs im o p r e :
  reg_ok e rd -> reg_ok e rs -> alu64 b opcode rd rs im o p = Some r ->
  res_post (reg_ok e) False r.
Proof.
  intros Hrd Hrs. unfold alu64.
  destruct (alu64_add b opcode rd rs im p) eqn:Ea;
    [intros [= <-]; eapply alu64_add_post; [exact Hrd|exact Hrs|exact Ea]|].
  pose proof Hrd as [Hd Gd]. pose proof Hrs as [Hs Gs].
  unfold alu64_muldiv, alu64_orand, alu64_shift_mod, alu64_xor, alu64_mov.
  alu_arms; intros [= <-]; simpl; try exact I; eauto 10 with range.
Qed.

Lemma alu_post b opcode rd rs im o p r e :
  reg_ok e rd -> reg_ok e rs -> alu b opcode rd rs im o p = Some r ->
  res_post (reg_ok e) False r.
Proof.
  intros Hrd Hrs. unfold alu. destruct (alu32 _ _ _ _ _ _ _) as [r'|] eqn:E32.
  - intros [= <-]. eapply alu32_post; [exact (proj1 Hrd)|exact (proj1 Hrs)|exact E32].
  - by apply alu64_post.
Qed.

(** ** Memory accesses *)

Section WithEnv.
Context (e : Env) (m0 : memory).
Context (Henv : env_ok e m0).

Let b := build e.

(** Memory at the start of the loop: the caller's memory and the zeroed stack. *)
Definition start_mem : memory :=
  alloc_zeroed m0 (stack_base e) (Z.to_nat (STACK_SIZE (build e))).

Lemma alloc_zeroed_lookup m lo n a :
  alloc_zeroed m lo n !! a =
    if decide (lo <= a < lo + Z.of_nat n) then Some 0 else m !! a.
Proof.
  revert lo. induction n as [|n IH]; intros lo; simpl.
  - rewrite decide_False by lia. done.
  - rewrite lookup_insert, IH. repeat case_decide; try done; lia.
Qed.

Lemma STACK_SIZE_pos : 0 < STACK_SIZE (build e).
Proof. destruct (STACK_SIZE_cases (build e)) as [-> | ->]; lia. Qed.

Lemma start_mem_lookup a :
  start_mem !! a =
    if decide (stack_base e <= a < stack_base e + STACK_SIZE (build e)) then Some 0 else m0 !! a.
Proof.
  unfold start_mem. rewrite alloc_zeroed_lookup, Z2Nat.id; [done|].
  pose proof STACK_SIZE_pos. lia.
Qed.

Lemma start_mem_ok : mem_ok start_mem.
Proof.
  intros a x. rewrite start_mem_lookup. case_decide.
  - intros [= <-]. unfold uN. lia.
  - apply (eo_mem e m0 Henv).
Qed.

Lemma start_mem_live lo hi : live m0 lo hi -> live start_mem lo hi.
Proof. intros H a Ha. rewrite start_mem_lookup. case_decide; eauto. Qed.

(** Every granted region other than a descriptor is a live allocation. *)
Lemma granted_alloc g :
  granted e g -> is_map_descriptor g = false -> alloc_ok (build e) start_mem (base g) (rend g).
Proof.
  intros Hg Hnd. destruct Hg as [| |idx Hidx|mp lo Hmp Hlo Hhi|cpf Hcpf].
  - destruct (eo_stack _ _ Henv) as [H1 H2]. split_and!; simpl; [done|done|].
    intros a Ha. rewrite start_mem_lookup, decide_True by done. eauto.
  - destruct (eo_ctx _ _ Henv) as (H1 & H2 & H3). split_and!; simpl; auto using start_mem_live.
  - done.
  - pose proof (eo_maps _ _ Henv) as HF. rewrite list.Forall_forall in HF.
    destruct (HF _ Hmp) as ((H1 & H2 & H3) & _ & _ & _). split_and!; simpl; [lia|lia|].
    apply start_mem_live. intros a Ha. apply H3. lia.
  - pose proof (eo_ptrs _ _ Henv) as HF. rewrite list.Forall_forall in HF.
    destruct (HF _ Hcpf) as ((H1 & H2 & H3) & _). split_and!; auto using start_mem_live.
Qed.

(** A granted region that is neither a descriptor nor read-only is writable. *)
Lemma granted_writable g a :
  granted e g -> is_map_descriptor g = false -> is_context g = false ->
  base g <= a < rend g -> writable e a.
Proof.
  intros Hg Hnd Hnc Ha. destruct Hg as [| |idx Hidx|mp lo Hmp Hlo Hhi|cpf Hcpf]; simpl in *.
  - by left.
  - right; left. split; [|done]. unfold is_context, ctx_region in Hnc. simpl in Hnc.
    by destruct (read_only_ctx e).
  - done.
  - right; right; left. exists mp. split; [done|lia].
  - right; right; right. eauto.
Qed.

Lemma check_access_post n r o p :
  reg_ok e r ->
  res_post (fun ga => granted e ga.1 /\ is_map_descriptor ga.1 = false /\
              ga.2 = eff_addr r o /\ base ga.1 <= ga.2 /\ ga.2 + n <= rend ga.1) False
    (check_access n r o p).
Proof.
  intros [Hv Hg]. unfold check_access. destruct (region r) as [g|]; simpl; [|done].
  destruct (is_map_descriptor g) eqn:Hd; simpl; [done|].
  destruct (checked_add 64 (eff_addr r o) n) as [x|] eqn:Hc; simpl; [|done].
  apply checked_add_Some in Hc as [-> Hlt].
  destruct (_ || _) eqn:Ho; simpl; [done|].
  apply orb_false_iff in Ho as [H1 H2]. split_and!; auto; lia.
Qed.

(** What [check_access] promises of the bytes it lets through, in the terms the
    raw accesses need. *)
Definition access_ok (m : memory) (addr n : Z) : Prop :=
  wrap (usize_bits b) addr = addr /\ live m addr (addr + n).

Lemma granted_access m g addr n :
  mem_frame (writable e) start_mem m -> granted e g -> is_map_descriptor g = false ->
  base g <= addr -> addr + n <= rend g -> 0 <= n -> access_ok m addr n.
Proof.
  intros Hf Hg Hd H1 H2 Hn. destruct (granted_alloc g Hg Hd) as (A1 & A2 & A3). split.
  - apply wrap_small. unfold uN, b. lia.
  - apply (mem_frame_live _ _ _ _ _ Hf) in A3. intros a Ha. apply A3. lia.
Qed.

Lemma read_unaligned_post m addr n :
  mem_ok m -> access_ok m addr (Z.of_nat n) ->
  res_post (uN (8 * Z.of_nat n)) False (read_unaligned b m addr n).
Proof.
  intros Hm [Hw Hl]. unfold read_unaligned. rewrite Hw.
  destruct (load_bytes_live _ _ _ Hl) as (l & Hl' & <-). rewrite Hl'. simpl.
  apply from_le_bytes_range. by eapply load_bytes_ok.
Qed.

Lemma write_unaligned_post m addr n x :
  mem_ok m -> access_ok m addr (Z.of_nat n) ->
  res_post (fun m' => mem_ok m' /\ mem_frame (fun a => addr <= a < addr + Z.of_nat n) m m')
    False (write_unaligned b m addr n x).
Proof.
  intros Hm [Hw Hl]. unfold write_unaligned. rewrite Hw.
  assert (Hlen : len (to_le_bytes n x) = Z.of_nat n) by (unfold len; by rewrite length_to_le_bytes).
  rewrite <- Hlen in Hl. destruct (store_bytes_live _ _ _ Hl) as (m' & Hs).
  rewrite Hs. simpl. split.
  - eapply store_bytes_mem_ok; [exact Hm|apply to_le_bytes_ok|exact Hs].
  - rewrite <- Hlen. by apply store_bytes_frame in Hs.
Qed.

Definition mem_inv (m : memory) : Prop :=
  mem_ok m /\ mem_frame (writable e) start_mem m.

Lemma mem_inv_step (W : Z -> Prop) m m' :
  mem_inv m -> mem_ok m' -> mem_frame W m m' -> (forall a, W a -> writable e a) -> mem_inv m'.
Proof.
  intros [_ Hf] Hm' [L F] HW. split; [done|].
  eapply mem_frame_trans; [exact Hf|]. split; [done|]. intros a Ha. apply F. auto.
Qed.

Lemma mem_load_post n m r o p :
  mem_inv m -> reg_ok e r -> res_post (uN (8 * Z.of_nat n)) False (mem_load b n m r o p).
Proof.
  intros [Hm Hf] Hr. unfold mem_load.
  eapply res_post_bind; [by apply check_access_post|].
  intros [g addr] (Hg & Hd & _ & H1 & H2); simpl in *.
  apply read_unaligned_post; [done|]. eapply granted_access; eauto. lia.
Qed.

Lemma mem_load_sign_extend_post n m r o p :
  mem_inv m -> reg_ok e r -> res_post (uN 64) False (mem_load_sign_extend b n m r o p).
Proof.
  intros [Hm Hf] Hr. unfold mem_load_sign_extend.
  eapply res_post_bind; [by apply check_access_post|].
  intros [g addr] (Hg & Hd & _ & H1 & H2); simpl in *.
  eapply res_post_bind; [apply read_unaligned_post; [done|]; eapply granted_access; eauto; lia|].
  intros x _. simpl. apply as_u64_range.
Qed.

(** A write through a checked pointer keeps the memory invariant, unless the
    region is read-only. *)
Lemma checked_write_post n m g addr x :
  mem_inv m -> granted e g -> is_map_descriptor g = false -> is_context g = false ->
  base g <= addr -> addr + Z.of_nat n <= rend g ->
  res_post mem_inv False (write_unaligned b m addr n x).
Proof.
  intros Hm Hg Hd Hc H1 H2.
  eapply res_post_mono; [apply write_unaligned_post; [apply Hm|]| |done].
  - eapply granted_access; eauto; [apply Hm|lia].
  - intros m' [Hok Hfr]. eapply mem_inv_step; eauto.
    intros a Ha. simpl in Ha. eapply granted_writable; eauto. lia.
Qed.

Lemma mem_store_post n m r o x p :
  mem_inv m -> reg_ok e r -> res_post mem_inv False (mem_store b n m r o x p).
Proof.
  intros Hm Hr. unfold mem_store.
  eapply res_post_bind; [by apply check_access_post|].
  intros [g addr] (Hg & Hd & _ & H1 & H2); simpl in *.
  destruct (is_context g) eqn:Hc; [done|]. eapply checked_write_post; eauto.
Qed.

(** A register file of eleven registers that satisfy [reg_ok]. *)
Definition regs_ok (rs : regs) : Prop := len rs = 11 /\ Forall (reg_ok e) rs.

Lemma regs_ok_rset rs i r : regs_ok rs -> reg_ok e r -> regs_ok (rset rs i r).
Proof. intros [H1 H2] Hr. split; [by rewrite len_rset|by apply Forall_rset]. Qed.

Lemma regs_ok_rget rs i : regs_ok rs -> 0 <= i <= 10 -> reg_ok e (rget rs i).
Proof. intros [H1 H2] Hi. apply Forall_rget; [done|lia|lia]. Qed.

Lemma mem_atomic_post n opcode m r o rs s op p :
  (n <= 8)%nat -> mem_inv m -> reg_ok e r -> regs_ok rs -> 0 <= s <= 10 ->
  res_post (fun rm => regs_ok rm.1 /\ mem_inv rm.2) False
    (mem_atomic b n opcode m r o rs s op p).
Proof.
  intros Hn Hm Hr Hrs Hs. unfold mem_atomic.
  eapply res_post_bind; [by apply check_access_post|].
  intros [g addr] (Hg & Hd & _ & H1 & H2); simpl in *.
  eapply res_post_bind; [apply read_unaligned_post; [apply Hm|]; eapply granted_access; eauto;
    [apply Hm|lia]|].
  intros old Hold. simpl.
  assert (Hok : reg_ok e (scalar old)).
  { apply scalar_ok. eapply uN_weaken; [|exact Hold]. lia. }
  assert (Hw : forall (c : bool) x rs', (c = true -> is_context g = false) -> regs_ok rs' ->
    res_post (fun rm => regs_ok rm.1 /\ mem_inv rm.2) False
      (res_bind (if c then write_unaligned b m addr n x else Ok m) (fun m' => Ok (rs', m')))).
  { intros c x rs' Hc Hrs'. eapply (res_post_bind mem_inv); [|by simpl].
    destruct c; [|done]. eapply checked_write_post; eauto. }
  assert (Hf : regs_ok (if negb (Z.land op BPF_ATOMIC_FETCH =? 0)
                        then rset rs s (scalar old) else rs)).
  { destruct (negb _); auto using regs_ok_rset. }
  repeat match goal with |- res_post _ _ (if ?c then _ else _) =>
    destruct c; [apply Hw; auto using regs_ok_rset;
      rewrite ?andb_true_iff, ?negb_true_iff; tauto|] end.
  done.
Qed.

(** ** Spill tracker *)

Lemma find_entry_granted t off i en :
  spill_ok e t -> find_entry off t = Some (i, en) -> granted e (e_region en).
Proof.
  intros (_ & _ & HF) Hf. unfold find_entry in Hf. apply list_find_Some in Hf as (Hi & _).
  rewrite Forall_lookup in HF. by apply (HF i).
Qed.

Lemma check_restore_granted t sb addr g :
  spill_ok e t -> check_restore b t sb addr = Some g -> granted e g.
Proof.
  intros Ht. unfold check_restore. repeat (case_match; try done).
  intros [= <-]. by eapply find_entry_granted.
Qed.

Lemma invalidate_ok t sb addr n : spill_ok e t -> spill_ok e (invalidate b t sb addr n).
Proof. intros H. exact H. Qed.

Lemma record_spill_ok t sb addr g :
  spill_ok e t -> granted e g -> spill_ok e (record_spill b t sb addr g).
Proof.
  intros Ht Hg. pose proof Ht as ([H1 H2] & H3 & H4). unfold record_spill.
  destruct (_ >=? _); [done|].
  destruct (find_entry _ t) as [[i en]|] eqn:Hf.
  - unfold find_entry in Hf. apply list_find_Some in Hf as (Hi & _).
    apply lookup_take_Some in Hi as [Hi Hlt].
    split_and!; simpl; [lia|lia|unfold len in *; by rewrite length_insert|].
    rewrite take_insert_lt by done. by apply Forall_insert.
  - destruct (Z.ltb_spec (count t) MAX_SPILL_SLOTS).
    + split_and!; simpl; [lia|lia|unfold len in *; by rewrite length_insert|].
      replace (Z.to_nat (count t + 1)) with (S (Z.to_nat (count t))) by lia.
      erewrite take_S_r by (apply list_lookup_insert_eq; unfold len in *; lia).
      rewrite take_insert_ge by lia. apply Forall_app. auto.
    + by split_and!.
Qed.

(** ** Instruction groups *)

Definition inv (v : VM) : Prop := vm_ok e start_mem v.

(** Register numbers below 11, as the loop checks before the opcode match. *)
Definition regs_in_range (i : Insn) : Prop := 0 <= dst i <= 10 /\ 0 <= src i <= 10.

Lemma inv_regs v : inv v -> regs_ok (reg v).
Proof. intros H. split; [apply (vo_len _ _ _ H)|apply (vo_reg _ _ _ H)]. Qed.

Lemma inv_mem v : inv v -> mem_inv (mem v).
Proof. intros H. split; [apply (vo_mem _ _ _ H)|apply (vo_frame _ _ _ H)]. Qed.

Lemma inv_set_reg v rs : inv v -> regs_ok rs -> inv (set_reg v rs).
Proof. intros H [? ?]. by destruct H; constructor. Qed.

Lemma inv_set_mem v m : inv v -> mem_inv m -> inv (set_mem v m).
Proof. intros H [? ?]. by destruct H; constructor. Qed.

Lemma inv_set_spill v t : inv v -> spill_ok e t -> inv (set_spill v t).
Proof. intros H ?. by destruct H; constructor. Qed.

Lemma inv_set_pc v p : inv v -> 0 <= p <= num_insns e -> inv (set_pc v p).
Proof. intros H ?. by destruct H; constructor. Qed.

Lemma inv_set_count v c : inv v -> 0 <= c <= instruction_budget e -> inv (set_count v c).
Proof. intros H ?. by destruct H; constructor. Qed.

Lemma inv_set_frames v fs k :
  inv v -> len fs = MAX_CALL_DEPTH (build e) -> Forall (frame_ok e) fs ->
  0 <= k <= MAX_CALL_DEPTH (build e) -> inv (set_frames v fs k).
Proof. intros H ? ? ?. by destruct H; constructor. Qed.

Lemma inv_reg v i : inv v -> 0 <= i <= 10 -> reg_ok e (rget (reg v) i).
Proof. intros H Hi. apply regs_ok_rget; [by apply inv_regs|done]. Qed.

#[local] Hint Resolve inv_regs inv_mem inv_set_reg inv_set_mem inv_set_spill inv_reg
  regs_ok_rset invalidate_ok record_spill_ok : core.

Lemma mem_load_u64 n m r o p :
  (n <= 8)%nat -> mem_inv m -> reg_ok e r -> res_post (uN 64) False (mem_load b n m r o p).
Proof.
  intros Hn Hm Hr. eapply res_post_mono; [by apply mem_load_post| |done].
  intros x. apply uN_weaken. lia.
Qed.

Lemma ctx_ptr_region_granted addr g : ctx_ptr_region e addr = Some g -> granted e g.
Proof.
  unfold ctx_ptr_region. repeat (case_match; try done). intros [= <-]. apply granted_ptr.
  match goal with H : list_find _ _ = Some _ |- _ => apply list_find_Some in H as (H & _) end.
  by eapply list_elem_of_lookup_2.
Qed.

Lemma load_dw_post v i :
  inv v -> regs_in_range i -> res_post (reg_ok e) False (load_dw e v i).
Proof.
  intros Hv [Hd Hs]. unfold load_dw.
  eapply res_post_bind; [apply mem_load_u64; auto|]. intros x Hx.
  repeat case_match; simpl; [| |by apply scalar_ok]; (split; [done|]); simpl; intros g Hg.
  - eapply check_restore_granted; [apply (vo_spill _ _ _ Hv)|exact Hg].
  - by eapply ctx_ptr_region_granted.
Qed.

Lemma exec_ldx_post v i r :
  inv v -> regs_in_range i -> exec_ldx e v i = Some r -> res_post (reg_ok e) False r.
Proof.
  intros Hv Hi. pose proof Hi as [Hd Hs].
  assert (Hl : forall n, (n <= 8)%nat -> res_post (reg_ok e) False
    (res_map scalar (mem_load b n (mem v) (rget (reg v) (src i)) (off i) (pc v - 1)))).
  { intros n Hn. eapply res_post_bind; [by apply mem_load_u64; auto|]. intros; by apply scalar_ok. }
  assert (Hsx : forall n, res_post (reg_ok e) False
    (res_map scalar (mem_load_sign_extend b n (mem v) (rget (reg v) (src i)) (off i) (pc v - 1)))).
  { intros n. eapply res_post_bind; [by apply mem_load_sign_extend_post; auto|].
    intros; by apply scalar_ok. }
  unfold exec_ldx. repeat (case_match; [intros [= <-]|]); try done;
    first [apply Hl; lia | apply Hsx | by apply load_dw_post].
Qed.

Lemma store_plain_post v i n x :
  inv v -> regs_in_range i -> res_post inv False (store_plain e v i n x).
Proof.
  intros Hv [Hd Hs]. unfold store_plain.
  eapply res_post_bind; [by apply mem_store_post; auto|]. intros m Hm. simpl.
  pose proof (vo_spill _ _ _ Hv). case_match; auto.
Qed.

Lemma store_dw_reg_post v i :
  inv v -> regs_in_range i -> res_post inv False (store_dw_reg e v i).
Proof.
  intros Hv [Hd Hs]. unfold store_dw_reg.
  eapply res_post_bind; [by apply mem_store_post; auto|]. intros m Hm. simpl.
  pose proof (vo_spill _ _ _ Hv). destruct (inv_reg v (src i) Hv Hs) as [_ Hg].
  repeat case_match; auto.
Qed.

Lemma exec_st_post v i r :
  inv v -> regs_in_range i -> exec_st e v i = Some r -> res_post inv False r.
Proof.
  intros Hv Hi. unfold exec_st. repeat (case_match; [intros [= <-]|]); try done;
    first [by apply store_plain_post | by apply store_dw_reg_post].
Qed.

Lemma exec_atomic_post v i r :
  inv v -> regs_in_range i -> exec_atomic e v i = Some r -> res_post inv False r.
Proof.
  intros Hv [Hd Hs].
  assert (H : forall n opcode, (n <= 8)%nat -> res_post inv False (atomic_op e v i n opcode)).
  { intros n opcode Hn. unfold atomic_op.
    eapply res_post_bind; [by apply mem_atomic_post; auto|]. intros [rs m] [Hrs Hm]; simpl in *.
    pose proof (vo_spill _ _ _ Hv). case_match; auto. }
  unfold exec_atomic. repeat (case_match; [intros [= <-]|]); try done; apply H; lia.
Qed.

(** ** Jumps and calls *)

Lemma check_jump_post p o n :
  res_post (fun t => 0 <= t < n) (overflow_checks (build e) = true)
    (check_jump (build e) p o n).
Proof.
  unfold check_jump, arith_i. set (w := usize_bits (build e)).
  assert (Hw : 1 <= w) by (destruct (eo_build _ _ Henv); lia).
  assert (E : 2 ^ w = 2 * 2 ^ (w - 1)).
  { rewrite <- Z.pow_succ_r by lia. f_equal. lia. }
  assert (Hk : forall t, iN w t ->
    res_post (fun t => 0 <= t < n) (overflow_checks (build e) = true)
      (if (t <? 0) || (wrap w t >=? n) then Err (OutOfBounds (p - 1)) else Ok (wrap w t))).
  { intros t [H1 H2]. destruct (_ || _) eqn:Ho; simpl; [done|].
    apply orb_false_iff in Ho as [H3 H4].
    rewrite wrap_small in * by (unfold uN; lia). lia. }
  destruct (_ && _) eqn:Hr; [|destruct (overflow_checks _)]; simpl; [|done|].
  - apply Hk. unfold iN. lia.
  - apply Hk, signed_range. done.
Qed.

Lemma exec_jmp_post v i r :
  inv v -> exec_jmp e v i = Some r ->
  res_post inv (overflow_checks (build e) = true) r.
Proof.
  intros Hv. unfold exec_jmp. destruct (jump_offset e i _ _) as [[o|]|]; try done; intros [= <-]; [|done].
  eapply res_post_bind; [apply check_jump_post|]. intros t Ht. simpl in *.
  apply inv_set_pc; [done|]. lia.
Qed.

Lemma ld_map_descriptor_post i p : res_post (reg_ok e) False (ld_map_descriptor e i p).
Proof.
  unfold ld_map_descriptor. case_match; [done|].
  destruct (maps e !! _) as [mp|] eqn:Hmp; [|done]. simpl.
  pose proof (eo_maps _ _ Henv) as HF. rewrite Forall_lookup in HF.
  destruct (HF _ _ Hmp) as (_ & Hp & _ & _). split; [done|]. simpl. intros g [= <-].
  apply granted_desc. apply lookup_lt_Some in Hmp.
  pose proof (wrap_nonneg 32 (imm i)). unfold as_u32, len in *. lia.
Qed.

Lemma ld_map_value_post i next p : res_post (reg_ok e) False (ld_map_value e i next p).
Proof.
  unfold ld_map_value. case_match; [done|].
  destruct (maps e !! _) as [mp|] eqn:Hmp; [|done].
  destruct (checked_add 64 (data_start mp) _) as [vb|] eqn:E1; simpl; [|done].
  destruct (checked_add_signed 64 vb _) as [va|] eqn:E2; simpl; [|done].
  destruct (checked_add 64 vb _) as [ve|] eqn:E3; simpl; [|done].
  apply checked_add_Some in E1 as [-> _], E3 as [-> ?].
  case_match eqn:C1; simpl; [done|]. case_match eqn:C2; simpl; [done|].
  apply orb_false_iff in C1 as [? ?], C2 as [? ?].
  assert (Hin : mp ∈ maps e) by by eapply list_elem_of_lookup_2.
  pose proof (eo_maps _ _ Henv) as HF. rewrite list.Forall_forall in HF.
  destruct (HF _ Hin) as ((? & ? & ?) & _ & [? ?] & [? ?]).
  split; simpl; [unfold uN; lia|]. intros g [= <-]. apply granted_map; [done|lia|lia].
Qed.

Lemma get_insn_post p :
  0 <= p < num_insns e -> exists i, get_insn (E := BpfError) (prog e) p = Ok i /\ insn_ok i.
Proof. intros Hp. apply get_insn_Ok; [apply (eo_prog _ _ Henv)|lia|apply Hp]. Qed.

Lemma exec_ld_dw_imm_post v i :
  inv v -> res_post inv (overflow_checks (build e) = true) (exec_ld_dw_imm e v i).
Proof.
  intros Hv. unfold exec_ld_dw_imm. destruct (Z.geb_spec (pc v) (num_insns e)); [done|].
  pose proof (vo_pc _ _ _ Hv).
  destruct (get_insn_post (pc v) ltac:(lia)) as (next & -> & _). simpl.
  eapply res_post_bind; [apply arith_u_post; lia|]. intros c [Hc _].
  destruct (c >? _) eqn:Hb; [done|].
  eapply (res_post_bind (reg_ok e)).
  - eapply (res_post_mono _ _ False); [|done|tauto].
    repeat case_match; simpl; auto using ld_map_descriptor_post, ld_map_value_post.
    apply scalar_ok. auto with range.
  - intros r Hr. simpl. apply inv_set_count; [|lia]. apply inv_set_pc; [|lia]. auto.
Qed.

Lemma helper_return_post rs rt result p :
  regs_ok rs -> uN 64 result -> res_post regs_ok False (helper_return e rs rt result p).
Proof.
  intros Hrs Hres. unfold helper_return. destruct rt as [|arg].
  { simpl. auto using scalar_ok. }
  case_match eqn:Harg; [done|]. case_match; [simpl; auto using scalar_ok, u64_zero|].
  apply negb_false_iff, andb_true_iff in Harg as [? ?].
  destruct (region (rget rs arg)) as [[[] ? ?]|] eqn:Hg; try done.
  destruct (regs_ok_rget rs arg Hrs ltac:(lia)) as [_ Hgr]. specialize (Hgr _ Hg).
  assert (Hidx : 0 <= map_index < len (maps e)).
  { inversion Hgr as [| |idx Hi|mp lo Hmp|cpf Hcpf Heq]; subst.
    - unfold ctx_region in *. by destruct (read_only_ctx e).
    - done.
    - pose proof (eo_ptrs _ _ Henv) as HF. rewrite list.Forall_forall in HF.
      destruct (HF _ Hcpf) as (_ & Hd). apply Hd. by rewrite Heq. }
  destruct (lookup_lt_is_Some_2 (maps e) (Z.to_nat map_index)) as [mp Hmp];
    [unfold len in Hidx; lia|].
  rewrite (index_Ok _ _ mp) by (done || lia). simpl.
  destruct (checked_add 64 result _) as [en|] eqn:Hc; simpl; [|done].
  apply checked_add_Some in Hc as [-> ?].
  case_match eqn:Ho; [done|]. apply orb_false_iff in Ho as [? ?]. simpl.
  apply regs_ok_rset; [done|]. split; [done|]. simpl. intros g [= <-].
  apply granted_map; [by eapply list_elem_of_lookup_2|lia|lia].
Qed.

Lemma clobber_args_ok rs : regs_ok rs -> regs_ok (clobber_args rs).
Proof.
  intros Hrs. unfold clobber_args.
  assert (Forall (fun i => 0 <= i <= 10) [1; 2; 3; 4; 5]) as HF by (repeat constructor; lia).
  revert rs Hrs HF. generalize [1; 2; 3; 4; 5]. induction l as [|i l IH]; intros rs Hrs HF; [done|].
  simpl. apply Forall_cons_iff in HF as [Hi HF]. apply IH; [|done].
  apply regs_ok_rset; [done|]. apply scalar_ok. apply (regs_ok_rget rs i Hrs Hi).
Qed.

Lemma call_helper_post v i : inv v -> res_post inv False (call_helper e v i).
Proof.
  intros Hv. unfold call_helper.
  destruct (list_find _ _) as [[k d]|] eqn:Hf; [|done].
  apply list_find_Some in Hf as (Hk & _).
  pose proof (eo_helpers _ _ Henv) as HF. rewrite Forall_lookup in HF. specialize (HF _ _ Hk).
  destruct (func d _ _ _ _ _ _) as [result m] eqn:Hfn.
  destruct (HF _ _ _ _ _ _ _ _ (vo_mem _ _ _ Hv) Hfn) as (Hr & Hm & Hfr).
  eapply res_post_bind; [apply helper_return_post; eauto|].
  intros rs Hrs. simpl. apply inv_set_mem; [|eapply mem_inv_step; eauto].
  apply inv_set_reg; [done|]. by apply clobber_args_ok.
Qed.

Lemma call_local_post v i :
  inv v -> res_post inv (overflow_checks (build e) = true) (call_local e v i).
Proof.
  intros Hv. unfold call_local. destruct (Z.geb_spec (frame_idx v) (MAX_CALL_DEPTH (build e))); [done|].
  eapply res_post_bind; [apply arith_u_post; lia|]. intros fp Hfp.
  eapply res_post_bind; [apply check_jump_post|]. intros t Ht. simpl in *.
  pose proof (inv_reg v 10 Hv ltac:(lia)) as H10. pose proof (vo_frame_idx _ _ _ Hv).
  apply inv_set_pc; [|lia]. apply inv_set_frames; simpl.
  - apply inv_set_reg; [done|]. apply regs_ok_rset; [auto|]. split; [done|apply H10].
  - unfold len. rewrite length_insert. apply (vo_frames_len _ _ _ Hv).
  - apply Forall_insert; [apply (vo_frames _ _ _ Hv)|].
    pose proof (inv_reg v 6 Hv ltac:(lia)) as [? ?]. pose proof (inv_reg v 7 Hv ltac:(lia)) as [? ?].
    pose proof (inv_reg v 8 Hv ltac:(lia)) as [? ?]. pose proof (inv_reg v 9 Hv ltac:(lia)) as [? ?].
    split_and!; simpl; [done|done|..].
    + rewrite !Forall_cons_iff. auto 10 using Forall_nil.
    + rewrite !Forall_cons_iff. auto 10 using Forall_nil.
    + apply (vo_pc _ _ _ Hv).
    + apply (vo_pc _ _ _ Hv).
    + unfold uN, STACK_SIZE_PER_FRAME. lia.
  - lia.
Qed.

Lemma exec_call_post v i :
  inv v -> res_post inv (overflow_checks (build e) = true) (exec_call e v i).
Proof.
  intros Hv. unfold exec_call. repeat case_match; [|by apply call_local_post|done].
  eapply (res_post_mono _ _ False); [by apply call_helper_post|done|tauto].
Qed.

Lemma restore_saved_ok rs fr : regs_ok rs -> frame_ok e fr -> regs_ok (restore_saved rs fr).
Proof.
  intros Hrs (H1 & H2 & H3 & H4 & _ & _). unfold restore_saved.
  assert (Hk : forall k, (k < 4)%nat ->
    reg_ok e (mkReg (saved_regs fr !!! k) (saved_regions fr !!! k))).
  { intros k Hk. split; simpl.
    - apply (Forall_lookup_1 _ _ k _ H3). apply list_lookup_lookup_total_lt. lia.
    - apply (Forall_lookup_1 _ _ k _ H4). apply list_lookup_lookup_total_lt. lia. }
  simpl. repeat apply regs_ok_rset; auto with lia.
Qed.

(** What a completed iteration leaves: the invariant, or a [u64] result and a
    memory that differs from the initial one in writable bytes only. *)
Definition ctl_ok (c : Ctl) : Prop :=
  match c with
  | Continue v => inv v
  | Return r m => uN 64 r /\ mem_inv m
  end.

Lemma exec_exit_post v :
  inv v -> res_post ctl_ok (overflow_checks (build e) = true) (exec_exit e v).
Proof.
  intros Hv. unfold exec_exit. destruct (Z.gtb_spec (frame_idx v) 0).
  - pose proof (vo_frame_idx _ _ _ Hv). pose proof (vo_frames_len _ _ _ Hv) as Hfl.
    assert (Hfr : frame_ok e (frames v !!! Z.to_nat (frame_idx v - 1))).
    { pose proof (vo_frames _ _ _ Hv) as HF. rewrite Forall_lookup in HF.
      eapply HF. apply list_lookup_lookup_total_lt. unfold len in Hfl. lia. }
    set (fr := frames v !!! _) in *.
    pose proof (restore_saved_ok _ _ (inv_regs v Hv) Hfr) as Hrs.
    eapply res_post_bind; [apply arith_u_post; lia|]. intros fp Hfp. simpl.
    apply inv_set_pc; [|apply Hfr]. apply inv_set_frames; [| | |lia].
    + apply inv_set_reg; [done|]. apply regs_ok_rset; [done|].
      split; [done|]. apply (regs_ok_rget _ 10 Hrs). lia.
    + apply Hfl.
    + apply (vo_frames _ _ _ Hv).
  - simpl. split; [|by apply inv_mem]. apply (inv_reg v 0 Hv). lia.
Qed.

Lemma exec_insn_post v i :
  inv v -> regs_in_range i ->
  res_post ctl_ok (overflow_checks (build e) = true) (exec_insn e v i).
Proof.
  intros Hv Hi. pose proof Hi as [Hd Hs].
  assert (Hput : forall r : Exec TaggedReg, res_post (reg_ok e) False r ->
    res_post ctl_ok (overflow_checks (build e) = true)
      (res_map (fun r => Continue (set_reg v (rset (reg v) (dst i) r))) r)).
  { intros r Hr. eapply res_post_bind; [eapply (res_post_mono _ _ False); [exact Hr|done|tauto]|].
    intros a Ha. simpl in *. auto. }
  assert (Hcont : forall r : Exec VM, res_post inv (overflow_checks (build e) = true) r ->
    res_post ctl_ok (overflow_checks (build e) = true) (res_map Continue r)).
  { intros r Hr. eapply res_post_bind; [exact Hr|]. by intros. }
  assert (Hcont' : forall r : Exec VM, res_post inv False r ->
    res_post ctl_ok (overflow_checks (build e) = true) (res_map Continue r)).
  { intros r Hr. apply Hcont. eapply res_post_mono; [exact Hr|done|tauto]. }
  unfold exec_insn. case_match; [by apply Hcont, exec_ld_dw_imm_post|].
  case_match eqn:E1; [by eapply Hput, exec_ldx_post|].
  case_match eqn:E2; [by eapply Hcont', exec_st_post|].
  case_match eqn:E3; [by eapply Hcont', exec_atomic_post|].
  case_match eqn:E4; [eapply Hput, alu_post; [..|exact E4]; auto|].
  case_match eqn:E5; [by eapply Hcont, exec_jmp_post|].
  case_match; [by apply Hcont, exec_call_post|].
  case_match; [by apply exec_exit_post|done].
Qed.

Lemma step_post v :
  inv v -> res_post ctl_ok (overflow_checks (build e) = true) (step e v).
Proof.
  intros Hv. unfold step. destruct (Z.ltb_spec (pc v) (num_insns e)); [|done].
  pose proof (vo_pc _ _ _ Hv).
  eapply res_post_bind; [apply arith_u_post; lia|]. intros c [Hc _].
  destruct (c >? _) eqn:Hb; [done|].
  destruct (get_insn_post (pc v) ltac:(lia)) as (i & -> & (_ & [? ?] & [? ?] & _)). simpl.
  case_match eqn:Hr; [done|]. apply orb_false_iff in Hr as [? ?].
  apply exec_insn_post; [|unfold regs_in_range; lia].
  apply inv_set_pc; [|lia]. apply inv_set_count; [done|lia].
Qed.

Lemma init_vm_inv : inv (init_vm e m0).
Proof.
  destruct (eo_stack _ _ Henv) as [Hs1 Hs2]. destruct (eo_ctx _ _ Henv) as (Hc1 & Hc2 & _).
  pose proof (eo_ctx_len _ _ Henv). pose proof STACK_SIZE_pos.
  assert (2 ^ usize_bits (build e) <= 2 ^ 64).
  { destruct (eo_build _ _ Henv) as [-> | ->]; lia. }
  assert (Hrs : regs_ok (init_regs e)).
  { unfold init_regs. repeat apply regs_ok_rset.
    - split; [done|]. apply Forall_replicate. apply scalar_ok, u64_zero.
    - split; simpl; [unfold uN; lia|]. intros g. case_match; [done|]. intros [= <-]. apply granted_ctx.
    - apply scalar_ok. unfold uN. lia.
    - split; simpl; [unfold uN; lia|]. intros g [= <-]. apply granted_stack. }
  assert (0 <= num_insns e) by (apply Z.div_pos; [apply len_nonneg|done]).
  pose proof (eo_budget _ _ Henv) as [? ?].
  constructor; simpl; try lia; try apply Hrs.
  - apply start_mem_ok.
  - apply mem_frame_refl.
  - split_and!; [done|done|done|constructor].
  - unfold len, MAX_CALL_DEPTH. rewrite length_replicate. destruct (stack_512 _); done.
  - apply Forall_replicate. split_and!; simpl; try done; try lia.
    + rewrite !Forall_cons_iff. auto 10 using Forall_nil, u64_zero.
    + by repeat constructor.
  - unfold MAX_CALL_DEPTH. destruct (stack_512 _); lia.
Qed.
End WithEnv.
