(* ===== verification/BpfSafety.v ===== *)
(** * Safety and termination of [execute_program]

    Memory safety, confinement of writes, termination within the instruction
    budget, integrity of region tags along every run, and the calling
    convention. *)

From S2P Require Import Prelude.
From S2P Require Import Ebpf.
From S2P Require Import BpfTypes.
From S2P Require Import BpfSpill.
From S2P Require Import BpfMem.
From S2P Require Import BpfAlu.
From S2P Require Import BpfExec.
From S2P Require Import BpfInv.
Open Scope Z_scope.

(** ** Reachable states *)

Inductive steps (e : Env) : VM -> VM -> Prop :=
  | steps_refl v : steps e v v
  | steps_step v1 v2 v3 : steps e v1 v2 -> step e v2 = Ok (Continue v3) -> steps e v1 v3.

Definition reachable (e : Env) (m : memory) (v : VM) : Prop := steps e (init_vm e m) v.

Lemma reachable_inv e m v : env_ok e m -> reachable e m v -> inv e m v.
Proof.
  intros Henv H. unfold reachable in H. remember (init_vm e m) as v0 eqn:E.
  induction H as [v|v1 v2 v3 _ IH Hs]; subst.
  - by apply init_vm_inv.
  - specialize (IH eq_refl). pose proof (step_post e m Henv v2 IH) as Hp.
    rewrite Hs in Hp. exact Hp.
Qed.

(** ** Runs *)

(** The outcome of a run that started in a state satisfying the invariant. *)
Definition outcome_ok (e : Env) (m : memory) (r : Exec (Z * memory)) : Prop :=
  res_post (fun xm => uN 64 xm.1 /\ mem_inv e m xm.2) (overflow_checks (build e) = true) r.

Lemma run_post e m fuel v r :
  env_ok e m -> inv e m v -> run e fuel v = Some r -> outcome_ok e m r.
Proof.
  intros Henv. revert v. induction fuel as [|fuel IH]; intros v Hv; simpl; [done|].
  pose proof (step_post e m Henv v Hv) as Hp.
  destruct (step e v) as [[v'|x m']| | |]; simpl in *; intros Hr; [by eapply IH|..];
    simplify_eq; done.
Qed.

Lemma execute_program_post e m fuel r :
  env_ok e m -> execute_program e fuel m = Some r -> outcome_ok e m r.
Proof.
  intros Henv. unfold execute_program. case_match; [by intros [= <-]|].
  assert (Hw : 2 ^ usize_bits (build e) <= 2 ^ 64)
    by (destruct (eo_build _ _ Henv) as [-> | ->]; lia).
  destruct (eo_stack _ _ Henv). destruct (eo_ctx _ _ Henv) as (? & ? & _).
  rewrite !checked_add_lt by lia. eauto using run_post, init_vm_inv.
Qed.

(** C1: run on inputs that meet its documented safety contract, the interpreter
    never reads or writes dead memory, whatever the program does; compiled without
    overflow checks it never panics; and a result it returns is a [u64] with a
    final memory that differs from the initial one only in writable bytes. *)
Theorem execute_program_safe e m fuel r :
  env_ok e m -> execute_program e fuel m = Some r ->
  r <> UB /\ (overflow_checks (build e) = false -> r <> Panic) /\
  (forall x m', r = Ok (x, m') -> uN 64 x /\ mem_frame (writable e) (start_mem e m) m').
Proof.
  intros Henv Hr. pose proof (execute_program_post e m fuel r Henv Hr) as Hp.
  destruct r as [[y my]| | |]; simpl in Hp; split_and!; try done.
  - intros x m' [= <- <-]. split; [apply Hp|apply (proj2 Hp)].
  - intros Hoc _. congruence.
Qed.

(** ** Read-only context *)

(** With [read_only_ctx] set, a run never changes the context, provided the
    context does not overlap memory the program is allowed to write. *)
Lemma execute_program_ctx_unchanged e m fuel x m' a :
  env_ok e m -> read_only_ctx e = true ->
  (forall a, ctx_base e <= a < ctx_base e + ctx_len e -> ~ writable e a) ->
  execute_program e fuel m = Some (Ok (x, m')) ->
  ctx_base e <= a < ctx_base e + ctx_len e -> m' !! a = m !! a.
Proof.
  intros Henv Hro Hdisj Hr Ha. pose proof (execute_program_post e m fuel _ Henv Hr) as Hp.
  destruct Hp as [_ [_ [_ HF]]]. simpl in HF. rewrite HF by auto.
  rewrite start_mem_lookup. case_decide as Hst; [|done].
  destruct (Hdisj a Ha). by left.
Qed.

(** ** Tag integrity *)

(** In every reachable state each register that carries a region carries one
    the caller granted: the stack, the context, one value of one map, a descriptor
    of an existing map or a declared context pointer field.  No instruction forges
    or widens a region. *)
Lemma reachable_regions_granted e m v i g :
  env_ok e m -> reachable e m v -> 0 <= i <= 10 ->
  region (rget (reg v) i) = Some g -> granted e g.
Proof.
  intros Henv Hr Hi Hg. pose proof (reachable_inv e m v Henv Hr) as Hv.
  by apply (inv_reg e m v i Hv Hi).
Qed.

(** ** Bookkeeping of one instruction *)

(** The instruction left the counters and the call stack alone. *)
Definition quiet (v v' : VM) : Prop :=
  insn_count v' = insn_count v /\ frames v' = frames v /\ frame_idx v' = frame_idx v.

Lemma exec_st_quiet e v i r v' : exec_st e v i = Some r -> r = Ok v' -> quiet v v'.
Proof.
  unfold exec_st, store_plain, store_dw_reg.
  repeat (case_match; [intros [= <-]|]); try done;
    intros Hr; inv_bind Hr; simplify_eq; repeat case_match; done.
Qed.

Lemma exec_atomic_quiet e v i r v' : exec_atomic e v i = Some r -> r = Ok v' -> quiet v v'.
Proof.
  unfold exec_atomic, atomic_op.
  repeat (case_match; [intros [= <-]|]); try done;
    intros Hr; inv_bind Hr; repeat case_match; simplify_eq; done.
Qed.

Lemma exec_jmp_quiet e v i r v' : exec_jmp e v i = Some r -> r = Ok v' -> quiet v v'.
Proof.
  unfold exec_jmp. repeat case_match; try done; intros [= <-] Hr.
  - unfold res_map in Hr. inv_bind Hr. by simplify_eq.
  - by simplify_eq.
Qed.

Lemma call_helper_quiet e v i v' : call_helper e v i = Ok v' -> quiet v v'.
Proof.
  unfold call_helper. repeat case_match; try done. intros Hr. inv_bind Hr. by simplify_eq.
Qed.

(** The instructions that touch the counters or the call stack. *)
Lemma exec_insn_cases e v i v' :
  exec_insn e v i = Ok (Continue v') ->
  quiet v v' \/ exec_ld_dw_imm e v i = Ok v' \/ call_local e v i = Ok v' \/
  (opc i = EXIT /\ exec_exit e v = Ok (Continue v')).
Proof.
  unfold exec_insn, res_map. case_match.
  { intros Hk. inv_bind Hk. simplify_eq. auto. }
  case_match; [intros Hk; inv_bind Hk; simplify_eq; by left|].
  case_match eqn:E2; [intros Hk; inv_bind Hk; simplify_eq; left; by eapply exec_st_quiet|].
  case_match eqn:E3; [intros Hk; inv_bind Hk; simplify_eq; left; by eapply exec_atomic_quiet|].
  case_match; [intros Hk; inv_bind Hk; simplify_eq; by left|].
  case_match eqn:E5; [intros Hk; inv_bind Hk; simplify_eq; left; by eapply exec_jmp_quiet|].
  case_match.
  { intros Hk. inv_bind Hk. simplify_eq. unfold exec_call in *.
    repeat case_match; [left; by eapply call_helper_quiet|auto|done]. }
  case_match eqn:E7; [|done]. zbool. auto.
Qed.

Lemma arith_u_small {E} oc w r x : 0 <= r < 2 ^ w -> arith_u (E := E) oc w r = Ok x -> x = r.
Proof.
  intros Hk. unfold arith_u. destruct (Z.leb_spec 0 r), (Z.ltb_spec r (2 ^ w)); simpl; try lia.
  by intros [= <-].
Qed.

Lemma exec_ld_dw_imm_count e v i v' :
  0 <= insn_count v <= instruction_budget e -> instruction_budget e < UNLIMITED_BUDGET ->
  exec_ld_dw_imm e v i = Ok v' ->
  insn_count v < insn_count v' <= instruction_budget e /\
  frames v' = frames v /\ frame_idx v' = frame_idx v.
Proof.
  intros Hc Hb. unfold UNLIMITED_BUDGET in Hb. unfold exec_ld_dw_imm. case_match; [done|]. intros Hk.
  apply res_bind_Ok in Hk as (next & _ & Hk). apply res_bind_Ok in Hk as (c & Hc' & Hk).
  apply arith_u_small in Hc' as ->; [|lia]. case_match eqn:Hbd; [done|].
  apply res_bind_Ok in Hk as (r & _ & Hk). simplify_eq. simpl. split; [lia|done].
Qed.

Lemma call_local_count e v i v' :
  call_local e v i = Ok v' -> insn_count v' = insn_count v /\ frame_idx v' = frame_idx v + 1.
Proof.
  unfold call_local. case_match; [done|]. intros Hk. inv_bind Hk. by simplify_eq.
Qed.

Lemma exec_exit_count e v v' :
  exec_exit e v = Ok (Continue v') ->
  insn_count v' = insn_count v /\ frames v' = frames v /\ frame_idx v' = frame_idx v - 1.
Proof. unfold exec_exit. case_match; [|done]. intros Hk. inv_bind Hk. by simplify_eq. Qed.

(** Each completed iteration charges at least one slot and stays within budget. *)
Lemma step_count e v v' :
  0 <= insn_count v <= instruction_budget e -> instruction_budget e < UNLIMITED_BUDGET ->
  step e v = Ok (Continue v') -> insn_count v < insn_count v' <= instruction_budget e.
Proof.
  intros Hc Hb. pose proof Hb as Hb'. unfold UNLIMITED_BUDGET in Hb'.
  unfold step. case_match; [|done]. intros Hk.
  apply res_bind_Ok in Hk as (c & Hc' & Hk). apply arith_u_small in Hc' as ->; [|lia].
  case_match eqn:Hbd; [done|]. apply res_bind_Ok in Hk as (i & _ & Hk). case_match; [done|].
  set (v1 := set_pc _ _) in Hk. assert (insn_count v1 = insn_count v + 1) as Hv1 by done.
  apply exec_insn_cases in Hk as [[Hq _]|[Hk|[Hk|[_ Hk]]]].
  - lia.
  - apply exec_ld_dw_imm_count in Hk; lia.
  - apply call_local_count in Hk. lia.
  - apply exec_exit_count in Hk. lia.
Qed.

(** ** Termination *)

Lemma run_terminates e fuel v :
  0 <= insn_count v <= instruction_budget e -> instruction_budget e < UNLIMITED_BUDGET ->
  instruction_budget e - insn_count v < Z.of_nat fuel -> is_Some (run e fuel v).
Proof.
  revert v. induction fuel as [|fuel IH]; intros v Hc Hb Hf; [lia|]. simpl.
  destruct (step e v) as [[v'|x m']| | |] eqn:Hs; try (by eexists).
  pose proof (step_count e v v' Hc Hb Hs). apply IH; lia.
Qed.

Lemma run_fuel_mono e fuel fuel' v r :
  (fuel <= fuel')%nat -> run e fuel v = Some r -> run e fuel' v = Some r.
Proof.
  revert fuel' v. induction fuel as [|fuel IH]; intros fuel' v Hle; [done|].
  destruct fuel' as [|fuel']; [lia|]. simpl. destruct (step e v) as [[v'|x m']| | |]; try done.
  apply IH. lia.
Qed.

(** C16: with any metered budget the interpreter halts: one outcome is reached
    within [instruction_budget + 1] iterations of the loop, and more fuel changes
    nothing.  This holds for every program, inputs and helpers. *)
Theorem execute_program_terminates e m :
  0 <= instruction_budget e < UNLIMITED_BUDGET ->
  exists r, forall fuel, instruction_budget e < Z.of_nat fuel -> execute_program e fuel m = Some r.
Proof.
  intros [H0 Hb]. unfold execute_program. case_match; [by eexists|].
  destruct (checked_add 64 (stack_base e) _); [|by eexists].
  destruct (checked_add 64 (ctx_base e) _); [|by eexists].
  destruct (run_terminates e (S (Z.to_nat (instruction_budget e))) (init_vm e m)) as [r Hr];
    simpl; [lia|done|lia|].
  exists r. intros fuel Hf. eapply run_fuel_mono; [|exact Hr]. lia.
Qed.

(** The budget is exact accounting: the instruction counter of every reachable
    state is the number of slots charged, never above the budget, and grows along
    every iteration. *)
Lemma reachable_within_budget e m v v' :
  0 <= instruction_budget e < UNLIMITED_BUDGET -> reachable e m v ->
  0 <= insn_count v <= instruction_budget e /\
  (step e v = Ok (Continue v') -> insn_count v < insn_count v' <= instruction_budget e).
Proof.
  intros Hb Hr. unfold reachable in Hr. remember (init_vm e m) as v0 eqn:E.
  assert (Hc : 0 <= insn_count v <= instruction_budget e).
  { induction Hr as [v|v1 v2 v3 _ IH Hs]; subst; [simpl; lia|].
    specialize (IH eq_refl). apply step_count in Hs; lia. }
  split; [done|]. apply step_count; lia.
Qed.

(** ** Calling convention *)

(** Iterations that never return below call depth [d]. *)
Inductive steps_above (e : Env) (d : Z) : VM -> VM -> Prop :=
  | above_refl v : d <= frame_idx v -> steps_above e d v v
  | above_step v1 v2 v3 :
      steps_above e d v1 v2 -> step e v2 = Ok (Continue v3) -> d <= frame_idx v3 ->
      steps_above e d v1 v3.

Lemma steps_above_depth e d v v' : steps_above e d v v' -> d <= frame_idx v'.
Proof. by inversion 1. Qed.

(** An iteration writes the saved frames only at the current depth. *)
Lemma step_frames e d v v' j :
  0 <= j < d -> d <= frame_idx v -> step e v = Ok (Continue v') ->
  frames v' !!! Z.to_nat j = frames v !!! Z.to_nat j.
Proof.
  intros Hj Hd. unfold step. case_match; [|done]. intros Hk.
  inv_bind Hk. case_match; [done|]. inv_bind Hk. case_match; [done|].
  apply exec_insn_cases in Hk as [(_ & -> & _)|[Hk|[Hk|[_ Hk]]]].
  - done.
  - unfold exec_ld_dw_imm in Hk. case_match; [done|]. inv_bind Hk. case_match; [done|].
    inv_bind Hk. by simplify_eq.
  - unfold call_local in Hk. case_match; [done|]. inv_bind Hk. simplify_eq. simpl.
    apply list_lookup_total_insert_ne. simpl. lia.
  - by apply exec_exit_count in Hk as (_ & -> & _).
Qed.

Lemma steps_above_frames e d v v' j :
  0 <= j < d -> steps_above e d v v' ->
  frames v' !!! Z.to_nat j = frames v !!! Z.to_nat j.
Proof.
  intros Hj. induction 1 as [|v1 v2 v3 Hs IH Hst Hd]; [done|]. rewrite <- IH.
  eapply step_frames; [exact Hj| |exact Hst]. by apply steps_above_depth in Hs.
Qed.

(** The state the opcode match sees after fetching at [v]. *)
Definition fetched (v v' : VM) : Prop :=
  reg v' = reg v /\ frames v' = frames v /\ frame_idx v' = frame_idx v /\ pc v' = pc v + 1.

(** A step that goes one call deeper is a local call; one that comes up is an
    exit. *)
Lemma step_depth e v v' :
  step e v = Ok (Continue v') ->
  exists w i, fetched v w /\
    (frame_idx v' = frame_idx v \/
     (frame_idx v' = frame_idx v + 1 /\ call_local e w i = Ok v') \/
     (frame_idx v' = frame_idx v - 1 /\ exec_exit e w = Ok (Continue v'))).
Proof.
  unfold step. case_match; [|done]. intros Hk.
  apply res_bind_Ok in Hk as (c & _ & Hk). case_match; [done|].
  apply res_bind_Ok in Hk as (i & _ & Hk). case_match; [done|].
  set (w := set_pc _ _) in Hk. exists w, i. split; [done|].
  apply exec_insn_cases in Hk as [(_ & _ & Hq)|[Hk|[Hk|[_ Hk]]]].
  - by left.
  - left. unfold exec_ld_dw_imm in Hk. case_match; [done|]. inv_bind Hk. case_match; [done|].
    inv_bind Hk. by simplify_eq.
  - right; left. split; [|done]. by apply call_local_count in Hk as [_ ->].
  - right; right. split; [|done]. by apply exec_exit_count in Hk as (_ & _ & ->).
Qed.

Lemma call_local_frame e v i v' :
  call_local e v i = Ok v' -> 0 <= frame_idx v < len (frames v) ->
  let fr := frames v' !!! Z.to_nat (frame_idx v) in
  saved_regs fr = value <$> [rget (reg v) 6; rget (reg v) 7; rget (reg v) 8; rget (reg v) 9] /\
  saved_regions fr = region <$> [rget (reg v) 6; rget (reg v) 7; rget (reg v) 8; rget (reg v) 9] /\
  return_pc fr = pc v.
Proof.
  unfold call_local. case_match; [done|]. intros Hk Hr. inv_bind Hk. simplify_eq. simpl.
  unfold len in Hr. rewrite list_lookup_total_insert_eq by lia. done.
Qed.

Lemma restore_saved_get rs fr (k : nat) :
  len rs = 11 -> (k < 4)%nat ->
  rget (restore_saved rs fr) (6 + Z.of_nat k) = mkReg (saved_regs fr !!! k) (saved_regions fr !!! k).
Proof.
  intros Hl Hk. unfold restore_saved. simpl.
  destruct k as [|[|[|[|k]]]]; [| | | |lia]; simpl;
    repeat (rewrite rget_rset_ne by lia); apply rget_rset_eq; rewrite ?len_rset; lia.
Qed.

Lemma exec_exit_restores e v v' (k : nat) :
  len (reg v) = 11 -> (k < 4)%nat -> exec_exit e v = Ok (Continue v') ->
  let fr := frames v !!! Z.to_nat (frame_idx v - 1) in
  rget (reg v') (6 + Z.of_nat k) = mkReg (saved_regs fr !!! k) (saved_regions fr !!! k) /\
  pc v' = return_pc fr.
Proof.
  intros Hl Hk. unfold exec_exit. case_match; [|done]. intros Hx. inv_bind Hx. simplify_eq. simpl.
  split; [|done]. rewrite rget_rset_ne by lia. by apply restore_saved_get.
Qed.

Lemma steps_above_inv e m d v v' :
  env_ok e m -> inv e m v -> steps_above e d v v' -> inv e m v'.
Proof.
  intros Henv Hv. induction 1 as [|v1 v2 v3 _ IH Hst _]; [done|].
  pose proof (step_post e m Henv v2 (IH Hv)) as Hp. rewrite Hst in Hp. exact Hp.
Qed.

(** The BPF-to-BPF calling convention.  From a local call in a reachable state,
    whatever the callee runs (nested calls included), when control first returns
    below the callee's depth r6-r9 hold the caller's values and region tags and
    execution continues after the call instruction. *)
Lemma local_call_restores_callee_saved e m v0 v1 v2 v3 (k : Z) :
  env_ok e m -> reachable e m v0 ->
  step e v0 = Ok (Continue v1) -> frame_idx v1 = frame_idx v0 + 1 ->
  steps_above e (frame_idx v1) v1 v2 ->
  step e v2 = Ok (Continue v3) -> frame_idx v3 < frame_idx v1 ->
  6 <= k <= 9 ->
  rget (reg v3) k = rget (reg v0) k /\ pc v3 = pc v0 + 1 /\ frame_idx v3 = frame_idx v0.
Proof.
  intros Henv Hr Hs0 Hd1 Hab Hs2 Hd3 Hkr.
  pose proof (reachable_inv e m v0 Henv Hr) as Hv0.
  assert (Hv1 : inv e m v1) by (pose proof (step_post e m Henv v0 Hv0) as Hp; by rewrite Hs0 in Hp).
  pose proof (steps_above_inv e m _ _ _ Henv Hv1 Hab) as Hv2.
  pose proof (steps_above_depth _ _ _ _ Hab) as Hd2.
  pose proof (vo_frame_idx _ _ _ Hv0). pose proof (vo_frame_idx _ _ _ Hv1).
  destruct (step_depth _ _ _ Hs0) as (w0 & i & (R0 & F0 & D0 & P0) & [?|[[_ Hcall]|[? _]]]); try lia.
  destruct (step_depth _ _ _ Hs2) as (w2 & _ & (R2 & F2 & D2 & P2) & [?|[[? _]|[Hdec Hexit]]]); try lia.
  destruct (call_local_frame _ _ _ _ Hcall) as (S1 & S2 & S3).
  { rewrite F0, (vo_frames_len _ _ _ Hv0). lia. }
  destruct (exec_exit_restores e w2 v3 (Z.to_nat (k - 6))) as [E1 E2];
    [rewrite R2; apply (vo_len _ _ _ Hv2)|lia|done|].
  replace (frame_idx w2 - 1) with (frame_idx w0) in E1, E2 by lia.
  rewrite F2, (steps_above_frames e (frame_idx v1) v1 v2) in E1, E2 by (done || lia).
  rewrite S1, S2, R0 in E1. rewrite S3 in E2.
  split_and!; [|lia|lia]. replace (6 + Z.of_nat (Z.to_nat (k - 6))) with k in E1 by lia.
  rewrite E1. assert (k = 6 \/ k = 7 \/ k = 8 \/ k = 9) as [->|[->|[->| ->]]] by lia;
    exact (reg_eta _).
Qed.
