(* ===== verification/BpfRfc.v ===== *)
(** * Conformance of the ALU and jump arms to RFC 9669

    The interpreter matches on some 140 flat opcode constants.  The reference
    here is written the way RFC 9669 specifies the instruction set: an opcode
    splits into class (low 3 bits), source (bit 3) and operation code (high 4
    bits), and one equation per operation code covers both widths and both operand
    sources. *)

From S2P Require Import Prelude.
From S2P Require Import Ebpf.
From S2P Require Import BpfTypes.
From S2P Require Import BpfAlu.
From S2P Require Import BpfExec.
Open Scope Z_scope.

(** ** Reference semantics *)

(** What the RFC says of an encoding: no such instruction, an instruction with a
    reserved field that is not zero or a modifier that is not defined, or a
    result. *)
Inductive Rfc (A : Type) : Type :=
  | Undefined
  | Invalid
  | Value (a : A).
Arguments Undefined {A}.
Arguments Invalid {A}.
Arguments Value {A} a.

Definition op_class (opcode : Z) : Z := opcode mod 8.
Definition op_is_x (opcode : Z) : bool := (opcode / 8) mod 2 =? 1.
Definition op_code (opcode : Z) : Z := opcode / 16.

(** Operation with the reserved offset field. *)
Definition off0 {A} (off : Z) (a : A) : Rfc A := if off =? 0 then Value a else Invalid.

Definition rfc_end (opcode off imm d : Z) : Rfc Z :=
  let swap := (op_class opcode =? 7) || op_is_x opcode in
  if (op_class opcode =? 7) && op_is_x opcode then Undefined else
  if negb ((imm =? 16) || (imm =? 32) || (imm =? 64)) then Invalid else
  off0 off (if swap then from_le_bytes (rev (to_le_bytes (Z.to_nat (imm / 8)) d))
            else d mod 2 ^ imm).

Definition rfc_alu (opcode off imm d s : Z) : Rfc Z :=
  let is_x := op_is_x opcode in
  let w := if op_class opcode =? 4 then 32 else 64 in
  let dw := wrap w d in
  let sw := wrap w (if is_x then s else imm) in
  let k := sw mod w in
  match op_code opcode with
  | 0x0 => off0 off (wrap w (dw + sw))
  | 0x1 => off0 off (wrap w (dw - sw))
  | 0x2 => off0 off (wrap w (dw * sw))
  | 0x3 =>
      if off =? 0 then Value (if sw =? 0 then 0 else dw / sw)
      else if off =? 1 then
        Value (if sw =? 0 then 0 else wrap w (Z.quot (signed w dw) (signed w sw)))
      else Invalid
  | 0x4 => off0 off (Z.lor dw sw)
  | 0x5 => off0 off (Z.land dw sw)
  | 0x6 => off0 off (wrap w (dw * 2 ^ k))
  | 0x7 => off0 off (dw / 2 ^ k)
  | 0x8 => if is_x then Undefined else off0 off (wrap w (- dw))
  | 0x9 =>
      if off =? 0 then Value (if sw =? 0 then dw else dw mod sw)
      else if off =? 1 then
        Value (if sw =? 0 then dw else wrap w (Z.rem (signed w dw) (signed w sw)))
      else Invalid
  | 0xa => off0 off (Z.lxor dw sw)
  | 0xb =>
      if off =? 0 then Value sw
      else if is_x && ((off =? 8) || (off =? 16) || ((off =? 32) && (w =? 64)))
      then Value (wrap w (signed off s)) else Invalid
  | 0xc => off0 off (wrap w (signed w dw / 2 ^ k))
  | 0xd => rfc_end opcode off imm d
  | _ => Undefined
  end.

(** The interpreter's extension of the RFC: a register may be tagged with the region it
    points into.  The tag of the result, or none when the operation is refused: a
    pointer may be moved by a scalar and keeps its region, two pointers into one region
    may be subtracted, a register move copies the tag; a map descriptor may not be
    moved, bitwise operations take no pointers; everything else gives a scalar. *)
Definition tag_rule (opcode off : Z) (td ts : option Region) : option (option Region) :=
  let ts := if op_is_x opcode then ts else None in
  let moved r := if is_map_descriptor r then None else Some (Some r) in
  if negb (op_class opcode =? 7) then Some None else
  match op_code opcode, td, ts with
  | 0x0, Some r, None | 0x0, None, Some r | 0x1, Some r, None => moved r
  | 0x0, Some _, Some _ | 0x1, None, Some _ => None
  | 0x1, Some r, Some r' => if decide (r = r') then Some None else None
  | 0x4, Some _, _ | 0x4, _, Some _ | 0x5, Some _, _ | 0x5, _, Some _ | 0xa, Some _, _ | 0xa, _, Some _ => None
  | 0xb, _, _ => Some (if off =? 0 then ts else None)
  | _, _, _ => Some None
  end.

(** Jumps: the offset to take, or none. *)
Definition rfc_jump (opcode off imm d s : Z) : Rfc (option Z) :=
  let is_x := op_is_x opcode in
  let w := if op_class opcode =? 6 then 32 else 64 in
  let dw := wrap w d in
  let sw := wrap w (if is_x then s else imm) in
  let taken (c : bool) := Value (if c then Some off else None) in
  match op_code opcode with
  | 0x0 => if is_x then Undefined else Value (Some (if op_class opcode =? 6 then imm else off))
  | 0x1 => taken (dw =? sw)
  | 0x2 => taken (sw <? dw)
  | 0x3 => taken (sw <=? dw)
  | 0x4 => taken (negb (Z.land dw sw =? 0))
  | 0x5 => taken (negb (dw =? sw))
  | 0x6 => taken (signed w sw <? signed w dw)
  | 0x7 => taken (signed w sw <=? signed w dw)
  | 0xa => taken (dw <? sw)
  | 0xb => taken (dw <=? sw)
  | 0xc => taken (signed w dw <? signed w sw)
  | 0xd => taken (signed w dw <=? signed w sw)
  | _ => Undefined
  end.

(** Every cargo feature that selects match arms is on. *)
Definition full_isa (b : Build) : Prop :=
  base64 b = true /\ atomic32 b = true /\ atomic64 b = true /\ divmul32 b = true /\ divmul64 b = true.

(** ** Bit-level lemmas *)

Lemma land_ones_mod x n : 0 <= n -> Z.land x (2 ^ n - 1) = x mod 2 ^ n.
Proof.
  intros Hn. replace (2 ^ n - 1) with (Z.ones n) by (rewrite Z.ones_equiv; lia).
  by apply Z.land_ones.
Qed.

Lemma land_1f x : Z.land (as_u32 x) 0x1f = x mod 32.
Proof.
  change 0x1f with (2 ^ 5 - 1). rewrite land_ones_mod by lia.
  apply (wrap_wrap_le 5 32). lia.
Qed.

Lemma land_3f x : Z.land (as_u32 x) 0x3f = x mod 64.
Proof.
  change 0x3f with (2 ^ 6 - 1). rewrite land_ones_mod by lia.
  apply (wrap_wrap_le 6 32). lia.
Qed.

Lemma land_ffffffff x : Z.land x 0xffffffff = as_u32 x.
Proof. change 0xffffffff with (2 ^ 32 - 1). by apply land_ones_mod. Qed.

Lemma wrap_mod_32 x : wrap 32 x mod 32 = x mod 32.
Proof. apply (wrap_wrap_le 5 32). lia. Qed.

Lemma wrap_mod_64 x : wrap 64 x mod 64 = x mod 64.
Proof. apply (wrap_wrap_le 6 64). lia. Qed.

Lemma wrap_idem w x : 0 <= w -> wrap w (wrap w x) = wrap w x.
Proof. intros. apply wrap_wrap_le. lia. Qed.

Lemma signed_wrap w x : 0 <= w -> signed w (wrap w x) = signed w x.
Proof. intros. unfold signed. by rewrite wrap_idem. Qed.

Lemma wrap_opp_signed w x : 1 <= w -> wrap w (- signed w x) = wrap w (- wrap w x).
Proof.
  intros Hw. unfold signed. destruct (_ <? _); [done|].
  replace (- (wrap w x - 2 ^ w)) with (- wrap w x + 1 * 2 ^ w) by lia.
  unfold wrap at 1 3. by rewrite Z_mod_plus_full.
Qed.

Lemma signed_wrap_imm w x : 32 <= w -> iN 32 x -> signed w (wrap w x) = x.
Proof.
  intros Hw [H1 H2]. apply signed_small; [lia|]. unfold iN.
  assert (2 ^ (32 - 1) <= 2 ^ (w - 1)) by (apply Z.pow_le_mono_r; lia). lia.
Qed.

(** A value of either width is zero exactly when its signed reading is. *)
Lemma signed_eq_0 w x : 1 <= w -> (signed w x =? 0) = (wrap w x =? 0).
Proof.
  intros Hw. pose proof (wrap_signed w x Hw) as Hws. pose proof (signed_range w x Hw) as [H1 H2].
  assert (E : 2 ^ w = 2 * 2 ^ (w - 1)) by (rewrite <- Z.pow_succ_r by lia; f_equal; lia).
  destruct (Z.eqb_spec (signed w x) 0) as [H0|H0], (Z.eqb_spec (wrap w x) 0) as [H3|H3]; try done.
  - rewrite H0 in Hws. unfold wrap in Hws at 1. rewrite Z.mod_0_l in Hws by lia. lia.
  - unfold signed in H0. rewrite H3 in H0. destruct (Z.ltb_spec 0 (2 ^ (w - 1))); lia.
Qed.

Lemma imm_eq_0 w x : 32 <= w -> iN 32 x -> (x =? 0) = (wrap w x =? 0).
Proof.
  intros Hw Hx. rewrite <- (signed_eq_0 w x) by lia.
  by rewrite <- (signed_wrap_imm w x Hw Hx) at 1; rewrite signed_wrap by lia.
Qed.

Lemma swap_bytes_wrap n w x :
  w = 8 * Z.of_nat n -> swap_bytes n (wrap w x) = from_le_bytes (rev (to_le_bytes n x)).
Proof.
  intros ->. unfold swap_bytes, from_be_bytes. do 2 f_equal.
  rewrite <- from_to_le_bytes. transitivity (to_le_bytes (length (to_le_bytes n x))
    (from_le_bytes (to_le_bytes n x))); [by rewrite length_to_le_bytes|].
  apply to_from_le_bytes, to_le_bytes_ok.
Qed.

(** ** Case analysis on opcodes *)

(** An opcode byte is determined by its three fields. *)
Lemma op_split o :
  0 <= o < 256 ->
  exists c, 0 <= c < 16 /\ o = op_class o + (if op_is_x o then 8 else 0) + 16 * c.
Proof.
  intros Ho. exists (o / 16). unfold op_class, op_is_x.
  pose proof (Z.div_mod o 16 ltac:(lia)). pose proof (Z.mod_pos_bound o 16 ltac:(lia)).
  split; [split; [apply Z.div_pos; lia|apply Z.div_lt_upper_bound; lia]|].
  assert (E : o mod 16 = o mod 8 + 8 * ((o / 8) mod 2)) by (change 16 with (8 * 2); apply Z.rem_mul_r; lia).
  pose proof (Z.mod_pos_bound (o / 8) 2 ltac:(lia)).
  destruct (Z.eqb_spec ((o / 8) mod 2) 1); lia.
Qed.

(** Sixteen goals, one per operation code. *)
Ltac cases16 c H :=
  let H' := fresh in
  assert (H' : c = 0 \/ c = 1 \/ c = 2 \/ c = 3 \/ c = 4 \/ c = 5 \/ c = 6 \/ c = 7 \/
               c = 8 \/ c = 9 \/ c = 10 \/ c = 11 \/ c = 12 \/ c = 13 \/ c = 14 \/ c = 15) by lia;
  clear H; repeat (destruct H' as [-> | H']); [..|subst c].

(** Runs the opcode tests of a literal opcode, leaving the arithmetic alone. *)
Ltac eval_arm t :=
  eval cbv -[wrap signed as_u64 as_u32 as_u16 as_i64 as_i32 as_i16 as_i8 wrapping_shl
    wrapping_shr swap_bytes from_le_bytes to_le_bytes rev Z.add Z.sub Z.mul Z.opp Z.div
    Z.modulo Z.quot Z.rem Z.pow Z.land Z.lor Z.lxor Z.eqb Z.ltb Z.leb Z.gtb Z.geb]
    in t.

(** The same with the tests on tags. *)
Ltac eval_tags t :=
  eval cbv -[wrap signed as_u64 as_u32 as_u16 as_i64 as_i32 as_i16 as_i8 wrapping_shl
    wrapping_shr swap_bytes from_le_bytes to_le_bytes rev Z.add Z.sub Z.mul Z.opp Z.div
    Z.modulo Z.quot Z.rem Z.pow Z.land Z.lor Z.lxor Z.eqb Z.ltb Z.leb Z.gtb Z.geb
    Region_eq_dec is_map_descriptor] in t.

(** Evaluates the fields of a literal opcode in the reference. *)
Ltac eval_fields :=
  repeat match goal with
  | |- context [op_code ?n] => let v := eval vm_compute in (op_code n) in change (op_code n) with v
  | |- context [op_class ?n] => let v := eval vm_compute in (op_class n) in change (op_class n) with v
  | |- context [op_is_x ?n] => let v := eval vm_compute in (op_is_x n) in change (op_is_x n) with v
  end;
  repeat match goal with
  | |- context [(if ?x =? ?y then 32 else 64)] =>
      let v := eval vm_compute in (if x =? y then 32 else 64) in
      change (if x =? y then 32 else 64) with v
  end;
  cbv beta iota zeta delta [andb orb negb off0].

(** Splits the tests on the offset and immediate fields that select a case. *)
Ltac split_fields :=
  repeat match goal with
  | |- context [?x =? ?n] =>
      is_var x; lazymatch n with 0 => fail | _ => idtac end;
      destruct (Z.eqb_spec x n); [subst x|]
  | |- context [?off =? 0] => is_var off; destruct (Z.eqb_spec off 0); [subst off|]
  end.

Lemma land_1f' x : Z.land (wrap 32 x) 31 = x mod 32.
Proof. apply land_1f. Qed.
Lemma land_3f' x : Z.land (wrap 32 x) 63 = x mod 64.
Proof. apply land_3f. Qed.
Lemma land_ffffffff' x : Z.land x 4294967295 = wrap 32 x.
Proof. apply land_ffffffff. Qed.

(** Brings the implementation's casts to the reference's. *)
Ltac rfc_norm :=
  unfold scalar, as_u64, as_u32, as_u16, as_i64, as_i32, as_i16, as_i8, wrapping_shl, wrapping_shr in *;
  rewrite ?wrap_mod_32, ?wrap_mod_64, ?land_1f', ?land_3f', ?land_ffffffff', ?signed_eq_0 by lia;
  rewrite ?wrap_opp_signed, ?signed_wrap by lia;
  rewrite ?Z.shiftl_mul_pow2, ?Z.shiftr_div_pow2 by (apply Z.mod_pos_bound; lia).

Section Conformance.
Context (b : Build) (Hfull : full_isa b).

(** The implementation agrees with what the RFC says of an encoding. *)
Definition agrees {A B} (f : A -> B) (r : Rfc A) (o : option B) : Prop :=
  match r with
  | Undefined => o = None
  | Invalid => True
  | Value x => o = Some (f x)
  end.

(** Splits every test left in the goal and closes the arms that coincide. *)
Ltac split_tests :=
  repeat match goal with
  | |- context [?x =? ?n] =>
      destruct (x =? n) eqn:?; cbv beta iota; try exact I; try reflexivity; try discriminate
  end; zbool; subst; try discriminate.

(** The byte-order arms. *)
Ltac close_end d :=
  rewrite ?(swap_bytes_wrap 2 16), ?(swap_bytes_wrap 4 32) by reflexivity;
  try change (d mod 2 ^ 64) with (wrap 64 d); rewrite ?(wrap_small 64 d) by (unfold uN in *; lia);
  reflexivity.

Lemma alu32_rfc opcode off imm d s p :
  0 <= opcode < 256 -> op_class opcode = 4 ->
  uN 64 d -> uN 64 s -> iN 32 imm ->
  agrees (fun x => Ok (scalar x)) (rfc_alu opcode off imm d s)
    (alu b opcode (scalar d) (scalar s) imm off p).
Proof.
  intros Ho Hcls Hd Hs Himm. destruct (op_split opcode Ho) as (c & Hc & E).
  destruct b as [oc ub ? ? ? ? ? st], Hfull as (F1 & F2 & F3 & F4 & F5).
  cbn in F1, F2, F3, F4, F5. subst.
  rewrite Hcls in E. unfold agrees, rfc_alu, rfc_end.
  pose proof (signed_wrap_imm 32 imm ltac:(lia) Himm) as Hi.
  pose proof (imm_eq_0 32 imm ltac:(lia) Himm) as Hi0.
  destruct (op_is_x opcode); cases16 c Hc; vm_compute in E; subst opcode; clear Ho Hcls;
    eval_fields;
    match goal with |- context [alu ?x1 ?x2 ?x3 ?x4 ?x5 ?x6 ?x7] =>
      let t := eval_arm (alu x1 x2 x3 x4 x5 x6 x7) in change (alu x1 x2 x3 x4 x5 x6 x7) with t end.
  all: try reflexivity.
  all: rewrite ?Hi, ?Hi0; rfc_norm.
  all: split_tests; rfc_norm; try reflexivity.
  all: close_end d.
Qed.

Lemma alu64_rfc opcode off imm d s p :
  0 <= opcode < 256 -> op_class opcode = 7 ->
  uN 64 d -> uN 64 s -> iN 32 imm ->
  agrees (fun x => Ok (scalar x)) (rfc_alu opcode off imm d s)
    (alu b opcode (scalar d) (scalar s) imm off p).
Proof.
  intros Ho Hcls Hd Hs Himm. destruct (op_split opcode Ho) as (c & Hc & E).
  destruct b as [oc ub ? ? ? ? ? st], Hfull as (F1 & F2 & F3 & F4 & F5).
  cbn in F1, F2, F3, F4, F5. subst.
  rewrite Hcls in E. unfold agrees, rfc_alu, rfc_end.
  pose proof (signed_wrap_imm 64 imm ltac:(lia) Himm) as Hi.
  pose proof (imm_eq_0 64 imm ltac:(lia) Himm) as Hi0.
  destruct (op_is_x opcode); cases16 c Hc; vm_compute in E; subst opcode; clear Ho Hcls;
    eval_fields;
    match goal with |- context [alu ?x1 ?x2 ?x3 ?x4 ?x5 ?x6 ?x7] =>
      let t := eval_arm (alu x1 x2 x3 x4 x5 x6 x7) in change (alu x1 x2 x3 x4 x5 x6 x7) with t end.
  all: try reflexivity.
  all: rewrite ?Hi, ?Hi0; rfc_norm; rewrite ?(wrap_small 64 d), ?(wrap_small 64 s) by (unfold uN in *; lia).
  all: split_tests; rfc_norm; rewrite ?(wrap_small 64 d), ?(wrap_small 64 s) by (unfold uN in *; lia); try reflexivity.
  all: close_end d.
Qed.

(** Tags follow the rule, and the value does not depend on them. *)
Lemma alu_tags opcode rd rs im o p :
  0 <= opcode < 256 -> op_class opcode = 4 \/ op_class opcode = 7 ->
  alu b opcode rd rs im o p =
  match alu b opcode (scalar (value rd)) (scalar (value rs)) im o p with
  | Some (Ok r) => Some (match tag_rule opcode o (region rd) (region rs) with
                         | Some t => Ok (mkReg (value r) t)
                         | None => Err (InvalidPointerArithmetic (p - 1))
                         end)
  | x => x
  end.
Proof.
  intros Ho Hcls. destruct (op_split opcode Ho) as (c & Hc & E). destruct rd as [d td], rs as [s ts].
  destruct b as [oc ub ? ? ? ? ? st], Hfull as (F1 & F2 & F3 & F4 & F5). cbn in F1, F2, F3, F4, F5. subst. cbn [value region].
  destruct Hcls as [Hcls|Hcls]; rewrite Hcls in E; destruct (op_is_x opcode); cases16 c Hc; vm_compute in E; subst opcode; clear Ho Hcls;
    repeat match goal with
    | |- context [alu ?x1 ?x2 ?x3 ?x4 ?x5 ?x6 ?x7] => let t := eval_tags (alu x1 x2 x3 x4 x5 x6 x7) in change (alu x1 x2 x3 x4 x5 x6 x7) with t
    end; unfold tag_rule; eval_fields; cbn [Z.eqb Pos.eqb]; cbv beta iota delta [negb decide]; try reflexivity.
  all: try (destruct td as [rd'|], ts as [rs'|]; cbv beta iota).
  all: repeat first [reflexivity | match goal with |- context [match ?x with _ => _ end] => lazymatch x with context [match _ with _ => _ end] => fail | _ => destruct x end end].
  all: congruence.
Qed.
End Conformance.

Lemma jump_rfc e i d s :
  full_isa (build e) -> insn_ok i -> op_class (opc i) = 5 \/ op_class (opc i) = 6 ->
  uN 64 d -> uN 64 s ->
  agrees (fun x => x) (rfc_jump (opc i) (off i) (imm i) d s) (jump_offset e i d s).
Proof.
  intros Hfull (Ho & _ & _ & _ & Himm) Hcls Hd Hs. unfold jump_offset.
  destruct i as [opcode di si o im]. cbn [opc dst src off imm] in *.
  destruct (op_split opcode Ho) as (c & Hc & E).
  pose proof (signed_wrap_imm 32 im ltac:(lia) Himm) as Hi32.
  pose proof (signed_wrap_imm 64 im ltac:(lia) Himm) as Hi64.
  destruct (build e) as [oc ub ? ? ? ? ? st], Hfull as (F1 & F2 & F3 & F4 & F5).
  cbn in F1, F2, F3, F4, F5. subst. unfold agrees, rfc_jump.
  destruct Hcls as [Hcls|Hcls]; rewrite Hcls in E;
  destruct (op_is_x opcode); cases16 c Hc; vm_compute in E; subst opcode; clear Ho Hcls;
    eval_fields; cbn [Z.eqb Pos.eqb];
    match goal with |- context [jmp64_cond ?b ?o ?d ?s ?x] =>
      let t := eval_arm (jmp64_cond b o d s x) in change (jmp64_cond b o d s x) with t end;
    try match goal with |- context [jmp32_cond ?o ?d ?s ?x] =>
      let t := eval_arm (jmp32_cond o d s x) in change (jmp32_cond o d s x) with t end.
  all: try reflexivity.
  all: cbn [fmap option_fmap option_map]; rewrite ?Hi32, ?Hi64; rfc_norm;
    rewrite ?Z.gtb_ltb, ?Z.geb_leb, ?(wrap_small 64 d), ?(wrap_small 64 s) by (unfold uN in *; lia);
    try reflexivity.
Qed.

(** ** Whole instructions *)

(** The load, store and atomic arms belong to classes 0 to 3. *)
Lemma mem_arms_class e v i :
  4 <= op_class (opc i) ->
  (opc i =? LD_DW_IMM) = false /\ exec_ldx e v i = None /\ exec_st e v i = None /\
  exec_atomic e v i = None.
Proof.
  intros Hc. assert (Hne : forall n, op_class n < 4 -> (opc i =? n) = false).
  { intros n Hn. destruct (Z.eqb_spec (opc i) n) as [E|]; [|done]. rewrite E in Hc. lia. }
  unfold exec_ldx, exec_st, exec_atomic. by rewrite !Hne by reflexivity.
Qed.

Lemma jmp_cond_alu_class e i d s :
  op_class (opc i) = 4 \/ op_class (opc i) = 7 -> jump_offset e i d s = None.
Proof.
  intros Hc. assert (Hne : forall n, (op_class n =? 4) || (op_class n =? 7) = false ->
    (opc i =? n) = false).
  { intros n Hn. destruct (Z.eqb_spec (opc i) n) as [E|]; [|done]. rewrite E in Hc. zbool. lia. }
  unfold jump_offset, jmp64_cond, jmp32_cond. by rewrite !opeq_eq, !Hne by reflexivity.
Qed.

Lemma alu_jmp_class b i rd rs p :
  op_class (opc i) = 5 \/ op_class (opc i) = 6 -> alu b (opc i) rd rs (imm i) (off i) p = None.
Proof.
  intros Hc. assert (Hne : forall n, (op_class n =? 5) || (op_class n =? 6) = false ->
    (opc i =? n) = false).
  { intros n Hn. destruct (Z.eqb_spec (opc i) n) as [E|]; [|done]. rewrite E in Hc. zbool. lia. }
  unfold alu, alu32, alu32_arith, alu32_mov, alu_end, alu64, alu64_add, alu64_muldiv, alu64_orand,
    alu64_shift_mod, alu64_xor, alu64_mov. by rewrite !opeq_eq, !Hne by reflexivity.
Qed.


Lemma check_jump_spec b p o n :
  build_ok b -> overflow_checks b = false \/ usize_bits b = 64 ->
  0 <= p <= n -> n < 2 ^ (usize_bits b - 3) -> iN 32 o ->
  check_jump b p o n =
  if (0 <=? p + o) && (p + o <? n) then Ok (p + o) else Err (OutOfBounds (p - 1)).
Proof.
  intros Hb Hoc Hp Hn Ho. unfold check_jump. set (w := usize_bits b) in *.
  assert (Hw : w = 32 \/ w = 64) by exact Hb.
  assert (Hpw : 2 ^ w = 2 * 2 ^ (w - 1)) by (destruct Hw as [-> | ->]; lia).
  assert (Hpm : 2 ^ 31 <= 2 ^ (w - 1)) by (destruct Hw as [-> | ->]; lia).
  assert (Hp3 : 2 ^ (w - 1) = 4 * 2 ^ (w - 3)) by (destruct Hw as [-> | ->]; lia).
  unfold iN in Ho. rewrite <- (wrap_small w p) at 1 by (unfold uN; lia).
  rewrite signed_small by (unfold iN; lia). unfold arith_i.
  destruct (Z.leb_spec (- 2 ^ (w - 1)) (p + o)), (Z.ltb_spec (p + o) (2 ^ (w - 1))); simpl.
  - destruct (Z.leb_spec 0 (p + o)); destruct (Z.ltb_spec (p + o) 0); try lia; simpl; [|done].
    rewrite wrap_small by (unfold uN; lia).
    destruct (Z.ltb_spec (p + o) n), (Z.geb_spec (p + o) n); try lia; done.
  - destruct Hoc as [-> |Hoc]; [|exfalso; unfold w in *; rewrite Hoc in *; lia]. simpl.
    rewrite (proj2 (Z.leb_le 0 (p + o))), (proj2 (Z.ltb_ge (p + o) n)) by lia. simpl.
    rewrite (proj2 (Z.ltb_lt _ 0)); [done|]. unfold signed.
    rewrite wrap_small by (unfold uN; lia). rewrite (proj2 (Z.ltb_ge _ _)) by lia. lia.
  - lia.
  - lia.
Qed.

Lemma num_insns_lt e :
  build_ok (build e) -> len (prog e) < 2 ^ (usize_bits (build e) - 1) ->
  num_insns e < 2 ^ (usize_bits (build e) - 3).
Proof.
  intros Hb Hl. unfold num_insns, INSN_SIZE. apply Z.div_lt_upper_bound; [lia|].
  destruct Hb as [Hb|Hb]; rewrite Hb in *; lia.
Qed.

Lemma rfc_jump_range opcode off imm d s o :
  iN 16 off -> iN 32 imm -> rfc_jump opcode off imm d s = Value (Some o) -> iN 32 o.
Proof.
  intros Ho Hi. unfold rfc_jump. assert (iN 32 off) by (unfold iN in *; lia).
  repeat case_match; intros; simplify_eq; done.
Qed.

(** C15: conformance of the jump instructions.  An instruction of class JMP or
    JMP32 (CALL and EXIT aside) that the RFC defines changes only the program
    counter: to the RFC's target when the branch is taken and the target is inside
    the program, with [OutOfBounds] when it is outside, and not at all when the
    branch is not taken. *)
Theorem jmp_insn_conforms e v i :
  full_isa (build e) -> build_ok (build e) ->
  overflow_checks (build e) = false \/ usize_bits (build e) = 64 ->
  insn_ok i -> op_class (opc i) = 5 \/ op_class (opc i) = 6 ->
  0 <= pc v <= num_insns e -> len (prog e) < 2 ^ (usize_bits (build e) - 1) ->
  let d := value (rget (reg v) (dst i)) in
  let s := value (rget (reg v) (src i)) in
  uN 64 d -> uN 64 s ->
  match rfc_jump (opc i) (off i) (imm i) d s with
  | Value None => exec_insn e v i = Ok (Continue v)
  | Value (Some o) =>
      exec_insn e v i =
      if (0 <=? pc v + o) && (pc v + o <? num_insns e)
      then Ok (Continue (set_pc v (pc v + o))) else Err (OutOfBounds (pc v - 1))
  | Undefined =>
      opc i <> CALL -> opc i <> EXIT -> exec_insn e v i = Err (UnknownOpcode (pc v - 1) (opc i))
  | Invalid => True
  end.
Proof.
  intros Hfull Hb Hoc Hi Hcls Hpc Hn d s Hd Hs.
  pose proof (jump_rfc e i d s Hfull Hi Hcls Hd Hs) as Hag.
  destruct (mem_arms_class e v i) as (E1 & E2 & E3 & E4); [lia|].
  unfold exec_insn. rewrite E1, E2, E3, E4, (alu_jmp_class (build e) i) by done. simpl.
  unfold exec_jmp. change (value (rget (reg v) (dst i))) with d.
  change (value (rget (reg v) (src i))) with s.
  destruct (rfc_jump _ _ _ _ _) as [| |[o|]] eqn:ER; simpl in Hag; try done.
  - rewrite Hag. intros Hc He. by rewrite (proj2 (Z.eqb_neq _ _) Hc), (proj2 (Z.eqb_neq _ _) He).
  - rewrite Hag. rewrite check_jump_spec; [by destruct (_ && _)|done..|by apply num_insns_lt|].
    destruct Hi as (_ & _ & _ & Hoff & Himm). by eapply rfc_jump_range.
  - by rewrite Hag.
Qed.
