(* ===== verification/BpfSpillSpec.v ===== *)
(** * Refinement of the spill tracker

    The abstract tracker is a finite map from 8-byte stack slots to regions,
    with the list of the slots that own one of the 32 table entries.  Every
    operation of [SpillTracker] simulates its abstract counterpart, so what
    [check_restore] answers after any sequence of spills and overwrites is what
    the map holds.  At the level of instructions, the tracker of every reachable
    state represents an abstract one, so that a pointer register saved to the stack
    with ST_DW_REG comes back with its value and region. *)

From S2P Require Import Prelude.
From S2P Require Import Ebpf.
From S2P Require Import BpfTypes.
From S2P Require Import BpfSpill.
From S2P Require Import BpfMem.
From S2P Require Import BpfAlu.
From S2P Require Import BpfExec.
From S2P Require Import BpfInv.
From S2P Require Import BpfSafety.
Open Scope Z_scope.

(** ** Abstract tracker *)

Record SpillAbs := mkAbs { tags : gmap Z Region; owned : list Z }.

Definition abs_new : SpillAbs := mkAbs ∅ [].

(** A pointer with region [r] is saved in slot [k]; with no table entry left the
    slot holds a plain value. *)
Definition abs_record (k : Z) (r : Region) (s : SpillAbs) : SpillAbs :=
  if bool_decide (k ∈ owned s) then mkAbs (<[k := r]> (tags s)) (owned s)
  else if len (owned s) <? MAX_SPILL_SLOTS then mkAbs (<[k := r]> (tags s)) (owned s ++ [k])
  else mkAbs (delete k (tags s)) (owned s).

(** The slots [lo..hi] hold plain values. *)
Definition abs_invalidate (lo hi : Z) (s : SpillAbs) : SpillAbs :=
  mkAbs (filter (fun kr => ~ (lo <= kr.1 <= hi)) (tags s)) (owned s).

(** What a load of 8 bytes at stack offset [o] restores. *)
Definition abs_restore (o : Z) (s : SpillAbs) : option Region :=
  if o mod 8 =? 0 then tags s !! (o / 8) else None.

(** ** The bitmap *)

(** One bit of a shifted one. *)
Lemma testbit_one n m : 0 <= n -> 0 <= m -> Z.testbit (Z.shiftl 1 n) m = bool_decide (m = n).
Proof.
  intros Hn Hm. rewrite Z.shiftl_spec by lia. case_bool_decide as E.
  - subst. by rewrite Z.sub_diag.
  - destruct (Z.ltb_spec m n); [by rewrite Z.testbit_neg_r by lia|].
    by rewrite Z.bits_above_log2 by (simpl; lia).
Qed.

Lemma bit_test_testbit bm k : bit_test bm k = Z.testbit (bm !!! Z.to_nat (k / 8)) (k mod 8).
Proof.
  unfold bit_test. set (x := bm !!! _). set (n := k mod 8).
  assert (Hn : 0 <= n < 8) by (apply Z.mod_pos_bound; lia).
  destruct (Z.testbit x n) eqn:E.
  - apply negb_true_iff, Z.eqb_neq. intros H0.
    assert (H1 : Z.testbit (Z.land x (Z.shiftl 1 n)) n = true)
      by (by rewrite Z.land_spec, E, testbit_one, bool_decide_true by lia).
    by rewrite H0, Z.bits_0 in H1.
  - apply negb_false_iff, Z.eqb_eq, Z.bits_inj'. intros m Hm.
    rewrite Z.land_spec, Z.bits_0, testbit_one by lia.
    case_bool_decide; [by subst; rewrite E|apply andb_false_r].
Qed.

Lemma byte_bit_inj j k : 0 <= j -> 0 <= k ->
  Z.to_nat (j / 8) = Z.to_nat (k / 8) -> j mod 8 = k mod 8 -> j = k.
Proof.
  intros Hj Hk Hd Hm. rewrite (Z.div_mod j 8), (Z.div_mod k 8), Hm by lia.
  pose proof (Z.div_pos j 8 Hj ltac:(lia)). pose proof (Z.div_pos k 8 Hk ltac:(lia)).
  apply Z2Nat.inj in Hd; lia.
Qed.

Section Bits.
Context (bm : list Z) (j k : Z).
Context (Hj : 0 <= j < 8 * len bm) (Hk : 0 <= k < 8 * len bm).

Lemma byte_idx_lt : (Z.to_nat (k / 8) < length bm)%nat.
Proof.
  pose proof (Z.div_lt_upper_bound k 8 (len bm) ltac:(lia) ltac:(lia)).
  pose proof (Z.div_pos k 8 ltac:(lia) ltac:(lia)). unfold len in *. lia.
Qed.

Lemma bit_test_update (x : Z) (c : bool) :
  (forall m, 0 <= m < 8 -> Z.testbit x m =
     if decide (m = k mod 8) then c else Z.testbit (bm !!! Z.to_nat (k / 8)) m) ->
  bit_test (<[Z.to_nat (k / 8) := x]> bm) j = if decide (j = k) then c else bit_test bm j.
Proof.
  intros Hx. rewrite !bit_test_testbit. pose proof byte_idx_lt.
  pose proof (Z.mod_pos_bound j 8 ltac:(lia)).
  destruct (decide (Z.to_nat (j / 8) = Z.to_nat (k / 8))) as [E|E].
  - rewrite E, list_lookup_total_insert_eq, Hx by done.
    destruct (decide (j mod 8 = k mod 8)) as [E'|E'], (decide (j = k)) as [->|Hne]; try done.
    destruct Hne. apply byte_bit_inj; lia || done.
  - rewrite list_lookup_total_insert_ne by done.
    destruct (decide (j = k)) as [->|]; [|done]. by destruct E.
Qed.

Lemma bit_test_set : bit_test (bit_set bm k) j = if decide (j = k) then true else bit_test bm j.
Proof.
  apply bit_test_update. intros m Hm. pose proof (Z.mod_pos_bound k 8 ltac:(lia)).
  rewrite Z.lor_spec, testbit_one by lia. case_bool_decide; case_decide; try done.
  - apply orb_true_r.
  - apply orb_false_r.
Qed.

Lemma bit_test_clear : bit_test (bit_clear bm k) j = if decide (j = k) then false else bit_test bm j.
Proof.
  apply bit_test_update. intros m Hm. pose proof (Z.mod_pos_bound k 8 ltac:(lia)).
  rewrite Z.land_spec, Z.lxor_spec, testbit_one by lia.
  assert (Hff : Z.testbit 255 m = true).
  { change 255 with (Z.ones 8). apply Z.ones_spec_low. lia. }
  rewrite Hff. case_bool_decide; case_decide; try done; simpl.
  - apply andb_false_r.
  - apply andb_true_r.
Qed.
End Bits.

Lemma length_bit_set bm k : length (bit_set bm k) = length bm.
Proof. apply length_insert. Qed.
Lemma length_bit_clear bm k : length (bit_clear bm k) = length bm.
Proof. apply length_insert. Qed.

Lemma length_clear_slots b fuel lo hi bm : length (clear_slots b fuel lo hi bm) = length bm.
Proof.
  revert lo bm. induction fuel as [|fuel IH]; intros lo bm; simpl; [done|].
  repeat case_match; try done. by rewrite IH, length_bit_clear.
Qed.

(** Clearing a range of slots. *)
Lemma bit_test_clear_slots b fuel lo hi bm j :
  8 * len bm = STACK_SIZE b / 8 -> 0 <= lo -> 0 <= j < STACK_SIZE b / 8 ->
  STACK_SIZE b / 8 - lo <= Z.of_nat fuel ->
  bit_test (clear_slots b fuel lo hi bm) j =
  if decide (lo <= j <= hi) then false else bit_test bm j.
Proof.
  revert lo bm. induction fuel as [|fuel IH]; intros lo bm Hl Hlo Hj Hf; simpl.
  - destruct (decide (lo <= j <= hi)); [lia|done].
  - destruct (Z.gtb_spec lo hi); [destruct (decide (lo <= j <= hi)); [lia|done]|].
    destruct (Z.geb_spec lo (STACK_SIZE b / 8)); [destruct (decide (lo <= j <= hi)); [lia|done]|].
    rewrite IH by (rewrite ?length_bit_clear; unfold len in *; rewrite ?length_bit_clear; lia).
    rewrite bit_test_clear by lia.
    destruct (decide (lo + 1 <= j <= hi)), (decide (j = lo)), (decide (lo <= j <= hi)); done || lia.
Qed.

(** ** The entry table *)

(** The region of the first entry for offset [o]. *)
Definition lookup_entry (o : Z) (l : list SpillEntry) : option Region :=
  (fun p => e_region p.2) <$> list_find (fun en => stack_offset en = o) l.

Lemma lookup_entry_cons o en l :
  lookup_entry o (en :: l) = if decide (stack_offset en = o) then Some (e_region en) else lookup_entry o l.
Proof.
  unfold lookup_entry. simpl. case_decide; [done|]. by destruct (list_find _ l) as [[? ?]|].
Qed.

Lemma lookup_entry_update o r l i en o' :
  list_find (fun en => stack_offset en = o) l = Some (i, en) ->
  lookup_entry o' (<[i := mkEntry (stack_offset en) r]> l) =
  if decide (o' = o) then Some r else lookup_entry o' l.
Proof.
  revert i. induction l as [|en0 l IH]; intros i Hf; [done|].
  cbn [list_find] in Hf. case_decide as E.
  - injection Hf as <- <-. cbn [insert list_insert]. rewrite !lookup_entry_cons. simpl.
    repeat case_decide; congruence.
  - destruct (list_find _ l) as [[i0 en']|] eqn:F; [|done]. injection Hf as <- ->.
    change (<[S i0 := ?x]> (en0 :: l)) with (en0 :: <[i0 := x]> l).
    rewrite !lookup_entry_cons, (IH i0) by done.
    repeat case_decide; congruence.
Qed.

Lemma lookup_entry_snoc o r l o' :
  lookup_entry o' (l ++ [mkEntry o r]) =
  match lookup_entry o' l with Some x => Some x | None => if decide (o = o') then Some r else None end.
Proof.
  induction l as [|en l IH]; [by apply lookup_entry_cons|]. cbn [app].
  rewrite !lookup_entry_cons, IH. by destruct (decide (stack_offset en = o')).
Qed.

Lemma lookup_entry_None o l : lookup_entry o l = None <-> o ∉ (stack_offset <$> l).
Proof.
  induction l as [|en l IH]; [by split; [intros _; apply not_elem_of_nil|]|].
  rewrite lookup_entry_cons, fmap_cons, not_elem_of_cons, <- IH. clear IH.
  case_decide as E; (split; [intros Hn|intros [Hn Hl]]); done || by destruct Hn.
Qed.

(** ** Simulation *)

(** [t] represents [s]: the table entries are those of the owned slots, in order,
    and a slot's bit tells whether its entry is current. *)
Record represents (b : Build) (t : SpillTracker) (s : SpillAbs) : Prop := {
  rp_bitmap : 8 * len (bitmap t) = STACK_SIZE b / 8;
  rp_entries : len (entries t) = MAX_SPILL_SLOTS;
  rp_count : 0 <= count t <= MAX_SPILL_SLOTS;
  rp_owned : stack_offset <$> take (Z.to_nat (count t)) (entries t) = (fun k => 8 * k) <$> owned s;
  rp_tags : forall k, 0 <= k < STACK_SIZE b / 8 ->
    tags s !! k = if bit_test (bitmap t) k
                  then lookup_entry (8 * k) (take (Z.to_nat (count t)) (entries t)) else None
}.

Lemma stack_off_eq b base addr :
  build_ok b -> 0 <= addr - base < STACK_SIZE b -> stack_off b base addr = addr - base.
Proof.
  intros Hb Ho. unfold stack_off.
  assert (Hs : STACK_SIZE b < 2 ^ 32) by (destruct (STACK_SIZE_cases b); lia).
  assert (Hw : 2 ^ 32 <= 2 ^ usize_bits b) by (destruct Hb as [-> | ->]; lia).
  unfold as_u64. rewrite (wrap_small 64) by (unfold uN; lia). apply wrap_small. unfold uN. lia.
Qed.

Lemma STACK_SIZE_slots b : STACK_SIZE b = 8 * (STACK_SIZE b / 8).
Proof. by destruct (STACK_SIZE_cases b) as [-> | ->]. Qed.

Lemma slot_range b o : 0 <= o < STACK_SIZE b -> 0 <= o / 8 < STACK_SIZE b / 8.
Proof.
  intros Ho. pose proof (STACK_SIZE_slots b).
  split; [apply Z.div_pos; lia|apply Z.div_lt_upper_bound; lia].
Qed.

Lemma as_u16_off b o : 0 <= o < STACK_SIZE b -> as_u16 o = o.
Proof. intros. apply wrap_small. unfold uN. destruct (STACK_SIZE_cases b); lia. Qed.

Lemma bit_test_zero n k : 0 <= k < 8 * Z.of_nat n -> bit_test (replicate n 0) k = false.
Proof.
  intros Hk. rewrite bit_test_testbit, lookup_total_replicate_2, Z.bits_0; [done|].
  pose proof (byte_idx_lt (replicate n 0) k) as H. unfold len in H.
  rewrite length_replicate in H. by apply H.
Qed.

Lemma represents_new b : represents b (spill_new b) abs_new.
Proof.
  split; simpl.
  - unfold len. rewrite length_replicate. destruct (STACK_SIZE_cases b) as [-> | ->]; reflexivity.
  - reflexivity.
  - unfold MAX_SPILL_SLOTS. lia.
  - reflexivity.
  - intros k Hk. rewrite lookup_empty, bit_test_zero; [done|].
    destruct (STACK_SIZE_cases b) as [E|E]; rewrite E in *; exact Hk.
Qed.

Lemma take_insert_snoc {A} (l : list A) n x :
  0 <= n -> (Z.to_nat n < length l)%nat ->
  take (Z.to_nat (n + 1)) (<[Z.to_nat n := x]> l) = take (Z.to_nat n) l ++ [x].
Proof.
  intros Hn Hl. replace (Z.to_nat (n + 1)) with (S (Z.to_nat n)) by lia.
  rewrite (take_S_r _ _ x) by (by rewrite list_lookup_insert_eq). by rewrite take_insert_ge.
Qed.

Section Ops.
Context (b : Build) (Hb : build_ok b) (base : Z).
Context (t : SpillTracker) (s : SpillAbs) (Ht : represents b t s).

Let live := take (Z.to_nat (count t)) (entries t).

Lemma lookup_owned k : lookup_entry (8 * k) live = None <-> k ∉ owned s.
Proof.
  rewrite lookup_entry_None. unfold live. rewrite (rp_owned _ _ _ Ht).
  assert (Inj (=) (=) (fun k => 8 * k)) by (intros ???; lia).
  by rewrite (list_elem_of_fmap_inj (fun k => 8 * k)).
Qed.

Lemma length_live : length live = Z.to_nat (count t).
Proof.
  unfold live. rewrite length_take. pose proof (rp_entries _ _ _ Ht).
  pose proof (rp_count _ _ _ Ht). unfold len in *. lia.
Qed.

Lemma length_owned : len (owned s) = count t.
Proof.
  pose proof (rp_owned _ _ _ Ht) as E. apply (f_equal length) in E. rewrite !length_fmap in E.
  fold live in E. rewrite length_live in E. pose proof (rp_count _ _ _ Ht). unfold len. lia.
Qed.

(** Replacing the bitmap and the table keeps the representation if the slots
    agree. *)
Lemma represents_intro bm es c tg ow :
  len bm = len (bitmap t) -> len es = len (entries t) -> 0 <= c <= MAX_SPILL_SLOTS ->
  stack_offset <$> take (Z.to_nat c) es = (fun k => 8 * k) <$> ow ->
  (forall k, 0 <= k < STACK_SIZE b / 8 ->
     tg !! k = if bit_test bm k then lookup_entry (8 * k) (take (Z.to_nat c) es) else None) ->
  represents b (mkTracker bm es c) (mkAbs tg ow).
Proof. intros E1 E2 Hc Ho Ht'. destruct Ht. split; simpl; congruence || done. Qed.

Lemma record_spill_sim k addr r :
  0 <= k < STACK_SIZE b / 8 -> addr - base = 8 * k ->
  represents b (record_spill b t base addr r) (abs_record k r s).
Proof.
  intros Hk Ha.
  assert (Hr : 0 <= addr - base < STACK_SIZE b)
    by (pose proof (STACK_SIZE_slots b); lia).
  unfold record_spill. rewrite stack_off_eq, (as_u16_off b), Ha by done.
  rewrite (Z.mul_comm 8 k), Z.div_mul, (Z.mul_comm k 8) by lia.
  destruct (Z.geb_spec k (STACK_SIZE b / 8)); [lia|].
  assert (Hbm := rp_bitmap _ _ _ Ht). assert (Hc := rp_count _ _ _ Ht).
  assert (Hlb : len (bit_set (bitmap t) k) = len (bitmap t))
    by (unfold len; by rewrite length_bit_set).
  assert (Htags := rp_tags _ _ _ Ht). assert (Hown := lookup_owned k).
  unfold abs_record. rewrite length_owned. unfold find_entry.
  unfold lookup_entry in Hown. fold live in Hown |- *.
  destruct (list_find _ live) as [[i en]|] eqn:F; simpl in Hown.
  - pose proof F as (Hl & Ho & _)%list_find_Some. pose proof (lookup_lt_Some _ _ _ Hl) as Hi.
    rewrite length_live in Hi.
    rewrite bool_decide_true by (destruct (decide (k ∈ owned s)); [done|by apply Hown in n]).
    apply represents_intro; [done|unfold len; by rewrite length_insert|done|..].
    + rewrite take_insert_lt by done. rewrite list_fmap_insert. simpl.
      rewrite <- (rp_owned _ _ _ Ht). fold live. apply list_insert_id.
      by rewrite list_lookup_fmap, Hl.
    + intros j Hj. rewrite take_insert_lt by done. fold live.
      rewrite (lookup_entry_update (8 * k)) by done. rewrite bit_test_set by lia.
      destruct (decide (j = k)) as [->|Hne].
      * by rewrite lookup_insert_eq, decide_True.
      * rewrite lookup_insert_ne, Htags by done. by rewrite decide_False by lia.
  - rewrite bool_decide_false by (by apply Hown).
    destruct (Z.ltb_spec (count t) MAX_SPILL_SLOTS) as [Hlt|Hge].
    + assert (Hls : (Z.to_nat (count t) < length (entries t))%nat)
        by (pose proof (rp_entries _ _ _ Ht); unfold len in *; lia).
      assert (Hsn := fun x => take_insert_snoc (entries t) (count t) x ltac:(lia) Hls). fold live in Hsn.
      apply represents_intro; [done|unfold len; by rewrite length_insert|lia|..].
      * rewrite Hsn, !fmap_app. unfold live. by rewrite (rp_owned _ _ _ Ht).
      * intros j Hj. rewrite Hsn, lookup_entry_snoc, bit_test_set by lia.
        destruct (decide (j = k)) as [->|Hne].
        -- rewrite lookup_insert_eq. unfold lookup_entry. rewrite F. simpl. by rewrite decide_True.
        -- rewrite lookup_insert_ne, Htags by done. fold live.
           rewrite (decide_False (P := 8 * k = 8 * j)) by lia. by destruct (lookup_entry _ live).
    + apply represents_intro; [unfold len in *; by rewrite length_bit_clear|done|done|apply (rp_owned _ _ _ Ht)|].
      intros j Hj. rewrite bit_test_clear, bit_test_set by (rewrite ?Hlb; lia).
      destruct (decide (j = k)) as [->|Hne]; [apply lookup_delete_eq|].
      by rewrite lookup_delete_ne, Htags.
Qed.

(** The last slot [invalidate] clears. *)
Definition last_slot (o n : Z) : Z :=
  let stop := saturating_add (usize_bits b) o n in
  if stop =? 0 then 0 else (stop - 1) / 8.

Lemma last_slot_eq o n :
  0 <= o -> 1 <= n -> o + n < 2 ^ usize_bits b -> last_slot o n = (o + n - 1) / 8.
Proof.
  intros Ho Hn Hw. unfold last_slot, saturating_add. rewrite Z.min_l by lia.
  by destruct (Z.eqb_spec (o + n) 0); [lia|].
Qed.

Lemma invalidate_sim addr n :
  let o := stack_off b base addr in
  represents b (invalidate b t base addr n) (abs_invalidate (o / 8) (last_slot o n) s).
Proof.
  intros o. unfold invalidate. fold o. fold (last_slot o n). pose proof (rp_bitmap _ _ _ Ht).
  assert (0 <= o) by (apply wrap_nonneg; destruct Hb; lia).
  pose proof (Z.div_pos o 8 ltac:(lia) ltac:(lia)).
  apply represents_intro; [unfold len; by rewrite length_clear_slots|done|by apply rp_count in Ht| |].
  - apply (rp_owned _ _ _ Ht).
  - intros k Hk. rewrite bit_test_clear_slots by lia. rewrite map_lookup_filter.
    rewrite (rp_tags _ _ _ Ht) by done. fold live.
    destruct (bit_test (bitmap t) k), (lookup_entry (8 * k) live); simpl;
      destruct (decide (o / 8 <= k <= last_slot o n)) as [Hin|Hin];
      try done; simpl; [rewrite option_guard_False; [done|auto]|by rewrite option_guard_True].
Qed.

Lemma check_restore_sim addr :
  0 <= addr - base < STACK_SIZE b ->
  check_restore b t base addr = abs_restore (addr - base) s.
Proof.
  intros Ho. unfold check_restore. rewrite stack_off_eq, (as_u16_off b) by done.
  pose proof (slot_range b _ Ho) as Hs. set (o := addr - base) in *.
  destruct (Z.geb_spec (o / 8) (STACK_SIZE b / 8)); [lia|].
  pose proof (rp_tags _ _ _ Ht _ Hs) as Hg. unfold abs_restore.
  pose proof (Z.div_mod o 8 ltac:(lia)) as Hdm.
  destruct (Z.eqb_spec (o mod 8) 0) as [E|E].
  - rewrite Hg. destruct (bit_test _ _); [|done]. simpl.
    replace (8 * (o / 8)) with o by lia. unfold lookup_entry, find_entry.
    by destruct (list_find _ _) as [[? ?]|].
  - destruct (bit_test _ _); [|done]. simpl. unfold find_entry.
    destruct (list_find _ _) as [[i en]|] eqn:F; [|done].
    apply list_find_Some in F as (Hl & He & _).
    assert (Hin : stack_offset en ∈ (fun k => 8 * k) <$> owned s).
    { rewrite <- (rp_owned _ _ _ Ht). apply list_elem_of_fmap_2. by eapply list_elem_of_lookup_2. }
    apply list_elem_of_fmap in Hin as (k & Ek & _). exfalso. apply E. rewrite <- He, Ek.
    rewrite Z.mul_comm. apply Z.mod_mul. lia.
Qed.
End Ops.

(** ** Sequences of operations *)

(** What the interpreter asks of the tracker, by stack offset: a pointer is saved
    in slot [k], or [n] bytes at offset [o] are overwritten. *)
Inductive SpillOp : Type :=
  | OpRecord (k : Z) (r : Region)
  | OpInvalidate (o n : Z).

Definition op_ok (b : Build) (op : SpillOp) : Prop :=
  match op with
  | OpRecord k _ => 0 <= k < STACK_SIZE b / 8
  | OpInvalidate o n => 0 <= o < STACK_SIZE b /\ 1 <= n <= 8
  end.

Definition apply_op (b : Build) (base : Z) (t : SpillTracker) (op : SpillOp) : SpillTracker :=
  match op with
  | OpRecord k r => record_spill b t base (base + 8 * k) r
  | OpInvalidate o n => invalidate b t base (base + o) n
  end.

Definition abs_op (s : SpillAbs) (op : SpillOp) : SpillAbs :=
  match op with
  | OpRecord k r => abs_record k r s
  | OpInvalidate o n => abs_invalidate (o / 8) ((o + n - 1) / 8) s
  end.

Lemma apply_op_sim b base t s op :
  build_ok b -> represents b t s -> op_ok b op -> represents b (apply_op b base t op) (abs_op s op).
Proof.
  intros Hb Ht Hop. destruct op as [k r|o n]; simpl in *.
  - apply record_spill_sim; [done..|lia].
  - destruct Hop as [Ho Hn]. pose proof (invalidate_sim b Hb base t s Ht (base + o) n) as H.
    cbv zeta in H. rewrite stack_off_eq in H by (done || lia).
    replace (base + o - base) with o in H by lia.
    rewrite last_slot_eq in H; [done|lia..|].
    destruct (STACK_SIZE_cases b); destruct Hb as [-> | ->]; lia.
Qed.

(** C32: the spill tracker implements a map from stack slots to regions.  After any
    sequence of pointer saves and overwrites, reloading 8 bytes at any stack offset
    restores exactly the region the abstract map holds there: the last pointer
    saved in that slot and not overwritten since, even in part; nothing at an
    offset that is not a multiple of 8; and nothing for a slot that found the table
    full. *)
Theorem spill_tracker_refines b base ops o :
  build_ok b -> Forall (op_ok b) ops -> 0 <= o < STACK_SIZE b ->
  check_restore b (fold_left (apply_op b base) ops (spill_new b)) base (base + o) =
  abs_restore o (fold_left abs_op ops abs_new).
Proof.
  intros Hb Hops Ho.
  assert (H : represents b (fold_left (apply_op b base) ops (spill_new b)) (fold_left abs_op ops abs_new)).
  { generalize (represents_new b). generalize (spill_new b), abs_new.
    induction Hops as [|op ops Hop _ IH]; intros t s Ht; [done|]. simpl.
    apply IH. by apply apply_op_sim. }
  rewrite (check_restore_sim b Hb base _ _ H) by lia. f_equal. lia.
Qed.

(** Slot 1 is saved twice and stays; slot 2 is saved and then overwritten in its
    last byte. *)
Lemma spill_tracker_refines_witness :
  let g := mkRegion Context 16 32 in
  let ops := [OpRecord 1 (mkRegion Stack 0 0); OpRecord 2 g; OpRecord 1 g; OpInvalidate 23 4] in
  check_restore (host_build true) (fold_left (apply_op (host_build true) 1000) ops
    (spill_new (host_build true))) 1000 (1000 + 8) = Some g /\
  check_restore (host_build true) (fold_left (apply_op (host_build true) 1000) ops
    (spill_new (host_build true))) 1000 (1000 + 16) = None.
Proof.
  split.
  - rewrite (spill_tracker_refines (host_build true) 1000 _ 8); [reflexivity|by right| |].
    + repeat constructor; simpl; reflexivity || discriminate.
    + vm_compute. split; congruence.
  - rewrite (spill_tracker_refines (host_build true) 1000 _ 16); [reflexivity|by right| |].
    + repeat constructor; simpl; reflexivity || discriminate.
    + vm_compute. split; congruence.
Defined.

(** ** The tracker along a run *)

Definition tracked (e : Env) (v : VM) : Prop := exists s, represents (build e) (spill v) s.

Section Run.
Context (e : Env) (Hb : build_ok (build e)).

Lemma record_spill_tracked t base addr r :
  (exists s, represents (build e) t s) -> as_u64 (addr - base) mod 8 = 0 ->
  exists s, represents (build e) (record_spill (build e) t base addr r) s.
Proof.
  intros [s Ht] Ha.
  set (o := stack_off (build e) base addr).
  assert (Ho : o mod 8 = 0).
  { unfold o, stack_off. transitivity (wrap 3 (as_u64 (addr - base))); [|exact Ha].
    apply (wrap_wrap_le 3 (usize_bits (build e))). destruct Hb as [-> | ->]; lia. }
  destruct (Z.geb_spec (o / 8) (STACK_SIZE (build e) / 8)) as [Hge|Hlt].
  - exists s. unfold record_spill. fold o.
    by destruct (Z.geb_spec (o / 8) (STACK_SIZE (build e) / 8)); [|lia].
  - assert (0 <= o) by (apply wrap_nonneg; destruct Hb; lia).
    pose proof (Z.div_mod o 8 ltac:(lia)). pose proof (Z.div_pos o 8 ltac:(lia) ltac:(lia)).
    exists (abs_record (o / 8) r s).
    assert (E : record_spill (build e) t base addr r = record_spill (build e) t base (base + 8 * (o / 8)) r).
    { unfold record_spill. fold o. rewrite (stack_off_eq (build e) base (base + _)); [|done|].
      - by replace (base + 8 * (o / 8) - base) with o by lia.
      - pose proof (STACK_SIZE_slots (build e)). lia. }
    rewrite E. apply record_spill_sim; [done..|lia|lia].
Qed.

Lemma invalidate_tracked t base addr n :
  (exists s, represents (build e) t s) ->
  exists s, represents (build e) (invalidate (build e) t base addr n) s.
Proof. intros [s Ht]. eexists. by apply invalidate_sim. Qed.

Lemma exec_st_tracked v i r v' :
  tracked e v -> exec_st e v i = Some r -> r = Ok v' -> tracked e v'.
Proof.
  intros Ht. unfold exec_st, store_plain, store_dw_reg.
  repeat (case_match; [intros [= <-]|]); try done;
    intros Hr; inv_bind Hr; simplify_eq; repeat case_match; try done;
    first [by apply invalidate_tracked | apply record_spill_tracked; [done|by zbool]].
Qed.

Lemma exec_atomic_tracked v i r v' :
  tracked e v -> exec_atomic e v i = Some r -> r = Ok v' -> tracked e v'.
Proof.
  intros Ht. unfold exec_atomic, atomic_op.
  repeat (case_match; [intros [= <-]|]); try done;
    intros Hr; inv_bind Hr; repeat case_match; simplify_eq; try done; by apply invalidate_tracked.
Qed.

Lemma exec_insn_tracked v i v' :
  tracked e v -> exec_insn e v i = Ok (Continue v') -> tracked e v'.
Proof.
  intros Ht. unfold exec_insn, res_map. case_match.
  { intros Hk. inv_bind Hk. simplify_eq. unfold exec_ld_dw_imm in *. case_match; [done|].
    match goal with H : _ = Ok _ |- _ => rename H into Hl end. inv_bind Hl. case_match; [done|].
    inv_bind Hl. by simplify_eq. }
  case_match; [intros Hk; inv_bind Hk; by simplify_eq|].
  case_match eqn:E2; [intros Hk; inv_bind Hk; simplify_eq; by eapply exec_st_tracked|].
  case_match eqn:E3; [intros Hk; inv_bind Hk; simplify_eq; by eapply exec_atomic_tracked|].
  case_match; [intros Hk; inv_bind Hk; by simplify_eq|].
  case_match eqn:E5; [|case_match].
  - intros Hk. inv_bind Hk. simplify_eq. unfold exec_jmp, res_map in E5.
    repeat case_match; simplify_eq; [|done].
    match goal with H : _ = Ok _ |- _ => rename H into Hl end. inv_bind Hl. by simplify_eq.
  - intros Hk. inv_bind Hk. simplify_eq. unfold exec_call, call_helper, call_local in *.
    repeat case_match; try done;
    match goal with H : _ = Ok _ |- _ => inv_bind H end; by simplify_eq.
  - unfold exec_exit. repeat case_match; try done. intros Hk. inv_bind Hk. by simplify_eq.
Qed.

Lemma step_tracked v v' : tracked e v -> step e v = Ok (Continue v') -> tracked e v'.
Proof.
  intros Ht. unfold step. case_match; [|done]. intros Hk.
  apply res_bind_Ok in Hk as (c & _ & Hk). case_match; [done|].
  apply res_bind_Ok in Hk as (i & _ & Hk). case_match; [done|].
  by eapply exec_insn_tracked; [|exact Hk].
Qed.

Lemma reachable_tracked m v : reachable e m v -> tracked e v.
Proof.
  intros H. unfold reachable in H. remember (init_vm e m) as v0 eqn:E.
  induction H as [v|v1 v2 v3 _ IH Hs]; subst.
  - exists abs_new. apply represents_new.
  - eapply step_tracked; eauto.
Qed.
End Run.

(** ** Saving and reloading a pointer *)

(** A successful check: the region is the register's, the program counter only
    matters for errors. *)
Lemma check_access_Ok n rd o p g addr :
  check_access n rd o p = Ok (g, addr) ->
  region rd = Some g /\ addr = eff_addr rd o /\ base g <= addr /\ addr + n <= rend g /\
  forall q, check_access n rd o q = Ok (g, addr).
Proof.
  unfold check_access. destruct (region rd) as [g'|]; [|done]. simpl.
  destruct (is_map_descriptor g'); [done|].
  destruct (checked_add 64 (eff_addr rd o) n) as [x|] eqn:Ex; [|done]. simpl.
  apply checked_add_Some in Ex as [-> _].
  destruct ((eff_addr rd o <? base g') || (eff_addr rd o + n >? rend g')) eqn:Hc; [done|].
  intros [= <- <-]. zbool. split_and!; done || lia.
Qed.

(** What a successful 8-byte store leaves for a load through the same address. *)
Lemma mem_store_load b m rd o x p m' q :
  uN 64 x -> mem_store b 8 m rd o x p = Ok m' -> reg_on_stack rd = true ->
  mem_load b 8 m' rd o q = Ok x.
Proof.
  intros Hx Hst Hrd. unfold mem_store in Hst. apply res_bind_Ok in Hst as ([g addr] & Hc & Hst).
  apply check_access_Ok in Hc as (Hg & -> & _ & _ & Hc).
  unfold mem_load. rewrite Hc. simpl. unfold reg_on_stack, is_stack in Hrd. rewrite Hg in Hrd.
  replace (is_context g) with false in Hst by (unfold is_context; by destruct (tag g)).
  unfold write_unaligned in Hst. unfold read_unaligned.
  destruct (store_bytes _ _ _) as [m1|] eqn:E; [|done]. injection Hst as <-.
  apply load_store_bytes in E. rewrite length_to_le_bytes in E. rewrite E.
  f_equal. rewrite from_to_le_bytes. by apply wrap_small.
Qed.

(** The arms the two instructions select. *)
Lemma exec_insn_st_dw e v i :
  base64 (build e) = true -> opc i = ST_DW_REG -> exec_insn e v i = res_map Continue (store_dw_reg e v i).
Proof. intros H64 Ho. unfold exec_insn, exec_ldx, exec_st. rewrite Ho, H64. reflexivity. Qed.

Lemma exec_insn_ld_dw e v i :
  base64 (build e) = true -> opc i = LD_DW_REG ->
  exec_insn e v i = res_map (fun r => Continue (set_reg v (rset (reg v) (dst i) r))) (load_dw e v i).
Proof. intros H64 Ho. unfold exec_insn, exec_ldx. rewrite Ho, H64. reflexivity. Qed.

(** A pointer survives a trip through the stack.  In any reachable state, when
    ST_DW_REG saves a pointer register to an 8-aligned stack slot, LD_DW_REG from
    the same address succeeds and yields the same value; the region it yields is
    the saved one as long as the spill table has room, and never any other. *)
Lemma pointer_spill_roundtrip e m v i v1 j g :
  env_ok e m -> reachable e m v -> base64 (build e) = true ->
  opc i = ST_DW_REG -> 0 <= src i <= 10 ->
  region (rget (reg v) (dst i)) = Some (stack_region e) ->
  region (rget (reg v) (src i)) = Some g ->
  (eff_addr (rget (reg v) (dst i)) (off i) - stack_base e) mod 8 = 0 ->
  exec_insn e v i = Ok (Continue v1) ->
  opc j = LD_DW_REG -> src j = dst i -> off j = off i ->
  exists r,
    exec_insn e v1 j = Ok (Continue (set_reg v1 (rset (reg v1) (dst j) r))) /\
    value r = value (rget (reg v) (src i)) /\
    (region r = Some g \/ region r = None) /\
    (count (spill v) < MAX_SPILL_SLOTS -> region r = Some g).
Proof.
  intros Henv Hr H64 Hoi Hsi Hrd Hrs Hal Hex Hoj Hsj Hfj.
  pose proof (eo_build _ _ Henv) as Hb. pose proof (reachable_inv e m v Henv Hr) as Hv.
  destruct (inv_reg e m v (src i) Hv Hsi) as [Hx _].
  destruct (reachable_tracked e Hb m v Hr) as [s Hs].
  rewrite exec_insn_st_dw in Hex by done. unfold res_map, store_dw_reg in Hex.
  rewrite exec_insn_ld_dw by done. unfold load_dw.
  apply res_bind_Ok in Hex as (v2 & Hst & [= <-]). apply res_bind_Ok in Hst as (m1 & Hst & [= <-]).
  pose proof Hst as Hst'. unfold mem_store in Hst'.
  apply res_bind_Ok in Hst' as ([g' addr] & Hc & _).
  apply check_access_Ok in Hc as (Hg & -> & Hlo & Hhi & _). rewrite Hrd in Hg.
  injection Hg as <-. simpl in Hlo, Hhi.
  assert (Hon : reg_on_stack (rget (reg v) (dst i)) = true) by (unfold reg_on_stack; by rewrite Hrd).
  rewrite Hon, Hrs. set (addr := eff_addr _ _) in *. set (k := (addr - stack_base e) / 8).
  pose proof (Z.div_mod (addr - stack_base e) 8 ltac:(lia)) as Hdm. rewrite Hal in Hdm.
  assert (Hk : addr - stack_base e = 8 * k) by (unfold k; lia).
  assert (Hr64 : 0 <= addr - stack_base e < STACK_SIZE (build e)) by lia.
  unfold as_u64. rewrite (wrap_small 64) by (unfold uN; destruct (STACK_SIZE_cases (build e)); lia).
  rewrite Hal. simpl. rewrite Hsj, Hfj, (mem_store_load _ _ _ _ _ _ _ _ Hx Hst Hon). simpl.
  rewrite Hon. fold addr.
  assert (Hk' : 0 <= k < STACK_SIZE (build e) / 8) by (apply slot_range; lia).
  pose proof (record_spill_sim _ Hb (stack_base e) _ _ Hs k addr g Hk' Hk) as Hsim.
  rewrite (check_restore_sim _ Hb _ _ _ Hsim) by done.
  unfold abs_restore. rewrite Hal. simpl. fold k.
  eexists. split_and!; [done|done|..]; simpl.
  - unfold abs_record. repeat case_match; simpl; rewrite ?lookup_insert_eq, ?lookup_delete_eq; auto.
  - intros Hroom. rewrite <- (length_owned _ _ _ Hs) in Hroom.
    unfold abs_record. repeat case_match; simpl; rewrite ?lookup_insert_eq; zbool; done || lia.
Qed.
