(* ===== verification/BpfExamples.v ===== *)
(** * A concrete program, run by the model

    A small program with a pointer spill, a helper call and a BPF-to-BPF call, in
    an environment that meets the interpreter's safety contract.  The theorems of
    the other files are applied to it. *)

From S2P Require Import Prelude.
From S2P Require Import Ebpf.
From S2P Require Import BpfTypes.
From S2P Require Import BpfSpill.
From S2P Require Import BpfMem.
From S2P Require Import BpfAlu.
From S2P Require Import BpfExec.
From S2P Require Import BpfInv.
From S2P Require Import BpfSafety.
From S2P Require Import BpfRfc.
From S2P Require Import BpfSpillSpec.
Open Scope Z_scope.

(** ** The program and its environment *)

Definition demo_insns : list Insn := [
  mkInsn ST_DW_REG 10 1 (-8) 0;    (* *(u64 * )(r10 - 8) = r1 *)
  mkInsn LD_DW_REG 3 10 (-8) 0;    (* r3 = *(u64 * )(r10 - 8) *)
  mkInsn LD_B_REG 7 3 2 0;         (* r7 = *(u8 * )(r3 + 2) *)
  mkInsn MOV64_IMM 6 0 0 7;        (* r6 = 7 *)
  mkInsn CALL 0 1 0 4;             (* call local *)
  mkInsn CALL 0 0 0 1;             (* call helper 1 *)
  mkInsn ADD64_REG 0 6 0 0;        (* r0 += r6 *)
  mkInsn ADD64_REG 0 7 0 0;        (* r0 += r7 *)
  mkInsn EXIT 0 0 0 0;
  mkInsn MOV64_IMM 6 0 0 99;       (* the callee changes r6 *)
  mkInsn EXIT 0 0 0 0].

(** Helper 1 returns a constant and leaves memory alone. *)
Definition demo_helper : HelperDescriptor :=
  mkHelper 1 (fun _ _ _ _ _ m => (5, m)) Scalar.

Definition demo_env : Env :=
  mkEnv (host_build true) (assemble demo_insns) 4096 16 [demo_helper] [] true 100 [] 1048576.

Definition demo_mem : memory := <[4098 := 30]> (alloc_zeroed ∅ 4096 16).

Lemma demo_mem_lookup a :
  demo_mem !! a =
  if decide (a = 4098) then Some 30 else if decide (4096 <= a < 4112) then Some 0 else None.
Proof.
  unfold demo_mem. rewrite lookup_insert, alloc_zeroed_lookup, lookup_empty.
  by destruct (decide (4098 = a)), (decide (a = 4098)); try lia.
Qed.

Lemma demo_env_ok : env_ok demo_env demo_mem.
Proof.
  split.
  - by right.
  - vm_compute. repeat constructor; discriminate.
  - reflexivity.
  - intros a x. rewrite demo_mem_lookup. repeat case_decide; intros; simplify_eq; split; lia.
  - split; [discriminate|reflexivity].
  - split; [discriminate|reflexivity].
  - simpl. intros a Ha. rewrite demo_mem_lookup, !decide_False by (change (STACK_SIZE _) with 4096 in Ha; lia).
    done.
  - discriminate.
  - split_and!; [discriminate|reflexivity|]. simpl. intros a Ha. rewrite demo_mem_lookup.
    case_decide; [by eexists|]. rewrite decide_True by lia. by eexists.
  - constructor.
  - constructor.
  - constructor; [|constructor]. intros a1 a2 a3 a4 a5 m r m' Hm [= <- <-].
    split_and!; [by split|done|apply mem_frame_refl].
Qed.

(** The state after [n] iterations. *)
Fixpoint after (n : nat) : VM :=
  match n with
  | O => init_vm demo_env demo_mem
  | S n' => match step demo_env (after n') with Ok (Continue v) => v | _ => after n' end
  end.

Definition continues (r : Exec Ctl) : bool :=
  match r with Ok (Continue _) => true | _ => false end.

Lemma continues_Ok r : continues r = true -> exists v, r = Ok (Continue v).
Proof. destruct r as [[v|? ?]| | |]; try done. by exists v. Qed.

Lemma after_step n :
  continues (step demo_env (after n)) = true -> step demo_env (after n) = Ok (Continue (after (S n))).
Proof. simpl. by destruct (step _ _) as [[?|? ?]| | |]. Qed.

Lemma after_reachable n :
  forallb (fun k => continues (step demo_env (after k))) (seq 0 n) = true ->
  reachable demo_env demo_mem (after n).
Proof.
  unfold reachable. induction n as [|n IH]; intros H; [constructor|].
  rewrite seq_S, forallb_app in H. simpl in H. apply andb_true_iff in H as [H1 H2].
  rewrite andb_true_r in H2. econstructor; [by apply IH|]. by apply after_step.
Qed.

(** The run returns r0 + r6 + r7 = 5 + 7 + 30. *)
Lemma demo_result : exists m', execute_program demo_env 101 demo_mem = Some (Ok (42, m')).
Proof.
  assert (H : match execute_program demo_env 101 demo_mem with
              | Some (Ok (x, _)) => x =? 42 | _ => false end = true)
    by (vm_compute; reflexivity).
  destruct (execute_program _ _ _) as [[[x m']| | |]|]; try discriminate H.
  apply Z.eqb_eq in H as ->. by exists m'.
Qed.

(** ** Witnesses *)

Lemma execute_program_safe_witness :
  exists r, execute_program demo_env 101 demo_mem = Some r /\ r <> UB.
Proof.
  destruct demo_result as [m' E]. eexists. split; [exact E|].
  exact (proj1 (execute_program_safe _ _ _ _ demo_env_ok E)).
Defined.

Lemma demo_ctx_not_writable a : 4096 <= a < 4096 + 16 -> ~ writable demo_env a.
Proof.
  intros Ha [H|[[H _]|[(mp & H & _)|(c & H & _)]]].
  - change (1048576 <= a < 1048576 + 4096) in H. lia.
  - discriminate.
  - by apply elem_of_nil in H.
  - by apply elem_of_nil in H.
Qed.

(** After two iterations r3 holds the reloaded context pointer. *)
Lemma reachable_regions_granted_witness : granted demo_env (ctx_region demo_env).
Proof.
  apply (reachable_regions_granted demo_env demo_mem (after 2) 3 _ demo_env_ok).
  - apply after_reachable. vm_compute. reflexivity.
  - lia.
  - vm_compute. reflexivity.
Defined.

Lemma execute_program_terminates_witness :
  exists r, forall fuel, 100 < Z.of_nat fuel -> execute_program demo_env fuel demo_mem = Some r.
Proof.
  apply (execute_program_terminates demo_env demo_mem). unfold UNLIMITED_BUDGET. simpl. lia.
Defined.


Lemma jmp_insn_conforms_witness :
  let v := init_vm demo_env demo_mem in
  exec_insn demo_env v (mkInsn JEQ_IMM 2 0 3 16) = Ok (Continue (set_pc v 3)).
Proof.
  intros v.
  apply (jmp_insn_conforms demo_env v (mkInsn JEQ_IMM 2 0 3 16)).
  - split_and!; reflexivity.
  - by right.
  - by right.
  - unfold insn_ok, uN, iN. simpl. unfold JEQ_IMM. lia.
  - by left.
  - split; vm_compute; discriminate.
  - reflexivity.
  - split; [vm_compute; discriminate|reflexivity].
  - split; [vm_compute; discriminate|reflexivity].
Defined.

(** ** The frame pointer is not protected *)

(** r10 = 0; call local +0; exit. *)
Definition r10_env (oc : bool) : Env :=
  mkEnv (host_build oc)
    (assemble [mkInsn MOV64_IMM 10 0 0 0; mkInsn CALL 0 1 0 0; mkInsn EXIT 0 0 0 0])
    4096 0 [] [] true 100 [] 1048576.

(** The design says r10 always carries the stack tag, but no instruction is
    refused for writing r10.  A program that overwrites r10 strips its tag; a local
    call after that subtracts the frame size from 0, which panics in a build with
    overflow checks and wraps around otherwise. *)
Lemma r10_not_protected :
  (forall v, step (r10_env true) (init_vm (r10_env true) ∅) = Ok (Continue v) ->
     region (rget (reg v) 10) = None) /\
  execute_program (r10_env true) 4 ∅ = Some Panic /\
  (exists m', execute_program (r10_env false) 5 ∅ = Some (Ok (0, m'))).
Proof.
  split_and!.
  - assert (H : match step (r10_env true) (init_vm (r10_env true) ∅) with
                | Ok (Continue v) => region (rget (reg v) 10) = None | _ => True end)
      by (vm_compute; reflexivity).
    intros v E. rewrite E in H. exact H.
  - vm_compute. reflexivity.
  - assert (H : match execute_program (r10_env false) 5 ∅ with
                | Some (Ok (x, _)) => x =? 0 | _ => false end = true) by (vm_compute; reflexivity).
    destruct (execute_program _ _ _) as [[[x m']| | |]|]; try discriminate H.
    apply Z.eqb_eq in H as ->. by exists m'.
Qed.
