(* ===== verification/Modem.v ===== *)
(** * Modem serial protocol: data and codec (sonde-protocol/src/modem.rs)

    Length-prefixed frames between the gateway and the radio modem:
    [LEN(2, big-endian) || TYPE(1) || BODY].  [encode_modem_frame] and
    [decode_modem_frame] work on one frame, [FrameDecoder] on a byte stream. *)

From Stdlib Require Import String.
From S2P Require Import Prelude.
Open Scope string_scope.
Open Scope list_scope.
Open Scope Z_scope.

(** ** Constants *)

Definition SERIAL_LEN_SIZE : Z := 2.
Definition SERIAL_MAX_LEN : Z := 1025.
Definition SERIAL_MAX_FRAME_SIZE : Z := Eval compute in SERIAL_LEN_SIZE + SERIAL_MAX_LEN.
Definition DECODER_BUF_CAP : Z := Eval compute in SERIAL_MAX_FRAME_SIZE * 4.
Definition MAC_SIZE : Z := 6.
Definition MODEM_MSG_RESET : Z := 0x01.
Definition MODEM_MSG_SEND_FRAME : Z := 0x02.
Definition MODEM_MSG_SET_CHANNEL : Z := 0x03.
Definition MODEM_MSG_GET_STATUS : Z := 0x04.
Definition MODEM_MSG_SCAN_CHANNELS : Z := 0x05.
Definition MODEM_MSG_DISPLAY_FRAME_BEGIN : Z := 0x09.
Definition MODEM_MSG_DISPLAY_FRAME_CHUNK : Z := 0x0A.
Definition MODEM_MSG_BLE_INDICATE : Z := 0x20.
Definition MODEM_MSG_BLE_ENABLE : Z := 0x21.
Definition MODEM_MSG_BLE_DISABLE : Z := 0x22.
Definition MODEM_MSG_BLE_PAIRING_CONFIRM_REPLY : Z := 0x23.
Definition MODEM_MSG_BLE_RECV : Z := 0xA0.
Definition MODEM_MSG_BLE_CONNECTED : Z := 0xA1.
Definition MODEM_MSG_BLE_DISCONNECTED : Z := 0xA2.
Definition MODEM_MSG_BLE_PAIRING_CONFIRM : Z := 0xA3.
Definition MODEM_MSG_EVENT_BUTTON : Z := 0xB0.
Definition MODEM_MSG_MODEM_READY : Z := 0x81.
Definition MODEM_MSG_RECV_FRAME : Z := 0x82.
Definition MODEM_MSG_SET_CHANNEL_ACK : Z := 0x84.
Definition MODEM_MSG_STATUS : Z := 0x85.
Definition MODEM_MSG_SCAN_RESULT : Z := 0x86.
Definition MODEM_MSG_DISPLAY_FRAME_ACK : Z := 0x87.
Definition MODEM_MSG_EVENT_ERROR : Z := 0x89.
Definition MODEM_MSG_ERROR : Z := 0x8F.
Definition MODEM_ERR_ESPNOW_INIT_FAILED : Z := 0x01.
Definition MODEM_ERR_WIFI_INIT_FAILED : Z := 0x02.
Definition MODEM_ERR_CHANNEL_SET_FAILED : Z := 0x03.
Definition MODEM_ERR_UNKNOWN : Z := 0xFF.
Definition FIRMWARE_COMMIT_SIZE : Z := 8.
Definition MODEM_READY_BODY_SIZE : Z := Eval compute in 4 + MAC_SIZE + FIRMWARE_COMMIT_SIZE.
Definition STATUS_BODY_SIZE : Z := Eval compute in 1 + 4 + 4 + 4 + 4.
Definition SEND_FRAME_MIN_BODY_SIZE : Z := Eval compute in MAC_SIZE + 1.
Definition SEND_FRAME_MAX_BODY_SIZE : Z := Eval compute in MAC_SIZE + 250.
Definition RECV_FRAME_MIN_BODY_SIZE : Z := Eval compute in MAC_SIZE + 1 + 1.
Definition RECV_FRAME_MAX_BODY_SIZE : Z := Eval compute in MAC_SIZE + 1 + 250.
Definition ESPNOW_MAX_DATA_SIZE : Z := 250.
Definition DISPLAY_FRAME_BODY_SIZE : Z := Eval compute in 128 * 64 / 8.
Definition DISPLAY_FRAME_CHUNK_SIZE : Z := 128.
Definition DISPLAY_FRAME_CHUNK_COUNT : Z := Eval compute in (DISPLAY_FRAME_BODY_SIZE / DISPLAY_FRAME_CHUNK_SIZE).
Definition DISPLAY_FRAME_BEGIN_BODY_SIZE : Z := 1.
Definition DISPLAY_FRAME_CHUNK_BODY_SIZE : Z := Eval compute in 2 + DISPLAY_FRAME_CHUNK_SIZE.
Definition DISPLAY_FRAME_ACK_BODY_SIZE : Z := 2.
Definition BLE_DATA_MAX_BODY_SIZE : Z := 511.
Definition BLE_CONNECTED_BODY_SIZE : Z := Eval compute in MAC_SIZE + 2.
Definition BLE_DISCONNECTED_BODY_SIZE : Z := Eval compute in MAC_SIZE + 1.
Definition BLE_PAIRING_CONFIRM_BODY_SIZE : Z := 4.
Definition BLE_PAIRING_CONFIRM_REPLY_BODY_SIZE : Z := 1.
Definition EVENT_BUTTON_BODY_SIZE : Z := 1.
Definition EVENT_ERROR_BODY_SIZE : Z := 1.
Definition BLE_PASSKEY_MAX : Z := 999999.
Definition BLE_MTU_MIN : Z := 247.
Definition EVENT_ERROR_INVALID_FRAME : Z := 0x01.
Definition EVENT_ERROR_DISPLAY_WRITE_FAILED : Z := 0x02.
Definition BUTTON_TYPE_SHORT : Z := 0x00.
Definition BUTTON_TYPE_LONG : Z := 0x01.

(** ** Errors *)

Inductive ModemCodecError : Type :=
  | EmptyFrame
  | FrameTooLarge (n : Z)
  | BodyTooShort (msg_type expected_min actual : Z)
  | BodyTooLong (msg_type expected_max actual : Z)
  | InvalidFieldValue (msg_type : Z) (field : string) (value : Z)
  | EncodeTooLong
  | Incomplete.

Abbreviation Codec := (Res ModemCodecError).

(** ** Messages *)

Record SendFrame := mkSendFrame { sf_peer_mac : list Z; sf_frame_data : list Z }.
Record ModemReady := mkModemReady {
  firmware_version : list Z; mac_address : list Z; firmware_commit : list Z }.
Record RecvFrame := mkRecvFrame { rf_peer_mac : list Z; rssi : Z; rf_frame_data : list Z }.
Record ModemStatus := mkModemStatus {
  st_channel : Z; uptime_s : Z; tx_count : Z; rx_count : Z; tx_fail_count : Z }.
Record ScanEntry := mkScanEntry { se_channel : Z; ap_count : Z; strongest_rssi : Z }.
Record ScanResult := mkScanResult { scan_entries : list ScanEntry }.
Record DisplayFrameBegin := mkBegin { dfb_transfer_id : Z }.
Record DisplayFrameChunk := mkChunk {
  dfc_transfer_id : Z; chunk_index : Z; chunk_data : list Z }.
Record DisplayFrameAck := mkAck { dfa_transfer_id : Z; next_chunk_index : Z }.
Record ModemError := mkModemError { me_error_code : Z; message : list Z }.
Record BleIndicate := mkBleIndicate { bi_ble_data : list Z }.
Record BleRecv := mkBleRecv { br_ble_data : list Z }.
Record BleConnected := mkBleConnected { bc_peer_addr : list Z; mtu : Z }.
Record BleDisconnected := mkBleDisconnected { bd_peer_addr : list Z; reason : Z }.
Record BlePairingConfirm := mkPairingConfirm { passkey : Z }.
Record BlePairingConfirmReply := mkPairingReply { accept : bool }.
Record EventButton := mkEventButton { button_type : Z }.
Record EventError := mkEventError { ee_error_code : Z }.

Inductive ModemMessage : Type :=
  | MReset
  | MSendFrame (sf : SendFrame)
  | MSetChannel (ch : Z)
  | MGetStatus
  | MScanChannels
  | MDisplayFrameBegin (x : DisplayFrameBegin)
  | MDisplayFrameChunk (x : DisplayFrameChunk)
  | MModemReady (x : ModemReady)
  | MRecvFrame (x : RecvFrame)
  | MSetChannelAck (ch : Z)
  | MStatus (x : ModemStatus)
  | MScanResult (x : ScanResult)
  | MDisplayFrameAck (x : DisplayFrameAck)
  | MEventError (x : EventError)
  | MError (x : ModemError)
  | MBleIndicate (x : BleIndicate)
  | MBleEnable
  | MBleDisable
  | MBlePairingConfirmReply (x : BlePairingConfirmReply)
  | MBleRecv (x : BleRecv)
  | MBleConnected (x : BleConnected)
  | MBleDisconnected (x : BleDisconnected)
  | MBlePairingConfirm (x : BlePairingConfirm)
  | MEventButton (x : EventButton)
  | MUnknown (msg_type : Z) (body : list Z).

(** ** Encoding *)

(** The relayed BLE payload of BLE_INDICATE and BLE_RECV. *)
Definition encode_ble_data (msg_type : Z) (ble_data : list Z) : Codec (Z * list Z) :=
  if len ble_data =? 0 then Err (BodyTooShort msg_type 1 0) else
  if len ble_data >? BLE_DATA_MAX_BODY_SIZE
  then Err (BodyTooLong msg_type BLE_DATA_MAX_BODY_SIZE (len ble_data)) else
  Ok (msg_type, ble_data).

Definition encode_scan_entry (e : ScanEntry) : list Z :=
  [se_channel e; ap_count e; as_u8 (strongest_rssi e)].

(** At most 170 entries are sent; the rest are dropped. *)
Definition encode_scan_result (sr : ScanResult) : list Z :=
  let max_entries := Z.min 255 170 in
  let count := Z.min (len (scan_entries sr)) max_entries in
  as_u8 count :: concat (encode_scan_entry <$> take (Z.to_nat count) (scan_entries sr)).

Definition encode_body (msg : ModemMessage) : Codec (Z * list Z) :=
  match msg with
  | MReset => Ok (MODEM_MSG_RESET, [])
  | MSendFrame sf =>
      if len (sf_frame_data sf) =? 0 then
        Err (BodyTooShort MODEM_MSG_SEND_FRAME SEND_FRAME_MIN_BODY_SIZE MAC_SIZE) else
      if len (sf_frame_data sf) >? ESPNOW_MAX_DATA_SIZE then
        Err (BodyTooLong MODEM_MSG_SEND_FRAME SEND_FRAME_MAX_BODY_SIZE
               (MAC_SIZE + len (sf_frame_data sf))) else
      Ok (MODEM_MSG_SEND_FRAME, sf_peer_mac sf ++ sf_frame_data sf)
  | MSetChannel ch => Ok (MODEM_MSG_SET_CHANNEL, [ch])
  | MGetStatus => Ok (MODEM_MSG_GET_STATUS, [])
  | MScanChannels => Ok (MODEM_MSG_SCAN_CHANNELS, [])
  | MDisplayFrameBegin b => Ok (MODEM_MSG_DISPLAY_FRAME_BEGIN, [dfb_transfer_id b])
  | MDisplayFrameChunk c =>
      if chunk_index c >=? DISPLAY_FRAME_CHUNK_COUNT then
        Err (InvalidFieldValue MODEM_MSG_DISPLAY_FRAME_CHUNK "chunk_index" (chunk_index c)) else
      Ok (MODEM_MSG_DISPLAY_FRAME_CHUNK, dfc_transfer_id c :: chunk_index c :: chunk_data c)
  | MModemReady mr =>
      Ok (MODEM_MSG_MODEM_READY, firmware_version mr ++ mac_address mr ++ firmware_commit mr)
  | MRecvFrame rf =>
      if len (rf_frame_data rf) =? 0 then
        Err (BodyTooShort MODEM_MSG_RECV_FRAME RECV_FRAME_MIN_BODY_SIZE (MAC_SIZE + 1)) else
      if len (rf_frame_data rf) >? ESPNOW_MAX_DATA_SIZE then
        Err (BodyTooLong MODEM_MSG_RECV_FRAME RECV_FRAME_MAX_BODY_SIZE
               (MAC_SIZE + 1 + len (rf_frame_data rf))) else
      Ok (MODEM_MSG_RECV_FRAME, rf_peer_mac rf ++ as_u8 (rssi rf) :: rf_frame_data rf)
  | MSetChannelAck ch => Ok (MODEM_MSG_SET_CHANNEL_ACK, [ch])
  | MStatus s =>
      Ok (MODEM_MSG_STATUS,
          st_channel s :: to_be_bytes 4 (uptime_s s) ++ to_be_bytes 4 (tx_count s) ++
          to_be_bytes 4 (rx_count s) ++ to_be_bytes 4 (tx_fail_count s))
  | MScanResult sr => Ok (MODEM_MSG_SCAN_RESULT, encode_scan_result sr)
  | MDisplayFrameAck a =>
      Ok (MODEM_MSG_DISPLAY_FRAME_ACK, [dfa_transfer_id a; next_chunk_index a])
  | MEventError e => Ok (MODEM_MSG_EVENT_ERROR, [ee_error_code e])
  | MError e => Ok (MODEM_MSG_ERROR, me_error_code e :: message e)
  | MBleIndicate bi => encode_ble_data MODEM_MSG_BLE_INDICATE (bi_ble_data bi)
  | MBleEnable => Ok (MODEM_MSG_BLE_ENABLE, [])
  | MBleDisable => Ok (MODEM_MSG_BLE_DISABLE, [])
  | MBlePairingConfirmReply r =>
      Ok (MODEM_MSG_BLE_PAIRING_CONFIRM_REPLY, [if accept r then 1 else 0])
  | MBleRecv br => encode_ble_data MODEM_MSG_BLE_RECV (br_ble_data br)
  | MBleConnected bc =>
      if mtu bc <? BLE_MTU_MIN then
        Err (InvalidFieldValue MODEM_MSG_BLE_CONNECTED "mtu" (mtu bc)) else
      Ok (MODEM_MSG_BLE_CONNECTED, bc_peer_addr bc ++ to_be_bytes 2 (mtu bc))
  | MBleDisconnected bd => Ok (MODEM_MSG_BLE_DISCONNECTED, bd_peer_addr bd ++ [reason bd])
  | MBlePairingConfirm pc =>
      if passkey pc >? BLE_PASSKEY_MAX then
        Err (InvalidFieldValue MODEM_MSG_BLE_PAIRING_CONFIRM "passkey" (passkey pc)) else
      Ok (MODEM_MSG_BLE_PAIRING_CONFIRM, to_be_bytes 4 (passkey pc))
  | MEventButton eb =>
      if button_type eb >? BUTTON_TYPE_LONG then
        Err (InvalidFieldValue MODEM_MSG_EVENT_BUTTON "button_type" (button_type eb)) else
      Ok (MODEM_MSG_EVENT_BUTTON, [button_type eb])
  | MUnknown msg_type body => Ok (msg_type, body)
  end.

Definition encode_modem_frame (msg : ModemMessage) : Codec (list Z) :=
  let? '(msg_type, body) := encode_body msg in
  let total_len := 1 + len body in
  if total_len >? SERIAL_MAX_LEN then Err EncodeTooLong else
  Ok (to_be_bytes 2 (as_u16 total_len) ++ msg_type :: body).

(** ** Decoding one frame *)

Definition check_exact_body (msg_type : Z) (body : list Z) (expected : Z) : Codec unit :=
  if len body <? expected then Err (BodyTooShort msg_type expected (len body)) else
  if len body >? expected then Err (BodyTooLong msg_type expected (len body)) else
  Ok tt.

Definition check_body_range (msg_type : Z) (body : list Z) (min max : Z) : Codec unit :=
  if len body <? min then Err (BodyTooShort msg_type min (len body)) else
  if len body >? max then Err (BodyTooLong msg_type max (len body)) else
  Ok tt.

(** [uN::from_be_bytes([body[i], body[i + 1], ...])]. *)
Fixpoint indices (l : list Z) (i : Z) (n : nat) : Codec (list Z) :=
  match n with
  | O => Ok []
  | S n' =>
      let? x := index l i in
      let? rest := indices l (i + 1) n' in
      Ok (x :: rest)
  end.

Definition be_at (body : list Z) (i : Z) (n : nat) : Codec Z :=
  let? l := indices body i n in
  Ok (from_be_bytes l).

(** [for i in 0..count]: the entries from number [i] on. *)
Fixpoint decode_scan_entries (data : list Z) (i count : nat) : Codec (list ScanEntry) :=
  match count with
  | O => Ok []
  | S count' =>
      let offset := Z.of_nat i * 3 in
      let? channel := index data offset in
      let? ap := index data (offset + 1) in
      let? r := index data (offset + 2) in
      let? rest := decode_scan_entries data (S i) count' in
      Ok (mkScanEntry channel ap (as_i8 r) :: rest)
  end.

Definition decode_scan_result (msg_type : Z) (body : list Z) : Codec ModemMessage :=
  if len body =? 0 then Err (BodyTooShort msg_type 1 0) else
  let? count := index body 0 in
  let expected_len := 1 + count * 3 in
  if negb (len body =? expected_len) then
    if len body <? expected_len then Err (BodyTooShort msg_type expected_len (len body))
    else Err (BodyTooLong msg_type expected_len (len body))
  else
  let? entries_data := slice_from body 1 in
  let? entries := decode_scan_entries entries_data 0 (Z.to_nat count) in
  Ok (MScanResult (mkScanResult entries)).

(** The arms that read a fixed or bounded layout; each is one message type. *)
Definition decode_send_frame (t : Z) (body : list Z) : Codec ModemMessage :=
  let? _ := check_body_range t body SEND_FRAME_MIN_BODY_SIZE SEND_FRAME_MAX_BODY_SIZE in
  let? peer_mac := slice body 0 MAC_SIZE in
  let? frame_data := slice_from body MAC_SIZE in
  Ok (MSendFrame (mkSendFrame peer_mac frame_data)).

Definition decode_display_chunk (t : Z) (body : list Z) : Codec ModemMessage :=
  let? _ := check_exact_body t body DISPLAY_FRAME_CHUNK_BODY_SIZE in
  let? b0 := index body 0 in
  let? b1 := index body 1 in
  if b1 >=? DISPLAY_FRAME_CHUNK_COUNT then Err (InvalidFieldValue t "chunk_index" b1) else
  let? data := slice_from body 2 in
  Ok (MDisplayFrameChunk (mkChunk b0 b1 data)).

Definition decode_modem_ready (t : Z) (body : list Z) : Codec ModemMessage :=
  let? _ := check_exact_body t body MODEM_READY_BODY_SIZE in
  let? fv := slice body 0 4 in
  let? mac := slice body 4 (4 + MAC_SIZE) in
  let? commit := slice body (4 + MAC_SIZE) (4 + MAC_SIZE + FIRMWARE_COMMIT_SIZE) in
  Ok (MModemReady (mkModemReady fv mac commit)).

Definition decode_recv_frame (t : Z) (body : list Z) : Codec ModemMessage :=
  let? _ := check_body_range t body RECV_FRAME_MIN_BODY_SIZE RECV_FRAME_MAX_BODY_SIZE in
  let? peer_mac := slice body 0 MAC_SIZE in
  let? r := index body MAC_SIZE in
  let? frame_data := slice_from body (MAC_SIZE + 1) in
  Ok (MRecvFrame (mkRecvFrame peer_mac (as_i8 r) frame_data)).

Definition decode_status (t : Z) (body : list Z) : Codec ModemMessage :=
  let? _ := check_exact_body t body STATUS_BODY_SIZE in
  let? channel := index body 0 in
  let? up := be_at body 1 4 in
  let? tx := be_at body 5 4 in
  let? rx := be_at body 9 4 in
  let? txf := be_at body 13 4 in
  Ok (MStatus (mkModemStatus channel up tx rx txf)).

Definition decode_error (t : Z) (body : list Z) : Codec ModemMessage :=
  if len body =? 0 then Err (BodyTooShort t 1 0) else
  let? code := index body 0 in
  let? msg := slice_from body 1 in
  Ok (MError (mkModemError code msg)).

Definition decode_pairing_reply (t : Z) (body : list Z) : Codec ModemMessage :=
  let? _ := check_exact_body t body BLE_PAIRING_CONFIRM_REPLY_BODY_SIZE in
  let? b0 := index body 0 in
  let? acc := if b0 =? 0 then Ok false else if b0 =? 1 then Ok true
              else Err (InvalidFieldValue t "accept" b0) in
  Ok (MBlePairingConfirmReply (mkPairingReply acc)).

Definition decode_ble_connected (t : Z) (body : list Z) : Codec ModemMessage :=
  let? _ := check_exact_body t body BLE_CONNECTED_BODY_SIZE in
  let? addr := slice body 0 MAC_SIZE in
  let? m := be_at body MAC_SIZE 2 in
  if m <? BLE_MTU_MIN then Err (InvalidFieldValue t "mtu" m) else
  Ok (MBleConnected (mkBleConnected addr m)).

Definition decode_ble_disconnected (t : Z) (body : list Z) : Codec ModemMessage :=
  let? _ := check_exact_body t body BLE_DISCONNECTED_BODY_SIZE in
  let? addr := slice body 0 MAC_SIZE in
  let? r := index body MAC_SIZE in
  Ok (MBleDisconnected (mkBleDisconnected addr r)).

Definition decode_pairing_confirm (t : Z) (body : list Z) : Codec ModemMessage :=
  let? _ := check_exact_body t body BLE_PAIRING_CONFIRM_BODY_SIZE in
  let? p := be_at body 0 4 in
  if p >? BLE_PASSKEY_MAX then Err (InvalidFieldValue t "passkey" p) else
  Ok (MBlePairingConfirm (mkPairingConfirm p)).

Definition decode_event_button (t : Z) (body : list Z) : Codec ModemMessage :=
  let? _ := check_exact_body t body EVENT_BUTTON_BODY_SIZE in
  let? b0 := index body 0 in
  if b0 >? BUTTON_TYPE_LONG then Err (InvalidFieldValue t "button_type" b0) else
  Ok (MEventButton (mkEventButton b0)).

(** A message without a body, with one byte, and with relayed data. *)
Definition decode_empty (t : Z) (body : list Z) (msg : ModemMessage) : Codec ModemMessage :=
  let? _ := check_exact_body t body 0 in
  Ok msg.

Definition decode_byte (t : Z) (body : list Z) (expected : Z) (f : Z -> ModemMessage) :
    Codec ModemMessage :=
  let? _ := check_exact_body t body expected in
  let? b0 := index body 0 in
  Ok (f b0).

Definition decode_ble_data (t : Z) (body : list Z) (f : list Z -> ModemMessage) : Codec ModemMessage :=
  let? _ := check_body_range t body 1 BLE_DATA_MAX_BODY_SIZE in
  Ok (f body).

Definition decode_display_ack (t : Z) (body : list Z) : Codec ModemMessage :=
  let? _ := check_exact_body t body DISPLAY_FRAME_ACK_BODY_SIZE in
  let? b0 := index body 0 in
  let? b1 := index body 1 in
  Ok (MDisplayFrameAck (mkAck b0 b1)).

Definition decode_typed_message (t : Z) (body : list Z) : Codec ModemMessage :=
  if t =? MODEM_MSG_RESET then decode_empty t body MReset
  else if t =? MODEM_MSG_SEND_FRAME then decode_send_frame t body
  else if t =? MODEM_MSG_SET_CHANNEL then decode_byte t body 1 MSetChannel
  else if t =? MODEM_MSG_GET_STATUS then decode_empty t body MGetStatus
  else if t =? MODEM_MSG_SCAN_CHANNELS then decode_empty t body MScanChannels
  else if t =? MODEM_MSG_DISPLAY_FRAME_BEGIN then
    decode_byte t body DISPLAY_FRAME_BEGIN_BODY_SIZE (fun x => MDisplayFrameBegin (mkBegin x))
  else if t =? MODEM_MSG_DISPLAY_FRAME_CHUNK then decode_display_chunk t body
  else if t =? MODEM_MSG_MODEM_READY then decode_modem_ready t body
  else if t =? MODEM_MSG_RECV_FRAME then decode_recv_frame t body
  else if t =? MODEM_MSG_SET_CHANNEL_ACK then decode_byte t body 1 MSetChannelAck
  else if t =? MODEM_MSG_STATUS then decode_status t body
  else if t =? MODEM_MSG_SCAN_RESULT then decode_scan_result t body
  else if t =? MODEM_MSG_DISPLAY_FRAME_ACK then decode_display_ack t body
  else if t =? MODEM_MSG_EVENT_ERROR then
    decode_byte t body EVENT_ERROR_BODY_SIZE (fun x => MEventError (mkEventError x))
  else if t =? MODEM_MSG_ERROR then decode_error t body
  else if t =? MODEM_MSG_BLE_INDICATE then
    decode_ble_data t body (fun x => MBleIndicate (mkBleIndicate x))
  else if t =? MODEM_MSG_BLE_ENABLE then decode_empty t body MBleEnable
  else if t =? MODEM_MSG_BLE_DISABLE then decode_empty t body MBleDisable
  else if t =? MODEM_MSG_BLE_PAIRING_CONFIRM_REPLY then decode_pairing_reply t body
  else if t =? MODEM_MSG_BLE_RECV then decode_ble_data t body (fun x => MBleRecv (mkBleRecv x))
  else if t =? MODEM_MSG_BLE_CONNECTED then decode_ble_connected t body
  else if t =? MODEM_MSG_BLE_DISCONNECTED then decode_ble_disconnected t body
  else if t =? MODEM_MSG_BLE_PAIRING_CONFIRM then decode_pairing_confirm t body
  else if t =? MODEM_MSG_EVENT_BUTTON then decode_event_button t body
  else Ok (MUnknown t body).

Definition decode_modem_frame (data : list Z) : Codec (ModemMessage * Z) :=
  if len data <? SERIAL_LEN_SIZE then Err Incomplete else
  let? n := be_at data 0 2 in
  if n =? 0 then Err EmptyFrame else
  if n >? SERIAL_MAX_LEN then Err (FrameTooLarge n) else
  let expected_total := SERIAL_LEN_SIZE + n in
  if len data <? expected_total then Err Incomplete else
  let? msg_type := index data SERIAL_LEN_SIZE in
  let? body := slice data (SERIAL_LEN_SIZE + 1) expected_total in
  res_map (fun msg => (msg, expected_total)) (decode_typed_message msg_type body).

(** ** The streaming decoder *)

Record FrameDecoder := mkDecoder { buf : list Z }.

Definition decoder_new : FrameDecoder := mkDecoder [].

Definition push (d : FrameDecoder) (data : list Z) : FrameDecoder :=
  let b := if len (buf d) + len data >? DECODER_BUF_CAP then [] else buf d in
  mkDecoder (b ++ data).

Definition reset (d : FrameDecoder) : FrameDecoder := mkDecoder [].

Definition buffered (d : FrameDecoder) : Z := len (buf d).

(** [drain(..n)]. *)
Definition drain (d : FrameDecoder) (n : Z) : FrameDecoder :=
  mkDecoder (drop (Z.to_nat n) (buf d)).

(** [decode] consumes input on some errors, so it returns the new state with
    either outcome; the state after a panic is not observable. *)
Definition decode (d : FrameDecoder) : Codec (option ModemMessage) * FrameDecoder :=
  if len (buf d) <? SERIAL_LEN_SIZE then (Ok None, d) else
  match be_at (buf d) 0 2 with
  | Ok n =>
      if n =? 0 then (Err EmptyFrame, drain d SERIAL_LEN_SIZE) else
      if n >? SERIAL_MAX_LEN then (Err (FrameTooLarge n), mkDecoder []) else
      let total := SERIAL_LEN_SIZE + n in
      if len (buf d) <? total then (Ok None, d) else
      (let? msg_type := index (buf d) SERIAL_LEN_SIZE in
       let? body := slice (buf d) (SERIAL_LEN_SIZE + 1) total in
       res_map Some (decode_typed_message msg_type body), drain d total)
  | Err err => (Err err, d)
  | Panic => (Panic, d)
  | UB => (UB, d)
  end.
