(* ===== verification/ModemProofs.v ===== *)
(** * Correctness of the modem codec

    Round trips in both directions, totality of decoding on arbitrary bytes, and
    the streaming decoder against the one-shot decoder. *)

From Stdlib Require Import String.
From S2P Require Import Prelude.
From S2P Require Import Modem.
Open Scope list_scope.
Open Scope Z_scope.

(** ** Well-formed messages *)

(** The ranges the Rust types impose. *)
Definition mac_ok (m : list Z) : Prop := len m = MAC_SIZE /\ bytes_ok m.

Definition scan_entry_ok (e : ScanEntry) : Prop :=
  byte_ok (se_channel e) /\ byte_ok (ap_count e) /\ iN 8 (strongest_rssi e).

Definition msg_ok (msg : ModemMessage) : Prop :=
  match msg with
  | MSendFrame x => mac_ok (sf_peer_mac x) /\ bytes_ok (sf_frame_data x)
  | MSetChannel ch | MSetChannelAck ch => byte_ok ch
  | MDisplayFrameBegin x => byte_ok (dfb_transfer_id x)
  | MDisplayFrameChunk x =>
      byte_ok (dfc_transfer_id x) /\ byte_ok (chunk_index x) /\
      len (chunk_data x) = DISPLAY_FRAME_CHUNK_SIZE /\ bytes_ok (chunk_data x)
  | MModemReady x =>
      (len (firmware_version x) = 4 /\ bytes_ok (firmware_version x)) /\ mac_ok (mac_address x) /\
      len (firmware_commit x) = FIRMWARE_COMMIT_SIZE /\ bytes_ok (firmware_commit x)
  | MRecvFrame x => mac_ok (rf_peer_mac x) /\ iN 8 (rssi x) /\ bytes_ok (rf_frame_data x)
  | MStatus x =>
      byte_ok (st_channel x) /\ uN 32 (uptime_s x) /\ uN 32 (tx_count x) /\ uN 32 (rx_count x) /\
      uN 32 (tx_fail_count x)
  | MScanResult x => Forall scan_entry_ok (scan_entries x)
  | MDisplayFrameAck x => byte_ok (dfa_transfer_id x) /\ byte_ok (next_chunk_index x)
  | MEventError x => byte_ok (ee_error_code x)
  | MError x => byte_ok (me_error_code x) /\ bytes_ok (message x)
  | MBleIndicate x => bytes_ok (bi_ble_data x)
  | MBleRecv x => bytes_ok (br_ble_data x)
  | MBleConnected x => mac_ok (bc_peer_addr x) /\ uN 16 (mtu x)
  | MBleDisconnected x => mac_ok (bd_peer_addr x) /\ byte_ok (reason x)
  | MBlePairingConfirm x => uN 32 (passkey x)
  | MEventButton x => byte_ok (button_type x)
  | MUnknown t body => byte_ok t /\ bytes_ok body
  | _ => True
  end.

Definition known_types : list Z := [
  MODEM_MSG_RESET; MODEM_MSG_SEND_FRAME; MODEM_MSG_SET_CHANNEL; MODEM_MSG_GET_STATUS;
  MODEM_MSG_SCAN_CHANNELS; MODEM_MSG_DISPLAY_FRAME_BEGIN; MODEM_MSG_DISPLAY_FRAME_CHUNK;
  MODEM_MSG_MODEM_READY; MODEM_MSG_RECV_FRAME; MODEM_MSG_SET_CHANNEL_ACK; MODEM_MSG_STATUS;
  MODEM_MSG_SCAN_RESULT; MODEM_MSG_DISPLAY_FRAME_ACK; MODEM_MSG_EVENT_ERROR; MODEM_MSG_ERROR;
  MODEM_MSG_BLE_INDICATE; MODEM_MSG_BLE_ENABLE; MODEM_MSG_BLE_DISABLE;
  MODEM_MSG_BLE_PAIRING_CONFIRM_REPLY; MODEM_MSG_BLE_RECV; MODEM_MSG_BLE_CONNECTED;
  MODEM_MSG_BLE_DISCONNECTED; MODEM_MSG_BLE_PAIRING_CONFIRM; MODEM_MSG_EVENT_BUTTON].

(** The survey fits the 170 entries the encoder sends. *)
Definition scan_fits (msg : ModemMessage) : Prop :=
  match msg with MScanResult x => len (scan_entries x) <= 170 | _ => True end.

(** The messages that survive the wire: [Unknown] only with a code that is unknown,
    a survey of at most 170 entries. *)
Definition canonical (msg : ModemMessage) : Prop :=
  match msg with MUnknown t _ => t ∉ known_types | _ => scan_fits msg end.

(** ** Reading fields *)

Lemma check_exact_Ok t body n : len body = n -> check_exact_body t body n = Ok tt.
Proof.
  intros <-. unfold check_exact_body. by rewrite Z.ltb_irrefl, Z.gtb_ltb, Z.ltb_irrefl.
Qed.

Lemma check_range_Ok t body lo hi : lo <= len body <= hi -> check_body_range t body lo hi = Ok tt.
Proof.
  intros H. unfold check_body_range. destruct (Z.ltb_spec (len body) lo); [lia|].
  rewrite Z.gtb_ltb. by destruct (Z.ltb_spec hi (len body)); [lia|].
Qed.

Lemma indices_app l m k i : i = len l -> indices (l ++ m ++ k) i (length m) = Ok m.
Proof.
  revert l i. induction m as [|x m IH]; intros l i ->; [done|]. simpl.
  rewrite index_app_mid by done. simpl.
  replace (l ++ x :: m ++ k) with ((l ++ [x]) ++ m ++ k) by (by rewrite <- app_assoc).
  rewrite IH; [done|]. rewrite len_app. reflexivity.
Qed.

Lemma be_at_app l m k i n :
  i = len l -> n = length m -> be_at (l ++ m ++ k) i n = Ok (from_be_bytes m).
Proof. intros -> ->. unfold be_at. by rewrite indices_app. Qed.

(** A big-endian field of [n] bytes. *)
Lemma be_at_field l k i n x :
  i = len l -> uN (8 * Z.of_nat n) x -> be_at (l ++ to_be_bytes n x ++ k) i n = Ok x.
Proof.
  intros Hi Hx. rewrite be_at_app by (by rewrite ?length_to_be_bytes).
  by rewrite from_to_be_bytes, wrap_small.
Qed.

Lemma as_i8_u8 x : iN 8 x -> as_i8 (as_u8 x) = x.
Proof. intros Hx. by apply signed_small. Qed.

Lemma as_u8_i8 x : byte_ok x -> as_u8 (as_i8 x) = x.
Proof. intros Hx. unfold as_u8, as_i8. rewrite wrap_signed by lia. by apply wrap_small. Qed.

(** ** Survey entries *)

Definition encode_entries (es : list ScanEntry) : list Z := concat (encode_scan_entry <$> es).

Lemma len_encode_entries es : len (encode_entries es) = 3 * len es.
Proof.
  induction es as [|e es IH]; [done|]. unfold encode_entries in *. cbn [fmap list_fmap concat].
  rewrite len_app, IH, len_cons. change (len (encode_scan_entry e)) with 3. lia.
Qed.

Lemma decode_encode_entries pre es :
  Forall scan_entry_ok es ->
  decode_scan_entries (encode_entries pre ++ encode_entries es) (length pre) (length es) = Ok es.
Proof.
  intros Hes. revert pre. induction Hes as [|e es He Hes IH]; intros pre; [done|].
  pose proof (len_encode_entries pre) as Hl.
  assert (Hsplit : encode_entries pre ++ encode_entries (e :: es) =
    encode_entries (pre ++ [e]) ++ encode_entries es).
  { unfold encode_entries. rewrite fmap_app, concat_app. cbn [fmap list_fmap concat].
    by rewrite app_nil_r, <- app_assoc. }
  cbn [length decode_scan_entries]. specialize (IH (pre ++ [e])).
  rewrite length_app, Nat.add_1_r in IH. rewrite Hsplit, IH, <- Hsplit.
  change (encode_entries (e :: es)) with
    (se_channel e :: ap_count e :: as_u8 (strongest_rssi e) :: encode_entries es).
  rewrite index_app_mid by (unfold len in *; lia). cbn [res_bind].
  set (c := se_channel e). set (a := ap_count e). set (r := as_u8 _).
  replace (encode_entries pre ++ c :: a :: r :: encode_entries es)
    with ((encode_entries pre ++ [c]) ++ a :: r :: encode_entries es) by (by rewrite <- app_assoc).
  rewrite index_app_mid by (rewrite len_app; change (len [c]) with 1; unfold len in *; lia). cbn [res_bind].
  replace ((encode_entries pre ++ [c]) ++ a :: r :: encode_entries es)
    with ((encode_entries pre ++ [c; a]) ++ r :: encode_entries es) by (by rewrite <- !app_assoc).
  rewrite index_app_mid by (rewrite len_app; change (len [c; a]) with 2; unfold len in *; lia). cbn [res_bind].
  destruct He as (_ & _ & Hr). unfold c, a, r. rewrite as_i8_u8 by done. by destruct e.
Qed.

(** Reading entries back from any bytes of the right number. *)
Lemma decode_entries_post data i n :
  bytes_ok data -> 3 * (Z.of_nat i + Z.of_nat n) <= len data ->
  exists es, decode_scan_entries data i n = Ok es /\ length es = n /\ Forall scan_entry_ok es /\
    encode_entries es = take (3 * n) (drop (3 * i) data).
Proof.
  intros Hd. revert i. induction n as [|n IH]; intros i Hl.
  { exists []. split_and!; [done..|]. by rewrite Nat.mul_0_r, take_0. }
  destruct (IH (S i) ltac:(lia)) as (es & Hes & Hn & Hok & Henc).
  destruct (split_at data (3 * Z.of_nat i) ltac:(lia)) as (pre & rest & -> & Hp & Hr).
  destruct rest as [|c [|a [|r rest]]];
    try (rewrite ?len_cons, ?len_nil in Hr; lia).
  apply Forall_app in Hd as [_ Hd]. rewrite !Forall_cons_iff in Hd. destruct Hd as (Hc & Ha & Hrr & _).
  exists (mkScanEntry c a (as_i8 r) :: es). cbn [decode_scan_entries].
  rewrite (index_app_mid pre) by lia. cbn [res_bind].
  replace (pre ++ c :: a :: r :: rest) with ((pre ++ [c]) ++ a :: r :: rest) by (by rewrite <- app_assoc).
  rewrite index_app_mid by (rewrite len_app; change (len [c]) with 1; lia). cbn [res_bind].
  replace ((pre ++ [c]) ++ a :: r :: rest) with ((pre ++ [c; a]) ++ r :: rest) by (by rewrite <- !app_assoc).
  rewrite index_app_mid by (rewrite len_app; change (len [c; a]) with 2; lia). cbn [res_bind].
  replace ((pre ++ [c; a]) ++ r :: rest) with (pre ++ c :: a :: r :: rest) by (by rewrite <- !app_assoc).
  rewrite Hes. cbn [res_bind]. split_and!; [done|simpl; lia| |].
  - constructor; [|done]. split_and!; [done..|]. apply signed_range. lia.
  - change (encode_entries (mkScanEntry c a (as_i8 r) :: es))
      with (c :: a :: as_u8 (as_i8 r) :: encode_entries es).
    rewrite Henc, as_u8_i8 by done. unfold len in Hp.
    replace (3 * S i)%nat with (3 * i + 3)%nat by lia. rewrite <- drop_drop.
    replace (3 * i)%nat with (length pre) by lia. rewrite drop_app_length.
    by replace (3 * S n)%nat with (3 + 3 * n)%nat by lia.
Qed.

(** ** Encode, then decode *)

Lemma scan_result_roundtrip x :
  Forall scan_entry_ok (scan_entries x) -> len (scan_entries x) <= 170 ->
  decode_scan_result MODEM_MSG_SCAN_RESULT (encode_scan_result x) = Ok (MScanResult x).
Proof.
  intros Hok Hl. unfold encode_scan_result. change (Z.min 255 170) with 170.
  rewrite Z.min_l by done. pose proof (len_nonneg (scan_entries x)).
  unfold as_u8. rewrite wrap_small by (unfold uN; lia).
  rewrite take_ge by (unfold len in *; lia). fold (encode_entries (scan_entries x)).
  unfold decode_scan_result. rewrite len_cons, len_encode_entries.
  destruct (Z.eqb_spec (1 + 3 * len (scan_entries x)) 0); [lia|].
  rewrite index_cons_0. cbn [res_bind].
  destruct (Z.eqb_spec (1 + 3 * len (scan_entries x)) (1 + len (scan_entries x) * 3)); [|lia].
  cbn [negb]. rewrite slice_from_cons. cbn [res_bind].
  replace (Z.to_nat (len (scan_entries x))) with (length (scan_entries x)) by (unfold len; lia).
  pose proof (decode_encode_entries [] _ Hok) as Hd. cbn [length encode_entries fmap list_fmap concat app] in Hd.
  fold (encode_entries (scan_entries x)) in Hd. rewrite Hd. by destruct x.
Qed.

Lemma unknown_type t body : t ∉ known_types -> decode_typed_message t body = Ok (MUnknown t body).
Proof.
  intros Ht. unfold known_types in Ht. rewrite !not_elem_of_cons in Ht.
  repeat match goal with H : _ /\ _ |- _ => destruct H end.
  unfold decode_typed_message. by rewrite !(proj2 (Z.eqb_neq _ _)) by assumption.
Qed.

Lemma decode_empty_nil t msg : decode_empty t [] msg = Ok msg.
Proof. unfold decode_empty. by rewrite check_exact_Ok. Qed.

Lemma decode_byte_one t x n f : n = 1 -> decode_byte t [x] n f = Ok (f x).
Proof. intros ->. unfold decode_byte. by rewrite check_exact_Ok. Qed.

Lemma decode_ble_data_Ok t body f :
  1 <= len body <= BLE_DATA_MAX_BODY_SIZE -> decode_ble_data t body f = Ok (f body).
Proof. intros H. unfold decode_ble_data. by rewrite check_range_Ok. Qed.

(** The layouts with several fields. *)
Lemma send_frame_roundtrip t x :
  mac_ok (sf_peer_mac x) -> 1 <= len (sf_frame_data x) <= ESPNOW_MAX_DATA_SIZE ->
  decode_send_frame t (sf_peer_mac x ++ sf_frame_data x) = Ok (MSendFrame x).
Proof.
  unfold ESPNOW_MAX_DATA_SIZE. intros [Hm _] Hl. unfold MAC_SIZE in Hm. unfold decode_send_frame.
  rewrite check_range_Ok by
    (rewrite len_app; unfold SEND_FRAME_MIN_BODY_SIZE, SEND_FRAME_MAX_BODY_SIZE; lia).
  cbn [res_bind]. rewrite slice_app_l by done. cbn [res_bind].
  rewrite slice_from_app by done. by destruct x.
Qed.

Lemma display_chunk_roundtrip t x :
  len (chunk_data x) = DISPLAY_FRAME_CHUNK_SIZE -> chunk_index x < DISPLAY_FRAME_CHUNK_COUNT ->
  decode_display_chunk t (dfc_transfer_id x :: chunk_index x :: chunk_data x) =
  Ok (MDisplayFrameChunk x).
Proof.
  intros Hl Hi. unfold decode_display_chunk.
  rewrite check_exact_Ok by (rewrite !len_cons, Hl; reflexivity).
  cbn [res_bind]. rewrite index_cons_0, index_cons_1. cbn [res_bind].
  destruct (Z.geb_spec (chunk_index x) DISPLAY_FRAME_CHUNK_COUNT); [lia|].
  rewrite slice_from_cons2. by destruct x.
Qed.

Lemma modem_ready_roundtrip t x :
  len (firmware_version x) = 4 -> mac_ok (mac_address x) ->
  len (firmware_commit x) = FIRMWARE_COMMIT_SIZE ->
  decode_modem_ready t (firmware_version x ++ mac_address x ++ firmware_commit x) =
  Ok (MModemReady x).
Proof.
  intros Hv [Hm _] Hc. unfold MAC_SIZE, FIRMWARE_COMMIT_SIZE in Hm, Hc. unfold decode_modem_ready.
  rewrite check_exact_Ok by (rewrite !len_app, Hv, Hm, Hc; reflexivity).
  cbn [res_bind]. rewrite slice_app_l by done. cbn [res_bind].
  rewrite slice_app_mid by (rewrite Hv, ?Hm; reflexivity). cbn [res_bind].
  rewrite app_assoc, <- (app_nil_r (firmware_commit x)).
  rewrite slice_app_mid by (rewrite ?len_app, Hv, Hm, ?Hc; reflexivity).
  by destruct x.
Qed.

Lemma recv_frame_roundtrip t x :
  mac_ok (rf_peer_mac x) -> iN 8 (rssi x) -> 1 <= len (rf_frame_data x) <= ESPNOW_MAX_DATA_SIZE ->
  decode_recv_frame t (rf_peer_mac x ++ as_u8 (rssi x) :: rf_frame_data x) = Ok (MRecvFrame x).
Proof.
  unfold ESPNOW_MAX_DATA_SIZE. intros [Hm _] Hr Hl. unfold MAC_SIZE in Hm. unfold decode_recv_frame.
  rewrite check_range_Ok by (rewrite len_app, len_cons;
    unfold RECV_FRAME_MIN_BODY_SIZE, RECV_FRAME_MAX_BODY_SIZE; lia).
  cbn [res_bind]. rewrite slice_app_l by done. cbn [res_bind].
  rewrite index_app_mid by done. cbn [res_bind]. rewrite as_i8_u8 by done.
  rewrite cons_middle, app_assoc.
  rewrite slice_from_app by (rewrite len_app, Hm; reflexivity). by destruct x.
Qed.

Lemma status_roundtrip t x :
  uN 32 (uptime_s x) -> uN 32 (tx_count x) -> uN 32 (rx_count x) -> uN 32 (tx_fail_count x) ->
  decode_status t (st_channel x :: to_be_bytes 4 (uptime_s x) ++ to_be_bytes 4 (tx_count x) ++
    to_be_bytes 4 (rx_count x) ++ to_be_bytes 4 (tx_fail_count x)) = Ok (MStatus x).
Proof.
  intros H1 H2 H3 H4. unfold decode_status.
  assert (L : forall y, len (to_be_bytes 4 y) = 4) by (intros; unfold len; by rewrite length_to_be_bytes).
  rewrite check_exact_Ok by (rewrite len_cons, !len_app, !L; reflexivity).
  cbn [res_bind]. rewrite index_cons_0. cbn [res_bind].
  rewrite <- (app_nil_r (to_be_bytes 4 (tx_fail_count x))).
  change (st_channel x :: ?l) with ([st_channel x] ++ l).
  rewrite (be_at_field [st_channel x]) by done. cbn [res_bind].
  rewrite (app_assoc [st_channel x]), be_at_field by (rewrite ?len_app, ?L; done). cbn [res_bind].
  rewrite (app_assoc ([st_channel x] ++ _)), be_at_field by (rewrite ?len_app, ?L; done). cbn [res_bind].
  rewrite (app_assoc (([st_channel x] ++ _) ++ _)), be_at_field by (rewrite ?len_app, ?L; done).
  by destruct x.
Qed.

Lemma ble_connected_roundtrip t x :
  mac_ok (bc_peer_addr x) -> uN 16 (mtu x) -> BLE_MTU_MIN <= mtu x ->
  decode_ble_connected t (bc_peer_addr x ++ to_be_bytes 2 (mtu x)) = Ok (MBleConnected x).
Proof.
  intros [Hm _] Hu Hmin. unfold MAC_SIZE in Hm. unfold decode_ble_connected.
  rewrite check_exact_Ok by
    (rewrite len_app; unfold len in *; rewrite length_to_be_bytes; unfold BLE_CONNECTED_BODY_SIZE; lia).
  cbn [res_bind]. rewrite slice_app_l by done. cbn [res_bind].
  rewrite <- (app_nil_r (to_be_bytes 2 (mtu x))), be_at_field by done. cbn [res_bind].
  destruct (Z.ltb_spec (mtu x) BLE_MTU_MIN); [lia|]. by destruct x.
Qed.

Lemma ble_disconnected_roundtrip t x :
  mac_ok (bd_peer_addr x) ->
  decode_ble_disconnected t (bd_peer_addr x ++ [reason x]) = Ok (MBleDisconnected x).
Proof.
  intros [Hm _]. unfold MAC_SIZE in Hm. unfold decode_ble_disconnected.
  rewrite check_exact_Ok by (rewrite len_app, Hm; reflexivity).
  cbn [res_bind]. rewrite slice_app_l by done. cbn [res_bind].
  rewrite index_app_mid by done. by destruct x.
Qed.

Lemma pairing_confirm_roundtrip t x :
  uN 32 (passkey x) -> passkey x <= BLE_PASSKEY_MAX ->
  decode_pairing_confirm t (to_be_bytes 4 (passkey x)) = Ok (MBlePairingConfirm x).
Proof.
  intros Hu Hmax. unfold decode_pairing_confirm.
  rewrite check_exact_Ok by (unfold len; by rewrite length_to_be_bytes). cbn [res_bind].
  pose proof (be_at_field [] [] 0 4 (passkey x) eq_refl Hu) as Hb.
  rewrite app_nil_r in Hb. cbn [app] in Hb. rewrite Hb. cbn [res_bind].
  rewrite Z.gtb_ltb. destruct (Z.ltb_spec BLE_PASSKEY_MAX (passkey x)); [lia|]. by destruct x.
Qed.

Lemma decode_encode_body msg t body :
  msg_ok msg -> canonical msg -> encode_body msg = Ok (t, body) ->
  decode_typed_message t body = Ok msg.
Proof.
  intros Hok Hcan. destruct msg; simpl in Hok, Hcan; unfold encode_body, encode_ble_data;
    intros Henc; repeat (case_match; try discriminate); injection Henc as <- <-; zbool.
  all: repeat match goal with H : _ /\ _ |- _ => destruct H end.
  all: try match goal with H : len ?l <> 0 |- _ => pose proof (len_nonneg l) end.
  all: try exact (decode_empty_nil _ _).
  all: try exact (decode_byte_one _ _ 1 _ eq_refl).
  - apply send_frame_roundtrip; [done|lia].
  - destruct x. exact (decode_byte_one _ _ 1 _ eq_refl).
  - by apply display_chunk_roundtrip.
  - by apply modem_ready_roundtrip.
  - apply recv_frame_roundtrip; [done|done|lia].
  - by apply status_roundtrip.
  - by apply scan_result_roundtrip.
  - destruct x. reflexivity.
  - destruct x. exact (decode_byte_one _ _ 1 _ eq_refl).
  - change (decode_error MODEM_MSG_ERROR (me_error_code x :: message x) = Ok (MError x)).
    unfold decode_error. rewrite len_cons. pose proof (len_nonneg (message x)).
    destruct (Z.eqb_spec (1 + len (message x)) 0); [lia|].
    rewrite index_cons_0, slice_from_cons. by destruct x.
  - destruct x. apply (decode_ble_data_Ok MODEM_MSG_BLE_INDICATE). simpl in *. lia.
  - destruct x as [[|]]; done.
  - destruct x as [[|]]; done.
  - destruct x. apply (decode_ble_data_Ok MODEM_MSG_BLE_RECV). simpl in *. lia.
  - by apply ble_connected_roundtrip.
  - by apply ble_disconnected_roundtrip.
  - by apply pairing_confirm_roundtrip.
  - change (decode_event_button MODEM_MSG_EVENT_BUTTON [button_type x] = Ok (MEventButton x)).
    unfold decode_event_button. rewrite check_exact_Ok by done. cbn [res_bind].
    rewrite index_cons_0. cbn [res_bind]. rewrite Z.gtb_ltb.
    destruct (Z.ltb_spec BUTTON_TYPE_LONG (button_type x)); [lia|]. by destruct x.
  - by apply unknown_type.
Qed.

(** ** Decode arbitrary bytes, then encode *)

(** What decoding [body] as message type [t] guarantees: no panic, and a result
    that is well formed and encodes back to the same bytes. *)
Definition decoded_ok (t : Z) (body : list Z) (r : Codec ModemMessage) : Prop :=
  res_post (fun msg => msg_ok msg /\ (scan_fits msg -> encode_body msg = Ok (t, body))) False r.

Lemma check_exact_cases t body n :
  (len body = n /\ check_exact_body t body n = Ok tt) \/
  (exists e, check_exact_body t body n = Err e).
Proof.
  unfold check_exact_body. destruct (Z.ltb_spec (len body) n); [right; by eexists|].
  rewrite Z.gtb_ltb. destruct (Z.ltb_spec n (len body)); [right; by eexists|]. left. split; [lia|done].
Qed.

Lemma check_range_cases t body lo hi :
  (lo <= len body <= hi /\ check_body_range t body lo hi = Ok tt) \/
  (exists e, check_body_range t body lo hi = Err e).
Proof.
  unfold check_body_range. destruct (Z.ltb_spec (len body) lo); [right; by eexists|].
  rewrite Z.gtb_ltb. destruct (Z.ltb_spec hi (len body)); [right; by eexists|]. left. split; [lia|done].
Qed.

(** Enters the body of a decoder past its length check. *)
Ltac past_check :=
  match goal with
  | |- context [check_exact_body ?t ?b ?n] =>
      destruct (check_exact_cases t b n) as [[Hlen ->]|[err ->]]; [|exact I]; cbn [res_bind]
  | |- context [check_body_range ?t ?b ?lo ?hi] =>
      destruct (check_range_cases t b lo hi) as [[Hlen ->]|[err ->]]; [|exact I]; cbn [res_bind]
  end.

(** Refutes a length that does not fit the literal list. *)
Ltac bad_len H := exfalso; unfold len in H; cbn [length] in H; lia.

Section Decode.
Context (body : list Z) (Hb : bytes_ok body).

Lemma decode_empty_post t msg :
  msg_ok msg -> encode_body msg = Ok (t, []) -> decoded_ok t body (decode_empty t body msg).
Proof using Hb.
  intros Hm He. unfold decode_empty. past_check. split; [done|]. intros _.
  destruct body; [done|bad_len Hlen].
Qed.

Lemma decode_byte_post t n f :
  n = 1 -> (forall x, byte_ok x -> msg_ok (f x)) -> (forall x, encode_body (f x) = Ok (t, [x])) ->
  decoded_ok t body (decode_byte t body n f).
Proof using Hb.
  intros -> Hf He. unfold decode_byte. past_check.
  destruct body as [|x [|? ?]]; try bad_len Hlen.
  apply Forall_cons_iff in Hb as [Hx _]. simpl. auto.
Qed.

Lemma decode_ble_data_post t f :
  (forall l, bytes_ok l -> msg_ok (f l)) -> (forall l, encode_body (f l) = encode_ble_data t l) ->
  decoded_ok t body (decode_ble_data t body f).
Proof using Hb.
  intros Hf He. unfold decode_ble_data. past_check. split; [auto|]. intros _. rewrite He.
  unfold encode_ble_data. destruct (Z.eqb_spec (len body) 0); [lia|].
  rewrite Z.gtb_ltb. by destruct (Z.ltb_spec BLE_DATA_MAX_BODY_SIZE (len body)); [lia|].
Qed.

Lemma decode_send_frame_post :
  decoded_ok MODEM_MSG_SEND_FRAME body (decode_send_frame MODEM_MSG_SEND_FRAME body).
Proof using Hb.
  unfold decode_send_frame. past_check. unfold SEND_FRAME_MIN_BODY_SIZE, SEND_FRAME_MAX_BODY_SIZE in Hlen.
  destruct (split_at body MAC_SIZE) as (mac & data & E & Hm & Hd); [unfold MAC_SIZE; lia|].
  subst body. apply Forall_app in Hb as [Hb1 Hb2]. rewrite slice_app_l by done. cbn [res_bind].
  rewrite slice_from_app by done. unfold MAC_SIZE in Hd. split; [done|]. intros _. simpl.
  destruct (Z.eqb_spec (len data) 0); [lia|]. rewrite Z.gtb_ltb.
  unfold ESPNOW_MAX_DATA_SIZE. by destruct (Z.ltb_spec 250 (len data)); [lia|].
Qed.

Lemma decode_recv_frame_post :
  decoded_ok MODEM_MSG_RECV_FRAME body (decode_recv_frame MODEM_MSG_RECV_FRAME body).
Proof using Hb.
  unfold decode_recv_frame. past_check. unfold RECV_FRAME_MIN_BODY_SIZE, RECV_FRAME_MAX_BODY_SIZE in Hlen.
  destruct (split_at body MAC_SIZE) as (mac & rest & E & Hm & Hd); [unfold MAC_SIZE; lia|].
  unfold MAC_SIZE in Hd. subst body. destruct rest as [|r data]; [rewrite len_nil in Hd; lia|].
  rewrite len_cons in Hd. rewrite Forall_app, Forall_cons_iff in Hb. destruct Hb as (Hb1 & Hr & Hb2).
  rewrite slice_app_l by done. cbn [res_bind]. rewrite index_app_mid by done. cbn [res_bind].
  rewrite cons_middle, app_assoc, slice_from_app by (rewrite len_app, Hm; reflexivity).
  rewrite <- app_assoc. split; [split_and!; [done| |done]; apply signed_range; lia|]. intros _. simpl.
  destruct (Z.eqb_spec (len data) 0); [lia|]. rewrite Z.gtb_ltb, as_u8_i8 by done.
  unfold ESPNOW_MAX_DATA_SIZE. by destruct (Z.ltb_spec 250 (len data)); [lia|].
Qed.

Lemma decode_display_chunk_post :
  decoded_ok MODEM_MSG_DISPLAY_FRAME_CHUNK body
    (decode_display_chunk MODEM_MSG_DISPLAY_FRAME_CHUNK body).
Proof using Hb.
  unfold decode_display_chunk. past_check. unfold DISPLAY_FRAME_CHUNK_BODY_SIZE in Hlen.
  destruct body as [|b0 [|b1 data]]; try bad_len Hlen.
  rewrite !len_cons in Hlen. rewrite !Forall_cons_iff in Hb. destruct Hb as (H0 & H1 & H2).
  rewrite index_cons_0, index_cons_1. cbn [res_bind].
  destruct (b1 >=? DISPLAY_FRAME_CHUNK_COUNT) eqn:E; [exact I|]. rewrite slice_from_cons2.
  split; [split_and!; try done; unfold DISPLAY_FRAME_CHUNK_SIZE; simpl; lia|].
  intros _. simpl. by rewrite E.
Qed.

Lemma decode_modem_ready_post :
  decoded_ok MODEM_MSG_MODEM_READY body (decode_modem_ready MODEM_MSG_MODEM_READY body).
Proof using Hb.
  unfold decode_modem_ready. past_check. unfold MODEM_READY_BODY_SIZE in Hlen.
  destruct (split_at body 4) as (fv & rest & E & Hv & Hr); [lia|].
  destruct (split_at rest MAC_SIZE) as (mac & com & E2 & Hm & Hc); [unfold MAC_SIZE; lia|].
  unfold MAC_SIZE in Hm, Hc. subst body rest. rewrite !Forall_app in Hb. destruct Hb as (B1 & B2 & B3).
  rewrite slice_app_l by done. cbn [res_bind].
  rewrite slice_app_mid by (unfold MAC_SIZE; lia). cbn [res_bind].
  pose proof (slice_app_mid (E := ModemCodecError) (fv ++ mac) com [] 10 18) as Hs.
  rewrite app_nil_r, <- app_assoc in Hs. unfold MAC_SIZE, FIRMWARE_COMMIT_SIZE.
  change (4 + 6 + 8) with 18. change (4 + 6) with 10. rewrite Hs by (rewrite len_app; lia).
  split; [|done]. unfold msg_ok, mac_ok, MAC_SIZE, FIRMWARE_COMMIT_SIZE. simpl. split_and!; done || lia.
Qed.

Lemma be_at_split l m k i n :
  i = len l -> len m = Z.of_nat n -> be_at (l ++ m ++ k) i n = Ok (from_be_bytes m).
Proof. intros Hi Hn. apply be_at_app; [done|]. unfold len in Hn. lia. Qed.

Lemma decode_status_post : decoded_ok MODEM_MSG_STATUS body (decode_status MODEM_MSG_STATUS body).
Proof using Hb.
  unfold decode_status. past_check. unfold STATUS_BODY_SIZE in Hlen.
  destruct (split_at body 1) as (h & r1 & E1 & Hh & L1); [lia|].
  destruct (split_at r1 4) as (u & r2 & E2 & Hu & L2); [lia|].
  destruct (split_at r2 4) as (tx & r3 & E3 & Htx & L3); [lia|].
  destruct (split_at r3 4) as (rx & tf & E4 & Hrx & Htf); [lia|].
  assert (Htf' : len tf = 4) by lia. clear Htf. destruct h as [|ch [|? ?]]; try bad_len Hh.
  subst r3 r2 r1. rewrite E1 in Hb. rewrite !Forall_app in Hb.
  destruct Hb as (Bh & Bu & Btx & Brx & Btf). apply Forall_cons_iff in Bh as [Bh _].
  assert (E5 : body = [ch] ++ u ++ tx ++ rx ++ tf ++ []) by (by rewrite app_nil_r).
  rewrite E5. cbn [app]. rewrite index_cons_0. cbn [res_bind].
  change (ch :: u ++ tx ++ rx ++ tf ++ []) with ([ch] ++ u ++ tx ++ rx ++ tf ++ []).
  rewrite (be_at_split [ch]) by done. cbn [res_bind].
  rewrite (app_assoc [ch]), be_at_split by (rewrite ?len_app, ?Hu; done). cbn [res_bind].
  rewrite (app_assoc ([ch] ++ u)), be_at_split by (rewrite ?len_app, ?Hu, ?Htx; done). cbn [res_bind].
  rewrite (app_assoc (([ch] ++ u) ++ tx)), be_at_split by (rewrite ?len_app, ?Hu, ?Htx, ?Hrx; done).
  split.
  - split_and!; [done|by apply (be_range 4)..].
  - intros _. cbn [encode_body st_channel uptime_s tx_count rx_count tx_fail_count].
    rewrite !be_bytes_back by done. by rewrite app_nil_r, <- !app_assoc.
Qed.

Lemma decode_ble_connected_post :
  decoded_ok MODEM_MSG_BLE_CONNECTED body (decode_ble_connected MODEM_MSG_BLE_CONNECTED body).
Proof using Hb.
  unfold decode_ble_connected. past_check. unfold BLE_CONNECTED_BODY_SIZE in Hlen.
  destruct (split_at body MAC_SIZE) as (mac & m & E & Hm & Hl); [unfold MAC_SIZE; lia|].
  unfold MAC_SIZE in Hl. rewrite E in Hb. apply Forall_app in Hb as [B1 B2].
  assert (E' : body = mac ++ m ++ []) by (by rewrite app_nil_r). rewrite E'.
  rewrite slice_app_l by done. cbn [res_bind]. rewrite be_at_split by (done || lia). cbn [res_bind].
  destruct (from_be_bytes m <? BLE_MTU_MIN) eqn:Hmin; [exact I|].
  split; [split; [done|apply (be_range 2); [done|lia]]|]. intros _.
  cbn [encode_body mtu bc_peer_addr]. rewrite Hmin, be_bytes_back by (done || lia). by rewrite app_nil_r.
Qed.

Lemma decode_ble_disconnected_post :
  decoded_ok MODEM_MSG_BLE_DISCONNECTED body
    (decode_ble_disconnected MODEM_MSG_BLE_DISCONNECTED body).
Proof using Hb.
  unfold decode_ble_disconnected. past_check. unfold BLE_DISCONNECTED_BODY_SIZE in Hlen.
  destruct (split_at body MAC_SIZE) as (mac & m & E & Hm & Hl); [unfold MAC_SIZE; lia|].
  unfold MAC_SIZE in Hl. rewrite Hlen in Hl. destruct m as [|r [|? ?]]; try bad_len Hl.
  rewrite E in Hb |- *. rewrite Forall_app, Forall_cons_iff in Hb. destruct Hb as (B1 & B2 & _).
  rewrite slice_app_l by done. cbn [res_bind]. rewrite index_app_mid by done. done.
Qed.

Lemma decode_pairing_confirm_post :
  decoded_ok MODEM_MSG_BLE_PAIRING_CONFIRM body
    (decode_pairing_confirm MODEM_MSG_BLE_PAIRING_CONFIRM body).
Proof using Hb.
  unfold decode_pairing_confirm. past_check. unfold BLE_PAIRING_CONFIRM_BODY_SIZE in Hlen.
  pose proof (be_at_split [] body [] 0 4 eq_refl Hlen) as Hbe. rewrite app_nil_r in Hbe.
  cbn [app] in Hbe. rewrite Hbe. cbn [res_bind].
  destruct (from_be_bytes body >? BLE_PASSKEY_MAX) eqn:Hmax; [exact I|].
  split; [by apply (be_range 4)|]. intros _. cbn [encode_body passkey].
  by rewrite Hmax, be_bytes_back.
Qed.

Lemma decode_scan_result_post :
  decoded_ok MODEM_MSG_SCAN_RESULT body (decode_scan_result MODEM_MSG_SCAN_RESULT body).
Proof using Hb.
  unfold decode_scan_result. destruct body as [|c data]; [exact I|].
  rewrite len_cons. pose proof (len_nonneg data). destruct (Z.eqb_spec (1 + len data) 0); [lia|].
  apply Forall_cons_iff in Hb as [Hc Hd]. rewrite index_cons_0. cbn [res_bind].
  destruct (Z.eqb_spec (1 + len data) (1 + c * 3)) as [E|E]; cbn [negb]; [|by case_match].
  rewrite slice_from_cons. cbn [res_bind]. unfold uN in Hc.
  destruct (decode_entries_post data 0 (Z.to_nat c) Hd) as (es & -> & Hn & Hok & Henc); [lia|].
  split; [done|]. intros Hfit. simpl in Hfit. cbn [encode_body]. do 2 f_equal.
  unfold encode_scan_result. cbn [scan_entries]. change (Z.min 255 170) with 170.
  rewrite Z.min_l by done. unfold len in *. rewrite Hn, Z2Nat.id by lia. f_equal.
  - apply wrap_small. unfold uN. lia.
  - rewrite take_ge by lia. fold (encode_entries es). rewrite Henc, drop_0. apply take_ge. lia.
Qed.

Lemma decode_display_ack_post :
  decoded_ok MODEM_MSG_DISPLAY_FRAME_ACK body (decode_display_ack MODEM_MSG_DISPLAY_FRAME_ACK body).
Proof using Hb.
  unfold decode_display_ack. past_check. unfold DISPLAY_FRAME_ACK_BODY_SIZE in Hlen.
  destruct body as [|b0 [|b1 [|? ?]]]; try bad_len Hlen.
  rewrite !Forall_cons_iff in Hb. destruct Hb as (H0 & H1 & _). by split.
Qed.

Lemma decode_error_post : decoded_ok MODEM_MSG_ERROR body (decode_error MODEM_MSG_ERROR body).
Proof using Hb.
  unfold decode_error. destruct body as [|c msg]; [exact I|].
  rewrite len_cons. pose proof (len_nonneg msg). destruct (Z.eqb_spec (1 + len msg) 0); [lia|].
  rewrite index_cons_0, slice_from_cons. apply Forall_cons_iff in Hb. by split.
Qed.

Lemma decode_pairing_reply_post :
  decoded_ok MODEM_MSG_BLE_PAIRING_CONFIRM_REPLY body
    (decode_pairing_reply MODEM_MSG_BLE_PAIRING_CONFIRM_REPLY body).
Proof using Hb.
  unfold decode_pairing_reply. past_check. unfold BLE_PAIRING_CONFIRM_REPLY_BODY_SIZE in Hlen.
  destruct body as [|b0 [|? ?]]; try bad_len Hlen. rewrite index_cons_0. cbn [res_bind].
  destruct (Z.eqb_spec b0 0) as [->|]; [done|]. by destruct (Z.eqb_spec b0 1) as [->|].
Qed.

Lemma decode_event_button_post :
  decoded_ok MODEM_MSG_EVENT_BUTTON body (decode_event_button MODEM_MSG_EVENT_BUTTON body).
Proof using Hb.
  unfold decode_event_button. past_check. unfold EVENT_BUTTON_BODY_SIZE in Hlen.
  destruct body as [|b0 [|? ?]]; try bad_len Hlen. rewrite index_cons_0. cbn [res_bind].
  apply Forall_cons_iff in Hb as [H0 _].
  destruct (b0 >? BUTTON_TYPE_LONG) eqn:E; [exact I|]. split; [done|]. intros _. simpl. by rewrite E.
Qed.

#[local] Hint Resolve decode_empty_post decode_byte_post decode_ble_data_post decode_send_frame_post
  decode_recv_frame_post decode_display_chunk_post decode_modem_ready_post decode_status_post
  decode_ble_connected_post decode_ble_disconnected_post decode_pairing_confirm_post
  decode_scan_result_post decode_display_ack_post decode_error_post decode_pairing_reply_post
  decode_event_button_post : sonde.

Lemma decode_typed_post t : byte_ok t -> decoded_ok t body (decode_typed_message t body).
Proof using Hb.
  intros Ht. unfold decode_typed_message.
  repeat match goal with |- context [t =? ?c] => destruct (Z.eqb_spec t c) as [->|] end;
    auto with sonde.
  all: first [apply decode_empty_post | apply decode_byte_post | apply decode_ble_data_post | idtac]; try done.
Qed.
End Decode.

(** ** Theorems on one frame *)

Lemma encode_frame_layout msg frame :
  encode_modem_frame msg = Ok frame ->
  exists t body, encode_body msg = Ok (t, body) /\ 1 + len body <= SERIAL_MAX_LEN /\
    frame = to_be_bytes 2 (1 + len body) ++ t :: body.
Proof.
  unfold encode_modem_frame. intros H. apply res_bind_Ok in H as ([t body] & Hb & H).
  rewrite Z.gtb_ltb in H. destruct (Z.ltb_spec SERIAL_MAX_LEN (1 + len body)); [done|].
  pose proof (len_nonneg body). unfold as_u16 in H.
  rewrite wrap_small in H by (unfold SERIAL_MAX_LEN in *; unfold uN; lia).
  exists t, body. split_and!; [done|lia|congruence].
Qed.

(** Decoding a frame whose layout is known. *)
Lemma decode_layout t body rest :
  1 + len body <= SERIAL_MAX_LEN ->
  decode_modem_frame (to_be_bytes 2 (1 + len body) ++ (t :: body) ++ rest) =
  res_map (fun msg => (msg, 3 + len body)) (decode_typed_message t body).
Proof.
  intros Hl. pose proof (len_nonneg body). pose proof (len_nonneg rest).
  unfold SERIAL_MAX_LEN in Hl. set (hd := to_be_bytes 2 (1 + len body)).
  assert (Hhd : len hd = 2) by (unfold len, hd; by rewrite length_to_be_bytes).
  unfold decode_modem_frame. rewrite !len_app, Hhd, len_cons. unfold SERIAL_LEN_SIZE, SERIAL_MAX_LEN.
  destruct (Z.ltb_spec (2 + (1 + len body + len rest)) 2); [lia|].
  pose proof (be_at_field [] ((t :: body) ++ rest) 0 2 (1 + len body) eq_refl) as Hbe.
  cbn [app] in Hbe. fold hd in Hbe. cbn [app]. rewrite Hbe by (unfold uN; lia). cbn [res_bind].
  destruct (Z.eqb_spec (1 + len body) 0); [lia|]. rewrite Z.gtb_ltb.
  destruct (Z.ltb_spec 1025 (1 + len body)); [lia|].
  destruct (Z.ltb_spec (2 + (1 + len body + len rest)) (2 + (1 + len body))); [lia|].
  rewrite index_app_mid by done. cbn [res_bind].
  rewrite cons_middle, app_assoc, slice_app_mid by (rewrite len_app, Hhd; change (len [t]) with 1; lia).
  cbn [res_bind]. by replace (2 + (1 + len body)) with (3 + len body) by lia.
Qed.

Lemma modem_frame_rt msg frame rest :
  msg_ok msg -> canonical msg -> encode_modem_frame msg = Ok frame ->
  decode_modem_frame (frame ++ rest) = Ok (msg, len frame).
Proof.
  intros Hok Hcan Henc. apply encode_frame_layout in Henc as (t & body & Hb & Hl & ->).
  rewrite <- app_assoc, decode_layout by done. rewrite (decode_encode_body msg) by done.
  cbn [res_map res_bind]. rewrite len_app, len_cons. unfold len at 2. rewrite length_to_be_bytes.
  by replace (3 + len body) with (Z.of_nat 2 + (1 + len body)) by lia.
Qed.

(** Decoding is total on arbitrary input.  On any bytes the decoder returns a
    message or an error, never a panic; a message it returns is well formed, the
    count it reports is at least 3 and within the input, and (unless it is a survey
    of more than 170 entries) encoding the message again yields exactly the bytes
    consumed, so two different frames never decode to the same message. *)
Lemma decode_frame_post data :
  bytes_ok data ->
  res_post (fun '(msg, n) =>
    msg_ok msg /\ 3 <= n <= SERIAL_MAX_FRAME_SIZE /\ n <= len data /\
    (scan_fits msg -> encode_modem_frame msg = Ok (take (Z.to_nat n) data)))
    False (decode_modem_frame data).
Proof.
  intros Hd. unfold decode_modem_frame. unfold SERIAL_LEN_SIZE at 1.
  destruct (Z.ltb_spec (len data) 2) as [|Hl]; [exact I|].
  destruct (split_at data 2) as (hd & tl & E & Hhd & Htl); [lia|].
  rewrite E in Hd. apply Forall_app in Hd as [Bh Bt].
  pose proof (be_at_split [] hd tl 0 2 eq_refl Hhd) as Hbe. cbn [app] in Hbe.
  rewrite E at 1. rewrite Hbe. cbn [res_bind]. pose proof (be_range 2 hd Bh Hhd) as Hn.
  pose proof (be_bytes_back 2 hd Bh Hhd) as Hback. set (n := from_be_bytes hd) in *. clearbody n.
  destruct (Z.eqb_spec n 0); [exact I|]. rewrite Z.gtb_ltb.
  destruct (Z.ltb_spec SERIAL_MAX_LEN n) as [|Hmax]; [exact I|]. unfold uN in Hn.
  unfold SERIAL_MAX_LEN, SERIAL_LEN_SIZE in *.
  destruct (Z.ltb_spec (len data) (2 + n)) as [|Hlen]; [exact I|].
  destruct (split_at tl n) as (fr & rest & E2 & Hfr & _); [lia|].
  destruct fr as [|t body]; [rewrite len_nil in Hfr; lia|]. rewrite len_cons in Hfr.
  subst tl. rewrite Forall_app, Forall_cons_iff in Bt. destruct Bt as ((Bt & Bb) & _).
  pose proof (slice_app_mid (E := ModemCodecError) (hd ++ [t]) body rest 3 (2 + n)) as Hs.
  rewrite <- app_assoc in Hs. cbn [app] in Hs, E. subst data.
  rewrite index_app_mid by done. cbn [res_bind]. change (2 + 1) with 3.
  rewrite Hs by (rewrite len_app, Hhd; change (len [t]) with 1; lia).
  cbn [res_bind]. pose proof (decode_typed_post body Bb t Bt) as Hp.
  destruct (decode_typed_message t body) as [msg| | |]; simpl in Hp |- *; try done.
  destruct Hp as [Hok Henc]. split_and!; [done|lia|unfold SERIAL_MAX_FRAME_SIZE; lia|done|].
  intros Hfit. unfold encode_modem_frame. rewrite (Henc Hfit). cbn [res_bind].
  rewrite Hfr, Z.gtb_ltb. destruct (Z.ltb_spec SERIAL_MAX_LEN n) as [Hx|_]; [unfold SERIAL_MAX_LEN in Hx; lia|].
  unfold as_u16. rewrite wrap_small by (unfold uN; lia). rewrite Hback.
  replace (hd ++ t :: body ++ rest) with ((hd ++ t :: body) ++ rest) by (by rewrite <- app_assoc).
  rewrite take_app_length'; [done|]. rewrite length_app. unfold len in *. simpl length. lia.
Qed.

(** C36: the frame codec is exact.  A well-formed message that the encoder accepts - not
    a survey of more than 170 entries, which the encoder cuts, nor an unknown message
    with the type of a known one - comes back unchanged, whatever bytes follow the
    frame, and the decoder reports exactly the length of the frame as consumed.  On
    arbitrary bytes the decoder returns a message or an error, never a panic; a message
    it returns is well formed, the count it reports is at least 3 and within the input,
    and, unless it is a survey of more than 170 entries, encoding the message again
    yields exactly the bytes consumed. *)
Theorem modem_codec_exact msg frame rest data :
  msg_ok msg -> canonical msg -> encode_modem_frame msg = Ok frame -> bytes_ok data ->
  decode_modem_frame (frame ++ rest) = Ok (msg, len frame) /\
  res_post (fun '(msg, n) =>
    msg_ok msg /\ 3 <= n <= SERIAL_MAX_FRAME_SIZE /\ n <= len data /\
    (scan_fits msg -> encode_modem_frame msg = Ok (take (Z.to_nat n) data)))
    False (decode_modem_frame data).
Proof. intros Hok Hcan Henc Hd. split; [by apply modem_frame_rt|by apply decode_frame_post]. Qed.

Lemma modem_codec_exact_witness :
  let msg := MRecvFrame (mkRecvFrame [1; 2; 3; 4; 5; 6] (-42) [222; 173]) in
  let frame := [0; 10; 130; 1; 2; 3; 4; 5; 6; 214; 222; 173] in
  decode_modem_frame (frame ++ [7; 7]) = Ok (msg, 12) /\
  res_post (fun '(msg, n) =>
    msg_ok msg /\ 3 <= n <= SERIAL_MAX_FRAME_SIZE /\ n <= 5 /\
    (scan_fits msg -> encode_modem_frame msg = Ok (take (Z.to_nat n) [0; 2; 3; 11; 99])))
    False (decode_modem_frame [0; 2; 3; 11; 99]).
Proof.
  intros msg frame. apply (modem_codec_exact msg frame [7; 7] [0; 2; 3; 11; 99]).
  - unfold msg, msg_ok, mac_ok, iN. simpl.
    split_and!; [reflexivity|repeat constructor; discriminate|discriminate|reflexivity|].
    repeat constructor; discriminate.
  - exact I.
  - reflexivity.
  - repeat constructor; discriminate.
Defined.

(** A channel survey of more than 170 entries is cut: the encoder accepts it
    and the decoder returns the first 170 entries.  (The encoder's comment takes
    the largest body to be 511 bytes; the protocol's maximum of 1024 would hold all
    255 entries that the count byte can express, and the decoder accepts them.) *)
Lemma scan_result_truncated es :
  Forall scan_entry_ok es -> 170 < len es ->
  exists frame, encode_modem_frame (MScanResult (mkScanResult es)) = Ok frame /\
    decode_modem_frame frame = Ok (MScanResult (mkScanResult (take 170 es)), len frame).
Proof.
  intros Hok Hl. set (x' := mkScanResult (take 170 es)).
  assert (Hl' : len (take 170 es) = 170) by (unfold len in *; rewrite length_take; lia).
  assert (E : encode_scan_result (mkScanResult es) = encode_scan_result x').
  { unfold encode_scan_result. cbn [scan_entries]. change (Z.min 255 170) with 170.
    unfold x'. cbn [scan_entries]. rewrite Hl', Z.min_r by lia. change (Z.min 170 170) with 170.
    by rewrite take_take. }
  assert (E' : encode_modem_frame (MScanResult (mkScanResult es)) = encode_modem_frame (MScanResult x'))
    by (unfold encode_modem_frame, encode_body; by rewrite E).
  assert (Hb : len (encode_scan_result x') = 511).
  { unfold encode_scan_result. cbn [scan_entries]. change (Z.min 255 170) with 170.
    unfold x'. cbn [scan_entries]. rewrite Hl'. change (Z.min 170 170) with 170.
    rewrite len_cons, take_take. fold (encode_entries (take (Nat.min (Z.to_nat 170) 170) es)).
    rewrite len_encode_entries. change (Nat.min (Z.to_nat 170) 170) with 170%nat. lia. }
  assert (F : exists frame, encode_modem_frame (MScanResult x') = Ok frame).
  { unfold encode_modem_frame. cbn [encode_body res_bind]. rewrite Hb. by eexists. }
  destruct F as [frame F]. exists frame. rewrite E'. split; [done|].
  rewrite <- (app_nil_r frame) at 1. apply modem_frame_rt; [|simpl; lia|done].
  simpl. by apply Forall_take.
Qed.

(** The streaming decoder's buffer.  A push keeps the buffer within
    [DECODER_BUF_CAP] as long as the pushed slice itself is (reads are at most 1024
    bytes); the documented cap does not hold for a larger slice, which is appended
    whole after the old contents are dropped. *)
Lemma push_bounded d data :
  (len (buf d) <= DECODER_BUF_CAP -> len data <= DECODER_BUF_CAP ->
   buffered (push d data) <= DECODER_BUF_CAP) /\
  (DECODER_BUF_CAP < len data -> buffered (push d data) = len data).
Proof.
  unfold buffered, push. pose proof (len_nonneg (buf d)). rewrite Z.gtb_ltb. cbn [buf]. split.
  - intros H1 H2. destruct (Z.ltb_spec DECODER_BUF_CAP (len (buf d) + len data)); rewrite len_app, ?len_nil; lia.
  - intros H1. destruct (Z.ltb_spec DECODER_BUF_CAP (len (buf d) + len data)); [done|lia].
Qed.

