(* ===== verification/ModemStream.v ===== *)
(** * The gateway's serial reader (sonde-gateway/src/modem.rs lines 188-262)

    The background task that feeds the modem's byte stream to a [FrameDecoder]
    and dispatches what it decodes.  The theorems show that the reader survives
    arbitrary bytes and that, whatever the sizes of the reads, a stream of frames
    is delivered message by message. *)

From Stdlib Require Import String.
From S2P Require Import Prelude.
From S2P Require Import Modem.
From S2P Require Import ModemProofs.
Open Scope list_scope.
Open Scope Z_scope.

(** ** The reader *)

(** Size of the read buffer. *)
Definition READ_BUF_SIZE : Z := 1024.

(** The inner loop: decode until more data is needed, skipping empty and malformed
    frames; an impossible length discards everything.  [None] is a run cut short
    by the fuel. *)
Fixpoint reader_drain (fuel : nat) (d : FrameDecoder) : option (Codec (list ModemMessage * FrameDecoder)) :=
  match fuel with
  | O => None
  | S fuel' =>
      match decode d with
      | (Ok (Some msg), d') =>
          match reader_drain fuel' d' with
          | Some (Ok (msgs, d'')) => Some (Ok (msg :: msgs, d''))
          | r => r
          end
      | (Ok None, d') => Some (Ok ([], d'))
      | (Err EmptyFrame, d') => reader_drain fuel' d'
      | (Err (FrameTooLarge _), d') => Some (Ok ([], reset d'))
      | (Err _, d') => reader_drain fuel' d'
      | (Panic, _) => Some Panic
      | (UB, _) => Some UB
      end
  end.

(** One successful read of the bytes [chunk]. *)
Definition reader_chunk (d : FrameDecoder) (chunk : list Z) : option (Codec (list ModemMessage * FrameDecoder)) :=
  let d := push d chunk in
  reader_drain (S (length (buf d))) d.

(** The outer loop over the reads, until the port closes. *)
Fixpoint reader (d : FrameDecoder) (chunks : list (list Z)) : option (Codec (list ModemMessage * FrameDecoder)) :=
  match chunks with
  | [] => Some (Ok ([], d))
  | chunk :: chunks' =>
      match reader_chunk d chunk with
      | Some (Ok (msgs, d')) =>
          match reader d' chunks' with
          | Some (Ok (msgs', d'')) => Some (Ok (msgs ++ msgs', d''))
          | r => r
          end
      | r => r
      end
  end.

(** ** One step of the decoder *)

(** A length-delimited segment of the stream: an empty frame, or any type and
    body. *)
Inductive Segment : Type :=
  | SegEmpty
  | SegFrame (t : Z) (body : list Z).

Definition seg_bytes (s : Segment) : list Z :=
  match s with
  | SegEmpty => [0; 0]
  | SegFrame t body => to_be_bytes 2 (1 + len body) ++ t :: body
  end.

Definition seg_ok (s : Segment) : Prop :=
  match s with
  | SegEmpty => True
  | SegFrame t body => byte_ok t /\ bytes_ok body /\ 1 + len body <= SERIAL_MAX_LEN
  end.

(** The message a segment carries, if its body is valid. *)
Definition seg_msg (s : Segment) : option ModemMessage :=
  match s with
  | SegEmpty => None
  | SegFrame t body => match decode_typed_message t body with Ok msg => Some msg | _ => None end
  end.

Definition stream (segs : list Segment) : list Z := concat (seg_bytes <$> segs).

(** What the decoder reports for a segment. *)
Definition seg_result (s : Segment) : Codec (option ModemMessage) :=
  match s with
  | SegEmpty => Err EmptyFrame
  | SegFrame t body => res_map Some (decode_typed_message t body)
  end.

Lemma len_be2 x : len (to_be_bytes 2 x) = 2.
Proof. unfold len. by rewrite length_to_be_bytes. Qed.

Lemma drain_app l k n : n = len l -> drain (mkDecoder (l ++ k)) n = mkDecoder k.
Proof. intros ->. unfold drain, len. simpl. by rewrite Nat2Z.id, drop_app_length. Qed.

Lemma be_at_2 x rest : uN 16 x -> be_at (to_be_bytes 2 x ++ rest) 0 2 = Ok x.
Proof. intros Hx. exact (be_at_field [] rest 0 2 x eq_refl Hx). Qed.

Lemma decode_seg s rest :
  seg_ok s -> decode (mkDecoder (seg_bytes s ++ rest)) = (seg_result s, mkDecoder rest).
Proof.
  destruct s as [|t body]; intros Hok.
  - unfold decode. cbn [buf seg_bytes]. rewrite len_app. pose proof (len_nonneg rest).
    change (len [0; 0]) with 2. destruct (Z.ltb_spec (2 + len rest) SERIAL_LEN_SIZE) as [H1|_];
      [unfold SERIAL_LEN_SIZE in H1; lia|]. reflexivity.
  - destruct Hok as (_ & _ & Hl). pose proof (len_nonneg body). pose proof (len_nonneg rest).
    unfold SERIAL_MAX_LEN in Hl. unfold decode. cbn [buf seg_bytes].
    set (hd := to_be_bytes 2 (1 + len body)).
    assert (Hhd : len hd = 2) by apply len_be2.
    replace ((hd ++ t :: body) ++ rest) with (hd ++ t :: body ++ rest) by (by rewrite <- app_assoc).
    rewrite len_app, Hhd, len_cons, len_app. unfold SERIAL_LEN_SIZE, SERIAL_MAX_LEN.
    destruct (Z.ltb_spec (2 + (1 + (len body + len rest))) 2); [lia|].
    unfold hd at 1. rewrite be_at_2 by (unfold uN; lia).
    destruct (Z.eqb_spec (1 + len body) 0); [lia|]. rewrite Z.gtb_ltb.
    destruct (Z.ltb_spec 1025 (1 + len body)); [lia|].
    destruct (Z.ltb_spec (2 + (1 + (len body + len rest))) (2 + (1 + len body))); [lia|].
    rewrite index_app_mid by done. cbn [res_bind].
    assert (E : hd ++ t :: body ++ rest = (hd ++ [t]) ++ body ++ rest) by (by rewrite <- app_assoc).
    rewrite E, slice_app_mid by (rewrite len_app, Hhd; change (len [t]) with 1; lia).
    cbn [res_bind seg_result]. f_equal. rewrite (app_assoc (hd ++ [t])). apply drain_app.
    rewrite !len_app, Hhd. change (len [t]) with 1. lia.
Qed.

(** A segment that has not arrived completely. *)
Lemma decode_partial s p q :
  seg_ok s -> seg_bytes s = p ++ q -> q <> [] -> decode (mkDecoder p) = (Ok None, mkDecoder p).
Proof.
  intros Hok E Hq. unfold decode. cbn [buf]. unfold SERIAL_LEN_SIZE, SERIAL_MAX_LEN.
  destruct (Z.ltb_spec (len p) 2) as [|Hp]; [done|].
  assert (Hlq : 1 <= len q) by (destruct q; [done|]; rewrite len_cons; pose proof (len_nonneg q); lia).
  pose proof (f_equal len E) as El. rewrite len_app in El.
  destruct s as [|t body]; cbn [seg_bytes seg_ok] in *; [change (len [0; 0]) with 2 in El; lia|].
  destruct Hok as (_ & _ & Hl). unfold SERIAL_MAX_LEN in Hl. pose proof (len_nonneg body).
  rewrite len_app, len_be2, len_cons in El.
  destruct (split_at p 2) as (hd & p' & -> & Hhd & _); [lia|].
  rewrite <- app_assoc in E. apply app_inj_1 in E as [Eh _]; [|rewrite length_to_be_bytes; unfold len in Hhd; lia].
  rewrite <- Eh, be_at_2 by (unfold uN; lia). rewrite Z.gtb_ltb.
  destruct (Z.eqb_spec (1 + len body) 0); [lia|]. destruct (Z.ltb_spec 1025 (1 + len body)); [lia|].
  rewrite len_app, len_be2. rewrite len_app, Hhd in El.
  by destruct (Z.ltb_spec (2 + len p') (2 + (1 + len body))); [|lia].
Qed.

(** ** Errors of a delimited frame *)

Definition body_error (e : ModemCodecError) : Prop :=
  match e with
  | BodyTooShort _ _ _ | BodyTooLong _ _ _ | InvalidFieldValue _ _ _ => True
  | _ => False
  end.

Lemma index_errs (P : ModemCodecError -> Prop) {A} (l : list A) i : errs_only P (index l i).
Proof. unfold index. by repeat case_match. Qed.

Lemma slice_errs (P : ModemCodecError -> Prop) {A} (l : list A) a b : errs_only P (slice l a b).
Proof. unfold slice. by case_match. Qed.

Lemma slice_from_errs (P : ModemCodecError -> Prop) {A} (l : list A) a : errs_only P (slice_from l a).
Proof. apply slice_errs. Qed.

Lemma check_exact_errs t body n : errs_only body_error (check_exact_body t body n).
Proof. unfold check_exact_body. by repeat case_match. Qed.

Lemma check_range_errs t body lo hi : errs_only body_error (check_body_range t body lo hi).
Proof. unfold check_body_range. by repeat case_match. Qed.

Lemma indices_errs P l i n : errs_only P (indices l i n).
Proof.
  revert i. induction n as [|n IH]; intros i; simpl; [done|].
  apply errs_only_bind; [apply index_errs|]. intros x. by apply errs_only_bind.
Qed.

Lemma be_at_errs P l i n : errs_only P (be_at l i n).
Proof. apply errs_only_bind; [apply indices_errs|done]. Qed.

Lemma scan_entries_errs P l i n : errs_only P (decode_scan_entries l i n).
Proof.
  revert i. induction n as [|n IH]; intros i; simpl; [done|].
  repeat (apply errs_only_bind; [first [apply index_errs | apply IH]|intros ?]). done.
Qed.

#[local] Hint Resolve index_errs slice_errs slice_from_errs check_exact_errs check_range_errs
  be_at_errs scan_entries_errs : sonde.

Lemma decode_typed_errs t body : errs_only body_error (decode_typed_message t body).
Proof.
  unfold decode_typed_message, decode_empty, decode_byte, decode_ble_data, decode_send_frame,
    decode_display_chunk, decode_modem_ready, decode_recv_frame, decode_status, decode_scan_result,
    decode_display_ack, decode_error, decode_pairing_reply, decode_ble_connected,
    decode_ble_disconnected, decode_pairing_confirm, decode_event_button.
  repeat match goal with
  | |- errs_only _ (if _ then _ else _) => case_match
  | |- errs_only _ (res_bind _ _) => apply errs_only_bind; [|intros ?]
  end; simpl; auto with sonde.
Qed.

(** ** Arbitrary bytes *)

(** What [decode] can do on any bytes: wait for more, give up on an impossible
    length, or consume one segment. *)
Lemma decode_view d :
  bytes_ok (buf d) ->
  decode d = (Ok None, d) \/
  (2 <= len (buf d) /\ exists n, decode d = (Err (FrameTooLarge n), mkDecoder [])) \/
  exists s rest, seg_ok s /\ buf d = seg_bytes s ++ rest.
Proof.
  intros Hd. destruct d as [l]. cbn [buf] in *. unfold decode. cbn [buf].
  unfold SERIAL_LEN_SIZE, SERIAL_MAX_LEN.
  destruct (Z.ltb_spec (len l) 2) as [|Hl]; [by left|].
  destruct (split_at l 2) as (hd & tl & -> & Hhd & _); [lia|].
  apply Forall_app in Hd as [Bh Bt].
  pose proof (be_at_split [] hd tl 0 2 eq_refl Hhd) as Hbe. cbn [app] in Hbe. rewrite Hbe.
  pose proof (be_range 2 hd Bh Hhd) as Hn. pose proof (be_bytes_back 2 hd Bh Hhd) as Hback.
  set (n := from_be_bytes hd) in *. clearbody n. clear Hbe. unfold uN in Hn. rewrite Z.gtb_ltb.
  destruct (Z.eqb_spec n 0) as [->|Hn0].
  { right; right. exists SegEmpty, tl. split; [done|]. by rewrite <- Hback. }
  destruct (Z.ltb_spec 1025 n); [right; left; split; [done|by eexists]|].
  destruct (Z.ltb_spec (len (hd ++ tl)) (2 + n)) as [|Hlen]; [by left|]. rewrite len_app, Hhd in Hlen.
  destruct (split_at tl n) as (fr & rest & -> & Hfr & _); [lia|].
  destruct fr as [|t body]; [rewrite len_nil in Hfr; lia|]. rewrite len_cons in Hfr.
  rewrite Forall_app, Forall_cons_iff in Bt. destruct Bt as ((Bt & Bb) & _).
  right; right. exists (SegFrame t body), rest. split.
  - unfold seg_ok, SERIAL_MAX_LEN. split_and!; [done|done|lia].
  - cbn [seg_bytes]. by rewrite Hfr, Hback, <- app_assoc.
Qed.

Lemma seg_bytes_length s : (2 <= length (seg_bytes s))%nat.
Proof.
  destruct s as [|t body]; [done|]. cbn [seg_bytes]. rewrite length_app, length_to_be_bytes. lia.
Qed.

Lemma seg_bytes_ok s : seg_ok s -> bytes_ok (seg_bytes s).
Proof.
  destruct s as [|t body]; cbn [seg_ok seg_bytes]; intros Hs; [repeat constructor; discriminate|].
  apply Forall_app. split; [apply to_be_bytes_ok|]. destruct Hs as (? & ? & _). by constructor.
Qed.

(** How the inner loop goes on after a segment. *)
Definition after_seg (s : Segment) (r : option (Codec (list ModemMessage * FrameDecoder))) :
    option (Codec (list ModemMessage * FrameDecoder)) :=
  match r with
  | Some (Ok (msgs, d)) => Some (Ok (option_list (seg_msg s) ++ msgs, d))
  | r => r
  end.

Lemma reader_drain_seg fuel s rest :
  seg_ok s ->
  reader_drain (S fuel) (mkDecoder (seg_bytes s ++ rest)) =
  after_seg s (reader_drain fuel (mkDecoder rest)).
Proof.
  intros Hs. cbn [reader_drain]. rewrite decode_seg by done.
  destruct s as [|t body]; cbn [seg_result].
  - unfold after_seg. by destruct (reader_drain fuel _) as [[[? ?]| | |]|].
  - destruct Hs as (Ht & Hb & _). pose proof (decode_typed_post body Hb t Ht) as Hp.
    pose proof (decode_typed_errs t body) as He. unfold after_seg, seg_msg.
    destruct (decode_typed_message t body) as [msg|err| |]; simpl in Hp, He |- *; [by destruct (reader_drain fuel _) as [[[? ?]| | |]|]| |done..].
    destruct err; simpl in He; try done; by destruct (reader_drain fuel _) as [[[? ?]| | |]|].
Qed.

(** The reader is robust.  Whatever bytes have arrived, the inner loop stops
    (one iteration per two buffered bytes at most), never panics, delivers only
    well-formed messages and leaves a buffer no longer than it was. *)
Lemma reader_drain_total d :
  bytes_ok (buf d) ->
  exists msgs d', (forall fuel, (length (buf d) < fuel)%nat -> reader_drain fuel d = Some (Ok (msgs, d'))) /\
    Forall msg_ok msgs /\ bytes_ok (buf d') /\ (length (buf d') <= length (buf d))%nat.
Proof.
  destruct d as [l]. cbn [buf]. intros Hd.
  induction l as [l IH] using (well_founded_induction (well_founded_ltof _ length)).
  destruct (decode_view (mkDecoder l) Hd) as [E|[[_ [n E]]|(s & rest & Hs & E)]].
  - exists [], (mkDecoder l). split_and!; [|done..].
    intros [|fuel] Hf; [lia|]. simpl. by rewrite E.
  - exists [], (mkDecoder []). split_and!; [|done|constructor|simpl; lia].
    intros [|fuel] Hf; [lia|]. simpl. by rewrite E.
  - cbn [buf] in E. subst l. apply Forall_app in Hd as [Bs Br].
    pose proof (seg_bytes_length s) as Hsl.
    destruct (IH rest) as (msgs & d' & Hrun & Hm & Hd' & Hl); [unfold ltof; rewrite length_app; lia|done|].
    rewrite length_app. exists (option_list (seg_msg s) ++ msgs), d'. split_and!; [|..|done|lia].
    + intros [|fuel] Hf; [lia|]. rewrite reader_drain_seg by done. rewrite Hrun by lia. done.
    + apply Forall_app. split; [|done]. destruct s as [|t body]; [constructor|].
      destruct Hs as (Ht & Hb & _). pose proof (decode_typed_post body Hb t Ht) as Hp. unfold seg_msg.
      destruct (decode_typed_message t body); simpl in *; try constructor; [apply Hp|constructor].
Qed.

(** ** Streams of frames *)

Lemma stream_cons s segs : stream (s :: segs) = seg_bytes s ++ stream segs.
Proof. reflexivity. Qed.

(** [p] is what has arrived of the first of [segs]. *)
Definition pending (p : list Z) (segs : list Segment) : Prop :=
  p = [] \/ exists s segs' q, segs = s :: segs' /\ seg_bytes s = p ++ q /\ q <> [].

Lemma decode_pending p segs :
  Forall seg_ok segs -> pending p segs -> decode (mkDecoder p) = (Ok None, mkDecoder p).
Proof.
  intros Hs [->|(s & segs' & q & -> & E & Hq)]; [done|].
  apply Forall_cons_iff in Hs as [Hs _]. by eapply decode_partial.
Qed.

(** Any prefix of a stream is some whole segments and a pending one. *)
Lemma stream_prefix segs x y :
  stream segs = x ++ y ->
  exists done rest p, segs = done ++ rest /\ x = stream done ++ p /\ stream rest = p ++ y /\ pending p rest.
Proof.
  revert x. induction segs as [|s segs IH]; intros x E.
  { symmetry in E. apply app_eq_nil in E as [-> ->]. exists [], [], []. split_and!; try done. by left. }
  rewrite stream_cons in E.
  destruct (decide (length (seg_bytes s) <= length x)%nat) as [Hl|Hl].
  - assert (Ex : exists x', x = seg_bytes s ++ x' /\ stream segs = x' ++ y).
    { exists (drop (length (seg_bytes s)) x).
      assert (Ht : take (length (seg_bytes s)) x = seg_bytes s).
      { apply (f_equal (take (length (seg_bytes s)))) in E.
        by rewrite take_app_length, take_app_le in E. }
      split; [by rewrite <- Ht at 1; rewrite take_drop|].
      apply (f_equal (drop (length (seg_bytes s)))) in E.
      by rewrite drop_app_length, drop_app_le in E. }
    destruct Ex as (x' & -> & E'). destruct (IH x' E') as (dn & rest & p & -> & -> & Er & Hp).
    exists (s :: dn), rest, p. split_and!; [done| |done|done]. by rewrite stream_cons, app_assoc.
  - exists [], (s :: segs), x. split_and!; [done|done|by rewrite stream_cons|].
    right. exists s, segs, (drop (length x) (seg_bytes s)).
    assert (Ht : take (length x) (seg_bytes s) = x).
    { apply (f_equal (take (length x))) in E. by rewrite take_app_length, take_app_le in E by lia. }
    split_and!; [done|by rewrite <- Ht at 1; rewrite take_drop|].
    intros Hn. apply (f_equal length) in Hn. rewrite length_drop in Hn. simpl in Hn. lia.
Qed.

Definition seg_msgs (segs : list Segment) : list ModemMessage := omap seg_msg segs.

Lemma reader_drain_stream fuel dn rest p :
  Forall seg_ok dn -> Forall seg_ok rest -> pending p rest -> (length dn < fuel)%nat ->
  reader_drain fuel (mkDecoder (stream dn ++ p)) = Some (Ok (seg_msgs dn, mkDecoder p)).
Proof.
  intros Hdn Hrest Hp. revert fuel. induction Hdn as [|s dn Hs _ IH]; intros [|fuel] Hf; try (simpl in Hf; lia).
  - simpl. by rewrite (decode_pending p rest).
  - rewrite stream_cons, <- app_assoc, reader_drain_seg by done.
    rewrite IH by (simpl in Hf; lia). simpl. unfold seg_msgs. simpl. by destruct (seg_msg s).
Qed.

Lemma length_stream segs : (length segs <= length (stream segs))%nat.
Proof.
  induction segs as [|s segs IH]; [done|]. rewrite stream_cons, length_app. simpl.
  pose proof (seg_bytes_length s). lia.
Qed.

Lemma pending_length p segs :
  Forall seg_ok segs -> pending p segs -> len p < SERIAL_MAX_FRAME_SIZE.
Proof.
  intros Hs [->|(s & segs' & q & -> & E & Hq)]; [done|]. apply Forall_cons_iff in Hs as [Hs _].
  apply (f_equal len) in E. rewrite len_app in E. pose proof (len_nonneg q).
  assert (len (seg_bytes s) <= 1027).
  { destruct s as [|t body]; [done|]. destruct Hs as (_ & _ & Hl). unfold SERIAL_MAX_LEN in Hl.
    cbn [seg_bytes]. rewrite len_app, len_be2, len_cons. lia. }
  unfold SERIAL_MAX_FRAME_SIZE. assert (len q <> 0) by (destruct q; [done|]; rewrite len_cons; pose proof (len_nonneg q); lia).
  lia.
Qed.

(** Reads of any size up to the buffer's: the messages of the stream, in order. *)
Lemma reader_stream chunks : forall segs p,
  Forall seg_ok segs -> pending p segs -> stream segs = p ++ concat chunks ->
  Forall (fun c => len c <= READ_BUF_SIZE) chunks ->
  reader (mkDecoder p) chunks = Some (Ok (seg_msgs segs, mkDecoder [])).
Proof.
  induction chunks as [|c chunks IH]; intros segs p Hsegs Hp E Hc.
  - simpl in E. rewrite app_nil_r in E.
    destruct Hp as [->|(s & segs' & q & -> & Es & Hq)].
    + destruct segs as [|s segs]; [done|]. rewrite stream_cons in E.
      pose proof (seg_bytes_length s). apply (f_equal length) in E. rewrite length_app in E. simpl in E. lia.
    + rewrite stream_cons, Es, <- app_assoc in E. rewrite <- (app_nil_r p) in E at 2.
      apply app_inv_head in E. apply app_eq_nil in E as [-> _]. done.
  - apply Forall_cons_iff in Hc as [Hc Hcs]. cbn [concat] in E. rewrite app_assoc in E.
    destruct (stream_prefix segs (p ++ c) (concat chunks) E) as (dn & rest & p' & -> & Epc & Er & Hp').
    apply Forall_app in Hsegs as Hsplit. destruct Hsplit as [Hdn Hrest].
    cbn [reader]. unfold reader_chunk, push. cbn [buf].
    pose proof (pending_length _ _ Hsegs Hp) as Hpl. unfold READ_BUF_SIZE in Hc.
    unfold SERIAL_MAX_FRAME_SIZE in Hpl. unfold DECODER_BUF_CAP. rewrite Z.gtb_ltb.
    destruct (Z.ltb_spec 4108 (len p + len c)); [lia|]. cbn [buf]. rewrite Epc.
    rewrite (reader_drain_stream _ dn rest p') by
      (done || (pose proof (length_stream dn); rewrite length_app; lia)).
    rewrite (IH rest p') by done. unfold seg_msgs. by rewrite omap_app.
Qed.

(** The reader delivers a frame stream exactly.  For any sequence of
    well-delimited frames (valid or not, empty ones included), however the serial
    port splits it into reads of at most the buffer size, the reader dispatches the
    messages of the valid frames in order, once each, and ends with an empty
    buffer; an invalid body costs only its own frame. *)
Lemma reader_delivers segs chunks :
  Forall seg_ok segs -> concat chunks = stream segs ->
  Forall (fun c => len c <= READ_BUF_SIZE) chunks ->
  reader decoder_new chunks = Some (Ok (seg_msgs segs, decoder_new)).
Proof. intros Hs E Hc. apply reader_stream; [done|by left|done|done]. Qed.

