(* ===== verification/Frame.v ===== *)
(** * Radio frames and program chunks (sonde-protocol)

    The 11-byte frame header (header.rs), the AES-256-GCM frame codec
    (aead_codec.rs), the key hint (lib.rs) and the chunking of program images
    (chunk.rs).  The cryptographic providers are interfaces of the source
    (traits.rs); here they are type classes, with the behaviour their
    documentation states as laws. *)

From Stdlib Require Import String.
From S2P Require Import Prelude.
Open Scope list_scope.
Open Scope Z_scope.

(** ** Constants (constants.rs) *)

Definition HEADER_SIZE : Z := 11.
Definition MAX_FRAME_SIZE : Z := 250.
Definition AEAD_TAG_SIZE : Z := 16.
Definition GCM_NONCE_SIZE : Z := 12.
Definition MIN_FRAME_SIZE : Z := Eval compute in HEADER_SIZE + AEAD_TAG_SIZE.
Definition MAX_PAYLOAD_SIZE : Z := Eval compute in MAX_FRAME_SIZE - HEADER_SIZE - AEAD_TAG_SIZE.
Definition MAX_APP_DATA_BLOB_SIZE : Z := Eval compute in MAX_PAYLOAD_SIZE - 5.
Definition MAX_COMMAND_BLOB_SIZE : Z := Eval compute in MAX_PAYLOAD_SIZE - 30.
Definition OFFSET_KEY_HINT : Z := 0.
Definition OFFSET_MSG_TYPE : Z := 2.
Definition OFFSET_NONCE : Z := 3.

(** ** Errors (error.rs) *)

Inductive EncodeError : Type :=
  | FrameTooLarge
  | CborEncodeError (msg : string)
  | InvalidEncodeParameter (msg : string).

Inductive DecodeError : Type :=
  | TooShort
  | TooLong
  | AuthenticationFailed
  | InvalidMsgType (t : Z)
  | InvalidCommandType (t : Z)
  | MissingField (key : Z)
  | InvalidFieldType (key : Z)
  | CborDecodeError (msg : string)
  | InvalidDecodeParameter (msg : string).

(** ** Providers (traits.rs) *)

Class Sha256Provider : Type := { hash : list Z -> list Z }.

Class AeadProvider : Type := {
  seal : list Z -> list Z -> list Z -> list Z -> list Z;          (* key nonce aad plaintext *)
  open : list Z -> list Z -> list Z -> list Z -> option (list Z)  (* key nonce aad ciphertext *)
}.

(** A digest is 32 bytes. *)
Class Sha256Laws (S : Sha256Provider) : Prop := {
  hash_len : forall data, len (hash data) = 32;
  hash_ok : forall data, bytes_ok (hash data)
}.

(** "Returns ciphertext || 16-byte tag"; opening with the same key, nonce and
    associated data returns the plaintext. *)
Class AeadLaws (A : AeadProvider) : Prop := {
  seal_len : forall key nonce aad pt, len (seal key nonce aad pt) = len pt + AEAD_TAG_SIZE;
  open_seal : forall key nonce aad pt, open key nonce aad (seal key nonce aad pt) = Some pt
}.

(** ** Header *)

Record FrameHeader := mkHeader { key_hint : Z; h_msg_type : Z; h_nonce : Z }.

Definition header_to_bytes (h : FrameHeader) : list Z :=
  to_be_bytes 2 (key_hint h) ++ [h_msg_type h] ++ to_be_bytes 8 (h_nonce h).

(** The argument is an array of 11 bytes; reading outside it cannot happen. *)
Definition header_from_bytes (b : list Z) : FrameHeader :=
  mkHeader (from_be_bytes [b !!! 0%nat; b !!! 1%nat]) (b !!! 2%nat)
    (from_be_bytes [b !!! 3%nat; b !!! 4%nat; b !!! 5%nat; b !!! 6%nat;
                    b !!! 7%nat; b !!! 8%nat; b !!! 9%nat; b !!! 10%nat]).

Definition header_ok (h : FrameHeader) : Prop :=
  uN 16 (key_hint h) /\ uN 8 (h_msg_type h) /\ uN 64 (h_nonce h).

(** ** Frames *)

Record DecodedFrame := mkFrame { header : FrameHeader; ciphertext_and_tag : list Z }.

Section Codec.
Context `{Sha256Provider, AeadProvider}.

Definition build_gcm_nonce (psk : list Z) (msg_type : Z) (frame_nonce : list Z) : list Z :=
  take 3 (hash psk) ++ [msg_type] ++ frame_nonce.

Definition key_hint_from_psk (psk : list Z) : Z :=
  let h := hash psk in
  from_be_bytes [h !!! 30%nat; h !!! 31%nat].

Definition encode_frame (h : FrameHeader) (payload_cbor psk : list Z) : Res EncodeError (list Z) :=
  let total_size := HEADER_SIZE + len payload_cbor + AEAD_TAG_SIZE in
  if total_size >? MAX_FRAME_SIZE then Err FrameTooLarge else
  let header_bytes := header_to_bytes h in
  let gcm_nonce := build_gcm_nonce psk (h_msg_type h) (to_be_bytes 8 (h_nonce h)) in
  let ct := seal psk gcm_nonce header_bytes payload_cbor in
  let frame_len := HEADER_SIZE + len ct in
  if frame_len >? MAX_FRAME_SIZE then Err FrameTooLarge else
  Ok (header_bytes ++ ct).

Definition decode_frame (raw : list Z) : Res DecodeError DecodedFrame :=
  if len raw <? MIN_FRAME_SIZE then Err TooShort else
  if len raw >? MAX_FRAME_SIZE then Err TooLong else
  let? header_bytes := slice raw 0 HEADER_SIZE in
  let? ct := slice_from raw HEADER_SIZE in
  Ok (mkFrame (header_from_bytes header_bytes) ct).

Definition open_frame (f : DecodedFrame) (psk : list Z) : Res DecodeError (list Z) :=
  let header_bytes := header_to_bytes (header f) in
  let gcm_nonce := build_gcm_nonce psk (h_msg_type (header f)) (to_be_bytes 8 (h_nonce (header f))) in
  ok_or (open psk gcm_nonce header_bytes (ciphertext_and_tag f)) AuthenticationFailed.
End Codec.

(** ** Chunks of a program image (chunk.rs) *)

(** [usize] is [w] bits wide. *)
Definition chunk_count (image_size chunk_size : Z) : option Z :=
  if chunk_size =? 0 then None else
  if image_size =? 0 then Some 0 else
  let count := (image_size + chunk_size - 1) / chunk_size in
  if count <? 2 ^ 32 then Some count else None.

Definition get_chunk (w : Z) (image : list Z) (chunk_index chunk_size : Z) : option (list Z) :=
  if chunk_size =? 0 then None else
  match checked_mul w chunk_index chunk_size with
  | None => None
  | Some start =>
      if start >=? len image then None else
      match checked_add w start chunk_size with
      | None => None
      | Some end_unclamped =>
          let end_ := Z.min end_unclamped (len image) in
          Some (take (Z.to_nat (end_ - start)) (drop (Z.to_nat start) image))
      end
  end.

(** ** Lemmas *)

Lemma len_header_to_bytes h : len (header_to_bytes h) = HEADER_SIZE.
Proof. reflexivity. Qed.

Lemma header_roundtrip h : header_ok h -> header_from_bytes (header_to_bytes h) = h.
Proof.
  intros (H1 & H2 & H3). destruct h as [kh mt nc]. simpl in H1, H2, H3.
  transitivity (mkHeader (from_be_bytes (to_be_bytes 2 kh)) mt (from_be_bytes (to_be_bytes 8 nc)));
    [reflexivity|]. by rewrite !from_to_be_bytes, !wrap_small.
Qed.

Lemma header_roundtrip_bytes b :
  bytes_ok b -> len b = HEADER_SIZE ->
  header_to_bytes (header_from_bytes b) = b /\ header_ok (header_from_bytes b).
Proof.
  intros Hb Hl. unfold HEADER_SIZE, len in Hl.
  destruct b as [|b0 [|b1 [|b2 [|b3 [|b4 [|b5 [|b6 [|b7 [|b8 [|b9 [|b10 [|? ?]]]]]]]]]]]];
    try (exfalso; simpl in Hl; lia).
  rewrite !Forall_cons_iff in Hb. destruct_and!.
  unfold header_to_bytes, header_from_bytes, header_ok. cbn [lookup_total list_lookup_total key_hint h_msg_type h_nonce].
  split.
  - rewrite !be_bytes_back by (done || by rewrite !Forall_cons_iff). reflexivity.
  - split_and!; [apply (be_range 2)|done|apply (be_range 8)]; done || by rewrite !Forall_cons_iff.
Qed.

(** ** Theorems on frames *)

Section Theorems.
Context (S : Sha256Provider) (A : AeadProvider) (HS : Sha256Laws S) (HA : AeadLaws A).

Lemma encode_decode_open h payload psk :
  header_ok h -> len payload <= MAX_PAYLOAD_SIZE ->
  exists raw f, encode_frame h payload psk = Ok raw /\
    MIN_FRAME_SIZE <= len raw <= MAX_FRAME_SIZE /\
    decode_frame raw = Ok f /\ header f = h /\ open_frame f psk = Ok payload.
Proof using HA.
  intros Hh Hl. pose proof (len_nonneg payload). unfold MAX_PAYLOAD_SIZE, MIN_FRAME_SIZE in *.
  unfold encode_frame. unfold HEADER_SIZE, AEAD_TAG_SIZE, MAX_FRAME_SIZE. rewrite !Z.gtb_ltb.
  destruct (Z.ltb_spec 250 (11 + len payload + 16)); [lia|].
  rewrite seal_len. unfold AEAD_TAG_SIZE.
  destruct (Z.ltb_spec 250 (11 + (len payload + 16))); [lia|].
  set (hb := header_to_bytes h). set (ct := seal _ _ _ _).
  assert (Hhb : len hb = 11) by reflexivity.
  assert (Hct : len ct = len payload + 16) by apply seal_len.
  exists (hb ++ ct), (mkFrame h ct). rewrite len_app, Hhb, Hct. split_and!; [done|lia|lia| |done|].
  - unfold decode_frame. rewrite len_app, Hhb, Hct. unfold MIN_FRAME_SIZE, MAX_FRAME_SIZE.
    destruct (Z.ltb_spec (11 + (len payload + 16)) 27); [lia|]. rewrite Z.gtb_ltb.
    destruct (Z.ltb_spec 250 (11 + (len payload + 16))); [lia|].
    rewrite slice_app_l by done. cbn [res_bind]. rewrite slice_from_app by done. cbn [res_bind].
    unfold hb. by rewrite header_roundtrip.
  - unfold open_frame. cbn [header ciphertext_and_tag]. unfold ct, hb. by rewrite open_seal.
Qed.

(** A frame survives the radio.  For every header, key and payload of at most
    [MAX_PAYLOAD_SIZE] bytes the encoder produces a frame within the radio's limit
    that decodes to the same header and opens to the same payload with that key; a
    larger payload is refused. *)
Lemma frame_roundtrip h payload psk :
  header_ok h ->
  (len payload <= MAX_PAYLOAD_SIZE ->
     exists raw f, encode_frame h payload psk = Ok raw /\
       MIN_FRAME_SIZE <= len raw <= MAX_FRAME_SIZE /\
       decode_frame raw = Ok f /\ header f = h /\ open_frame f psk = Ok payload) /\
  (MAX_PAYLOAD_SIZE < len payload -> encode_frame h payload psk = Err FrameTooLarge).
Proof.
  intros Hh. split; [by apply encode_decode_open|]. intros Hl. unfold MAX_PAYLOAD_SIZE in Hl.
  unfold encode_frame, HEADER_SIZE, AEAD_TAG_SIZE, MAX_FRAME_SIZE. rewrite Z.gtb_ltb.
  by destruct (Z.ltb_spec 250 (11 + len payload + 16)); [|lia].
Qed.

(** Decoding binds everything that was received.  Any raw frame is rejected by
    length ([TooShort] below 27 bytes, [TooLong] above 250) or decoded without a
    panic, and what [open_frame] then authenticates is the received header, byte
    for byte, with the rest of the frame as ciphertext; the nonce it uses is
    derived from those header bytes. *)
Lemma open_frame_authenticates raw psk :
  bytes_ok raw ->
  (len raw < MIN_FRAME_SIZE -> decode_frame raw = Err TooShort) /\
  (MAX_FRAME_SIZE < len raw -> decode_frame raw = Err TooLong) /\
  (MIN_FRAME_SIZE <= len raw <= MAX_FRAME_SIZE ->
     exists f hd ct, decode_frame raw = Ok f /\ raw = hd ++ ct /\ len hd = HEADER_SIZE /\
       open_frame f psk =
       ok_or (open psk (take 3 (hash psk) ++ drop 2 hd) hd ct) AuthenticationFailed).
Proof.
  intros Hraw. unfold decode_frame. unfold MIN_FRAME_SIZE, MAX_FRAME_SIZE. rewrite !Z.gtb_ltb.
  split_and!.
  - intros Hl. by destruct (Z.ltb_spec (len raw) 27); [|lia].
  - intros Hl. destruct (Z.ltb_spec (len raw) 27); [lia|]. by destruct (Z.ltb_spec 250 (len raw)); [|lia].
  - intros Hl. destruct (Z.ltb_spec (len raw) 27); [lia|]. destruct (Z.ltb_spec 250 (len raw)); [lia|].
    destruct (split_at raw HEADER_SIZE) as (hd & ct & -> & Hhd & _); [unfold HEADER_SIZE; lia|].
    apply Forall_app in Hraw as [Bh _].
    rewrite slice_app_l by done. cbn [res_bind]. rewrite slice_from_app by done.
    eexists _, hd, ct. split_and!; [done..|].
    destruct (header_roundtrip_bytes hd Bh Hhd) as [E _]. unfold open_frame, build_gcm_nonce.
    cbn [header ciphertext_and_tag]. rewrite E. do 3 f_equal.
    rewrite <- E at 3. reflexivity.
Qed.

(** GCM nonces are never reused across frames of one key: two frames under the
    same key get the same nonce only if they have the same message type and the
    same 64-bit frame nonce. *)
Lemma gcm_nonce_injective psk t1 n1 t2 n2 :
  uN 64 n1 -> uN 64 n2 ->
  build_gcm_nonce psk t1 (to_be_bytes 8 n1) = build_gcm_nonce psk t2 (to_be_bytes 8 n2) ->
  t1 = t2 /\ n1 = n2.
Proof.
  intros H1 H2 E. unfold build_gcm_nonce in E. apply app_inv_head in E.
  apply app_inj_1 in E as [Et En]; [|done]. split; [by injection Et|].
  apply (f_equal from_be_bytes) in En. rewrite !from_to_be_bytes, !wrap_small in En by done. done.
Qed.
End Theorems.

(** A provider pair in the style of the codec's unit tests: the tag is constant. *)
Module StubProviders.
Definition stub_tag : list Z := replicate 16 170.

#[export] Instance stub_sha : Sha256Provider := {| hash := fun _ => replicate 32 7 |}.
#[export] Instance stub_aead : AeadProvider := {|
  seal := fun _ _ _ pt => pt ++ stub_tag;
  open := fun _ _ _ ct =>
    if bool_decide (drop (length ct - 16) ct = stub_tag) then Some (take (length ct - 16) ct) else None
|}.

#[export] Instance stub_sha_laws : Sha256Laws stub_sha.
Proof. split; intros; [reflexivity|]. apply Forall_replicate. split; discriminate || reflexivity. Qed.

#[export] Instance stub_aead_laws : AeadLaws stub_aead.
Proof.
  split; intros; simpl; [by rewrite len_app|].
  rewrite length_app. change (length stub_tag) with 16%nat. rewrite Nat.add_sub.
  rewrite drop_app_length, take_app_length. by rewrite bool_decide_true.
Qed.
End StubProviders.

Section Witnesses.
Import StubProviders.

End Witnesses.

(** ** Chunking *)

Section Chunks.
Context (w : Z) (image : list Z) (cs : Z).
Context (Hcs : 1 <= cs) (Hw : len image + cs < 2 ^ w).

Definition nth_chunk (i : nat) : list Z := take (Z.to_nat cs) (drop (i * Z.to_nat cs) image).

Lemma get_chunk_nth (i : nat) :
  Z.of_nat i * cs < len image -> get_chunk w image (Z.of_nat i) cs = Some (nth_chunk i).
Proof using Hcs Hw.
  intros Hi. unfold get_chunk. destruct (Z.eqb_spec cs 0); [lia|].
  pose proof (len_nonneg image). assert (0 <= Z.of_nat i * cs) by lia.
  unfold checked_mul. destruct (Z.ltb_spec (Z.of_nat i * cs) (2 ^ w)); [|lia].
  rewrite Z.geb_leb. destruct (Z.leb_spec (len image) (Z.of_nat i * cs)); [lia|].
  rewrite checked_add_lt by lia. f_equal. unfold nth_chunk.
  replace (Z.to_nat (Z.of_nat i * cs)) with (i * Z.to_nat cs)%nat by lia.
  unfold len in *. destruct (Z.min_spec (Z.of_nat i * cs + cs) (Z.of_nat (length image))) as [[? ->]|[? ->]].
  - f_equal. lia.
  - rewrite !take_ge; [done|rewrite length_drop; lia..].
Qed.

Lemma get_chunk_past (i : nat) : len image <= Z.of_nat i * cs -> get_chunk w image (Z.of_nat i) cs = None.
Proof using Hcs.
  intros Hi. unfold get_chunk. destruct (Z.eqb_spec cs 0); [lia|].
  unfold checked_mul. destruct (Z.ltb_spec (Z.of_nat i * cs) (2 ^ w)); [|done].
  rewrite Z.geb_leb. by destruct (Z.leb_spec (len image) (Z.of_nat i * cs)); [|lia].
Qed.

Lemma concat_chunks n : concat (nth_chunk <$> seq 0 n) = take (n * Z.to_nat cs) image.
Proof using Type.
  clear Hcs Hw w. induction n as [|n IH]; [by rewrite take_0|].
  rewrite seq_S, fmap_app, concat_app, IH. cbn [fmap list_fmap concat]. rewrite app_nil_r.
  unfold nth_chunk. rewrite Nat.add_0_l.
  replace (S n * Z.to_nat cs)%nat with (n * Z.to_nat cs + Z.to_nat cs)%nat by lia.
  by rewrite take_take_drop.
Qed.

Lemma mapM_chunks n :
  Z.of_nat n * cs - cs < len image \/ n = 0%nat ->
  mapM (fun i : nat => get_chunk w image (Z.of_nat i) cs) (seq 0 n) = Some (nth_chunk <$> seq 0 n).
Proof using Hcs Hw.
  intros Hn. apply mapM_Some. rewrite Forall2_fmap_r. apply Forall_Forall2_diag, list.Forall_forall.
  intros i Hi. apply elem_of_seq in Hi. apply get_chunk_nth.
  assert (Z.of_nat i * cs <= (Z.of_nat n - 1) * cs) by (apply Z.mul_le_mono_nonneg_r; lia). lia.
Qed.
End Chunks.

Lemma chunk_count_bounds image_size cs n :
  0 <= image_size -> 1 <= cs -> chunk_count image_size cs = Some n ->
  0 <= n /\ (n - 1) * cs < image_size <= n * cs \/ image_size = 0 /\ n = 0.
Proof.
  intros Hi Hc. unfold chunk_count. destruct (Z.eqb_spec cs 0); [lia|].
  destruct (Z.eqb_spec image_size 0); [intros [= <-]; by right|].
  destruct (Z.ltb_spec ((image_size + cs - 1) / cs) (2 ^ 32)); [|done]. intros [= <-]. left.
  pose proof (Z.div_mod (image_size + cs - 1) cs ltac:(lia)).
  pose proof (Z.mod_pos_bound (image_size + cs - 1) cs ltac:(lia)).
  pose proof (Z.div_pos (image_size + cs - 1) cs ltac:(lia) ltac:(lia)). lia.
Qed.

Lemma chunks_concat w image cs n :
  1 <= cs -> len image + cs < 2 ^ w -> chunk_count (len image) cs = Some n ->
  exists chunks,
    mapM (fun i : nat => get_chunk w image (Z.of_nat i) cs) (seq 0 (Z.to_nat n)) = Some chunks /\
    concat chunks = image /\ Forall (fun c => len c <= cs) chunks /\
    forall i, n <= Z.of_nat i -> get_chunk w image (Z.of_nat i) cs = None.
Proof.
  intros Hcs Hw Hn. pose proof (len_nonneg image) as Hl.
  pose proof (chunk_count_bounds _ _ _ Hl Hcs Hn) as Hb.
  exists (nth_chunk image cs <$> seq 0 (Z.to_nat n)). split_and!.
  - apply mapM_chunks; [done|done|]. destruct Hb as [[? ?]|[? ->]]; [left; nia|by right].
  - rewrite concat_chunks. apply take_ge. unfold len in *. destruct Hb as [[? ?]|[? ->]]; [nia|lia].
  - apply Forall_fmap, list.Forall_forall. intros i _. unfold compose, nth_chunk, len.
    rewrite length_take. lia.
  - intros i Hi. apply get_chunk_past; [done|]. destruct Hb as [[? ?]|[? ->]]; [nia|lia].
Qed.

(** Chunked transfer is lossless.  When the image fits the address space, the
    chunks number 0 to [chunk_count - 1] all exist, their concatenation is the
    image, none is longer than the chunk size, and every later index is out of
    range. *)
Lemma chunks_reassemble w image cs n :
  1 <= cs -> len image + cs < 2 ^ w -> chunk_count (len image) cs = Some n ->
  exists chunks,
    mapM (fun i : nat => get_chunk w image (Z.of_nat i) cs) (seq 0 (Z.to_nat n)) = Some chunks /\
    concat chunks = image /\ Forall (fun c => len c <= cs) chunks /\
    forall i, n <= Z.of_nat i -> get_chunk w image (Z.of_nat i) cs = None.
Proof. apply chunks_concat. Qed.

