(* ===== verification/Messages.v ===== *)
(** * Protocol messages (sonde-protocol/src/messages.rs)

    Node and gateway messages as CBOR maps with integer keys.  The CBOR library
    (ciborium) is an interface: its [Value] type with the constructors and
    accessors the code uses, [into_writer] and [from_reader]. *)

From Stdlib Require Import String.
From S2P Require Import Prelude.
From S2P Require Import Frame.
Open Scope list_scope.
Open Scope Z_scope.

(** ** The CBOR library *)

(** Text is its UTF-8 bytes. *)
Class Cbor (Value : Type) : Type := {
  VInteger : Z -> Value;
  VBytes : list Z -> Value;
  VText : list Z -> Value;
  VBool : bool -> Value;
  VArray : list Value -> Value;
  VMap : list (Value * Value) -> Value;
  as_integer : Value -> option Z;
  as_bytes : Value -> option (list Z);
  as_text : Value -> option (list Z);
  as_bool : Value -> option bool;
  as_array : Value -> option (list Value);
  as_map : Value -> option (list (Value * Value));
  into_writer : Value -> Res string (list Z);
  from_reader : list Z -> Res string Value
}.

(** Accessors invert constructors, and reading inverts writing. *)
Class CborLaws {Value} (C : Cbor Value) : Prop := {
  as_integer_eq : forall z, as_integer (VInteger z) = Some z;
  as_bytes_eq : forall b, as_bytes (VBytes b) = Some b;
  as_text_eq : forall b, as_text (VText b) = Some b;
  as_bool_eq : forall b, as_bool (VBool b) = Some b;
  as_array_eq : forall l, as_array (VArray l) = Some l;
  as_map_eq : forall l, as_map (VMap l) = Some l;
  reader_writer : forall v b, into_writer v = Ok b -> from_reader b = Ok v
}.

(** ** Constants (constants.rs) *)

Definition MSG_WAKE : Z := 0x01.
Definition MSG_GET_CHUNK : Z := 0x02.
Definition MSG_PROGRAM_ACK : Z := 0x03.
Definition MSG_APP_DATA : Z := 0x04.
Definition MSG_DIAG_REQUEST : Z := 0x06.
Definition MSG_COMMAND : Z := 0x81.
Definition MSG_CHUNK : Z := 0x82.
Definition MSG_APP_DATA_REPLY : Z := 0x83.
Definition MSG_DIAG_REPLY : Z := 0x85.

Definition CMD_NOP : Z := 0x00.
Definition CMD_UPDATE_PROGRAM : Z := 0x01.
Definition CMD_RUN_EPHEMERAL : Z := 0x02.
Definition CMD_UPDATE_SCHEDULE : Z := 0x03.
Definition CMD_REBOOT : Z := 0x04.

Definition KEY_FIRMWARE_ABI_VERSION : Z := 1.
Definition KEY_PROGRAM_HASH : Z := 2.
Definition KEY_BATTERY_MV : Z := 3.
Definition KEY_COMMAND_TYPE : Z := 4.
Definition KEY_PAYLOAD : Z := 5.
Definition KEY_PROGRAM_SIZE : Z := 6.
Definition KEY_CHUNK_SIZE : Z := 7.
Definition KEY_CHUNK_COUNT : Z := 8.
Definition KEY_INTERVAL_S : Z := 9.
Definition KEY_BLOB : Z := 10.
Definition KEY_CHUNK_INDEX : Z := 11.
Definition KEY_CHUNK_DATA : Z := 12.
Definition KEY_STARTING_SEQ : Z := 13.
Definition KEY_TIMESTAMP_MS : Z := 14.
Definition KEY_FIRMWARE_VERSION : Z := 15.
Definition DIAG_KEY_DIAGNOSTIC_TYPE : Z := 1.
Definition DIAG_KEY_RSSI_DBM : Z := 2.

Definition MAX_STRING_FIELD_LEN : Z := 32.

(** ** Messages *)

Inductive NodeMessage : Type :=
  | Wake (firmware_abi_version : Z) (program_hash : list Z) (battery_mv : Z)
      (firmware_version : list Z) (blob : option (list Z))
  | GetChunk (chunk_index : Z)
  | ProgramAck (program_hash : list Z)
  | AppData (blob : list Z)
  | DiagRequest (diagnostic_type : Z).

Inductive CommandPayload : Type :=
  | Nop
  | UpdateProgram (program_hash : list Z) (program_size chunk_size chunk_count : Z)
  | RunEphemeral (program_hash : list Z) (program_size chunk_size chunk_count : Z)
  | UpdateSchedule (interval_s : Z)
  | Reboot.

Inductive GatewayMessage : Type :=
  | Command (starting_seq timestamp_ms : Z) (payload : CommandPayload) (blob : option (list Z))
  | Chunk (chunk_index : Z) (chunk_data : list Z)
  | AppDataReply (blob : list Z)
  | DiagReply (diagnostic_type rssi_dbm : Z).

Definition command_type (p : CommandPayload) : Z :=
  match p with
  | Nop => CMD_NOP
  | UpdateProgram _ _ _ _ => CMD_UPDATE_PROGRAM
  | RunEphemeral _ _ _ _ => CMD_RUN_EPHEMERAL
  | UpdateSchedule _ => CMD_UPDATE_SCHEDULE
  | Reboot => CMD_REBOOT
  end.

Definition node_msg_type (m : NodeMessage) : Z :=
  match m with
  | Wake _ _ _ _ _ => MSG_WAKE
  | GetChunk _ => MSG_GET_CHUNK
  | ProgramAck _ => MSG_PROGRAM_ACK
  | AppData _ => MSG_APP_DATA
  | DiagRequest _ => MSG_DIAG_REQUEST
  end.

Definition gateway_msg_type (m : GatewayMessage) : Z :=
  match m with
  | Command _ _ _ _ => MSG_COMMAND
  | Chunk _ _ => MSG_CHUNK
  | AppDataReply _ => MSG_APP_DATA_REPLY
  | DiagReply _ _ => MSG_DIAG_REPLY
  end.

(** ** Field access *)

Abbreviation Dec := (Res DecodeError).
Abbreviation Enc := (Res EncodeError).

(** [uW::try_from]. *)
Definition try_u (w x : Z) : option Z := if (0 <=? x) && (x <? 2 ^ w) then Some x else None.
Definition try_i (w x : Z) : option Z :=
  if (- 2 ^ (w - 1) <=? x) && (x <? 2 ^ (w - 1)) then Some x else None.

Section Codec.
Context {Value : Type} `{C : Cbor Value}.

Definition cbor_encode_map (pairs : list (Z * Value)) : Enc (list Z) :=
  map_err CborEncodeError
    (into_writer (VMap ((fun kv => (VInteger kv.1, kv.2)) <$> pairs))).

(** The integer-keyed entries of a map, in order; other keys are ignored. *)
Fixpoint decode_pairs (pairs : list (Value * Value)) : Dec (list (Z * Value)) :=
  match pairs with
  | [] => Ok []
  | (k, v) :: pairs' =>
      match as_integer k with
      | Some key =>
          let? key_u64 := ok_or (try_u 64 key) (CborDecodeError "negative CBOR key") in
          let? rest := decode_pairs pairs' in
          Ok ((key_u64, v) :: rest)
      | None => decode_pairs pairs'
      end
  end.

Definition cbor_decode_map (cbor : list Z) : Dec (list (Z * Value)) :=
  let? value := map_err CborDecodeError (from_reader cbor) in
  match as_map value with
  | Some pairs => decode_pairs pairs
  | None => Err (CborDecodeError "expected CBOR map")
  end.

(** [fields.iter().find(|(k, _)| *k == key)]. *)
Definition find_field (fields : list (Z * Value)) (key : Z) : option Value :=
  snd <$> find (fun kv => kv.1 =? key) fields.

Definition get_field (fields : list (Z * Value)) (key : Z) : Dec Value :=
  ok_or (find_field fields key) (MissingField key).

Definition get_uint (fields : list (Z * Value)) (key : Z) : Dec Z :=
  let? val := get_field fields key in
  ok_or (as_integer val ≫= try_u 64) (InvalidFieldType key).

Definition get_u32 (fields : list (Z * Value)) (key : Z) : Dec Z :=
  let? v := get_uint fields key in
  ok_or (try_u 32 v) (InvalidFieldType key).

Definition get_u8 (fields : list (Z * Value)) (key : Z) : Dec Z :=
  let? v := get_uint fields key in
  ok_or (try_u 8 v) (InvalidFieldType key).

Definition get_i8 (fields : list (Z * Value)) (key : Z) : Dec Z :=
  let? val := get_field fields key in
  let? i := ok_or (as_integer val) (InvalidFieldType key) in
  let? v := ok_or (try_i 64 i) (InvalidFieldType key) in
  ok_or (try_i 8 v) (InvalidFieldType key).

Definition get_bytes (fields : list (Z * Value)) (key : Z) : Dec (list Z) :=
  let? val := get_field fields key in
  ok_or (as_bytes val) (InvalidFieldType key).

Definition get_bytes_optional (fields : list (Z * Value)) (key : Z) : Dec (option (list Z)) :=
  match find_field fields key with
  | None => Ok None
  | Some val => ok_or (Some <$> as_bytes val) (InvalidFieldType key)
  end.

Definition is_ascii (s : list Z) : bool := forallb (fun c => c <? 128) s.

Definition get_string (fields : list (Z * Value)) (key : Z) : Dec (list Z) :=
  let? val := get_field fields key in
  match as_text val with
  | Some s => if (len s <=? MAX_STRING_FIELD_LEN) && is_ascii s then Ok s else Err (InvalidFieldType key)
  | None => Err (InvalidFieldType key)
  end.

(** Like [decode_pairs], except that a key outside [u64] is skipped too. *)
Definition decode_nested_map (fields : list (Z * Value)) (key : Z) : Dec (list (Z * Value)) :=
  let? val := get_field fields key in
  match as_map val with
  | Some pairs =>
      Ok (omap (fun kv => (fun k => (k, kv.2)) <$> (as_integer kv.1 ≫= try_u 64)) pairs)
  | None => Err (InvalidFieldType key)
  end.

(** ** Encoding *)

Definition node_pairs (m : NodeMessage) : list (Z * Value) :=
  match m with
  | Wake abi hash mv fw blob =>
      [(KEY_FIRMWARE_ABI_VERSION, VInteger abi); (KEY_PROGRAM_HASH, VBytes hash);
       (KEY_BATTERY_MV, VInteger mv)] ++
      match blob with Some b => [(KEY_BLOB, VBytes b)] | None => [] end ++
      [(KEY_FIRMWARE_VERSION, VText fw)]
  | GetChunk i => [(KEY_CHUNK_INDEX, VInteger i)]
  | ProgramAck hash => [(KEY_PROGRAM_HASH, VBytes hash)]
  | AppData b => [(KEY_BLOB, VBytes b)]
  | DiagRequest t => [(DIAG_KEY_DIAGNOSTIC_TYPE, VInteger t)]
  end.

Definition node_encode (m : NodeMessage) : Enc (list Z) := cbor_encode_map (node_pairs m).

(** The nested map of a command that has one. *)
Definition payload_val (p : CommandPayload) : option Value :=
  match p with
  | Nop | Reboot => None
  | UpdateProgram hash size csize count | RunEphemeral hash size csize count =>
      Some (VMap [(VInteger KEY_PROGRAM_HASH, VBytes hash); (VInteger KEY_PROGRAM_SIZE, VInteger size);
                  (VInteger KEY_CHUNK_SIZE, VInteger csize); (VInteger KEY_CHUNK_COUNT, VInteger count)])
  | UpdateSchedule s => Some (VMap [(VInteger KEY_INTERVAL_S, VInteger s)])
  end.

Definition is_nop (p : CommandPayload) : bool := match p with Nop => true | _ => false end.

(** A blob on a command other than NOP is a failed [debug_assert!], or is dropped
    when debug assertions are off. *)
Definition gateway_pairs (debug_assertions : bool) (m : GatewayMessage) : Enc (list (Z * Value)) :=
  match m with
  | Command seq ts payload blob =>
      let head := [(KEY_COMMAND_TYPE, VInteger (command_type payload))] ++
        match payload_val payload with Some pv => [(KEY_PAYLOAD, pv)] | None => [] end in
      let tail := [(KEY_STARTING_SEQ, VInteger seq); (KEY_TIMESTAMP_MS, VInteger ts)] in
      if is_nop payload then
        Ok (head ++ match blob with Some b => [(KEY_BLOB, VBytes b)] | None => [] end ++ tail)
      else if debug_assertions && bool_decide (is_Some blob) then Panic
      else Ok (head ++ tail)
  | Chunk i data => Ok [(KEY_CHUNK_INDEX, VInteger i); (KEY_CHUNK_DATA, VBytes data)]
  | AppDataReply b => Ok [(KEY_BLOB, VBytes b)]
  | DiagReply t r => Ok [(DIAG_KEY_DIAGNOSTIC_TYPE, VInteger t); (DIAG_KEY_RSSI_DBM, VInteger r)]
  end.

Definition gateway_encode (debug_assertions : bool) (m : GatewayMessage) : Enc (list Z) :=
  let? pairs := gateway_pairs debug_assertions m in
  cbor_encode_map pairs.

(** ** Decoding *)

Definition node_decode (msg_type : Z) (cbor : list Z) : Dec NodeMessage :=
  let? fields := cbor_decode_map cbor in
  if msg_type =? MSG_WAKE then
    let? abi := get_u32 fields KEY_FIRMWARE_ABI_VERSION in
    let? hash := get_bytes fields KEY_PROGRAM_HASH in
    let? mv := get_u32 fields KEY_BATTERY_MV in
    let? fw := get_string fields KEY_FIRMWARE_VERSION in
    let? blob := get_bytes_optional fields KEY_BLOB in
    Ok (Wake abi hash mv fw blob)
  else if msg_type =? MSG_GET_CHUNK then
    let? i := get_u32 fields KEY_CHUNK_INDEX in
    Ok (GetChunk i)
  else if msg_type =? MSG_PROGRAM_ACK then
    let? hash := get_bytes fields KEY_PROGRAM_HASH in
    Ok (ProgramAck hash)
  else if msg_type =? MSG_APP_DATA then
    let? b := get_bytes fields KEY_BLOB in
    Ok (AppData b)
  else if msg_type =? MSG_DIAG_REQUEST then
    let? t := get_u8 fields DIAG_KEY_DIAGNOSTIC_TYPE in
    Ok (DiagRequest t)
  else Err (InvalidMsgType msg_type).

Definition decode_payload (fields : list (Z * Value)) (ctype : Z) : Dec CommandPayload :=
  if (ctype =? CMD_NOP) || (ctype =? CMD_REBOOT) then
    Ok (if ctype =? CMD_REBOOT then Reboot else Nop)
  else if (ctype =? CMD_UPDATE_PROGRAM) || (ctype =? CMD_RUN_EPHEMERAL) then
    let? inner := decode_nested_map fields KEY_PAYLOAD in
    let? hash := get_bytes inner KEY_PROGRAM_HASH in
    let? size := get_u32 inner KEY_PROGRAM_SIZE in
    let? csize := get_u32 inner KEY_CHUNK_SIZE in
    let? count := get_u32 inner KEY_CHUNK_COUNT in
    Ok (if ctype =? CMD_UPDATE_PROGRAM then UpdateProgram hash size csize count
        else RunEphemeral hash size csize count)
  else if ctype =? CMD_UPDATE_SCHEDULE then
    let? inner := decode_nested_map fields KEY_PAYLOAD in
    let? s := get_u32 inner KEY_INTERVAL_S in
    Ok (UpdateSchedule s)
  else Err (InvalidCommandType ctype).

Definition gateway_decode (msg_type : Z) (cbor : list Z) : Dec GatewayMessage :=
  let? fields := cbor_decode_map cbor in
  if msg_type =? MSG_COMMAND then
    let? ctype := get_u8 fields KEY_COMMAND_TYPE in
    let? seq := get_uint fields KEY_STARTING_SEQ in
    let? ts := get_uint fields KEY_TIMESTAMP_MS in
    let? payload := decode_payload fields ctype in
    let? blob := if ctype =? CMD_NOP then get_bytes_optional fields KEY_BLOB else Ok None in
    Ok (Command seq ts payload blob)
  else if msg_type =? MSG_CHUNK then
    let? i := get_u32 fields KEY_CHUNK_INDEX in
    let? data := get_bytes fields KEY_CHUNK_DATA in
    Ok (Chunk i data)
  else if msg_type =? MSG_APP_DATA_REPLY then
    let? b := get_bytes fields KEY_BLOB in
    Ok (AppDataReply b)
  else if msg_type =? MSG_DIAG_REPLY then
    let? t := get_u8 fields DIAG_KEY_DIAGNOSTIC_TYPE in
    let? r := get_i8 fields DIAG_KEY_RSSI_DBM in
    Ok (DiagReply t r)
  else Err (InvalidMsgType msg_type).
End Codec.

(** ** Well-formed messages *)

Definition node_msg_ok (m : NodeMessage) : Prop :=
  match m with
  | Wake abi _ mv fw _ =>
      uN 32 abi /\ uN 32 mv /\ len fw <= MAX_STRING_FIELD_LEN /\ is_ascii fw = true
  | GetChunk i => uN 32 i
  | DiagRequest t => uN 8 t
  | _ => True
  end.

Definition payload_ok (p : CommandPayload) : Prop :=
  match p with
  | UpdateProgram _ size csize count | RunEphemeral _ size csize count =>
      uN 32 size /\ uN 32 csize /\ uN 32 count
  | UpdateSchedule s => uN 32 s
  | _ => True
  end.

Definition gateway_msg_ok (m : GatewayMessage) : Prop :=
  match m with
  | Command seq ts p blob => uN 64 seq /\ uN 64 ts /\ payload_ok p /\ (p = Nop \/ blob = None)
  | Chunk i _ => uN 32 i
  | DiagReply t r => uN 8 t /\ iN 8 r
  | AppDataReply _ => True
  end.

(** ** Round trips *)

Lemma try_u_Some w x : uN w x -> try_u w x = Some x.
Proof.
  intros [H0 H1]. unfold try_u. by rewrite (proj2 (Z.leb_le _ _) H0), (proj2 (Z.ltb_lt _ _) H1).
Qed.

Lemma try_i_Some w x : iN w x -> try_i w x = Some x.
Proof.
  intros [H0 H1]. unfold try_i. by rewrite (proj2 (Z.leb_le _ _) H0), (proj2 (Z.ltb_lt _ _) H1).
Qed.

Section Proofs.
Context {Value : Type} {C : Cbor Value} {L : CborLaws C}.

Lemma decode_pairs_encode (pairs : list (Z * Value)) :
  Forall (fun kv => uN 64 kv.1) pairs ->
  decode_pairs ((fun kv => (VInteger kv.1, kv.2)) <$> pairs) = Ok pairs.
Proof using L.
  induction 1 as [|[k v] pairs Hk _ IH]; [done|].
  rewrite fmap_cons. cbn [decode_pairs fst snd] in *. by rewrite as_integer_eq, try_u_Some, IH.
Qed.

Lemma cbor_map_roundtrip (pairs : list (Z * Value)) b :
  Forall (fun kv => uN 64 kv.1) pairs -> cbor_encode_map pairs = Ok b -> cbor_decode_map b = Ok pairs.
Proof using L.
  intros Hk. unfold cbor_encode_map, cbor_decode_map.
  destruct (into_writer _) as [b'| | |] eqn:E; try done. intros [= ->].
  rewrite (reader_writer _ _ E). cbn [map_err res_bind]. rewrite as_map_eq. by apply decode_pairs_encode.
Qed.

(** Reads a field of a literal list of fields. *)
Lemma get_uint_eq (fields : list (Z * Value)) k x :
  find_field fields k = Some (VInteger x) -> uN 64 x -> get_uint fields k = Ok x.
Proof using L.
  intros Hf Hx. unfold get_uint, get_field. rewrite Hf. simpl. by rewrite as_integer_eq; simpl; rewrite try_u_Some.
Qed.

Lemma get_u32_eq (fields : list (Z * Value)) k x :
  find_field fields k = Some (VInteger x) -> uN 32 x -> get_u32 fields k = Ok x.
Proof using L.
  intros Hf Hx. unfold get_u32. rewrite (get_uint_eq _ _ x Hf) by (by apply (uN_weaken 32)). simpl.
  by rewrite try_u_Some.
Qed.

Lemma get_u8_eq (fields : list (Z * Value)) k x :
  find_field fields k = Some (VInteger x) -> uN 8 x -> get_u8 fields k = Ok x.
Proof using L.
  intros Hf Hx. unfold get_u8. rewrite (get_uint_eq _ _ x Hf) by (by apply (uN_weaken 8)). simpl.
  by rewrite try_u_Some.
Qed.

Lemma get_i8_eq (fields : list (Z * Value)) k x :
  find_field fields k = Some (VInteger x) -> iN 8 x -> get_i8 fields k = Ok x.
Proof using L.
  intros Hf Hx. unfold get_i8, get_field. rewrite Hf. simpl. rewrite as_integer_eq. simpl.
  rewrite try_i_Some by (unfold iN in *; lia). simpl. by rewrite try_i_Some.
Qed.

Lemma get_bytes_eq (fields : list (Z * Value)) k b :
  find_field fields k = Some (VBytes b) -> get_bytes fields k = Ok b.
Proof using L. intros Hf. unfold get_bytes, get_field. rewrite Hf. simpl. by rewrite as_bytes_eq. Qed.

Lemma get_bytes_optional_eq (fields : list (Z * Value)) k o :
  find_field fields k = VBytes <$> o -> get_bytes_optional fields k = Ok o.
Proof using L.
  intros Hf. unfold get_bytes_optional. rewrite Hf. destruct o; simpl; [by rewrite as_bytes_eq|done].
Qed.

Lemma get_string_eq (fields : list (Z * Value)) k s :
  find_field fields k = Some (VText s) -> len s <= MAX_STRING_FIELD_LEN -> is_ascii s = true ->
  get_string fields k = Ok s.
Proof using L.
  intros Hf Hl Ha. unfold get_string, get_field. rewrite Hf. simpl. rewrite as_text_eq, Ha.
  by rewrite (proj2 (Z.leb_le _ _) Hl).
Qed.

(** The keys of every message fit. *)
Ltac keys_ok := repeat (apply Forall_cons_iff; split; [split; discriminate || reflexivity|]); constructor.

Lemma node_keys m : Forall (fun kv => uN 64 kv.1) (node_pairs m).
Proof using Type. destruct m as [? ? ? ? [b|]| | | |]; simpl; keys_ok. Qed.

(** Decides the comparisons of literal codes. *)
Ltac pick :=
  repeat match goal with
  | |- context [?a =? ?b] => let v := eval vm_compute in (a =? b) in change (a =? b) with v
  end; cbn [orb]; cbv iota.

Lemma node_roundtrip m b :
  node_msg_ok m -> node_encode m = Ok b -> node_decode (node_msg_type m) b = Ok m.
Proof using L.
  intros Hok Henc. apply cbor_map_roundtrip in Henc; [|apply node_keys].
  unfold node_decode. rewrite Henc. cbn [res_bind].
  destruct m as [abi hash mv fw blob|i|hash|bl|t]; cbn [node_msg_type node_pairs node_msg_ok] in *.
  - destruct Hok as (H1 & H2 & H3 & H4). pick.
    rewrite (get_u32_eq _ _ abi), (get_bytes_eq _ _ hash), (get_u32_eq _ _ mv), (get_string_eq _ _ fw),
      (get_bytes_optional_eq _ _ blob); by destruct blob.
  - pick. by rewrite (get_u32_eq _ _ i).
  - pick. by rewrite (get_bytes_eq _ _ hash).
  - pick. by rewrite (get_bytes_eq _ _ bl).
  - pick. by rewrite (get_u8_eq _ _ t).
Qed.

Lemma gateway_keys da m pairs :
  gateway_pairs da m = Ok pairs -> Forall (fun kv => uN 64 kv.1) pairs.
Proof using Type.
  destruct m as [? ? p blob| | |]; simpl; [|intros [= <-]; keys_ok..].
  destruct p; simpl; repeat case_match; intros [= <-]; simpl; keys_ok.
Qed.

(** The nested map of a command reads back. *)
Lemma nested_fields (fields : list (Z * Value)) k l :
  find_field fields k = Some (VMap ((fun kv => (VInteger kv.1, kv.2)) <$> l)) ->
  Forall (fun kv => uN 64 kv.1) l -> decode_nested_map fields k = Ok l.
Proof using L.
  intros Hf Hl. unfold decode_nested_map, get_field. rewrite Hf. simpl. rewrite as_map_eq. f_equal.
  clear Hf. induction Hl as [|[k' v] l Hk _ IH]; [done|].
  rewrite fmap_cons. cbn [omap list_omap fst snd] in *. rewrite as_integer_eq. simpl.
  rewrite try_u_Some by done. simpl. f_equal. exact IH.
Qed.

Lemma decode_payload_eq (fields : list (Z * Value)) p :
  payload_ok p -> find_field fields KEY_PAYLOAD = payload_val p ->
  decode_payload fields (command_type p) = Ok p.
Proof using L.
  intros Hok Hf. unfold decode_payload.
  destruct p as [|hash size csize count|hash size csize count|s|]; cbn [command_type payload_ok payload_val] in *;
    pick; try done.
  - rewrite (nested_fields _ _ [(KEY_PROGRAM_HASH, VBytes hash); (KEY_PROGRAM_SIZE, VInteger size);
      (KEY_CHUNK_SIZE, VInteger csize); (KEY_CHUNK_COUNT, VInteger count)]) by (done || keys_ok).
    cbn [res_bind]. destruct Hok as (H1 & H2 & H3).
    by rewrite (get_bytes_eq _ _ hash), (get_u32_eq _ _ size), (get_u32_eq _ _ csize), (get_u32_eq _ _ count).
  - rewrite (nested_fields _ _ [(KEY_PROGRAM_HASH, VBytes hash); (KEY_PROGRAM_SIZE, VInteger size);
      (KEY_CHUNK_SIZE, VInteger csize); (KEY_CHUNK_COUNT, VInteger count)]) by (done || keys_ok).
    cbn [res_bind]. destruct Hok as (H1 & H2 & H3).
    by rewrite (get_bytes_eq _ _ hash), (get_u32_eq _ _ size), (get_u32_eq _ _ csize), (get_u32_eq _ _ count).
  - rewrite (nested_fields _ _ [(KEY_INTERVAL_S, VInteger s)]) by (done || keys_ok).
    cbn [res_bind]. by rewrite (get_u32_eq _ _ s).
Qed.

Lemma gateway_roundtrip da m b :
  gateway_msg_ok m -> gateway_encode da m = Ok b -> gateway_decode (gateway_msg_type m) b = Ok m.
Proof using L.
  intros Hok Henc. unfold gateway_encode in Henc. apply res_bind_Ok in Henc as (pairs & Hp & Henc).
  apply cbor_map_roundtrip in Henc; [|by eapply gateway_keys].
  unfold gateway_decode. rewrite Henc. cbn [res_bind]. clear Henc.
  destruct m as [seq ts p blob|i data|bl|t r]; cbn [gateway_msg_type gateway_msg_ok] in *.
  - destruct Hok as (H1 & H2 & H3 & H4). pick. simpl in Hp.
    assert (Ht : find_field pairs KEY_COMMAND_TYPE = Some (VInteger (command_type p)))
      by (destruct p; simpl in Hp; repeat case_match; simplify_eq; reflexivity).
    assert (Hs : find_field pairs KEY_STARTING_SEQ = Some (VInteger seq))
      by (destruct p, blob; simpl in Hp; repeat case_match; simplify_eq; reflexivity).
    assert (Hts : find_field pairs KEY_TIMESTAMP_MS = Some (VInteger ts))
      by (destruct p, blob; simpl in Hp; repeat case_match; simplify_eq; reflexivity).
    rewrite (get_u8_eq _ _ (command_type p)) by (done || by destruct p). cbn [res_bind].
    rewrite (get_uint_eq _ _ seq), (get_uint_eq _ _ ts) by done. cbn [res_bind].
    rewrite decode_payload_eq; [|done|destruct p, blob; simpl in Hp; repeat case_match; simplify_eq; reflexivity].
    cbn [res_bind].
    destruct p; cbn [command_type]; pick; try (by destruct H4 as [?| ->]).
    rewrite (get_bytes_optional_eq _ _ blob); [done|].
    simpl in Hp. destruct blob; simplify_eq; reflexivity.
  - pick. injection Hp as <-. by rewrite (get_u32_eq _ _ i), (get_bytes_eq _ _ data).
  - pick. injection Hp as <-. by rewrite (get_bytes_eq _ _ bl).
  - pick. injection Hp as <-. destruct Hok. by rewrite (get_u8_eq _ _ t), (get_i8_eq _ _ r).
Qed.
End Proofs.

(** ** Theorems *)

Section Theorems.
Context {Value : Type} (C : Cbor Value) (L : CborLaws C).
Context (S : Sha256Provider) (A : AeadProvider) (HA : AeadLaws A).

(** A node's message, framed with any key hint and nonce, sent and opened. *)
Lemma node_message_sent m cbor kh nonce psk :
  node_msg_ok m -> uN 16 kh -> uN 64 nonce ->
  node_encode m = Ok cbor -> len cbor <= MAX_PAYLOAD_SIZE ->
  exists raw f, encode_frame (mkHeader kh (node_msg_type m) nonce) cbor psk = Ok raw /\
    decode_frame raw = Ok f /\
    (let? payload := open_frame f psk in node_decode (h_msg_type (header f)) payload) = Ok m.
Proof.
  intros Hm Hk Hn Henc Hl.
  destruct (encode_decode_open S A HA (mkHeader kh (node_msg_type m) nonce) cbor psk)
    as (raw & f & H1 & _ & H2 & H3 & H4); [|done|].
  { split_and!; [done| |done]. destruct m; split; discriminate || reflexivity. }
  exists raw, f. split_and!; [done..|]. rewrite H4, H3. by apply node_roundtrip.
Qed.

(** The same for a message of the gateway. *)
Lemma gateway_message_sent da m cbor kh nonce psk :
  gateway_msg_ok m -> uN 16 kh -> uN 64 nonce ->
  gateway_encode da m = Ok cbor -> len cbor <= MAX_PAYLOAD_SIZE ->
  exists raw f, encode_frame (mkHeader kh (gateway_msg_type m) nonce) cbor psk = Ok raw /\
    decode_frame raw = Ok f /\
    (let? payload := open_frame f psk in gateway_decode (h_msg_type (header f)) payload) = Ok m.
Proof.
  intros Hm Hk Hn Henc Hl.
  destruct (encode_decode_open S A HA (mkHeader kh (gateway_msg_type m) nonce) cbor psk)
    as (raw & f & H1 & _ & H2 & H3 & H4); [|done|].
  { split_and!; [done| |done]. destruct m; split; discriminate || reflexivity. }
  exists raw, f. split_and!; [done..|]. rewrite H4, H3. by eapply gateway_roundtrip.
Qed.

(** C35: messages reach the other side intact, end to end.  When a node's message, or
    a command, chunk or reply of the gateway, encodes to at most [MAX_PAYLOAD_SIZE]
    bytes of CBOR, the frame built from it with any key hint and nonce decodes, opens
    under the same key and parses, with the message type taken from the authenticated
    header, to the same message.  A blob on a command other than NOP is not carried (a
    debug build panics on it), so it is excluded by [gateway_msg_ok]. *)
Theorem messages_end_to_end nm gm da ncbor gcbor kh nonce psk :
  node_msg_ok nm -> gateway_msg_ok gm -> uN 16 kh -> uN 64 nonce ->
  node_encode nm = Ok ncbor -> gateway_encode da gm = Ok gcbor -> len ncbor <= MAX_PAYLOAD_SIZE -> len gcbor <= MAX_PAYLOAD_SIZE ->
  (exists raw f, encode_frame (mkHeader kh (node_msg_type nm) nonce) ncbor psk = Ok raw /\ decode_frame raw = Ok f /\
     (let? payload := open_frame f psk in node_decode (h_msg_type (header f)) payload) = Ok nm) /\
  (exists raw f, encode_frame (mkHeader kh (gateway_msg_type gm) nonce) gcbor psk = Ok raw /\ decode_frame raw = Ok f /\
     (let? payload := open_frame f psk in gateway_decode (h_msg_type (header f)) payload) = Ok gm).
Proof. intros Hn Hg Hk Ho En Eg Ln Lg. split; [by apply node_message_sent|by eapply gateway_message_sent]. Qed.
End Theorems.
