(* ===== verification/BoardLayout.v ===== *)
(** * The layout of a node's board

    [sonde-protocol/src/board_layout.rs]: which pins of the node carry what, its
    validation and its CBOR form. *)

From Stdlib Require Import String.
From S2P Require Import Prelude Frame Messages.
Open Scope list_scope.
Open Scope Z_scope.

(** ** More of the CBOR library *)

(** The null value, and [from_reader] on a mutable slice: one value is read off its
    front and the slice is advanced. *)
Class CborStream {Value : Type} (C : Cbor Value) : Type := {
  VNull : Value;
  is_null : Value -> bool;
  read_front : list Z -> Res string (Value * list Z)
}.

Class CborStreamLaws {Value} {C : Cbor Value} (CS : CborStream C) : Prop := {
  null_is_null : is_null VNull = true;
  integer_not_null : forall z, is_null (VInteger z) = false;
  bytes_not_null : forall b, is_null (VBytes b) = false;
  text_not_null : forall b, is_null (VText b) = false;
  null_not_array : as_array VNull = None;
  front_writer : forall v b rest, into_writer v = Ok b -> read_front (b ++ rest) = Ok (v, rest)
}.

(** ** Layouts *)

(** Pin numbers, [u8]. *)
Record BoardLayout := mkBoard {
  i2c0_sda : option Z;
  i2c0_scl : option Z;
  one_wire_data : option Z;
  battery_adc : option Z;
  sensor_enable : option Z
}.

#[export] Instance board_layout_eq : EqDecision BoardLayout.
Proof. solve_decision. Defined.

Definition LEGACY_COMPAT : BoardLayout := mkBoard (Some 0) (Some 1) None None None.

Definition BOARD_LAYOUT_KEY_I2C0_SDA : Z := 1.
Definition BOARD_LAYOUT_KEY_I2C0_SCL : Z := 2.
Definition BOARD_LAYOUT_KEY_ONE_WIRE_DATA : Z := 3.
Definition BOARD_LAYOUT_KEY_BATTERY_ADC : Z := 4.
Definition BOARD_LAYOUT_KEY_SENSOR_ENABLE : Z := 5.

Definition MAX_GPIO : Z := 21.

Definition validate_gpio (pin : option Z) (field : string) : Res string unit :=
  match pin with
  | Some value => if value >? MAX_GPIO then Err (field ++ " must be in GPIO range 0-21")%string else Ok tt
  | None => Ok tt
  end.

Definition validate (l : BoardLayout) : Res string unit :=
  let? _ := validate_gpio (i2c0_sda l) "i2c0_sda" in
  let? _ := validate_gpio (i2c0_scl l) "i2c0_scl" in
  let? _ := validate_gpio (one_wire_data l) "one_wire_data" in
  let? _ := validate_gpio (battery_adc l) "battery_adc" in
  let? _ := validate_gpio (sensor_enable l) "sensor_enable" in
  match i2c0_sda l, i2c0_scl l with
  | Some sda, Some scl => if sda =? scl then Err "i2c0_sda and i2c0_scl must be different pins"%string else Ok tt
  | Some _, None | None, Some _ => Err "i2c0_sda and i2c0_scl must both be assigned or both be unassigned"%string
  | None, None => Ok tt
  end.

Section Codec.
Context {Value : Type} `{C : Cbor Value} `{CS : !CborStream C}.

Definition value_for_pin (pin : option Z) : Value :=
  match pin with Some p => VInteger p | None => VNull end.

Definition decode_pin (v : Value) (field : string) : Dec (option Z) :=
  if is_null v then Ok None else
  match as_integer v ≫= try_u 8 with
  | Some p => Ok (Some p)
  | None => Err (InvalidDecodeParameter (field ++ " must be uint or null"))
  end.

Definition encode_board_layout_cbor (l : BoardLayout) : Enc (list Z) :=
  let? _ := map_err InvalidEncodeParameter (validate l) in
  map_err CborEncodeError (into_writer (VMap
    [(VInteger BOARD_LAYOUT_KEY_I2C0_SDA, value_for_pin (i2c0_sda l));
     (VInteger BOARD_LAYOUT_KEY_I2C0_SCL, value_for_pin (i2c0_scl l));
     (VInteger BOARD_LAYOUT_KEY_ONE_WIRE_DATA, value_for_pin (one_wire_data l));
     (VInteger BOARD_LAYOUT_KEY_BATTERY_ADC, value_for_pin (battery_adc l));
     (VInteger BOARD_LAYOUT_KEY_SENSOR_ENABLE, value_for_pin (sensor_enable l))])).

(** The five variables of the decoder: not seen, or seen with a pin or none. *)
Record BoardAcc := mkBoardAcc {
  ba_sda : option (option Z);
  ba_scl : option (option Z);
  ba_one_wire : option (option Z);
  ba_battery : option (option Z);
  ba_enable : option (option Z)
}.

Definition board_field (a : BoardAcc) (key : Z) (v : Value) : Dec BoardAcc :=
  if key =? BOARD_LAYOUT_KEY_I2C0_SDA then
    let? p := decode_pin v "i2c0_sda" in Ok (mkBoardAcc (Some p) (ba_scl a) (ba_one_wire a) (ba_battery a) (ba_enable a))
  else if key =? BOARD_LAYOUT_KEY_I2C0_SCL then
    let? p := decode_pin v "i2c0_scl" in Ok (mkBoardAcc (ba_sda a) (Some p) (ba_one_wire a) (ba_battery a) (ba_enable a))
  else if key =? BOARD_LAYOUT_KEY_ONE_WIRE_DATA then
    let? p := decode_pin v "one_wire_data" in Ok (mkBoardAcc (ba_sda a) (ba_scl a) (Some p) (ba_battery a) (ba_enable a))
  else if key =? BOARD_LAYOUT_KEY_BATTERY_ADC then
    let? p := decode_pin v "battery_adc" in Ok (mkBoardAcc (ba_sda a) (ba_scl a) (ba_one_wire a) (Some p) (ba_enable a))
  else if key =? BOARD_LAYOUT_KEY_SENSOR_ENABLE then
    let? p := decode_pin v "sensor_enable" in Ok (mkBoardAcc (ba_sda a) (ba_scl a) (ba_one_wire a) (ba_battery a) (Some p))
  else Ok a.

Fixpoint board_fields (fields : list (Value * Value)) (a : BoardAcc) : Dec BoardAcc :=
  match fields with
  | [] => Ok a
  | (k, v) :: fields' =>
      let? key := ok_or (as_integer k ≫= try_u 64) (InvalidDecodeParameter "board_layout key must be an unsigned integer") in
      let? a := board_field a key v in
      board_fields fields' a
  end.

Definition missing (field : string) : DecodeError := InvalidDecodeParameter ("board_layout missing " ++ field).

Definition decode_board_layout_cbor (data : list Z) : Dec BoardLayout :=
  let? '(value, remaining) := map_err CborDecodeError (read_front data) in
  if negb (bool_decide (remaining = [])) then Err (InvalidDecodeParameter "board_layout has trailing bytes") else
  let? m := ok_or (as_map value) (InvalidDecodeParameter "board_layout must be a CBOR map") in
  let? a := board_fields m (mkBoardAcc None None None None None) in
  let? sda := ok_or (ba_sda a) (missing "i2c0_sda") in
  let? scl := ok_or (ba_scl a) (missing "i2c0_scl") in
  let? one_wire := ok_or (ba_one_wire a) (missing "one_wire_data") in
  let? battery := ok_or (ba_battery a) (missing "battery_adc") in
  let? enable := ok_or (ba_enable a) (missing "sensor_enable") in
  let layout := mkBoard sda scl one_wire battery enable in
  let? _ := map_err InvalidDecodeParameter (validate layout) in
  Ok layout.
End Codec.

(** ** Round trip *)

Definition pin_ok (p : option Z) : Prop := match p with Some v => uN 8 v | None => True end.
Definition pins_ok (l : BoardLayout) : Prop :=
  pin_ok (i2c0_sda l) /\ pin_ok (i2c0_scl l) /\ pin_ok (one_wire_data l) /\ pin_ok (battery_adc l) /\ pin_ok (sensor_enable l).

Section Laws.
Context {Value : Type} `{C : Cbor Value} `{L : !CborLaws C} `{CS : !CborStream C} `{CL : !CborStreamLaws CS}.

Lemma decode_value_for_pin p field : pin_ok p -> decode_pin (value_for_pin p) field = Ok p.
Proof using L CL.
  unfold decode_pin. destruct p as [v|]; simpl; intros Hp; [|by rewrite null_is_null].
  rewrite integer_not_null, as_integer_eq. simpl. by rewrite try_u_Some.
Qed.

(** A layout the encoder accepts is read back as it was. *)
Lemma board_layout_roundtrip l b :
  pins_ok l -> encode_board_layout_cbor l = Ok b -> decode_board_layout_cbor b = Ok l.
Proof using L CL.
  intros (H1 & H2 & H3 & H4 & H5). unfold encode_board_layout_cbor. destruct (validate l) as [[]| | |] eqn:Hv; simpl; try done.
  destruct (into_writer _) as [b'| | |] eqn:Hw; simpl; try done. intros [= <-].
  unfold decode_board_layout_cbor. rewrite <- (app_nil_r b'), (front_writer _ _ [] Hw). simpl.
  rewrite as_map_eq. simpl. rewrite !as_integer_eq. unfold board_field. simpl.
  rewrite !decode_value_for_pin by done. simpl. destruct l. simpl in *. by rewrite Hv.
Qed.
End Laws.
