(* ===== verification/BleEnvelope.v ===== *)
(** * Messages over Bluetooth

    [sonde-protocol/src/ble_envelope.rs]: the envelope of every message between
    the phone, a node and the gateway, and the bodies of the radio test a node runs
    before it is provisioned.  The field accessors of that file are those of
    [messages.rs], letter for letter, and are shared with [Messages]; its reader of
    maps is stricter and has its own definition. *)

From Stdlib Require Import String.
From S2P Require Import Prelude Frame Messages BoardLayout.
Open Scope list_scope.
Open Scope Z_scope.

(** ** Constants *)

Definition BLE_NODE_PROVISION : Z := 0x01.
Definition BLE_RUN_TEST_COMMAND : Z := 0x02.
Definition BLE_READ_TEST_RESULT : Z := 0x03.
Definition BLE_NODE_ACK : Z := 0x81.
Definition BLE_RUN_TEST_ACK : Z := 0x82.
Definition BLE_TEST_RESULT : Z := 0x83.
Definition BLE_ERROR : Z := 0xFF.

Definition TEST_CMD_KEY_TEST_TYPE : Z := 1.
Definition TEST_CMD_KEY_RF_CHANNEL : Z := 2.
Definition TEST_CMD_KEY_PAYLOAD : Z := 3.

Definition TEST_RESULT_KEY_STATUS : Z := 1.
Definition TEST_RESULT_KEY_TEST_TYPE : Z := 2.
Definition TEST_RESULT_KEY_REPLY_FRAME : Z := 3.
Definition TEST_RESULT_KEY_REPLY_RSSI_DBM : Z := 4.
Definition TEST_RESULT_KEY_ATTEMPT_COUNT : Z := 5.
Definition TEST_RESULT_KEY_ELAPSED_MS : Z := 6.

Definition TEST_TYPE_DIAG_FRAME : Z := 0x01.

Definition RUN_TEST_ACK_OK : Z := 0x00.
Definition RUN_TEST_ACK_INVALID : Z := 0x01.
Definition RUN_TEST_ACK_UNSUPPORTED : Z := 0x02.

Definition TEST_RESULT_OK : Z := 0x00.
Definition TEST_RESULT_TIMEOUT : Z := 0x01.
Definition TEST_RESULT_NO_RESULT : Z := 0x02.
Definition TEST_RESULT_EXECUTION_ERROR : Z := 0x03.

(** [(1..=13).contains(&c)]. *)
Definition channel_in_range (c : Z) : bool := (1 <=? c) && (c <=? 13).

(** ** Data *)

Record RunTestCommand := mkRunTest {
  rt_type : Z;
  rt_channel : option Z;
  rt_payload : list Z
}.

Record TestResult := mkTestResult {
  tr_status : Z;
  tr_type : option Z;
  tr_reply : option (list Z);
  tr_rssi : option Z;
  tr_attempts : Z;
  tr_elapsed : Z
}.

#[export] Instance run_test_eq : EqDecision RunTestCommand.
Proof. solve_decision. Defined.
#[export] Instance test_result_eq : EqDecision TestResult.
Proof. solve_decision. Defined.

(** ** The envelope: type, length, body *)

Definition parse_ble_envelope (data : list Z) : option (Z * list Z) :=
  match data with
  | msg_type :: hi :: lo :: body => if len body =? from_be_bytes [hi; lo] then Some (msg_type, body) else None
  | _ => None
  end.

Definition encode_ble_envelope (msg_type : Z) (body : list Z) : option (list Z) :=
  if len body >? 2 ^ 16 - 1 then None else Some ([msg_type] ++ to_be_bytes 2 (len body) ++ body).

(** ** Bodies *)

(** [sort_unstable_by_key], on lists without equal keys. *)
Fixpoint insert_by_key {V} (kv : Z * V) (l : list (Z * V)) : list (Z * V) :=
  match l with
  | [] => [kv]
  | kv' :: l' => if kv.1 <=? kv'.1 then kv :: l else kv' :: insert_by_key kv l'
  end.
Definition sort_by_key {V} (l : list (Z * V)) : list (Z * V) := foldr insert_by_key [] l.

Section Codec.
Context {Value : Type} `{C : Cbor Value} `{CS : !CborStream C}.

Definition encode_sorted_map (pairs : list (Z * Value)) : Enc (list Z) :=
  map_err CborEncodeError
    (into_writer (VMap ((fun kv => (VInteger kv.1, kv.2)) <$> sort_by_key pairs))).

Fixpoint unique_keys (m : list (Value * Value)) (decoded : list (Z * Value)) : Dec (list (Z * Value)) :=
  match m with
  | [] => Ok decoded
  | (k, v) :: m' =>
      match as_integer k ≫= try_u 64 with
      | None => Err (InvalidDecodeParameter "BLE test message key must be unsigned integer")
      | Some key =>
          if existsb (fun kv => kv.1 =? key) decoded
          then Err (InvalidDecodeParameter "duplicate BLE test message key")
          else unique_keys m' (decoded ++ [(key, v)])
      end
  end.

Definition decode_strict_map (data : list Z) : Dec (list (Z * Value)) :=
  let? '(value, remaining) := map_err CborDecodeError (read_front data) in
  if negb (bool_decide (remaining = [])) then Err TooLong else
  let? m := ok_or (as_map value) (CborDecodeError "expected CBOR map") in
  unique_keys m [].

Definition get_optional_uint (fields : list (Z * Value)) (key : Z) : Dec (option Z) :=
  match find_field fields key with
  | None => Ok None
  | Some v => ok_or (Some <$> (as_integer v ≫= try_u 64)) (InvalidFieldType key)
  end.

Definition get_optional_i8 (fields : list (Z * Value)) (key : Z) : Dec (option Z) :=
  match find_field fields key with
  | None => Ok None
  | Some v =>
      let? i := ok_or (as_integer v) (InvalidFieldType key) in
      let? i := ok_or (try_i 64 i) (InvalidFieldType key) in
      ok_or (Some <$> try_i 8 i) (InvalidFieldType key)
  end.

Definition encode_run_test_command (ty : Z) (ch : option Z) (p : list Z) : Enc (list Z) :=
  if len p >? MAX_FRAME_SIZE then Err FrameTooLarge else
  let? _ :=
    if ty =? TEST_TYPE_DIAG_FRAME then
      let? c := ok_or ch (InvalidEncodeParameter "DIAG_FRAME requires rf_channel") in
      if negb (channel_in_range c) then Err (InvalidEncodeParameter "DIAG_FRAME rf_channel out of range 1-13")
      else if bool_decide (p = []) then Err (InvalidEncodeParameter "DIAG_FRAME payload must not be empty")
      else Ok tt
    else Ok tt in
  encode_sorted_map ([(TEST_CMD_KEY_TEST_TYPE, VInteger ty)] ++
    match ch with Some c => [(TEST_CMD_KEY_RF_CHANNEL, VInteger c)] | None => [] end ++
    [(TEST_CMD_KEY_PAYLOAD, VBytes p)]).

Definition decode_run_test_command (body : list Z) : Dec RunTestCommand :=
  let? fields := decode_strict_map body in
  let? ty := get_uint fields TEST_CMD_KEY_TEST_TYPE in
  let? p := get_bytes fields TEST_CMD_KEY_PAYLOAD in
  if len p >? MAX_FRAME_SIZE then Err (InvalidDecodeParameter "test payload too large") else
  let? channel := get_optional_uint fields TEST_CMD_KEY_RF_CHANNEL in
  let? ch := match channel with
             | None => Ok None
             | Some c => ok_or (Some <$> try_u 8 c) (InvalidFieldType TEST_CMD_KEY_RF_CHANNEL)
             end in
  let? _ :=
    if ty =? TEST_TYPE_DIAG_FRAME then
      let? c := ok_or ch (MissingField TEST_CMD_KEY_RF_CHANNEL) in
      if negb (channel_in_range c) then Err (InvalidDecodeParameter "DIAG_FRAME rf_channel out of range 1-13")
      else if bool_decide (p = []) then Err (InvalidDecodeParameter "DIAG_FRAME payload must not be empty")
      else if len p >? MAX_FRAME_SIZE then Err (InvalidDecodeParameter "DIAG_FRAME payload too large")
      else Ok tt
    else Ok tt in
  Ok (mkRunTest ty ch p).

Definition encode_run_test_ack (status : Z) : Enc (list Z) := Ok [status].

Definition decode_run_test_ack (body : list Z) : Dec Z :=
  match body with
  | [] => Err TooShort
  | [b] => Ok b
  | _ => Err TooLong
  end.

Definition encode_read_test_result : list Z := [].

Definition decode_read_test_result (body : list Z) : Dec unit :=
  if bool_decide (body = []) then Ok tt else Err TooLong.

Definition validate_test_result (r : TestResult) : Enc unit :=
  let? _ :=
    if tr_status r =? TEST_RESULT_OK then
      if bool_decide (tr_reply r = None)
      then Err (InvalidEncodeParameter "successful TEST_RESULT requires reply_frame") else Ok tt
    else if bool_decide (is_Some (tr_reply r)) || bool_decide (is_Some (tr_rssi r))
    then Err (InvalidEncodeParameter "non-success TEST_RESULT must not include reply fields") else Ok tt in
  if negb (tr_status r =? TEST_RESULT_NO_RESULT) && bool_decide (tr_type r = None)
  then Err (InvalidEncodeParameter "TEST_RESULT missing test_type") else
  match tr_reply r with
  | Some f =>
      if bool_decide (f = []) then Err (InvalidEncodeParameter "reply_frame must not be empty when present")
      else if len f >? MAX_FRAME_SIZE then Err FrameTooLarge else Ok tt
  | None => Ok tt
  end.

Definition opt_field {A} (key : Z) (mk : A -> Value) (o : option A) : list (Z * Value) :=
  match o with Some a => [(key, mk a)] | None => [] end.

Definition encode_test_result (r : TestResult) : Enc (list Z) :=
  let? _ := validate_test_result r in
  encode_sorted_map ([(TEST_RESULT_KEY_STATUS, VInteger (tr_status r))] ++
    opt_field TEST_RESULT_KEY_TEST_TYPE VInteger (tr_type r) ++
    opt_field TEST_RESULT_KEY_REPLY_FRAME VBytes (tr_reply r) ++
    opt_field TEST_RESULT_KEY_REPLY_RSSI_DBM VInteger (tr_rssi r) ++
    [(TEST_RESULT_KEY_ATTEMPT_COUNT, VInteger (tr_attempts r))] ++
    [(TEST_RESULT_KEY_ELAPSED_MS, VInteger (tr_elapsed r))]).

Definition decode_test_result (body : list Z) : Dec TestResult :=
  let? fields := decode_strict_map body in
  let? status := get_u8 fields TEST_RESULT_KEY_STATUS in
  let? ty := get_optional_uint fields TEST_RESULT_KEY_TEST_TYPE in
  let? reply := get_bytes_optional fields TEST_RESULT_KEY_REPLY_FRAME in
  let? rssi := get_optional_i8 fields TEST_RESULT_KEY_REPLY_RSSI_DBM in
  let? attempts := get_uint fields TEST_RESULT_KEY_ATTEMPT_COUNT in
  let? ms := get_uint fields TEST_RESULT_KEY_ELAPSED_MS in
  let? _ :=
    if status =? TEST_RESULT_OK then
      if bool_decide (reply = None)
      then Err (InvalidDecodeParameter "successful TEST_RESULT missing reply_frame") else Ok tt
    else if bool_decide (is_Some reply) || bool_decide (is_Some rssi)
    then Err (InvalidDecodeParameter "non-success TEST_RESULT must not include reply fields") else Ok tt in
  if negb (status =? TEST_RESULT_NO_RESULT) && bool_decide (ty = None)
  then Err (MissingField TEST_RESULT_KEY_TEST_TYPE) else
  let? _ :=
    match reply with
    | Some f =>
        if bool_decide (f = []) then Err (InvalidDecodeParameter "reply_frame must not be empty when present")
        else if len f >? MAX_FRAME_SIZE then Err (InvalidDecodeParameter "reply_frame too large") else Ok tt
    | None => Ok tt
    end in
  Ok (mkTestResult status ty reply rssi attempts ms).
End Codec.

(** ** Round trips *)

Lemma ble_envelope_roundtrip ty body b : encode_ble_envelope ty body = Some b -> parse_ble_envelope b = Some (ty, body).
Proof.
  unfold encode_ble_envelope. destruct (Z.gtb_spec (len body) (2 ^ 16 - 1)); [done|]. intros [= <-].
  pose proof (len_nonneg body). cbn [app parse_ble_envelope].
  change (from_be_bytes _) with (from_be_bytes (to_be_bytes 2 (len body))).
  rewrite from_to_be_bytes, wrap_small by (unfold uN; simpl; lia).
  by rewrite Z.eqb_refl.
Qed.

(** An envelope says exactly how long it is: what parses is what would be built. *)
Lemma ble_envelope_exact b ty body :
  bytes_ok b -> parse_ble_envelope b = Some (ty, body) -> encode_ble_envelope ty body = Some b.
Proof.
  intros Hb. destruct b as [|t [|hi [|lo rest]]]; try done. cbn [parse_ble_envelope].
  destruct (Z.eqb_spec (len rest) (from_be_bytes [hi; lo])) as [Hl|]; [|done]. intros [= <- <-].
  assert (Hw : bytes_ok [hi; lo]) by (apply list.Forall_cons in Hb as [_ Hb]; by apply (Forall_take _ 2) in Hb).
  pose proof (from_be_bytes_range _ Hw) as Hr. simpl in Hr. unfold uN in Hr.
  unfold encode_ble_envelope. destruct (Z.gtb_spec (len rest) (2 ^ 16 - 1)); [lia|].
  rewrite Hl, (be_bytes_back 2 [hi; lo]); done.
Qed.

Section Laws.
Context {Value : Type} `{C : Cbor Value} `{L : !CborLaws C} `{CS : !CborStream C} `{CL : !CborStreamLaws CS}.

(** Reading a sorted map with distinct keys gives its pairs back. *)
Lemma unique_keys_encoded (pairs decoded : list (Z * Value)) :
  Forall (fun kv => uN 64 kv.1) pairs -> NoDup ((decoded ++ pairs).*1) ->
  unique_keys ((fun kv => (VInteger kv.1, kv.2)) <$> pairs) decoded = Ok (decoded ++ pairs).
Proof using L.
  revert decoded. induction pairs as [|[k v] pairs IH]; intros decoded Hk Hd; [by rewrite app_nil_r|].
  rewrite list.Forall_cons in Hk. destruct Hk as [Hk Hks]. simpl in *. rewrite as_integer_eq. simpl. rewrite try_u_Some by done.
  replace (existsb _ decoded) with false.
  - rewrite IH; [by rewrite <- app_assoc|done|by rewrite <- app_assoc].
  - symmetry. apply not_true_iff_false. intros He. apply existsb_exists in He as ([k' v'] & Hin & Heq).
    simpl in Heq. apply Z.eqb_eq in Heq as ->. rewrite fmap_app, fmap_cons, list.NoDup_app in Hd. destruct Hd as (_ & Hd & _).
    apply (Hd k); [|apply list_elem_of_here]. apply list_elem_of_fmap. exists (k, v'). split; [done|]. by apply list_elem_of_In.
Qed.

Lemma strict_map_roundtrip (pairs : list (Z * Value)) b :
  sort_by_key pairs = pairs -> Forall (fun kv => uN 64 kv.1) pairs -> NoDup pairs.*1 ->
  encode_sorted_map pairs = Ok b -> decode_strict_map b = Ok pairs.
Proof using L CL.
  intros Hs Hk Hd. unfold encode_sorted_map. rewrite Hs.
  destruct (into_writer _) as [b'| | |] eqn:Hw; simpl; try done. intros [= <-].
  unfold decode_strict_map. rewrite <- (app_nil_r b'), (front_writer _ _ [] Hw). simpl.
  rewrite as_map_eq. simpl. by apply unique_keys_encoded.
Qed.

Definition run_test_typed (c : RunTestCommand) : Prop :=
  uN 64 (rt_type c) /\ (forall ch, rt_channel c = Some ch -> uN 8 ch).

(** Decides what the concrete keys of a literal map decide. *)
Ltac literal_map := first [reflexivity | repeat constructor; first [done | set_solver]].

(** A command the encoder accepts is read back as it was. *)
Lemma run_test_command_roundtrip c b :
  run_test_typed c -> encode_run_test_command (rt_type c) (rt_channel c) (rt_payload c) = Ok b ->
  decode_run_test_command b = Ok c.
Proof using L CL.
  destruct c as [ty ch p]. intros [Hty Hch]. cbn [rt_type rt_channel rt_payload] in *.
  unfold encode_run_test_command, decode_run_test_command. destruct (len p >? MAX_FRAME_SIZE) eqn:Hp; [done|].
  intros (u & Hu & He)%res_bind_Ok.
  assert (Hd : decode_strict_map b = Ok ([(TEST_CMD_KEY_TEST_TYPE, VInteger ty)] ++
    match ch with Some c => [(TEST_CMD_KEY_RF_CHANNEL, VInteger c)] | None => [] end ++ [(TEST_CMD_KEY_PAYLOAD, VBytes p)])).
  { revert He. destruct ch; apply strict_map_roundtrip; literal_map. }
  rewrite Hd. clear Hd He. unfold TEST_TYPE_DIAG_FRAME in *. destruct ch as [c|]; simpl;
    unfold get_uint, get_bytes, get_field, get_optional_uint, find_field; simpl; rewrite !as_integer_eq, as_bytes_eq; simpl;
    rewrite try_u_Some by done; simpl; rewrite Hp; simpl.
  - rewrite try_u_Some by (apply (uN_weaken 8); [lia|by apply Hch]). simpl. rewrite try_u_Some by (by apply Hch). simpl. revert Hu. simpl. by repeat case_match.
  - revert Hu. by destruct (ty =? 1).
Qed.

Definition test_result_typed (r : TestResult) : Prop :=
  uN 8 (tr_status r) /\ (forall t, tr_type r = Some t -> uN 64 t) /\ (forall s, tr_rssi r = Some s -> iN 8 s) /\
  uN 64 (tr_attempts r) /\ uN 64 (tr_elapsed r).

Definition test_result_pairs (r : TestResult) : list (Z * Value) :=
  [(TEST_RESULT_KEY_STATUS, VInteger (tr_status r))] ++
  opt_field TEST_RESULT_KEY_TEST_TYPE VInteger (tr_type r) ++
  opt_field TEST_RESULT_KEY_REPLY_FRAME VBytes (tr_reply r) ++
  opt_field TEST_RESULT_KEY_REPLY_RSSI_DBM VInteger (tr_rssi r) ++
  [(TEST_RESULT_KEY_ATTEMPT_COUNT, VInteger (tr_attempts r))] ++
  [(TEST_RESULT_KEY_ELAPSED_MS, VInteger (tr_elapsed r))].

(** The fields of a test result, read one by one. *)
Lemma test_result_fields r :
  test_result_typed r ->
  get_u8 (test_result_pairs r) TEST_RESULT_KEY_STATUS = Ok (tr_status r) /\
  get_optional_uint (test_result_pairs r) TEST_RESULT_KEY_TEST_TYPE = Ok (tr_type r) /\
  get_bytes_optional (test_result_pairs r) TEST_RESULT_KEY_REPLY_FRAME = Ok (tr_reply r) /\
  get_optional_i8 (test_result_pairs r) TEST_RESULT_KEY_REPLY_RSSI_DBM = Ok (tr_rssi r) /\
  get_uint (test_result_pairs r) TEST_RESULT_KEY_ATTEMPT_COUNT = Ok (tr_attempts r) /\
  get_uint (test_result_pairs r) TEST_RESULT_KEY_ELAPSED_MS = Ok (tr_elapsed r).
Proof using L.
  destruct r as [st ty rf rs att el]. intros (Hst & Hty & Hrs & Hatt & Hel). cbn [tr_status tr_type tr_rssi tr_attempts tr_elapsed] in *.
  unfold get_u8, get_uint, get_optional_uint, get_bytes_optional, get_optional_i8, get_field, find_field, test_result_pairs.
  destruct ty as [ty|], rf as [rf|], rs as [rs|]; simpl; rewrite ?as_integer_eq, ?as_bytes_eq; simpl;
    rewrite ?(try_u_Some 64 att), ?(try_u_Some 64 el), ?(try_u_Some 64 st) by (done || (apply (uN_weaken 8); [lia|done]));
    simpl; rewrite ?(try_u_Some 8 st) by done; rewrite ?(try_u_Some 64 ty) by (by apply Hty);
    rewrite ?(try_i_Some 64 rs) by (specialize (Hrs _ eq_refl); unfold iN in *; simpl in *; lia);
    simpl; rewrite ?(try_i_Some 8 rs) by (by apply Hrs); done.
Qed.

(** A result the encoder accepts is read back as it was. *)
Lemma test_result_roundtrip r b :
  test_result_typed r -> encode_test_result r = Ok b -> decode_test_result b = Ok r.
Proof using L CL.
  intros Ht. unfold encode_test_result. intros (u & Hv & He)%res_bind_Ok. fold (test_result_pairs r) in He.
  assert (Hd : decode_strict_map b = Ok (test_result_pairs r)).
  { revert He. destruct r as [st [ty|] [rf|] [rs|] att el]; apply strict_map_roundtrip; literal_map. }
  unfold decode_test_result. rewrite Hd. cbn [res_bind]. destruct (test_result_fields r Ht) as (-> & -> & -> & -> & -> & ->). cbn [res_bind].
  unfold validate_test_result in Hv. destruct r as [st ty rf rs att el]; cbn [tr_status tr_type tr_reply tr_rssi tr_attempts tr_elapsed] in *.
  repeat case_match; simplify_eq/=; congruence.
Qed.
End Laws.
