(* ===== verification/ProgramImage.v ===== *)
(** * Program images (sonde-protocol/src/program_image.rs)

    The CBOR form in which a BPF program, its map definitions and the initial
    contents of its maps are stored and sent to a node in chunks. *)

From Stdlib Require Import String.
From stdpp Require Import pretty.
From S2P Require Import Prelude.
From S2P Require Import Frame.
From S2P Require Import Messages.
Open Scope list_scope.
Open Scope Z_scope.

Definition IMG_KEY_BYTECODE : Z := 1.
Definition IMG_KEY_MAPS : Z := 2.
Definition MAP_KEY_TYPE : Z := 1.
Definition MAP_KEY_KEY_SIZE : Z := 2.
Definition MAP_KEY_VALUE_SIZE : Z := 3.
Definition MAP_KEY_MAX_ENTRIES : Z := 4.
Definition MAP_KEY_INITIAL_DATA : Z := 5.
Definition MAP_KEY_READONLY : Z := 6.

Record MapDef := mkMapDef { map_type : Z; key_size : Z; value_size : Z; max_entries : Z }.

Record ProgramImage := mkImage {
  bytecode : list Z;
  maps : list MapDef;
  map_initial_data : list (list Z);
  map_readonly : list bool
}.

Section Codec.
Context {Value : Type} `{C : Cbor Value}.

(** ** Encoding *)

(** [format!("... length ({}) != maps length ({})", ...)]. *)
Definition length_mismatch (what : string) (n m : nat) : EncodeError :=
  CborEncodeError (what ++ " length (" ++ pretty n ++ ") != maps length (" ++ pretty m ++ ")")%string.

(** The CBOR map of one map definition: keys 1 to 4, then 5 and 6 if present. *)
Definition map_value (m : MapDef) (initial : option (list Z)) (readonly : option bool) : Value :=
  VMap ([(VInteger MAP_KEY_TYPE, VInteger (map_type m)); (VInteger MAP_KEY_KEY_SIZE, VInteger (key_size m));
         (VInteger MAP_KEY_VALUE_SIZE, VInteger (value_size m));
         (VInteger MAP_KEY_MAX_ENTRIES, VInteger (max_entries m))] ++
        match initial with
        | Some (x :: data) => [(VInteger MAP_KEY_INITIAL_DATA, VBytes (x :: data))]
        | _ => []
        end ++
        (if default false readonly then [(VInteger MAP_KEY_READONLY, VBool true)] else [])).

Definition image_value (p : ProgramImage) : Value :=
  VMap [(VInteger IMG_KEY_BYTECODE, VBytes (bytecode p));
        (VInteger IMG_KEY_MAPS,
         VArray (imap (fun i m => map_value m (map_initial_data p !! i) (map_readonly p !! i)) (maps p)))].

Definition encode_deterministic (p : ProgramImage) : Enc (list Z) :=
  if negb (length (map_initial_data p) =? length (maps p))%nat then
    Err (length_mismatch "map_initial_data" (length (map_initial_data p)) (length (maps p))) else
  if negb (length (map_readonly p) =? length (maps p))%nat then
    Err (length_mismatch "map_readonly" (length (map_readonly p)) (length (maps p))) else
  map_err CborEncodeError (into_writer (image_value p)).

(** ** Decoding *)

(** [k.as_integer().and_then(|i| u64::try_from(i).ok()).unwrap_or(u64::MAX)]. *)
Definition key_of (k : Value) : Z := default (2 ^ 64 - 1) (as_integer k ≫= try_u 64).

(** The value as a [u32], if it is one. *)
Definition u32_of (v : Value) : option Z := (as_integer v ≫= try_u 64) ≫= try_u 32.

(** The variables of the loop over the fields of one map definition. *)
Record MapFields := mkFields {
  f_type : option Z; f_key : option Z; f_value : option Z; f_max : option Z;
  f_initial : list Z; f_readonly : bool
}.

Definition map_field (f : MapFields) (kv : Value * Value) : Dec MapFields :=
  let mkey := key_of kv.1 in
  let mval := u32_of kv.2 in
  if mkey =? MAP_KEY_TYPE then Ok (mkFields mval (f_key f) (f_value f) (f_max f) (f_initial f) (f_readonly f))
  else if mkey =? MAP_KEY_KEY_SIZE then Ok (mkFields (f_type f) mval (f_value f) (f_max f) (f_initial f) (f_readonly f))
  else if mkey =? MAP_KEY_VALUE_SIZE then Ok (mkFields (f_type f) (f_key f) mval (f_max f) (f_initial f) (f_readonly f))
  else if mkey =? MAP_KEY_MAX_ENTRIES then Ok (mkFields (f_type f) (f_key f) (f_value f) mval (f_initial f) (f_readonly f))
  else if mkey =? MAP_KEY_INITIAL_DATA then
    let? d := ok_or (as_bytes kv.2) (InvalidFieldType MAP_KEY_INITIAL_DATA) in
    Ok (mkFields (f_type f) (f_key f) (f_value f) (f_max f) d (f_readonly f))
  else if mkey =? MAP_KEY_READONLY then
    let? r := ok_or (as_bool kv.2) (InvalidFieldType MAP_KEY_READONLY) in
    Ok (mkFields (f_type f) (f_key f) (f_value f) (f_max f) (f_initial f) r)
  else Ok f.

(** A [for] loop with early return. *)
Fixpoint fold_res {E A B} (f : B -> A -> Res E B) (b : B) (l : list A) : Res E B :=
  match l with
  | [] => Ok b
  | x :: l' => let? b' := f b x in fold_res f b' l'
  end.

Definition decode_map_def (map_val : Value) : Dec (MapDef * list Z * bool) :=
  let? fields := ok_or (as_map map_val) (InvalidFieldType IMG_KEY_MAPS) in
  let? f := fold_res map_field (mkFields None None None None [] false) fields in
  let? t := ok_or (f_type f) (MissingField MAP_KEY_TYPE) in
  let? k := ok_or (f_key f) (MissingField MAP_KEY_KEY_SIZE) in
  let? v := ok_or (f_value f) (MissingField MAP_KEY_VALUE_SIZE) in
  let? n := ok_or (f_max f) (MissingField MAP_KEY_MAX_ENTRIES) in
  Ok (mkMapDef t k v n, f_initial f, f_readonly f).

(** The variables of the loop over the fields of the image. *)
Definition push_map (st : option (list Z) * list MapDef * list (list Z) * list bool) (map_val : Value) :
    Dec (option (list Z) * list MapDef * list (list Z) * list bool) :=
  let '(bc, ms, ds, rs) := st in
  let? '(m, d, r) := decode_map_def map_val in
  Ok (bc, ms ++ [m], ds ++ [d], rs ++ [r]).

Definition image_field (st : option (list Z) * list MapDef * list (list Z) * list bool) (kv : Value * Value) :
    Dec (option (list Z) * list MapDef * list (list Z) * list bool) :=
  let '(bc, ms, ds, rs) := st in
  let key := key_of kv.1 in
  if key =? IMG_KEY_BYTECODE then
    let? b := ok_or (as_bytes kv.2) (InvalidFieldType IMG_KEY_BYTECODE) in
    Ok (Some b, ms, ds, rs)
  else if key =? IMG_KEY_MAPS then
    let? arr := ok_or (as_array kv.2) (InvalidFieldType IMG_KEY_MAPS) in
    fold_res push_map st arr
  else Ok st.

Definition image_decode (cbor : list Z) : Dec ProgramImage :=
  let? value := map_err CborDecodeError (from_reader cbor) in
  let? fields := ok_or (as_map value) (CborDecodeError "expected CBOR map") in
  let? '(bc, ms, ds, rs) := fold_res image_field (None, [], [], []) fields in
  let? b := ok_or bc (MissingField IMG_KEY_BYTECODE) in
  Ok (mkImage b ms ds rs).
End Codec.

Definition program_hash `{Sha256Provider} (image_cbor : list Z) : list Z := hash image_cbor.

(** ** Round trip *)

Definition map_def_ok (m : MapDef) : Prop :=
  uN 32 (map_type m) /\ uN 32 (key_size m) /\ uN 32 (value_size m) /\ uN 32 (max_entries m).

Section Proofs.
Context {Value : Type} {C : Cbor Value} {L : CborLaws C}.

Lemma key_of_integer k : uN 64 k -> key_of (VInteger k) = k.
Proof using L. intros Hk. unfold key_of. rewrite as_integer_eq. simpl. by rewrite try_u_Some. Qed.

Lemma u32_field x : uN 32 x -> u32_of (VInteger x) = Some x.
Proof using L.
  intros Hx. unfold u32_of. rewrite as_integer_eq. simpl. rewrite (try_u_Some 64) by (by apply (uN_weaken 32)). simpl.
  by apply try_u_Some.
Qed.

(** Each field of a written definition sets its own variable. *)
Lemma map_field_u32 f k x :
  uN 32 x -> k ∈ [MAP_KEY_TYPE; MAP_KEY_KEY_SIZE; MAP_KEY_VALUE_SIZE; MAP_KEY_MAX_ENTRIES] ->
  map_field f (VInteger k, VInteger x) =
  Ok (mkFields (if k =? MAP_KEY_TYPE then Some x else f_type f)
        (if k =? MAP_KEY_KEY_SIZE then Some x else f_key f)
        (if k =? MAP_KEY_VALUE_SIZE then Some x else f_value f)
        (if k =? MAP_KEY_MAX_ENTRIES then Some x else f_max f) (f_initial f) (f_readonly f)).
Proof using L.
  intros Hx Hk. rewrite !elem_of_cons in Hk. unfold map_field. cbn [fst snd]. rewrite u32_field by done.
  destruct Hk as [->|[->|[->|[->|Hk]]]]; [..|by apply elem_of_nil in Hk];
    rewrite key_of_integer by (split; discriminate || reflexivity); reflexivity.
Qed.

Lemma map_field_initial f d :
  map_field f (VInteger MAP_KEY_INITIAL_DATA, VBytes d) =
  Ok (mkFields (f_type f) (f_key f) (f_value f) (f_max f) d (f_readonly f)).
Proof using L.
  unfold map_field. cbn [fst snd]. rewrite key_of_integer, as_bytes_eq by (split; discriminate || reflexivity).
  reflexivity.
Qed.

Lemma map_field_readonly f r :
  map_field f (VInteger MAP_KEY_READONLY, VBool r) =
  Ok (mkFields (f_type f) (f_key f) (f_value f) (f_max f) (f_initial f) r).
Proof using L.
  unfold map_field. cbn [fst snd]. rewrite key_of_integer, as_bool_eq by (split; discriminate || reflexivity).
  reflexivity.
Qed.

Lemma fold_res_cons {E A B} (f : B -> A -> Res E B) b x b' l :
  f b x = Ok b' -> fold_res f b (x :: l) = fold_res f b' l.
Proof using Type. intros H. simpl. by rewrite H. Qed.

(** Reads the variables just set. *)
Ltac fields := cbn [MAP_KEY_TYPE MAP_KEY_KEY_SIZE MAP_KEY_VALUE_SIZE MAP_KEY_MAX_ENTRIES Z.eqb Pos.eqb
  f_type f_key f_value f_max f_initial f_readonly].

Lemma decode_map_def_value m d r :
  map_def_ok m -> decode_map_def (map_value m (Some d) (Some r)) = Ok (m, d, r).
Proof using L.
  intros (H1 & H2 & H3 & H4). unfold decode_map_def, map_value. rewrite as_map_eq. cbn [ok_or res_bind app].
  erewrite fold_res_cons by (apply map_field_u32; [exact H1|rewrite !elem_of_cons; auto]). fields.
  erewrite fold_res_cons by (apply map_field_u32; [exact H2|rewrite !elem_of_cons; auto]). fields.
  erewrite fold_res_cons by (apply map_field_u32; [exact H3|rewrite !elem_of_cons; auto]). fields.
  erewrite fold_res_cons by (apply map_field_u32; [exact H4|rewrite !elem_of_cons; auto 6]). fields.
  destruct d as [|x d], r; cbn [default from_option id app].
  - erewrite fold_res_cons by apply map_field_readonly. fields. by destruct m.
  - by destruct m.
  - erewrite fold_res_cons by apply map_field_initial. fields.
    erewrite fold_res_cons by apply map_field_readonly. fields. by destruct m.
  - erewrite fold_res_cons by apply map_field_initial. fields. by destruct m.
Qed.

Lemma push_maps bc ms ds rs ms0 ds0 rs0 :
  length ds = length ms -> length rs = length ms -> Forall map_def_ok ms ->
  fold_res push_map (bc, ms0, ds0, rs0)
    (imap (fun i m => map_value m (ds !! i) (rs !! i)) ms) =
  Ok (bc, ms0 ++ ms, ds0 ++ ds, rs0 ++ rs).
Proof using L.
  intros Hd Hr Hms. revert ds rs ms0 ds0 rs0 Hd Hr.
  induction Hms as [|m ms Hm _ IH]; intros [|d ds] [|r rs] ms0 ds0 rs0 Hd Hr; try discriminate.
  - by rewrite !app_nil_r.
  - rewrite imap_cons. cbn [fold_res]. unfold push_map at 1. cbn [lookup list_lookup].
    rewrite decode_map_def_value by done. cbn [res_bind].
    rewrite (imap_ext _ (fun i m => map_value m (ds !! i) (rs !! i))) by done.
    rewrite IH by (simpl in *; lia). by rewrite <- !app_assoc.
Qed.

Lemma image_roundtrip p b :
  Forall map_def_ok (maps p) -> encode_deterministic p = Ok b -> image_decode b = Ok p.
Proof using L.
  intros Hms. unfold encode_deterministic.
  destruct (Nat.eqb_spec (length (map_initial_data p)) (length (maps p))) as [Hd|]; [|done].
  destruct (Nat.eqb_spec (length (map_readonly p)) (length (maps p))) as [Hr|]; [|done]. cbn [negb].
  destruct (into_writer (image_value p)) as [b'| | |] eqn:E; try done. intros [= ->].
  unfold image_decode. rewrite (reader_writer _ _ E). cbn [map_err res_bind].
  unfold image_value. rewrite as_map_eq. cbn [ok_or res_bind fold_res]. unfold image_field at 1. cbn [fst snd].
  rewrite key_of_integer, as_bytes_eq by (split; discriminate || reflexivity).
  cbn [ok_or res_bind IMG_KEY_BYTECODE Z.eqb Pos.eqb]. unfold image_field. cbn [fst snd].
  rewrite key_of_integer, as_array_eq by (split; discriminate || reflexivity).
  cbn [ok_or res_bind IMG_KEY_BYTECODE IMG_KEY_MAPS Z.eqb Pos.eqb].
  rewrite push_maps by done. by destruct p.
Qed.
End Proofs.

(** ** What an image declares *)

(** An invariant of a loop with early return. *)
Lemma fold_res_keeps {E A B} (P : B -> Prop) (f : B -> A -> Res E B) b l b' :
  (forall x a y, P x -> f x a = Ok y -> P y) -> P b -> fold_res f b l = Ok b' -> P b'.
Proof.
  intros Hf. revert b. induction l as [|a l IH]; intros b Hb; simpl; [by intros [= <-]|].
  intros (y & Hy & H1)%res_bind_Ok. by apply (IH y); [eapply Hf|].
Qed.

Section Images.
Context {Value : Type} `{C : Cbor Value}.

Definition opt_u32 (o : option Z) : Prop := forall x, o = Some x -> uN 32 x.

Lemma u32_of_range v : opt_u32 (u32_of v).
Proof using .
  intros x. unfold u32_of. destruct (as_integer v ≫= try_u 64) as [y|]; [|done]. cbn. unfold try_u. case_match eqn:H; [|done]. intros [= <-].
  apply andb_prop in H as [H1 H2]. unfold uN. lia.
Qed.

(** The map definitions of a decoded image are 32-bit numbers. *)
Lemma decoded_def v d init ro : decode_map_def v = Ok (d, init, ro) -> map_def_ok d.
Proof using .
  unfold decode_map_def. intros (fields & _ & H)%res_bind_Ok. apply res_bind_Ok in H as (f & Hf & H).
  apply (fold_res_keeps (fun f => opt_u32 (f_type f) /\ opt_u32 (f_key f) /\ opt_u32 (f_value f) /\ opt_u32 (f_max f))) in Hf as (H1 & H2 & H3 & H4).
  - repeat (apply res_bind_Ok in H as (? & ?%ok_or_Ok & H)). injection H as <- _ _. split_and!; cbn; eauto.
  - intros x [k v0] y (P1 & P2 & P3 & P4). unfold map_field. pose proof (u32_of_range v0).
    repeat case_match; intros Hy; try (apply res_bind_Ok in Hy as (? & _ & Hy)); injection Hy as <-; by split_and!.
  - by split_and!.
Qed.

Lemma decoded_image cbor p : image_decode cbor = Ok p -> Forall map_def_ok (ProgramImage.maps p).
Proof using .
  unfold image_decode. intros (v & _ & H)%res_bind_Ok. apply res_bind_Ok in H as (fields & _ & H).
  apply res_bind_Ok in H as ([[[bc ms] ds] rs] & Hf & H). apply res_bind_Ok in H as (b & _ & H). injection H as <-. cbn.
  apply (fold_res_keeps (fun st => Forall map_def_ok st.1.1.2)) in Hf; [done| |by constructor].
  intros [[[bc0 ms0] ds0] rs0] [k v0] y Hm. unfold image_field. case_match; [intros (? & _ & Hz)%res_bind_Ok; by injection Hz as <-|].
  case_match; [|by intros [= <-]]. intros (arr & _ & Harr)%res_bind_Ok. revert Harr. apply (fold_res_keeps (fun st => Forall map_def_ok st.1.1.2)); [|done].
  intros [[[bc1 ms1] ds1] rs1] v1 z Hm1. unfold push_map. intros ([[d i0] r0] & Hd & Hz)%res_bind_Ok. injection Hz as <-. cbn in *.
  apply Forall_app. split; [done|]. apply Forall_singleton. by eapply decoded_def.
Qed.
End Images.

(** A program image reaches a node intact.  An image whose map definitions are
    in range, encoded on the gateway, cut into chunks and put together again by the
    receiver, decodes to the same image, initial map contents and read-only flags
    included. *)
Lemma image_transfer {Value} (C : Cbor Value) (L : CborLaws C) p b w cs n :
  Forall map_def_ok (maps p) -> encode_deterministic p = Ok b ->
  1 <= cs -> len b + cs < 2 ^ w -> chunk_count (len b) cs = Some n ->
  exists chunks,
    mapM (fun i : nat => get_chunk w b (Z.of_nat i) cs) (seq 0 (Z.to_nat n)) = Some chunks /\
    image_decode (concat chunks) = Ok p.
Proof.
  intros Hms Henc Hcs Hw Hn. destruct (chunks_concat w b cs n Hcs Hw Hn) as (chunks & Hc & Hcat & _).
  exists chunks. split; [done|]. rewrite Hcat. by apply image_roundtrip.
Qed.
