(* ===== verification/CborModel.v ===== *)
(** * An instance of the CBOR interface

    A concrete value type with an injective serialization, which shows that the
    laws of [Cbor] can hold; the theorems that assume them are applied to it.
    (The wire format is not CBOR's: the theorems only rely on the laws.) *)

From Stdlib Require Import String.
From stdpp Require Import countable.
From S2P Require Import Prelude.
From S2P Require Import Frame.
From S2P Require Import Messages.
From S2P Require Import ProgramImage.
Open Scope list_scope.
Open Scope Z_scope.

Unset Elimination Schemes.
Inductive CValue : Type :=
  | CInt (z : Z)
  | CBytes (b : list Z)
  | CText (b : list Z)
  | CBool (b : bool)
  | CNull
  | CArray (l : list CValue)
  | CMap (l : list (CValue * CValue)).

Set Elimination Schemes.

(** Induction with hypotheses for the nested values. *)
Section Ind.
Context (P : CValue -> Prop).
Context (Hint : forall z, P (CInt z)) (Hbytes : forall b, P (CBytes b)) (Htext : forall b, P (CText b)).
Context (Hbool : forall b, P (CBool b)) (Hnull : P CNull) (Harray : forall l, Forall P l -> P (CArray l)).
Context (Hmap : forall l, Forall (fun kv => P kv.1 /\ P kv.2) l -> P (CMap l)).

Fixpoint CValue_nested_ind (v : CValue) : P v :=
  match v with
  | CInt z => Hint z
  | CBytes b => Hbytes b
  | CText b => Htext b
  | CBool b => Hbool b
  | CNull => Hnull
  | CArray l =>
      Harray l ((fix go l : Forall P l :=
        match l with [] => Forall_nil_2 P | x :: l => Forall_cons_2 P x l (CValue_nested_ind x) (go l) end) l)
  | CMap l =>
      Hmap l ((fix go l : Forall (fun kv => P kv.1 /\ P kv.2) l :=
        match l with
        | [] => Forall_nil_2 _
        | (k, x) :: l =>
            Forall_cons_2 _ (k, x) l (conj (CValue_nested_ind k) (CValue_nested_ind x)) (go l)
        end) l)
  end.
End Ind.

(** ** Serialization through trees *)

Abbreviation tree := (gen_tree (Z + list Z)).

Fixpoint to_tree (v : CValue) : tree :=
  match v with
  | CInt z => GenNode 0 [GenLeaf (inl z)]
  | CBytes b => GenNode 1 [GenLeaf (inr b)]
  | CText b => GenNode 2 [GenLeaf (inr b)]
  | CBool b => GenNode 3 [GenLeaf (inl (if b then 1 else 0))]
  | CNull => GenNode 7 []
  | CArray l => GenNode 4 (to_tree <$> l)
  | CMap l => GenNode 5 ((fun kv => GenNode 6 [to_tree kv.1; to_tree kv.2]) <$> l)
  end.

Fixpoint of_tree (t : tree) : CValue :=
  match t with
  | GenNode 0 [GenLeaf (inl z)] => CInt z
  | GenNode 1 [GenLeaf (inr b)] => CBytes b
  | GenNode 2 [GenLeaf (inr b)] => CText b
  | GenNode 3 [GenLeaf (inl z)] => CBool (z =? 1)
  | GenNode 7 [] => CNull
  | GenNode 4 l => CArray (of_tree <$> l)
  | GenNode 5 l =>
      CMap ((fun t => match t with GenNode _ [k; x] => (of_tree k, of_tree x) | _ => (CInt 0, CInt 0) end) <$> l)
  | _ => CInt 0
  end.

Lemma of_to_tree v : of_tree (to_tree v) = v.
Proof.
  induction v as [z|b|b|[|]| |l IH|l IH] using CValue_nested_ind; try done; simpl; f_equal.
  - rewrite <- list_fmap_compose. induction IH as [|x l Hx _ IH']; [done|].
    rewrite fmap_cons, IH'. unfold compose. by rewrite Hx.
  - rewrite <- list_fmap_compose. induction IH as [|[k x] l [Hk Hx] _ IH']; [done|].
    rewrite fmap_cons, IH'. unfold compose. simpl in *. by rewrite Hk, Hx.
Qed.

(** A positive as its base-256 digits. *)
Definition pos_bytes (p : positive) : list Z :=
  to_le_bytes (S (Z.to_nat (Z.log2 (Zpos p) / 8))) (Zpos p).

Definition bytes_pos (l : list Z) : positive := Z.to_pos (from_le_bytes l).

Lemma bytes_pos_bytes p : bytes_pos (pos_bytes p) = p.
Proof.
  unfold bytes_pos, pos_bytes. rewrite from_to_le_bytes, wrap_small; [done|].
  pose proof (Z.log2_spec (Zpos p) ltac:(lia)) as [_ Hlt]. pose proof (Z.log2_nonneg (Zpos p)).
  pose proof (Z.div_mod (Z.log2 (Zpos p)) 8 ltac:(lia)).
  pose proof (Z.mod_pos_bound (Z.log2 (Zpos p)) 8 ltac:(lia)).
  pose proof (Z.div_pos (Z.log2 (Zpos p)) 8 ltac:(lia) ltac:(lia)).
  split; [lia|]. eapply Z.lt_le_trans; [exact Hlt|]. apply Z.pow_le_mono_r; lia.
Qed.

#[export] Instance cvalue_cbor : Cbor CValue := {|
  VInteger := CInt; VBytes := CBytes; VText := CText; VBool := CBool; VArray := CArray; VMap := CMap;
  as_integer := fun v => match v with CInt z => Some z | _ => None end;
  as_bytes := fun v => match v with CBytes b => Some b | _ => None end;
  as_text := fun v => match v with CText b => Some b | _ => None end;
  as_bool := fun v => match v with CBool b => Some b | _ => None end;
  as_array := fun v => match v with CArray l => Some l | _ => None end;
  as_map := fun v => match v with CMap l => Some l | _ => None end;
  into_writer := fun v => Ok (pos_bytes (encode (to_tree v)));
  from_reader := fun b =>
    match decode (bytes_pos b) with Some t => Ok (of_tree t) | None => Err "syntax error"%string end
|}.

#[export] Instance cvalue_laws : CborLaws cvalue_cbor.
Proof.
  split; try done. intros v b [= <-]. simpl. by rewrite bytes_pos_bytes, decode_encode, of_to_tree.
Qed.

(** ** Witnesses *)

Section Witnesses.
Import StubProviders.

Definition demo_wake : NodeMessage := Wake 1 [7; 7] 3300 [49; 46; 48] (Some [5]).

Definition demo_command : GatewayMessage := Command 5 6 (UpdateSchedule 60) None.

Lemma messages_end_to_end_witness :
  exists ncbor gcbor, node_encode demo_wake = Ok ncbor /\ gateway_encode true demo_command = Ok gcbor /\
    (exists raw f, encode_frame (mkHeader 0xABCD MSG_WAKE 77) ncbor (replicate 32 9) = Ok raw /\ decode_frame raw = Ok f /\
       (let? payload := open_frame f (replicate 32 9) in node_decode (h_msg_type (header f)) payload) = Ok demo_wake) /\
    (exists raw f, encode_frame (mkHeader 0xABCD MSG_COMMAND 77) gcbor (replicate 32 9) = Ok raw /\ decode_frame raw = Ok f /\
       (let? payload := open_frame f (replicate 32 9) in gateway_decode (h_msg_type (header f)) payload) = Ok demo_command).
Proof.
  destruct (node_encode demo_wake) as [ncbor| | |] eqn:E; [|discriminate E..].
  destruct (gateway_encode true demo_command) as [gcbor| | |] eqn:G; [|discriminate G..].
  exists ncbor, gcbor. split; [reflexivity|]. split; [reflexivity|].
  apply (messages_end_to_end cvalue_cbor cvalue_laws stub_sha stub_aead stub_aead_laws demo_wake demo_command true ncbor gcbor 0xABCD 77 (replicate 32 9)).
  - unfold node_msg_ok, demo_wake, uN. split_and!; try lia; [discriminate|reflexivity].
  - unfold gateway_msg_ok, demo_command, payload_ok, uN. split_and!; try lia. by right.
  - split; [discriminate|reflexivity].
  - split; [discriminate|reflexivity].
  - exact E.
  - exact G.
  - injection E as <-. vm_compute. discriminate.
  - injection G as <-. vm_compute. discriminate.
Defined.

Definition demo_image : ProgramImage :=
  mkImage [183; 0; 0; 0; 1; 0; 0; 0] [mkMapDef 2 4 8 1; mkMapDef 1 4 4 16] [[1; 2]; []] [true; false].

End Witnesses.
