(* ===== verification/Session.v ===== *)
(** * Gateway sessions

    The in-memory session table of the gateway
    ([sonde-gateway/src/session.rs]): one [Session] per awake node, the
    sequence number the next post-WAKE frame must carry, expiry, and the lock
    that keeps new sessions out while the gateway state is being imported.

    A method that changes the table takes its write lock before it reads the table
    and holds it to the end, so a method is one atomic transition of [SessionManager]; the
    interleavings of the gateway's tasks are the sequences of such transitions
    ([step], [steps]).  Time is a [Z] in nanoseconds; [Instant::now] is an
    argument. *)

From stdpp Require Import strings.
From S2P Require Import Prelude.

Inductive SessionError : Type :=
  | NotFound (node : string)
  | Expired (node : string)
  | SequenceMismatch (expected received : Z).

Inductive SessionState : Type :=
  | AwaitingPostWake
  | ChunkedTransfer (program_hash : list Z) (program_size chunk_size chunk_count : Z) (is_ephemeral : bool)
  | BpfExecuting.

Record Session := mkSession {
  node_id : string;
  peer_address : list Z;
  wake_nonce : Z;
  next_expected_seq : Z;
  created_at : Z;
  state : SessionState
}.

Definition with_seq (s : Session) (q : Z) : Session :=
  mkSession (node_id s) (peer_address s) (wake_nonce s) q (created_at s) (state s).

Definition with_state (s : Session) (x : SessionState) : Session :=
  mkSession (node_id s) (peer_address s) (wake_nonce s) (next_expected_seq s) (created_at s) x.

(** [import_lock] is [true] while a write guard of the import lock is alive. *)
Record SessionManager := mkManager {
  sessions : gmap string Session;
  last_seen : gmap string Z;
  last_battery_mv : gmap string Z;
  last_wake_rssi_dbm : gmap string Z;
  timeout : Z;
  import_lock : bool
}.

Definition with_sessions (m : SessionManager) (x : gmap string Session) : SessionManager :=
  mkManager x (last_seen m) (last_battery_mv m) (last_wake_rssi_dbm m) (timeout m) (import_lock m).
Definition with_last_seen (m : SessionManager) (x : gmap string Z) : SessionManager :=
  mkManager (sessions m) x (last_battery_mv m) (last_wake_rssi_dbm m) (timeout m) (import_lock m).
Definition with_battery (m : SessionManager) (x : gmap string Z) : SessionManager :=
  mkManager (sessions m) (last_seen m) x (last_wake_rssi_dbm m) (timeout m) (import_lock m).
Definition with_rssi (m : SessionManager) (x : gmap string Z) : SessionManager :=
  mkManager (sessions m) (last_seen m) (last_battery_mv m) x (timeout m) (import_lock m).
Definition with_import_lock (m : SessionManager) (b : bool) : SessionManager :=
  mkManager (sessions m) (last_seen m) (last_battery_mv m) (last_wake_rssi_dbm m) (timeout m) b.

Definition manager_new (t : Z) : SessionManager := mkManager ∅ ∅ ∅ ∅ t false.

(** ** Operations *)

Definition create_session (m : SessionManager) (now : Z) (id : string) (peer : list Z)
    (nonce starting_seq : Z) : SessionManager * Session :=
  let s := mkSession id peer nonce starting_seq now AwaitingPostWake in
  (with_sessions m (<[id := s]> (sessions m)), s).

Definition get_session (m : SessionManager) (id : string) : option Session := sessions m !! id.

(** [Instant::duration_since] is zero when the other instant is later. *)
Definition duration_since (now earlier : Z) : Z := Z.max 0 (now - earlier).

Definition is_expired (m : SessionManager) (now : Z) (s : Session) : bool :=
  duration_since now (created_at s) >? timeout m.

(** [oc] is the build's overflow checking; a panicking [+=] leaves the table as
    it was. *)
Definition verify_and_advance_seq (oc : bool) (m : SessionManager) (now : Z) (id : string) (received_seq : Z) :
    SessionManager * Res SessionError unit :=
  match sessions m !! id with
  | None => (m, Err (NotFound id))
  | Some s =>
      if is_expired m now s then (with_sessions m (delete id (sessions m)), Err (Expired id)) else
      if negb (received_seq =? next_expected_seq s)
      then (m, Err (SequenceMismatch (next_expected_seq s) received_seq)) else
      match arith_u oc 64 (next_expected_seq s + 1) with
      | Ok q => (with_sessions m (<[id := with_seq s q]> (sessions m)), Ok tt)
      | Err e => (m, Err e)
      | Panic => (m, Panic)
      | UB => (m, UB)
      end
  end.

Definition set_state (m : SessionManager) (id : string) (x : SessionState) :
    SessionManager * Res SessionError unit :=
  match sessions m !! id with
  | None => (m, Err (NotFound id))
  | Some s => (with_sessions m (<[id := with_state s x]> (sessions m)), Ok tt)
  end.

Definition remove_session (m : SessionManager) (id : string) : SessionManager * option Session :=
  (with_sessions m (delete id (sessions m)), sessions m !! id).

Definition record_last_seen (m : SessionManager) (id : string) (at_ : Z) : SessionManager :=
  with_last_seen m (<[id := at_]> (last_seen m)).
Definition get_last_seen (m : SessionManager) (id : string) : option Z := last_seen m !! id.
Definition record_battery_mv (m : SessionManager) (id : string) (mv : Z) : SessionManager :=
  with_battery m (<[id := mv]> (last_battery_mv m)).
Definition get_battery_mv (m : SessionManager) (id : string) : option Z := last_battery_mv m !! id.
Definition record_wake_rssi_dbm (m : SessionManager) (id : string) (dbm : Z) : SessionManager :=
  with_rssi m (<[id := dbm]> (last_wake_rssi_dbm m)).
Definition get_wake_rssi_dbm (m : SessionManager) (id : string) : option Z := last_wake_rssi_dbm m !! id.

Definition snapshot_last_seen (m : SessionManager) : gmap string Z := last_seen m.
Definition snapshot_battery_mv (m : SessionManager) : gmap string Z := last_battery_mv m.
Definition snapshot_wake_rssi_dbm (m : SessionManager) : gmap string Z := last_wake_rssi_dbm m.

Definition clear_last_seen (m : SessionManager) (id : string) : SessionManager :=
  with_last_seen m (delete id (last_seen m)).
Definition clear_battery_mv (m : SessionManager) (id : string) : SessionManager :=
  with_battery m (delete id (last_battery_mv m)).
Definition clear_wake_rssi_dbm (m : SessionManager) (id : string) : SessionManager :=
  with_rssi m (delete id (last_wake_rssi_dbm m)).
Definition clear_all_last_seen (m : SessionManager) : SessionManager := with_last_seen m ∅.
Definition clear_all_battery_mv (m : SessionManager) : SessionManager := with_battery m ∅.
Definition clear_all_wake_rssi_dbm (m : SessionManager) : SessionManager := with_rssi m ∅.

(** The loop that removes the collected ids. *)
Fixpoint remove_all (x : gmap string Session) (ids : list string) : gmap string Session :=
  match ids with
  | [] => x
  | id :: ids' => remove_all (delete id x) ids'
  end.

(** The iteration order of a [HashMap] is unspecified; [map_to_list] stands for
    one such order and no theorem depends on it. *)
Definition reap_expired (m : SessionManager) (now : Z) : SessionManager * list string :=
  let expired := (List.filter (fun e => is_expired m now e.2) (map_to_list (sessions m))).*1 in
  (with_sessions m (remove_all (sessions m) expired), expired).

Definition active_count (m : SessionManager) : Z := Z.of_nat (size (sessions m)).

Definition acquire_import_lock (m : SessionManager) : SessionManager := with_import_lock m true.
Definition release_import_lock (m : SessionManager) : SessionManager := with_import_lock m false.

(** ** Interleavings *)

Inductive Telemetry : Type :=
  | RecordLastSeen (id : string) (at_ : Z)
  | RecordBatteryMv (id : string) (mv : Z)
  | RecordWakeRssiDbm (id : string) (dbm : Z)
  | ClearLastSeen (id : string)
  | ClearBatteryMv (id : string)
  | ClearWakeRssiDbm (id : string)
  | ClearAllLastSeen
  | ClearAllBatteryMv
  | ClearAllWakeRssiDbm.

Definition apply_telemetry (m : SessionManager) (o : Telemetry) : SessionManager :=
  match o with
  | RecordLastSeen id t => record_last_seen m id t
  | RecordBatteryMv id mv => record_battery_mv m id mv
  | RecordWakeRssiDbm id dbm => record_wake_rssi_dbm m id dbm
  | ClearLastSeen id => clear_last_seen m id
  | ClearBatteryMv id => clear_battery_mv m id
  | ClearWakeRssiDbm id => clear_wake_rssi_dbm m id
  | ClearAllLastSeen => clear_all_last_seen m
  | ClearAllBatteryMv => clear_all_battery_mv m
  | ClearAllWakeRssiDbm => clear_all_wake_rssi_dbm m
  end.

Inductive Op : Type :=
  | OpCreate (id : string) (peer : list Z) (nonce starting_seq : Z)
  | OpVerify (id : string) (received_seq : Z)
  | OpSetState (id : string) (x : SessionState)
  | OpRemove (id : string)
  | OpReap
  | OpTelemetry (o : Telemetry)
  | OpAcquireImport
  | OpReleaseImport.

Inductive Reply : Type :=
  | RResult (r : Res SessionError unit)
  | RSession (s : option Session)
  | RIds (ids : list string)
  | RUnit.

Definition apply_op (oc : bool) (m : SessionManager) (now : Z) (o : Op) : SessionManager * Reply :=
  match o with
  | OpCreate id peer nonce q => let '(m', s) := create_session m now id peer nonce q in (m', RSession (Some s))
  | OpVerify id q => let '(m', r) := verify_and_advance_seq oc m now id q in (m', RResult r)
  | OpSetState id x => let '(m', r) := set_state m id x in (m', RResult r)
  | OpRemove id => let '(m', s) := remove_session m id in (m', RSession s)
  | OpReap => let '(m', ids) := reap_expired m now in (m', RIds ids)
  | OpTelemetry o => (apply_telemetry m o, RUnit)
  | OpAcquireImport => (acquire_import_lock m, RUnit)
  | OpReleaseImport => (release_import_lock m, RUnit)
  end.

(** The transitions the locks allow: [create_session] waits for the import lock
    to be free, the write side of that lock is exclusive, and only its holder
    drops it. *)
Definition lock_allows (m : SessionManager) (o : Op) : bool :=
  match o with
  | OpCreate _ _ _ _ | OpAcquireImport => negb (import_lock m)
  | OpReleaseImport => import_lock m
  | _ => true
  end.

(** A transition at time [t]: an operation reads the clock while it holds the
    table, except [create_session], which reads it at some [u <= t] before it
    waits for the table. *)
Inductive step (oc : bool) : Z * SessionManager -> Op * Reply -> Z * SessionManager -> Prop :=
  | step_op t u t' m o m' r :
      t <= t' -> u <= t' -> (u = t' \/ exists id peer nonce q, o = OpCreate id peer nonce q) ->
      lock_allows m o = true -> apply_op oc m u o = (m', r) ->
      step oc (t, m) (o, r) (t', m').

Inductive steps (oc : bool) : Z * SessionManager -> list (Op * Reply) -> Z * SessionManager -> Prop :=
  | steps_nil w : steps oc w [] w
  | steps_cons w l w' ls w'' : step oc w l w' -> steps oc w' ls w'' -> steps oc w (l :: ls) w''.

(** The sequence numbers accepted from node [id] in a run. *)
Fixpoint accepted (id : string) (ls : list (Op * Reply)) : list Z :=
  match ls with
  | [] => []
  | (OpVerify id' q, RResult (Ok _)) :: ls' =>
      if decide (id' = id) then q :: accepted id ls' else accepted id ls'
  | _ :: ls' => accepted id ls'
  end.

Definition creates (id : string) (l : Op * Reply) : bool :=
  match l.1 with OpCreate id' _ _ _ => bool_decide (id' = id) | _ => false end.

(** ** Lemmas *)

Lemma with_sessions_same m : with_sessions m (sessions m) = m.
Proof. by destruct m. Qed.

Lemma remove_all_lookup x ids id :
  remove_all x ids !! id = if decide (id ∈ ids) then None else x !! id.
Proof.
  revert x. induction ids as [|i ids IH]; intros x.
  - rewrite decide_False by set_solver. done.
  - cbn [remove_all]. rewrite IH. destruct (decide (id = i)) as [->|Hne].
    + rewrite lookup_delete_eq, (decide_True (P := i ∈ i :: ids)) by set_solver. by case_decide.
    + rewrite lookup_delete_ne by done. apply decide_ext. rewrite elem_of_cons. tauto.
Qed.

Lemma reap_ids m now id :
  id ∈ (reap_expired m now).2 <-> exists s, sessions m !! id = Some s /\ is_expired m now s = true.
Proof.
  unfold reap_expired. simpl. rewrite list_elem_of_fmap. split.
  - intros ([i s] & -> & Hin). apply list_elem_of_In, filter_In in Hin as [Hin Hx].
    apply list_elem_of_In, elem_of_map_to_list in Hin. eauto.
  - intros (s & Hs & Hx). exists (id, s). split; [done|].
    apply list_elem_of_In, filter_In. split; [|done].
    by apply list_elem_of_In, elem_of_map_to_list.
Qed.

Lemma reap_ids_NoDup m now : NoDup (reap_expired m now).2.
Proof.
  unfold reap_expired. simpl.
  pose proof (NoDup_fst_map_to_list (sessions m)) as Hnd. revert Hnd.
  generalize (map_to_list (sessions m)). induction l as [|[i s] l IH]; simpl; intros Hnd; [constructor|].
  apply list.NoDup_cons in Hnd as [Hi Hnd]. destruct (is_expired m now s); simpl; [|by apply IH].
  constructor; [|by apply IH]. contradict Hi. apply list_elem_of_fmap in Hi as ([j x] & -> & Hin).
  apply list_elem_of_In, filter_In in Hin as [Hin _]. apply list_elem_of_fmap. exists (j, x).
  by rewrite list_elem_of_In.
Qed.

Lemma reap_lookup m now id :
  sessions (reap_expired m now).1 !! id =
  match sessions m !! id with
  | Some s => if is_expired m now s then None else Some s
  | None => None
  end.
Proof.
  assert (E : sessions (reap_expired m now).1 = remove_all (sessions m) (reap_expired m now).2) by done.
  rewrite E, remove_all_lookup. destruct (decide _) as [Hin|Hout].
  - apply reap_ids in Hin as (s & -> & ->). done.
  - destruct (sessions m !! id) as [s|] eqn:Hs; [|done].
    destruct (is_expired m now s) eqn:Hx; [|done]. destruct Hout. apply reap_ids. eauto.
Qed.

Lemma accepted_cons id l ls : accepted id (l :: ls) = accepted id [l] ++ accepted id ls.
Proof. destruct l as [[] [[]| | |]]; simpl; try done. by case_decide. Qed.

Lemma apply_telemetry_frame m o :
  sessions (apply_telemetry m o) = sessions m /\ timeout (apply_telemetry m o) = timeout m /\
  import_lock (apply_telemetry m o) = import_lock m.
Proof. by destruct o. Qed.

(** What one transition that does not create a session for [id] does to the
    session of [id] and to the numbers accepted from it. *)
Definition evolves (oc : bool) (m : SessionManager) (now : Z) (id : string) (l : Op * Reply)
    (before after : option Session) : Prop :=
  match before with
  | None => after = None /\ accepted id [l] = []
  | Some s =>
      (after = None /\ accepted id [l] = [] /\ (l.1 = OpRemove id \/ is_expired m now s = true)) \/
      exists s', after = Some s' /\ created_at s' = created_at s /\
        ((accepted id [l] = [] /\ next_expected_seq s' = next_expected_seq s) \/
         (accepted id [l] = [next_expected_seq s] /\
          next_expected_seq s' = wrap 64 (next_expected_seq s + 1) /\
          (oc = true -> next_expected_seq s + 1 < 2 ^ 64)))
  end.

Lemma evolves_same oc m now id l x : accepted id [l] = [] -> evolves oc m now id l x x.
Proof. intros Ha. destruct x as [s|]; simpl; [right; exists s|]; auto. Qed.

Lemma verify_evolves oc m now id id' q m' r :
  (forall s, sessions m !! id = Some s -> uN 64 (next_expected_seq s)) ->
  verify_and_advance_seq oc m now id' q = (m', r) ->
  evolves oc m now id (OpVerify id' q, RResult r) (sessions m !! id) (sessions m' !! id).
Proof.
  intros Hq. unfold verify_and_advance_seq. destruct (sessions m !! id') as [s|] eqn:Hs; [|intros [= <- <-]].
  2: by apply evolves_same.
  destruct (is_expired m now s) eqn:Hx.
  { intros [= <- <-]. simpl. destruct (decide (id = id')) as [->|Hne].
    - rewrite Hs, lookup_delete_eq. left. auto.
    - rewrite lookup_delete_ne by done. by apply evolves_same. }
  destruct (Z.eqb_spec q (next_expected_seq s)) as [->|]; simpl; [|intros [= <- <-]; by apply evolves_same].
  destruct (arith_u _ _ _) as [y|e| |] eqn:Ha; intros [= <- <-]; try by apply evolves_same.
  simpl. destruct (decide (id = id')) as [->|Hne].
  - rewrite Hs, lookup_insert_eq. right. eexists. split; [done|]. split; [done|]. right.
    simpl. rewrite decide_True by done. split; [done|].
    apply arith_u_Ok in Ha as [-> Hoc]; [done|]. specialize (Hq _ Hs). unfold uN in Hq. lia.
  - rewrite lookup_insert_ne by done. apply evolves_same. simpl. by rewrite decide_False.
Qed.

Lemma step_evolves oc t m l t' m' id :
  (forall s, sessions m !! id = Some s -> uN 64 (next_expected_seq s)) ->
  step oc (t, m) l (t', m') -> creates id l = false ->
  evolves oc m t' id l (sessions m !! id) (sessions m' !! id).
Proof.
  intros Hq H Hc. inversion H as [? u ? ? o ? r Ht Hu Hnow Hl Hop]; subst.
  destruct o as [i p n q|i q|i x|i| |o| |]; simpl in Hop.
  - injection Hop as <- <-. apply bool_decide_eq_false in Hc. simpl.
    rewrite lookup_insert_ne by done. by apply evolves_same.
  - destruct Hnow as [->|(? & ? & ? & ? & [=])].
    destruct (verify_and_advance_seq _ _ _ _ _) as [m1 r1] eqn:Hv. injection Hop as <- <-.
    eapply verify_evolves; eauto.
  - unfold set_state in Hop. destruct (sessions m !! i) as [s|] eqn:Hs; injection Hop as <- <-;
      [|by apply evolves_same]. simpl.
    destruct (decide (id = i)) as [->|]; [|rewrite lookup_insert_ne by done; by apply evolves_same].
    rewrite Hs, lookup_insert_eq. right. eexists. split; [done|]. split; [done|]. by left.
  - injection Hop as <- <-. simpl. destruct (decide (id = i)) as [->|].
    + rewrite lookup_delete_eq. destruct (sessions m !! i); simpl; auto.
    + rewrite lookup_delete_ne by done. by apply evolves_same.
  - destruct Hnow as [->|(? & ? & ? & ? & [=])]. injection Hop as <- <-.
    pose proof (reap_lookup m t' id) as E. simpl in E. simpl. rewrite E.
    destruct (sessions m !! id) as [s|]; [|done]. destruct (is_expired m t' s) eqn:Hx; [left; auto|].
    by apply (evolves_same _ _ _ _ _ (Some s)).
  - injection Hop as <- <-. destruct (apply_telemetry_frame m o) as [-> _]. by apply evolves_same.
  - injection Hop as <- <-. by apply evolves_same.
  - injection Hop as <- <-. by apply evolves_same.
Qed.

(** Without a session, and without a new one, nothing is accepted. *)
Lemma no_session_run oc w ls w' id :
  steps oc w ls w' -> Forall (fun l => creates id l = false) ls ->
  sessions w.2 !! id = None -> sessions w'.2 !! id = None /\ accepted id ls = [].
Proof.
  induction 1 as [|[t m] l [t1 m1] ls w'' Hst Hsts IH]; intros Hc Hn; [done|].
  apply Forall_cons_iff in Hc as [Hc Hcs]. cbn [snd] in *.
  pose proof (step_evolves oc t m l t1 m1 id ltac:(congruence) Hst Hc) as Hev.
  rewrite Hn in Hev. destruct Hev as [Hn1 Ha]. destruct (IH Hcs Hn1) as [Hn2 Ha2].
  by rewrite accepted_cons, Ha, Ha2.
Qed.

(** The successive acceptances in a run that starts with a session of [id]. *)
Lemma accepted_run oc w ls w' id s :
  steps oc w ls w' -> Forall (fun l => creates id l = false) ls ->
  sessions w.2 !! id = Some s -> uN 64 (next_expected_seq s) ->
  (forall i q, accepted id ls !! i = Some q -> q = wrap 64 (next_expected_seq s + Z.of_nat i)) /\
  (oc = true -> next_expected_seq s + len (accepted id ls) < 2 ^ 64) /\
  (forall s', sessions w'.2 !! id = Some s' ->
     next_expected_seq s' = wrap 64 (next_expected_seq s + len (accepted id ls)) /\ created_at s' = created_at s).
Proof.
  intros Hsts. revert s. induction Hsts as [w|[t m] l [t1 m1] ls w'' Hst Hsts IH]; intros s Hc Hs Hq.
  - split; [done|]. split; [intros _; simpl; unfold uN in Hq; change (len []) with 0; lia|].
    intros s' Hs'. assert (s' = s) as -> by congruence.
    change (len _) with 0. by rewrite Z.add_0_r, wrap_small.
  - apply Forall_cons_iff in Hc as [Hc Hcs]. simpl in Hs. rewrite accepted_cons.
    pose proof (step_evolves oc t m l t1 m1 id ltac:(congruence) Hst Hc) as Hev.
    rewrite Hs in Hev. destruct Hev as [(Hn & -> & _)|(s1 & Hs1 & Hcr & [(-> & Hq1)|(-> & Hq1 & Hoc)])].
    + destruct (no_session_run _ _ _ _ id Hsts Hcs Hn) as [Hn' ->]. split; [done|]. split; [|congruence].
      intros _. change (len _) with 0. unfold uN in Hq. lia.
    + rewrite <- Hq1, <- Hcr. apply IH; [done|done|]. by rewrite Hq1.
    + destruct (IH s1 Hcs Hs1) as (IH1 & IH2 & IH3); [rewrite Hq1; by apply wrap_range|].
      rewrite Hq1 in IH1, IH2, IH3. simpl app. rewrite len_cons. split_and!.
      * intros [|i] q Hi; [injection Hi as <-|]. { rewrite Z.add_0_r. symmetry. by apply wrap_small. }
        rewrite (IH1 i q Hi), wrap_add_l by done. f_equal. lia.
      * intros Ho. specialize (IH2 Ho). specialize (Hoc Ho). rewrite wrap_small in IH2 by (unfold uN in *; lia). lia.
      * intros s' Hs'. destruct (IH3 s' Hs') as [-> ->]. rewrite wrap_add_l by done. split; [f_equal; lia|done].
Qed.

Lemma step_frame oc w l w' : step oc w l w' -> timeout w'.2 = timeout w.2 /\ w.1 <= w'.1.
Proof.
  intros H. inversion H as [? u ? m o ? r Ht Hu Hnow Hl Hop]; subst. split; [|done]. simpl.
  destruct o; simpl in Hop; try by injection Hop as <- <-.
  - unfold verify_and_advance_seq in Hop. by repeat case_match; simplify_eq.
  - unfold set_state in Hop. by repeat case_match; simplify_eq.
  - injection Hop as <- <-. apply apply_telemetry_frame.
Qed.

Lemma steps_frame oc w ls w' : steps oc w ls w' -> timeout w'.2 = timeout w.2 /\ w.1 <= w'.1.
Proof.
  induction 1 as [|w l w1 ls w2 Hst _ [IH1 IH2]]; [done|].
  apply step_frame in Hst as [H1 H2]. split; [congruence|lia].
Qed.

Lemma is_expired_false m now s :
  0 <= timeout m -> is_expired m now s = false <-> now <= created_at s + timeout m.
Proof.
  intros Ht. unfold is_expired, duration_since. rewrite Z.gtb_ltb, Z.ltb_ge. lia.
Qed.

(** Along a run without removals, a session lives for at least the timeout. *)
Lemma session_kept oc w ls w' id s :
  steps oc w ls w' -> Forall (fun l => creates id l = false /\ l.1 <> OpRemove id) ls ->
  sessions w.2 !! id = Some s -> uN 64 (next_expected_seq s) -> w'.1 <= created_at s + timeout w.2 ->
  0 <= timeout w.2 -> exists s', sessions w'.2 !! id = Some s'.
Proof.
  intros Hsts. revert s. induction Hsts as [w|[t m] l [t1 m1] ls w'' Hst Hsts IH]; intros s Hc Hs Hq Ht H0; [eauto|].
  apply Forall_cons_iff in Hc as [[Hc Hr] Hcs]. cbn [fst snd] in *.
  pose proof (step_evolves oc t m l t1 m1 id ltac:(congruence) Hst Hc) as Hev.
  apply step_frame in Hst as [Hto _]. pose proof (steps_frame _ _ _ _ Hsts) as [_ Hle]. cbn [fst snd] in *.
  rewrite Hs in Hev. destruct Hev as [(_ & _ & [?|Hx])|(s1 & Hs1 & Hcr & Hq1)]; [done| |].
  - assert (is_expired m t1 s = false) by (apply is_expired_false; lia). congruence.
  - apply (IH s1 Hcs Hs1); [|rewrite Hcr, Hto; lia|lia].
    destruct Hq1 as [(_ & ->)|(_ & -> & _)]; [done|]. by apply wrap_range.
Qed.

(** While the import lock is held it stays held, and a node without a session
    stays without one. *)
Lemma import_step oc w l w' :
  import_lock w.2 = true -> step oc w l w' -> l.1 <> OpReleaseImport ->
  import_lock w'.2 = true /\ forall id, sessions w.2 !! id = None -> sessions w'.2 !! id = None.
Proof.
  intros Hl H Hr. split.
  - inversion H as [? u ? m o ? r Ht Hu Hnow Ha Hop]; subst. cbn [snd] in *.
    destruct o; simpl in Hop; try by injection Hop as <- <-.
    + unfold verify_and_advance_seq in Hop. by repeat case_match; simplify_eq.
    + unfold set_state in Hop. by repeat case_match; simplify_eq.
    + injection Hop as <- <-. by rewrite (proj2 (proj2 (apply_telemetry_frame m _))).
  - intros id Hn. destruct w as [t m], w' as [t' m']. cbn [snd] in *.
    assert (Hc : creates id l = false).
    { inversion H as [? u ? ? o ? r Ht Hu Hnow Ha Hop]; subst. destruct o; try done. simpl in Ha. by rewrite Hl in Ha. }
    pose proof (step_evolves oc t m l t' m' id ltac:(congruence) H Hc) as Hev. rewrite Hn in Hev. apply Hev.
Qed.

Lemma import_run oc w ls w' :
  import_lock w.2 = true -> steps oc w ls w' -> Forall (fun l => l.1 <> OpReleaseImport) ls ->
  import_lock w'.2 = true /\ forall id, sessions w.2 !! id = None -> sessions w'.2 !! id = None.
Proof.
  intros Hl Hsts. induction Hsts as [|w l w1 ls w2 Hst _ IH]; intros Hr; [done|].
  apply Forall_cons_iff in Hr as [Hr Hrs]. destruct (import_step _ _ _ _ Hl Hst Hr) as [Hl1 Hn1].
  destruct (IH Hl1 Hrs) as [Hl2 Hn2]. auto.
Qed.

(** The first transition of a run that creates a session. *)
Lemma create_run oc w id peer nonce q r ls w' :
  steps oc w ((OpCreate id peer nonce q, r) :: ls) w' ->
  exists w1 s, r = RSession (Some s) /\ next_expected_seq s = q /\ sessions w1.2 !! id = Some s /\
    timeout w1.2 = timeout w.2 /\ steps oc w1 ls w'.
Proof.
  inversion 1 as [|? ? w1 ? ? Hst Hsts]; subst. pose proof (step_frame _ _ _ _ Hst) as [Hto _].
  inversion Hst as [? u ? ? o ? r' ? ? ? ? Hop]; subst. simpl in Hop. injection Hop as <- <-.
  do 2 eexists. split_and!; [done|done| |exact Hto|exact Hsts]. simpl. by apply lookup_insert_eq.
Qed.

(** ** Properties *)

(** C18: replay protection.  In any interleaving of the gateway's operations, the
    frames of a node that are accepted between the WAKE that created its session
    and the next WAKE carry exactly the numbers [s0], [s0 + 1], [s0 + 2], ... in
    that order (in 64-bit arithmetic), whatever was received in between; no number
    is accepted twice within [2^64] frames, and a build with overflow checks
    panics rather than wrap. *)
Theorem session_replay_protection oc w id peer nonce s0 r ls w' :
  uN 64 s0 ->
  steps oc w ((OpCreate id peer nonce s0, r) :: ls) w' ->
  Forall (fun l => creates id l = false) ls ->
  (forall i q, accepted id ls !! i = Some q -> q = wrap 64 (s0 + Z.of_nat i)) /\
  (len (accepted id ls) <= 2 ^ 64 -> NoDup (accepted id ls)) /\
  (oc = true -> s0 + len (accepted id ls) < 2 ^ 64).
Proof.
  intros Hq Hsts Hc. apply create_run in Hsts as (w1 & s & -> & <- & Hs & _ & Hsts).
  destruct (accepted_run _ _ _ _ id s Hsts Hc Hs Hq) as (H1 & H2 & _). split_and!; [done| |done].
  intros Hlen. apply NoDup_alt. intros i j q Hi Hj.
  pose proof (lookup_lt_Some _ _ _ Hi). pose proof (lookup_lt_Some _ _ _ Hj).
  pose proof (H1 i q Hi) as Ei. rewrite (H1 j q Hj) in Ei. unfold len in *.
  apply wrap_inj in Ei; lia.
Qed.

(** Availability.  A session is not lost before its timeout: whatever other
    nodes do and however often expired sessions are reaped, until [timeout] has
    passed the next number in order is accepted, and any other number is refused
    with both numbers reported and no change of state. *)
Lemma session_available oc t0 m0 id peer nonce s0 s ls t2 m2 now :
  uN 64 s0 -> 0 <= timeout m0 ->
  steps oc (t0, m0) ((OpCreate id peer nonce s0, RSession (Some s)) :: ls) (t2, m2) ->
  Forall (fun l => creates id l = false /\ l.1 <> OpRemove id) ls ->
  t2 <= now -> now <= created_at s + timeout m0 ->
  s0 + len (accepted id ls) + 1 < 2 ^ 64 ->
  (exists m3, verify_and_advance_seq oc m2 now id (s0 + len (accepted id ls)) = (m3, Ok tt)) /\
  (forall q, q <> s0 + len (accepted id ls) ->
     verify_and_advance_seq oc m2 now id q = (m2, Err (SequenceMismatch (s0 + len (accepted id ls)) q))).
Proof.
  intros Hq H0 Hsts Hc Ht2 Hnow Hov. apply create_run in Hsts as (w1 & s' & [= <-] & <- & Hs & Hto & Hsts).
  cbn [snd] in Hto. assert (Hc' : Forall (fun l => creates id l = false) ls) by (revert Hc; apply Forall_impl; by intros l [? _]).
  destruct (session_kept _ _ _ _ id s Hsts Hc Hs Hq) as [s2 Hs2]; [cbn [fst]; lia|lia|]. cbn [snd] in Hs2.
  destruct (accepted_run _ _ _ _ id s Hsts Hc' Hs Hq) as (_ & _ & H3). destruct (H3 _ Hs2) as [Hn Hcr].
  pose proof (steps_frame _ _ _ _ Hsts) as [Hto2 _]. cbn [snd] in Hto2.
  pose proof (len_nonneg (accepted id ls)). unfold uN in Hq. rewrite wrap_small in Hn by (unfold uN; lia).
  unfold verify_and_advance_seq. rewrite Hs2.
  assert (is_expired m2 now s2 = false) as -> by (apply is_expired_false; lia).
  rewrite Hn. split.
  - rewrite Z.eqb_refl. unfold arith_u. simpl negb. cbv iota.
    rewrite (proj2 (Z.leb_le 0 _)), (proj2 (Z.ltb_lt _ (2 ^ 64))) by lia. eauto.
  - intros q Hne. by rewrite (proj2 (Z.eqb_neq _ _) Hne).
Qed.

(** The import lock.  While the import holds it, no interleaving of the other
    operations adds a session: the set of nodes with a session only shrinks, and a
    gateway found quiescent ([active_count] zero) stays so until the release. *)
Lemma import_lock_quiesces oc w ls w' :
  import_lock w.2 = true -> steps oc w ls w' ->
  Forall (fun l => l.1 <> OpReleaseImport) ls ->
  import_lock w'.2 = true /\ dom (sessions w'.2) ⊆ dom (sessions w.2) /\
  (active_count w.2 = 0 -> active_count w'.2 = 0).
Proof.
  intros Hl Hsts Hr. destruct (import_run _ _ _ _ Hl Hsts Hr) as [Hl' Hn]. split; [done|]. split.
  - intros id. rewrite !elem_of_dom, <- !not_eq_None_Some. auto.
  - unfold active_count. intros H0. assert (E : sessions w.2 = ∅) by (apply map_size_empty_iff; lia).
    assert (E' : sessions w'.2 = ∅); [|by rewrite E', map_size_empty].
    apply map_empty. intros id. apply Hn. by rewrite E.
Qed.

(** Reaping is exact.  [reap_expired] reports, once each, exactly the nodes
    whose session is older than the timeout, removes exactly these, and leaves a
    table in which no frame is answered with [Expired] at that instant. *)
Lemma reap_expired_exact oc m now :
  let '(m', ids) := reap_expired m now in
  NoDup ids /\
  (forall id, id ∈ ids <-> exists s, sessions m !! id = Some s /\ is_expired m now s = true) /\
  (forall id s, sessions m' !! id = Some s <-> sessions m !! id = Some s /\ is_expired m now s = false) /\
  (forall id q, (verify_and_advance_seq oc m' now id q).2 <> Err (Expired id)).
Proof.
  pose proof (reap_ids_NoDup m now) as H1. pose proof (reap_ids m now) as H2.
  pose proof (reap_lookup m now) as H3. destruct (reap_expired m now) as [m' ids] eqn:E. simpl in H1, H2, H3.
  split_and!; [done|done| |].
  - intros id s. rewrite H3. destruct (sessions m !! id) as [s'|]; [|split; [done|by intros [? _]]].
    destruct (is_expired m now s') eqn:Hx; (split; [|intros [[= <-] ?]]); congruence || (intros [= <-]; done).
  - intros id q. unfold verify_and_advance_seq. rewrite H3.
    destruct (sessions m !! id) as [s|]; [|done]. destruct (is_expired m now s) eqn:Hx; [done|].
    assert (is_expired m' now s = false) as -> by (injection E as <- _; exact Hx).
    case_match; [done|]. unfold arith_u. by repeat case_match.
Qed.

(** ** Witnesses *)

Definition demo_ops : list (Op * Reply) :=
  [(OpVerify "n1" 7, RResult (Ok tt)); (OpVerify "n1" 7, RResult (Err (SequenceMismatch 8 7)));
   (OpReap, RIds []); (OpVerify "n1" 8, RResult (Ok tt))].

Definition demo_session : Session := mkSession "n1" [1; 2] 99 7 0 AwaitingPostWake.

Definition demo_end : SessionManager :=
  with_sessions (manager_new 30) {["n1" := with_seq demo_session 9]}.

(** A node wakes with sequence number 7, sends 7, repeats 7 and sends 8. *)
Lemma demo_run oc :
  steps oc (0, manager_new 30)
    ((OpCreate "n1" [1; 2] 99 7, RSession (Some demo_session)) :: demo_ops) (20, demo_end).
Proof.
  eapply steps_cons; [apply (step_op oc 0 0 0); [done|done|by left|done|reflexivity]|].
  eapply steps_cons; [apply (step_op oc 0 5 5); [done|done|by left|done|reflexivity]|].
  eapply steps_cons; [apply (step_op oc 5 10 10); [done|done|by left|done|reflexivity]|].
  eapply steps_cons; [apply (step_op oc 10 15 15); [done|done|by left|done|vm_compute; reflexivity]|].
  eapply steps_cons; [apply (step_op oc 15 20 20); [done|done|by left|done|vm_compute; reflexivity]|].
  apply steps_nil.
Qed.

Lemma session_replay_protection_witness :
  accepted "n1" demo_ops = [7; 8] /\ NoDup (accepted "n1" demo_ops).
Proof.
  split; [reflexivity|].
  refine (proj1 (proj2 (session_replay_protection true _ "n1" [1; 2] 99 7 _ demo_ops _ _ (demo_run true) _)) _).
  - unfold uN. lia.
  - by repeat constructor.
  - vm_compute. discriminate.
Defined.

Lemma session_available_witness :
  exists m3, verify_and_advance_seq true demo_end 30 "n1" 9 = (m3, Ok tt).
Proof.
  refine (proj1 (session_available true _ _ "n1" [1; 2] 99 7 _ demo_ops _ _ 30 _ _ (demo_run true) _ _ _ _)).
  - unfold uN. lia.
  - done.
  - by repeat constructor.
  - lia.
  - simpl. lia.
  - vm_compute. reflexivity.
Defined.

