(* ===== verification/MapStorage.v ===== *)
(** * Sleep-persistent map storage

    The node's BPF maps ([sonde-node/src/map_storage.rs], firmware build): the
    maps of the installed program are carved out of one static buffer in RTC
    slow memory, next to a layout record from which the map table is rebuilt
    after deep sleep.

    RTC memory is a value ([Rtc]) of its own.  An operation that writes to it
    returns its writes in program order ([Write], bytes one at a time), so that
    the memory a reset leaves behind is the result of a prefix of them.  A raw
    pointer into the buffer is its offset, and a raw access outside the buffer
    is [UB].  [W] is the width of [usize] and [oc] the build's overflow
    checking.  The host build keeps each map in a vector of its own and is not
    modelled separately. *)

From Stdlib Require Import String.
From S2P Require Import Prelude ProgramImage.
Open Scope Z_scope.

Definition BPF_MAP_TYPE_ARRAY : Z := 1.
Definition BPF_MAP_TYPE_GLOBAL_VARIABLE : Z := 0.
Definition ARRAY_MAP_KEY_SIZE : Z := 4.
Definition MAP_BUDGET : Z := 4 * 1024.
Definition MAX_MAPS : Z := 16.

Inductive NodeError : Type :=
  | AuthFailure
  | ResponseBindingMismatch
  | UnexpectedMsgType (t : Z)
  | MalformedPayload (msg : string)
  | Transport (msg : string)
  | Unpaired
  | ProgramHashMismatch
  | ProgramDecodeFailed (msg : string)
  | MapBudgetExceeded (required available : Z)
  | MapKeyOutOfBounds (key max_entries : Z)
  | MapValueSizeMismatch (expected actual : Z)
  | BpfError (msg : string)
  | HelperError (helper_id code : Z)
  | EphemeralRestriction (helper_id : Z)
  | ChunkTransferFailed (chunk_index : Z)
  | WakeRetriesExhausted
  | Timeout
  | StorageError (msg : string)
  | ChunkIndexMismatch (expected received : Z)
  | RebootRequested.

Abbreviation NodeResult := (Res NodeError).

(** ** RTC memory *)

(** [MAP_BACKING] and [MAP_LAYOUT]. *)
Record Rtc := mkRtc {
  backing : list Z;
  map_count : Z;
  rdefs : list MapDef
}.

(** What the linker reserves. *)
Definition rtc_ok (r : Rtc) : Prop := len (backing r) = MAP_BUDGET /\ len (rdefs r) = MAX_MAPS.

Inductive Write : Type :=
  | WByte (a : nat) (v : Z)
  | WCount (n : Z)
  | WDef (i : nat) (d : MapDef).

Definition apply_write (r : Rtc) (w : Write) : Rtc :=
  match w with
  | WByte a v => mkRtc (<[a := v]> (backing r)) (map_count r) (rdefs r)
  | WCount n => mkRtc (backing r) n (rdefs r)
  | WDef i d => mkRtc (backing r) (map_count r) (<[i := d]> (rdefs r))
  end.

Definition apply_writes (r : Rtc) (ws : list Write) : Rtc := fold_left apply_write ws r.

Fixpoint byte_writes (a : nat) (bs : list Z) : list Write :=
  match bs with
  | [] => []
  | b :: bs' => WByte a b :: byte_writes (S a) bs'
  end.

(** Writes of [bs] from offset [a] of the buffer. *)
Definition raw_write (a : Z) (bs : list Z) : NodeResult (list Write) :=
  if (0 <=? a) && (a + len bs <=? MAP_BUDGET) then Ok (byte_writes (Z.to_nat a) bs) else UB.

(** A read of [n] bytes from offset [a]. *)
Definition raw_read (b : list Z) (a n : Z) : NodeResult (list Z) :=
  if (0 <=? a) && (0 <=? n) && (a + n <=? len b)
  then Ok (take (Z.to_nat n) (drop (Z.to_nat a) b)) else UB.

Record RtcSlice := mkSlice { ptr : Z; slice_len : Z }.

(** [RtcSlice::fill]. *)
Definition fill (s : RtcSlice) (v : Z) : NodeResult (list Write) :=
  raw_write (ptr s) (replicate (Z.to_nat (slice_len s)) v).

(** [RtcSlice::index]. *)
Definition slice_index (s : RtcSlice) (b : list Z) (start end_ : Z) : NodeResult (list Z) :=
  if (start <=? end_) && (end_ <=? slice_len s) then raw_read b (ptr s + start) (end_ - start) else Panic.

(** [RtcSlice::index_mut] followed by [copy_from_slice], which panics unless the
    lengths agree. *)
Definition slice_copy (s : RtcSlice) (start end_ : Z) (value : list Z) : NodeResult (list Write) :=
  if (start <=? end_) && (end_ <=? slice_len s) then
    if end_ - start =? len value then raw_write (ptr s + start) value else Panic
  else Panic.

Section Storage.
Context (W : Z) (oc : bool).
Abbreviation usize := (arith_u oc W).

(** Zero-fills the region and returns a slice of it. *)
Definition make_map_data (size offset : Z) : NodeResult (RtcSlice * list Write) :=
  let? ws := raw_write offset (replicate (Z.to_nat size) 0) in
  Ok (mkSlice offset size, ws).

(** ** Map instances *)

Record MapInstance := mkInstance { def : MapDef; data : RtcSlice; entry_size : Z }.

Definition lookup (m : MapInstance) (b : list Z) (key : Z) : NodeResult (option (list Z)) :=
  if key >=? max_entries (def m) then Ok None else
  let? o := usize (key * entry_size m) in
  let? offset := usize (o + key_size (def m)) in
  let? end_ := usize (offset + value_size (def m)) in
  if end_ >? slice_len (data m) then Ok None else
  let? s := slice_index (data m) b offset end_ in
  Ok (Some s).

Definition update (m : MapInstance) (key : Z) (value : list Z) : NodeResult (list Write) :=
  if key >=? max_entries (def m) then Err (MapKeyOutOfBounds key (max_entries (def m))) else
  if negb (len value =? value_size (def m)) then Err (MapValueSizeMismatch (value_size (def m)) (len value)) else
  let? o := usize (key * entry_size m) in
  let? offset := usize (o + key_size (def m)) in
  let? end_ := usize (offset + value_size (def m)) in
  if end_ >? slice_len (data m) then Err (MapKeyOutOfBounds key (max_entries (def m))) else
  slice_copy (data m) offset end_ value.

(** [base] is the address of the buffer. *)
Definition data_ptr (base : Z) (m : MapInstance) : Z := as_u64 (base + ptr (data m)).
Definition storage_bytes (m : MapInstance) : Z := slice_len (data m).

(** ** The map table *)

Record MapStorage := mkStorage {
  maps : list MapInstance;
  cached_ptrs : list Z;
  budget_bytes : Z
}.

Definition storage_new (budget : Z) : MapStorage := mkStorage [] [] budget.

(** Size of one map, [None] on overflow. *)
Definition map_size_checked (d : MapDef) : option Z :=
  match checked_add W (key_size d) (value_size d) with
  | Some e => checked_mul W e (max_entries d)
  | None => None
  end.

Fixpoint required_from (total : Z) (defs : list MapDef) : option Z :=
  match defs with
  | [] => Some total
  | d :: ds =>
      match map_size_checked d with
      | Some n => match checked_add W total n with Some t => required_from t ds | None => None end
      | None => None
      end
  end.

Definition required_bytes_checked (defs : list MapDef) : option Z := required_from 0 defs.
Definition required_bytes (defs : list MapDef) : Z := default (2 ^ W - 1) (required_bytes_checked defs).

Definition validate_def (d : MapDef) : NodeResult unit :=
  if negb (map_type d =? BPF_MAP_TYPE_ARRAY) && negb (map_type d =? BPF_MAP_TYPE_GLOBAL_VARIABLE)
  then Err (ProgramDecodeFailed "unsupported map type: only global variable (0) and BPF_MAP_TYPE_ARRAY (1) are supported") else
  if negb (key_size d =? ARRAY_MAP_KEY_SIZE)
  then Err (ProgramDecodeFailed "array map key_size must be 4 (u32)") else
  if max_entries d =? 0
  then Err (ProgramDecodeFailed "map max_entries must be > 0: zero-entry maps produce duplicate data_ptr() values and break map indexing") else
  if value_size d =? 0
  then Err (ProgramDecodeFailed "map value_size must be > 0: zero-byte values are not supported")
  else Ok tt.

Fixpoint validate_each (defs : list MapDef) : NodeResult unit :=
  match defs with
  | [] => Ok tt
  | d :: ds => let? _ := validate_def d in validate_each ds
  end.

Definition validate_map_defs (defs : list MapDef) : NodeResult unit :=
  if len defs >? MAX_MAPS then Err (ProgramDecodeFailed "program defines too many maps (exceeds MAX_MAPS)") else
  let? _ := validate_each defs in
  match required_bytes_checked defs with
  | None => Err (ProgramDecodeFailed "invalid map definitions: size calculation overflowed")
  | Some _ => Ok tt
  end.

(** [Option::expect]. *)
Definition expect {A} (o : option A) : NodeResult A := match o with Some a => Ok a | None => Panic end.

Fixpoint alloc_loop (defs : list MapDef) (offset : Z) : NodeResult (list MapInstance * list Write) :=
  match defs with
  | [] => Ok ([], [])
  | d :: ds =>
      let? e := expect (checked_add W (key_size d) (value_size d)) in
      let? total := expect (checked_mul W e (max_entries d)) in
      let? '(s, ws) := make_map_data total offset in
      let? offset' := usize (offset + total) in
      let? '(ms, ws') := alloc_loop ds offset' in
      Ok (mkInstance d s e :: ms, ws ++ ws')
  end.

Fixpoint def_writes (i : nat) (defs : list MapDef) : list Write :=
  match defs with
  | [] => []
  | d :: ds => WDef i d :: def_writes (S i) ds
  end.

(** Invalidate, write, commit. *)
Definition write_rtc_layout (defs : list MapDef) : list Write :=
  let count := Z.min (len defs) MAX_MAPS in
  WCount 0 :: def_writes 0 (take (Z.to_nat count) defs) ++ [WCount (as_u32 count)].

Definition allocate (base : Z) (ms : MapStorage) (defs : list MapDef) : NodeResult (MapStorage * list Write) :=
  let? _ := validate_map_defs defs in
  let? required := ok_or (required_bytes_checked defs)
    (ProgramDecodeFailed "invalid map definitions: size calculation overflowed") in
  if required >? budget_bytes ms then Err (MapBudgetExceeded required (budget_bytes ms)) else
  if required >? MAP_BUDGET then Err (MapBudgetExceeded required MAP_BUDGET) else
  let? '(l, ws) := alloc_loop defs 0 in
  Ok (mkStorage l (data_ptr base <$> l) (budget_bytes ms), ws ++ write_rtc_layout defs).

Fixpoint rebuild_loop (defs : list MapDef) (offset : Z) : NodeResult (list MapInstance) :=
  match defs with
  | [] => Ok []
  | d :: ds =>
      let? e := usize (key_size d + value_size d) in
      let? total := usize (e * max_entries d) in
      let? offset' := usize (offset + total) in
      let? l := rebuild_loop ds offset' in
      Ok (mkInstance d (mkSlice offset total) e :: l)
  end.

(** Rebuilds the table from the layout record. *)
Definition from_rtc (base : Z) (r : Rtc) (budget : Z) : NodeResult (option MapStorage) :=
  if (map_count r =? 0) || (map_count r >? MAX_MAPS) then Ok None else
  let defs := take (Z.to_nat (map_count r)) (rdefs r) in
  match required_bytes_checked defs with
  | None => Ok None
  | Some total =>
      if (total >? budget) || (total >? MAP_BUDGET) then Ok None else
      match validate_map_defs defs with
      | Ok _ =>
          let? l := rebuild_loop defs 0 in
          Ok (Some (mkStorage l (data_ptr base <$> l) budget))
      | _ => Ok None
      end
  end.

Fixpoint apply_initial_from (l : list MapInstance) (initial : list (list Z)) : NodeResult (list Write) :=
  match initial, l with
  | [], _ | _, [] => Ok []
  | bs :: initial', m :: l' =>
      let? ws :=
        match bs with
        | [] => Ok []
        | _ =>
            if len bs =? value_size (def m) then
              match update m 0 bs with Err _ => Ok [] | r => r end
            else Ok []
        end in
      let? ws' := apply_initial_from l' initial' in
      Ok (ws ++ ws')
  end.

(** Writes the image's initial data as entry 0; a mismatched length is skipped. *)
Definition apply_initial_data (ms : MapStorage) (initial : list (list Z)) : NodeResult (list Write) :=
  apply_initial_from (maps ms) initial.

Definition get (ms : MapStorage) (i : nat) : option MapInstance := maps ms !! i.
Definition map_pointers (ms : MapStorage) : list Z := cached_ptrs ms.
Definition storage_map_count (ms : MapStorage) : Z := len (maps ms).

Definition def_eqb (a b : MapDef) : bool :=
  (map_type a =? map_type b) && (key_size a =? key_size b) && (value_size a =? value_size b) &&
  (max_entries a =? max_entries b).

Definition layout_matches (ms : MapStorage) (defs : list MapDef) : bool :=
  if negb (len (maps ms) =? len defs) then false
  else forallb (fun p => def_eqb (def p.1) p.2) (zip (maps ms) defs).

Definition invalidate_rtc_layout : list Write := [WCount 0].

Fixpoint clear_loop (l : list MapInstance) : NodeResult (list Write) :=
  match l with
  | [] => Ok []
  | m :: l' => let? ws := fill (data m) 0 in let? ws' := clear_loop l' in Ok (ws ++ ws')
  end.

Definition clear_all (ms : MapStorage) : NodeResult (list Write) :=
  let? ws := clear_loop (maps ms) in Ok (ws ++ invalidate_rtc_layout).

(** ** Sizes and validity *)

Hypothesis HW : 32 <= W.

Definition map_bytes (d : MapDef) : Z := (key_size d + value_size d) * max_entries d.
Definition total_bytes (defs : list MapDef) : Z := foldr (fun d t => map_bytes d + t) 0 defs.

(** The fields of a definition are [u32] values. *)
Definition def_u32 (d : MapDef) : Prop :=
  uN 32 (map_type d) /\ uN 32 (key_size d) /\ uN 32 (value_size d) /\ uN 32 (max_entries d).

(** What the validation asks of one definition. *)
Definition def_valid (d : MapDef) : Prop :=
  (map_type d = 0 \/ map_type d = 1) /\ key_size d = 4 /\ 0 < max_entries d /\ 0 < value_size d.

Lemma validate_def_spec d :
  def_u32 d -> (validate_def d = Ok tt /\ def_valid d) \/ (exists msg, validate_def d = Err (ProgramDecodeFailed msg) /\ ~ def_valid d).
Proof using .
  intros (_ & _ & Hv & Hm). unfold uN in *. unfold validate_def, def_valid, BPF_MAP_TYPE_ARRAY, BPF_MAP_TYPE_GLOBAL_VARIABLE, ARRAY_MAP_KEY_SIZE.
  destruct (Z.eqb_spec (map_type d) 1), (Z.eqb_spec (map_type d) 0), (Z.eqb_spec (key_size d) 4),
    (Z.eqb_spec (max_entries d) 0), (Z.eqb_spec (value_size d) 0); simpl;
    first [left; split; [done|lia] | right; eexists; split; [reflexivity|lia]].
Qed.

Lemma validate_each_spec defs :
  Forall def_u32 defs ->
  (validate_each defs = Ok tt /\ Forall def_valid defs) \/
  (exists msg, validate_each defs = Err (ProgramDecodeFailed msg) /\ ~ Forall def_valid defs).
Proof using .
  induction 1 as [|d ds Hd Hds IH]; simpl; [by left|].
  destruct (validate_def_spec d Hd) as [[-> Hv]|(msg & -> & Hv)]; simpl.
  - destruct IH as [[-> Hvs]|(msg & -> & Hvs)]; [by left; auto|right].
    exists msg. split; [done|]. by rewrite Forall_cons_iff; intros [_ ?].
  - right. exists msg. split; [done|]. by rewrite Forall_cons_iff; intros [? _].
Qed.

Lemma map_bytes_pos d : def_valid d -> 0 < key_size d + value_size d <= map_bytes d.
Proof using . unfold def_valid, map_bytes. intros (_ & -> & Hm & Hv). nia. Qed.

Lemma total_nonneg defs : Forall def_valid defs -> 0 <= total_bytes defs.
Proof using . induction 1 as [|d ds Hd _ IH]; simpl; [lia|]. pose proof (map_bytes_pos d Hd). lia. Qed.

Lemma map_size_valid d : def_valid d -> map_size_checked d = if map_bytes d <? 2 ^ W then Some (map_bytes d) else None.
Proof using HW.
  intros Hd. pose proof (map_bytes_pos d Hd). unfold map_size_checked, checked_add, checked_mul.
  destruct (Z.ltb_spec (key_size d + value_size d) (2 ^ W)).
  - done.
  - destruct (Z.ltb_spec (map_bytes d) (2 ^ W)); [lia|done].
Qed.

Lemma required_valid defs t :
  Forall def_valid defs ->  0 <= t < 2 ^ W ->
  required_from t defs = if t + total_bytes defs <? 2 ^ W then Some (t + total_bytes defs) else None.
Proof using HW.
  intros Hv. revert t. induction Hv as [|d ds Hd Hds IH]; intros t Ht; simpl.
  - rewrite Z.add_0_r. by rewrite (proj2 (Z.ltb_lt _ _) (proj2 Ht)).
  - pose proof (map_bytes_pos d Hd). pose proof (total_nonneg ds Hds). rewrite map_size_valid by done.
    destruct (Z.ltb_spec (map_bytes d) (2 ^ W)).
    + unfold checked_add. destruct (Z.ltb_spec (t + map_bytes d) (2 ^ W)).
      * rewrite IH by lia. by rewrite Z.add_assoc.
      * by rewrite (proj2 (Z.ltb_ge _ _)) by lia.
    + by rewrite (proj2 (Z.ltb_ge _ _)) by lia.
Qed.

Lemma pow2_W : 2 ^ 32 <= 2 ^ W.
Proof using HW. apply Z.pow_le_mono_r; lia. Qed.

(** The definitions a table can be built from. *)
Definition defs_fit (budget : Z) (defs : list MapDef) : Prop :=
  len defs <= MAX_MAPS /\ Forall def_valid defs /\ total_bytes defs <= budget /\ total_bytes defs <= MAP_BUDGET.

#[global] Instance def_valid_dec d : Decision (def_valid d).
Proof using . unfold def_valid. apply _. Defined.

#[global] Instance defs_fit_dec budget defs : Decision (defs_fit budget defs).
Proof using . unfold defs_fit. apply _. Defined.

#[global] Instance MapDef_eq_dec : EqDecision MapDef.
Proof using . solve_decision. Defined.

Lemma validate_Ok defs :
  Forall def_u32 defs ->
  (validate_map_defs defs = Ok tt /\ len defs <= MAX_MAPS /\ Forall def_valid defs /\
   required_bytes_checked defs = Some (total_bytes defs)) \/
  (exists msg, validate_map_defs defs = Err (ProgramDecodeFailed msg) /\
     ~ (len defs <= MAX_MAPS /\ Forall def_valid defs /\ total_bytes defs < 2 ^ W)).
Proof using HW.
  intros Hu. unfold validate_map_defs. rewrite Z.gtb_ltb.
  destruct (Z.ltb_spec MAX_MAPS (len defs)); [right; eexists; split; [reflexivity|lia]|].
  destruct (validate_each_spec defs Hu) as [[-> Hv]|(msg & -> & Hv)]; simpl.
  - pose proof pow2_W. unfold required_bytes_checked. rewrite required_valid by (done || lia).
    rewrite Z.add_0_l. destruct (Z.ltb_spec (total_bytes defs) (2 ^ W)); [by left|].
    right. eexists. split; [reflexivity|]. lia.
  - right. eexists. split; [reflexivity|]. tauto.
Qed.

Lemma validate_fit budget defs :
  Forall def_u32 defs -> defs_fit budget defs ->
  validate_map_defs defs = Ok tt /\ required_bytes_checked defs = Some (total_bytes defs).
Proof using HW.
  intros Hu (Hl & Hv & _ & Hb). destruct (validate_Ok defs Hu) as [(-> & _ & _ & ->)|(msg & _ & [])]; [done|].
  pose proof pow2_W. unfold MAP_BUDGET in Hb. split_and!; [done|done|lia].
Qed.

(** ** The layout *)

Definition instance_at (off : Z) (d : MapDef) : MapInstance :=
  mkInstance d (mkSlice off (map_bytes d)) (key_size d + value_size d).

(** Maps one after the other from offset [off]. *)
Fixpoint place (off : Z) (defs : list MapDef) : list MapInstance :=
  match defs with
  | [] => []
  | d :: ds => instance_at off d :: place (off + map_bytes d) ds
  end.

Lemma place_defs off defs : def <$> place off defs = defs.
Proof using . revert off. induction defs as [|d ds IH]; intros off; simpl; [done|by rewrite IH]. Qed.

Lemma place_length off defs : length (place off defs) = length defs.
Proof using . rewrite <- (place_defs off defs) at 2. by rewrite length_fmap. Qed.

Lemma place_lookup off defs i m :
  place off defs !! i = Some m <->
  exists d, defs !! i = Some d /\ m = instance_at (off + total_bytes (take i defs)) d.
Proof using .
  revert off i. induction defs as [|d ds IH]; intros off [|i]; simpl.
  1,2: split; [done|intros (? & ? & _); done].
  - rewrite Z.add_0_r. split; [intros [= <-]; eauto|intros (? & [= <-] & ->); done].
  - rewrite IH. by setoid_rewrite Z.add_assoc.
Qed.

Lemma total_app a b : total_bytes (a ++ b) = total_bytes a + total_bytes b.
Proof using . induction a as [|d a IH]; simpl; [done|]. rewrite IH. lia. Qed.

(** The [i]-th region lies before the [j]-th, and inside the total. *)
Lemma regions_ordered defs i j d :
  Forall def_valid defs -> defs !! i = Some d -> (i < j)%nat ->
  total_bytes (take i defs) + map_bytes d <= total_bytes (take j defs) <= total_bytes defs.
Proof using .
  intros Hv Hi Hij. split.
  - replace j with (S i + (j - S i))%nat by lia. rewrite <- take_take_drop, total_app.
    rewrite (take_S_r _ _ _ Hi), total_app. simpl.
    assert (0 <= total_bytes (take (j - S i) (drop (S i) defs))); [|lia].
    apply total_nonneg. by apply Forall_take, Forall_drop.
  - rewrite <- (take_drop j defs) at 2. rewrite total_app.
    assert (0 <= total_bytes (drop j defs)); [|lia]. apply total_nonneg. by apply Forall_drop.
Qed.

Lemma region_bounds defs i d :
  Forall def_valid defs -> defs !! i = Some d ->
  0 <= total_bytes (take i defs) /\ total_bytes (take i defs) + map_bytes d <= total_bytes defs.
Proof using .
  intros Hv Hi. split; [apply total_nonneg; by apply Forall_take|].
  pose proof (regions_ordered defs i (S i) d Hv Hi ltac:(lia)). lia.
Qed.

(** ** Effects of the writes *)

Lemma apply_writes_app r ws ws' : apply_writes r (ws ++ ws') = apply_writes (apply_writes r ws) ws'.
Proof using . apply fold_left_app. Qed.

Lemma byte_writes_app a x y : byte_writes a (x ++ y) = byte_writes a x ++ byte_writes (a + length x) y.
Proof using .
  revert a. induction x as [|b x IH]; intros a; simpl; [by rewrite Nat.add_0_r|].
  rewrite IH. by replace (S a + length x)%nat with (a + S (length x))%nat by lia.
Qed.

(** Bytes of the buffer after a block write. *)
Definition blit (b : list Z) (a : nat) (bs : list Z) : list Z := list_inserts a bs b.

Lemma apply_byte_writes r a bs :
  apply_writes r (byte_writes a bs) = mkRtc (blit (backing r) a bs) (map_count r) (rdefs r).
Proof using .
  unfold blit. revert r a. induction bs as [|b bs IH]; intros r a; [by destruct r|].
  cbn [byte_writes]. change (apply_writes r (WByte a b :: ?l)) with (apply_writes (apply_write r (WByte a b)) l).
  rewrite IH. cbn [apply_write backing map_count rdefs]. by rewrite insert_inserts.
Qed.

Lemma apply_def_writes r i ds :
  apply_writes r (def_writes i ds) = mkRtc (backing r) (map_count r) (list_inserts i ds (rdefs r)).
Proof using .
  revert r i. induction ds as [|d ds IH]; intros r i; [by destruct r|].
  cbn [def_writes]. change (apply_writes r (WDef i d :: ?l)) with (apply_writes (apply_write r (WDef i d)) l).
  rewrite IH. cbn [apply_write backing map_count rdefs]. by rewrite insert_inserts.
Qed.

(** Reading a block back, at the place written and elsewhere. *)
Lemma read_blit_same b a bs :
  (a + length bs <= length b)%nat -> take (length bs) (drop a (blit b a bs)) = bs.
Proof using .
  intros H. apply list_eq. intros k. destruct (decide (k < length bs)%nat) as [Hk|Hk].
  - rewrite lookup_take_lt, lookup_drop by done. unfold blit.
    rewrite list_lookup_inserts by lia. f_equal. lia.
  - rewrite !lookup_ge_None_2; rewrite ?length_take; done || lia.
Qed.

Lemma read_blit_disjoint b a bs a' n :
  (a' + n <= a \/ a + length bs <= a')%nat -> take n (drop a' (blit b a bs)) = take n (drop a' b).
Proof using .
  intros H. apply list_eq. intros k. destruct (decide (k < n)%nat) as [Hk|Hk].
  - rewrite !lookup_take_lt, !lookup_drop by done. unfold blit.
    destruct H; [rewrite list_lookup_inserts_lt by lia|rewrite list_lookup_inserts_ge by lia]; done.
  - rewrite !lookup_ge_None_2; rewrite ?length_take; done || lia.
Qed.

Lemma read_blit_inside b a bs a' n :
  (a <= a')%nat -> (a' + n <= a + length bs)%nat -> (a + length bs <= length b)%nat ->
  take n (drop a' (blit b a bs)) = take n (drop (a' - a) bs).
Proof using .
  intros H1 H2 H3. apply list_eq. intros k. destruct (decide (k < n)%nat) as [Hk|Hk].
  - rewrite !lookup_take_lt, !lookup_drop by done. unfold blit.
    rewrite list_lookup_inserts by lia. f_equal. lia.
  - rewrite !lookup_ge_None_2; rewrite ?length_take; done || lia.
Qed.

(** ** Building the table *)

Lemma raw_write_Ok a bs : 0 <= a -> a + len bs <= MAP_BUDGET -> raw_write a bs = Ok (byte_writes (Z.to_nat a) bs).
Proof using . intros H1 H2. unfold raw_write. by rewrite (proj2 (Z.leb_le _ _) H1), (proj2 (Z.leb_le _ _) H2). Qed.

Lemma raw_read_Ok b a n :
  0 <= a -> 0 <= n -> a + n <= len b -> raw_read b a n = Ok (take (Z.to_nat n) (drop (Z.to_nat a) b)).
Proof using .
  intros H1 H2 H3. unfold raw_read.
  by rewrite (proj2 (Z.leb_le _ _) H1), (proj2 (Z.leb_le _ _) H2), (proj2 (Z.leb_le _ _) H3).
Qed.

Lemma budget_W x : x <= MAP_BUDGET -> x < 2 ^ W.
Proof using HW. pose proof pow2_W. unfold MAP_BUDGET. lia. Qed.

(** The bounds every size computation of a valid layout stays within. *)
Lemma alloc_step_bounds off d ds :
  def_valid d -> Forall def_valid ds -> 0 <= off -> off + (map_bytes d + total_bytes ds) <= MAP_BUDGET ->
  0 < key_size d + value_size d < 2 ^ W /\ 0 < map_bytes d < 2 ^ W /\ 0 <= off + map_bytes d < 2 ^ W /\
  off + map_bytes d + total_bytes ds <= MAP_BUDGET.
Proof using HW.
  intros Hd Hds Hoff Hb. pose proof (map_bytes_pos d Hd). pose proof (total_nonneg ds Hds).
  pose proof (budget_W (key_size d + value_size d)). pose proof (budget_W (map_bytes d)).
  pose proof (budget_W (off + map_bytes d)). lia.
Qed.

Lemma alloc_loop_spec defs off :
  Forall def_valid defs -> 0 <= off -> off + total_bytes defs <= MAP_BUDGET ->
  alloc_loop defs off =
  Ok (place off defs, byte_writes (Z.to_nat off) (replicate (Z.to_nat (total_bytes defs)) 0)).
Proof using HW.
  intros Hv. revert off. induction Hv as [|d ds Hd Hds IH]; intros off Hoff Hb; [done|].
  cbn [alloc_loop total_bytes foldr] in *. fold (total_bytes ds) in *.
  destruct (alloc_step_bounds off d ds Hd Hds Hoff Hb) as (He & Hm & Ho & Hb').
  rewrite (checked_add_lt W) by lia. cbn [expect res_bind].
  change ((key_size d + value_size d) * max_entries d) with (map_bytes d).
  assert (checked_mul W (key_size d + value_size d) (max_entries d) = Some (map_bytes d)) as ->
    by (apply checked_mul_Some; unfold map_bytes in *; lia).
  pose proof (total_nonneg ds Hds). cbn [expect res_bind]. unfold make_map_data.
  rewrite raw_write_Ok by (unfold len; rewrite ?length_replicate; lia). cbn [res_bind].
  rewrite arith_u_in_range by lia. cbn [res_bind]. rewrite IH by lia. cbn [res_bind place].
  do 2 f_equal. rewrite (Z2Nat.inj_add (map_bytes d)), replicate_add, byte_writes_app by lia.
  rewrite length_replicate. do 2 f_equal. lia.
Qed.

Lemma rebuild_loop_spec defs off :
  Forall def_valid defs -> 0 <= off -> off + total_bytes defs <= MAP_BUDGET ->
  rebuild_loop defs off = Ok (place off defs).
Proof using HW.
  intros Hv. revert off. induction Hv as [|d ds Hd Hds IH]; intros off Hoff Hb; [done|].
  cbn [rebuild_loop total_bytes foldr] in *. fold (total_bytes ds) in *.
  destruct (alloc_step_bounds off d ds Hd Hds Hoff Hb) as (He & Hm & Ho & Hb').
  rewrite arith_u_in_range by lia. cbn [res_bind].
  change ((key_size d + value_size d) * max_entries d) with (map_bytes d).
  rewrite arith_u_in_range by lia. cbn [res_bind]. rewrite arith_u_in_range by lia. cbn [res_bind].
  by rewrite IH by lia.
Qed.

(** The table built from [defs]. *)
Definition table (base budget : Z) (defs : list MapDef) : MapStorage :=
  mkStorage (place 0 defs) (data_ptr base <$> place 0 defs) budget.

(** All the writes of an allocation. *)
Definition alloc_writes (defs : list MapDef) : list Write :=
  byte_writes 0 (replicate (Z.to_nat (total_bytes defs)) 0) ++ write_rtc_layout defs.

Lemma allocate_fit base ms defs :
  Forall def_u32 defs -> defs_fit (budget_bytes ms) defs ->
  allocate base ms defs = Ok (table base (budget_bytes ms) defs, alloc_writes defs).
Proof using HW.
  intros Hu Hf. destruct (validate_fit _ _ Hu Hf) as [Hv Hr]. destruct Hf as (_ & Hd & Hb & HB).
  unfold allocate. rewrite Hv, Hr. cbn [res_bind ok_or].
  rewrite !Z.gtb_ltb, (proj2 (Z.ltb_ge _ _) Hb), (proj2 (Z.ltb_ge _ _) HB).
  by rewrite alloc_loop_spec by (done || lia).
Qed.

Lemma allocate_unfit base ms defs :
  Forall def_u32 defs -> ~ defs_fit (budget_bytes ms) defs ->
  (exists msg, allocate base ms defs = Err (ProgramDecodeFailed msg)) \/
  exists available, allocate base ms defs = Err (MapBudgetExceeded (total_bytes defs) available) /\
    (available = budget_bytes ms \/ available = MAP_BUDGET) /\ available < total_bytes defs.
Proof using HW.
  intros Hu Hn. unfold allocate. destruct (validate_Ok defs Hu) as [(-> & Hl & Hv & ->)|(msg & -> & _)]; [|by left; eauto].
  cbn [res_bind ok_or]. rewrite !Z.gtb_ltb. right.
  destruct (Z.ltb_spec (budget_bytes ms) (total_bytes defs)); [by eauto|].
  destruct (Z.ltb_spec MAP_BUDGET (total_bytes defs)); [by eauto|].
  destruct Hn. by split_and!.
Qed.

(** ** One map *)

Definition vaddr (m : MapInstance) (key : Z) : Z := ptr (data m) + (key * entry_size m + key_size (def m)).

Lemma entry_bounds off d key :
  def_valid d -> 0 <= key < max_entries d -> 0 <= off -> off + map_bytes d <= MAP_BUDGET ->
  let o := key * (key_size d + value_size d) in
  0 <= o < 2 ^ W /\ 0 <= o + key_size d < 2 ^ W /\ 0 <= o + key_size d + value_size d < 2 ^ W /\
  o + key_size d + value_size d <= map_bytes d /\ 4 <= o + key_size d.
Proof using HW.
  intros (_ & Hk & Hm & Hv) Hkey Hoff Hb o.
  assert (0 <= o) by (subst o; nia). assert (o + key_size d + value_size d <= map_bytes d) by (subst o; unfold map_bytes; nia).
  pose proof (budget_W (o + key_size d + value_size d)). lia.
Qed.

Lemma lookup_in off d b key :
  def_valid d -> 0 <= key < max_entries d -> 0 <= off -> off + map_bytes d <= MAP_BUDGET -> len b = MAP_BUDGET ->
  lookup (instance_at off d) b key =
  Ok (Some (take (Z.to_nat (value_size d)) (drop (Z.to_nat (vaddr (instance_at off d) key)) b))).
Proof using HW.
  intros Hd Hkey Hoff Hb Hlen. destruct (entry_bounds off d key Hd Hkey Hoff Hb) as (H1 & H2 & H3 & H4 & H5).
  destruct Hd as (_ & Hk & Hm & Hv). unfold lookup. cbn [def entry_size data instance_at slice_len].
  rewrite Z.geb_leb, (proj2 (Z.leb_gt _ _)) by lia.
  do 3 (rewrite arith_u_in_range by lia; cbn [res_bind]).
  rewrite Z.gtb_ltb, (proj2 (Z.ltb_ge _ _)) by lia. unfold slice_index. cbn [slice_len ptr].
  rewrite !(proj2 (Z.leb_le _ _)) by lia. cbn [andb]. rewrite raw_read_Ok by lia. cbn [res_bind].
  unfold vaddr. cbn [data ptr entry_size def instance_at]. do 4 f_equal. lia.
Qed.

Lemma lookup_out off d b key : max_entries d <= key -> lookup (instance_at off d) b key = Ok None.
Proof using . intros H. unfold lookup. cbn. by rewrite Z.geb_leb, (proj2 (Z.leb_le _ _) H). Qed.

Lemma update_in off d key v :
  def_valid d -> 0 <= key < max_entries d -> 0 <= off -> off + map_bytes d <= MAP_BUDGET -> len v = value_size d ->
  update (instance_at off d) key v = Ok (byte_writes (Z.to_nat (vaddr (instance_at off d) key)) v).
Proof using HW.
  intros Hd Hkey Hoff Hb Hlen. destruct (entry_bounds off d key Hd Hkey Hoff Hb) as (H1 & H2 & H3 & H4 & H5).
  destruct Hd as (_ & Hk & Hm & Hv). unfold update. cbn [def entry_size data instance_at slice_len].
  rewrite Z.geb_leb, (proj2 (Z.leb_gt _ _)) by lia. rewrite Hlen, Z.eqb_refl. cbn [negb].
  do 3 (rewrite arith_u_in_range by lia; cbn [res_bind]).
  rewrite Z.gtb_ltb, (proj2 (Z.ltb_ge _ _)) by lia. unfold slice_copy. cbn [slice_len ptr].
  rewrite !(proj2 (Z.leb_le _ _)) by lia. cbn [andb]. rewrite (proj2 (Z.eqb_eq _ _)) by lia.
  unfold vaddr. cbn [data ptr entry_size def instance_at]. by rewrite raw_write_Ok by lia.
Qed.

(** ** The table and the layout record *)

(** The record describes [defs]. *)
Definition records (r : Rtc) (defs : list MapDef) : Prop :=
  map_count r = len defs /\ take (length defs) (rdefs r) = defs.

Lemma from_rtc_ext base r r' budget :
  map_count r = map_count r' -> rdefs r = rdefs r' -> from_rtc base r budget = from_rtc base r' budget.
Proof using . intros E1 E2. unfold from_rtc. by rewrite E1, E2. Qed.

Lemma from_rtc_invalid base r budget : map_count r = 0 -> from_rtc base r budget = Ok None.
Proof using . intros E. unfold from_rtc. by rewrite E. Qed.

Lemma from_rtc_records base r budget defs :
  Forall def_u32 defs -> defs_fit budget defs -> records r defs -> defs <> [] ->
  from_rtc base r budget = Ok (Some (table base budget defs)).
Proof using HW.
  intros Hu Hf [Hc Hd] Hne. destruct (validate_fit _ _ Hu Hf) as [Hv Hr]. destruct Hf as (Hl & Hds & Hb & HB).
  unfold from_rtc. rewrite Hc.
  assert (0 < len defs) by (destruct defs; [done|]; rewrite len_cons; pose proof (len_nonneg defs); lia).
  rewrite (proj2 (Z.eqb_neq _ _)), Z.gtb_ltb, (proj2 (Z.ltb_ge _ _) Hl) by lia. cbn [orb].
  unfold len. rewrite Nat2Z.id, Hd, Hr, !Z.gtb_ltb, (proj2 (Z.ltb_ge _ _) Hb), (proj2 (Z.ltb_ge _ _) HB). cbn [orb].
  rewrite Hv, rebuild_loop_spec by (done || lia). done.
Qed.

(** Whatever the memory holds, the outcome is [None] or the table of a layout
    that fits. *)
Lemma from_rtc_cases base r budget :
  Forall def_u32 (rdefs r) ->
  from_rtc base r budget = Ok None \/
  exists defs, defs_fit budget defs /\ defs = take (Z.to_nat (map_count r)) (rdefs r) /\
    from_rtc base r budget = Ok (Some (table base budget defs)).
Proof using HW.
  intros Hu. unfold from_rtc. set (defs := take _ _).
  assert (Hu' : Forall def_u32 defs) by by apply Forall_take.
  destruct (_ || _); [by left|].
  destruct (validate_Ok defs Hu') as [(-> & Hl & Hv & ->)|(msg & -> & _)].
  - rewrite !Z.gtb_ltb. destruct (Z.ltb_spec budget (total_bytes defs)), (Z.ltb_spec MAP_BUDGET (total_bytes defs));
      simpl; try by left.
    right. exists defs. rewrite rebuild_loop_spec by (done || lia). by split_and!.
  - left. destruct (required_bytes_checked defs); [|done]. by destruct (_ || _).
Qed.

Lemma blit_len b a bs : len (blit b a bs) = len b.
Proof using . unfold len, blit. by rewrite length_inserts. Qed.

Lemma layout_writes r defs :
  rtc_ok r -> len defs <= MAX_MAPS ->
  let r' := apply_writes r (write_rtc_layout defs) in
  records r' defs /\ backing r' = backing r /\ rtc_ok r'.
Proof using .
  intros [Hb Hd] Hl. unfold write_rtc_layout. rewrite Z.min_l by done.
  assert (take (Z.to_nat (len defs)) defs = defs) as -> by (unfold len; rewrite Nat2Z.id; by apply take_ge).
  change (WCount 0 :: ?l ++ ?k) with ([WCount 0] ++ l ++ k). rewrite !apply_writes_app, apply_def_writes.
  cbn [apply_writes fold_left apply_write backing map_count rdefs].
  split; [|split; [done|]]; unfold records, rtc_ok; cbn [backing map_count rdefs].
  - split; [apply wrap_small; unfold uN, MAX_MAPS in *; pose proof (len_nonneg defs); lia|].
    apply (take_inserts (rdefs r) defs). unfold len in *. lia.
  - split; [done|]. unfold len in *. by rewrite length_inserts.
Qed.

(** The state an allocation leaves: the record of the new layout, zeroed maps. *)
Lemma alloc_writes_spec r defs budget :
  rtc_ok r -> defs_fit budget defs ->
  let r' := apply_writes r (alloc_writes defs) in
  records r' defs /\ backing r' = blit (backing r) 0 (replicate (Z.to_nat (total_bytes defs)) 0) /\ rtc_ok r'.
Proof using .
  intros Hr (Hl & _). unfold alloc_writes. rewrite apply_writes_app, apply_byte_writes.
  match goal with |- context [mkRtc ?b ?c ?d] => set (r1 := mkRtc b c d) end.
  assert (Hr1 : rtc_ok r1). { destruct Hr as [Hb Hd]. split; [|done]. simpl. by rewrite blit_len. }
  exact (layout_writes r1 defs Hr1 Hl).
Qed.

(** ** Reads and updates through the table *)

Lemma get_table base budget defs i m :
  get (table base budget defs) i = Some m <->
  exists d, defs !! i = Some d /\ m = instance_at (total_bytes (take i defs)) d.
Proof using . unfold get, table. cbn [maps]. by rewrite place_lookup. Qed.

(** The bytes of an entry of a fitting layout lie inside its region. *)
Lemma vaddr_bounds budget defs i d key :
  defs_fit budget defs -> defs !! i = Some d -> 0 <= key < max_entries d ->
  let o := total_bytes (take i defs) in
  0 <= o /\ o + map_bytes d <= MAP_BUDGET /\ def_valid d /\
  o < vaddr (instance_at o d) key /\ vaddr (instance_at o d) key + value_size d <= o + map_bytes d.
Proof using HW.
  intros (_ & Hv & _ & HB) Hi Hkey o. destruct (region_bounds defs i d Hv Hi) as [Ho Hr].
  assert (Hd : def_valid d) by (eapply list.Forall_lookup_1; eauto). subst o.
  destruct (entry_bounds _ d key Hd Hkey Ho ltac:(lia)) as (_ & _ & _ & H4 & H5).
  unfold vaddr. cbn [instance_at data ptr entry_size def]. split_and!; [done|lia|done|lia|lia].
Qed.

(** Different entries occupy disjoint bytes. *)
Lemma entries_disjoint budget defs i j d e k l :
  defs_fit budget defs -> defs !! i = Some d -> defs !! j = Some e ->
  0 <= k < max_entries d -> 0 <= l < max_entries e -> (i, k) <> (j, l) ->
  let a := vaddr (instance_at (total_bytes (take i defs)) d) k in
  let b := vaddr (instance_at (total_bytes (take j defs)) e) l in
  a + value_size d <= b \/ b + value_size e <= a.
Proof using HW.
  intros Hf Hi Hj Hk Hl Hne a b.
  destruct (vaddr_bounds budget defs i d k Hf Hi Hk) as (_ & _ & Hd & Ha1 & Ha2).
  destruct (vaddr_bounds budget defs j e l Hf Hj Hl) as (_ & _ & _ & Hb1 & Hb2). fold a in Ha1, Ha2. fold b in Hb1, Hb2.
  destruct Hf as (_ & Hv & _ & _). destruct (lt_eq_lt_dec i j) as [[Hij|Hij]|Hij].
  - pose proof (regions_ordered defs i j d Hv Hi Hij). lia.
  - subst j. assert (e = d) as -> by congruence. assert (k <> l) by congruence.
    subst a b. unfold vaddr. cbn [instance_at data ptr entry_size def]. destruct Hd as (_ & -> & _ & Hvs).
    destruct (Z.lt_ge_cases k l); [left|right]; nia.
  - pose proof (regions_ordered defs j i e Hv Hj Hij). lia.
Qed.

(** What the node reads from entry [key] of map [i]. *)
Definition read_entry (ms : MapStorage) (r : Rtc) (i : nat) (key : Z) : NodeResult (option (list Z)) :=
  match get ms i with Some m => lookup m (backing r) key | None => Ok None end.

(** Updates an entry, as the [map_update_elem] helper does: an error leaves the
    memory as it was. *)
Definition write_entry (ms : MapStorage) (r : Rtc) (i : nat) (key : Z) (v : list Z) : NodeResult Rtc :=
  match get ms i with
  | Some m => let? ws := update m key v in Ok (apply_writes r ws)
  | None => Ok r
  end.

Lemma read_entry_in base budget defs r i d key :
  defs_fit budget defs -> rtc_ok r -> defs !! i = Some d -> 0 <= key < max_entries d ->
  read_entry (table base budget defs) r i key =
  Ok (Some (take (Z.to_nat (value_size d))
    (drop (Z.to_nat (vaddr (instance_at (total_bytes (take i defs)) d) key)) (backing r)))).
Proof using HW.
  intros Hf [Hr _] Hi Hkey. destruct (vaddr_bounds budget defs i d key Hf Hi Hkey) as (H1 & H2 & Hd & _).
  unfold read_entry. rewrite (proj2 (get_table base budget defs i _)) by eauto. by apply lookup_in.
Qed.

Lemma read_entry_out base budget defs r i key :
  (forall d, defs !! i = Some d -> max_entries d <= key) ->
  read_entry (table base budget defs) r i key = Ok None.
Proof using .
  intros H. unfold read_entry. destruct (get _ i) as [m|] eqn:Hm; [|done].
  apply get_table in Hm as (d & Hd & ->). by apply lookup_out, H.
Qed.

Lemma write_entry_in base budget defs r i d key v :
  defs_fit budget defs -> defs !! i = Some d -> 0 <= key < max_entries d -> len v = value_size d ->
  write_entry (table base budget defs) r i key v =
  Ok (mkRtc (blit (backing r) (Z.to_nat (vaddr (instance_at (total_bytes (take i defs)) d) key)) v) (map_count r) (rdefs r)).
Proof using HW.
  intros Hf Hi Hkey Hv. destruct (vaddr_bounds budget defs i d key Hf Hi Hkey) as (H1 & H2 & Hd & _).
  unfold write_entry. rewrite (proj2 (get_table base budget defs i _)) by eauto.
  rewrite update_in by done. cbn [res_bind]. by rewrite apply_byte_writes.
Qed.

(** Every update through the table returns or reports an error, and leaves the
    layout record alone. *)
Lemma write_entry_cases base budget defs r i key v :
  defs_fit budget defs -> 0 <= key ->
  (exists e, write_entry (table base budget defs) r i key v = Err e) \/
  exists r', write_entry (table base budget defs) r i key v = Ok r' /\
    map_count r' = map_count r /\ rdefs r' = rdefs r /\ len (backing r') = len (backing r).
Proof using HW.
  intros Hf Hk. destruct (defs !! i) as [d|] eqn:Hi.
  - destruct (Z.lt_ge_cases key (max_entries d)) as [Hm|Hm].
    + destruct (Z.eq_dec (len v) (value_size d)) as [Hl|Hl].
      * right. rewrite (write_entry_in _ _ _ _ _ d) by (done || lia). eexists. split; [done|]. simpl. by rewrite blit_len.
      * left. unfold write_entry. rewrite (proj2 (get_table base budget defs i _)) by eauto. unfold update.
        cbn [def instance_at]. rewrite Z.geb_leb, (proj2 (Z.leb_gt _ _) Hm), (proj2 (Z.eqb_neq _ _) Hl). by eexists.
    + left. unfold write_entry. rewrite (proj2 (get_table base budget defs i _)) by eauto. unfold update.
      cbn [def instance_at]. rewrite Z.geb_leb, (proj2 (Z.leb_le _ _) Hm). by eexists.
  - right. unfold write_entry. destruct (get _ i) as [m|] eqn:Hm; [|by eauto].
    apply get_table in Hm as (d & Hd & _). congruence.
Qed.

(** ** The abstract maps

    What the table promises: per map an array of [max_entries] values, all zero
    at first, updated by index. *)

Definition Abs : Type := nat -> Z -> list Z.

Inductive MapOp : Type :=
  | OpUpdate (i : nat) (key : Z) (v : list Z)
  | OpInitial (initial : list (list Z)).

Inductive Reply : Type :=
  | RNoMap
  | RDone
  | RErr (e : NodeError).

Definition abs_zero (defs : list MapDef) : Abs := fun i _ =>
  match defs !! i with Some d => replicate (Z.to_nat (value_size d)) 0 | None => [] end.

Definition abs_set (A : Abs) (i : nat) (key : Z) (v : list Z) : Abs := fun j l =>
  if decide (j = i /\ l = key) then v else A j l.

(** Initial data replaces entry 0 of the maps whose value size it has. *)
Definition abs_initial (defs : list MapDef) (n : nat) (initial : list (list Z)) (A : Abs) : Abs := fun i key =>
  if (key =? 0) && (n <=? i)%nat then
    match initial !! (i - n)%nat, defs !! i with
    | Some bs, Some d => if (0 <? len bs) && (len bs =? value_size d) then bs else A i key
    | _, _ => A i key
    end
  else A i key.

Definition abs_exec (defs : list MapDef) (A : Abs) (op : MapOp) : Abs * Reply :=
  match op with
  | OpUpdate i key v =>
      match defs !! i with
      | None => (A, RNoMap)
      | Some d =>
          if key <? max_entries d then
            if len v =? value_size d then (abs_set A i key v, RDone)
            else (A, RErr (MapValueSizeMismatch (value_size d) (len v)))
          else (A, RErr (MapKeyOutOfBounds key (max_entries d)))
      end
  | OpInitial initial => (abs_initial defs 0 initial A, RDone)
  end.

Fixpoint abs_run (defs : list MapDef) (A : Abs) (ops : list MapOp) : Abs * list Reply :=
  match ops with
  | [] => (A, [])
  | op :: ops' =>
      let '(A1, p) := abs_exec defs A op in
      let '(A2, ps) := abs_run defs A1 ops' in (A2, p :: ps)
  end.

Definition abs_read (defs : list MapDef) (A : Abs) (i : nat) (key : Z) : option (list Z) :=
  match defs !! i with
  | Some d => if key <? max_entries d then Some (A i key) else None
  | None => None
  end.

(** The same operations on the table and the RTC memory. *)
Definition exec_op (ms : MapStorage) (r : Rtc) (op : MapOp) : NodeResult (Rtc * Reply) :=
  match op with
  | OpUpdate i key v =>
      match get ms i with
      | None => Ok (r, RNoMap)
      | Some m =>
          match update m key v with
          | Ok ws => Ok (apply_writes r ws, RDone)
          | Err e => Ok (r, RErr e)
          | Panic => Panic
          | UB => UB
          end
      end
  | OpInitial initial => let? ws := apply_initial_data ms initial in Ok (apply_writes r ws, RDone)
  end.

Fixpoint run_ops (ms : MapStorage) (r : Rtc) (ops : list MapOp) : NodeResult (Rtc * list Reply) :=
  match ops with
  | [] => Ok (r, [])
  | op :: ops' =>
      let? '(r1, p) := exec_op ms r op in
      let? '(r2, ps) := run_ops ms r1 ops' in Ok (r2, p :: ps)
  end.

Definition key_ok (op : MapOp) : Prop := match op with OpUpdate _ key _ => uN 32 key | OpInitial _ => True end.

Lemma abs_initial_cons defs n n' d bs initial A i key :
  n' = S n -> defs !! n = Some d ->
  abs_initial defs n' initial
    (if (0 <? len bs) && (len bs =? value_size d) then abs_set A n 0 bs else A) i key =
  abs_initial defs n (bs :: initial) A i key.
Proof using .
  intros -> Hd. unfold abs_initial.
  destruct (Z.eqb_spec key 0) as [->|Hk]; cbn [andb].
  2: { destruct ((0 <? len bs) && _)%bool; [|done]. unfold abs_set. by rewrite decide_False by (by intros [_ ?]). }
  destruct (decide (i = n)) as [->|Hin].
  - rewrite (proj2 (Nat.leb_gt _ _)), Nat.leb_refl, Nat.sub_diag, Hd by lia. cbn.
    destruct ((0 <? len bs) && _)%bool; [|done]. unfold abs_set. by rewrite decide_True.
  - assert (Hsame : forall x : bool, (if x then abs_set A n 0 bs else A) i 0 = A i 0).
    { intros []; [|done]. unfold abs_set. rewrite decide_False; [done|]. by intros [? _]. }
    rewrite !Hsame. destruct (Nat.leb_spec (S n) i), (Nat.leb_spec n i); try lia; [|done].
    by replace (i - n)%nat with (S (i - S n)) by lia.
Qed.

Section Refinement.
Context (base budget : Z) (defs : list MapDef) (Hf : defs_fit budget defs).
Abbreviation ms := (table base budget defs).

(** The memory [r] holds the abstract maps [A]. *)
Definition holds (r : Rtc) (A : Abs) : Prop :=
  rtc_ok r /\ forall i d key, defs !! i = Some d -> 0 <= key < max_entries d ->
    read_entry ms r i key = Ok (Some (A i key)).

Lemma holds_ext r A B : holds r A -> (forall i key, A i key = B i key) -> holds r B.
Proof using . intros [H1 H2] HE. split; [done|]. intros i d key Hi Hk. by rewrite <- HE; eapply H2. Qed.

Lemma holds_read r A i key : holds r A -> 0 <= key -> read_entry ms r i key = Ok (abs_read defs A i key).
Proof using .
  intros [_ HA] Hk. unfold abs_read. destruct (defs !! i) as [d|] eqn:Hi.
  - destruct (Z.ltb_spec key (max_entries d)) as [Hm|Hm]; [by eapply HA|].
    apply read_entry_out. intros d' Hd'. by simplify_eq.
  - apply read_entry_out. congruence.
Qed.

(** One update. *)
Lemma holds_update r A i d key v :
  holds r A -> defs !! i = Some d -> 0 <= key < max_entries d -> len v = value_size d ->
  exists r', update (instance_at (total_bytes (take i defs)) d) key v =
      Ok (byte_writes (Z.to_nat (vaddr (instance_at (total_bytes (take i defs)) d) key)) v) /\
    r' = apply_writes r (byte_writes (Z.to_nat (vaddr (instance_at (total_bytes (take i defs)) d) key)) v) /\
    holds r' (abs_set A i key v) /\ map_count r' = map_count r /\ rdefs r' = rdefs r.
Proof using HW Hf.
  intros [[Hb Hr] HA] Hi Hk Hv. destruct (vaddr_bounds budget defs i d key Hf Hi Hk) as (H1 & H2 & Hd & H3 & H4).
  eexists. split; [by apply update_in|]. split; [done|]. rewrite apply_byte_writes. split; [|done].
  assert (Hok : forall b, len b = len (backing r) -> rtc_ok (mkRtc b (map_count r) (rdefs r))).
  { intros b Hl. split; [by rewrite <- Hb, <- Hl|done]. }
  split; [by apply Hok, blit_len|]. intros j e l Hj Hl. specialize (HA j e l Hj Hl). unfold abs_set.
  rewrite (read_entry_in _ _ _ _ _ e) by (done || by apply Hok, blit_len). cbn [backing].
  rewrite (read_entry_in _ _ _ _ _ e) in HA by done. destruct (decide _) as [[-> ->]|Hne].
  - assert (e = d) as -> by congruence. do 2 f_equal. rewrite <- Hv. unfold len at 1. rewrite Nat2Z.id.
    apply read_blit_same. unfold len in *. lia.
  - rewrite <- HA. do 2 f_equal. apply read_blit_disjoint.
    destruct (vaddr_bounds budget defs j e l Hf Hj Hl) as (H5 & _ & (_ & _ & _ & He) & H6 & _).
    destruct (entries_disjoint budget defs i j d e key l Hf Hi Hj Hk Hl) as [Hdis|Hdis]; [|unfold len in Hv; lia..].
    intros [= -> ->]. by apply Hne.
Qed.

(** The loop over the initial data, from map [length pre] on. *)
Lemma holds_initial pre ds initial r A :
  defs = pre ++ ds -> holds r A ->
  exists ws, apply_initial_from (place (total_bytes pre) ds) initial = Ok ws /\
    holds (apply_writes r ws) (abs_initial defs (length pre) initial A) /\
    map_count (apply_writes r ws) = map_count r /\ rdefs (apply_writes r ws) = rdefs r.
Proof using HW Hf.
  revert pre initial r A. induction ds as [|d ds IH]; intros pre [|bs initial] r A Hdefs HA.
  1,2,3: exists []; split; [done|]; split; [|done]; apply (holds_ext _ _ _ HA); intros i key; unfold abs_initial;
    destruct ((_ =? _) && _)%bool eqn:Hc; try done.
  - rewrite Hdefs, app_nil_r. apply andb_true_iff in Hc as [_ Hc%Nat.leb_le].
    rewrite (lookup_ge_None_2 pre i) by done. by destruct (_ !! _).
  - assert (Hi : defs !! length pre = Some d) by (rewrite Hdefs; by apply list_lookup_middle).
    assert (Ht : take (length pre) defs = pre) by (rewrite Hdefs; apply take_app_length).
    assert (Hv : def_valid d) by (destruct Hf as (_ & Hv & _); eapply list.Forall_lookup_1; eauto).
    assert (Hstep : exists ws,
      match bs with
      | [] => Ok []
      | _ => if len bs =? value_size d then
               match update (instance_at (total_bytes pre) d) 0 bs with Err _ => Ok [] | x => x end
             else Ok []
      end = Ok ws /\
      holds (apply_writes r ws)
        (if (0 <? len bs) && (len bs =? value_size d) then abs_set A (length pre) 0 bs else A) /\
      map_count (apply_writes r ws) = map_count r /\ rdefs (apply_writes r ws) = rdefs r).
    { destruct bs as [|b0 bs']; [by exists []|]. rewrite (proj2 (Z.ltb_lt 0 _)) by (rewrite len_cons; pose proof (len_nonneg bs'); lia).
      destruct (Z.eqb_spec (len (b0 :: bs')) (value_size d)) as [Hl|Hl]; [|by exists []]. cbn [andb].
      destruct (holds_update r A (length pre) d 0 (b0 :: bs') HA Hi) as (r' & Hu & -> & Hh & Hm & Hr);
        [destruct Hv as (_ & _ & Hv & _); lia|done|].
      rewrite Ht in *. rewrite Hu. eauto. }
    destruct Hstep as (ws & Hws & HA1 & Hm1 & Hr1). cbn [place apply_initial_from def instance_at]. rewrite Hws. cbn [res_bind].
    destruct (IH (pre ++ [d]) initial _ _ ltac:(by rewrite <- app_assoc) HA1) as (ws' & Hws' & HA2 & Hm2 & Hr2).
    rewrite total_app in Hws'. cbn [total_bytes foldr] in Hws'. rewrite Z.add_0_r in Hws'. rewrite Hws'. cbn [res_bind].
    exists (ws ++ ws'). rewrite apply_writes_app. split; [done|]. split; [|split; congruence].
    apply (holds_ext _ _ _ HA2). intros i key. apply abs_initial_cons; [by rewrite length_app, Nat.add_1_r|done].
Qed.

Lemma exec_op_refines r A op :
  holds r A -> key_ok op ->
  exists r', exec_op ms r op = Ok (r', (abs_exec defs A op).2) /\ holds r' (abs_exec defs A op).1 /\
    map_count r' = map_count r /\ rdefs r' = rdefs r.
Proof using HW Hf.
  intros HA Hk. destruct op as [i key v|initial]; cbn [exec_op abs_exec].
  - destruct (defs !! i) as [d|] eqn:Hi.
    + rewrite (proj2 (get_table base budget defs i _)) by eauto.
      destruct (Z.ltb_spec key (max_entries d)) as [Hm|Hm].
      * destruct (Z.eqb_spec (len v) (value_size d)) as [Hl|Hl].
        -- destruct (holds_update r A i d key v HA Hi ltac:(unfold key_ok, uN in Hk; lia) Hl) as (r' & -> & -> & Hh).
           eauto.
        -- unfold update. cbn [def instance_at].
           rewrite Z.geb_leb, (proj2 (Z.leb_gt _ _) Hm), (proj2 (Z.eqb_neq _ _) Hl). cbn [negb]. eauto.
      * unfold update. cbn [def instance_at]. rewrite Z.geb_leb, (proj2 (Z.leb_le _ _) Hm). eauto.
    + destruct (get ms i) as [m|] eqn:Hm; [|by eauto]. apply get_table in Hm as (d & Hd & _). congruence.
  - destruct (holds_initial [] defs initial r A eq_refl HA) as (ws & Hws & Hh & Hc). unfold apply_initial_data.
    change (maps ms) with (place (total_bytes []) defs). rewrite Hws. cbn [res_bind]. eauto.
Qed.

Lemma run_ops_refines ops r A :
  holds r A -> Forall key_ok ops ->
  exists r', run_ops ms r ops = Ok (r', (abs_run defs A ops).2) /\ holds r' (abs_run defs A ops).1 /\
    map_count r' = map_count r /\ rdefs r' = rdefs r.
Proof using HW Hf.
  intros HA Hk. revert r A HA. induction Hk as [|op ops Hop Hops IH]; intros r A HA; cbn [run_ops abs_run]; [by eauto|].
  destruct (exec_op_refines r A op HA Hop) as (r1 & -> & H1 & Hc1 & Hr1). destruct (abs_exec defs A op) as [A1 p]. cbn [fst snd res_bind] in *.
  destruct (IH r1 A1 H1) as (r2 & -> & H2 & Hc2 & Hr2). destruct (abs_run defs A1 ops) as [A2 ps]. cbn [fst snd res_bind] in *.
  eexists. split; [done|]. split; [done|]. split; congruence.
Qed.

Lemma holds_zero r b : rtc_ok r -> backing r = blit b 0 (replicate (Z.to_nat (total_bytes defs)) 0) -> holds r (abs_zero defs).
Proof using HW Hf.
  intros Hr Hb. split; [done|]. intros i d key Hi Hk. rewrite (read_entry_in _ _ _ _ _ d) by done.
  destruct (vaddr_bounds budget defs i d key Hf Hi Hk) as (H1 & _ & (_ & _ & _ & Hd) & H2 & H3).
  destruct Hf as (_ & Hv & _ & HB). destruct (region_bounds defs i d Hv Hi) as [_ Hreg].
  destruct Hr as [Hlen _]. rewrite Hb, blit_len in Hlen. unfold len in Hlen.
  rewrite Hb, read_blit_inside by (rewrite ?length_replicate; lia). unfold abs_zero. rewrite Hi.
  rewrite drop_replicate, take_replicate. do 3 f_equal. lia.
Qed.

Lemma holds_allocated r :
  rtc_ok r -> let r' := apply_writes r (alloc_writes defs) in holds r' (abs_zero defs) /\ records r' defs.
Proof using HW Hf.
  intros Hr r'. destruct (alloc_writes_spec r defs budget Hr Hf) as (H1 & H2 & H3). split; [|done]. by eapply holds_zero.
Qed.

(** The pointers handed to the interpreter tell the maps apart. *)
Lemma pointers_NoDup : NoDup (map_pointers ms).
Proof using Hf.
  apply NoDup_alt. intros i j p. unfold map_pointers, table. cbn [cached_ptrs].
  rewrite !list_lookup_fmap_Some. intros (m & -> & Hm) (m' & Hp & Hm').
  apply place_lookup in Hm as (d & Hi & ->). apply place_lookup in Hm' as (e & Hj & ->).
  unfold data_ptr in Hp. cbn [instance_at data ptr] in Hp. destruct Hf as (_ & Hv & _ & HB).
  destruct (region_bounds defs i d Hv Hi) as [Hi1 Hi2]. destruct (region_bounds defs j e Hv Hj) as [Hj1 Hj2].
  assert (def_valid d) as Hd%map_bytes_pos by (eapply list.Forall_lookup_1; eauto).
  assert (def_valid e) as He%map_bytes_pos by (eapply list.Forall_lookup_1; eauto).
  apply wrap_inj in Hp; [|lia|unfold MAP_BUDGET in *; lia].
  destruct (lt_eq_lt_dec i j) as [[Hij|Hij]|Hij]; [|done|].
  - pose proof (regions_ordered defs i j d Hv Hi Hij). lia.
  - pose proof (regions_ordered defs j i e Hv Hj Hij). lia.
Qed.
End Refinement.

(** ** Resets *)

Lemma def_eqb_eq a b : def_eqb a b = true <-> a = b.
Proof using .
  destruct a as [a1 a2 a3 a4], b as [b1 b2 b3 b4]. unfold def_eqb. cbn. rewrite !andb_true_iff, !Z.eqb_eq.
  split; [by intros [[[-> ->] ->] ->]|by intros [= -> -> -> ->]].
Qed.

Lemma layout_matches_table base budget defs defs' : layout_matches (table base budget defs) defs' = true <-> defs = defs'.
Proof using .
  unfold layout_matches, table. cbn [maps]. unfold len. rewrite place_length.
  transitivity (length defs = length defs' /\ forallb (fun p => def_eqb (def p.1) p.2) (zip (place 0 defs) defs') = true).
  { destruct (Z.eqb_spec (Z.of_nat (length defs)) (Z.of_nat (length defs'))) as [He|He]; cbn [negb].
    - split; [intros H; split; [lia|exact H]|by intros [_ ?]].
    - split; [done|intros [? _]; lia]. }
  generalize 0. revert defs'. induction defs as [|d ds IH]; intros [|e es] off; cbn [length place zip zip_with forallb].
  1-3: split; [by intros [? _]|done].
  rewrite andb_true_iff, def_eqb_eq. cbn [fst snd instance_at def]. specialize (IH es (off + map_bytes d)).
  unfold zip in IH. split.
  - intros (Hl & -> & H). f_equal. apply IH. split; [lia|done].
  - intros [= -> E]. destruct (proj2 IH E) as [Hl H]. subst. split_and!; [lia|done|done].
Qed.

Lemma clear_loop_spec defs off :
  Forall def_valid defs -> 0 <= off -> off + total_bytes defs <= MAP_BUDGET ->
  clear_loop (place off defs) = Ok (byte_writes (Z.to_nat off) (replicate (Z.to_nat (total_bytes defs)) 0)).
Proof using .
  intros Hv. revert off. induction Hv as [|d ds Hd Hds IH]; intros off Hoff Hb; [done|].
  pose proof (map_bytes_pos d Hd). pose proof (total_nonneg ds Hds).
  cbn [clear_loop place total_bytes foldr] in *. fold (total_bytes ds) in *.
  unfold fill. cbn [data instance_at ptr slice_len].
  rewrite raw_write_Ok by (unfold len; rewrite ?length_replicate; lia). cbn [res_bind].
  rewrite IH by lia. cbn [res_bind]. f_equal.
  rewrite (Z2Nat.inj_add (map_bytes d)), replicate_add, byte_writes_app by lia.
  rewrite length_replicate. do 2 f_equal. lia.
Qed.

(** A prefix of byte writes leaves the record, a prefix of record writes leaves
    the count. *)
Lemma byte_prefix_layout a bs ws ws' r :
  byte_writes a bs = ws ++ ws' ->
  map_count (apply_writes r ws) = map_count r /\ rdefs (apply_writes r ws) = rdefs r.
Proof using .
  revert a bs r. induction ws as [|w ws IH]; intros a bs r E; [done|].
  destruct bs as [|b bs]; [done|]. injection E as <- E. exact (IH _ _ (apply_write r (WByte a b)) E).
Qed.

Lemma def_prefix_count i ds ws ws' r :
  def_writes i ds = ws ++ ws' -> map_count (apply_writes r ws) = map_count r.
Proof using .
  revert i ds r. induction ws as [|w ws IH]; intros i ds r E; [done|].
  destruct ds as [|d ds]; [done|]. injection E as <- E. exact (IH _ _ (apply_write r (WDef i d)) E).
Qed.

(** The record after a reset inside an allocation. *)
Lemma alloc_prefix base budget defs ws ws' r :
  alloc_writes defs = ws ++ ws' ->
  from_rtc base (apply_writes r ws) budget = from_rtc base r budget \/
  from_rtc base (apply_writes r ws) budget = Ok None \/ ws' = [].
Proof using .
  unfold alloc_writes, write_rtc_layout. set (zs := replicate _ 0). set (ds := take _ defs).
  intros E. apply app_eq_inv in E as [(k & E1 & E2)|(k & -> & E2)].
  { left. destruct (byte_prefix_layout _ _ _ _ r E1). by apply from_rtc_ext. }
  destruct k as [|w k].
  { left. rewrite app_nil_r. destruct (byte_prefix_layout 0 zs (byte_writes 0 zs) [] r (eq_sym (app_nil_r _))). by apply from_rtc_ext. }
  injection E2 as <- E2. right. rewrite apply_writes_app.
  change (apply_writes ?x (WCount 0 :: ?l)) with (apply_writes (apply_write x (WCount 0)) l).
  apply app_eq_inv in E2 as [(k' & E1 & E3)|(k' & -> & E3)].
  - left. apply from_rtc_invalid. by rewrite (def_prefix_count _ _ _ _ _ E1).
  - destruct k' as [|w k'].
    + left. apply from_rtc_invalid. rewrite app_nil_r.
      by rewrite (def_prefix_count 0 ds (def_writes 0 ds) [] _ (eq_sym (app_nil_r _))).
    + right. injection E3 as _ E3. by destruct k', ws'.
Qed.

(** ** Properties *)

(** C12: the maps behave as arrays.  An allocation that fits succeeds, and from
    then on, over any sequence of updates and initial-data loads, every reply and
    every value read is that of the abstract arrays: zero at first, an update
    seen at its own map and index and nowhere else, out-of-range keys and wrong
    sizes reported with no effect; nothing panics and no raw access leaves the
    buffer. *)
Theorem map_storage_refines base ms0 defs r ops :
  Forall def_u32 defs -> defs_fit (budget_bytes ms0) defs -> rtc_ok r -> Forall key_ok ops ->
  exists ms ws r', allocate base ms0 defs = Ok (ms, ws) /\
    run_ops ms (apply_writes r ws) ops = Ok (r', (abs_run defs (abs_zero defs) ops).2) /\
    forall i key, 0 <= key ->
      read_entry ms r' i key = Ok (abs_read defs (abs_run defs (abs_zero defs) ops).1 i key).
Proof using HW.
  intros Hu Hf Hr Hk. destruct (holds_allocated base _ defs Hf r Hr) as [Hz _].
  destruct (run_ops_refines base _ defs Hf ops _ _ Hz Hk) as (r' & Hrun & Hh & _).
  exists (table base (budget_bytes ms0) defs), (alloc_writes defs), r'. split; [by apply allocate_fit|]. split; [done|].
  intros i key Hkey. by apply holds_read.
Qed.

(** Map data survives deep sleep.  After an allocation and any sequence of
    updates, the table rebuilt from RTC memory alone is the one that was lost, so
    every entry reads as before the sleep. *)
Lemma maps_survive_sleep base ms0 defs r ops :
  Forall def_u32 defs -> defs_fit (budget_bytes ms0) defs -> rtc_ok r -> Forall key_ok ops -> defs <> [] ->
  exists ms ws r' ps, allocate base ms0 defs = Ok (ms, ws) /\ run_ops ms (apply_writes r ws) ops = Ok (r', ps) /\
    from_rtc base r' (budget_bytes ms0) = Ok (Some ms) /\ layout_matches ms defs = true.
Proof using HW.
  intros Hu Hf Hr Hk Hne. destruct (holds_allocated base _ defs Hf r Hr) as [Hz [Hc Hd]].
  destruct (run_ops_refines base _ defs Hf ops _ _ Hz Hk) as (r' & Hrun & _ & Hc' & Hd').
  exists (table base (budget_bytes ms0) defs), (alloc_writes defs), r', (abs_run defs (abs_zero defs) ops).2.
  split_and!; [by apply allocate_fit|done| |by apply layout_matches_table].
  apply from_rtc_records; try done. unfold records. by rewrite Hc', Hd'.
Qed.


(** The recovery trusts nothing.  Whatever bits the RTC memory holds at boot,
    the rebuild neither panics nor leaves the buffer: it reports no table, or one
    whose regions lie inside the buffer and the budget, whose pointers are
    distinct, and whose lookups all return. *)
Lemma from_rtc_sound base r budget :
  rtc_ok r -> Forall def_u32 (rdefs r) ->
  from_rtc base r budget = Ok None \/
  exists ms, from_rtc base r budget = Ok (Some ms) /\ NoDup (map_pointers ms) /\
    forall i m, get ms i = Some m ->
      0 <= ptr (data m) /\ ptr (data m) + slice_len (data m) <= Z.min budget MAP_BUDGET /\
      forall key, 0 <= key -> exists o, lookup m (backing r) key = Ok o.
Proof using HW.
  intros Hr Hu. destruct (from_rtc_cases base r budget Hu) as [H|(defs & Hf & _ & H)]; [by left|right].
  eexists. split; [exact H|]. split; [by apply pointers_NoDup|]. intros i m Hm.
  pose proof Hm as Hg. apply get_table in Hm as (d & Hi & ->). pose proof Hf as (_ & Hv & Hb & HB).
  destruct (region_bounds defs i d Hv Hi) as [H1 H2]. cbn [data instance_at ptr slice_len]. split_and!; [done|lia|].
  intros key Hk. destruct (Z.lt_ge_cases key (max_entries d)) as [Hm|Hm].
  - eexists. apply lookup_in; [|lia|done|lia|apply Hr]. eapply list.Forall_lookup_1; eauto.
  - eexists. by apply lookup_out.
Qed.

(** Allocation is all or nothing.  It succeeds exactly on definitions that are
    valid and fit both the budget and the buffer; any other list is refused with
    an error, and a refusal writes nothing. *)
Lemma allocate_outcomes base ms0 defs :
  Forall def_u32 defs ->
  (defs_fit (budget_bytes ms0) defs /\ exists ms ws, allocate base ms0 defs = Ok (ms, ws) /\
     NoDup (map_pointers ms) /\ forall defs', layout_matches ms defs' = true <-> defs' = defs) \/
  (~ defs_fit (budget_bytes ms0) defs /\
     ((exists msg, allocate base ms0 defs = Err (ProgramDecodeFailed msg)) \/
      exists available, allocate base ms0 defs = Err (MapBudgetExceeded (total_bytes defs) available) /\
        available < total_bytes defs)).
Proof using HW.
  intros Hu. destruct (decide (defs_fit (budget_bytes ms0) defs)) as [Hf|Hf]; [left|right]; (split; [done|]).
  - do 2 eexists. split; [by apply allocate_fit|]. split; [by apply pointers_NoDup|].
    intros defs'. rewrite layout_matches_table. by split.
  - destruct (allocate_unfit base ms0 defs Hu Hf) as [?|(a & ? & _ & ?)]; eauto.
Qed.

(** A factory reset forgets.  [clear_all] returns, every entry then reads as
    zero, and no table is recovered at the next boot. *)
Lemma clear_all_forgets base budget defs r :
  defs_fit budget defs -> rtc_ok r ->
  exists ws, clear_all (table base budget defs) = Ok ws /\
    (forall i key, 0 <= key ->
       read_entry (table base budget defs) (apply_writes r ws) i key = Ok (abs_read defs (abs_zero defs) i key)) /\
    forall b, from_rtc base (apply_writes r ws) b = Ok None.
Proof using HW.
  intros Hf Hr. pose proof Hf as (_ & Hv & _ & HB). unfold clear_all. cbn [table maps].
  rewrite clear_loop_spec by (done || lia). cbn [res_bind]. eexists. split; [done|].
  rewrite apply_writes_app, apply_byte_writes. cbn [apply_writes fold_left invalidate_rtc_layout apply_write backing rdefs map_count].
  split; [|intros b; by apply from_rtc_invalid]. intros i key Hk. apply holds_read; [|done].
  apply (holds_zero _ _ _ Hf _ (backing r)); [|done]. destruct Hr as [H1 H2]. split; cbn [backing rdefs]; [by rewrite blit_len|done].
Qed.
End Storage.

(** ** Witnesses *)

Definition demo_defs : list MapDef := [mkMapDef 1 4 2 3; mkMapDef 0 4 4 1].
Definition demo_rtc : Rtc := mkRtc (replicate 4096 7) 0 (replicate 16 (mkMapDef 0 0 0 0)).
Definition demo_ops : list MapOp :=
  [OpInitial [[]; [9; 8; 7; 6]]; OpUpdate 0 1 [5; 6]; OpUpdate 0 3 [5; 6]; OpUpdate 1 0 [1]].

Lemma demo_u32 : Forall def_u32 demo_defs.
Proof. repeat constructor; simpl; lia. Qed.

Lemma demo_fit : defs_fit MAP_BUDGET demo_defs.
Proof. apply (bool_decide_unpack _). vm_compute. exact I. Qed.

Lemma demo_rtc_ok : rtc_ok demo_rtc.
Proof. split; reflexivity. Qed.

Lemma demo_keys : Forall key_ok demo_ops.
Proof. repeat constructor; simpl; lia. Qed.

Lemma map_storage_refines_witness :
  exists ms ws r', allocate 32 true 4096 (storage_new MAP_BUDGET) demo_defs = Ok (ms, ws) /\
    run_ops 32 true ms (apply_writes demo_rtc ws) demo_ops =
      Ok (r', [RDone; RDone; RErr (MapKeyOutOfBounds 3 3); RErr (MapValueSizeMismatch 4 1)]) /\
    read_entry 32 true ms r' 0 1 = Ok (Some [5; 6]) /\ read_entry 32 true ms r' 0 2 = Ok (Some [0; 0]) /\
    read_entry 32 true ms r' 1 0 = Ok (Some [9; 8; 7; 6]).
Proof.
  destruct (map_storage_refines 32 true ltac:(lia) 4096 (storage_new MAP_BUDGET) demo_defs demo_rtc demo_ops
    demo_u32 demo_fit demo_rtc_ok demo_keys) as (ms & ws & r' & H1 & H2 & H3).
  exists ms, ws, r'. split; [exact H1|]. split; [exact H2|].
  split; [exact (H3 0%nat 1 ltac:(lia))|split; [exact (H3 0%nat 2 ltac:(lia))|exact (H3 1%nat 0 ltac:(lia))]].
Defined.


