(* ===== verification/AsyncQueue.v ===== *)
(** * The sleep-retained send queue

    The node's queue of blobs waiting for the next contact with the gateway
    ([sonde-node/src/async_queue.rs], firmware build).  It lives in RTC slow
    memory, which survives deep sleep, as a fixed table of slots whose number of
    used entries is committed last.

    As in [MapStorage] the memory is a value ([Layout]) and an operation returns
    its writes in program order, so that a reset leaves the result of a prefix of
    them.  The host build keeps the same layout on the heap. *)

From S2P Require Import Prelude Frame.

Definition MAX_MESSAGES : Z := 10.
Definition MAX_BLOB_SIZE : Z := MAX_APP_DATA_BLOB_SIZE.
Definition QUEUE_MAGIC : Z := 0x51554555.

Record RtcQueueItem := mkItem { ilen : Z; idata : list Z }.
Record Layout := mkLayout { magic : Z; count : Z; items : list RtcQueueItem }.

Definition layout_zero : Layout :=
  mkLayout 0 0 (replicate 10 (mkItem 0 (replicate (Z.to_nat MAX_BLOB_SIZE) 0))).

(** What the types of the fields say: ten slots of [MAX_BLOB_SIZE] bytes, and
    [u32] counters. *)
Definition layout_ok (q : Layout) : Prop :=
  len (items q) = MAX_MESSAGES /\ uN 32 (count q) /\
  Forall (fun it => uN 32 (ilen it) /\ len (idata it) = MAX_BLOB_SIZE) (items q).

Inductive Write : Type :=
  | WMagic (v : Z)
  | WCount (n : Z)
  | WLen (i : nat) (n : Z)
  | WData (i k : nat) (v : Z).

Definition upd_item (q : Layout) (i : nat) (f : RtcQueueItem -> RtcQueueItem) : Layout :=
  mkLayout (magic q) (count q) (alter f i (items q)).

Definition apply_write (q : Layout) (w : Write) : Layout :=
  match w with
  | WMagic v => mkLayout v (count q) (items q)
  | WCount n => mkLayout (magic q) n (items q)
  | WLen i n => upd_item q i (fun it => mkItem n (idata it))
  | WData i k v => upd_item q i (fun it => mkItem (ilen it) (<[k := v]> (idata it)))
  end.

Definition apply_writes (q : Layout) (ws : list Write) : Layout := fold_left apply_write ws q.

(** ** Operations *)

(** [AsyncQueue::new]. *)
Definition queue_new : list Write := [WCount 0; WMagic QUEUE_MAGIC].

(** The loop that validates the lengths of the used slots. *)
Fixpoint lens_ok (its : list RtcQueueItem) (n : nat) (i : nat) : Res unit bool :=
  match n with
  | O => Ok true
  | S n' =>
      let? it := index its (Z.of_nat i) in
      if ilen it >? MAX_BLOB_SIZE then Ok false else lens_ok its n' (S i)
  end.

(** [AsyncQueue::from_rtc]: the writes of the recovery, none if the record is
    valid. *)
Definition queue_from_rtc (q : Layout) : Res unit (list Write) :=
  if negb (magic q =? QUEUE_MAGIC) then Ok queue_new else
  if count q >? MAX_MESSAGES then Ok queue_new else
  let? ok := lens_ok (items q) (Z.to_nat (count q)) 0 in
  Ok (if ok then [] else queue_new).

Definition read_count (q : Layout) : Z := count q.

Definition read_item_len (q : Layout) (i : Z) : Res unit Z :=
  let? it := index (items q) i in Ok (ilen it).

(** A raw slice of the slot; more bytes than it has are [UB]. *)
Definition read_item_data (q : Layout) (i : Z) : Res unit (list Z) :=
  let? n := read_item_len q i in
  let? it := index (items q) i in
  if n <=? len (idata it) then Ok (take (Z.to_nat n) (idata it)) else UB.

Fixpoint data_writes (i k : nat) (bs : list Z) : list Write :=
  match bs with
  | [] => []
  | b :: bs' => WData i k b :: data_writes i (S k) bs'
  end.

Definition write_item (i : Z) (data : list Z) : Res unit (list Write) :=
  if negb (i <? MAX_MESSAGES) then Panic else
  if len data >? MAX_BLOB_SIZE then UB else
  Ok (data_writes (Z.to_nat i) 0 data ++ [WLen (Z.to_nat i) (as_u32 (len data))]).

Definition commit_count (n : Z) : list Write := [WCount (as_u32 n)].

Definition push (q : Layout) (blob : list Z) : Res unit (Z * list Write) :=
  if len blob >? MAX_BLOB_SIZE then Ok (-2, []) else
  let n := read_count q in
  if n >=? MAX_MESSAGES then Ok (-1, []) else
  let? ws := write_item n blob in
  Ok (0, ws ++ commit_count (n + 1)).

Fixpoint drain_loop (q : Layout) (n : nat) (i : nat) : Res unit (list (list Z)) :=
  match n with
  | O => Ok []
  | S n' =>
      let? b := read_item_data q (Z.of_nat i) in
      let? bs := drain_loop q n' (S i) in Ok (b :: bs)
  end.

Definition drain (q : Layout) : Res unit (list (list Z) * list Write) :=
  let? bs := drain_loop q (Z.to_nat (read_count q)) 0 in Ok (bs, commit_count 0).

Definition is_empty (q : Layout) : bool := read_count q =? 0.
Definition queue_len (q : Layout) : Z := read_count q.

Definition single_for_piggyback (q : Layout) (wake_budget : Z) : Res unit (option (list Z)) :=
  if read_count q =? 1 then
    let? n := read_item_len q 0 in
    if (n <=? wake_budget) && (n <=? MAX_BLOB_SIZE)
    then let? b := read_item_data q 0 in Ok (Some b) else Ok None
  else Ok None.

Definition clear : list Write := commit_count 0.

(** ** The abstract queue: at most ten blobs, first in first out *)

Inductive Op : Type :=
  | OpPush (blob : list Z)
  | OpDrain
  | OpClear
  | OpLen
  | OpPiggyback (budget : Z)
  | OpSleep.

Inductive Reply : Type :=
  | RCode (c : Z)
  | RBlobs (bs : list (list Z))
  | ROption (o : option (list Z))
  | RUnit.

Definition exec (q : Layout) (o : Op) : Res unit (Reply * list Write) :=
  match o with
  | OpPush blob => let? '(c, ws) := push q blob in Ok (RCode c, ws)
  | OpDrain => let? '(bs, ws) := drain q in Ok (RBlobs bs, ws)
  | OpClear => Ok (RUnit, clear)
  | OpLen => Ok (RCode (queue_len q), [])
  | OpPiggyback budget => let? b := single_for_piggyback q budget in Ok (ROption b, [])
  | OpSleep => let? ws := queue_from_rtc q in Ok (RUnit, ws)
  end.

Definition abs_exec (l : list (list Z)) (o : Op) : Reply * list (list Z) :=
  match o with
  | OpPush blob =>
      if len blob >? MAX_BLOB_SIZE then (RCode (-2), l)
      else if len l >=? MAX_MESSAGES then (RCode (-1), l)
      else (RCode 0, l ++ [blob])
  | OpDrain => (RBlobs l, [])
  | OpClear => (RUnit, [])
  | OpLen => (RCode (len l), l)
  | OpPiggyback budget =>
      (ROption match l with [b] => if len b <=? budget then Some b else None | _ => None end, l)
  | OpSleep => (RUnit, l)
  end.

Fixpoint run (q : Layout) (os : list Op) : Res unit (Layout * list Reply) :=
  match os with
  | [] => Ok (q, [])
  | o :: os' =>
      let? '(p, ws) := exec q o in
      let? '(q', ps) := run (apply_writes q ws) os' in Ok (q', p :: ps)
  end.

Fixpoint abs_run (l : list (list Z)) (os : list Op) : list (list Z) * list Reply :=
  match os with
  | [] => (l, [])
  | o :: os' => let '(p, l1) := abs_exec l o in let '(l2, ps) := abs_run l1 os' in (l2, p :: ps)
  end.

(** The memory [q] holds the blobs [l]. *)
Definition holds (q : Layout) (l : list (list Z)) : Prop :=
  layout_ok q /\ magic q = QUEUE_MAGIC /\ count q = len l /\ len l <= MAX_MESSAGES /\
  forall i b, l !! i = Some b ->
    exists it, items q !! i = Some it /\ ilen it = len b /\ take (length b) (idata it) = b /\ len b <= MAX_BLOB_SIZE.

(** ** Lemmas *)

Lemma queue_writes_app q ws ws' : apply_writes q (ws ++ ws') = apply_writes (apply_writes q ws) ws'.
Proof. apply fold_left_app. Qed.

Lemma holds_blob q l i b :
  holds q l -> l !! i = Some b -> exists it, items q !! i = Some it /\ ilen it = len b /\
    take (length b) (idata it) = b /\ len b <= MAX_BLOB_SIZE /\ len (idata it) = MAX_BLOB_SIZE.
Proof.
  intros ((_ & _ & Hits) & _ & _ & _ & Hl) Hi. destruct (Hl i b Hi) as (it & Hit & H1 & H2 & H3).
  exists it. split_and!; try done. eapply list.Forall_lookup_1 in Hits as [_ ?]; eauto.
Qed.

Lemma index_at {E A} (l : list A) i x : l !! i = Some x -> index (E := E) l (Z.of_nat i) = Ok x.
Proof. intros H. apply index_Ok; [lia|]. by rewrite Nat2Z.id. Qed.

(** The length validation looks at the used slots. *)
Lemma lens_ok_total its n i :
  (i + n <= length its)%nat ->
  exists b, lens_ok its n i = Ok b /\
    (b = true <-> forall k it, (i <= k < i + n)%nat -> its !! k = Some it -> ilen it <= MAX_BLOB_SIZE).
Proof.
  revert i. induction n as [|n IH]; intros i Hn; cbn [lens_ok].
  - exists true. split; [done|]. split; [lia|done].
  - destruct (lookup_lt_is_Some_2 its i) as [it Hit]; [lia|]. rewrite (index_at _ _ _ Hit). cbn [res_bind].
    rewrite Z.gtb_ltb. destruct (Z.ltb_spec MAX_BLOB_SIZE (ilen it)) as [Hlt|Hge].
    + exists false. split; [done|]. split; [done|]. intros H. specialize (H i it ltac:(lia) Hit). lia.
    + destruct (IH (S i) ltac:(lia)) as (b & -> & Hb). exists b. split; [done|]. rewrite Hb. split.
      * intros H k it' Hk Hit'. destruct (decide (k = i)) as [->|]; [congruence|]. apply (H k it'); [lia|done].
      * intros H k it' Hk Hit'. apply (H k it'); [lia|done].
Qed.

Lemma from_rtc_holds q l : holds q l -> queue_from_rtc q = Ok [].
Proof.
  intros Hh. pose proof Hh as ((Hlen & _) & Hm & Hc & Hn & _). unfold queue_from_rtc.
  rewrite Hm, Z.eqb_refl, Hc, Z.gtb_ltb, (proj2 (Z.ltb_ge _ _) Hn). cbn [negb].
  destruct (lens_ok_total (items q) (Z.to_nat (len l)) 0) as (b & -> & Hb); [unfold len in *; lia|].
  assert (b = true) as ->; [|done]. apply Hb. intros k it Hk Hit.
  destruct (lookup_lt_is_Some_2 l k) as [x Hx]; [unfold len in Hk; lia|].
  destruct (holds_blob q l k x Hh Hx) as (it' & Hit' & Hl & _ & H & _).
  assert (it = it') as -> by congruence. by rewrite Hl.
Qed.

(** Recovery from arbitrary memory. *)
Lemma from_rtc_any q :
  layout_ok q -> exists ws l, queue_from_rtc q = Ok ws /\ holds (apply_writes q ws) l.
Proof.
  intros Hq. pose proof Hq as (Hlen & Hc & Hits). unfold uN in Hc.
  assert (Hnew : exists ws l, Ok (E := unit) queue_new = Ok ws /\ holds (apply_writes q ws) l).
  { exists queue_new, []. split; [done|]. split; [split_and!; simpl; done|]. split_and!; done. }
  unfold queue_from_rtc. destruct (Z.eqb_spec (magic q) QUEUE_MAGIC) as [Hm|]; cbn [negb]; [|done].
  rewrite Z.gtb_ltb. destruct (Z.ltb_spec MAX_MESSAGES (count q)); [done|].
  destruct (lens_ok_total (items q) (Z.to_nat (count q)) 0) as (b & -> & Hb); [unfold len in *; lia|].
  cbn [res_bind]. destruct b; [|done].
  exists [], ((fun it => take (Z.to_nat (ilen it)) (idata it)) <$> take (Z.to_nat (count q)) (items q)).
  split; [done|]. cbn [apply_writes fold_left].
  assert (Hl : len ((fun it => take (Z.to_nat (ilen it)) (idata it)) <$> take (Z.to_nat (count q)) (items q)) = count q).
  { unfold len in *. rewrite length_fmap, length_take. lia. }
  split; [done|]. split; [done|]. split; [done|]. rewrite Hl. split; [done|].
  intros i x Hi. apply list_lookup_fmap_Some in Hi as (it & -> & Hi). apply lookup_take_Some in Hi as [Hi Hlt].
  exists it. pose proof (list.Forall_lookup_1 _ _ _ _ Hits Hi) as [Hu Hd]. unfold uN in Hu.
  pose proof (proj1 Hb eq_refl i it ltac:(lia) Hi) as Hmax. unfold len in *. rewrite length_take.
  split_and!; [done|lia| |lia]. f_equal. lia.
Qed.

Lemma drain_loop_holds q l i :
  holds q l -> (i <= length l)%nat -> drain_loop q (length l - i) i = Ok (drop i l).
Proof.
  intros Hh. remember (length l - i)%nat as n eqn:Hn. revert i Hn. induction n as [|n IH]; intros i Hn Hi; cbn [drain_loop].
  - by rewrite drop_ge by lia.
  - destruct (lookup_lt_is_Some_2 l i) as [x Hx]; [lia|].
    destruct (holds_blob q l i x Hh Hx) as (it & Hit & Hil & Ht & Hm & Hd).
    unfold read_item_data, read_item_len. rewrite (index_at _ _ _ Hit). cbn [res_bind].
    rewrite Hil, (proj2 (Z.leb_le _ _)) by lia. cbn [res_bind]. unfold len at 1. rewrite Nat2Z.id, Ht.
    rewrite IH by lia. cbn [res_bind]. by rewrite (drop_S _ _ _ Hx).
Qed.

(** ** Writes to one slot *)

Definition slot_write (n : nat) (w : Write) : Prop :=
  match w with
  | WLen i v => i = n /\ uN 32 v
  | WData i _ _ => i = n
  | _ => False
  end.

Lemma alter_layout_ok (its : list RtcQueueItem) n f :
  Forall (fun it => uN 32 (ilen it) /\ len (idata it) = MAX_BLOB_SIZE) its ->
  (forall it, uN 32 (ilen it) /\ len (idata it) = MAX_BLOB_SIZE ->
     uN 32 (ilen (f it)) /\ len (idata (f it)) = MAX_BLOB_SIZE) ->
  Forall (fun it => uN 32 (ilen it) /\ len (idata it) = MAX_BLOB_SIZE) (alter f n its).
Proof. intros H Hf. apply Forall_alter; [done|]. auto. Qed.

Lemma upd_item_holds q l n f :
  holds q l -> (length l <= n)%nat ->
  (forall it, uN 32 (ilen it) /\ len (idata it) = MAX_BLOB_SIZE ->
     uN 32 (ilen (f it)) /\ len (idata (f it)) = MAX_BLOB_SIZE) ->
  holds (upd_item q n f) l.
Proof.
  intros ((Hlen & Hc & Hits) & Hm & Hn & Hl & Hb) Hle Hf.
  assert (E : items (upd_item q n f) = alter f n (items q)) by done.
  split; [split; [|split; [done|]]|split; [done|split; [done|split; [done|]]]]; rewrite E.
  - unfold len in *. by rewrite length_alter.
  - by apply alter_layout_ok.
  - intros i b Hi. pose proof (lookup_lt_Some _ _ _ Hi). rewrite list_lookup_alter_ne by lia. by apply Hb.
Qed.

(** Writes to an unused slot are invisible. *)
Lemma slot_writes_holds q l n ws :
  holds q l -> (length l <= n)%nat -> Forall (slot_write n) ws -> holds (apply_writes q ws) l.
Proof.
  intros Hh Hle Hws. revert q Hh. induction Hws as [|w ws Hw _ IH]; intros q Hh; [done|].
  apply IH. destruct w as [v|v|i v|i k v]; cbn in Hw; try done.
  - destruct Hw as [-> Hv]. apply upd_item_holds; [done|done|]. intros it [? ?]. done.
  - subst i. apply upd_item_holds; [done|done|]. intros it [? ?]. cbn [ilen idata]. unfold len in *. by rewrite length_insert.
Qed.

Lemma data_slot_writes n k bs : Forall (slot_write n) (data_writes n k bs).
Proof. revert k. induction bs; intros k; constructor; [done|auto]. Qed.

Lemma data_writes_item q n k bs it :
  items q !! n = Some it ->
  items (apply_writes q (data_writes n k bs)) !! n = Some (mkItem (ilen it) (list_inserts k bs (idata it))).
Proof.
  revert q k it. induction bs as [|b bs IH]; intros q k it Hit; [by destruct it|].
  cbn [data_writes]. change (apply_writes q (WData n k b :: ?l)) with (apply_writes (apply_write q (WData n k b)) l).
  rewrite (IH _ _ (mkItem (ilen it) (<[k := b]> (idata it)))); cbn [ilen idata].
  - by rewrite insert_inserts.
  - cbn [apply_write upd_item items]. by rewrite list_lookup_alter_eq, Hit.
Qed.

(** ** One operation *)

(** The outcome of an operation on a queue that holds [l]: the reply and the
    final queue of the abstract operation, and [l] itself after any proper prefix
    of the writes. *)
Definition refines_op (q : Layout) (l : list (list Z)) (o : Op) : Prop :=
  exists ws, exec q o = Ok ((abs_exec l o).1, ws) /\ holds (apply_writes q ws) (abs_exec l o).2 /\
    forall ws1 ws2, ws = ws1 ++ ws2 -> holds (apply_writes q ws1) l \/ ws2 = [].

(** An operation that writes nothing, or commits in one write. *)
Lemma prefix_nil q l (ws1 ws2 : list Write) : holds q l -> [] = ws1 ++ ws2 -> holds (apply_writes q ws1) l \/ ws2 = [].
Proof. intros Hh E. destruct ws1; [by left|done]. Qed.

Lemma prefix_commit q l n ws ws1 ws2 :
  holds q l -> Forall (slot_write (length l)) ws -> ws ++ [WCount n] = ws1 ++ ws2 ->
  holds (apply_writes q ws1) l \/ ws2 = [].
Proof.
  intros Hh Hws E. apply app_eq_inv in E as [(k & -> & ->)|(k & -> & E)].
  - left. apply Forall_app in Hws as [Hws _]. by eapply slot_writes_holds.
  - destruct k as [|w k]; [left; rewrite app_nil_r; by eapply slot_writes_holds|right].
    injection E as _ E. by destruct k, ws2.
Qed.

Lemma holds_emptied q l : holds q l -> holds (apply_writes q (commit_count 0)) [].
Proof.
  intros ((Hlen & _ & Hits) & Hm & _). split; [split; [done|split; [done|done]]|]. by split_and!.
Qed.

Lemma push_refines q l blob :
  holds q l -> len blob <= MAX_BLOB_SIZE -> len l < MAX_MESSAGES ->
  exists ws, push q blob = Ok (0, ws ++ [WCount (len l + 1)]) /\ Forall (slot_write (length l)) ws /\
    holds (apply_writes q (ws ++ [WCount (len l + 1)])) (l ++ [blob]).
Proof.
  intros Hh Hb Hn. pose proof Hh as ((Hlen & Hu & Hits) & Hm & Hc & _ & Hl).
  assert (Hu32 : as_u32 (len blob) = len blob).
  { apply wrap_small. pose proof (len_nonneg blob). unfold uN, MAX_BLOB_SIZE, MAX_APP_DATA_BLOB_SIZE in *. lia. }
  set (ws := data_writes (length l) 0 blob ++ [WLen (length l) (len blob)]).
  assert (Hws : Forall (slot_write (length l)) ws).
  { apply Forall_app. split; [apply data_slot_writes|]. repeat constructor; [apply len_nonneg|].
    unfold MAX_BLOB_SIZE, MAX_APP_DATA_BLOB_SIZE in *. lia. }
  exists ws. split_and!; [|done|].
  - unfold push, read_count. rewrite Z.gtb_ltb, (proj2 (Z.ltb_ge _ _) Hb), Hc, Z.geb_leb, (proj2 (Z.leb_gt _ _) Hn).
    unfold write_item. rewrite (proj2 (Z.ltb_lt _ _) Hn), Z.gtb_ltb, (proj2 (Z.ltb_ge _ _) Hb), Hu32. cbn [negb res_bind].
    unfold len at 1 2. rewrite Nat2Z.id. unfold commit_count, as_u32.
    rewrite wrap_small; [done|]. pose proof (len_nonneg l). unfold uN, MAX_MESSAGES in *. lia.
  - pose proof (slot_writes_holds q l (length l) ws Hh ltac:(lia) Hws) as ((Hlen1 & _ & Hits1) & Hm1 & _ & _ & Hl1).
    destruct (lookup_lt_is_Some_2 (items q) (length l)) as [it Hit]; [unfold len in *; lia|].
    pose proof (list.Forall_lookup_1 _ _ _ _ Hits Hit) as [_ Hd].
    assert (Hnew : items (apply_writes q ws) !! length l = Some (mkItem (len blob) (list_inserts 0 blob (idata it)))).
    { unfold ws. rewrite queue_writes_app. cbn [apply_writes fold_left apply_write upd_item items].
      rewrite list_lookup_alter_eq. change (fold_left apply_write ?x q) with (apply_writes q x).
      by rewrite (data_writes_item q _ _ _ it Hit). }
    rewrite queue_writes_app. revert Hlen1 Hits1 Hm1 Hl1 Hnew. generalize (apply_writes q ws). intros q1 Hlen1 Hits1 Hm1 Hl1 Hnew.
    assert (Hla : len (l ++ [blob]) = len l + 1) by (rewrite len_app; done).
    split; [split; [done|split; [|done]]|]. { cbn. pose proof (len_nonneg l). unfold uN, MAX_MESSAGES in *. lia. }
    split; [done|]. split; [by rewrite Hla|]. split; [rewrite Hla; lia|]. intros i b Hi. cbn [apply_writes fold_left apply_write items].
    apply lookup_app_Some in Hi as [Hi|[Hge Hi]]; [by apply Hl1|].
    apply list_lookup_singleton_Some in Hi as [Hi <-]. replace i with (length l) by lia.
    eexists. split; [exact Hnew|]. split_and!; [done| |done]. cbn [idata]. apply take_inserts. unfold len in *. lia.
Qed.

Lemma exec_refines q l o : holds q l -> refines_op q l o.
Proof.
  intros Hh. pose proof Hh as (_ & _ & Hc & Hn & _). destruct o as [blob| | | |budget|]; unfold refines_op; cbn [exec abs_exec].
  - destruct (Z.lt_ge_cases MAX_BLOB_SIZE (len blob)) as [Hb|Hb].
    { exists []. unfold push. rewrite Z.gtb_ltb, (proj2 (Z.ltb_lt _ _) Hb). split; [done|]. split; [done|]. intros ? ?. by apply prefix_nil. }
    destruct (Z.lt_ge_cases (len l) MAX_MESSAGES) as [Hl|Hl].
    + destruct (push_refines q l blob Hh Hb Hl) as (ws & -> & Hws & Hq). eexists.
      rewrite Z.gtb_ltb, (proj2 (Z.ltb_ge _ _) Hb), Z.geb_leb, (proj2 (Z.leb_gt _ _) Hl). split; [done|]. split; [done|].
      intros ws1 ws2. by apply prefix_commit.
    + exists []. unfold push, read_count. rewrite Z.gtb_ltb, (proj2 (Z.ltb_ge _ _) Hb), Hc, Z.geb_leb, (proj2 (Z.leb_le _ _) Hl).
      split; [done|]. split; [done|]. intros ? ?. by apply prefix_nil.
  - exists (commit_count 0). unfold drain, read_count. rewrite Hc. unfold len. rewrite Nat2Z.id.
    pose proof (drain_loop_holds q l 0 Hh ltac:(lia)) as Hd. rewrite Nat.sub_0_r in Hd. rewrite Hd.
    split; [done|]. split; [by eapply holds_emptied|]. intros ws1 ws2. by apply (prefix_commit q l 0 []).
  - exists (commit_count 0). split; [done|]. split; [by eapply holds_emptied|]. intros ws1 ws2. by apply (prefix_commit q l 0 []).
  - exists []. unfold queue_len, read_count. rewrite Hc. split; [done|]. split; [done|]. intros ? ?. by apply prefix_nil.
  - exists []. split; [|split; [done|intros ? ?; by apply prefix_nil]]. unfold single_for_piggyback, read_count. rewrite Hc.
    destruct l as [|b [|b' l]]; [done| |].
    + destruct (holds_blob q [b] 0 b Hh eq_refl) as (it & Hit & Hil & Ht & Hm & Hd). cbn [len length Z.of_nat Z.eqb].
      unfold read_item_data, read_item_len. rewrite (index_at (items q) 0 it Hit). cbn [res_bind]. rewrite Hil, (proj2 (Z.leb_le _ _) Hm), andb_true_r.
      cbn [fst]. destruct (len b <=? budget); [|done]. rewrite (proj2 (Z.leb_le _ _)) by lia. cbn [res_bind].
      unfold len. by rewrite Nat2Z.id, Ht.
    + rewrite (proj2 (Z.eqb_neq _ _)); [done|]. rewrite !len_cons. pose proof (len_nonneg l). lia.
  - exists []. rewrite (from_rtc_holds q l Hh). split; [done|]. split; [done|]. intros ? ?. by apply prefix_nil.
Qed.

Lemma run_refines os q l :
  holds q l -> exists q', run q os = Ok (q', (abs_run l os).2) /\ holds q' (abs_run l os).1.
Proof.
  revert q l. induction os as [|o os IH]; intros q l Hh; cbn [run abs_run]; [by eauto|].
  destruct (exec_refines q l o Hh) as (ws & -> & Hq & _). destruct (abs_exec l o) as [p l1]. cbn [fst snd res_bind] in *.
  destruct (IH _ _ Hq) as (q' & -> & Hq'). destruct (abs_run l1 os) as [l2 ps]. cbn [fst snd res_bind] in *. eauto.
Qed.

(** ** Properties *)

(** C13: the queue is a bounded FIFO that survives sleep.  Whatever the RTC memory
    holds at boot, recovery succeeds with some queue of at most ten blobs (the
    empty one after a cold boot), and from there any sequence of pushes, drains,
    clears, piggyback reads and deep sleeps replies exactly as the abstract queue,
    without a panic or an access outside a slot. *)
Theorem async_queue_refines q0 :
  layout_ok q0 ->
  exists ws l0, queue_from_rtc q0 = Ok ws /\ (magic q0 <> QUEUE_MAGIC -> l0 = []) /\ len l0 <= MAX_MESSAGES /\
    forall os, exists q', run (apply_writes q0 ws) os = Ok (q', (abs_run l0 os).2) /\ holds q' (abs_run l0 os).1.
Proof.
  intros Hq. destruct (from_rtc_any q0 Hq) as (ws & l & Hws & Hh). exists ws, l. split; [done|].
  split; [|split; [by destruct Hh as (_ & _ & _ & ? & _)|intros os; by apply run_refines]].
  intros Hm. unfold queue_from_rtc in Hws. rewrite (proj2 (Z.eqb_neq _ _) Hm) in Hws. injection Hws as <-.
  destruct Hh as (_ & _ & Hc & _). cbn in Hc. destruct l; [done|]. rewrite len_cons in Hc. pose proof (len_nonneg l0). lia.
Qed.

(** Operations are atomic under resets.  If the node resets after any number
    of the writes of an operation, the queue recovered at the next boot is the one
    before the operation or the one after it: no blob is lost, duplicated or torn. *)
Lemma async_queue_crash_atomic q l o p ws ws1 ws2 :
  holds q l -> exec q o = Ok (p, ws) -> ws = ws1 ++ ws2 ->
  let q1 := apply_writes q ws1 in
  queue_from_rtc q1 = Ok [] /\ (holds q1 l \/ (ws2 = [] /\ holds q1 (abs_exec l o).2)).
Proof.
  intros Hh He Hws q1. destruct (exec_refines q l o Hh) as (ws' & He' & Hq & Hpre).
  rewrite He in He'. injection He' as _ <-.
  assert (H : holds q1 l \/ (ws2 = [] /\ holds q1 (abs_exec l o).2)).
  { destruct (Hpre ws1 ws2 Hws) as [H|E]; [by left|right]. subst. rewrite app_nil_r in Hq. done. }
  split; [|done]. destruct H as [H|[_ H]]; by eapply from_rtc_holds.
Qed.

(** ** Witnesses *)

Definition demo_queue : Layout := mkLayout QUEUE_MAGIC 0 (items layout_zero).

Lemma layout_zero_ok : layout_ok layout_zero.
Proof. split; [reflexivity|]. split; [by unfold uN|]. apply list.Forall_replicate. by split. Qed.

Lemma demo_queue_holds : holds demo_queue [].
Proof. pose proof layout_zero_ok as (H1 & H2 & H3). split; [by split_and!|]. by split_and!. Qed.

Lemma async_queue_refines_witness :
  exists ws l0, queue_from_rtc layout_zero = Ok ws /\ (magic layout_zero <> QUEUE_MAGIC -> l0 = []) /\ len l0 <= MAX_MESSAGES /\
    forall os, exists q', run (apply_writes layout_zero ws) os = Ok (q', (abs_run l0 os).2) /\ holds q' (abs_run l0 os).1.
Proof. exact (async_queue_refines layout_zero layout_zero_ok). Defined.

(** A push cut off between its second byte and its length. *)
Lemma async_queue_crash_atomic_witness :
  let q1 := apply_writes demo_queue [WData 0 0 5; WData 0 1 6] in
  queue_from_rtc q1 = Ok [] /\
  (holds q1 [] \/ ([WLen 0 2; WCount 1] = [] /\ holds q1 (abs_exec [] (OpPush [5; 6])).2)).
Proof.
  refine (async_queue_crash_atomic demo_queue [] (OpPush [5; 6]) (RCode 0)
    [WData 0 0 5; WData 0 1 6; WLen 0 2; WCount 1] [WData 0 0 5; WData 0 1 6] [WLen 0 2; WCount 1]
    demo_queue_holds _ _); reflexivity.
Defined.
