(* ===== verification/NodeM.v ===== *)
(** * The node: platform interfaces, state and effects

    The traits through which the firmware reaches its hardware
    ([sonde-node/src/traits.rs], [hal.rs]), the state a wake cycle works on, and
    the monad its functions are written in.

    The radio, the clock, the random number generator, the pins and the outcome
    of each flash write belong to an abstract environment ([Env]); nothing is
    assumed of it unless a theorem says so, so it may drop, forge, replay and
    reorder frames and fail any write.  [PlatformStorage] is the record [Nvs] of
    the values its methods read; a write that fails leaves its value as it was,
    except that a program write may leave anything in its partition, whatever it
    reports.

    A computation maps a state to a result and a state, or to [None] when a loop
    that waits for the radio ran out of fuel.  [wp m Q s]: if [m] ends from [s],
    its result and final state satisfy [Q]. *)

From Stdlib Require Import String.
From S2P Require Import Prelude Frame ProgramImage MapStorage AsyncQueue.
Open Scope list_scope.
Open Scope Z_scope.

(** ** The monad *)

Definition M (S A : Type) : Type := S -> option (NodeResult A * S).

Definition mret {S A} (a : A) : M S A := fun s => Some (Ok a, s).
Definition mthrow {S A} (e : NodeError) : M S A := fun s => Some (Err e, s).
Definition lift {S A} (r : NodeResult A) : M S A := fun s => Some (r, s).

Definition mbind {S A B} (m : M S A) (k : A -> M S B) : M S B := fun s =>
  match m s with
  | Some (Ok a, s') => k a s'
  | Some (Err e, s') => Some (Err e, s')
  | Some (Panic, s') => Some (Panic, s')
  | Some (UB, s') => Some (UB, s')
  | None => None
  end.

(** The result of [m] as a value, for code that inspects it: [match m { Ok.. Err.. }]. *)
Definition mtry {S A} (m : M S A) : M S (NodeError + A) := fun s =>
  match m s with
  | Some (Ok a, s') => Some (Ok (inr a), s')
  | Some (Err e, s') => Some (Ok (inl e), s')
  | Some (Panic, s') => Some (Panic, s')
  | Some (UB, s') => Some (UB, s')
  | None => None
  end.

Definition mget {S} : M S S := fun s => Some (Ok s, s).
Definition mmod {S} (f : S -> S) : M S unit := fun s => Some (Ok tt, f s).

Notation "'let!' x ':=' m 'in' k" := (mbind m (fun x => k))
  (at level 10, x name, m at level 100, k at level 200) : sonde_scope.
Notation "'let!' ' p ':=' m 'in' k" := (mbind m (fun p => k))
  (at level 10, p strict pattern, m at level 100, k at level 200) : sonde_scope.
Notation "m ';;!' k" := (mbind m (fun _ => k)) (at level 60, right associativity) : sonde_scope.

(** ** Weakest preconditions *)

Definition wp {S A} (m : M S A) (Q : NodeResult A -> S -> Prop) (s : S) : Prop :=
  match m s with Some (r, s') => Q r s' | None => True end.

(** What [Q] asks of an outcome that is not [Ok], at any type of result. *)
Definition fails {A B} (r : NodeResult A) : NodeResult B :=
  match r with Ok _ | Panic => Panic | Err e => Err e | UB => UB end.

Definition is_ok {A} (r : NodeResult A) : bool := match r with Ok _ => true | _ => false end.

Lemma wp_mono {S A} (m : M S A) (P Q : NodeResult A -> S -> Prop) s :
  wp m P s -> (forall r s', P r s' -> Q r s') -> wp m Q s.
Proof. unfold wp. destruct (m s) as [[r s']|]; auto. Qed.

Lemma wp_bind {S A B} (m : M S A) (k : A -> M S B) Q s :
  wp m (fun r s' => match r with Ok a => wp (k a) Q s' | _ => Q (fails r) s' end) s ->
  wp (mbind m k) Q s.
Proof. unfold wp, mbind. destruct (m s) as [[[a|e| |] s']|]; auto. Qed.

Lemma wp_try {S A} (m : M S A) Q s :
  wp m (fun r s' => match r with
                    | Ok a => Q (Ok (inr a)) s'
                    | Err e => Q (Ok (inl e)) s'
                    | _ => Q (fails r) s'
                    end) s -> wp (mtry m) Q s.
Proof. unfold wp, mtry. destruct (m s) as [[[a|e| |] s']|]; auto. Qed.

Lemma wp_ret {S A} (a : A) (Q : NodeResult A -> S -> Prop) s : Q (Ok a) s -> wp (mret a) Q s.
Proof. done. Qed.

Lemma wp_throw {S A} e (Q : NodeResult A -> S -> Prop) s : Q (Err e) s -> wp (mthrow e) Q s.
Proof. done. Qed.

Lemma wp_lift {S A} r (Q : NodeResult A -> S -> Prop) s : Q r s -> wp (lift r) Q s.
Proof. done. Qed.

Lemma wp_mod {S} f (Q : NodeResult unit -> S -> Prop) s : Q (Ok tt) (f s) -> wp (mmod f) Q s.
Proof. done. Qed.

Lemma wp_get {S} (Q : NodeResult S -> S -> Prop) s : Q (Ok s) s -> wp mget Q s.
Proof. done. Qed.

Lemma wp_elim {S A} (m : M S A) Q s r s' : wp m Q s -> m s = Some (r, s') -> Q r s'.
Proof. unfold wp. intros H E. by rewrite E in H. Qed.

Lemma wp_and {S A} (m : M S A) (P Q : NodeResult A -> S -> Prop) s :
  wp m P s -> wp m Q s -> wp m (fun r s' => P r s' /\ Q r s') s.
Proof. unfold wp. destruct (m s) as [[r s']|]; auto. Qed.

(** The result of a bind is the result of its continuation, or no result. *)
Lemma wp_bind_any {S A B} (m : M S A) (k : A -> M S B) (Q : NodeResult B -> S -> Prop) s :
  (forall a s', wp (k a) Q s') -> (forall r s', is_ok r = false -> Q r s') -> wp (mbind m k) Q s.
Proof.
  intros Hk Hr. apply wp_bind. unfold wp at 1. destruct (m s) as [[[a|e| |] s']|]; [apply Hk|by apply Hr..|done].
Qed.

(** ** Relational properties of computations

    A [Logic] is a relation between the state before and after, a condition on
    the state it needs and keeps, and what it says of the other outcomes: whether
    a computation must end ([total]) and whether the relation also holds when it
    panics ([stops]).  [obeys] composes along the combinators, so that a program
    obeys a logic once its primitive operations do. *)

Record Logic (S : Type) := mkLogic {
  pre : S -> Prop;
  rel : S -> S -> Prop;
  total : bool;
  stops : bool
}.
Arguments mkLogic {S}.
Arguments pre {S}.
Arguments rel {S}.
Arguments total {S}.
Arguments stops {S}.

Definition returned {A} (r : NodeResult A) : bool := match r with Ok _ | Err _ => true | _ => false end.

Definition obeys {S A} (L : Logic S) (m : M S A) : Prop :=
  forall s, pre L s ->
    match m s with
    | Some (r, s') => (if stops L || returned r then rel L s s' else True) /\ (if returned r then pre L s' else True)
    | None => total L = false
    end.

Section Obeys.
Context {S : Type} (L : Logic S) `{!PreOrder (rel L)}.

Lemma obeys_lift {A} (r : NodeResult A) : obeys L (lift r).
Proof using All. intros s Hs. simpl. split; case_match; first [reflexivity | done]. Qed.

Lemma obeys_ret {A} (a : A) : obeys L (mret a).
Proof using All. apply (obeys_lift (Ok a)). Qed.

Lemma obeys_throw {A} e : obeys (A := A) L (mthrow e).
Proof using All. apply (obeys_lift (Err e)). Qed.

Lemma obeys_get : obeys L mget.
Proof using All. intros s Hs. simpl. rewrite orb_true_r. split; [reflexivity|done]. Qed.

Lemma obeys_mod f : (forall s, pre L s -> rel L s (f s) /\ pre L (f s)) -> obeys L (mmod f).
Proof using All. intros H s Hs. simpl. rewrite orb_true_r. by apply H. Qed.

Lemma obeys_bind {A B} (m : M S A) (k : A -> M S B) :
  obeys L m -> (forall a, obeys L (k a)) -> obeys L (mbind m k).
Proof using All.
  intros Hm Hk s Hs. unfold mbind. specialize (Hm s Hs).
  destruct (m s) as [[[a|e| |] s1]|]; simpl in *; rewrite ?orb_true_r, ?orb_false_r in *; try done.
  destruct Hm as [H1 Hs1]. specialize (Hk a s1 Hs1). destruct (k a s1) as [[r s2]|]; [|done].
  destruct Hk as [H2 ?]. split; [|done]. destruct (stops L || returned r); [|done]. by transitivity s1.
Qed.

Lemma obeys_try {A} (m : M S A) : obeys L m -> obeys L (mtry m).
Proof using All.
  intros Hm s Hs. unfold mtry. specialize (Hm s Hs).
  destruct (m s) as [[[a|e| |] s1]|]; simpl in *; rewrite ?orb_true_r, ?orb_false_r in *; done.
Qed.

Lemma obeys_if {A} (b : bool) (m k : M S A) : obeys L m -> obeys L k -> obeys L (if b then m else k).
Proof using All. by destruct b. Qed.

(** Code that looks at the state and goes on obeys the logic if it does from every
    state it may see. *)
Lemma obeys_get_bind {A} (k : S -> M S A) : (forall n, obeys L (k n)) -> obeys L (mbind mget k).
Proof using All. intros Hk. apply obeys_bind; [apply obeys_get|done]. Qed.
End Obeys.

(** What a logic that covers every outcome says of one run. *)
Lemma obeys_wp {S A} (L : Logic S) (m : M S A) s :
  stops L = true -> obeys L m -> pre L s ->
  wp m (fun r s' => rel L s s' /\ (returned r = true -> pre L s')) s.
Proof.
  intros Hs Hm Hp. specialize (Hm s Hp). unfold wp. destruct (m s) as [[r s']|]; [|done].
  rewrite Hs in Hm. destruct Hm as [? Hq]. split; [done|]. intros Hr. by rewrite Hr in Hq.
Qed.

Lemma wp_obeys_bind {S A B} (L : Logic S) (m : M S A) (k : A -> M S B) (Q : NodeResult B -> S -> Prop) s :
  stops L = true -> obeys L m -> pre L s ->
  (forall a s', rel L s s' -> pre L s' -> wp (k a) Q s') ->
  (forall r s', is_ok r = false -> rel L s s' -> Q r s') -> wp (mbind m k) Q s.
Proof.
  intros Hs Hm Hp Hk Hr. apply wp_bind. eapply wp_mono; [by apply (obeys_wp L)|]. intros r s' [Hrel Hp'].
  destruct r; [by apply Hk; [|apply Hp']|by apply Hr..].
Qed.

Create HintDb obeys discriminated.

(** Walks through a computation, leaving the operations the hints do not know. *)
Ltac obeys_step :=
  lazymatch goal with
  | |- obeys _ (mret _) => apply obeys_ret; exact _
  | |- obeys _ (mthrow _) => apply obeys_throw; exact _
  | |- obeys _ (lift _) => apply obeys_lift; exact _
  | |- obeys _ mget => apply obeys_get; exact _
  | |- obeys _ (mtry _) => first [solve [auto with obeys] | apply obeys_try; [exact _|]]
  | |- obeys _ (mbind _ _) => first [solve [auto with obeys] | apply obeys_bind; [exact _| |intro]]
  | |- obeys _ (if ?b then _ else _) => destruct b
  | |- obeys _ (match ?x with _ => _ end) => destruct x
  | |- obeys _ _ => solve [auto with obeys]
  end.
Ltac obeys_go := repeat obeys_step.

(** The logic that only says that a computation ends. *)
Definition returns {S} : Logic S := mkLogic (fun _ => True) (fun _ _ => True) true true.

#[export] Instance returns_order {S} : PreOrder (rel (S := S) returns).
Proof. by split. Qed.

Lemma obeys_returns {S A} (m : M S A) : (forall s, is_Some (m s)) -> obeys returns m.
Proof. intros Hm s _. destruct (Hm s) as [[r s'] ->]. simpl. by destruct (returned r). Qed.

Lemma returns_run {S A} (m : M S A) Q s : obeys returns m -> wp m Q s -> exists r s', m s = Some (r, s') /\ Q r s'.
Proof.
  intros Hm Hw. specialize (Hm s Logic.I). unfold wp in Hw. destruct (m s) as [[r s']|]; [by exists r, s'|done].
Qed.

(** ** Wake reasons and sleep ([sleep.rs]) *)

Inductive WakeReason : Type := Scheduled | Early | ProgramUpdate.

Definition wake_reason_u8 (r : WakeReason) : Z :=
  match r with Scheduled => 0 | Early => 1 | ProgramUpdate => 2 end.

Definition MIN_SLEEP_INTERVAL_S : Z := 1.

Record SleepManager := mkSleep {
  base_interval_s : Z;
  next_wake_override_s : option Z;
  wake_reason : WakeReason
}.

Definition sleep_new (base : Z) (r : WakeReason) : SleepManager := mkSleep base None r.
Definition set_base_interval (m : SleepManager) (s : Z) : SleepManager :=
  mkSleep s (next_wake_override_s m) (wake_reason m).
Definition set_next_wake (m : SleepManager) (s : Z) : SleepManager :=
  mkSleep (base_interval_s m) (Some s) (wake_reason m).
Definition set_wake_reason (m : SleepManager) (r : WakeReason) : SleepManager :=
  mkSleep (base_interval_s m) (next_wake_override_s m) r.

Definition effective_sleep_s (m : SleepManager) : Z :=
  let raw := match next_wake_override_s m with
             | Some o => Z.min o (base_interval_s m)
             | None => base_interval_s m
             end in
  Z.max raw MIN_SLEEP_INTERVAL_S.

Definition will_wake_early (m : SleepManager) : bool :=
  match next_wake_override_s m with Some o => o <? base_interval_s m | None => false end.
