(* ===== verification/NodeState.v ===== *)
(** * The node: environment, storage and primitive operations

    The interfaces of [sonde-node/src/traits.rs] and [hal.rs] as one class of
    environments, the persistent storage, the state of a wake cycle, and one
    operation per trait method.  [trace] is a record of the frames handed to and
    received from the radio; the firmware has no such field, the theorems speak
    about it. *)

From Stdlib Require Import String.
From S2P Require Import Prelude Frame Messages BoardLayout BleEnvelope ProgramImage MapStorage AsyncQueue NodeM.
Open Scope list_scope.
Open Scope Z_scope.

(** ** The environment *)

Class Env (E : Type) : Type := {
  t_send : E -> list Z -> NodeResult unit * E;
  t_recv : E -> Z -> NodeResult (option (list Z)) * E;
  (** The signal strength the radio reports with the frame it received last. *)
  t_rssi : E -> option Z;
  elapsed : E -> Z * E;
  delay : E -> Z -> E;
  delay_micros : E -> Z -> E;
  random : E -> Z * E;
  rng_healthy : E -> bool * E;
  active_gpio : E -> E;
  idle_gpio : E -> E;
  adc : E -> Z -> Z * E;
  gpio_get : E -> Z -> Z * E;
  gpio_set : E -> Z -> Z -> Z * E;
  i2c_read : E -> Z -> Z -> (Z * list Z) * E;
  i2c_write : E -> Z -> list Z -> Z * E;
  i2c_write_read : E -> Z -> list Z -> Z -> (Z * list Z) * E;
  spi_transfer : E -> Z -> list Z -> (Z * list Z) * E;
  (** The outcome of the next flash write: [None] if it succeeds. *)
  flash_fault : E -> option NodeError * E;
  (** What a program write leaves in the partition, and what it reports. *)
  program_fault : E -> list Z -> (option (list Z) * option NodeError) * E
}.

(** A relation that every operation of the environment respects. *)
Class EnvRel {E : Type} `{Env E} (R : E -> E -> Prop) : Prop := {
  recv_rel : forall e t, R e (t_recv e t).2;
  send_rel : forall e f, R e (t_send e f).2;
  elapsed_rel : forall e, R e (elapsed e).2;
  delay_rel : forall e t, R e (delay e t);
  delay_micros_rel : forall e t, R e (delay_micros e t);
  random_rel : forall e, R e (random e).2;
  rng_rel : forall e, R e (rng_healthy e).2;
  active_gpio_rel : forall e, R e (active_gpio e);
  idle_gpio_rel : forall e, R e (idle_gpio e);
  adc_rel : forall e c, R e (adc e c).2;
  gpio_get_rel : forall e p, R e (gpio_get e p).2;
  gpio_set_rel : forall e p v, R e (gpio_set e p v).2;
  i2c_read_rel : forall e h k, R e (i2c_read e h k).2;
  i2c_write_rel : forall e h d, R e (i2c_write e h d).2;
  i2c_write_read_rel : forall e h d k, R e (i2c_write_read e h d k).2;
  spi_rel : forall e h d, R e (spi_transfer e h d).2;
  flash_rel : forall e, R e (flash_fault e).2;
  program_rel : forall e d, R e (program_fault e d).2
}.

#[export] Instance env_any {E} `{Env E} : EnvRel (fun _ _ : E => True).
Proof. by constructor. Qed.

(** What termination relies on: only finitely many frames arrive while the node
    listens ([pending] bounds their number), the clock is monotonic, and a receive
    that times out has taken its time. *)
Definition later {E} (pending : E -> nat) (now : E -> Z) (e e' : E) : Prop :=
  (pending e' <= pending e)%nat /\ now e <= now e'.

Class EnvLaws (E : Type) `{Env E} : Type := {
  pending : E -> nat;
  now : E -> Z;
  env_later :: EnvRel (later pending now);
  recv_pending : forall e t f, (t_recv e t).1 = Ok (Some f) -> (pending (t_recv e t).2 < pending e)%nat;
  recv_timeout : forall e t, (t_recv e t).1 = Ok None -> now e + t <= now (t_recv e t).2;
  elapsed_now : forall e, (elapsed e).1 = now (elapsed e).2
}.

(** ** Storage ([PlatformStorage]) *)

Record Nvs := mkNvs {
  key : option (Z * list Z);
  interval : Z;
  active_partition : Z;
  programs : list (option (list Z));
  early_wake : bool;
  channel : option Z;
  peer_payload : option (list Z);
  reg_complete : bool;
  last_battery_mv : option Z;
  board_layout : option BoardLayout;
  staged_test : option RunTestCommand;
  test_result : option TestResult
}.

Definition DEFAULT_CHANNEL : Z := 1.

Definition nvs_key (n : Nvs) x := mkNvs x (interval n) (active_partition n) (programs n) (early_wake n) (channel n) (peer_payload n) (reg_complete n) (last_battery_mv n) (board_layout n) (staged_test n) (test_result n).
Definition nvs_schedule (n : Nvs) i a := mkNvs (key n) i a (programs n) (early_wake n) (channel n) (peer_payload n) (reg_complete n) (last_battery_mv n) (board_layout n) (staged_test n) (test_result n).
Definition nvs_programs (n : Nvs) x := mkNvs (key n) (interval n) (active_partition n) x (early_wake n) (channel n) (peer_payload n) (reg_complete n) (last_battery_mv n) (board_layout n) (staged_test n) (test_result n).
Definition nvs_early (n : Nvs) x := mkNvs (key n) (interval n) (active_partition n) (programs n) x (channel n) (peer_payload n) (reg_complete n) (last_battery_mv n) (board_layout n) (staged_test n) (test_result n).
Definition nvs_channel (n : Nvs) x := mkNvs (key n) (interval n) (active_partition n) (programs n) (early_wake n) x (peer_payload n) (reg_complete n) (last_battery_mv n) (board_layout n) (staged_test n) (test_result n).
Definition nvs_peer (n : Nvs) x := mkNvs (key n) (interval n) (active_partition n) (programs n) (early_wake n) (channel n) x (reg_complete n) (last_battery_mv n) (board_layout n) (staged_test n) (test_result n).
Definition nvs_reg (n : Nvs) x := mkNvs (key n) (interval n) (active_partition n) (programs n) (early_wake n) (channel n) (peer_payload n) x (last_battery_mv n) (board_layout n) (staged_test n) (test_result n).
Definition nvs_battery (n : Nvs) x := mkNvs (key n) (interval n) (active_partition n) (programs n) (early_wake n) (channel n) (peer_payload n) (reg_complete n) x (board_layout n) (staged_test n) (test_result n).
Definition nvs_board (n : Nvs) x := mkNvs (key n) (interval n) (active_partition n) (programs n) (early_wake n) (channel n) (peer_payload n) (reg_complete n) (last_battery_mv n) x (staged_test n) (test_result n).
Definition nvs_staged (n : Nvs) x := mkNvs (key n) (interval n) (active_partition n) (programs n) (early_wake n) (channel n) (peer_payload n) (reg_complete n) (last_battery_mv n) (board_layout n) x (test_result n).
Definition nvs_result (n : Nvs) x := mkNvs (key n) (interval n) (active_partition n) (programs n) (early_wake n) (channel n) (peer_payload n) (reg_complete n) (last_battery_mv n) (board_layout n) (staged_test n) x.

(** ** The state of a wake cycle *)

Inductive Event : Type :=
  | Sent (frame : list Z)
  | Received (frame : list Z).

Section State.
Context {E : Type} `{Env E}.

Record Node := mkNode {
  nvs : Nvs;
  env : E;
  storage : MapStorage;
  rtc : Rtc;
  queue : Layout;
  sleep_mgr : SleepManager;
  current_seq : Z;
  trace_log : list (list Z);
  trace : list Event
}.

Definition with_nvs (n : Node) x := mkNode x (env n) (storage n) (rtc n) (queue n) (sleep_mgr n) (current_seq n) (trace_log n) (trace n).
Definition with_env (n : Node) x := mkNode (nvs n) x (storage n) (rtc n) (queue n) (sleep_mgr n) (current_seq n) (trace_log n) (trace n).
Definition with_storage (n : Node) x y := mkNode (nvs n) (env n) x y (queue n) (sleep_mgr n) (current_seq n) (trace_log n) (trace n).
Definition with_queue (n : Node) x := mkNode (nvs n) (env n) (storage n) (rtc n) x (sleep_mgr n) (current_seq n) (trace_log n) (trace n).
Definition with_sleep (n : Node) x := mkNode (nvs n) (env n) (storage n) (rtc n) (queue n) x (current_seq n) (trace_log n) (trace n).
Definition with_seq (n : Node) x := mkNode (nvs n) (env n) (storage n) (rtc n) (queue n) (sleep_mgr n) x (trace_log n) (trace n).
Definition with_log (n : Node) x := mkNode (nvs n) (env n) (storage n) (rtc n) (queue n) (sleep_mgr n) (current_seq n) x (trace n).
Definition with_radio (n : Node) x y := mkNode (nvs n) x (storage n) (rtc n) (queue n) (sleep_mgr n) (current_seq n) (trace_log n) (trace n ++ [y]).

Abbreviation N := (M Node).

(** ** Radio and clock *)

Definition send (f : list Z) : N unit := fun n =>
  let '(r, e) := t_send (env n) f in
  Some (r, match r with Ok _ => with_radio n e (Sent f) | _ => with_env n e end).

Definition recv (timeout_ms : Z) : N (option (list Z)) := fun n =>
  let '(r, e) := t_recv (env n) timeout_ms in
  Some (r, match r with Ok (Some f) => with_radio n e (Received f) | _ => with_env n e end).

(** A frame and its signal strength. *)
Definition recv_with_metadata (timeout_ms : Z) : N (option (list Z * option Z)) :=
  let! o := recv timeout_ms in
  let! n := mget in
  mret ((fun data => (data, t_rssi (env n))) <$> o).

(** An operation of the environment alone. *)
Definition env_op {A} (f : E -> A * E) : N A := fun n =>
  let '(a, e) := f (env n) in Some (Ok a, with_env n e).

Definition elapsed_ms : N Z := env_op elapsed.
Definition delay_ms (ms : Z) : N unit := env_op (fun e => (tt, delay e ms)).
Definition random_u64 : N Z := env_op random.
Definition health_check : N bool := env_op rng_healthy.
Definition enter_active_gpio_state : N unit := env_op (fun e => (tt, active_gpio e)).
Definition enter_idle_gpio_state : N unit := env_op (fun e => (tt, idle_gpio e)).

(** [Hal::adc_read_diagnostics], the default method: the raw sample and its value
    in millivolts. *)
Definition adc_read_diagnostics (channel : Z) : N (Z * Z) :=
  let! raw := env_op (fun e => adc e channel) in
  mret (if raw <? 0 then (raw, raw)
        else (raw, as_i32 (Z.quot (Z.min (raw * 2500) (2 ^ 63 - 1)) 2047))).

(** ** Storage *)

Definition nvs_get : N Nvs := let! n := mget in mret (nvs n).

(** A write that either happens or fails. *)
Definition nvs_write (f : Nvs -> Nvs) : N unit := fun n =>
  let '(o, e) := flash_fault (env n) in
  Some (match o with
        | None => (Ok tt, with_nvs (with_env n e) (f (nvs n)))
        | Some err => (Err err, with_env n e)
        end).

(** The operations of the [PlatformStorage] trait, each one step that happens or fails as a
    whole.  The firmware's implementation ([esp_storage.rs], not modelled) keeps a key, its
    hint and a magic number, and a board layout with two pins, as several entries, so
    that there a failed [write_key], [erase_key] or [write_board_layout] may leave some of
    them written. *)
Definition read_key : N (option (Z * list Z)) := let! n := nvs_get in mret (key n).
Definition write_key (hint : Z) (psk : list Z) : N unit :=
  let! n := nvs_get in
  match key n with
  | Some _ => mthrow (StorageError "already paired")
  | None => nvs_write (fun s => nvs_key s (Some (hint, psk)))
  end.
Definition erase_key : N unit := nvs_write (fun s => nvs_key s None).
Definition read_schedule : N (Z * Z) := let! n := nvs_get in mret (interval n, active_partition n).
Definition write_schedule_interval (i : Z) : N unit := nvs_write (fun s => nvs_schedule s i (active_partition s)).
Definition write_active_partition (p : Z) : N unit := nvs_write (fun s => nvs_schedule s (interval s) p).
Definition read_program (p : Z) : N (option (list Z)) :=
  let! n := nvs_get in mret (default None (programs n !! Z.to_nat p)).
Definition write_program (p : Z) (image : list Z) : N unit := fun n =>
  let '((kept, o), e) := program_fault (env n) image in
  let n' := with_nvs (with_env n e) (nvs_programs (nvs n) (<[Z.to_nat p := kept]> (programs (nvs n)))) in
  Some (match o with None => Ok tt | Some err => Err err end, n').
Definition erase_program (p : Z) : N unit :=
  nvs_write (fun s => nvs_programs s (<[Z.to_nat p := None]> (programs s))).
(** Reads and clears the flag. *)
Definition take_early_wake_flag : N bool :=
  let! n := nvs_get in
  mmod (fun s => with_nvs s (nvs_early (nvs s) false)) ;;!
  mret (early_wake n).
Definition set_early_wake_flag : N unit := nvs_write (fun s => nvs_early s true).
Definition read_channel : N (option Z) := let! n := nvs_get in mret (channel n).
Definition write_channel (c : Z) : N unit := nvs_write (fun s => nvs_channel s (Some c)).
Definition erase_channel : N unit := nvs_write (fun s => nvs_channel s None).
Definition read_peer_payload : N (option (list Z)) := let! n := nvs_get in mret (peer_payload n).
Definition has_peer_payload : N bool := let! p := read_peer_payload in mret (bool_decide (is_Some p)).
Definition write_peer_payload (p : list Z) : N unit := nvs_write (fun s => nvs_peer s (Some p)).
Definition erase_peer_payload : N unit := nvs_write (fun s => nvs_peer s None).
Definition read_reg_complete : N bool := let! n := nvs_get in mret (reg_complete n).
Definition write_reg_complete (b : bool) : N unit := nvs_write (fun s => nvs_reg s b).
Definition read_last_battery_mv : N (option Z) := let! n := nvs_get in mret (last_battery_mv n).
Definition write_last_battery_mv (mv : Z) : N unit := nvs_write (fun s => nvs_battery s (Some mv)).
Definition read_board_layout : N (option BoardLayout) := let! n := nvs_get in mret (board_layout n).
Definition write_board_layout (l : BoardLayout) : N unit := nvs_write (fun s => nvs_board s (Some l)).
(** [StagedTestCommand] has the fields of [RunTestCommand]. *)
Definition read_staged_test_command : N (option RunTestCommand) := let! n := nvs_get in mret (staged_test n).
Definition write_staged_test_command (c : RunTestCommand) : N unit := nvs_write (fun s => nvs_staged s (Some c)).
Definition clear_staged_test_command : N unit := nvs_write (fun s => nvs_staged s None).
Definition read_test_result : N (option TestResult) := let! n := nvs_get in mret (test_result n).
Definition write_test_result (r : TestResult) : N unit := nvs_write (fun s => nvs_result s (Some r)).
Definition clear_test_result : N unit := nvs_write (fun s => nvs_result s None).
(** Default interval and partition 0. *)
Definition reset_schedule (default_interval : Z) : N unit := nvs_write (fun s => nvs_schedule s default_interval 0).
End State.
Arguments Node : clear implicits.
