(* ===== verification/NodePairing.v ===== *)
(** * Provisioning a node over Bluetooth

    [sonde-node/src/ble_pairing.rs]: NODE_PROVISION, and the radio test a node runs
    before it is provisioned; the dispatch of what the phone writes
    ([esp_ble_pairing.rs]).  The functions are computations of the node's monad, so
    that any of their writes may fail. *)

From Stdlib Require Import String.
From S2P Require Import Prelude Frame Messages BoardLayout BleEnvelope ProgramImage MapStorage AsyncQueue NodeM NodeState.
Open Scope list_scope.
Open Scope Z_scope.

Definition NODE_ACK_SUCCESS : Z := 0x00.
Definition NODE_ACK_ALREADY_PAIRED : Z := 0x01.
Definition NODE_ACK_STORAGE_ERROR : Z := 0x02.
Definition PEER_PAYLOAD_MAX_LEN : Z := 202.
Definition BLE_MIN_ATT_MTU : Z := 247.
Definition NODE_PROVISION_MIN_LEN : Z := 37.
Definition TEST_MAX_RETRIES : Z := 3.
Definition TEST_RETRY_DELAY_MS : Z := 200.
Definition TEST_LISTEN_TIMEOUT_MS : Z := 2000.
Definition OFFSET_MSG_TYPE : nat := 2.

Definition is_mtu_acceptable (mtu : Z) : bool := BLE_MIN_ATT_MTU <=? mtu.

Inductive ProvisionedBoardLayout : Type :=
  | Absent
  | Provided (l : BoardLayout).

Record NodeProvision := mkProvision {
  np_key_hint : Z;
  np_psk : list Z;
  np_channel : Z;
  np_payload : list Z;
  np_board : ProvisionedBoardLayout
}.

(** ** Results of the radio test *)

Definition success_result (ty : Z) (reply : list Z) (rssi : option Z) (attempts ms : Z) : TestResult :=
  mkTestResult TEST_RESULT_OK (Some ty) (Some reply) rssi attempts ms.
Definition no_result_result : TestResult := mkTestResult TEST_RESULT_NO_RESULT None None None 0 0.
Definition execution_error_result (ty attempts ms : Z) : TestResult :=
  mkTestResult TEST_RESULT_EXECUTION_ERROR (Some ty) None None attempts ms.

(** A result that cannot be encoded is replaced by one that can. *)
Definition sanitize_test_result (r : TestResult) : TestResult :=
  match validate_test_result r with
  | Ok _ => r
  | _ =>
      match tr_type r with
      | Some ty => execution_error_result ty (tr_attempts r) (tr_elapsed r)
      | None => no_result_result
      end
  end.

Section Pairing.
Context {Value : Type} `{C : Cbor Value} `{CS : !CborStream C}.
Context {E : Type} `{Env E}.
Abbreviation N := (M (Node E)).

(** ** NODE_PROVISION *)

Definition parse_node_provision (body : list Z) : Res string NodeProvision :=
  if len body <? NODE_PROVISION_MIN_LEN then Err "body too short"%string else
  let? hint := slice body 0 2 in
  let? psk := slice body 2 34 in
  let? ch := index body 34 in
  if negb (channel_in_range ch) then Err "rf_channel out of range (must be 1-13)"%string else
  let? n := slice body 35 37 in
  let payload_len := from_be_bytes n in
  if payload_len >? PEER_PAYLOAD_MAX_LEN then Err "encrypted_payload too large"%string else
  let expected_len := NODE_PROVISION_MIN_LEN + payload_len in
  if len body <? expected_len then Err "encrypted_payload truncated"%string else
  let? payload := slice body 37 (37 + payload_len) in
  let? board :=
    if len body >? expected_len then
      let? tail := slice_from body expected_len in
      let? l := map_err (fun _ => "board_layout CBOR decode failed"%string) (decode_board_layout_cbor tail) in
      Ok (Provided l)
    else Ok Absent in
  Ok (mkProvision (from_be_bytes hint) psk ch payload board).

(** [Option::expect]. *)
Definition expect {A} (o : option A) : NodeResult A := match o with Some a => Ok a | None => Panic end.

Definition encode_node_ack (status : Z) : NodeResult (list Z) := expect (encode_ble_envelope BLE_NODE_ACK [status]).

(** [let _ = m]. *)
Definition ignore (m : N unit) : N unit := let! _ := mtry m in mret tt.

(** [if m.is_err() { undo; return NODE_ACK_STORAGE_ERROR }], then [k]. *)
Definition or_storage_error (m undo : N unit) (k : N Z) : N Z :=
  let! r := mtry m in
  match r with
  | inl _ => undo ;;! mret NODE_ACK_STORAGE_ERROR
  | inr _ => k
  end.

Definition erase_credentials : N unit := ignore erase_key ;;! ignore erase_peer_payload.

Definition restore_channel (previous : option Z) : N unit :=
  match previous with
  | Some c => ignore (write_channel c)
  | None => ignore erase_channel
  end.

(** Once the key is written: payload, registration flag, channel, layout. *)
Definition finish_provision (p : NodeProvision) : N Z :=
  or_storage_error (write_peer_payload (np_payload p)) (ignore erase_key) (
  or_storage_error (write_reg_complete false) erase_credentials (
  let! previous_channel := read_channel in
  or_storage_error (write_channel (np_channel p)) erase_credentials (
  match np_board p with
  | Provided layout =>
      let! previous_layout := read_board_layout in
      or_storage_error (write_board_layout layout)
        (match previous_layout with Some l => ignore (write_board_layout l) | None => mret tt end ;;!
         restore_channel previous_channel ;;!
         erase_credentials)
        (mret NODE_ACK_SUCCESS)
  | Absent =>
      let! layout := read_board_layout in
      match layout with
      | Some _ => mret NODE_ACK_SUCCESS
      | None =>
          or_storage_error (write_board_layout LEGACY_COMPAT)
            (restore_channel previous_channel ;;! erase_credentials)
            (mret NODE_ACK_SUCCESS)
      end
  end))).

Definition handle_node_provision (p : NodeProvision) : N Z :=
  ignore erase_key ;;!
  or_storage_error (write_key (np_key_hint p) (np_psk p)) (mret tt) (finish_provision p).

(** ** The radio test *)

(** [unwrap_or_default]. *)
Definition or_default {X} (r : Res X (list Z)) : list Z := match r with Ok b => b | _ => [] end.

Definition run_test_ack (status : Z) : list Z :=
  default [] (encode_ble_envelope BLE_RUN_TEST_ACK (or_default (encode_run_test_ack status))).

Definition encode_test_result_response (r : TestResult) : NodeResult (list Z) :=
  match encode_test_result (sanitize_test_result r) with
  | Ok body => expect (encode_ble_envelope BLE_TEST_RESULT body)
  | Err _ | Panic => Panic
  | UB => UB
  end.

Definition handle_run_test_command (body : list Z) : N (Z * option RunTestCommand) :=
  match decode_run_test_command body with
  | Ok command =>
      if negb (rt_type command =? TEST_TYPE_DIAG_FRAME) then mret (RUN_TEST_ACK_UNSUPPORTED, None) else
      let! r := mtry (write_staged_test_command command) in
      mret (match r with
            | inl _ => (RUN_TEST_ACK_INVALID, None)
            | inr _ => (RUN_TEST_ACK_OK, Some command)
            end)
  | _ => mret (RUN_TEST_ACK_INVALID, None)
  end.

Definition handle_read_test_result (body : list Z) : N (string + TestResult) :=
  match decode_read_test_result body with
  | Ok _ =>
      let! r := read_test_result in
      mret (inr (match r with Some r => sanitize_test_result r | None => no_result_result end))
  | _ => mret (inl "READ_TEST_RESULT body must be empty"%string)
  end.

Definition is_diag_reply (data : list Z) : bool :=
  (MIN_FRAME_SIZE <=? len data) && (data !!! OFFSET_MSG_TYPE =? MSG_DIAG_REPLY).

(** Listens for at most [remaining_ms]; the firmware's build (feature [esp]).
    [Instant::now] reads the clock [elapsed_ms] reads. *)
Fixpoint listen_diag_reply (fuel : nat) (remaining_ms : Z) : N (option (list Z * option Z)) :=
  if remaining_ms =? 0 then mret None else
  match fuel with
  | O => fun _ => None
  | S fuel' =>
      let! before := elapsed_ms in
      let! r := mtry (recv_with_metadata remaining_ms) in
      match r with
      | inr (Some (data, rssi)) =>
          if is_diag_reply data then mret (Some (data, rssi)) else
          let! after := elapsed_ms in
          listen_diag_reply fuel' (Z.max 0 (remaining_ms - Z.max (as_u32 (Z.max 0 (after - before))) 1))
      | inr None | inl _ => mret None
      end
  end.

(** [clock.elapsed_ms().saturating_sub(start_ms)]. *)
Definition since (start_ms : Z) : N Z := let! t := elapsed_ms in mret (Z.max 0 (t - start_ms)).

(** The attempts that are left, the number of the last one, and whether a frame was sent. *)
Fixpoint diag_attempts (fuel attempts : nat) (attempt_count : Z) (sent : bool) (c : RunTestCommand) (start_ms : Z) : N TestResult :=
  match attempts with
  | O =>
      let! ms := since start_ms in
      mret (if sent then mkTestResult TEST_RESULT_TIMEOUT (Some (rt_type c)) None None attempt_count ms
            else execution_error_result (rt_type c) attempt_count ms)
  | S attempts' =>
      (if attempt_count >? 0 then delay_ms TEST_RETRY_DELAY_MS else mret tt) ;;!
      let attempt_count := attempt_count + 1 in
      let! r := mtry (send (rt_payload c)) in
      match r with
      | inl _ => diag_attempts fuel attempts' attempt_count sent c start_ms
      | inr _ =>
          let! o := listen_diag_reply fuel TEST_LISTEN_TIMEOUT_MS in
          match o with
          | Some (data, rssi) =>
              let! ms := since start_ms in
              mret (success_result (rt_type c) data rssi attempt_count ms)
          | None => diag_attempts fuel attempts' attempt_count true c start_ms
          end
      end
  end.

Definition execute_diag_frame_test (fuel : nat) (c : RunTestCommand) : N TestResult :=
  let! start_ms := elapsed_ms in
  match rt_channel c with
  | None => mret (execution_error_result (rt_type c) 0 0)
  | Some ch =>
      if negb (channel_in_range ch) || bool_decide (rt_payload c = []) || (len (rt_payload c) >? MAX_FRAME_SIZE)
      then mret (execution_error_result (rt_type c) 0 0)
      else diag_attempts fuel (Z.to_nat (TEST_MAX_RETRIES + 1)) 0 false c start_ms
  end.

Definition execute_staged_test_command (fuel : nat) : N (option TestResult) :=
  let! staged := read_staged_test_command in
  match staged with
  | None => mret None
  | Some command =>
      let! result :=
        if rt_type command =? TEST_TYPE_DIAG_FRAME then execute_diag_frame_test fuel command
        else mret (execution_error_result (rt_type command) 0 0) in
      let! w := mtry (write_test_result result) in
      match w with
      | inl err => ignore clear_staged_test_command ;;! mthrow err
      | inr _ => clear_staged_test_command ;;! mret (Some result)
      end
  end.

(** ** What the phone writes

    The reply to indicate, and whether the connection is closed after it. *)

Definition handle_gatt_write (data : list Z) : N (option (list Z) * bool) :=
  match parse_ble_envelope data with
  | Some (msg_type, body) =>
      if msg_type =? BLE_NODE_PROVISION then
        match parse_node_provision body with
        | Ok provision =>
            let! status := handle_node_provision provision in
            let! ack := lift (encode_node_ack status) in
            mret (Some ack, false)
        | Err _ => mret (None, false)
        | Panic => lift Panic
        | UB => lift UB
        end
      else if msg_type =? BLE_RUN_TEST_COMMAND then
        let! k := read_key in
        match k with
        | Some _ => mret (Some (run_test_ack RUN_TEST_ACK_INVALID), false)
        | None =>
            let! '(status, staged) := handle_run_test_command body in
            mret (Some (run_test_ack status), bool_decide (is_Some staged) && (status =? RUN_TEST_ACK_OK))
        end
      else if msg_type =? BLE_READ_TEST_RESULT then
        let! r := handle_read_test_result body in
        match r with
        | inr result => let! b := lift (encode_test_result_response result) in mret (Some b, false)
        | inl _ => mret (None, false)
        end
      else mret (None, false)
  | None => mret (None, false)
  end.
End Pairing.

(** ** What provisioning leaves behind *)

(** Storage after NODE_PROVISION succeeded. *)
Definition provisioned (p : NodeProvision) (s : Nvs) : Nvs :=
  nvs_board (nvs_channel (nvs_reg (nvs_peer (nvs_key s (Some (np_key_hint p, np_psk p)))
    (Some (np_payload p))) false) (Some (np_channel p)))
    (Some (match np_board p with Provided l => l | Absent => default LEGACY_COMPAT (board_layout s) end)).

(** Storage after it failed and was rolled back: no key, and nothing else changed but
    the registration data that goes with a key, of which the stored pairing request may
    be erased and the registration marked pending. *)
Definition undone (s s' : Nvs) : Prop :=
  exists pp rc, (pp = peer_payload s \/ pp = None) /\ (rc = reg_complete s \/ rc = false) /\
    s' = nvs_reg (nvs_peer (nvs_key s None) pp) rc.

Section Faults.
Context {E : Type} `{Env E}.
Abbreviation N := (M (Node E)).

(** The number of flash writes that failed so far. *)
Context (faults : E -> nat).
Context (Hfaults : forall e, faults (flash_fault e).2 = (match (flash_fault e).1 with Some _ => 1 | None => 0 end + faults e)%nat).

(** From storage [s] and [k] faults, [m] ends and its result, storage and faults
    satisfy [Q]. *)
Definition runs {A} (s : Nvs) (k : nat) (m : N A) (Q : NodeResult A -> Nvs -> nat -> Prop) : Prop :=
  forall n, nvs n = s -> faults (env n) = k -> exists r n', m n = Some (r, n') /\ Q r (nvs n') (faults (env n')).

Lemma runs_ret {A} s k (a : A) Q : Q (Ok a) s k -> runs s k (mret a) Q.
Proof using . intros HQ n <- <-. by exists (Ok a), n. Qed.

Lemma runs_bind {A B} s k (m : N A) (c : A -> N B) Q :
  runs s k m (fun r s' k' => match r with Ok a => runs s' k' (c a) Q | _ => False end) -> runs s k (mbind m c) Q.
Proof using .
  intros Hm n Hs Hk. destruct (Hm n Hs Hk) as (r & n' & Hr & HQ). destruct r as [a| | |]; try done.
  destruct (HQ n' eq_refl eq_refl) as (r' & n2 & Hr' & HQ'). exists r', n2. split; [|done]. unfold mbind. by rewrite Hr.
Qed.

Lemma runs_read {A B} s k (f : Nvs -> A) (c : A -> N B) Q :
  runs s k (c (f s)) Q -> runs s k (let! x := (let! n := nvs_get in mret (f n)) in c x) Q.
Proof using . intros Hc n Hs Hk. destruct (Hc n Hs Hk) as (r & n' & Hr & HQ). subst s. by exists r, n'. Qed.

Lemma runs_try_write {B} s k f (c : NodeError + unit -> N B) Q :
  runs (f s) k (c (inr tt)) Q -> (forall x, runs s (S k) (c (inl x)) Q) ->
  runs s k (let! r := mtry (nvs_write f) in c r) Q.
Proof using Hfaults.
  intros Hok Herr n <- <-. unfold mbind, mtry, nvs_write. pose proof (Hfaults (env n)) as Hn.
  destruct (flash_fault (env n)) as [[x|] e] eqn:Hff; cbn [fst snd] in Hn; cbn beta iota.
  - by apply (Herr x).
  - by apply Hok.
Qed.

Lemma runs_write s k f undo (c : N Z) Q :
  runs (f s) k c Q -> runs s (S k) (undo ;;! mret NODE_ACK_STORAGE_ERROR) Q -> runs s k (or_storage_error (nvs_write f) undo c) Q.
Proof using Hfaults. intros Hok Herr. apply runs_try_write; [exact Hok|intros x; exact Herr]. Qed.

Lemma runs_ignore {B} s k f (c : N B) Q :
  runs (f s) k c Q -> runs s (S k) c Q -> runs s k (ignore (nvs_write f) ;;! c) Q.
Proof using Hfaults.
  intros Hok Herr. assert (Heq : (ignore (nvs_write f) ;;! c) = (let! _ := mtry (nvs_write f) in mret tt) ;;! c) by done.
  rewrite Heq. apply runs_bind, runs_try_write; [by apply runs_ret|intros x; by apply runs_ret].
Qed.

Lemma assoc {A B D} (m : N A) (c : A -> N B) (d : B -> N D) n :
  mbind (mbind m c) d n = mbind m (fun a => mbind (c a) d) n.
Proof using . unfold mbind. by destruct (m n) as [[[]?]|]. Qed.

Lemma runs_assoc {A B D} s k (m : N A) (c : A -> N B) (d : B -> N D) Q :
  runs s k (mbind m (fun a => mbind (c a) d)) Q -> runs s k (mbind (mbind m c) d) Q.
Proof using . intros Hr n Hs Hk. rewrite assoc. by apply Hr. Qed.

Lemma runs_write_key s k hint psk (c : N Z) Q :
  (key s = None -> runs (nvs_key s (Some (hint, psk))) k c Q) ->
  (key s = None -> runs s (S k) (mret NODE_ACK_STORAGE_ERROR) Q) ->
  (is_Some (key s) -> runs s k (mret NODE_ACK_STORAGE_ERROR) Q) ->
  runs s k (or_storage_error (write_key hint psk) (mret tt) c) Q.
Proof using Hfaults.
  intros Hok Herr Hpaired n Hs Hk. subst s. destruct (key (nvs n)) as [old|] eqn:Hkey.
  - destruct (Hpaired ltac:(eauto) n eq_refl Hk) as (r & n' & Hr & HQ). exists r, n'. split; [|done].
    unfold or_storage_error, write_key, mbind, mtry, nvs_get, mget, mret. cbn. by rewrite Hkey.
  - destruct (runs_write (nvs n) k (fun s => nvs_key s (Some (hint, psk))) (mret tt) c Q (Hok eq_refl) (Herr eq_refl) n eq_refl Hk) as (r & n' & Hr & HQ).
    exists r, n'. split; [|done]. rewrite <- Hr. unfold or_storage_error, write_key, mbind, mtry, nvs_get, mget, mret, mbind. cbn -[nvs_write].
    by rewrite Hkey.
Qed.

(** The end of a failed provisioning. *)
Definition rolled_back (s : Nvs) (k : nat) (r : NodeResult Z) (s' : Nvs) (k' : nat) : Prop :=
  r = Ok NODE_ACK_STORAGE_ERROR /\ (k < k')%nat /\ (k' = S k -> undone s s').

Lemma runs_erase_credentials s0 s k k0 :
  (k0 < k)%nat -> (k = S k0 -> exists rc kk pp, (rc = reg_complete s0 \/ rc = false) /\ s = nvs_reg (nvs_peer (nvs_key s0 kk) pp) rc) ->
  runs s k (erase_credentials ;;! mret NODE_ACK_STORAGE_ERROR) (rolled_back s0 k0).
Proof using Hfaults.
  intros Hk Hs. unfold erase_credentials. apply runs_assoc, runs_ignore; apply runs_ignore; apply runs_ret; unfold rolled_back.
  all: split; [done|split; [lia|]]; intros Hk'; try lia. destruct Hs as (rc & kk & pp & Hrc & ->); [lia|].
  exists None, rc. destruct s0; simpl in *. eauto.
Qed.

(** A fault after the key is written: undoing [s], which differs from [s0] in the
    data of the provisioning, takes the storage back. *)
Lemma runs_restore s0 s k k0 previous kk pp ch :
  (k0 < k)%nat -> previous = channel s0 ->
  (k = S k0 -> s = nvs_channel (nvs_reg (nvs_peer (nvs_key s0 kk) pp) false) (Some ch)) ->
  runs s k ((restore_channel previous ;;! erase_credentials) ;;! mret NODE_ACK_STORAGE_ERROR) (rolled_back s0 k0).
Proof using Hfaults.
  intros Hk -> Hs. apply runs_assoc. unfold restore_channel.
  assert (Hback : forall s1 k1, (k0 < k1)%nat -> (k1 = S k0 -> s1 = nvs_reg (nvs_peer (nvs_key s0 kk) pp) false) ->
    runs s1 k1 (erase_credentials ;;! mret NODE_ACK_STORAGE_ERROR) (rolled_back s0 k0)).
  { intros s1 k1 Hk1 Hs1. apply runs_erase_credentials; [done|]. intros Hk2. exists false, kk, pp. auto. }
  destruct (channel s0) as [c|] eqn:Hc; apply runs_ignore; apply Hback; try lia; intros Hk1; rewrite Hs by lia; destruct s0; simpl in *; by subst.
Qed.

Lemma runs_finish p s0 k0 k :
  (k0 <= k)%nat ->
  runs (nvs_key s0 (Some (np_key_hint p, np_psk p))) k (finish_provision p)
    (fun r s' k' => (r = Ok NODE_ACK_SUCCESS /\ s' = provisioned p s0) \/ rolled_back s0 k0 r s' k').
Proof using Hfaults.
  intros Hk. unfold finish_provision.
  assert (Hor : forall s k (m : N Z), runs s k m (rolled_back s0 k0) ->
    runs s k m (fun r s' k' => (r = Ok NODE_ACK_SUCCESS /\ s' = provisioned p s0) \/ rolled_back s0 k0 r s' k')).
  { intros s1 k1 m Hm n Hs1 Hk1. destruct (Hm n Hs1 Hk1) as (r & n' & ? & ?). exists r, n'. auto. }
  apply runs_write; [|apply Hor, runs_ignore; apply runs_ret; (split; [done|split; [lia|]]); intros Hk'; try lia].
  2: { exists (peer_payload s0), (reg_complete s0). destruct s0; simpl in *. auto. }
  apply runs_write; [|apply Hor, runs_erase_credentials; [lia|]; intros Hk'; exists (reg_complete s0), (Some (np_key_hint p, np_psk p)), (Some (np_payload p)); destruct s0; simpl; auto].
  apply runs_read. apply runs_write; [|apply Hor, runs_erase_credentials; [lia|]; intros Hk'; exists false, (Some (np_key_hint p, np_psk p)), (Some (np_payload p)); destruct s0; simpl; auto].
  destruct (np_board p) as [|l] eqn:Hb.
  - apply runs_read. cbn [board_layout nvs_channel nvs_reg nvs_peer nvs_key]. destruct (board_layout s0) as [l|] eqn:Hl.
    + apply runs_ret. left. split; [done|]. unfold provisioned. rewrite Hb. destruct s0; simpl in *. by subst.
    + apply runs_write; [apply runs_ret; left; split; [done|]; unfold provisioned; by rewrite Hb, Hl|]. apply Hor. apply (runs_restore _ _ _ _ _ (Some (np_key_hint p, np_psk p)) (Some (np_payload p)) (np_channel p)); [lia|done|]. intros _. reflexivity.
  - apply runs_read. apply runs_write; [apply runs_ret; left; split; [done|]; unfold provisioned; by rewrite Hb|]. apply Hor.
    cbn [board_layout nvs_channel nvs_reg nvs_peer nvs_key]. destruct (board_layout s0) as [l0|] eqn:Hl.
    + apply runs_assoc. apply runs_ignore; (apply (runs_restore _ _ _ _ _ (Some (np_key_hint p, np_psk p)) (Some (np_payload p)) (np_channel p)); [lia|done|]); intros Hk'; [|lia]. destruct s0; simpl in *. by subst.
    + apply runs_assoc, runs_bind, runs_ret. apply (runs_restore _ _ _ _ _ (Some (np_key_hint p, np_psk p)) (Some (np_payload p)) (np_channel p)); [lia|done|]. intros _. reflexivity.
Qed.

(** C27: provisioning a node is atomic up to a single flash fault.  Whichever of its
    writes fail, the handler ends with an acknowledgement; SUCCESS means that the
    node holds exactly the key, the payload, the channel and the layout it was sent,
    its registration is pending and nothing else changed; and STORAGE_ERROR means
    that a write failed, and if only one did, that the rollback left a node without
    a key that is otherwise as it was, except that its stored pairing request may be
    erased and its registration marked pending (or, when the very erasure of an old key
    failed, the node as it was). *)
Theorem provision_atomic p n :
  exists status n', handle_node_provision p n = Some (Ok status, n') /\
    ((status = NODE_ACK_SUCCESS /\ nvs n' = provisioned p (nvs n)) \/
     (status = NODE_ACK_STORAGE_ERROR /\ (faults (env n) < faults (env n'))%nat /\
      (faults (env n') = S (faults (env n)) -> nvs n' = nvs n \/ undone (nvs n) (nvs n')))).
Proof using Hfaults.
  set (s := nvs n). set (k := faults (env n)).
  set (Q := fun (r : NodeResult Z) s' k' =>
    (r = Ok NODE_ACK_SUCCESS /\ s' = provisioned p s) \/
    (r = Ok NODE_ACK_STORAGE_ERROR /\ (k < k')%nat /\ (k' = S k -> s' = s \/ undone s s'))).
  enough (Hr : runs s k (handle_node_provision p) Q).
  { destruct (Hr n eq_refl eq_refl) as (r & n' & Hn & HQ). destruct HQ as [[-> HQ]|[-> HQ]]; eexists _, n'; split; [exact Hn|by left|exact Hn|by right]. }
  assert (Hmono : forall k1 r s' k', (k <= k1)%nat ->
    (r = Ok NODE_ACK_SUCCESS /\ s' = provisioned p s) \/ rolled_back s k r s' k' -> Q r s' k').
  { intros k1 r s' k' _ [[? ?]|(? & ? & ?)]; [by left|right; auto]. }
  assert (Hfin : forall s1 k1, (k <= k1)%nat ->
    nvs_key s1 (Some (np_key_hint p, np_psk p)) = nvs_key s (Some (np_key_hint p, np_psk p)) ->
    runs (nvs_key s1 (Some (np_key_hint p, np_psk p))) k1 (finish_provision p) Q).
  { intros s1 k1 Hk1 -> n1 Hn1 Hf1. destruct (runs_finish p s k k1 Hk1 n1 Hn1 Hf1) as (r & n' & Hr & HQ). exists r, n'. eauto. }
  unfold handle_node_provision. apply runs_ignore; apply runs_write_key; intros Hkey.
  - by apply Hfin; [lia|destruct s].
  - apply runs_ret. right. split; [done|]. split; [lia|]. intros _. right. exists (peer_payload s), (reg_complete s). destruct s; simpl; auto.
  - by destruct Hkey.
  - by apply Hfin; [lia|].
  - apply runs_ret. right. split; [done|]. split; [lia|]. intros ?. lia.
  - apply runs_ret. right. split; [done|]. split; [lia|]. by left.
Qed.
End Faults.
