(* ===== verification/NodeRadio.v ===== *)
(** * The node's exchanges with the gateway

    The radio half of the wake cycle ([sonde-node/src/wake_cycle.rs] lines
    204-731) and the registration exchange ([peer_request.rs]): WAKE and COMMAND,
    APP_DATA with and without a reply, the chunked program transfer, and
    PEER_REQUEST.  Loops that listen until a deadline take [fuel]; the proofs show
    that more fuel than frames that can arrive is enough. *)

From Stdlib Require Import String.
From S2P Require Import Prelude Frame Messages ProgramImage MapStorage AsyncQueue NodeM NodeState.
Open Scope list_scope.
Open Scope Z_scope.

Definition MAX_RETRIES : Z := 3.
Definition RETRY_DELAY_MS : Z := 400.
Definition RESPONSE_TIMEOUT_MS : Z := 200.
Definition FIRMWARE_ABI_VERSION : Z := 2.
Definition MSG_PEER_REQUEST : Z := 0x05.
Definition MSG_PEER_ACK : Z := 0x84.
Definition PEER_ACK_KEY_STATUS : Z := 1.
Definition PEER_ACK_TIMEOUT_MS : Z := 10000.
Definition PEER_ACK_STATUS_OK : Z := 0.

Record NodeIdentity := mkIdentity { id_key_hint : Z; psk : list Z }.

(** What a COMMAND carries: starting sequence number, gateway time, payload,
    downlink blob. *)
Definition Cmd : Type := Z * Z * CommandPayload * option (list Z).

Section Radio.
Context {Value : Type} `{C : Cbor Value}.
Context `{Sha256Provider, AeadProvider}.
Context {E : Type} `{Env E}.
(** The build: overflow checking, and the crate version WAKE reports. *)
Context (oc : bool) (firmware_version : list Z).
Abbreviation N := (M (Node E)).

(** ** Verification of received frames *)

Definition decode_verify_frame (raw psk : list Z) : NodeResult (FrameHeader * list Z) :=
  let? decoded := map_err (fun _ => MalformedPayload "frame decode failed") (decode_frame raw) in
  let? payload := map_err (fun _ => AuthFailure) (open_frame decoded psk) in
  Ok (header decoded, payload).

Definition as_u64_opt (v : Value) : option Z := as_integer v ≫= try_u 64.

(** One field of the map: the last [starting_seq] and [timestamp_ms] win. *)
Definition nop_field (acc : option Z * option Z) (kv : Value * Value) : option Z * option Z :=
  let '(seq, ts) := acc in
  match as_u64_opt kv.1 with
  | Some k =>
      if k =? KEY_STARTING_SEQ then (as_u64_opt kv.2, ts)
      else if k =? KEY_TIMESTAMP_MS then (seq, as_u64_opt kv.2)
      else acc
  | None => acc
  end.

Definition decode_command_as_nop (payload : list Z) : NodeResult Cmd :=
  let? value := map_err (fun _ => MalformedPayload "CBOR decode failed") (from_reader payload) in
  let? fields := ok_or (as_map value) (MalformedPayload "expected CBOR map") in
  let '(seq, ts) := fold_left nop_field fields (None, None) in
  let? seq := ok_or seq (MalformedPayload "missing starting_seq in unknown command") in
  let? ts := ok_or ts (MalformedPayload "missing timestamp_ms in unknown command") in
  Ok (seq, ts, Nop, None).

Definition verify_and_decode_command (raw : list Z) (id : NodeIdentity) (expected_nonce : Z) : NodeResult Cmd :=
  let? '(h, payload) := decode_verify_frame raw (psk id) in
  if negb (h_msg_type h =? MSG_COMMAND) then Err (UnexpectedMsgType (h_msg_type h)) else
  if negb (h_nonce h =? expected_nonce) then Err ResponseBindingMismatch else
  match gateway_decode (h_msg_type h) payload with
  | Ok (Command seq ts p blob) => Ok (seq, ts, p, blob)
  | Ok _ => Err (UnexpectedMsgType (h_msg_type h))
  | Err (InvalidCommandType _) => decode_command_as_nop payload
  | Err _ => Err (MalformedPayload "COMMAND payload decode failed")
  | Panic => Panic
  | UB => UB
  end.

Definition verify_and_decode_chunk (raw : list Z) (id : NodeIdentity) (expected_seq expected_index : Z) :
    NodeResult (list Z) :=
  let? '(h, payload) := decode_verify_frame raw (psk id) in
  if negb (h_msg_type h =? MSG_CHUNK) then Err (UnexpectedMsgType (h_msg_type h)) else
  if negb (h_nonce h =? expected_seq) then Err ResponseBindingMismatch else
  let? msg := map_err (fun _ => MalformedPayload "CHUNK payload decode failed") (gateway_decode (h_msg_type h) payload) in
  match msg with
  | Chunk i data => if negb (i =? expected_index) then Err (ChunkIndexMismatch expected_index i) else Ok data
  | _ => Err (UnexpectedMsgType (h_msg_type h))
  end.

(** ** WAKE and COMMAND *)

Fixpoint wake_attempts (attempts : nat) (attempt : Z) (frame : list Z) (id : NodeIdentity) (wake_nonce : Z) : N Cmd :=
  match attempts with
  | O => mthrow WakeRetriesExhausted
  | S attempts' =>
      (if attempt >? 0 then delay_ms RETRY_DELAY_MS else mret tt) ;;!
      send frame ;;!
      let! o := recv RESPONSE_TIMEOUT_MS in
      match o with
      | None => wake_attempts attempts' (attempt + 1) frame id wake_nonce
      | Some raw =>
          match verify_and_decode_command raw id wake_nonce with
          | Ok r => mret r
          | Err _ => wake_attempts attempts' (attempt + 1) frame id wake_nonce
          | Panic => lift Panic
          | UB => lift UB
          end
      end
  end.

Definition wake_message (program_hash : list Z) (battery_mv : Z) (blob : option (list Z)) : NodeMessage :=
  Wake FIRMWARE_ABI_VERSION program_hash battery_mv firmware_version blob.

Definition wake_command_exchange (id : NodeIdentity) (wake_nonce : Z) (program_hash : list Z) (battery_mv : Z)
    (wake_blob : option (list Z)) : N Cmd :=
  let! cbor := lift (map_err (fun _ => MalformedPayload "WAKE message encode failed")
    (node_encode (wake_message program_hash battery_mv wake_blob))) in
  let! frame := lift (map_err (fun _ => MalformedPayload "frame encode failed")
    (encode_frame (mkHeader (id_key_hint id) MSG_WAKE wake_nonce) cbor (psk id))) in
  wake_attempts (Z.to_nat (MAX_RETRIES + 1)) 0 frame id wake_nonce.

(** ** Post-WAKE frames *)

(** [*current_seq += 1]. *)
Definition advance_seq : N unit :=
  let! n := mget in
  let! q := lift (arith_u oc 64 (current_seq n + 1)) in
  mmod (fun s => with_seq s q).

(** Seals [cbor] under the current sequence number, sends it and advances. *)
Definition send_sealed (id : NodeIdentity) (msg_type : Z) (cbor : list Z) : N unit :=
  let! n := mget in
  let! frame := lift (map_err (fun _ => MalformedPayload "frame encode failed")
    (encode_frame (mkHeader (id_key_hint id) msg_type (current_seq n)) cbor (psk id))) in
  send frame ;;! advance_seq.

Definition app_data_cbor (blob : list Z) : NodeResult (list Z) :=
  if len blob >? MAX_PAYLOAD_SIZE then Err (MalformedPayload "APP_DATA blob exceeds frame payload budget") else
  let? cbor := map_err (fun _ => MalformedPayload "APP_DATA message encode failed") (node_encode (AppData blob)) in
  if len cbor >? MAX_PAYLOAD_SIZE then Err (MalformedPayload "APP_DATA payload exceeds frame payload budget")
  else Ok cbor.

Definition send_app_data (id : NodeIdentity) (blob : list Z) : N unit :=
  let! cbor := lift (app_data_cbor blob) in
  send_sealed id MSG_APP_DATA cbor.

(** A reply to the request sent under [seq]; anything else is skipped. *)
Definition app_data_reply (raw : list Z) (id : NodeIdentity) (seq : Z) : NodeResult (option (list Z)) :=
  match decode_verify_frame raw (psk id) with
  | Ok (h, payload) =>
      if negb (h_msg_type h =? MSG_APP_DATA_REPLY) then Ok None else
      if negb (h_nonce h =? seq) then Ok None else
      match gateway_decode (h_msg_type h) payload with
      | Ok (AppDataReply blob) => Ok (Some blob)
      | Ok _ | Err _ => Ok None
      | Panic => Panic
      | UB => UB
      end
  | Err _ => Ok None
  | Panic => Panic
  | UB => UB
  end.

Fixpoint reply_loop (fuel : nat) (id : NodeIdentity) (seq deadline : Z) : N (list Z) :=
  match fuel with
  | O => fun _ => None
  | S fuel' =>
      let! now := elapsed_ms in
      if now >=? deadline then mthrow MapStorage.Timeout else
      let! o := recv (as_u32 (deadline - now)) in
      match o with
      | None => mthrow MapStorage.Timeout
      | Some raw =>
          let! r := lift (app_data_reply raw id seq) in
          match r with
          | Some blob => mret blob
          | None => reply_loop fuel' id seq deadline
          end
      end
  end.

Definition send_recv_app_data (fuel : nat) (id : NodeIdentity) (blob : list Z) (timeout_ms : Z) : N (list Z) :=
  let! cbor := lift (app_data_cbor blob) in
  let! n := mget in
  let seq := current_seq n in
  send_sealed id MSG_APP_DATA cbor ;;!
  let! now := elapsed_ms in
  reply_loop fuel id seq (saturating_add 64 now timeout_ms).

Definition send_program_ack (id : NodeIdentity) (program_hash : list Z) : N unit :=
  let! cbor := lift (map_err (fun _ => MalformedPayload "PROGRAM_ACK message encode failed")
    (node_encode (ProgramAck program_hash))) in
  send_sealed id MSG_PROGRAM_ACK cbor.

(** ** Chunked transfer *)

(** Listens for one chunk until the deadline; [None] is the end of the attempt. *)
Fixpoint chunk_loop (fuel : nat) (id : NodeIdentity) (seq index deadline : Z) : N (option (list Z)) :=
  match fuel with
  | O => fun _ => None
  | S fuel' =>
      let! now := elapsed_ms in
      if now >=? deadline then mret None else
      let! o := recv (as_u32 (deadline - now)) in
      match o with
      | None => mret None
      | Some raw =>
          match verify_and_decode_chunk raw id seq index with
          | Ok data => mret (Some data)
          | Err (UnexpectedMsgType _) => chunk_loop fuel' id seq index deadline
          | Err _ => mret None
          | Panic => lift Panic
          | UB => lift UB
          end
      end
  end.

Fixpoint chunk_attempts (fuel attempts : nat) (attempt : Z) (id : NodeIdentity) (index : Z) (cbor : list Z) : N (list Z) :=
  match attempts with
  | O => mthrow (ChunkTransferFailed index)
  | S attempts' =>
      (if attempt >? 0 then delay_ms RETRY_DELAY_MS else mret tt) ;;!
      let! n := mget in
      let attempt_seq := current_seq n in
      send_sealed id MSG_GET_CHUNK cbor ;;!
      let! now := elapsed_ms in
      let! o := chunk_loop fuel id attempt_seq index (saturating_add 64 now RESPONSE_TIMEOUT_MS) in
      match o with
      | Some data => mret data
      | None => chunk_attempts fuel attempts' (attempt + 1) id index cbor
      end
  end.

Definition get_chunk_with_retry (fuel : nat) (id : NodeIdentity) (index : Z) : N (list Z) :=
  let! cbor := lift (map_err (fun _ => MalformedPayload "GET_CHUNK message encode failed")
    (node_encode (GetChunk index))) in
  chunk_attempts fuel (Z.to_nat (MAX_RETRIES + 1)) 0 id index cbor.

(** The loop over the chunk indices; [image] is the data assembled so far. *)
Fixpoint chunks_loop (fuel count : nat) (id : NodeIdentity) (index program_size chunk_size : Z) (image : list Z) :
    N (list Z) :=
  match count with
  | O => mret image
  | S count' =>
      let! data := get_chunk_with_retry fuel id index in
      if len data >? chunk_size then mthrow (MalformedPayload "received chunk larger than declared chunk_size") else
      if len image + len data >? program_size then
        mthrow (MalformedPayload "received data exceeds declared program_size") else
      chunks_loop fuel count' id (index + 1) program_size chunk_size (image ++ data)
  end.

Definition chunked_transfer (fuel : nat) (id : NodeIdentity) (program_size chunk_size count max_image_size : Z) :
    N (list Z) :=
  if program_size >? max_image_size then mthrow (MalformedPayload "program_size exceeds maximum image size") else
  if chunk_size =? 0 then mthrow (MalformedPayload "chunk_size is zero") else
  if negb (bool_decide (chunk_count program_size chunk_size = Some count)) then
    mthrow (MalformedPayload "chunk_count does not match program_size / chunk_size") else
  let! image := chunks_loop fuel (Z.to_nat count) id 0 program_size chunk_size [] in
  if negb (len image =? program_size) then
    mthrow (MalformedPayload "assembled program size does not match declared program_size")
  else mret image.

(** ** Registration *)

Definition build_peer_request_frame (complete_frame : list Z) : NodeResult (list Z) :=
  let? decoded := map_err (fun _ => MalformedPayload "PEER_REQUEST frame is not a valid AEAD frame") (decode_frame complete_frame) in
  if negb (h_msg_type (header decoded) =? MSG_PEER_REQUEST) then Err (UnexpectedMsgType (h_msg_type (header decoded)))
  else Ok complete_frame.

(** The status of the acknowledgement: the last status field wins. *)
Fixpoint ack_status (fields : list (Value * Value)) (status : option Z) : NodeResult (option Z) :=
  match fields with
  | [] => Ok status
  | (k, v) :: fields' =>
      let? key := ok_or (as_u64_opt k) (MalformedPayload "PEER_ACK non-integer key") in
      ack_status fields' (if key =? PEER_ACK_KEY_STATUS then as_u64_opt v else status)
  end.

Definition verify_peer_ack (raw : list Z) (id : NodeIdentity) (expected_nonce : Z) : NodeResult unit :=
  let? decoded := map_err (fun _ => MalformedPayload "PEER_ACK decode failed") (decode_frame raw) in
  let? payload := map_err (fun _ => AuthFailure) (open_frame decoded (psk id)) in
  let h := header decoded in
  if negb (h_msg_type h =? MSG_PEER_ACK) then Err (UnexpectedMsgType (h_msg_type h)) else
  if negb (h_nonce h =? expected_nonce) then Err ResponseBindingMismatch else
  let? value := map_err (fun _ => MalformedPayload "PEER_ACK CBOR decode failed") (from_reader payload) in
  let? fields := ok_or (as_map value) (MalformedPayload "PEER_ACK payload is not a map") in
  let? status := ack_status fields None in
  let? status := ok_or status (MalformedPayload "PEER_ACK missing status field") in
  if negb (status =? PEER_ACK_STATUS_OK) then Err (MalformedPayload "PEER_ACK status is not registered") else Ok tt.

(** Saturating subtraction of the start time from the clock. *)
Fixpoint ack_loop (fuel : nat) (id : NodeIdentity) (nonce start_ms : Z) : N bool :=
  match fuel with
  | O => fun _ => None
  | S fuel' =>
      let! now := elapsed_ms in
      let elapsed := Z.max 0 (now - start_ms) in
      if elapsed >=? PEER_ACK_TIMEOUT_MS then mret false else
      let remaining := as_u32 (PEER_ACK_TIMEOUT_MS - elapsed) in
      let! o := recv (Z.min remaining 500) in
      match o with
      | Some raw =>
          match verify_peer_ack raw id nonce with
          | Ok _ => write_reg_complete true ;;! mret true
          | Err _ => ack_loop fuel' id nonce start_ms
          | Panic => lift Panic
          | UB => lift UB
          end
      | None => ack_loop fuel' id nonce start_ms
      end
  end.

Definition peer_request_exchange (fuel : nat) (id : NodeIdentity) (complete_frame : list Z) : N bool :=
  let! frame := lift (build_peer_request_frame complete_frame) in
  let! decoded := lift (map_err (fun _ => MalformedPayload "cannot decode validated frame") (decode_frame frame)) in
  send frame ;;!
  let! start_ms := elapsed_ms in
  ack_loop fuel id (h_nonce (header decoded)) start_ms.
End Radio.
