(* ===== verification/NodeStore.v ===== *)
(** * Program and key stores of the node

    [sonde-node/src/program_store.rs]: the resident program in two flash
    partitions, installed into the inactive one and made active by a flip of one
    flag, and ephemeral programs kept in memory.  [key_store.rs]: the identity
    and the factory reset. *)

From Stdlib Require Import String.
From S2P Require Import Prelude Frame Messages ProgramImage MapStorage AsyncQueue NodeM NodeState NodeRadio.
Open Scope list_scope.
Open Scope Z_scope.

Record LoadedProgram := mkLoaded {
  lp_bytecode : list Z;
  map_defs : list MapDef;
  lp_initial_data : list (list Z);
  lp_hash : list Z;
  is_ephemeral : bool
}.

Definition of_image (image : ProgramImage) (hash : list Z) (ephemeral : bool) : LoadedProgram :=
  mkLoaded (bytecode image) (ProgramImage.maps image) (map_initial_data image) hash ephemeral.

Section Store.
Context {Value : Type} `{C : Cbor Value}.
Context `{Sha256Provider}.
Context {E : Type} `{Env E}.
(** [usize] is [W] bits wide. *)
Context (W : Z) (oc : bool).
Abbreviation N := (M (Node E)).

(** ** Programs *)

Definition load_active_raw : N (list Z * option (list Z)) :=
  let! '(_, active) := read_schedule in
  if active >? 1 then mret ([], None) else
  let! o := read_program active in
  mret match o with Some bytes => (hash bytes, Some bytes) | None => ([], None) end.

Definition decode_image (bytes hash : list Z) : option LoadedProgram :=
  match image_decode bytes with Ok image => Some (of_image image hash false) | _ => None end.

(** Decoding reports an error; it does not panic. *)
Definition image_result (bytes : list Z) : NodeResult ProgramImage :=
  map_err (fun _ => ProgramDecodeFailed "program image decode failed") (image_decode bytes).

Definition install_resident (image_bytes expected_hash : list Z) (map_budget : Z) : N LoadedProgram :=
  let actual_hash := hash image_bytes in
  if negb (bool_decide (actual_hash = expected_hash)) then mthrow ProgramHashMismatch else
  let! image := lift (image_result image_bytes) in
  lift (validate_map_defs W (ProgramImage.maps image)) ;;!
  let required := required_bytes W (ProgramImage.maps image) in
  if required >? map_budget then mthrow (MapBudgetExceeded required map_budget) else
  let! '(_, active) := read_schedule in
  if active >? 1 then mthrow (StorageError "invalid active partition index") else
  let inactive := 1 - active in
  write_program inactive image_bytes ;;!
  let! o := read_program inactive in
  let! written := lift (ok_or o (StorageError "failed to re-read written program")) in
  if negb (bool_decide (hash written = expected_hash)) then mthrow ProgramHashMismatch else
  write_active_partition inactive ;;!
  mret (of_image image actual_hash false).

Definition load_ephemeral (image_bytes expected_hash : list Z) : NodeResult LoadedProgram :=
  let actual_hash := hash image_bytes in
  if negb (bool_decide (actual_hash = expected_hash)) then Err ProgramHashMismatch else
  let? image := image_result image_bytes in
  match ProgramImage.maps image with
  | [] => Ok (of_image image actual_hash true)
  | _ => Err (ProgramDecodeFailed "ephemeral programs must not declare maps")
  end.

(** ** Keys *)

Definition load_identity : N (option NodeIdentity) :=
  let! n := nvs_get in
  mret ((fun '(hint, k) => mkIdentity hint k) <$> key n).

(** [MapStorage::clear_all] through the table in the state. *)
Definition clear_maps : N unit :=
  let! n := mget in
  let! ws := lift (clear_all (storage n)) in
  mmod (fun s => with_storage s (storage s) (MapStorage.apply_writes (rtc s) ws)).

Definition factory_reset (default_interval : Z) : N unit :=
  erase_program 0 ;;!
  erase_program 1 ;;!
  clear_maps ;;!
  reset_schedule default_interval ;;!
  write_channel DEFAULT_CHANNEL ;;!
  erase_peer_payload ;;!
  write_reg_complete false ;;!
  clear_staged_test_command ;;!
  clear_test_result ;;!
  erase_key.

(** ** The active program *)

(** What the next boot runs: the bytes of the active partition. *)
Definition active_image (s : Nvs) : option (list Z) :=
  if active_partition s >? 1 then None else default None (programs s !! Z.to_nat (active_partition s)).

Definition partitions_ok (s : Nvs) : Prop := length (programs s) = 2%nat /\ uN 8 (active_partition s).

(** Storage fields an installation may not touch. *)
Definition same_but_programs (s s' : Nvs) : Prop :=
  s' = nvs_programs (nvs_schedule s (interval s) (active_partition s')) (programs s').

(** An inactive-partition write: the active image stays. *)
Lemma active_image_other s p kept :
  partitions_ok s -> active_partition s <= 1 -> p = 1 - active_partition s ->
  active_image (nvs_programs s (<[Z.to_nat p := kept]> (programs s))) = active_image s.
Proof using .
  intros [_ Ha] Hle ->. unfold active_image. cbn. unfold uN in Ha.
  destruct (active_partition s >? 1); [done|]. rewrite list_lookup_insert_ne by lia. done.
Qed.

Lemma active_image_flip s p :
  partitions_ok s -> 0 <= p <= 1 ->
  active_image (nvs_schedule s (interval s) p) = default None (programs s !! Z.to_nat p).
Proof using .
  intros _ Hp. unfold active_image. cbn. by rewrite Z.gtb_ltb, (proj2 (Z.ltb_ge _ _)) by lia.
Qed.
End Store.
