(* ===== verification/BpfDispatch.v ===== *)
(** * BPF helpers of the node

    [sonde-node/src/bpf_dispatch.rs] and [bpf_helpers.rs]: the 17 helper functions
    a BPF program may call, the context they run in, and the index from map
    pointers to maps.

    The thread-local context is the argument [ctx] ([None] outside an execution);
    the objects it points to are the fields of the node's state.  A helper reads
    the program's memory through [peek] ([None] where nothing is live, a read of
    which is [UB]) and returns [r0] with the bytes it stores there. *)

From Stdlib Require Import String.
From S2P Require Import Prelude Frame Messages ProgramImage MapStorage AsyncQueue NodeM NodeState NodeRadio NodeStore.
Open Scope list_scope.
Open Scope Z_scope.

(** ** Helper numbers and context ([bpf_helpers.rs]) *)

Definition I2C_READ : Z := 1.
Definition I2C_WRITE : Z := 2.
Definition I2C_WRITE_READ : Z := 3.
Definition SPI_TRANSFER : Z := 4.
Definition GPIO_READ : Z := 5.
Definition GPIO_WRITE : Z := 6.
Definition ADC_READ : Z := 7.
Definition SEND : Z := 8.
Definition SEND_RECV : Z := 9.
Definition MAP_LOOKUP_ELEM : Z := 10.
Definition MAP_UPDATE_ELEM : Z := 11.
Definition GET_TIME : Z := 12.
Definition GET_BATTERY_MV : Z := 13.
Definition DELAY_US : Z := 14.
Definition SET_NEXT_WAKE : Z := 15.
Definition BPF_TRACE_PRINTK : Z := 16.
Definition SEND_ASYNC : Z := 17.

Inductive ProgramClass : Type := Resident | Ephemeral.

#[export] Instance ProgramClass_eq_dec : EqDecision ProgramClass.
Proof. solve_decision. Defined.

Record SondeContext := mkSondeContext {
  timestamp : Z;
  ctx_battery_mv : Z;
  firmware_abi_version : Z;
  ctx_wake_reason : Z;
  data_start : Z;
  data_end : Z
}.

(** ** Limits *)

Definition SEND_RECV_TIMEOUT_MS : Z := 200.
Definition MAX_BUS_TRANSFER_LEN : Z := 4096.
Definition MAX_SEND_RECV_TIMEOUT_MS : Z := 5000.
Definition MAX_DELAY_US : Z := 1000000.
Definition MAX_TRACE_ENTRIES : Z := 64.

(** ** The map pointer index *)

Inductive MapPtrInsertError : Type := Overflow | Duplicate.

Record MapPtrIndex := mkIndex { entries : list (Z * Z); ilen : Z }.

Definition index_new : MapPtrIndex := mkIndex (replicate (Z.to_nat MAX_MAPS) (0, 0)) 0.

Definition index_used (ix : MapPtrIndex) : list (Z * Z) := take (Z.to_nat (ilen ix)) (entries ix).

Definition index_insert (ix : MapPtrIndex) (p idx : Z) : MapPtrInsertError + MapPtrIndex :=
  if ilen ix >=? MAX_MAPS then inl Overflow else
  if existsb (fun e => e.1 =? p) (index_used ix) then inl Duplicate else
  inr (mkIndex (<[Z.to_nat (ilen ix) := (p, idx)]> (entries ix)) (ilen ix + 1)).

Definition index_get (ix : MapPtrIndex) (p : Z) : option Z :=
  snd <$> List.find (fun e => e.1 =? p) (index_used ix).

(** The index of a table; a failed insertion leaves an empty one. *)
Fixpoint build_index (ix : MapPtrIndex) (i : Z) (ptrs : list Z) : MapPtrIndex :=
  match ptrs with
  | [] => ix
  | p :: ptrs' =>
      match index_insert ix p i with
      | inr ix' => build_index ix' (i + 1) ptrs'
      | inl _ => index_new
      end
  end.

Record DispatchContext := mkDispatch {
  identity : NodeIdentity;
  program_class : ProgramClass;
  gateway_timestamp_ms : Z;
  command_received_at_ms : Z;
  battery_mv : Z;
  map_ptr_index : MapPtrIndex
}.

(** The context of an execution: the map pointer index of the table, and the
    values of this cycle. *)
Definition install_core (id : NodeIdentity) (cls : ProgramClass) (gateway_ts received_at battery : Z) (ms : MapStorage) :
    DispatchContext :=
  mkDispatch id cls gateway_ts received_at battery (build_index index_new 0 (map_pointers ms)).

(** The helper functions, as the pointers the interpreter is given. *)
Inductive HelperFn : Type :=
  | Fn_i2c_read
  | Fn_i2c_write
  | Fn_i2c_write_read
  | Fn_spi_transfer
  | Fn_gpio_read
  | Fn_gpio_write
  | Fn_adc_read
  | Fn_send
  | Fn_send_recv
  | Fn_map_lookup_elem
  | Fn_map_update_elem
  | Fn_get_time
  | Fn_get_battery_mv
  | Fn_delay_us
  | Fn_set_next_wake
  | Fn_bpf_trace_printk
  | Fn_send_async.

(** The pairs [register_all] registers, in its order. *)
Definition registrations : list (Z * HelperFn) :=
  [(I2C_READ, Fn_i2c_read);
   (I2C_WRITE, Fn_i2c_write);
   (I2C_WRITE_READ, Fn_i2c_write_read);
   (SPI_TRANSFER, Fn_spi_transfer);
   (GPIO_READ, Fn_gpio_read);
   (GPIO_WRITE, Fn_gpio_write);
   (ADC_READ, Fn_adc_read);
   (SEND, Fn_send);
   (SEND_RECV, Fn_send_recv);
   (MAP_LOOKUP_ELEM, Fn_map_lookup_elem);
   (MAP_UPDATE_ELEM, Fn_map_update_elem);
   (GET_TIME, Fn_get_time);
   (GET_BATTERY_MV, Fn_get_battery_mv);
   (DELAY_US, Fn_delay_us);
   (SET_NEXT_WAKE, Fn_set_next_wake);
   (BPF_TRACE_PRINTK, Fn_bpf_trace_printk);
   (SEND_ASYNC, Fn_send_async)].

Section Helpers.
Context {Value : Type} `{C : Cbor Value}.
Context `{Sha256Provider, AeadProvider}.
Context {E : Type} `{Env E}.
Context (W : Z) (oc : bool) (base : Z).
Abbreviation N := (M (Node E)).

Definition minus (n : Z) : Z := as_u64 (- n).

(** [r0] and the stores to the program's memory. *)
Definition HelperOut : Type := Z * list (Z * list Z).
Definition Peek : Type := Z -> Z -> option (list Z).

Definition out (r0 : Z) : N HelperOut := mret (r0, []).

(** [core::slice::from_raw_parts]. *)
Definition raw_slice (peek : Peek) (p n : Z) : N (list Z) :=
  match peek p n with Some b => mret b | None => lift UB end.

Definition with_ctx (ctx : option DispatchContext) (sentinel : Z) (f : DispatchContext -> N HelperOut) : N HelperOut :=
  match ctx with Some c => f c | None => out sentinel end.

Definition ptr_of (r : Z) : Z := wrap W r.

Definition helper_i2c_read (peek : Peek) ctx (r1 r2 r3 : Z) : N HelperOut :=
  with_ctx ctx (minus 1) (fun _ =>
    let p := ptr_of r2 in let n := wrap W r3 in
    if (p =? 0) || (n =? 0) || (n >? MAX_BUS_TRANSFER_LEN) then out (minus 1) else
    raw_slice peek p n ;;!
    let! '(code, bytes) := env_op (fun e => i2c_read e (as_u32 r1) n) in
    mret (as_u64 code, [(p, take (Z.to_nat n) bytes)])).

Definition helper_i2c_write (peek : Peek) ctx (r1 r2 r3 : Z) : N HelperOut :=
  with_ctx ctx (minus 1) (fun _ =>
    let p := ptr_of r2 in let n := wrap W r3 in
    if (p =? 0) || (n =? 0) || (n >? MAX_BUS_TRANSFER_LEN) then out (minus 1) else
    let! d := raw_slice peek p n in
    let! code := env_op (fun e => i2c_write e (as_u32 r1) d) in
    out (as_u64 code)).

Definition helper_i2c_write_read (peek : Peek) ctx (r1 r2 r3 r4 r5 : Z) : N HelperOut :=
  with_ctx ctx (minus 1) (fun _ =>
    let wp := ptr_of r2 in let wn := wrap W r3 in let rp := ptr_of r4 in let rn := wrap W r5 in
    if (wp =? 0) || (rp =? 0) || (wn =? 0) || (rn =? 0) || (wn >? MAX_BUS_TRANSFER_LEN) || (rn >? MAX_BUS_TRANSFER_LEN)
    then out (minus 1) else
    let! d := raw_slice peek wp wn in
    raw_slice peek rp rn ;;!
    let! '(code, bytes) := env_op (fun e => i2c_write_read e (as_u32 r1) d rn) in
    mret (as_u64 code, [(rp, take (Z.to_nat rn) bytes)])).

Definition helper_spi_transfer (peek : Peek) ctx (r1 r2 r3 : Z) : N HelperOut :=
  with_ctx ctx (minus 1) (fun _ =>
    let p := ptr_of r2 in let n := wrap W r3 in
    if (n =? 0) || (n >? MAX_BUS_TRANSFER_LEN) then out (minus 1) else
    if p =? 0 then out (minus 1) else
    let! d := raw_slice peek p n in
    let! '(code, bytes) := env_op (fun e => spi_transfer e (as_u32 r1) d) in
    mret (as_u64 code, [(p, take (Z.to_nat n) bytes)])).

Definition helper_gpio_read ctx (r1 : Z) : N HelperOut :=
  with_ctx ctx (minus 1) (fun _ => let! v := env_op (fun e => gpio_get e (as_u32 r1)) in out (as_u64 v)).

Definition helper_gpio_write ctx (r1 r2 : Z) : N HelperOut :=
  with_ctx ctx (minus 1) (fun _ => let! v := env_op (fun e => gpio_set e (as_u32 r1) (as_u32 r2)) in out (as_u64 v)).

Definition helper_adc_read ctx (r1 : Z) : N HelperOut :=
  with_ctx ctx (minus 1) (fun _ => let! v := env_op (fun e => adc e (as_u32 r1)) in out (as_u64 v)).

Definition helper_send (peek : Peek) ctx (r1 r2 : Z) : N HelperOut :=
  with_ctx ctx (minus 1) (fun c =>
    let p := ptr_of r1 in let n := wrap W r2 in
    if (p =? 0) || (n >? MAX_APP_DATA_BLOB_SIZE) then out (minus 1) else
    let! blob := raw_slice peek p n in
    let! r := mtry (send_app_data oc (identity c) blob) in
    out (match r with inr _ => 0 | inl _ => minus 1 end)).

Definition helper_send_recv (fuel : nat) (peek : Peek) ctx (r1 r2 r3 r4 r5 : Z) : N HelperOut :=
  with_ctx ctx (minus 1) (fun c =>
    let p := ptr_of r1 in let n := wrap W r2 in let rp := ptr_of r3 in let cap := wrap W r4 in
    if (p =? 0) || (n >? MAX_APP_DATA_BLOB_SIZE) || (rp =? 0) || (cap =? 0) then out (minus 1) else
    let timeout_ms := if r5 =? 0 then SEND_RECV_TIMEOUT_MS else Z.min (as_u32 r5) MAX_SEND_RECV_TIMEOUT_MS in
    let! blob := raw_slice peek p n in
    let! r := mtry (send_recv_app_data oc fuel (identity c) blob timeout_ms) in
    match r with
    | inr reply =>
        if len reply >? cap then out (minus 1) else
        raw_slice peek rp (len reply) ;;!
        mret (len reply, [(rp, reply)])
    | inl _ => out (minus 1)
    end).

(** The key a pointer argument points to. *)
Definition read_key_at (peek : Peek) (p : Z) : N Z := let! b := raw_slice peek p 4 in mret (from_le_bytes b).

(** The address of the value, as [value.as_ptr()]. *)
Definition value_ptr (m : MapInstance) (key : Z) : Z := as_u64 (base + vaddr m key).

Definition helper_map_lookup_elem (peek : Peek) ctx (r1 r2 : Z) : N HelperOut :=
  with_ctx ctx 0 (fun c =>
    let kp := ptr_of r2 in
    if kp =? 0 then out 0 else
    let! k := read_key_at peek kp in
    match index_get (map_ptr_index c) r1 with
    | None => out 0
    | Some i =>
        let! n := mget in
        match get (storage n) (Z.to_nat i) with
        | None => out 0
        | Some m =>
            let! o := lift (lookup W oc m (backing (rtc n)) k) in
            out (match o with Some _ => value_ptr m k | None => 0 end)
        end
    end).

Definition helper_map_update_elem (peek : Peek) ctx (r1 r2 r3 : Z) : N HelperOut :=
  with_ctx ctx (minus 1) (fun c =>
    if bool_decide (program_class c = Ephemeral) then out (minus 1) else
    let kp := ptr_of r2 in let vp := ptr_of r3 in
    if (kp =? 0) || (vp =? 0) then out (minus 1) else
    let! k := read_key_at peek kp in
    match index_get (map_ptr_index c) r1 with
    | None => out (minus 1)
    | Some i =>
        let! n := mget in
        match get (storage n) (Z.to_nat i) with
        | None => out (minus 1)
        | Some m =>
            let! v := raw_slice peek vp (value_size (def m)) in
            let! r := mtry (lift (update W oc m k v)) in
            match r with
            | inr ws => mmod (fun s => with_storage s (storage s) (MapStorage.apply_writes (rtc s) ws)) ;;! out 0
            | inl _ => out (minus 1)
            end
        end
    end).

(** Saturating arithmetic on [u64]. *)
Definition helper_get_time ctx : N HelperOut :=
  with_ctx ctx 0 (fun c =>
    let! now := elapsed_ms in
    out (saturating_add 64 (gateway_timestamp_ms c) (Z.max 0 (now - command_received_at_ms c)))).

Definition helper_get_battery_mv ctx : N HelperOut :=
  with_ctx ctx 0 (fun c => out (if battery_mv c >? 65535 then 65535 else battery_mv c)).

Definition helper_delay_us ctx (r1 : Z) : N HelperOut :=
  if r1 >? MAX_DELAY_US then out (minus 1) else
  with_ctx ctx (minus 1) (fun _ =>
    let us := as_u32 r1 in
    (if us >? 0 then env_op (fun e => (tt, delay_micros e us)) else mret tt) ;;! out 0).

Definition helper_set_next_wake ctx (r1 : Z) : N HelperOut :=
  with_ctx ctx (minus 1) (fun c =>
    if bool_decide (program_class c = Ephemeral) then out (minus 1) else
    match try_u 32 r1 with
    | Some s => mmod (fun n => with_sleep n (set_next_wake (sleep_mgr n) s)) ;;! out 0
    | None => out (minus 1)
    end).

Definition helper_bpf_trace_printk (peek : Peek) ctx (r1 r2 : Z) : N HelperOut :=
  with_ctx ctx (minus 1) (fun _ =>
    let p := ptr_of r1 in let n := wrap W r2 in
    if (p =? 0) || (n =? 0) || (n >? 256) then out (minus 1) else
    let! b := raw_slice peek p n in
    if from_utf8 b then
      mmod (fun s => if len (trace_log s) <? MAX_TRACE_ENTRIES then with_log s (trace_log s ++ [b]) else s) ;;! out 0
    else out (minus 1)).

(** Any result of the queue other than a return is the environment's fault. *)
Definition queue_op {A} (f : Layout -> Res unit (A * list AsyncQueue.Write)) : N A := fun n =>
  match f (queue n) with
  | Ok (a, ws) => Some (Ok a, with_queue n (AsyncQueue.apply_writes (queue n) ws))
  | Err _ | Panic => Some (Panic, n)
  | UB => Some (UB, n)
  end.

Definition helper_send_async (peek : Peek) ctx (r1 r2 : Z) : N HelperOut :=
  with_ctx ctx (minus 1) (fun _ =>
    let p := ptr_of r1 in
    if r2 >? 2 ^ W - 1 then out (minus 2) else
    let n := wrap W r2 in
    if (p =? 0) || (n >? MAX_APP_DATA_BLOB_SIZE) then out (minus 2) else
    let! blob := raw_slice peek p n in
    let! c := queue_op (fun q => push q blob) in
    out (as_u64 c)).

(** A call through the function pointer registered for a helper. *)
Definition call_fn (fuel : nat) (peek : Peek) (ctx : option DispatchContext) (f : HelperFn) (r1 r2 r3 r4 r5 : Z) : N HelperOut :=
  match f with
  | Fn_i2c_read => helper_i2c_read peek ctx r1 r2 r3
  | Fn_i2c_write => helper_i2c_write peek ctx r1 r2 r3
  | Fn_i2c_write_read => helper_i2c_write_read peek ctx r1 r2 r3 r4 r5
  | Fn_spi_transfer => helper_spi_transfer peek ctx r1 r2 r3
  | Fn_gpio_read => helper_gpio_read ctx r1
  | Fn_gpio_write => helper_gpio_write ctx r1 r2
  | Fn_adc_read => helper_adc_read ctx r1
  | Fn_send => helper_send peek ctx r1 r2
  | Fn_send_recv => helper_send_recv fuel peek ctx r1 r2 r3 r4 r5
  | Fn_map_lookup_elem => helper_map_lookup_elem peek ctx r1 r2
  | Fn_map_update_elem => helper_map_update_elem peek ctx r1 r2 r3
  | Fn_get_time => helper_get_time ctx
  | Fn_get_battery_mv => helper_get_battery_mv ctx
  | Fn_delay_us => helper_delay_us ctx r1
  | Fn_set_next_wake => helper_set_next_wake ctx r1
  | Fn_bpf_trace_printk => helper_bpf_trace_printk peek ctx r1 r2
  | Fn_send_async => helper_send_async peek ctx r1 r2
  end.
End Helpers.
