(* ===== verification/WakeCycle.v ===== *)
(** * The wake cycle

    [sonde-node/src/wake_cycle.rs], [run_wake_cycle] and the functions it is made
    of, and the interpreter interface of [bpf_runtime.rs].

    The interpreter is a class, as in the source a trait.  Its [execute] is a
    finite tree of helper calls ([Run]): a call hands over the program's view of
    memory and the bytes of the map buffer as the program left them, and gets the
    helper's result and the bytes the helper left.  [BpfAdapter] builds the tree
    from the interpreter of [sonde-bpf]. *)

From Stdlib Require Import String.
From S2P Require Import Prelude Frame Messages BoardLayout ProgramImage MapStorage AsyncQueue NodeM NodeState NodeRadio NodeStore BpfDispatch.
Open Scope list_scope.
Open Scope Z_scope.

(** ** The interpreter interface *)

Module Runtime.
Inductive BpfError : Type :=
  | InstructionBudgetExceeded
  | CallDepthExceeded
  | InvalidBytecode (msg : string)
  | HelperNotRegistered (id : Z)
  | LoadError (msg : string)
  | MapLoadError (index : Z) (kind : string)
  | RuntimeError (msg : string).
End Runtime.

Inductive Run : Type :=
  | OutOfFuel
  | Done (r : Res Runtime.BpfError Z) (buffer : list Z)
  | Call (f : HelperFn) (r1 r2 r3 r4 r5 : Z) (peek : Peek) (buffer : list Z) (k : HelperOut -> list Z -> Run).

Class BpfInterpreter (I : Type) : Type := {
  register_helper : I -> Z -> HelperFn -> Res Runtime.BpfError I;
  load : I -> list Z -> list Z -> list MapDef -> Res Runtime.BpfError I;
  (** The context's bytes, the budget, and the map buffer at the start. *)
  execute : I -> list Z -> Z -> list Z -> Run
}.

Definition register_all {I} `{BpfInterpreter I} (i : I) : Res Runtime.BpfError I :=
  fold_left (fun r '(id, f) => let? i := r in register_helper i id f) registrations (Ok i).

(** ** Constants and outcome *)

Definition DEFAULT_INSTRUCTION_BUDGET : Z := 100000.
Definition BATTERY_FALLBACK_MV : Z := 0.
Definition SENSOR_BUS_STABILIZE_MS : Z := 1.
Definition BATTERY_DIVIDER_SETTLE_MS : Z := 50.
Definition BATTERY_DIVIDER_RATIO : Z := 2.
Definition MAX_RESIDENT_IMAGE_SIZE : Z := 4096.
Definition MAX_EPHEMERAL_IMAGE_SIZE : Z := 2048.

Inductive WakeCycleOutcome : Type :=
  | Sleep (seconds : Z)
  | Reboot
  | Unpaired.

(** The bytes of a [repr(C)] context. *)
Definition context_bytes (c : SondeContext) : list Z :=
  to_le_bytes 8 (timestamp c) ++ to_le_bytes 2 (ctx_battery_mv c) ++ to_le_bytes 2 (firmware_abi_version c) ++
  to_le_bytes 1 (ctx_wake_reason c) ++ [0; 0; 0] ++ to_le_bytes 8 (data_start c) ++ to_le_bytes 8 (data_end c).

Definition is_supported_battery_adc_gpio (pin : Z) : bool := (0 <=? pin) && (pin <=? 4).
Definition gpio_to_adc_channel (pin : Z) : option Z := if is_supported_battery_adc_gpio pin then Some pin else None.

Definition active_gpio_settle_ms (board : BoardLayout) : Z :=
  match battery_adc board ≫= gpio_to_adc_channel with
  | Some _ => BATTERY_DIVIDER_SETTLE_MS
  | None => SENSOR_BUS_STABILIZE_MS
  end.

Section Cycle.
Context {Value : Type} `{C : Cbor Value}.
Context `{Sha256Provider, AeadProvider}.
Context {E : Type} `{Env E}.
Context {I : Type} `{BpfInterpreter I}.
(** The platform: width of [usize], overflow checks, addresses of the map buffer
    and of a COMMAND's blob; the crate version; the board. *)
Context (W : Z) (oc : bool) (base : Z) (blob_addr : list Z -> Z).
Context (firmware_version : list Z) (board : BoardLayout).
Abbreviation N := (M (Node E)).

(** ** Battery *)

Definition capture_current_cycle_battery : N Z :=
  match battery_adc board with
  | None => mret BATTERY_FALLBACK_MV
  | Some pin =>
      match gpio_to_adc_channel pin with
      | None => mret BATTERY_FALLBACK_MV
      | Some channel =>
          let! '(_, sensed) := adc_read_diagnostics channel in
          mret (if sensed <? 0 then BATTERY_FALLBACK_MV
                else Z.min (as_u32 sensed * BATTERY_DIVIDER_RATIO) (2 ^ 32 - 1))
      end
  end.

(** A failed write is logged. *)
Definition persist_current_cycle_battery : N Z :=
  let! mv := capture_current_cycle_battery in
  let! _ := mtry (write_last_battery_mv mv) in
  mret mv.

Definition log_and_sleep : N WakeCycleOutcome :=
  let! n := mget in mret (Sleep (effective_sleep_s (sleep_mgr n))).

Definition capture_battery_then_sleep : N WakeCycleOutcome :=
  enter_active_gpio_state ;;!
  delay_ms (active_gpio_settle_ms board) ;;!
  persist_current_cycle_battery ;;!
  enter_idle_gpio_state ;;!
  log_and_sleep.

Definition determine_wake_reason : N WakeReason :=
  let! early := take_early_wake_flag in
  mret (if early : bool then Early else Scheduled).

(** ** Phases of the cycle

    [inl o] is an early return. *)

(** The registration exchange of a node whose registration is not complete. *)
Definition registration (fuel : nat) (id : NodeIdentity) : N (WakeCycleOutcome + unit) :=
  let! complete := read_reg_complete in
  if complete : bool then mret (inr tt) else
  let! payload := read_peer_payload in
  match payload with
  | None => mret (inr tt)
  | Some frame =>
      let! r := mtry (peer_request_exchange fuel id frame) in
      match r with
      | inr true => mret (inr tt)
      | inr false => let! o := log_and_sleep in mret (inl o)
      | inl e =>
          (match e with
           | MalformedPayload _ => let! _ := mtry erase_peer_payload in mret tt
           | _ => mret tt
           end) ;;!
          let! o := log_and_sleep in mret (inl o)
      end
  end.

(** The queued blob that rides on WAKE: the only one, and only if the message
    still fits a frame. *)
Definition wake_blob (program_hash : list Z) (battery : Z) : N (option (list Z)) :=
  let! candidate := queue_op (fun q => let? b := single_for_piggyback q MAX_PAYLOAD_SIZE in Ok (b, [])) in
  match candidate with
  | None => mret None
  | Some blob =>
      match node_encode (wake_message firmware_version program_hash battery (Some blob)) with
      | Ok encoded => mret (if len encoded <=? MAX_PAYLOAD_SIZE then Some blob else None)
      | Err _ => mret None
      | Panic => lift Panic
      | UB => lift UB
      end
  end.

Definition clear_queue : N unit := mmod (fun n => with_queue n (AsyncQueue.apply_writes (queue n) AsyncQueue.clear)).

(** WAKE and COMMAND, and what follows their success or failure. *)
Definition exchange (id : NodeIdentity) (wake_nonce : Z) (program_hash : list Z) (battery : Z) (blob : option (list Z)) :
    N (WakeCycleOutcome + Cmd) :=
  let! r := mtry (wake_command_exchange firmware_version id wake_nonce program_hash battery blob) in
  match r with
  | inr cmd =>
      let! peer := has_peer_payload in
      (if peer : bool then let! _ := mtry erase_peer_payload in mret tt else mret tt) ;;!
      (if bool_decide (is_Some blob) then clear_queue else mret tt) ;;!
      mret (inr cmd)
  | inl _ =>
      let! complete := read_reg_complete in
      let! peer := has_peer_payload in
      (if complete && peer then let! _ := mtry (write_reg_complete false) in mret tt else mret tt) ;;!
      let! o := log_and_sleep in mret (inl o)
  end.

(** Sends the drained blobs; the first failure ends the loop. *)
Fixpoint send_pending (id : NodeIdentity) (pending : list (list Z)) : N unit :=
  match pending with
  | [] => mret tt
  | blob :: pending' =>
      let! r := mtry (send_app_data oc id blob) in
      match r with inr _ => send_pending id pending' | inl _ => mret tt end
  end.

Definition drain_queue (id : NodeIdentity) : N unit :=
  let! n := mget in
  if is_empty (queue n) then mret tt else
  let! pending := queue_op drain in
  send_pending id pending.

(** Transfer, installation and acknowledgement of a new program. *)
Definition new_program (fuel : nat) (id : NodeIdentity) (ephemeral : bool) (expected_hash : list Z)
    (program_size chunk_size count : Z) : N (WakeCycleOutcome + LoadedProgram) :=
  clear_queue ;;!
  let max_image_size := if ephemeral then MAX_EPHEMERAL_IMAGE_SIZE else MAX_RESIDENT_IMAGE_SIZE in
  let! transfer := mtry (chunked_transfer oc fuel id program_size chunk_size count max_image_size) in
  match transfer with
  | inl _ => let! o := capture_battery_then_sleep in mret (inl o)
  | inr image_bytes =>
      let! n := mget in
      let! install := mtry (if ephemeral then lift (load_ephemeral image_bytes expected_hash)
                            else install_resident W image_bytes expected_hash (budget_bytes (storage n))) in
      match install with
      | inl _ => let! o := capture_battery_then_sleep in mret (inl o)
      | inr program =>
          let! ack := mtry (send_program_ack oc id (lp_hash program)) in
          match ack with
          | inl _ => let! o := capture_battery_then_sleep in mret (inl o)
          | inr _ =>
              (if ephemeral then mret tt
               else mmod (fun n => with_sleep n (set_wake_reason (sleep_mgr n) ProgramUpdate))) ;;!
              mret (inr program)
          end
      end
  end.

(** The new interval takes effect once it is stored. *)
Definition update_schedule (interval_s : Z) : N unit :=
  let! r := mtry (write_schedule_interval interval_s) in
  match r with
  | inr _ => mmod (fun n => with_sleep n (set_base_interval (sleep_mgr n) interval_s))
  | inl _ => mret tt
  end.

(** The dispatch on the command: the program it loaded, and whether the resident
    program may still run. *)
Definition dispatch (fuel : nat) (id : NodeIdentity) (payload : CommandPayload) :
    N (WakeCycleOutcome + (option LoadedProgram * bool)) :=
  match payload with
  | Nop => drain_queue id ;;! mret (inr (None, true))
  | Messages.Reboot => mret (inl Reboot)
  | UpdateSchedule interval_s => update_schedule interval_s ;;! mret (inr (None, true))
  | UpdateProgram h size csize count =>
      let! r := new_program fuel id false h size csize count in
      mret (match r with inl o => inl o | inr p => inr (Some p, false) end)
  | RunEphemeral h size csize count =>
      let! r := new_program fuel id true h size csize count in
      mret (match r with inl o => inl o | inr p => inr (Some p, false) end)
  end.

(** Allocates and initialises the maps of a resident program that was installed
    in this cycle or whose layout is not the table's. *)
Definition prepare_maps (program : LoadedProgram) (installed : bool) : N (WakeCycleOutcome + unit) :=
  let sleep := let! o := capture_battery_then_sleep in mret (inl o) in
  if is_ephemeral program then
    match map_defs program with [] => mret (inr tt) | _ => sleep end
  else
    let! n := mget in
    if installed || negb (layout_matches (storage n) (map_defs program)) then
      let! r := mtry (lift (allocate W oc base (storage n) (map_defs program))) in
      match r with
      | inl _ => sleep
      | inr (ms, ws) =>
          mmod (fun n => with_storage n ms (MapStorage.apply_writes (rtc n) ws)) ;;!
          let! ws := lift (apply_initial_data W oc ms (lp_initial_data program)) in
          mmod (fun n => with_storage n (storage n) (MapStorage.apply_writes (rtc n) ws)) ;;!
          mret (inr tt)
      end
    else mret (inr tt).

(** ** Execution *)

Definition set_buffer (b : list Z) : N unit :=
  mmod (fun n => with_storage n (storage n) (mkRtc b (map_count (rtc n)) (rdefs (rtc n)))).

(** Runs the tree against the node: each call goes to the registered helper. *)
Fixpoint run_tree (fuel : nat) (ctx : DispatchContext) (t : Run) : N (Runtime.BpfError + Z) :=
  match t with
  | OutOfFuel => fun _ => None
  | Done r b =>
      set_buffer b ;;!
      match r with
      | Ok v => mret (inr v)
      | Err e => mret (inl e)
      | Panic => lift Panic
      | UB => lift UB
      end
  | Call f r1 r2 r3 r4 r5 peek b k =>
      set_buffer b ;;!
      let! o := call_fn W oc base fuel peek (Some ctx) f r1 r2 r3 r4 r5 in
      let! n := mget in
      run_tree fuel ctx (k o (backing (rtc n)))
  end.

(** The definitions a program is loaded with: a program without maps of its own
    sees those of the table. *)
Definition load_defs (ms : MapStorage) (program : LoadedProgram) : list MapDef :=
  match map_defs program with
  | [] => if storage_map_count ms >? 0 then def <$> maps ms else []
  | ds => ds
  end.

Definition sonde_context (timestamp_ms elapsed_since_command battery : Z) (reason : WakeReason) (blob : option (list Z)) :
    SondeContext :=
  mkSondeContext (saturating_add 64 timestamp_ms elapsed_since_command)
    (if battery >? 65535 then 65535 else as_u16 battery) FIRMWARE_ABI_VERSION (wake_reason_u8 reason)
    (match blob with Some b => blob_addr b | None => 0 end)
    (match blob with Some b => blob_addr b + len b | None => 0 end).

Definition run_program (fuel : nat) (id : NodeIdentity) (program : LoadedProgram)
    (timestamp_ms received_at battery : Z) (blob : option (list Z)) (i : I) : N I :=
  let cls := if is_ephemeral program then Ephemeral else Resident in
  let! now := elapsed_ms in
  let! n := mget in
  let c := sonde_context timestamp_ms (Z.max 0 (now - received_at)) battery (wake_reason (sleep_mgr n)) blob in
  let ctx := install_core id cls timestamp_ms received_at battery (storage n) in
  mmod (fun n => with_log n []) ;;!
  let! '(_, i) :=
    match register_all i with
    | Ok i1 =>
        match load i1 (lp_bytecode program) (map_pointers (storage n)) (load_defs (storage n) program) with
        | Ok i2 =>
            let! r := run_tree fuel ctx (execute i2 (context_bytes c) DEFAULT_INSTRUCTION_BUDGET (backing (rtc n))) in
            mret (r, i2)
        | Err e => mret (inl e, i1)
        | Panic => lift Panic
        | UB => lift UB
        end
    | Err e => mret (inl e, i)
    | Panic => lift Panic
    | UB => lift UB
    end in
  mret i.

(** ** The cycle *)

(** From the dispatch of the COMMAND on. *)
Definition after_command (fuel : nat) (id : NodeIdentity) (program_hash : list Z) (resident : option (list Z))
    (cmd : Cmd) (i : I) : N (WakeCycleOutcome * I) :=
  let '(starting_seq, timestamp_ms, payload, blob) := cmd in
  mmod (fun n => with_seq n starting_seq) ;;!
  let! received_at := elapsed_ms in
  let! d := dispatch fuel id payload in
  match d with
  | inl o => mret (o, i)
  | inr (loaded, resident_usable) =>
      let installed := match loaded with Some p => negb (is_ephemeral p) | None => false end in
      let program := match loaded with
                     | Some p => Some p
                     | None => if resident_usable : bool then resident ≫= (fun raw => decode_image raw program_hash) else None
                     end in
      let! p := match program with Some p => prepare_maps p installed | None => mret (inr tt) end in
      match p with
      | inl o => mret (o, i)
      | inr _ =>
          enter_active_gpio_state ;;!
          delay_ms (active_gpio_settle_ms board) ;;!
          let! battery := persist_current_cycle_battery in
          let! i := match program with
                    | Some p => run_program fuel id p timestamp_ms received_at battery blob i
                    | None => mret i
                    end in
          enter_idle_gpio_state ;;!
          let! n := mget in
          (if will_wake_early (sleep_mgr n) then let! _ := mtry set_early_wake_flag in mret tt else mret tt) ;;!
          let! o := log_and_sleep in
          mret (o, i)
      end
  end.

(** Registration, WAKE and COMMAND: the hash and the bytes of the resident program
    go with the command. *)
Definition contact_gateway (fuel : nat) (id : NodeIdentity) :
    N (WakeCycleOutcome + (list Z * option (list Z) * Cmd)) :=
  let! reg := registration fuel id in
  match reg with
  | inl o => mret (inl o)
  | inr _ =>
      let! '(program_hash, resident) := load_active_raw in
      let! wake_nonce := random_u64 in
      let! battery := read_last_battery_mv in
      let battery := default 0 battery in
      let! blob := wake_blob program_hash battery in
      let! cmd := exchange id wake_nonce program_hash battery blob in
      mret (match cmd with inl o => inl o | inr cmd => inr (program_hash, resident, cmd) end)
  end.

(** A paired node, up to the COMMAND. *)
Definition before_command (fuel : nat) (id : NodeIdentity) :
    N (WakeCycleOutcome + (list Z * option (list Z) * Cmd)) :=
  let! healthy := health_check in
  if negb healthy then
    let! '(base_interval, _) := read_schedule in
    mret (inl (Sleep (effective_sleep_s (sleep_new base_interval Scheduled))))
  else
  let! reason := determine_wake_reason in
  let! '(base_interval, _) := read_schedule in
  mmod (fun n => with_sleep n (sleep_new base_interval reason)) ;;!
  contact_gateway fuel id.

Definition run_wake_cycle (fuel : nat) (i : I) : N (WakeCycleOutcome * I) :=
  let! n := nvs_get in
  match key n with
  | None => mret (Unpaired, i)
  | Some (hint, psk) =>
      let id := mkIdentity hint psk in
      let! w := before_command fuel id in
      match w with
      | inl o => mret (o, i)
      | inr (program_hash, resident, cmd) => after_command fuel id program_hash resident cmd i
      end
  end.
End Cycle.
