(* ===== verification/NodeLogic.v ===== *)
(** * Logics of the wake cycle

    Most of what the wake cycle does after the COMMAND - helpers included - touches
    the storage, the radio and the clock only through a few operations.  A logic
    that those operations obey ([Respects]) is obeyed by the whole rest of the
    cycle; the theorems about programs, sequence numbers and termination each
    instantiate it once. *)

From Stdlib Require Import String.
From S2P Require Import Prelude Frame Messages BoardLayout ProgramImage MapStorage AsyncQueue NodeM NodeState NodeRadio NodeStore BpfDispatch WakeCycle.
Open Scope list_scope.
Open Scope Z_scope.

(** Storage writes that leave the programs, the schedule and the key alone. *)
Definition quiet_nvs (s s' : Nvs) : Prop :=
  programs s' = programs s /\ active_partition s' = active_partition s /\ interval s' = interval s /\ key s' = key s.

(** A tree whose every path ends. *)
Fixpoint tree_ends (t : Run) : Prop :=
  match t with
  | OutOfFuel => False
  | Done _ _ => True
  | Call _ _ _ _ _ _ _ _ k => forall o b, tree_ends (k o b)
  end.

Section Logic.
Context {Value : Type} `{C : Cbor Value}.
Context `{Sha256Provider, AeadProvider}.
Context {E : Type} `{Env E}.
Context {I : Type} `{BpfInterpreter I}.
Context (W : Z) (oc : bool) (base : Z) (blob_addr : list Z -> Z).
Context (board : BoardLayout) (fuel : nat) (id : NodeIdentity).
Abbreviation N := (M (Node E)).

(** State changes in the maps, the queue, the next wake-up and the log. *)
Definition local (n n' : Node E) : Prop :=
  nvs n' = nvs n /\ env n' = env n /\ current_seq n' = current_seq n /\ trace n' = trace n /\
  base_interval_s (sleep_mgr n') = base_interval_s (sleep_mgr n).

Class Respects (L : Logic (Node E)) (adm : E -> E -> Prop) (okh : list Z -> Prop) : Prop := {
  r_order :: PreOrder (rel L);
  r_adm :: EnvRel adm;
  r_env : forall A (f : E -> A * E), (forall e, adm e (f e).2) -> obeys L (env_op f);
  r_nvs : forall f, (forall s, quiet_nvs s (f s)) -> obeys L (nvs_write f);
  r_local : forall A (m : N A), (forall n, exists r n', m n = Some (r, n') /\ local n n') -> obeys L m;
  r_sealed : forall t cbor, obeys L (send_sealed oc id t cbor);
  r_reply : forall seq deadline, obeys L (reply_loop fuel id seq deadline);
  r_chunk : forall seq index deadline, obeys L (chunk_loop fuel id seq index deadline);
  r_install : forall image h budget, okh h -> obeys L (install_resident W image h budget);
  r_schedule : forall s, obeys L (update_schedule s);
  r_tree : total L = true -> forall (i : I) c b, tree_ends (execute i c DEFAULT_INSTRUCTION_BUDGET b)
}.

Context (L : Logic (Node E)) (adm : E -> E -> Prop) (okh : list Z -> Prop) `{HR : !Respects L adm okh}.

(** ** Primitive operations *)

Lemma r_mod (f : Node E -> Node E) : (forall n, local n (f n)) -> obeys L (mmod f).
Proof using All. intros Hf. apply r_local. intros n. by eexists _, _. Qed.

Lemma r_queue_op {A} (f : Layout -> Res unit (A * list AsyncQueue.Write)) : obeys L (queue_op f).
Proof using All.
  apply r_local. intros n. unfold queue_op.
  destruct (f (queue n)) as [[a ws]|?| |]; (eexists _, _; split; [reflexivity|done]).
Qed.

Lemma r_elapsed : obeys L elapsed_ms.
Proof using All. apply r_env. intros e. apply elapsed_rel. Qed.
Lemma r_delay t : obeys L (delay_ms t).
Proof using All. apply r_env. intros e. apply delay_rel. Qed.
Lemma r_active : obeys L enter_active_gpio_state.
Proof using All. apply r_env. intros e. apply active_gpio_rel. Qed.
Lemma r_idle : obeys L enter_idle_gpio_state.
Proof using All. apply r_env. intros e. apply idle_gpio_rel. Qed.
Lemma r_adc c : obeys L (env_op (fun e => adc e c)).
Proof using All. apply r_env. intros e. apply adc_rel. Qed.

#[local] Hint Resolve r_queue_op r_elapsed r_delay r_active r_idle r_adc : obeys.
#[local] Hint Extern 3 (obeys _ (send_sealed _ _ _ _)) => apply r_sealed : obeys.
#[local] Hint Extern 3 (obeys _ (reply_loop _ _ _ _)) => apply r_reply : obeys.
#[local] Hint Extern 3 (obeys _ (chunk_loop _ _ _ _ _)) => apply r_chunk : obeys.
#[local] Hint Extern 4 (obeys _ (nvs_write _)) => apply r_nvs; done : obeys.
#[local] Hint Extern 4 (obeys _ (mmod _)) => apply r_mod; done : obeys.
#[local] Hint Extern 4 (obeys _ (env_op _)) => apply r_env; intros ?; first
  [ apply gpio_get_rel | apply gpio_set_rel | apply i2c_read_rel | apply i2c_write_rel
  | apply i2c_write_read_rel | apply spi_rel | apply delay_micros_rel ] : obeys.

(** ** Radio *)

Lemma r_send_app_data blob : obeys L (send_app_data oc id blob).
Proof using All. unfold send_app_data. obeys_go. Qed.

Lemma r_send_recv blob t : obeys L (send_recv_app_data oc fuel id blob t).
Proof using All. unfold send_recv_app_data. obeys_go. Qed.

Lemma r_ack h : obeys L (send_program_ack oc id h).
Proof using All. unfold send_program_ack. obeys_go. Qed.

Lemma r_chunk_attempts attempts attempt index cbor : obeys L (chunk_attempts oc fuel attempts attempt id index cbor).
Proof using All. revert attempt. induction attempts as [|k IH]; intros attempt; simpl; obeys_go. Qed.

Lemma r_chunks_loop count index size csize image : obeys L (chunks_loop oc fuel count id index size csize image).
Proof using All.
  revert index image. induction count as [|k IH]; intros index image; simpl; [obeys_go|].
  apply obeys_bind; [exact _| |].
  - unfold get_chunk_with_retry. obeys_go. apply r_chunk_attempts.
  - intros data. obeys_go.
Qed.

Lemma r_transfer size csize count mx : obeys L (chunked_transfer oc fuel id size csize count mx).
Proof using All. unfold chunked_transfer. obeys_go. apply r_chunks_loop. Qed.

#[local] Hint Resolve r_send_app_data r_send_recv r_ack r_transfer : obeys.

(** ** Helpers *)

Lemma r_call_fn peek ctx f r1 r2 r3 r4 r5 :
  (forall c, ctx = Some c -> identity c = id) ->
  obeys L (call_fn W oc base fuel peek ctx f r1 r2 r3 r4 r5).
Proof using All.
  intros Hid. destruct ctx as [c|].
  2: { destruct f; simpl; unfold helper_delay_us, with_ctx, out; obeys_go. }
  specialize (Hid c eq_refl).
  destruct f; simpl;
    unfold helper_i2c_read, helper_i2c_write, helper_i2c_write_read, helper_spi_transfer, helper_gpio_read,
      helper_gpio_write, helper_adc_read, helper_send, helper_send_recv, helper_map_lookup_elem,
      helper_map_update_elem, helper_get_time, helper_get_battery_mv, helper_delay_us, helper_set_next_wake,
      helper_bpf_trace_printk, helper_send_async, with_ctx, out, read_key_at, raw_slice; rewrite ?Hid; obeys_go.
  all: apply r_mod; intros n; case_match; done.
Qed.

Lemma r_run_tree ctx t :
  identity ctx = id -> (total L = true -> tree_ends t) -> obeys L (run_tree W oc base fuel ctx t).
Proof using All.
  intros Hid. induction t as [|r b|f r1 r2 r3 r4 r5 peek b k IH]; simpl; intros Ht.
  - intros s _. simpl. destruct (total L); [by destruct Ht|done].
  - unfold set_buffer. obeys_go.
  - unfold set_buffer. apply obeys_bind; [exact _|by auto with obeys|]. intros _.
    apply obeys_bind; [exact _| |].
    + apply r_call_fn. by intros c [= <-].
    + intros o. apply obeys_bind; [exact _|apply obeys_get; exact _|]. intros n. apply IH. intros T. by apply Ht.
Qed.

(** ** The rest of the cycle *)

Lemma r_battery : obeys L (persist_current_cycle_battery board).
Proof using All.
  unfold persist_current_cycle_battery, capture_current_cycle_battery, adc_read_diagnostics, write_last_battery_mv. obeys_go.
Qed.
#[local] Hint Resolve r_battery : obeys.

Lemma r_battery_sleep : obeys L (capture_battery_then_sleep board).
Proof using All. unfold capture_battery_then_sleep, log_and_sleep. obeys_go. Qed.
#[local] Hint Resolve r_battery_sleep : obeys.

Lemma r_drain : obeys L (drain_queue oc id).
Proof using All.
  unfold drain_queue. obeys_go.
  match goal with |- obeys _ (send_pending _ _ ?l) => induction l end; simpl; obeys_go.
Qed.

Lemma r_new_program eph h size csize count :
  (eph = false -> okh h) -> obeys L (new_program W oc board fuel id eph h size csize count).
Proof using All.
  intros Hh. unfold new_program, clear_queue. obeys_go. by apply r_install, Hh.
Qed.

(** The hash of the resident program a command orders. *)
Definition ordered_hash (p : CommandPayload) (h : list Z) : Prop :=
  exists size csize count, p = UpdateProgram h size csize count.

Lemma r_dispatch payload : (forall h, ordered_hash payload h -> okh h) -> obeys L (dispatch W oc board fuel id payload).
Proof using All.
  intros Hh. unfold dispatch. destruct payload; obeys_go.
  - apply r_drain.
  - apply r_new_program. intros _. apply Hh. by eexists _, _, _.
  - by apply r_new_program.
  - apply r_schedule.
Qed.

Lemma r_prepare p installed : obeys L (prepare_maps W oc base board p installed).
Proof using All. unfold prepare_maps. obeys_go. Qed.

Lemma r_run_program p ts at_ battery blob i :
  obeys L (run_program W oc base blob_addr fuel id p ts at_ battery blob i).
Proof using All.
  unfold run_program. obeys_go. apply r_run_tree; [done|]. intros T. by apply (r_tree T).
Qed.

(** The cycle from a loaded program, if there is one, to its end. *)
Lemma r_execute (program : option LoadedProgram) installed ts at_ blob (i : I) :
  obeys L (
    let! p := match program with Some p => prepare_maps W oc base board p installed | None => mret (inr tt) end in
    match p with
    | inl o => mret (o, i)
    | inr _ =>
        enter_active_gpio_state ;;!
        delay_ms (active_gpio_settle_ms board) ;;!
        let! battery := persist_current_cycle_battery board in
        let! i := match program with
                  | Some p => run_program W oc base blob_addr fuel id p ts at_ battery blob i
                  | None => mret i
                  end in
        enter_idle_gpio_state ;;!
        let! n := mget in
        (if will_wake_early (sleep_mgr n) then let! _ := mtry set_early_wake_flag in mret tt else mret tt) ;;!
        let! o := log_and_sleep in
        mret (o, i)
    end).
Proof using All.
  unfold set_early_wake_flag, log_and_sleep. apply obeys_bind; [exact _| |].
  - case_match; [apply r_prepare|obeys_go].
  - intros [o|_]; [obeys_go|]. obeys_go; apply r_run_program.
Qed.

(** Everything after the COMMAND, once its sequence number is in place. *)
Lemma r_after_command program_hash resident seq ts payload blob i :
  (forall h, ordered_hash payload h -> okh h) ->
  exists k, after_command W oc base blob_addr board fuel id program_hash resident (seq, ts, payload, blob) i =
            (mmod (fun n => with_seq n seq) ;;! k) /\ obeys L k.
Proof using All.
  intros Hh. eexists. split; [reflexivity|]. unfold set_early_wake_flag, log_and_sleep.
  apply obeys_bind; [exact _|by auto with obeys|]. intros at_.
  apply obeys_bind; [exact _|by apply r_dispatch|]. intros [o|[loaded usable]]; [obeys_go|].
  cbv zeta. apply r_execute.
Qed.
End Logic.
