(* ===== verification/WakeProofs.v ===== *)
(** * What a wake cycle guarantees

    Theorems about [run_wake_cycle] against an arbitrary environment: which
    program is active afterwards, which frames were sent under which sequence
    numbers, and that the cycle ends in a bounded sleep.  Each follows from a
    logic that the primitive operations obey ([NodeLogic]) and the specifications
    of the registration and WAKE exchanges given here. *)

From Stdlib Require Import String.
From S2P Require Import Prelude Frame Messages BoardLayout ProgramImage MapStorage AsyncQueue NodeM NodeState NodeRadio NodeStore.
From S2P Require Import BpfDispatch WakeCycle NodeLogic.
Open Scope list_scope.
Open Scope Z_scope.

(** ** Installation *)

Section Install.
Context {Value : Type} `{C : Cbor Value}.
Context `{Sha256Provider}.
Context {E : Type} `{Env E}.
Context (W : Z).

(** The bytes of the partition that is not active. *)
Definition inactive_image (s : Nvs) : option (list Z) :=
  default None (programs s !! Z.to_nat (1 - active_partition s)).

(** An installation that reports success made active an image of the expected
    hash and kept the previous one in the other partition; any other outcome left
    the active image alone. *)
Definition installed_spec (h : list Z) (s : Nvs) (ok : bool) (s' : Nvs) : Prop :=
  partitions_ok s' /\ key s' = key s /\ interval s' = interval s /\
  if ok then (exists w, active_image s' = Some w /\ hash w = h) /\ inactive_image s' = active_image s
  else active_image s' = active_image s.

Lemma partitions_ok_write s p kept :
  partitions_ok s -> partitions_ok (nvs_programs s (<[p := kept]> (programs s))).
Proof using . intros [Hl Ha]. split; [|done]. cbn. by rewrite length_insert. Qed.

Lemma wp_read_program p (Q : NodeResult (option (list Z)) -> Node E -> Prop) s :
  Q (Ok (default None (programs (nvs s) !! Z.to_nat p))) s -> wp (read_program p) Q s.
Proof using . done. Qed.

Lemma wp_write_program p img (Q : NodeResult unit -> Node E -> Prop) s :
  (forall kept o e, Q (match o with None => Ok tt | Some x => Err x end)
     (with_nvs (with_env s e) (nvs_programs (nvs s) (<[Z.to_nat p := kept]> (programs (nvs s)))))) ->
  wp (write_program p img) Q s.
Proof using . intros HQ. unfold wp, write_program. destruct (program_fault _ _) as [[kept o] e]. apply HQ. Qed.

Lemma wp_nvs_write f (Q : NodeResult unit -> Node E -> Prop) s :
  (forall e, Q (Ok tt) (with_nvs (with_env s e) (f (nvs s)))) ->
  (forall e x, Q (Err x) (with_env s e)) -> wp (nvs_write f) Q s.
Proof using . intros H1 H2. unfold wp, nvs_write. destruct (flash_fault _) as [[x|] e]; auto. Qed.

Lemma returns_nvs f : obeys (S := Node E) returns (nvs_write f).
Proof using . apply obeys_returns. intros n. unfold nvs_write. by destruct (flash_fault _) as [[x|] e]. Qed.

Lemma returns_mod (f : Node E -> Node E) : obeys returns (mmod f).
Proof using . by apply obeys_returns. Qed.

(** The write to the inactive partition, the read back and the flip. *)
Lemma install_spec img h budget s :
  partitions_ok (nvs s) ->
  wp (install_resident W img h budget) (fun r s' => installed_spec h (nvs s) (is_ok r) (nvs s') /\ trace s' = trace s) s.
Proof using .
  intros Hp. assert (Hsame : installed_spec h (nvs s) false (nvs s) /\ trace s = trace s) by done.
  unfold install_resident. case_match; [done|]. apply wp_bind, wp_lift.
  destruct (image_result img) as [image|e| |]; try done. apply wp_bind, wp_lift.
  destruct (validate_map_defs _ _) as [u|e| |]; try done. case_match; [done|].
  apply wp_bind, wp_bind, wp_bind, wp_get. cbn beta iota. apply wp_ret. apply wp_ret.
  destruct (active_partition (nvs s) >? 1) eqn:Ha; [done|].
  set (p := 1 - active_partition (nvs s)). assert (Hle : active_partition (nvs s) <= 1) by lia.
  apply wp_bind, wp_write_program. intros kept o e. set (s1 := with_nvs _ _).
  assert (Hp1 : partitions_ok (nvs s1)) by by apply partitions_ok_write.
  assert (Ha1 : active_image (nvs s1) = active_image (nvs s)) by (by apply active_image_other).
  assert (Hfail : installed_spec h (nvs s) false (nvs s1) /\ trace s1 = trace s) by done.
  destruct o as [x|]; [done|]. apply wp_bind, wp_read_program. apply wp_bind, wp_lift.
  destruct (default None _) as [w|] eqn:Hw; [|done]. simpl. case_match eqn:Hh; [done|].
  apply negb_false_iff, bool_decide_eq_true in Hh.
  apply wp_bind, wp_nvs_write; [|done]. intros e'. apply wp_ret. simpl.
  split; [|done]. destruct Hp as [Hlen Hu]. unfold uN in Hu.
  split_and!; [split; [apply Hp1|unfold uN; simpl; lia]|done|done| |].
  - exists w. split; [|done].
    etrans; [apply (active_image_flip (nvs s1) p); [done|lia]|]. exact Hw.
  - rewrite <- Ha1. unfold inactive_image, active_image. cbn. rewrite Ha. by replace (1 - p) with (active_partition (nvs s)) by lia.
Qed.

(** C26: installing a resident program is atomic, whatever the flash does.  With any
    outcome of the writes, an installation that reports success made active an image
    of the ordered hash, kept the previous image in the other partition, and returns
    the program decoded from bytes of that hash; one that does not leaves the active
    image as it was.  Key and schedule stay in either case. *)
Theorem install_resident_atomic img h budget s :
  partitions_ok (nvs s) ->
  exists r s', install_resident W img h budget s = Some (r, s') /\ installed_spec h (nvs s) (is_ok r) (nvs s') /\
    forall p, r = Ok p -> hash img = h /\ exists image, image_decode img = Ok image /\ p = of_image image h false.
Proof using .
  intros Hp. pose proof (install_spec img h budget s Hp) as Hs.
  assert (Hprog : wp (install_resident W img h budget) (fun r _ => forall p, r = Ok p ->
    hash img = h /\ exists image, image_decode img = Ok image /\ p = of_image image h false) s).
  { unfold install_resident. case_match eqn:Hh; [done|]. apply negb_false_iff, bool_decide_eq_true in Hh.
    apply wp_bind, wp_lift. unfold image_result. destruct (image_decode img) as [image|e| |] eqn:Hi; cbn [map_err]; try done.
    apply wp_bind_any; [intros ? ?|by intros [] ?]. case_match; [done|].
    apply wp_bind_any; [intros [? active] ?|by intros [] ?]. case_match; [done|].
    do 3 (apply wp_bind_any; [intros ? ?|by intros [] ?]). case_match; [done|].
    apply wp_bind_any; [intros ? ?|by intros [] ?]. apply wp_ret. intros p [= <-]. rewrite Hh. eauto. }
  apply returns_run; [|apply (wp_mono _ _ _ _ (wp_and _ _ _ _ Hs Hprog)); by intros r s' [[? _] ?]].
  unfold install_resident, read_schedule, read_program, nvs_get, write_active_partition. obeys_go; [|apply returns_nvs].
  apply obeys_returns. intros n. unfold write_program. by destruct (program_fault _ _) as [[? ?] ?].
Qed.
End Install.

(** ** Logics *)

Section Logics.
Context {Value : Type} `{C : Cbor Value}.
Context `{Sha256Provider, AeadProvider}.
Context {E : Type} `{Env E}.
Context {I : Type} `{BpfInterpreter I}.
Context (W : Z) (oc : bool) (base : Z) (blob_addr : list Z -> Z).
Context (board : BoardLayout) (firmware_version : list Z).
Abbreviation N := (M (Node E)).

(** The loops that listen, for logics that say nothing of termination. *)
Lemma obeys_reply_loop (L : Logic (Node E)) `{!PreOrder (rel L)} fuel id seq deadline :
  total L = false -> obeys L elapsed_ms -> (forall t, obeys L (recv t)) -> obeys L (reply_loop fuel id seq deadline).
Proof using . intros T He Hr. induction fuel as [|k IH]; simpl; [by intros ? _|]. obeys_go. Qed.

Lemma obeys_chunk_loop (L : Logic (Node E)) `{!PreOrder (rel L)} fuel id seq index deadline :
  total L = false -> obeys L elapsed_ms -> (forall t, obeys L (recv t)) -> obeys L (chunk_loop fuel id seq index deadline).
Proof using . intros T He Hr. induction fuel as [|k IH]; simpl; [by intros ? _|]. obeys_go. Qed.

(** *** The active program *)

Definition program_rel (okh : list Z -> Prop) (n n' : Node E) : Prop :=
  key (nvs n') = key (nvs n) /\ trace n `prefix_of` trace n' /\
  (active_image (nvs n') = active_image (nvs n) \/ exists w, active_image (nvs n') = Some w /\ okh (hash w)).

Definition program_logic (okh : list Z -> Prop) : Logic (Node E) :=
  mkLogic (fun n => partitions_ok (nvs n)) (program_rel okh) false true.

#[export] Instance program_rel_order okh : PreOrder (program_rel okh).
Proof using .
  split; [intros n; by split_and!; [| |left]|]. intros n1 n2 n3 (K1 & T1 & J1) (K2 & T2 & J2).
  split_and!; [congruence|by etrans|]. destruct J2 as [J2|J2]; [|by right]. rewrite J2.
  destruct J1 as [J1|J1]; [left; congruence|by right].
Qed.

(** Steps that leave the storage alone. *)
Lemma program_same_nvs {A} okh (m : N A) :
  (forall n, match m n with Some (_, n') => nvs n' = nvs n /\ trace n `prefix_of` trace n' | None => True end) ->
  obeys (program_logic okh) m.
Proof using .
  intros Hm n Hn. specialize (Hm n). destruct (m n) as [[r n']|]; [|done]. destruct Hm as [Hv Ht].
  split; [|simpl; rewrite Hv; by case_match]. simpl. unfold program_rel. rewrite Hv. by split_and!; [| |left].
Qed.

Lemma program_send okh f : obeys (program_logic okh) (send f).
Proof using .
  apply program_same_nvs. intros n. unfold send. destruct (t_send _ _) as [[?|?| |] ?]; (split; [done|]); try done.
  by apply prefix_app_r.
Qed.

Lemma program_recv okh t : obeys (program_logic okh) (recv t).
Proof using .
  apply program_same_nvs. intros n. unfold recv. destruct (t_recv _ _) as [[[?|]|?| |] ?]; (split; [done|]); try done.
  by apply prefix_app_r.
Qed.

Lemma program_env okh A (f : E -> A * E) : obeys (program_logic okh) (env_op f).
Proof using . apply program_same_nvs. intros n. unfold env_op. by destruct (f _). Qed.

(** Writes elsewhere in the storage. *)
Definition other_nvs (s s' : Nvs) : Prop :=
  programs s' = programs s /\ active_partition s' = active_partition s /\ key s' = key s.

Lemma program_other okh (n n' : Node E) :
  partitions_ok (nvs n) -> other_nvs (nvs n) (nvs n') -> trace n' = trace n ->
  program_rel okh n n' /\ partitions_ok (nvs n').
Proof using .
  intros Hp (J1 & J2 & J3) Ht. unfold program_rel, partitions_ok, active_image. rewrite J1, J2, J3, Ht.
  split; [by split_and!; [| |left]|done].
Qed.

Lemma program_nvs okh f : (forall s, other_nvs s (f s)) -> obeys (program_logic okh) (nvs_write f).
Proof using .
  intros Hf n Hn. unfold nvs_write. destruct (flash_fault _) as [[x|] e]; by apply (program_other okh n).
Qed.

Lemma program_sealed okh id t cbor : obeys (program_logic okh) (send_sealed oc id t cbor).
Proof using .
  unfold send_sealed, advance_seq. obeys_go; [apply program_send|]. by apply program_same_nvs.
Qed.

Lemma program_schedule okh s : obeys (program_logic okh) (update_schedule s).
Proof using .
  unfold update_schedule, write_schedule_interval. obeys_go; [by apply program_nvs|]. by apply program_same_nvs.
Qed.

#[export] Instance program_respects fuel id okh :
  Respects (I := I) W oc fuel id (program_logic okh) (fun _ _ => True) okh.
Proof using .
  split; try exact _; try done.
  - intros. apply program_env.
  - intros f Hf. apply program_nvs. intros s. destruct (Hf s) as (? & ? & ? & ?). done.
  - intros A m Hm. apply program_same_nvs. intros n. by destruct (Hm n) as (r & n' & -> & ? & _ & _ & -> & _).
  - intros. apply program_sealed.
  - intros. apply obeys_reply_loop; [exact _|done|apply program_env|apply program_recv].
  - intros. apply obeys_chunk_loop; [exact _|done|apply program_env|apply program_recv].
  - intros image h budget Hh n Hn. pose proof (install_spec W image h budget n Hn) as Hs. unfold wp in Hs.
    destruct (install_resident _ _ _ _ n) as [[r n']|]; [|done]. destruct Hs as ((Hp & Hk & _ & Hs) & Ht).
    split; [|by destruct (returned r)]. simpl. split_and!; [done|by rewrite Ht|].
    destruct (is_ok r); [|by left]. destruct Hs as [(w & Hw & <-) _]. right. eauto.
  - intros. apply program_schedule.
Qed.

(** *** Registration and the WAKE exchange *)

Lemma program_ack_loop okh fuel id nonce start : obeys (program_logic okh) (ack_loop fuel id nonce start).
Proof using .
  induction fuel as [|k IH]; simpl; [by intros ? _|]. unfold write_reg_complete. obeys_go.
  all: first [apply program_env | apply program_recv | by apply program_nvs].
Qed.

Lemma program_registration okh fuel id : obeys (program_logic okh) (registration fuel id).
Proof using .
  unfold registration, read_reg_complete, read_peer_payload, nvs_get, peer_request_exchange, erase_peer_payload, log_and_sleep.
  obeys_go. all: first [apply program_send | apply program_env | apply program_ack_loop | by apply program_nvs].
Qed.

Lemma program_wake_attempts okh attempts attempt f id nonce :
  obeys (program_logic okh) (wake_attempts attempts attempt f id nonce).
Proof using .
  revert attempt. induction attempts as [|k IH]; intros attempt; simpl; [obeys_go|]. obeys_go.
  all: first [apply program_send | apply program_env | apply program_recv].
Qed.

Lemma program_exchange okh id nonce hash bat blob : obeys (program_logic okh) (exchange firmware_version id nonce hash bat blob).
Proof using .
  unfold exchange, wake_command_exchange, has_peer_payload, read_peer_payload, read_reg_complete, nvs_get,
    erase_peer_payload, write_reg_complete, clear_queue, log_and_sleep. obeys_go.
  all: first [apply program_wake_attempts | by apply program_nvs | by apply program_same_nvs].
Qed.


Lemma program_queue_op okh {A} (f : Layout -> Res unit (A * list AsyncQueue.Write)) : obeys (program_logic okh) (queue_op f).
Proof using . apply program_same_nvs. intros n. unfold queue_op. by destruct (f (queue n)) as [[? ?]| | |]. Qed.

Lemma program_before okh fuel id : obeys (program_logic okh) (before_command firmware_version fuel id).
Proof using .
  unfold before_command, contact_gateway, determine_wake_reason, take_early_wake_flag, read_schedule, load_active_raw, read_program,
    read_last_battery_mv, wake_blob, nvs_get, health_check, random_u64.
  obeys_go. all: first [apply program_env | apply program_registration | apply program_exchange | apply program_queue_op
    | by apply program_same_nvs | apply obeys_mod; [exact _|]; intros n Hn; by apply (program_other okh n)].
Qed.
End Logics.

(** ** The WAKE exchange *)

(** The frames among a list of events. *)
Definition sent_of (evs : list Event) : list (list Z) :=
  omap (fun ev => match ev with Sent f => Some f | Received _ => None end) evs.

Section Exchange.
Context {Value : Type} `{C : Cbor Value}.
Context `{Sha256Provider, AeadProvider}.
Context {E : Type} `{Env E}.

Definition wake_header (id : NodeIdentity) (nonce : Z) : FrameHeader := mkHeader (id_key_hint id) MSG_WAKE nonce.

(** What the WAKE exchange did: up to [k] transmissions of one frame, and a
    command only out of a received frame that verified under this nonce. *)
Definition exchanged (id : NodeIdentity) (nonce : Z) (k : nat) (f : list Z) (evs : list Event) (r : NodeResult Cmd) : Prop :=
  Forall (eq f) (sent_of evs) /\ (length (sent_of evs) <= k)%nat /\
  forall cmd, r = Ok cmd ->
    Sent f ∈ evs /\ exists raw, Received raw ∈ evs /\ verify_and_decode_command raw id nonce = Ok cmd.

Lemma sent_of_app l l' : sent_of (l ++ l') = sent_of l ++ sent_of l'.
Proof using . apply omap_app. Qed.

Lemma wp_send f (Q : NodeResult unit -> Node E -> Prop) s :
  (forall e, Q (Ok tt) (with_radio s e (Sent f))) ->
  (forall r e, is_ok r = false -> Q r (with_env s e)) -> wp (send f) Q s.
Proof using .
  intros J1 J2. unfold wp, send. destruct (t_send _ _) as [[[]|?| |] e]; auto.
Qed.

Lemma wp_recv t (Q : NodeResult (option (list Z)) -> Node E -> Prop) s :
  (forall f e, Q (Ok (Some f)) (with_radio s e (Received f))) ->
  (forall r e, (forall f, r <> Ok (Some f)) -> Q r (with_env s e)) -> wp (recv t) Q s.
Proof using .
  intros J1 J2. unfold wp, recv. destruct (t_recv _ _) as [[[?|]|?| |] e]; auto; apply J2; done.
Qed.

Lemma wp_env_op {A} (f : E -> A * E) (Q : NodeResult A -> Node E -> Prop) s :
  (forall a e, Q (Ok a) (with_env s e)) -> wp (env_op f) Q s.
Proof using . intros J. unfold wp, env_op. destruct (f _). apply J. Qed.

(** Events before the attempt are prepended. *)
Lemma exchanged_prepend id nonce k j f evs0 evs r :
  Forall (eq f) (sent_of evs0) -> (length (sent_of evs0) <= j)%nat ->
  exchanged id nonce k f evs r -> exchanged id nonce (j + k) f (evs0 ++ evs) r.
Proof using .
  intros J0 Jl (J1 & J2 & J3). unfold exchanged. rewrite sent_of_app, length_app. split_and!.
  - by apply Forall_app.
  - lia.
  - intros cmd Hr. destruct (J3 cmd Hr) as (? & raw & ? & ?). rewrite elem_of_app. split; [by right|].
    exists raw. rewrite elem_of_app. split; [by right|done].
Qed.

Lemma wake_attempts_spec attempts attempt f id nonce s :
  wp (wake_attempts attempts attempt f id nonce)
    (fun r s' => exists evs, trace s' = trace s ++ evs /\ exchanged id nonce attempts f evs r) s.
Proof using .
  revert attempt s. induction attempts as [|k IH]; intros attempt s; simpl.
  { exists []. rewrite app_nil_r. split; [done|]. split_and!; simpl; [done|lia|done]. }
  assert (Hnone : forall (r : NodeResult Cmd) e, is_ok r = false ->
    exists evs, trace (with_env s e) = trace s ++ evs /\ exchanged id nonce (S k) f evs r).
  { intros r e Hr. exists []. rewrite app_nil_r. split; [done|]. split_and!; simpl; [done|lia|]. by intros ? ->. }
  apply wp_bind. eapply wp_mono with (P := fun r s' => r = Ok tt /\ exists e, s' = with_env s e).
  { case_match; [apply wp_env_op; intros [] ?; eauto|apply wp_ret]. split; [done|]. exists (env s). by destruct s. }
  intros r s1 [-> [e1 ->]]. apply wp_bind, wp_send.
  2: { intros r e Hr. destruct r; [done|..]; apply Hnone; done. }
  intros e2. apply wp_bind, wp_recv.
  - intros raw e3. set (evs0 := [Sent f; Received raw]). set (s3 := with_radio _ e3 _).
    assert (Ht : trace s3 = trace s ++ evs0) by (simpl; by rewrite <- app_assoc).
    assert (Hstop : forall (r : NodeResult Cmd), (forall cmd, r = Ok cmd -> verify_and_decode_command raw id nonce = Ok cmd) ->
      exists evs, trace s3 = trace s ++ evs /\ exchanged id nonce (S k) f evs r).
    { intros r Hr. exists evs0. split; [done|]. split_and!; simpl; [by repeat constructor|lia|].
      intros cmd Hc. split; [set_solver|]. exists raw. split; [set_solver|by apply Hr]. }
    destruct (verify_and_decode_command raw id nonce) as [cmd|x| |] eqn:Hv; try (apply Hstop; congruence).
    eapply wp_mono; [apply IH|]. intros r s' (evs & Hs' & Hx). exists (evs0 ++ evs).
    split; [by rewrite Hs', Ht, app_assoc|]. apply (exchanged_prepend id nonce k 1); [by repeat constructor|simpl; lia|done].
  - intros r e3 Hr. set (s3 := with_env _ e3). assert (Ht : trace s3 = trace s ++ [Sent f]) by done.
    assert (Hstop : forall (r : NodeResult Cmd), is_ok r = false ->
      exists evs, trace s3 = trace s ++ evs /\ exchanged id nonce (S k) f evs r).
    { intros r' Hr'. exists [Sent f]. split; [done|]. split_and!; simpl; [by repeat constructor|lia|]. by intros ? ->. }
    destruct r as [[raw|]|x| |]; [by destruct (Hr raw)| |by apply Hstop..].
    eapply wp_mono; [apply IH|]. intros r s' (evs & Hs' & Hx). exists ([Sent f] ++ evs).
    split; [by rewrite Hs', Ht, app_assoc|]. apply (exchanged_prepend id nonce k 1); [by repeat constructor|simpl; lia|done].
Qed.

Lemma sent_of_elem f evs : Sent f ∈ evs -> f ∈ sent_of evs.
Proof using . intros Hf. apply list_elem_of_omap. by exists (Sent f). Qed.

(** Steps that neither send nor receive nor advance the sequence number. *)
Definition silent : Logic (Node E) :=
  mkLogic (fun _ => True) (fun n n' => trace n' = trace n /\ current_seq n' = current_seq n) false true.

#[export] Instance silent_order : PreOrder (rel silent).
Proof using . split; [done|]. intros ??? [J1 J2] [J3 J4]. split; congruence. Qed.

Lemma silent_nvs f : obeys silent (nvs_write f).
Proof using . intros n _. unfold nvs_write. by destruct (flash_fault _) as [[x|] e]. Qed.

Lemma silent_mod f : (forall n, trace (f n) = trace n /\ current_seq (f n) = current_seq n) -> obeys silent (mmod f).
Proof using . intros Hf. apply obeys_mod; [exact _|]. intros n _. split; [apply Hf|done]. Qed.

Lemma silent_env {A} (f : E -> A * E) : obeys silent (env_op f).
Proof using . intros n _. unfold env_op. by destruct (f _). Qed.

Lemma silent_wp {A} (m : M (Node E) A) s :
  obeys silent m -> wp m (fun r s' => trace s' = trace s /\ current_seq s' = current_seq s) s.
Proof using . intros Hm. eapply wp_mono; [by apply (obeys_wp silent)|]. by intros r s' [? _]. Qed.

(** A silent step: the rest goes on from a state with the same trace. *)
Lemma wp_silent_bind {A B} (m : M (Node E) A) (k : A -> M (Node E) B) (Q : NodeResult B -> Node E -> Prop) s :
  obeys silent m ->
  (forall a s', trace s' = trace s -> current_seq s' = current_seq s -> wp (k a) Q s') ->
  (forall r s', is_ok r = false -> trace s' = trace s -> Q r s') -> wp (mbind m k) Q s.
Proof using .
  intros Hm Hk Hr. apply (wp_obeys_bind silent); try done; [intros a s' [? ?] _; by apply Hk|by intros r s' ? [? _]; apply Hr].
Qed.

Definition wake_exchanged (id : NodeIdentity) (nonce : Z) (evs : list Event) (cmd : option Cmd) : Prop :=
  (exists cbor, Forall (fun f => encode_frame (wake_header id nonce) cbor (psk id) = Ok f) (sent_of evs)) /\
  (length (sent_of evs) <= 4)%nat /\
  forall c, cmd = Some c ->
    (exists f, Sent f ∈ evs) /\ exists raw, Received raw ∈ evs /\ verify_and_decode_command raw id nonce = Ok c.

Definition ok_of {A} (r : NodeResult A) : option A := match r with Ok a => Some a | _ => None end.

Lemma wake_exchange_spec fv id nonce h bat blob s :
  wp (wake_command_exchange fv id nonce h bat blob)
    (fun r s' => exists evs, trace s' = trace s ++ evs /\ wake_exchanged id nonce evs (ok_of r)) s.
Proof using .
  assert (Hnone : forall r : NodeResult Cmd, is_ok r = false ->
    exists evs, trace s = trace s ++ evs /\ wake_exchanged id nonce evs (ok_of r)).
  { intros r Hr. exists []. rewrite app_nil_r. split; [done|]. split_and!; [by exists []|simpl; lia|]. by destruct r. }
  unfold wake_command_exchange. apply wp_bind, wp_lift.
  destruct (map_err _ (node_encode _)) as [cbor|x| |]; try by apply Hnone.
  apply wp_bind, wp_lift. destruct (encode_frame _ _ _) as [f|x| |] eqn:Hf; cbn [map_err]; try by apply Hnone.
  eapply wp_mono; [apply wake_attempts_spec|]. intros r s' (evs & Ht & J1 & J2 & J3). exists evs. split; [done|].
  split_and!; [|done|].
  - exists cbor. eapply List.Forall_impl; [|exact J1]. by intros ? <-.
  - intros c Hc. destruct (J3 c) as [? ?]; [by destruct r; simplify_eq/=|]. eauto.
Qed.

(** The command of an [exchange], if it got one. *)
Definition command_of (r : NodeResult (WakeCycleOutcome + Cmd)) : option Cmd :=
  match r with Ok (inr c) => Some c | _ => None end.

Lemma exchange_spec fv id nonce h bat blob s :
  wp (exchange fv id nonce h bat blob)
    (fun r s' => exists evs, trace s' = trace s ++ evs /\ wake_exchanged id nonce evs (command_of r)) s.
Proof using .
  unfold exchange, has_peer_payload, read_reg_complete, read_peer_payload, nvs_get, erase_peer_payload, write_reg_complete,
    clear_queue, log_and_sleep.
  apply wp_bind, wp_try. eapply wp_mono; [apply wake_exchange_spec|].
  intros r s1 (evs & Ht & Hx). pose proof Hx as (J1 & J2 & J3).
  assert (Hstop : forall (s' : Node E) (r : NodeResult (WakeCycleOutcome + Cmd)), trace s' = trace s1 ->
    (forall c, r <> Ok (inr c)) ->
    exists evs, trace s' = trace s ++ evs /\ wake_exchanged id nonce evs (command_of r)).
  { intros s' r' Hs' Hr. exists evs. rewrite Hs'. split; [done|]. split_and!; [done|done|].
    destruct r' as [[?|c]| | |]; try done. by destruct (Hr c). }
  destruct r as [cmd|x| |]; [| |by apply Hstop..].
  - apply wp_silent_bind; [by obeys_go| |]. 2: { intros r s' Hr Hs'. apply Hstop; [done|]. by intros c ->. }
    intros peer s2 Ht2 _. apply wp_silent_bind.
    + obeys_go. apply silent_nvs.
    + intros _ s3 Ht3 _. apply wp_silent_bind.
      * obeys_go. by apply silent_mod.
      * intros _ s4 Ht4 _. apply wp_ret. exists evs. split; [congruence|done].
      * intros r s' Hr Hs'. apply Hstop; [congruence|]. by intros c ->.
    + intros r s' Hr Hs'. apply Hstop; [congruence|]. by intros c ->.
  - eapply wp_mono; [eapply wp_and with (Q := fun r _ => forall c, r <> Ok (inr c)); [apply silent_wp|]|].
    + obeys_go. apply silent_nvs.
    + unfold wp, mbind, mtry, mget, mret. cbn. repeat case_match; simplify_eq; done.
    + intros r s' [[Ht' _] Hr]. by apply Hstop.
Qed.

(** Steps that send nothing. *)
Definition unsent : Logic (Node E) :=
  mkLogic (fun _ => True) (fun n n' => exists evs, trace n' = trace n ++ evs /\ sent_of evs = []) false true.

#[export] Instance unsent_order : PreOrder (rel unsent).
Proof using .
  split; [intros n; exists []; by rewrite app_nil_r|].
  intros n1 n2 n3 (l & J1 & J2) (l' & J3 & J4). exists (l ++ l'). by rewrite J3, J1, app_assoc, sent_of_app, J2, J4.
Qed.

Lemma silent_unsent {A} (m : M (Node E) A) : obeys silent m -> obeys unsent m.
Proof using .
  intros Hm n _. specialize (Hm n Logic.I). destruct (m n) as [[r n']|]; [|done]. destruct Hm as [[Ht _] _].
  split; [|by case_match]. exists []. by rewrite app_nil_r.
Qed.

Lemma unsent_recv t : obeys unsent (recv t).
Proof using .
  intros n _. unfold recv. destruct (t_recv _ _) as [[[f|]|?| |] ?]; simpl; (split; [|done]);
    [by exists [Received f] | exists []; by rewrite app_nil_r..].
Qed.

Lemma unsent_ack_loop fuel id nonce start : obeys unsent (ack_loop fuel id nonce start).
Proof using .
  induction fuel as [|k IH]; simpl; [by intros ? _|]. unfold write_reg_complete. obeys_go.
  all: first [apply unsent_recv | apply silent_unsent; first [apply silent_env | apply silent_nvs]].
Qed.

(** The registration exchange sends the stored frame, at most once. *)
Definition registered (payload : option (list Z)) (evs : list Event) : Prop :=
  sent_of evs = [] \/ exists f, payload = Some f /\ sent_of evs = [f].

(** What a run added to the trace. *)
Definition adds {A} (P : list Event -> Prop) (s : Node E) (_ : NodeResult A) (s' : Node E) : Prop :=
  exists evs, trace s' = trace s ++ evs /\ P evs.

Lemma wp_unsent {A} (m : M (Node E) A) (P : list Event -> Prop) s0 s evs0 :
  obeys unsent m -> trace s = trace s0 ++ evs0 -> (forall evs, sent_of evs = [] -> P (evs0 ++ evs)) -> wp m (adds P s0) s.
Proof using .
  intros Hm Ht HP. eapply wp_mono; [by apply (obeys_wp unsent)|]. intros r s' [(evs & Hs' & He) _].
  exists (evs0 ++ evs). rewrite Hs', Ht, app_assoc. split; [done|by apply HP].
Qed.

Lemma peer_request_spec fuel id f s : wp (peer_request_exchange fuel id f) (adds (registered (Some f)) s) s.
Proof using .
  assert (Hs : adds (registered (Some f)) s (Panic : NodeResult bool) s) by (exists []; rewrite app_nil_r; by split; [|left]).
  unfold peer_request_exchange. apply wp_bind, wp_lift.
  destruct (build_peer_request_frame f) as [f'|x| |] eqn:Hf; try exact Hs.
  assert (f' = f) as ->. { unfold build_peer_request_frame in Hf. destruct (decode_frame f); simpl in Hf; try done. by case_match; simplify_eq. }
  apply wp_bind, wp_lift. destruct (map_err _ _) as [d|x| |]; try exact Hs.
  apply wp_bind, wp_send; [|intros r e Hr; destruct r; [done|exact Hs..]].
  intros e. apply (wp_unsent _ _ _ _ [Sent f]); [|done|].
  - obeys_go; [apply silent_unsent, silent_env|apply unsent_ack_loop].
  - intros evs He. right. exists f. split; [done|]. simpl. by rewrite He.
Qed.

Lemma wp_read {A} (f : Nvs -> A) (Q : NodeResult A -> Node E -> Prop) s :
  Q (Ok (f (nvs s))) s -> wp (let! n := nvs_get in mret (f n)) Q s.
Proof using . done. Qed.

Lemma registration_spec fuel id s : wp (registration fuel id) (adds (registered (peer_payload (nvs s))) s) s.
Proof using .
  unfold registration. apply wp_bind, wp_read. destruct (reg_complete (nvs s)).
  { apply (wp_unsent _ _ _ _ []); [by obeys_go|by rewrite app_nil_r|by left]. }
  apply wp_bind, wp_read. destruct (peer_payload (nvs s)) as [f|].
  2: { apply (wp_unsent _ _ _ _ []); [by obeys_go|by rewrite app_nil_r|by left]. }
  apply wp_bind, wp_try. eapply wp_mono; [apply peer_request_spec|].
  intros r s1 (evs & Ht & Hr). assert (Htail : forall evs', sent_of evs' = [] -> registered (Some f) (evs ++ evs')).
  { intros evs' He. unfold registered. by rewrite sent_of_app, He, app_nil_r. }
  unfold log_and_sleep, erase_peer_payload. destruct r as [[]|x| |]; [..|by exists evs|by exists evs];
    (apply (wp_unsent _ _ _ _ evs); [obeys_go|done|done]); apply silent_unsent, silent_nvs.
Qed.

(** The radio traffic up to the COMMAND. *)
Definition before_ok (id : NodeIdentity) (payload : option (list Z)) (cmd : option Cmd) (evs : list Event) : Prop :=
  exists evs1 evs2 nonce, evs = evs1 ++ evs2 /\ registered payload evs1 /\ wake_exchanged id nonce evs2 cmd.

Lemma wake_exchanged_none id nonce evs cmd : wake_exchanged id nonce evs cmd -> wake_exchanged id nonce evs None.
Proof using . intros (? & ? & _). by split_and!. Qed.

Lemma before_ok_nil id payload : before_ok id payload None [].
Proof using . exists [], [], 0. split_and!; [done|by left|]. split_and!; [by exists []|simpl; lia|done]. Qed.

Lemma before_ok_registered id payload evs : registered payload evs -> before_ok id payload None evs.
Proof using .
  intros Hr. exists evs, [], 0. rewrite app_nil_r. split_and!; [done|done|]. split_and!; [by exists []|simpl; lia|done].
Qed.

Definition command_of' (r : NodeResult (WakeCycleOutcome + (list Z * option (list Z) * Cmd))) : option Cmd :=
  match r with Ok (inr (_, _, c)) => Some c | _ => None end.

Lemma silent_queue_op {A} (f : Layout -> Res unit (A * list AsyncQueue.Write)) : obeys silent (queue_op f).
Proof using . intros n _. unfold queue_op. by destruct (f (queue n)) as [[? ?]| | |]. Qed.

Lemma contact_gateway_spec fv fuel id s :
  wp (contact_gateway fv fuel id)
    (fun r s' => exists evs, trace s' = trace s ++ evs /\ before_ok id (peer_payload (nvs s)) (command_of' r) evs) s.
Proof using .
  unfold contact_gateway. apply wp_bind. eapply wp_mono; [apply registration_spec|]. intros reg s1 (evs1 & Ht1 & Hr1).
  pose proof (before_ok_registered id _ _ Hr1) as Hstop.
  destruct reg as [[o|_]|x| |]; try by exists evs1.
  assert (Hfail : forall (r : NodeResult (WakeCycleOutcome + (list Z * option (list Z) * Cmd))) (s' : Node E), is_ok r = false ->
    trace s' = trace s1 -> exists evs, trace s' = trace s ++ evs /\ before_ok id (peer_payload (nvs s)) (command_of' r) evs).
  { intros r s' Hr Ht. exists evs1. rewrite Ht. split; [done|]. by destruct r. }
  apply wp_silent_bind.
  { unfold load_active_raw, read_schedule, read_program, nvs_get. by obeys_go. }
  2: { intros r s' Hr Ht. by apply Hfail. }
  intros [h res] s2 Ht2 _. apply wp_silent_bind; [apply silent_env| |intros; apply Hfail; congruence].
  intros nonce s3 Ht3 _. apply wp_silent_bind; [unfold read_last_battery_mv, nvs_get; by obeys_go| |intros; apply Hfail; congruence].
  intros bat s4 Ht4 _. apply wp_silent_bind; [unfold wake_blob; obeys_go; apply silent_queue_op| |intros; apply Hfail; congruence].
  intros blob s5 Ht5 _. apply wp_bind. eapply wp_mono; [apply exchange_spec|]. intros r s6 (evs2 & Ht6 & Hx).
  assert (Ht : trace s6 = trace s ++ (evs1 ++ evs2)) by (rewrite Ht6, Ht5, Ht4, Ht3, Ht2, Ht1; by rewrite app_assoc).
  destruct r as [[o|cmd]|x| |]; exists (evs1 ++ evs2); (split; [done|]); by exists evs1, evs2, nonce.
Qed.

Lemma before_command_spec fv fuel id s :
  wp (before_command fv fuel id)
    (fun r s' => exists evs, trace s' = trace s ++ evs /\ before_ok id (peer_payload (nvs s)) (command_of' r) evs) s.
Proof using .
  unfold before_command. apply wp_bind, wp_env_op. intros healthy e. destruct (negb healthy).
  { exists []. rewrite app_nil_r. split; [done|apply before_ok_nil]. }
  apply (contact_gateway_spec fv fuel id (with_sleep (with_nvs (with_env s e) (nvs_early (nvs s) false))
    (sleep_new (interval (nvs s)) (if early_wake (nvs s) then Early else Scheduled)))).
Qed.
End Exchange.

(** ** The cycle *)

Section Cycle.
Context {Value : Type} `{C : Cbor Value}.
Context `{Sha256Provider, AeadProvider}.
Context {E : Type} `{Env E}.
Context {I : Type} `{BpfInterpreter I}.
Context (W : Z) (oc : bool) (base : Z) (blob_addr : list Z -> Z).
Context (firmware_version : list Z) (board : BoardLayout).
Abbreviation cycle := (run_wake_cycle W oc base blob_addr firmware_version board).

(** The cycle of a paired node: it stops before the COMMAND, or goes on from it. *)
Lemma cycle_paired (Q : NodeResult (WakeCycleOutcome * I) -> Node E -> Prop) fuel i n id :
  key (nvs n) = Some (id_key_hint id, psk id) ->
  wp (before_command firmware_version fuel id) (fun r n' =>
    match r with
    | Ok (inl o) => Q (Ok (o, i)) n'
    | Ok (inr (h, res, cmd)) => wp (after_command W oc base blob_addr board fuel id h res cmd i) Q n'
    | _ => Q (fails r) n'
    end) n ->
  wp (cycle fuel i) Q n.
Proof using .
  intros Hk Hw. unfold run_wake_cycle. apply wp_bind, wp_bind, wp_get, wp_ret. rewrite Hk.
  destruct id as [hint k]. apply wp_bind. eapply wp_mono; [exact Hw|].
  intros r n' Hr. by destruct r as [[o|[[h res] cmd]]|x| |].
Qed.

(** [raw] is a frame of this type and nonce that was sealed under [key]: its
    ciphertext opens under [key], with the nonce the header determines and the header
    as associated data, to [cbor]. *)
Definition sealed_frame (key raw : list Z) (msg_type nonce : Z) (cbor : list Z) : Prop :=
  exists f, decode_frame raw = Ok f /\ h_msg_type (header f) = msg_type /\ h_nonce (header f) = nonce /\
    open key (take 3 (hash key) ++ [msg_type] ++ to_be_bytes 8 nonce) (header_to_bytes (header f)) (ciphertext_and_tag f) = Some cbor.

(** A COMMAND received during the events [evs]: a frame sealed under the node's key
    that carries the nonce of a WAKE the node sent, and this content. *)
Definition accepted (id : NodeIdentity) (evs : list Event) (cmd : Cmd) : Prop :=
  let '(seq, ts, payload, blob) := cmd in
  exists raw nonce cbor wake wake_cbor, Received raw ∈ evs /\ sealed_frame (psk id) raw MSG_COMMAND nonce cbor /\
    gateway_decode MSG_COMMAND cbor = Ok (Command seq ts payload blob) /\
    Sent wake ∈ evs /\ encode_frame (wake_header id nonce) wake_cbor (psk id) = Ok wake.

(** What verification establishes.  A command the node does not know is taken as NOP. *)
Lemma verified_command raw id nonce seq ts payload blob :
  verify_and_decode_command raw id nonce = Ok (seq, ts, payload, blob) -> payload <> Nop ->
  exists cbor, sealed_frame (psk id) raw MSG_COMMAND nonce cbor /\ gateway_decode MSG_COMMAND cbor = Ok (Command seq ts payload blob).
Proof using .
  unfold verify_and_decode_command, decode_verify_frame. intros ([h cbor] & Hf & HK)%res_bind_Ok Hp.
  apply res_bind_Ok in Hf as (f & Hf%map_err_Ok & HJ). apply res_bind_Ok in HJ as (c & Ho%map_err_Ok & HJ). injection HJ as <- <-.
  destruct (Z.eqb_spec (h_msg_type (header f)) MSG_COMMAND) as [Ht|]; [|done]. destruct (Z.eqb_spec (h_nonce (header f)) nonce) as [Hn|]; [|done].
  cbn [negb] in HK. rewrite Ht in HK. exists c. split.
  - exists f. split_and!; try done. unfold open_frame in Ho. apply ok_or_Ok in Ho. by rewrite Ht, Hn in Ho.
  - destruct (gateway_decode MSG_COMMAND c) as [g|e| |]; [|destruct e; try done|done|done].
    + destruct g; try done. by injection HK as -> -> -> ->.
    + unfold decode_command_as_nop in HK. apply res_bind_Ok in HK as (v & _ & HK). apply res_bind_Ok in HK as (fs & _ & HK).
      destruct (fold_left nop_field fs (None, None)) as [q0 t0]. apply res_bind_Ok in HK as (q & _ & HK). apply res_bind_Ok in HK as (u & _ & HK). by injection HK as -> -> <- <-.
Qed.

Lemma before_ok_accepted id payload0 seq ts payload blob evs :
  before_ok id payload0 (Some (seq, ts, payload, blob)) evs -> payload <> Nop -> accepted id evs (seq, ts, payload, blob).
Proof using .
  intros (evs1 & evs2 & nonce & -> & _ & (wcbor & Hs) & _ & Hc) Hp.
  destruct (Hc _ eq_refl) as ((wake & Hw) & raw & Hr & Hv). destruct (verified_command _ _ _ _ _ _ _ Hv Hp) as (cbor & Hsf & Hg).
  exists raw, nonce, cbor, wake, wcbor. rewrite !elem_of_app. split_and!; [by right|done|done|by right|].
  apply sent_of_elem in Hw. by apply (proj1 (list.Forall_forall _ _) Hs).
Qed.

Lemma accepted_app id evs evs' cmd : accepted id evs cmd -> accepted id (evs ++ evs') cmd.
Proof using .
  destruct cmd as [[[seq ts] payload] blob]. intros (raw & nonce & cbor & wake & wcbor & ? & ? & ? & ? & ?). exists raw, nonce, cbor, wake, wcbor.
  rewrite !elem_of_app. by split_and!; [left| | |left|].
Qed.

Lemma cycle_program fuel i n id :
  key (nvs n) = Some (id_key_hint id, psk id) -> partitions_ok (nvs n) ->
  wp (cycle fuel i) (fun _ n' => key (nvs n') = key (nvs n) /\
    (active_image (nvs n') = active_image (nvs n) \/
     exists evs w seq ts size csize count blob, trace n' = trace n ++ evs /\
       accepted id evs (seq, ts, UpdateProgram (hash w) size csize count, blob) /\ active_image (nvs n') = Some w)) n.
Proof using .
  intros Hk Hp. apply (cycle_paired _ _ _ _ id); [done|]. eapply wp_mono.
  { apply wp_and; [apply before_command_spec|by apply (obeys_wp (program_logic (fun _ => False))); [|apply program_before|]]. }
  intros r n1 [(evs & Ht & Hb) [(K1 & _ & [A1|(w & _ & [])]) Hp1]].
  destruct r as [[o|[[h res] [[[seq ts] payload] blob]]]|x| |]; [auto| |auto..]. specialize (Hp1 eq_refl).
  destruct (r_after_command W oc base blob_addr board fuel id (program_logic (ordered_hash payload)) (fun _ _ => True)
      (ordered_hash payload) h res seq ts payload blob i (fun _ x => x)) as (k & -> & Hobeys).
    apply wp_bind, wp_mod. eapply wp_mono; [by apply (obeys_wp (program_logic (ordered_hash payload)))|].
    intros r n' [(K2 & [evs' T2] & A2) _]. simpl in *. split; [congruence|].
    destruct A2 as [A2|(w & Hw & size & csize & count & Hpl)]; [left; congruence|]. right.
    exists (evs ++ evs'), w, seq, ts, size, csize, count, blob. rewrite T2, Ht, app_assoc. split_and!; [done| |done].
    apply (accepted_app id evs evs' (seq, ts, UpdateProgram (hash w) size csize count, blob)). rewrite <- Hpl. eapply before_ok_accepted; [done|]. by rewrite Hpl.
Qed.

(** C6: whatever the radio delivers and whichever flash writes fail, a wake cycle
    leaves the node's key alone and leaves active the program that was active, or
    one whose hash an UPDATE_PROGRAM command ordered: the content of a frame received in
    this cycle that is sealed under the node's key (its AES-GCM ciphertext opens with
    the header as associated data) and carries the nonce of a WAKE the node sent in the
    cycle.  This holds also when the cycle is cut off by a panic. *)
Theorem wake_cycle_program_authentic fuel i n r n' :
  partitions_ok (nvs n) -> cycle fuel i n = Some (r, n') ->
  key (nvs n') = key (nvs n) /\
  (active_image (nvs n') = active_image (nvs n) \/
   exists hint k evs w seq ts size csize count blob,
     key (nvs n) = Some (hint, k) /\ trace n' = trace n ++ evs /\
     accepted (mkIdentity hint k) evs (seq, ts, UpdateProgram (hash w) size csize count, blob) /\
     active_image (nvs n') = Some w).
Proof using .
  intros Hp Hr. destruct (key (nvs n)) as [[hint k]|] eqn:Hk.
  - destruct (wp_elim _ _ _ _ _ (cycle_program fuel i n (mkIdentity hint k) Hk Hp) Hr) as [HK [Hs|Hs]].
    + split; [congruence|by left].
    + destruct Hs as (evs & w & seq & ts & size & csize & count & blob & J). split; [congruence|]. right.
      by exists hint, k, evs, w, seq, ts, size, csize, count, blob.
  - unfold run_wake_cycle, mbind, nvs_get, mget, mret in Hr. simpl in Hr. rewrite Hk in Hr. simplify_eq. auto.
Qed.
End Cycle.
