(* ===== verification/WakeSeq.v ===== *)
(** * Sequence numbers of a wake cycle

    The frames a node sends after the COMMAND carry consecutive sequence numbers,
    starting at the one the COMMAND assigned, whatever the program does and
    whatever the radio delivers; and a gateway session takes exactly that
    sequence.  Together with the WAKE's nonce this is what keeps AEAD nonces from
    repeating within a cycle. *)

From Stdlib Require Import String.
From S2P Require Import Prelude Session.
From S2P Require Import Frame Messages BoardLayout ProgramImage MapStorage AsyncQueue NodeM NodeState NodeRadio NodeStore.
From S2P Require Import BpfDispatch WakeCycle NodeLogic WakeProofs.
Open Scope list_scope.
Open Scope Z_scope.

Definition next_seq (q : Z) : Z := wrap 64 (q + 1).

Fixpoint seqs (q : Z) (n : nat) : list Z :=
  match n with
  | O => []
  | S n' => q :: seqs (next_seq q) n'
  end.

Definition seq_after (q : Z) (n : nat) : Z := Nat.iter n next_seq q.

Lemma seq_after_S q n : seq_after q (S n) = seq_after (next_seq q) n.
Proof. unfold seq_after. by rewrite Nat.iter_succ_r. Qed.

Lemma seqs_app q a b : seqs q (a + b) = seqs q a ++ seqs (seq_after q a) b.
Proof.
  revert q. induction a as [|a IH]; intros q; [done|]. rewrite seq_after_S. simpl. by rewrite IH.
Qed.

Lemma seq_after_add q a b : seq_after q (a + b) = seq_after (seq_after q a) b.
Proof. revert q. induction a as [|a IH]; intros q; [done|]. simpl plus. by rewrite !seq_after_S, IH. Qed.

Lemma arith_u_wrap {E} oc w x y : 0 <= w -> arith_u (E := E) oc w x = Ok y -> y = wrap w x.
Proof.
  intros Hw. unfold arith_u. destruct (_ && _) eqn:Hx.
  - intros [= <-]. rewrite wrap_small; [done|]. unfold uN. lia.
  - by destruct oc; intros [= <-].
Qed.

Section Seq.
Context {Value : Type} `{C : Cbor Value}.
Context `{Sha256Provider, AeadProvider}.
Context {E : Type} `{Env E}.
Context {I : Type} `{BpfInterpreter I}.
Context (W : Z) (oc : bool) (id : NodeIdentity).

(** [f] is a frame of this node under the sequence number [q]. *)
Definition sealed (q : Z) (f : list Z) : Prop :=
  exists t cbor, encode_frame (mkHeader (id_key_hint id) t q) cbor (psk id) = Ok f.

Definition sent_seq (q : Z) (fs : list (list Z)) : Prop := Forall2 sealed (seqs q (length fs)) fs.

Definition seq_rel (n n' : Node E) : Prop :=
  exists evs, trace n' = trace n ++ evs /\ sent_seq (current_seq n) (sent_of evs) /\
    current_seq n' = seq_after (current_seq n) (length (sent_of evs)).

(** A panic of the counter may leave a frame sent and the counter behind. *)
Definition seq_logic : Logic (Node E) := mkLogic (fun _ => True) seq_rel false false.

#[export] Instance seq_rel_order : PreOrder seq_rel.
Proof using .
  split; [intros n; exists []; rewrite app_nil_r; split_and!; [done|constructor|done]|].
  intros n1 n2 n3 (l & T1 & S1 & C1) (l' & T2 & S2 & C2). exists (l ++ l').
  unfold sent_seq in *. rewrite sent_of_app, length_app, seqs_app, seq_after_add, <- C1, T2, T1, app_assoc.
  split_and!; [done|by apply Forall2_app|done].
Qed.

Lemma seq_unsent (n n' : Node E) evs :
  trace n' = trace n ++ evs -> sent_of evs = [] -> current_seq n' = current_seq n -> seq_rel n n'.
Proof using . intros Ht He Hc. exists evs. rewrite He. split_and!; [done|constructor|done]. Qed.

Lemma seq_same {A} (m : M (Node E) A) :
  (forall n, match m n with Some (_, n') => trace n' = trace n /\ current_seq n' = current_seq n | None => True end) ->
  obeys seq_logic m.
Proof using .
  intros Hm n _. specialize (Hm n). destruct (m n) as [[r n']|]; [|done]. destruct Hm as [Ht Hc].
  split; [|by case_match]. case_match; [|done]. apply (seq_unsent n n' []); [by rewrite app_nil_r|done|done].
Qed.

Lemma seq_recv t : obeys seq_logic (recv t).
Proof using .
  intros n _. unfold recv. destruct (t_recv _ _) as [[[f|]|?| |] ?]; simpl; split; try done.
  - by apply (seq_unsent _ _ [Received f]).
  - apply (seq_unsent _ _ []); [by rewrite app_nil_r|done|done].
  - apply (seq_unsent _ _ []); [by rewrite app_nil_r|done|done].
Qed.

Lemma seq_env {A} (f : E -> A * E) : obeys seq_logic (env_op f).
Proof using . apply seq_same. intros n. unfold env_op. by destruct (f _). Qed.

Lemma seq_nvs f : obeys seq_logic (nvs_write f).
Proof using . apply seq_same. intros n. unfold nvs_write. by destruct (flash_fault _) as [[x|] e]. Qed.

Lemma seq_sealed t cbor : obeys seq_logic (send_sealed oc id t cbor).
Proof using .
  intros n _. unfold send_sealed, advance_seq, mbind, lift, mget, send, mmod.
  destruct (encode_frame _ _ _) as [f|x| |] eqn:Hf; cbn.
  2-4: by split; try reflexivity.
  destruct (t_send (env n) f) as [[u|x| |] e]; cbn; try by split.
  2: { split; [|done]. apply (seq_unsent _ _ []); [by rewrite app_nil_r|done|done]. }
  destruct (arith_u oc 64 _) as [q|x| |] eqn:Hq; cbn; try by split. 2: by (unfold arith_u in Hq; repeat case_match; done).
  apply arith_u_wrap in Hq as ->; [|lia]. split; [|done]. exists [Sent f].
  split_and!; [done| |done]. constructor; [|constructor]. by eexists _, _.
Qed.

#[export] Instance seq_respects fuel : Respects (I := I) W oc fuel id seq_logic (fun _ _ => True) (fun _ => True).
Proof using .
  split; try exact _; try done.
  - intros. apply seq_env.
  - intros. apply seq_nvs.
  - intros A m Hm. apply seq_same. intros n. by destruct (Hm n) as (r & n' & -> & _ & _ & -> & -> & _).
  - apply seq_sealed.
  - intros. apply obeys_reply_loop; [exact _|done|apply seq_env|apply seq_recv].
  - intros. apply obeys_chunk_loop; [exact _|done|apply seq_env|apply seq_recv].
  - intros image h budget _. unfold install_resident, read_schedule, read_program, nvs_get, write_active_partition. obeys_go.
    + apply seq_same. intros n. unfold write_program. by destruct (program_fault _ _) as [[? ?] ?].
    + apply seq_nvs.
  - intros s. unfold update_schedule, write_schedule_interval. obeys_go; [apply seq_nvs|by apply seq_same].
Qed.

Context (base : Z) (blob_addr : list Z -> Z) (firmware_version : list Z) (board : BoardLayout).

(** The frames of a cycle: at most one registration request, WAKE up to four times
    under one nonce, and after an accepted COMMAND frames under consecutive
    sequence numbers from the one it assigned. *)
Definition cycle_frames (payload : option (list Z)) (received : list Event) (frames : list (list Z)) : Prop :=
  exists reg wakes posts nonce cbor, frames = reg ++ wakes ++ posts /\
    (reg = [] \/ exists f, payload = Some f /\ reg = [f]) /\
    Forall (fun f => encode_frame (wake_header id nonce) cbor (psk id) = Ok f) wakes /\ (length wakes <= 4)%nat /\
    (posts = [] \/ exists raw seq ts p blob, Received raw ∈ received /\
       verify_and_decode_command raw id nonce = Ok (seq, ts, p, blob) /\ sent_seq seq posts).

(** C38: every frame a wake cycle puts on the air is accounted for: at most one
    registration request, then one WAKE frame transmitted at most four times, then
    frames sealed under consecutive sequence numbers starting with the number the
    accepted COMMAND assigned.  The COMMAND answers that WAKE.  This holds for
    every program, also one that sends through helpers, and for every behaviour of
    the radio. *)
Theorem wake_cycle_frames fuel i n x n' :
  key (nvs n) = Some (id_key_hint id, psk id) ->
  run_wake_cycle W oc base blob_addr firmware_version board fuel i n = Some (Ok x, n') ->
  exists frames, sent_of (trace n') = sent_of (trace n) ++ frames /\
    cycle_frames (peer_payload (nvs n)) (trace n') frames.
Proof using .
  intros Hk Hr. enough (Hw : wp (run_wake_cycle W oc base blob_addr firmware_version board fuel i)
    (fun r n' => forall x, r = Ok x -> exists frames, sent_of (trace n') = sent_of (trace n) ++ frames /\
      cycle_frames (peer_payload (nvs n)) (trace n') frames) n).
  { by apply (wp_elim _ _ _ _ _ Hw Hr x). }
  apply (cycle_paired _ _ _ _ _ _ _ _ _ _ id); [done|]. eapply wp_mono; [apply before_command_spec|].
  intros r n1 (evs & Ht & evs1 & evs2 & nonce & -> & Hreg & (cbor & Hwake) & Hlen & Hcmd).
  destruct r as [[o|[[h res] [[[seq ts] payload] blob]]]|y| |]; try by (intros ? [=]).
  - intros y _. exists (sent_of evs1 ++ sent_of evs2). rewrite Ht, !sent_of_app. split; [done|].
    exists (sent_of evs1), (sent_of evs2), [], nonce, cbor. rewrite app_nil_r. by split_and!; [| | | |left].
  - destruct (Hcmd _ eq_refl) as (_ & raw & Hraw & Hv).
    destruct (r_after_command W oc base blob_addr board fuel id seq_logic (fun _ _ => True) (fun _ => True)
      h res seq ts payload blob i (fun _ _ => Logic.I)) as (k & -> & Hobeys).
    apply wp_bind, wp_mod. specialize (Hobeys (with_seq n1 seq) Logic.I). unfold wp.
    destruct (k _) as [[r n2]|]; [|done]. intros y ->. destruct Hobeys as [(evs3 & Ht3 & Hs & _) _]. simpl in *.
    exists (sent_of evs1 ++ sent_of evs2 ++ sent_of evs3). rewrite Ht3, Ht, !sent_of_app, !app_assoc. split; [done|].
    exists (sent_of evs1), (sent_of evs2), (sent_of evs3), nonce, cbor. rewrite !app_assoc. split_and!; try done.
    right. exists raw, seq, ts, payload, blob. split_and!; [|done|done]. rewrite !elem_of_app. auto.
Qed.
End Seq.

(** ** The gateway's side *)

(** The session's answers to a list of sequence numbers received in this order. *)
Fixpoint feed (oc : bool) (m : SessionManager) (now : Z) (nid : string) (qs : list Z) :
    SessionManager * list (Res SessionError unit) :=
  match qs with
  | [] => (m, [])
  | q :: qs' =>
      let '(m1, r) := verify_and_advance_seq oc m now nid q in
      let '(m2, rs) := feed oc m1 now nid qs' in (m2, r :: rs)
  end.

(** A session that expects [q]. *)
Definition expects (m : SessionManager) (now : Z) (nid : string) (q : Z) : Prop :=
  exists s, sessions m !! nid = Some s /\ is_expired m now s = false /\ next_expected_seq s = q.

Lemma verify_next oc m now nid q :
  expects m now nid q -> uN 64 q -> (oc = true -> q + 1 < 2 ^ 64) ->
  exists m', verify_and_advance_seq oc m now nid q = (m', Ok tt) /\ expects m' now nid (next_seq q).
Proof.
  intros (s & Hs & Hx & <-) Hq Hoc. unfold verify_and_advance_seq. rewrite Hs, Hx, Z.eqb_refl. cbn.
  assert (Ha : arith_u (E := SessionError) oc 64 (next_expected_seq s + 1) = Ok (next_seq (next_expected_seq s))).
  { destruct (decide (next_expected_seq s + 1 < 2 ^ 64)); unfold uN in Hq.
    - unfold next_seq. rewrite wrap_small by (unfold uN; lia). apply arith_u_in_range. lia.
    - unfold arith_u. destruct oc; [by destruct n; apply Hoc|]. rewrite (proj2 (Z.ltb_ge _ _)) by lia. by rewrite andb_false_r. }
  rewrite Ha. eexists. split; [done|]. exists (Session.with_seq s (next_seq (next_expected_seq s))).
  split_and!; [|done|done]. cbn. by rewrite lookup_insert_eq.
Qed.

Lemma verify_other oc m now nid q x :
  expects m now nid q -> x <> q -> verify_and_advance_seq oc m now nid x = (m, Err (SequenceMismatch q x)).
Proof.
  intros (s & Hs & Hx & <-) Hne. unfold verify_and_advance_seq. rewrite Hs, Hx.
  by rewrite (proj2 (Z.eqb_neq _ _) Hne).
Qed.

Lemma feed_rejects oc m now nid q qs :
  expects m now nid q -> q ∉ qs ->
  feed oc m now nid qs = (m, (fun x => Err (SequenceMismatch q x)) <$> qs).
Proof.
  intros He. induction qs as [|x qs IH]; intros Hni; [done|]. apply not_elem_of_cons in Hni as [Hx Hq]. simpl.
  rewrite (verify_other oc m now nid q x He) by done. by rewrite IH.
Qed.

Lemma next_seq_range q : uN 64 (next_seq q).
Proof. apply wrap_range. lia. Qed.

Lemma seq_after_spec q n : uN 64 q -> seq_after q n = wrap 64 (q + Z.of_nat n).
Proof.
  intros Hq. induction n as [|n IH]; [unfold seq_after; simpl; rewrite wrap_small; [lia|by rewrite Z.add_0_r]|].
  change (seq_after q (S n)) with (next_seq (seq_after q n)). unfold next_seq. rewrite IH, wrap_add_l by lia. f_equal. lia.
Qed.

Lemma seqs_elem q n x : x ∈ seqs q n -> exists j, (j < n)%nat /\ x = seq_after q j.
Proof.
  revert q. induction n as [|n IH]; intros q; simpl; [by intros ?%elem_of_nil|].
  intros [->|Hx]%elem_of_cons; [by exists 0%nat; split; [lia|]|].
  destruct (IH _ Hx) as (j & Hj & ->). exists (S j). split; [lia|by rewrite seq_after_S].
Qed.

Lemma seqs_fresh q k : uN 64 q -> Z.of_nat k < 2 ^ 64 -> q ∉ seqs (next_seq q) k.
Proof.
  intros Hq Hk (j & Hj & Hx)%seqs_elem. rewrite <- seq_after_S in Hx.
  rewrite seq_after_spec in Hx by done. rewrite <- (wrap_small 64 q) in Hx at 1 by done.
  apply wrap_inj in Hx; lia.
Qed.

Lemma feed_app oc m now nid l l' :
  feed oc m now nid (l ++ l') =
  let '(m1, rs) := feed oc m now nid l in let '(m2, rs') := feed oc m1 now nid l' in (m2, rs ++ rs').
Proof.
  revert m. induction l as [|q l IH]; intros m; simpl; [by destruct (feed _ _ _ _ l')|].
  destruct (verify_and_advance_seq _ _ _ _ _) as [m1 r]. rewrite IH.
  destruct (feed _ m1 _ _ l) as [m2 rs]. by destruct (feed _ m2 _ _ l') as [m3 rs'].
Qed.

Lemma feed_accepts oc m now nid q n :
  expects m now nid q -> uN 64 q -> (oc = true -> q + Z.of_nat n < 2 ^ 64) ->
  exists m', feed oc m now nid (seqs q n) = (m', replicate n (Ok tt)) /\ expects m' now nid (seq_after q n).
Proof.
  revert m q. induction n as [|n IH]; intros m q He Hq Hoc; [by exists m|].
  destruct (verify_next oc m now nid q He Hq) as (m1 & Hv & He1); [intros Ho; specialize (Hoc Ho); lia|].
  destruct (IH m1 (next_seq q) He1 (next_seq_range q)) as (m2 & Hf & He2).
  { intros Ho. specialize (Hoc Ho). unfold uN in Hq. unfold next_seq. rewrite wrap_small by (unfold uN; lia). lia. }
  exists m2. rewrite seq_after_S. simpl. by rewrite Hv, Hf.
Qed.

(** A gateway session that expects a number accepts the frames a node sends
    from that number on, in order and without a gap; once a frame is lost, the
    session rejects every later frame of the cycle.  The retry of a lost GET_CHUNK
    is such a later frame: the node seals it under the next number. *)
Lemma session_takes_cycle oc m now nid q sent_before sent_after_loss :
  expects m now nid q -> uN 64 q -> (oc = true -> q + Z.of_nat sent_before < 2 ^ 64) ->
  Z.of_nat sent_after_loss < 2 ^ 64 ->
  let lost := seq_after q sent_before in
  let later := seqs (next_seq lost) sent_after_loss in
  exists m', feed oc m now nid (seqs q sent_before ++ later) =
    (m', replicate sent_before (Ok tt) ++ ((fun x => Err (SequenceMismatch lost x)) <$> later)) /\
    expects m' now nid lost.
Proof.
  intros He Hq Hoc Hk lost later. destruct (feed_accepts oc m now nid q sent_before He Hq Hoc) as (m1 & Hf & He1).
  exists m1. rewrite feed_app, Hf. rewrite (feed_rejects oc m1 now nid lost later); [done|done|].
  apply seqs_fresh; [|done]. unfold lost. rewrite seq_after_spec by done. apply wrap_range. lia.
Qed.
