(* ===== verification/WakeEnd.v ===== *)
(** * Every wake cycle ends in a bounded sleep

    The loops that listen to the radio are cut by fuel in the model.  If only
    finitely many frames arrive and time passes ([EnvLaws]), fuel beyond the
    number of frames that may arrive plus the length of the registration window is
    enough: the cycle returns, and the sleep it asks for is at least a second and
    at most the stored interval.  A program can bring its next wake-up forward, not put
    it off, and no error leaves the cycle: what its steps report is handled inside, as
    the type of [run_wake_cycle] says.  Nor does a panic in a build without overflow
    checks, unless it happens while the program runs ([cycle_cut]). *)

From Stdlib Require Import String.
From S2P Require Import Prelude Frame Messages BoardLayout ProgramImage MapStorage AsyncQueue NodeM NodeState NodeRadio NodeStore.
From S2P Require Import BpfDispatch WakeCycle NodeLogic WakeProofs.
Open Scope list_scope.
Open Scope Z_scope.

Section End_.
Context {Value : Type} `{C : Cbor Value}.
Context `{Sha256Provider, AeadProvider}.
Context {E : Type} `{HE : Env E} `{HL : !EnvLaws E}.

(** ** The end of the loops *)

Abbreviation after := (later pending now).

#[export] Instance later_order : PreOrder after.
Proof using . split; [by intros e; split|]. intros e1 e2 e3 [? ?] [? ?]. split; lia. Qed.

(** With more fuel than frames to come, a computation ends and time went on. *)
Definition ends (bound : nat) : Logic (Node E) :=
  mkLogic (fun n => pending (env n) < bound)%nat (fun n n' => after (env n) (env n')) true true.

#[export] Instance ends_order fuel : PreOrder (rel (ends fuel)).
Proof using . split; [intros n; simpl; reflexivity|]. intros n1 n2 n3 J1 J2. simpl in *. by etrans. Qed.

Lemma ends_step {A} fuel (m : M (Node E) A) :
  (forall n, exists r n', m n = Some (r, n') /\ after (env n) (env n')) -> obeys (ends fuel) m.
Proof using .
  intros Hm n Hn. destruct (Hm n) as (r & n' & -> & Ha). simpl in *. split; [done|]. destruct Ha. case_match; [lia|done].
Qed.

Lemma ends_env {A} fuel (f : E -> A * E) : (forall e, after e (f e).2) -> obeys (ends fuel) (env_op f).
Proof using .
  intros Hf. apply ends_step. intros n. unfold env_op. specialize (Hf (env n)). destruct (f _). by eexists _, _.
Qed.

Lemma ends_nvs fuel f : obeys (ends fuel) (nvs_write f).
Proof using .
  apply ends_step. intros n. unfold nvs_write. pose proof (flash_rel (R := after) (env n)) as Hf.
  destruct (flash_fault (env n)) as [[x|] e]; by eexists _, _.
Qed.

Lemma ends_send fuel f : obeys (ends fuel) (send f).
Proof using .
  apply ends_step. intros n. unfold send. pose proof (send_rel (R := after) (env n) f) as Hf.
  destruct (t_send (env n) f) as [[u|x| |] e]; by eexists _, _.
Qed.

Lemma ends_recv fuel t : obeys (ends fuel) (recv t).
Proof using .
  apply ends_step. intros n. unfold recv. pose proof (recv_rel (R := after) (env n) t) as Hf.
  destruct (t_recv (env n) t) as [[[u|]|x| |] e]; by eexists _, _.
Qed.

Lemma ends_same {A} fuel (m : M (Node E) A) :
  (forall n, exists r n', m n = Some (r, n') /\ env n' = env n) -> obeys (ends fuel) m.
Proof using .
  intros Hm. apply ends_step. intros n. destruct (Hm n) as (r & n' & ? & Hn). exists r, n'. split; [done|]. by rewrite Hn.
Qed.

Lemma elapsed_ends n : exists t e, elapsed (env n) = (t, e) /\ t = now e /\ after (env n) e.
Proof using .
  pose proof (elapsed_rel (R := after) (env n)). pose proof (elapsed_now (env n)).
  destruct (elapsed (env n)) as [t e]. by exists t, e.
Qed.

(** What a receive does to the clock and to the frames to come. *)
Lemma recv_ends (n : Node E) t :
  exists r e, t_recv (env n) t = (r, e) /\ after (env n) e /\
    (forall f, r = Ok (Some f) -> pending e < pending (env n))%nat /\ (r = Ok None -> now (env n) + t <= now e).
Proof using .
  pose proof (recv_rel (R := after) (env n) t) as J1. pose proof (recv_pending (env n) t) as J2.
  pose proof (recv_timeout (env n) t) as J3. destruct (t_recv (env n) t) as [r e]. by exists r, e.
Qed.

Lemma reply_loop_ends fuel id seq deadline n :
  (pending (env n) < fuel)%nat -> exists r n', reply_loop fuel id seq deadline n = Some (r, n') /\ after (env n) (env n').
Proof using .
  revert n. induction fuel as [|fuel IH]; intros n Hp; [lia|]. cbn [reply_loop].
  unfold mbind at 1, elapsed_ms, env_op. destruct (elapsed_ends n) as (t & e1 & -> & -> & A1). cbn beta iota.
  case_match; [by eexists _, _|]. unfold mbind at 1, recv.
  destruct (recv_ends (with_env n e1) (as_u32 (deadline - now e1))) as (r & e2 & -> & A2 & D2 & _). cbn in A2, D2.
  assert (A12 : after (env n) e2) by by etrans.
  destruct r as [[raw|]|x| |]; try by eexists _, _.
  unfold mbind, lift. destruct (app_data_reply raw id seq) as [[blob|]|x| |]; try by eexists _, _.
  destruct (IH (with_radio (with_env n e1) e2 (Received raw))) as (r & n' & -> & A3); cbn.
  - specialize (D2 raw eq_refl). destruct A1. lia.
  - exists r, n'. split; [done|]. cbn in A3. by etrans.
Qed.

Lemma chunk_loop_ends fuel id seq index deadline n :
  (pending (env n) < fuel)%nat -> exists r n', chunk_loop fuel id seq index deadline n = Some (r, n') /\ after (env n) (env n').
Proof using .
  revert n. induction fuel as [|fuel IH]; intros n Hp; [lia|]. cbn [chunk_loop].
  unfold mbind at 1, elapsed_ms, env_op. destruct (elapsed_ends n) as (t & e1 & -> & -> & A1). cbn beta iota.
  case_match; [by eexists _, _|]. unfold mbind at 1, recv.
  destruct (recv_ends (with_env n e1) (as_u32 (deadline - now e1))) as (r & e2 & -> & A2 & D2 & _). cbn in A2, D2.
  assert (A12 : after (env n) e2) by by etrans.
  destruct r as [[raw|]|x| |]; try by eexists _, _.
  destruct (verify_and_decode_chunk raw id seq index) as [d|x| |]; try by eexists _, _.
  destruct x; try by eexists _, _.
  destruct (IH (with_radio (with_env n e1) e2 (Received raw))) as (r & n' & -> & A3); cbn.
  - specialize (D2 raw eq_refl). destruct A1. lia.
  - exists r, n'. split; [done|]. cbn in A3. by etrans.
Qed.

(** The registration window: each round uses up a frame or at least a millisecond. *)
Lemma ack_loop_ends fuel id nonce start n :
  (pending (env n) + Z.to_nat (start + PEER_ACK_TIMEOUT_MS - now (env n)) < fuel)%nat ->
  exists r n', ack_loop fuel id nonce start n = Some (r, n') /\ after (env n) (env n').
Proof using .
  revert n. induction fuel as [|fuel IH]; intros n Hp; [lia|]. cbn [ack_loop].
  unfold mbind at 1, elapsed_ms, env_op. destruct (elapsed_ends n) as (t & e1 & -> & -> & A1). cbn beta iota.
  destruct (_ >=? _) eqn:Ht; [by eexists _, _|]. unfold mbind at 1, recv.
  set (tmo := Z.min _ 500).
  assert (Htmo : 0 < tmo).
  { unfold tmo, as_u32. rewrite wrap_small; unfold uN, PEER_ACK_TIMEOUT_MS in *; lia. }
  destruct (recv_ends (with_env n e1) tmo) as (r & e2 & -> & A2 & D2 & T2). cbn in A2, D2, T2.
  assert (A12 : after (env n) e2) by by etrans.
  assert (Hgo : forall n2, env n2 = e2 -> (r = Ok None \/ exists f, r = Ok (Some f)) ->
    exists r n', ack_loop fuel id nonce start n2 = Some (r, n') /\ after (env n) (env n')).
  { intros n2 Hn2 Hr. destruct (IH n2) as (r' & n' & -> & A3).
    - rewrite Hn2. destruct A1 as [P1 N1], A2 as [P2 N2].
      destruct Hr as [Hr|[f Hr]]; [specialize (T2 Hr)|specialize (D2 f Hr)]; unfold PEER_ACK_TIMEOUT_MS in *; lia.
    - exists r', n'. split; [done|]. rewrite Hn2 in A3. by etrans. }
  destruct r as [[raw|]|x| |]; try by eexists _, _.
  - destruct (verify_peer_ack raw id nonce) as [u|x| |]; try by eexists _, _.
    + unfold mbind, write_reg_complete, nvs_write. cbn. pose proof (flash_rel (R := after) e2) as Hf.
      destruct (flash_fault e2) as [[x|] e3]; eexists _, _; (split; [reflexivity|]); cbn; by etrans.
    + apply Hgo; [done|eauto].
  - apply Hgo; [done|auto].
Qed.

(** ** The cycle *)

Context {I : Type} `{BpfInterpreter I}.
Context (W : Z) (oc : bool).
Hypothesis Hends : forall (i : I) c b, tree_ends (execute i c DEFAULT_INSTRUCTION_BUDGET b).

Lemma ends_sealed bound id t cbor : obeys (ends bound) (send_sealed oc id t cbor).
Proof using . unfold send_sealed, advance_seq. obeys_go; [apply ends_send|]. apply ends_same. intros n. by eexists _, _. Qed.

Lemma ends_install bound image h budget : obeys (ends bound) (install_resident W image h budget).
Proof using .
  unfold install_resident, read_schedule, read_program, nvs_get, write_active_partition. obeys_go; [|apply ends_nvs].
  apply ends_step. intros n. unfold write_program.
  match goal with |- context [program_fault _ ?b] => pose proof (NodeState.program_rel (R := after) (env n) b) as Hf end.
  destruct (program_fault _ _) as [[? ?] ?]. by eexists _, _.
Qed.

#[export] Instance ends_respects fuel bound id :
  (bound <= fuel)%nat -> Respects (I := I) W oc fuel id (ends bound) after (fun _ => True).
Proof using Hends.
  intros Hle. split; try exact _.
  - intros. by apply ends_env.
  - intros. apply ends_nvs.
  - intros A m Hm. apply ends_same. intros n. destruct (Hm n) as (r & n' & ? & _ & ? & _). eauto.
  - intros. apply ends_sealed.
  - intros seq deadline n Hn. destruct (reply_loop_ends fuel id seq deadline n) as (r & n' & -> & Ha); [simpl in Hn; lia|].
    split; [done|]. destruct Ha. simpl in *. case_match; [lia|done].
  - intros seq index deadline n Hn.
    destruct (chunk_loop_ends fuel id seq index deadline n) as (r & n' & -> & Ha); [simpl in Hn; lia|].
    split; [done|]. destruct Ha. simpl in *. case_match; [lia|done].
  - intros. apply ends_install.
  - intros s. unfold update_schedule, write_schedule_interval. obeys_go; [apply ends_nvs|].
    apply ends_same. intros n. by eexists _, _.
  - intros _ i c b. apply Hends.
Qed.

Lemma ends_peer_request fuel bound id f :
  (bound + Z.to_nat PEER_ACK_TIMEOUT_MS <= fuel)%nat -> obeys (ends bound) (peer_request_exchange fuel id f).
Proof using .
  intros Hle. unfold peer_request_exchange. apply obeys_bind; [exact _|obeys_step|intros frame].
  apply obeys_bind; [exact _|obeys_step|intros d]. apply obeys_bind; [exact _|apply ends_send|intros _].
  intros n Hn. unfold mbind at 1, elapsed_ms, env_op. destruct (elapsed_ends n) as (t & e1 & -> & -> & A1). cbn beta iota.
  destruct (ack_loop_ends fuel id (h_nonce (header d)) (now e1) (with_env n e1)) as (r & n' & -> & A2).
  - simpl in *. destruct A1. unfold PEER_ACK_TIMEOUT_MS in *. lia.
  - assert (A12 : after (env n) (env n')) by by etrans. split; [done|]. destruct A12. simpl in *. case_match; [lia|done].
Qed.

Context (base : Z) (blob_addr : list Z -> Z) (firmware_version : list Z) (board : BoardLayout).

Lemma ends_wake_attempts bound attempts attempt f id nonce :
  obeys (ends bound) (wake_attempts attempts attempt f id nonce).
Proof using .
  revert attempt. induction attempts as [|k IH]; intros attempt; simpl; [obeys_go|]. obeys_go.
  all: first [apply ends_send | apply ends_env; intros e; apply delay_rel | apply ends_recv].
Qed.

Lemma ends_before fuel bound id :
  (bound + Z.to_nat PEER_ACK_TIMEOUT_MS <= fuel)%nat -> obeys (ends bound) (before_command firmware_version fuel id).
Proof using .
  intros Hle. unfold before_command, contact_gateway, determine_wake_reason, take_early_wake_flag, read_schedule, load_active_raw, read_program,
    read_last_battery_mv, wake_blob, health_check, random_u64, registration, exchange, wake_command_exchange, read_reg_complete,
    has_peer_payload, read_peer_payload, nvs_get, erase_peer_payload, write_reg_complete, clear_queue, log_and_sleep.
  obeys_go.
  all: first [by apply ends_peer_request | apply ends_wake_attempts | apply ends_nvs
    | apply ends_env; intros e; first [apply rng_rel | apply random_rel]
    | apply ends_same; intros n; by eexists _, _ | idtac].
  apply ends_same. intros n. unfold queue_op.
  match goal with |- context [match ?x with _ => _ end] => destruct x as [[? ?]| | |] end; by eexists _, _.
Qed.

Lemma cycle_ends fuel i n :
  (pending (env n) + Z.to_nat PEER_ACK_TIMEOUT_MS < fuel)%nat ->
  exists r n', run_wake_cycle W oc base blob_addr firmware_version board fuel i n = Some (r, n') /\ after (env n) (env n').
Proof using Hends.
  intros Hf. set (bound := S (pending (env n))).
  enough (Ho : obeys (ends bound) (run_wake_cycle W oc base blob_addr firmware_version board fuel i)).
  { specialize (Ho n ltac:(simpl; lia)). destruct (run_wake_cycle _ _ _ _ _ _ _ _ _) as [[r n']|]; [|done].
    exists r, n'. by destruct Ho. }
  unfold run_wake_cycle, nvs_get. apply obeys_bind; [exact _|obeys_go|intros s]. case_match; [|obeys_go].
  case_match. apply obeys_bind; [exact _|apply ends_before; lia|]. intros [o|[[h res] [[[seq ts] payload] blob]]]; [obeys_go|].
  assert (HR := ends_respects fuel bound (mkIdentity z l) ltac:(lia)).
  destruct (r_after_command W oc base blob_addr board fuel (mkIdentity z l) (ends bound) after (fun _ => True)
    h res seq ts payload blob i (fun _ _ => Logic.I)) as (k & -> & Hk).
  apply obeys_bind; [exact _| |done]. apply ends_same. intros x. by eexists _, _.
Qed.
End End_.

(** ** How long a node sleeps *)

Section Sleep.
Context {Value : Type} `{C : Cbor Value}.
Context `{Sha256Provider, AeadProvider}.
Context {E : Type} `{Env E}.
Context {I : Type} `{BpfInterpreter I}.
Context (W : Z) (oc : bool).

(** The manager's base interval is the stored one. *)
Definition in_step (n : Node E) : Prop := base_interval_s (sleep_mgr n) = interval (nvs n).

Definition schedule : Logic (Node E) := mkLogic in_step (fun _ _ => True) false true.

#[export] Instance schedule_order : PreOrder (rel schedule).
Proof using . by split. Qed.

Lemma schedule_same {A} (m : M (Node E) A) :
  (forall n, match m n with
             | Some (_, n') => interval (nvs n') = interval (nvs n) /\
                 base_interval_s (sleep_mgr n') = base_interval_s (sleep_mgr n)
             | None => True end) -> obeys schedule m.
Proof using .
  intros Hm n Hn. specialize (Hm n). destruct (m n) as [[r n']|]; [|done]. destruct Hm as [J1 J2].
  split; [done|]. simpl in *. unfold in_step in *. case_match; [congruence|done].
Qed.

Lemma schedule_env {A} (f : E -> A * E) : obeys schedule (env_op f).
Proof using . apply schedule_same. intros n. unfold env_op. by destruct (f _). Qed.

Lemma schedule_nvs f : (forall s, interval (f s) = interval s) -> obeys schedule (nvs_write f).
Proof using . intros Hf. apply schedule_same. intros n. unfold nvs_write. destruct (flash_fault _) as [[x|] e]; [done|]. by split; [apply Hf|]. Qed.

Lemma schedule_send f : obeys schedule (send f).
Proof using . apply schedule_same. intros n. unfold send. by destruct (t_send _ _) as [[?|?| |] ?]. Qed.

Lemma schedule_recv t : obeys schedule (recv t).
Proof using . apply schedule_same. intros n. unfold recv. by destruct (t_recv _ _) as [[[?|]|?| |] ?]. Qed.

(** The one place that changes the interval changes both. *)
Lemma schedule_update s : obeys schedule (update_schedule s).
Proof using .
  intros n Hn. unfold update_schedule, write_schedule_interval, mbind, mtry, nvs_write.
  by destruct (flash_fault (env n)) as [[x|] e].
Qed.

#[export] Instance schedule_respects fuel id : Respects (I := I) W oc fuel id schedule (fun _ _ => True) (fun _ => True).
Proof using .
  split; try exact _; try done.
  - intros. apply schedule_env.
  - intros f Hf. apply schedule_nvs. intros s. by destruct (Hf s) as (_ & _ & ? & _).
  - intros A m Hm. apply schedule_same. intros n. by destruct (Hm n) as (r & n' & -> & -> & _ & _ & _ & ?).
  - intros t cbor. unfold send_sealed, advance_seq. obeys_go; [apply schedule_send|by apply schedule_same].
  - intros. apply obeys_reply_loop; [exact _|done|apply schedule_env|apply schedule_recv].
  - intros. apply obeys_chunk_loop; [exact _|done|apply schedule_env|apply schedule_recv].
  - intros image h budget _. unfold install_resident, read_schedule, read_program, nvs_get, write_active_partition. obeys_go.
    + apply schedule_same. intros n. unfold write_program. by destruct (program_fault _ _) as [[? ?] ?].
    + by apply schedule_nvs.
  - apply schedule_update.
Qed.

(** ** Outcomes *)

Definition bounded (o : WakeCycleOutcome) (n : Node E) : Prop :=
  match o with Sleep s => MIN_SLEEP_INTERVAL_S <= s <= Z.max MIN_SLEEP_INTERVAL_S (interval (nvs n)) | _ => True end.

(** An early return with a bounded outcome. *)
Definition returns_bounded {A} (r : NodeResult (WakeCycleOutcome + A)) (n : Node E) : Prop :=
  forall o, r = Ok (inl o) -> bounded o n.

Lemma effective_bounded (m : SleepManager) :
  MIN_SLEEP_INTERVAL_S <= effective_sleep_s m <= Z.max MIN_SLEEP_INTERVAL_S (base_interval_s m).
Proof using . unfold effective_sleep_s. case_match; lia. Qed.

Lemma log_and_sleep_bounded (n : Node E) :
  in_step n -> wp log_and_sleep (fun r n' => n' = n /\ exists o, r = Ok o /\ bounded o n') n.
Proof using . intros Hn. split; [done|]. eexists. split; [done|]. cbn. rewrite <- Hn. apply effective_bounded. Qed.

Lemma wp_schedule_bind {A B} (m : M (Node E) A) (k : A -> M (Node E) B) (Q : NodeResult B -> Node E -> Prop) n :
  obeys schedule m -> in_step n -> (forall a n', in_step n' -> wp (k a) Q n') ->
  (forall r n', is_ok r = false -> Q r n') -> wp (mbind m k) Q n.
Proof using . intros Hm Hn Hk Hr. apply (wp_obeys_bind schedule); auto. Qed.

(** A computation that ends with [log_and_sleep]. *)
Lemma sleep_tail {A} (m : M (Node E) A) (Q : NodeResult (WakeCycleOutcome) -> Node E -> Prop) n :
  obeys schedule m -> in_step n -> (forall o n', in_step n' -> bounded o n' -> Q (Ok o) n') ->
  (forall r n', is_ok r = false -> Q r n') -> wp (m ;;! log_and_sleep) Q n.
Proof using .
  intros Hm Hn HQ Hr. apply wp_schedule_bind; [done|done| |done]. intros _ n' Hn'.
  eapply wp_mono; [by apply log_and_sleep_bounded|]. intros r ? (-> & o & -> & Ho). by apply HQ.
Qed.

Context (base : Z) (blob_addr : list Z -> Z) (firmware_version : list Z) (board : BoardLayout).

Lemma battery_sleep_bounded {A} (n : Node E) :
  in_step n -> wp (let! o := capture_battery_then_sleep board in mret (inl o : WakeCycleOutcome + A)) returns_bounded n.
Proof using All.
  intros Hn. apply wp_bind.
  assert (Hw : wp (capture_battery_then_sleep board) (fun r n' => forall o, r = Ok o -> bounded o n') n).
  { unfold capture_battery_then_sleep.
    apply wp_schedule_bind; [apply schedule_env|done| |by intros [] ? ?]. intros _ n1 H1'.
    apply wp_schedule_bind; [apply schedule_env|done| |by intros [] ? ?]. intros _ n2 H2'.
    apply wp_schedule_bind; [apply (r_battery W oc base blob_addr board 0 (mkIdentity 0 []) schedule (fun _ _ => True) (fun _ => True))|done| |by intros [] ? ?].
    intros _ n3 H3'. apply sleep_tail; [apply schedule_env|done| |by intros [] ? ?]. by intros o n' _ Ho o' [= <-]. }
  eapply wp_mono; [exact Hw|]. intros r n' Hr. destruct r; try done. apply wp_ret. intros o [= <-]. by apply Hr.
Qed.

Lemma new_program_bounded fuel id eph h size csize count n :
  in_step n -> wp (new_program W oc board fuel id eph h size csize count) returns_bounded n.
Proof using All.
  intros Hn. pose proof (schedule_respects fuel id) as HR. unfold new_program.
  apply wp_schedule_bind; [by apply schedule_same|done| |by intros [] ? ?]. intros _ n1 Hn1.
  apply wp_schedule_bind; [apply obeys_try; [exact _|]; by apply (r_transfer W oc base blob_addr board fuel id schedule (fun _ _ => True) (fun _ => True))|done| |by intros [] ? ?].
  intros [x|img] n2 Hn2; [by apply battery_sleep_bounded|].
  apply wp_schedule_bind; [by obeys_go|done| |by intros [] ? ?]. intros n3 n4 Hn4.
  apply wp_schedule_bind; [obeys_go; by apply (r_install W oc fuel id (Respects := HR))|done| |by intros [] ? ?].
  intros [x|p] n5 Hn5; [by apply battery_sleep_bounded|].
  apply wp_schedule_bind; [apply obeys_try; [exact _|]; by apply (r_ack W oc base blob_addr board fuel id schedule (fun _ _ => True) (fun _ => True))|done| |by intros [] ? ?].
  intros [x|u] n6 Hn6; [by apply battery_sleep_bounded|].
  apply wp_schedule_bind; [obeys_go; by apply schedule_same|done|by intros|by intros [] ? ?].
Qed.

Lemma dispatch_bounded fuel id payload n :
  in_step n -> wp (dispatch W oc board fuel id payload) returns_bounded n.
Proof using All.
  intros Hn. unfold dispatch. pose proof (schedule_respects fuel id) as HR.
  assert (Hnew : forall eph h size csize count, wp (let! r := new_program W oc board fuel id eph h size csize count in
    mret (match r with inl o => inl o | inr p => inr (Some p, false) end)) returns_bounded n).
  { intros. apply wp_bind. eapply wp_mono; [by apply new_program_bounded|]. intros r n' Hr. destruct r as [[o|p]|x| |]; try done.
    apply wp_ret. intros o' [= <-]. by apply Hr. }
  destruct payload; try apply Hnew.
  - apply wp_schedule_bind; [by apply (r_drain W oc base blob_addr board fuel id schedule (fun _ _ => True) (fun _ => True))|done|by intros|by intros [] ? ?].
  - apply wp_schedule_bind; [apply schedule_update|done|by intros|by intros [] ? ?].
  - intros o Ho. by injection Ho as <-.
Qed.

Lemma prepare_maps_bounded p installed n :
  in_step n -> wp (prepare_maps W oc base board p installed) returns_bounded n.
Proof using All.
  intros Hn. unfold prepare_maps. cbv zeta. case_match; [case_match; [done|by apply battery_sleep_bounded]|].
  apply wp_bind, wp_get. case_match; [|done]. apply wp_bind, wp_try, wp_lift.
  destruct (allocate _ _ _ _ _) as [[ms ws]|x| |]; try done; [|by apply battery_sleep_bounded].
  apply wp_schedule_bind; [by apply schedule_same|done| |by intros [] ? ?]. intros _ n1 Hn1.
  apply wp_schedule_bind; [obeys_go|done| |by intros [] ? ?]. intros ws' n2 Hn2.
  apply wp_schedule_bind; [by apply schedule_same|done|by intros|by intros [] ? ?].
Qed.

(** The outcome of the cycle. *)
Definition outcome_bounded (r : NodeResult (WakeCycleOutcome * I)) (n : Node E) : Prop :=
  forall x, r = Ok x -> bounded x.1 n.

Lemma after_command_bounded fuel id h res cmd i n :
  in_step n -> wp (after_command W oc base blob_addr board fuel id h res cmd i) outcome_bounded n.
Proof using All.
  intros Hn. destruct cmd as [[[seq ts] payload] blob]. unfold after_command. pose proof (schedule_respects fuel id) as HR.
  assert (Hearly : forall A n' (r : NodeResult (WakeCycleOutcome + A)) o, returns_bounded r n' -> r = Ok (inl o) ->
    outcome_bounded (Ok (o, i)) n') by (intros A n' r o Hr Ho x [= <-]; by apply Hr).
  apply wp_schedule_bind; [by apply schedule_same|done| |by intros [] ? ?]. intros _ n1 Hn1.
  apply wp_schedule_bind; [apply schedule_env|done| |by intros [] ? ?]. intros at_ n2 Hn2.
  apply wp_bind. eapply wp_mono; [apply wp_and; [by apply dispatch_bounded|]|].
  { apply (obeys_wp schedule); [done| |done].
    by apply (r_dispatch W oc base blob_addr board fuel id schedule (fun _ _ => True) (fun _ => True)). }
  intros d n3 [Hd [_ Hn3]]. destruct d as [[o|[loaded usable]]|x| |]; try done.
  { apply wp_ret. by eapply Hearly. }
  specialize (Hn3 eq_refl). cbv zeta. set (program := match loaded with Some _ => _ | None => _ end).
  set (installed := match loaded with Some _ => _ | None => _ end).
  apply wp_bind. eapply wp_mono with (P := fun r n' => returns_bounded r n' /\ (returned r = true -> in_step n')).
  { destruct program as [p|]; [|by split]. apply wp_and; [by apply prepare_maps_bounded|].
    eapply wp_mono; [apply (obeys_wp schedule); [done| |exact Hn3]|by intros ?? [_ ?]].
    by apply (r_prepare W oc base blob_addr board fuel id schedule (fun _ _ => True) (fun _ => True)). }
  intros pr n4 [Hp Hn4]. destruct pr as [[o|u]|x| |]; try done.
  { apply wp_ret. by eapply Hearly. }
  specialize (Hn4 eq_refl).
  apply wp_schedule_bind; [apply schedule_env|done| |by intros [] ? ?]. intros _ n5 Hn5.
  apply wp_schedule_bind; [apply schedule_env|done| |by intros [] ? ?]. intros _ n6 Hn6.
  apply wp_schedule_bind; [by apply (r_battery W oc base blob_addr board fuel id schedule (fun _ _ => True) (fun _ => True))|done| |by intros [] ? ?].
  intros bat n7 Hn7. apply wp_schedule_bind.
  { destruct program; [|obeys_go]. by apply (r_run_program W oc base blob_addr board fuel id schedule (fun _ _ => True) (fun _ => True)). }
  { done. } 2: { by intros [] ? ?. }
  intros i' n8 Hn8. apply wp_schedule_bind; [apply schedule_env|done| |by intros [] ? ?]. intros _ n9 Hn9.
  apply wp_bind, wp_get. apply wp_schedule_bind; [obeys_go; by apply schedule_nvs|done| |by intros [] ? ?].
  intros _ n10 Hn10. apply wp_bind. eapply wp_mono; [by apply log_and_sleep_bounded|].
  intros r n11 (-> & o & -> & Ho). apply wp_ret. by intros x [= <-].
Qed.

Lemma schedule_peer_request fuel id f : obeys schedule (peer_request_exchange fuel id f).
Proof using .
  unfold peer_request_exchange. obeys_go; [apply schedule_send|apply schedule_env|].
  match goal with |- obeys _ (ack_loop ?k _ _ _) => induction k end; simpl; [by intros ? _|].
  unfold write_reg_complete. obeys_go. all: first [apply schedule_env | apply schedule_recv | by apply schedule_nvs].
Qed.

Lemma schedule_wake_exchange id nonce h bat blob : obeys schedule (wake_command_exchange firmware_version id nonce h bat blob).
Proof using .
  unfold wake_command_exchange. obeys_go. generalize (Z.to_nat (MAX_RETRIES + 1)) as k. generalize 0 as attempt.
  intros attempt k. revert attempt. induction k as [|k IH]; intros attempt; simpl; [obeys_go|]. obeys_go.
  all: first [apply schedule_send | apply schedule_env | apply schedule_recv].
Qed.

(** An early return through [log_and_sleep]. *)
Lemma early_sleep {A} (n : Node E) :
  in_step n -> wp (let! o := log_and_sleep in mret (inl o : WakeCycleOutcome + A)) returns_bounded n.
Proof using .
  intros Hn. apply wp_bind. eapply wp_mono; [by apply log_and_sleep_bounded|]. intros r n' (-> & o & -> & Ho).
  apply wp_ret. by intros o' [= <-].
Qed.

Lemma registration_bounded fuel id n : in_step n -> wp (registration fuel id) returns_bounded n.
Proof using .
  intros Hn. unfold registration. apply wp_bind, wp_read. destruct (reg_complete (nvs n)); [done|].
  apply wp_bind, wp_read. destruct (peer_payload (nvs n)) as [f|]; [|done].
  apply wp_schedule_bind; [apply obeys_try; [exact _|]; apply schedule_peer_request|done| |by intros [] ? ?].
  intros [x|[|]] n1 Hn1; [|done|by apply early_sleep].
  apply wp_schedule_bind; [unfold erase_peer_payload; obeys_go; by apply schedule_nvs|done| |by intros [] ? ?].
  intros _ n2 Hn2. by apply early_sleep.
Qed.

Lemma exchange_bounded id nonce h bat blob n :
  in_step n -> wp (exchange firmware_version id nonce h bat blob) returns_bounded n.
Proof using .
  intros Hn. unfold exchange, has_peer_payload, read_reg_complete, read_peer_payload, nvs_get, erase_peer_payload,
    write_reg_complete, clear_queue.
  apply wp_schedule_bind; [apply obeys_try; [exact _|]; apply schedule_wake_exchange|done| |by intros [] ? ?].
  intros [x|cmd] n1 Hn1.
  - apply wp_schedule_bind; [by obeys_go|done| |by intros [] ? ?]. intros complete n2 Hn2.
    apply wp_schedule_bind; [by obeys_go|done| |by intros [] ? ?]. intros peer n3 Hn3.
    apply wp_schedule_bind; [obeys_go; by apply schedule_nvs|done| |by intros [] ? ?]. intros _ n4 Hn4. by apply early_sleep.
  - apply wp_schedule_bind; [by obeys_go|done| |by intros [] ? ?]. intros peer n2 Hn2.
    apply wp_schedule_bind; [obeys_go; by apply schedule_nvs|done| |by intros [] ? ?]. intros _ n3 Hn3.
    apply wp_schedule_bind; [obeys_go; by apply schedule_same|done|by intros|by intros [] ? ?].
Qed.

Lemma schedule_registration fuel id : obeys schedule (registration fuel id).
Proof using .
  unfold registration, read_reg_complete, read_peer_payload, nvs_get, erase_peer_payload, log_and_sleep. obeys_go.
  all: first [apply schedule_peer_request | by apply schedule_nvs].
Qed.

Lemma schedule_exchange id nonce h bat blob : obeys schedule (exchange firmware_version id nonce h bat blob).
Proof using .
  unfold exchange, has_peer_payload, read_reg_complete, read_peer_payload, nvs_get, erase_peer_payload, write_reg_complete,
    clear_queue, log_and_sleep. obeys_go.
  all: first [apply schedule_wake_exchange | by apply schedule_nvs | by apply schedule_same].
Qed.

Lemma schedule_queue_op {A} (f : Layout -> Res unit (A * list AsyncQueue.Write)) : obeys schedule (queue_op f).
Proof using . apply schedule_same. intros n. unfold queue_op. by destruct (f (queue n)) as [[? ?]| | |]. Qed.

Lemma contact_gateway_bounded fuel id n :
  in_step n -> wp (contact_gateway firmware_version fuel id)
    (fun r n' => returns_bounded r n' /\ forall x, r = Ok (inr x) -> in_step n') n.
Proof using .
  intros Hn. unfold contact_gateway. apply wp_bind. eapply wp_mono.
  { apply wp_and; [by apply registration_bounded|apply (obeys_wp schedule); [done|apply schedule_registration|done]]. }
  intros reg n1 [Hr [_ Hn1]]. destruct reg as [[o|u]|x| |]; try by split.
  { split; [|done]. intros o' [= <-]. by apply Hr. }
  specialize (Hn1 eq_refl).
  apply wp_schedule_bind; [unfold load_active_raw, read_schedule, read_program, nvs_get; by obeys_go|done| |by intros [] ? ?].
  intros [h res] n2 Hn2. apply wp_schedule_bind; [apply schedule_env|done| |by intros [] ? ?].
  intros nonce n3 Hn3. apply wp_schedule_bind; [unfold read_last_battery_mv, nvs_get; by obeys_go|done| |by intros [] ? ?].
  intros bat n4 Hn4. apply wp_schedule_bind; [unfold wake_blob; obeys_go; apply schedule_queue_op|done| |by intros [] ? ?].
  intros blob n5 Hn5. apply wp_bind. eapply wp_mono.
  { apply wp_and; [by apply exchange_bounded|apply (obeys_wp schedule); [done|apply schedule_exchange|done]]. }
  intros r n6 [Hx [_ Hn6]]. destruct r as [[o|cmd]|x| |]; try by split.
  - split; [|done]. intros o' [= <-]. by apply Hx.
  - split; [done|]. intros x _. by apply Hn6.
Qed.

(** Up to the COMMAND, the manager is in step once it is set up. *)
Lemma before_command_bounded fuel id n :
  wp (before_command firmware_version fuel id)
    (fun r n' => returns_bounded r n' /\ forall x, r = Ok (inr x) -> in_step n') n.
Proof using .
  unfold before_command. apply wp_bind, wp_env_op. intros healthy e. destruct (negb healthy).
  { split; [|done]. intros o [= <-]. apply (effective_bounded (sleep_new _ _)). }
  apply (contact_gateway_bounded fuel id (with_sleep (with_nvs (with_env n e) (nvs_early (nvs n) false))
    (sleep_new (interval (nvs n)) (if early_wake (nvs n) then Early else Scheduled)))). done.
Qed.

Lemma cycle_bounded fuel i n :
  wp (run_wake_cycle W oc base blob_addr firmware_version board fuel i) outcome_bounded n.
Proof using All.
  unfold run_wake_cycle. apply wp_bind, wp_bind, wp_get, wp_ret. destruct (key (nvs n)) as [[hint k]|].
  2: { apply wp_ret. by intros x [= <-]. }
  apply wp_bind. eapply wp_mono; [apply before_command_bounded|]. intros r n1 [Hr Hn1].
  destruct r as [[o|[[h res] cmd]]|x| |]; try done.
  - apply wp_ret. intros x [= <-]. by apply Hr.
  - apply after_command_bounded. by eapply Hn1.
Qed.
End Sleep.

(** ** Errors stay inside *)

Section NoErr.
Context {Value : Type} `{C : Cbor Value}.
Context `{Sha256Provider, AeadProvider}.
Context {E : Type} `{Env E}.
Context {I : Type} `{BpfInterpreter I}.
Context (W : Z) (oc : bool) (base : Z) (blob_addr : list Z -> Z) (firmware_version : list Z) (board : BoardLayout).

(** A computation whose errors were all handled. *)
Definition handled {A} (m : M (Node E) A) : Prop := forall n, wp m (fun r _ => forall e, r <> Err e) n.

Lemma handled_ret {A} (a : A) : handled (mret a).
Proof using . by intros n e. Qed.
Lemma handled_get : handled mget.
Proof using . by intros n e. Qed.
Lemma handled_mod f : handled (mmod f).
Proof using . by intros n e. Qed.
Lemma handled_try {A} (m : M (Node E) A) : handled (mtry m).
Proof using . intros n. apply wp_try. unfold wp. destruct (m n) as [[[]]|]; by intros. Qed.
Lemma handled_bind {A B} (m : M (Node E) A) (k : A -> M (Node E) B) :
  handled m -> (forall a, handled (k a)) -> handled (mbind m k).
Proof using .
  intros Hm Hk n. apply wp_bind. eapply wp_mono; [apply Hm|]. intros r n' Hr.
  destruct r as [a|e| |]; [apply Hk|by destruct (Hr e)|by intros..].
Qed.
Lemma handled_lift {A} (r : NodeResult A) : (forall e, r <> Err e) -> handled (lift r).
Proof using . by intros Hr n e. Qed.
Lemma handled_env {A} (f : E -> A * E) : handled (env_op f).
Proof using . intros n. unfold wp, env_op. by destruct (f _). Qed.
Lemma handled_queue_op {A} (f : Layout -> Res unit (A * list AsyncQueue.Write)) : handled (queue_op f).
Proof using . intros n. unfold wp, queue_op. by destruct (f (queue n)) as [[? ?]| | |]. Qed.

Ltac handled_step :=
  lazymatch goal with
  | |- handled (mret _) => apply handled_ret
  | |- handled mget => apply handled_get
  | |- handled (mmod _) => apply handled_mod
  | |- handled (mtry _) => apply handled_try
  | |- handled (env_op _) => apply handled_env
  | |- handled (queue_op _) => apply handled_queue_op
  | |- handled (lift Panic) => apply handled_lift; done
  | |- handled (lift UB) => apply handled_lift; done
  | |- handled (mbind _ _) => apply handled_bind; [|intro]
  | |- handled (if ?b then _ else _) => destruct b
  | |- handled (match ?x with _ => _ end) => destruct x
  end.
Ltac handled_go := repeat handled_step.

Lemma lookup_no_err m b k e : lookup W oc m b k <> Err e.
Proof using .
  assert (Ha : forall x e', arith_u (E := NodeError) oc W x <> Err e').
  { intros x e'. unfold arith_u. destruct (_ && _), oc; done. }
  unfold lookup. destruct (k >=? _); [done|].
  destruct (arith_u oc W (k * _)) as [o|x| |] eqn:H1'; simpl; try done; [|by destruct (Ha _ _ H1')].
  destruct (arith_u oc W (o + _)) as [p|x| |] eqn:H2'; simpl; try done; [|by destruct (Ha _ _ H2')].
  destruct (arith_u oc W (p + _)) as [q|x| |] eqn:H3'; simpl; try done; [|by destruct (Ha _ _ H3')].
  destruct (q >? _); [done|]. unfold slice_index, raw_read. by repeat (destruct (_ && _); simpl).
Qed.

Lemma apply_initial_no_err l initial e : apply_initial_from W oc l initial <> Err e.
Proof using .
  revert l. induction initial as [|bs initial IH]; intros l; [by destruct l|]. destruct l as [|m l]; [done|]. simpl.
  match goal with |- res_bind ?r _ <> _ => assert (Hws : forall x, r <> Err x) by (intros; repeat case_match; done);
    destruct r as [ws|x| |] end; simpl; try done.
  specialize (IH l). by destruct (apply_initial_from W oc l initial).
Qed.

Lemma handled_call_fn fuel peek ctx f r1 r2 r3 r4 r5 : handled (call_fn W oc base fuel peek ctx f r1 r2 r3 r4 r5).
Proof using .
  destruct f; simpl;
    unfold helper_i2c_read, helper_i2c_write, helper_i2c_write_read, helper_spi_transfer, helper_gpio_read,
      helper_gpio_write, helper_adc_read, helper_send, helper_send_recv, helper_map_lookup_elem,
      helper_map_update_elem, helper_get_time, helper_get_battery_mv, helper_delay_us, helper_set_next_wake,
      helper_bpf_trace_printk, helper_send_async, with_ctx, out, read_key_at, raw_slice, elapsed_ms; handled_go.
  apply handled_lift. intros e. apply lookup_no_err.
Qed.

Lemma handled_run_tree fuel ctx t : handled (run_tree W oc base fuel ctx t).
Proof using .
  induction t as [|r b|f r1 r2 r3 r4 r5 peek b k IH]; simpl; unfold set_buffer; handled_go; try done.
  apply handled_call_fn.
Qed.

Lemma handled_battery : handled (persist_current_cycle_battery board).
Proof using . unfold persist_current_cycle_battery, capture_current_cycle_battery, adc_read_diagnostics. handled_go. Qed.

Lemma handled_battery_sleep : handled (capture_battery_then_sleep board).
Proof using .
  unfold capture_battery_then_sleep, log_and_sleep, enter_active_gpio_state, enter_idle_gpio_state, delay_ms. handled_go.
  apply handled_battery.
Qed.

Lemma handled_dispatch fuel id payload : handled (dispatch W oc board fuel id payload).
Proof using .
  unfold dispatch, drain_queue, new_program, update_schedule, clear_queue. handled_go; try apply handled_battery_sleep.
  match goal with |- handled (send_pending _ _ ?l) => induction l end; simpl; handled_go. done.
Qed.

Lemma handled_cycle fuel i : handled (run_wake_cycle W oc base blob_addr firmware_version board fuel i).
Proof using .
  unfold run_wake_cycle, before_command, contact_gateway, after_command, prepare_maps, run_program, determine_wake_reason,
    take_early_wake_flag, load_active_raw, read_schedule, read_program, read_last_battery_mv, wake_blob, health_check, random_u64, registration,
    exchange, read_reg_complete, has_peer_payload, read_peer_payload, nvs_get, clear_queue, log_and_sleep, elapsed_ms,
    enter_active_gpio_state, enter_idle_gpio_state, delay_ms. handled_go.
  all: first [apply handled_dispatch | apply handled_battery_sleep | apply handled_battery | apply handled_run_tree
    | apply handled_lift; intros e; apply apply_initial_no_err].
Qed.
End NoErr.

(** ** Where a cycle can be cut off

    A build without overflow checks: nothing the cycle does by itself panics or reads
    outside memory.  Only the program it runs can, by what it makes a helper read. *)

(** The CBOR library and the radio driver report what goes wrong; they do not panic. *)
Class CborReturns {Value} (C : Cbor Value) : Prop := {
  reader_returns : forall b, res_post (fun _ => True) False (from_reader b);
  writer_returns : forall v, res_post (fun _ => True) False (into_writer v)
}.

Class EnvReturns (E : Type) `{Env E} : Prop := {
  send_returns : forall e f, res_post (fun _ => True) False (t_send e f).1;
  recv_returns : forall e t, res_post (fun _ => True) False (t_recv e t).1
}.

Section Panics.
Context {Value : Type} `{C : Cbor Value} `{HC : !CborReturns C}.
Context `{Sha256Provider, AeadProvider}.

Abbreviation plain := (res_post (fun _ => True) False).

Lemma plain_map_err {E E' A} (f : E -> E') (r : Res E A) : plain r -> plain (map_err f r).
Proof using . by destruct r. Qed.
Lemma plain_ok_or {E A} (o : option A) (e : E) : plain (ok_or o e).
Proof using . by destruct o. Qed.

Ltac plain_step :=
  lazymatch goal with
  | |- res_post _ _ (res_bind _ _) => apply (res_post_bind (fun _ => True)); [|intros ? _]
  | |- res_post _ _ (map_err _ _) => apply plain_map_err
  | |- res_post _ _ (ok_or _ _) => apply plain_ok_or
  | |- res_post _ _ (Ok _) => exact Logic.I
  | |- res_post _ _ (Err _) => exact Logic.I
  | |- res_post _ _ (if ?b then _ else _) => destruct b
  | |- res_post _ _ (match ?x with _ => _ end) => destruct x
  end.
Ltac plain := repeat first [apply reader_returns | apply writer_returns | plain_step].

Lemma decode_frame_plain raw : plain (decode_frame raw).
Proof using .
  unfold decode_frame. destruct (Z.ltb_spec (len raw) MIN_FRAME_SIZE) as [|Hl]; [done|]. case_match; [done|].
  assert (HEADER_SIZE <= len raw) by (unfold MIN_FRAME_SIZE, HEADER_SIZE, AEAD_TAG_SIZE in *; lia).
  assert (0 <= HEADER_SIZE) by done. unfold slice_from, len in *.
  rewrite (slice_Ok raw 0 HEADER_SIZE), (slice_Ok raw HEADER_SIZE (Z.of_nat (length raw))) by (unfold len; lia). done.
Qed.

Lemma verify_frame_plain raw k : plain (decode_verify_frame raw k).
Proof using . unfold decode_verify_frame, open_frame. plain. apply decode_frame_plain. Qed.

Lemma decode_map_plain cbor : plain (cbor_decode_map cbor).
Proof using HC.
  unfold cbor_decode_map. plain. match goal with |- plain (decode_pairs ?l) => induction l as [|[k v] l IH] end; [done|].
  simpl. plain; done.
Qed.

Lemma gateway_decode_plain t cbor : plain (gateway_decode t cbor).
Proof using HC.
  unfold gateway_decode, decode_payload, get_u8, get_u32, get_uint, get_i8, get_bytes, get_bytes_optional, decode_nested_map, get_field.
  plain. apply decode_map_plain.
Qed.

Lemma verify_command_plain raw id nonce : plain (verify_and_decode_command raw id nonce).
Proof using HC.
  unfold verify_and_decode_command. eapply res_post_bind; [apply verify_frame_plain|]. intros [h p] _. do 2 plain_step; [done..|].
  pose proof (gateway_decode_plain (h_msg_type h) p) as Hd. destruct (gateway_decode _ _) as [[]|[]| |]; try done.
  unfold decode_command_as_nop. plain.
Qed.

Lemma verify_chunk_plain raw id seq index : plain (verify_and_decode_chunk raw id seq index).
Proof using HC.
  unfold verify_and_decode_chunk. plain. all: first [apply verify_frame_plain | apply gateway_decode_plain].
Qed.

Lemma verify_ack_plain raw id nonce : plain (verify_peer_ack raw id nonce).
Proof using HC.
  unfold verify_peer_ack, open_frame. plain. 1: apply decode_frame_plain.
  generalize (@None Z). match goal with |- forall o, plain (ack_status ?l o) => induction l as [|[k v] l IH] end; intros o; [done|].
  cbn [ack_status]. plain. apply IH.
Qed.

Lemma fold_res_plain {X A B} (f : B -> A -> Res X B) b l : (forall b a, plain (f b a)) -> plain (fold_res f b l).
Proof using .
  intros Hf. revert b. induction l as [|a l IH]; intros b; [done|]. apply (res_post_bind (fun _ => True)); [apply Hf|auto].
Qed.

Lemma image_plain b : res_post (fun i => Forall def_u32 (ProgramImage.maps i)) False (image_decode b).
Proof using HC.
  assert (Hp : plain (image_decode b)).
  { unfold image_decode. plain. apply fold_res_plain. intros st kv. unfold image_field. plain.
    apply fold_res_plain. intros st v. unfold push_map, decode_map_def. plain.
    apply fold_res_plain. intros f kv'. unfold map_field. plain. }
  destruct (image_decode b) as [im| | |] eqn:Hd; try done. by apply (decoded_image b).
Qed.

Lemma image_result_plain b : res_post (fun i => Forall def_u32 (ProgramImage.maps i)) False (image_result b).
Proof using HC. unfold image_result. pose proof (image_plain b). by destruct (image_decode b). Qed.

(** ** Calm computations

    From a state with an intact queue, a calm computation returns a result or an error
    and leaves an intact queue. *)

Context {E : Type} `{HE : Env E} `{HR : !EnvReturns E}.

Definition queued (n : Node E) : Prop := exists l, AsyncQueue.holds (queue n) l.

Definition calm {A} (P : A -> Prop) (m : M (Node E) A) : Prop :=
  forall n, queued n -> wp m (fun r n' => res_post P False r /\ queued n') n.

Lemma calm_mono {A} (P Q : A -> Prop) (m : M (Node E) A) : calm P m -> (forall a, P a -> Q a) -> calm Q m.
Proof using .
  intros Hm HPQ n Hn. eapply wp_mono; [by apply Hm|]. intros r n' [Hr ?]. split; [|done]. by eapply res_post_mono.
Qed.

Lemma calm_bind {A B} P Q (m : M (Node E) A) (k : A -> M (Node E) B) :
  calm P m -> (forall a, P a -> calm Q (k a)) -> calm Q (mbind m k).
Proof using .
  intros Hm Hk n Hn. apply wp_bind. eapply wp_mono; [by apply Hm|]. intros r n' [Hr Hn'].
  destruct r as [a|e| |]; [by apply Hk|done..].
Qed.

Lemma calm_try {A} P (m : M (Node E) A) : calm P m -> calm (fun r => forall a, r = inr a -> P a) (mtry m).
Proof using .
  intros Hm n Hn. apply wp_try. eapply wp_mono; [by apply Hm|]. intros r n' [Hr Hn'].
  destruct r as [a|e| |]; try done. split; [|done]. by intros ? [= <-].
Qed.

Lemma calm_lift {A} P (r : NodeResult A) : res_post P False r -> calm P (lift r).
Proof using . intros Hr n Hn. by split. Qed.
Lemma calm_ret {A} (P : A -> Prop) a : P a -> calm P (mret a).
Proof using . intros Hr n Hn. by split. Qed.
Lemma calm_throw {A} (P : A -> Prop) e : calm P (mthrow e).
Proof using . intros n Hn. by split. Qed.
Lemma calm_get : calm queued mget.
Proof using . intros n Hn. by split. Qed.
Lemma calm_mod f : (forall n, queue (f n) = queue n) -> calm (fun _ => True) (mmod f).
Proof using . intros Hf n Hn. split; [done|]. unfold queued. by rewrite Hf. Qed.
Lemma calm_env {A} (f : E -> A * E) : calm (fun _ => True) (env_op f).
Proof using . intros n Hn. unfold wp, env_op. by destruct (f _). Qed.
Lemma calm_nvs f : calm (fun _ => True) (nvs_write f).
Proof using . intros n Hn. unfold wp, nvs_write. by destruct (flash_fault _) as [[]]. Qed.

Lemma calm_send f : calm (fun _ => True) (send f).
Proof using HR.
  intros n Hn. unfold wp, send. pose proof (send_returns (env n) f). by destruct (t_send _ _) as [[] e].
Qed.

Lemma calm_recv t : calm (fun _ => True) (recv t).
Proof using HR.
  intros n Hn. unfold wp, recv. pose proof (recv_returns (env n) t). by destruct (t_recv _ _) as [[[]| | |] e].
Qed.

(** Operations of the queue. *)
Lemma calm_drain : calm (fun _ => True) (queue_op drain).
Proof using .
  intros n [l Hl]. destruct (exec_refines _ _ OpDrain Hl) as (ws & Hx & Hh & _). cbn in Hx. unfold wp, queue_op.
  destruct (drain (queue n)) as [[bs ws']| | |]; cbn in Hx; try done. injection Hx as -> ->. split; [done|]. by eexists.
Qed.

Lemma calm_piggyback w : calm (fun _ => True) (queue_op (fun q => let? b := single_for_piggyback q w in Ok (b, []))).
Proof using .
  intros n [l Hl]. unfold wp, queue_op.
  destruct (exec_refines _ _ (OpPiggyback w) Hl) as (ws & Hx & _). cbn in Hx.
  destruct (single_for_piggyback (queue n) w); cbn in Hx |- *; try done. split; [done|]. by exists l.
Qed.

Lemma calm_clear : calm (fun _ => True) clear_queue.
Proof using . intros n [l Hl]. split; [done|]. exists []. by apply (holds_emptied _ l). Qed.

Abbreviation any := (fun _ => True).

Lemma calm_try_any {A} (m : M (Node E) A) : calm any m -> calm any (mtry m).
Proof using . intros Hm. by eapply calm_mono; [apply calm_try, Hm|]. Qed.

Lemma calm_get_any : calm any mget.
Proof using . by eapply calm_mono; [apply calm_get|]. Qed.

Ltac calm_step :=
  lazymatch goal with
  | |- calm _ (mret _) => apply calm_ret; done
  | |- calm _ (mthrow _) => apply calm_throw
  | |- calm _ mget => apply calm_get_any
  | |- calm _ (mmod _) => apply calm_mod; done
  | |- calm _ (env_op _) => apply calm_env
  | |- calm _ (nvs_write _) => apply calm_nvs
  | |- calm _ (send _) => apply calm_send
  | |- calm _ (recv _) => apply calm_recv
  | |- calm _ clear_queue => apply calm_clear
  | |- calm _ (mtry _) => apply calm_try_any
  | |- calm _ (lift (map_err _ _)) => apply calm_lift, plain_map_err
  | |- calm _ (mbind _ _) => apply (calm_bind any); [|intros ? _]
  | |- calm _ (if ?b then _ else _) => destruct b
  | |- calm _ (match ?x with _ => _ end) => destruct x
  end.
Ltac calm_go := repeat calm_step.

Lemma encode_plain m : plain (node_encode m).
Proof using HC. unfold node_encode, cbor_encode_map. apply plain_map_err, writer_returns. Qed.

Lemma frame_plain h c k : plain (encode_frame h c k).
Proof using . unfold encode_frame. by repeat case_match. Qed.

(** A result that is looked at without a bind. *)
Lemma calm_plain {X A B} (r : Res X A) (ok : A -> M (Node E) B) (bad : X -> M (Node E) B) :
  plain r -> (forall a, calm any (ok a)) -> (forall e, calm any (bad e)) ->
  calm any (match r with Ok a => ok a | Err e => bad e | Panic => lift Panic | UB => lift UB end).
Proof using . destruct r; simpl; intros; done || auto. Qed.

Lemma calm_ack_loop fuel id nonce start : calm any (ack_loop fuel id nonce start).
Proof using HC HR.
  induction fuel as [|fuel IH]; [by intros n Hn|]. cbn [ack_loop]. unfold elapsed_ms, write_reg_complete.
  apply (calm_bind any); [calm_go|intros now _]. case_match; [calm_go|]. apply (calm_bind any); [calm_go|intros o _].
  destruct o as [raw|]; [|apply IH]. apply calm_plain; [apply verify_ack_plain| |done]. intros _. calm_go.
Qed.

Lemma calm_peer_request fuel id f : calm any (peer_request_exchange fuel id f).
Proof using HC HR.
  unfold peer_request_exchange, build_peer_request_frame, elapsed_ms. calm_go.
  - apply calm_lift. repeat plain_step. apply decode_frame_plain.
  - apply decode_frame_plain.
  - apply calm_ack_loop.
Qed.

Lemma calm_wake_attempts k attempt f id nonce : calm any (wake_attempts k attempt f id nonce).
Proof using HC HR.
  revert attempt. induction k as [|k IH]; intros attempt; cbn [wake_attempts]; [calm_go|]. unfold delay_ms.
  do 3 (apply (calm_bind any); [calm_go|intros ? _]). case_match; [|apply IH].
  apply calm_plain; [apply verify_command_plain|intros; calm_go|intros; apply IH].
Qed.

Lemma calm_registration fuel id : calm any (registration fuel id).
Proof using HC HR.
  unfold registration, read_reg_complete, read_peer_payload, nvs_get, log_and_sleep, erase_peer_payload. calm_go. apply calm_peer_request.
Qed.

Context {I : Type} `{BpfInterpreter I}.
Context (W : Z) (HW : 32 <= W) (base : Z) (blob_addr : list Z -> Z) (firmware_version : list Z) (board : BoardLayout).

Lemma calm_wake_blob h mv : calm any (wake_blob firmware_version h mv).
Proof using HC.
  unfold wake_blob. apply (calm_bind any); [apply calm_piggyback|intros o _]. case_match; [|calm_go].
  apply calm_plain; [apply encode_plain|intros; calm_go..].
Qed.

Lemma calm_before fuel id : calm any (before_command firmware_version fuel id).
Proof using HC HR.
  unfold before_command, contact_gateway, determine_wake_reason, take_early_wake_flag, load_active_raw, read_schedule, read_program,
    read_last_battery_mv, health_check, random_u64, exchange, wake_command_exchange, read_reg_complete,
    has_peer_payload, read_peer_payload, nvs_get, erase_peer_payload, write_reg_complete, log_and_sleep.
  calm_go.
  all: first [apply calm_registration | apply calm_wake_blob | apply encode_plain | apply frame_plain | apply calm_wake_attempts].
Qed.

(** Without overflow checks the sequence number wraps. *)
Lemma calm_sealed id t cbor : calm any (send_sealed false id t cbor).
Proof using HR.
  unfold send_sealed, advance_seq. calm_go; [apply frame_plain|]. apply calm_lift. unfold arith_u. by case_match.
Qed.

Lemma calm_chunk_loop fuel id seq index deadline : calm any (chunk_loop fuel id seq index deadline).
Proof using HC HR.
  induction fuel as [|fuel IH]; [by intros n Hn|]. cbn [chunk_loop]. unfold elapsed_ms.
  apply (calm_bind any); [calm_go|intros now _]. case_match; [calm_go|]. apply (calm_bind any); [calm_go|intros o _].
  destruct o as [raw|]; [|calm_go]. pose proof (verify_chunk_plain raw id seq index) as Hp.
  destruct (verify_and_decode_chunk _ _ _ _) as [d|e| |]; [calm_go| |done..]. destruct e; first [apply IH | calm_go].
Qed.

Lemma calm_get_chunk fuel id index : calm any (get_chunk_with_retry false fuel id index).
Proof using HC HR.
  unfold get_chunk_with_retry. calm_go; [apply encode_plain|]. generalize 0 as attempt.
  induction (Z.to_nat _) as [|k IH]; intros attempt; cbn [chunk_attempts]; [calm_go|]. unfold elapsed_ms, delay_ms. calm_go.
  all: first [apply calm_sealed | apply calm_chunk_loop | apply IH].
Qed.

Lemma calm_transfer fuel id size csize count limit : calm any (chunked_transfer false fuel id size csize count limit).
Proof using HC HR.
  unfold chunked_transfer. do 3 (case_match; [calm_go|]). apply (calm_bind any); [|intros; calm_go].
  generalize (Z.to_nat count) as k, 0 as index, (@nil Z) as image. induction k as [|k IH]; intros; cbn [chunks_loop]; calm_go;
    first [apply calm_get_chunk | apply IH].
Qed.

Definition program_u32 (p : LoadedProgram) : Prop := Forall def_u32 (map_defs p).

Lemma validate_plain defs : plain (validate_map_defs W defs).
Proof using .
  unfold validate_map_defs. repeat plain_step. induction defs as [|d ds IH]; [done|]. simpl. unfold validate_def.
  repeat plain_step. exact IH.
Qed.

Lemma calm_install image h budget : calm program_u32 (install_resident W image h budget).
Proof using HC.
  unfold install_resident. case_match; [calm_go|]. eapply calm_bind; [apply calm_lift, image_result_plain|]. intros im Him.
  apply (calm_bind any); [apply calm_lift, validate_plain|intros _ _]. case_match; [calm_go|].
  unfold read_schedule, read_program, write_active_partition, nvs_get.
  apply (calm_bind any); [calm_go|intros [? active] _]. case_match; [calm_go|].
  apply (calm_bind any); [|intros _ _].
  { intros n Hn. unfold wp, write_program. by destruct (program_fault _ _) as [[? []] ?]. }
  apply (calm_bind any); [calm_go|intros o _]. apply (calm_bind any); [apply calm_lift; by destruct o|intros w _].
  case_match; [calm_go|]. apply (calm_bind any); [calm_go|intros _ _]. by apply calm_ret.
Qed.

Lemma ephemeral_plain image h : res_post program_u32 False (load_ephemeral image h).
Proof using HC.
  unfold load_ephemeral. case_match; [done|]. eapply res_post_bind; [apply image_result_plain|]. intros im Him.
  destruct (ProgramImage.maps im) eqn:Hm; [|done]. unfold res_post, program_u32. cbn. by rewrite Hm.
Qed.

Lemma calm_battery : calm any (persist_current_cycle_battery board).
Proof using .
  unfold persist_current_cycle_battery, capture_current_cycle_battery, adc_read_diagnostics, write_last_battery_mv. calm_go.
Qed.

Lemma calm_battery_sleep : calm any (capture_battery_then_sleep board).
Proof using .
  unfold capture_battery_then_sleep, log_and_sleep, enter_active_gpio_state, enter_idle_gpio_state, delay_ms. calm_go.
  apply calm_battery.
Qed.

(** A program, where there is one, has 32-bit map definitions. *)
Definition loaded_u32 {O} (r : O + LoadedProgram) : Prop := forall p, r = inr p -> program_u32 p.

Lemma calm_new_program fuel id ephemeral h size csize count :
  calm loaded_u32 (new_program W false board fuel id ephemeral h size csize count).
Proof using HC HR.
  assert (Hs : calm loaded_u32 (let! o := capture_battery_then_sleep board in mret (inl o))).
  { apply (calm_bind any); [apply calm_battery_sleep|]. intros o _. by apply calm_ret. }
  unfold new_program. apply (calm_bind any); [calm_go|intros _ _]. apply (calm_bind any); [calm_go; apply calm_transfer|].
  intros [e|image] _; [exact Hs|]. apply (calm_bind any); [calm_go|intros n _].
  eapply calm_bind.
  { apply (calm_try program_u32). destruct ephemeral; [apply calm_lift, ephemeral_plain|apply calm_install]. }
  intros [e|p] Hp; [exact Hs|]. apply (calm_bind any); [|intros [e|u] _; [exact Hs|]].
  { unfold send_program_ack. calm_go; [apply encode_plain|apply calm_sealed]. }
  apply (calm_bind any); [destruct ephemeral; calm_go|intros _ _]. apply calm_ret. intros ? [= <-]. by apply Hp.
Qed.

Definition dispatch_u32 (r : WakeCycleOutcome + (option LoadedProgram * bool)) : Prop :=
  forall p b, r = inr (Some p, b) -> program_u32 p.

Lemma calm_dispatch fuel id payload : calm dispatch_u32 (dispatch W false board fuel id payload).
Proof using HC HR.
  assert (Hp : forall e h s c k, calm dispatch_u32 (let! r := new_program W false board fuel id e h s c k in
    mret (match r with inl o => inl o | inr p => inr (Some p, false) end))).
  { intros. eapply calm_bind; [apply calm_new_program|]. intros [o|p] Hr; apply calm_ret; [done|].
    intros ? ? [= <- _]. by apply Hr. }
  destruct payload; cbn [dispatch]; try apply Hp; [| |by apply calm_ret].
  - apply (calm_bind any); [|intros _ _; by apply calm_ret]. unfold drain_queue. calm_go; [apply calm_drain|].
    match goal with |- calm _ (send_pending _ _ ?l) => induction l as [|blob l IH] end; cbn [send_pending]; calm_go; [|exact IH].
    unfold send_app_data, app_data_cbor. calm_go; [|apply calm_sealed]. apply calm_lift. repeat plain_step. apply encode_plain.
  - apply (calm_bind any); [|intros _ _; by apply calm_ret]. unfold update_schedule, write_schedule_interval. calm_go.
Qed.

Lemma initial_plain budget defs initial :
  defs_fit budget defs -> plain (apply_initial_data W false (table base budget defs) initial).
Proof using HW.
  intros Hf. set (r := mkRtc (replicate (Z.to_nat MAP_BUDGET) 0) 0 (replicate (Z.to_nat MAX_MAPS) (mkMapDef 0 0 0 0))).
  assert (Hr : rtc_ok r) by (split; unfold len, r; cbn [backing rdefs]; rewrite length_replicate; by rewrite Z2Nat.id).
  destruct (holds_allocated W false HW base budget defs Hf r Hr) as [Hh _].
  destruct (holds_initial W false HW base budget defs Hf [] defs initial _ _ eq_refl Hh) as (ws & Hws & _).
  unfold apply_initial_data. cbn in Hws |- *. by rewrite Hws.
Qed.

Lemma calm_prepare p installed : program_u32 p -> calm any (prepare_maps W false base board p installed).
Proof using HW.
  intros Hp. unfold prepare_maps. case_match.
  { calm_go. apply calm_battery_sleep. }
  apply (calm_bind any); [calm_go|intros n _]. case_match; [|calm_go].
  destruct (allocate_outcomes W false HW base (storage n) (map_defs p) Hp) as [(Hf & _)|(_ & [(msg & ->)|(a & -> & _)])].
  2,3: apply (calm_bind (fun r => exists e, r = inl e)); [intros n1 Hn1; split; [by eexists|done]|]; intros ? [e ->];
    calm_go; apply calm_battery_sleep.
  rewrite (allocate_fit W false HW base (storage n) (map_defs p) Hp Hf).
  apply (calm_bind (fun r => r = inr (table base (budget_bytes (storage n)) (map_defs p), alloc_writes (map_defs p)))); [by intros n1 Hn1|].
  intros ? ->. apply (calm_bind any); [calm_go|intros _ _]. apply (calm_bind any); [by apply calm_lift, initial_plain|intros ws _]. calm_go.
Qed.

(** ** Where a cycle can be cut off *)

(** The cycle stopped, with [r], while the node ran a program under [id]. *)
Definition cut_in_program (fuel : nat) (id : NodeIdentity) (i : I) (r : NodeResult (WakeCycleOutcome * I)) (n' : Node E) : Prop :=
  exists p timestamp_ms received_at battery blob n1 r1,
    run_program W false base blob_addr fuel id p timestamp_ms received_at battery blob i n1 = Some (r1, n') /\
    returned r1 = false /\ r = fails r1.

Abbreviation ends_well fuel id i := (fun r n' => returned r = true \/ cut_in_program fuel id i r n').

Lemma calm_then {A} (P : A -> Prop) (m : M (Node E) A) (k : A -> M (Node E) (WakeCycleOutcome * I)) fuel id i n :
  calm P m -> queued n -> (forall a n', P a -> queued n' -> wp (k a) (ends_well fuel id i) n') ->
  wp (mbind m k) (ends_well fuel id i) n.
Proof using .
  intros Hm Hn Hk. apply wp_bind. eapply wp_mono; [by apply Hm|]. intros r n' [Hr Hn'].
  destruct r as [a|e| |]; [by apply Hk|by left|done..].
Qed.

Lemma decoded_u32 raw h p : decode_image raw h = Some p -> program_u32 p.
Proof using HC.
  unfold decode_image. pose proof (image_plain raw) as Hi. destruct (image_decode raw); [|done..]. by intros [= <-].
Qed.

(** The program a COMMAND leads to, if any, and its run. *)
Lemma execution_cut fuel id (prog : option LoadedProgram) installed ts rcv blob i n :
  (forall p, prog = Some p -> program_u32 p) -> queued n ->
  wp (let! p := match prog with Some p => prepare_maps W false base board p installed | None => mret (inr tt) end in
      match p with
      | inl o => mret (o, i)
      | inr _ =>
          enter_active_gpio_state ;;!
          delay_ms (active_gpio_settle_ms board) ;;!
          let! battery := persist_current_cycle_battery board in
          let! i := match prog with
                    | Some p => run_program W false base blob_addr fuel id p ts rcv battery blob i
                    | None => mret i
                    end in
          enter_idle_gpio_state ;;!
          let! n := mget in
          (if will_wake_early (sleep_mgr n) then let! _ := mtry set_early_wake_flag in mret tt else mret tt) ;;!
          let! o := log_and_sleep in
          mret (o, i)
      end) (ends_well fuel id i) n.
Proof using HC HW.
  intros Hp Hn. eapply (calm_then any); [destruct prog; [by apply calm_prepare, Hp|calm_go]|done|].
  intros [o|_] n1 _ Hn1; [by left|]. unfold enter_active_gpio_state, delay_ms.
  do 2 (eapply (calm_then any); [apply calm_env|done|intros _ ? _ ?]).
  eapply (calm_then any); [apply calm_battery|done|intros battery n4 _ Hn4].
  assert (Hrest : forall (j : I) n5, wp (enter_idle_gpio_state ;;! let! n := mget in
    (if will_wake_early (sleep_mgr n) then let! _ := mtry set_early_wake_flag in mret tt else mret tt) ;;!
    let! o := log_and_sleep in mret (o, j)) (ends_well fuel id i) n5).
  { intros j n5. unfold wp, mbind, enter_idle_gpio_state, env_op, mget, mtry, set_early_wake_flag, nvs_write, log_and_sleep, mret.
    cbn. destruct (will_wake_early _); [|by left]. unfold mbind. destruct (flash_fault _) as [[]]; by left. }
  destruct prog as [p|]; [|apply wp_bind, wp_ret, Hrest]. apply wp_bind. unfold wp at 1.
  destruct (run_program _ _ _ _ _ _ _ _ _ _ _ _ _) as [[[j|e| |] n5]|] eqn:Hrun; [apply Hrest|by left|right..|done].
  all: by eexists p, ts, rcv, battery, blob, n4, _.
Qed.

Lemma after_command_cut fuel id h res cmd i n :
  queued n -> wp (after_command W false base blob_addr board fuel id h res cmd i) (ends_well fuel id i) n.
Proof using HC HR HW.
  destruct cmd as [[[seq ts] payload] blob]. intros Hn. unfold after_command.
  eapply (calm_then any); [by apply calm_mod|done|intros _ n1 _ Hn1].
  eapply (calm_then any); [apply calm_env|done|intros rcv n2 _ Hn2].
  eapply calm_then; [apply calm_dispatch|done|]. intros [o|[loaded usable]] n3 Hl Hn3; [by left|].
  apply execution_cut; [|done]. intros p. destruct loaded as [q|]; [intros [= <-]; by eapply Hl|].
  destruct usable; [|done]. intros (raw & _ & Hd)%bind_Some. by eapply decoded_u32.
Qed.

(** Built without overflow checks, a cycle that starts with an intact queue comes to a
    result, unless the program it runs cuts it off. *)
Lemma cycle_cut fuel i n :
  queued n -> wp (run_wake_cycle W false base blob_addr firmware_version board fuel i)
    (fun r n' => returned r = true \/
       exists hint k, key (nvs n) = Some (hint, k) /\ cut_in_program fuel (mkIdentity hint k) i r n') n.
Proof using HC HR HW.
  intros Hn. unfold run_wake_cycle. apply wp_bind, wp_bind, wp_get, wp_ret. destruct (key (nvs n)) as [[hint k]|]; [|by left].
  eapply wp_mono.
  - eapply (calm_then any); [apply calm_before|done|]. intros [o|[[h res] cmd]] n1 _ Hn1; [by left|]. by apply after_command_cut.
  - intros r n' [?|?]; [by left|right]. by exists hint, k.
Qed.
End Panics.
