(* ===== verification/BpfAdapter.v ===== *)
(** * The interpreter adapter

    [sonde-node/src/sonde_bpf_adapter.rs]: the interpreter of [sonde-bpf] behind
    the interface the wake cycle uses.  [execute] runs the interpreter's own
    [step]; a step that calls a registered helper becomes a node of the call
    tree, continued with the helper's result.

    The theorems tie the tree to [execute_program]: under helpers that are
    functions of memory it computes exactly that run, and under any helpers that
    stay within the bytes a program may write it keeps the interpreter's safety
    guarantees at every call. *)

From Stdlib Require Import String.
From S2P Require Import Prelude ProgramImage MapStorage AsyncQueue NodeM NodeState NodeRadio NodeStore BpfDispatch WakeCycle NodeLogic.
From S2P Require Import Ebpf BpfTypes BpfSpill BpfMem BpfAlu BpfExec BpfInv BpfSafety.
Open Scope list_scope.
Open Scope Z_scope.

(** ** State *)

Record HelperEntry := mkEntry { h_id : Z; h_func : HelperFn; h_ret : HelperReturn }.

Record SondeBpfInterpreter := mkInterp {
  i_helpers : list HelperEntry;
  i_bytecode : option (list Z);
  i_map_regions : list MapRegion
}.

Definition interp_new : SondeBpfInterpreter := mkInterp [] None [].

Definition CONTEXT_SIZE : Z := 32.

(** ** Registration and loading *)

Definition sonde_register_helper (i : SondeBpfInterpreter) (id : Z) (f : HelperFn) :
    Res Runtime.BpfError SondeBpfInterpreter :=
  let ret := if id =? MAP_LOOKUP_ELEM then MapValueOrNull 1 else Scalar in
  let hs := i_helpers i in
  match list_find (fun d => h_id d = id) hs with
  | Some (k, _) => Ok (mkInterp (<[k := mkEntry id f ret]> hs) (i_bytecode i) (i_map_regions i))
  | None => Ok (mkInterp (hs ++ [mkEntry id f ret]) (i_bytecode i) (i_map_regions i))
  end.

Definition region_of (index : Z) (p : Z) (d : MapDef) : Res Runtime.BpfError MapRegion :=
  if p =? 0 then Err (Runtime.MapLoadError index "null pointer") else
  let? entry := ok_or (checked_add 64 (ProgramImage.key_size d) (ProgramImage.value_size d))
    (Runtime.MapLoadError index "entry size overflow (key_size + value_size)") in
  let? total := ok_or (checked_mul 64 entry (max_entries d))
    (Runtime.MapLoadError index "total size overflow (entry_size * max_entries)") in
  let? end_ := ok_or (checked_add 64 p total) (Runtime.MapLoadError index "pointer + size overflow") in
  Ok (mkMap p (ProgramImage.key_size d) (ProgramImage.value_size d) p end_).

Fixpoint regions_of (index : Z) (l : list (Z * MapDef)) : Res Runtime.BpfError (list MapRegion) :=
  match l with
  | [] => Ok []
  | (p, d) :: l' =>
      let? r := region_of index p d in
      let? rs := regions_of (index + 1) l' in
      Ok (r :: rs)
  end.

Definition sonde_load (i : SondeBpfInterpreter) (bytecode : list Z) (map_ptrs : list Z) (map_defs : list MapDef) :
    Res Runtime.BpfError SondeBpfInterpreter :=
  match bytecode with
  | [] => Err (Runtime.InvalidBytecode "empty bytecode")
  | _ =>
      if negb (len bytecode mod 8 =? 0)
      then Err (Runtime.InvalidBytecode "bytecode length must be a multiple of 8") else
      if negb (len map_ptrs =? len map_defs)
      then Err (Runtime.LoadError "map_ptrs and map_defs length mismatch") else
      let? rs := regions_of 0 (zip map_ptrs map_defs) in
      Ok (mkInterp (i_helpers i) (Some bytecode) rs)
  end.

(** ** Execution *)

Definition map_error (e : BpfTypes.BpfError) : Runtime.BpfError :=
  match e with
  | InstructionBudgetExceeded _ => Runtime.InstructionBudgetExceeded
  | CallDepthExceeded _ => Runtime.CallDepthExceeded
  | UnknownHelper _ id => Runtime.HelperNotRegistered id
  | OutOfBounds _ | UnknownOpcode _ _ => Runtime.InvalidBytecode "invalid or out-of-bounds bytecode"
  | InvalidMapIndex _ _ | InvalidHelperArgument _ _ => Runtime.LoadError "invalid map index or helper argument"
  | _ => Runtime.RuntimeError "BPF runtime error"
  end.

(** Bytes laid down from [a] on, live from then on. *)
Fixpoint place_bytes (m : memory) (a : Z) (bs : list Z) : memory :=
  match bs with
  | [] => m
  | x :: bs' => <[a := x]> (place_bytes m (a + 1) bs')
  end.

(** A write to live memory. *)
Definition poke (m : memory) (w : Z * list Z) : memory := default m (store_bytes m w.1 w.2).

Definition pokes (m : memory) (ws : list (Z * list Z)) : memory := fold_left poke ws m.

Definition peek_of (m : memory) : Peek := fun p n => load_bytes m p (Z.to_nat n).

Definition set_helpers (e : BpfExec.Env) (hs : list HelperDescriptor) : BpfExec.Env :=
  mkEnv (build e) (prog e) (ctx_base e) (ctx_len e) hs (BpfExec.maps e) (read_only_ctx e)
    (instruction_budget e) (ctx_ptrs e) (stack_base e).

Section Adapter.
(** The build of [sonde-bpf] and the addresses of the map buffer, the context
    buffer and the stack; [rest] is other live memory, such as a COMMAND's blob. *)
Context (b : Build) (map_base cbase sbase : Z) (rest : memory).

(** The map buffer as memory holds it. *)
Definition buffer_of (m : memory) : list Z := default [] (load_bytes m map_base (Z.to_nat MAP_BUDGET)).

(** What a helper that returned [o] and left [buf] in the map buffer did to memory. *)
Definition after_helper (m : memory) (o : HelperOut) (buf : list Z) : memory := pokes (poke m (map_base, buf)) o.2.

(** The state and instruction of the next step, if it is a helper call. *)
Definition called (e : BpfExec.Env) (v : VM) : option (VM * Insn) :=
  if pc v <? num_insns e then
    match arith_u (overflow_checks (build e)) 64 (insn_count v + 1) : Exec Z with
    | Ok count =>
        if count >? instruction_budget e then None else
        match get_insn (prog e) (pc v) : Exec Insn with
        | Ok i =>
            if (dst i >? 10) || (src i >? 10) then None else
            if (opc i =? CALL) && ((src i =? 0) || (src i =? 2))
            then Some (set_pc (set_count v count) (pc v + 1), i) else None
        | _ => None
        end
    | _ => None
    end
  else None.

(** The registered helper the next step calls, if it calls one. *)
Definition next_call (e : BpfExec.Env) (table : list HelperEntry) (v : VM) : option HelperEntry :=
  '(_, i) ← called e v; snd <$> list_find (fun d => h_id d = as_u32 (imm i)) table.

(** The descriptor of a helper that returns [o] and leaves [buf]. *)
Definition answered (d : HelperEntry) (o : HelperOut) (buf : list Z) : HelperDescriptor :=
  mkHelper (h_id d) (fun _ _ _ _ _ m => (o.1, after_helper m o buf)) (h_ret d).

Definition finish (r : Exec (Z * memory)) (m : memory) : Run :=
  match r with
  | Ok (x, m') => Done (Ok x) (buffer_of m')
  | Err err => Done (Err (map_error err)) (buffer_of m)
  | Panic => Done Panic (buffer_of m)
  | UB => Done UB (buffer_of m)
  end.

(** The loop of the interpreter as a tree of helper calls. *)
Fixpoint tree (fuel : nat) (e : BpfExec.Env) (table : list HelperEntry) (v : VM) : Run :=
  match fuel with
  | O => OutOfFuel
  | S fuel' =>
      let continue (r : Exec Ctl) (m : memory) : Run :=
        match r with
        | Ok (Continue v') => tree fuel' e table v'
        | Ok (Return x m') => finish (Ok (x, m')) m
        | Err err => finish (Err err) m
        | Panic => finish Panic m
        | UB => finish UB m
        end in
      match next_call e table v with
      | Some d =>
          let r k := value (rget (reg v) k) in
          Call (h_func d) (r 1) (r 2) (r 3) (r 4) (r 5) (peek_of (mem v)) (buffer_of (mem v))
            (fun o buf => continue (step (set_helpers e [answered d o buf]) v) (after_helper (mem v) o buf))
      | None => continue (step (set_helpers e []) v) (mem v)
      end
  end.

Definition run_env (prog : list Z) (regions : list MapRegion) (hs : list HelperDescriptor) (budget : Z) : BpfExec.Env :=
  mkEnv b prog cbase CONTEXT_SIZE hs regions true budget [] sbase.

(** Memory when the interpreter starts: the context buffer and the map buffer. *)
Definition run_mem (ctx buffer : list Z) : memory := place_bytes (place_bytes rest map_base buffer) cbase ctx.

(** As in [execute_program], with the loop as a tree; the fuel is the budget. *)
Definition sonde_execute (i : SondeBpfInterpreter) (ctx : list Z) (budget : Z) (buffer : list Z) : Run :=
  match i_bytecode i with
  | None => Done (Err (Runtime.LoadError "no program loaded")) buffer
  | Some prog =>
      let e := run_env prog (i_map_regions i) [] budget in
      let m := run_mem ctx buffer in
      if negb (len prog mod INSN_SIZE =? 0) then finish (Err (OutOfBounds (num_insns e))) m else
      match checked_add 64 sbase (STACK_SIZE b), checked_add 64 cbase CONTEXT_SIZE with
      | Some _, Some _ => tree (S (Z.to_nat budget)) e (i_helpers i) (init_vm e m)
      | _, _ => finish Panic m
      end
  end.

#[export] Instance SondeBpf : BpfInterpreter SondeBpfInterpreter := {
  register_helper := sonde_register_helper;
  load := sonde_load;
  execute := sonde_execute
}.

(** ** The tree is the interpreter *)

(** Helpers that are functions of their arguments and of memory. *)
Definition Handler : Type := HelperFn -> Z -> Z -> Z -> Z -> Z -> Peek -> list Z -> HelperOut * list Z.

Fixpoint interp (h : Handler) (t : Run) : option (Res Runtime.BpfError Z) :=
  match t with
  | OutOfFuel => None
  | Done r _ => Some r
  | Call f r1 r2 r3 r4 r5 peek buf k => let '(o, buf') := h f r1 r2 r3 r4 r5 peek buf in interp h (k o buf')
  end.

(** The same helpers as [execute_program] takes them. *)
Definition described (h : Handler) (d : HelperEntry) : HelperDescriptor :=
  mkHelper (h_id d) (fun r1 r2 r3 r4 r5 m =>
    let '(o, buf) := h (h_func d) r1 r2 r3 r4 r5 (peek_of m) (buffer_of m) in (o.1, after_helper m o buf)) (h_ret d).

Definition result_of (r : Exec (Z * memory)) : Res Runtime.BpfError Z := map_err map_error (res_map fst r).

Lemma list_find_described h table x :
  list_find (fun d => id d = x) (described h <$> table) =
  (fun '(k, d) => (k, described h d)) <$> list_find (fun d => h_id d = x) table.
Proof using .
  rewrite list_find_fmap. unfold compose. cbn.
  by destruct (list_find _ table) as [[? ?]|].
Qed.

(** A step depends on the helpers only through the one it calls. *)
Lemma step_helpers e hs hs' v :
  (forall v' i, called e v = Some (v', i) ->
     call_helper (set_helpers e hs) v' i = call_helper (set_helpers e hs') v' i) ->
  step (set_helpers e hs) v = step (set_helpers e hs') v.
Proof using .
  unfold called, step. intros Hc. change (num_insns (set_helpers e hs)) with (num_insns e).
  change (num_insns (set_helpers e hs')) with (num_insns e).
  destruct (pc v <? num_insns e); [|done]. cbn.
  destruct (arith_u _ 64 _) as [count|?| |]; cbn; try done.
  destruct (count >? _); [done|].
  destruct (get_insn _ _) as [i|?| |]; cbn; try done.
  destruct ((dst i >? 10) || (src i >? 10)); [done|].
  set (w := set_pc (set_count v count) (pc v + 1)) in *. unfold exec_insn.
  change (exec_ld_dw_imm (set_helpers e hs)) with (exec_ld_dw_imm (set_helpers e hs')).
  change (exec_ldx (set_helpers e hs)) with (exec_ldx (set_helpers e hs')).
  change (exec_st (set_helpers e hs)) with (exec_st (set_helpers e hs')).
  change (exec_atomic (set_helpers e hs)) with (exec_atomic (set_helpers e hs')).
  change (exec_jmp (set_helpers e hs)) with (exec_jmp (set_helpers e hs')).
  change (exec_exit (set_helpers e hs)) with (exec_exit (set_helpers e hs')).
  change (build (set_helpers e hs)) with (build (set_helpers e hs')).
  destruct (opc i =? CALL); [|done].
  enough (exec_call (set_helpers e hs) w i = exec_call (set_helpers e hs') w i) as -> by done.
  unfold exec_call. destruct ((src i =? 0) || (src i =? 2)) eqn:Hs; [|done].
  apply Hc. done.
Qed.

Lemma called_none_step e hs v : called e v = None -> step (set_helpers e hs) v = step (set_helpers e []) v.
Proof using . intros Hn. apply step_helpers. by rewrite Hn. Qed.

(** The interpreter under the described helpers, step by step. *)
Lemma step_described h e table v :
  step (set_helpers e (described h <$> table)) v =
  match next_call e table v with
  | Some d =>
      let r k := value (rget (reg v) k) in
      let '(o, buf) := h (h_func d) (r 1) (r 2) (r 3) (r 4) (r 5) (peek_of (mem v)) (buffer_of (mem v)) in
      step (set_helpers e [answered d o buf]) v
  | None => step (set_helpers e []) v
  end.
Proof using .
  unfold next_call. destruct (called e v) as [[w i]|] eqn:Hcall; [|by apply called_none_step].
  assert (Hw : reg w = reg v /\ mem w = mem v).
  { unfold called in Hcall. repeat case_match; by simplify_eq. }
  destruct Hw as [Hr Hm]. cbn.
  destruct (list_find _ table) as [[k d]|] eqn:Hf; cbn.
  - destruct (h _ _ _ _ _ _ _ _) as [o buf] eqn:Hh. apply step_helpers. intros w' i' Hc'.
    assert (w' = w /\ i' = i) as [-> ->] by (split; congruence).
    unfold call_helper. cbn. rewrite list_find_described, Hf. cbn.
    apply list_find_Some in Hf as (_ & Hid & _). rewrite decide_True by done. cbn.
    by rewrite Hr, Hm, Hh.
  - apply step_helpers. intros w' i' Hc'. assert (w' = w /\ i' = i) as [-> ->] by (split; congruence).
    unfold call_helper. cbn. by rewrite list_find_described, Hf.
Qed.

Lemma tree_run h e table fuel v :
  interp h (tree fuel e table v) = result_of <$> run (set_helpers e (described h <$> table)) fuel v.
Proof using .
  revert v. induction fuel as [|fuel IH]; intros v; [done|]. cbn [tree run].
  rewrite step_described. destruct (next_call e table v) as [d|].
  - cbn [interp]. destruct (h _ _ _ _ _ _ _ _) as [o buf].
    destruct (step _ v) as [[v'|x m']|?| |]; cbn; [apply IH|done..].
  - destruct (step _ v) as [[v'|x m']|?| |]; cbn; [apply IH|done..].
Qed.

Definition metered (budget : Z) : Prop := 0 <= budget < UNLIMITED_BUDGET.

Lemma tree_ends_fuel fuel e table v :
  0 <= insn_count v <= instruction_budget e -> metered (instruction_budget e) ->
  instruction_budget e - insn_count v < Z.of_nat fuel -> tree_ends (tree fuel e table v).
Proof using .
  revert v. induction fuel as [|fuel IH]; intros v Hc [H0 Hb] Hf; [lia|]. cbn [tree].
  assert (Hk : forall hs v', step (set_helpers e hs) v = Ok (Continue v') -> tree_ends (tree fuel e table v')).
  { intros hs v' Hs. pose proof (step_count (set_helpers e hs) v v' Hc Hb Hs) as Hs'. cbn in Hs'. apply IH; [lia|done|lia]. }
  destruct (next_call e table v) as [d|].
  - cbn [tree_ends]. intros o buf. destruct (step _ v) as [[v'|x m']|?| |] eqn:Hs; try done. by eapply Hk.
  - destruct (step _ v) as [[v'|x m']|?| |] eqn:Hs; try done. by eapply Hk.
Qed.

Lemma execute_tree_ends i ctx budget buffer : metered budget -> tree_ends (sonde_execute i ctx budget buffer).
Proof using .
  intros Hb. unfold sonde_execute. case_match; [|done]. case_match; [done|]. case_match; [|done]. case_match; [|done].
  apply tree_ends_fuel; [|done|];
    [change (0 <= 0 <= budget)|change (budget - 0 < Z.of_nat (S (Z.to_nat budget)))]; unfold metered in Hb; lia.
Qed.

(** The adapter runs the interpreter: for helpers that are functions of their
    arguments and of memory, the tree of calls a loaded program unfolds to under a
    metered budget computes the result of [execute_program] with those helpers, its
    error translated. *)
Lemma adapter_runs_interpreter h i prog ctx budget buffer fuel :
  i_bytecode i = Some prog -> metered budget -> budget < Z.of_nat fuel ->
  exists r, execute_program (run_env prog (i_map_regions i) (described h <$> i_helpers i) budget) fuel (run_mem ctx buffer) = Some r /\
    interp h (sonde_execute i ctx budget buffer) = Some (result_of r).
Proof using .
  intros Hp Hb Hf. unfold sonde_execute, execute_program. rewrite Hp. cbn [BpfExec.prog build stack_base ctx_base ctx_len run_env].
  case_match; [by eexists|]. destruct (checked_add 64 sbase _); [|by eexists]. destruct (checked_add 64 cbase _); [|by eexists].
  set (e := run_env prog (i_map_regions i) [] budget).
  change (run_env _ _ (described h <$> i_helpers i) budget) with (set_helpers e (described h <$> i_helpers i)).
  set (e' := set_helpers e _). change (init_vm e (run_mem ctx buffer)) with (init_vm e' (run_mem ctx buffer)).
  destruct (run_terminates e' (S (Z.to_nat budget)) (init_vm e' (run_mem ctx buffer))) as [r Hr];
    [change (0 <= 0 <= budget); unfold metered in Hb; lia|apply Hb|change (budget - 0 < Z.of_nat (S (Z.to_nat budget))); lia|].
  exists r. split; [eapply run_fuel_mono; [|exact Hr]; unfold metered in Hb; lia|]. rewrite tree_run. fold e'. by rewrite Hr.
Qed.
End Adapter.
