(* ===== verification/BpfNode.v ===== *)
(** * Safety of BPF execution on the node

    The interpreter, its adapter, the map storage and the helper interface
    together: on the memory the node lays out for a run, a loaded program is safe
    whatever its instructions are, as long as each helper keeps to the bytes the
    program itself may write.  At every helper call and at the end of the run the
    map buffer is intact in size and content type. *)

From Stdlib Require Import String.
From S2P Require Import Prelude ProgramImage MapStorage AsyncQueue NodeM NodeState NodeRadio NodeStore BpfDispatch WakeCycle NodeLogic.
From S2P Require Import Ebpf BpfTypes BpfSpill BpfMem BpfAlu BpfExec BpfInv BpfSafety BpfAdapter.
Open Scope list_scope.
Open Scope Z_scope.

(** ** The contract does not depend on the helpers *)

Lemma granted_helpers e hs g : granted e g -> granted (set_helpers e hs) g.
Proof.
  destruct 1 as [| |idx Hi|mp lo Hm H1 H2|cpf Hc].
  - apply (granted_stack (set_helpers e hs)).
  - apply (granted_ctx (set_helpers e hs)).
  - by apply granted_desc.
  - by apply granted_map.
  - by apply granted_ptr.
Qed.

Lemma vm_ok_helpers e hs m v : vm_ok e m v -> vm_ok (set_helpers e hs) m v.
Proof.
  assert (Hreg : forall r, reg_ok e r -> reg_ok (set_helpers e hs) r).
  { intros r [H1 H2]. split; [done|]. intros g Hg. by apply granted_helpers, H2. }
  intros [H1 H2 H3 H4 (S1 & S2 & S3) H6 H7 H8 H9 H10]. constructor; try done.
  - eapply List.Forall_impl; [exact Hreg|exact H2].
  - split; [done|]. split; [done|]. eapply List.Forall_impl; [|exact S3]. intros en. apply granted_helpers.
  - eapply List.Forall_impl; [|exact H7]. intros f (F1 & F2 & F3 & F4 & F5 & F6). do 3 (split; [done|]). split; [|done].
    eapply List.Forall_impl; [|exact F4]. intros o Ho g Hg. by apply granted_helpers, Ho.
Qed.

Lemma vm_ok_unset e hs m v : vm_ok (set_helpers e hs) m v -> vm_ok e m v.
Proof. intros Hv. destruct e. exact (vm_ok_helpers _ _ m v Hv). Qed.

Section Safe.
Context (map_base : Z).

(** ** What a helper may do *)

(** It returns a [u64], and the bytes it changed - in the map buffer or through a
    pointer - are bytes the program may write. *)
Definition out_ok (e : BpfExec.Env) (buffer : list Z) (o : HelperOut) (buffer' : list Z) : Prop :=
  uN 64 o.1 /\ bytes_ok buffer' /\ length buffer' = length buffer /\
  (forall k, ~ writable e (map_base + Z.of_nat k) -> buffer' !! k = buffer !! k) /\
  Forall (fun w : Z * list Z => bytes_ok w.2 /\ forall a, w.1 <= a < w.1 + len w.2 -> writable e a) o.2.

Lemma store_bytes_at m p l m' k :
  store_bytes m p l = Some m' -> (k < length l)%nat -> m' !! (p + Z.of_nat k) = l !! k.
Proof using .
  revert m p k. induction l as [|x l IH]; intros m p k; simpl; [lia|].
  destruct (m !! p) as [y|]; [|done]. intros Hs Hk. destruct k as [|k]; simpl.
  - destruct (store_bytes_frame _ _ _ _ Hs) as [_ F]. rewrite F by lia. by rewrite Z.add_0_r, lookup_insert_eq.
  - rewrite <- (IH _ _ k Hs) by lia. f_equal. lia.
Qed.

Lemma load_bytes_at m p n l k : load_bytes m p n = Some l -> (k < n)%nat -> m !! (p + Z.of_nat k) = l !! k.
Proof using .
  revert p l k. induction n as [|n IH]; intros p l k; simpl; [lia|].
  destruct (m !! p) as [x|] eqn:Hx; [|done]. destruct (load_bytes m (p + 1) n) as [l'|] eqn:Hl; [|done].
  intros [= <-] Hk. destruct k as [|k]; simpl; [by rewrite Z.add_0_r|].
  rewrite <- (IH _ _ k Hl) by lia. f_equal. lia.
Qed.

Lemma poke_frame (P : Z -> Prop) m w :
  mem_ok m -> bytes_ok w.2 -> (forall a, w.1 <= a < w.1 + len w.2 -> P a) ->
  mem_ok (poke m w) /\ mem_frame P m (poke m w).
Proof using .
  intros Hm Hb HP. unfold poke. destruct (store_bytes m w.1 w.2) as [m'|] eqn:Hs; [|by split; [|apply mem_frame_refl]].
  split; [by eapply store_bytes_mem_ok|]. destruct (store_bytes_frame _ _ _ _ Hs) as [L F]. split; [done|].
  intros a Ha. apply F. intros Hin. by apply Ha, HP.
Qed.

Lemma pokes_frame (P : Z -> Prop) ws m :
  mem_ok m -> Forall (fun w : Z * list Z => bytes_ok w.2 /\ forall a, w.1 <= a < w.1 + len w.2 -> P a) ws ->
  mem_ok (pokes m ws) /\ mem_frame P m (pokes m ws).
Proof using .
  intros Hm Hws. revert m Hm. induction Hws as [|w ws [Hb HP] _ IH]; intros m Hm; [by split; [|apply mem_frame_refl]|].
  destruct (poke_frame P m w Hm Hb HP) as [Hm1 Hf1]. destruct (IH _ Hm1) as [Hm2 Hf2].
  split; [done|]. by eapply mem_frame_trans.
Qed.

Definition buffer_live (m : memory) : Prop := live m map_base (map_base + MAP_BUDGET).

Lemma buffer_of_live m :
  buffer_live m -> load_bytes m map_base (Z.to_nat MAP_BUDGET) = Some (buffer_of map_base m) /\
  length (buffer_of map_base m) = Z.to_nat MAP_BUDGET.
Proof using .
  intros Hl. destruct (load_bytes_live m map_base (Z.to_nat MAP_BUDGET)) as (l & Hl' & Hlen).
  { replace (map_base + Z.of_nat (Z.to_nat MAP_BUDGET)) with (map_base + MAP_BUDGET) by (unfold MAP_BUDGET; lia). done. }
  unfold buffer_of. rewrite Hl'. simpl. by split.
Qed.

(** The helper's effect on memory stays within the writable bytes. *)
Lemma after_helper_frame e m o buf :
  mem_ok m -> buffer_live m -> out_ok e (buffer_of map_base m) o buf ->
  mem_ok (after_helper map_base m o buf) /\ mem_frame (writable e) m (after_helper map_base m o buf).
Proof using .
  intros Hm Hlive (_ & Hb & Hlen & Hsame & Hws). destruct (buffer_of_live m Hlive) as [Hload Hbl].
  unfold after_helper. assert (Hlb : len buf = MAP_BUDGET) by (unfold len, MAP_BUDGET in *; lia).
  destruct (store_bytes_live m map_base buf) as [m1 Hs]; [by rewrite Hlb|].
  assert (Hp : poke m (map_base, buf) = m1) by (unfold poke; simpl; by rewrite Hs). rewrite Hp.
  assert (Hm1 : mem_ok m1) by by eapply store_bytes_mem_ok.
  destruct (pokes_frame (writable e) o.2 m1 Hm1 Hws) as [Hm2 Hf2]. split; [done|].
  eapply mem_frame_trans; [|exact Hf2]. destruct (store_bytes_frame _ _ _ _ Hs) as [L F]. split; [done|].
  intros a Ha. destruct (decide (map_base <= a < map_base + MAP_BUDGET)) as [Hin|Hout].
  2: { apply F. by rewrite Hlb. }
  assert (Hk : a = map_base + Z.of_nat (Z.to_nat (a - map_base))) by lia.
  rewrite Hk in Ha |- *. set (k := Z.to_nat (a - map_base)) in *.
  assert (Hk2 : (k < Z.to_nat MAP_BUDGET)%nat) by lia.
  rewrite (store_bytes_at _ _ _ _ k Hs) by (rewrite Hlen, Hbl; done).
  rewrite (load_bytes_at _ _ _ _ k Hload) by done. by apply Hsame.
Qed.

(** ** Safe trees *)

Definition buffer_ok (b : list Z) : Prop := len b = MAP_BUDGET /\ bytes_ok b.

(** At every call the arguments are [u64] values and the buffer is intact, and
    whatever an acceptable helper answers, so is what follows; the end is never
    undefined behaviour, nor a panic in a build without overflow checks. *)
Fixpoint run_safe (e : BpfExec.Env) (t : Run) : Prop :=
  match t with
  | OutOfFuel => True
  | Done r b =>
      buffer_ok b /\ r <> UB /\ (overflow_checks (build e) = false -> r <> Panic) /\ (forall x, r = Ok x -> uN 64 x)
  | Call f r1 r2 r3 r4 r5 peek b k =>
      buffer_ok b /\ Forall (uN 64) [r1; r2; r3; r4; r5] /\ forall o b', out_ok e b o b' -> run_safe e (k o b')
  end.

Context (e : BpfExec.Env) (m0 : memory) (Henv : env_ok e m0) (Hno : helpers e = []).
Context (Hbuf : buffer_live m0).

Lemma env_ok_helpers hs : Forall (helper_ok e) hs -> env_ok (set_helpers e hs) m0.
Proof using Henv. intros Hhs. by destruct Henv; constructor. Qed.

Lemma inv_buffer m : mem_inv e m0 m -> buffer_live m /\ buffer_ok (buffer_of map_base m).
Proof using Henv Hbuf.
  intros [Hm Hf]. assert (Hl : buffer_live m).
  { eapply mem_frame_live; [exact Hf|]. by apply start_mem_live. }
  split; [done|]. destruct (buffer_of_live m Hl) as [Hload Hlen].
  split; [unfold len; unfold MAP_BUDGET in *; lia|by eapply load_bytes_ok].
Qed.

(** An answer given once, for the memory it was given in. *)
Definition once (d : HelperEntry) (m : memory) (o : HelperOut) (buf : list Z) : HelperDescriptor :=
  mkHelper (h_id d) (fun _ _ _ _ _ m' => if decide (m' = m) then (o.1, after_helper map_base m o buf) else (0, m')) (h_ret d).

Lemma once_ok d m o buf :
  mem_ok m -> buffer_live m -> out_ok e (buffer_of map_base m) o buf -> helper_ok e (once d m o buf).
Proof using .
  intros Hm Hl Ho a1 a2 a3 a4 a5 m1 r m2 Hm1. simpl. case_decide as Hd; intros [= <- <-].
  - subst m1. split; [apply Ho|]. by apply after_helper_frame.
  - split_and!; [unfold uN; lia|done|apply mem_frame_refl].
Qed.

Lemma called_mem e' v w i : called e' v = Some (w, i) -> mem w = mem v.
Proof using . unfold called. intros H. repeat case_match; by simplify_eq. Qed.

Lemma step_once d o buf v :
  step (set_helpers e [answered map_base d o buf]) v = step (set_helpers e [once d (mem v) o buf]) v.
Proof using .
  apply step_helpers. intros w i Hc. apply called_mem in Hc. unfold call_helper. cbn.
  destruct (decide (h_id d = as_u32 (imm i))); cbn; [|done]. rewrite Hc, decide_True by done. done.
Qed.

(** A step of the tree keeps the invariant. *)
Lemma tree_step hs v :
  Forall (helper_ok e) hs -> vm_ok e (start_mem e m0) v ->
  res_post (ctl_ok e m0) (overflow_checks (build e) = true) (step (set_helpers e hs) v).
Proof using Henv.
  intros Hhs Hv. pose proof (step_post (set_helpers e hs) m0 (env_ok_helpers hs Hhs) v) as Hp.
  specialize (Hp (vm_ok_helpers e hs _ v Hv)).
  destruct (step (set_helpers e hs) v) as [[v'|x m]| | |]; try done. by apply vm_ok_unset in Hp.
Qed.

Lemma tree_safe fuel table v : inv e m0 v -> run_safe e (tree map_base fuel e table v).
Proof using Henv Hbuf.
  revert v. induction fuel as [|fuel IH]; intros v Hv; [done|]. cbn [tree].
  pose proof (inv_mem e m0 v Hv) as Hmem. destruct (inv_buffer _ Hmem) as [Hl Hb].
  assert (Hk : forall hs m, Forall (helper_ok e) hs -> buffer_ok (buffer_of map_base m) ->
    run_safe e match step (set_helpers e hs) v with
               | Ok (Continue v') => tree map_base fuel e table v'
               | Ok (Return x m') => finish map_base (Ok (x, m')) m
               | Err err => finish map_base (Err err) m
               | Panic => finish map_base Panic m
               | UB => finish map_base UB m
               end).
  { intros hs m Hhs Hm. pose proof (tree_step hs v Hhs Hv) as Hp.
    destruct (step (set_helpers e hs) v) as [[v'|x m']|?| |]; simpl in Hp; try done.
    - by apply IH.
    - destruct Hp as [Hx Hm']. split; [by apply inv_buffer|]. split; [done|]. split; [done|]. by intros ? [= <-].
    - split; [done|]. split; [done|]. split; [congruence|done]. }
  destruct (next_call e table v) as [d|].
  - cbn [run_safe]. split; [done|]. split.
    + pose proof (inv_regs e m0 v Hv) as Hrs.
      repeat (apply List.Forall_cons; [apply (regs_ok_rget e _ _ Hrs); lia|]). constructor.
    + intros o buf Ho. rewrite step_once. apply Hk.
      * constructor; [|constructor]. apply once_ok; [apply Hmem|done|done].
      * destruct (after_helper_frame e (mem v) o buf (proj1 Hmem) Hl Ho) as [Hm2 Hf2].
        apply inv_buffer. split; [done|]. eapply mem_frame_trans; [apply Hmem|exact Hf2].
  - by apply Hk.
Qed.
End Safe.

(** ** The node's memory *)

(** The addresses of the map buffer, the context buffer and the stack: separate
    ranges of the address space, with [rest] the other live memory. *)
Record platform_ok (b : Build) (map_base cbase sbase : Z) (rest : memory) : Prop := {
  po_build : build_ok b;
  po_map : 0 < map_base /\ map_base + MAP_BUDGET < 2 ^ usize_bits b;
  po_ctx : 0 <= cbase /\ cbase + CONTEXT_SIZE < 2 ^ usize_bits b;
  po_stack : 0 <= sbase /\ sbase + STACK_SIZE b < 2 ^ usize_bits b;
  po_map_ctx : map_base + MAP_BUDGET <= cbase \/ cbase + CONTEXT_SIZE <= map_base;
  po_map_stack : map_base + MAP_BUDGET <= sbase \/ sbase + STACK_SIZE b <= map_base;
  po_ctx_stack : cbase + CONTEXT_SIZE <= sbase \/ sbase + STACK_SIZE b <= cbase;
  po_rest : mem_ok rest;
  po_rest_stack : forall a, sbase <= a < sbase + STACK_SIZE b -> rest !! a = None
}.

Lemma place_bytes_lookup m p l a :
  place_bytes m p l !! a = if decide (p <= a < p + len l) then l !! Z.to_nat (a - p) else m !! a.
Proof.
  revert p. induction l as [|x l IH]; intros p; simpl.
  - case_decide as Hd; [unfold len in Hd; simpl in Hd; lia|done].
  - rewrite len_cons. pose proof (len_nonneg l). destruct (decide (a = p)) as [->|Hne].
    + rewrite lookup_insert_eq, decide_True by lia. by replace (Z.to_nat (p - p)) with 0%nat by lia.
    + rewrite lookup_insert_ne, IH by done. repeat case_decide; try lia; [|done].
      by replace (Z.to_nat (a - p)) with (S (Z.to_nat (a - (p + 1)))) by lia.
Qed.

Lemma place_bytes_live m p l : live (place_bytes m p l) p (p + len l).
Proof.
  intros a Ha. rewrite place_bytes_lookup, decide_True by done. apply lookup_lt_is_Some. unfold len in Ha. lia.
Qed.

Lemma place_bytes_keeps m p l a : is_Some (m !! a) -> is_Some (place_bytes m p l !! a).
Proof. intros Hm. rewrite place_bytes_lookup. case_decide; [|done]. apply lookup_lt_is_Some. unfold len in *. lia. Qed.

Lemma place_bytes_ok m p l : mem_ok m -> bytes_ok l -> mem_ok (place_bytes m p l).
Proof.
  intros Hm Hl a x. rewrite place_bytes_lookup. case_decide; [|apply Hm]. intros Hx. by apply (list.Forall_lookup_1 _ _ _ _ Hl Hx).
Qed.

(** The regions of maps laid out from offset [off] of the buffer. *)
Fixpoint regions_at (map_base off : Z) (defs : list MapDef) : list MapRegion :=
  match defs with
  | [] => []
  | d :: ds =>
      mkMap (map_base + off) (ProgramImage.key_size d) (ProgramImage.value_size d) (map_base + off) (map_base + off + map_bytes d)
      :: regions_at map_base (off + map_bytes d) ds
  end.

Section Node.
Context (b : Build) (map_base cbase sbase : Z) (rest : memory).
Context (Hplat : platform_ok b map_base cbase sbase rest).

Lemma usize_le_u64 : 2 ^ usize_bits b <= 2 ^ 64.
Proof using Hplat. destruct (po_build _ _ _ _ _ Hplat) as [-> | ->]; lia. Qed.

(** The adapter turns the table's pointers into the regions of the maps. *)
Lemma regions_of_place index off defs :
  Forall def_u32 defs -> Forall def_valid defs -> 0 <= off -> off + total_bytes defs <= MAP_BUDGET ->
  regions_of index (zip (data_ptr map_base <$> place off defs) defs) = Ok (regions_at map_base off defs).
Proof using Hplat.
  intros Hu Hv. pose proof usize_le_u64. destruct (po_map _ _ _ _ _ Hplat) as [Hm0 Hm1].
  revert index off Hu. induction Hv as [|d ds Hd Hv IH]; intros index off Hu Hoff Ht; [done|].
  apply Forall_cons_iff in Hu as [Hud Hu]. change (total_bytes (d :: ds)) with (map_bytes d + total_bytes ds) in Ht.
  pose proof (map_bytes_pos d Hd) as Hpos. pose proof (total_nonneg ds Hv).
  assert (Hptr : data_ptr map_base (instance_at off d) = map_base + off).
  { unfold data_ptr, as_u64. cbn [data ptr instance_at]. apply wrap_small. unfold uN, MAP_BUDGET in *. lia. }
  destruct Hd as (_ & Hk & Hme & Hvs). simpl. unfold region_of. rewrite Hptr.
  rewrite (proj2 (Z.eqb_neq _ _)) by lia. unfold map_bytes, MAP_BUDGET in *.
  assert (Hsz : ProgramImage.key_size d + ProgramImage.value_size d <= 4096) by nia.
  assert (Hmul : checked_mul 64 (ProgramImage.key_size d + ProgramImage.value_size d) (max_entries d) =
    Some ((ProgramImage.key_size d + ProgramImage.value_size d) * max_entries d)).
  { apply checked_mul_Some. split; [done|]. lia. }
  rewrite checked_add_lt by lia. simpl. rewrite Hmul. simpl.
  rewrite checked_add_lt by lia. simpl. rewrite IH; [done|done|lia|lia].
Qed.

Lemma regions_at_in off defs r :
  Forall def_valid defs -> Forall def_u32 defs -> 0 <= off -> off + total_bytes defs <= MAP_BUDGET ->
  r ∈ regions_at map_base off defs ->
  map_base <= data_start r /\ data_start r <= data_end r <= map_base + MAP_BUDGET /\ relocated_ptr r = data_start r /\
  uN 32 (key_size r) /\ uN 32 (value_size r).
Proof using .
  intros Hv Hu. revert off Hu. induction Hv as [|d ds Hd Hv IH]; intros off Hu Hoff Ht; simpl; [by intros ?%elem_of_nil|].
  apply Forall_cons_iff in Hu as [Hud Hu]. change (total_bytes (d :: ds)) with (map_bytes d + total_bytes ds) in Ht.
  pose proof (map_bytes_pos d Hd). pose proof (total_nonneg ds Hv). destruct Hud as (_ & Hku & Hvu & _).
  intros [->|Hr]%elem_of_cons; [simpl; split_and!; try lia; done|]. apply (IH (off + map_bytes d)); [done|lia|lia|done].
Qed.

Lemma run_mem_stack ctx buffer a :
  len ctx = CONTEXT_SIZE -> len buffer = MAP_BUDGET -> sbase <= a < sbase + STACK_SIZE b ->
  run_mem map_base cbase rest ctx buffer !! a = None.
Proof using Hplat.
  intros Hc Hb Ha. destruct Hplat. unfold run_mem. rewrite !place_bytes_lookup, Hc, Hb.
  rewrite !decide_False by lia. auto.
Qed.

Lemma load_fit i prog budget defs :
  Forall def_u32 defs -> defs_fit budget defs -> prog <> [] -> len prog mod 8 = 0 ->
  sonde_load i prog (map_pointers (table map_base budget defs)) defs =
  Ok (mkInterp (i_helpers i) (Some prog) (regions_at map_base 0 defs)).
Proof using Hplat.
  intros Hu (_ & Hv & _ & Hb) Hne Hlen. unfold sonde_load. destruct prog as [|x prog]; [done|].
  rewrite Hlen. simpl. unfold map_pointers, table. simpl.
  assert (Hl : len (data_ptr map_base <$> place 0 defs) = len defs).
  { unfold len. by rewrite length_fmap, place_length. }
  rewrite Hl, Z.eqb_refl. simpl. rewrite regions_of_place; [done|done|done|lia|lia].
Qed.

Lemma run_env_ok prog budget defs ctx buffer fit :
  Forall def_u32 defs -> defs_fit fit defs -> bytes_ok prog -> len prog < 2 ^ (usize_bits b - 1) -> uN 64 budget ->
  len ctx = CONTEXT_SIZE -> bytes_ok ctx -> buffer_ok buffer ->
  env_ok (run_env b cbase sbase prog (regions_at map_base 0 defs) [] budget) (run_mem map_base cbase rest ctx buffer) /\
  buffer_live map_base (run_mem map_base cbase rest ctx buffer).
Proof using Hplat.
  intros Hu (_ & Hv & _ & Hb) Hp Hlp Hbud Hc Hcok [Hbl Hbok].
  assert (Hlive : buffer_live map_base (run_mem map_base cbase rest ctx buffer)).
  { intros a Ha. apply place_bytes_keeps. rewrite <- Hbl in Ha. by apply place_bytes_live. }
  split; [|done]. pose proof Hplat as []. constructor; simpl; try done.
  - apply place_bytes_ok; [by apply place_bytes_ok|done].
  - intros a Ha. by apply run_mem_stack.
  - split_and!; [lia..|]. intros a Ha. rewrite <- Hc in Ha. by apply place_bytes_live.
  - apply list.Forall_forall. intros r Hr.
    destruct (regions_at_in 0 defs r Hv Hu ltac:(lia) ltac:(lia) Hr) as (J1 & J2 & J3 & J4 & J5).
    pose proof usize_le_u64. split; [|rewrite J3; split; [unfold uN; lia|done]].
    split_and!; [lia..|]. intros a Ha. apply Hlive. lia.
Qed.

End Node.
