(* ===== verification/HelperMaps.v ===== *)
(** * The map helpers

    [map_lookup_elem] and [map_update_elem] ([bpf_dispatch.rs]) on a table of maps:
    the pointer index finds the map a pointer stands for, a lookup returns the
    address of the entry's value - inside the region the interpreter grants for
    that map - and an update writes the entry. *)

From Stdlib Require Import String.
From S2P Require Import Prelude Frame Messages ProgramImage MapStorage AsyncQueue NodeM NodeState NodeRadio NodeStore BpfDispatch.
Open Scope list_scope.
Open Scope Z_scope.

(** ** The pointer index *)

Fixpoint indexed (i : Z) (ptrs : list Z) : list (Z * Z) :=
  match ptrs with
  | [] => []
  | p :: ptrs' => (p, i) :: indexed (i + 1) ptrs'
  end.

(** The used part of the index is [l]. *)
Definition index_holds (ix : MapPtrIndex) (l : list (Z * Z)) : Prop :=
  len (entries ix) = MAX_MAPS /\ ilen ix = len l /\ len l <= MAX_MAPS /\ index_used ix = l.

Lemma index_new_holds : index_holds index_new [].
Proof. split_and!; done. Qed.

Lemma existsb_fst (l : list (Z * Z)) p : existsb (fun e => e.1 =? p) l = bool_decide (p ∈ l.*1).
Proof.
  induction l as [|[q i] l IH]; [done|]. simpl. rewrite IH. destruct (Z.eqb_spec q p) as [->|Hne].
  - symmetry. apply bool_decide_eq_true. left.
  - simpl. apply bool_decide_ext. rewrite elem_of_cons. by split; [right|intros [->|?]].
Qed.

Lemma index_insert_holds ix l p i :
  index_holds ix l -> len l < MAX_MAPS -> p ∉ l.*1 ->
  exists ix', index_insert ix p i = inr ix' /\ index_holds ix' (l ++ [(p, i)]).
Proof.
  intros (He & Hl & _ & Hu) Hlt Hp. unfold index_insert. rewrite Hu, existsb_fst, bool_decide_eq_false_2 by done.
  rewrite Z.geb_leb, (proj2 (Z.leb_gt _ _)) by lia. eexists. split; [done|].
  unfold index_holds, len in *. simpl. rewrite length_insert, length_app. simpl. split_and!; [done|lia|lia|].
  unfold index_used in *. simpl. rewrite Hl in *. replace (Z.to_nat (Z.of_nat (length l) + 1)) with (S (length l)) by lia.
  rewrite Nat2Z.id in *. rewrite (take_S_r _ _ (p, i)).
  - by rewrite take_insert_ge, Hu by lia.
  - rewrite list_lookup_insert_eq; [done|]. lia.
Qed.

Lemma build_index_holds ix l i ptrs :
  index_holds ix l -> NoDup (l.*1 ++ ptrs) -> len l + len ptrs <= MAX_MAPS ->
  index_holds (build_index ix i ptrs) (l ++ indexed i ptrs).
Proof.
  revert ix l i. induction ptrs as [|p ptrs IH]; intros ix l i Hix Hnd Hlen; simpl; [by rewrite app_nil_r|].
  rewrite len_cons in Hlen. pose proof (len_nonneg ptrs).
  assert (Hp : p ∉ l.*1) by (apply list.NoDup_app in Hnd as (_ & Hd & _); intros Hin; apply (Hd p Hin); left).
  destruct (index_insert_holds ix l p i Hix ltac:(lia) Hp) as (ix' & -> & Hix').
  replace (l ++ (p, i) :: indexed (i + 1) ptrs) with ((l ++ [(p, i)]) ++ indexed (i + 1) ptrs) by (by rewrite <- app_assoc).
  apply IH; [done| |unfold len in *; rewrite length_app; simpl; lia].
  rewrite fmap_app, <- app_assoc. done.
Qed.

Lemma find_indexed i ptrs j p :
  NoDup ptrs -> ptrs !! j = Some p -> List.find (fun e => e.1 =? p) (indexed i ptrs) = Some (p, i + Z.of_nat j).
Proof.
  revert i j. induction ptrs as [|q ptrs IH]; intros i j Hnd Hj; [done|]. apply list.NoDup_cons in Hnd as [Hq Hnd]. simpl.
  destruct j as [|j]; simpl in Hj.
  - simplify_eq. rewrite Z.eqb_refl. f_equal. f_equal. lia.
  - rewrite (proj2 (Z.eqb_neq q p)).
    + rewrite (IH _ j) by done. f_equal. f_equal. lia.
    + intros ->. apply Hq. by apply list_elem_of_lookup_2 in Hj.
Qed.

Lemma find_indexed_none i ptrs p : p ∉ ptrs -> List.find (fun e => e.1 =? p) (indexed i ptrs) = None.
Proof.
  revert i. induction ptrs as [|q ptrs IH]; intros i Hp; [done|]. simpl. apply not_elem_of_cons in Hp as [Hq Hp].
  rewrite (proj2 (Z.eqb_neq q p)) by done. by apply IH.
Qed.

(** The index of a table finds exactly its maps. *)
Lemma build_index_get ptrs p :
  NoDup ptrs -> len ptrs <= MAX_MAPS ->
  (forall j, ptrs !! j = Some p -> index_get (build_index index_new 0 ptrs) p = Some (Z.of_nat j)) /\
  (p ∉ ptrs -> index_get (build_index index_new 0 ptrs) p = None).
Proof.
  intros Hnd Hlen. destruct (build_index_holds index_new [] 0 ptrs index_new_holds Hnd Hlen) as (_ & _ & _ & Hu).
  unfold index_get. rewrite Hu, app_nil_l. split.
  - intros j Hj. by rewrite (find_indexed 0 ptrs j p Hnd Hj).
  - intros Hp. by rewrite find_indexed_none.
Qed.

(** ** The helpers on a table *)

Section Maps.
Context {Value : Type} `{C : Cbor Value}.
Context `{Sha256Provider, AeadProvider}.
Context {E : Type} `{Env E}.
Context (W : Z) (oc : bool) (base : Z) (HW : 32 <= W).
Context (budget : Z) (defs : list MapDef) (Hfit : defs_fit budget defs).
Context (Hbase : 0 < base /\ base + MAP_BUDGET < 2 ^ 64).
Context (id : NodeIdentity) (cls : ProgramClass) (ts at_ battery : Z).
(** The node whose table it is, the context installed for the run, a map of the
    table, and a key in the program's memory. *)
Context (n : Node E) (Hst : storage n = table base budget defs) (Hrtc : rtc_ok (rtc n)).
Context (peek : Peek) (j : nat) (d : MapDef) (Hd : defs !! j = Some d) (r1 : Z) (Hr1 : map_pointers (storage n) !! j = Some r1).
Context (r2 key : Z) (Hr2 : ptr_of W r2 <> 0) (kb : list Z) (Hkb : peek (ptr_of W r2) 4 = Some kb).
Context (Hbytes : bytes_ok kb) (Hkey : from_le_bytes kb = key).
Abbreviation ctx := (Some (install_core id cls ts at_ battery (storage n))).

Lemma index_finds : index_get (build_index index_new 0 (map_pointers (storage n))) r1 = Some (Z.of_nat j).
Proof using Hfit Hst Hr1.
  destruct (build_index_get (map_pointers (storage n)) r1) as [Hin _].
  - rewrite Hst. by apply pointers_NoDup.
  - rewrite Hst. unfold map_pointers, table, len. simpl. rewrite length_fmap, place_length. apply Hfit.
  - by apply Hin.
Qed.

(** The instance of the map. *)
Abbreviation inst := (instance_at (total_bytes (take j defs)) d).

Lemma get_finds : get (storage n) j = Some inst.
Proof using Hst Hd. rewrite Hst. apply get_table. eauto. Qed.

Lemma key_nonneg : 0 <= key.
Proof using Hbytes Hkey. subst key. by apply from_le_bytes_range. Qed.

Lemma lookup_elem_run :
  helper_map_lookup_elem W oc base peek ctx r1 r2 n =
  Some (Ok (if key <? max_entries d then base + vaddr inst key else 0, []), n).
Proof using All.
  unfold helper_map_lookup_elem, with_ctx. rewrite (proj2 (Z.eqb_neq _ _) Hr2).
  unfold mbind, read_key_at, raw_slice, mret. unfold mbind. rewrite Hkb. cbn beta iota.
  cbn [map_ptr_index install_core]. rewrite index_finds, Nat2Z.id. unfold mget. cbn beta iota.
  rewrite get_finds. unfold lift. rewrite Hkey. pose proof key_nonneg as Hk0.
  pose proof (read_entry_in W oc HW base budget defs (rtc n) j d key) as Hin.
  pose proof (read_entry_out W oc base budget defs (rtc n) j key) as Hout.
  unfold read_entry in Hin, Hout. rewrite <- Hst, get_finds in Hin, Hout.
  destruct (Z.ltb_spec key (max_entries d)) as [Hlt|Hge].
  - rewrite Hin by (done || lia). unfold out, value_ptr, as_u64, mret. rewrite wrap_small; [done|].
    destruct (vaddr_bounds W HW budget defs j d key Hfit Hd) as (B1 & B2 & B3 & B4 & B5); [lia|].
    destruct B3 as (_ & _ & _ & Hvs). unfold uN, MAP_BUDGET in *. lia.
  - rewrite Hout; [done|]. intros d' Hd'. congruence.
Qed.

Lemma pointer_of_map : r1 = base + total_bytes (take j defs).
Proof using Hfit Hbase Hst Hr1 Hd.
  rewrite Hst in Hr1. unfold map_pointers, table in Hr1. simpl in Hr1. apply list_lookup_fmap_Some in Hr1 as (m & -> & Hm).
  apply place_lookup in Hm as (d' & Hd' & ->). unfold data_ptr, as_u64. cbn [data ptr instance_at]. rewrite Z.add_0_l.
  apply wrap_small. destruct Hfit as (_ & Hv & _ & HB). destruct (region_bounds defs j d Hv Hd) as [Hb1 Hb2].
  assert (def_valid d) as Hp%map_bytes_pos by (eapply list.Forall_lookup_1; eauto). unfold uN, MAP_BUDGET in *. lia.
Qed.

(** What [map_update_elem] does with the value [v]. *)
Definition updated (v : list Z) : option (NodeResult HelperOut * Node E) :=
  match cls, key <? max_entries d, write_entry W oc (storage n) (rtc n) j key v with
  | Resident, true, Ok r' => Some (Ok (0, []), with_storage n (storage n) r')
  | _, _, _ => Some (Ok (minus 1, []), n)
  end.

Lemma update_elem_run r3 v :
  ptr_of W r3 <> 0 -> peek (ptr_of W r3) (value_size d) = Some v -> len v = value_size d ->
  helper_map_update_elem W oc peek ctx r1 r2 r3 n = updated v.
Proof using All.
  intros Hr3 Hv Hlen. unfold helper_map_update_elem, with_ctx, updated. cbn [program_class install_core].
  destruct cls; [rewrite bool_decide_eq_false_2 by done|by rewrite bool_decide_eq_true_2 by done]. rewrite (proj2 (Z.eqb_neq _ _) Hr2), (proj2 (Z.eqb_neq _ _) Hr3). cbn [orb].
  unfold mbind at 1, read_key_at, raw_slice at 1. unfold mbind at 1. rewrite Hkb. cbn [mret]. cbv beta iota.
  cbn [map_ptr_index install_core]. rewrite index_finds, Nat2Z.id. unfold mbind, mget, raw_slice, mtry, lift. cbv beta iota.
  rewrite get_finds. cbn [def instance_at]. rewrite Hv, Hkey. cbn [mret]. cbv beta iota.
  pose proof key_nonneg as Hk0. unfold write_entry. rewrite get_finds.
  destruct (Z.ltb_spec key (max_entries d)) as [Hlt|Hge].
  - destruct (vaddr_bounds W HW budget defs j d key Hfit Hd) as (B1 & B2 & B3 & B4 & B5); [lia|].
    by rewrite (update_in W oc HW) by (done || lia).
  - unfold update. cbn [def instance_at]. by rewrite Z.geb_leb, (proj2 (Z.leb_le _ _) Hge).
Qed.

(** The map helpers on a table of maps, for a pointer to one of its maps: a
    lookup returns the address of the entry's value, which lies inside the region
    the interpreter grants for that map and is not null, or null past the last
    entry, and changes nothing; an update writes the entry as [MapStorage] does for
    a resident program and is refused for an ephemeral one or past the last
    entry. *)
Lemma map_helpers_correct r3 v :
  ptr_of W r3 <> 0 -> peek (ptr_of W r3) (value_size d) = Some v -> len v = value_size d ->
  let p := if key <? max_entries d then base + vaddr inst key else 0 in
  helper_map_lookup_elem W oc base peek ctx r1 r2 n = Some (Ok (p, []), n) /\
  (key < max_entries d ->
     read_entry W oc (storage n) (rtc n) j key =
       Ok (Some (take (Z.to_nat (value_size d)) (drop (Z.to_nat (p - base)) (backing (rtc n))))) /\
     r1 < p /\ p + value_size d <= r1 + map_bytes d /\ p <> 0) /\
  helper_map_update_elem W oc peek ctx r1 r2 r3 n = updated v.
Proof using All.
  intros Hr3 Hv Hlen p. split; [apply lookup_elem_run|]. split; [|by apply update_elem_run].
  intros Hlt. subst p. rewrite (proj2 (Z.ltb_lt _ _) Hlt), pointer_of_map. pose proof key_nonneg as Hk0.
  destruct (vaddr_bounds W HW budget defs j d key Hfit Hd) as (B1 & B2 & B3 & B4 & B5); [lia|].
  split; [|lia]. rewrite Hst. rewrite (read_entry_in W oc HW base budget defs (rtc n) j d key) by (done || lia).
  do 4 f_equal. lia.
Qed.
End Maps.
