(* ===== verification/NodeSystem.v ===== *)
(** * The node as a whole

    The wake cycle with the interpreter of [sonde-bpf] behind it: every cycle
    ends, and only the program it runs can cut it off.  The bound on the fuel is the number of frames that may still arrive
    plus the milliseconds of the registration window; the program itself is
    bounded by its instruction budget.  And [KeyStore::factory_reset] ([key_store.rs])
    with any of its flash writes failing: the key is the last thing to go. *)

From Stdlib Require Import String.
From S2P Require Import Prelude Frame Messages BoardLayout ProgramImage MapStorage AsyncQueue NodeM NodeState NodeRadio NodeStore.
From S2P Require Import BpfDispatch WakeCycle NodeLogic WakeProofs WakeEnd.
From S2P Require Import Ebpf BpfTypes BpfAdapter.
Open Scope list_scope.
Open Scope Z_scope.

Section System.
Context {Value : Type} `{C : Cbor Value} `{HCR : !CborReturns C}.
Context `{Sha256Provider, AeadProvider}.
Context {E : Type} `{HE : NodeState.Env E} `{HL : !EnvLaws E} `{HER : !EnvReturns E}.
Context (b : Build) (cbase sbase : Z) (rest : memory).
Context (W : Z) (oc : bool) (HW : 32 <= W) (base : Z) (blob_addr : list Z -> Z) (firmware_version : list Z) (board : BoardLayout).

(** The interpreter on this node. *)
#[local] Instance node_interpreter : BpfInterpreter SondeBpfInterpreter := SondeBpf b base cbase sbase rest.

Abbreviation node_cycle := (run_wake_cycle W oc base blob_addr firmware_version board).

(** C17: every wake cycle comes to an end, and without overflow checks only a running
    program can cut it off.
    Whatever program is installed and whatever frames arrive, if only finitely many
    arrive and time passes, the cycle ends, and not with an error value.  Built without
    overflow checks and started with a queue as recovery leaves it, it ends with an
    outcome, unless it was cut off by a panic or an access outside memory in the step
    that runs a program under the node's key.  When it asks for sleep, the sleep lasts
    at least a second and at most the stored interval, or a second if the stored
    interval is shorter. *)
Theorem wake_cycle_ends fuel i n :
  (pending (env n) + Z.to_nat PEER_ACK_TIMEOUT_MS < fuel)%nat ->
  exists r n', node_cycle fuel i n = Some (r, n') /\ (forall e, r <> Err e) /\
    (oc = false -> queued n -> (exists o i', r = Ok (o, i')) \/
       exists hint k, key (nvs n) = Some (hint, k) /\ cut_in_program W base blob_addr fuel (mkIdentity hint k) i r n') /\
    forall s i', r = Ok (Sleep s, i') ->
      MIN_SLEEP_INTERVAL_S <= s <= Z.max MIN_SLEEP_INTERVAL_S (interval (nvs n')).
Proof using HW HCR HER.
  intros Hf.
  assert (Hends : forall (i : SondeBpfInterpreter) c buf, tree_ends (execute i c DEFAULT_INSTRUCTION_BUDGET buf)).
  { intros j c buf. by apply execute_tree_ends. }
  destruct (cycle_ends W oc Hends base blob_addr firmware_version board fuel i n Hf) as (r & n' & Hr & _).
  assert (Hne : forall e, r <> Err e).
  { intros e. exact (wp_elim _ _ _ _ _ (handled_cycle W oc base blob_addr firmware_version board fuel i n) Hr e). }
  exists r, n'. split; [done|]. split; [done|]. split.
  - intros Hoc Hq. rewrite Hoc in Hr.
    destruct (wp_elim _ _ _ _ _ (cycle_cut W HW base blob_addr firmware_version board fuel i n Hq) Hr) as [Hret|Hcut]; [left|by right].
    destruct r as [[o i']|e| |]; [eauto|by destruct (Hne e)|done..].
  - intros s i' ->.
    exact (wp_elim _ _ _ _ _ (cycle_bounded W oc base blob_addr firmware_version board fuel i n) Hr _ eq_refl).
Qed.
End System.

(** ** Factory reset *)

Section Reset.
Context {E : Type} `{NodeState.Env E}.
Context (W : Z) (oc : bool) (HW : 32 <= W).
Context (base budget : Z) (defs : list MapDef) (Hfit : defs_fit budget defs).

(** Storage after a reset that succeeded. *)
Definition wiped (default_interval : Z) : Nvs -> Prop := fun s =>
  key s = None /\ programs s = [None; None] /\ interval s = default_interval /\ active_partition s = 0 /\
  channel s = Some DEFAULT_CHANNEL /\ peer_payload s = None /\ reg_complete s = false /\
  staged_test s = None /\ test_result s = None.

(** A write of the reset: it fails and the reset stops, or it goes on. *)
Lemma reset_step f (k : M (Node E) unit) (Q : NodeResult unit -> Node E -> Prop) (n : Node E) :
  (forall e x, Q (Err x) (with_env n e)) -> (forall e, wp k Q (with_nvs (with_env n e) (f (nvs n)))) ->
  wp (nvs_write f ;;! k) Q n.
Proof using . intros Hx Hk. apply wp_bind, wp_nvs_write; [intros e; apply Hk|intros e x; apply Hx]. Qed.

(** A factory reset that succeeds has erased both programs, the pairing data,
    the staged test, the schedule, the channel, the key and the maps, of which the
    next boot recovers nothing; and one that fails, at whichever flash write, reports
    an error and leaves the node paired under its key, so that it can be retried. *)
Lemma factory_reset_complete default_interval n :
  storage n = table base budget defs -> rtc_ok (rtc n) -> partitions_ok (nvs n) ->
  exists r n', factory_reset default_interval n = Some (r, n') /\
    ((exists e, r = Err e /\ key (nvs n') = key (nvs n)) \/
     (r = Ok tt /\ wiped default_interval (nvs n') /\ (forall b, from_rtc W oc base (rtc n') b = Ok None) /\
      forall i key, 0 <= key ->
        read_entry W oc (storage n') (rtc n') i key = Ok (abs_read defs (abs_zero defs) i key))).
Proof using All.
  intros Hst Hr [Hlen _]. destruct (clear_all_forgets W oc HW base budget defs (rtc n) Hfit Hr) as (ws & Hws & Hz & Hnone).
  set (Q := fun (r : NodeResult unit) (n' : Node E) =>
    (exists e, r = Err e /\ key (nvs n') = key (nvs n)) \/
    (r = Ok tt /\ wiped default_interval (nvs n') /\ (forall b, from_rtc W oc base (rtc n') b = Ok None) /\
     forall i key, 0 <= key -> read_entry W oc (storage n') (rtc n') i key = Ok (abs_read defs (abs_zero defs) i key))).
  assert (Hw : wp (factory_reset default_interval) Q n).
  { unfold factory_reset. assert (Herr : forall n' x, key (nvs n') = key (nvs n) -> Q (Err x) n') by (left; eauto).
    do 2 (apply reset_step; [by intros; apply Herr|intros ?]).
    unfold clear_maps. apply wp_bind, wp_bind, wp_get. apply wp_bind, wp_lift. cbn [storage with_nvs with_env].
    rewrite Hst, Hws. apply wp_mod. cbn beta iota.
    do 6 (apply reset_step; [by intros; apply Herr|intros ?]).
    apply wp_nvs_write; [|by intros; apply Herr]. intros e'. right. split; [done|]. split; [|split; [exact Hnone|cbn [storage with_nvs with_env with_storage rtc]; rewrite Hst; exact Hz]].
    unfold wiped. cbn. split_and!; try reflexivity.
    destruct (programs (nvs n)) as [|p [|q [|? ?]]]; [discriminate..|reflexivity|discriminate]. }
  apply returns_run; [|exact Hw]. unfold factory_reset, clear_maps. obeys_go; by apply returns_mod || apply returns_nvs.
Qed.
End Reset.
