(* ===== verification/CborCompact.v ===== *)
(** * CBOR on the wire

    The size of an encoded message.  [CborSize] states what RFC 8949 says about
    lengths - a head takes at most nine bytes - and gives the bounds that make
    commands, chunks and requests fit a radio frame.  An instance of the CBOR
    interface with the real wire format for the kinds of values the protocol
    uses shows that the laws can hold. *)

From Stdlib Require Import String.
From S2P Require Import Prelude Frame Messages BoardLayout ProgramImage CborModel.
Open Scope list_scope.
Open Scope Z_scope.

(** ** Sizes *)

Definition pair_sizes (ns : list (Z * Z)) : Z := foldr (fun n acc => n.1 + n.2 + acc) 0 ns.

(** [fits v n]: [v] can be written in [n] bytes.  Writing to a vector does not fail. *)
Class CborSize {Value} (C : Cbor Value) : Type := {
  fits : Value -> Z -> Prop;
  fits_int : forall z, uN 64 z -> fits (VInteger z) 9;
  fits_bytes : forall b, len b < 2 ^ 64 -> fits (VBytes b) (9 + len b);
  fits_text : forall b, len b < 2 ^ 64 -> fits (VText b) (9 + len b);
  fits_map : forall l ns, len l < 2 ^ 64 -> Forall2 (fun kv n => fits kv.1 n.1 /\ fits kv.2 n.2) l ns ->
    fits (VMap l) (9 + pair_sizes ns);
  write_fits : forall v n, fits v n -> exists b, into_writer v = Ok b /\ len b <= n
}.

Section Sizes.
Context {Value : Type} (C : Cbor Value) `{HS : !CborSize C}.

(** A map with integer keys. *)
Lemma encode_map_fits (pairs : list (Z * Value)) ns :
  len pairs < 2 ^ 64 -> Forall2 (fun kv n => uN 64 kv.1 /\ fits kv.2 n) pairs ns ->
  exists b, cbor_encode_map pairs = Ok b /\ len b <= 9 + pair_sizes ((fun n => (9, n)) <$> ns).
Proof using HS.
  intros Hl Hf. destruct (write_fits (VMap ((fun kv => (VInteger kv.1, kv.2)) <$> pairs))
    (9 + pair_sizes ((fun n => (9, n)) <$> ns))) as (b & Hb & Hn).
  - apply fits_map; [by unfold len in *; rewrite length_fmap|]. apply Forall2_fmap_2.
    eapply Forall2_impl; [|exact Hf]. intros [k v] n [Hk Hv]. split; [by apply fits_int|done].
  - exists b. unfold cbor_encode_map. by rewrite Hb.
Qed.

(** What a frame can carry. *)
Definition framed (r : Res EncodeError (list Z)) : Prop := exists cbor, r = Ok cbor /\ len cbor <= MAX_PAYLOAD_SIZE.

Lemma map_framed (pairs : list (Z * Value)) ns :
  Forall2 (fun kv n => uN 64 kv.1 /\ fits kv.2 n) pairs ns ->
  len pairs < 2 ^ 64 -> 9 + pair_sizes ((fun n => (9, n)) <$> ns) <= MAX_PAYLOAD_SIZE -> framed (cbor_encode_map pairs).
Proof using HS. intros Hf Hl Hn. destruct (encode_map_fits pairs ns Hl Hf) as (b & Hb & Hle). exists b. split; [done|lia]. Qed.

(** A literal list of fields, each with its size. *)
Ltac fields_fit :=
  repeat (apply Forall2_cons; [split; [split; discriminate || reflexivity|]|]); [..|apply Forall2_nil].

Lemma wake_framed abi h mv fw :
  uN 32 abi -> len h <= 32 -> uN 32 mv -> len fw <= MAX_STRING_FIELD_LEN -> framed (node_encode (Wake abi h mv fw None)).
Proof using HS.
  unfold MAX_STRING_FIELD_LEN. intros Ha Hh Hm Hf. apply (map_framed _ [9; 9 + len h; 9; 9 + len fw]).
  - unfold node_pairs. cbn [app]. fields_fit; [apply fits_int|apply fits_bytes|apply fits_int|apply fits_text];
      first [by apply (uN_weaken 32) | lia].
  - unfold len. simpl. lia.
  - simpl. unfold MAX_PAYLOAD_SIZE. lia.
Qed.

Lemma get_chunk_framed i : uN 32 i -> framed (node_encode (GetChunk i)).
Proof using HS.
  intros Hi. apply (map_framed _ [9]); [|unfold len; simpl; lia|simpl; unfold MAX_PAYLOAD_SIZE; lia].
  unfold node_pairs. fields_fit. apply fits_int. by apply (uN_weaken 32).
Qed.

Lemma ack_framed h : len h <= 32 -> framed (node_encode (ProgramAck h)).
Proof using HS.
  intros Hh. apply (map_framed _ [9 + len h]); [|unfold len; simpl; lia|simpl; unfold MAX_PAYLOAD_SIZE; lia].
  unfold node_pairs. fields_fit. apply fits_bytes. lia.
Qed.

Lemma update_framed da q ts h size csize count :
  uN 64 q -> uN 64 ts -> len h <= 32 -> uN 32 size -> uN 32 csize -> uN 32 count ->
  framed (gateway_encode da (Command q ts (UpdateProgram h size csize count) None)).
Proof using HS.
  intros Hq Hts Hh Hs Hc Hn. unfold gateway_encode, gateway_pairs. cbn [is_nop]. rewrite bool_decide_false, andb_false_r by (by intros [? ?]).
  cbn [res_bind payload_val app].
  apply (map_framed _ [9; 9 + pair_sizes [(9, 9 + len h); (9, 9); (9, 9); (9, 9)]; 9; 9]).
  - fields_fit; [by apply fits_int| |by apply fits_int..]. apply fits_map; [unfold len; simpl; lia|].
    repeat (apply Forall2_cons; [split; [apply fits_int; split; discriminate || reflexivity|]|]); [..|apply Forall2_nil];
      [apply fits_bytes; lia|apply fits_int; by apply (uN_weaken 32)..].
  - unfold len. simpl. lia.
  - unfold pair_sizes. simpl. unfold MAX_PAYLOAD_SIZE. lia.
Qed.

Lemma chunk_framed da i data : uN 32 i -> len data <= 128 -> framed (gateway_encode da (Chunk i data)).
Proof using HS.
  intros Hi Hd. unfold gateway_encode, gateway_pairs. cbn [res_bind].
  apply (map_framed _ [9; 9 + len data]); [|unfold len; simpl; lia|simpl; unfold MAX_PAYLOAD_SIZE; lia].
  fields_fit; [apply fits_int; by apply (uN_weaken 32)|apply fits_bytes; lia].
Qed.
End Sizes.

(** ** The wire format *)

(** The head of an item: major type and argument. *)
Definition cbor_head (major n : Z) : list Z :=
  if n <? 24 then [major * 32 + n]
  else if n <? 2 ^ 8 then (major * 32 + 24) :: to_be_bytes 1 n
  else if n <? 2 ^ 16 then (major * 32 + 25) :: to_be_bytes 2 n
  else if n <? 2 ^ 32 then (major * 32 + 26) :: to_be_bytes 4 n
  else (major * 32 + 27) :: to_be_bytes 8 n.

Fixpoint cbor_write (v : CValue) : list Z :=
  match v with
  | CInt z => if z <? 0 then cbor_head 1 (-1 - z) else cbor_head 0 z
  | CBytes b => cbor_head 2 (len b) ++ b
  | CText b => cbor_head 3 (len b) ++ b
  | CArray l => cbor_head 4 (len l) ++ concat (map cbor_write l)
  | CMap l => cbor_head 5 (len l) ++ concat (map (fun kv => cbor_write kv.1 ++ cbor_write kv.2) l)
  | CBool b => [if b then 0xF5 else 0xF4]
  | CNull => [0xF6]
  end.

(** Arguments have at most 64 bits. *)
Fixpoint cbor_ok (v : CValue) : bool :=
  match v with
  | CInt z => (- 2 ^ 64 <=? z) && (z <? 2 ^ 64)
  | CBytes b | CText b => len b <? 2 ^ 64
  | CBool _ | CNull => true
  | CArray l => (len l <? 2 ^ 64) && forallb cbor_ok l
  | CMap l => (len l <? 2 ^ 64) && forallb (fun kv => cbor_ok kv.1 && cbor_ok kv.2) l
  end.

Definition cbor_arg (info : Z) (s : list Z) : option (Z * list Z) :=
  let wide k := if len s <? Z.of_nat k then None else Some (from_be_bytes (take k s), drop k s) in
  if info <? 24 then Some (info, s)
  else if info =? 24 then wide 1%nat else if info =? 25 then wide 2%nat
  else if info =? 26 then wide 4%nat else if info =? 27 then wide 8%nat else None.

Definition cbor_string (n : Z) (t : list Z) : option (list Z * list Z) :=
  if len t <? n then None else Some (take (Z.to_nat n) t, drop (Z.to_nat n) t).

Section Read.
Context (read : list Z -> option (CValue * list Z)).

Fixpoint read_items (k : nat) (t : list Z) : option (list CValue * list Z) :=
  match k with
  | O => Some ([], t)
  | S k' => '(v, t1) ← read t; '(vs, t2) ← read_items k' t1; Some (v :: vs, t2)
  end.

Fixpoint read_pairs (k : nat) (t : list Z) : option (list (CValue * CValue) * list Z) :=
  match k with
  | O => Some ([], t)
  | S k' => '(x, t1) ← read t; '(y, t2) ← read t1; '(vs, t3) ← read_pairs k' t2; Some ((x, y) :: vs, t3)
  end.
End Read.

Fixpoint cbor_read (fuel : nat) (s : list Z) : option (CValue * list Z) :=
  match fuel, s with
  | S fuel', b :: s' =>
      if b =? 0xF4 then Some (CBool false, s') else if b =? 0xF5 then Some (CBool true, s') else
      if b =? 0xF6 then Some (CNull, s') else
      '(n, t) ← cbor_arg (b mod 32) s';
      if b <? 32 then Some (CInt n, t)
      else if b <? 64 then Some (CInt (-1 - n), t)
      else if b <? 96 then '(d, t') ← cbor_string n t; Some (CBytes d, t')
      else if b <? 128 then '(d, t') ← cbor_string n t; Some (CText d, t')
      else if b <? 160 then '(l, t') ← read_items (cbor_read fuel') (Z.to_nat n) t; Some (CArray l, t')
      else if b <? 192 then '(l, t') ← read_pairs (cbor_read fuel') (Z.to_nat n) t; Some (CMap l, t')
      else None
  | _, _ => None
  end.

Definition compact_cbor : Cbor CValue := {|
  VInteger := CInt; VBytes := CBytes; VText := CText; VBool := CBool; VArray := CArray; VMap := CMap;
  as_integer := fun v => match v with CInt z => Some z | _ => None end;
  as_bytes := fun v => match v with CBytes b => Some b | _ => None end;
  as_text := fun v => match v with CText b => Some b | _ => None end;
  as_bool := fun v => match v with CBool b => Some b | _ => None end;
  as_array := fun v => match v with CArray l => Some l | _ => None end;
  as_map := fun v => match v with CMap l => Some l | _ => None end;
  into_writer := fun v => if cbor_ok v then Ok (cbor_write v) else Err "value out of range"%string;
  from_reader := fun b => match cbor_read (length b) b with Some (v, _) => Ok v | None => Err "syntax error"%string end
|}.

(** ** Reading inverts writing *)

Lemma wide_arg k n rest :
  0 <= n < 2 ^ (8 * Z.of_nat k) ->
  (if len (to_be_bytes k n ++ rest) <? Z.of_nat k then None
   else Some (from_be_bytes (take k (to_be_bytes k n ++ rest)), drop k (to_be_bytes k n ++ rest))) = Some (n, rest).
Proof.
  intros Hn. rewrite (proj2 (Z.ltb_ge _ _)) by (rewrite len_app; unfold len; rewrite length_to_be_bytes; lia).
  rewrite take_app_length', drop_app_length' by (by rewrite length_to_be_bytes). by rewrite from_to_be_bytes, wrap_small.
Qed.

(** A head is a byte of its major type and an argument that reads back. *)
Lemma head_reads major n rest :
  0 <= major -> 0 <= n < 2 ^ 64 ->
  exists b t, cbor_head major n = b :: t /\ major * 32 <= b < major * 32 + 28 /\ len t <= 8 /\
    cbor_arg (b mod 32) (t ++ rest) = Some (n, rest).
Proof.
  intros Hm Hn. unfold cbor_head.
  assert (Hb : forall c, 0 <= c < 28 -> (major * 32 + c) mod 32 = c)
    by (intros c Hc; rewrite Z.add_comm, Z_mod_plus_full; apply Z.mod_small; lia).
  assert (Hw : forall c k, 24 <= c < 28 -> n < 2 ^ (8 * Z.of_nat k) -> (k <= 8)%nat ->
    (c = 24 /\ k = 1%nat \/ c = 25 /\ k = 2%nat \/ c = 26 /\ k = 4%nat \/ c = 27 /\ k = 8%nat) ->
    exists b t, (major * 32 + c) :: to_be_bytes k n = b :: t /\ major * 32 <= b < major * 32 + 28 /\ len t <= 8 /\
    cbor_arg (b mod 32) (t ++ rest) = Some (n, rest)).
  { intros c k Hc Hk H8 Hck. eexists _, _. split; [reflexivity|]. split; [lia|].
    split; [unfold len; rewrite length_to_be_bytes; lia|]. rewrite Hb by lia. unfold cbor_arg.
    destruct Hck as [[-> ->]|[[-> ->]|[[-> ->]|[-> ->]]]]; apply wide_arg; lia. }
  destruct (Z.ltb_spec n 24).
  { eexists _, _. split; [reflexivity|]. split; [lia|]. split; [unfold len; simpl; lia|]. rewrite Hb by lia. unfold cbor_arg.
    by rewrite (proj2 (Z.ltb_lt _ _)) by lia. }
  destruct (Z.ltb_spec n (2 ^ 8)); [apply (Hw 24 1%nat); lia|].
  destruct (Z.ltb_spec n (2 ^ 16)); [apply (Hw 25 2%nat); lia|].
  destruct (Z.ltb_spec n (2 ^ 32)); [apply (Hw 26 4%nat)|apply (Hw 27 8%nat)]; lia.
Qed.

Lemma string_reads b rest : cbor_string (len b) (b ++ rest) = Some (b, rest).
Proof.
  unfold cbor_string. rewrite (proj2 (Z.ltb_ge _ _)) by (rewrite len_app; unfold len; lia).
  unfold len. rewrite Nat2Z.id, take_app_length, drop_app_length. done.
Qed.

(** One value, then whatever follows. *)
Definition reads_back (v : CValue) : Prop :=
  cbor_ok v = true -> forall fuel rest, (length (cbor_write v) <= fuel)%nat ->
    cbor_read fuel (cbor_write v ++ rest) = Some (v, rest).

Lemma items_read l fuel rest :
  Forall reads_back l -> forallb cbor_ok l = true -> (length (concat (map cbor_write l)) <= fuel)%nat ->
  read_items (cbor_read fuel) (length l) (concat (map cbor_write l) ++ rest) = Some (l, rest).
Proof.
  intros Hl. revert rest. induction Hl as [|v l Hv _ IH]; intros rest Hok Hf; [done|].
  simpl in *. apply andb_prop in Hok as [Hok1 Hok2]. rewrite length_app in Hf. rewrite <- app_assoc, (Hv Hok1) by lia. simpl.
  by rewrite IH by (done || lia).
Qed.

Lemma pairs_read l fuel rest :
  Forall (fun kv => reads_back kv.1 /\ reads_back kv.2) l -> forallb (fun kv => cbor_ok kv.1 && cbor_ok kv.2) l = true ->
  (length (concat (map (fun kv => cbor_write kv.1 ++ cbor_write kv.2) l)) <= fuel)%nat ->
  read_pairs (cbor_read fuel) (length l) (concat (map (fun kv => cbor_write kv.1 ++ cbor_write kv.2) l) ++ rest) = Some (l, rest).
Proof.
  intros Hl. revert rest. induction Hl as [|[k v] l [Hk Hv] _ IH]; intros rest Hok Hf; [done|].
  simpl in *. apply andb_prop in Hok as [[Hok1 Hok2]%andb_prop Hok3]. rewrite !length_app in Hf.
  rewrite <- !app_assoc, (Hk Hok1) by lia. simpl. rewrite (Hv Hok2) by lia. simpl. by rewrite IH by (done || lia).
Qed.

(** Reads the head of the value in the goal. *)
Ltac read_head major n rest :=
  let b := fresh "b" in let t := fresh "t" in let Hh := fresh "Hh" in let Hb := fresh "Hb" in let Ha := fresh "Ha" in
  destruct (head_reads major n rest) as (b & t & Hh & Hb & _ & Ha); [lia..|];
  rewrite ?length_app, Hh in *; simpl length in *;
  match goal with fuel : nat |- _ => destruct fuel as [|fuel]; [lia|] end;
  rewrite <- ?app_assoc; cbn [app cbor_read];
  rewrite !(proj2 (Z.eqb_neq _ _)) by lia; cbn [app] in *; rewrite Ha; cbn [mbind option_bind];
  repeat first [rewrite (proj2 (Z.ltb_lt b _)) by lia | rewrite (proj2 (Z.ltb_ge b _)) by lia].

Lemma write_reads v : reads_back v.
Proof.
  induction v as [z|b|b|[|]| |l IH|l IH] using CValue_nested_ind; intros Hok fuel rest Hf; simpl in Hok, Hf |- *.
  - apply andb_prop in Hok as [Hz1%Z.leb_le Hz2%Z.ltb_lt]. destruct (Z.ltb_spec z 0).
    + read_head 1 (-1 - z) rest. do 2 f_equal. f_equal. lia.
    + read_head 0 z rest. done.
  - apply Z.ltb_lt in Hok. pose proof (len_nonneg b). read_head 2 (len b) (b ++ rest). by rewrite string_reads.
  - apply Z.ltb_lt in Hok. pose proof (len_nonneg b). read_head 3 (len b) (b ++ rest). by rewrite string_reads.
  - destruct fuel; [simpl in Hf; lia|done].
  - destruct fuel; [simpl in Hf; lia|done].
  - destruct fuel; [simpl in Hf; lia|done].
  - apply andb_prop in Hok as [Hl%Z.ltb_lt Hok]. pose proof (len_nonneg l).
    read_head 4 (len l) (concat (map cbor_write l) ++ rest). unfold len. rewrite Nat2Z.id, items_read by (done || lia). done.
  - apply andb_prop in Hok as [Hl%Z.ltb_lt Hok]. pose proof (len_nonneg l).
    read_head 5 (len l) (concat (map (fun kv => cbor_write kv.1 ++ cbor_write kv.2) l) ++ rest).
    unfold len. rewrite Nat2Z.id, pairs_read by (done || lia). done.
Qed.

#[export] Instance compact_laws : CborLaws compact_cbor.
Proof.
  split; try done. intros v b. simpl. destruct (cbor_ok v) eqn:Hok; [|done]. intros [= <-].
  pose proof (write_reads v Hok (length (cbor_write v)) [] (le_n _)) as Hr. rewrite app_nil_r in Hr. by rewrite Hr.
Qed.

#[export] Instance compact_stream : CborStream compact_cbor := {|
  VNull := CNull;
  is_null := fun v => match v with CNull => true | _ => false end;
  read_front := fun b => match cbor_read (length b) b with Some r => Ok r | None => Err "syntax error"%string end
|}.

#[export] Instance compact_stream_laws : CborStreamLaws compact_stream.
Proof.
  split; try done. intros v b rest. simpl. destruct (cbor_ok v) eqn:Hok; [|done]. intros [= <-].
  by rewrite (write_reads v Hok) by (rewrite length_app; lia).
Qed.

Lemma head_len major n : 0 <= major -> 0 <= n < 2 ^ 64 -> len (cbor_head major n) <= 9.
Proof. intros Hm Hn. destruct (head_reads major n [] Hm Hn) as (b & t & -> & _ & Ht & _). rewrite len_cons. lia. Qed.

Definition compact_fits (v : CValue) (n : Z) : Prop := cbor_ok v = true /\ len (cbor_write v) <= n.

Lemma pairs_fit l ns :
  Forall2 (fun kv n => compact_fits kv.1 n.1 /\ compact_fits kv.2 n.2) l ns ->
  forallb (fun kv => cbor_ok kv.1 && cbor_ok kv.2) l = true /\
  len (concat (map (fun kv => cbor_write kv.1 ++ cbor_write kv.2) l)) <= pair_sizes ns.
Proof.
  induction 1 as [|[k v] [n m] l ns [[Hk1 Hk2] [Hv1 Hv2]] _ [IH1 IH2]]; [done|].
  simpl in *. rewrite Hk1, Hv1, IH1. split; [done|]. rewrite !len_app. lia.
Qed.

#[export] Instance compact_size : CborSize compact_cbor.
Proof.
  refine {| fits := compact_fits |}.
  - intros z [Hz0 Hz]. unfold compact_fits. simpl.
    rewrite (proj2 (Z.leb_le _ _)), (proj2 (Z.ltb_lt z _)) by lia. split; [done|].
    rewrite (proj2 (Z.ltb_ge _ _)) by lia. apply head_len; lia.
  - intros b Hb. unfold compact_fits. simpl. rewrite (proj2 (Z.ltb_lt _ _)) by done. split; [done|].
    rewrite len_app. pose proof (head_len 2 (len b)). pose proof (len_nonneg b). lia.
  - intros b Hb. unfold compact_fits. simpl. rewrite (proj2 (Z.ltb_lt _ _)) by done. split; [done|].
    rewrite len_app. pose proof (head_len 3 (len b)). pose proof (len_nonneg b). lia.
  - intros l ns Hl Hf%pairs_fit. destruct Hf as [Hok Hn]. unfold compact_fits. simpl.
    rewrite (proj2 (Z.ltb_lt _ _)), Hok by done. split; [done|].
    rewrite len_app. pose proof (head_len 5 (len l)). pose proof (len_nonneg l). lia.
  - intros v n [Hok Hn]. simpl. rewrite Hok. eauto.
Defined.
