(* ===== verification/NodeDemo.v ===== *)
(** * A node in operation

    Concrete instances of the interfaces - CBOR, stub cryptography
    in the style of the unit tests, a scripted radio - and runs of the whole wake
    cycle on them, with the interpreter of [sonde-bpf] behind the adapter.  They
    show that the hypotheses of the theorems about the wake cycle can hold, and
    what happens to the maps when PROGRAM_ACK cannot be sent. *)

From Stdlib Require Import String.
From S2P Require Import Prelude Frame Messages BoardLayout ProgramImage CborModel CborCompact Session.
From S2P Require Import MapStorage AsyncQueue NodeM NodeState NodeRadio NodeStore BpfDispatch WakeCycle NodeLogic.
From S2P Require Import Ebpf BpfTypes BpfExec BpfAdapter BpfNode WakeProofs WakeSeq WakeEnd HelperMaps NodeSystem.
Open Scope list_scope.
Open Scope Z_scope.

(** ** Instances *)

(** A checksum in the place of the hash. *)
Definition sum_sha : Sha256Provider := {| hash := fun l => replicate 31 0 ++ [foldr Z.add 0 l mod 256] |}.

#[local] Existing Instance compact_cbor | 0.
#[local] Existing Instance sum_sha | 0.
#[local] Existing Instance StubProviders.stub_aead | 0.

(** A scripted radio: the frames that will arrive, and how many sends succeed. *)
Record Radio := mkRadio { script : list (list Z); sends : nat; clock : Z }.

#[local] Instance radio_env : NodeState.Env Radio := {|
  t_send := fun e _ =>
    match sends e with
    | O => (Err (Transport "ESP-NOW send failed"), e)
    | S k => (Ok tt, mkRadio (script e) k (clock e))
    end;
  t_rssi := fun _ => None;
  t_recv := fun e t =>
    match script e with
    | [] => (Ok None, mkRadio [] (sends e) (clock e + Z.max 0 t))
    | f :: fs => (Ok (Some f), mkRadio fs (sends e) (clock e))
    end;
  elapsed := fun e => (clock e, e);
  delay := fun e t => mkRadio (script e) (sends e) (clock e + Z.max 0 t);
  delay_micros := fun e _ => e;
  random := fun e => (42, e);
  rng_healthy := fun e => (true, e);
  active_gpio := fun e => e;
  idle_gpio := fun e => e;
  adc := fun e _ => (1000, e);
  gpio_get := fun e _ => (0, e);
  gpio_set := fun e _ _ => (0, e);
  i2c_read := fun e _ k => ((0, replicate (Z.to_nat k) 0), e);
  i2c_write := fun e _ _ => (0, e);
  i2c_write_read := fun e _ _ k => ((0, replicate (Z.to_nat k) 0), e);
  spi_transfer := fun e _ d => ((0, d), e);
  flash_fault := fun e => (None, e);
  program_fault := fun e img => ((Some img, None), e)
|}.

#[local] Instance radio_laws : EnvLaws Radio.
Proof.
  refine {| pending := fun e => length (script e); now := clock |}.
  - split; intros; unfold later; simpl; try (split; lia); repeat case_match; simpl; split; lia.
  - intros e t f. simpl. case_match; simpl; [done|]. lia.
  - intros e t. simpl. case_match; simpl; [lia|done].
  - done.
Defined.

#[local] Instance compact_returns : CborReturns compact_cbor.
Proof. split; intros; simpl; by repeat case_match. Qed.

#[local] Instance radio_returns : EnvReturns Radio.
Proof. split; intros; simpl; by repeat case_match. Qed.

(** The node's memory map. *)
Definition demo_base : Z := 4096.
#[local] Instance demo_interp : BpfInterpreter SondeBpfInterpreter := SondeBpf firmware_build demo_base 16384 20480 ∅.

Definition demo_board : BoardLayout := mkBoard (Some 0) (Some 1) None (Some 2) None.
Abbreviation demo_cycle := (run_wake_cycle 32 false demo_base (fun _ => 32768) [48; 46; 49] demo_board).

(** ** A node and its gateway *)

Definition demo_psk : list Z := replicate 32 9.
Definition demo_id : NodeIdentity := mkIdentity 0xABCD demo_psk.
Definition one_map : list MapDef := [mkMapDef 0 4 4 1].

(** Programs that return a constant, with one map and its initial data. *)
Definition demo_program (ret : Z) (initial : list Z) : ProgramImage :=
  mkImage [183; 0; 0; 0; ret; 0; 0; 0; 149; 0; 0; 0; 0; 0; 0; 0] one_map [initial] [false].

Definition image_bytes (p : ProgramImage) : list Z := match encode_deterministic p with Ok b => b | _ => [] end.
Definition old_image : list Z := image_bytes (demo_program 1 [1; 1; 1; 1]).
Definition new_image : list Z := image_bytes (demo_program 2 [2; 2; 2; 2]).

(** Map entry 0 holds what the old program left there. *)
Definition demo_rtc : Rtc :=
  mkRtc (<[4%nat := 9]> (<[5%nat := 9]> (<[6%nat := 9]> (<[7%nat := 9]> (replicate 4096 0))))) 1
    (<[0%nat := mkMapDef 0 4 4 1]> (replicate 16 (mkMapDef 0 0 0 0))).

Definition demo_nvs : Nvs :=
  mkNvs (Some (0xABCD, demo_psk)) 60 0 [Some old_image; None] false (Some 6) None true (Some 3300) None None None.

Definition demo_node (e : Radio) : Node Radio :=
  mkNode demo_nvs e (table demo_base MAP_BUDGET one_map) demo_rtc (AsyncQueue.mkLayout QUEUE_MAGIC 0 (items layout_zero))
    (sleep_new 60 Scheduled) 0 [] [].

(** A frame of the gateway. *)
Definition gateway_frame (msg : GatewayMessage) (nonce : Z) : list Z :=
  match gateway_encode false msg with
  | Ok cbor => match encode_frame (mkHeader 0xABCD (gateway_msg_type msg) nonce) cbor demo_psk with Ok f => f | _ => [] end
  | _ => []
  end.

(** UPDATE_PROGRAM with sequence numbers from 1000 on, and the one chunk. *)
Definition update_script : list (list Z) :=
  [gateway_frame (Command 1000 5000 (UpdateProgram (hash new_image) (len new_image) 190 1) None) 42;
   gateway_frame (Chunk 0 new_image) 1000].

Definition nop_script : list (list Z) := [gateway_frame (Command 2000 9000 Nop None) 42].

Definition outcome_of {A} (r : option (NodeResult (WakeCycleOutcome * A) * Node Radio)) : option WakeCycleOutcome :=
  match r with Some (Ok (o, _), _) => Some o | _ => None end.
Definition node_of {A} (r : option (NodeResult A * Node Radio)) (n : Node Radio) : Node Radio :=
  match r with Some (_, n') => n' | None => n end.

Definition first_entry (n : Node Radio) : NodeResult (option (list Z)) := read_entry 32 false (storage n) (rtc n) 0 0.

(** A cycle with the radio script [l], of which the first [k] sends succeed. *)
Abbreviation cycle_run l k n := (demo_cycle 20%nat interp_new (NodeState.with_env n (mkRadio l k 0))).

Definition start : Node Radio := demo_node (mkRadio [] 0 0).

(** The initial map entry of the running program, after an update and after an
    update whose acknowledgement could not be sent. *)
Definition updated_node : Node Radio := node_of (cycle_run update_script 9%nat start) start.
Definition unacked_node : Node Radio := node_of (cycle_run update_script 2%nat start) start.

Example update_installs :
  outcome_of (cycle_run update_script 9%nat start) = Some (Sleep 60) /\
  active_image (nvs updated_node) = Some new_image /\ first_entry updated_node = Ok (Some [2; 2; 2; 2]).
Proof. vm_compute. auto. Qed.

(** When PROGRAM_ACK cannot be sent, the new program is already active but its
    maps have not been initialised; the next wake cycle runs it on the values the
    old program left when both declare the same maps, and acknowledges nothing.
    Sent acknowledgements make the program start from its initial data. *)
Lemma lost_ack_keeps_stale_maps :
  active_image (nvs unacked_node) = Some new_image /\
  outcome_of (cycle_run nop_script 9%nat unacked_node) = Some (Sleep 60) /\
  first_entry (node_of (cycle_run nop_script 9%nat unacked_node) start) = Ok (Some [9; 9; 9; 9]) /\
  first_entry (node_of (cycle_run nop_script 9%nat updated_node) start) = Ok (Some [2; 2; 2; 2]).
Proof. vm_compute. auto. Qed.

(** ** The theorems at work *)

Lemma start_partitions : partitions_ok (nvs start).
Proof. by vm_compute. Qed.
Lemma one_map_fit : defs_fit MAP_BUDGET one_map.
Proof. apply (bool_decide_unpack _). by vm_compute. Qed.
Lemma start_rtc : rtc_ok (rtc start).
Proof. apply (bool_decide_unpack _). by vm_compute. Qed.

Lemma install_resident_atomic_witness :
  exists r s', install_resident 32 new_image (hash new_image) 4096 start = Some (r, s') /\
    installed_spec (hash new_image) (nvs start) (is_ok r) (nvs s').
Proof.
  destruct (install_resident_atomic 32 new_image (hash new_image) 4096 start start_partitions) as (r & s' & H1 & H2 & _).
  by exists r, s'.
Defined.

Lemma update_runs : exists x n', cycle_run update_script 9%nat start = Some (Ok x, n').
Proof.
  destruct update_installs as [Ho _].
  destruct (cycle_run update_script 9%nat start) as [[[x| | |] n']|]; try discriminate Ho. by exists x, n'.
Qed.

Lemma wake_cycle_program_authentic_witness :
  exists r n', cycle_run update_script 9%nat start = Some (r, n') /\ key (nvs n') = Some (0xABCD, demo_psk) /\
    (active_image (nvs n') = Some old_image \/ exists w, active_image (nvs n') = Some w).
Proof.
  destruct update_runs as (x & n' & Hr). exists (Ok x), n'. split; [exact Hr|].
  destruct (wake_cycle_program_authentic 32 false demo_base (fun _ => 32768) [48; 46; 49] demo_board 20 interp_new
    (NodeState.with_env start (mkRadio update_script 9 0)) (Ok x) n' start_partitions Hr) as [Hk Hp].
  split; [exact Hk|]. destruct Hp as [Hp|(hint & k & evs & w & seq & ts & size & cs & c & blob & _ & _ & _ & Hp)].
  - left. exact Hp.
  - right. by exists w.
Defined.

Lemma wake_cycle_frames_witness :
  exists x n', cycle_run update_script 9%nat start = Some (Ok x, n') /\
    cycle_frames demo_id None (trace n') (sent_of (trace n')).
Proof.
  destruct update_runs as (x & n' & Hr). exists x, n'. split; [exact Hr|].
  destruct (wake_cycle_frames 32 false demo_id demo_base (fun _ => 32768) [48; 46; 49] demo_board 20 interp_new
    (NodeState.with_env start (mkRadio update_script 9 0)) x n' eq_refl Hr) as (frames & Hf & Hc).
  change (sent_of (trace n') = frames) in Hf. rewrite Hf. exact Hc.
Defined.

Definition enough_fuel : nat := 3 + Z.to_nat PEER_ACK_TIMEOUT_MS.

Lemma wake_cycle_ends_witness :
  exists r n', demo_cycle enough_fuel interp_new (demo_node (mkRadio update_script 9 0)) = Some (r, n') /\
    (forall e, r <> Err e) /\
    ((exists o i', r = Ok (o, i')) \/ exists hint k, cut_in_program 32 demo_base (fun _ => 32768) enough_fuel (mkIdentity hint k) interp_new r n').
Proof.
  destruct (wake_cycle_ends firmware_build 16384 20480 ∅ 32 false ltac:(lia) demo_base (fun _ => 32768) [48; 46; 49] demo_board
    enough_fuel interp_new (demo_node (mkRadio update_script 9 0))) as (r & n' & H1 & H2 & H3 & _).
  - apply Nat.ltb_lt. vm_compute. reflexivity.
  - exists r, n'. split; [exact H1|]. split; [exact H2|].
    destruct (H3 eq_refl (ex_intro _ [] demo_queue_holds)) as [Hok|(hint & k & _ & Hcut)]; [by left|right; by exists hint, k].
Defined.

Lemma factory_reset_complete_witness :
  exists r n', factory_reset 300 start = Some (r, n') /\ ((exists e, r = Err e) \/ wiped 300 (nvs n')).
Proof.
  destruct (factory_reset_complete 32 false ltac:(lia) demo_base MAP_BUDGET one_map one_map_fit 300 start eq_refl
    start_rtc start_partitions) as (r & n' & Hr & [(e & He & _)|(_ & Hw & _)]); exists r, n'; eauto.
Defined.

(** Map pointer, key and value of a call to the map helpers. *)
Definition call_memory : Peek := fun p k => if p =? 100 then Some [0; 0; 0; 0] else if p =? 200 then Some [5; 6; 7; 8] else None.

Lemma map_helpers_correct_witness :
  helper_map_lookup_elem 32 false demo_base call_memory
    (Some (install_core demo_id Resident 0 0 3300 (storage start))) 4096 100 start = Some (Ok (4100, []), start).
Proof.
  refine (proj1 (map_helpers_correct 32 false demo_base ltac:(lia) MAP_BUDGET one_map one_map_fit _ demo_id Resident 0 0 3300
    start eq_refl start_rtc call_memory 0 (mkMapDef 0 4 4 1) eq_refl 4096 eq_refl 100 0 _ [0; 0; 0; 0] eq_refl _ eq_refl
    200 [5; 6; 7; 8] _ eq_refl eq_refl)).
  - split; [reflexivity|]. vm_compute. reflexivity.
  - discriminate.
  - by repeat constructor.
  - discriminate.
Defined.

(** ** The interpreter on the node's memory *)

Definition demo_code : list Z := bytecode (demo_program 7 [0; 0; 0; 0]).

Lemma demo_platform : platform_ok firmware_build demo_base 16384 20480 ∅.
Proof.
  constructor; unfold demo_base; change (STACK_SIZE firmware_build) with 4096; change (usize_bits firmware_build) with 32;
    unfold MAP_BUDGET, CONTEXT_SIZE; try lia; [by left| |done].
  intros a x Hx. by rewrite lookup_empty in Hx.
Qed.

Lemma demo_code_ok : bytes_ok demo_code.
Proof. by repeat constructor. Qed.


(** No helper is called by this program; the handler is never asked. *)
Definition idle_handler : Handler := fun _ _ _ _ _ _ _ buf => ((0, []), buf).

Lemma adapter_runs_interpreter_witness :
  exists r, execute_program (run_env firmware_build 16384 20480 demo_code [] [] 100) 101
      (run_mem demo_base 16384 ∅ (replicate 32 0) (replicate 4096 0)) = Some r /\
    interp idle_handler (sonde_execute firmware_build demo_base 16384 20480 ∅ (mkInterp [] (Some demo_code) [])
      (replicate 32 0) 100 (replicate 4096 0)) = Some (result_of r).
Proof.
  apply (adapter_runs_interpreter firmware_build demo_base 16384 20480 ∅ idle_handler (mkInterp [] (Some demo_code) [])
    demo_code (replicate 32 0) 100 (replicate 4096 0) 101).
  - reflexivity.
  - by split.
  - lia.
Defined.
