(* ===== verification/GwStore.v ===== *)
(** * The gateway's registry and storage

    The records the gateway keeps ([sonde-gateway/src/registry.rs],
    [phone_trust.rs], [program.rs]), the [Storage] trait ([storage.rs]) as an
    interface with its contract, and [InMemoryStorage], the implementation that
    keeps everything in maps, which meets the contract.

    An operation of the trait may fail; a failed operation changes nothing.  The
    contract speaks about [view], what storage holds, and leaves open in which
    order a lookup lists its results: the engine must not depend on it. *)

From Stdlib Require Import String Ascii.
From S2P Require Import Prelude Frame.
Open Scope list_scope.
Open Scope Z_scope.

(** ** Records *)

Record SensorDescriptor := mkSensor { sensor_type : Z; sensor_id : Z; label : option (list Z) }.

Record NodeRecord := mkNodeRecord {
  nr_id : string;
  nr_key_hint : Z;
  nr_psk : list Z;
  assigned_program_hash : option (list Z);
  current_program_hash : option (list Z);
  desired_schedule_interval_s : option Z;
  schedule_interval_s : Z;
  nr_firmware_abi_version : option Z;
  nr_firmware_version : option (list Z);
  rf_channel : option Z;
  sensors : list SensorDescriptor;
  registered_by_phone_id : option Z;
  nr_key_version : Z
}.

Definition node_record_new (id : string) (hint : Z) (psk : list Z) : NodeRecord :=
  mkNodeRecord id hint psk None None (Some 60) 60 None None None [] None 0.

Definition update_firmware_metadata (n : NodeRecord) (abi : Z) (version : list Z) : NodeRecord :=
  mkNodeRecord (nr_id n) (nr_key_hint n) (nr_psk n) (assigned_program_hash n) (current_program_hash n)
    (desired_schedule_interval_s n) (schedule_interval_s n) (Some abi) (Some version) (rf_channel n)
    (sensors n) (registered_by_phone_id n) (nr_key_version n).

Definition confirm_program (n : NodeRecord) (hash : list Z) : NodeRecord :=
  mkNodeRecord (nr_id n) (nr_key_hint n) (nr_psk n) (assigned_program_hash n) (Some hash)
    (desired_schedule_interval_s n) (schedule_interval_s n) (nr_firmware_abi_version n) (nr_firmware_version n)
    (rf_channel n) (sensors n) (registered_by_phone_id n) (nr_key_version n).

(** What a PEER_REQUEST adds to a new record. *)
Definition paired_record (n : NodeRecord) (channel : Z) (ss : list SensorDescriptor) (phone : Z) : NodeRecord :=
  mkNodeRecord (nr_id n) (nr_key_hint n) (nr_psk n) (assigned_program_hash n) (current_program_hash n)
    (desired_schedule_interval_s n) (schedule_interval_s n) (nr_firmware_abi_version n) (nr_firmware_version n)
    (Some channel) ss (Some phone) (nr_key_version n).

Inductive PhonePskStatus : Type := Active | Revoked.

Record PhonePskRecord := mkPhone {
  phone_id : Z;
  phone_key_hint : Z;
  phone_psk : list Z;
  phone_label : list Z;
  issued_at : Z;
  phone_status : PhonePskStatus;
  phone_key_version : Z
}.

Definition PHONE_LABEL_MAX_BYTES : Z := 64.

Inductive VerificationProfile : Type := ResidentProfile | EphemeralProfile.

Record ProgramRecord := mkProgram {
  p_hash : list Z;
  p_image : list Z;
  p_size : Z;
  p_profile : VerificationProfile;
  abi_version : option Z;
  source_filename : option (list Z);
  decoder_image : option (list Z)
}.

Definition MAX_EPHEMERAL_SIZE : Z := 2048.

Inductive StorageError : Type := ENotFound (msg : string) | EInternal (msg : string).

(** A rust [String] is its UTF-8 bytes; identifiers are kept as [string]. *)
Definition string_of (b : list Z) : string := string_of_list_ascii (map (fun x => ascii_of_N (Z.to_N x)) b).
Definition bytes_of (s : string) : list Z := map (fun c => Z.of_N (N_of_ascii c)) (list_ascii_of_string s).

#[export] Instance SensorDescriptor_eq_dec : EqDecision SensorDescriptor.
Proof. solve_decision. Defined.
#[export] Instance NodeRecord_eq_dec : EqDecision NodeRecord.
Proof. solve_decision. Defined.
#[export] Instance PhonePskStatus_eq_dec : EqDecision PhonePskStatus.
Proof. solve_decision. Defined.

Definition with_phone_id (p : PhonePskRecord) (i : Z) : PhonePskRecord :=
  mkPhone i (phone_key_hint p) (phone_psk p) (phone_label p) (issued_at p) (phone_status p) (phone_key_version p).

(** ** The trait *)

Definition Op (S A : Type) : Type := S -> (StorageError + A) * S.

Class Storage (S : Type) : Type := {
  list_nodes : Op S (list NodeRecord);
  get_node : string -> Op S (option NodeRecord);
  get_nodes_by_key_hint : Z -> Op S (list NodeRecord);
  upsert_node : NodeRecord -> Op S unit;
  update_node_wake_metadata : string -> Z -> list Z -> Op S unit;
  reconcile_current_program_hash : string -> list Z -> Op S bool;
  insert_node_if_not_exists : NodeRecord -> Op S bool;
  get_program : list Z -> Op S (option ProgramRecord);
  get_phone_psks_by_key_hint : Z -> Op S (list PhonePskRecord);
  store_phone_psk : PhonePskRecord -> Op S Z;
  get_config : string -> Op S (option (list Z));
  set_config : string -> list Z -> Op S unit
}.

(** What storage holds. *)
Record View := mkView {
  v_nodes : gmap string NodeRecord;
  v_programs : gmap (list Z) ProgramRecord;
  v_phones : list PhonePskRecord;
  v_config : gmap string (list Z)
}.

Definition with_node (v : View) (n : NodeRecord) : View := mkView (<[nr_id n := n]> (v_nodes v)) (v_programs v) (v_phones v) (v_config v).

Definition with_phone (v : View) (p : PhonePskRecord) : View :=
  mkView (v_nodes v) (v_programs v) (v_phones v ++ [p]) (v_config v).

(** Changes to the record of one node. *)
Definition alter_node (v : View) (id : string) (f : NodeRecord -> NodeRecord) : View :=
  mkView (alter f id (v_nodes v)) (v_programs v) (v_phones v) (v_config v).

(** An operation either fails and leaves the view as it was, or meets [post]. *)
Definition op_ok {S A} (view : S -> View) (op : Op S A) (post : View -> A -> View -> Prop) : Prop :=
  forall s, match op s with
            | (inl _, s') => view s' = view s
            | (inr a, s') => post (view s) a (view s')
            end.

Definition reads {A} (P : View -> A -> Prop) (v : View) (a : A) (v' : View) : Prop := v' = v /\ P v a.

Class StorageLaws (S : Type) `{Storage S} : Type := {
  view : S -> View;
  list_nodes_ok : op_ok view list_nodes (reads (fun v l => forall n, n ∈ l <-> exists id, v_nodes v !! id = Some n));
  get_node_ok id : op_ok view (get_node id) (reads (fun v o => o = v_nodes v !! id));
  get_nodes_by_key_hint_ok h : op_ok view (get_nodes_by_key_hint h)
    (reads (fun v l => forall n, n ∈ l <-> nr_key_hint n = h /\ exists id, v_nodes v !! id = Some n));
  upsert_node_ok n : op_ok view (upsert_node n) (fun v _ v' => v' = with_node v n);
  update_node_wake_metadata_ok id abi ver : op_ok view (update_node_wake_metadata id abi ver)
    (fun v _ v' => is_Some (v_nodes v !! id) /\ v' = alter_node v id (fun n => update_firmware_metadata n abi ver));
  reconcile_ok id h : op_ok view (reconcile_current_program_hash id h)
    (fun v b v' => exists n, v_nodes v !! id = Some n /\
       if b : bool then assigned_program_hash n = Some h /\ v' = alter_node v id (fun n => confirm_program n h)
       else v' = v);
  insert_node_ok n : op_ok view (insert_node_if_not_exists n)
    (fun v b v' => if b : bool then v_nodes v !! nr_id n = None /\ v' = with_node v n
                   else is_Some (v_nodes v !! nr_id n) /\ v' = v);
  get_program_ok h : op_ok view (get_program h) (reads (fun v o => o = v_programs v !! h));
  get_phones_ok h : op_ok view (get_phone_psks_by_key_hint h)
    (reads (fun v l => forall p, p ∈ l <-> p ∈ v_phones v /\ phone_key_hint p = h));
  store_phone_ok p : op_ok view (store_phone_psk p)
    (fun v i v' => len (phone_label p) <= PHONE_LABEL_MAX_BYTES /\ v' = with_phone v (with_phone_id p i));
  get_config_ok k : op_ok view (get_config k) (reads (fun v o => o = v_config v !! k));
  set_config_ok k x : op_ok view (set_config k x)
    (fun v _ v' => v' = mkView (v_nodes v) (v_programs v) (v_phones v) (<[k := x]> (v_config v)))
}.

(** ** Names of files shown to people (sonde-protocol/src/source_filename.rs) *)

Definition is_separator (c : Z) : bool := (c =? 47) || (c =? 92).

(** [trim_end_matches]. *)
Fixpoint trim_separators (r : list Z) : list Z :=
  match r with
  | c :: r' => if is_separator c then trim_separators r' else r
  | [] => []
  end.

(** The last component: what follows the last separator. *)
Fixpoint until_separator (r : list Z) : list Z :=
  match r with
  | c :: r' => if is_separator c then [] else c :: until_separator r'
  | [] => []
  end.

Definition is_ascii_alphabetic (c : Z) : bool := ((65 <=? c) && (c <=? 90)) || ((97 <=? c) && (c <=? 122)).

Definition normalize_display_filename (name : option (list Z)) : option (list Z) :=
  match name with
  | None => None
  | Some s =>
      let trimmed := rev (until_separator (trim_separators (rev s))) in
      match trimmed with
      | [] => None
      | b0 :: 58 :: basename =>
          if is_ascii_alphabetic b0 then match basename with [] => None | _ => Some basename end else Some trimmed
      | _ => Some trimmed
      end
  end.

(** ** The implementation in memory *)

Record HandlerRecord := mkHandlerRecord {
  hr_program_hash : list Z;
  hr_command : list Z;
  hr_args : list (list Z);
  hr_working_dir : option (list Z);
  hr_reply_timeout_ms : option Z
}.

Record InMemoryStorage := mkMem {
  m_nodes : gmap string NodeRecord;
  m_programs : gmap (list Z) ProgramRecord;
  m_phones : list PhonePskRecord;
  m_next_phone_id : Z;
  m_config : gmap string (list Z);
  m_handlers : list HandlerRecord
}.

Module Mem.
Definition new : InMemoryStorage := mkMem ∅ ∅ [] 1 ∅ [].

Definition with_nodes (m : InMemoryStorage) x := mkMem x (m_programs m) (m_phones m) (m_next_phone_id m) (m_config m) (m_handlers m).
Definition with_programs (m : InMemoryStorage) x := mkMem (m_nodes m) x (m_phones m) (m_next_phone_id m) (m_config m) (m_handlers m).
Definition with_phones (m : InMemoryStorage) x i := mkMem (m_nodes m) (m_programs m) x i (m_config m) (m_handlers m).
Definition with_config (m : InMemoryStorage) x := mkMem (m_nodes m) (m_programs m) (m_phones m) (m_next_phone_id m) x (m_handlers m).
Definition with_handlers (m : InMemoryStorage) x := mkMem (m_nodes m) (m_programs m) (m_phones m) (m_next_phone_id m) (m_config m) x.

Abbreviation MemOp := (Op InMemoryStorage).

Definition values {K A} `{Countable K} (m : gmap K A) : list A := snd <$> map_to_list m.

Definition list_nodes : MemOp (list NodeRecord) := fun m => (inr (values (m_nodes m)), m).
Definition get_node (id : string) : MemOp (option NodeRecord) := fun m => (inr (m_nodes m !! id), m).
Definition get_nodes_by_key_hint (h : Z) : MemOp (list NodeRecord) := fun m =>
  (inr (filter (fun n => nr_key_hint n = h) (values (m_nodes m))), m).
Definition upsert_node (n : NodeRecord) : MemOp unit := fun m =>
  (inr tt, with_nodes m (<[nr_id n := n]> (m_nodes m))).

Definition update_node_wake_metadata (id : string) (abi : Z) (version : list Z) : MemOp unit := fun m =>
  match m_nodes m !! id with
  | None => (inl (ENotFound ("node `" ++ id ++ "`")), m)
  | Some n =>
      if bool_decide (nr_firmware_abi_version n = Some abi) && bool_decide (nr_firmware_version n = Some version)
      then (inr tt, m)
      else (inr tt, with_nodes m (<[id := update_firmware_metadata n abi version]> (m_nodes m)))
  end.

Definition insert_node_if_not_exists (n : NodeRecord) : MemOp bool := fun m =>
  match m_nodes m !! nr_id n with
  | Some _ => (inr false, m)
  | None => (inr true, with_nodes m (<[nr_id n := n]> (m_nodes m)))
  end.

Definition reconcile_current_program_hash (id : string) (h : list Z) : MemOp bool := fun m =>
  match m_nodes m !! id with
  | None => (inl (ENotFound ("node `" ++ id ++ "`")), m)
  | Some n =>
      if negb (bool_decide (assigned_program_hash n = Some h)) then (inr false, m) else
      if bool_decide (current_program_hash n = Some h) then (inr false, m) else
      (inr true, with_nodes m (<[id := confirm_program n h]> (m_nodes m)))
  end.

Definition delete_node (id : string) : MemOp unit := fun m => (inr tt, with_nodes m (delete id (m_nodes m))).

Definition get_program (h : list Z) : MemOp (option ProgramRecord) := fun m => (inr (m_programs m !! h), m).
Definition store_program (p : ProgramRecord) : MemOp unit := fun m =>
  let stored := mkProgram (p_hash p) (p_image p) (p_size p) (p_profile p) (abi_version p)
    (normalize_display_filename (source_filename p)) (decoder_image p) in
  (inr tt, with_programs m (<[p_hash stored := stored]> (m_programs m))).
Definition delete_program (h : list Z) : MemOp unit := fun m => (inr tt, with_programs m (delete h (m_programs m))).
Definition list_programs : MemOp (list ProgramRecord) := fun m => (inr (values (m_programs m)), m).

Definition list_phone_psks : MemOp (list PhonePskRecord) := fun m => (inr (m_phones m), m).
Definition get_phone_psks_by_key_hint (h : Z) : MemOp (list PhonePskRecord) := fun m =>
  (inr (filter (fun p => phone_key_hint p = h) (m_phones m)), m).

Definition revoked (p : PhonePskRecord) : PhonePskRecord :=
  mkPhone (phone_id p) (phone_key_hint p) (phone_psk p) (phone_label p) (issued_at p) Revoked (phone_key_version p).

Definition store_phone_psk (p : PhonePskRecord) : MemOp Z := fun m =>
  if len (phone_label p) >? PHONE_LABEL_MAX_BYTES then (inl (EInternal "phone label exceeds 64-byte limit"), m) else
  let i := m_next_phone_id m in
  match checked_add 32 i 1 with
  | None => (inl (EInternal "phone_id overflow"), m)
  | Some next => (inr i, with_phones m (m_phones m ++ [with_phone_id p i]) next)
  end.

Definition revoke_phone_psk (i : Z) : MemOp unit := fun m =>
  match list_find (fun p => phone_id p = i) (m_phones m) with
  | None => (inl (ENotFound "phone_id"), m)
  | Some (k, p) => (inr tt, with_phones m (<[k := revoked p]> (m_phones m)) (m_next_phone_id m))
  end.

Definition delete_phone_psk (i : Z) : MemOp unit := fun m =>
  (inr tt, with_phones m (filter (fun p => phone_id p <> i) (m_phones m)) (m_next_phone_id m)).

(** Fresh identifiers in order; an overflow stops in the middle. *)
Fixpoint renumber (rs : list PhonePskRecord) (acc : list PhonePskRecord) (next : Z) :
    (StorageError + unit) * (list PhonePskRecord * Z) :=
  match rs with
  | [] => (inr tt, (acc, next))
  | r :: rs' =>
      match checked_add 32 next 1 with
      | None => (inl (EInternal "phone_id overflow"), (acc, next))
      | Some next' => renumber rs' (acc ++ [with_phone_id r next]) next'
      end
  end.

Definition replace_phone_psks (rs : list PhonePskRecord) : MemOp unit := fun m =>
  if existsb (fun r => len (phone_label r) >? PHONE_LABEL_MAX_BYTES) rs
  then (inl (EInternal "phone label exceeds 64-byte limit"), m) else
  let '(r, (ps, next)) := renumber rs [] (m_next_phone_id m) in
  (r, with_phones m ps next).

Definition get_config (k : string) : MemOp (option (list Z)) := fun m => (inr (m_config m !! k), m).
Definition set_config (k : string) (v : list Z) : MemOp unit := fun m => (inr tt, with_config m (<[k := v]> (m_config m))).
Definition set_config_if_absent (k : string) (v : list Z) : MemOp bool := fun m =>
  match m_config m !! k with
  | None => (inr true, with_config m (<[k := v]> (m_config m)))
  | Some _ => (inr false, m)
  end.

Definition to_ascii_lowercase (s : list Z) : list Z := (fun c => if (65 <=? c) && (c <=? 90) then c + 32 else c) <$> s.
Definition with_hash (r : HandlerRecord) (h : list Z) : HandlerRecord :=
  mkHandlerRecord h (hr_command r) (hr_args r) (hr_working_dir r) (hr_reply_timeout_ms r).

Definition add_handler (r : HandlerRecord) : MemOp bool := fun m =>
  let key := to_ascii_lowercase (hr_program_hash r) in
  if existsb (fun h => bool_decide (hr_program_hash h = key)) (m_handlers m) then (inr false, m)
  else (inr true, with_handlers m (m_handlers m ++ [with_hash r key])).
Definition remove_handler (h : list Z) : MemOp bool := fun m =>
  let key := to_ascii_lowercase h in
  let kept := filter (fun x => hr_program_hash x <> key) (m_handlers m) in
  (inr (len kept <? len (m_handlers m)), with_handlers m kept).
Definition replace_handlers (rs : list HandlerRecord) : MemOp unit := fun m =>
  (inr tt, with_handlers m ((fun r => with_hash r (to_ascii_lowercase (hr_program_hash r))) <$> rs)).
End Mem.

#[export] Instance mem_storage : Storage InMemoryStorage := {|
  list_nodes := Mem.list_nodes;
  get_node := Mem.get_node;
  get_nodes_by_key_hint := Mem.get_nodes_by_key_hint;
  upsert_node := Mem.upsert_node;
  update_node_wake_metadata := Mem.update_node_wake_metadata;
  reconcile_current_program_hash := Mem.reconcile_current_program_hash;
  insert_node_if_not_exists := Mem.insert_node_if_not_exists;
  get_program := Mem.get_program;
  get_phone_psks_by_key_hint := Mem.get_phone_psks_by_key_hint;
  store_phone_psk := Mem.store_phone_psk;
  get_config := Mem.get_config;
  set_config := Mem.set_config
|}.

Definition mem_view (m : InMemoryStorage) : View := mkView (m_nodes m) (m_programs m) (m_phones m) (m_config m).

Lemma elem_of_values {A} (m : gmap string A) x : x ∈ Mem.values m <-> exists id, m !! id = Some x.
Proof.
  unfold Mem.values. rewrite list_elem_of_fmap. split.
  - intros ([id y] & -> & Hy%elem_of_map_to_list). eauto.
  - intros [id Hx]. exists (id, x). split; [done|]. by apply elem_of_map_to_list.
Qed.

Lemma alter_insert {A} (f : A -> A) (m : gmap string A) id x : m !! id = Some x -> alter f id m = <[id := f x]> m.
Proof.
  intros Hx. apply map_eq. intros j. destruct (decide (j = id)) as [->|Hj].
  - by rewrite lookup_alter_eq, lookup_insert_eq, Hx.
  - by rewrite lookup_alter_ne, lookup_insert_ne by done.
Qed.

Lemma insert_same {A} (m : gmap string A) id x : m !! id = Some x -> <[id := x]> m = m.
Proof. apply insert_id. Qed.

#[export] Instance mem_laws : StorageLaws InMemoryStorage.
Proof.
  refine {| view := mem_view |}; try (intros; intros m; simpl; split; [done|]).
  - intros n. apply elem_of_values.
  - done.
  - intros n. rewrite list_elem_of_filter. by rewrite elem_of_values.
  - by intros n m.
  - intros id abi ver m. simpl. unfold Mem.update_node_wake_metadata. destruct (m_nodes m !! id) as [n|] eqn:Hn; [|done].
    destruct (bool_decide _ && bool_decide _) eqn:Hb; (split; [by exists n|]); unfold alter_node, mem_view; simpl;
      rewrite (alter_insert _ _ _ _ Hn); [|done].
    apply andb_prop in Hb as [H1%bool_decide_eq_true H2%bool_decide_eq_true].
    rewrite insert_id; [done|]. rewrite Hn. f_equal. destruct n; simpl in *. by subst.
  - intros id h m. simpl. unfold Mem.reconcile_current_program_hash. destruct (m_nodes m !! id) as [n|] eqn:Hn; [|done].
    case_bool_decide as Ha; simpl; [|by exists n]. case_bool_decide; exists n; [done|]. split; [done|]. split; [done|].
    unfold alter_node, mem_view. simpl. by rewrite (alter_insert _ _ _ _ Hn).
  - intros n m. simpl. unfold Mem.insert_node_if_not_exists. destruct (m_nodes m !! nr_id n) as [x|] eqn:Hn; simpl; eauto.
  - done.
  - intros p. rewrite list_elem_of_filter. tauto.
  - intros p m. simpl. unfold Mem.store_phone_psk. destruct (Z.gtb_spec (len (phone_label p)) PHONE_LABEL_MAX_BYTES); [done|].
    destruct (checked_add _ _ _); simpl; [|done]. split; [lia|done].
  - done.
  - by intros k x m.
Defined.
