(* ===== verification/GwState.v ===== *)
(** * The gateway's engine: state and effects

    The state of [Gateway] ([sonde-gateway/src/engine.rs]) with the parts it
    reaches: storage and the recovery table, the session manager, queued commands,
    handler routing ([handler.rs]), deferred replies, the tracker of unknown key
    hints, and what it publishes to connectors ([connector.rs]).

    The clock, the random numbers, the handler processes and the execution of
    decoder programs belong to an environment of which nothing is assumed.  The
    gateway processes radio frames one after the other (the frame loop of
    [bin/gateway.rs]); a task it spawns is a value in [g_tasks], run later by
    [run_task].

    A function of the engine returns [Option<Vec<u8>>] and discards a frame by an
    early [None]; in the monad [G] that is [Err tt]. *)

From Stdlib Require Import String.
From S2P Require Import Prelude Frame Messages Session GwStore.
Open Scope list_scope.
Open Scope Z_scope.

(** ** Handlers *)

Definition Readings : Type := list (string * Z).

Inductive HandlerMessage (Value : Type) : Type :=
  | HData (request_id : Z) (node_id : string) (program_hash data : list Z) (timestamp : Z) (readings : option Readings)
  | HEvent (node_id event_type : string) (details : list (string * Value)) (timestamp : Z)
  | HDataReply (request_id : Z) (data : list Z) (delivery : Z)
  | HLog (level message : string).
Arguments HData {Value} request_id node_id program_hash data timestamp readings.
Arguments HEvent {Value} node_id event_type details timestamp.
Arguments HDataReply {Value} request_id data delivery.
Arguments HLog {Value} level message.

Inductive ProgramMatcher : Type := Any | Hash (h : list Z).

Record HandlerConfig := mkHandlerConfig {
  matchers : list ProgramMatcher;
  command : string;
  args : list string;
  reply_timeout : option Z;
  working_dir : option string
}.

Definition matches_hash (h : list Z) (m : ProgramMatcher) : bool :=
  match m with Hash h' => bool_decide (h' = h) | Any => false end.
Definition matches_any (m : ProgramMatcher) : bool := match m with Any => true | Hash _ => false end.

(** The first configuration with a matcher that [p] accepts. *)
Fixpoint find_config (p : ProgramMatcher -> bool) (i : nat) (l : list HandlerConfig) : option nat :=
  match l with
  | [] => None
  | c :: l' => if existsb p (matchers c) then Some i else find_config p (S i) l'
  end.

(** An exact match first, then a catch-all. *)
Definition find_handler (l : list HandlerConfig) (program_hash : list Z) : option nat :=
  match find_config (matches_hash program_hash) 0 l with
  | Some i => Some i
  | None => find_config matches_any 0 l
  end.

(** ** Unknown key hints *)

Definition MISSING_HINT_MAX_ENTRIES : Z := 256.
Definition MISSING_HINT_RATE_LIMIT_SECS : Z := 60.

(** Instants are in nanoseconds. *)
Record MissingKeyHintTracker := mkTracker {
  entries : gmap Z Z;
  order : list Z;
  pending_hints : list Z
}.

Definition tracker_new : MissingKeyHintTracker := mkTracker ∅ [] [].

Definition retain_ne (h : Z) (l : list Z) : list Z := filter (fun x => x <> h) l.

Definition evict (t : MissingKeyHintTracker) : MissingKeyHintTracker :=
  if Z.of_nat (size (entries t)) >=? MISSING_HINT_MAX_ENTRIES then
    match order t with
    | oldest :: rest => mkTracker (delete oldest (entries t)) rest (retain_ne oldest (pending_hints t))
    | [] => t
    end
  else t.

Definition report (t : MissingKeyHintTracker) (now hint : Z) : bool * MissingKeyHintTracker :=
  match entries t !! hint with
  | Some last =>
      if duration_since now last / 1000000000 <? MISSING_HINT_RATE_LIMIT_SECS
      then (false, mkTracker (entries t) (retain_ne hint (order t) ++ [hint]) (pending_hints t))
      else
        (true, mkTracker (<[hint := now]> (entries t)) (retain_ne hint (order t) ++ [hint])
          (if bool_decide (hint ∈ pending_hints t) then pending_hints t else pending_hints t ++ [hint]))
  | None =>
      let t := evict t in
      (true, mkTracker (<[hint := now]> (entries t)) (order t ++ [hint]) (pending_hints t ++ [hint]))
  end.

Definition drain_hints (t : MissingKeyHintTracker) : list Z * MissingKeyHintTracker :=
  (pending_hints t, mkTracker (entries t) (order t) []).

(** ** Commands, emissions and tasks *)

Inductive PendingCommand : Type :=
  | PRunEphemeral (program_hash : list Z)
  | PUpdateSchedule (interval_s : Z)
  | PReboot.

Inductive PayloadOrigin : Type := OAppData | OWakeBlob.

(** Escrow fields travel together or not at all. *)
Inductive Emission : Type :=
  | EActualState (entity_id : string) (current : list Z) (assigned : option (list Z)) (interval_s battery_mv abi : Z)
      (version : list Z) (timestamp_ms : Z) (escrow : option (list Z * Z * list Z)) (rssi : option Z)
  | EAppData (node : string) (program_hash payload : list Z) (timestamp_ms : Z) (origin : PayloadOrigin)
      (readings : option Readings).

(** The WAKE blob handed to handler [t_handler] in the background. *)
Record WakeTask := mkTask {
  t_handler : nat;
  t_nonce : Z;
  t_node : string;
  t_program_hash : list Z;
  t_data : list Z;
  t_readings : option Readings
}.

(** ** Recovery ([SqliteStorage]) *)

Record PendingRecovery := mkPending { pr_key_hint : Z; pr_node_id : string; pr_encrypted_psk : list Z; pr_master_key_id : list Z }.
Record NodeEscrow := mkEscrow { ne_key_hint : Z; ne_encrypted_psk : list Z; ne_master_key_id : list Z }.

(** The table of recovered keys next to [Storage]; [decrypt_psk] opens an escrowed
    key with the master key. *)
Class RecoveryStore (S : Type) : Type := {
  lookup_pending_recovery : Z -> list Z -> Z -> Op S (list PendingRecovery);
  delete_pending_recovery : Z -> string -> Op S unit;
  init_master_key_id : Op S (list Z);
  decrypt_psk : S -> string -> list Z -> option (list Z);
  get_node_escrow : string -> Op S (option NodeEscrow)
}.

(** What the engine relies on: a lookup lists records of the table with this hint,
    and the table is apart from the registry. *)
Class RecoveryLaws (S : Type) `{StorageLaws S} `{RecoveryStore S} : Type := {
  pending_of : S -> list PendingRecovery;
  lookup_pending_ok h k limit s :
    match lookup_pending_recovery h k limit s with
    | (inl _, s') => view s' = view s
    | (inr l, s') => view s' = view s /\ decrypt_psk s' = decrypt_psk s /\ len l <= Z.max 0 limit /\
                     forall r, r ∈ l -> r ∈ pending_of s /\ pr_key_hint r = h /\ pr_master_key_id r = k
    end;
  delete_pending_ok h id s : view (delete_pending_recovery h id s).2 = view s;
  get_nodes_pending h s : pending_of (get_nodes_by_key_hint h s).2 = pending_of s;
  get_nodes_decrypt h s : decrypt_psk (get_nodes_by_key_hint h s).2 = decrypt_psk s;
  get_node_escrow_ok id s : view (get_node_escrow id s).2 = view s
}.

(** ** Environment *)

Class GwEnv (Value E : Type) : Type := {
  (** [SystemTime::now()] in milliseconds relative to the epoch. *)
  unix_ms : E -> Z * E;
  instant : E -> Z * E;
  fill_random : E -> option Z * E;
  (** [execute_decoder]; [None] when it fails or panics. *)
  execute_decoder : E -> list Z -> list Z -> option Readings * E;
  (** [HandlerProcess::send_data] and [send_event] of the handler with this index. *)
  handler_send : E -> nat -> HandlerMessage Value -> option (HandlerMessage Value) * E;
  handler_event : E -> nat -> HandlerMessage Value -> E
}.

(** [duration_since(UNIX_EPOCH)]. *)
Definition since_epoch (ms : Z) : option Z := if ms <? 0 then None else Some ms.

(** ** State and monad *)

Section State.
Context {S E : Type}.

Record Gateway := mkGateway {
  g_storage : S;
  g_env : E;
  session_manager : SessionManager;
  pending_commands : gmap string (list PendingCommand);
  g_handlers : list HandlerConfig;
  deferred_replies : gmap string (list Z);
  hint_tracker : MissingKeyHintTracker;
  hints_notified : bool;
  has_sqlite : bool;
  cached_master_key_id : option (list Z);
  g_emitted : list Emission;
  g_tasks : list WakeTask
}.

Definition set_storage (g : Gateway) x := mkGateway x (g_env g) (session_manager g) (pending_commands g) (g_handlers g) (deferred_replies g) (hint_tracker g) (hints_notified g) (has_sqlite g) (cached_master_key_id g) (g_emitted g) (g_tasks g).
Definition set_env (g : Gateway) x := mkGateway (g_storage g) x (session_manager g) (pending_commands g) (g_handlers g) (deferred_replies g) (hint_tracker g) (hints_notified g) (has_sqlite g) (cached_master_key_id g) (g_emitted g) (g_tasks g).
Definition set_sessions (g : Gateway) x := mkGateway (g_storage g) (g_env g) x (pending_commands g) (g_handlers g) (deferred_replies g) (hint_tracker g) (hints_notified g) (has_sqlite g) (cached_master_key_id g) (g_emitted g) (g_tasks g).
Definition set_pending (g : Gateway) x := mkGateway (g_storage g) (g_env g) (session_manager g) x (g_handlers g) (deferred_replies g) (hint_tracker g) (hints_notified g) (has_sqlite g) (cached_master_key_id g) (g_emitted g) (g_tasks g).
Definition set_deferred (g : Gateway) x := mkGateway (g_storage g) (g_env g) (session_manager g) (pending_commands g) (g_handlers g) x (hint_tracker g) (hints_notified g) (has_sqlite g) (cached_master_key_id g) (g_emitted g) (g_tasks g).
Definition set_tracker (g : Gateway) x y := mkGateway (g_storage g) (g_env g) (session_manager g) (pending_commands g) (g_handlers g) (deferred_replies g) x y (has_sqlite g) (cached_master_key_id g) (g_emitted g) (g_tasks g).
Definition set_emitted (g : Gateway) x := mkGateway (g_storage g) (g_env g) (session_manager g) (pending_commands g) (g_handlers g) (deferred_replies g) (hint_tracker g) (hints_notified g) (has_sqlite g) (cached_master_key_id g) x (g_tasks g).
Definition set_tasks (g : Gateway) x := mkGateway (g_storage g) (g_env g) (session_manager g) (pending_commands g) (g_handlers g) (deferred_replies g) (hint_tracker g) (hints_notified g) (has_sqlite g) (cached_master_key_id g) (g_emitted g) x.
Definition set_recovery (g : Gateway) x y := mkGateway (g_storage g) (g_env g) (session_manager g) (pending_commands g) (g_handlers g) (deferred_replies g) (hint_tracker g) (hints_notified g) x y (g_emitted g) (g_tasks g).

Definition G (A : Type) : Type := Gateway -> Res unit A * Gateway.

Definition gret {A} (a : A) : G A := fun g => (Ok a, g).
Definition discard {A} : G A := fun g => (Err tt, g).
Definition gpanic {A} : G A := fun g => (Panic, g).
Definition gbind {A B} (m : G A) (k : A -> G B) : G B := fun g =>
  match m g with
  | (Ok a, g') => k a g'
  | (Err e, g') => (Err e, g')
  | (Panic, g') => (Panic, g')
  | (UB, g') => (UB, g')
  end.
Definition gget : G Gateway := fun g => (Ok g, g).
Definition gmod (f : Gateway -> Gateway) : G unit := fun g => (Ok tt, f g).

(** [?] on an [Option]. *)
Definition some_or_discard {A} (o : option A) : G A := match o with Some a => gret a | None => discard end.

(** [.ok()?] on a [Result]. *)
Definition ok_or_discard {X A} (r : Res X A) : G A := fun g =>
  (match r with Ok a => Ok a | Err _ => Err tt | Panic => Panic | UB => UB end, g).

(** An operation of storage with its result as a value. *)
Definition store {A} (op : Op S A) : G (StorageError + A) := fun g =>
  let '(r, s) := op (g_storage g) in (Ok r, set_storage g s).

(** [.await.ok()?]. *)
Definition store_or_discard {A} (op : Op S A) : G A :=
  gbind (store op) (fun r => match r with inr a => gret a | inl _ => discard end).

Definition env_do {A} (f : E -> A * E) : G A := fun g => let '(a, e) := f (g_env g) in (Ok a, set_env g e).

Definition emit (x : Emission) : G unit := gmod (fun g => set_emitted g (g_emitted g ++ [x])).
End State.
Arguments Gateway : clear implicits.
Arguments G : clear implicits.

Notation "'let>' x ':=' m 'in' k" := (gbind m (fun x => k))
  (at level 10, x name, m at level 100, k at level 200) : sonde_scope.
Notation "'let>' ' p ':=' m 'in' k" := (gbind m (fun p => k))
  (at level 10, p strict pattern, m at level 100, k at level 200) : sonde_scope.
Notation "m ';;>' k" := (gbind m (fun _ => k)) (at level 60, right associativity) : sonde_scope.
