(* ===== verification/GwPairing.v ===== *)
(** * Registering phones at the gateway

    [sonde-gateway/src/ble_pairing.rs]: the registration window, the controller the
    administrator and the button use, and the handler of what a phone sends.  The
    modem carries the messages between the phone and this code unchanged. *)

From Stdlib Require Import String.
From S2P Require Import Prelude Frame Messages BoardLayout BleEnvelope Session GwStore GwState.
Open Scope list_scope.
Open Scope Z_scope.

Definition BLE_MSG_REQUEST_GW_INFO : Z := 0x01.
Definition BLE_MSG_REGISTER_PHONE : Z := 0x02.
Definition BLE_MSG_GW_INFO_RESPONSE : Z := 0x81.
Definition BLE_MSG_PHONE_REGISTERED : Z := 0x82.
Definition BLE_MSG_ERROR : Z := 0xFF.
Definition ERROR_GENERIC : Z := 0x01.
Definition ERROR_WINDOW_CLOSED : Z := 0x02.

(** ** The registration window *)

(** Instants are in nanoseconds; the largest one an [Instant] holds. *)
Definition INSTANT_MAX : Z := 2 ^ 63 * 1000000000 - 1.

Record RegistrationWindow := mkWindow { w_open : bool; w_deadline : option Z }.

Definition window_new : RegistrationWindow := mkWindow false None.

(** A deadline that does not fit leaves the window open until it is closed. *)
Definition window_open (now duration_s : Z) (w : RegistrationWindow) : RegistrationWindow :=
  let d := now + duration_s * 1000000000 in
  mkWindow true (if d <=? INSTANT_MAX then Some d else None).

Definition window_close (w : RegistrationWindow) : RegistrationWindow := mkWindow false None.

(** An expired window closes when it is looked at. *)
Definition is_open (now : Z) (w : RegistrationWindow) : bool * RegistrationWindow :=
  if w_open w then
    match w_deadline w with
    | Some d => if d <=? now then (false, mkWindow false None) else (true, w)
    | None => (true, w)
    end
  else (false, w).

(** ** The controller *)

Inductive PairingOrigin : Type := Admin | Button.

Inductive BlePairingEventKind : Type :=
  | PhoneConnected (peer_addr : list Z) (mtu : Z)
  | PhoneDisconnected (peer_addr : list Z)
  | PasskeyRequest (passkey : Z)
  | PhoneRegistered (label : list Z) (phone_key_hint : Z).

(** A oneshot channel by its number; the answers it was sent.  A cancellation token by
    its number; the tokens that were cancelled. *)
Record BlePairingController := mkController {
  c_window : RegistrationWindow;
  c_origin : option PairingOrigin;
  c_registered : bool;
  passkey_tx : option Z;
  timeout_cancel : option Z;
  c_answers : list (Z * bool);
  c_cancelled : list Z;
  c_events : list BlePairingEventKind
}.

Definition controller_new : BlePairingController := mkController window_new None false None None [] [] [].

Definition c_session (c : BlePairingController) w o r :=
  mkController w o r (passkey_tx c) (timeout_cancel c) (c_answers c) (c_cancelled c) (c_events c).
Definition c_passkey (c : BlePairingController) p a :=
  mkController (c_window c) (c_origin c) (c_registered c) p (timeout_cancel c) a (c_cancelled c) (c_events c).
Definition c_timeout (c : BlePairingController) t l :=
  mkController (c_window c) (c_origin c) (c_registered c) (passkey_tx c) t (c_answers c) l (c_events c).

Definition is_window_open (now : Z) (c : BlePairingController) : bool * BlePairingController :=
  let '(b, w) := is_open now (c_window c) in (b, c_session c w (c_origin c) (c_registered c)).

(** [now1] and [now2]: the clock when the window is looked at and when it is opened. *)
Definition open_window (now1 now2 duration_s : Z) (origin : PairingOrigin) (c : BlePairingController) :
    bool * BlePairingController :=
  let '(b, c) := is_window_open now1 c in
  if b : bool then (false, c) else
  (true, c_session c (window_open now2 duration_s (c_window c)) (Some origin) false).

Definition close_window (c : BlePairingController) : BlePairingController :=
  c_passkey (c_session c (window_close (c_window c)) None false) None (c_answers c).

Definition session_origin (now : Z) (c : BlePairingController) : option PairingOrigin * BlePairingController :=
  let '(b, c) := is_window_open now c in
  (if b : bool then c_origin c else None, c).

Definition session_origin_raw (c : BlePairingController) : option PairingOrigin := c_origin c.

Definition mark_phone_registered (now : Z) (c : BlePairingController) : BlePairingController :=
  let '(b, c) := is_window_open now c in
  if b : bool then c_session c (c_window c) (c_origin c) true else c.

Definition take_successful_registration (c : BlePairingController) : bool * BlePairingController :=
  (c_registered c, c_session c (c_window c) (c_origin c) false).

Definition set_passkey_responder (tx : Z) (c : BlePairingController) : BlePairingController :=
  c_passkey c (Some tx) (c_answers c).

(** [alive]: whether the receiver still waits. *)
Definition confirm_passkey (alive : Z -> bool) (accept : bool) (c : BlePairingController) : bool * BlePairingController :=
  match passkey_tx c with
  | Some tx => (alive tx, c_passkey c None (if alive tx then c_answers c ++ [(tx, accept)] else c_answers c))
  | None => (false, c)
  end.

Definition set_timeout_cancel (token : Z) (c : BlePairingController) : BlePairingController :=
  c_timeout c (Some token) (c_cancelled c ++ match timeout_cancel c with Some old => [old] | None => [] end).

Definition cancel_timeout (c : BlePairingController) : BlePairingController :=
  c_timeout c None (c_cancelled c ++ match timeout_cancel c with Some t => [t] | None => [] end).

Definition broadcast_event (e : BlePairingEventKind) (c : BlePairingController) : BlePairingController :=
  mkController (c_window c) (c_origin c) (c_registered c) (passkey_tx c) (timeout_cancel c) (c_answers c) (c_cancelled c)
    (c_events c ++ [e]).

(** ** Messages of a phone *)

(** The key of the gateway signs through the identity. *)
Record GatewayIdentity := mkGwIdentity {
  public_key : list Z;
  gateway_id : list Z;
  sign : list Z -> list Z
}.

Section Handler.
Context `{Sha256Provider}.
Context {Value S E : Type} `{Storage S} `{GwEnv Value E}.

(** What the handler works on: storage and clock, its own window, the controller. *)
Record Ble := mkBle {
  b_storage : S;
  b_env : E;
  b_window : RegistrationWindow;
  b_controller : option BlePairingController
}.

Definition handle_request_gw_info (body : list Z) (i : GatewayIdentity) : option (list Z) :=
  if negb (len body =? 32) then None else
  encode_ble_envelope BLE_MSG_GW_INFO_RESPONSE (public_key i ++ gateway_id i ++ sign i (body ++ gateway_id i)).

(** The window that counts is the controller's, when there is one. *)
Definition registration_open (b : Ble) : bool * Ble :=
  let '(now, e) := instant (b_env b) in
  match b_controller b with
  | Some c => let '(o, c) := is_window_open now c in (o, mkBle (b_storage b) e (b_window b) (Some c))
  | None => let '(o, w) := is_open now (b_window b) in (o, mkBle (b_storage b) e w None)
  end.

(** The key and the label of a request that is well formed. *)
Definition parse_register_phone (body : list Z) : option (list Z * list Z) :=
  if len body <? 33 then None else
  let label_len := body !!! 32%nat in
  if label_len >? PHONE_LABEL_MAX_BYTES then None else
  if negb (len body =? 33 + label_len) then None else
  let label := drop 33 body in
  if from_utf8 label then Some (take 32 body, label) else None.

Definition handle_register_phone (body : list Z) (rf_channel : Z) (b : Ble) : option (list Z) * Ble :=
  let '(o, b) := registration_open b in
  if negb o then (encode_ble_envelope BLE_MSG_ERROR [ERROR_WINDOW_CLOSED], b) else
  match parse_register_phone body with
  | None => (encode_ble_envelope BLE_MSG_ERROR [ERROR_GENERIC], b)
  | Some (psk, label) =>
      let psk_hash := hash psk in
      let hint := from_be_bytes [psk_hash !!! 30%nat; psk_hash !!! 31%nat] in
      let '(now, e) := unix_ms (b_env b) in
      let record := mkPhone 0 hint psk label now Active 0 in
      match store_phone_psk record (b_storage b) with
      | (inl _, s) => (None, mkBle s e (b_window b) (b_controller b))
      | (inr _, s) =>
          let '(c, e) :=
            match b_controller b with
            | Some c =>
                let '(now, e) := instant e in
                (Some (broadcast_event (PhoneRegistered label hint) (mark_phone_registered now c)), e)
            | None => (None, e)
            end in
          (encode_ble_envelope BLE_MSG_PHONE_REGISTERED [0x00; rf_channel; psk_hash !!! 30%nat; psk_hash !!! 31%nat],
           mkBle s e (b_window b) c)
      end
  end.

Definition handle_ble_recv (data : list Z) (i : GatewayIdentity) (rf_channel : Z) (b : Ble) : option (list Z) * Ble :=
  match parse_ble_envelope data with
  | None => (None, b)
  | Some (msg_type, body) =>
      if msg_type =? BLE_MSG_REQUEST_GW_INFO then (handle_request_gw_info body i, b)
      else if msg_type =? BLE_MSG_REGISTER_PHONE then handle_register_phone body rf_channel b
      else (None, b)
  end.
End Handler.
Arguments Ble : clear implicits.

(** ** What is registered, and when *)

(** What happens to the gateway's pairing state, in order. *)
Inductive PairLabel : Type :=
  | LOpened (at_ns duration_s : Z)
  | LClosed
  | LOther.

Section Safety.
Context `{SH : Sha256Provider}.
Context {Value S E : Type} `{HL : StorageLaws S} `{HG : GwEnv Value E}.
Abbreviation Ble := (GwPairing.Ble S E).

Definition with_controller (b : Ble) (c : BlePairingController) : Ble := mkBle (b_storage b) (b_env b) (b_window b) (Some c).

(** One step: the administrator or the button opens or closes the window, some task
    looks at it or uses the controller for something else, the host goes on, or a
    message of a phone is handled. *)
Inductive pair_step (i : GatewayIdentity) : Ble -> PairLabel -> Ble -> Prop :=
  | step_open b c now1 now2 d o c' : b_controller b = Some c -> open_window now1 now2 d o c = (true, c') ->
      pair_step i b (LOpened now2 d) (with_controller b c')
  | step_refused b c now1 now2 d o c' : b_controller b = Some c -> open_window now1 now2 d o c = (false, c') ->
      pair_step i b LOther (with_controller b c')
  | step_close b c : b_controller b = Some c -> pair_step i b LClosed (with_controller b (close_window c))
  | step_look b c now : b_controller b = Some c -> pair_step i b LOther (with_controller b (is_window_open now c).2)
  | step_origin b c now : b_controller b = Some c -> pair_step i b LOther (with_controller b (session_origin now c).2)
  | step_mark b c now : b_controller b = Some c -> pair_step i b LOther (with_controller b (mark_phone_registered now c))
  | step_take b c : b_controller b = Some c -> pair_step i b LOther (with_controller b (take_successful_registration c).2)
  | step_responder b c tx : b_controller b = Some c -> pair_step i b LOther (with_controller b (set_passkey_responder tx c))
  | step_confirm b c alive a : b_controller b = Some c -> pair_step i b LOther (with_controller b (confirm_passkey alive a c).2)
  | step_timeout b c t : b_controller b = Some c -> pair_step i b LOther (with_controller b (set_timeout_cancel t c))
  | step_cancel b c : b_controller b = Some c -> pair_step i b LOther (with_controller b (cancel_timeout c))
  | step_broadcast b c e : b_controller b = Some c -> pair_step i b LOther (with_controller b (broadcast_event e c))
  | step_host b s e : pair_step i b LOther (mkBle s e (b_window b) (b_controller b))
  | step_message b data ch : pair_step i b LOther (handle_ble_recv data i ch b).2.

Inductive pair_run (i : GatewayIdentity) : Ble -> list PairLabel -> Ble -> Prop :=
  | run_start s e w : pair_run i (mkBle s e w (Some controller_new)) [] (mkBle s e w (Some controller_new))
  | run_step b0 log b l b' : pair_run i b0 log b -> pair_step i b l b' -> pair_run i b0 (log ++ [l]) b'.

(** The opening that is in force after these events. *)
Definition opening (o : option (Z * Z)) (l : PairLabel) : option (Z * Z) :=
  match l with LOpened t d => Some (t, d) | LClosed => None | LOther => o end.
Definition in_force (log : list PairLabel) : option (Z * Z) := fold_left opening log None.

(** An open window is the one opened last, with its deadline. *)
Definition window_of (o : option (Z * Z)) (w : RegistrationWindow) : Prop :=
  w_open w = true -> exists t d, o = Some (t, d) /\ w_deadline w = w_deadline (window_open t d w).

Definition pairing_ok (log : list PairLabel) (b : Ble) : Prop :=
  exists c, b_controller b = Some c /\ window_of (in_force log) (c_window c).

Lemma in_force_snoc log l : in_force (log ++ [l]) = opening (in_force log) l.
Proof. unfold in_force. by rewrite fold_left_app. Qed.

Lemma look_window now o w : window_of o w -> window_of o (is_open now w).2.
Proof. unfold is_open. intros Hw. destruct (w_open w) eqn:Ho; [|done]. destruct (w_deadline w) as [d|]; [|done]. by destruct (d <=? now). Qed.

Lemma look_controller now o c : window_of o (c_window c) -> window_of o (c_window (is_window_open now c).2).
Proof. intros Hw. unfold is_window_open. pose proof (look_window now o _ Hw). by destruct (is_open now (c_window c)). Qed.

Lemma mark_controller now o c : window_of o (c_window c) -> window_of o (c_window (mark_phone_registered now c)).
Proof.
  intros Hw. pose proof (look_controller now o c Hw) as Hl. unfold mark_phone_registered.
  by destruct (is_window_open now c) as [[] ?].
Qed.

(** The controller after a message has the window it had, looked at. *)
Lemma message_controller data i ch b o c :
  b_controller b = Some c -> window_of o (c_window c) ->
  exists c', b_controller (handle_ble_recv data i ch b).2 = Some c' /\ window_of o (c_window c').
Proof using .
  intros Hc Hw. unfold handle_ble_recv. destruct (parse_ble_envelope data) as [[ty body]|]; [|by exists c].
  destruct (ty =? _); [by exists c|]. destruct (ty =? _); [|by exists c].
  unfold handle_register_phone, registration_open. destruct (instant (b_env b)) as [now e]. rewrite Hc.
  pose proof (look_controller now o c Hw) as Hl. destruct (is_window_open now c) as [op c1]. simpl in Hl.
  destruct op; simpl; [|by exists c1]. destruct (parse_register_phone body) as [[psk label]|]; simpl; [|by exists c1].
  destruct (unix_ms e) as [t e1]. destruct (store_phone_psk _ _) as [[x|k] s]; simpl; [by exists c1|].
  destruct (instant e1) as [now2 e2]. simpl. eexists. split; [reflexivity|]. simpl. by apply mark_controller.
Qed.

Lemma step_keeps i log b l b' : pairing_ok log b -> pair_step i b l b' -> pairing_ok (log ++ [l]) b'.
Proof using .
  intros (c0 & Hc0 & Hw) Hs. unfold pairing_ok. rewrite in_force_snoc. revert Hw.
  destruct Hs as [b c now1 now2 d o c' Hc Ho|b c now1 now2 d o c' Hc Ho|b c Hc|b c now Hc|b c now Hc|b c now Hc|b c Hc|b c tx Hc|b c al a Hc|b c t Hc|b c Hc|b c e Hc|b s e|b data ch];
    intros Hw; try (rewrite Hc0 in Hc; injection Hc as <-); try (eexists; split; [reflexivity|]); simpl.
  - unfold open_window in Ho. destruct (is_window_open now1 c0) as [[] c1]; [done|]. injection Ho as <-. intros _. by exists now2, d.
  - unfold open_window in Ho. pose proof (look_controller now1 _ _ Hw). by destruct (is_window_open now1 c0) as [[] c1]; simplify_eq.
  - done.
  - by apply look_controller.
  - pose proof (look_controller now _ _ Hw) as Hl. unfold session_origin. by destruct (is_window_open now c0).
  - by apply mark_controller.
  - exact Hw.
  - exact Hw.
  - unfold confirm_passkey. by destruct (passkey_tx c0).
  - exact Hw.
  - exact Hw.
  - exact Hw.
  - by exists c0.
  - by apply (message_controller data i ch b _ c0).
Qed.

Lemma run_ok i b0 log b : pair_run i b0 log b -> pairing_ok log b.
Proof using . induction 1 as [s e w|b0 log b l b' _ IH Hs]; [by eexists|by apply (step_keeps i _ b)]. Qed.

(** The opening in force is in the log, and no closing follows it. *)
Lemma in_force_log log t d : in_force log = Some (t, d) -> exists pre post, log = pre ++ LOpened t d :: post /\ (LClosed ∉ post).
Proof.
  induction log as [|l log IH] using rev_ind; [done|]. rewrite in_force_snoc. destruct l as [t' d'| |]; simpl; [|done|].
  - intros [= -> ->]. exists log, []. split; [done|apply not_elem_of_nil].
  - intros (pre & post & -> & Hp)%IH. exists pre, (post ++ [LOther]). rewrite <- app_assoc. split; [done|]. set_solver.
Qed.

(** A request that is well formed. *)
Lemma parse_register_phone_Some body psk label :
  parse_register_phone body = Some (psk, label) ->
  body = psk ++ [len label] ++ label /\ len psk = 32 /\ len label <= PHONE_LABEL_MAX_BYTES /\ from_utf8 label = true.
Proof.
  unfold parse_register_phone. destruct (Z.ltb_spec (len body) 33); [done|].
  destruct (Z.gtb_spec (body !!! 32%nat) PHONE_LABEL_MAX_BYTES); [done|].
  destruct (Z.eqb_spec (len body) (33 + body !!! 32%nat)) as [Hl|]; [|done]. simpl.
  destruct (from_utf8 (drop 33 body)) eqn:Hu; [|done]. intros [= <- <-].
  assert (Hd : len (drop 33 body) = body !!! 32%nat) by (unfold len in *; rewrite length_drop; lia).
  rewrite Hd. split_and!; [|unfold len in *; rewrite length_take; lia|lia|done].
  rewrite <- (take_drop 32 body) at 1. f_equal. assert (Hn : (32 < length body)%nat) by (unfold len in *; lia).
  destruct (drop 32 body) as [|x t] eqn:Hx; [apply (f_equal length) in Hx; rewrite length_drop in Hx; simpl in Hx; lia|].
  assert (Hx' : body !! 32%nat = Some x) by (rewrite <- (Nat.add_0_r 32), <- lookup_drop, Hx; done).
  rewrite (list_lookup_total_correct _ _ _ Hx'). simpl. f_equal. change 33%nat with (32 + 1)%nat. rewrite <- drop_drop, Hx. done.
Qed.

(** An answer of another type is not PHONE_REGISTERED. *)
Lemma other_answer ty body (o : option (list Z)) :
  o = encode_ble_envelope ty body -> ty <> BLE_MSG_PHONE_REGISTERED ->
  forall r b, o = Some r -> parse_ble_envelope r <> Some (BLE_MSG_PHONE_REGISTERED, b).
Proof. intros -> Hty r b Hr Hp. rewrite (ble_envelope_roundtrip _ _ _ Hr) in Hp. congruence. Qed.

(** The window that lets a registration through was opened and has not expired. *)
Lemma open_in_force log now c c' :
  window_of (in_force log) (c_window c) -> is_window_open now c = (true, c') ->
  exists t0 d pre post, log = pre ++ LOpened t0 d :: post /\ (LClosed ∉ post) /\
    (INSTANT_MAX < t0 + d * 1000000000 \/ now < t0 + d * 1000000000).
Proof.
  intros Hw. unfold is_window_open, is_open. destruct (w_open (c_window c)) eqn:Ho; [|done].
  destruct (Hw Ho) as (t & d & Hf & Hd). apply in_force_log in Hf as (pre & post & -> & Hp). intros Hn.
  exists t, d, pre, post. split_and!; [done|done|]. revert Hd Hn. unfold window_open. simpl.
  destruct (Z.leb_spec (t + d * 1000000000) INSTANT_MAX); [|by left; lia]. intros ->.
  destruct (Z.leb_spec (t + d * 1000000000) now); [done|by right].
Qed.

(** What an answer PHONE_REGISTERED says of storage. *)
Lemma registered_stored data i ch (b b' : Ble) r body answer :
  handle_ble_recv data i ch b = (Some r, b') -> parse_ble_envelope data = Some (BLE_MSG_REGISTER_PHONE, body) ->
  parse_ble_envelope r = Some (BLE_MSG_PHONE_REGISTERED, answer) ->
  exists psk label k at_ms, body = psk ++ [len label] ++ label /\ len psk = 32 /\
    view (b_storage b') = with_phone (view (b_storage b)) (mkPhone k (key_hint_from_psk psk) psk label at_ms Active 0) /\
    answer = [0; ch; hash psk !!! 30%nat; hash psk !!! 31%nat].
Proof using HL.
  unfold handle_ble_recv. intros Hr Hd Ha. rewrite Hd in Hr. cbn [Z.eqb BLE_MSG_REGISTER_PHONE BLE_MSG_REQUEST_GW_INFO Pos.eqb] in Hr.
  revert Hr. unfold handle_register_phone. destruct (registration_open b) as [o b1] eqn:Ho.
  assert (Hs1 : b_storage b1 = b_storage b).
  { revert Ho. unfold registration_open. destruct (instant (b_env b)) as [now e]. destruct (b_controller b).
    - destruct (is_window_open _ _). by intros [= _ <-].
    - destruct (is_open _ _). by intros [= _ <-]. }
  destruct o; simpl; [|intros Hr%(f_equal fst); cbn [fst] in Hr; by rewrite (ble_envelope_roundtrip _ _ _ Hr) in Ha].
  destruct (parse_register_phone body) as [[psk label]|] eqn:Hp; simpl; [|intros Hr%(f_equal fst); cbn [fst] in Hr; by rewrite (ble_envelope_roundtrip _ _ _ Hr) in Ha].
  destruct (unix_ms (b_env b1)) as [t e1].
  pose proof (store_phone_ok (mkPhone 0 (key_hint_from_psk psk) psk label t Active 0) (b_storage b1)) as Hs.
  unfold key_hint_from_psk in Hs. cbv zeta in Hs. destruct (store_phone_psk _ (b_storage b1)) as [[x|k] s]; simpl in Hs; [done|].
  destruct Hs as [_ Hs]. apply parse_register_phone_Some in Hp as (Hb & Hl & _ & _).
  destruct (match b_controller b1 with Some _ => _ | None => _ end) as [c' e']. intros Hr. pose proof (f_equal snd Hr) as Hb'. apply (f_equal fst) in Hr. cbn [fst snd] in Hr, Hb'. subst b'.
  rewrite (ble_envelope_roundtrip _ _ _ Hr) in Ha. injection Ha as <-.
  exists psk, label, k, t. rewrite <- Hs1. split_and!; [exact Hb|exact Hl|exact Hs|reflexivity].
Qed.

(** C11: a phone gets into the gateway's storage only by a REGISTER_PHONE message
    handled while a registration window is open: in every run of the pairing state
    (openings, closings, messages and other uses of the controller in any order), a
    message that changes storage adds exactly the record of the key and label it
    carries, and is handled before the deadline of a window that was opened and not
    closed since; the phone is told so, with the hint of its key.  Every other message
    leaves storage as it was and is not answered by PHONE_REGISTERED. *)
Theorem phone_registration_gated i b0 log b data ch reply b' :
  pair_run i b0 log b -> handle_ble_recv data i ch b = (reply, b') ->
  (view (b_storage b') = view (b_storage b) /\ forall r body, reply = Some r -> parse_ble_envelope r <> Some (BLE_MSG_PHONE_REGISTERED, body)) \/
  (exists psk label k at_ms t0 d pre post,
     parse_ble_envelope data = Some (BLE_MSG_REGISTER_PHONE, psk ++ [len label] ++ label) /\
     len psk = 32 /\ len label <= PHONE_LABEL_MAX_BYTES /\ from_utf8 label = true /\
     view (b_storage b') = with_phone (view (b_storage b)) (mkPhone k (key_hint_from_psk psk) psk label at_ms Active 0) /\
     reply = encode_ble_envelope BLE_MSG_PHONE_REGISTERED [0; ch; hash psk !!! 30%nat; hash psk !!! 31%nat] /\
     log = pre ++ LOpened t0 d :: post /\ (LClosed ∉ post) /\
     (INSTANT_MAX < t0 + d * 1000000000 \/ ((instant (b_env b)).1 < t0 + d * 1000000000))).
Proof using HL.
  intros Hrun. apply run_ok in Hrun as (c & Hc & Hw). unfold handle_ble_recv.
  destruct (parse_ble_envelope data) as [[ty body]|]; [|intros [= <- <-]; by left].
  destruct (Z.eqb_spec ty BLE_MSG_REQUEST_GW_INFO) as [->|].
  { intros [= <- <-]. left. split; [done|]. unfold handle_request_gw_info. destruct (negb _); [done|]. by eapply other_answer. }
  destruct (Z.eqb_spec ty BLE_MSG_REGISTER_PHONE) as [->|]; [|intros [= <- <-]; by left].
  unfold handle_register_phone, registration_open. destruct (instant (b_env b)) as [now e]. rewrite Hc.
  destruct (is_window_open now c) as [[] c1] eqn:Ho; simpl; [|intros [= <- <-]; left; split; [done|by eapply other_answer]].
  destruct (parse_register_phone body) as [[psk label]|] eqn:Hp; simpl; [|intros [= <- <-]; left; split; [done|by eapply other_answer]].
  destruct (unix_ms e) as [t e1]. pose proof (store_phone_ok (mkPhone 0 (key_hint_from_psk psk) psk label t Active 0) (b_storage b)) as Hs.
  unfold key_hint_from_psk in Hs. cbv zeta in Hs. destruct (store_phone_psk _ (b_storage b)) as [[x|k] s]; simpl in Hs; [intros [= <- <-]; by left|].
  destruct (instant e1) as [now2 e2]. intros [= <- <-]. right. destruct Hs as [_ Hs].
  apply parse_register_phone_Some in Hp as (-> & ? & ? & ?). destruct (open_in_force _ _ _ _ Hw Ho) as (t0 & d & pre & post & ? & ? & ?).
  by exists psk, label, k, t, t0, d, pre, post.
Qed.
End Safety.
