(* ===== verification/GwEngine.v ===== *)
(** * The gateway's engine

    [process_frame] of [sonde-gateway/src/engine.rs] with every handler it
    dispatches to: registration of nodes by phones, diagnostics, trial recovery,
    WAKE, chunk transfer, acknowledgements and application data; command
    selection; the background task for WAKE blobs; and the timeout check. *)

From Stdlib Require Import String.
From S2P Require Import Prelude Frame Messages ProgramImage NodeRadio.
From S2P Require Import Session GwStore GwState.
Open Scope list_scope.
Open Scope Z_scope.

Definition DEFAULT_CHUNK_SIZE : Z := 128.
Definition PEER_REQ_KEY_PAYLOAD : Z := 1.
Definition DIAG_TYPE_RSSI : Z := 1.
Definition MAX_TRIAL_CANDIDATES : Z := 8.
Definition MAX_TIMESTAMP_DRIFT_S : Z := 86400.
(** "sonde-pairing-v2". *)
Definition PAIRING_AAD : list Z := [115; 111; 110; 100; 101; 45; 112; 97; 105; 114; 105; 110; 103; 45; 118; 50].

Record PairingRequestFields := mkPairing {
  pf_node_id : list Z;
  pf_key_hint : Z;
  pf_psk : list Z;
  pf_rf_channel : Z;
  pf_timestamp : Z;
  pf_sensors : list SensorDescriptor
}.

Section Engine.
Context {Value : Type} `{C : Cbor Value}.
Context `{Sha256Provider, AeadProvider}.
Context {S E : Type} `{Storage S} `{RecoveryStore S} `{GwEnv Value E}.
(** The build: overflow checks and debug assertions. *)
Context (oc da : bool).
Abbreviation G := (GwState.G S E).
Abbreviation HMsg := (HandlerMessage Value).

(** ** Pairing requests *)

Definition as_u (w : Z) (v : Value) : option Z := as_u64_opt v ≫= try_u w.

(** Sensor type, identifier and label; a label of more than 64 bytes rejects the
    request. *)
Fixpoint parse_sensor (fields : list (Value * Value)) (acc : option Z * option Z * option (list Z)) :
    option (option Z * option Z * option (list Z)) :=
  match fields with
  | [] => Some acc
  | (k, v) :: fields' =>
      let '(st, si, lab) := acc in
      match as_u64_opt k with
      | Some 1 => parse_sensor fields' (as_u 8 v, si, lab)
      | Some 2 => parse_sensor fields' (st, as_u 8 v, lab)
      | Some 3 =>
          match as_text v with
          | Some s => if len s >? 64 then None else parse_sensor fields' (st, si, Some s)
          | None => parse_sensor fields' acc
          end
      | _ => parse_sensor fields' acc
      end
  end.

Fixpoint parse_sensors (items : list Value) (acc : list SensorDescriptor) : option (list SensorDescriptor) :=
  match items with
  | [] => Some acc
  | item :: items' =>
      match as_map item with
      | None => parse_sensors items' acc
      | Some fields =>
          match parse_sensor fields (None, None, None) with
          | None => None
          | Some (Some st, Some si, lab) =>
              if (1 <=? st) && (st <=? 4) then parse_sensors items' (acc ++ [mkSensor st si lab]) else None
          | Some _ => parse_sensors items' acc
          end
      end
  end.

(** The fields seen so far; a later field of the same key wins, except that a key
    of the wrong length is ignored. *)
Record PairingAcc := mkPacc {
  pa_id : option (list Z);
  pa_hint : option Z;
  pa_psk : option (list Z);
  pa_channel : option Z;
  pa_time : option Z;
  pa_sensors : list SensorDescriptor
}.

Fixpoint parse_pairing_fields (fields : list (Value * Value)) (a : PairingAcc) : option PairingAcc :=
  match fields with
  | [] => Some a
  | (k, v) :: fields' =>
      match as_u64_opt k with
      | None => None
      | Some 1 => parse_pairing_fields fields' (mkPacc (as_text v) (pa_hint a) (pa_psk a) (pa_channel a) (pa_time a) (pa_sensors a))
      | Some 2 => parse_pairing_fields fields' (mkPacc (pa_id a) (as_u 16 v) (pa_psk a) (pa_channel a) (pa_time a) (pa_sensors a))
      | Some 3 =>
          match as_bytes v with
          | Some b =>
              if len b =? 32
              then parse_pairing_fields fields' (mkPacc (pa_id a) (pa_hint a) (Some b) (pa_channel a) (pa_time a) (pa_sensors a))
              else parse_pairing_fields fields' a
          | None => parse_pairing_fields fields' a
          end
      | Some 4 => parse_pairing_fields fields' (mkPacc (pa_id a) (pa_hint a) (pa_psk a) (as_u 8 v) (pa_time a) (pa_sensors a))
      | Some 5 =>
          match as_array v with
          | Some items =>
              match parse_sensors items (pa_sensors a) with
              | Some ss => parse_pairing_fields fields' (mkPacc (pa_id a) (pa_hint a) (pa_psk a) (pa_channel a) (pa_time a) ss)
              | None => None
              end
          | None => parse_pairing_fields fields' a
          end
      | Some 6 => parse_pairing_fields fields' (mkPacc (pa_id a) (pa_hint a) (pa_psk a) (pa_channel a) (as_u64_opt v) (pa_sensors a))
      | Some _ => parse_pairing_fields fields' a
      end
  end.

Definition parse_pairing_request (cbor : list Z) : option PairingRequestFields :=
  match from_reader cbor with
  | Ok v =>
      fields ← as_map v;
      a ← parse_pairing_fields fields (mkPacc None None None None None []);
      node_id ← pa_id a;
      hint ← pa_hint a;
      psk ← pa_psk a;
      channel ← pa_channel a;
      time ← pa_time a;
      if (len node_id =? 0) || (len node_id >? 64) then None else
      if negb ((1 <=? channel) && (channel <=? 13)) then None else
      Some (mkPairing node_id hint psk channel time (pa_sensors a))
  | _ => None
  end.

(** ** Responses *)

Definition encode_response (h : FrameHeader) (cbor psk : list Z) : G (list Z) :=
  ok_or_discard (encode_frame h cbor psk).

Definition report_missing_hint (hint : Z) : G unit :=
  let> now := env_do instant in
  gmod (fun g => let '(accepted, t) := report (hint_tracker g) now hint in
                 set_tracker g t (hints_notified g || accepted)).

(** Records the hint and discards the frame. *)
Definition report_and_discard {A} (hint : Z) : G A := report_missing_hint hint ;;> discard.

(** ** Phones *)

(** The first phone that is not revoked and whose key opens the frame. *)
Fixpoint try_phones (decoded : DecodedFrame) (phones : list PhonePskRecord) : option (PhonePskRecord * list Z) :=
  match phones with
  | [] => None
  | p :: ps =>
      if bool_decide (phone_status p = Revoked) then try_phones decoded ps else
      match open_frame decoded (phone_psk p) with
      | Ok pt => Some (p, pt)
      | _ => try_phones decoded ps
      end
  end.

Definition payload_field (acc : option (list Z)) (kv : Value * Value) : option (list Z) :=
  match as_u64_opt kv.1 with
  | Some k => if k =? PEER_REQ_KEY_PAYLOAD then as_bytes kv.2 else acc
  | None => acc
  end.

(** The pairing request inside a PEER_REQUEST sealed by [psk]. *)
Definition open_pairing_request (outer psk : list Z) : option PairingRequestFields :=
  match from_reader outer with
  | Ok v =>
      fields ← as_map v;
      encrypted ← fold_left payload_field fields None;
      if len encrypted <? 12 + 16 then None else
      plain ← open psk (take 12 encrypted) PAIRING_AAD (drop 12 encrypted);
      parse_pairing_request plain
  | _ => None
  end.

(** The acknowledgement of a registered node, sealed under its own key. *)
Definition peer_ack (record : NodeRecord) (nonce : Z) : G (list Z) :=
  let> cbor := ok_or_discard (into_writer (VMap [(VInteger PEER_ACK_KEY_STATUS, VInteger 0)])) in
  encode_response (mkHeader (nr_key_hint record) MSG_PEER_ACK nonce) cbor (nr_psk record).

Definition handle_peer_request (decoded : DecodedFrame) : G (list Z) :=
  let> phones := store_or_discard (get_phone_psks_by_key_hint (key_hint (header decoded))) in
  let> '(phone, outer) := some_or_discard (try_phones decoded phones) in
  let> pr := some_or_discard (open_pairing_request outer (phone_psk phone)) in
  let> o := env_do unix_ms in
  let> ms := some_or_discard (since_epoch o) in
  if Z.abs (ms / 1000 - pf_timestamp pr) >? MAX_TIMESTAMP_DRIFT_S then discard else
  if negb (pf_key_hint pr =? key_hint_from_psk (pf_psk pr)) then discard else
  let record := paired_record (node_record_new (string_of (pf_node_id pr)) (pf_key_hint pr) (pf_psk pr))
    (pf_rf_channel pr) (pf_sensors pr) (phone_id phone) in
  let> inserted := store_or_discard (insert_node_if_not_exists record) in
  (if inserted : bool then gret tt
   else
     let> o := store_or_discard (get_node (nr_id record)) in
     let> existing := some_or_discard o in
     if negb (bool_decide (nr_psk existing = nr_psk record)) then discard else gret tt) ;;>
  peer_ack record (h_nonce (header decoded)).

Definition handle_diag_request (decoded : DecodedFrame) (rssi : option Z) : G (list Z) :=
  let hint := key_hint (header decoded) in
  let> phones := store_or_discard (get_phone_psks_by_key_hint hint) in
  let> '(phone, cbor) := some_or_discard (try_phones decoded phones) in
  let> msg := ok_or_discard (node_decode MSG_DIAG_REQUEST cbor) in
  match msg with
  | DiagRequest diagnostic_type =>
      if negb (diagnostic_type =? DIAG_TYPE_RSSI) then discard else
      let> reply := ok_or_discard (gateway_encode da (DiagReply diagnostic_type (default 0 rssi))) in
      encode_response (mkHeader hint MSG_DIAG_REPLY (h_nonce (header decoded))) reply (phone_psk phone)
  | _ => discard
  end.

(** ** Command selection *)

Definition is_ephemeral_of (h : list Z) (c : PendingCommand) : bool :=
  match c with PRunEphemeral h' => bool_decide (h' = h) | _ => false end.

Fixpoint first_ephemeral (cmds : list PendingCommand) : option (list Z) :=
  match cmds with
  | [] => None
  | PRunEphemeral h :: _ => Some h
  | _ :: cmds' => first_ephemeral cmds'
  end.

(** Removes the first command that [p] accepts. *)
Fixpoint remove_first (p : PendingCommand -> bool) (cmds : list PendingCommand) : option (PendingCommand * list PendingCommand) :=
  match cmds with
  | [] => None
  | c :: cmds' =>
      if p c then Some (c, cmds')
      else match remove_first p cmds' with Some (x, rest) => Some (x, c :: rest) | None => None end
  end.

Definition remove_pending (id : string) (p : PendingCommand -> bool) : G (option PendingCommand) :=
  let> g := gget in
  match pending_commands g !! id ≫= remove_first p with
  | Some (c, rest) => gmod (fun g => set_pending g (<[id := rest]> (pending_commands g))) ;;> gret (Some c)
  | None => gret None
  end.

(** Drops every command for this program; an empty queue is removed. *)
Definition drop_ephemerals (id : string) (h : list Z) : G unit :=
  gmod (fun g =>
    match pending_commands g !! id with
    | None => g
    | Some cmds =>
        let kept := filter (fun c => is_ephemeral_of h c = false) cmds in
        set_pending g (match kept with [] => delete id (pending_commands g) | _ => <[id := kept]> (pending_commands g) end)
    end).

Definition abi_ok (p : ProgramRecord) (firmware_abi : Z) : bool :=
  match abi_version p with Some a => a =? firmware_abi | None => true end.

Definition is_schedule (c : PendingCommand) : bool := match c with PUpdateSchedule _ => true | _ => false end.
Definition is_reboot (c : PendingCommand) : bool := match c with PReboot => true | _ => false end.

(** A pending one-shot program, if it can be delivered to this node. *)
Definition select_ephemeral (node : NodeRecord) (firmware_abi : Z) : G (option CommandPayload) :=
  let> g := gget in
  match pending_commands g !! nr_id node ≫= first_ephemeral with
  | None => gret None
  | Some h =>
      let> r := store (get_program h) in
      match r with
      | inr (Some program) =>
          if negb (abi_ok program firmware_abi)
          then remove_pending (nr_id node) (is_ephemeral_of (p_hash program)) ;;> gret None
          else if p_size program >? MAX_EPHEMERAL_SIZE
          then drop_ephemerals (nr_id node) (p_hash program) ;;> gret None
          else
            match chunk_count (len (p_image program)) DEFAULT_CHUNK_SIZE with
            | Some count =>
                remove_pending (nr_id node) (is_ephemeral_of (p_hash program)) ;;>
                gret (Some (RunEphemeral (p_hash program) (p_size program) DEFAULT_CHUNK_SIZE count))
            | None => gret None
            end
      | _ => gret None
      end
  end.

(** The assigned program, when the node runs another one. *)
Definition select_update (node : NodeRecord) (node_program_hash : list Z) (firmware_abi : Z) : G (option CommandPayload) :=
  match assigned_program_hash node with
  | None => gret None
  | Some assigned =>
      if bool_decide (assigned = node_program_hash) then gret None else
      let> r := store (get_program assigned) in
      gret (match r with
            | inr (Some program) =>
                if abi_ok program firmware_abi then
                  match chunk_count (len (p_image program)) DEFAULT_CHUNK_SIZE with
                  | Some count => Some (UpdateProgram (p_hash program) (p_size program) DEFAULT_CHUNK_SIZE count)
                  | None => None
                  end
                else None
            | _ => None
            end)
  end.

Definition select_command (node : NodeRecord) (node_program_hash : list Z) (firmware_abi : Z) : G CommandPayload :=
  let> o := select_ephemeral node firmware_abi in
  match o with Some cmd => gret cmd | None =>
  let> o := select_update node node_program_hash firmware_abi in
  match o with Some cmd => gret cmd | None =>
  let> o := remove_pending (nr_id node) is_schedule in
  match o with Some (PUpdateSchedule i) => gret (UpdateSchedule i) | _ =>
  let> o := remove_pending (nr_id node) is_reboot in
  match o with Some _ => gret Reboot | None => gret Nop end end end end.

(** ** WAKE *)

(** The session for this WAKE: a retry during a transfer keeps its session. *)
Definition reuses (s : option Session) (nonce : Z) : option (Session * CommandPayload) :=
  match s with
  | Some s =>
      match state s with
      | ChunkedTransfer h size csize count eph =>
          if wake_nonce s =? nonce
          then Some (s, if eph : bool then RunEphemeral h size csize count else UpdateProgram h size csize count)
          else None
      | _ => None
      end
  | None => None
  end.

Definition set_session_state (id : string) (x : SessionState) : G unit :=
  gmod (fun g => set_sessions g (set_state (session_manager g) id x).1).

(** The transfer state of a command that starts one. *)
Definition transfer_state (p : CommandPayload) : option SessionState :=
  match p with
  | UpdateProgram h size csize count => Some (ChunkedTransfer h size csize count false)
  | RunEphemeral h size csize count => Some (ChunkedTransfer h size csize count true)
  | _ => None
  end.

Definition update_transfer (id : string) (p : CommandPayload) : G unit :=
  match transfer_state p with Some x => set_session_state id x | None => gret tt end.

(** Starting sequence number and command. *)
Definition wake_session (node : NodeRecord) (nonce : Z) (peer program_hash : list Z) (abi : Z) : G (Z * CommandPayload) :=
  let> g := gget in
  match reuses (get_session (session_manager g) (nr_id node)) nonce with
  | Some (s, cmd) => gret (next_expected_seq s, cmd)
  | None =>
      let> o := env_do fill_random in
      let> seq := some_or_discard o in
      let> now := env_do instant in
      gmod (fun g => set_sessions g (create_session (session_manager g) now (nr_id node) peer nonce seq).1) ;;>
      let> cmd := select_command node program_hash abi in
      gret (seq, cmd)
  end.

(** Durable metadata, then the runtime observations that depend on it. *)
Definition observe_wake (node : NodeRecord) (abi battery_mv : Z) (version : list Z) (rssi : option Z) : G unit :=
  let id := nr_id node in
  let> r := store (update_node_wake_metadata id abi version) in
  match r with
  | inr _ =>
      let> now := env_do unix_ms in
      gmod (fun g =>
        let m := record_last_seen (session_manager g) id now in
        let m := record_battery_mv m id battery_mv in
        set_sessions g (match rssi with Some x => record_wake_rssi_dbm m id x | None => m end))
  | inl (ENotFound _) =>
      gmod (fun g => set_sessions g
        (clear_wake_rssi_dbm (clear_battery_mv (clear_last_seen (session_manager g) id) id) id))
  | inl _ => gret tt
  end.

(** The escrow fields of ACTUAL_STATE. *)
Definition escrow_of (id : string) : G (option (list Z * Z * list Z)) :=
  let> g := gget in
  if has_sqlite g then
    let> r := store (get_node_escrow id) in
    gret (match r with
          | inr (Some e) =>
              if (len (ne_master_key_id e) =? 0) then None else
              if negb (len (ne_encrypted_psk e) =? 60) then None else
              if negb (len (ne_master_key_id e) =? 32) then None else
              Some (ne_encrypted_psk e, ne_key_hint e, ne_master_key_id e)
          | _ => None
          end)
  else gret None.

(** An event to every handler process, in order. *)
Definition broadcast (msg : HMsg) : G unit :=
  gmod (fun g => set_env g (fold_left (fun e i => handler_event e i msg) (seq 0 (length (g_handlers g))) (g_env g))).

Definition node_online_event (id : string) (battery_mv abi : Z) (version : list Z) (timestamp : Z) : HMsg :=
  HEvent id "node_online" [("battery_mv"%string, VInteger battery_mv); ("firmware_abi_version"%string, VInteger abi);
    ("firmware_version"%string, VText version)] timestamp.

(** A node that reports the assigned program has installed it, whether or not its
    acknowledgement arrived. *)
Definition reconcile_wake (node : NodeRecord) (program_hash : list Z) : G unit :=
  if bool_decide (assigned_program_hash node = Some program_hash) &&
     negb (bool_decide (current_program_hash node = Some program_hash))
  then store (reconcile_current_program_hash (nr_id node) program_hash) ;;> gret tt
  else gret tt.

(** Decoded readings of a blob, when the program has a decoder that yields some. *)
Definition decode_readings (program_hash blob : list Z) : G (option Readings) :=
  let> r := store (get_program program_hash) in
  match r with
  | inr (Some program) =>
      match decoder_image program with
      | Some image =>
          let> o := env_do (fun e => execute_decoder e image blob) in
          gret (match o with Some [] => None | _ => o end)
      | None => gret None
      end
  | _ => gret None
  end.

(** The blob of a WAKE goes to the connectors, and in the background to the
    handler of the program. *)
Definition route_wake_blob (node : NodeRecord) (nonce : Z) (program_hash data : list Z) (timestamp_ms : Z) : G unit :=
  if (len data =? 0) || (len program_hash =? 0) then gret tt else
  let> readings := decode_readings program_hash data in
  let> g := gget in
  emit (EAppData (nr_id node) program_hash data timestamp_ms OWakeBlob readings) ;;>
  match find_handler (g_handlers g) program_hash with
  | Some i => gmod (fun g => set_tasks g (g_tasks g ++ [mkTask i nonce (nr_id node) program_hash data readings]))
  | None => gret tt
  end.

(** Header and payload of the COMMAND, and whether it carries the deferred reply. *)
Definition handle_wake_core (node : NodeRecord) (h : FrameHeader) (payload peer : list Z) (rssi : option Z) :
    G (FrameHeader * list Z * bool) :=
  let> msg := ok_or_discard (node_decode MSG_WAKE payload) in
  match msg with
  | Wake abi program_hash battery_mv version blob =>
      let id := nr_id node in
      let> o := env_do unix_ms in
      let timestamp_ms := wrap 64 (default 0 (since_epoch o)) in
      let> '(starting_seq, cmd) := wake_session node (h_nonce h) peer program_hash abi in
      update_transfer id cmd ;;>
      observe_wake node abi battery_mv version rssi ;;>
      let> escrow := escrow_of id in
      emit (EActualState id program_hash (assigned_program_hash node) (schedule_interval_s node) battery_mv abi version
        timestamp_ms escrow rssi) ;;>
      broadcast (node_online_event id battery_mv abi version (timestamp_ms / 1000)) ;;>
      reconcile_wake node program_hash ;;>
      let> g := gget in
      let deferred := if is_nop cmd then deferred_replies g !! id else None in
      let> cbor := ok_or_discard (gateway_encode da (Command starting_seq timestamp_ms cmd deferred)) in
      match blob with
      | Some data => route_wake_blob node (h_nonce h) program_hash data timestamp_ms
      | None => gret tt
      end ;;>
      gret (mkHeader (nr_key_hint node) MSG_COMMAND (h_nonce h), cbor, bool_decide (is_Some deferred))
  | _ => discard
  end.

(** The deferred reply is forgotten only once its frame exists. *)
Definition handle_wake (node : NodeRecord) (h : FrameHeader) (payload peer : list Z) (rssi : option Z) : G (list Z) :=
  let> '(rh, cbor, delivered) := handle_wake_core node h payload peer rssi in
  let> frame := encode_response rh cbor (nr_psk node) in
  (if delivered : bool then gmod (fun g => set_deferred g (delete (nr_id node) (deferred_replies g))) else gret tt) ;;>
  gret frame.

(** Keeps a reply for the node's next NOP command. *)
Definition defer_reply (id : string) (data : list Z) : G unit :=
  if len data >? MAX_COMMAND_BLOB_SIZE then gret tt
  else gmod (fun g => set_deferred g (<[id := data]> (deferred_replies g))).

(** The spawned task of a WAKE blob. *)
Definition run_task (t : WakeTask) : G unit :=
  let> now := env_do unix_ms in
  let> reply := env_do (fun e => handler_send e (t_handler t)
    (HData (t_nonce t) (t_node t) (t_program_hash t) (t_data t) (default 0 (since_epoch now) / 1000) (t_readings t))) in
  match reply with
  | Some (HDataReply _ data _) => if len data =? 0 then gret tt else defer_reply (t_node t) data
  | _ => gret tt
  end.

(** ** After the WAKE *)

Definition handle_get_chunk (node : NodeRecord) (h : FrameHeader) (chunk_index : Z) : G (list Z) :=
  let> g := gget in
  let> session := some_or_discard (get_session (session_manager g) (nr_id node)) in
  match state session with
  | ChunkedTransfer hash _ chunk_size _ _ =>
      let> o := store_or_discard (get_program hash) in
      let> program := some_or_discard o in
      let> data := some_or_discard (get_chunk 64 (p_image program) chunk_index chunk_size) in
      let> cbor := ok_or_discard (gateway_encode da (Chunk chunk_index data)) in
      encode_response (mkHeader (nr_key_hint node) MSG_CHUNK (h_nonce h)) cbor (nr_psk node)
  | _ => discard
  end.

Definition program_updated_event (id : string) (hash : list Z) (timestamp : Z) : HMsg :=
  HEvent id "program_updated" [("program_hash"%string, VBytes hash)] timestamp.

Definition handle_program_ack (node : NodeRecord) (program_hash : list Z) : G unit :=
  let> g := gget in
  match get_session (session_manager g) (nr_id node) with
  | Some session =>
      match state session with
      | ChunkedTransfer expected _ _ _ _ =>
          if negb (bool_decide (expected = program_hash)) then gret tt else
          store (upsert_node (confirm_program node program_hash)) ;;>
          let> now := env_do unix_ms in
          broadcast (program_updated_event (nr_id node) program_hash (default 0 (since_epoch now) / 1000)) ;;>
          set_session_state (nr_id node) BpfExecuting
      | _ => gret tt
      end
  | None => gret tt
  end.

Definition handle_app_data (node : NodeRecord) (h : FrameHeader) (blob : list Z) : G (list Z) :=
  let> program_hash := some_or_discard (current_program_hash node) in
  let> o := env_do unix_ms in
  let now := default 0 (since_epoch o) in
  let> readings := decode_readings program_hash blob in
  let> g := gget in
  emit (EAppData (nr_id node) program_hash blob (wrap 64 now) OAppData readings) ;;>
  let> i := some_or_discard (find_handler (g_handlers g) program_hash) in
  let> o := env_do (fun e => handler_send e i (HData (h_nonce h) (nr_id node) program_hash blob (now / 1000) readings)) in
  let> reply := some_or_discard o in
  match reply with
  | HDataReply _ data delivery =>
      if len data =? 0 then discard else
      if delivery =? 1 then defer_reply (nr_id node) data ;;> discard else
      let> cbor := ok_or_discard (gateway_encode da (AppDataReply data)) in
      encode_response (mkHeader (nr_key_hint node) MSG_APP_DATA_REPLY (h_nonce h)) cbor (nr_psk node)
  | _ => discard
  end.

(** [verify_and_advance_seq(..).await.ok()?]. *)
Definition advance_session (id : string) (seq : Z) : G unit :=
  let> now := env_do instant in
  let> g := gget in
  let '(m, r) := verify_and_advance_seq oc (session_manager g) now id seq in
  gmod (fun g => set_sessions g m) ;;> ok_or_discard r.

Definition handle_post_wake (node : NodeRecord) (h : FrameHeader) (payload : list Z) : G (list Z) :=
  let> msg := ok_or_discard (node_decode (h_msg_type h) payload) in
  advance_session (nr_id node) (h_nonce h) ;;>
  match msg with
  | GetChunk i => handle_get_chunk node h i
  | ProgramAck hash => handle_program_ack node hash ;;> discard
  | AppData blob => handle_app_data node h blob
  | _ => discard
  end.

(** ** Frames *)

(** The first candidate whose key opens the frame. *)
Fixpoint try_nodes (decoded : DecodedFrame) (nodes : list NodeRecord) : option (NodeRecord * list Z) :=
  match nodes with
  | [] => None
  | n :: ns => match open_frame decoded (nr_psk n) with Ok pt => Some (n, pt) | _ => try_nodes decoded ns end
  end.

(** The first recovered key that opens the frame. *)
Fixpoint try_pending (s : S) (decoded : DecodedFrame) (hint : Z) (rs : list PendingRecovery) : option (NodeRecord * list Z) :=
  match rs with
  | [] => None
  | r :: rs' =>
      match decrypt_psk s (pr_node_id r) (pr_encrypted_psk r) with
      | Some psk =>
          match open_frame decoded psk with
          | Ok pt => Some (node_record_new (pr_node_id r) hint psk, pt)
          | _ => try_pending s decoded hint rs'
          end
      | None => try_pending s decoded hint rs'
      end
  end.

Definition dispatch_frame (node : NodeRecord) (h : FrameHeader) (payload peer : list Z) (rssi : option Z) : G (list Z) :=
  if h_msg_type h =? MSG_WAKE then handle_wake node h payload peer rssi
  else if (h_msg_type h =? MSG_GET_CHUNK) || (h_msg_type h =? MSG_PROGRAM_ACK) || (h_msg_type h =? MSG_APP_DATA)
  then handle_post_wake node h payload
  else discard.

Definition try_recovery_auth (decoded : DecodedFrame) (peer : list Z) (rssi : option Z) : G (list Z) :=
  let hint := key_hint (header decoded) in
  let> g := gget in
  if negb (has_sqlite g) then report_and_discard hint else
  match cached_master_key_id g with
  | None => report_and_discard hint
  | Some key_id =>
      let> r := store (lookup_pending_recovery hint key_id MAX_TRIAL_CANDIDATES) in
      match r with
      | inl _ | inr [] => report_and_discard hint
      | inr candidates =>
          let> g := gget in
          match try_pending (g_storage g) decoded hint candidates with
          | None => report_and_discard hint
          | Some (node, payload) =>
              store_or_discard (upsert_node node) ;;>
              store (delete_pending_recovery hint (nr_id node)) ;;>
              dispatch_frame node (header decoded) payload peer rssi
          end
      end
  end.

Definition process_frame (raw peer : list Z) (rssi : option Z) : G (list Z) :=
  let> decoded := ok_or_discard (decode_frame raw) in
  let h := header decoded in
  if h_msg_type h =? MSG_PEER_REQUEST then handle_peer_request decoded
  else if h_msg_type h =? MSG_DIAG_REQUEST then handle_diag_request decoded rssi
  else
    let> candidates := store_or_discard (get_nodes_by_key_hint (key_hint h)) in
    match candidates with
    | [] => try_recovery_auth decoded peer rssi
    | _ =>
        let> '(node, payload) := some_or_discard (try_nodes decoded candidates) in
        dispatch_frame node h payload peer rssi
    end.

(** ** Administration and timers *)

Definition queue_command (id : string) (cmd : PendingCommand) : G unit :=
  gmod (fun g => set_pending g (<[id := default [] (pending_commands g !! id) ++ [cmd]]> (pending_commands g))).

Definition drain_missing_hints : G (list Z) :=
  let> g := gget in
  let '(hints, t) := drain_hints (hint_tracker g) in
  gmod (fun g => set_tracker g t (hints_notified g)) ;;> gret hints.

(** The cached key identity is refreshed when it can be read. *)
Definition refresh_cached_master_key_id : G unit :=
  let> g := gget in
  if has_sqlite g then
    let> r := store init_master_key_id in
    match r with
    | inr k => gmod (fun g => set_recovery g (has_sqlite g) (Some k))
    | inl _ => gret tt
    end
  else gret tt.

Definition set_sqlite_storage : G unit :=
  let> r := store init_master_key_id in
  gmod (fun g => set_recovery g true (match r with inr k => Some k | inl _ => cached_master_key_id g end)).

Definition node_timeout_event (id : string) (last_seen interval now : Z) : HMsg :=
  HEvent id "node_timeout" [("expected_interval_s"%string, VInteger interval); ("last_seen"%string, VInteger last_seen)] now.

(** Whether the node missed [multiplier] wake intervals; times in seconds. *)
Definition timed_out (node : NodeRecord) (seen : option Z) (multiplier now : Z) : bool :=
  let interval := schedule_interval_s node in
  if interval =? 0 then false else
  match seen with
  | Some s => now >? saturating_add 64 s (Z.min (interval * multiplier) (2 ^ 64 - 1))
  | None => false
  end.

Fixpoint report_timeouts (nodes : list NodeRecord) (seen : gmap string Z) (multiplier now : Z) : G unit :=
  match nodes with
  | [] => gret tt
  | n :: nodes' =>
      let last := (fun ms => ms / 1000) <$> (seen !! nr_id n ≫= since_epoch) in
      (if timed_out n last multiplier now
       then broadcast (node_timeout_event (nr_id n) (default 0 last) (schedule_interval_s n) now) else gret tt) ;;>
      report_timeouts nodes' seen multiplier now
  end.

Definition check_node_timeouts (multiplier : Z) : G unit :=
  let multiplier := if multiplier =? 0 then 3 else multiplier in
  let> r := store list_nodes in
  let nodes := match r with inr l => l | inl _ => [] end in
  let> g := gget in
  let> o := env_do unix_ms in
  report_timeouts nodes (snapshot_last_seen (session_manager g)) multiplier (default 0 (since_epoch o) / 1000).

(** ** The radio channel *)

Inductive ChannelError : Type := InvalidCli | ReadFailed | InvalidPersisted | OutOfRange | SeedFailed.

Definition channel_ok (c : Z) : bool := (1 <=? c) && (c <=? 14).

(** Decimal digits, [None] for any other character or past [u8]. *)
Fixpoint parse_digits (acc : Z) (s : list Z) : option Z :=
  match s with
  | [] => Some acc
  | c :: s' =>
      if (48 <=? c) && (c <=? 57) then
        let acc' := acc * 10 + (c - 48) in
        if acc' <? 256 then parse_digits acc' s' else None
      else None
  end.

(** [str::parse::<u8>]. *)
Definition parse_u8 (s : list Z) : option Z :=
  match s with
  | [] | [43] | [45] => None
  | 43 :: s' => parse_digits 0 s'
  | _ => parse_digits 0 s
  end.

(** [u8::to_string]. *)
Definition u8_to_string (n : Z) : list Z :=
  if n <? 10 then [48 + n]
  else if n <? 100 then [48 + n / 10; 48 + n mod 10]
  else [48 + n / 100; 48 + n / 10 mod 10; 48 + n mod 10].

Definition resolve_espnow_channel (cli_channel : Z) (s : S) : Res ChannelError Z * S :=
  if negb (channel_ok cli_channel) then (Err InvalidCli, s) else
  match get_config "espnow_channel" s with
  | (inl _, s1) => (Err ReadFailed, s1)
  | (inr (Some v), s1) =>
      match parse_u8 v with
      | None => (Err InvalidPersisted, s1)
      | Some c => if channel_ok c then (Ok c, s1) else (Err OutOfRange, s1)
      end
  | (inr None, s1) =>
      match set_config "espnow_channel" (u8_to_string cli_channel) s1 with
      | (inl _, s2) => (Err SeedFailed, s2)
      | (inr _, s2) => (Ok cli_channel, s2)
      end
  end.
End Engine.
