(* ===== verification/GwLogic.v ===== *)
(** * Reasoning about the engine

    [gwp m Q g]: the result and the final state of [m] from [g] satisfy [Q].
    [gkeeps R m]: [m] relates every state to the one it leaves by the preorder [R];
    a computation keeps a preorder once its primitive operations do. *)

From Stdlib Require Import String.
From S2P Require Import Prelude Frame Messages ProgramImage NodeRadio Session GwStore GwState GwEngine.
Open Scope list_scope.
Open Scope Z_scope.

Section Wp.
Context {S E : Type}.
Abbreviation Gw := (Gateway S E).
Abbreviation G := (GwState.G S E).

Definition gwp {A} (m : G A) (Q : Res unit A -> Gw -> Prop) (g : Gw) : Prop := Q (m g).1 (m g).2.

(** An outcome that is not [Ok], at any type of result. *)
Definition gfails {A B} (r : Res unit A) : Res unit B :=
  match r with Ok _ | Panic => Panic | Err e => Err e | UB => UB end.

Lemma gwp_bind {A B} (m : G A) (k : A -> G B) Q g :
  gwp m (fun r g' => match r with Ok a => gwp (k a) Q g' | _ => Q (gfails r) g' end) g -> gwp (gbind m k) Q g.
Proof. unfold gwp, gbind. by destruct (m g) as [[a|[]| |] g']. Qed.

Lemma gwp_mono {A} (m : G A) (P Q : Res unit A -> Gw -> Prop) g :
  gwp m P g -> (forall r g', P r g' -> Q r g') -> gwp m Q g.
Proof. unfold gwp. auto. Qed.

Lemma gwp_some_bind {A B} (o : option A) (k : A -> G B) Q (g : Gw) :
  (forall a, o = Some a -> gwp (k a) Q g) -> (o = None -> Q (Err tt) g) -> gwp (gbind (some_or_discard o) k) Q g.
Proof. intros H1 H2. apply gwp_bind. unfold gwp at 1. destruct o; simpl; auto. Qed.

Lemma gwp_ok_bind {X A B} (r : Res X A) (k : A -> G B) Q (g : Gw) :
  (forall a, r = Ok a -> gwp (k a) Q g) -> (forall x, (forall b, x <> Ok b) -> Q x g) -> gwp (gbind (ok_or_discard r) k) Q g.
Proof. intros H1 H2. apply gwp_bind. unfold gwp at 1. destruct r; simpl; auto; by apply H2. Qed.

Lemma gwp_run {A} (m : G A) Q g r g' : gwp m Q g -> m g = (r, g') -> Q r g'.
Proof. unfold gwp. intros HQ Hm. by rewrite Hm in HQ. Qed.

Lemma gwp_state {A} (P : Gw -> Prop) (m : G A) g : gwp m (fun _ => P) g -> P (m g).2.
Proof. done. Qed.

(** What only the result says: it is the result of the last computation. *)
Definition gres {A} (P : A -> Prop) (m : G A) : Prop := forall g a, (m g).1 = Ok a -> P a.

Lemma gres_bind {A B} (P : B -> Prop) (m : G A) (k : A -> G B) :
  (forall a, gres P (k a)) -> gres P (gbind m k).
Proof. intros Hk g b. unfold gbind. destruct (m g) as [[a|e| |] g']; simpl; [apply Hk|done..]. Qed.

Lemma gres_then {A B} (P0 : A -> Prop) (P : B -> Prop) (m : G A) (k : A -> G B) :
  gres P0 m -> (forall a, P0 a -> gres P (k a)) -> gres P (gbind m k).
Proof.
  intros Hm Hk g b. unfold gbind. specialize (Hm g). destruct (m g) as [[a|e| |] g']; simpl in *; [|done..]. by apply Hk, Hm.
Qed.

Lemma gres_ret {A} (P : A -> Prop) a : P a -> gres P (gret a).
Proof. intros Ha g x. simpl. by intros [= ->]. Qed.

Lemma gres_ok_bind {X A B} (P : B -> Prop) (r : Res X A) (k : A -> G B) :
  (forall a, r = Ok a -> gres P (k a)) -> gres P (gbind (ok_or_discard r) k).
Proof. intros Hk g b. unfold gbind, ok_or_discard. destruct r; simpl; [by apply Hk|done..]. Qed.

Lemma gres_some_bind {A B} (P : B -> Prop) (o : option A) (k : A -> G B) :
  (forall a, o = Some a -> gres P (k a)) -> gres P (gbind (some_or_discard o) k).
Proof. intros Hk g b. unfold gbind. destruct o; simpl; [by apply Hk|done]. Qed.

Lemma gres_ok {X A} (P : A -> Prop) (r : Res X A) : (forall a, r = Ok a -> P a) -> gres P (ok_or_discard r).
Proof. intros Hr g a. unfold ok_or_discard. destruct r; simpl; [|done..]. intros [= ->]. by apply Hr. Qed.

Lemma gres_discard {A} (P : A -> Prop) : gres P discard.
Proof. done. Qed.

Lemma gwp_gres {A} (P : A -> Prop) (m : G A) g : gres P m -> gwp m (fun r _ => forall a, r = Ok a -> P a) g.
Proof. intros H a. apply H. Qed.

(** ** Preorders *)

Definition gkeeps {A} (R : Gw -> Gw -> Prop) (m : G A) : Prop := forall g, R g (m g).2.

Lemma gkeeps_gwp {A} R (m : G A) g : gkeeps R m -> gwp m (fun _ g' => R g g') g.
Proof. intros H. apply H. Qed.

Lemma gkeeps_mono {A} (R R' : Gw -> Gw -> Prop) (m : G A) : (forall g g', R g g' -> R' g g') -> gkeeps R m -> gkeeps R' m.
Proof. intros HR Hm g. apply HR, Hm. Qed.

(** A computation that keeps [R], then a continuation. *)
Lemma gwp_keeps_bind {A B} R (m : G A) (k : A -> G B) (Q : Res unit B -> Gw -> Prop) g :
  gkeeps R m -> (forall a g', R g g' -> gwp (k a) Q g') -> (forall r g', (forall a, r <> Ok a) -> R g g' -> Q r g') ->
  gwp (gbind m k) Q g.
Proof.
  intros Hm Hk Hr. apply gwp_bind. eapply gwp_mono; [by apply gkeeps_gwp|]. intros r g' HR.
  destruct r; simpl; [by apply Hk|by apply Hr..].
Qed.

Section Keeps.
Context (R : Gw -> Gw -> Prop) `{!PreOrder R}.

Lemma gkeeps_pure {A} (m : G A) : (forall g, (m g).2 = g) -> gkeeps R m.
Proof using All. intros H g. rewrite H. reflexivity. Qed.

Lemma gkeeps_bind {A B} (m : G A) (k : A -> G B) : gkeeps R m -> (forall a, gkeeps R (k a)) -> gkeeps R (gbind m k).
Proof using All.
  intros Hm Hk g. specialize (Hm g). unfold gbind. destruct (m g) as [[a|e| |] g1]; simpl in *; [|done..].
  etransitivity; [exact Hm|apply Hk].
Qed.

Lemma gkeeps_mod f : (forall g, R g (f g)) -> gkeeps R (gmod f).
Proof. intros H g. apply H. Qed.

Lemma gkeeps_store {A} (op : Op S A) : (forall g, R g (set_storage g (op (g_storage g)).2)) -> gkeeps R (store op).
Proof. intros H g. specialize (H g). unfold store. by destruct (op (g_storage g)). Qed.

Lemma gkeeps_env {A} (f : E -> A * E) : (forall g, R g (set_env g (f (g_env g)).2)) -> gkeeps R (env_do f).
Proof. intros H g. specialize (H g). unfold env_do. by destruct (f (g_env g)). Qed.
End Keeps.
End Wp.

Create HintDb gkeeps discriminated.

(** Walks through a computation; the hints know the operations that are left. *)
Ltac gkeeps_step :=
  lazymatch goal with
  | |- gkeeps _ (gret _) => apply gkeeps_pure; [exact _|done]
  | |- gkeeps _ discard => apply gkeeps_pure; [exact _|done]
  | |- gkeeps _ gget => apply gkeeps_pure; [exact _|done]
  | |- gkeeps _ (some_or_discard ?o) => apply gkeeps_pure; [exact _|by destruct o]
  | |- gkeeps _ (ok_or_discard _) => apply gkeeps_pure; [exact _|done]
  | |- gkeeps _ (gbind _ _) => first [solve [auto with gkeeps] | apply gkeeps_bind; [exact _| |intro]]
  | |- gkeeps _ (if ?b then _ else _) => destruct b
  | |- gkeeps _ (match ?x with _ => _ end) => destruct x
  | |- gkeeps _ _ => solve [auto with gkeeps]
  end.
Ltac gkeeps_go := repeat gkeeps_step.

(** ** Operations that leave the stored records alone *)

Section View.
Context {Value : Type} `{C : Cbor Value}.
Context `{Sha256Provider, AeadProvider}.
Context {S E : Type} `{HL : StorageLaws S} `{HR : !RecoveryStore S} `{HP : !RecoveryLaws S} `{HG : GwEnv Value E}.
Context (oc da : bool).
Abbreviation Gw := (Gateway S E).

Definition gview (g : Gw) : View := view (g_storage g).

Definition same_view (g g' : Gw) : Prop := gview g' = gview g.

#[export] Instance same_view_order : PreOrder same_view.
Proof. split; [by intros g|]. intros g1 g2 g3 ??. unfold same_view in *. congruence. Qed.

(** An operation that only reads. *)
Lemma store_reads {A} (op : Op S A) (P : View -> A -> Prop) : op_ok view op (reads P) -> gkeeps same_view (store op).
Proof using .
  intros Hop. apply gkeeps_store. intros g. unfold same_view, gview. specialize (Hop (g_storage g)).
  destruct (op (g_storage g)) as [[e|a] s']; simpl; [done|]. by destruct Hop.
Qed.

Lemma store_discard_view {A} (op : Op S A) : gkeeps same_view (store op) -> gkeeps same_view (store_or_discard op).
Proof using . intros Hop. unfold store_or_discard. apply gkeeps_bind; [exact _|done|]. intros [e|a]; gkeeps_go. Qed.

Lemma env_view {A} (f : E -> A * E) : gkeeps same_view (env_do f).
Proof using . by apply gkeeps_env. Qed.

Lemma get_program_view h : gkeeps same_view (store (E := E) (get_program h)).
Proof using HL. eapply store_reads, get_program_ok. Qed.
Lemma get_phones_view h : gkeeps same_view (store (E := E) (get_phone_psks_by_key_hint h)).
Proof using HL. eapply store_reads, get_phones_ok. Qed.
Lemma get_nodes_view h : gkeeps same_view (store (E := E) (get_nodes_by_key_hint h)).
Proof using HL. eapply store_reads, get_nodes_by_key_hint_ok. Qed.
Lemma get_node_view id : gkeeps same_view (store (E := E) (get_node id)).
Proof using HL. eapply store_reads, get_node_ok. Qed.
Lemma lookup_pending_view h k l : gkeeps same_view (store (E := E) (lookup_pending_recovery h k l)).
Proof using HP.
  apply gkeeps_store. intros g. unfold same_view, gview. pose proof (lookup_pending_ok h k l (g_storage g)) as Hop.
  destruct (lookup_pending_recovery _ _ _ _) as [[e|a] s']; simpl; [done|]. by destruct Hop.
Qed.
Lemma delete_pending_view h id : gkeeps same_view (store (E := E) (delete_pending_recovery h id)).
Proof using HP. apply gkeeps_store. intros g. apply delete_pending_ok. Qed.
Lemma get_escrow_view id : gkeeps same_view (store (E := E) (get_node_escrow id)).
Proof using HP. apply gkeeps_store. intros g. apply get_node_escrow_ok. Qed.

(** A storage operation that must succeed, then a continuation. *)
Lemma gwp_store_bind {A B} (op : Op S A) post (k : A -> GwState.G S E B) Q (g : Gw) :
  op_ok view op post ->
  (forall a s', op (g_storage g) = (inr a, s') -> post (gview g) a (view s') -> gwp (k a) Q (set_storage g s')) ->
  (forall s', view s' = gview g -> Q (Err tt) (set_storage g s')) -> gwp (gbind (store_or_discard op) k) Q g.
Proof using .
  intros Hop Hk Hd. apply gwp_bind. unfold store_or_discard, store, gwp at 1, gbind. specialize (Hop (g_storage g)).
  destruct (op (g_storage g)) as [[e|a] s'] eqn:Ho; simpl; [by apply Hd|by apply Hk].
Qed.

Lemma gres_store {A} (op : Op S A) (P : View -> A -> Prop) :
  op_ok view op (reads P) -> gres (E := E) (fun a => exists v, P v a) (store_or_discard op).
Proof using .
  intros Hop g a. unfold store_or_discard, store, gbind. specialize (Hop (g_storage g)).
  destruct (op (g_storage g)) as [[e|x] s']; simpl; [done|]. intros [= ->]. destruct Hop. eauto.
Qed.

(** Writes to a field of the gateway other than storage. *)
Lemma mod_view f : (forall g : Gw, g_storage (f g) = g_storage g) -> gkeeps same_view (gmod f).
Proof using . intros Hf. apply gkeeps_mod. intros g. unfold same_view, gview. by rewrite Hf. Qed.
End View.

#[export] Hint Resolve env_view get_program_view get_phones_view get_nodes_view get_node_view lookup_pending_view
  delete_pending_view get_escrow_view store_discard_view : gkeeps.
#[export] Hint Extern 2 (gkeeps same_view (gmod _)) => apply mod_view; intros; by repeat (case_match || simpl) : gkeeps.
#[export] Hint Extern 2 (gkeeps same_view (emit _)) => apply mod_view; intros; done : gkeeps.

Section Engine.
Context {Value : Type} `{C : Cbor Value}.
Context `{Sha256Provider, AeadProvider}.
Context {S E : Type} `{HL : StorageLaws S} `{HR : !RecoveryStore S} `{HP : !RecoveryLaws S} `{HG : GwEnv Value E}.
Context (oc da : bool).

Lemma broadcast_view msg : gkeeps (same_view (S := S) (E := E)) (broadcast msg).
Proof using . apply mod_view. done. Qed.
Lemma report_view {A} hint : gkeeps (same_view (S := S) (E := E)) (report_and_discard (A := A) hint).
Proof using . unfold report_and_discard, report_missing_hint. gkeeps_go. Qed.
Lemma encode_response_view h cbor psk : gkeeps (same_view (S := S) (E := E)) (encode_response h cbor psk).
Proof using . unfold encode_response. gkeeps_go. Qed.
Lemma remove_pending_view id p : gkeeps (same_view (S := S) (E := E)) (remove_pending id p).
Proof using . unfold remove_pending. gkeeps_go. Qed.
Lemma drop_ephemerals_view id h : gkeeps (same_view (S := S) (E := E)) (drop_ephemerals id h).
Proof using . unfold drop_ephemerals. gkeeps_go. Qed.
#[local] Hint Resolve broadcast_view report_view encode_response_view remove_pending_view drop_ephemerals_view : gkeeps.

Lemma select_command_view node h abi : gkeeps (same_view (S := S) (E := E)) (select_command node h abi).
Proof using HL. unfold select_command, select_ephemeral, select_update. gkeeps_go. Qed.
#[local] Hint Resolve select_command_view : gkeeps.
Lemma wake_session_view node nonce peer h abi : gkeeps (same_view (S := S) (E := E)) (wake_session node nonce peer h abi).
Proof using HL. unfold wake_session. gkeeps_go. Qed.
Lemma update_transfer_view id p : gkeeps (same_view (S := S) (E := E)) (update_transfer id p).
Proof using . unfold update_transfer, set_session_state. gkeeps_go. Qed.
Lemma escrow_of_view id : gkeeps (same_view (S := S) (E := E)) (escrow_of id).
Proof using HL HP. unfold escrow_of. gkeeps_go. Qed.
Lemma decode_readings_view h b : gkeeps (same_view (S := S) (E := E)) (decode_readings h b).
Proof using HL. unfold decode_readings. gkeeps_go. Qed.
#[local] Hint Resolve decode_readings_view : gkeeps.
Lemma route_wake_blob_view node nonce h d ts : gkeeps (same_view (S := S) (E := E)) (route_wake_blob node nonce h d ts).
Proof using HL. unfold route_wake_blob. gkeeps_go. Qed.
Lemma defer_reply_view id data : gkeeps (same_view (S := S) (E := E)) (defer_reply id data).
Proof using . unfold defer_reply. gkeeps_go. Qed.
#[local] Hint Resolve defer_reply_view : gkeeps.
Lemma handle_get_chunk_view node h i : gkeeps (same_view (S := S) (E := E)) (handle_get_chunk da node h i).
Proof using HL. unfold handle_get_chunk. gkeeps_go. Qed.
Lemma handle_app_data_view node h b : gkeeps (same_view (S := S) (E := E)) (handle_app_data da node h b).
Proof using HL. unfold handle_app_data. gkeeps_go. Qed.
Lemma advance_session_view id q : gkeeps (same_view (S := S) (E := E)) (advance_session oc id q).
Proof using . unfold advance_session. gkeeps_go. Qed.
Lemma handle_diag_view f rssi : gkeeps (same_view (S := S) (E := E)) (handle_diag_request da f rssi).
Proof using HL. unfold handle_diag_request. gkeeps_go. Qed.
Lemma run_task_view t : gkeeps (same_view (S := S) (E := E)) (run_task t).
Proof using . unfold run_task. gkeeps_go. Qed.
End Engine.

#[export] Hint Resolve broadcast_view report_view encode_response_view wake_session_view update_transfer_view escrow_of_view
  decode_readings_view route_wake_blob_view defer_reply_view handle_get_chunk_view handle_app_data_view advance_session_view
  handle_diag_view : gkeeps.
