(* ===== verification/GwRegistry.v ===== *)
(** * What may change the registry

    An abstract specification of the gateway's registry: the transitions a radio
    frame may cause, each with the authority it needs - a phone that is not
    revoked, a recovered key, or the node's own key and, for an acknowledgement, a
    sequence number in order.  [process_frame] implements it: whatever frame
    arrives and whichever storage operations fail, it moves the registry along
    authorised transitions only. *)

From Stdlib Require Import String.
From S2P Require Import Prelude Frame Messages ProgramImage NodeRadio Session GwStore GwState GwEngine GwLogic.
Open Scope list_scope.
Open Scope Z_scope.

(** The computation does nothing here. *)
Ltac stay := unfold gwp; simpl; first [reflexivity | by intros].

(** Records are stored under their own identifier. *)
Definition keyed (v : View) : Prop := forall id n, v_nodes v !! id = Some n -> nr_id n = id.

Lemma keyed_with_node v n : keyed v -> keyed (with_node v n).
Proof.
  intros Hk id x. simpl. destruct (decide (id = nr_id n)) as [->|Hne].
  - rewrite lookup_insert_eq. by intros [= <-].
  - rewrite lookup_insert_ne by done. apply Hk.
Qed.

Lemma keyed_alter v id f : (forall n, nr_id (f n) = nr_id n) -> keyed v -> keyed (alter_node v id f).
Proof.
  intros Hf Hk j x. simpl. destruct (decide (j = id)) as [->|Hne].
  - rewrite lookup_alter_eq. destruct (v_nodes v !! id) as [n|] eqn:Hn; simpl; [|done]. intros [= <-]. rewrite Hf. by apply Hk.
  - rewrite lookup_alter_ne by done. apply Hk.
Qed.

Lemma with_node_alter v n f :
  v_nodes v !! nr_id n = Some n -> nr_id (f n) = nr_id n -> with_node v (f n) = alter_node v (nr_id n) f.
Proof. intros Hn Hf. unfold with_node, alter_node. by rewrite Hf, (alter_insert _ _ _ _ Hn). Qed.

Section Registry.
Context {Value : Type} `{C : Cbor Value}.
Context `{Sha256Provider, AeadProvider}.
Context {S E : Type} `{HL : StorageLaws S} `{HR : !RecoveryStore S} `{HP : !RecoveryLaws S} `{HG : GwEnv Value E}.
Context (oc da : bool).
Abbreviation Gw := (Gateway S E).

(** ** The specification *)

Definition paired (pr : PairingRequestFields) (phone : PhonePskRecord) : NodeRecord :=
  paired_record (node_record_new (string_of (pf_node_id pr)) (pf_key_hint pr) (pf_psk pr))
    (pf_rf_channel pr) (pf_sensors pr) (phone_id phone).

(** The frame is from the registered node [id]: it opens under the node's key. *)
Definition from_node (f : DecodedFrame) (v : View) (id : string) (payload : list Z) : Prop :=
  exists n, v_nodes v !! id = Some n /\ nr_key_hint n = key_hint (header f) /\ open_frame f (nr_psk n) = Ok payload.

Inductive authorised (g : Gw) (f : DecodedFrame) : View -> View -> Prop :=
  | by_phone v phone outer pr :
      h_msg_type (header f) = MSG_PEER_REQUEST ->
      phone ∈ v_phones (gview g) -> phone_key_hint phone = key_hint (header f) -> phone_status phone = Active ->
      open_frame f (phone_psk phone) = Ok outer -> open_pairing_request outer (phone_psk phone) = Some pr ->
      pf_key_hint pr = key_hint_from_psk (pf_psk pr) ->
      v_nodes v !! string_of (pf_node_id pr) = None ->
      authorised g f v (with_node v (paired pr phone))
  | by_recovery v r psk payload :
      r ∈ pending_of (g_storage g) -> pr_key_hint r = key_hint (header f) ->
      decrypt_psk (g_storage g) (pr_node_id r) (pr_encrypted_psk r) = Some psk -> open_frame f psk = Ok payload ->
      (forall id n, v_nodes v !! id = Some n -> nr_key_hint n <> key_hint (header f)) ->
      authorised g f v (with_node v (node_record_new (pr_node_id r) (key_hint (header f)) psk))
  | by_wake v id payload abi hash mv version blob :
      from_node f v id payload -> node_decode MSG_WAKE payload = Ok (Wake abi hash mv version blob) ->
      authorised g f v (alter_node v id (fun n => update_firmware_metadata n abi version))
  | by_report v id payload n abi hash mv version blob :
      from_node f v id payload -> node_decode MSG_WAKE payload = Ok (Wake abi hash mv version blob) ->
      v_nodes v !! id = Some n -> assigned_program_hash n = Some hash ->
      authorised g f v (alter_node v id (fun n => confirm_program n hash))
  | by_ack v id payload s hash size csize count eph :
      from_node f v id payload -> node_decode (h_msg_type (header f)) payload = Ok (ProgramAck hash) ->
      sessions (session_manager g) !! id = Some s -> next_expected_seq s = h_nonce (header f) ->
      state s = ChunkedTransfer hash size csize count eph ->
      authorised g f v (alter_node v id (fun n => confirm_program n hash)).

(** ** Frames of a registered node *)

Section Node.
(** The gateway that received the frame, the node it is from, and the state in
    which it is dispatched. *)
Context (g0 : Gw) (f : DecodedFrame) (node : NodeRecord) (payload : list Z).
Context (Hhint : nr_key_hint node = key_hint (header f)) (Hopen : open_frame f (nr_psk node) = Ok payload).

Definition inv (v0 : View) (g : Gw) : Prop :=
  rtc (authorised g0 f) v0 (gview g) /\ keyed (gview g) /\ from_node f (gview g) (nr_id node) payload.

Definition carries (v0 : View) (g g' : Gw) : Prop := inv v0 g -> inv v0 g'.

#[local] Instance carries_order v0 : PreOrder (carries v0).
Proof. unfold carries. split; [by intros g|]. intros g1 g2 g3 ?? ?. auto. Qed.

Lemma same_view_carries {A} v0 (m : GwState.G S E A) : gkeeps same_view m -> gkeeps (carries v0) m.
Proof using . apply gkeeps_mono. intros g g' Hv. unfold carries, inv. by rewrite Hv. Qed.

(** One authorised change of the node's own record. *)
Lemma inv_alter v0 g g' fn :
  (forall n, nr_id (fn n) = nr_id n /\ nr_key_hint (fn n) = nr_key_hint n /\ nr_psk (fn n) = nr_psk n) ->
  authorised g0 f (gview g) (alter_node (gview g) (nr_id node) fn) ->
  gview g' = alter_node (gview g) (nr_id node) fn -> inv v0 g -> inv v0 g'.
Proof using .
  intros Hfn Hauth Hv (Hr & Hk & n & Hn & Hh & Ho). unfold inv. rewrite Hv. split_and!.
  - by eapply rtc_r.
  - apply keyed_alter; [|done]. intros x. apply Hfn.
  - exists (fn n). simpl. rewrite lookup_alter_eq, Hn. destruct (Hfn n) as (_ & -> & ->). by split_and!.
Qed.

Lemma store_carries {A} v0 (op : Op S A) post :
  op_ok view op post ->
  (forall g a s', post (gview g) a (view s') -> inv v0 g -> inv v0 (set_storage g s')) -> gkeeps (carries v0) (store op).
Proof using .
  intros Hop Hpost. apply gkeeps_store. intros g Hi. specialize (Hop (g_storage g)).
  destruct (op (g_storage g)) as [[e|a] s'] eqn:Ho; simpl; [|by eapply Hpost].
  unfold inv, gview in *. simpl. by rewrite Hop.
Qed.

#[local] Hint Extern 3 (gkeeps (carries _) _) => solve [apply same_view_carries; auto with gkeeps] : gkeeps.

Lemma observe_wake_carries v0 abi hash mv version blob rssi :
  node_decode MSG_WAKE payload = Ok (Wake abi hash mv version blob) ->
  gkeeps (carries v0) (observe_wake node abi mv version rssi).
Proof using HL.
  intros Hmsg. unfold observe_wake. apply gkeeps_bind; [exact _| |intros [[]|]; gkeeps_go].
  eapply store_carries; [apply update_node_wake_metadata_ok|]. intros g [] s' [_ Hv] Hi.
  apply (inv_alter v0 g _ (fun n => update_firmware_metadata n abi version)); [done| |exact Hv|done]. eapply by_wake; [apply Hi|done].
Qed.

Lemma reconcile_wake_carries v0 abi hash mv version blob :
  node_decode MSG_WAKE payload = Ok (Wake abi hash mv version blob) -> gkeeps (carries v0) (reconcile_wake node hash).
Proof using HL.
  intros Hmsg. unfold reconcile_wake. case_match; [|gkeeps_go]. apply gkeeps_bind; [exact _| |intros; gkeeps_go].
  eapply store_carries; [apply reconcile_ok|]. intros g [] s' (n & Hn & Hv) Hi.
  - destruct Hv as [Ha Hv]. apply (inv_alter v0 g _ (fun n => confirm_program n hash)); [done| |exact Hv|done]. eapply by_report; [apply Hi|done..].
  - unfold inv, gview in *. simpl. by rewrite Hv.
Qed.

Lemma handle_wake_carries v0 peer rssi : gkeeps (carries v0) (handle_wake da node (header f) payload peer rssi).
Proof using HL HP.
  unfold handle_wake. apply gkeeps_bind; [exact _| |intros [[? ?] ?]; gkeeps_go].
  intros g. apply (gwp_state (carries v0 g)). unfold handle_wake_core. apply gwp_ok_bind; [|by intros].
  intros [abi hash mv version blob| | | |] Hmsg; try (unfold gwp; simpl; reflexivity). apply (gkeeps_gwp (carries v0)).
  pose proof (observe_wake_carries v0 _ _ _ _ _ rssi Hmsg). pose proof (reconcile_wake_carries v0 _ _ _ _ _ Hmsg).
  gkeeps_go.
Qed.

(** ** An acknowledgement in sequence *)

Lemma advance_session_spec g id q :
  gwp (advance_session oc id q) (fun r g' => same_view g g' /\ forall u, r = Ok u ->
    exists s, sessions (session_manager g) !! id = Some s /\ next_expected_seq s = q /\
      forall s', sessions (session_manager g') !! id = Some s' -> state s' = state s) g.
Proof using .
  split; [apply (gkeeps_gwp same_view); auto with gkeeps|]. unfold advance_session, gbind, env_do. simpl.
  destruct (instant (g_env g)) as [now e]. simpl. unfold verify_and_advance_seq.
  destruct (sessions (session_manager g) !! id) as [s|] eqn:Hs; [|by intros].
  destruct (is_expired _ _ _); [by intros|]. destruct (Z.eqb_spec q (next_expected_seq s)) as [->|]; [|by intros]. simpl.
  destruct (arith_u _ _ _); try by intros. intros u _. exists s. split_and!; [done..|]. simpl.
  intros s'. rewrite lookup_insert_eq. by intros [= <-].
Qed.

Lemma handle_program_ack_carries v0 g hash s :
  v_nodes (gview g) !! nr_id node = Some node ->
  node_decode (h_msg_type (header f)) payload = Ok (ProgramAck hash) ->
  sessions (session_manager g0) !! nr_id node = Some s -> next_expected_seq s = h_nonce (header f) ->
  (forall s', sessions (session_manager g) !! nr_id node = Some s' -> state s' = state s) ->
  carries v0 g (handle_program_ack node hash g).2.
Proof using Hhint Hopen HL.
  intros Hn Hmsg Hs Hq Hst. apply (gwp_state (carries v0 g)). unfold handle_program_ack. apply gwp_bind. unfold gwp at 1. simpl. unfold get_session.
  destruct (sessions (session_manager g) !! nr_id node) as [s'|] eqn:Hs'; [|stay].
  specialize (Hst _ eq_refl). destruct (state s') as [|h ? ? ? ?|] eqn:Hst'; try stay.
  case_bool_decide as Hh; simpl; [subst h|stay].
  apply gwp_bind. unfold gwp, store. pose proof (upsert_node_ok (confirm_program node hash) (g_storage g)) as Hop.
  destruct (upsert_node _ _) as [r st]. simpl.
  assert (Hkeep : carries v0 (set_storage g st)
    ((let> now := env_do unix_ms in
      broadcast (program_updated_event (nr_id node) hash (default 0 (since_epoch now) / 1000)) ;;>
      set_session_state (nr_id node) BpfExecuting) (set_storage g st)).2).
  { apply (gkeeps_gwp (carries v0)). unfold set_session_state. gkeeps_go. }
  intros Hi. apply Hkeep. destruct r as [e|[]]; [unfold inv, gview in *; simpl; by rewrite Hop|].
  change (gview (set_storage g st) = with_node (gview g) (confirm_program node hash)) in Hop.
  rewrite (with_node_alter (gview g) node (fun n => confirm_program n hash)) in Hop by done.
  apply (inv_alter v0 g _ (fun n => confirm_program n hash)); [done| |exact Hop|done]. eapply by_ack; [apply Hi|done|done|done|by symmetry].
Qed.

Lemma handle_post_wake_carries v0 g :
  v_nodes (gview g) !! nr_id node = Some node -> session_manager g = session_manager g0 ->
  carries v0 g (handle_post_wake oc da node (header f) payload g).2.
Proof using Hhint Hopen HL HP.
  intros Hn Hsm. apply (gwp_state (carries v0 g)). unfold handle_post_wake. apply gwp_ok_bind; [|stay].
  intros msg Hmsg. apply gwp_bind. eapply gwp_mono; [apply advance_session_spec|]. intros r g1 [Hv Hr].
  assert (Hc : carries v0 g g1) by (unfold carries, inv; by rewrite Hv).
  destruct r as [u|[]| |]; [|done..]. destruct (Hr u eq_refl) as (s & Hs & Hq & Hst). rewrite Hsm in Hs.
  assert (Hk : forall m : GwState.G S E (list Z), carries v0 g1 (m g1).2 -> gwp m (fun _ => carries v0 g) g1).
  { intros m Hm. unfold gwp. by transitivity g1. }
  destruct msg as [|i|hash|b|]; apply Hk; try stay; try (apply (same_view_carries v0); auto with gkeeps; fail).
  apply (gwp_state (carries v0 g1)), gwp_bind. eapply (gwp_mono _ (fun _ => carries v0 g1)); [|by intros [u'|[]| |] ?].
  apply (handle_program_ack_carries v0 g1 hash s); try done. by rewrite Hv.
Qed.

Lemma dispatch_frame_carries v0 g peer rssi :
  v_nodes (gview g) !! nr_id node = Some node -> session_manager g = session_manager g0 ->
  carries v0 g (dispatch_frame oc da node (header f) payload peer rssi g).2.
Proof using Hhint Hopen HL HP.
  intros Hn Hs. unfold dispatch_frame. case_match; [apply handle_wake_carries|].
  case_match; [by apply handle_post_wake_carries|by intros].
Qed.

Lemma dispatch_authorised g peer rssi :
  v_nodes (gview g) !! nr_id node = Some node -> session_manager g = session_manager g0 -> keyed (gview g) ->
  let v' := gview (dispatch_frame oc da node (header f) payload peer rssi g).2 in
  rtc (authorised g0 f) (gview g) v' /\ keyed v'.
Proof using Hhint Hopen HL HP.
  intros Hn Hs Hk. destruct (dispatch_frame_carries (gview g) g peer rssi Hn Hs) as (? & ? & _); [|done].
  split_and!; [done|done|]. by exists node.
Qed.
End Node.

(** ** Registration and recovery *)

Lemma try_phones_Some f l p pt :
  try_phones f l = Some (p, pt) -> p ∈ l /\ phone_status p = Active /\ open_frame f (phone_psk p) = Ok pt.
Proof using .
  induction l as [|q l IH]; [done|]. simpl. case_bool_decide as Hs.
  - intros Ht. destruct (IH Ht) as (? & ? & ?). split_and!; [by right|done..].
  - destruct (open_frame f (phone_psk q)) as [x|e| |] eqn:Ho.
    1: intros [= -> ->]; split_and!; [by left|by destruct (phone_status p)|done].
    all: intros Ht; destruct (IH Ht) as (? & ? & ?); split_and!; [by right|done..].
Qed.

Lemma try_nodes_Some f l n pt : try_nodes f l = Some (n, pt) -> n ∈ l /\ open_frame f (nr_psk n) = Ok pt.
Proof using .
  induction l as [|q l IH]; [done|]. simpl. destruct (open_frame f (nr_psk q)) as [x|e| |] eqn:Ho.
  1: intros [= -> ->]; by split; [left|].
  all: intros Ht; destruct (IH Ht) as [? ?]; by split; [right|].
Qed.

Lemma try_pending_Some s f hint rs n pt :
  try_pending s f hint rs = Some (n, pt) ->
  exists r psk, r ∈ rs /\ decrypt_psk s (pr_node_id r) (pr_encrypted_psk r) = Some psk /\
    open_frame f psk = Ok pt /\ n = node_record_new (pr_node_id r) hint psk.
Proof using .
  induction rs as [|q rs IH]; [done|]. simpl. intros Ht.
  assert (Hrest : try_pending s f hint rs = Some (n, pt) -> exists r psk, r ∈ q :: rs /\
    decrypt_psk s (pr_node_id r) (pr_encrypted_psk r) = Some psk /\ open_frame f psk = Ok pt /\
    n = node_record_new (pr_node_id r) hint psk).
  { intros Hr. destruct (IH Hr) as (r & psk & ? & ?). exists r, psk. by split; [right|]. }
  destruct (decrypt_psk s (pr_node_id q) (pr_encrypted_psk q)) as [psk|] eqn:Hd; [|by apply Hrest].
  destruct (open_frame f psk) as [x|e| |] eqn:Ho; [|by apply Hrest..].
  injection Ht as <- <-. exists q, psk. by split_and!; [left|..].
Qed.

(** Where the registry may be after the frame. *)
Abbreviation reaches g f v' := (rtc (authorised g f) (gview g) v' /\ keyed v').

Lemma handle_peer_request_authorised (g : Gw) f :
  h_msg_type (header f) = MSG_PEER_REQUEST -> keyed (gview g) ->
  gwp (handle_peer_request f) (fun _ g' => reaches g f (gview g')) g.
Proof using HL.
  intros Hty Hk. assert (Hsame : forall g' : Gw, gview g' = gview g -> reaches g f (gview g')) by (by intros g' ->).
  unfold handle_peer_request. eapply gwp_store_bind; [apply get_phones_ok| |by intros; apply Hsame].
  intros phones s1 _ [Hv1 Hph]. apply gwp_some_bind; [|by intros; apply Hsame]. intros [phone outer] Ht.
  apply try_phones_Some in Ht as (Hin & Hact & Hopen). apply Hph in Hin as [Hin Hhint].
  apply gwp_some_bind; [|by intros; apply Hsame]. intros pr Hpr.
  eapply gwp_keeps_bind; [apply env_view| |intros r g' _ Hv; apply Hsame; by rewrite Hv]. intros ms g2 Hv2.
  assert (Hgv : gview g2 = gview g) by (by rewrite Hv2).
  assert (Hstay : gwp (A := list Z) discard (fun _ g' => reaches g f (gview g')) g2) by apply Hsame, Hgv.
  apply gwp_some_bind; [|intros; apply Hsame, Hgv]. intros t _. case_match; [done|].
  destruct (Z.eqb_spec (pf_key_hint pr) (key_hint_from_psk (pf_psk pr))) as [Hh|]; simpl; [|done].
  fold (paired pr phone). eapply gwp_store_bind; [apply insert_node_ok| |by intros s Hv; apply Hsame; rewrite <- Hgv].
  intros ins s3 _ Hins. apply (gwp_keeps_bind same_view); [unfold store_or_discard; gkeeps_go| |].
  2: intros r g' _ Hv.
  1: intros _ g' Hv; eapply gwp_mono; [apply (gkeeps_gwp same_view); unfold peer_ack; gkeeps_go|]; intros r g'' Hv''; cbn beta;
     rewrite Hv''.
  all: rewrite Hv; change (gview (set_storage g2 s3)) with (view s3); rewrite Hgv in Hins; destruct ins;
    destruct Hins as [Hfree ->]; [|done].
  all: split; [apply rtc_once; eapply by_phone; eauto|by apply keyed_with_node].
Qed.

(** Dispatching the frame of a node that is in the registry. *)
Lemma dispatch_reaches (g g1 : Gw) f node payload peer rssi :
  rtc (authorised g f) (gview g) (gview g1) -> keyed (gview g1) -> session_manager g1 = session_manager g ->
  v_nodes (gview g1) !! nr_id node = Some node -> nr_key_hint node = key_hint (header f) ->
  open_frame f (nr_psk node) = Ok payload ->
  gwp (dispatch_frame oc da node (header f) payload peer rssi) (fun _ g' => reaches g f (gview g')) g1.
Proof using HL HP.
  intros Hr Hk Hs Hn Hh Ho. destruct (dispatch_authorised g f node payload Hh Ho g1 peer rssi Hn Hs Hk) as [Hd Hk'].
  split; [|done]. by transitivity (gview g1).
Qed.

Lemma try_recovery_authorised (g : Gw) f s1 peer rssi :
  keyed (gview g) -> get_nodes_by_key_hint (key_hint (header f)) (g_storage g) = (inr [], s1) ->
  view s1 = gview g -> (forall id n, v_nodes (gview g) !! id = Some n -> nr_key_hint n <> key_hint (header f)) ->
  gwp (try_recovery_auth oc da f peer rssi) (fun _ g' => reaches g f (gview g')) (set_storage g s1).
Proof using HL HP.
  intros Hk Hget Hv1 Hno. pose proof (get_nodes_pending (key_hint (header f)) (g_storage g)) as Hpend.
  pose proof (get_nodes_decrypt (key_hint (header f)) (g_storage g)) as Hdec. rewrite Hget in Hpend, Hdec. simpl in Hpend, Hdec.
  assert (Hsame : forall g' : Gw, gview g' = gview g -> reaches g f (gview g')) by (by intros g' ->).
  assert (Hrep : forall g2 : Gw, gview g2 = gview g ->
    gwp (A := list Z) (report_and_discard (key_hint (header f))) (fun _ g' => reaches g f (gview g')) g2).
  { intros g2 Hg2. eapply gwp_mono; [apply (gkeeps_gwp same_view); auto with gkeeps|]. intros r g' Hv. apply Hsame. by rewrite Hv. }
  unfold try_recovery_auth. apply gwp_bind. unfold gwp at 1. simpl. case_match; [by apply Hrep|]. case_match; [|by apply Hrep].
  apply gwp_bind. unfold gwp at 1, store. simpl. pose proof (lookup_pending_ok (key_hint (header f)) l MAX_TRIAL_CANDIDATES s1) as Hl.
  destruct (lookup_pending_recovery _ _ _ _) as [[e|rs] s2]; cbn beta iota in Hl; simpl;
    [apply Hrep; change (view s2 = gview g); congruence|].
  destruct Hl as (Hv2 & Hd2 & _ & Hin). assert (Hg2 : view s2 = gview g) by congruence.
  destruct rs as [|r0 rs']; [by apply Hrep|]. apply gwp_bind. unfold gwp at 1. cbn [gget fst snd g_storage set_storage].
  destruct (try_pending _ _ _ _) as [[node payload]|] eqn:Ht; [|by apply Hrep]. clear Hrep.
  apply try_pending_Some in Ht as (r & psk & Hr & Hd & Ho & ->). apply Hin in Hr as (Hr & Hrh & _).
  rewrite Hd2, Hdec in Hd. rewrite Hpend in Hr.
  eapply gwp_store_bind; [apply upsert_node_ok| |intros s' Hv; apply Hsame; unfold gview at 1; simpl; by rewrite Hv].
  intros [] s3 _ Hv3. unfold gview at 1 in Hv3. simpl in Hv3. rewrite Hg2 in Hv3.
  apply (gwp_bind (store (delete_pending_recovery _ _))). unfold gwp at 1, store. simpl.
  pose proof (delete_pending_ok (key_hint (header f)) (pr_node_id r) s3) as Hdel.
  destruct (delete_pending_recovery _ _ _) as [x s4]. simpl in Hdel. cbn [fst snd].
  match goal with |- gwp _ _ ?g4 => assert (Hg4 : gview g4 = view s3) by exact Hdel end.
  apply dispatch_reaches; try done; rewrite Hg4, Hv3.
  - apply rtc_once. eapply by_recovery; eauto.
  - by apply keyed_with_node.
  - apply lookup_insert_eq.
Qed.

(** C4: every change of the registry is authorised.  Whatever frame arrives, in
    whatever state, and whichever storage operations fail, the stored records
    after [process_frame] are reached from those before by authorised steps for
    that frame; records stay stored under their identifiers; and a frame that does
    not decode changes nothing. *)
Theorem registry_changes_authorised (g : Gw) raw peer rssi :
  keyed (gview g) ->
  let v' := gview (process_frame oc da raw peer rssi g).2 in
  keyed v' /\
  match decode_frame raw with
  | Ok f => rtc (authorised g f) (gview g) v'
  | _ => v' = gview g
  end.
Proof using HL HP.
  intros Hk v'. subst v'. destruct (decode_frame raw) as [f|e| |] eqn:Hf.
  2-4: unfold process_frame, gbind, ok_or_discard; rewrite Hf; simpl; by split.
  enough (Hw : gwp (process_frame oc da raw peer rssi) (fun _ g' => reaches g f (gview g')) g) by (destruct Hw; by split).
  assert (Hsame : forall g' : Gw, gview g' = gview g -> reaches g f (gview g')) by (by intros g' ->).
  unfold process_frame. apply gwp_ok_bind; [|intros; by apply Hsame]. intros f' Hf'. assert (f' = f) as -> by congruence.
  destruct (Z.eqb_spec (h_msg_type (header f)) MSG_PEER_REQUEST); [by apply handle_peer_request_authorised|].
  case_match.
  { eapply gwp_mono; [apply (gkeeps_gwp same_view); auto with gkeeps|]. intros r g' Hv. apply Hsame. by rewrite Hv. }
  eapply gwp_store_bind; [apply get_nodes_by_key_hint_ok| |intros; by apply Hsame]. intros l s1 Hget [Hv1 Hl].
  destruct l as [|n0 l'].
  - apply try_recovery_authorised; try done. intros id x Hn Hh. cut (x ∈ @nil NodeRecord); [by intros ?%elem_of_nil|].
    apply Hl. eauto.
  - apply gwp_some_bind; [|intros; by apply Hsame]. intros [node payload] Ht.
    apply try_nodes_Some in Ht as [Hin Ho]. apply Hl in Hin as [Hh [id Hid]].
    assert (Hg1 : gview (set_storage g s1) = gview g) by done.
    apply dispatch_reaches; try done; rewrite ?Hg1; [done|done|]. by rewrite (Hk _ _ Hid).
Qed.
End Registry.
