(* ===== verification/GwReplies.v ===== *)
(** * What the gateway answers

    A reply of the engine is bound to the frame it answers, and a frame that no
    key opens is ignored. *)

From Stdlib Require Import String.
From S2P Require Import Prelude Frame Messages ProgramImage NodeRadio Session GwStore GwState GwEngine GwLogic GwRegistry.
Open Scope list_scope.
Open Scope Z_scope.

(** The type of the answer to a frame of type [t]. *)
Definition reply_type (t : Z) : option Z :=
  if t =? MSG_WAKE then Some MSG_COMMAND
  else if t =? MSG_GET_CHUNK then Some MSG_CHUNK
  else if t =? MSG_APP_DATA then Some MSG_APP_DATA_REPLY
  else if t =? MSG_DIAG_REQUEST then Some MSG_DIAG_REPLY
  else if t =? MSG_PEER_REQUEST then Some MSG_PEER_ACK
  else None.

Section Replies.
Context {Value : Type} `{C : Cbor Value}.
Context `{Sha256Provider, AeadProvider}.
Context {S E : Type} `{HL : StorageLaws S} `{HR : !RecoveryStore S} `{HP : !RecoveryLaws S} `{HG : GwEnv Value E}.
Context (oc da : bool).
Abbreviation Gw := (Gateway S E).
Abbreviation G := (GwState.G S E).

(** ** Binding *)

(** The reply repeats the nonce of the request and is sealed under [psk]. *)
Definition sealed_reply (f : DecodedFrame) (hint : Z) (psk reply : list Z) : Prop :=
  exists ty cbor, reply_type (h_msg_type (header f)) = Some ty /\
    encode_frame (mkHeader hint ty (h_nonce (header f))) cbor psk = Ok reply.

(** Under the key that opened the request, or, for a registration, the key of the
    node the request of an active phone registers. *)
Definition bound_reply (f : DecodedFrame) (reply : list Z) : Prop :=
  (exists psk payload, open_frame f psk = Ok payload /\ sealed_reply f (key_hint (header f)) psk reply) \/
  (exists psk outer pr, h_msg_type (header f) = MSG_PEER_REQUEST /\ open_frame f psk = Ok outer /\
     open_pairing_request outer psk = Some pr /\ pf_key_hint pr = key_hint_from_psk (pf_psk pr) /\
     sealed_reply f (pf_key_hint pr) (pf_psk pr) reply).

Lemma encode_response_res f hint psk ty cbor :
  reply_type (h_msg_type (header f)) = Some ty ->
  gres (S := S) (E := E) (sealed_reply f hint psk) (encode_response (mkHeader hint ty (h_nonce (header f))) cbor psk).
Proof using . intros Hty. apply gres_ok. intros reply Hr. by exists ty, cbor. Qed.

(** The message types the decoder of node messages yields. *)
Lemma node_decode_type t payload msg : node_decode t payload = Ok msg -> node_msg_type msg = t.
Proof using .
  unfold node_decode. intros Hd. apply res_bind_Ok in Hd as (fields & _ & Hd).
  repeat (match type of Hd with (if ?b then _ else _) = _ => destruct b eqn:? end);
    repeat (apply res_bind_Ok in Hd as (? & _ & Hd)); simplify_eq; by match goal with Hb : (_ =? _) = true |- _ => apply Z.eqb_eq in Hb end.
Qed.

Section Node.
Context (f : DecodedFrame) (node : NodeRecord) (payload : list Z).
Context (Hhint : nr_key_hint node = key_hint (header f)) (Hopen : open_frame f (nr_psk node) = Ok payload).

(** The node's own key seals the answer. *)
Lemma node_response ty cbor :
  reply_type (h_msg_type (header f)) = Some ty ->
  gres (S := S) (E := E) (bound_reply f)
    (encode_response (mkHeader (nr_key_hint node) ty (h_nonce (header f))) cbor (nr_psk node)).
Proof using Hhint Hopen.
  intros Hty g reply Hr. left. exists (nr_psk node), payload. split; [done|]. rewrite <- Hhint.
  by eapply encode_response_res.
Qed.

Lemma handle_wake_core_res peer rssi :
  gres (S := S) (E := E) (fun x => x.1.1 = mkHeader (nr_key_hint node) MSG_COMMAND (h_nonce (header f)))
    (handle_wake_core da node (header f) payload peer rssi).
Proof using .
  unfold handle_wake_core. apply gres_bind. intros [abi h mv v b| | | |]; try apply gres_discard.
  apply gres_bind; intros ts. apply gres_bind; intros [q cmd]. do 6 (apply gres_bind; intros ?).
  do 3 (apply gres_bind; intros ?). by apply gres_ret.
Qed.

Lemma handle_wake_res peer rssi :
  h_msg_type (header f) = MSG_WAKE ->
  gres (S := S) (E := E) (bound_reply f) (handle_wake da node (header f) payload peer rssi).
Proof using Hhint Hopen.
  intros Hty. unfold handle_wake. eapply gres_then; [apply handle_wake_core_res|]. intros [[rh cbor] d] Hrh. simpl in Hrh. subst rh.
  eapply gres_then; [apply node_response; by rewrite Hty|]. intros frame Hframe. apply gres_bind. intros _. by apply gres_ret.
Qed.

Lemma handle_post_wake_res :
  gres (S := S) (E := E) (bound_reply f) (handle_post_wake oc da node (header f) payload).
Proof using Hhint Hopen.
  unfold handle_post_wake. apply gres_ok_bind. intros msg Hmsg. apply node_decode_type in Hmsg. apply gres_bind. intros _.
  destruct msg as [|i|h|b|]; simpl in Hmsg; try apply gres_discard.
  - unfold handle_get_chunk. apply gres_bind. intros g. apply gres_bind. intros s. destruct (state s); try apply gres_discard.
    do 4 (apply gres_bind; intros ?). apply node_response. by rewrite <- Hmsg.
  - apply gres_bind. intros _. apply gres_discard.
  - unfold handle_app_data. do 4 (apply gres_bind; intros ?). do 4 (apply gres_bind; intros ?).
    case_match; try apply gres_discard. case_match; [apply gres_discard|]. case_match.
    + apply gres_bind. intros _. apply gres_discard.
    + apply gres_bind. intros cbor. apply node_response. by rewrite <- Hmsg.
Qed.

Lemma dispatch_frame_res peer rssi :
  gres (S := S) (E := E) (bound_reply f) (dispatch_frame oc da node (header f) payload peer rssi).
Proof using Hhint Hopen.
  unfold dispatch_frame. destruct (Z.eqb_spec (h_msg_type (header f)) MSG_WAKE); [by apply handle_wake_res|].
  case_match; [apply handle_post_wake_res|apply gres_discard].
Qed.
End Node.

Lemma try_recovery_res f peer rssi : gres (S := S) (E := E) (bound_reply f) (try_recovery_auth oc da f peer rssi).
Proof using .
  assert (Hrep : gres (S := S) (E := E) (bound_reply f) (report_and_discard (key_hint (header f))))
    by (apply gres_bind; intros _; apply gres_discard).
  unfold try_recovery_auth. apply gres_bind. intros g. case_match; [done|]. case_match; [|done].
  apply gres_bind. intros [e|[|r rs]]; [done..|]. apply gres_bind. intros g'.
  destruct (try_pending _ _ _ _) as [[node payload]|] eqn:Ht; [|done].
  apply try_pending_Some in Ht as (x & psk & _ & _ & Ho & ->). do 2 (apply gres_bind; intros ?). by apply dispatch_frame_res.
Qed.

Lemma handle_peer_request_res f :
  h_msg_type (header f) = MSG_PEER_REQUEST -> gres (S := S) (E := E) (bound_reply f) (handle_peer_request f).
Proof using .
  intros Hty. unfold handle_peer_request. apply gres_bind. intros phones. apply gres_some_bind. intros [phone outer] Ht.
  apply try_phones_Some in Ht as (_ & _ & Ho). apply gres_some_bind. intros pr Hpr. do 2 (apply gres_bind; intros ?).
  case_match; [apply gres_discard|].
  destruct (Z.eqb_spec (pf_key_hint pr) (key_hint_from_psk (pf_psk pr))) as [Hh|]; simpl; [|apply gres_discard].
  do 2 (apply gres_bind; intros ?). unfold peer_ack. apply gres_bind. intros cbor g reply Hr. right.
  exists (phone_psk phone), outer, pr. split_and!; try done. eapply encode_response_res; [|exact Hr]. by rewrite Hty.
Qed.

Lemma handle_diag_res f rssi :
  h_msg_type (header f) = MSG_DIAG_REQUEST -> gres (S := S) (E := E) (bound_reply f) (handle_diag_request da f rssi).
Proof using .
  intros Hty. unfold handle_diag_request. apply gres_bind. intros phones. apply gres_some_bind. intros [phone outer] Ht.
  apply try_phones_Some in Ht as (_ & _ & Ho). apply gres_bind. intros [| | | |t]; try apply gres_discard.
  case_match; [apply gres_discard|]. apply gres_bind. intros cbor g reply Hr. left. exists (phone_psk phone), outer.
  split; [done|]. eapply encode_response_res; [|exact Hr]. by rewrite Hty.
Qed.


(** ** Frames no key opens *)

(** No key the gateway would try opens the frame. *)
Definition unopened (g : Gw) (f : DecodedFrame) : Prop :=
  (forall p pt, p ∈ v_phones (gview g) -> phone_status p = Active -> phone_key_hint p = key_hint (header f) ->
     open_frame f (phone_psk p) <> Ok pt) /\
  (forall id n pt, v_nodes (gview g) !! id = Some n -> nr_key_hint n = key_hint (header f) -> open_frame f (nr_psk n) <> Ok pt) /\
  (forall r psk pt, r ∈ pending_of (g_storage g) -> pr_key_hint r = key_hint (header f) ->
     decrypt_psk (g_storage g) (pr_node_id r) (pr_encrypted_psk r) = Some psk -> open_frame f psk <> Ok pt).

(** Everything but the environment and the tracker of unknown hints is as before. *)
Definition untouched (g g' : Gw) : Prop :=
  gview g' = gview g /\ session_manager g' = session_manager g /\ pending_commands g' = pending_commands g /\
  deferred_replies g' = deferred_replies g /\ g_emitted g' = g_emitted g /\ g_tasks g' = g_tasks g.

Abbreviation ignored g := (fun (r : Res unit (list Z)) g' => r = Err tt /\ untouched g g').

Lemma report_ignored (g g1 : Gw) hint : untouched g g1 -> gwp (report_and_discard hint) (ignored g) g1.
Proof using .
  intros Hu. unfold gwp, report_and_discard, report_missing_hint, gbind, env_do. simpl. destruct (instant (g_env g1)) as [now e]. simpl.
  split; [done|]. destruct (report _ _ _) as [a t]. exact Hu.
Qed.

Lemma try_recovery_ignored (g g1 : Gw) f peer rssi :
  untouched g g1 ->
  (forall r psk pt, r ∈ pending_of (g_storage g1) -> pr_key_hint r = key_hint (header f) ->
     decrypt_psk (g_storage g1) (pr_node_id r) (pr_encrypted_psk r) = Some psk -> open_frame f psk <> Ok pt) ->
  gwp (try_recovery_auth oc da f peer rssi) (ignored g) g1.
Proof using HL HP.
  intros Hu Hpend. unfold try_recovery_auth. apply gwp_bind. unfold gwp at 1. simpl.
  case_match; [by apply report_ignored|]. case_match; [|by apply report_ignored].
  apply gwp_bind. unfold gwp at 1, store. pose proof (lookup_pending_ok (key_hint (header f)) l MAX_TRIAL_CANDIDATES (g_storage g1)) as Hl.
  destruct (lookup_pending_recovery _ _ _ _) as [[e|rs] s2]; cbn beta iota in Hl; cbn [fst snd].
  - apply report_ignored. destruct Hu as [Hv Hu]. split; [|exact Hu]. by rewrite <- Hv.
  - destruct Hl as (Hv2 & Hd2 & _ & Hin).
    assert (Hu2 : untouched g (set_storage g1 s2)) by (destruct Hu as [Hv Hu]; split; [by rewrite <- Hv|exact Hu]).
    destruct rs as [|x rs]; [by apply report_ignored|]. apply gwp_bind. unfold gwp at 1. cbn [gget fst snd g_storage set_storage].
    destruct (try_pending _ _ _ _) as [[node payload]|] eqn:Ht; [|by apply report_ignored].
    apply try_pending_Some in Ht as (r & psk & Hr & Hd & Ho & _). apply Hin in Hr as (Hr & Hrh & _). rewrite Hd2 in Hd.
    by destruct (Hpend r psk payload).
Qed.

(** A frame that no key opens is ignored: no reply, no change to records,
    sessions, queues or deferred replies, nothing published; at most the unknown
    key hint is noted. *)
Lemma unopened_frame_ignored (g : Gw) raw f peer rssi :
  decode_frame raw = Ok f -> unopened g f ->
  let '(r, g') := process_frame oc da raw peer rssi g in r = Err tt /\ untouched g g'.
Proof using HL HP.
  intros Hf (Hphones & Hnodes & Hpend). enough (Hw : gwp (process_frame oc da raw peer rssi) (ignored g) g)
    by (unfold gwp in Hw; by destruct (process_frame oc da raw peer rssi g)).
  assert (Hst : forall s', view s' = gview g -> ignored g (Err tt) (set_storage g s')) by (intros s' Hv; by split_and!).
  assert (Hph : forall phones s1 (k : PhonePskRecord * list Z -> G (list Z)), view s1 = gview g ->
    (forall p, p ∈ phones <-> p ∈ v_phones (gview g) /\ phone_key_hint p = key_hint (header f)) ->
    gwp (gbind (some_or_discard (try_phones f phones)) k) (ignored g) (set_storage g s1)).
  { intros phones s1 k Hv Hp. apply gwp_some_bind; [|by intros; apply Hst]. intros [p pt] Ht.
    apply try_phones_Some in Ht as (Hin & Ha & Ho). apply Hp in Hin as [? ?]. by destruct (Hphones p pt). }
  unfold process_frame. rewrite Hf. apply gwp_bind. unfold gwp at 1. cbn [ok_or_discard fst snd]. case_match.
  { unfold handle_peer_request. eapply gwp_store_bind; [apply get_phones_ok| |done].
    intros phones s1 _ [Hv Hp]. by apply Hph. }
  case_match.
  { unfold handle_diag_request. eapply gwp_store_bind; [apply get_phones_ok| |done].
    intros phones s1 _ [Hv Hp]. by apply Hph. }
  eapply gwp_store_bind; [apply get_nodes_by_key_hint_ok| |done]. intros l s1 Hget [Hv1 Hl]. destruct l as [|x l'].
  - apply try_recovery_ignored; try done.
    intros r psk pt Hr Hh Hd. apply (Hpend r); try done.
    + pose proof (get_nodes_pending (key_hint (header f)) (g_storage g)) as Hp. rewrite Hget in Hp. by rewrite <- Hp.
    + pose proof (get_nodes_decrypt (key_hint (header f)) (g_storage g)) as Hp. rewrite Hget in Hp. by rewrite <- Hp.
  - apply gwp_some_bind; [|by intros; apply Hst]. intros [node payload] Ht. apply try_nodes_Some in Ht as [Hin Ho].
    apply Hl in Hin as [Hh [id Hid]]. by destruct (Hnodes id node payload).
Qed.
End Replies.
