(* ===== verification/GwCommands.v ===== *)
(** * Which command a node gets

    [select_command] against a contract: whatever storage does, a command is
    chosen; a program is offered only if the library holds it, the node's firmware
    can run it and its size is in bounds; commands of lower priority wait; and a
    queued command leaves the queue only when it is the one chosen or can never be
    delivered.  Then the tracker of unknown key hints ([KeyHints]). *)

From Stdlib Require Import String.
From S2P Require Import Prelude Frame Messages ProgramImage NodeRadio Session GwStore GwState GwEngine GwLogic.
Open Scope list_scope.
Open Scope Z_scope.

(** Programs are filed under their hashes. *)
Definition library_ok (v : View) : Prop := forall k p, v_programs v !! k = Some p -> p_hash p = k.

(** The transfer of program [h] of the library to a node with this firmware. *)
Definition offered (v : View) (abi : Z) (h : list Z) (size csize count : Z) : Prop :=
  exists p, v_programs v !! h = Some p /\ p_hash p = h /\ size = p_size p /\ csize = DEFAULT_CHUNK_SIZE /\
    abi_ok p abi = true /\ chunk_count (len (p_image p)) csize = Some count.

(** A one-shot program this node can never be given. *)
Definition undeliverable (v : View) (abi : Z) (c : PendingCommand) : Prop :=
  exists h p, c = PRunEphemeral h /\ v_programs v !! h = Some p /\ (abi_ok p abi = false \/ p_size p > MAX_EPHEMERAL_SIZE).

(** The queued command that a COMMAND delivers. *)
Definition delivered (cmd : CommandPayload) : list PendingCommand :=
  match cmd with
  | RunEphemeral h _ _ _ => [PRunEphemeral h]
  | UpdateSchedule i => [PUpdateSchedule i]
  | Reboot => [PReboot]
  | UpdateProgram _ _ _ _ | Nop => []
  end.

(** The order of precedence: one-shot programs, the assigned program, the
    schedule, a reboot. *)
Definition rank (c : PendingCommand) : Z := match c with PRunEphemeral _ => 0 | PUpdateSchedule _ => 2 | PReboot => 3 end.
Definition cmd_rank (cmd : CommandPayload) : Z :=
  match cmd with RunEphemeral _ _ _ _ => 0 | UpdateProgram _ _ _ _ => 1 | UpdateSchedule _ => 2 | Reboot => 3 | Nop => 4 end.

(** ** The queue as a list *)

Lemma remove_first_perm f l c rest : remove_first f l = Some (c, rest) -> f c = true /\ l ≡ₚ c :: rest.
Proof.
  revert rest. induction l as [|x l IH]; intros rest; simpl; [done|]. destruct (f x) eqn:Hx; [by intros [= -> ->]|].
  destruct (remove_first f l) as [[y r]|]; [|done]. intros [= -> <-]. destruct (IH r eq_refl) as [Hc Hp].
  split; [done|]. rewrite Hp. apply Permutation_swap.
Qed.

Lemma remove_first_None f l : remove_first f l = None -> forall c, c ∈ l -> f c = false.
Proof.
  induction l as [|x l IH]; simpl; [by intros _ c ?%elem_of_nil|]. destruct (f x) eqn:Hx; [done|].
  destruct (remove_first f l) as [[y r]|]; [done|]. intros _ c [->|Hc]%elem_of_cons; [done|]. by apply IH.
Qed.

Lemma remove_first_Some f l c : c ∈ l -> f c = true -> exists x rest, remove_first f l = Some (x, rest).
Proof.
  intros Hc Hf. destruct (remove_first f l) as [[x rest]|] eqn:Hr; [eauto|]. rewrite (remove_first_None f l Hr c Hc) in Hf. done.
Qed.

Lemma first_ephemeral_elem l h : first_ephemeral l = Some h -> PRunEphemeral h ∈ l.
Proof. induction l as [|[h'|i|] l IH]; simpl; [done|intros [= ->]; by left|right; by apply IH|right; by apply IH]. Qed.

Lemma is_ephemeral_of_true h c : is_ephemeral_of h c = true -> c = PRunEphemeral h.
Proof. destruct c; simpl; try done. by intros <-%bool_decide_eq_true. Qed.

Section Commands.
Context {S E : Type} `{HL : StorageLaws S}.
Abbreviation Gw := (Gateway S E).
Abbreviation G := (GwState.G S E).
Context (node : NodeRecord) (rep : list Z) (abi : Z).

Definition queue_of (g : Gw) (id : string) : list PendingCommand := default [] (pending_commands g !! id).
Abbreviation queue g := (queue_of g (nr_id node)).

(** Records and the queues of other nodes are as before. *)
Record elsewhere (g g' : Gw) : Prop := {
  ew_view : gview g' = gview g;
  ew_queue : forall id, id <> nr_id node -> queue_of g' id = queue_of g id
}.

#[local] Instance elsewhere_order : PreOrder elsewhere.
Proof using .
  split; [by intros g; split|]. intros g1 g2 g3 [V1 Q1] [V2 Q2]. split; [congruence|]. intros id Hid. by rewrite Q2, Q1.
Qed.

(** What has left the queue, apart from the command chosen, can never be delivered. *)
Definition accounted (g : Gw) (chosen : list PendingCommand) (g' : Gw) : Prop :=
  exists dropped, Forall (undeliverable (gview g) abi) dropped /\ queue g ≡ₚ dropped ++ chosen ++ queue g'.

(** The first one-shot program is not held up by anything below it. *)
Definition passed_over (g : Gw) : Prop :=
  forall h p s', first_ephemeral (queue g) = Some h -> get_program h (g_storage g) = (inr (Some p), s') ->
    abi_ok p abi = false \/ p_size p > MAX_EPHEMERAL_SIZE \/ chunk_count (len (p_image p)) DEFAULT_CHUNK_SIZE = None.

(** The assigned program, if the node does not run it, is not in the library, cannot be
    run by the node's firmware or cut into chunks, or could not be read. *)
Definition withheld (g : Gw) : Prop :=
  forall a, assigned_program_hash node = Some a -> a <> rep ->
    v_programs (gview g) !! a = None \/
    (exists p, v_programs (gview g) !! a = Some p /\ (abi_ok p abi = false \/ chunk_count (len (p_image p)) DEFAULT_CHUNK_SIZE = None)) \/
    (exists s e s', view s = gview g /\ get_program a s = (inl e, s')).

Definition selected (g : Gw) (cmd : CommandPayload) (g' : Gw) : Prop :=
  elsewhere g g' /\ accounted g (delivered cmd) g' /\
  (forall c, c ∈ queue g' -> cmd_rank cmd <= rank c \/ rank c = 0) /\
  (0 < cmd_rank cmd -> passed_over g) /\
  (1 < cmd_rank cmd -> withheld g) /\
  match cmd with
  | RunEphemeral h size csize count => offered (gview g) abi h size csize count /\ size <= MAX_EPHEMERAL_SIZE
  | UpdateProgram h size csize count => assigned_program_hash node = Some h /\ h <> rep /\ offered (gview g) abi h size csize count
  | _ => True
  end.

Lemma accounted_same (g g' : Gw) : queue g' = queue g -> accounted g [] g'.
Proof using . intros Hq. exists []. simpl. by rewrite Hq. Qed.

Lemma queue_insert (g : Gw) l : queue (set_pending g (<[nr_id node := l]> (pending_commands g))) = l.
Proof using . unfold queue_of. simpl. by rewrite lookup_insert_eq. Qed.

Lemma elsewhere_pending (g : Gw) m :
  (forall id, id <> nr_id node -> m !! id = pending_commands g !! id) -> elsewhere g (set_pending g m).
Proof using . intros Hm. split; [done|]. intros id Hid. unfold queue_of. simpl. by rewrite Hm. Qed.

Lemma remove_pending_spec f (g : Gw) :
  gwp (remove_pending (nr_id node) f) (fun r g' => elsewhere g g' /\
    ((exists c, r = Ok (Some c) /\ f c = true /\ queue g ≡ₚ c :: queue g') \/
     (r = Ok None /\ queue g' = queue g /\ forall c, c ∈ queue g -> f c = false))) g.
Proof using .
  unfold remove_pending, gwp, gbind. simpl. unfold queue_of. destruct (pending_commands g !! nr_id node) as [l|] eqn:Hl; simpl.
  - destruct (remove_first f l) as [[c rest]|] eqn:Hr; simpl.
    + apply remove_first_perm in Hr as [Hc Hp]. split; [apply elsewhere_pending; intros; by rewrite lookup_insert_ne|].
      left. exists c. rewrite lookup_insert_eq. by split_and!.
    + split; [done|]. right. rewrite Hl. split_and!; try done. by apply remove_first_None.
  - split; [done|]. right. rewrite Hl. split_and!; try done. by intros c ?%elem_of_nil.
Qed.

Lemma drop_spec h (g : Gw) :
  gwp (drop_ephemerals (nr_id node) h) (fun r g' => r = Ok tt /\ elsewhere g g' /\
    exists dropped, Forall (fun c => c = PRunEphemeral h) dropped /\ queue g ≡ₚ dropped ++ queue g') g.
Proof using .
  unfold drop_ephemerals, gwp, queue_of. simpl. split; [done|]. destruct (pending_commands g !! nr_id node) as [l|] eqn:Hl; simpl.
  2: { split; [done|]. exists []. by rewrite Hl. }
  set (kept := filter (fun c => is_ephemeral_of h c = false) l). split.
  { destruct kept; apply elsewhere_pending; intros; [by rewrite lookup_delete_ne|by rewrite lookup_insert_ne]. }
  exists (filter (fun c => ~ is_ephemeral_of h c = false) l). split.
  - apply list.Forall_forall. intros c [Hc _]%list_elem_of_filter. apply is_ephemeral_of_true. by destruct (is_ephemeral_of h c).
  - assert (Hq : default [] ((match kept with [] => delete (nr_id node) (pending_commands g)
        | _ :: _ => <[nr_id node := kept]> (pending_commands g) end) !! nr_id node) = kept)
      by (destruct kept; [by rewrite lookup_delete_eq|by rewrite lookup_insert_eq]).
    rewrite Hq. subst kept. rewrite (Permutation_app_comm _ _). symmetry. apply filter_app_complement.
Qed.
Lemma first_queued (g : Gw) : pending_commands g !! nr_id node ≫= first_ephemeral = first_ephemeral (queue g).
Proof using . unfold queue_of. by destruct (pending_commands g !! nr_id node). Qed.

(** A lookup in the library, then a continuation. *)
Lemma gwp_program {B} h (k : StorageError + option ProgramRecord -> G B) Q (g : Gw) :
  (forall r s, get_program h (g_storage g) = (r, s) -> view s = gview g ->
     (forall o, r = inr o -> o = v_programs (gview g) !! h) -> gwp (k r) Q (set_storage g s)) ->
  gwp (let> r := store (get_program h) in k r) Q g.
Proof using .
  intros Hk. apply gwp_bind. unfold gwp at 1, store. pose proof (get_program_ok h (g_storage g)) as Hg.
  destruct (get_program h (g_storage g)) as [[e|o] s]; simpl; apply Hk; try done; destruct Hg as [Hv Ho]; try done.
  intros o' [= <-]. exact Ho.
Qed.

(** What removing the one-shot program [h] leaves. *)
Lemma ephemeral_removed (g g' : Gw) h chosen dropped :
  first_ephemeral (queue g) = Some h ->
  (exists c, is_ephemeral_of h c = true /\ queue g ≡ₚ c :: queue g') \/
    (queue g' = queue g /\ forall c, c ∈ queue g -> is_ephemeral_of h c = false) ->
  [PRunEphemeral h] = dropped ++ chosen -> Forall (undeliverable (gview g) abi) dropped -> accounted g chosen g'.
Proof using .
  intros Hf [(c & Hc & Hp)|[_ Hno]] Heq Hd.
  - apply is_ephemeral_of_true in Hc as ->. exists dropped. split; [done|]. rewrite app_assoc, <- Heq. exact Hp.
  - apply first_ephemeral_elem, Hno in Hf. simpl in Hf. by rewrite bool_decide_true in Hf.
Qed.

Lemma select_ephemeral_spec (g : Gw) :
  library_ok (gview g) ->
  gwp (select_ephemeral node abi) (fun r g' =>
    (exists cmd, r = Ok (Some cmd) /\ selected g cmd g') \/
    (r = Ok None /\ elsewhere g g' /\ accounted g [] g' /\ passed_over g)) g.
Proof using .
  intros Hlib. unfold select_ephemeral. apply gwp_bind. unfold gwp at 1. simpl. rewrite first_queued.
  destruct (first_ephemeral (queue g)) as [h|] eqn:Hf.
  2: { right. split_and!; try done; [by apply accounted_same|]. intros h p s' Hh. congruence. }
  apply gwp_program. intros r s Hget Hv Hp.
  assert (Hew : elsewhere g (set_storage g s)) by (by split).
  destruct r as [e|[p|]].
  1, 3: right; split_and!; try done; [by apply accounted_same|]; intros h' p s' Hh Hg; congruence.
  specialize (Hp (Some p) eq_refl). symmetry in Hp. pose proof (Hlib h p Hp) as Hph. rewrite Hph.
  assert (Hpass : (abi_ok p abi = false \/ p_size p > MAX_EPHEMERAL_SIZE \/
    chunk_count (len (p_image p)) DEFAULT_CHUNK_SIZE = None) -> passed_over g) by (intros Hx h' p' s' Hh Hg; assert (h' = h) as -> by congruence; assert (p' = p) as -> by congruence; exact Hx).
  destruct (abi_ok p abi) eqn:Habi; cbn [negb].
  2: { apply gwp_bind. eapply gwp_mono; [apply remove_pending_spec|]. intros r g' [Hew' Hr].
       assert (Hr' : (exists o, r = Ok o)) by (destruct Hr as [(c & -> & _)|(-> & _)]; eauto). destruct Hr' as [o ->].
       right. split_and!; [done|by etransitivity| |by apply Hpass; left].
       eapply (ephemeral_removed g g' h [] [PRunEphemeral h]); [done| |done|].
       - destruct Hr as [(c & _ & Hc)|(_ & Hc)]; [left; by exists c|by right].
       - constructor; [|constructor]. exists h, p. auto. }
  destruct (Z.gtb_spec (p_size p) MAX_EPHEMERAL_SIZE) as [Hbig|Hsmall].
  { apply gwp_bind. eapply gwp_mono; [apply drop_spec|]. intros r g' (-> & Hew' & dropped & Hd & Hq). right.
    split_and!; [done|by etransitivity| |apply Hpass; right; left; lia]. exists dropped. split; [|exact Hq].
    eapply list.Forall_impl; [exact Hd|]. intros c ->. exists h, p. split_and!; [done..|]. right. lia. }
  destruct (chunk_count (len (p_image p)) DEFAULT_CHUNK_SIZE) as [count|] eqn:Hcount.
  2: { right. split_and!; try done; [by apply accounted_same|]. apply Hpass. auto. }
  apply gwp_bind. eapply gwp_mono; [apply remove_pending_spec|]. intros r g' [Hew' Hr].
  assert (Hr' : (exists o, r = Ok o)) by (destruct Hr as [(c & -> & _)|(-> & _)]; eauto). destruct Hr' as [o ->].
  left. eexists. split; [reflexivity|]. split_and!.
  - by etransitivity.
  - eapply (ephemeral_removed g g' h [PRunEphemeral h] []); [done| |done|constructor].
    destruct Hr as [(c & _ & Hc)|(_ & Hc)]; [left; by exists c|by right].
  - intros c _. left. destruct c; simpl; lia.
  - simpl. lia.
  - simpl. lia.
  - exists p. by split_and!.
  - lia.
Qed.

(** Nothing chosen yet: what has been dropped is accounted for. *)
Definition undecided (g g' : Gw) : Prop := elsewhere g g' /\ accounted g [] g' /\ passed_over g.

Lemma select_update_spec (g g1 : Gw) :
  library_ok (gview g) -> undecided g g1 ->
  gwp (select_update node rep abi) (fun r g' =>
    (exists cmd, r = Ok (Some cmd) /\ selected g cmd g') \/ (r = Ok None /\ undecided g g' /\ withheld g)) g1.
Proof using .
  intros Hlib (Hew & Hacc & Hpass). unfold select_update.
  destruct (assigned_program_hash node) as [a|] eqn:Ha; [|right; split_and!; try done; intros a ?; congruence].
  case_bool_decide as Hrep; [right; split_and!; try done; intros a' ? ?; congruence|].
  apply gwp_program. intros r s Hget Hv Hp. rewrite (ew_view _ _ Hew) in Hp, Hv.
  assert (Hu : undecided g (set_storage g1 s)).
  { split_and!; try done. etransitivity; [exact Hew|]. by split; [rewrite (ew_view _ _ Hew)|]. }
  assert (Hwh : (exists e, r = inl e) \/ (forall p, v_programs (gview g) !! a = Some p ->
      abi_ok p abi = false \/ chunk_count (len (p_image p)) DEFAULT_CHUNK_SIZE = None) -> withheld g).
  { intros Hw a' Ha' _. assert (a' = a) as -> by congruence. destruct Hw as [[e ->]|Hw].
    - right. right. exists (g_storage g1), e, s. split; [exact (ew_view _ _ Hew)|done].
    - destruct (v_programs (gview g) !! a) as [p|]; [right; left; exists p; auto|by left]. }
  destruct r as [e|[p|]]; [right; split_and!; try done; apply Hwh; left; by exists e| |].
  2: { right. split_and!; try done. apply Hwh. right. rewrite <- (Hp None eq_refl). done. }
  specialize (Hp (Some p) eq_refl). symmetry in Hp. pose proof (Hlib a p Hp) as Hph.
  assert (Hno : abi_ok p abi = false \/ chunk_count (len (p_image p)) DEFAULT_CHUNK_SIZE = None -> withheld g).
  { intros Hx. apply Hwh. right. intros p'. rewrite Hp. by intros [= <-]. }
  unfold gwp. simpl. destruct (abi_ok p abi) eqn:Habi; [|right; split_and!; try done; apply Hno; by left].
  destruct (chunk_count (len (p_image p)) DEFAULT_CHUNK_SIZE) as [count|] eqn:Hc; [|right; split_and!; try done; apply Hno; by right].
  left. eexists. split; [reflexivity|]. destruct Hu as (Hew1 & Hacc1 & _). rewrite Hph. split_and!; try done.
  - intros c _. destruct c; simpl; lia.
  - exists p. by split_and!.
Qed.

(** The rest of the queue after one command has been taken out of it. *)
Lemma accounted_taken (g g1 g' : Gw) c : accounted g [] g1 -> queue g1 ≡ₚ c :: queue g' -> accounted g [c] g'.
Proof using . intros (dropped & Hd & Hq) Hp. exists dropped. split; [done|]. rewrite Hq. simpl. by rewrite Hp. Qed.

Lemma select_queued_spec (g g1 : Gw) :
  undecided g g1 -> withheld g ->
  gwp (let> o := remove_pending (nr_id node) is_schedule in
       match o with Some (PUpdateSchedule i) => gret (UpdateSchedule i) | _ =>
       let> o := remove_pending (nr_id node) is_reboot in
       match o with Some _ => gret Reboot | None => gret Nop end end)
    (fun r g' => exists cmd, r = Ok cmd /\ selected g cmd g') g1.
Proof using .
  intros (Hew & Hacc & Hpass) Hwh. apply gwp_bind. eapply gwp_mono; [apply remove_pending_spec|].
  intros r g2 [Hew2 [(c & -> & Hc & Hp)|(-> & Hq & Hno)]].
  - destruct c as [h|i|]; try done. eexists. split; [reflexivity|]. split_and!; try done.
    + by etransitivity.
    + by eapply accounted_taken.
    + intros c _. destruct c; simpl; lia.
  - apply gwp_bind. eapply gwp_mono; [apply remove_pending_spec|].
    assert (Hacc2 : accounted g [] g2) by (destruct Hacc as (d & Hd & Hqd); exists d; by rewrite Hq).
    intros r g3 [Hew3 [(c & -> & Hc & Hp)|(-> & Hq3 & Hno3)]].
    + destruct c as [h|i|]; try done. eexists. split; [reflexivity|]. split_and!; try done.
      * etransitivity; [exact Hew|]. by etransitivity.
      * by eapply accounted_taken.
      * intros c Hin. assert (Hin2 : c ∈ queue g1) by (rewrite <- Hq, Hp; by right). specialize (Hno c Hin2). destruct c; simpl in *; [lia|done|lia].
    + eexists. split; [reflexivity|]. split_and!; try done.
      * etransitivity; [exact Hew|]. by etransitivity.
      * change (accounted g [] g3). destruct Hacc2 as (d & Hd & Hqd). exists d. by rewrite Hq3.
      * intros c Hin. change (c ∈ queue g3) in Hin. rewrite Hq3 in Hin. pose proof (Hno3 c Hin) as Hr3. rewrite Hq in Hin. pose proof (Hno c Hin). by destruct c; simpl in *; [lia|..].
Qed.

(** C25: the command for a node, for every library, queue and outcome of storage.
    A command is always chosen, records and other queues stay as they are, and
    - a program is offered only under its hash, out of the library, to a firmware
      that runs it, in the chunks of its image; a one-shot program only if its size is
      at most 2048 bytes, and the resident program only if it is assigned and not
      running;
    - the assigned program is offered, unless a one-shot program goes first or it is
      not in the library, the firmware cannot run it, it cannot be cut into chunks, or
      storage failed to read it;
    - no schedule change or reboot stays behind a command of lower precedence, and
      the first one-shot program is passed over only when it cannot be sent or storage
      failed to read it;
    - every queued command is still queued, or is the one chosen, or is a one-shot
      program this node can never be given. *)
Theorem command_selection_sound (g : Gw) :
  library_ok (gview g) -> exists cmd g', select_command node rep abi g = (Ok cmd, g') /\ selected g cmd g'.
Proof using HL.
  intros Hlib. enough (Hw : gwp (select_command node rep abi) (fun r g' => exists cmd, r = Ok cmd /\ selected g cmd g') g).
  { unfold gwp in Hw. destruct (select_command node rep abi g) as [r g']. simpl in Hw. destruct Hw as (cmd & -> & Hs). by exists cmd, g'. }
  unfold select_command. apply gwp_bind. eapply gwp_mono; [by apply select_ephemeral_spec|].
  intros r g1 [(cmd & -> & Hs)|(-> & Hu)]; [by exists cmd|]. apply gwp_bind. eapply gwp_mono; [by apply select_update_spec|].
  intros r g2 [(cmd & -> & Hs)|(-> & Hu2 & Hwh)]; [by exists cmd|]. by apply select_queued_spec.
Qed.
End Commands.

(** ** Unknown key hints

    The tracker of key hints no node answers to, against a reference: of all
    reports so far, the 256 hints reported last, in the order of their last
    report.  A flood of made-up hints therefore takes bounded memory, and a hint is
    forgotten only after 256 others have been heard since. *)

Module KeyHints.

(** ** The reference *)

(** The hints in the order of their last report. *)
Definition recent (l : list Z) (h : Z) : list Z := retain_ne h l ++ [h].
Definition recency (hs : list Z) : list Z := fold_left recent hs [].

(** The last [k] elements. *)
Definition lastn {A} (k : nat) (l : list A) : list A := drop (length l - k) l.

Lemma lastn_app {A} k (l l' : list A) : (k <= length l')%nat -> lastn k (l ++ l') = lastn k l'.
Proof. intros Hk. unfold lastn. rewrite length_app, drop_app_ge by lia. f_equal. lia. Qed.

Lemma lastn_all {A} k (l : list A) : (length l <= k)%nat -> lastn k l = l.
Proof. intros Hk. unfold lastn. replace (length l - k)%nat with 0%nat by lia. done. Qed.

(** A list is a part that is left out and its last [k] elements. *)
Lemma lastn_split {A} k (l : list A) :
  exists old, l = old ++ lastn k l /\ (length (lastn k l) <= k)%nat /\ ((length (lastn k l) < k)%nat -> old = []).
Proof.
  exists (take (length l - k) l). unfold lastn. split; [by rewrite take_drop|]. rewrite length_drop. split; [lia|].
  intros Hl. replace (length l - k)%nat with 0%nat by lia. done.
Qed.

Lemma retain_app h l l' : retain_ne h (l ++ l') = retain_ne h l ++ retain_ne h l'.
Proof. apply list.filter_app. Qed.

Lemma retain_id h l : h ∉ l -> retain_ne h l = l.
Proof.
  intros Hh. unfold retain_ne. induction l as [|x l IH]; [done|]. apply not_elem_of_cons in Hh as [Hx Hl].
  rewrite filter_cons_True by done. by rewrite IH.
Qed.

Lemma retain_elem h x l : x ∈ retain_ne h l <-> x <> h /\ x ∈ l.
Proof. unfold retain_ne. by rewrite list_elem_of_filter. Qed.

Lemma retain_length h l : NoDup l -> h ∈ l -> length (retain_ne h l) = (length l - 1)%nat.
Proof.
  intros Hnd Hh. apply list_elem_of_split in Hh as (l1 & l2 & ->). apply list.NoDup_app in Hnd as (_ & H1 & H2).
  apply list.NoDup_cons in H2 as [H2 _]. rewrite retain_app, retain_id.
  - change (h :: l2) with ([h] ++ l2). rewrite retain_app, (retain_id h l2) by done.
    unfold retain_ne. rewrite filter_cons_False by (intros H; by apply H). rewrite !length_app. simpl. lia.
  - intros Hin. apply (H1 h Hin). by left.
Qed.

Lemma recent_NoDup l h : NoDup l -> NoDup (recent l h).
Proof.
  intros Hl. unfold recent. apply list.NoDup_app. split; [by apply list.NoDup_filter|]. split; [|apply NoDup_singleton].
  intros x Hx ->%list_elem_of_singleton. apply retain_elem in Hx as [? _]. done.
Qed.

(** One report, on the last [k] hints alone. *)
Lemma lastn_recent k l h :
  (1 <= k)%nat -> NoDup l ->
  lastn k (recent l h) =
  (if bool_decide (h ∈ lastn k l) then retain_ne h (lastn k l)
   else if (k <=? length (lastn k l))%nat then drop 1 (lastn k l) else lastn k l) ++ [h].
Proof.
  intros Hk Hnd. destruct (lastn_split k l) as (old & Hl & Hle & Hold). remember (lastn k l) as new eqn:Hnew. clear Hnew.
  subst l. apply list.NoDup_app in Hnd as (_ & Hdis & Hnd). unfold recent. rewrite retain_app, <- app_assoc.
  case_bool_decide as Hin.
  - pose proof (retain_length h new Hnd Hin) as Hlen. assert (length new <> 0)%nat by (by destruct new; [apply elem_of_nil in Hin|]).
    destruct (decide (length new < k)%nat) as [Hlt|Hge].
    + rewrite (Hold Hlt). simpl. apply lastn_all. rewrite length_app. simpl. lia.
    + rewrite lastn_app by (rewrite length_app; simpl; lia). apply lastn_all. rewrite length_app. simpl. lia.
  - rewrite (retain_id h new Hin). destruct (Nat.leb_spec k (length new)) as [Hge|Hlt].
    + rewrite lastn_app by (rewrite length_app; simpl; lia). unfold lastn. rewrite length_app. simpl.
      replace (length new + 1 - k)%nat with 1%nat by lia. rewrite drop_app_le by lia. done.
    + rewrite (Hold Hlt). simpl. apply lastn_all. rewrite length_app. simpl. lia.
Qed.

(** ** The tracker *)

Inductive HintOp : Type := Report (now hint : Z) | Drain.

Definition hint_step (t : MissingKeyHintTracker) (o : HintOp) : MissingKeyHintTracker :=
  match o with Report now h => (report t now h).2 | Drain => (drain_hints t).2 end.

Definition reported_hint (o : HintOp) : option Z := match o with Report _ h => Some h | Drain => None end.

Abbreviation max_hints := (Z.to_nat MISSING_HINT_MAX_ENTRIES).

(** The tracker holds exactly the hints [l]; those waiting to be reported are
    among them. *)
Record tracks (l : list Z) (t : MissingKeyHintTracker) : Prop := {
  tr_order : order t = l;
  tr_nodup : NoDup l;
  tr_keys : forall h, is_Some (entries t !! h) <-> h ∈ l;
  tr_pending : NoDup (pending_hints t) /\ forall h, h ∈ pending_hints t -> h ∈ l
}.

Lemma tracks_size l t : tracks l t -> size (entries t) = length l.
Proof.
  intros [_ Hnd Hk _]. assert (Hd : dom (entries t) = list_to_set (C := gset Z) l).
  { apply set_eq. intros h. rewrite elem_of_dom, Hk. by rewrite elem_of_list_to_set. }
  rewrite <- size_dom, Hd. by apply size_list_to_set.
Qed.

(** A known hint moves to the end, whether or not it is reported again. *)
Lemma tracks_again l t h e pend :
  tracks l t -> h ∈ l -> (forall x, is_Some (e !! x) <-> is_Some (entries t !! x)) ->
  NoDup pend -> (forall x, x ∈ pend -> x ∈ l) -> tracks (recent l h) (mkTracker e (retain_ne h (order t) ++ [h]) pend).
Proof.
  intros [Ho Hnd Hk _] Hin He Hp1 Hp2.
  assert (Hel : forall x, x ∈ recent l h <-> x ∈ l).
  { intros x. unfold recent. rewrite elem_of_app, retain_elem, list_elem_of_singleton. destruct (decide (x = h)); set_solver. }
  split; simpl.
  - by rewrite Ho.
  - by apply recent_NoDup.
  - intros x. rewrite He, Hk, Hel. done.
  - split; [done|]. intros x Hx. by apply Hel, Hp2.
Qed.

(** A new hint pushes out the oldest one when the tracker is full. *)
Lemma tracks_evict l t :
  tracks l t -> tracks (if (max_hints <=? length l)%nat then drop 1 l else l) (evict t).
Proof.
  intros Ht. pose proof (tracks_size _ _ Ht) as Hs. destruct Ht as [Ho Hnd Hk [Hp1 Hp2]]. unfold evict. rewrite Hs, Ho, Z.geb_leb.
  unfold MISSING_HINT_MAX_ENTRIES in *. destruct (Z.leb_spec 256 (Z.of_nat (length l))).
  2: { rewrite (proj2 (Nat.leb_gt _ _)) by lia. by split. }
  rewrite (proj2 (Nat.leb_le _ _)) by lia. destruct l as [|x l]; [simpl in *; lia|]. simpl. rewrite drop_0.
  apply list.NoDup_cons in Hnd as [Hx Hnd]. split; simpl; try done.
  - intros h. destruct (decide (h = x)) as [->|Hne].
    + rewrite lookup_delete_eq. split; [by intros [? ?]|done].
    + rewrite lookup_delete_ne by done. rewrite Hk, elem_of_cons. set_solver.
  - split; [by apply list.NoDup_filter|]. intros h [Hne Hh]%retain_elem. apply Hp2, elem_of_cons in Hh. set_solver.
Qed.

Lemma tracks_new l t h now :
  tracks l t -> h ∉ l ->
  tracks (l ++ [h]) (mkTracker (<[h := now]> (entries t)) (order t ++ [h]) (pending_hints t ++ [h])).
Proof.
  intros [Ho Hnd Hk [Hp1 Hp2]] Hin.
  assert (Happ : forall m, NoDup m -> (forall x, x ∈ m -> x ∈ l) -> NoDup (m ++ [h])).
  { intros m Hm Hsub. apply list.NoDup_app. split; [done|]. split; [|apply NoDup_singleton]. intros x Hx ->%list_elem_of_singleton.
    by apply Hin, Hsub. }
  split; simpl.
  - by rewrite Ho.
  - by apply Happ.
  - intros x. rewrite elem_of_app, list_elem_of_singleton. destruct (decide (x = h)) as [->|Hne].
    + rewrite lookup_insert_eq. split; [by right|by eexists].
    + rewrite lookup_insert_ne by done. rewrite Hk. set_solver.
  - split; [by apply Happ|]. intros x. rewrite !elem_of_app, list_elem_of_singleton. set_solver.
Qed.

Lemma report_tracks hs t now h :
  tracks (lastn max_hints (recency hs)) t -> NoDup (recency hs) ->
  tracks (lastn max_hints (recency (hs ++ [h]))) (report t now h).2.
Proof.
  intros Ht Hnd. unfold recency. rewrite fold_left_app. simpl. fold (recency hs).
  rewrite lastn_recent by (done || (unfold MISSING_HINT_MAX_ENTRIES; lia)). pose proof Ht as [_ _ Hk [Hp1 Hp2]].
  unfold report. destruct (entries t !! h) as [last|] eqn:Hl.
  - assert (Hin : h ∈ lastn max_hints (recency hs)) by (apply Hk; by rewrite Hl). rewrite bool_decide_true by done.
    case_match; simpl; apply tracks_again; try done.
    + intros x. destruct (decide (x = h)) as [->|Hne]; [rewrite lookup_insert_eq, Hl|by rewrite lookup_insert_ne].
      split; intros _; by eexists.
    + case_bool_decide; [done|]. apply list.NoDup_app. split; [done|]. split; [|apply NoDup_singleton].
      by intros x Hx ->%list_elem_of_singleton.
    + case_bool_decide; [done|]. intros x. rewrite elem_of_app, list_elem_of_singleton. set_solver.
  - assert (Hin : h ∉ lastn max_hints (recency hs)) by (rewrite <- Hk, Hl; by intros [? ?]). rewrite bool_decide_false by done.
    simpl. apply tracks_new; [by apply tracks_evict|]. case_match; [|done]. intros Hd. apply Hin.
    destruct (lastn _ _); [done|]. simpl in Hd. rewrite drop_0 in Hd. by right.
Qed.

Lemma recency_NoDup hs : NoDup (recency hs).
Proof.
  unfold recency. induction hs as [|h hs IH] using rev_ind; [constructor|]. rewrite fold_left_app. by apply recent_NoDup.
Qed.

(** The tracker is a cache of the 256 hints heard last.  After any sequence of
    reports, accepted or suppressed, and drains, it tracks exactly the last 256
    distinct hints in the order of their last report, and every hint waiting to be
    reported is one of them, once. *)
Lemma hint_tracker_lru ops :
  tracks (lastn max_hints (recency (omap reported_hint ops))) (fold_left hint_step ops tracker_new).
Proof.
  induction ops as [|o ops IH] using rev_ind.
  { split; simpl; [done|constructor| |].
    - intros h. rewrite lookup_empty. split; [by intros [? ?]|by intros ?%elem_of_nil].
    - split; [constructor|]. by intros h ?%elem_of_nil. }
  rewrite fold_left_app, omap_app. destruct o as [now h|]; simpl.
  - apply report_tracks; [done|apply recency_NoDup].
  - rewrite app_nil_r. destruct IH as [Ho Hnd Hk _]. split; try done. split; [constructor|]. by intros h ?%elem_of_nil.
Qed.

End KeyHints.
