(* ===== verification/GwServe.v ===== *)
(** * The gateway's side of a program update

    What the engine answers while a node fetches the program assigned to it.
    Total-correctness triples [gok P m Q]: from a state in [P] the computation
    returns a value, in [Q].  [serving]: the session of node [id] is in the
    transfer of the program and expects sequence number [q]. *)

From Stdlib Require Import String.
From S2P Require Import Prelude Frame Messages ProgramImage CborCompact NodeRadio.
From S2P Require Import Session GwStore GwState GwEngine GwLogic.
Open Scope list_scope.
Open Scope Z_scope.

(** ** Triples *)

Section Triples.
Context {S E : Type}.
Abbreviation Gw := (Gateway S E).
Abbreviation G := (GwState.G S E).

Definition gok {A} (P : Gw -> Prop) (m : G A) (Q : A -> Gw -> Prop) : Prop :=
  forall g, P g -> exists a g', m g = (Ok a, g') /\ Q a g'.

Lemma gok_bind {A B} P (m : G A) R (k : A -> G B) Q : gok P m R -> (forall a, gok (R a) (k a) Q) -> gok P (gbind m k) Q.
Proof. intros Hm Hk g Hg. destruct (Hm g Hg) as (a & g1 & H1 & H2). unfold gbind. rewrite H1. by apply Hk. Qed.

Lemma gok_pre {A} (P P' : Gw -> Prop) (m : G A) Q : (forall g, P g -> P' g) -> gok P' m Q -> gok P m Q.
Proof. intros HP Hm g Hg. by apply Hm, HP. Qed.

(** A fact about the value computed so far. *)
Lemma gok_fact {A} (F : Prop) P (m : G A) Q : (F -> gok P m Q) -> gok (fun g => F /\ P g) m Q.
Proof. intros Hm g [HF Hg]. by apply Hm. Qed.

Lemma gok_ret {A} (P : Gw -> Prop) (a : A) (Q : A -> Gw -> Prop) : (forall g, P g -> Q a g) -> gok P (gret a) Q.
Proof. intros HQ g Hg. eexists _, _. split; [reflexivity|auto]. Qed.

Lemma gok_mod (P : Gw -> Prop) f (Q : unit -> Gw -> Prop) : (forall g, P g -> Q tt (f g)) -> gok P (gmod f) Q.
Proof. intros HQ g Hg. eexists _, _. split; [reflexivity|auto]. Qed.

Lemma gok_env {A} (P : Gw -> Prop) (f : E -> A * E) (Q : A -> Gw -> Prop) :
  (forall g, P g -> Q (f (g_env g)).1 (set_env g (f (g_env g)).2)) -> gok P (env_do f) Q.
Proof. intros HQ g Hg. specialize (HQ g Hg). unfold env_do. destruct (f (g_env g)). eexists _, _. split; [reflexivity|done]. Qed.

Lemma gok_store {A} (P : Gw -> Prop) (op : Op S A) (Q : StorageError + A -> Gw -> Prop) :
  (forall g, P g -> Q (op (g_storage g)).1 (set_storage g (op (g_storage g)).2)) -> gok P (store op) Q.
Proof. intros HQ g Hg. specialize (HQ g Hg). unfold store. destruct (op (g_storage g)). eexists _, _. split; [reflexivity|done]. Qed.

(** Code that looks at the state. *)
Lemma gok_get_bind {A} (P : Gw -> Prop) (k : Gw -> G A) Q : (forall g, P g -> gok (eq g) (k g) Q) -> gok P (gbind gget k) Q.
Proof. intros Hk g Hg. by apply (Hk g Hg). Qed.

Lemma gok_some {A B} (P : Gw -> Prop) (a : A) o (k : A -> G B) Q :
  o = Some a -> gok P (k a) Q -> gok P (gbind (some_or_discard o) k) Q.
Proof. intros -> Hk g Hg. by apply Hk. Qed.

Lemma gok_ok {X A B} (P : Gw -> Prop) (a : A) (r : Res X A) (k : A -> G B) Q :
  r = Ok a -> gok P (k a) Q -> gok P (gbind (ok_or_discard r) k) Q.
Proof. intros -> Hk g Hg. by apply Hk. Qed.
End Triples.

(** ** The exchange *)

(** Storage whose operations succeed. *)
Class Reliable (S : Type) `{StorageLaws S} : Prop := {
  nodes_served : forall h s, exists l, (get_nodes_by_key_hint h s).1 = inr l;
  program_served : forall h s, exists o, (get_program h s).1 = inr o;
  upsert_served : forall n s, (upsert_node n s).1 = inr tt
}.

(** During the exchange the host's clock stays between [lo] and [hi] and its
    random numbers leave room for the sequence numbers of a wake cycle. *)
Record calm {Value E : Type} `{GwEnv Value E} (J : E -> Prop) (lo hi : Z) : Prop := {
  calm_ms : forall e, J e -> J (unix_ms e).2;
  calm_instant : forall e, J e -> lo <= (instant e).1 <= hi /\ J (instant e).2;
  calm_random : forall e, J e -> (exists q, (fill_random e).1 = Some q /\ 0 <= q < 2 ^ 64 - 64) /\ J (fill_random e).2;
  calm_event : forall e i m, J e -> J (handler_event e i m)
}.

Section Serve.
Context {Value : Type} `{C : Cbor Value} `{L : !CborLaws C} `{HZ : !CborSize C}.
Context `{SH : Sha256Provider} `{AE : AeadProvider} `{HA : !AeadLaws AE}.
Context {S E : Type} `{HL : StorageLaws S} `{HR : !RecoveryStore S} `{HP : !RecoveryLaws S} `{HG : GwEnv Value E}.
Context `{HS : !Reliable S} (J : E -> Prop) (lo hi : Z) (HJ : calm J lo hi).
Context (oc da : bool) (peer : list Z) (rssi : option Z).
(** The node, and the program assigned to it. *)
Context (id : string) (hint : Z) (key h : list Z) (p : ProgramRecord) (count : Z).
Context (Hhint : uN 16 hint) (Hlen : len h = 32) (Hhash : p_hash p = h) (Hsize : p_size p = len (p_image p)).
Context (Hcount : chunk_count (len (p_image p)) DEFAULT_CHUNK_SIZE = Some count) (Hmax : 0 < len (p_image p) <= 4096).
Abbreviation Gw := (Gateway S E).

(** The node's record is the only one with its key hint. *)
Record registered (v : View) (n : NodeRecord) : Prop := {
  rg_lookup : v_nodes v !! id = Some n;
  rg_id : nr_id n = id;
  rg_hint : nr_key_hint n = hint;
  rg_psk : nr_psk n = key;
  rg_assigned : assigned_program_hash n = Some h;
  rg_unique : forall j m, v_nodes v !! j = Some m -> nr_key_hint m = hint -> j = id
}.

Abbreviation transfer := (ChunkedTransfer h (p_size p) DEFAULT_CHUNK_SIZE count false).

(** The session of the node is open in state [st]. *)
Record active (st : SessionState) (q : Z) (g : Gw) : Prop := {
  sv_node : exists n, registered (gview g) n;
  sv_program : v_programs (gview g) !! h = Some p;
  sv_session : exists s, sessions (session_manager g) !! id = Some s /\ next_expected_seq s = q /\ state s = st /\
                 lo <= created_at s <= hi;
  sv_timeout : hi - lo <= timeout (session_manager g);
  sv_env : J (g_env g)
}.
Abbreviation serving := (active transfer).

(** *** Frames *)

(** A frame of the node. *)
Definition node_frame (m : NodeMessage) (nonce : Z) (raw : list Z) : Prop :=
  exists cbor, node_encode m = Ok cbor /\ len cbor <= MAX_PAYLOAD_SIZE /\
    encode_frame (mkHeader hint (node_msg_type m) nonce) cbor key = Ok raw.

Definition gateway_reply (m : GatewayMessage) (nonce : Z) (raw : list Z) : Prop :=
  exists cbor, gateway_encode da m = Ok cbor /\ len cbor <= MAX_PAYLOAD_SIZE /\
    encode_frame (mkHeader hint (gateway_msg_type m) nonce) cbor key = Ok raw.

Lemma node_frame_opens m nonce raw :
  node_msg_ok m -> uN 64 nonce -> node_frame m nonce raw ->
  exists f payload, decode_frame raw = Ok f /\ header f = mkHeader hint (node_msg_type m) nonce /\
    open_frame f key = Ok payload /\ node_decode (node_msg_type m) payload = Ok m.
Proof using Hhint HA L.
  intros Hm Hn (cbor & Henc & Hl & Hf).
  destruct (encode_decode_open SH AE HA (mkHeader hint (node_msg_type m) nonce) cbor key) as (raw' & f & H1 & _ & H2 & H3 & H4);
    [|done|].
  { split_and!; [done| |done]. destruct m; split; discriminate || reflexivity. }
  assert (raw' = raw) as -> by congruence. exists f, cbor. split_and!; try done. by apply node_roundtrip.
Qed.

Lemma try_nodes_only f l n payload :
  n ∈ l -> (forall m, m ∈ l -> m = n) -> open_frame f (nr_psk n) = Ok payload -> try_nodes f l = Some (n, payload).
Proof using .
  intros Hin Honly Ho. destruct l as [|m l]; [by apply elem_of_nil in Hin|]. assert (m = n) as -> by (apply Honly; by left).
  simpl. by rewrite Ho.
Qed.

(** A frame of the registered node reaches its handler, nothing else changed. *)
Lemma process_dispatch (g : Gw) n m nonce raw :
  registered (gview g) n -> node_msg_ok m -> uN 64 nonce -> node_frame m nonce raw -> node_msg_type m <> MSG_DIAG_REQUEST ->
  exists s payload, view s = gview g /\ node_decode (node_msg_type m) payload = Ok m /\
    process_frame oc da raw peer rssi g =
    dispatch_frame oc da n (mkHeader hint (node_msg_type m) nonce) payload peer rssi (set_storage g s).
Proof using Hhint HA L HS.
  intros Hr Hm Hn Hf Hnd. destruct (node_frame_opens m nonce raw Hm Hn Hf) as (f & payload & Hd & Hh & Ho & Hdec).
  unfold process_frame. unfold gbind at 1. unfold ok_or_discard. rewrite Hd. rewrite Hh. cbn [h_msg_type key_hint].
  rewrite (proj2 (Z.eqb_neq _ MSG_PEER_REQUEST)) by (by destruct m). rewrite (proj2 (Z.eqb_neq _ _) Hnd).
  pose proof (get_nodes_by_key_hint_ok hint (g_storage g)) as Hget. destruct (nodes_served hint (g_storage g)) as [l Hl].
  unfold gbind at 1, store_or_discard, store, gbind at 1.
  destruct (get_nodes_by_key_hint hint (g_storage g)) as [[e|l'] s1]; simpl in Hl; [done|].
  injection Hl as ->. destruct Hget as [Hv Hget].
  assert (Hin : n ∈ l) by (apply Hget; split; [apply Hr|]; exists id; apply Hr).
  assert (Honly : forall m, m ∈ l -> m = n).
  { intros x Hx. apply Hget in Hx as [Hx [j Hj]]. pose proof (rg_unique _ _ Hr j x Hj Hx) as ->.
    pose proof (rg_lookup _ _ Hr) as Hlk. unfold gview in Hlk. congruence. }
  destruct l as [|x l]; [by apply elem_of_nil in Hin|]. cbn [gret].
  rewrite (try_nodes_only _ _ _ payload Hin Honly) by (by rewrite (rg_psk _ _ Hr)). unfold gbind at 1. simpl.
  exists s1, payload. done.
Qed.

(** *** Chunks and the acknowledgement *)

Lemma active_storage st q (g : Gw) s : view s = gview g -> active st q g -> active st q (set_storage g s).
Proof using . intros Hv [Hn Hp Hs Ht He]. split; try done; unfold gview; simpl; by rewrite Hv. Qed.

Lemma active_env st q (g : Gw) e : J e -> active st q g -> active st q (set_env g e).
Proof using . intros Hj [Hn Hp Hs Ht He]. by split. Qed.

Lemma active_unix st q : gok (active st q) (env_do unix_ms) (fun _ => active st q).
Proof using HJ. apply gok_env. intros g Hg. apply active_env; [|done]. apply (calm_ms _ _ _ HJ), Hg. Qed.

Lemma active_broadcast st q msg : gok (active st q) (broadcast msg) (fun _ => active st q).
Proof using HJ.
  apply gok_mod. intros g Hg. apply active_env; [|done]. pose proof (sv_env _ _ _ Hg) as Hj. revert Hj.
  generalize (g_env g). induction (seq 0 (length (g_handlers g))) as [|i l IH]; intros e Hj; [done|].
  simpl. by apply IH, (calm_event _ _ _ HJ).
Qed.

(** The program is in the library. *)
Lemma active_program st q : gok (active st q) (store (get_program h)) (fun r g => r = inr (Some p) /\ active st q g).
Proof using HS.
  apply gok_store. intros g Hg. pose proof (get_program_ok h (g_storage g)) as Hget.
  destruct (program_served h (g_storage g)) as [o Ho]. destruct (get_program h (g_storage g)) as [[e|x] s1]; simpl in *; [done|].
  destruct Hget as [Hv ->]. split; [|by apply active_storage]. f_equal. apply Hg.
Qed.

Lemma active_program_some st q : gok (active st q) (store_or_discard (get_program h)) (fun o g => o = Some p /\ active st q g).
Proof using HS.
  eapply gok_bind; [apply active_program|]. intros r. apply gok_fact. intros ->. by apply gok_ret.
Qed.

(** The session takes the next number. *)
Lemma serving_advance q :
  0 <= q -> q + 1 < 2 ^ 64 -> gok (serving q) (advance_session oc id q) (fun _ => serving (q + 1)).
Proof using HJ.
  intros Hq0 Hq. unfold advance_session. eapply (gok_bind _ _ (fun now g => lo <= now <= hi /\ serving q g)).
  { apply gok_env. intros g Hg. destruct (calm_instant _ _ _ HJ (g_env g) (sv_env _ _ _ Hg)). split; [done|]. by apply active_env. }
  intros now. apply gok_get_bind. intros g [Hnow Hg]. destruct (sv_session _ _ _ Hg) as (s & Hs & Hseq & Hst & Hc).
  pose proof (sv_timeout _ _ _ Hg) as Ht. unfold verify_and_advance_seq. rewrite Hs.
  unfold is_expired, duration_since. rewrite Z.gtb_ltb, (proj2 (Z.ltb_ge _ _)) by lia.
  rewrite Hseq, Z.eqb_refl. cbn [negb]. rewrite arith_u_in_range by lia.
  eapply (gok_bind _ _ (fun _ => serving (q + 1))).
  - apply gok_mod. intros g' <-. destruct Hg as [Hn Hp _ _ He]. split; try done. exists (with_seq s (q + 1)). simpl.
    by rewrite lookup_insert_eq.
  - intros []. intros g' Hg'. eexists _, _. split; [reflexivity|done].
Qed.

Lemma count_bounds : 0 < count <= 32 /\ (count - 1) * 128 < len (p_image p) <= count * 128.
Proof using Hcount Hmax.
  destruct (chunk_count_bounds (len (p_image p)) DEFAULT_CHUNK_SIZE count) as [[? ?]|[? ?]];
    unfold DEFAULT_CHUNK_SIZE in *; try done; try lia.
Qed.

Abbreviation chunk i := (nth_chunk (p_image p) DEFAULT_CHUNK_SIZE i).

Lemma chunk_len (i : nat) : len (chunk i) <= 128.
Proof using . unfold nth_chunk, len, DEFAULT_CHUNK_SIZE. rewrite length_take. lia. Qed.

(** Any message that fits is answered. *)
Lemma response_framed (P : Gw -> Prop) m nonce cbor :
  gateway_encode da m = Ok cbor -> len cbor <= MAX_PAYLOAD_SIZE -> uN 64 nonce ->
  gok P (encode_response (mkHeader hint (gateway_msg_type m) nonce) cbor key) (fun reply g => P g /\ gateway_reply m nonce reply).
Proof using Hhint HA.
  intros Henc Hl Hn g Hg.
  destruct (encode_decode_open SH AE HA (mkHeader hint (gateway_msg_type m) nonce) cbor key) as (raw & f & H1 & _); [|done|].
  { split_and!; [done| |done]. destruct m; split; discriminate || reflexivity. }
  exists raw, g. unfold encode_response, ok_or_discard. rewrite H1. split; [done|]. split; [done|]. by exists cbor.
Qed.

(** A request for chunk [i] in order is answered with the chunk. *)
Lemma chunk_served q (i : nat) raw :
  0 <= q -> q + 1 < 2 ^ 64 -> Z.of_nat i < count -> node_frame (GetChunk (Z.of_nat i)) q raw ->
  gok (serving q) (process_frame oc da raw peer rssi)
    (fun reply g => serving (q + 1) g /\ gateway_reply (Chunk (Z.of_nat i) (chunk i)) q reply).
Proof using HZ HJ Hhint HA L HS Hcount Hmax.
  intros Hq0 Hq Hi Hf. pose proof count_bounds as Hb. assert (Hqn : uN 64 q) by (split; lia).
  assert (Hi32 : uN 32 (Z.of_nat i)) by (split; lia).
  intros g Hg. destruct (sv_node _ _ _ Hg) as [n Hr].
  destruct (process_dispatch g n (GetChunk (Z.of_nat i)) q raw) as (s0 & payload & Hv & Hdec & ->); try done.
  revert g Hg Hr Hv. intros g Hg Hr Hv. apply (active_storage _ q g s0 Hv) in Hg. revert Hg. generalize (set_storage g s0). clear Hv.
  change (gok (serving q) (handle_post_wake oc da n (mkHeader hint MSG_GET_CHUNK q) payload)
    (fun reply g => serving (q + 1) g /\ gateway_reply (Chunk (Z.of_nat i) (chunk i)) q reply)).
  unfold handle_post_wake. eapply gok_ok; [exact Hdec|]. rewrite (rg_id _ _ Hr).
  eapply gok_bind; [by apply serving_advance|]. intros ?. cbn [h_nonce h_msg_type]. unfold handle_get_chunk. rewrite (rg_id _ _ Hr).
  apply gok_get_bind. intros g' Hg'. destruct (sv_session _ _ _ Hg') as (s & Hs & _ & Hst & _).
  eapply gok_some; [exact Hs|]. rewrite Hst. apply (gok_pre _ (serving (q + 1))); [by intros ? <-|].
  eapply gok_bind; [apply active_program_some|]. intros o. apply gok_fact. intros ->. eapply gok_some; [reflexivity|].
  eapply gok_some; [apply get_chunk_nth; unfold DEFAULT_CHUNK_SIZE; lia|].
  destruct (chunk_framed C da (Z.of_nat i) (chunk i) Hi32 (chunk_len i)) as (cbor & Henc & Hl).
  eapply gok_ok; [exact Henc|]. rewrite (rg_hint _ _ Hr), (rg_psk _ _ Hr). by apply (response_framed _ (Chunk _ _)).
Qed.

(** What the acknowledgement of the program leaves: the record confirms it, and the
    transfer is over. *)
Record confirmed (g : Gw) : Prop := {
  cf_node : exists n, v_nodes (gview g) !! id = Some n /\ nr_psk n = key /\ current_program_hash n = Some h;
  cf_session : exists s, sessions (session_manager g) !! id = Some s /\ state s = BpfExecuting
}.

Lemma ack_recorded n q :
  nr_id n = id -> nr_psk n = key -> gok (serving q) (handle_program_ack n h) (fun _ => confirmed).
Proof using HS.
  intros Hid Hpsk. unfold handle_program_ack. rewrite Hid. apply gok_get_bind. intros g Hg.
  destruct (sv_session _ _ _ Hg) as (s & Hs & _ & Hst & _). unfold get_session. rewrite Hs, Hst.
  rewrite bool_decide_true by done. cbn [negb].
  set (Q := fun g' : Gw => (exists n, v_nodes (gview g') !! id = Some n /\ nr_psk n = key /\ current_program_hash n = Some h) /\
    sessions (session_manager g') !! id = Some s).
  eapply (gok_bind _ _ (fun _ => Q)).
  { apply gok_store. intros g' <-. pose proof (upsert_node_ok (confirm_program n h) (g_storage g)) as Hup.
    pose proof (upsert_served (confirm_program n h) (g_storage g)) as Hok.
    destruct (upsert_node _ _) as [[e|[]] s1]; simpl in *; [done|]. split; [|done]. exists (confirm_program n h).
    unfold gview. simpl. rewrite Hup. simpl. rewrite Hid. by rewrite lookup_insert_eq. }
  intros _. eapply (gok_bind _ _ (fun _ => Q)); [by apply gok_env|]. intros now.
  eapply (gok_bind _ _ (fun _ => Q)); [by apply gok_mod|]. intros _.
  apply gok_mod. intros g' [Hn Hs']. unfold set_state. rewrite Hs'. split; [exact Hn|]. simpl. rewrite lookup_insert_eq.
  by exists (with_state s BpfExecuting).
Qed.

(** The acknowledgement in order is recorded; it has no answer. *)
Lemma ack_served q raw (g : Gw) :
  0 <= q -> q + 1 < 2 ^ 64 -> node_frame (ProgramAck h) q raw -> serving q g ->
  exists g', process_frame oc da raw peer rssi g = (Err tt, g') /\ confirmed g'.
Proof using HJ Hhint HA L HS.
  intros Hq0 Hq Hf Hg. destruct (sv_node _ _ _ Hg) as [n Hr].
  destruct (process_dispatch g n (ProgramAck h) q raw) as (s0 & payload & Hv & Hdec & ->); try done; [split; lia|].
  apply (active_storage _ q g s0 Hv) in Hg. destruct (serving_advance q Hq0 Hq _ Hg) as ([] & g1 & Hadv & Hg1).
  destruct (ack_recorded n (q + 1) (rg_id _ _ Hr) (rg_psk _ _ Hr) g1 Hg1) as ([] & g2 & Hack & Hg2).
  exists g2. split; [|done]. unfold dispatch_frame. cbn [h_msg_type node_msg_type].
  change (handle_post_wake oc da n (mkHeader hint MSG_PROGRAM_ACK q) payload (set_storage g s0) = (Err tt, g2)).
  cbn [node_msg_type] in Hdec.
  unfold handle_post_wake, gbind, ok_or_discard. cbn [h_msg_type h_nonce]. by rewrite Hdec, (rg_id _ _ Hr), Hadv, Hack.
Qed.
(** *** WAKE *)

Context (nonce abi mv : Z) (rep fw : list Z).
Context (Habi : uN 32 abi) (Hmv : uN 32 mv) (Hfw : len fw <= MAX_STRING_FIELD_LEN) (Hascii : is_ascii fw = true).
Context (Hrep : rep <> h) (Hlen_rep : len rep <= 32) (Hcompat : abi_ok p abi = true) (Hnonce : uN 64 nonce).

(** The program is assigned, nothing has precedence over it, and no transfer is
    under way in this wake cycle. *)
Record ready (g : Gw) : Prop := {
  rd_node : exists n, registered (gview g) n;
  rd_program : v_programs (gview g) !! h = Some p;
  rd_timeout : hi - lo <= timeout (session_manager g);
  rd_env : J (g_env g);
  rd_queue : pending_commands g !! id ≫= first_ephemeral = None;
  rd_session : reuses (sessions (session_manager g) !! id) nonce = None
}.

Abbreviation update := (UpdateProgram h (p_size p) DEFAULT_CHUNK_SIZE count).

(** The assigned program is offered. *)
Lemma selects_update n q :
  nr_id n = id -> assigned_program_hash n = Some h ->
  gok (fun g => pending_commands g !! id ≫= first_ephemeral = None /\ active AwaitingPostWake q g)
    (select_command n rep abi) (fun cmd g => cmd = update /\ active AwaitingPostWake q g).
Proof using HS Hrep Hcompat Hcount Hhash.
  intros Hid Has. unfold select_command, select_ephemeral, select_update. rewrite Hid, Has.
  eapply (gok_bind _ _ (fun o g => o = None /\ active AwaitingPostWake q g)).
  { apply gok_get_bind. intros g [Hq Hg]. rewrite Hq. apply gok_ret. by intros g' <-. }
  intros o. apply gok_fact. intros ->. rewrite bool_decide_false by congruence.
  eapply (gok_bind _ _ (fun o g => o = Some update /\ active AwaitingPostWake q g)).
  { eapply gok_bind; [apply active_program|]. intros r. apply gok_fact. intros ->. apply gok_ret. intros g Hg.
    split; [|done]. rewrite Hcompat, Hcount. by rewrite Hhash. }
  intros o. apply gok_fact. intros ->. by apply gok_ret.
Qed.

Lemma wake_opens n :
  nr_id n = id -> assigned_program_hash n = Some h ->
  gok ready (wake_session n nonce peer rep abi)
    (fun x g => exists q, (x = (q, update) /\ 0 <= q < 2 ^ 64 - 64) /\ active AwaitingPostWake q g).
Proof using HJ HS Hrep Hcompat Hcount Hhash.
  intros Hid Has. unfold wake_session. rewrite Hid. apply gok_get_bind. intros g Hg.
  change (get_session (session_manager g) id) with (sessions (session_manager g) !! id). rewrite (rd_session _ Hg).
  eapply (gok_bind _ _ (fun o g => exists q, (o = Some q /\ 0 <= q < 2 ^ 64 - 64) /\ ready g)).
  { apply gok_env. intros g' <-. destruct (calm_random _ _ _ HJ _ (rd_env _ Hg)) as [(q & Hq & Hr) Hj]. exists q.
    split; [done|]. by destruct Hg. }
  intros o g1 (q & [-> Hq] & Hg1). revert g1 Hg1. eapply gok_some; [reflexivity|].
  eapply (gok_bind _ _ (fun now g => lo <= now <= hi /\ ready g)).
  { apply gok_env. intros g1 Hg1. destruct (calm_instant _ _ _ HJ _ (rd_env _ Hg1)). split; [done|]. by destruct Hg1. }
  intros now. apply gok_fact. intros Hnow.
  eapply (gok_bind _ _ (fun _ g => pending_commands g !! id ≫= first_ephemeral = None /\ active AwaitingPostWake q g)).
  { apply gok_mod. intros g1 Hg1. split; [apply Hg1|]. destruct Hg1 as [Hn Hp Ht He _ _]. split; try done. eexists.
    split; [apply lookup_insert_eq|]. done. }
  intros _. eapply gok_bind; [by apply selects_update|]. intros cmd. apply gok_fact. intros ->. apply gok_ret.
  intros g1 Hg1. by exists q.
Qed.

Lemma transfer_opens q : gok (active AwaitingPostWake q) (update_transfer id update) (fun _ => serving q).
Proof using .
  apply gok_mod. intros g Hg. destruct (sv_session _ _ _ Hg) as (s & Hs & Hseq & _ & Hc). unfold set_state. rewrite Hs.
  destruct Hg as [Hn Hp _ Ht He]. split; try done. exists (with_state s transfer). simpl. by rewrite lookup_insert_eq.
Qed.

Lemma registered_wake v n abi' ver :
  registered v n -> exists n', registered (alter_node v id (fun n => update_firmware_metadata n abi' ver)) n'.
Proof using .
  intros [Hl Hi Hh Hp Ha Hu]. exists (update_firmware_metadata n abi' ver). split; try done; simpl.
  - by rewrite lookup_alter_eq, Hl.
  - intros j m Hm Hmh. destruct (decide (j = id)) as [->|Hj]; [done|]. rewrite lookup_alter_ne in Hm by done. by eapply Hu.
Qed.

(** The observations of a WAKE do not disturb the transfer. *)
Lemma observed n q : nr_id n = id -> gok (serving q) (observe_wake n abi mv fw rssi) (fun _ => serving q).
Proof using HJ.
  intros Hid. unfold observe_wake. rewrite Hid. eapply (gok_bind _ _ (fun _ => serving q)).
  { apply gok_store. intros g Hg. pose proof (update_node_wake_metadata_ok id abi fw (g_storage g)) as Hup.
    destruct (update_node_wake_metadata _ _ _ _) as [[e|[]] s1]; simpl in *; [by apply active_storage|].
    destruct Hup as [_ Hv]. destruct Hg as [[x Hx] Hp Hs Ht He]. split; try done; unfold gview; simpl; rewrite Hv; [|done].
    by eapply registered_wake. }
  assert (Hses : forall f, (forall m, sessions (f m) = sessions m /\ timeout (f m) = timeout m) ->
    gok (serving q) (gmod (fun g : Gw => set_sessions g (f (session_manager g)))) (fun _ => serving q)).
  { intros f Hf. apply gok_mod. intros g [Hn Hp Hs Ht He]. destruct (Hf (session_manager g)) as [Hf1 Hf2]. split; simpl; try done.
    - by rewrite Hf1.
    - by rewrite Hf2. }
  intros [[?|?]|[]].
  - by apply (Hses (fun m => clear_wake_rssi_dbm (clear_battery_mv (clear_last_seen m id) id) id)).
  - by apply gok_ret.
  - eapply gok_bind; [apply active_unix|]. intros now. apply (Hses (fun m => let m := record_last_seen m id now in
      let m := record_battery_mv m id mv in match rssi with Some x => record_wake_rssi_dbm m id x | None => m end)).
    intros m. by destruct rssi.
Qed.

Lemma escrow_kept q : gok (serving q) (escrow_of id) (fun _ => serving q).
Proof using HP.
  unfold escrow_of. apply gok_get_bind. intros g Hg. destruct (has_sqlite g); [|apply gok_ret; by intros g' <-].
  eapply (gok_bind _ _ (fun _ => serving q)); [|intros r; by apply gok_ret].
  apply gok_store. intros g' <-. apply active_storage; [apply get_node_escrow_ok|done].
Qed.
Abbreviation command q ts := (Command q ts update None).

(** A WAKE is answered with the command to fetch the assigned program. *)
Lemma wake_served raw :
  node_frame (Wake abi rep mv fw None) nonce raw ->
  gok ready (process_frame oc da raw peer rssi)
    (fun reply g => exists q ts, 0 <= q < 2 ^ 64 - 64 /\ uN 64 ts /\ serving q g /\ gateway_reply (command q ts) nonce reply).
Proof using All.
  intros Hf g Hg. destruct (rd_node _ Hg) as [n Hr]. pose proof count_bounds as Hb.
  destruct (process_dispatch g n (Wake abi rep mv fw None) nonce raw) as (s0 & payload & Hv & Hdec & ->); try done.
  assert (Hg0 : ready (set_storage g s0))
    by (destruct Hg as [Hn Hp Ht He Hq Hs]; split; try done; unfold gview; simpl; by rewrite Hv).
  destruct Hr as [_ Hid Hh Hpsk Has _].
  revert Hg0. generalize (set_storage g s0). clear Hv Hg g.
  change (gok ready (handle_wake da n (mkHeader hint MSG_WAKE nonce) payload peer rssi)
    (fun reply g => exists q ts, 0 <= q < 2 ^ 64 - 64 /\ uN 64 ts /\ serving q g /\ gateway_reply (command q ts) nonce reply)).
  unfold handle_wake. eapply (gok_bind _ _ (fun x g => exists q ts cbor, (x = (mkHeader hint MSG_COMMAND nonce, cbor, false) /\
    0 <= q < 2 ^ 64 - 64 /\ uN 64 ts /\ gateway_encode da (command q ts) = Ok cbor /\ len cbor <= MAX_PAYLOAD_SIZE) /\ serving q g)).
  - unfold handle_wake_core. eapply gok_ok; [exact Hdec|]. rewrite Hid. cbn [h_nonce].
    eapply (gok_bind _ _ (fun _ => ready)).
    { apply gok_env. intros g Hg. destruct Hg as [Hn Hp Ht He Hq Hs]. split; try done. by apply (calm_ms _ _ _ HJ). }
    intros ms. eapply gok_bind; [by apply wake_opens|].
    intros [q0 cmd] g (q & [[= -> ->] Hq] & Hg). revert g Hg.
    assert (Hts : uN 64 (wrap 64 (default 0 (since_epoch ms)))) by (apply wrap_range; lia).
    set (ts := wrap 64 _) in *.
    destruct (update_framed C da q ts h (p_size p) DEFAULT_CHUNK_SIZE count) as (cbor & Henc & Hl);
      try done; try (unfold uN, DEFAULT_CHUNK_SIZE in *; lia).
    eapply gok_bind; [apply transfer_opens|]. intros ?. eapply gok_bind; [by apply observed|]. intros ?.
    eapply gok_bind; [apply escrow_kept|]. intros esc. eapply (gok_bind _ _ (fun _ => serving q)).
    { apply gok_mod. intros g Hg. by destruct Hg. }
    intros ?. eapply gok_bind; [apply active_broadcast|]. intros ?. unfold reconcile_wake.
    rewrite Has, bool_decide_false by congruence. cbn [andb]. eapply (gok_bind _ _ (fun _ => serving q)); [by apply gok_ret|].
    intros ?. apply gok_get_bind. intros g Hg. cbn [is_nop]. eapply gok_ok; [exact Henc|].
    eapply (gok_bind _ _ (fun _ => serving q)); [apply gok_ret; by intros g' <-|]. intros ?. apply gok_ret. intros g' Hg'.
    exists q, ts, cbor. rewrite Hh. by rewrite bool_decide_false by (by intros [? ?]).
  - intros [[rh cbor0] d] g (q & ts & cbor & ([= -> -> ->] & Hq & Hts & Henc & Hl) & Hg). revert g Hg. rewrite Hpsk.
    eapply gok_bind; [by apply (response_framed _ (command q ts))|]. intros reply g [Hg Hrep']. eexists _, _.
    split; [reflexivity|]. by exists q, ts.
Qed.
End Serve.
