(* ===== verification/EndToEnd.v ===== *)
(** * A program reaches its node

    The node and the gateway together.  [World] is the node's environment when its
    radio is a working link to a gateway: a frame the node sends goes through
    [process_frame], and the answer, if there is one, is the next frame the node
    receives.  A wake cycle of a registered node whose assigned program it does not
    run yet ends with the program installed and confirmed. *)

From Stdlib Require Import String.
From S2P Require Import Prelude Frame Messages BoardLayout ProgramImage CborCompact.
From S2P Require Import MapStorage AsyncQueue NodeM NodeState NodeRadio NodeStore BpfDispatch WakeCycle NodeLogic WakeProofs.
From S2P Require Import Session GwStore GwState GwEngine GwLogic GwServe.
Open Scope list_scope.
Open Scope Z_scope.

(** ** The link *)

Section World.
Context {Value : Type} `{C : Cbor Value}.
Context `{SH : Sha256Provider} `{AE : AeadProvider}.
Context {S E : Type} `{Storage S} `{RecoveryStore S} `{HG : GwEnv Value E}.
Context (oc da : bool) (peer : list Z) (rssi : option Z).

Record World := mkWorld { w_gw : Gateway S E; inbox : list (list Z); w_clock : Z; w_random : Z }.

(** The gateway takes a frame and answers at once. *)
Definition deliver (w : World) (f : list Z) : World :=
  let '(r, g) := process_frame oc da f peer rssi (w_gw w) in
  mkWorld g (match r with Ok reply => inbox w ++ [reply] | _ => inbox w end) (w_clock w) (w_random w).

(** Flash writes succeed; the pins are idle. *)
Definition world_env : NodeState.Env World := {|
  t_send := fun w f => (Ok tt, deliver w f);
  t_rssi := fun _ => None;
  t_recv := fun w t =>
    match inbox w with
    | [] => (Ok None, mkWorld (w_gw w) [] (w_clock w + Z.max 0 t) (w_random w))
    | f :: fs => (Ok (Some f), mkWorld (w_gw w) fs (w_clock w) (w_random w))
    end;
  elapsed := fun w => (w_clock w, w);
  delay := fun w t => mkWorld (w_gw w) (inbox w) (w_clock w + Z.max 0 t) (w_random w);
  delay_micros := fun w _ => w;
  random := fun w => (w_random w, w);
  rng_healthy := fun w => (true, w);
  active_gpio := fun w => w;
  idle_gpio := fun w => w;
  adc := fun w _ => (0, w);
  gpio_get := fun w _ => (0, w);
  gpio_set := fun w _ _ => (0, w);
  i2c_read := fun w _ k => ((0, replicate (Z.to_nat k) 0), w);
  i2c_write := fun w _ _ => (0, w);
  i2c_write_read := fun w _ _ k => ((0, replicate (Z.to_nat k) 0), w);
  spi_transfer := fun w _ d => ((0, d), w);
  flash_fault := fun w => (None, w);
  program_fault := fun w img => ((Some img, None), w)
|}.
End World.
Arguments World : clear implicits.

Section Update.
Context {Value : Type} `{C : Cbor Value} `{L : !CborLaws C} `{HZ : !CborSize C}.
Context `{SH : Sha256Provider} `{HSH : !Sha256Laws SH} `{AE : AeadProvider} `{HA : !AeadLaws AE}.
Context {S E : Type} `{HL : StorageLaws S} `{HR : !RecoveryStore S} `{HP : !RecoveryLaws S} `{HG : GwEnv Value E}.
Context `{HS : !Reliable S} (J : E -> Prop) (lo hi : Z) (HJ : calm J lo hi).
Context (oc da : bool) (peer : list Z) (rssi : option Z).
Context (id : string) (hint : Z) (key h : list Z) (p : ProgramRecord) (count : Z).
Context (Hhint : uN 16 hint) (Hlen : len h = 32) (Hhash : p_hash p = h) (Hsize : p_size p = len (p_image p)).
Context (Hcount : chunk_count (len (p_image p)) DEFAULT_CHUNK_SIZE = Some count) (Hmax : 0 < len (p_image p) <= 4096).
(** The node's build. *)
Context (W : Z) (noc : bool) (fw : list Z) (board : BoardLayout).
Context (Hfw : len fw <= MAX_STRING_FIELD_LEN) (Hascii : is_ascii fw = true).

#[local] Instance link : NodeState.Env (World S E) := world_env oc da peer rssi.
Abbreviation NodeW := (Node (World S E)).
Abbreviation N := (M NodeW).
Abbreviation nid := (mkIdentity hint key).
Abbreviation serving := (active J lo hi id hint key h p (ChunkedTransfer h (p_size p) DEFAULT_CHUNK_SIZE count false)).
Abbreviation update := (UpdateProgram h (p_size p) DEFAULT_CHUNK_SIZE count).
Abbreviation chunk i := (nth_chunk (p_image p) DEFAULT_CHUNK_SIZE i).

(** Only the radio, the sequence number and the gateway behind the link differ. *)
Record linked (n n' : NodeW) : Prop := {
  lk_nvs : nvs n' = nvs n;
  lk_storage : NodeState.storage n' = NodeState.storage n;
  lk_rtc : rtc n' = rtc n;
  lk_queue : queue n' = queue n;
  lk_sleep : sleep_mgr n' = sleep_mgr n;
  lk_clock : w_clock (env n') = w_clock (env n);
  lk_random : w_random (env n') = w_random (env n)
}.

#[local] Instance linked_order : PreOrder linked.
Proof.
  split; [by intros n; split|]. intros n1 n2 n3 [????? ? ?] [????? ? ?]. split; congruence.
Qed.

(** The gateway of the node is in [P] and nothing is on its way. *)
Definition quiet (P : Gateway S E -> Prop) (n : NodeW) : Prop := P (w_gw (env n)) /\ inbox (env n) = [].

(** *** Steps of the node *)

Lemma run_bind {A B} (m : N A) (k : A -> N B) n a n1 : m n = Some (Ok a, n1) -> (let! x := m in k x) n = k a n1.
Proof using . intros Hm. unfold mbind. by rewrite Hm. Qed.

Lemma run_try {A} (m : N A) n a n1 : m n = Some (Ok a, n1) -> mtry m n = Some (Ok (inr a), n1).
Proof using . intros Hm. unfold mtry. by rewrite Hm. Qed.

(** A frame that is answered: the answer waits. *)
Lemma send_answered f P Q n :
  gok P (process_frame oc da f peer rssi) Q -> quiet P n ->
  exists n' reply, send f n = Some (Ok tt, n') /\ linked n n' /\ current_seq n' = current_seq n /\
    Q reply (w_gw (env n')) /\ inbox (env n') = [reply].
Proof using .
  intros Hg [Hp Hi]. destruct (Hg _ Hp) as (reply & g' & Hrun & Hq). unfold send. simpl. unfold deliver. rewrite Hrun, Hi.
  eexists _, reply. split; [reflexivity|]. by split_and!.
Qed.

(** The answer is received. *)
Lemma recv_reply t n reply :
  inbox (env n) = [reply] ->
  exists n', recv t n = Some (Ok (Some reply), n') /\ linked n n' /\ current_seq n' = current_seq n /\
    w_gw (env n') = w_gw (env n) /\ inbox (env n') = [].
Proof using . intros Hi. unfold recv. simpl. rewrite Hi. eexists. split; [reflexivity|]. by split_and!. Qed.
(** *** WAKE *)

Lemma reply_opens m nonce raw :
  gateway_msg_ok m -> uN 64 nonce -> gateway_reply da hint key m nonce raw ->
  exists payload, decode_verify_frame raw key = Ok (mkHeader hint (gateway_msg_type m) nonce, payload) /\
    gateway_decode (gateway_msg_type m) payload = Ok m.
Proof using Hhint HA L.
  intros Hm Hn (cbor & Henc & Hl & Hf).
  destruct (encode_decode_open SH AE HA (mkHeader hint (gateway_msg_type m) nonce) cbor key) as (raw' & f & H1 & _ & H2 & H3 & H4);
    [|done|].
  { split_and!; [done| |done]. destruct m; split; discriminate || reflexivity. }
  assert (raw' = raw) as -> by congruence. exists cbor. unfold decode_verify_frame. rewrite H2. cbn [map_err res_bind].
  rewrite H4. cbn [map_err res_bind]. rewrite H3. split; [done|]. by eapply gateway_roundtrip.
Qed.

Lemma encode_node_frame m nonce :
  framed (node_encode m) -> uN 64 nonce ->
  exists cbor raw, node_encode m = Ok cbor /\ encode_frame (mkHeader hint (node_msg_type m) nonce) cbor key = Ok raw /\
    node_frame hint key m nonce raw.
Proof using Hhint HA.
  intros (cbor & Henc & Hl) Hn.
  destruct (encode_decode_open SH AE HA (mkHeader hint (node_msg_type m) nonce) cbor key) as (raw & f & H1 & _); [|done|].
  { split_and!; [done| |done]. destruct m; split; discriminate || reflexivity. }
  exists cbor, raw. split_and!; try done. by exists cbor.
Qed.

Section Wake.
Context (nonce mv : Z) (rep : list Z).
Context (Hmv : uN 32 mv) (Hrep : rep <> h) (Hlen_rep : len rep <= 32) (Hnonce : uN 64 nonce).
Context (Hcompat : abi_ok p FIRMWARE_ABI_VERSION = true).

Lemma wake_exchanged n :
  quiet (ready J lo hi id hint key h p nonce) n ->
  exists q ts n', wake_command_exchange fw nid nonce rep mv None n = Some (Ok (q, ts, update, None), n') /\
    linked n n' /\ 0 <= q < 2 ^ 64 - 64 /\ quiet (serving q) n'.
Proof using All.
  intros Hq. unfold wake_command_exchange, wake_message.
  assert (Habi : uN 32 FIRMWARE_ABI_VERSION) by (split; [discriminate|reflexivity]).
  destruct (encode_node_frame (Wake FIRMWARE_ABI_VERSION rep mv fw None) nonce) as (cbor & raw & Henc & Hraw & Hf); [by apply wake_framed|done|].
  rewrite Henc. cbn [map_err lift]. erewrite run_bind by reflexivity. cbn [id_key_hint psk]. cbn [node_msg_type] in Hraw.
  rewrite Hraw. cbn [map_err lift]. erewrite run_bind by reflexivity.
  change (Z.to_nat (MAX_RETRIES + 1)) with 4%nat. cbn [wake_attempts]. change (0 >? 0) with false. cbv iota.
  erewrite run_bind by reflexivity.
  assert (Hserved : gok (ready J lo hi id hint key h p nonce) (process_frame oc da raw peer rssi)
    (fun reply g => exists q ts, 0 <= q < 2 ^ 64 - 64 /\ uN 64 ts /\ serving q g /\
       gateway_reply da hint key (Command q ts update None) nonce reply)) by (eapply (wake_served J lo hi); try exact Hf; assumption).
  destruct (send_answered raw _ _ n Hserved Hq) as (n1 & reply & Hsend & Hl1 & _ & (q & ts & Hqr & Hts & Hserv & Hreply) & Hin).
  rewrite (run_bind _ _ _ _ _ Hsend). destruct (recv_reply RESPONSE_TIMEOUT_MS n1 reply Hin) as (n2 & Hrecv & Hl2 & _ & Hgw & Hin2).
  rewrite (run_bind _ _ _ _ _ Hrecv). unfold verify_and_decode_command.
  destruct (reply_opens (Command q ts update None) nonce reply) as (payload & Hd & Hdec); [|done..|].
  { pose proof (count_bounds p count Hcount Hmax). unfold uN, DEFAULT_CHUNK_SIZE in *. cbn. unfold uN.
    rewrite Hsize. split_and!; try lia. by right. }
  cbn [psk]. rewrite Hd. cbn [res_bind h_msg_type h_nonce gateway_msg_type] in *. rewrite !Z.eqb_refl. cbn [negb]. rewrite Hdec.
  exists q, ts, n2. split; [done|]. split; [by etransitivity|]. split; [lia|]. split; [by rewrite Hgw|done].
Qed.
End Wake.

(** *** Chunks *)

Lemma advance_run (n : NodeW) q : current_seq n = q -> 0 <= q -> q + 1 < 2 ^ 64 -> advance_seq noc n = Some (Ok tt, NodeState.with_seq n (q + 1)).
Proof using .
  intros <- H0 H1. unfold advance_seq. erewrite run_bind by reflexivity. cbn [lift]. rewrite arith_u_in_range by lia.
  by erewrite run_bind by reflexivity.
Qed.

(** The clock leaves room for the deadlines of a wake cycle. *)
Definition timely (n : NodeW) : Prop := 0 <= w_clock (env n) < 2 ^ 64 - 200.

Lemma chunk_heard fuel n q (i : nat) reply :
  inbox (env n) = [reply] -> gateway_reply da hint key (Chunk (Z.of_nat i) (chunk i)) q reply -> uN 64 q -> uN 32 (Z.of_nat i) ->
  timely n ->
  exists n', chunk_loop (Datatypes.S fuel) nid q (Z.of_nat i) (saturating_add 64 (w_clock (env n)) RESPONSE_TIMEOUT_MS) n =
      Some (Ok (Some (chunk i)), n') /\ linked n n' /\ current_seq n' = current_seq n /\ w_gw (env n') = w_gw (env n) /\
      inbox (env n') = [].
Proof using Hhint HA L.
  intros Hin Hreply Hq Hi Ht. cbn [chunk_loop]. erewrite run_bind by reflexivity. cbn [elapsed link world_env]. unfold timely in Ht.
  assert (Hsat : saturating_add 64 (w_clock (env n)) RESPONSE_TIMEOUT_MS = w_clock (env n) + 200)
    by (unfold saturating_add, RESPONSE_TIMEOUT_MS; lia).
  rewrite Hsat, Z.geb_leb, (proj2 (Z.leb_gt _ _)) by lia.
  destruct (recv_reply (as_u32 (w_clock (env n) + 200 - w_clock (env n))) (with_env n (env n)) reply Hin)
    as (n2 & Hrecv & Hl2 & Hs2 & Hgw & Hin2).
  rewrite (run_bind _ _ _ _ _ Hrecv). unfold verify_and_decode_chunk.
  destruct (reply_opens (Chunk (Z.of_nat i) (chunk i)) q reply) as (payload & Hd & Hdec); [done..|].
  cbn [psk]. rewrite Hd. cbn [res_bind h_msg_type h_nonce gateway_msg_type] in *. rewrite !Z.eqb_refl. cbn [negb]. rewrite Hdec.
  cbn [map_err res_bind]. rewrite Z.eqb_refl. cbn [negb]. exists n2. split; [done|].
  split_and!; try done. destruct Hl2. by split.
Qed.

Lemma chunk_received fuel n q (i : nat) :
  quiet (serving q) n -> current_seq n = q -> 0 <= q -> q + 1 < 2 ^ 64 -> Z.of_nat i < count -> timely n ->
  exists n', get_chunk_with_retry noc (Datatypes.S fuel) nid (Z.of_nat i) n = Some (Ok (chunk i), n') /\
    linked n n' /\ quiet (serving (q + 1)) n' /\ current_seq n' = q + 1.
Proof using All.
  intros Hq Hseq H0 H1 Hi Ht. pose proof (count_bounds p count Hcount Hmax) as Hb. assert (Hi32 : uN 32 (Z.of_nat i)) by (split; lia).
  assert (Hqn : uN 64 q) by (split; lia). unfold get_chunk_with_retry.
  destruct (encode_node_frame (GetChunk (Z.of_nat i)) q) as (cbor & raw & Henc & Hraw & Hf); [by apply get_chunk_framed|done|].
  rewrite Henc. cbn [map_err lift]. erewrite run_bind by reflexivity.
  change (Z.to_nat (MAX_RETRIES + 1)) with 4%nat. unfold chunk_attempts. change (0 >? 0) with false. cbv iota.
  erewrite run_bind by reflexivity. erewrite run_bind by reflexivity. rewrite Hseq.
  assert (Hserved : gok (serving q) (process_frame oc da raw peer rssi) (fun reply g => serving (q + 1) g /\
    gateway_reply da hint key (Chunk (Z.of_nat i) (chunk i)) q reply)) by (by eapply chunk_served).
  destruct (send_answered raw _ _ n Hserved Hq) as (n1 & reply & Hsend & Hl1 & Hs1 & [Hserv Hreply] & Hin).
  assert (Hseal : send_sealed noc nid MSG_GET_CHUNK cbor n = Some (Ok tt, NodeState.with_seq n1 (q + 1))).
  { unfold send_sealed. erewrite run_bind by reflexivity. cbn [id_key_hint psk]. cbn [node_msg_type] in Hraw.
    rewrite Hseq, Hraw. cbn [map_err lift]. erewrite run_bind by reflexivity. rewrite (run_bind _ _ _ _ _ Hsend).
    apply advance_run; [congruence|done..]. }
  rewrite (run_bind _ _ _ _ _ Hseal). erewrite run_bind by reflexivity.
  destruct (chunk_heard fuel (NodeState.with_seq n1 (q + 1)) q i reply) as (n2 & Hheard & Hl2 & Hs2 & Hgw & Hin2); try done.
  { unfold timely in *. pose proof (lk_clock _ _ Hl1) as Hc. simpl in *. lia. }
  change (with_env (NodeState.with_seq n1 (q + 1)) (env (NodeState.with_seq n1 (q + 1)))) with (NodeState.with_seq n1 (q + 1)).
  cbn [elapsed link world_env]. rewrite (run_bind _ _ _ _ _ Hheard). exists n2. split; [done|]. split_and!.
  - transitivity n1; [done|]. destruct Hl2. by split.
  - split; [by rewrite Hgw|done].
  - by rewrite Hs2.
Qed.
Lemma chunk_appends (i : nat) : take (i * 128) (p_image p) ++ chunk i = take (Datatypes.S i * 128) (p_image p).
Proof using .
  unfold nth_chunk. change (Z.to_nat DEFAULT_CHUNK_SIZE) with 128%nat. replace (Datatypes.S i * 128)%nat with (i * 128 + 128)%nat by lia.
  by rewrite take_take_drop.
Qed.

(** The loop over the chunks assembles the image. *)
Lemma chunks_fetched fuel k : forall (i : nat) q n,
  (i + k)%nat = Z.to_nat count -> quiet (serving q) n -> current_seq n = q -> 0 <= q -> q + Z.of_nat k < 2 ^ 64 -> timely n ->
  exists n', chunks_loop noc (Datatypes.S fuel) k nid (Z.of_nat i) (p_size p) DEFAULT_CHUNK_SIZE (take (i * 128) (p_image p)) n =
      Some (Ok (p_image p), n') /\ linked n n' /\ quiet (serving (q + Z.of_nat k)) n' /\ current_seq n' = q + Z.of_nat k.
Proof using All.
  pose proof (count_bounds p count Hcount Hmax) as Hb.
  induction k as [|k IH]; intros i q n Hik Hq Hseq H0 Hmaxq Ht.
  - exists n. rewrite Z.add_0_r. split_and!; try done. cbn [chunks_loop]. unfold mret. rewrite take_ge; [done|]. unfold len in *. lia.
  - cbn [chunks_loop]. destruct (chunk_received fuel n q i) as (n1 & Hrecv & Hl1 & Hq1 & Hs1); try done; try lia.
    rewrite (run_bind _ _ _ _ _ Hrecv).
    rewrite Z.gtb_ltb, (proj2 (Z.ltb_ge _ _)) by apply chunk_len.
    rewrite Z.gtb_ltb, (proj2 (Z.ltb_ge _ _)) by (rewrite <- len_app, chunk_appends, Hsize; unfold len; rewrite length_take; lia).
    rewrite chunk_appends. replace (Z.of_nat i + 1) with (Z.of_nat (Datatypes.S i)) by lia.
    destruct (IH (Datatypes.S i) (q + 1) n1) as (n2 & Hloop & Hl2 & Hq2 & Hs2); try done; try lia.
    { unfold timely in *. by rewrite (lk_clock _ _ Hl1). }
    exists n2. split; [exact Hloop|]. replace (q + Z.of_nat (Datatypes.S k)) with (q + 1 + Z.of_nat k) by lia.
    split_and!; [by transitivity n1|done|done].
Qed.

Lemma image_fetched fuel q n :
  quiet (serving q) n -> current_seq n = q -> 0 <= q -> q + count < 2 ^ 64 -> timely n ->
  exists n', chunked_transfer noc (Datatypes.S fuel) nid (p_size p) DEFAULT_CHUNK_SIZE count MAX_RESIDENT_IMAGE_SIZE n =
      Some (Ok (p_image p), n') /\ linked n n' /\ quiet (serving (q + count)) n' /\ current_seq n' = q + count.
Proof using All.
  intros Hq Hseq H0 Hmaxq Ht. pose proof (count_bounds p count Hcount Hmax) as Hb. unfold chunked_transfer, MAX_RESIDENT_IMAGE_SIZE.
  rewrite Z.gtb_ltb, (proj2 (Z.ltb_ge _ _)) by lia. change (DEFAULT_CHUNK_SIZE =? 0) with false. cbv iota.
  rewrite bool_decide_true by (by rewrite Hsize). cbn [negb].
  destruct (chunks_fetched fuel (Z.to_nat count) 0 q n) as (n' & Hloop & Hl & Hq' & Hs); try done; try lia.
  cbn [Nat.mul Z.of_nat] in Hloop. rewrite take_0 in Hloop.
  rewrite (run_bind _ _ _ _ _ Hloop), (proj2 (Z.eqb_eq _ _)) by done. cbn [negb]. rewrite Z2Nat.id in * by lia.
  exists n'. by split_and!.
Qed.
(** *** Installation and acknowledgement *)

Context (image : ProgramImage) (Himage : image_decode (p_image p) = Ok image) (Hdigest : hash (p_image p) = h).
Context (Hmaps : validate_map_defs W (ProgramImage.maps image) = Ok tt).

(** Storage with the image active. *)
Definition installed_nvs (s : Nvs) : Nvs :=
  let inactive := 1 - active_partition s in
  nvs_schedule (nvs_programs s (<[Z.to_nat inactive := Some (p_image p)]> (programs s))) (interval s) inactive.

Lemma installed_active s : partitions_ok s -> active_partition s <= 1 -> active_image (installed_nvs s) = Some (p_image p).
Proof using .
  intros [Hl Ha] Hle. unfold uN in Ha. unfold installed_nvs, active_image. cbn [active_partition nvs_schedule nvs_programs programs].
  rewrite Z.gtb_ltb, (proj2 (Z.ltb_ge _ _)) by lia. rewrite list_lookup_insert_eq; [done|]. rewrite Hl. lia.
Qed.

Lemma image_installed budget n :
  partitions_ok (nvs n) -> active_partition (nvs n) <= 1 -> required_bytes W (ProgramImage.maps image) <= budget ->
  install_resident W (p_image p) h budget n = Some (Ok (of_image image h false), with_nvs n (installed_nvs (nvs n))).
Proof using Himage Hdigest Hmaps.
  intros [Hl Ha] Hle Hb. unfold uN in Ha. unfold install_resident. rewrite Hdigest, bool_decide_true by done. cbn [negb].
  unfold image_result. rewrite Himage. cbn [map_err lift]. erewrite run_bind by reflexivity. rewrite Hmaps.
  erewrite run_bind by reflexivity. rewrite Z.gtb_ltb, (proj2 (Z.ltb_ge _ _)) by lia.
  erewrite run_bind by reflexivity. cbv beta iota zeta. rewrite Z.gtb_ltb, (proj2 (Z.ltb_ge _ _)) by lia.
  erewrite run_bind by reflexivity. erewrite run_bind.
  2: { unfold read_program. erewrite run_bind by reflexivity. cbn. rewrite list_lookup_insert_eq; [reflexivity|]. rewrite Hl. lia. }
  cbn [ok_or lift default]. erewrite run_bind by reflexivity. rewrite Hdigest, bool_decide_true by done. cbn [negb].
  erewrite run_bind by reflexivity. reflexivity.
Qed.

Lemma ack_sent q n :
  quiet (serving q) n -> current_seq n = q -> 0 <= q -> q + 1 < 2 ^ 64 ->
  exists n', send_program_ack noc nid h n = Some (Ok tt, n') /\ linked n n' /\ confirmed id key h (w_gw (env n')).
Proof using HZ HJ HA L HS Hhint Hlen.
  intros [Hserv Hin] Hseq H0 Hq. unfold send_program_ack.
  destruct (encode_node_frame (ProgramAck h) q) as (cbor & raw & Henc & Hraw & Hf); [apply ack_framed; [done|lia]|split; lia|].
  rewrite Henc. cbn [map_err lift]. erewrite run_bind by reflexivity. unfold send_sealed. erewrite run_bind by reflexivity.
  cbn [id_key_hint psk]. cbn [node_msg_type] in Hraw. rewrite Hseq, Hraw. cbn [map_err lift]. erewrite run_bind by reflexivity.
  destruct (ack_served J lo hi HJ oc da peer rssi id hint key h p count Hhint q raw (w_gw (env n)) H0 Hq Hf Hserv) as (g' & Hrun & Hconf).
  assert (Hsend : send raw n = Some (Ok tt, with_radio n (mkWorld g' [] (w_clock (env n)) (w_random (env n))) (Sent raw)))
    by (unfold send; simpl; unfold deliver; by rewrite Hrun, Hin).
  rewrite (run_bind _ _ _ _ _ Hsend), (advance_run _ q) by done. eexists. split; [reflexivity|]. split; [by split|done].
Qed.

(** Transfer, installation and acknowledgement. *)
Lemma program_delivered fuel q n :
  quiet (serving q) n -> current_seq n = q -> 0 <= q < 2 ^ 64 - 64 -> timely n ->
  partitions_ok (nvs n) -> active_partition (nvs n) <= 1 ->
  required_bytes W (ProgramImage.maps image) <= budget_bytes (NodeState.storage n) ->
  exists n', new_program W noc board (Datatypes.S fuel) nid false h (p_size p) DEFAULT_CHUNK_SIZE count n =
      Some (Ok (inr (of_image image h false)), n') /\
    nvs n' = installed_nvs (nvs n) /\ confirmed id key h (w_gw (env n')).
Proof using All.
  intros Hq Hseq Hqr Ht Hpart Ha Hb. pose proof (count_bounds p count Hcount Hmax) as Hbd. unfold new_program.
  erewrite run_bind by reflexivity. set (n0 := with_queue n _).
  destruct (image_fetched fuel q n0) as (n1 & Hfetch & Hl1 & Hq1 & Hs1); try done; try lia.
  rewrite (run_bind _ _ _ _ _ (run_try _ _ _ _ Hfetch)). erewrite run_bind by reflexivity.
  assert (Hinst : install_resident W (p_image p) h (budget_bytes (NodeState.storage n1)) n1 =
    Some (Ok (of_image image h false), with_nvs n1 (installed_nvs (nvs n1)))).
  { apply image_installed; rewrite ?(lk_nvs _ _ Hl1), ?(lk_storage _ _ Hl1); done. }
  rewrite (run_bind _ _ _ _ _ (run_try _ _ _ _ Hinst)). cbn [lp_hash of_image].
  destruct (ack_sent (q + count) (with_nvs n1 (installed_nvs (nvs n1)))) as (n2 & Hack & Hl2 & Hconf); try done; try lia.
  rewrite (run_bind _ _ _ _ _ (run_try _ _ _ _ Hack)). erewrite run_bind by reflexivity. eexists. split; [reflexivity|].
  split; [|done]. cbn. rewrite (lk_nvs _ _ Hl2). cbn. by rewrite (lk_nvs _ _ Hl1).
Qed.
(** *** The cycle *)

(** What the node reports in WAKE. *)
Definition reported (s : Nvs) : list Z := match active_image s with Some b => hash b | None => [] end.

Lemma reported_len s : len (reported s) <= 32.
Proof using HSH. unfold reported. case_match; [by rewrite hash_len|done]. Qed.

Lemma active_loaded (n : NodeW) : load_active_raw n = Some (Ok (reported (nvs n), active_image (nvs n)), n).
Proof using .
  unfold load_active_raw, reported, active_image. erewrite run_bind by reflexivity. cbv beta iota zeta.
  destruct (active_partition (nvs n) >? 1); [done|]. erewrite run_bind by reflexivity. by case_match.
Qed.

(** A paired and registered node, with no message to send along, that runs another
    program; its gateway is ready to hand the assigned one out. *)
Record waking (n : NodeW) : Prop := {
  wk_key : NodeState.key (nvs n) = Some (hint, key);
  wk_reg : reg_complete (nvs n) = true;
  wk_part : partitions_ok (nvs n);
  wk_active : active_partition (nvs n) <= 1;
  wk_battery : uN 32 (default 0 (NodeState.last_battery_mv (nvs n)));
  wk_queue : single_for_piggyback (queue n) MAX_PAYLOAD_SIZE = Ok None;
  wk_reported : reported (nvs n) <> h;
  wk_budget : required_bytes W (ProgramImage.maps image) <= budget_bytes (NodeState.storage n);
  wk_nonce : uN 64 (w_random (env n));
  wk_clock : timely n;
  wk_gateway : quiet (ready J lo hi id hint key h p (w_random (env n))) n
}.

(** The exchange ends with the command; the rest of storage is as before. *)
Lemma exchange_done (n : NodeW) rep mv :
  uN 32 mv -> rep <> h -> len rep <= 32 -> uN 64 (w_random (env n)) -> abi_ok p FIRMWARE_ABI_VERSION = true ->
  quiet (ready J lo hi id hint key h p (w_random (env n))) n ->
  exists q ts n', exchange fw nid (w_random (env n)) rep mv None n = Some (Ok (inr (q, ts, update, None)), n') /\
    other_nvs (nvs n) (nvs n') /\ NodeState.storage n' = NodeState.storage n /\ w_clock (env n') = w_clock (env n) /\
    0 <= q < 2 ^ 64 - 64 /\ quiet (serving q) n'.
Proof using All.
  intros Hmv Hrep Hlr Hnonce Hcompat Hq.
  destruct (wake_exchanged (w_random (env n)) mv rep Hmv Hrep Hlr Hnonce Hcompat n Hq) as (q & ts & n1 & Hex & Hl & Hqr & Hq1).
  unfold exchange. rewrite (run_bind _ _ _ _ _ (run_try _ _ _ _ Hex)).
  erewrite run_bind by (unfold has_peer_payload, read_peer_payload, nvs_get, mbind, mget, mret; reflexivity).
  case_bool_decide; (erewrite run_bind by reflexivity); (erewrite run_bind by reflexivity);
    eexists q, ts, _; (split; [reflexivity|]); destruct Hl as [Hn Hs _ _ _ Hc _]; cbn; rewrite ?Hn;
    split_and!; first [done | lia].
Qed.

Lemma registration_skipped fuel (n : NodeW) : reg_complete (nvs n) = true -> registration fuel nid n = Some (Ok (inr tt), n).
Proof using . intros Hr. unfold registration, read_reg_complete, nvs_get, mbind, mget, mret. by rewrite Hr. Qed.

Lemma no_blob rep mv (n : NodeW) :
  single_for_piggyback (queue n) MAX_PAYLOAD_SIZE = Ok None -> wake_blob fw rep mv n = Some (Ok None, with_queue n (queue n)).
Proof using . intros Hq. unfold wake_blob, queue_op, mbind. by rewrite Hq. Qed.

Lemma command_received fuel n :
  waking n -> abi_ok p FIRMWARE_ABI_VERSION = true ->
  exists q ts n', before_command fw fuel nid n = Some (Ok (inr (reported (nvs n), active_image (nvs n), (q, ts, update, None))), n') /\
    other_nvs (nvs n) (nvs n') /\ NodeState.storage n' = NodeState.storage n /\ w_clock (env n') = w_clock (env n) /\
    0 <= q < 2 ^ 64 - 64 /\ quiet (serving q) n'.
Proof using All.
  intros [Hk Hr Hp Ha Hb Hbl Hrep Hbu Hno Hc Hg] Hcompat. unfold before_command. erewrite run_bind by reflexivity. cbv beta iota zeta.
  cbn [negb]. erewrite run_bind by reflexivity. erewrite run_bind by reflexivity. cbv beta iota zeta. erewrite run_bind by reflexivity.
  match goal with |- context [contact_gateway fw fuel nid ?x] => set (n0 := x) end.
  assert (Hact : active_image (nvs n0) = active_image (nvs n)) by reflexivity.
  assert (Hrp : reported (nvs n0) = reported (nvs n)) by reflexivity.
  unfold contact_gateway. rewrite (run_bind _ _ _ _ _ (registration_skipped fuel n0 Hr)).
  rewrite (run_bind _ _ _ _ _ (active_loaded n0)). erewrite run_bind by reflexivity. cbv beta iota zeta.
  erewrite run_bind by reflexivity. cbv beta iota zeta. erewrite run_bind by (by apply no_blob).
  match goal with |- context [exchange fw nid ?a ?b ?c None] => set (mv := c); change a with (w_random (env n)) end.
  match goal with |- context [mbind _ _ ?x] => set (n1 := x) end.
  destruct (exchange_done n1 (reported (nvs n)) mv) as (q & ts & n2 & Hex & Ho & Hs & Hck & Hqr & Hq2); try done.
  { apply reported_len. }
  rewrite (run_bind _ _ _ _ _ Hex), Hact. exists q, ts, n2. split; [reflexivity|].
  split_and!; first [done | lia].
Qed.
Context {I : Type} `{HI : BpfInterpreter I} (base : Z) (blob_addr : list Z -> Z).

(** What runs after the dispatch leaves the active program alone. *)
Lemma tail_keeps_program fuel h0 res q ts loaded (i : I) (n n1 : NodeW) r n' :
  after_command W noc base blob_addr board fuel nid h0 res (q, ts, update, None) i n = Some (r, n') ->
  dispatch W noc board fuel nid update (NodeState.with_seq n q) = Some (Ok (inr (Some loaded, false)), n1) ->
  partitions_ok (nvs n1) -> active_image (nvs n') = active_image (nvs n1).
Proof using .
  intros Hrun Hd Hp. unfold after_command in Hrun. erewrite run_bind in Hrun by reflexivity.
  erewrite run_bind in Hrun by reflexivity. cbn [elapsed link world_env] in Hrun. erewrite run_bind in Hrun by exact Hd.
  cbv beta iota zeta in Hrun. match type of Hrun with ?m n1 = _ => assert (Hm : obeys (program_logic (fun _ => False)) m) end.
  { apply (r_execute W noc base blob_addr board fuel nid (program_logic (fun _ => False)) (fun _ _ => True) (fun _ => False) (Some loaded)). }
  specialize (Hm n1 Hp). rewrite Hrun in Hm. destruct Hm as [(_ & _ & [Ha|(w & _ & [])]) _]. exact Ha.
Qed.
(** C2: an assigned program reaches its node, over a link that loses nothing.  A paired
    and registered node that runs another program than the one assigned wakes, with no
    blob of its own to send along.  Every frame arrives and is answered, no flash write
    fails and storage answers; no one-shot program is queued for the node, no other node
    has its key hint, the firmware supports the program's ABI, the image is at most
    4096 bytes and its maps are valid and fit the node's memory, and the clocks stay
    within the session timeout.  Then the node's wake cycle receives UPDATE_PROGRAM for
    the assigned program, fetches every chunk, installs exactly the image the gateway's
    library holds and acknowledges it, and the gateway's record confirms the program and
    leaves the transfer; and when the cycle returns, that image is active. *)
Theorem assigned_program_delivered fuel (i : I) n :
  waking n -> abi_ok p FIRMWARE_ABI_VERSION = true ->
  exists q ts n1 n2,
    before_command fw (Datatypes.S fuel) nid n =
      Some (Ok (inr (reported (nvs n), active_image (nvs n), (q, ts, update, None))), n1) /\
    dispatch W noc board (Datatypes.S fuel) nid update (NodeState.with_seq n1 q) =
      Some (Ok (inr (Some (of_image image h false), false)), n2) /\
    active_image (nvs n2) = Some (p_image p) /\ confirmed id key h (w_gw (env n2)) /\
    forall r n', run_wake_cycle W noc base blob_addr fw board (Datatypes.S fuel) i n = Some (r, n') ->
      active_image (nvs n') = Some (p_image p).
Proof using All.
  intros Hw Hcompat. destruct (command_received (Datatypes.S fuel) n Hw Hcompat) as (q & ts & n1 & Hbefore & (Ho1 & Ho2 & _) & Hst & Hck & Hqr & Hq1).
  destruct Hw as [Hk _ Hp Ha _ _ _ Hbu _ Hc _].
  assert (Hp1 : partitions_ok (nvs n1)) by (unfold partitions_ok in *; by rewrite Ho1, Ho2).
  assert (Ha1 : active_partition (nvs n1) <= 1) by (by rewrite Ho2).
  destruct (program_delivered fuel q (NodeState.with_seq n1 q)) as (n2 & Hnew & Hnvs & Hconf); try done.
  { unfold timely in *. cbn. by rewrite Hck. }
  { cbn. by rewrite Hst. }
  assert (Hd : dispatch W noc board (Datatypes.S fuel) nid update (NodeState.with_seq n1 q) =
    Some (Ok (inr (Some (of_image image h false), false)), n2)) by (unfold dispatch; by rewrite (run_bind _ _ _ _ _ Hnew)).
  assert (Hact : active_image (nvs n2) = Some (p_image p)) by (rewrite Hnvs; by apply installed_active).
  exists q, ts, n1, n2. split_and!; try done. intros r n' Hrun. unfold run_wake_cycle in Hrun.
  erewrite run_bind in Hrun by reflexivity. rewrite Hk in Hrun. rewrite (run_bind _ _ _ _ _ Hbefore) in Hrun. cbv beta iota zeta in Hrun.
  rewrite <- Hact. eapply tail_keeps_program; [exact Hrun|exact Hd|]. rewrite Hnvs. destruct Hp1 as [Hl Hu].
  split; [cbn; by rewrite length_insert|]. cbn. unfold uN in *. lia.
Qed.
End Update.
