(* ===== verification/GwDemo.v ===== *)
(** * A gateway in operation

    Concrete instances of the interfaces of the engine - storage in memory with a
    table of recovered keys, a fixed clock, sealing whose tag depends on the key -
    and the theorems about [process_frame] applied to frames of a phone, of a
    registered node and of a stranger. *)

From Stdlib Require Import String.
From S2P Require Import Prelude Frame Messages BoardLayout ProgramImage CborModel CborCompact.
From S2P Require Import MapStorage AsyncQueue NodeM NodeState NodeRadio NodeStore BpfDispatch WakeCycle BpfExec BpfAdapter NodeDemo.
From S2P Require Import Session GwStore GwState GwEngine GwLogic GwRegistry GwReplies GwCommands GwServe EndToEnd.
Open Scope list_scope.
Open Scope Z_scope.

(** ** Instances *)

(** The tag is made of the key. *)
Definition key_tag (k : list Z) : list Z := take 16 (k ++ replicate 16 0).

Definition keyed_aead : AeadProvider := {|
  seal := fun k _ _ pt => pt ++ key_tag k;
  open := fun k _ _ ct =>
    if bool_decide (drop (length ct - 16) ct = key_tag k) then Some (take (length ct - 16) ct) else None
|}.

Lemma key_tag_len k : length (key_tag k) = 16%nat.
Proof. unfold key_tag. rewrite length_take, length_app, length_replicate. lia. Qed.

#[export] Instance keyed_aead_laws : AeadLaws keyed_aead.
Proof.
  split; intros; simpl.
  - rewrite len_app. f_equal. unfold len. by rewrite key_tag_len.
  - rewrite length_app, key_tag_len, Nat.add_sub, drop_app_length, take_app_length. by rewrite bool_decide_true.
Qed.

#[local] Existing Instance compact_cbor | 0.
#[local] Existing Instance sum_sha | 0.
#[local] Existing Instance keyed_aead | 0.

(** A gateway host: milliseconds since the epoch, and one random number. *)
Record Host := mkHost { h_ms : Z; h_random : Z }.

#[local] Instance host_env : GwEnv CValue Host := {|
  unix_ms := fun e => (h_ms e, e);
  instant := fun e => (h_ms e, e);
  fill_random := fun e => (Some (h_random e), e);
  execute_decoder := fun e _ _ => (None, e);
  handler_send := fun e _ _ => (None, e);
  handler_event := fun e _ _ => e
|}.

(** One recovered key, escrowed in the clear. *)
Definition lost_psk : list Z := replicate 32 5.
Definition lost_node : PendingRecovery := mkPending 0x5555 "lost" lost_psk [1].

#[local] Instance demo_recovery : RecoveryStore InMemoryStorage := {|
  lookup_pending_recovery := fun h k limit s =>
    (inr (take (Z.to_nat limit) (if (h =? 0x5555) && bool_decide (k = [1]) then [lost_node] else [])), s);
  delete_pending_recovery := fun _ _ s => (inr tt, s);
  init_master_key_id := fun s => (inr [1], s);
  decrypt_psk := fun _ _ b => Some b;
  get_node_escrow := fun _ s => (inr None, s)
|}.

#[local] Instance demo_recovery_laws : RecoveryLaws InMemoryStorage.
Proof.
  refine {| pending_of := fun _ => [lost_node] |}; try done.
  intros h k limit s. simpl. split; [done|]. split; [done|].
  destruct ((h =? 0x5555) && bool_decide (k = [1])) eqn:Hb.
  - apply andb_prop in Hb as [Hh%Z.eqb_eq Hk%bool_decide_eq_true].
    split; [unfold len; rewrite length_take; simpl; lia|].
    intros r Hr%elem_of_take. destruct Hr as (i & Hi & _). destruct i; simplify_eq/=. split_and!; [by constructor|done..].
  - rewrite take_nil. split; [unfold len; simpl; lia|]. by intros r ?%elem_of_nil.
Defined.

(** ** A gateway with a phone and a node *)

Definition phone_key : list Z := replicate 32 3.
Definition demo_phone : PhonePskRecord := mkPhone 7 0x1111 phone_key [] 0 Active 0.
Definition node_key : list Z := replicate 32 4.
Definition demo_record : NodeRecord :=
  mkNodeRecord "n1" 0x2222 node_key (Some (hash new_image)) None None 60 None None None [] None 0.
Definition demo_library : ProgramRecord :=
  mkProgram (hash new_image) new_image (len new_image) ResidentProfile None None None.

Definition demo_storage : InMemoryStorage :=
  mkMem {[ "n1"%string := demo_record ]} {[ hash new_image := demo_library ]} [demo_phone] 8 ∅ [].

Definition demo_gateway : Gateway InMemoryStorage Host :=
  mkGateway demo_storage (mkHost 100000000 1000) (manager_new 30) ∅ [] ∅ tracker_new false true (Some [1]) [] [].

Definition frame_of (hint ty nonce : Z) (cbor psk : list Z) : list Z :=
  match encode_frame (mkHeader hint ty nonce) cbor psk with Ok f => f | _ => [] end.

(** The phone registers node "b". *)
Definition new_key : list Z := replicate 32 6.
Definition new_hint : Z := key_hint_from_psk new_key.
Definition pairing_request : list Z := cbor_write (CMap
  [(CInt 1, CText [98]); (CInt 2, CInt new_hint); (CInt 3, CBytes new_key); (CInt 4, CInt 6); (CInt 6, CInt 100000)]).
Definition peer_frame : list Z := frame_of 0x1111 MSG_PEER_REQUEST 77
  (cbor_write (CMap [(CInt 1, CBytes (replicate 12 0 ++ seal phone_key (replicate 12 0) PAIRING_AAD pairing_request))])) phone_key.

(** The WAKE of a node. *)
Definition wake_frame (hint : Z) (psk : list Z) : list Z :=
  match node_encode (Wake 1 [] 3300 [49] None) with Ok cbor => frame_of hint MSG_WAKE 42 cbor psk | _ => [] end.

Abbreviation run raw := (process_frame false false raw [1; 2; 3; 4; 5; 6] (Some (-40)) demo_gateway).

Definition is_okb {X A} (r : Res X A) : bool := match r with Ok _ => true | _ => false end.

Lemma demo_keyed : keyed (gview demo_gateway).
Proof.
  intros id n. unfold gview. simpl. rewrite lookup_singleton_Some. by intros [<- <-].
Qed.

(** What the runs below do. *)
Lemma frames_decode : is_okb (decode_frame peer_frame) && is_okb (decode_frame (wake_frame 0x2222 phone_key)) = true.
Proof. by vm_compute. Qed.

Lemma wake_answered : is_okb (run (wake_frame 0x2222 node_key)).1 = true.
Proof. by vm_compute. Qed.

Lemma phone_registers : nr_psk <$> m_nodes (g_storage (run peer_frame).2) !! "b"%string = Some new_key.
Proof. by vm_compute. Qed.

Lemma lost_returns : nr_psk <$> m_nodes (g_storage (run (wake_frame 0x5555 lost_psk)).2) !! "lost"%string = Some lost_psk.
Proof. by vm_compute. Qed.

(** The stranger's frame opens under neither key the gateway holds for its hint. *)
Lemma stranger_fails :
  match decode_frame (wake_frame 0x2222 phone_key) with
  | Ok f => bool_decide (key_hint (header f) = 0x2222) && negb (is_okb (open_frame f node_key))
  | _ => false
  end = true.
Proof. by vm_compute. Qed.

(** A node is registered by a phone; a lost node comes back with its first WAKE. *)
Lemma registry_changes_authorised_witness :
  (exists f, decode_frame peer_frame = Ok f /\ relations.rtc (authorised demo_gateway f) (gview demo_gateway) (gview (run peer_frame).2)) /\
  nr_psk <$> m_nodes (g_storage (run peer_frame).2) !! "b"%string = Some new_key /\
  nr_psk <$> m_nodes (g_storage (run (wake_frame 0x5555 lost_psk)).2) !! "lost"%string = Some lost_psk.
Proof.
  split; [|split; [exact phone_registers|exact lost_returns]].
  destruct (registry_changes_authorised false false demo_gateway peer_frame [1; 2; 3; 4; 5; 6] (Some (-40)) demo_keyed) as [_ Ha].
  pose proof frames_decode as Hd. destruct (decode_frame peer_frame) as [f| | |]; [|discriminate Hd..]. by exists f.
Defined.


(** A stranger that guesses a key hint. *)
Lemma unopened_frame_ignored_witness :
  let '(r, g') := run (wake_frame 0x2222 phone_key) in r = Err tt /\ untouched demo_gateway g'.
Proof.
  pose proof stranger_fails as Hs. destruct (decode_frame (wake_frame 0x2222 phone_key)) as [f| | |] eqn:Hf; [|discriminate Hs..].
  apply andb_prop in Hs as [Hh%bool_decide_eq_true Ho].
  apply (unopened_frame_ignored false false demo_gateway (wake_frame 0x2222 phone_key) f); [exact Hf|].
  unfold unopened. rewrite Hh. split_and!.
  - intros p pt ->%list_elem_of_singleton _ H. discriminate H.
  - intros id n pt Hn. unfold gview in Hn. simpl in Hn. apply lookup_singleton_Some in Hn as [<- <-]. intros _ Ho'.
    change (nr_psk demo_record) with node_key in Ho'. by rewrite Ho' in Ho.
  - intros r psk pt ->%list_elem_of_singleton H. discriminate H.
Defined.

(** ** Queued commands *)

Definition with_queue_of (l : list PendingCommand) (n : NodeRecord) : Gateway InMemoryStorage Host :=
  mkGateway (mkMem {[ "n1"%string := n ]} {[ hash new_image := demo_library ]} [demo_phone] 8 ∅ [])
    (mkHost 100000000 1000) (manager_new 30) {[ "n1"%string := l ]} [] ∅ tracker_new false true (Some [1]) [] [].

(** A node that runs the old program; the new one is in the library. *)
Definition idle_record (assigned : option (list Z)) : NodeRecord :=
  mkNodeRecord "n1" 0x2222 node_key assigned (Some (hash old_image)) None 60 None None None [] None 0.

Definition demo_queue : list PendingCommand := [PReboot; PUpdateSchedule 300; PRunEphemeral (hash new_image)].

Lemma demo_library_ok l n : library_ok (gview (with_queue_of l n)).
Proof. intros k x. unfold gview. simpl. rewrite lookup_singleton_Some. by intros [<- <-]. Qed.

Lemma command_selection_sound_witness :
  exists cmd g', select_command (idle_record None) (hash old_image) 2 (with_queue_of demo_queue (idle_record None)) = (Ok cmd, g') /\
    selected (idle_record None) (hash old_image) 2 (with_queue_of demo_queue (idle_record None)) cmd g'.
Proof.
  exact (command_selection_sound (idle_record None) (hash old_image) 2 (with_queue_of demo_queue (idle_record None))
    (demo_library_ok demo_queue (idle_record None))).
Defined.

(** The answers to a list of frames, and the final state. *)
Fixpoint run_frames (frames : list (list Z)) (g : Gateway InMemoryStorage Host) : list (option (list Z)) * Gateway InMemoryStorage Host :=
  match frames with
  | [] => ([], g)
  | f :: frames' =>
      let '(r, g1) := process_frame false false f [1; 2; 3; 4; 5; 6] (Some (-40)) g in
      let '(rs, g2) := run_frames frames' g1 in ((match r with Ok x => Some x | _ => None end) :: rs, g2)
  end.

(** The message in an answer. *)
Definition answer (r : option (list Z)) : option GatewayMessage :=
  match r with
  | Some raw =>
      match decode_verify_frame raw node_key with
      | Ok (hd, payload) => match gateway_decode (h_msg_type hd) payload with Ok m => Some m | _ => None end
      | _ => None
      end
  | None => None
  end.

Definition from_n1 (m : NodeMessage) (nonce : Z) : list Z :=
  match node_encode m with Ok cbor => frame_of 0x2222 (node_msg_type m) nonce cbor node_key | _ => [] end.
Definition wake_of (image : list Z) (nonce : Z) : list Z := from_n1 (Wake 2 (hash image) 3300 [49] None) nonce.

Definition payload_of (m : option GatewayMessage) : option CommandPayload :=
  match m with Some (Command _ _ cmd _) => Some cmd | _ => None end.

(** A COMMAND that is lost on the air.  The node repeats its WAKE; a program
    transfer is offered again under the same session, but a schedule change has
    left the queue with the first, unreceived answer: the retry is told to do
    nothing, and so is every later WAKE. *)
Lemma lost_command_not_repeated :
  let update := run_frames [wake_of old_image 42; wake_of old_image 42] (with_queue_of [] (idle_record (Some (hash new_image)))) in
  let schedule := run_frames [wake_of old_image 42; wake_of old_image 42; wake_of old_image 43]
    (with_queue_of [PUpdateSchedule 300] (idle_record None)) in
  map (fun r => payload_of (answer r)) update.1 =
    [Some (UpdateProgram (hash new_image) (len new_image) 128 1); Some (UpdateProgram (hash new_image) (len new_image) 128 1)] /\
  map (fun r => payload_of (answer r)) schedule.1 = [Some (UpdateSchedule 300); Some Nop; Some Nop] /\
  queue_of schedule.2 "n1" = [].
Proof. vm_compute. auto. Qed.

(** The program to which the last reading is attributed. *)
Definition last_app_data (g : Gateway InMemoryStorage Host) : option (list Z * list Z) :=
  foldl (fun acc e => match e with EAppData _ h d _ _ _ => Some (h, d) | _ => acc end) None (g_emitted g).

(** A one-shot program runs; in the next cycle the resident program sends a reading. *)
Definition one_shot_then_reading : list (list Z) :=
  [wake_of old_image 42; from_n1 (GetChunk 0) 1000; from_n1 (ProgramAck (hash new_image)) 1001;
   wake_of old_image 43; from_n1 (AppData [7]) 1000].

(** The acknowledgement of a one-shot program is recorded as the node's current
    program.  When no program is assigned, the node's resident program is from then
    on mistaken for the one-shot program: the reading it sends in the next cycle is
    attributed to, and routed by, the wrong program.  With the resident program
    assigned, the next WAKE restores the record. *)
Lemma ephemeral_ack_misattributes :
  last_app_data (run_frames one_shot_then_reading (with_queue_of [PRunEphemeral (hash new_image)] (idle_record None))).2 =
    Some (hash new_image, [7]) /\
  last_app_data (run_frames one_shot_then_reading
    (with_queue_of [PRunEphemeral (hash new_image)] (idle_record (Some (hash old_image))))).2 = Some (hash old_image, [7]) /\
  hash new_image <> hash old_image.
Proof. split_and!; [by vm_compute..|]. vm_compute. discriminate. Qed.

(** ** An update over the air *)

#[local] Instance sum_sha_laws : Sha256Laws sum_sha.
Proof.
  split; intros data; unfold hash, sum_sha.
  - by rewrite len_app.
  - apply Forall_app. split; [by apply Forall_replicate|]. constructor; [|constructor]. apply Z.mod_pos_bound. lia.
Qed.

#[local] Instance mem_reliable : Reliable InMemoryStorage.
Proof. split; intros; [by eexists|by eexists|done]. Qed.

Definition host : Host := mkHost 100000000 1000.

Lemma host_calm : calm (fun e => e = host) 100000000 100000000.
Proof. split; intros e; try (intros i m); intros ->; try done; split; try done; [by lia..|]. exists 1000. split; [done|lia]. Qed.

#[local] Existing Instance demo_interp.

Definition update_node : Node (World InMemoryStorage Host) :=
  mkNode (mkNvs (Some (0x2222, node_key)) 60 0 [Some old_image; None] false (Some 6) None true (Some 3300) None None None)
    (mkWorld demo_gateway [] 0 42) (table demo_base MAP_BUDGET one_map) demo_rtc
    (AsyncQueue.mkLayout QUEUE_MAGIC 0 (items layout_zero)) (sleep_new 60 Scheduled) 0 [] [].

Definition new_count : Z := default 0 (chunk_count (len new_image) DEFAULT_CHUNK_SIZE).

Lemma update_facts :
  bool_decide (len (hash new_image) = 32) && bool_decide (chunk_count (len new_image) DEFAULT_CHUNK_SIZE = Some new_count) &&
  (0 <? len new_image) && (len new_image <=? 4096) && bool_decide (reported (nvs update_node) <> hash new_image) &&
  (required_bytes 32 one_map <=? MAP_BUDGET) = true.
Proof. by vm_compute. Qed.

Lemma new_image_decodes : image_decode new_image = Ok (demo_program 2 [2; 2; 2; 2]).
Proof. by vm_compute. Qed.

Lemma demo_registered : registered "n1" 0x2222 node_key (hash new_image) (gview demo_gateway) demo_record.
Proof. split; try done. intros j m. unfold gview. simpl. rewrite lookup_singleton_Some. by intros [<- _]. Qed.

Lemma demo_waking :
  waking (fun e => e = host) 100000000 100000000 "n1" 0x2222 node_key (hash new_image) demo_library 32
    (demo_program 2 [2; 2; 2; 2]) update_node.
Proof.
  pose proof update_facts as Hf. repeat (apply andb_prop in Hf as [Hf ?]).
  assert (Hu : forall w x, 0 <= x -> (x <? 2 ^ w) = true -> uN w x) by (intros w x ? ?%Z.ltb_lt; by split).
  split.
  - reflexivity.
  - reflexivity.
  - split; [reflexivity|by apply Hu].
  - by apply Z.leb_le.
  - by apply Hu.
  - by vm_compute.
  - by apply bool_decide_eq_true in H0.
  - by apply Z.leb_le.
  - by apply Hu.
  - split; [by apply Z.leb_le|by apply Z.ltb_lt].
  - split; [|reflexivity]. split; [| |by apply Z.leb_le|reflexivity..].
    + exists demo_record. apply demo_registered.
    + exact (lookup_singleton_eq (hash new_image) demo_library).
Qed.

#[local] Instance demo_link : NodeState.Env (World InMemoryStorage Host) := world_env false false [1; 2; 3; 4; 5; 6] (Some (-40)).
Definition update_command : CommandPayload := UpdateProgram (hash new_image) (len new_image) DEFAULT_CHUNK_SIZE new_count.

(** The whole cycle installs the program of the gateway's library. *)
Lemma assigned_program_delivered_witness :
  exists q ts (n1 n2 : Node (World InMemoryStorage Host)),
    before_command [48; 46; 49] 20 (mkIdentity 0x2222 node_key) update_node =
      Some (Ok (inr (reported (nvs update_node), Some old_image, (q, ts, update_command, None))), n1) /\
    active_image (nvs n2) = Some new_image /\ confirmed "n1" node_key (hash new_image) (w_gw (env n2)).
Proof.
  pose proof update_facts as Hf. repeat (apply andb_prop in Hf as [Hf ?]).
  destruct (assigned_program_delivered (fun e => e = host) 100000000 100000000 host_calm false false [1; 2; 3; 4; 5; 6] (Some (-40))
    "n1" 0x2222 node_key (hash new_image) demo_library new_count) with (W := 32) (noc := false) (fw := [48; 46; 49])
    (board := demo_board) (image := demo_program 2 [2; 2; 2; 2]) (fuel := 19%nat) (n := update_node) (i := interp_new)
    (I := SondeBpfInterpreter) (HI := demo_interp) (base := demo_base) (blob_addr := fun _ : list Z => 32768)
    as (q & ts & n1 & n2 & Hb & _ & Ha & Hc & _).
  - split; [discriminate|reflexivity].
  - by apply bool_decide_eq_true in Hf.
  - reflexivity.
  - reflexivity.
  - by apply bool_decide_eq_true in H3.
  - split; [by apply Z.ltb_lt|by apply Z.leb_le].
  - by apply Z.leb_le.
  - reflexivity.
  - exact new_image_decodes.
  - reflexivity.
  - by vm_compute.
  - exact demo_waking.
  - reflexivity.
  - exists q, ts, n1, n2. split; [exact Hb|]. split; [exact Ha|exact Hc].
Defined.
