(* ===== verification/PhonePairing.v ===== *)
(** * The pairing tool

    [sonde-pair]: registering a phone at the gateway ([phase1.rs]), provisioning a
    node ([phase2.rs]) and the radio test before it, with the messages they build and
    read ([envelope.rs], [cbor.rs], [crypto.rs], [validation.rs], [types.rs]).

    The Bluetooth transport ([transport.rs]), the random numbers ([rng.rs] and
    getrandom) and the clock are a class over a state.  Errors are values of
    [PairingError]; texts for people are shortened. *)

From Stdlib Require Import String.
From S2P Require Import Prelude Frame Messages BoardLayout BleEnvelope ProgramImage MapStorage AsyncQueue NodeM NodeState NodeRadio.
From S2P Require Import GwStore GwState GwEngine.
Open Scope list_scope.
Open Scope Z_scope.

(** ** Constants and types *)

Definition GATEWAY_SERVICE_UUID : Z := 0x0000FE6000001000800000805F9B34FB.
Definition GATEWAY_COMMAND_UUID : Z := 0x0000FE6100001000800000805F9B34FB.
Definition NODE_SERVICE_UUID : Z := 0x0000FE5000001000800000805F9B34FB.
Definition NODE_COMMAND_UUID : Z := 0x0000FE5100001000800000805F9B34FB.
Definition BLE_MTU_MIN : Z := 247.
Definition PEER_PAYLOAD_MAX : Z := 202.

Definition REGISTER_PHONE : Z := 0x02.
Definition PHONE_REGISTERED : Z := 0x82.
Definition NODE_PROVISION : Z := 0x01.
Definition NODE_ACK : Z := 0x81.
Definition MSG_ERROR : Z := 0xFF.

Definition PHONE_REGISTERED_TIMEOUT_MS : Z := 30000.
Definition NODE_ACK_TIMEOUT_MS : Z := 5000.
Definition RUN_TEST_ACK_TIMEOUT_MS : Z := 5000.
Definition TEST_RESULT_TIMEOUT_MS : Z := 5000.
Definition POST_REBOOT_RECONNECT_TIMEOUT_MS : Z := 15000.
Definition POST_REBOOT_RECONNECT_BACKOFF_MS : Z := 500.

Definition RSSI_GOOD_THRESHOLD : Z := -60.
Definition RSSI_BAD_THRESHOLD : Z := -75.
Definition SIGNAL_QUALITY_GOOD : Z := 0.
Definition SIGNAL_QUALITY_MARGINAL : Z := 1.
Definition SIGNAL_QUALITY_BAD : Z := 2.

Inductive NodeAckStatus : Type :=
  | Success
  | AlreadyPaired
  | StorageFailed
  | UnknownStatus (b : Z).

Definition from_byte (b : Z) : NodeAckStatus :=
  if b =? 0x00 then Success else if b =? 0x01 then AlreadyPaired else if b =? 0x02 then StorageFailed else UnknownStatus b.
Definition to_byte (s : NodeAckStatus) : Z :=
  match s with Success => 0x00 | AlreadyPaired => 0x01 | StorageFailed => 0x02 | UnknownStatus b => b end.

Inductive PairingMethod : Type := NumericComparison | JustWorks | UnknownMethod.

(** The errors of the pairing flows. *)
Inductive PairingError : Type :=
  | DeviceNotFound (device : list Z)
  | ConnectionFailed (reason : string)
  | ConnectionDropped
  | MtuTooLow (device : list Z) (negotiated required : Z)
  | GattWriteFailed (reason : string)
  | IndicationTimeout
  | RegistrationFailed (code : Z) (diagnostic : list Z)
  | RegistrationWindowClosed
  | InvalidResponse (msg_type : Z) (reason : string)
  | CborEncodeFailed (msg : string)
  | NodeProvisionFailed (s : NodeAckStatus)
  | NodeErrorResponse (status : Z) (message : list Z)
  | GatewayAlreadyPaired
  | PayloadTooLarge (size max : Z)
  | InvalidPhoneLabel (size : Z)
  | InvalidNodeId (size : Z)
  | InvalidBoardLayout (reason : string)
  | InvalidRfChannel (c : Z)
  | InvalidKeyHint
  | RngFailed
  | EncryptionFailed (reason : string)
  | DiagnosticFailed (reason : string)
  | InsecurePairingMethod (m : PairingMethod)
  | TimestampUnavailable.

Record PairingArtifacts := mkArtifacts {
  a_psk : list Z;
  a_key_hint : Z;
  a_channel : Z;
  a_label : list Z
}.

Record DiagnosticResult := mkDiagnostic {
  gateway_rssi_dbm : Z;
  signal_quality : option Z;
  node_reply_rssi_dbm : option Z;
  d_attempts : Z;
  d_elapsed : Z
}.

(** [None] for 0, which says that the gateway has no value. *)
Definition assess_signal_quality (rssi_dbm : Z) : option Z :=
  if rssi_dbm =? 0 then None
  else if RSSI_GOOD_THRESHOLD <=? rssi_dbm then Some SIGNAL_QUALITY_GOOD
  else if RSSI_BAD_THRESHOLD <=? rssi_dbm then Some SIGNAL_QUALITY_MARGINAL
  else Some SIGNAL_QUALITY_BAD.

(** ** Envelopes *)

Definition parse_envelope (data : list Z) : Res PairingError (Z * list Z) :=
  match data with
  | msg_type :: hi :: lo :: payload =>
      if len payload =? from_be_bytes [hi; lo] then Ok (msg_type, payload)
      else Err (InvalidResponse msg_type "envelope length field does not match the body")
  | [] => Err (InvalidResponse 0 "envelope too short (need at least 3 bytes)")
  | b :: _ => Err (InvalidResponse b "envelope too short (need at least 3 bytes)")
  end.

Definition build_envelope (msg_type : Z) (payload : list Z) : option (list Z) :=
  if len payload >? 2 ^ 16 - 1 then None else Some ([msg_type] ++ to_be_bytes 2 (len payload) ++ payload).

Definition parse_node_ack (payload : list Z) : Res PairingError Z :=
  match payload with [b] => Ok b | _ => Err (InvalidResponse 0x81 "expected 1 byte") end.

(** The status and the bytes of the message. *)
Definition parse_error_body (payload : list Z) : Z * list Z :=
  match payload with [] => (0, []) | status :: message => (status, message) end.

(** ** Validation *)

Definition validate_node_id (id : list Z) : Res PairingError unit :=
  let trimmed := trim id in
  if len trimmed =? 0 then Err (InvalidNodeId 0) else
  if len trimmed >? 64 then Err (InvalidNodeId (len trimmed)) else Ok tt.

Definition validate_rf_channel (ch : Z) : Res PairingError unit :=
  if negb (channel_in_range ch) then Err (InvalidRfChannel ch) else Ok tt.

Definition validate_supported_battery_adc (l : BoardLayout) : Res PairingError unit :=
  match battery_adc l with
  | Some pin => if (0 <=? pin) && (pin <=? 4) then Ok tt else Err (InvalidBoardLayout "battery_adc is not ADC-capable")
  | None => Ok tt
  end.

(** ** The host *)

Class PhoneEnv (P : Type) : Type := {
  t_connect : list Z -> P -> Res PairingError Z * P;
  t_disconnect : P -> Res PairingError unit * P;
  t_write : Z -> Z -> list Z -> P -> Res PairingError unit * P;
  t_read : Z -> Z -> Z -> P -> Res PairingError (list Z) * P;
  pairing_method : P -> option PairingMethod;
  t_defer_bonding : bool -> P -> P;
  fill_bytes : nat -> P -> Res PairingError (list Z) * P;
  getrandom : nat -> P -> Res PairingError (list Z) * P;
  (** [SystemTime::now()] in milliseconds relative to the epoch. *)
  system_ms : P -> Z * P;
  monotonic_ms : P -> Z * P;
  sleep_ms : Z -> P -> P
}.

Definition Ph (P A : Type) : Type := P -> Res PairingError A * P.

Definition pret {P A} (a : A) : Ph P A := fun s => (Ok a, s).
Definition pfail {P A} (e : PairingError) : Ph P A := fun s => (Err e, s).
Definition plift {P A} (r : Res PairingError A) : Ph P A := fun s => (r, s).
Definition pbind {P A B} (m : Ph P A) (k : A -> Ph P B) : Ph P B := fun s =>
  match m s with
  | (Ok a, s') => k a s'
  | (Err e, s') => (Err e, s')
  | (Panic, s') => (Panic, s')
  | (UB, s') => (UB, s')
  end.
Definition pmod {P} (f : P -> P) : Ph P unit := fun s => (Ok tt, f s).
Definition pop {P A} (f : P -> A * P) : Ph P A := fun s => let '(a, s') := f s in (Ok a, s').

(** The outcome of [m] as a value. *)
Definition ptry {P A} (m : Ph P A) : Ph P (Res PairingError A) := fun s => let '(r, s') := m s in (Ok r, s').

Notation "'let%' x ':=' m 'in' k" := (pbind m (fun x => k))
  (at level 10, x name, m at level 100, k at level 200) : sonde_scope.
Notation "'let%' ' p ':=' m 'in' k" := (pbind m (fun p => k))
  (at level 10, p strict pattern, m at level 100, k at level 200) : sonde_scope.
Notation "m ';;%' k" := (pbind m (fun _ => k)) (at level 60, right associativity) : sonde_scope.

Section Tool.
Context {Value : Type} `{C : Cbor Value} `{CS : !CborStream C}.
Context `{Sha256Provider, AeadProvider}.
Context {P : Type} `{PhoneEnv P}.
Abbreviation Ph := (PhonePairing.Ph P).

(** [transport.disconnect().await.ok()]. *)
Definition disconnect : Ph unit := let% _ := ptry t_disconnect in pret tt.

(** Disconnects after [m], whatever its outcome. *)
Definition then_disconnect {A} (m : Ph A) : Ph A :=
  let% r := ptry m in disconnect ;;% plift r.

Definition enforce_lesc : Ph unit := fun s =>
  match pairing_method s with
  | Some NumericComparison | None => (Ok tt, s)
  | Some m => (disconnect ;;% pfail (InsecurePairingMethod m)) s
  end.

(** ** Phase 1 *)

Definition do_pair_with_gateway (phone_label : list Z) : Ph PairingArtifacts :=
  let% phone_psk := fill_bytes 32 in
  let register_body := phone_psk ++ [as_u8 (len phone_label)] ++ phone_label in
  let% register := plift (ok_or (build_envelope REGISTER_PHONE register_body) (PayloadTooLarge (len register_body) (2 ^ 16 - 1))) in
  t_write GATEWAY_SERVICE_UUID GATEWAY_COMMAND_UUID register ;;%
  let% response := t_read GATEWAY_SERVICE_UUID GATEWAY_COMMAND_UUID PHONE_REGISTERED_TIMEOUT_MS in
  let% '(msg_type, payload) := plift (parse_envelope response) in
  if msg_type =? MSG_ERROR then
    let '(status, diagnostic) := parse_error_body payload in
    if status =? 0x02 then pfail RegistrationWindowClosed
    else if status =? 0x03 then pfail GatewayAlreadyPaired
    else pfail (RegistrationFailed status diagnostic)
  else if negb (msg_type =? PHONE_REGISTERED) then pfail (InvalidResponse msg_type "expected PHONE_REGISTERED")
  else
    match payload with
    | [status; rf_channel; h; l] =>
        if negb (status =? 0x00) then pfail (RegistrationFailed status []) else
        plift (validate_rf_channel rf_channel) ;;%
        let phone_key_hint := from_be_bytes [h; l] in
        if negb (phone_key_hint =? key_hint_from_psk phone_psk) then pfail InvalidKeyHint else
        pret (mkArtifacts phone_psk phone_key_hint rf_channel phone_label)
    | _ => pfail (InvalidResponse PHONE_REGISTERED "expected 4 bytes in PHONE_REGISTERED")
    end.

Definition check_mtu (address : list Z) (mtu : Z) : Ph unit :=
  if mtu <? BLE_MTU_MIN then disconnect ;;% pfail (MtuTooLow address mtu BLE_MTU_MIN) else pret tt.

Definition pair_with_gateway (address phone_label : list Z) : Ph PairingArtifacts :=
  if len phone_label >? 64 then pfail (InvalidPhoneLabel (len phone_label)) else
  let% mtu := t_connect address in
  check_mtu address mtu ;;%
  enforce_lesc ;;%
  then_disconnect (do_pair_with_gateway phone_label).

(** ** Phase 2 *)

Definition sensor_value (s : SensorDescriptor) : Value :=
  VMap ([(VInteger 1, VInteger (sensor_type s)); (VInteger 2, VInteger (sensor_id s))] ++
        match label s with Some l => [(VInteger 3, VText l)] | None => [] end).

Definition encode_pairing_request (node_id node_psk : list Z) (channel : Z) (sensors : list SensorDescriptor)
    (timestamp : Z) : Res PairingError (list Z) :=
  map_err CborEncodeFailed (into_writer (VMap
    [(VInteger 1, VText node_id);
     (VInteger 2, VInteger (key_hint_from_psk node_psk));
     (VInteger 3, VBytes node_psk);
     (VInteger 4, VInteger channel);
     (VInteger 5, VArray (sensor_value <$> sensors));
     (VInteger 6, VInteger timestamp)])).

(** The inner ciphertext in a CBOR map in a frame, all under the phone's key. *)
Definition encrypt_pairing_request (phone_psk cbor : list Z) : Ph (list Z) :=
  let% inner_nonce := getrandom 12 in
  let encrypted := inner_nonce ++ seal phone_psk inner_nonce PAIRING_AAD cbor in
  let% buf := plift (map_err (fun _ => EncryptionFailed "CBOR encode failed")
    (into_writer (VMap [(VInteger PEER_REQ_KEY_PAYLOAD, VBytes encrypted)]))) in
  let% nonce := getrandom 8 in
  plift (map_err (fun _ => EncryptionFailed "frame encode failed")
    (encode_frame (mkHeader (key_hint_from_psk phone_psk) MSG_PEER_REQUEST (from_be_bytes nonce)) buf phone_psk)).

(** Characters of the node's message that are not control characters, at most 256; an
    ASCII message. *)
Definition sanitize_diagnostic (message : list Z) : list Z :=
  take 256 (filter (fun c => negb ((c <? 32) || (c =? 127)) || (c =? 10) || (c =? 13) || (c =? 9) = true) message).

Definition do_provision_node (key_hint : Z) (node_psk : list Z) (channel : Z) (encrypted_frame : list Z)
    (board_layout : option BoardLayout) : Ph NodeAckStatus :=
  if len encrypted_frame >? PEER_PAYLOAD_MAX then pfail (PayloadTooLarge (len encrypted_frame) PEER_PAYLOAD_MAX) else
  let% layout :=
    match board_layout with
    | Some l => plift (map_err (fun _ => InvalidBoardLayout "board layout encode failed") (encode_board_layout_cbor l))
    | None => pret []
    end in
  let provision := to_be_bytes 2 key_hint ++ node_psk ++ [channel] ++ to_be_bytes 2 (len encrypted_frame) ++
    encrypted_frame ++ layout in
  let% message := plift (ok_or (build_envelope NODE_PROVISION provision) (PayloadTooLarge (len provision) (2 ^ 16 - 1))) in
  t_write NODE_SERVICE_UUID NODE_COMMAND_UUID message ;;%
  let% response := t_read NODE_SERVICE_UUID NODE_COMMAND_UUID NODE_ACK_TIMEOUT_MS in
  let% '(msg_type, payload) := plift (parse_envelope response) in
  if msg_type =? MSG_ERROR then
    let '(status, message) := parse_error_body payload in
    pfail (NodeErrorResponse status (sanitize_diagnostic message))
  else if negb (msg_type =? NODE_ACK) then pfail (InvalidResponse msg_type "expected NODE_ACK")
  else
    let% status := plift (parse_node_ack payload) in
    match from_byte status with
    | Success => pret Success
    | s => pfail (NodeProvisionFailed s)
    end.

(** [connect] with deferred bonding, and the check of the MTU. *)
Definition connect_to_node (address : list Z) : Ph unit :=
  pmod (t_defer_bonding true) ;;%
  let% r := ptry (t_connect address) in
  pmod (t_defer_bonding false) ;;%
  let% mtu := plift r in
  check_mtu address mtu.

Definition provision_node (a : PairingArtifacts) (address node_id : list Z) (sensors : list SensorDescriptor)
    (board_layout : option BoardLayout) : Ph NodeAckStatus :=
  plift (validate_node_id node_id) ;;%
  plift (match board_layout with
         | Some l =>
             let? _ := map_err InvalidBoardLayout (validate l) in
             validate_supported_battery_adc l
         | None => Ok tt
         end) ;;%
  let% node_psk := fill_bytes 32 in
  let key_hint := key_hint_from_psk node_psk in
  let% now := pop system_ms in
  let% timestamp := plift (match since_epoch now with
                           | Some ms => if ms / 1000 <? 2 ^ 63 then Ok (ms / 1000) else Err TimestampUnavailable
                           | None => Err TimestampUnavailable
                           end) in
  let% cbor := plift (encode_pairing_request node_id node_psk (a_channel a) sensors timestamp) in
  let% frame := encrypt_pairing_request (a_psk a) cbor in
  connect_to_node address ;;%
  then_disconnect (do_provision_node key_hint node_psk (a_channel a) frame board_layout).

(** ** The radio test *)

Definition build_diag_request_frame (phone_psk : list Z) : Ph (list Z * Z) :=
  let% cbor := plift (map_err (fun _ => EncryptionFailed "CBOR encode failed") (node_encode (DiagRequest DIAG_TYPE_RSSI))) in
  let% bytes := getrandom 8 in
  let nonce := from_be_bytes bytes in
  let% frame := plift (map_err (fun _ => EncryptionFailed "frame encode failed")
    (encode_frame (mkHeader (key_hint_from_psk phone_psk) MSG_DIAG_REQUEST nonce) cbor phone_psk)) in
  pret (frame, nonce).

Definition decrypt_diag_reply (raw phone_psk : list Z) (expected_nonce : Z) : Res PairingError Z :=
  let? decoded := map_err (fun _ => DiagnosticFailed "malformed DIAG_REPLY frame") (decode_frame raw) in
  if negb (h_msg_type (header decoded) =? MSG_DIAG_REPLY) then Err (DiagnosticFailed "expected MSG_DIAG_REPLY msg_type") else
  if negb (h_nonce (header decoded) =? expected_nonce) then Err (DiagnosticFailed "DIAG_REPLY nonce mismatch") else
  let? payload := map_err (fun _ => EncryptionFailed "DIAG_REPLY decryption failed") (open_frame decoded phone_psk) in
  let? msg := map_err (fun _ => DiagnosticFailed "DIAG_REPLY CBOR decode") (gateway_decode MSG_DIAG_REPLY payload) in
  match msg with
  | DiagReply _ rssi_dbm => Ok rssi_dbm
  | _ => Err (DiagnosticFailed "unexpected message variant")
  end.

Definition parse_ble_response (response : list Z) (expected : Z) : Res PairingError (list Z) :=
  match parse_ble_envelope response with
  | None => Err (InvalidResponse 0 "malformed BLE envelope")
  | Some (msg_type, body) => if negb (msg_type =? expected) then Err (InvalidResponse msg_type "unexpected message") else Ok body
  end.

(** Tries until the deadline; [UB] stands for fuel that ran out. *)
Fixpoint reconnect_attempts (fuel : nat) (address : list Z) (deadline : Z) : Ph unit :=
  match fuel with
  | O => plift UB
  | S fuel' =>
      let% r := ptry (connect_to_node address) in
      match r with
      | Ok _ => pret tt
      | Err _ =>
          disconnect ;;%
          let% now := pop monotonic_ms in
          if deadline <=? now then pfail (DiagnosticFailed "node did not reconnect after test reboot") else
          pmod (sleep_ms POST_REBOOT_RECONNECT_BACKOFF_MS) ;;%
          reconnect_attempts fuel' address deadline
      | r => plift r
      end
  end.

Definition reconnect_to_node_after_test_reboot (fuel : nat) (address : list Z) : Ph unit :=
  let% now := pop monotonic_ms in
  reconnect_attempts fuel address (now + POST_REBOOT_RECONNECT_TIMEOUT_MS).

Definition run_test_exchange (fuel : nat) (address : list Z) (c : RunTestCommand) : Ph TestResult :=
  let% body := plift (map_err (fun _ => DiagnosticFailed "RUN_TEST_COMMAND encode failed")
    (encode_run_test_command (rt_type c) (rt_channel c) (rt_payload c))) in
  let% envelope := plift (ok_or (encode_ble_envelope BLE_RUN_TEST_COMMAND body) (DiagnosticFailed "RUN_TEST_COMMAND envelope too large")) in
  t_write NODE_SERVICE_UUID NODE_COMMAND_UUID envelope ;;%
  let% ack := t_read NODE_SERVICE_UUID NODE_COMMAND_UUID RUN_TEST_ACK_TIMEOUT_MS in
  let% ack_body := plift (parse_ble_response ack BLE_RUN_TEST_ACK) in
  let% status := plift (map_err (fun _ => InvalidResponse BLE_RUN_TEST_ACK "decode RUN_TEST_ACK") (decode_run_test_ack ack_body)) in
  if negb (status =? RUN_TEST_ACK_OK) then
    pfail (DiagnosticFailed
      (if status =? RUN_TEST_ACK_INVALID then "node rejected test command as invalid"
       else if status =? RUN_TEST_ACK_UNSUPPORTED then "node does not support the requested test type"
       else "unknown RUN_TEST_ACK status"))
  else
  disconnect ;;%
  reconnect_to_node_after_test_reboot fuel address ;;%
  let% envelope := plift (ok_or (encode_ble_envelope BLE_READ_TEST_RESULT encode_read_test_result)
    (DiagnosticFailed "READ_TEST_RESULT envelope too large")) in
  t_write NODE_SERVICE_UUID NODE_COMMAND_UUID envelope ;;%
  let% response := t_read NODE_SERVICE_UUID NODE_COMMAND_UUID TEST_RESULT_TIMEOUT_MS in
  let% result_body := plift (parse_ble_response response BLE_TEST_RESULT) in
  let% result := plift (map_err (fun _ => InvalidResponse BLE_TEST_RESULT "decode TEST_RESULT") (decode_test_result result_body)) in
  if negb (tr_status result =? TEST_RESULT_NO_RESULT) && negb (bool_decide (tr_type result = Some (rt_type c)))
  then pfail (DiagnosticFailed "unexpected test result type")
  else pret result.

Definition run_pre_provisioning_test_with_artifacts (fuel : nat) (a : PairingArtifacts) (address : list Z) (c : RunTestCommand) :
    Ph TestResult :=
  if (rt_type c =? TEST_TYPE_DIAG_FRAME) && negb (bool_decide (rt_channel c = Some (a_channel a)))
  then pfail (DiagnosticFailed "DIAG_FRAME test must use Phase 1 RF channel") else
  connect_to_node address ;;%
  then_disconnect (run_test_exchange fuel address c).

Definition check_rssi_with_artifacts (fuel : nat) (a : PairingArtifacts) (address : list Z) : Ph DiagnosticResult :=
  let% '(diag_frame, request_nonce) := build_diag_request_frame (a_psk a) in
  let% result := run_pre_provisioning_test_with_artifacts fuel a address
    (mkRunTest TEST_TYPE_DIAG_FRAME (Some (a_channel a)) diag_frame) in
  if tr_status result =? TEST_RESULT_OK then
    if negb (bool_decide (tr_type result = Some TEST_TYPE_DIAG_FRAME)) then pfail (DiagnosticFailed "unexpected test result type") else
    let% reply_frame := plift (ok_or (tr_reply result) (DiagnosticFailed "missing raw DIAG_REPLY frame")) in
    let% rssi := plift (decrypt_diag_reply reply_frame (a_psk a) request_nonce) in
    pret (mkDiagnostic rssi (assess_signal_quality rssi) (tr_rssi result) (tr_attempts result) (tr_elapsed result))
  else if tr_status result =? TEST_RESULT_TIMEOUT then pfail (DiagnosticFailed "diagnostic timed out")
  else if tr_status result =? TEST_RESULT_NO_RESULT then pfail (DiagnosticFailed "node reported no retained test result")
  else if tr_status result =? TEST_RESULT_EXECUTION_ERROR then pfail (DiagnosticFailed "node failed to execute the staged diagnostic command")
  else pfail (DiagnosticFailed "unknown TEST_RESULT status").
End Tool.
