(* ===== verification/PairingLink.v ===== *)
(** * Pairing, end to end

    The pairing tool ([PhonePairing]) with the gateway ([GwPairing], [GwEngine]) and a
    node ([NodePairing], [WakeCycle]) at the other end of its Bluetooth connections:
    what the tool writes the gateway and the node read, and a node the tool reports as
    provisioned registers at its next wake-up. *)

From Stdlib Require Import String.
From S2P Require Import Prelude Frame Messages BoardLayout BleEnvelope ProgramImage CborCompact.
From S2P Require Import MapStorage AsyncQueue NodeM NodeState NodePairing NodeRadio NodeStore BpfDispatch WakeCycle NodeLogic WakeProofs.
From S2P Require Import Session GwStore GwState GwPairing GwEngine GwLogic GwServe EndToEnd PhonePairing.
Open Scope list_scope.
Open Scope Z_scope.

(** ** The pairing request *)

(** What the gateway accepts and the tool does not check. *)
Definition sensor_ok (s : SensorDescriptor) : Prop :=
  1 <= sensor_type s <= 4 /\ uN 8 (sensor_id s) /\ (forall l, label s = Some l -> len l <= 64).

Section Request.
Context {Value : Type} `{C : Cbor Value} `{L : !CborLaws C}.
Context `{SH : Sha256Provider} `{HSH : !Sha256Laws SH} `{AE : AeadProvider} `{HA : !AeadLaws AE}.

Lemma as_u_int w z : 0 <= w <= 64 -> uN w z -> as_u w (VInteger z) = Some z.
Proof using L.
  intros Hw Hz. unfold as_u, as_u64_opt. rewrite as_integer_eq. simpl.
  rewrite (try_u_Some 64) by (by apply (uN_weaken w)). simpl. by apply try_u_Some.
Qed.

Lemma as_u64_int z : uN 64 z -> as_u64_opt (VInteger z) = Some z.
Proof using L. intros Hz. unfold as_u64_opt. rewrite as_integer_eq. simpl. by apply try_u_Some. Qed.

Lemma key_hint_range psk : uN 16 (key_hint_from_psk psk).
Proof using HSH.
  unfold key_hint_from_psk. apply (be_range 2); [|done]. pose proof (hash_ok psk) as Hb. pose proof (hash_len psk) as Hl.
  rewrite !list.Forall_cons. split_and!; [| |by apply Forall_nil_2].
  all: eapply Forall_lookup_total_1; [done|unfold len in Hl; lia].
Qed.

(** Reads the key of a field, a small constant. *)
Ltac read_key := cbn [parse_sensor]; rewrite as_u64_int by (split; discriminate || reflexivity).

Lemma parse_sensor_value s :
  sensor_ok s ->
  exists fields, as_map (sensor_value s) = Some fields /\
    parse_sensor fields (None, None, None) = Some (Some (sensor_type s), Some (sensor_id s), label s).
Proof using L.
  intros (Ht & Hi & Hl). unfold sensor_value. rewrite as_map_eq. eexists. split; [reflexivity|]. destruct s as [st si [l|]]; simpl in *.
  - read_key. read_key. read_key. rewrite !as_u_int by (done || unfold uN; lia). rewrite as_text_eq.
    specialize (Hl l eq_refl). destruct (Z.gtb_spec (len l) 64); [lia|done].
  - read_key. read_key. by rewrite !as_u_int by (done || unfold uN; lia).
Qed.

Lemma parse_sensor_values ss acc : Forall sensor_ok ss -> parse_sensors (sensor_value <$> ss) acc = Some (acc ++ ss).
Proof using L.
  intros Hs. revert acc. induction Hs as [|s ss Hs _ IH]; intros acc; [by rewrite app_nil_r|]. rewrite fmap_cons. cbn [parse_sensors].
  destruct (parse_sensor_value s Hs) as (fields & -> & ->). destruct Hs as ((Hs1 & Hs2) & _).
  rewrite (proj2 (Z.leb_le _ _) Hs1), (proj2 (Z.leb_le _ _) Hs2). cbn [andb]. rewrite IH, <- app_assoc. by destruct s.
Qed.

(** One field of a request. *)
Definition field_step (n : Z) (v : Value) (a : PairingAcc) : option PairingAcc :=
  match n with
  | 1 => Some (mkPacc (as_text v) (pa_hint a) (pa_psk a) (pa_channel a) (pa_time a) (pa_sensors a))
  | 2 => Some (mkPacc (pa_id a) (as_u 16 v) (pa_psk a) (pa_channel a) (pa_time a) (pa_sensors a))
  | 3 => match as_bytes v with
         | Some b => if len b =? 32 then Some (mkPacc (pa_id a) (pa_hint a) (Some b) (pa_channel a) (pa_time a) (pa_sensors a)) else Some a
         | None => Some a
         end
  | 4 => Some (mkPacc (pa_id a) (pa_hint a) (pa_psk a) (as_u 8 v) (pa_time a) (pa_sensors a))
  | 5 => match as_array v with
         | Some items =>
             match parse_sensors items (pa_sensors a) with
             | Some ss => Some (mkPacc (pa_id a) (pa_hint a) (pa_psk a) (pa_channel a) (pa_time a) ss)
             | None => None
             end
         | None => Some a
         end
  | 6 => Some (mkPacc (pa_id a) (pa_hint a) (pa_psk a) (pa_channel a) (as_u64_opt v) (pa_sensors a))
  | _ => Some a
  end.

Lemma parse_field n v fields a a' :
  uN 64 n -> field_step n v a = Some a' -> parse_pairing_fields ((VInteger n, v) :: fields) a = parse_pairing_fields fields a'.
Proof using L.
  intros Hn Hs. cbn [parse_pairing_fields]. rewrite as_u64_int by done. unfold field_step in Hs.
  repeat case_match; simplify_eq; try done.
Qed.

Lemma parse_request_of cbor v fields node_id hint psk ch ts ss :
  from_reader cbor = Ok v -> as_map v = Some fields ->
  parse_pairing_fields fields (mkPacc None None None None None []) =
    Some (mkPacc (Some node_id) (Some hint) (Some psk) (Some ch) (Some ts) ss) ->
  1 <= len node_id <= 64 -> 1 <= ch <= 13 -> parse_pairing_request cbor = Some (mkPairing node_id hint psk ch ts ss).
Proof using .
  intros Hv Hm Hf Hid Hch. unfold parse_pairing_request. rewrite Hv, Hm. cbn [base.mbind option_bind]. rewrite Hf.
  cbn [base.mbind option_bind pa_id pa_hint pa_psk pa_channel pa_time pa_sensors].
  rewrite (proj2 (Z.eqb_neq _ _)), (proj2 (Z.leb_le 1 ch)), (proj2 (Z.leb_le ch 13)) by lia. cbn [orb andb negb].
  destruct (Z.gtb_spec (len node_id) 64); [lia|done].
Qed.

Lemma parse_request_overlong cbor v fields node_id hint psk ch ts ss :
  from_reader cbor = Ok v -> as_map v = Some fields ->
  parse_pairing_fields fields (mkPacc None None None None None []) =
    Some (mkPacc (Some node_id) (Some hint) (Some psk) (Some ch) (Some ts) ss) ->
  64 < len node_id -> parse_pairing_request cbor = None.
Proof using .
  intros Hv Hm Hf Hid. unfold parse_pairing_request. rewrite Hv, Hm. cbn [base.mbind option_bind]. rewrite Hf.
  cbn [base.mbind option_bind pa_id pa_hint pa_psk pa_channel pa_time pa_sensors].
  rewrite (proj2 (Z.eqb_neq _ _)) by lia. destruct (Z.gtb_spec (len node_id) 64); [done|lia].
Qed.

(** The fields of the request the tool wrote. *)
Lemma request_fields node_id psk ch ss ts :
  len psk = 32 -> uN 8 ch -> Forall sensor_ok ss -> uN 64 ts ->
  parse_pairing_fields
    [(VInteger 1, VText node_id); (VInteger 2, VInteger (key_hint_from_psk psk)); (VInteger 3, VBytes psk);
     (VInteger 4, VInteger ch); (VInteger 5, VArray (sensor_value <$> ss)); (VInteger 6, VInteger ts)] (mkPacc None None None None None []) =
    Some (mkPacc (Some node_id) (Some (key_hint_from_psk psk)) (Some psk) (Some ch) (Some ts) ss).
Proof using L HSH.
  intros Hpsk Hch Hss Hts. pose proof (key_hint_range psk) as Hhint.
  etransitivity; [apply (parse_field 1); [done|reflexivity]|]. etransitivity; [apply (parse_field 2); [done|reflexivity]|].
  etransitivity; [apply (parse_field 3); [done|unfold field_step; by rewrite as_bytes_eq, Hpsk]|].
  etransitivity; [apply (parse_field 4); [done|reflexivity]|].
  etransitivity; [apply (parse_field 5); [done|unfold field_step; by rewrite as_array_eq, parse_sensor_values]|].
  etransitivity; [apply (parse_field 6); [done|reflexivity]|].
  by rewrite as_text_eq, as_u64_int, !as_u_int by done.
Qed.

(** The gateway reads the request the tool wrote. *)
Lemma pairing_request_agrees node_id psk ch ss ts cbor :
  encode_pairing_request node_id psk ch ss ts = Ok cbor -> 1 <= len node_id <= 64 -> len psk = 32 -> 1 <= ch <= 13 ->
  Forall sensor_ok ss -> uN 64 ts ->
  parse_pairing_request cbor = Some (mkPairing node_id (key_hint_from_psk psk) psk ch ts ss).
Proof using L HSH.
  unfold encode_pairing_request. destruct (into_writer _) as [b| | |] eqn:Hw; simpl; try done. intros [= <-] Hid Hpsk Hch Hss Hts.
  eapply parse_request_of; [by apply reader_writer|apply as_map_eq|apply request_fields; done || (unfold uN; lia)|done|done].
Qed.

(** It refuses one whose identifier is longer than 64 bytes. *)
Lemma overlong_request node_id psk ch ss ts cbor :
  encode_pairing_request node_id psk ch ss ts = Ok cbor -> 64 < len node_id -> len psk = 32 -> 1 <= ch <= 13 ->
  Forall sensor_ok ss -> uN 64 ts -> parse_pairing_request cbor = None.
Proof using L HSH.
  unfold encode_pairing_request. destruct (into_writer _) as [b| | |] eqn:Hw; simpl; try done. intros [= <-] Hid Hpsk Hch Hss Hts.
  eapply parse_request_overlong; [by apply reader_writer|apply as_map_eq|apply request_fields; done || (unfold uN; lia)|done].
Qed.

Lemma encode_opens h cbor key raw :
  header_ok h -> encode_frame h cbor key = Ok raw ->
  exists f, decode_frame raw = Ok f /\ header f = h /\ open_frame f key = Ok cbor.
Proof using HA.
  intros Hh He. assert (Hl : len cbor <= MAX_PAYLOAD_SIZE).
  { revert He. unfold encode_frame, MAX_PAYLOAD_SIZE, HEADER_SIZE, AEAD_TAG_SIZE, MAX_FRAME_SIZE.
    destruct (Z.gtb_spec (11 + len cbor + 16) 250); [done|]. intros _. lia. }
  destruct (encode_decode_open SH AE HA h cbor key Hh Hl) as (raw' & f & Hr & _ & Hd & Hhd & Ho).
  assert (raw' = raw) as -> by congruence. by exists f.
Qed.
End Request.

(** ** Runs of the tool that succeed *)

Lemma pbind_Ok {P A B} (m : Ph P A) (k : A -> Ph P B) s b s' :
  pbind m k s = (Ok b, s') -> exists a s1, m s = (Ok a, s1) /\ k a s1 = (Ok b, s').
Proof. unfold pbind. destruct (m s) as [[a|e| |] s1] eqn:Hm; intros Hk; [by exists a, s1|done..]. Qed.

Lemma plift_Ok {P A} (r : Res PairingError A) (s : P) a s' : plift r s = (Ok a, s') -> r = Ok a /\ s' = s.
Proof. unfold plift. by intros [= -> ->]. Qed.

(** Takes a successful run apart, one operation at a time. *)
Ltac run_ok H :=
  let a := fresh "x" in let s := fresh "s" in let H1 := fresh "Hx" in
  apply pbind_Ok in H as (a & s & H1 & H);
  try (apply plift_Ok in H1 as [H1 ->]; try apply map_err_Ok in H1; try apply ok_or_Ok in H1).

(** Random bytes are as many bytes as were asked for. *)
Class PhoneLaws (P : Type) `{PhoneEnv P} : Prop := {
  fill_bytes_ok n (p p' : P) b : fill_bytes n p = (Ok b, p') -> length b = n /\ bytes_ok b;
  getrandom_ok n (p p' : P) b : getrandom n p = (Ok b, p') -> length b = n /\ bytes_ok b
}.

Section Frame.
Context {Value : Type} `{C : Cbor Value} `{L : !CborLaws C}.
Context `{SH : Sha256Provider} `{HSH : !Sha256Laws SH} `{AE : AeadProvider} `{HA : !AeadLaws AE}.
Context {P : Type} `{HPL : PhoneLaws P}.

(** The frame the tool prepares opens, at the gateway, to the request. *)
Lemma encrypt_opens phone_psk cbor (p p' : P) frame :
  encrypt_pairing_request phone_psk cbor p = (Ok frame, p') ->
  exists f nonce outer, decode_frame frame = Ok f /\ header f = mkHeader (key_hint_from_psk phone_psk) MSG_PEER_REQUEST nonce /\
    uN 64 nonce /\ open_frame f phone_psk = Ok outer /\ open_pairing_request outer phone_psk = parse_pairing_request cbor.
Proof using L HSH HA HPL.
  unfold encrypt_pairing_request. intros Hr. run_ok Hr. run_ok Hr. run_ok Hr. apply plift_Ok in Hr as [Hr _]. apply map_err_Ok in Hr.
  apply getrandom_ok in Hx as [Hn _]. apply getrandom_ok in Hx1 as [Hn1 Hb1]. rename x into inner.
  assert (Hnonce : uN 64 (from_be_bytes x1)) by (apply (be_range 8); [done|unfold len; lia]).
  destruct (encode_opens (mkHeader (key_hint_from_psk phone_psk) MSG_PEER_REQUEST (from_be_bytes x1)) x0 phone_psk frame) as (f & Hd & Hh & Ho); [|done|].
  { split_and!; [apply key_hint_range|split; discriminate || reflexivity|done]. }
  exists f, (from_be_bytes x1), x0. split_and!; try done. unfold open_pairing_request.
  rewrite (reader_writer _ _ Hx0), as_map_eq. cbn [base.mbind option_bind fold_left]. unfold payload_field. cbn [fst snd].
  rewrite as_u64_int by (split; discriminate || reflexivity). rewrite Z.eqb_refl, as_bytes_eq. cbn [base.mbind option_bind].
  rewrite (proj2 (Z.ltb_ge _ _)).
  - rewrite take_app_length', drop_app_length' by done. by rewrite open_seal.
  - rewrite len_app, seal_len. unfold len, AEAD_TAG_SIZE. lia.
Qed.
End Frame.

(** ** The gateway accepts the request *)

(** Storage whose operations for pairing succeed. *)
Class PairingReliable (S : Type) `{StorageLaws S} : Prop := {
  phones_served : forall h s, exists l, (get_phone_psks_by_key_hint h s).1 = inr l;
  insert_served : forall n s, exists b, (insert_node_if_not_exists n s).1 = inr b
}.

Section Accept.
Context {Value : Type} `{C : Cbor Value} `{L : !CborLaws C} `{HZ : !CborSize C}.
Context `{SH : Sha256Provider} `{HSH : !Sha256Laws SH} `{AE : AeadProvider} `{HA : !AeadLaws AE}.
Context {S E : Type} `{HL : StorageLaws S} `{HR : !RecoveryStore S} `{HG : GwEnv Value E} `{HS : !PairingReliable S}.
Context (oc da : bool) (peer : list Z) (rssi : option Z).
Abbreviation Gw := (Gateway S E).

(** The phone is the only one with its key hint, the identifier is free, and the
    clocks agree to within a day. *)
Record expecting (ph : PhonePskRecord) (node_id : list Z) (ts : Z) (g : Gw) : Prop := {
  ex_phone : ph ∈ v_phones (gview g);
  ex_hint : phone_key_hint ph = key_hint_from_psk (phone_psk ph);
  ex_active : phone_status ph = Active;
  ex_only : forall q, q ∈ v_phones (gview g) -> phone_key_hint q = phone_key_hint ph -> q = ph;
  ex_free : v_nodes (gview g) !! string_of node_id = None;
  ex_clock : 0 <= (unix_ms (g_env g)).1 /\ Z.abs ((unix_ms (g_env g)).1 / 1000 - ts) <= MAX_TIMESTAMP_DRIFT_S
}.

Lemma try_phones_only f l ph outer :
  ph ∈ l -> (forall q, q ∈ l -> q = ph) -> phone_status ph = Active -> open_frame f (phone_psk ph) = Ok outer ->
  try_phones f l = Some (ph, outer).
Proof using .
  intros Hin Honly Ha Ho. destruct l as [|q l]; [by apply elem_of_nil in Hin|]. assert (q = ph) as -> by (apply Honly; by left).
  simpl. rewrite Ha, Ho. done.
Qed.

(** A request that does not parse is discarded. *)
Lemma request_discarded ph f nonce outer raw (g : Gw) :
  ph ∈ v_phones (gview g) -> (forall q, q ∈ v_phones (gview g) -> phone_key_hint q = phone_key_hint ph -> q = ph) ->
  phone_key_hint ph = key_hint_from_psk (phone_psk ph) -> phone_status ph = Active ->
  decode_frame raw = Ok f -> header f = mkHeader (key_hint_from_psk (phone_psk ph)) MSG_PEER_REQUEST nonce ->
  open_frame f (phone_psk ph) = Ok outer -> open_pairing_request outer (phone_psk ph) = None ->
  exists g', process_frame oc da raw peer rssi g = (Err tt, g') /\ gview g' = gview g.
Proof using HL HS.
  intros Hin Honly Hhint Ha Hd Hh Ho Hp. unfold process_frame. rewrite Hd. unfold gbind at 1. cbn [ok_or_discard gret]. rewrite Hh. cbn [h_msg_type]. rewrite Z.eqb_refl.
  unfold handle_peer_request. rewrite Hh. cbn [key_hint h_nonce].
  destruct (phones_served (key_hint_from_psk (phone_psk ph)) (g_storage g)) as [l Hl].
  pose proof (get_phones_ok (key_hint_from_psk (phone_psk ph)) (g_storage g)) as Hget.
  unfold gbind at 1, store_or_discard at 1, store at 1, gbind at 1.
  destruct (get_phone_psks_by_key_hint _ (g_storage g)) as [[e|l'] s1]; simpl in Hl; [done|]. injection Hl as ->. destruct Hget as [Hv Hget]. cbn [gret].
  rewrite (try_phones_only f l ph outer); [|by apply Hget| |done|done]; [|intros q [Hq1 Hq2]%Hget; apply Honly; [done|congruence]].
  unfold gbind at 1. cbn [some_or_discard gret]. rewrite Hp. eexists. split; [reflexivity|]. by unfold gview.
Qed.

(** The acknowledgement, as the gateway seals it and the node reads it. *)
Lemma ack_sealed psk nonce :
  uN 64 nonce ->
  exists cbor raw, into_writer (VMap [(VInteger PEER_ACK_KEY_STATUS, VInteger 0)]) = Ok cbor /\
    encode_frame (mkHeader (key_hint_from_psk psk) MSG_PEER_ACK nonce) cbor psk = Ok raw /\
    forall hint, verify_peer_ack raw (mkIdentity hint psk) nonce = Ok tt.
Proof using L HZ HSH HA.
  intros Hn. destruct (write_fits (VMap [(VInteger PEER_ACK_KEY_STATUS, VInteger 0)]) (9 + pair_sizes [(9, 9)])) as (cbor & Hw & Hl).
  { apply fits_map; [unfold len; simpl; lia|]. apply Forall2_cons; [|apply Forall2_nil]. split; apply fits_int; split; discriminate || reflexivity. }
  destruct (encode_decode_open SH AE HA (mkHeader (key_hint_from_psk psk) MSG_PEER_ACK nonce) cbor psk) as (raw & f & He & _ & Hd & Hh & Ho).
  { split_and!; [apply key_hint_range|split; discriminate || reflexivity|done]. }
  { unfold MAX_PAYLOAD_SIZE. simpl in Hl. lia. }
  exists cbor, raw. split_and!; [done|done|]. intros hint. unfold verify_peer_ack. rewrite Hd. cbn [map_err res_bind NodeRadio.psk]. rewrite Ho.
  cbn [map_err res_bind]. rewrite Hh. cbn [h_msg_type h_nonce]. rewrite !Z.eqb_refl. cbn [negb].
  rewrite (reader_writer _ _ Hw). cbn [map_err res_bind]. rewrite as_map_eq. cbn [ok_or res_bind ack_status].
  rewrite !as_u64_int by (split; discriminate || reflexivity). reflexivity.
Qed.

(** The record of a node that a phone registers. *)
Definition registered_record (ph : PhonePskRecord) (node_id psk : list Z) (ch : Z) (ss : list SensorDescriptor) : NodeRecord :=
  paired_record (node_record_new (string_of node_id) (key_hint_from_psk psk) psk) ch ss (phone_id ph).

Lemma peer_request_accepted ph node_id psk ch ss ts f nonce outer raw :
  decode_frame raw = Ok f -> header f = mkHeader (key_hint_from_psk (phone_psk ph)) MSG_PEER_REQUEST nonce -> uN 64 nonce ->
  open_frame f (phone_psk ph) = Ok outer ->
  open_pairing_request outer (phone_psk ph) = Some (mkPairing node_id (key_hint_from_psk psk) psk ch ts ss) ->
  gok (expecting ph node_id ts) (process_frame oc da raw peer rssi)
    (fun reply g' => v_nodes (gview g') !! string_of node_id = Some (registered_record ph node_id psk ch ss) /\
       forall hint, verify_peer_ack reply (mkIdentity hint psk) nonce = Ok tt).
Proof using L HZ HSH HA HL HS.
  intros Hd Hh Hn Ho Hp. unfold process_frame. apply (gok_ok _ f); [done|]. rewrite Hh. cbn [h_msg_type]. rewrite Z.eqb_refl.
  unfold handle_peer_request. rewrite Hh. cbn [key_hint h_nonce].
  intros g [He1 He2 He3 He4 He5 [He6 He7]]. destruct (phones_served (key_hint_from_psk (phone_psk ph)) (g_storage g)) as [l Hl].
  pose proof (get_phones_ok (key_hint_from_psk (phone_psk ph)) (g_storage g)) as Hget.
  unfold gbind at 1, store_or_discard at 1, store at 1, gbind at 1.
  destruct (get_phone_psks_by_key_hint _ (g_storage g)) as [[e|l'] s1]; simpl in Hl; [done|]. injection Hl as ->. destruct Hget as [Hv Hget]. cbn [gret].
  rewrite (try_phones_only f l ph outer); [|by apply Hget| |done|done]; [|intros q [Hq1 Hq2]%Hget; apply He4; [done|congruence]].
  unfold gbind at 1. cbn [some_or_discard gret]. rewrite Hp. unfold gbind at 1. cbn [some_or_discard gret].
  unfold gbind at 1, env_do. cbn [g_env set_storage]. destruct (unix_ms (g_env g)) as [now e1] eqn:Hu. cbn [fst] in He6, He7.
  unfold gbind at 1, since_epoch. rewrite (proj2 (Z.ltb_ge _ _) He6). cbn [some_or_discard gret pf_timestamp pf_key_hint pf_psk pf_node_id pf_rf_channel pf_sensors].
  destruct (Z.gtb_spec (Z.abs (now / 1000 - ts)) MAX_TIMESTAMP_DRIFT_S); [lia|]. rewrite Z.eqb_refl. cbn [negb].
  fold (registered_record ph node_id psk ch ss). set (rec := registered_record ph node_id psk ch ss).
  pose proof (insert_node_ok rec s1) as Hins. destruct (insert_served rec s1) as [b Hb].
  unfold gbind at 1, store_or_discard at 1, store at 1, gbind at 1. cbn [g_storage set_env set_storage].
  destruct (insert_node_if_not_exists rec s1) as [[x|b'] s2]; simpl in Hb; [done|]. injection Hb as ->. cbn [gret].
  destruct b; [|destruct Hins as [[r Hr] _]; rewrite Hv in Hr; change (nr_id rec) with (string_of node_id) in Hr; unfold gview in He5; congruence].
  destruct Hins as [_ Hins]. unfold gbind at 1. cbn [gret]. destruct (ack_sealed psk nonce Hn) as (cbor & raw' & Hw & Henc & Hack).
  unfold peer_ack, gbind, ok_or_discard, encode_response. rewrite Hw. cbn [ok_or_discard].
  change (nr_key_hint rec) with (key_hint_from_psk psk). change (nr_psk rec) with psk. unfold ok_or_discard. rewrite Henc.
  eexists _, _. split; [reflexivity|]. split; [|exact Hack]. unfold gview. cbn [g_storage set_storage]. rewrite Hins. simpl. apply lookup_insert_eq.
Qed.
End Accept.

(** ** The node accepts the provisioning message *)

(** The tool and the node build and read the same envelopes. *)
Lemma build_is_encode ty body : build_envelope ty body = encode_ble_envelope ty body.
Proof. reflexivity. Qed.

Lemma parse_envelope_iff r ty body : parse_envelope r = Ok (ty, body) <-> parse_ble_envelope r = Some (ty, body).
Proof.
  unfold parse_envelope, parse_ble_envelope. destruct r as [|t [|hi [|lo p]]]; try done.
  destruct (len p =? _); [|done]. split; congruence.
Qed.

Definition board_of (o : option BoardLayout) : ProvisionedBoardLayout :=
  match o with Some l => Provided l | None => Absent end.

Section Provision.
Context {Value : Type} `{C : Cbor Value} `{L : !CborLaws C} `{CS : !CborStream C} `{CL : !CborStreamLaws CS} `{HZ : !CborSize C}.

(** The tail of the message: the layout, if there is one. *)
Definition layout_bytes (o : option BoardLayout) (b : list Z) : Prop :=
  match o with Some l => pins_ok l /\ encode_board_layout_cbor l = Ok b | None => b = [] end.

(** Nothing is written in no bytes. *)
Lemma write_nonempty v b : into_writer v = Ok b -> b <> [].
Proof using L CL HZ.
  intros Hv ->. assert (Hall : forall z, 0 <= z < 2 -> v = VInteger z).
  { intros z Hz. destruct (write_fits (VInteger z) 9) as (bz & Hbz & _); [apply fits_int; unfold uN; lia|].
    pose proof (front_writer _ _ bz Hv) as H1. pose proof (front_writer _ _ [] Hbz) as H2. rewrite app_nil_r in H2. simpl in H1. congruence. }
  pose proof (f_equal as_integer (eq_trans (eq_sym (Hall 0 ltac:(lia))) (Hall 1 ltac:(lia)))) as He. rewrite !as_integer_eq in He. done.
Qed.

Lemma layout_nonempty l b : encode_board_layout_cbor l = Ok b -> 0 < len b.
Proof using L CL HZ.
  unfold encode_board_layout_cbor. intros (u & _ & Hw%map_err_Ok%write_nonempty)%res_bind_Ok.
  destruct b; [done|unfold len; simpl; lia].
Qed.

Lemma provision_parses hint psk ch frame o tail :
  uN 16 hint -> len psk = 32 -> 1 <= ch <= 13 -> len frame <= 202 -> layout_bytes o tail ->
  parse_node_provision (to_be_bytes 2 hint ++ psk ++ [ch] ++ to_be_bytes 2 (len frame) ++ frame ++ tail) =
    Ok (mkProvision hint psk ch frame (board_of o)).
Proof using L CL HZ.
  intros Hhint Hpsk Hch Hframe Hb. pose proof (len_nonneg frame). pose proof (len_nonneg tail).
  set (h := to_be_bytes 2 hint). set (n := to_be_bytes 2 (len frame)).
  assert (Hh : len h = 2) by reflexivity. assert (Hn : len n = 2) by reflexivity.
  assert (Hc : len [ch] = 1) by reflexivity.
  set (body := h ++ psk ++ [ch] ++ n ++ frame ++ tail).
  assert (Hl : len body = 37 + len frame + len tail) by (unfold body; rewrite !len_app; lia).
  assert (E1 : body = (h ++ psk) ++ ch :: (n ++ frame ++ tail)) by (unfold body; by rewrite <- app_assoc).
  assert (E2 : body = (h ++ psk ++ [ch]) ++ n ++ (frame ++ tail)) by (unfold body; by rewrite <- !app_assoc).
  assert (E3 : body = (h ++ psk ++ [ch] ++ n) ++ frame ++ tail) by (unfold body; by rewrite <- !app_assoc).
  assert (E4 : body = (h ++ psk ++ [ch] ++ n ++ frame) ++ tail) by (unfold body; by rewrite <- !app_assoc).
  assert (S1 : slice (E := string) body 0 2 = Ok h) by (by apply slice_app_l).
  assert (S2 : slice (E := string) body 2 34 = Ok psk) by (apply slice_app_mid; lia).
  assert (S3 : index (E := string) body 34 = Ok ch) by (rewrite E1; apply index_app_mid; rewrite len_app; lia).
  assert (S4 : slice (E := string) body 35 37 = Ok n) by (rewrite E2; apply slice_app_mid; rewrite !len_app; lia).
  assert (S5 : slice (E := string) body 37 (37 + len frame) = Ok frame) by (rewrite E3; apply slice_app_mid; rewrite !len_app; lia).
  assert (S6 : slice_from (E := string) body (37 + len frame) = Ok tail) by (rewrite E4; apply slice_from_app; rewrite !len_app; lia).
  clearbody body. unfold parse_node_provision, NODE_PROVISION_MIN_LEN, PEER_PAYLOAD_MAX_LEN, channel_in_range.
  rewrite (proj2 (Z.ltb_ge (len body) 37)) by lia. rewrite S1, S2, S3. cbn [res_bind].
  rewrite (proj2 (Z.leb_le 1 ch)), (proj2 (Z.leb_le ch 13)) by lia. cbn [negb andb]. rewrite S4. cbn [res_bind].
  unfold n, h. rewrite !from_to_be_bytes, !wrap_small by (done || unfold uN; simpl; lia).
  rewrite Z.gtb_ltb, (proj2 (Z.ltb_ge 202 (len frame))), (proj2 (Z.ltb_ge (len body) (37 + len frame))) by lia. rewrite S5. cbn [res_bind].
  destruct o as [l|]; simpl in Hb; rewrite Z.gtb_ltb.
  - destruct Hb as [Hp He]. pose proof (layout_nonempty _ _ He). rewrite (proj2 (Z.ltb_lt (37 + len frame) (len body))) by lia.
    rewrite S6. cbn [res_bind]. by rewrite (board_layout_roundtrip _ _ Hp He).
  - subst tail. rewrite (proj2 (Z.ltb_ge (37 + len frame) (len body))) by (unfold len in Hl |- *; simpl in Hl; lia). done.
Qed.
End Provision.

(** ** The phone between the gateway and a node *)

Inductive Peer : Type := ToGateway | ToNode.

Section PairWorld.
Context {Value : Type} `{C : Cbor Value} `{CS : !CborStream C}.
Context `{SH : Sha256Provider} `{AE : AeadProvider}.
Context {S E : Type} `{HST : Storage S} `{HR : !RecoveryStore S} `{HG : GwEnv Value E}.
Context (oc da : bool) (peer : list Z) (rssi : option Z).
(** The gateway's identity and channel; the addresses of the modem and of the node. *)
Context (ident : GatewayIdentity) (gw_channel : Z) (gw_addr node_addr : list Z).

#[local] Instance pair_link : NodeState.Env (World S E) := world_env oc da peer rssi.

(** The node, with the gateway at the other end of its radio; the gateway's
    controller; the phone: its connection, the indications that wait, its random
    bytes and its clock. *)
Record PairWorld := mkPairWorld {
  pw_node : Node (World S E);
  pw_ctl : BlePairingController;
  pw_link : option Peer;
  pw_inbox : list (list Z);
  pw_tape : list Z;
  pw_clock : Z
}.

Definition pw_gateway (w : PairWorld) : Gateway S E := w_gw (env (pw_node w)).

Definition set_gateway (n : Node (World S E)) (g : Gateway S E) : Node (World S E) :=
  with_env n (mkWorld g (inbox (env n)) (w_clock (env n)) (w_random (env n))).

Definition with_link (w : PairWorld) l i := mkPairWorld (pw_node w) (pw_ctl w) l i (pw_tape w) (pw_clock w).
Definition with_tape (w : PairWorld) t := mkPairWorld (pw_node w) (pw_ctl w) (pw_link w) (pw_inbox w) t (pw_clock w).

Definition draw (n : nat) (w : PairWorld) : Res PairingError (list Z) * PairWorld :=
  if (length (pw_tape w) <? n)%nat then (Err RngFailed, w)
  else (Ok (as_u8 <$> take n (pw_tape w)), with_tape w (drop n (pw_tape w))).

Definition queued (inbox : list (list Z)) (reply : option (list Z)) : list (list Z) :=
  inbox ++ match reply with Some r => [r] | None => [] end.

(** A write reaches the handler of the other side, whose answer is indicated. *)
Definition pw_write (service characteristic : Z) (data : list Z) (w : PairWorld) : Res PairingError unit * PairWorld :=
  match pw_link w with
  | Some ToGateway =>
      if (service =? GATEWAY_SERVICE_UUID) && (characteristic =? GATEWAY_COMMAND_UUID) then
        let g := pw_gateway w in
        let '(reply, b) := handle_ble_recv data ident gw_channel (mkBle (g_storage g) (g_env g) window_new (Some (pw_ctl w))) in
        (Ok tt, mkPairWorld (set_gateway (pw_node w) (set_env (set_storage g (b_storage b)) (b_env b)))
           (default (pw_ctl w) (b_controller b)) (pw_link w) (queued (pw_inbox w) reply) (pw_tape w) (pw_clock w))
      else (Err (GattWriteFailed "no such characteristic"), w)
  | Some ToNode =>
      if (service =? NODE_SERVICE_UUID) && (characteristic =? NODE_COMMAND_UUID) then
        match handle_gatt_write data (pw_node w) with
        | Some (Ok (reply, _), n) =>
            (Ok tt, mkPairWorld n (pw_ctl w) (pw_link w) (queued (pw_inbox w) reply) (pw_tape w) (pw_clock w))
        | Some (_, n) => (Ok tt, mkPairWorld n (pw_ctl w) None [] (pw_tape w) (pw_clock w))
        | None => (Ok tt, w)
        end
      else (Err (GattWriteFailed "no such characteristic"), w)
  | None => (Err ConnectionDropped, w)
  end.

#[local] Instance phone_env : PhoneEnv PairWorld := {|
  t_connect := fun address w =>
    if bool_decide (address = gw_addr) then (Ok BLE_MTU_MIN, with_link w (Some ToGateway) [])
    else if bool_decide (address = node_addr) then (Ok BLE_MTU_MIN, with_link w (Some ToNode) [])
    else (Err (DeviceNotFound address), w);
  t_disconnect := fun w => (Ok tt, with_link w None []);
  t_write := pw_write;
  t_read := fun _ _ _ w =>
    match pw_inbox w with
    | r :: rs => (Ok r, with_link w (pw_link w) rs)
    | [] => (Err IndicationTimeout, w)
    end;
  pairing_method := fun w => match pw_link w with Some ToGateway => Some NumericComparison | Some ToNode => Some JustWorks | None => None end;
  t_defer_bonding := fun _ w => w;
  fill_bytes := draw;
  getrandom := draw;
  system_ms := fun w => (pw_clock w, w);
  monotonic_ms := fun w => (pw_clock w, w);
  sleep_ms := fun t w => mkPairWorld (pw_node w) (pw_ctl w) (pw_link w) (pw_inbox w) (pw_tape w) (pw_clock w + t)
|}.

#[local] Instance phone_laws : PhoneLaws PairWorld.
Proof using .
  assert (Hd : forall n p p' b, draw n p = (Ok b, p') -> length b = n /\ bytes_ok b).
  { intros n p p' b. unfold draw. destruct (Nat.ltb_spec (length (pw_tape p)) n); [done|]. intros [= <- _]. split.
    - rewrite length_fmap, length_take. lia.
    - apply Forall_fmap, Forall_true. intros x. apply wrap_range. lia. }
  split; exact Hd.
Qed.

(** What a draw leaves alone. *)
Lemma draw_keeps n (w w' : PairWorld) b : draw n w = (Ok b, w') ->
  pw_node w' = pw_node w /\ pw_ctl w' = pw_ctl w /\ pw_link w' = pw_link w /\ pw_inbox w' = pw_inbox w /\ pw_clock w' = pw_clock w.
Proof using . unfold draw. destruct (_ <? _)%nat; [done|]. by intros [= _ <-]. Qed.

End PairWorld.
Arguments PairWorld : clear implicits.

(** ** The phases *)

Section Phases.
Context {Value : Type} `{C : Cbor Value} `{L : !CborLaws C} `{CS : !CborStream C} `{CL : !CborStreamLaws CS} `{HZ : !CborSize C}.
Context `{SH : Sha256Provider} `{HSH : !Sha256Laws SH} `{AE : AeadProvider} `{HA : !AeadLaws AE}.
Context {S E : Type} `{HL : StorageLaws S} `{HR : !RecoveryStore S} `{HG : GwEnv Value E} `{HS : !PairingReliable S}.
Context (oc da : bool) (peer : list Z) (rssi : option Z).
Context (ident : GatewayIdentity) (gw_channel : Z) (gw_addr node_addr : list Z).

#[local] Instance the_link : NodeState.Env (World S E) := world_env oc da peer rssi.
#[local] Instance the_phone : PhoneEnv (PairWorld S E) := phone_env oc da peer rssi ident gw_channel gw_addr node_addr.
#[local] Instance the_phone_laws : PhoneLaws (PairWorld S E) := phone_laws oc da peer rssi ident gw_channel gw_addr node_addr.
Abbreviation PW := (PairWorld S E).

(** The node, its radio and the phone's clock are as they were; the gateway may differ. *)
Record untouched (w w' : PW) : Prop := {
  ut_nvs : nvs (pw_node w') = nvs (pw_node w);
  ut_inbox : inbox (env (pw_node w')) = inbox (env (pw_node w));
  ut_clock : pw_clock w' = pw_clock w
}.

Tactic Notation "run_as" hyp(H) ident(a) ident(s) ident(Hx) := apply pbind_Ok in H as (a & s & Hx & H).

Lemma then_disconnect_Ok {A} (m : Ph PW A) w a w' :
  then_disconnect m w = (Ok a, w') -> exists w1, m w = (Ok a, w1) /\ w' = with_link w1 None [].
Proof using .
  unfold then_disconnect, disconnect, pbind, ptry, plift. destruct (m w) as [r w1]. simpl. intros [= -> <-]. by exists w1.
Qed.

(** Registering the phone. *)
Lemma phase1 lab (w w1 : PW) a :
  pair_with_gateway gw_addr lab w = (Ok a, w1) ->
  len (a_psk a) = 32 /\ 1 <= a_channel a <= 13 /\ untouched w w1 /\
  exists k t, gview (pw_gateway w1) =
    with_phone (gview (pw_gateway w)) (mkPhone k (key_hint_from_psk (a_psk a)) (a_psk a) lab t Active 0).
Proof using HL.
  unfold pair_with_gateway. destruct (Z.gtb_spec (len lab) 64); [done|]. intros Hr.
  run_as Hr mtu s1 Hx. cbn [t_connect the_phone phone_env] in Hx. rewrite bool_decide_true in Hx by done. injection Hx; intros; subst mtu s1; clear Hx.
  run_as Hr u1 s1 Hx. injection Hx; intros; subst s1; clear Hx. run_as Hr u2 s1 Hx. injection Hx; intros; subst s1; clear Hx.
  apply then_disconnect_Ok in Hr as (w2 & Hr & ->). unfold do_pair_with_gateway in Hr.
  run_as Hr psk s1 Hx. pose proof (fill_bytes_ok _ _ _ _ Hx) as [Hl _]. cbn [fill_bytes the_phone phone_env] in Hx.
  apply draw_keeps in Hx as (Hn & Hc & Hlk & Hib & Hck). cbn [with_link pw_node pw_ctl pw_link pw_inbox pw_clock] in *.
  run_as Hr register s2 Hreg. apply plift_Ok in Hreg as [Hreg%ok_or_Ok ->].
  run_as Hr u3 s2 Hx. cbn [t_write the_phone phone_env] in Hx. unfold pw_write in Hx. rewrite Hlk in Hx. cbn [andb Z.eqb GATEWAY_SERVICE_UUID GATEWAY_COMMAND_UUID Pos.eqb] in Hx.
  destruct (handle_ble_recv register ident gw_channel _) as [reply b] eqn:Hh. injection Hx; intros; subst s2; clear Hx.
  run_as Hr r s3 Hx. cbn [t_read the_phone phone_env pw_inbox] in Hx. rewrite Hib in Hx.
  destruct reply as [r'|]; cbn [queued app] in Hx; [|done]. injection Hx; intros; subst r' s3; clear Hx.
  run_as Hr tp s4 Hx. apply plift_Ok in Hx as [Hx ->]. destruct tp as [ty payload]. apply parse_envelope_iff in Hx.
  destruct (ty =? MSG_ERROR); [destruct (parse_error_body payload) as [st dg]; repeat case_match; discriminate|].
  destruct (Z.eqb_spec ty PHONE_REGISTERED) as [->|]; [|done]. cbn [negb] in Hr.
  destruct payload as [|st [|ch [|h [|l [|? ?]]]]]; try done.
  destruct (st =? 0) eqn:Hst; [|done]. cbn [negb] in Hr. run_as Hr u5 s5 Hv. apply plift_Ok in Hv as [Hch ->].
  destruct (_ =? _) eqn:Hk in Hr; [|done]. cbn [negb] in Hr. injection Hr; intros; subst a w2; clear Hr. cbn [a_psk a_channel].
  rewrite build_is_encode in Hreg. apply ble_envelope_roundtrip in Hreg.
  destruct (registered_stored _ _ _ _ _ _ _ _ Hh Hreg Hx) as (psk' & lab' & k & t & Hb & Hl' & Hv & Ha).
  assert (Hsplit : psk' = psk /\ [len lab'] ++ lab' = [as_u8 (len lab)] ++ lab).
  { assert (He : take 32 (psk ++ [as_u8 (len lab)] ++ lab) = take 32 (psk' ++ [len lab'] ++ lab')) by congruence.
    rewrite !take_app_length' in He by (unfold len in *; lia). subst psk'. split; [done|]. by apply app_inv_head in Hb. }
  destruct Hsplit as [-> Hlab]. injection Hlab as _ ->.
  split; [unfold len; lia|]. split; [|split].
  - revert Hch. unfold validate_rf_channel, channel_in_range. destruct (Z.leb_spec 1 ch), (Z.leb_spec ch 13); simpl; done || lia.
  - split; cbn; by rewrite ?Hn, ?Hck.
  - exists k, t. unfold gview, pw_gateway in *. cbn [with_link pw_node set_gateway with_env env w_gw g_storage set_env set_storage].
    rewrite Hv. cbn [b_storage]. by rewrite Hn.
Qed.

(** Provisioning where no write fails. *)
Lemma provision_world p (n : Node (World S E)) :
  exists n', handle_node_provision p n = Some (Ok NODE_ACK_SUCCESS, n') /\ nvs n' = provisioned p (nvs n) /\ env n' = env n.
Proof using .
  exists (with_nvs n (provisioned p (nvs n))). split; [|done].
  destruct n as [[k i ap pr ew ch pp rc bt bl sg tr] e st rt qu sl sq lg tc]. destruct p as [hint psk c pl bd].
  destruct bd as [|l]; [destruct bl as [l|]|]; vm_compute; reflexivity.
Qed.

Lemma encrypt_keeps k c (w w' : PW) f : encrypt_pairing_request k c w = (Ok f, w') -> pw_node w' = pw_node w.
Proof using .
  unfold encrypt_pairing_request. intros Hr. run_as Hr b1 s1 H1. run_as Hr b2 s2 H2. apply plift_Ok in H2 as [_ ->].
  run_as Hr b3 s3 H3. apply plift_Ok in Hr as [_ ->]. apply draw_keeps in H1 as [H1 _]. apply draw_keeps in H3 as [H3 _]. congruence.
Qed.

Lemma connect_node (w w' : PW) u : gw_addr <> node_addr -> connect_to_node node_addr w = (Ok u, w') -> w' = with_link w (Some ToNode) [].
Proof using .
  intros Hne. unfold connect_to_node, pbind, ptry, pmod, plift. cbn. rewrite bool_decide_false by (by intros ->). rewrite bool_decide_true by done.
  cbn. by intros [= _ <-].
Qed.

(** An empty identifier is refused. *)
Lemma node_id_nonempty node_id u : validate_node_id node_id = Ok u -> 1 <= len node_id.
Proof using . destruct node_id as [|c t]; [done|]. intros _. unfold len. simpl. lia. Qed.

(** The message and its acknowledgement. *)
Lemma provision_exchange hint psk ch frame o (w w' : PW) :
  do_provision_node hint psk ch frame o w = (Ok Success, w') -> pw_link w = Some ToNode -> pw_inbox w = [] ->
  uN 16 hint -> len psk = 32 -> 1 <= ch <= 13 -> (forall l, o = Some l -> pins_ok l) ->
  nvs (pw_node w') = provisioned (mkProvision hint psk ch frame (board_of o)) (nvs (pw_node w)) /\ env (pw_node w') = env (pw_node w).
Proof using L CL HZ.
  intros Hr Hlk Hib Hhint Hpsk Hch Hpins. unfold do_provision_node in Hr. destruct (Z.gtb_spec (len frame) PEER_PAYLOAD_MAX) as [|Hf]; [done|].
  run_as Hr tail s1 Hx. assert (Htail : layout_bytes o tail /\ s1 = w).
  { destruct o as [l|]; simpl; [apply plift_Ok in Hx as [Hx%map_err_Ok ->]; auto|]. by injection Hx as -> ->. }
  destruct Htail as [Htail ->]. clear Hx. run_as Hr message s2 Hx. apply plift_Ok in Hx as [Hm%ok_or_Ok ->].
  rewrite build_is_encode in Hm. apply ble_envelope_roundtrip in Hm.
  run_as Hr u s3 Hx. cbn [t_write the_phone phone_env] in Hx. unfold pw_write in Hx. rewrite Hlk in Hx. cbn [andb Z.eqb NODE_SERVICE_UUID NODE_COMMAND_UUID Pos.eqb] in Hx.
  unfold handle_gatt_write in Hx. rewrite Hm in Hx. change (NODE_PROVISION =? BLE_NODE_PROVISION) with true in Hx. cbv iota in Hx.
  rewrite (provision_parses hint psk ch frame o tail) in Hx by (done || exact Hf).
  destruct (provision_world (mkProvision hint psk ch frame (board_of o)) (pw_node w)) as (n' & Hn' & Hv & He).
  unfold NodeM.mbind, pair_link in Hx. unfold the_link in Hn'. rewrite Hn' in Hx. cbn in Hx. injection Hx; intros; subst s3; clear Hx.
  run_as Hr r s4 Hx. cbn [t_read the_phone phone_env pw_inbox] in Hx. rewrite Hib in Hx. cbn in Hx. injection Hx; intros; subst s4; clear Hx.
  run_as Hr tp s5 Hx. apply plift_Ok in Hx as [_ ->]. destruct tp as [ty payload].
  destruct (ty =? MSG_ERROR); [by destruct (parse_error_body payload)|]. destruct (negb _); [done|].
  run_as Hr status s6 Hx. apply plift_Ok in Hx as [_ ->]. destruct (from_byte status); try done. injection Hr as <-. done.
Qed.

(** Provisioning the node: what it stores is a frame that opens to the request. *)
Lemma phase2_sent a node_id ss o (w w2 : PW) :
  provision_node a node_addr node_id ss o w = (Ok Success, w2) -> gw_addr <> node_addr ->
  1 <= a_channel a <= 13 -> (forall l, o = Some l -> pins_ok l) ->
  exists psk frame f nonce outer cbor,
    len psk = 32 /\ env (pw_node w2) = env (pw_node w) /\
    nvs (pw_node w2) = provisioned (mkProvision (key_hint_from_psk psk) psk (a_channel a) frame (board_of o)) (nvs (pw_node w)) /\
    decode_frame frame = Ok f /\ header f = mkHeader (key_hint_from_psk (a_psk a)) MSG_PEER_REQUEST nonce /\ uN 64 nonce /\
    open_frame f (a_psk a) = Ok outer /\ open_pairing_request outer (a_psk a) = parse_pairing_request cbor /\
    encode_pairing_request node_id psk (a_channel a) ss (pw_clock w / 1000) = Ok cbor /\ uN 64 (pw_clock w / 1000) /\ 1 <= len node_id.
Proof using L CL HZ HSH HA.
  unfold provision_node. intros Hr Haddr Hch Hpins.
  run_as Hr u1 s1 Hx. apply plift_Ok in Hx as [Hval ->]. run_as Hr u2 s2 Hx. apply plift_Ok in Hx as [_ ->].
  run_as Hr psk s3 Hx. pose proof (fill_bytes_ok _ _ _ _ Hx) as [Hl _]. cbn [fill_bytes the_phone phone_env] in Hx.
  apply draw_keeps in Hx as (Hn3 & _ & _ & _ & Hck). run_as Hr now s4 Hx. injection Hx; intros; subst now s4; clear Hx.
  run_as Hr ts s5 Hx. apply plift_Ok in Hx as [Hts ->]. run_as Hr cbor s6 Hx. apply plift_Ok in Hx as [Hcbor ->].
  run_as Hr frame s7 Hx. pose proof (encrypt_opens _ _ _ _ _ Hx) as (f & nonce & outer & Hd & Hh & Hn & Ho & Hp).
  apply encrypt_keeps in Hx as Hn7. run_as Hr u8 s8 Hc. apply connect_node in Hc as ->; [|done].
  apply then_disconnect_Ok in Hr as (w9 & Hr & ->). apply provision_exchange in Hr as [Hnv Hen]; try done; [|apply key_hint_range|unfold len; lia].
  cbn [with_link pw_node] in *. rewrite Hn7, Hn3 in Hnv, Hen.
  rewrite Hck in Hts. unfold since_epoch in Hts. destruct (Z.ltb_spec (pw_clock w) 0); [done|].
  destruct (Z.ltb_spec (pw_clock w / 1000) (2 ^ 63)); [|done]. injection Hts as <-. pose proof (Z.div_pos (pw_clock w) 1000).
  exists psk, frame, f, nonce, outer, cbor. split_and!; try done; [unfold len; lia|unfold uN; lia|by apply (node_id_nonempty _ u1)].
Qed.

Lemma phase2 a node_id ss o (w w2 : PW) :
  provision_node a node_addr node_id ss o w = (Ok Success, w2) -> gw_addr <> node_addr ->
  1 <= a_channel a <= 13 -> len node_id <= 64 -> Forall sensor_ok ss -> (forall l, o = Some l -> pins_ok l) ->
  exists psk frame f nonce outer,
    len psk = 32 /\ env (pw_node w2) = env (pw_node w) /\
    nvs (pw_node w2) = provisioned (mkProvision (key_hint_from_psk psk) psk (a_channel a) frame (board_of o)) (nvs (pw_node w)) /\
    decode_frame frame = Ok f /\ header f = mkHeader (key_hint_from_psk (a_psk a)) MSG_PEER_REQUEST nonce /\ uN 64 nonce /\
    open_frame f (a_psk a) = Ok outer /\
    open_pairing_request outer (a_psk a) = Some (mkPairing node_id (key_hint_from_psk psk) psk (a_channel a) (pw_clock w / 1000) ss).
Proof using L CL HZ HSH HA.
  intros Hr Haddr Hch Hid Hss Hpins.
  destruct (phase2_sent _ _ _ _ _ _ Hr) as (psk & frame & f & nonce & outer & cbor & Hl & He & Hnv & Hd & Hh & Hn & Ho & Hp & Hc & Hts & H1); try done.
  exists psk, frame, f, nonce, outer. split_and!; try done. rewrite Hp. by apply pairing_request_agrees.
Qed.

(** The node sends the frame it holds, and the gateway's answer completes its
    registration. *)
Lemma exchange_accepted fuel nid frame f P Q (n : Node (World S E)) :
  decode_frame frame = Ok f -> h_msg_type (header f) = MSG_PEER_REQUEST ->
  gok P (process_frame oc da frame peer rssi) (fun reply g => Q g /\ verify_peer_ack reply nid (h_nonce (header f)) = Ok tt) ->
  P (w_gw (env n)) -> inbox (env n) = [] ->
  exists n', peer_request_exchange (Datatypes.S fuel) nid frame n = Some (Ok true, n') /\
    nvs n' = nvs_reg (nvs n) true /\ Q (w_gw (env n')) /\ inbox (env n') = [].
Proof using .
  intros Hd Ht Hg Hp Hi. unfold peer_request_exchange, build_peer_request_frame. rewrite Hd. cbn [map_err res_bind]. rewrite Ht.
  change (negb (MSG_PEER_REQUEST =? MSG_PEER_REQUEST)) with false. cbv iota. erewrite run_bind by reflexivity. rewrite Hd. cbn [map_err].
  erewrite run_bind by reflexivity.
  destruct (send_answered oc da peer rssi frame P _ n Hg) as (n1 & reply & Hs & Hl & _ & [Hq Hv] & Hin); [by split|].
  rewrite (run_bind _ _ _ _ _ Hs). erewrite run_bind by reflexivity. cbn [ack_loop]. erewrite run_bind by reflexivity.
  cbn [elapsed the_link world_env with_env env]. rewrite Z.sub_diag. change (Z.max 0 0 >=? PEER_ACK_TIMEOUT_MS) with false. cbv iota.
  destruct (recv_reply oc da peer rssi (Z.min (as_u32 (PEER_ACK_TIMEOUT_MS - Z.max 0 0)) 500) (with_env n1 (env n1)) reply Hin) as (n2 & Hr & Hl2 & _ & Hgw & Hin2).
  change (with_env (with_env n1 (env n1)) (env (with_env n1 (env n1)))) with (with_env n1 (env n1)).
  rewrite (run_bind _ _ _ _ _ Hr). rewrite Hv. eexists. split; [reflexivity|]. cbn [nvs env with_nvs with_env].
  split_and!; [|by rewrite Hgw|done]. by rewrite (lk_nvs _ _ Hl2), <- (lk_nvs _ _ Hl).
Qed.

(** C3: a node the pairing tool reports as provisioned registers at the gateway when it
    next wakes up, if nothing fails and the gateway accepts what the tool does not
    check.  Suppose the tool registered a phone at the gateway and then provisioned a
    node over Bluetooth, each reporting success; no other phone has the phone's key hint,
    the node's identifier is free and at most 64 bytes as it was given, the sensors have
    types 1 to 4 and labels of at most 64 bytes, the clocks of phone and gateway differ
    by at most a day, the gateway's storage answers and the node's radio loses nothing.
    Then the node, rebooted with what it stored, holds a key of 32 bytes with its hint,
    sends the gateway a frame that the gateway opens with the phone's key, and accepts
    the answer: its registration is complete, and the gateway's record of that
    identifier holds the very key and channel the node holds, with the sensors and the
    phone named. *)
Theorem paired_node_registers lab node_id ss o (w0 w1 w2 : PW) a fuel :
  pair_with_gateway gw_addr lab w0 = (Ok a, w1) ->
  provision_node a node_addr node_id ss o w1 = (Ok Success, w2) ->
  gw_addr <> node_addr -> len node_id <= 64 -> Forall sensor_ok ss -> (forall l, o = Some l -> pins_ok l) ->
  (forall q, q ∈ v_phones (gview (pw_gateway w0)) -> phone_key_hint q <> key_hint_from_psk (a_psk a)) ->
  v_nodes (gview (pw_gateway w0)) !! string_of node_id = None ->
  inbox (env (pw_node w0)) = [] ->
  0 <= (unix_ms (g_env (pw_gateway w1))).1 ->
  Z.abs ((unix_ms (g_env (pw_gateway w1))).1 / 1000 - pw_clock w0 / 1000) <= MAX_TIMESTAMP_DRIFT_S ->
  exists psk ph,
    len psk = 32 /\ ph ∈ v_phones (gview (pw_gateway w1)) /\ phone_psk ph = a_psk a /\ phone_label ph = lab /\
    key (nvs (pw_node w2)) = Some (key_hint_from_psk psk, psk) /\
    channel (nvs (pw_node w2)) = Some (a_channel a) /\ reg_complete (nvs (pw_node w2)) = false /\
    forall n, nvs n = nvs (pw_node w2) -> env n = env (pw_node w2) ->
      exists n', registration (Datatypes.S fuel) (mkIdentity (key_hint_from_psk psk) psk) n = Some (Ok (inr tt), n') /\
        reg_complete (nvs n') = true /\ key (nvs n') = Some (key_hint_from_psk psk, psk) /\
        v_nodes (gview (w_gw (env n'))) !! string_of node_id = Some (registered_record ph node_id psk (a_channel a) ss).
Proof using L CL HZ HSH HA HL HS.
  intros H1 H2 Haddr Hid Hss Hpins Hphones Hfree Hin Hms Hclk.
  destruct (phase1 _ _ _ _ H1) as (_ & Hch & [Hut1 Hut2 Hut3] & k & t & Hg).
  destruct (phase2 _ _ _ _ _ _ H2) as (psk & frame & f & nonce & outer & Hpsk & Hen & Hnv & Hd & Hh & Hn & Ho & Hp); try done.
  set (ph := mkPhone k (key_hint_from_psk (a_psk a)) (a_psk a) lab t Active 0) in *.
  assert (Hex : expecting ph node_id (pw_clock w1 / 1000) (pw_gateway w1)).
  { split; try done; rewrite ?Hg, ?Hut3; [set_solver| |done|done]. intros q. simpl.
    rewrite elem_of_app, list_elem_of_singleton. intros [Hq|Hq] He; [by destruct (Hphones q Hq)|done]. }
  exists psk, ph. rewrite Hg, Hnv. split_and!; try done; [set_solver|]. intros n Hnn Hne.
  unfold registration. erewrite run_bind by reflexivity. rewrite Hnn. cbn [reg_complete provisioned nvs_board nvs_channel nvs_reg nvs_peer nvs_key].
  erewrite run_bind by reflexivity. rewrite Hnn. cbn [peer_payload provisioned nvs_board nvs_channel nvs_reg nvs_peer nvs_key np_payload].
  destruct (exchange_accepted fuel (mkIdentity (key_hint_from_psk psk) psk) frame f (expecting ph node_id (pw_clock w1 / 1000))
    (fun g => v_nodes (gview g) !! string_of node_id = Some (registered_record ph node_id psk (a_channel a) ss)) n) as (n' & Hx & Hv & Hq & _).
  - done.
  - by rewrite Hh.
  - rewrite Hh. intros g Hgx. destruct (peer_request_accepted oc da peer rssi ph node_id psk (a_channel a) ss (pw_clock w1 / 1000) f nonce outer frame) with g
      as (reply & g' & Hrun & Hq & Hack); try done. by exists reply, g'.
  - by rewrite Hne, Hen.
  - by rewrite Hne, Hen, Hut2.
  - rewrite (run_bind _ _ _ _ _ (run_try _ _ _ _ Hx)). exists n'. split; [done|]. rewrite Hv, Hnn. by split_and!.
Qed.
(** An identifier that is too long only because of its padding is lost.  The tool
    checks the identifier with its white space trimmed but sends it as it is; when the
    bytes it sends are more than 64, the tool still reports success and the node stores
    the request, but the gateway discards it and registers nothing, each time the node
    sends it. *)
Lemma padded_id_lost lab node_id ss o (w0 w1 w2 : PW) a :
  pair_with_gateway gw_addr lab w0 = (Ok a, w1) ->
  provision_node a node_addr node_id ss o w1 = (Ok Success, w2) ->
  gw_addr <> node_addr -> 64 < len node_id -> Forall sensor_ok ss -> (forall l, o = Some l -> pins_ok l) ->
  (forall q, q ∈ v_phones (gview (pw_gateway w0)) -> phone_key_hint q <> key_hint_from_psk (a_psk a)) ->
  exists psk frame,
    key (nvs (pw_node w2)) = Some (key_hint_from_psk psk, psk) /\ peer_payload (nvs (pw_node w2)) = Some frame /\
    forall g, v_phones (gview g) = v_phones (gview (pw_gateway w1)) ->
      exists g', process_frame oc da frame peer rssi g = (Err tt, g') /\ gview g' = gview g.
Proof using L CL HZ HSH HA HL HS.
  intros H1 H2 Haddr Hid Hss Hpins Hphones. destruct (phase1 _ _ _ _ H1) as (_ & Hch & _ & k & t & Hg).
  destruct (phase2_sent _ _ _ _ _ _ H2) as (psk & frame & f & nonce & outer & cbor & Hl & _ & Hnv & Hd & Hh & _ & Ho & Hp & Hc & Hts & _); try done.
  set (ph := mkPhone k (key_hint_from_psk (a_psk a)) (a_psk a) lab t Active 0) in *.
  exists psk, frame. rewrite Hnv. split_and!; try done. intros g Hgv.
  assert (Hnone : parse_pairing_request cbor = None) by (by eapply overlong_request).
  apply (request_discarded oc da peer rssi ph f nonce outer frame); try done; [| |by etransitivity; [exact Hp|]].
  - rewrite Hgv, Hg. simpl. set_solver.
  - intros q. rewrite Hgv, Hg. simpl. rewrite elem_of_app, list_elem_of_singleton. intros [Hq|Hq] He; [by destruct (Hphones q Hq)|done].
Qed.
End Phases.
