(* ===== verification/PairingDemo.v ===== *)
(** * Pairing in operation

    A phone that registers at the gateway of [GwDemo] and provisions a new node, the
    same with an identifier padded with spaces, and a node whose flash fails while it
    is provisioned: the theorems about pairing applied to them. *)

From Stdlib Require Import String.
From S2P Require Import Prelude Frame Messages BoardLayout BleEnvelope ProgramImage CborModel CborCompact.
From S2P Require Import MapStorage AsyncQueue NodeM NodeState NodePairing NodeRadio NodeStore BpfDispatch WakeCycle BpfExec BpfAdapter NodeDemo.
From S2P Require Import Session GwStore GwState GwPairing GwEngine GwLogic GwServe EndToEnd GwDemo PhonePairing PairingLink.
Open Scope list_scope.
Open Scope Z_scope.

#[local] Existing Instance compact_cbor | 0.
#[local] Existing Instance sum_sha | 0.
#[local] Existing Instance keyed_aead | 0.
#[local] Existing Instance sum_sha_laws | 0.
#[local] Existing Instance host_env.
#[local] Existing Instance demo_recovery.

#[local] Instance mem_pairing : PairingReliable InMemoryStorage.
Proof. split; intros; [by eexists|]. simpl. unfold Mem.insert_node_if_not_exists. case_match; by eexists. Qed.

(** ** A phone, the gateway and a new node *)

Definition new_node : Nvs := mkNvs None 60 0 [None; None] false None None false None None None None.

(** The administrator has opened the window for two minutes; the phone's random
    bytes and its clock. *)
Definition pair_world : PairWorld InMemoryStorage Host :=
  mkPairWorld
    (mkNode new_node (mkWorld demo_gateway [] 0 42) (table demo_base MAP_BUDGET []) demo_rtc
      (AsyncQueue.mkLayout QUEUE_MAGIC 0 (items layout_zero)) (sleep_new 60 Scheduled) 0 [] [])
    (open_window 0 0 120 Admin controller_new).2 None [] (Z.of_nat <$> seq 0 200) 100000000.

Definition demo_identity : GatewayIdentity := mkGwIdentity (replicate 32 1) (replicate 16 2) (fun _ => replicate 64 0).
Definition modem_addr : list Z := [1].
Definition node_ble_addr : list Z := [2].

#[local] Instance demo_phone_env : PhoneEnv (PairWorld InMemoryStorage Host) :=
  phone_env false false [1; 2; 3; 4; 5; 6] (Some (-40)) demo_identity 6 modem_addr node_ble_addr.
#[local] Existing Instance demo_link.

Definition phone_name : list Z := [109; 101].
Definition demo_sensors : list SensorDescriptor := [mkSensor 1 0x48 (Some [116])].

(** Both phases. *)
Definition pairing (node_id : list Z) (ss : list SensorDescriptor) :
    option (PairingArtifacts * PairWorld InMemoryStorage Host * PairWorld InMemoryStorage Host) :=
  match pair_with_gateway modem_addr phone_name pair_world with
  | (Ok a, w1) =>
      match provision_node a node_ble_addr node_id ss (Some demo_board) w1 with
      | (Ok Success, w2) => Some (a, w1, w2)
      | _ => None
      end
  | _ => None
  end.

(** What the theorems suppose of the outcome. *)
Definition unambiguous (a : PairingArtifacts) : bool :=
  forallb (fun q => negb (phone_key_hint q =? key_hint_from_psk (a_psk a))) (v_phones (gview (pw_gateway pair_world))).
Definition clocks_agree (w1 : PairWorld InMemoryStorage Host) : bool :=
  let ms := (unix_ms (g_env (pw_gateway w1))).1 in
  (0 <=? ms) && (Z.abs (ms / 1000 - pw_clock pair_world / 1000) <=? MAX_TIMESTAMP_DRIFT_S).

Definition paired_ok (node_id : list Z) (ss : list SensorDescriptor) : bool :=
  match pairing node_id ss with Some (a, w1, _) => unambiguous a && clocks_agree w1 | None => false end.

Definition padded_id : list Z := [110] ++ replicate 64 32.

Lemma pairings_succeed : paired_ok [110; 50] demo_sensors && paired_ok padded_id [] = true.
Proof. by vm_compute. Qed.

Lemma demo_pins l : Some demo_board = Some l -> pins_ok l.
Proof. intros [= <-]. by vm_compute. Qed.

(** The run behind a check that succeeded. *)
Lemma pairing_run node_id ss :
  paired_ok node_id ss = true ->
  exists a w1 w2, pair_with_gateway modem_addr phone_name pair_world = (Ok a, w1) /\
    provision_node a node_ble_addr node_id ss (Some demo_board) w1 = (Ok Success, w2) /\
    (forall q, q ∈ v_phones (gview (pw_gateway pair_world)) -> phone_key_hint q <> key_hint_from_psk (a_psk a)) /\
    0 <= (unix_ms (g_env (pw_gateway w1))).1 /\
    Z.abs ((unix_ms (g_env (pw_gateway w1))).1 / 1000 - pw_clock pair_world / 1000) <= MAX_TIMESTAMP_DRIFT_S.
Proof.
  unfold paired_ok, pairing. destruct (pair_with_gateway _ _ _) as [[a| | |] w1]; try done.
  destruct (provision_node _ _ _ _ _ _) as [[[]| | |] w2] eqn:H2; try done.
  intros [Hu [Hc1%Z.leb_le Hc2%Z.leb_le]%andb_prop]%andb_prop. exists a, w1, w2. split_and!; try done.
  intros q Hq. unfold unambiguous in Hu. rewrite forallb_forall in Hu. apply Z.eqb_neq, negb_true_iff, Hu. by apply list_elem_of_In.
Qed.

(** The phone registers, the node is provisioned, and it registers when it wakes up. *)
Lemma paired_node_registers_witness :
  exists a psk ph (w2 : PairWorld InMemoryStorage Host) n',
    key (nvs (pw_node w2)) = Some (key_hint_from_psk psk, psk) /\
    registration 1 (mkIdentity (key_hint_from_psk psk) psk) (pw_node w2) = Some (Ok (inr tt), n') /\
    v_nodes (gview (w_gw (env n'))) !! "n2"%string = Some (registered_record ph [110; 50] psk (a_channel a) demo_sensors).
Proof.
  pose proof pairings_succeed as [Hok _]%andb_prop. apply pairing_run in Hok as (a & w1 & w2 & H1 & H2 & Hu & Hc1 & Hc2).
  destruct (paired_node_registers false false [1; 2; 3; 4; 5; 6] (Some (-40)) demo_identity 6 modem_addr node_ble_addr
    phone_name [110; 50] demo_sensors (Some demo_board) pair_world w1 w2 a 0 H1 H2) as (psk & ph & _ & _ & _ & _ & Hk & _ & _ & Hn).
  - discriminate.
  - by apply Z.leb_le.
  - apply Forall_singleton. split_and!; [done..|]. intros l [= <-]. by apply Z.leb_le.
  - exact demo_pins.
  - exact Hu.
  - by vm_compute.
  - reflexivity.
  - exact Hc1.
  - exact Hc2.
  - destruct (Hn (pw_node w2) eq_refl eq_refl) as (n' & Hr & _ & _ & Hv). exists a, psk, ph, w2, n'. split_and!; [exact Hk|exact Hr|exact Hv].
Defined.

(** The padded identifier: success for the user, and nothing at the gateway. *)
Lemma padded_id_lost_witness :
  exists psk frame (w1 w2 : PairWorld InMemoryStorage Host) g',
    key (nvs (pw_node w2)) = Some (key_hint_from_psk psk, psk) /\ peer_payload (nvs (pw_node w2)) = Some frame /\
    process_frame false false frame [1; 2; 3; 4; 5; 6] (Some (-40)) (pw_gateway w1) = (Err tt, g').
Proof.
  pose proof pairings_succeed as [_ Hok]%andb_prop. apply pairing_run in Hok as (a & w1 & w2 & H1 & H2 & Hu & _ & _).
  destruct (padded_id_lost false false [1; 2; 3; 4; 5; 6] (Some (-40)) demo_identity 6 modem_addr node_ble_addr
    phone_name padded_id [] (Some demo_board) pair_world w1 w2 a H1 H2) as (psk & frame & Hk & Hf & Hg).
  - discriminate.
  - by apply Z.ltb_lt.
  - by apply Forall_nil_2.
  - exact demo_pins.
  - exact Hu.
  - destruct (Hg (pw_gateway w1) eq_refl) as (g' & Hr & _). exists psk, frame, w1, w2, g'. split_and!; [exact Hk|exact Hf|exact Hr].
Defined.

(** ** A phone before the administrator opens the window, and after *)

Definition closed_ble : Ble InMemoryStorage Host := mkBle demo_storage host window_new (Some controller_new).
Definition open_ble : Ble InMemoryStorage Host :=
  with_controller closed_ble (open_window 0 0 120 Admin controller_new).2.
Definition register_message : list Z := default [] (encode_ble_envelope BLE_MSG_REGISTER_PHONE (replicate 32 8 ++ [2] ++ phone_name)).

Lemma window_counts :
  length (v_phones (view (b_storage (handle_ble_recv register_message demo_identity 6 open_ble).2))) = 2%nat.
Proof. by vm_compute. Qed.

Lemma phone_registration_gated_witness :
  (let '(reply, b') := handle_ble_recv register_message demo_identity 6 closed_ble in
   reply = encode_ble_envelope BLE_MSG_ERROR [ERROR_WINDOW_CLOSED] /\ view (b_storage b') = view (b_storage closed_ble)) /\
  (let '(reply, b') := handle_ble_recv register_message demo_identity 6 open_ble in
   exists psk label k t, view (b_storage b') = with_phone (view (b_storage open_ble)) (mkPhone k (key_hint_from_psk psk) psk label t Active 0)).
Proof.
  split.
  - destruct (handle_ble_recv register_message demo_identity 6 closed_ble) as [reply b'] eqn:Hr.
    destruct (phone_registration_gated demo_identity closed_ble [] closed_ble register_message 6 reply b' (run_start _ _ _ _) Hr) as [[Hv _]|Hx].
    + split; [|exact Hv]. by injection Hr as <- _.
    + destruct Hx as (? & ? & ? & ? & ? & ? & pre & post & _ & _ & _ & _ & _ & _ & Hl & _). by destruct pre.
  - destruct (handle_ble_recv register_message demo_identity 6 open_ble) as [reply b'] eqn:Hr.
    assert (Hrun : pair_run demo_identity closed_ble ([] ++ [LOpened 0 120]) open_ble).
    { eapply run_step; [apply run_start|]. eapply (step_open _ closed_ble controller_new 0 0 120 Admin); reflexivity. }
    destruct (phone_registration_gated demo_identity closed_ble ([] ++ [LOpened 0 120]) open_ble register_message 6 reply b' Hrun Hr) as [[Hv _]|Hx].
    + pose proof window_counts as Hc. rewrite Hr in Hc. cbn [snd] in Hc. by rewrite Hv in Hc.
    + destruct Hx as (psk & label & k & t & _ & _ & _ & _ & _ & _ & _ & _ & Hv & _). by exists psk, label, k, t.
Defined.

(** ** A node whose flash fails *)

(** Which of the next writes fail, and how many did. *)
Record Flash := mkFlash { fails : list bool; failed : nat }.

#[local] Instance flash_env : NodeState.Env Flash := {|
  t_send := fun e _ => (Ok tt, e);
  t_rssi := fun _ => None;
  t_recv := fun e _ => (Ok None, e);
  elapsed := fun e => (0, e);
  delay := fun e _ => e;
  delay_micros := fun e _ => e;
  random := fun e => (42, e);
  rng_healthy := fun e => (true, e);
  active_gpio := fun e => e;
  idle_gpio := fun e => e;
  adc := fun e _ => (0, e);
  gpio_get := fun e _ => (0, e);
  gpio_set := fun e _ _ => (0, e);
  i2c_read := fun e _ k => ((0, replicate (Z.to_nat k) 0), e);
  i2c_write := fun e _ _ => (0, e);
  i2c_write_read := fun e _ _ k => ((0, replicate (Z.to_nat k) 0), e);
  spi_transfer := fun e _ d => ((0, d), e);
  flash_fault := fun e =>
    match fails e with
    | true :: l => (Some (MapStorage.StorageError "NVS write failed"), mkFlash l (S (failed e)))
    | false :: l => (None, mkFlash l (failed e))
    | [] => (None, e)
    end;
  program_fault := fun e img => ((Some img, None), e)
|}.

Lemma flash_counts e : failed (flash_fault e).2 = (match (flash_fault e).1 with Some _ => 1 | None => 0 end + failed e)%nat.
Proof. destruct e as [[|[] l] k]; reflexivity. Qed.

(** A node that was paired on channel 3; the write of the new channel fails. *)
Definition repaired_node : Node Flash :=
  mkNode (mkNvs (Some (0x2222, node_key)) 60 0 [None; None] false (Some 3) None true None None None None)
    (mkFlash [false; false; false; false; true] 0) (table demo_base MAP_BUDGET []) demo_rtc
    (AsyncQueue.mkLayout QUEUE_MAGIC 0 (items layout_zero)) (sleep_new 60 Scheduled) 0 [] [].
Definition demo_provision : NodeProvision := mkProvision 0x3333 new_key 6 [1; 2; 3] (Provided demo_board).

Lemma provision_outcome :
  match handle_node_provision demo_provision repaired_node with
  | Some (Ok st, n') => (st =? NODE_ACK_STORAGE_ERROR) && (failed (env n') =? 1)%nat && bool_decide (channel (nvs n') = Some 3)
  | _ => false
  end = true.
Proof. by vm_compute. Qed.

Lemma provision_atomic_witness :
  exists n', handle_node_provision demo_provision repaired_node = Some (Ok NODE_ACK_STORAGE_ERROR, n') /\
    (nvs n' = nvs repaired_node \/ undone (nvs repaired_node) (nvs n')).
Proof.
  destruct (provision_atomic failed flash_counts demo_provision repaired_node) as (st & n' & Hr & Hx).
  pose proof provision_outcome as Ho. rewrite Hr in Ho. apply andb_prop in Ho as [[Hs%Z.eqb_eq Hf%Nat.eqb_eq]%andb_prop _].
  exists n'. split; [by rewrite <- Hs|]. destruct Hx as [[-> _]|(_ & _ & Hx)]; [discriminate Hs|]. apply Hx. by rewrite Hf.
Defined.
