(* ===== verification/GwElf.v ===== *)
(** * ELF files of programs

    [sonde-gateway/src/program.rs]: the functions that read an ELF file an
    administrator uploads - whether it has map-backed sections or a section of a given
    name, the contents of its global variables, and the rewriting of the instructions
    that refer to them.  The gateway runs on a 64-bit host; [oc] is the build's
    overflow checking. *)

From Stdlib Require Import String.
From S2P Require Import Prelude Frame Messages ProgramImage GwStore.
Open Scope list_scope.
Open Scope Z_scope.

(** A message is kept without the numbers and names it quotes. *)
Inductive ProgramError : Type :=
  | InvalidImage
  | ImageTooLarge (size limit : Z)
  | NotFound
  | ElfParseError (msg : list Z)
  | VerificationFailed (msg : list Z)
  | Internal (msg : string).

Abbreviation Prog := (Res ProgramError).

Definition parse_error (msg : string) : ProgramError := ElfParseError (bytes_of msg).
Definition parse_err {A} (msg : string) : Prog A := Err (parse_error msg).

Definition MAX_RESIDENT_SIZE : Z := 4096.
Definition MAP_SECTION_NAMES : list (list Z) := bytes_of <$> [".maps"; "maps"; ".rodata"; ".data"; ".bss"]%string.
Definition MAP_SECTION_PREFIXES : list (list Z) := bytes_of <$> [".maps/"; "maps/"; ".rodata."; ".data."; ".bss."]%string.
Definition GLOBAL_DATA_SECTION_NAMES : list (list Z) := bytes_of <$> [".rodata"; ".data"; ".bss"]%string.
Definition SHT_PROGBITS : Z := 1.
Definition SHT_SYMTAB : Z := 2.
Definition SHT_RELA : Z := 4.
Definition SHT_REL : Z := 9.
Definition BPF_LD_DW_IMM : Z := 0x18.
Definition STT_SECTION : Z := 3.

(** What Prevail says of a map. *)
Record EbpfMapDescriptor := mkDescriptor {
  original_fd : Z;
  md_type : Z;
  md_key_size : Z;
  md_value_size : Z;
  md_max_entries : Z;
  inner_map_fd : Z
}.

(** The initial data of each map and whether it is read-only: the maps made of global
    sections take the sections in order. *)
Fixpoint assign_globals (descriptors : list EbpfMapDescriptor) (sections : list (list Z * bool)) : list (list Z * bool) :=
  match descriptors with
  | [] => []
  | d :: ds =>
      if md_type d =? 0 then
        match sections with
        | s :: ss => s :: assign_globals ds ss
        | [] => ([], false) :: assign_globals ds []
        end
      else ([], false) :: assign_globals ds sections
  end.

(** ** Names *)

Definition starts_with (name p : list Z) : bool := bool_decide (take (length p) name = p).

Definition is_map_section (name : list Z) : bool :=
  bool_decide (name ∈ MAP_SECTION_NAMES) || existsb (starts_with name) MAP_SECTION_PREFIXES.

(** The prefix itself, or the prefix and a dot. *)
Definition is_variant (name prefix : list Z) : bool :=
  bool_decide (name = prefix) || (starts_with name prefix && starts_with (drop (length prefix) name) [46]).

Definition is_global_name (name : list Z) : bool := existsb (is_variant name) GLOBAL_DATA_SECTION_NAMES.
Definition is_readonly_name (name : list Z) : bool := is_variant name (bytes_of ".rodata").

(** The bytes up to the first NUL. *)
Fixpoint until_nul (l : list Z) : list Z :=
  match l with
  | [] => []
  | b :: l' => if b =? 0 then [] else b :: until_nul l'
  end.

(** ** Reading *)

(** The bytes [l[off]], [l[off + 1]], ... in turn.  The index does not overflow: a
    slice has fewer than 2^63 elements. *)
Fixpoint read_bytes (l : list Z) (n : nat) (off : Z) : Prog (list Z) :=
  match n with
  | O => Ok []
  | S n' =>
      let? b := index l off in
      let? bs := read_bytes l n' (off + 1) in
      Ok (b :: bs)
  end.

Definition read_le (l : list Z) (n : nat) (off : Z) : Prog Z :=
  let? bs := read_bytes l n off in Ok (from_le_bytes bs).

(** The section headers and the table of section names. *)
Record SectionTable := mkTable { sh_off : Z; sh_entsize : Z; sh_num : Z; strtab : list Z }.

Definition section_hdr (off entsize i : Z) : option Z := checked_mul 64 i entsize ≫= checked_add 64 off.

Section Elf.
Context (oc : bool) (data : list Z).

Definition is_bpf_elf : Prog bool :=
  if len data <? 64 then Ok false else
  let? magic := slice data 0 4 in
  let? class := index data 4 in
  let? encoding := index data 5 in
  if negb (bool_decide (magic = [0x7f; 69; 76; 70])) || negb (class =? 2) || negb (encoding =? 1) then Ok false else
  let? e_machine := read_le data 2 18 in
  Ok (e_machine =? 0x00F7).

(** The beginning of the three functions that only look. *)
Definition section_table : Prog (option SectionTable) :=
  let? bpf := is_bpf_elf in
  if negb bpf then Ok None else
  let? off := read_le data 8 40 in
  let? entsize := read_le data 2 58 in
  let? num := read_le data 2 60 in
  let? strndx := read_le data 2 62 in
  if (num <=? strndx) || (entsize <? 64) then Ok None else
  match section_hdr off entsize strndx with
  | None => Ok None
  | Some str_sh =>
      if str_sh >? Z.max 0 (len data - 40) then Ok None else
      let? strtab_off := read_le data 8 (str_sh + 24) in
      let? strtab_size := read_le data 8 (str_sh + 32) in
      match checked_add 64 strtab_off strtab_size with
      | None => Ok None
      | Some strtab_end =>
          if strtab_end >? len data then Ok None else
          let? names := slice data strtab_off strtab_end in
          Ok (Some (mkTable off entsize num names))
      end
  end.

(** ** The three functions that only look

    The loops run over the [k] sections from section [i] on. *)

Fixpoint scan_map_sections (t : SectionTable) (k : nat) (i : Z) : Prog bool :=
  match k with
  | O => Ok false
  | S k' =>
      match section_hdr (sh_off t) (sh_entsize t) i with
      | None => Ok false
      | Some hdr =>
          if hdr >? Z.max 0 (len data - 4) then Ok false else
          let? name_off := read_le data 4 hdr in
          if name_off >=? len (strtab t) then scan_map_sections t k' (i + 1) else
          let name := until_nul (drop (Z.to_nat name_off) (strtab t)) in
          if from_utf8 name && is_map_section name then Ok true else scan_map_sections t k' (i + 1)
      end
  end.

Definition elf_has_map_sections : Prog bool :=
  let? o := section_table in
  match o with
  | None => Ok false
  | Some t => scan_map_sections t (Z.to_nat (sh_num t)) 0
  end.

Fixpoint scan_section (t : SectionTable) (target : list Z) (k : nat) (i : Z) : Prog bool :=
  match k with
  | O => Ok false
  | S k' =>
      match section_hdr (sh_off t) (sh_entsize t) i with
      | None => Ok false
      | Some hdr =>
          if hdr >? Z.max 0 (len data - 4) then Ok false else
          let? name_off := read_le data 4 hdr in
          if name_off >=? len (strtab t) then scan_section t target k' (i + 1) else
          let name := until_nul (drop (Z.to_nat name_off) (strtab t)) in
          if from_utf8 name && bool_decide (name = target) then
            let? hdr_end := arith_u oc 64 (hdr + 40) in
            if hdr_end <=? len data then
              let? sec_size := read_le data 8 (hdr + 32) in
              if sec_size >? 0 then Ok true else scan_section t target k' (i + 1)
            else scan_section t target k' (i + 1)
          else scan_section t target k' (i + 1)
      end
  end.

Definition elf_has_section (target : list Z) : Prog bool :=
  let? o := section_table in
  match o with
  | None => Ok false
  | Some t => scan_section t target (Z.to_nat (sh_num t)) 0
  end.

(** The data of a global section and whether it is read-only; [None] when the section
    is passed over. *)
Definition global_section (hdr : Z) (name : list Z) : Prog (option (list Z * bool)) :=
  let? sh_type := read_le data 4 (hdr + 4) in
  let? sec_off := read_le data 8 (hdr + 24) in
  let? sec_size := read_le data 8 (hdr + 32) in
  if sh_type =? SHT_PROGBITS then
    match checked_add 64 sec_off sec_size with
    | Some sec_end =>
        if sec_end <=? len data then
          let? content := slice data sec_off sec_end in
          Ok (Some (content, is_readonly_name name))
        else Ok None
    | None => Ok None
    end
  else Ok (Some ([], false)).

Fixpoint scan_globals (t : SectionTable) (k : nat) (i : Z) (sections : list (list Z * bool)) : Prog (list (list Z * bool)) :=
  match k with
  | O => Ok sections
  | S k' =>
      match section_hdr (sh_off t) (sh_entsize t) i with
      | None => Ok []
      | Some hdr =>
          let? hdr_end := arith_u oc 64 (hdr + sh_entsize t) in
          if hdr_end >? len data then Ok sections else
          let? name_off := read_le data 4 hdr in
          if name_off >=? len (strtab t) then scan_globals t k' (i + 1) sections else
          let name := until_nul (drop (Z.to_nat name_off) (strtab t)) in
          if negb (from_utf8 name) || negb (is_global_name name) then scan_globals t k' (i + 1) sections else
          let? o := global_section hdr name in
          scan_globals t k' (i + 1) (sections ++ match o with Some s => [s] | None => [] end)
      end
  end.

Definition extract_global_section_data : Prog (list (list Z * bool)) :=
  let? o := section_table in
  match o with
  | None => Ok []
  | Some t => scan_globals t (Z.to_nat (sh_num t)) 0 []
  end.

(** ** Relocations *)

(** The beginning of [rewrite_global_data_relocations]. *)
Definition section_table_strict : Prog SectionTable :=
  if len data <? 64 then parse_err "ELF too short" else
  let? magic := slice data 0 4 in
  let? class := index data 4 in
  let? encoding := index data 5 in
  if negb (bool_decide (magic = [0x7f; 69; 76; 70])) || negb (class =? 2) || negb (encoding =? 1)
  then parse_err "invalid ELF header" else
  let? e_machine := read_le data 2 18 in
  if negb (e_machine =? 0x00F7) then parse_err "ELF is not EM_BPF" else
  let? off := read_le data 8 40 in
  let? entsize := read_le data 2 58 in
  let? num := read_le data 2 60 in
  let? strndx := read_le data 2 62 in
  if (num <=? strndx) || (entsize <? 64) then parse_err "invalid section header table" else
  let? str_sh := ok_or (section_hdr off entsize strndx) (parse_error "section offset overflow") in
  let? str_sh_end := arith_u oc 64 (str_sh + 40) in
  if str_sh_end >? len data then parse_err "section name table header out of bounds" else
  let? strtab_off := read_le data 8 (str_sh + 24) in
  let? strtab_size := read_le data 8 (str_sh + 32) in
  let? strtab_end := ok_or (checked_add 64 strtab_off strtab_size) (parse_error "section name table overflow") in
  if strtab_end >? len data then parse_err "section name table out of bounds" else
  let? names := slice data strtab_off strtab_end in
  Ok (mkTable off entsize num names).

(** Header [i], whole. *)
Definition header_at (t : SectionTable) (i : Z) (out_of_bounds : string) : Prog Z :=
  let? hdr := ok_or (section_hdr (sh_off t) (sh_entsize t) i) (parse_error "section offset overflow") in
  let? hdr_end := arith_u oc 64 (hdr + sh_entsize t) in
  if hdr_end >? len data then parse_err out_of_bounds else Ok hdr.

Definition section_name (t : SectionTable) (hdr : Z) : Prog (list Z) :=
  let? name_off := read_le data 4 hdr in
  if name_off >=? len (strtab t) then parse_err "section name offset out of bounds" else
  let name := until_nul (drop (Z.to_nat name_off) (strtab t)) in
  if from_utf8 name then Ok name else parse_err "section name is not valid UTF-8".

(** The indices of the maps made of global sections, from map [i] on. *)
Fixpoint global_indices_from (i : Z) (descriptors : list EbpfMapDescriptor) : list Z :=
  match descriptors with
  | [] => []
  | d :: ds => if md_type d =? 0 then as_u32 i :: global_indices_from (i + 1) ds else global_indices_from (i + 1) ds
  end.

Definition global_map_indices (descriptors : list EbpfMapDescriptor) : list Z := global_indices_from 0 descriptors.

(** The variables of the first loop. *)
Record Sections := mkSections { next_global_map : nat; target_section : option Z; section_map : gmap Z Z }.

Fixpoint collect_sections (t : SectionTable) (target : list Z) (globals : list Z) (k : nat) (i : Z) (s : Sections) : Prog Sections :=
  match k with
  | O => Ok s
  | S k' =>
      let? hdr := header_at t i "section header out of bounds" in
      let? name := section_name t hdr in
      let tgt := if bool_decide (name = target) then Some i else target_section s in
      if is_global_name name then
        match globals !! next_global_map s with
        | None => parse_err "missing map descriptor for global section"
        | Some map_index =>
            collect_sections t target globals k' (i + 1)
              (mkSections (S (next_global_map s)) tgt (<[as_u16 i := map_index]> (section_map s)))
        end
      else collect_sections t target globals k' (i + 1) (mkSections (next_global_map s) tgt (section_map s))
  end.

(** The offset in the second half of the instruction. *)
Definition compute_lddw_reloc_offset_imm (sym_entry addend kind lo_inst_imm : Z) : Prog Z :=
  let? st_info := index data (sym_entry + 4) in
  if Z.land st_info 0x0f =? STT_SECTION then
    if kind =? SHT_RELA then ok_or (try_i 32 addend) (parse_error "global relocation addend does not fit in i32")
    else Ok lo_inst_imm
  else
    let? st_value := read_le data 8 (sym_entry + 8) in
    ok_or (try_i 32 (st_value + (if kind =? SHT_RELA then addend else lo_inst_imm)))
      (parse_error "global relocation offset does not fit in i32").

(** The three writes. *)
Definition rewrite_lddw (bytecode : list Z) (r_offset map_index offset_imm : Z) : list Z :=
  let at_ k := Z.to_nat (r_offset + k) in
  let bc := <[at_ 1 := Z.lor (Z.land (bytecode !!! at_ 1) 0x0f) 0x60]> bytecode in
  list_inserts (at_ 12) (to_le_bytes 4 offset_imm) (list_inserts (at_ 4) (to_le_bytes 4 map_index) bc).

(** A table of relocations with its symbol table. *)
Record RelTable := mkRel { rel_data : list Z; rel_type : Z; rel_stride : Z; sym_off : Z; sym_entsize : Z; sym_end : Z }.

Definition entry_size (sh_type : Z) : Z := if sh_type =? SHT_REL then 16 else 24.

Definition rel_table (t : SectionTable) (hdr sh_type : Z) : Prog RelTable :=
  let? rel_off := read_le data 8 (hdr + 24) in
  let? rel_size := read_le data 8 (hdr + 32) in
  let? rel_entsize := read_le data 8 (hdr + 56) in
  let? rel_end := ok_or (checked_add 64 rel_off rel_size) (parse_error "relocation table overflow") in
  if rel_end >? len data then parse_err "relocation table out of bounds" else
  let? stride :=
    if rel_entsize =? 0 then Ok (entry_size sh_type)
    else if entry_size sh_type <=? rel_entsize then Ok rel_entsize
    else parse_err "relocation entry size is too small" in
  let? symtab_index := read_le data 4 (hdr + 40) in
  if sh_num t <=? symtab_index then parse_err "relocation section has invalid symtab link" else
  let? sym_hdr := header_at t symtab_index "symbol table header out of bounds" in
  let? sym_type := read_le data 4 (sym_hdr + 4) in
  if negb (sym_type =? SHT_SYMTAB) then parse_err "relocation section does not link to a symbol table" else
  let? off := read_le data 8 (sym_hdr + 24) in
  let? size := read_le data 8 (sym_hdr + 32) in
  let? entsize := read_le data 8 (sym_hdr + 56) in
  if entsize <? 24 then parse_err "symbol table entry size is too small" else
  let? end_ := ok_or (checked_add 64 off size) (parse_error "symbol table overflow") in
  if end_ >? len data then parse_err "symbol table out of bounds" else
  let? rel := slice data rel_off rel_end in
  Ok (mkRel rel sh_type stride off entsize end_).

(** [(0..n).step_by(stride)]. *)
Definition steps (n stride : Z) : list Z := (fun k => k * stride) <$> seqZ 0 ((n + stride - 1) / stride).

Definition rewrite_entry (r : RelTable) (smap : gmap Z Z) (bytecode : list Z) (entry_off : Z) : Prog (list Z) :=
  let? r_offset := read_le (rel_data r) 8 entry_off in
  let? r_info := read_le (rel_data r) 8 (entry_off + 8) in
  let? addend := if rel_type r =? SHT_RELA then let? a := read_le (rel_data r) 8 (entry_off + 16) in Ok (as_i64 a) else Ok 0 in
  let? sym_rel := ok_or (checked_mul 64 (Z.shiftr r_info 32) (sym_entsize r)) (parse_error "symbol offset overflow") in
  let? sym_entry := ok_or (checked_add 64 (sym_off r) sym_rel) (parse_error "symbol offset overflow") in
  let? sym_entry_end := ok_or (checked_add 64 sym_entry (sym_entsize r)) (parse_error "symbol offset overflow") in
  if sym_entry_end >? sym_end r then parse_err "relocation symbol out of bounds" else
  let? st_shndx := read_le data 2 (sym_entry + 6) in
  match smap !! st_shndx with
  | None => Ok bytecode
  | Some map_index =>
      let? r_end := arith_u oc 64 (r_offset + 16) in
      if r_end >? len bytecode then parse_err "relocation exceeds section" else
      let? opcode := index bytecode r_offset in
      if negb (opcode =? BPF_LD_DW_IMM) then parse_err "relocation does not target LD_DW_IMM" else
      let? imm := read_le bytecode 4 (r_offset + 12) in
      let? offset_imm := compute_lddw_reloc_offset_imm sym_entry addend (rel_type r) (as_i32 imm) in
      Ok (rewrite_lddw bytecode r_offset map_index offset_imm)
  end.

(** The loop over the entries stops at one that is cut off. *)
Fixpoint rewrite_entries (r : RelTable) (smap : gmap Z Z) (offs : list Z) (bytecode : list Z) : Prog (list Z) :=
  match offs with
  | [] => Ok bytecode
  | entry_off :: offs' =>
      if entry_off + entry_size (rel_type r) >? len (rel_data r) then Ok bytecode else
      let? bytecode' := rewrite_entry r smap bytecode entry_off in
      rewrite_entries r smap offs' bytecode'
  end.

Fixpoint rewrite_tables (t : SectionTable) (target : Z) (smap : gmap Z Z) (k : nat) (i : Z) (bytecode : list Z) : Prog (list Z) :=
  match k with
  | O => Ok bytecode
  | S k' =>
      let? hdr := header_at t i "section header out of bounds" in
      let? sh_type := read_le data 4 (hdr + 4) in
      if negb (sh_type =? SHT_REL) && negb (sh_type =? SHT_RELA) then rewrite_tables t target smap k' (i + 1) bytecode else
      let? rel_target := read_le data 4 (hdr + 44) in
      if negb (rel_target =? target) then rewrite_tables t target smap k' (i + 1) bytecode else
      let? r := rel_table t hdr sh_type in
      let? bytecode' := rewrite_entries r smap (steps (len (rel_data r)) (rel_stride r)) bytecode in
      rewrite_tables t target smap k' (i + 1) bytecode'
  end.

Definition rewrite_global_data_relocations (target : list Z) (bytecode : list Z) (descriptors : list EbpfMapDescriptor) :
    Prog (list Z) :=
  let? t := section_table_strict in
  let globals := global_map_indices descriptors in
  let? s := collect_sections t target globals (Z.to_nat (sh_num t)) 0 (mkSections 0 None ∅) in
  if negb (next_global_map s =? length globals)%nat then parse_err "global section count mismatch" else
  match target_section s with
  | None => Ok bytecode
  | Some target_index => rewrite_tables t target_index (section_map s) (Z.to_nat (sh_num t)) 0 bytecode
  end.
End Elf.
