(* ===== verification/GwPlatform.v ===== *)
(** * What the verifier is told

    [sonde-gateway/src/sonde_platform.rs], [decoder_platform.rs] and [verifier_maps.rs]:
    the two platforms Prevail verifies programs for - the prototypes of the helpers, the
    layout of the context, the types of maps, and the descriptors of the maps that an
    ELF file declares. *)

From Stdlib Require Import String.
From S2P Require Import Prelude GwElf.
Open Scope list_scope.
Open Scope Z_scope.

(** ** Prototypes *)

Inductive EbpfReturnType : Type := Integer | PtrToMapValueOrNull | Unsupported.

Inductive EbpfArgumentType : Type :=
  | DontCare
  | Anything
  | ConstSize
  | PtrToMap
  | PtrToMapKey
  | PtrToMapValue
  | PtrToReadableMem
  | PtrToWritableMem.

#[export] Instance EbpfReturnType_eq_dec : EqDecision EbpfReturnType.
Proof. solve_decision. Defined.
#[export] Instance EbpfArgumentType_eq_dec : EqDecision EbpfArgumentType.
Proof. solve_decision. Defined.

(** The size of the context and the offsets of the pointers in it. *)
Record EbpfContextDescriptor := mkContext { cd_size : Z; cd_data : Z; cd_end : Z; cd_meta : Z }.

Record HelperPrototype := mkPrototype {
  hp_name : string;
  return_type : EbpfReturnType;
  argument_type : list EbpfArgumentType;
  reallocate_packet : bool;
  context_descriptor : option EbpfContextDescriptor;
  unsupported : bool
}.

(** A prototype of a helper that can be used, with the arguments it looks at. *)
Definition prototype (name : string) (ret : EbpfReturnType) (args : list EbpfArgumentType) : HelperPrototype :=
  mkPrototype name ret (args ++ replicate (5 - length args) DontCare) false None false.

Definition UNSUPPORTED_HELPER : HelperPrototype :=
  mkPrototype "unsupported" Unsupported (replicate 5 DontCare) false None true.

Definition SONDE_CONTEXT : EbpfContextDescriptor := mkContext 32 16 24 (-1).
Definition DECODER_CONTEXT : EbpfContextDescriptor := mkContext 16 0 8 (-1).

Definition SONDE_HELPERS : list HelperPrototype :=
  [prototype "i2c_read" Integer [Anything; PtrToWritableMem; ConstSize];
   prototype "i2c_write" Integer [Anything; PtrToReadableMem; ConstSize];
   prototype "i2c_write_read" Integer [Anything; PtrToReadableMem; ConstSize; PtrToWritableMem; ConstSize];
   prototype "spi_transfer" Integer [Anything; PtrToWritableMem; ConstSize];
   prototype "gpio_read" Integer [Anything];
   prototype "gpio_write" Integer [Anything; Anything];
   prototype "adc_read" Integer [Anything];
   prototype "send" Integer [PtrToReadableMem; ConstSize];
   prototype "send_recv" Integer [PtrToReadableMem; ConstSize; PtrToWritableMem; ConstSize; Anything];
   prototype "map_lookup_elem" PtrToMapValueOrNull [PtrToMap; PtrToMapKey];
   prototype "map_update_elem" Integer [PtrToMap; PtrToMapKey; PtrToMapValue];
   prototype "get_time" Integer [];
   prototype "get_battery_mv" Integer [];
   prototype "delay_us" Integer [Anything];
   prototype "set_next_wake" Integer [Anything];
   prototype "bpf_trace_printk" Integer [PtrToReadableMem; ConstSize];
   prototype "send_async" Integer [PtrToReadableMem; ConstSize]]%string.

Definition DECODER_MAP_LOOKUP : HelperPrototype := prototype "map_lookup_elem" PtrToMapValueOrNull [PtrToMap; PtrToMapKey].
Definition DECODER_MAP_UPDATE : HelperPrototype := prototype "map_update_elem" Integer [PtrToMap; PtrToMapKey; PtrToMapValue].
Definition DECODER_TRACE_PRINTK : HelperPrototype := prototype "bpf_trace_printk" Integer [PtrToReadableMem; ConstSize].
Definition DECODER_EMIT_READING : HelperPrototype := prototype "emit_reading" Integer [PtrToReadableMem; ConstSize; Anything].

(** ** The platforms *)

Inductive BpfPlatform : Type := SondePlatform | DecoderPlatform.

Definition get_helper_prototype (pl : BpfPlatform) (n : Z) : HelperPrototype :=
  match pl with
  | SondePlatform =>
      if (1 <=? n) && (n <=? 17) then default UNSUPPORTED_HELPER (SONDE_HELPERS !! Z.to_nat (n - 1)) else UNSUPPORTED_HELPER
  | DecoderPlatform =>
      if n =? 10 then DECODER_MAP_LOOKUP else if n =? 11 then DECODER_MAP_UPDATE
      else if n =? 16 then DECODER_TRACE_PRINTK else if n =? 18 then DECODER_EMIT_READING
      else UNSUPPORTED_HELPER
  end.

Definition is_helper_usable (pl : BpfPlatform) (n : Z) : bool :=
  match pl with
  | SondePlatform => (1 <=? n) && (n <=? 17)
  | DecoderPlatform => (n =? 10) || (n =? 11) || (n =? 16) || (n =? 18)
  end.

Record EbpfProgramType := mkProgramType {
  pt_name : string;
  pt_context : option EbpfContextDescriptor;
  platform_specific_data : Z;
  section_prefixes : list string;
  is_privileged : bool
}.

Definition get_program_type (pl : BpfPlatform) : EbpfProgramType :=
  match pl with
  | SondePlatform => mkProgramType "sonde" (Some SONDE_CONTEXT) 0 ["sonde"; ".text"]%string false
  | DecoderPlatform => mkProgramType "decoder" (Some DECODER_CONTEXT) 0 ["decoder"%string] false
  end.

(** ** Maps *)

Inductive EbpfMapValueType : Type := AnyValue | MapOfMaps.

#[export] Instance EbpfMapValueType_eq_dec : EqDecision EbpfMapValueType.
Proof. solve_decision. Defined.
#[export] Instance EbpfMapValueType_countable : Countable EbpfMapValueType.
Proof.
  refine (inj_countable' (fun v => match v with AnyValue => false | MapOfMaps => true end)
            (fun b : bool => if b then MapOfMaps else AnyValue) _). by intros [].
Defined.

(** Without its name, which is only printed. *)
Record EbpfMapType := mkMapType { platform_specific_type : Z; is_array : bool; value_type : EbpfMapValueType }.

(** Both platforms have the same. *)
Definition map_type (t : Z) : EbpfMapType := mkMapType t ((t =? 0) || (t =? 1)) AnyValue.

Definition NO_INNER_MAP_FD : Z := -1.

Record LegacyMapDef := mkLegacy {
  l_type : Z;
  l_key_size : Z;
  l_value_size : Z;
  l_max_entries : Z;
  map_flags : Z;
  inner_map_idx : Z;
  numa_node : Z
}.

Definition legacy_map_record_size : Z := 28.

(** Value type, key size, value size, number of entries. *)
Definition EquivalenceKey : Type := EbpfMapValueType * Z * Z * Z.

Definition parse_map_def_record (record : list Z) (record_size : Z) : LegacyMapDef :=
  let copy_len := Z.min (Z.min record_size legacy_map_record_size) (len record) in
  let padded := take (Z.to_nat copy_len) record ++ replicate (Z.to_nat (legacy_map_record_size - copy_len)) 0 in
  let field k := from_le_bytes (take 4 (drop (4 * k) padded)) in
  mkLegacy (field 0%nat) (field 1%nat) (field 2%nat) (field 3%nat) (field 4%nat) (field 5%nat) (field 6%nat).

Definition equivalence_key (t : EbpfMapType) (key_size value_size max_entries : Z) : EquivalenceKey :=
  (value_type t, key_size, value_size, if is_array t then max_entries else 0).

Definition create_synthetic_map_fd (t : EbpfMapType) (key_size value_size max_entries : Z) (cache : gmap EquivalenceKey Z) :
    Z * gmap EquivalenceKey Z :=
  let equiv := equivalence_key t key_size value_size max_entries in
  let next_fd := as_i32 (as_i32 (Z.of_nat (size cache)) + 1) in
  match cache !! equiv with
  | Some fd => (fd, cache)
  | None => (next_fd, <[equiv := next_fd]> cache)
  end.

Definition descriptor_of (def : LegacyMapDef) (fd : Z) : EbpfMapDescriptor :=
  mkDescriptor fd (l_type def) (l_key_size def) (l_value_size def) (l_max_entries def)
    (match value_type (map_type (l_type def)) with MapOfMaps => as_i32 (inner_map_idx def) | AnyValue => NO_INNER_MAP_FD end).

Fixpoint describe (defs : list LegacyMapDef) (descriptors : list EbpfMapDescriptor) (cache : gmap EquivalenceKey Z) :
    list EbpfMapDescriptor * gmap EquivalenceKey Z :=
  match defs with
  | [] => (descriptors, cache)
  | def :: defs' =>
      let '(fd, cache') := create_synthetic_map_fd (map_type (l_type def)) (l_key_size def) (l_value_size def) (l_max_entries def) cache in
      describe defs' (descriptors ++ [descriptor_of def fd]) cache'
  end.

Section Maps.
Context (oc : bool).

(** The records from record [i] on. *)
Fixpoint map_defs (data : list Z) (record_size : Z) (k : nat) (i : Z) : Prog (list LegacyMapDef) :=
  match k with
  | O => Ok []
  | S k' =>
      let? src_offset := arith_u oc 64 (i * record_size) in
      let? record := slice_from data src_offset in
      let? defs := map_defs data record_size k' (i + 1) in
      Ok (parse_map_def_record record record_size :: defs)
  end.

(** [parse_maps_section] of a platform with the cache [cache]. *)
Definition parse_legacy_maps_section (descriptors : list EbpfMapDescriptor) (data : list Z) (record_size count : Z)
    (cache : gmap EquivalenceKey Z) : Prog (list EbpfMapDescriptor * gmap EquivalenceKey Z) :=
  let? defs := map_defs data record_size (Z.to_nat count) 0 in
  Ok (describe defs descriptors cache).
End Maps.

(** The descriptors from [i] on, of [ds] in which those before are resolved. *)
Fixpoint resolve_from (k : nat) (i : nat) (ds : list EbpfMapDescriptor) : bool * list EbpfMapDescriptor :=
  match k with
  | O => (true, ds)
  | S k' =>
      match ds !! i with
      | None => (true, ds)
      | Some d =>
          let inner := inner_map_fd d in
          if inner =? NO_INNER_MAP_FD then resolve_from k' (S i) ds else
          if (inner <? 0) || (len ds <=? inner) then (false, ds) else
          let fd := match ds !! Z.to_nat inner with Some d' => original_fd d' | None => 0 end in
          resolve_from k' (S i)
            (<[i := mkDescriptor (original_fd d) (md_type d) (md_key_size d) (md_value_size d) (md_max_entries d) fd]> ds)
      end
  end.

(** [false] is the error. *)
Definition resolve_inner_map_references (ds : list EbpfMapDescriptor) : bool * list EbpfMapDescriptor :=
  resolve_from (length ds) 0 ds.

Definition find_map_descriptor (ds : list EbpfMapDescriptor) (map_fd : Z) : option EbpfMapDescriptor :=
  snd <$> list_find (fun d => original_fd d = map_fd) ds.

(** ** Maps keep their identity *)

Definition key_of (d : EbpfMapDescriptor) : EquivalenceKey :=
  equivalence_key (map_type (md_type d)) (md_key_size d) (md_value_size d) (md_max_entries d).

(** The cache numbers the keys it has met from 1 on. *)
Definition cache_ok (cache : gmap EquivalenceKey Z) : Prop :=
  Z.of_nat (size cache) < 2 ^ 31 - 1 /\
  (forall k fd, cache !! k = Some fd -> 1 <= fd <= Z.of_nat (size cache)) /\
  (forall k k' fd, cache !! k = Some fd -> cache !! k' = Some fd -> k = k').

Definition described_by (cache : gmap EquivalenceKey Z) (d : EbpfMapDescriptor) : Prop :=
  cache !! key_of d = Some (original_fd d).

Lemma as_i32_small x : 0 <= x < 2 ^ 31 -> as_i32 x = x.
Proof. intros Hx. unfold as_i32, signed. rewrite wrap_small by (unfold uN; lia). destruct (Z.ltb_spec x (2 ^ (32 - 1))); lia. Qed.

Lemma create_ok t ks vs me cache fd cache' :
  create_synthetic_map_fd t ks vs me cache = (fd, cache') -> cache_ok cache -> Z.of_nat (size cache) < 2 ^ 31 - 2 ->
  cache_ok cache' /\ cache ⊆ cache' /\ cache' !! equivalence_key t ks vs me = Some fd /\ Z.of_nat (size cache') <= Z.of_nat (size cache) + 1.
Proof.
  unfold create_synthetic_map_fd. set (k := equivalence_key t ks vs me). intros Hc (Hs & Hr & Hi) Hlt.
  assert (Hn : as_i32 (as_i32 (Z.of_nat (size cache)) + 1) = Z.of_nat (size cache) + 1).
  { by rewrite (as_i32_small (Z.of_nat _)), as_i32_small by lia. }
  rewrite Hn in Hc. destruct (cache !! k) as [fd0|] eqn:Hk; injection Hc as <- <-.
  { split; [exact (conj Hs (conj Hr Hi))|]. split; [reflexivity|]. split; [exact Hk|lia]. }
  assert (Hsz : size (<[k := Z.of_nat (size cache) + 1]> cache) = S (size cache)) by by apply map_size_insert_None.
  split; [split; [lia|split]|split; [by apply insert_subseteq|split; [by rewrite lookup_insert_eq|lia]]].
  - intros k' fd' [[<- <-]|[_ H]]%lookup_insert_Some; [lia|]. apply Hr in H. lia.
  - intros k1 k2 fd' H1 H2. apply lookup_insert_Some in H1 as [[<- <-]|[_ H1]], H2 as [[<- H2]|[_ H2]]; [reflexivity|..].
    + apply Hr in H2. lia.
    + subst. apply Hr in H1. lia.
    + by eapply Hi.
Qed.

Lemma describe_ok defs ds cache ds' cache' :
  describe defs ds cache = (ds', cache') -> cache_ok cache -> Forall (described_by cache) ds ->
  Z.of_nat (size cache) + len defs < 2 ^ 31 - 1 ->
  cache_ok cache' /\ Forall (described_by cache') ds' /\ exists new, ds' = ds ++ new /\ length new = length defs /\
    Forall (fun d => inner_map_fd d = NO_INNER_MAP_FD) new.
Proof.
  revert ds cache. induction defs as [|def defs IH]; intros ds cache Hd Hc Hf Hn; simpl in Hd.
  { injection Hd as <- <-. split_and!; [done|done|]. exists []. by rewrite app_nil_r. }
  destruct (create_synthetic_map_fd _ _ _ _ cache) as [fd cache1] eqn:Hcr.
  rewrite len_cons in Hn. pose proof (len_nonneg defs).
  destruct (create_ok _ _ _ _ _ _ _ Hcr Hc ltac:(lia)) as (Hc1 & Hsub & Hk & Hsz).
  destruct (IH _ _ Hd Hc1) as (Hc' & Hf' & new & -> & Hl & Hi); [|lia|].
  { apply Forall_app. split; [eapply list.Forall_impl; [exact Hf|]; intros d Hd'; by eapply lookup_weaken|]. by apply Forall_singleton. }
  split_and!; [done|done|]. exists (descriptor_of def fd :: new). rewrite <- app_assoc. split_and!; [done|simpl; by rewrite Hl|]. by constructor.
Qed.

Lemma map_defs_total oc data record_size k i :
  0 <= record_size -> 0 <= i -> (i + Z.of_nat k) * record_size <= len data -> len data < 2 ^ 63 ->
  exists defs, map_defs oc data record_size k i = Ok defs /\ length defs = k.
Proof.
  intros Hr. revert i. induction k as [|k IH]; intros i Hi Hk Hl; [by exists []|]. cbn [map_defs].
  rewrite arith_u_in_range by nia. cbn [res_bind]. unfold slice_from, slice. change (Z.of_nat (length data)) with (len data).
  rewrite !(proj2 (Z.leb_le _ _)) by nia. cbn [res_bind andb]. destruct (IH (i + 1)) as (defs & -> & Hlen); [lia|nia|done|].
  eexists. split; [done|]. simpl. by rewrite Hlen.
Qed.

Lemma map_defs_length oc data record_size k i defs : map_defs oc data record_size k i = Ok defs -> length defs = k.
Proof.
  revert i defs. induction k as [|k IH]; intros i defs; cbn [map_defs]; [by intros [= <-]|].
  intros (o & _ & H1)%res_bind_Ok. apply res_bind_Ok in H1 as (r & _ & H1). apply res_bind_Ok in H1 as (ds & Hds & H1).
  injection H1 as <-. simpl. by rewrite (IH _ _ Hds).
Qed.

(** The numbers given to the maps an ELF file declares identify them for the
    verifier.  Parsing a section that is as long as it says returns a descriptor for
    each record; the numbers are positive, two maps have the same number exactly if the
    verifier cannot tell them apart (value type, sizes and, of arrays, entries), no map
    refers to another, so resolving references changes nothing, and the number of a map
    leads back to a descriptor of such a map. *)
Lemma map_fds_identify oc data record_size count :
  0 <= record_size -> 0 <= count < 2 ^ 31 - 2 -> count * record_size <= len data -> len data < 2 ^ 63 ->
  exists ds cache, parse_legacy_maps_section oc [] data record_size count ∅ = Ok (ds, cache) /\ len ds = count /\
    resolve_inner_map_references ds = (true, ds) /\
    (forall d, d ∈ ds -> 1 <= original_fd d /\ exists d', find_map_descriptor ds (original_fd d) = Some d' /\ key_of d' = key_of d) /\
    (forall d d', d ∈ ds -> d' ∈ ds -> (original_fd d = original_fd d' <-> key_of d = key_of d')).
Proof.
  intros Hr Hc Hl Hlen. unfold parse_legacy_maps_section.
  destruct (map_defs_total oc data record_size (Z.to_nat count) 0) as (defs & -> & Hd); [done|lia|rewrite Z2Nat.id by lia; lia|done|].
  cbn [res_bind]. destruct (describe defs [] ∅) as [ds cache] eqn:Hds.
  destruct (describe_ok _ _ _ _ _ Hds) as ((_ & Hpos & Hinj) & Hf & new & Hnew & Hn & Hi).
  { split_and!; [rewrite map_size_empty; lia|intros k fd; by rewrite lookup_empty|intros k k' fd; by rewrite lookup_empty]. }
  { by apply Forall_nil_2. }
  { rewrite map_size_empty. unfold len. lia. }
  simpl in Hnew. subst new. rewrite list.Forall_forall in Hf. exists ds, cache.
  split; [done|]. split; [unfold len; lia|]. split; [|split].
  - unfold resolve_inner_map_references. assert (H : forall k i, resolve_from k i ds = (true, ds)); [|apply H].
    induction k as [|k IH]; intros i; [done|]. simpl. destruct (ds !! i) as [d|] eqn:Hd'; [|done].
    rewrite (list.Forall_lookup_1 _ _ _ _ Hi Hd'), Z.eqb_refl. apply IH.
  - intros d Hin. pose proof (Hf d Hin) as Hk. split; [apply Hpos in Hk; lia|]. unfold find_map_descriptor.
    destruct (list_find_elem_of (fun d' => original_fd d' = original_fd d) ds d Hin eq_refl) as [[j d'] Hj].
    rewrite Hj. exists d'. split; [done|]. apply list_find_Some in Hj as (Hj & He & _). apply list_elem_of_lookup_2, Hf in Hj.
    unfold described_by in *. rewrite He in Hj. by eapply Hinj.
  - intros d d' H1%Hf H2%Hf. unfold described_by in *. split; [intros He; rewrite He in H1; by eapply Hinj|intros He; rewrite He in H1; congruence].
Qed.
