(* ===== verification/GwElfProofs.v ===== *)
(** * What the ELF functions do

    The functions that only look never panic, whatever the file; the rewriting links
    every reference to a global variable to the map that holds its section; and the
    rewritten instruction, as the interpreter on the node ([BpfExec]) executes it. *)

From Stdlib Require Import String.
From S2P Require Import Prelude Frame Messages ProgramImage GwStore GwElf.
Open Scope list_scope.
Open Scope Z_scope.

(** ** Reading in bounds *)

Lemma read_bytes_eq l n off :
  0 <= off -> off + Z.of_nat n <= len l -> read_bytes l n off = Ok (take n (drop (Z.to_nat off) l)).
Proof.
  revert off. induction n as [|n IH]; intros off H0 Hl; [done|]. cbn [read_bytes]. unfold len in *.
  destruct (lookup_lt_is_Some_2 l (Z.to_nat off)) as [x Hx]; [lia|].
  rewrite (index_Ok _ _ x) by (done || lia). cbn [res_bind]. rewrite IH by lia. cbn [res_bind].
  replace (Z.to_nat (off + 1)) with (S (Z.to_nat off)) by lia. by rewrite (drop_S _ _ _ Hx).
Qed.

Lemma read_le_total l n off :
  bytes_ok l -> 0 <= off -> off + Z.of_nat n <= len l -> exists x, read_le l n off = Ok x /\ uN (8 * Z.of_nat n) x.
Proof.
  intros Hb H0 Hl. unfold read_le. rewrite read_bytes_eq by done. eexists. split; [reflexivity|].
  assert (Hlen : length (take n (drop (Z.to_nat off) l)) = n) by (unfold len in *; rewrite length_take, length_drop; lia).
  pose proof (from_le_bytes_range (take n (drop (Z.to_nat off) l))) as Hr. rewrite Hlen in Hr. apply Hr. by apply Forall_take, Forall_drop.
Qed.

(** A read that succeeds is in bounds. *)
Lemma read_le_bounds l n off x : (0 < n)%nat -> read_le l n off = Ok x -> 0 <= off /\ off + Z.of_nat n <= len l.
Proof.
  unfold read_le. intros Hn (bs & Ha & _)%res_bind_Ok. revert off bs Ha Hn.
  induction n as [|n IH]; intros off a Ha Hn; [lia|]. cbn [read_bytes] in Ha. unfold index in Ha.
  destruct (Z.ltb_spec off 0); [done|]. destruct (l !! Z.to_nat off) as [y|] eqn:Hy; [|done]. cbn [res_bind] in Ha.
  apply lookup_lt_Some in Hy. destruct n as [|n]; [unfold len; lia|]. apply res_bind_Ok in Ha as (bs & Ha & _).
  destruct (IH (off + 1) _ Ha); lia.
Qed.

Lemma index_total {A} (l : list A) i : 0 <= i < len l -> exists x, index (E := ProgramError) l i = Ok x.
Proof. intros Hi. destruct (lookup_lt_is_Some_2 l (Z.to_nat i)) as [x Hx]; [unfold len in *; lia|]. exists x. apply index_Ok; [lia|done]. Qed.

Lemma index_past {A} (l : list A) i : len l <= i -> index (E := ProgramError) l i = Panic.
Proof. intros Hi. unfold index. destruct (i <? 0); [done|]. by rewrite lookup_ge_None_2 by (unfold len in *; lia). Qed.

Lemma slice_total {A} (l : list A) a b : 0 <= a -> a <= b -> b <= len l -> exists x, slice (E := ProgramError) l a b = Ok x.
Proof. intros. rewrite slice_Ok by done. by eexists. Qed.

(** Reads the next field of the file. *)
Ltac rd x Hx :=
  match goal with
  | |- context [read_le ?l ?n ?off] =>
      let Hr := fresh "Hr" in
      destruct (read_le_total l n off) as (x & Hr & Hx); [done|try lia|try lia|]; rewrite Hr; cbn [res_bind]; clear Hr
  end.

Lemma section_hdr_Some off entsize i h :
  0 <= off -> 0 <= entsize -> 0 <= i -> section_hdr off entsize i = Some h -> h = off + i * entsize /\ h < 2 ^ 64.
Proof.
  intros H1 H2 H3. unfold section_hdr. destruct (checked_mul 64 i entsize) as [o|] eqn:Hm; [|done]. cbn [base.mbind option_bind].
  apply checked_mul_Some in Hm as [-> _]. by intros [-> ?]%checked_add_Some.
Qed.

(** ** The functions that only look *)

Section Look.
Context (oc : bool) (data : list Z) (Hb : bytes_ok data) (Hl : len data < 2 ^ 63).

(** A table whose headers begin in the file. *)
Definition table_ok (t : SectionTable) : Prop :=
  64 <= len data /\ 0 <= sh_off t <= len data /\ 64 <= sh_entsize t < 2 ^ 16 /\ 0 <= sh_num t < 2 ^ 16.

Lemma is_bpf_elf_total : exists b, is_bpf_elf data = Ok b /\ (b = true -> 64 <= len data).
Proof using Hb.
  unfold is_bpf_elf. destruct (Z.ltb_spec (len data) 64); [by exists false|].
  destruct (slice_total data 0 4) as [m ->]; [lia..|]. cbn [res_bind].
  destruct (index_total data 4) as [c ->]; [lia|]. cbn [res_bind]. destruct (index_total data 5) as [e ->]; [lia|]. cbn [res_bind].
  destruct (_ || _); [by exists false|]. rd x Hx. by eexists.
Qed.

Lemma section_table_total : exists o, section_table data = Ok o /\ (forall t, o = Some t -> table_ok t).
Proof using Hb Hl.
  unfold section_table. destruct is_bpf_elf_total as (b & -> & Hlen). cbn [res_bind].
  destruct b; cbn [negb]; [specialize (Hlen eq_refl)|by exists None].
  rd off Hoff. rd ent Hent. rd num Hnum. rd ndx Hndx. unfold uN in *. simpl in Hoff, Hent, Hnum, Hndx.
  destruct (Z.leb_spec num ndx); cbn [orb]; [by exists None|]. destruct (Z.ltb_spec ent 64); [by exists None|].
  destruct (section_hdr off ent ndx) as [h|] eqn:Hh; [|by exists None]. apply section_hdr_Some in Hh as [-> _]; [|lia..].
  destruct (Z.gtb_spec (off + ndx * ent) (Z.max 0 (len data - 40))); [by exists None|]. assert (0 <= ndx * ent) by nia.
  rd so Hso. rd sz Hsz. unfold uN in *. destruct (checked_add 64 so sz) as [e|] eqn:He; [|by exists None].
  apply checked_add_Some in He as [-> _]. destruct (Z.gtb_spec (so + sz) (len data)); [by exists None|].
  destruct (slice_total data so (so + sz)) as [names ->]; [lia..|]. cbn [res_bind]. eexists. split; [reflexivity|].
  intros t [= <-]. unfold table_ok. simpl. lia.
Qed.

(** Where header [i] is. *)
Lemma hdr_range t i h : table_ok t -> 0 <= i < 2 ^ 16 -> section_hdr (sh_off t) (sh_entsize t) i = Some h -> 0 <= h < 2 ^ 63 + 2 ^ 32.
Proof using Hl. intros (? & ? & ? & ?) Hi [-> _]%section_hdr_Some; [nia|lia..]. Qed.

Lemma scan_map_sections_total t k i :
  table_ok t -> 0 <= i -> i + Z.of_nat k <= 2 ^ 16 -> exists b, scan_map_sections data t k i = Ok b.
Proof using Hb Hl.
  intros Ht. revert i. induction k as [|k IH]; intros i H0 Hk; [by eexists|]. cbn [scan_map_sections].
  destruct (section_hdr _ _ i) as [h|] eqn:Hh; [|by eexists]. apply hdr_range in Hh; [|done|lia].
  destruct (Z.gtb_spec h (Z.max 0 (len data - 4))); [by eexists|]. destruct Ht as (? & _ & _). rd x Hx.
  repeat case_match; try (apply IH; lia); by eexists.
Qed.

Lemma scan_section_total t target k i :
  table_ok t -> 0 <= i -> i + Z.of_nat k <= 2 ^ 16 -> exists b, scan_section oc data t target k i = Ok b.
Proof using Hb Hl.
  intros Ht. revert i. induction k as [|k IH]; intros i H0 Hk; [by eexists|]. cbn [scan_section].
  destruct (section_hdr _ _ i) as [h|] eqn:Hh; [|by eexists]. apply hdr_range in Hh; [|done|lia].
  destruct (Z.gtb_spec h (Z.max 0 (len data - 4))); [by eexists|]. destruct Ht as (? & _ & _). rd x Hx.
  destruct (_ >=? _); [apply IH; lia|]. destruct (_ && _); [|apply IH; lia].
  rewrite arith_u_in_range by lia. cbn [res_bind]. destruct (Z.leb_spec (h + 40) (len data)); [|apply IH; lia]. rd y Hy.
  case_match; [by eexists|apply IH; lia].
Qed.

Lemma global_section_total h name : 0 <= h -> h + 64 <= len data -> exists o, global_section data h name = Ok o.
Proof using Hb Hl.
  intros H0 Hh. unfold global_section. rd ty Hty. rd so Hso. rd sz Hsz. unfold uN in *. case_match; [|by eexists].
  destruct (checked_add 64 so sz) as [e|] eqn:He; [|by eexists]. apply checked_add_Some in He as [-> _].
  destruct (Z.leb_spec (so + sz) (len data)); [|by eexists]. destruct (slice_total data so (so + sz)) as [c ->]; [lia..|]. by eexists.
Qed.

Lemma scan_globals_total t k i secs :
  table_ok t -> 0 <= i -> i + Z.of_nat k <= 2 ^ 16 -> exists l, scan_globals oc data t k i secs = Ok l.
Proof using Hb Hl.
  intros Ht. revert i secs. induction k as [|k IH]; intros i secs H0 Hk; [by eexists|]. cbn [scan_globals].
  destruct (section_hdr _ _ i) as [h|] eqn:Hh; [|by eexists]. apply hdr_range in Hh; [|done|lia]. destruct Ht as (? & ? & ? & ?).
  rewrite arith_u_in_range by lia. cbn [res_bind]. destruct (Z.gtb_spec (h + sh_entsize t) (len data)); [by eexists|]. rd x Hx.
  destruct (_ >=? _); [apply IH; lia|]. destruct (_ || _); [apply IH; lia|].
  match goal with |- context [global_section data h ?n] => destruct (global_section_total h n) as [o ->]; [lia..|] end. cbn [res_bind]. apply IH; lia.
Qed.

(** C29: looking at an uploaded file never panics, whatever its bytes: for any contents a
    slice can hold and with or without overflow checks, the search for map sections,
    the search for a section of a given name and the extraction of global variables
    return. *)
Theorem elf_scans_total target :
  exists maps found globals, elf_has_map_sections data = Ok maps /\ elf_has_section oc data target = Ok found /\
    extract_global_section_data oc data = Ok globals.
Proof using Hb Hl.
  unfold elf_has_map_sections, elf_has_section, extract_global_section_data.
  destruct section_table_total as ([t|] & -> & Ht); cbn [res_bind]; [|by eexists _, _, _].
  specialize (Ht t eq_refl). assert (Hn : 0 + Z.of_nat (Z.to_nat (sh_num t)) <= 2 ^ 16) by (destruct Ht as (_ & _ & _ & ?); lia).
  destruct (scan_map_sections_total t _ 0 Ht (Z.le_refl 0) Hn) as [b1 ->].
  destruct (scan_section_total t target _ 0 Ht (Z.le_refl 0) Hn) as [b2 ->].
  destruct (scan_globals_total t _ 0 [] Ht (Z.le_refl 0) Hn) as [l ->]. by eexists _, _, _.
Qed.
End Look.

(** ** What an ELF file says

    The file read by the layout of the ELF-64 format alone: the section headers, the
    names and contents of the sections, and the relocations of a section.  Nothing
    here fails; the theorems below say when the gateway's reading is this one. *)

Module ElfFile.
Section File.
Context (data : list Z).

(** The number in the [n] bytes at [off]. *)
Definition le (n : nat) (off : Z) : Z := from_le_bytes (take n (drop (Z.to_nat off) data)).

Definition e_shoff : Z := le 8 40.
Definition e_shentsize : Z := le 2 58.
Definition e_shnum : Z := le 2 60.
Definition e_shstrndx : Z := le 2 62.

Definition shdr (i : Z) : Z := e_shoff + i * e_shentsize.
Definition sh_type (i : Z) : Z := le 4 (shdr i + 4).
Definition sh_offset (i : Z) : Z := le 8 (shdr i + 24).
Definition sh_size (i : Z) : Z := le 8 (shdr i + 32).
Definition sh_link (i : Z) : Z := le 4 (shdr i + 40).
Definition sh_info (i : Z) : Z := le 4 (shdr i + 44).
Definition sh_entry (i : Z) : Z := le 8 (shdr i + 56).

Definition content (i : Z) : list Z := take (Z.to_nat (sh_size i)) (drop (Z.to_nat (sh_offset i)) data).
Definition name_of (i : Z) : list Z := until_nul (drop (Z.to_nat (le 4 (shdr i))) (content e_shstrndx)).
Definition section_ids : list Z := seqZ 0 e_shnum.

(** The sections of global variables, in the order of the file, and what they hold:
    contents and whether they are read-only. *)
Definition is_global (i : Z) : Prop := is_global_name (name_of i) = true.
#[global] Instance is_global_dec i : Decision (is_global i).
Proof using . unfold is_global. apply _. Defined.
Definition global_ids : list Z := filter is_global section_ids.
Definition global_data (i : Z) : list Z * bool :=
  if sh_type i =? SHT_PROGBITS then (content i, is_readonly_name (name_of i)) else ([], false).

(** A relocation: where it applies, where its symbol is in the file, and its explicit
    addend, if it has one. *)
Record Reloc := mkReloc { r_offset : Z; r_symbol : Z; r_addend : option Z }.

(** Entry [k] of the relocation section [i]. *)
Definition stride (i : Z) : Z := if sh_entry i =? 0 then entry_size (sh_type i) else sh_entry i.
Definition reloc (i k : Z) : Reloc :=
  let at_ := sh_offset i + k * stride i in
  mkReloc (le 8 at_) (sh_offset (sh_link i) + Z.shiftr (le 8 (at_ + 8)) 32 * sh_entry (sh_link i))
    (if sh_type i =? SHT_RELA then Some (signed 64 (le 8 (at_ + 16))) else None).

(** The number of entries that fit whole. *)
Definition reloc_count (i : Z) : Z :=
  if sh_size i <? entry_size (sh_type i) then 0 else (sh_size i - entry_size (sh_type i)) / stride i + 1.

Definition applies_to (x i : Z) : Prop := (sh_type i = SHT_REL \/ sh_type i = SHT_RELA) /\ sh_info i = x.
#[global] Instance applies_to_dec x i : Decision (applies_to x i).
Proof using . unfold applies_to. apply _. Defined.

(** All relocations of the last section of the name. *)
Definition relocations (name : list Z) : list Reloc :=
  match list.last (filter (fun i => name_of i = name) section_ids) with
  | None => []
  | Some x => concat ((fun i => reloc i <$> seqZ 0 (reloc_count i)) <$> filter (applies_to x) section_ids)
  end.

(** The section a symbol is in, and its contribution to an offset: a section symbol
    stands for the beginning of the section. *)
Definition st_shndx (sym : Z) : Z := le 2 (sym + 6).
Definition st_offset (sym : Z) : Z := if Z.land (le 1 (sym + 4)) 0x0f =? STT_SECTION then 0 else le 8 (sym + 8).

(** What a relocation does to a program whose maps for the global sections are
    [globals]: nothing if its symbol is elsewhere; otherwise the wide load at its
    offset is given source 6, the map of the symbol's section and the offset of the
    symbol with the addend, which is the low half's old value if there is no other. *)
Definition linked (globals : list Z) (r : Reloc) (bc bc' : list Z) : Prop :=
  ((st_shndx (r_symbol r) ∉ global_ids) /\ bc' = bc) \/
  exists j m pre regs o1 o2 imm hi lo post v,
    global_ids !! j = Some (st_shndx (r_symbol r)) /\ globals !! j = Some m /\
    bc = pre ++ ([BPF_LD_DW_IMM; regs; o1; o2] ++ imm ++ hi ++ lo) ++ post /\
    len pre = r_offset r /\ length imm = 4%nat /\ length hi = 4%nat /\ length lo = 4%nat /\
    v = st_offset (r_symbol r) + default (signed 32 (from_le_bytes lo)) (r_addend r) /\ iN 32 v /\
    bc' = pre ++ ([BPF_LD_DW_IMM; Z.lor (Z.land regs 0x0f) 0x60; o1; o2] ++ to_le_bytes 4 m ++ hi ++ to_le_bytes 4 v) ++ post.

(** All of them, one after the other. *)
Inductive links (globals : list Z) : list Reloc -> list Z -> list Z -> Prop :=
  | links_nil bc : links globals [] bc bc
  | links_cons r rs bc bc1 bc2 : linked globals r bc bc1 -> links globals rs bc1 bc2 -> links globals (r :: rs) bc bc2.

Lemma links_app globals rs rs' bc bc1 bc2 : links globals rs bc bc1 -> links globals rs' bc1 bc2 -> links globals (rs ++ rs') bc bc2.
Proof using . induction 1; [done|]. intros H2. simpl. econstructor; [done|by auto]. Qed.
End File.

(** The maps made of global sections: their positions among the descriptors. *)
Definition maps_from (i : Z) (ds : list EbpfMapDescriptor) : list Z :=
  fst <$> filter (fun p : Z * EbpfMapDescriptor => md_type p.2 = 0) (zip (seqZ i (len ds)) ds).
Definition global_maps (ds : list EbpfMapDescriptor) : list Z := maps_from 0 ds.
End ElfFile.

(** ** The gateway's reading of the file *)

Lemma read_le_le l n off x : (0 < n)%nat -> read_le l n off = Ok x -> x = ElfFile.le l n off.
Proof.
  intros Hn Hr. pose proof (read_le_bounds _ _ _ _ Hn Hr) as [H0 H1]. unfold read_le in Hr. rewrite read_bytes_eq in Hr by done.
  by injection Hr as <-.
Qed.

Lemma index_le {E} l off x : index (E := E) l off = Ok x -> x = ElfFile.le l 1 off.
Proof.
  unfold index, ElfFile.le. destruct (off <? 0); [done|]. destruct (l !! Z.to_nat off) as [y|] eqn:Hy; [|done]. intros [= <-].
  rewrite (drop_S _ _ _ Hy). simpl. lia.
Qed.

Lemma slice_eq {E A} (l c : list A) a b : slice (E := E) l a b = Ok c -> 0 <= a <= b /\ b <= len l /\ c = take (Z.to_nat (b - a)) (drop (Z.to_nat a) l).
Proof. unfold slice. destruct ((_ <=? _) && _ && _) eqn:Hs; [|done]. zbool. intros [= <-]. unfold len. split_and!; [lia..|done]. Qed.

(** A number inside a part of the file. *)
Lemma le_part l a k n off : 0 <= a -> 0 <= off -> off + Z.of_nat n <= k -> ElfFile.le (take (Z.to_nat k) (drop (Z.to_nat a) l)) n off = ElfFile.le l n (a + off).
Proof.
  intros Ha Ho Hk. unfold ElfFile.le. rewrite skipn_firstn_comm, drop_drop, take_take. do 2 f_equal; [|f_equal]; lia.
Qed.

Lemma try_i_inv w x y : try_i w x = Some y -> y = x /\ iN w x.
Proof. unfold try_i, iN. destruct (_ && _) eqn:Hx; [|done]. zbool. intros [= <-]. lia. Qed.

(** The sixteen bytes of a wide load. *)
Lemma rewrite_lddw_app pre post b0 b1 b2 b3 b4 b5 b6 b7 b8 b9 b10 b11 b12 b13 b14 b15 m im :
  rewrite_lddw (pre ++ [b0; b1; b2; b3; b4; b5; b6; b7; b8; b9; b10; b11; b12; b13; b14; b15] ++ post) (len pre) m im =
  pre ++ ([b0; Z.lor (Z.land b1 0x0f) 0x60; b2; b3] ++ to_le_bytes 4 m ++ [b8; b9; b10; b11] ++ to_le_bytes 4 im) ++ post.
Proof.
  assert (Hat : forall k, Z.to_nat (len pre + Z.of_nat k) = (length pre + k)%nat) by (intros k; unfold len; lia).
  unfold rewrite_lddw. change 1 with (Z.of_nat 1). change 4 with (Z.of_nat 4). change 12 with (Z.of_nat 12). rewrite !Hat. rewrite insert_app_r, !list_inserts_app_r.
  rewrite list_lookup_total_alt, lookup_app_r by lia. replace (length pre + 1 - length pre)%nat with 1%nat by lia. reflexivity.
Qed.

(** ** References to global variables *)

Section Link.
Context (oc : bool) (data : list Z) (Hb : bytes_ok data) (Hl : len data < 2 ^ 63).

(** The two readings of the section table agree. *)
Lemma strict_table t : section_table_strict oc data = Ok t -> section_table data = Ok (Some t).
Proof using Hb Hl.
  unfold section_table_strict, section_table, is_bpf_elf. destruct (Z.ltb_spec (len data) 64); [done|].
  intros (m & Hm & H1)%res_bind_Ok. apply res_bind_Ok in H1 as (c & Hc & H1). apply res_bind_Ok in H1 as (e & He & H1). rewrite Hm, Hc, He.
  cbn [res_bind]. destruct (_ || _ || _); [done|]. apply res_bind_Ok in H1 as (mc & Hmc & H1). rewrite Hmc. cbn [res_bind].
  destruct (mc =? 0xF7); [|done]. cbn [negb] in *.
  apply res_bind_Ok in H1 as (off & Hoff & H1). apply res_bind_Ok in H1 as (ent & Hent & H1). apply res_bind_Ok in H1 as (num & Hnum & H1).
  apply res_bind_Ok in H1 as (ndx & Hndx & H1). rewrite Hoff, Hent, Hnum, Hndx. cbn [res_bind]. destruct (_ || _); [done|].
  apply res_bind_Ok in H1 as (h & Hh%ok_or_Ok & H1). rewrite Hh. apply res_bind_Ok in H1 as (he & Hhe & H1).
  destruct (Z.gtb_spec he (len data)); [done|]. apply res_bind_Ok in H1 as (so & Hso & H1). apply res_bind_Ok in H1 as (sz & Hsz & H1).
  pose proof (read_le_bounds _ 8 _ _ (Nat.lt_0_succ 7) Hso). pose proof (read_le_bounds _ 8 _ _ (Nat.lt_0_succ 7) Hsz).
  destruct (Z.gtb_spec h (Z.max 0 (len data - 40))); [lia|]. rewrite Hso, Hsz. cbn [res_bind].
  apply res_bind_Ok in H1 as (se & Hse%ok_or_Ok & H1). rewrite Hse. destruct (_ >? _); [done|].
  apply res_bind_Ok in H1 as (names & Hn & H1). rewrite Hn. cbn [res_bind]. congruence.
Qed.

Import ElfFile.

Lemma le_range n off : 0 <= le data n off < 2 ^ (8 * Z.of_nat n).
Proof using Hb.
  unfold le. set (bs := take n _). assert (Hn : (length bs <= n)%nat) by (unfold bs; rewrite length_take; lia).
  destruct (from_le_bytes_range bs) as [H0 H1]; [by apply Forall_take, Forall_drop|]. split; [done|].
  eapply Z.lt_le_trans; [exact H1|]. apply Z.pow_le_mono_r; lia.
Qed.

(** The table the gateway works with is the one of the file. *)
Definition reads (t : SectionTable) : Prop :=
  sh_off t = e_shoff data /\ sh_entsize t = e_shentsize data /\ sh_num t = e_shnum data /\ strtab t = content data (e_shstrndx data).

(** A read that succeeded, by its value. *)
Ltac le_of H := first [apply read_le_le in H; [|lia] | apply index_le in H].

Lemma section_hdr_shdr i h : 0 <= i -> section_hdr (e_shoff data) (e_shentsize data) i = Some h -> h = shdr data i.
Proof using Hb.
  intros Hi Hh. pose proof (le_range 8 40). pose proof (le_range 2 58).
  apply section_hdr_Some in Hh as [-> _]; [done|apply le_range|apply le_range|done].
Qed.

Lemma table_reads t : section_table data = Ok (Some t) -> reads t.
Proof using Hb.
  unfold section_table. intros (b & _ & H1)%res_bind_Ok. destruct (negb b); [done|].
  apply res_bind_Ok in H1 as (off & Hoff & H1). apply res_bind_Ok in H1 as (ent & Hent & H1).
  apply res_bind_Ok in H1 as (num & Hnum & H1). apply res_bind_Ok in H1 as (ndx & Hndx & H1). le_of Hoff. le_of Hent. le_of Hnum. le_of Hndx. subst off ent num ndx.
  destruct (_ || _); [done|]. destruct (section_hdr _ _ _) as [h|] eqn:Hh; [|done]. apply section_hdr_shdr in Hh; [|apply le_range]. subst h.
  destruct (_ >? _); [done|]. apply res_bind_Ok in H1 as (so & Hso & H1). apply res_bind_Ok in H1 as (sz & Hsz & H1). le_of Hso. le_of Hsz. subst so sz.
  destruct (checked_add 64 _ _) as [e|] eqn:He; [|done]. apply checked_add_Some in He as [-> _]. destruct (_ >? _); [done|].
  apply res_bind_Ok in H1 as (names & (_ & _ & ->)%slice_eq & H1). injection H1 as <-. split_and!; try done. simpl.
  unfold content, sh_size, sh_offset, e_shstrndx. do 2 f_equal. lia.
Qed.

Section Sections.
Context (t : SectionTable) (Ht : reads t).

Lemma header_shdr i msg h : 0 <= i -> header_at oc data t i msg = Ok h -> h = shdr data i.
Proof using Ht Hb.
  destruct Ht as (H1 & H2 & _). unfold header_at. rewrite H1, H2. intros Hi (h' & Hh%ok_or_Ok & H3)%res_bind_Ok.
  apply res_bind_Ok in H3 as (he & _ & H3). destruct (_ >? _); [done|]. injection H3 as ->. by apply section_hdr_shdr.
Qed.

Lemma section_name_of i name : section_name data t (shdr data i) = Ok name -> name = name_of data i.
Proof using Ht.
  destruct Ht as (_ & _ & _ & H4). unfold section_name. intros (no & Hno & H1)%res_bind_Ok. le_of Hno. subst no. rewrite H4 in H1.
  destruct (_ >=? _); [done|]. destruct (from_utf8 _); [|done]. by injection H1 as <-.
Qed.

Lemma global_section_data i c : global_section data (shdr data i) (name_of data i) = Ok (Some c) -> c = global_data data i.
Proof using .
  unfold global_section, global_data. intros (ty & Hty & H1)%res_bind_Ok. apply res_bind_Ok in H1 as (so & Hso & H1).
  apply res_bind_Ok in H1 as (sz & Hsz & H1). le_of Hty. le_of Hso. le_of Hsz. subst. fold (sh_type data i) in *. fold (sh_offset data i) in *. fold (sh_size data i) in *.
  destruct (_ =? SHT_PROGBITS); [|by injection H1 as <-]. destruct (checked_add 64 _ _) as [e|] eqn:He; [|done].
  apply checked_add_Some in He as [-> _]. destruct (_ <=? _); [|done]. apply res_bind_Ok in H1 as (c' & (_ & _ & ->)%slice_eq & H1). injection H1 as <-.
  unfold content. do 3 f_equal. lia.
Qed.

(** One section, as both loops see it. *)
Definition target_of (target : list Z) (i : Z) (s : Sections) : option Z :=
  if bool_decide (name_of data i = target) then Some i else target_section s.

Lemma loop_step target globals k i s s' secs secs' :
  0 <= i -> collect_sections oc data t target globals (S k) i s = Ok s' -> scan_globals oc data t (S k) i secs = Ok secs' ->
  if decide (is_global data i) then
    exists m o, globals !! next_global_map s = Some m /\ (forall c, o = Some c -> c = global_data data i) /\
      collect_sections oc data t target globals k (i + 1)
        (mkSections (S (next_global_map s)) (target_of target i s) (<[as_u16 i := m]> (section_map s))) = Ok s' /\
      scan_globals oc data t k (i + 1) (secs ++ option_list o) = Ok secs'
  else
    collect_sections oc data t target globals k (i + 1) (mkSections (next_global_map s) (target_of target i s) (section_map s)) = Ok s' /\
    scan_globals oc data t k (i + 1) secs = Ok secs'.
Proof using Ht Hb.
  intros Hi. cbn [collect_sections scan_globals]. intros (hdr & Hh & Hc)%res_bind_Ok. apply res_bind_Ok in Hc as (name & Hn & Hc).
  pose proof (header_shdr _ _ _ Hi Hh) as ->. pose proof (section_name_of _ _ Hn) as ->.
  unfold header_at in Hh. apply res_bind_Ok in Hh as (h & Hs%ok_or_Ok & Hh). apply res_bind_Ok in Hh as (he & He & Hh). rewrite Hs, He. cbn [res_bind].
  destruct (he >? len data); [done|]. injection Hh as ->.
  unfold section_name in Hn. apply res_bind_Ok in Hn as (no & Hno & Hn). rewrite Hno. cbn [res_bind].
  destruct (no >=? len (strtab t)); [done|]. destruct (from_utf8 _) eqn:Hu; [|done]. injection Hn as Hn. rewrite Hn. cbn [negb orb].
  destruct (decide (is_global data i)) as [Hg|Hg]; [|apply not_true_is_false in Hg]; unfold is_global in Hg; rewrite Hg in Hc |- *; cbn [negb].
  - destruct (globals !! next_global_map s) as [m|] eqn:Hm; [|done]. intros (o & Ho & Hsc)%res_bind_Ok.
    exists m, o. split_and!; try done. intros c ->. by apply global_section_data in Ho.
  - done.
Qed.

(** What the first loop finds among the [k] sections from [i] on, and the data the
    extraction takes from them. *)
Lemma loops_found target globals k i s s' secs secs' :
  collect_sections oc data t target globals k i s = Ok s' -> scan_globals oc data t k i secs = Ok secs' -> 0 <= i -> i + Z.of_nat k <= 2 ^ 16 ->
  let ids := filter (is_global data) (seqZ i (Z.of_nat k)) in
  next_global_map s' = (next_global_map s + length ids)%nat /\
  target_section s' = match list.last (filter (fun x => name_of data x = target) (seqZ i (Z.of_nat k))) with Some x => Some x | None => target_section s end /\
  (forall x m, section_map s' !! x = Some m <->
     (exists j, ids !! j = Some x /\ globals !! (next_global_map s + j)%nat = Some m) \/ ((x ∉ ids) /\ section_map s !! x = Some m)) /\
  (forall j x, ids !! j = Some x -> is_Some (globals !! (next_global_map s + j)%nat)) /\
  exists new, secs' = secs ++ new /\ (length new <= length ids)%nat /\ (length new = length ids -> new = global_data data <$> ids).
Proof using Ht Hb.
  revert i s secs. induction k as [|k IH]; intros i s secs Hc Hs H0 Hk; cbv zeta.
  { injection Hc as ->. injection Hs as ->. simpl. split_and!; [lia|done| |by intros|exists []; by rewrite app_nil_r].
    intros x m. split; [right; split; [apply not_elem_of_nil|done]|]. by intros [(j & Hj & _)|[_ ?]]. }
  pose proof (loop_step _ _ _ _ _ _ _ _ H0 Hc Hs) as Hstep. rewrite seqZ_cons by lia.
  replace (Z.succ i) with (i + 1) by lia. replace (Z.pred (Z.of_nat (S k))) with (Z.of_nat k) by lia.
  assert (Hlast : forall s1, target_section s1 = target_of target i s ->
    match list.last (filter (fun x => name_of data x = target) (seqZ (i + 1) (Z.of_nat k))) with Some x => Some x | None => target_section s1 end =
    match list.last (filter (fun x => name_of data x = target) (i :: seqZ (i + 1) (Z.of_nat k))) with Some x => Some x | None => target_section s end).
  { intros s1 ->. unfold target_of. rewrite filter_cons. case_bool_decide; [rewrite decide_True by done|by rewrite decide_False].
    rewrite last_cons. by destruct (list.last _). }
  assert (Hi16 : as_u16 i = i) by (apply wrap_small; unfold uN; lia).
  assert (Hnew : i ∉ filter (is_global data) (seqZ (i + 1) (Z.of_nat k))).
  { intros [_ Hin%elem_of_seqZ]%list_elem_of_filter. lia. }
  rewrite (filter_cons (is_global data)). destruct (decide (is_global data i)) as [Hg|Hg].
  - destruct Hstep as (m0 & o & Hm0 & Ho & Hc1 & Hs1). destruct (IH _ _ _ Hc1 Hs1) as (I1 & I2 & I3 & I4 & new & I5 & I6 & I7); [lia|lia|].
    simpl next_global_map in *. simpl section_map in *. rewrite Hi16 in *. split_and!.
    + simpl. lia.
    + rewrite I2. by apply Hlast.
    + intros x m. rewrite I3. split.
      * intros [(j & Hj & Hm)|[Hx Hm]]; [left; exists (S j); split; [done|]; by rewrite Nat.add_succ_r|].
        apply lookup_insert_Some in Hm as [[<- <-]|[Hne Hm]]; [left; exists 0%nat; by rewrite Nat.add_0_r|].
        right. rewrite not_elem_of_cons. by split_and!.
      * intros [([|j] & Hj & Hm)|[Hx Hm]].
        -- simpl in Hj. injection Hj as <-. rewrite Nat.add_0_r in Hm. right. split; [done|]. rewrite lookup_insert_eq. congruence.
        -- left. exists j. split; [done|]. by rewrite Nat.add_succ_r in Hm.
        -- apply not_elem_of_cons in Hx as [Hne Hx]. right. by rewrite lookup_insert_ne.
    + intros [|j] x Hj; [rewrite Nat.add_0_r; by eexists|]. rewrite Nat.add_succ_r. by apply (I4 j x).
    + exists (option_list o ++ new). rewrite I5, <- app_assoc, length_app. split; [done|].
      destruct o as [c|]; simpl; [|split; [lia|intros; lia]]. split; [lia|]. intros Hlen. rewrite (Ho c) by done. f_equal. apply I7. lia.
  - destruct Hstep as [Hc1 Hs1]. destruct (IH _ _ _ Hc1 Hs1) as (I1 & I2 & I3 & I4 & I5); [lia|lia|].
    split_and!; try done. rewrite I2. by apply Hlast.
Qed.
End Sections.

(** *** The maps of the image *)

Lemma assign_global ds secs i j m c :
  global_indices_from i ds !! j = Some m -> secs !! j = Some c -> 0 <= i -> i + len ds <= 2 ^ 32 ->
  i <= m /\ m < i + len ds /\ assign_globals ds secs !! Z.to_nat (m - i) = Some c.
Proof using .
  revert i j secs. induction ds as [|d ds IH]; intros i j secs; [done|]. rewrite len_cons. pose proof (len_nonneg ds).
  cbn [global_indices_from assign_globals]. destruct (md_type d =? 0); intros Hj Hc H0 Hl0.
  - destruct secs as [|s secs]; [done|]. destruct j as [|j]; simpl in Hj, Hc.
    + injection Hj as <-. injection Hc as ->. unfold as_u32. rewrite wrap_small by (unfold uN; lia). rewrite Z.sub_diag. split_and!; [lia|lia|done].
    + destruct (IH (i + 1) j secs) as (? & ? & Ha); [done..|lia|lia|]. split_and!; [lia|lia|].
      replace (Z.to_nat (m - i)) with (S (Z.to_nat (m - (i + 1)))) by lia. done.
  - destruct (IH (i + 1) j secs) as (? & ? & Ha); [done..|lia|lia|]. split_and!; [lia|lia|].
    replace (Z.to_nat (m - i)) with (S (Z.to_nat (m - (i + 1)))) by lia. done.
Qed.

Lemma length_assign ds secs : length (assign_globals ds secs) = length ds.
Proof using .
  revert secs. induction ds as [|d ds IH]; intros secs; [done|]. cbn [assign_globals]. repeat case_match; simpl; by rewrite IH.
Qed.

(** *** The rewriting *)

Section Rewriting.
Context (t : SectionTable) (Ht : reads t).
(** The offset that is computed. *)
Lemma reloc_offset_imm sym addend kind lo v :
  compute_lddw_reloc_offset_imm data sym addend kind lo = Ok v ->
  v = st_offset data sym + (if kind =? SHT_RELA then addend else lo) /\ (iN 32 lo -> iN 32 v).
Proof using .
  unfold compute_lddw_reloc_offset_imm, st_offset. intros (si & Hsi & H1)%res_bind_Ok. le_of Hsi. subst si.
  destruct (_ =? STT_SECTION).
  - destruct (kind =? SHT_RELA); [|by injection H1 as <-]. by apply ok_or_Ok, try_i_inv in H1 as [-> ?].
  - apply res_bind_Ok in H1 as (sv & Hsv & H1). le_of Hsv. subst sv. by apply ok_or_Ok, try_i_inv in H1 as [-> ?].
Qed.

(** The sixteen bytes a relocation applies to. *)
Lemma lddw_at bc ro :
  0 <= ro -> ro + 16 <= len bc -> bc !! Z.to_nat ro = Some BPF_LD_DW_IMM ->
  exists pre regs o1 o2 imm hi lo post, bc = pre ++ ([BPF_LD_DW_IMM; regs; o1; o2] ++ imm ++ hi ++ lo) ++ post /\
    len pre = ro /\ length imm = 4%nat /\ length hi = 4%nat /\ length lo = 4%nat /\ le bc 4 (ro + 12) = from_le_bytes lo.
Proof using .
  intros H0 Hl0 Hop. assert (Hbc : bc = take (Z.to_nat ro) bc ++ drop (Z.to_nat ro) bc) by (by rewrite take_drop).
  assert (Hd : (16 <= length (drop (Z.to_nat ro) bc))%nat) by (unfold len in Hl0; rewrite length_drop; lia).
  assert (Hp : length (take (Z.to_nat ro) bc) = Z.to_nat ro) by (unfold len in Hl0; rewrite length_take; lia).
  assert (Hle : le bc 4 (ro + 12) = from_le_bytes (take 4 (drop 12 (drop (Z.to_nat ro) bc)))).
  { unfold le. rewrite drop_drop. do 3 f_equal. lia. }
  assert (Hh : drop (Z.to_nat ro) bc !! 0%nat = Some BPF_LD_DW_IMM) by (by rewrite lookup_drop, Nat.add_0_r).
  destruct (drop (Z.to_nat ro) bc) as [|b0 [|b1 [|b2 [|b3 [|b4 [|b5 [|b6 [|b7 [|c0 [|c1 [|c2 [|c3 [|c4 [|c5 [|c6 [|c7 post]]]]]]]]]]]]]]]]; try (simpl in Hd; lia).
  injection Hh as ->. exists (take (Z.to_nat ro) bc), b1, b2, b3, [b4; b5; b6; b7], [c0; c1; c2; c3], [c4; c5; c6; c7], post.
  split_and!; try done. unfold len. lia.
Qed.

(** The table of section [i]. *)
Definition table_of (i : Z) (r : RelTable) : Prop :=
  rel_data r = content data i /\ sh_offset data i + sh_size data i <= len data /\ rel_type r = sh_type data i /\
  rel_stride r = stride data i /\ sym_off r = sh_offset data (sh_link data i) /\ sym_entsize r = sh_entry data (sh_link data i).

Lemma rel_table_of i r : 0 <= i -> rel_table oc data t (shdr data i) (sh_type data i) = Ok r -> table_of i r /\ entry_size (sh_type data i) <= rel_stride r.
Proof using Ht Hb.
  intros Hi. unfold rel_table. intros (ro & Hro & H1)%res_bind_Ok. apply res_bind_Ok in H1 as (rs & Hrs & H1).
  apply res_bind_Ok in H1 as (re & Hre & H1). le_of Hro. le_of Hrs. le_of Hre. subst ro rs re.
  fold (sh_offset data i) in H1. fold (sh_size data i) in H1. fold (sh_entry data i) in H1.
  apply res_bind_Ok in H1 as (e & [-> _]%ok_or_Ok%checked_add_Some & H1). destruct (Z.gtb_spec (sh_offset data i + sh_size data i) (len data)); [done|].
  apply res_bind_Ok in H1 as (st & Hst & H1). apply res_bind_Ok in H1 as (sx & Hsx & H1). le_of Hsx. subst sx. fold (sh_link data i) in H1.
  destruct (sh_num t <=? sh_link data i); [done|]. apply res_bind_Ok in H1 as (sh & Hsh & H1). apply header_shdr in Hsh; [subst sh|done|apply le_range].
  apply res_bind_Ok in H1 as (sty & _ & H1). destruct (negb _); [done|]. apply res_bind_Ok in H1 as (so & Hso & H1).
  apply res_bind_Ok in H1 as (ss & Hss & H1). apply res_bind_Ok in H1 as (se & Hse & H1). le_of Hso. le_of Hss. le_of Hse. subst so ss se.
  destruct (_ <? 24); [done|]. apply res_bind_Ok in H1 as (en & _ & H1). destruct (_ >? _); [done|].
  apply res_bind_Ok in H1 as (c & (_ & _ & ->)%slice_eq & H1). injection H1 as <-.
  assert (Hstride : st = stride data i /\ entry_size (sh_type data i) <= st).
  { unfold stride. destruct (sh_entry data i =? 0); [injection Hst as <-; lia|]. destruct (Z.leb_spec (entry_size (sh_type data i)) (sh_entry data i)); [|done]. by injection Hst as <-. }
  destruct Hstride as [-> Hes]. split; [|done]. unfold table_of. cbn [rel_data rel_type rel_stride sym_off sym_entsize]. split_and!; try done.
  unfold content. do 2 f_equal. lia.
Qed.

(** A number of entry [k]. *)
Lemma read_entry i r k o x : table_of i r -> 0 <= k -> 0 <= rel_stride r -> 0 <= o ->
  read_le (rel_data r) 8 (k * rel_stride r + o) = Ok x -> x = le data 8 (sh_offset data i + k * stride data i + o).
Proof using Hb.
  clear Hl. intros (Hd & Hin & _ & Hst & _) Hk Hs Ho Hr. pose proof (read_le_bounds _ 8 _ _ (Nat.lt_0_succ 7) Hr) as [_ Hlen]. le_of Hr. subst x.
  pose proof (le_range 8 (shdr data i + 32)). pose proof (le_range 8 (shdr data i + 24)). fold (sh_size data i) in *. fold (sh_offset data i) in *.
  assert (Hc : len (rel_data r) = sh_size data i). { rewrite Hd. unfold content, len in *. rewrite length_take, length_drop. lia. }
  rewrite Hd. unfold content. rewrite le_part by (rewrite ?Hst in *; nia). f_equal. rewrite Hst. lia.
Qed.

Context (globals : list Z) (smap : gmap Z Z).
(** The map of a section: that of its place among the global sections. *)
Context (Hmap : forall x m, smap !! x = Some m <-> exists j, global_ids data !! j = Some x /\ globals !! j = Some m).
Context (Hcount : (length (global_ids data) <= length globals)%nat).

Lemma in_map_global x : smap !! x = None -> x ∉ global_ids data.
Proof using Hmap Hcount.
  intros Hx [j Hj]%list_elem_of_lookup. destruct (lookup_lt_is_Some_2 globals j) as [m Hm]; [apply lookup_lt_Some in Hj; lia|].
  rewrite (proj2 (Hmap x m)) in Hx; [done|by exists j].
Qed.

Lemma rewrite_entry_links i r k bc bc' :
  table_of i r -> 0 <= k -> 0 <= rel_stride r -> rewrite_entry oc data r smap bc (k * rel_stride r) = Ok bc' ->
  linked data globals (reloc data i k) bc bc'.
Proof using Hmap Hcount Hb.
  clear Hl. intros Hi Hk Hst. pose proof Hi as (_ & _ & Hty & _ & Hso & Hse). unfold rewrite_entry. intros (ro & Hro & H1)%res_bind_Ok.
  apply res_bind_Ok in H1 as (ri & Hri & H1). apply res_bind_Ok in H1 as (ad & Had & H1).
  rewrite <- (Z.add_0_r (k * rel_stride r)) in Hro at 1. apply (read_entry i r k 0) in Hro; [|done..]. apply (read_entry i r k 8) in Hri; [|done || lia..].
  apply res_bind_Ok in H1 as (sr & [-> _]%ok_or_Ok%checked_mul_Some & H1). apply res_bind_Ok in H1 as (se & [Hsym _]%ok_or_Ok%checked_add_Some & H1).
  apply res_bind_Ok in H1 as (sd & _ & H1). destruct (_ >? _); [done|]. apply res_bind_Ok in H1 as (x & Hx & H1). le_of Hx.
  assert (Hs : r_symbol (reloc data i k) = se) by (simpl; rewrite Hsym, Hso, Hse, Hri; done).
  assert (Ho : r_offset (reloc data i k) = ro) by (simpl; rewrite Hro; by rewrite Z.add_0_r).
  unfold linked. rewrite Hs, Ho. unfold st_shndx. rewrite <- Hx.
  destruct (smap !! x) as [m|] eqn:Hm; [right|left; injection H1 as <-; split; [by apply in_map_global|done]].
  apply Hmap in Hm as (j & Hj & Hgj). apply res_bind_Ok in H1 as (re & Hre & H1).
  destruct (_ >? _); [done|]. apply res_bind_Ok in H1 as (op & Hop & H1). destruct (Z.eqb_spec op BPF_LD_DW_IMM) as [->|]; [|done]. cbn [negb] in H1.
  apply res_bind_Ok in H1 as (lo & Hlo & H1). apply res_bind_Ok in H1 as (v & Hv & H1). injection H1 as <-.
  pose proof (read_le_bounds _ 4 _ _ (Nat.lt_0_succ 3) Hlo) as [_ Hend]. le_of Hlo. unfold index in Hop. destruct (Z.ltb_spec ro 0); [done|].
  destruct (bc !! Z.to_nat ro) as [b|] eqn:Hb0; [|done]. injection Hop as ->.
  destruct (lddw_at bc ro) as (pre & regs & o1 & o2 & imm & hi & lo4 & post & Hbc & Hpre & L1 & L2 & L3 & Hlo4); [lia|lia|done|].
  exists j, m, pre, regs, o1, o2, imm, hi, lo4, post, v.
  apply reloc_offset_imm in Hv as [Hv Hr]. split_and!; try done.
  - rewrite Hv. f_equal. unfold reloc. cbn [r_addend]. rewrite <- Hty. destruct (rel_type r =? SHT_RELA); [|simpl; by rewrite <- Hlo4, <- Hlo].
    apply res_bind_Ok in Had as (a & Ha & Had). injection Had as <-. apply (read_entry i r k 16) in Ha; [|done || lia..]. by rewrite Ha.
  - apply Hr. apply signed_range. lia.
  - rewrite Hbc, <- Hpre.
    destruct imm as [|i0 [|i1 [|i2 [|i3 [|? ?]]]]]; try done. destruct hi as [|h0 [|h1 [|h2 [|h3 [|? ?]]]]]; try done.
    destruct lo4 as [|l0 [|l1 [|l2 [|l3 [|? ?]]]]]; try done. apply (rewrite_lddw_app pre post BPF_LD_DW_IMM regs o1 o2 i0 i1 i2 i3 h0 h1 h2 h3 l0 l1 l2 l3).
Qed.

(** The entries from number [a] on: all that fit whole. *)
Lemma rewrite_entries_links i r (c : nat) a bc bc' :
  table_of i r -> entry_size (sh_type data i) <= rel_stride r -> 0 <= a -> reloc_count data i <= a + Z.of_nat c ->
  rewrite_entries oc data r smap ((fun k => k * rel_stride r) <$> seqZ a (Z.of_nat c)) bc = Ok bc' ->
  links data globals (reloc data i <$> seqZ a (reloc_count data i - a)) bc bc'.
Proof using Hmap Hcount Hb.
  clear Hl. intros Hi Hst. pose proof Hi as (Hd & Hin & Hty & Hs & _). assert (He : 0 < entry_size (sh_type data i)) by (unfold entry_size; case_match; lia).
  pose proof (le_range 8 (shdr data i + 32)). pose proof (le_range 8 (shdr data i + 24)).
  assert (Hlen : len (rel_data r) = sh_size data i). { rewrite Hd. unfold content, len, sh_size, sh_offset in *. rewrite length_take, length_drop. lia. }
  assert (Hfit : forall k, 0 <= k -> k < reloc_count data i <-> k * rel_stride r + entry_size (sh_type data i) <= sh_size data i).
  { intros k Hk. unfold reloc_count. rewrite <- Hs. destruct (Z.ltb_spec (sh_size data i) (entry_size (sh_type data i))); [split; [lia|nia]|].
    rewrite <- Z.le_succ_l. split; intros Hx.
    - assert (k <= (sh_size data i - entry_size (sh_type data i)) / rel_stride r) as Hq by lia.
      pose proof (Z.mul_div_le (sh_size data i - entry_size (sh_type data i)) (rel_stride r)). nia.
    - assert (k <= (sh_size data i - entry_size (sh_type data i)) / rel_stride r); [|lia]. apply Z.div_le_lower_bound; lia. }
  revert a bc. induction c as [|c IH]; intros a bc Ha Hc H1.
  { injection H1 as <-. rewrite seqZ_nil by lia. constructor. }
  rewrite seqZ_cons in H1 by lia. cbn [fmap list_fmap rewrite_entries] in H1. rewrite Hty, Hlen in H1.
  destruct (Z.gtb_spec (a * rel_stride r + entry_size (sh_type data i)) (sh_size data i)) as [Hg|Hle].
  { injection H1 as <-. rewrite seqZ_nil; [constructor|]. destruct (Hfit a Ha) as [Hf _]. lia. }
  apply (Hfit a Ha) in Hle. apply res_bind_Ok in H1 as (b1 & Hb1 & H1). rewrite seqZ_cons by lia. cbn [fmap list_fmap].
  econstructor; [eapply rewrite_entry_links; [done..|lia|exact Hb1]|]. replace (Z.pred (reloc_count data i - a)) with (reloc_count data i - Z.succ a) by lia.
  apply IH; [lia|lia|]. by replace (Z.of_nat c) with (Z.pred (Z.of_nat (S c))) by lia.
Qed.

Lemma all_entries i r bc bc' :
  table_of i r -> entry_size (sh_type data i) <= rel_stride r ->
  rewrite_entries oc data r smap (steps (len (rel_data r)) (rel_stride r)) bc = Ok bc' ->
  links data globals (reloc data i <$> seqZ 0 (reloc_count data i)) bc bc'.
Proof using Hmap Hcount Hb.
  clear Hl. intros Hi Hst. pose proof Hi as (Hd & Hin & _ & Hs & _). assert (He : 0 < entry_size (sh_type data i)) by (unfold entry_size; case_match; lia).
  pose proof (le_range 8 (shdr data i + 32)). pose proof (le_range 8 (shdr data i + 24)).
  assert (Hlen : len (rel_data r) = sh_size data i). { rewrite Hd. unfold content, len, sh_size, sh_offset in *. rewrite length_take, length_drop. lia. }
  unfold steps. rewrite Hlen. set (n := (sh_size data i + rel_stride r - 1) / rel_stride r).
  assert (Hn : 0 <= n) by (apply Z.div_pos; unfold sh_size; lia). rewrite <- (Z2Nat.id n Hn).
  replace (reloc_count data i) with (reloc_count data i - 0) by lia. apply rewrite_entries_links; [done..|]. rewrite Z2Nat.id by done.
  unfold reloc_count, n. rewrite <- Hs. destruct (_ <? _); [lia|].
  replace ((sh_size data i - entry_size (sh_type data i)) / rel_stride r + 1) with ((sh_size data i - entry_size (sh_type data i) + 1 * rel_stride r) / rel_stride r) by (apply Z.div_add; lia).
  simpl. apply Z.div_le_mono; lia.
Qed.

Lemma rewrite_tables_links target k i bc bc' :
  0 <= i -> rewrite_tables oc data t target smap k i bc = Ok bc' ->
  links data globals (concat ((fun i => reloc data i <$> seqZ 0 (reloc_count data i)) <$> filter (applies_to data target) (seqZ i (Z.of_nat k)))) bc bc'.
Proof using Ht Hmap Hcount Hb.
  revert i bc. induction k as [|k IH]; intros i bc Hi H1; [injection H1 as <-; constructor|]. cbn [rewrite_tables] in H1.
  rewrite seqZ_cons by lia. replace (Z.pred (Z.of_nat (S k))) with (Z.of_nat k) by lia. replace (Z.succ i) with (i + 1) by lia.
  apply res_bind_Ok in H1 as (hdr & Hh & H1). apply header_shdr in Hh; [subst hdr|done..]. apply res_bind_Ok in H1 as (ty & Hty & H1). le_of Hty.
  fold (sh_type data i) in Hty. subst ty. rewrite filter_cons.
  destruct (Z.eqb_spec (sh_type data i) SHT_REL) as [Hrel|Hrel], (Z.eqb_spec (sh_type data i) SHT_RELA) as [Hrela|Hrela]; cbn [negb andb] in H1.
  4: { rewrite decide_False by (intros [[?|?] _]; done). apply IH; [lia|done]. }
  all: apply res_bind_Ok in H1 as (rt & Hrt & H1); le_of Hrt; fold (sh_info data i) in Hrt; subst rt;
    destruct (Z.eqb_spec (sh_info data i) target) as [Htg|Htg]; cbn [negb] in H1;
    [rewrite decide_True by (split; auto)|rewrite decide_False by (intros [_ ?]; done); apply IH; [lia|done]];
    apply res_bind_Ok in H1 as (r & [Hr Hes]%rel_table_of & H1); [|done]; apply res_bind_Ok in H1 as (b1 & Hb1 & H1);
    cbn [fmap list_fmap concat]; eapply links_app; [|apply IH; [lia|exact H1]]; eapply all_entries; eassumption.
Qed.
End Rewriting.

(** *** The maps and the instructions of the image *)

Lemma indices_from_maps i ds : 0 <= i -> i + len ds <= 2 ^ 32 -> global_indices_from i ds = maps_from i ds.
Proof using .
  revert i. induction ds as [|d ds IH]; intros i H0 Hn; [done|]. rewrite len_cons in Hn. pose proof (len_nonneg ds). unfold maps_from. rewrite len_cons, seqZ_cons by lia.
  replace (Z.succ i) with (i + 1) by lia. replace (Z.pred (1 + len ds)) with (len ds) by lia. cbn [global_indices_from zip zip_with]. rewrite IH by lia.
  rewrite filter_cons. simpl. unfold as_u32. rewrite wrap_small by (unfold uN; lia).
  destruct (Z.eqb_spec (md_type d) 0); [by rewrite decide_True|by rewrite decide_False].
Qed.

(** Maps that are not made of global sections start empty. *)
Lemma assign_other ds secs k d : ds !! k = Some d -> md_type d <> 0 -> assign_globals ds secs !! k = Some ([], false).
Proof using .
  revert secs k. induction ds as [|d0 ds IH]; intros secs k Hk Hd; [done|]. cbn [assign_globals]. destruct k as [|k]; simpl in Hk.
  - injection Hk as ->. by rewrite (proj2 (Z.eqb_neq _ _)).
  - repeat case_match; simpl; by apply IH.
Qed.

(** What the rewriting does, when it agrees with the extraction on the number of
    global sections: the data that was extracted is that of the sections, each has its
    map, and every relocation of the target is applied. *)
Lemma rewriting_links target bc ds secs bc' :
  rewrite_global_data_relocations oc data target bc ds = Ok bc' -> extract_global_section_data oc data = Ok secs ->
  length (global_map_indices ds) = length secs -> len ds < 2 ^ 32 ->
  secs = global_data data <$> global_ids data /\ length (global_ids data) = length (global_maps ds) /\
  links data (global_maps ds) (relocations data target) bc bc'.
Proof using Hb Hl.
  unfold rewrite_global_data_relocations, global_map_indices. intros (t & Hst & H1)%res_bind_Ok Hx Hlen Hds.
  pose proof (strict_table _ Hst) as Ht'. pose proof (table_reads _ Ht') as Hr. apply res_bind_Ok in H1 as (s & Hs & H1).
  unfold extract_global_section_data in Hx. rewrite Ht' in Hx. cbn [res_bind] in Hx. rewrite indices_from_maps in * by lia. fold (global_maps ds) in *.
  destruct (Nat.eqb_spec (next_global_map s) (length (global_maps ds))) as [Hn|]; [|done]. cbn [negb] in H1.
  assert (Hnum : 0 <= sh_num t < 2 ^ 16) by (destruct Hr as (_ & _ & -> & _); apply le_range).
  destruct (loops_found t Hr _ _ _ _ _ _ _ _ Hs Hx) as (F1 & F2 & F3 & _ & new & F5 & F6 & F7); [lia|lia|]. rewrite Z2Nat.id in * by lia.
  destruct Hr as (R1 & R2 & R3 & R4). rewrite R3 in *. fold (section_ids data) in *. fold (global_ids data) in *. simpl in F1, F2, F3, F5. subst new.
  split_and!; [by apply F7; lia|lia|]. unfold relocations. rewrite F2 in H1. destruct (list.last _) as [x|]; [|injection H1 as <-; constructor].
  unfold section_ids. rewrite <- (Z2Nat.id (e_shnum data)) by lia. eapply rewrite_tables_links; [by split_and!| |lia|done|exact H1].
  intros y m. rewrite F3. split; [|by left]. intros [?|[_ He]]; [done|]. by rewrite lookup_empty in He.
Qed.

(** The entry at [off] applies at [ro] and names the symbol at [sym], whose section
    map [m] holds. *)
Definition refers (r : RelTable) (smap : gmap Z Z) (off ro sym addend m : Z) : Prop :=
  read_le (rel_data r) 8 off = Ok ro /\
  (if rel_type r =? SHT_RELA then exists a, read_le (rel_data r) 8 (off + 16) = Ok a /\ addend = as_i64 a else addend = 0) /\
  exists info x, read_le (rel_data r) 8 (off + 8) = Ok info /\ sym = sym_off r + Z.shiftr info 32 * sym_entsize r /\
    0 <= Z.shiftr info 32 * sym_entsize r /\ 0 <= sym_off r /\ 0 <= sym_entsize r /\
    sym + sym_entsize r <= sym_end r < 2 ^ 64 /\ read_le data 2 (sym + 6) = Ok x /\ smap !! x = Some m.

(** What is left to check. *)
Lemma refers_entry r smap bc off ro sym addend m :
  refers r smap off ro sym addend m ->
  rewrite_entry oc data r smap bc off =
    let? r_end := arith_u oc 64 (ro + 16) in
    if r_end >? len bc then parse_err "relocation exceeds section" else
    let? opcode := index bc ro in
    if negb (opcode =? BPF_LD_DW_IMM) then parse_err "relocation does not target LD_DW_IMM" else
    let? imm := read_le bc 4 (ro + 12) in
    let? v := compute_lddw_reloc_offset_imm data sym addend (rel_type r) (as_i32 imm) in
    Ok (rewrite_lddw bc ro m v).
Proof using .
  clear Hb Hl. intros (Hro & Had & info & x & Hi & -> & H0 & H1 & H2 & H3 & Hx & Hm). unfold rewrite_entry. rewrite Hro. cbn [res_bind]. rewrite Hi. cbn [res_bind].
  assert (Ha : (if rel_type r =? SHT_RELA then let? a := read_le (rel_data r) 8 (off + 16) in Ok (as_i64 a) else Ok 0) = Ok (E := ProgramError) addend).
  { destruct (rel_type r =? SHT_RELA); [|by rewrite Had]. by destruct Had as (a & -> & ->). }
  rewrite Ha. cbn [res_bind]. unfold checked_mul. rewrite (proj2 (Z.ltb_lt _ _)) by lia. cbn [ok_or res_bind]. rewrite !checked_add_lt by lia. cbn [ok_or res_bind].
  rewrite checked_add_lt by lia. cbn [ok_or res_bind]. rewrite Z.gtb_ltb, (proj2 (Z.ltb_ge _ _)) by lia. rewrite Hx. cbn [res_bind]. by rewrite Hm.
Qed.

(** An offset at the end of the 64-bit range panics: in the addition with overflow
    checks, in the access without. *)
Lemma entry_panics r smap bc off ro sym addend m :
  refers r smap off ro sym addend m -> 2 ^ 64 - 16 <= ro < 2 ^ 64 -> 16 <= len bc < 2 ^ 63 -> rewrite_entry oc data r smap bc off = Panic.
Proof using .
  clear Hb Hl. intros Href Hro Hbc. rewrite (refers_entry _ _ _ _ _ _ _ _ Href).
  unfold arith_u. rewrite (proj2 (Z.ltb_ge (ro + 16) (2 ^ 64))), andb_false_r by lia. destruct oc; [done|]. cbn [res_bind].
  assert (Hw : wrap 64 (ro + 16) = ro + 16 - 2 ^ 64) by (unfold wrap; symmetry; apply (Zmod_unique _ _ 1); lia).
  rewrite Hw, Z.gtb_ltb, (proj2 (Z.ltb_ge _ _)) by lia. by rewrite index_past by lia.
Qed.

End Link.

(** ** References to global variables, from the gateway to the interpreter *)

From S2P Require Import Ebpf BpfTypes BpfSpill BpfMem BpfAlu BpfExec.

(** The rewritten register byte: the destination as it was, source 6. *)
Lemma source_six b1 : uN 8 b1 -> Z.land (Z.lor (Z.land b1 0x0f) 0x60) 0x0f = Z.land b1 0x0f /\
  Z.land (Z.shiftr (Z.lor (Z.land b1 0x0f) 0x60) 4) 0x0f = 6.
Proof.
  intros Hb. change (Z.lor (Z.land b1 15) 96) with (Z.lor (Z.land b1 15) (Z.shiftl 6 4)). apply unpack_nibbles; [|split; discriminate || reflexivity].
  change 15 with (Z.ones 4). rewrite Z.land_ones by lia. apply Z.mod_pos_bound. lia.
Qed.

(** Two consecutive instructions of a program. *)
Lemma two_insns {E} bc (n : nat) i next :
  get_insn (E := E) bc (Z.of_nat n) = Ok i -> get_insn (E := E) bc (Z.of_nat n + 1) = Ok next ->
  exists pre post b0 b1 b2 b3 b4 b5 b6 b7 c0 c1 c2 c3 c4 c5 c6 c7,
    bc = pre ++ [b0; b1; b2; b3; b4; b5; b6; b7; c0; c1; c2; c3; c4; c5; c6; c7] ++ post /\ length pre = (8 * n)%nat /\
    decode_insn (E := E) [b0; b1; b2; b3; b4; b5; b6; b7] = Ok i /\ decode_insn (E := E) [c0; c1; c2; c3; c4; c5; c6; c7] = Ok next.
Proof.
  unfold get_insn, INSN_SIZE, slice. intros H1 H2.
  destruct ((_ <=? _) && _ && _) eqn:Hs1 in H1; [|done]. destruct ((_ <=? _) && _ && _) eqn:Hs2 in H2; [|done]. zbool. cbn [res_bind] in H1, H2.
  replace (Z.to_nat (Z.of_nat n * 8 + 8 - Z.of_nat n * 8)) with 8%nat in H1 by lia.
  replace (Z.to_nat ((Z.of_nat n + 1) * 8 + 8 - (Z.of_nat n + 1) * 8)) with 8%nat in H2 by lia.
  replace (Z.to_nat ((Z.of_nat n + 1) * 8)) with (8 * n + 8)%nat in H2 by lia. replace (Z.to_nat (Z.of_nat n * 8)) with (8 * n)%nat in H1 by lia.
  rewrite <- drop_drop in H2. assert (Hbc : bc = take (8 * n) bc ++ drop (8 * n) bc) by (by rewrite take_drop).
  assert (Hl : (16 <= length (drop (8 * n) bc))%nat) by (rewrite length_drop; lia).
  assert (Hp : length (take (8 * n) bc) = (8 * n)%nat) by (rewrite length_take; lia).
  destruct (drop (8 * n) bc) as [|b0 [|b1 [|b2 [|b3 [|b4 [|b5 [|b6 [|b7 [|c0 [|c1 [|c2 [|c3 [|c4 [|c5 [|c6 [|c7 post]]]]]]]]]]]]]]]]; try (simpl in Hl; lia).
  exists (take (8 * n) bc), post, b0, b1, b2, b3, b4, b5, b6, b7, c0, c1, c2, c3, c4, c5, c6, c7. split_and!; [exact Hbc|exact Hp|exact H1|exact H2].
Qed.

(** Instruction [n] of a program that is [8 n] bytes in. *)
Lemma get_insn_at {E} pre bs post (n : nat) : length pre = (8 * n)%nat -> length bs = 8%nat ->
  get_insn (E := E) (pre ++ bs ++ post) (Z.of_nat n) = decode_insn bs.
Proof.
  intros Hp Hb. unfold get_insn, INSN_SIZE. rewrite slice_app_mid by (unfold len; lia). done.
Qed.

(** The rewritten load: source 6, the index of the map, and the offset in the second
    half; nothing else changes. *)
Lemma rewritten_insns {E} bc (n : nat) i next m im :
  bytes_ok bc -> get_insn (E := E) bc (Z.of_nat n) = Ok i -> get_insn (E := E) bc (Z.of_nat n + 1) = Ok next ->
  0 <= m < 2 ^ 31 -> iN 32 im ->
  let bc' := rewrite_lddw bc (8 * Z.of_nat n) m im in
  len bc' = len bc /\
  get_insn (E := E) bc' (Z.of_nat n) = Ok (mkInsn (opc i) (dst i) 6 (off i) m) /\
  get_insn (E := E) bc' (Z.of_nat n + 1) = Ok (mkInsn (opc next) (dst next) (src next) (off next) im).
Proof.
  intros Hb H1 H2 Hm Him. destruct (two_insns bc n i next H1 H2) as (pre & post & b0 & b1 & b2 & b3 & b4 & b5 & b6 & b7 & c0 & c1 & c2 & c3 & c4 & c5 & c6 & c7 & -> & Hp & Hi & Hn).
  cbv zeta. replace (8 * Z.of_nat n) with (len pre) by (unfold len; lia). rewrite rewrite_lddw_app.
  rewrite decode_insn_eq in Hi, Hn. injection Hi as <-. injection Hn as <-. cbn [opc dst src off].
  apply Forall_app in Hb as [_ Hb]. assert (Hb1 : uN 8 b1) by (cbn [app] in Hb; apply list.Forall_cons in Hb as [_ Hb]; by apply list.Forall_cons in Hb as [Hb _]).
  destruct (source_six b1 Hb1) as [Hd Hs].
  assert (Hword : forall x, iN 32 x -> signed 32 (from_le_bytes (to_le_bytes 4 x)) = x) by (intros x Hx; rewrite from_to_le_bytes; by apply signed_small).
  split; [rewrite !len_app; f_equal|]. split.
  - change ([b0; Z.lor (Z.land b1 15) 96; b2; b3] ++ to_le_bytes 4 m ++ [c0; c1; c2; c3] ++ to_le_bytes 4 im) with
      (([b0; Z.lor (Z.land b1 15) 96; b2; b3] ++ to_le_bytes 4 m) ++ [c0; c1; c2; c3] ++ to_le_bytes 4 im). rewrite <- (app_assoc _ _ post).
    rewrite get_insn_at by done. cbn [app to_le_bytes]. rewrite decode_insn_eq, Hd, Hs. do 2 f_equal. apply (Hword m). split; lia.
  - change ([b0; Z.lor (Z.land b1 15) 96; b2; b3] ++ to_le_bytes 4 m ++ [c0; c1; c2; c3] ++ to_le_bytes 4 im) with
      (([b0; Z.lor (Z.land b1 15) 96; b2; b3] ++ to_le_bytes 4 m) ++ [c0; c1; c2; c3] ++ to_le_bytes 4 im). rewrite <- (app_assoc _ _ post), app_assoc.
    replace (Z.of_nat n + 1) with (Z.of_nat (S n)) by lia. rewrite get_insn_at by (rewrite ?length_app, ?Hp; simpl; lia).
    cbn [app to_le_bytes]. rewrite decode_insn_eq. do 2 f_equal. by apply (Hword im).
Qed.

(** C28: a reference to a global variable that the gateway rewrote is what the node's
    interpreter loads.  When instruction [n] of a program is a wide load and the
    rewriting has made it name map [m] and offset [im], executing it puts into its
    destination register the address of byte [im] of that map's value, as a pointer that
    may reach that value and nothing else, and goes on after the second half of the
    instruction. *)
Theorem global_reference_loads (e : Env) (v : VM) bc (n : nat) i next m im mp :
  base64 (build e) = true -> prog e = rewrite_lddw bc (8 * Z.of_nat n) m im -> bytes_ok bc ->
  get_insn (E := BpfError) bc (Z.of_nat n) = Ok i -> get_insn (E := BpfError) bc (Z.of_nat n + 1) = Ok next ->
  opc i = BPF_LD_DW_IMM -> dst i <= 10 -> 0 <= m < 2 ^ 31 -> iN 32 im ->
  maps e !! Z.to_nat m = Some mp -> 0 <= data_start mp -> 0 <= key_size mp ->
  data_start mp + key_size mp + value_size mp <= data_end mp < 2 ^ 64 -> 0 <= im < value_size mp ->
  pc v = Z.of_nat n -> 0 <= insn_count v -> insn_count v + 2 <= instruction_budget e < 2 ^ 64 ->
  let value_base := data_start mp + key_size mp in
  step e v = Ok (Continue (set_count (set_pc (set_reg v (rset (reg v) (dst i)
    (mkReg (value_base + im) (Some (mkRegion (MapValue (value_size mp)) value_base (value_base + value_size mp))))))
    (Z.of_nat n + 2)) (insn_count v + 2))).
Proof.
  intros H64 Hprog Hb Hi Hnext Hop Hdst Hm Him Hmp H0 Hk Hend Hval Hpc Hc Hbud. cbv zeta.
  destruct (rewritten_insns bc n i next m im Hb Hi Hnext Hm Him) as (Hlen & Hi' & Hn'). rewrite <- Hprog in Hlen, Hi', Hn'.
  assert (Hnum : Z.of_nat n + 1 < num_insns e).
  { unfold num_insns, INSN_SIZE. rewrite Hlen. unfold get_insn, slice, INSN_SIZE in Hnext. destruct ((_ <=? _) && _ && _) eqn:Hs in Hnext; [|done]. zbool.
    unfold len. apply Z.lt_le_trans with (Z.of_nat n + 2); [lia|]. apply Z.div_le_lower_bound; lia. }
  unfold step. rewrite Hpc, (proj2 (Z.ltb_lt _ _)) by lia. rewrite arith_u_in_range by lia. cbn [res_bind].
  rewrite Z.gtb_ltb, (proj2 (Z.ltb_ge _ _)) by lia. rewrite Hi'. cbn [res_bind dst src]. rewrite Z.gtb_ltb, (proj2 (Z.ltb_ge 10 (dst i))) by lia.
  cbn [Z.gtb Z.compare Pos.compare Pos.compare_cont orb].
  unfold exec_insn. cbn [opc]. rewrite Hop. change (BPF_LD_DW_IMM) with 24.
  rewrite H64. change ((24 =? LD_DW_IMM) && true) with true. cbv iota. unfold exec_ld_dw_imm. cbn [pc set_pc set_count insn_count].
  rewrite Z.geb_leb, (proj2 (Z.leb_gt _ _)) by lia. rewrite Hn'. cbn [res_bind]. rewrite arith_u_in_range by lia. cbn [res_bind].
  rewrite Z.gtb_ltb, (proj2 (Z.ltb_ge _ _)) by lia. cbn [src Z.eqb Pos.eqb]. unfold ld_map_value. cbn [imm].
  rewrite (proj2 (Z.ltb_ge m 0)) by lia. unfold as_u32. rewrite wrap_small by (unfold uN; lia). rewrite Hmp.
  unfold checked_add_signed. rewrite checked_add_lt by lia. cbn [ok_or res_bind].
  rewrite (proj2 (Z.leb_le 0 _)), (proj2 (Z.ltb_lt _ (2 ^ 64))) by lia. cbn [andb ok_or res_bind]. rewrite checked_add_lt by lia. cbn [ok_or res_bind].
  rewrite (proj2 (Z.ltb_ge _ (data_start mp))) by lia. rewrite Z.gtb_ltb, (proj2 (Z.ltb_ge (data_end mp) _)) by lia. cbn [orb].
  rewrite (proj2 (Z.ltb_ge _ (data_start mp + key_size mp))) by lia. rewrite Z.geb_leb, (proj2 (Z.leb_gt _ _)) by lia. cbn [orb res_bind res_map dst].
  unfold set_count, set_pc, set_reg. cbn. do 3 f_equal; lia.
Qed.
