(* ===== verification/GwIngest.v ===== *)
(** * Programs enter the library

    [sonde-gateway/src/program.rs]: [ProgramLibrary].  An uploaded ELF file is verified
    by Prevail, whose loader and analyses are an interface, and turned into the image
    that nodes run. *)

From Stdlib Require Import String.
From S2P Require Import Prelude Frame Messages ProgramImage GwStore GwElf GwPlatform GwElfProofs.
Open Scope list_scope.
Open Scope Z_scope.

(** ** Prevail *)

Record RawInst := mkRawInst { ri_opcode : Z; ri_dst_src : Z; ri_offset : Z; ri_imm : Z }.
Record RawProgram := mkRawProgram {
  function_name : list Z;
  rp_prog : list RawInst;
  map_descriptors : list EbpfMapDescriptor
}.

(** The calls, in the order they are made; an error is its text.  The option says
    whether termination is checked.  What the printers of errors and invariants write
    are bytes. *)
Class Prevail : Type := {
  ElfObject : Type;
  InstructionSeq : Type;
  PrevailProgram : Type;
  AnalysisResult : Type;
  elf_object : bool -> list Z -> list Z + ElfObject;
  get_programs : ElfObject -> list Z -> BpfPlatform -> list Z + list RawProgram;
  unmarshal : RawProgram -> BpfPlatform -> bool -> (list Z + InstructionSeq) * list (list Z);
  from_sequence : InstructionSeq -> RawProgram -> BpfPlatform -> bool -> list Z + PrevailProgram;
  analyze : PrevailProgram -> RawProgram -> BpfPlatform -> bool -> AnalysisResult;
  analysis_failed : AnalysisResult -> bool;
  find_first_error : AnalysisResult -> option (list Z);
  print_invariants : AnalysisResult -> list Z
}.

Definition raw_inst_ok (i : RawInst) : Prop := uN 8 (ri_opcode i) /\ uN 8 (ri_dst_src i) /\ iN 16 (ri_offset i) /\ iN 32 (ri_imm i).
Definition descriptor_ok (d : EbpfMapDescriptor) : Prop :=
  uN 32 (md_type d) /\ uN 32 (md_key_size d) /\ uN 32 (md_value_size d) /\ uN 32 (md_max_entries d).

(** The fields of a program have their types, and its maps can be numbered. *)
Class PrevailTyped (P : Prevail) : Prop := {
  programs_typed obj name pl raws raw : get_programs obj name pl = inr raws -> raw ∈ raws ->
    Forall raw_inst_ok (rp_prog raw) /\ Forall descriptor_ok (map_descriptors raw) /\ len (map_descriptors raw) < 2 ^ 32
}.

(** ** Messages *)

Definition is_char_boundary (s : list Z) (e : nat) : bool :=
  (e =? 0)%nat || (e =? length s)%nat || match s !! e with Some b => negb (cont b) | None => false end.

(** The last boundary at or before [e]. *)
Fixpoint floor_boundary (s : list Z) (e : nat) : nat :=
  match e with
  | O => O
  | S e' => if is_char_boundary s e then e else floor_boundary s e'
  end.

Definition MAX_DIAG_BYTES : Z := 7 * 1024.
Definition NL : list Z := [10].

Definition verdict (first_error : option (list Z)) (notes : list (list Z)) (invariants : list Z) : list Z :=
  let first_error_line :=
    match first_error with
    | Some buf =>
        if from_utf8 buf && negb (bool_decide (trim_end buf = [])) then trim_end buf
        else bytes_of "verifier failed but no primary error was reported; see diagnostics below"
    | None => bytes_of "verifier failed but no primary error was reported; see diagnostics below"
    end in
  let inv := if from_utf8 invariants && negb (bool_decide (trim_end invariants = [])) then NL ++ trim_end invariants else [] in
  let diag := NL ++ first_error_line ++ concat ((fun n => NL ++ n) <$> notes) ++ inv in
  if MAX_DIAG_BYTES <? len diag
  then take (floor_boundary diag (Z.to_nat MAX_DIAG_BYTES)) diag ++ NL ++ bytes_of "... [diagnostics truncated]"
  else diag.

(** ** The library *)

Definition of_sum {A} (f : list Z -> ProgramError) (x : list Z + A) : Prog A :=
  match x with inl e => Err (f e) | inr a => Ok a end.

Definition limit_of (p : VerificationProfile) : Z :=
  match p with ResidentProfile => MAX_RESIDENT_SIZE | EphemeralProfile => MAX_EPHEMERAL_SIZE end.

Definition bytecode_of (prog : list RawInst) : list Z :=
  concat ((fun i => [ri_opcode i; ri_dst_src i] ++ to_le_bytes 2 (ri_offset i) ++ to_le_bytes 4 (ri_imm i)) <$> prog).

Definition map_of (d : EbpfMapDescriptor) : MapDef := mkMapDef (md_type d) (md_key_size d) (md_value_size d) (md_max_entries d).

Section Library.
Context {Value : Type} `{C : Cbor Value} `{SH : Sha256Provider} `{PV : Prevail}.
Context (oc : bool).
(** Writing the file Prevail reads; the text of an error. *)
Context (temp_file : list Z -> option string).

Definition ingest_unverified (image : list Z) (profile : VerificationProfile) : Prog ProgramRecord :=
  if bool_decide (image = []) then Err InvalidImage else
  let size := as_u32 (len image) in
  if size >? limit_of profile then Err (ImageTooLarge size (limit_of profile)) else
  Ok (mkProgram (hash image) image size profile None None None).

(** The image of a program of the section [name]. *)
Definition build_image (elf name : list Z) (mismatch : string) (raw : RawProgram) : Prog ProgramImage :=
  let ds := map_descriptors raw in
  let? sections := extract_global_section_data oc elf in
  let globals := assign_globals ds sections in
  if negb (length (filter (fun d => md_type d = 0%Z) ds) =? length sections)%nat then parse_err mismatch else
  let? bytecode := rewrite_global_data_relocations oc elf name (bytecode_of (rp_prog raw)) ds in
  Ok (mkImage bytecode (map_of <$> ds) (fst <$> globals) (snd <$> globals)).

Definition verify (raw : RawProgram) (check_for_termination : bool) : Prog unit :=
  let '(seq, notes) := unmarshal raw SondePlatform check_for_termination in
  let? inst_seq := of_sum (fun e => VerificationFailed (bytes_of "unmarshal: " ++ e)) seq in
  let? program := of_sum (fun e => VerificationFailed (bytes_of "invalid control flow: " ++ e))
    (from_sequence inst_seq raw SondePlatform check_for_termination) in
  let result := analyze program raw SondePlatform check_for_termination in
  if analysis_failed result then
    Err (VerificationFailed (bytes_of "program `" ++ function_name raw ++
      bytes_of "` failed verification; check that the BPF program compiles correctly for the sonde target" ++
      verdict (find_first_error result) notes (print_invariants result)))
  else Ok tt.

Definition verify_decoder (raw : RawProgram) (check_for_termination : bool) : Prog unit :=
  let? inst_seq := of_sum (fun e => VerificationFailed (bytes_of "decoder unmarshal: " ++ e))
    (unmarshal raw DecoderPlatform check_for_termination).1 in
  let? program := of_sum (fun e => VerificationFailed (bytes_of "decoder control flow: " ++ e))
    (from_sequence inst_seq raw DecoderPlatform check_for_termination) in
  let result := analyze program raw DecoderPlatform check_for_termination in
  if analysis_failed result then
    Err (VerificationFailed (bytes_of "decoder program failed verification: " ++
      match find_first_error result with
      | Some buf => if from_utf8 buf then trim_end buf else []
      | None => []
      end))
  else Ok tt.

Definition extract_decoder (elf : list Z) (check_for_termination : bool) : Prog (option (list Z)) :=
  let? found := elf_has_section oc elf (bytes_of "decoder") in
  if negb found then Ok None else
  let? obj := of_sum ElfParseError (elf_object check_for_termination elf) in
  let? programs := of_sum (fun e => ElfParseError (bytes_of "decoder section extraction failed: " ++ e))
    (get_programs obj (bytes_of "decoder") DecoderPlatform) in
  match programs with
  | [] => Ok None
  | _ :: _ :: _ => parse_err "ELF contains several decoder programs; expected at most one"
  | [raw] =>
      if bool_decide (rp_prog raw = []) then Ok None else
      let? _ := verify_decoder raw check_for_termination in
      let? image := build_image elf (bytes_of "decoder") "decoder global section count mismatch" raw in
      let? cbor := map_err (fun _ => Internal "decoder CBOR encoding failed") (encode_deterministic image) in
      let size := as_u32 (len cbor) in
      if size >? MAX_EPHEMERAL_SIZE then Err (ImageTooLarge size MAX_EPHEMERAL_SIZE) else Ok (Some cbor)
  end.

Definition ingest_elf (elf : list Z) (profile : VerificationProfile) : Prog ProgramRecord :=
  if bool_decide (elf = []) then Err InvalidImage else
  let? maps := match profile with EphemeralProfile => elf_has_map_sections elf | ResidentProfile => Ok false end in
  if maps : bool then Err (VerificationFailed (bytes_of "ephemeral programs must not declare maps")) else
  match temp_file elf with
  | Some e => Err (Internal e)
  | None =>
      let check_for_termination := match profile with EphemeralProfile => true | ResidentProfile => false end in
      let? obj := of_sum ElfParseError (elf_object check_for_termination elf) in
      let? programs := of_sum ElfParseError (get_programs obj (bytes_of "sonde") SondePlatform) in
      match programs with
      | [] => parse_err "no programs found in ELF"
      | _ :: _ :: _ => parse_err "ELF contains several programs; expected exactly one"
      | [raw] =>
          let? _ := verify raw check_for_termination in
          let? image := build_image elf (bytes_of "sonde") "global section count mismatch" raw in
          let? cbor := map_err (fun _ => Internal "CBOR encoding failed") (encode_deterministic image) in
          let? record := ingest_unverified cbor profile in
          let? decoder := extract_decoder elf check_for_termination in
          Ok (mkProgram (p_hash record) (p_image record) (p_size record) (p_profile record) (abi_version record)
                (source_filename record) decoder)
      end
  end.

(** [get_by_hash]. *)
Definition get_by_hash (records : list ProgramRecord) (h : list Z) : option ProgramRecord :=
  snd <$> list_find (fun r => p_hash r = h) records.
End Library.

(** ** What is in the library *)

Section Sound.
Context {Value : Type} `{C : Cbor Value} `{L : !CborLaws C} `{SH : Sha256Provider} `{PV : Prevail} `{HT : !PrevailTyped PV}.
Context (oc : bool) (temp_file : list Z -> option string).

(** Prevail accepts the program. *)
Definition verified (raw : RawProgram) (pl : BpfPlatform) (check_for_termination : bool) : Prop :=
  exists seq program, (unmarshal raw pl check_for_termination).1 = inr seq /\
    from_sequence seq raw pl check_for_termination = inr program /\
    analysis_failed (analyze program raw pl check_for_termination) = false.

(** [cbor] is the image of the program of section [name]: its instructions with every
    relocation of that section applied, its maps, and for each map made of a global
    section, in order, the data of that section. *)
Definition image_of (elf cbor name : list Z) (raw : RawProgram) : Prop :=
  let ds := map_descriptors raw in
  exists p, image_decode cbor = Ok p /\
    ElfFile.links elf (ElfFile.global_maps ds) (ElfFile.relocations elf name) (bytecode_of (rp_prog raw)) (bytecode p) /\
    maps p = map_of <$> ds /\ length (map_initial_data p) = length ds /\ length (map_readonly p) = length ds /\
    length (ElfFile.global_ids elf) = length (ElfFile.global_maps ds) /\
    (forall j x m, ElfFile.global_ids elf !! j = Some x -> ElfFile.global_maps ds !! j = Some m ->
       map_initial_data p !! Z.to_nat m = Some (ElfFile.global_data elf x).1 /\
       map_readonly p !! Z.to_nat m = Some (ElfFile.global_data elf x).2) /\
    (forall k d, ds !! k = Some d -> md_type d <> 0 -> map_initial_data p !! k = Some [] /\ map_readonly p !! k = Some false).

Lemma of_sum_Ok {A} f (x : list Z + A) a : of_sum f x = Ok a -> x = inr a.
Proof using . destruct x; simpl; congruence. Qed.

Lemma verify_verified raw b : verify raw b = Ok tt -> verified raw SondePlatform b.
Proof using .
  unfold verify, verified. destruct (unmarshal raw SondePlatform b) as [s notes]. simpl.
  intros (seq & Hs%of_sum_Ok & H1)%res_bind_Ok. apply res_bind_Ok in H1 as (pr & Hp%of_sum_Ok & H1).
  destruct (analysis_failed _) eqn:Hf; [done|]. by exists seq, pr.
Qed.

Lemma verify_decoder_verified raw b : verify_decoder raw b = Ok tt -> verified raw DecoderPlatform b.
Proof using .
  unfold verify_decoder, verified. intros (seq & Hs%of_sum_Ok & H1)%res_bind_Ok. apply res_bind_Ok in H1 as (pr & Hp%of_sum_Ok & H1).
  destruct (analysis_failed _) eqn:Hf; [done|]. by exists seq, pr.
Qed.

Lemma global_count ds i : length (global_indices_from i ds) = length (filter (fun d => md_type d = 0%Z) ds).
Proof using .
  revert i. induction ds as [|d ds IH]; intros i; [done|]. cbn [global_indices_from]. rewrite filter_cons.
  destruct (Z.eqb_spec (md_type d) 0); [rewrite decide_True by done|rewrite decide_False by done]; simpl; by rewrite IH.
Qed.

Lemma build_image_of elf name msg raw p cbor :
  bytes_ok elf -> len elf < 2 ^ 63 -> Forall descriptor_ok (map_descriptors raw) -> len (map_descriptors raw) < 2 ^ 32 ->
  build_image oc elf name msg raw = Ok p -> encode_deterministic p = Ok cbor -> image_of elf cbor name raw.
Proof using L.
  intros Hb Hl Hd Hn. unfold build_image. intros (secs & Hs & H1)%res_bind_Ok.
  destruct (Nat.eqb_spec (length (filter (fun d => md_type d = 0%Z) (map_descriptors raw))) (length secs)) as [Hc|]; [|done]. cbn [negb] in H1.
  apply res_bind_Ok in H1 as (bc & Hr & H1). injection H1 as <-. intros He.
  destruct (rewriting_links oc elf Hb Hl _ _ _ _ _ Hr Hs) as (Hsecs & Hcount & Hlinks); [unfold global_map_indices; by rewrite global_count|done|].
  eexists. split; [eapply image_roundtrip; [|exact He]|].
  - simpl. apply Forall_fmap. eapply list.Forall_impl; [exact Hd|]. by intros d (? & ? & ? & ?).
  - simpl. rewrite !length_fmap, length_assign. split_and!; try done.
    + intros j x m Hj Hm. unfold ElfFile.global_maps in Hm. rewrite <- indices_from_maps in Hm by lia.
      destruct (assign_global _ secs 0 j m (ElfFile.global_data elf x) Hm) as (_ & _ & Ha); [by rewrite Hsecs, list_lookup_fmap, Hj|lia|lia|].
      rewrite Z.sub_0_r in Ha. by rewrite !list_lookup_fmap, Ha.
    + intros k d Hk Hd0. by rewrite !list_lookup_fmap, (assign_other _ _ _ _ Hk Hd0).
Qed.

End Sound.
