(* ===== verification/GwIngestDemo.v ===== *)
(** * Ingesting a program

    A small ELF file with a global variable, a loader and verifier that accept it, and
    the theorems about ingestion applied to them; and two files whose relocation has an
    offset that is not checked. *)

From Stdlib Require Import String.
From S2P Require Import Prelude Frame Messages ProgramImage CborModel CborCompact NodeDemo.
From S2P Require Import Ebpf BpfTypes BpfSpill BpfMem BpfAlu BpfExec GwStore GwElf GwPlatform GwElfProofs GwIngest.
Open Scope list_scope.
Open Scope Z_scope.

#[local] Existing Instance compact_cbor | 0.
#[local] Existing Instance sum_sha | 0.

(** ** A file *)

Definition names : list Z :=
  [0] ++ bytes_of ".shstrtab" ++ [0] ++ bytes_of "sonde" ++ [0] ++ bytes_of ".data" ++ [0] ++ bytes_of ".relsonde" ++ [0] ++ bytes_of ".symtab" ++ [0].

Record Section := mkSection { s_name : Z; s_type : Z; s_content : list Z; s_link : Z; s_info : Z; s_entsize : Z }.

(** The header of a section whose contents begin at [off]. *)
Definition header (s : Section) (off : Z) : list Z :=
  to_le_bytes 4 (s_name s) ++ to_le_bytes 4 (s_type s) ++ to_le_bytes 8 0 ++ to_le_bytes 8 0 ++ to_le_bytes 8 off ++
  to_le_bytes 8 (len (s_content s)) ++ to_le_bytes 4 (s_link s) ++ to_le_bytes 4 (s_info s) ++ to_le_bytes 8 1 ++ to_le_bytes 8 (s_entsize s).

Fixpoint headers (ss : list Section) (off : Z) : list Z :=
  match ss with [] => [] | s :: ss' => header s off ++ headers ss' (off + len (s_content s)) end.

(** An ELF file of these sections; the first holds the names. *)
Definition elf_file (ss : list Section) : list Z :=
  let body := concat (s_content <$> ss) in
  [0x7f; 69; 76; 70; 2; 1; 1; 0] ++ replicate 8 0 ++ to_le_bytes 2 1 ++ to_le_bytes 2 0xF7 ++ to_le_bytes 4 1 ++
  to_le_bytes 8 0 ++ to_le_bytes 8 0 ++ to_le_bytes 8 (64 + len body) ++ to_le_bytes 4 0 ++ to_le_bytes 2 64 ++
  to_le_bytes 2 0 ++ to_le_bytes 2 0 ++ to_le_bytes 2 64 ++ to_le_bytes 2 (len ss) ++ to_le_bytes 2 0 ++
  body ++ headers ss 64.

(** [mov r0, 24]; a wide load into r1; [exit]. *)
Definition demo_insns : list RawInst :=
  [mkRawInst 183 0 0 24; mkRawInst 24 1 0 0; mkRawInst 0 0 0 2; mkRawInst 149 0 0 0].
Definition demo_raw : RawProgram := mkRawProgram (bytes_of "main") demo_insns [mkDescriptor 1 0 4 4 1 (-1)].

(** The relocation at [r_offset] refers to the section of the variable. *)
Definition demo_elf (r_offset : Z) : list Z := elf_file
  [mkSection 1 3 names 0 0 0;
   mkSection 11 SHT_PROGBITS (bytecode_of demo_insns) 0 0 0;
   mkSection 17 SHT_PROGBITS [7; 8; 9; 10] 0 0 0;
   mkSection 23 SHT_REL (to_le_bytes 8 r_offset ++ to_le_bytes 8 (Z.shiftl 1 32 + 1)) 4 1 16;
   mkSection 33 SHT_SYMTAB (replicate 24 0 ++ to_le_bytes 4 0 ++ [STT_SECTION; 0] ++ to_le_bytes 2 2 ++ to_le_bytes 8 0 ++ to_le_bytes 8 4) 0 0 24].

(** A loader that finds the program, and a verifier that accepts it. *)
#[local] Instance demo_prevail : Prevail := {|
  ElfObject := unit;
  InstructionSeq := unit;
  PrevailProgram := unit;
  AnalysisResult := unit;
  elf_object := fun _ _ => inr tt;
  get_programs := fun _ name _ => if bool_decide (name = bytes_of "sonde") then inr [demo_raw] else inl [];
  unmarshal := fun _ _ _ => (inr tt, []);
  from_sequence := fun _ _ _ _ => inr tt;
  analyze := fun _ _ _ _ => tt;
  analysis_failed := fun _ => false;
  find_first_error := fun _ => None;
  print_invariants := fun _ => []
|}.

#[local] Instance demo_prevail_typed : PrevailTyped demo_prevail.
Proof.
  split. intros obj name pl raws raw. simpl. case_bool_decide; [|done]. intros [= <-] ->%list_elem_of_singleton. split_and!; [| |done].
  - repeat (apply Forall_cons_2; [unfold raw_inst_ok; simpl; unfold uN, iN; lia|]). by apply Forall_nil_2.
  - apply Forall_singleton. unfold descriptor_ok. simpl. unfold uN. lia.
Qed.

Abbreviation ingest oc elf := (ingest_elf oc (fun _ => None) elf ResidentProfile).

Definition stored (r : Prog ProgramRecord) : option ProgramImage :=
  match r with
  | Ok rec => match image_decode (p_image rec) with Ok p => Some p | _ => None end
  | _ => None
  end.

(** Instruction [n] of the stored program, and its map data. *)
Lemma demo_ingested :
  match stored (ingest true (demo_elf 8)) with
  | Some p => bool_decide (map_initial_data p = [[7; 8; 9; 10]]) &&
      bool_decide (take 16 (drop 8 (bytecode p)) = [24; 0x61; 0; 0; 0; 0; 0; 0; 0; 0; 0; 0; 2; 0; 0; 0])
  | None => false
  end = true.
Proof. by vm_compute. Qed.

(** What the file says: one global section, and a relocation at byte 8. *)
Lemma demo_relocations :
  ElfFile.global_ids (demo_elf 8) = [2] /\ ElfFile.global_data (demo_elf 8) 2 = ([7; 8; 9; 10], false) /\
  ElfFile.global_maps (map_descriptors demo_raw) = [0] /\
  (fun r => (ElfFile.r_offset r, ElfFile.r_addend r, ElfFile.st_shndx (demo_elf 8) (ElfFile.r_symbol r))) <$>
    ElfFile.relocations (demo_elf 8) (bytes_of "sonde") = [(8, None, 2)].
Proof. split_and!; by vm_compute. Qed.

Lemma demo_elf_bytes : bool_decide (Forall (fun b => 0 <= b < 256) (demo_elf 8)) && (len (demo_elf 8) <? 2 ^ 63) = true.
Proof. by vm_compute. Qed.


(** A file that is cut off. *)
Lemma elf_scans_total_witness :
  exists maps found globals, elf_has_map_sections (take 300 (demo_elf 8)) = Ok maps /\
    elf_has_section true (take 300 (demo_elf 8)) (bytes_of "decoder") = Ok found /\
    extract_global_section_data true (take 300 (demo_elf 8)) = Ok globals.
Proof.
  pose proof demo_elf_bytes as [Hb%bool_decide_eq_true Hl%Z.ltb_lt]%andb_prop.
  apply (elf_scans_total true (take 300 (demo_elf 8))); [by apply Forall_take|]. unfold len in *. rewrite length_take. lia.
Defined.

(** The node runs the load. *)
Definition demo_bc : list Z := bytecode_of demo_insns.
Definition demo_map : MapRegion := mkMap 4096 4 4 4096 4104.
Definition demo_env : Env := mkEnv (host_build true) (rewrite_lddw demo_bc (8 * Z.of_nat 1) 0 2) 8192 0 [] [demo_map] false 1000 [] 16384.
Definition demo_vm : VM := set_pc (init_vm demo_env ∅) 1.

Lemma global_reference_loads_witness :
  exists v', step demo_env demo_vm = Ok (Continue v') /\
    rget (reg v') 1 = mkReg 4102 (Some (mkRegion (MapValue 4) 4100 4104)).
Proof.
  eexists. split.
  - apply (global_reference_loads demo_env demo_vm demo_bc 1 (mkInsn 24 1 0 0 0) (mkInsn 0 0 0 0 2) 0 2 demo_map);
      try reflexivity; try (split; [discriminate|reflexivity]); try discriminate.
    apply (bool_decide_eq_true (Forall (fun b => 0 <= b < 256) demo_bc)). by vm_compute.
  - reflexivity.
Defined.

(** ** Offsets that are not checked *)

Definition ok_of {A} (d : A) (r : Prog A) : A := match r with Ok a => a | _ => d end.
Definition demo_table (elf : list Z) : SectionTable := ok_of (mkTable 0 0 0 []) (section_table_strict false elf).
Definition demo_sections (elf : list Z) : Sections :=
  ok_of (mkSections 0 None ∅) (collect_sections false elf (demo_table elf) (bytes_of "sonde") [0] 5 0 (mkSections 0 None ∅)).
Definition demo_rel (elf : list Z) : RelTable :=
  ok_of (mkRel [] 0 0 0 0 0) (rel_table false elf (demo_table elf) (sh_off (demo_table elf) + 192) SHT_REL).

(** Where the symbol of the variable's section is in the file. *)
Definition demo_symbol (elf : list Z) : Z := sym_off (demo_rel elf) + 24.

Definition far_elf : list Z := demo_elf (2 ^ 64 - 8).
Definition far_table : SectionTable := demo_table far_elf.
Definition far_sections : Sections := demo_sections far_elf.
Definition far_rel : RelTable := demo_rel far_elf.

Lemma demo_refers :
  refers far_elf far_rel (section_map far_sections) 0 (2 ^ 64 - 8) (demo_symbol far_elf) 0 0 /\
  refers (demo_elf 4) (demo_rel (demo_elf 4)) (section_map (demo_sections (demo_elf 4))) 0 4 (demo_symbol (demo_elf 4)) 0 0.
Proof.
  split; (split; [by vm_compute|]); (split; [by vm_compute|]); exists (Z.shiftl 1 32 + 1), 2;
    (split_and!; [by vm_compute|by vm_compute|apply Z.leb_le; by vm_compute..|apply Z.leb_le; by vm_compute|apply Z.ltb_lt; by vm_compute|by vm_compute|by vm_compute]).
Qed.


(** *** The whole of ingestion *)

(** The run up to the relocation. *)
Lemma far_prefix oc :
  extract_global_section_data oc far_elf = Ok [([7; 8; 9; 10], false)] /\
  section_table_strict oc far_elf = Ok far_table /\ sh_num far_table = 5 /\
  collect_sections oc far_elf far_table (bytes_of "sonde") [0] 5 0 (mkSections 0 None ∅) = Ok far_sections /\
  next_global_map far_sections = 1%nat /\ target_section far_sections = Some 1 /\
  (forall i, 0 <= i <= 3 -> header_at oc far_elf far_table i "section header out of bounds" = Ok (sh_off far_table + 64 * i)) /\
  rel_table oc far_elf far_table (sh_off far_table + 192) SHT_REL = Ok far_rel.
Proof.
  destruct oc; (split_and!; [by vm_compute..| |by vm_compute]); intros i Hi;
    assert (Hc : i = 0 \/ i = 1 \/ i = 2 \/ i = 3) by lia; destruct Hc as [->|[->|[->| ->]]]; by vm_compute.
Qed.

Lemma far_panics oc : build_image oc far_elf (bytes_of "sonde") "global section count mismatch" demo_raw = Panic.
Proof.
  destruct (far_prefix oc) as (Hx & Ht & Hn & Hs & Hg & Htg & Hh & Hr). unfold build_image. rewrite Hx. cbn [res_bind].
  change (negb (length (filter (fun d => md_type d = 0%Z) (map_descriptors demo_raw)) =? length [([7; 8; 9; 10], false)])%nat) with false. cbv iota.
  unfold rewrite_global_data_relocations. rewrite Ht. cbn [res_bind]. rewrite Hn. change (global_map_indices (map_descriptors demo_raw)) with [0].
  change (Z.to_nat 5) with 5%nat. rewrite Hs. cbn [res_bind]. rewrite Hg, Htg. cbn [length Nat.eqb negb].
  assert (Hskip : forall k i bc, 0 <= i <= 2 ->
    rewrite_tables oc far_elf far_table 1 (section_map far_sections) (S k) i bc = rewrite_tables oc far_elf far_table 1 (section_map far_sections) k (i + 1) bc).
  { intros k i bc Hi. cbn [rewrite_tables]. rewrite Hh by lia. cbn [res_bind]. assert (Hc : i = 0 \/ i = 1 \/ i = 2) by lia.
    destruct Hc as [->|[->| ->]];
      match goal with |- context [read_le far_elf 4 ?o] => let x := eval vm_compute in (read_le far_elf 4 o) in replace (read_le far_elf 4 o) with x by (by vm_compute) end; reflexivity. }
  rewrite (Hskip 4%nat 0), (Hskip 3%nat 1), (Hskip 2%nat 2) by lia. cbn [rewrite_tables]. rewrite (Hh (2 + 1)) by lia. cbn [res_bind].
  change (64 * (2 + 1)) with 192. replace (read_le far_elf 4 (sh_off far_table + 192 + 4)) with (Ok (E := ProgramError) SHT_REL) by (by vm_compute). cbn [res_bind].
  change (negb (SHT_REL =? SHT_REL) && negb (SHT_REL =? SHT_RELA)) with false. cbv iota.
  replace (read_le far_elf 4 (sh_off far_table + 192 + 44)) with (Ok (E := ProgramError) 1) by (by vm_compute). cbn [res_bind Z.eqb Pos.eqb negb].
  rewrite Hr. cbn [res_bind]. replace (steps (len (rel_data far_rel)) (rel_stride far_rel)) with [0] by (by vm_compute). cbn [rewrite_entries].
  replace (0 + entry_size (rel_type far_rel) >? len (rel_data far_rel)) with false by (by vm_compute).
  rewrite (entry_panics oc far_elf far_rel (section_map far_sections) (bytecode_of (rp_prog demo_raw)) 0 (2 ^ 64 - 8) _ _ _ (proj1 demo_refers)); [reflexivity|lia|].
  split; [by apply Z.leb_le|by apply Z.ltb_lt].
Qed.

(** With an offset inside an instruction, the file is accepted. *)
Definition mid_image : ProgramImage :=
  ok_of (mkImage [] [] [] []) (build_image false (demo_elf 4) (bytes_of "sonde") "global section count mismatch" demo_raw).
Definition mid_cbor : list Z := match encode_deterministic mid_image with Ok c => c | _ => [] end.

Lemma mid_built : build_image false (demo_elf 4) (bytes_of "sonde") "global section count mismatch" demo_raw = Ok mid_image.
Proof. by vm_compute. Qed.
Lemma mid_encoded : encode_deterministic mid_image = Ok mid_cbor.
Proof. by vm_compute. Qed.
Lemma mid_decoded : image_decode mid_cbor = Ok mid_image.
Proof. by vm_compute. Qed.
Lemma mid_no_decoder : elf_has_section false (demo_elf 4) (bytes_of "decoder") = Ok false.
Proof. by vm_compute. Qed.
Lemma mid_fits : bool_decide (mid_cbor = []) || (as_u32 (len mid_cbor) >? limit_of ResidentProfile) = false.
Proof. by vm_compute. Qed.

(** Ingestion, up to the image. *)
Lemma build_panics oc elf : elf <> [] -> build_image oc elf (bytes_of "sonde") "global section count mismatch" demo_raw = Panic -> ingest oc elf = Panic.
Proof. intros He Hb. unfold ingest_elf. rewrite bool_decide_false by done. simpl. by rewrite Hb. Qed.

(** Ingestion of the first file panics; the second is accepted, and the image that is
    stored has another instruction than the verified program. *)
Lemma relocation_offset_ingested :
  (forall oc, ingest oc (demo_elf (2 ^ 64 - 8)) = Panic) /\
  exists p, stored (ingest false (demo_elf 4)) = Some p /\
    get_insn (E := BpfError) (bytecode_of demo_insns) 1 = Ok (mkInsn 24 1 0 0 0) /\
    get_insn (E := BpfError) (bytecode p) 1 = Ok (mkInsn 0 0 0 0 0).
Proof.
  split.
  - intros oc. apply build_panics; [done|apply far_panics].
  - exists mid_image. split_and!; [by vm_compute..].
Qed.
