(* ===== verification/BpfDownlink.v ===== *)
(** * Data for the program

    What a COMMAND carries for a program is announced in the context it runs with, as
    addresses ([data_start], [data_end] of [sonde_context]); the platform programs are
    verified for describes them as the bounds of a packet.  The adapter of the node,
    however, passes no context pointer fields to the interpreter, so that the addresses
    are plain numbers to it. *)

From Stdlib Require Import String.
From S2P Require Import Prelude ProgramImage MapStorage AsyncQueue NodeM NodeState NodeRadio NodeStore BpfDispatch WakeCycle NodeLogic.
From S2P Require Import Ebpf BpfTypes BpfSpill BpfMem BpfAlu BpfExec BpfInv BpfSafety BpfAdapter BpfNode NodeDemo GwPlatform.
Open Scope list_scope.
Open Scope Z_scope.

(** The context is laid out as the platform says. *)
Lemma context_described c :
  len (context_bytes c) = cd_size SONDE_CONTEXT /\
  take 8 (drop (Z.to_nat (cd_data SONDE_CONTEXT)) (context_bytes c)) = to_le_bytes 8 (BpfDispatch.data_start c) /\
  take 8 (drop (Z.to_nat (cd_end SONDE_CONTEXT)) (context_bytes c)) = to_le_bytes 8 (BpfDispatch.data_end c).
Proof. by split_and!. Qed.

(** Each helper the platform offers is registered, and a lookup alone returns a pointer. *)
Lemma helpers_described :
  forallb (fun n => Bool.eqb (is_helper_usable SondePlatform n) (bool_decide (n ∈ registrations.*1)) &&
    Bool.eqb (bool_decide (return_type (get_helper_prototype SondePlatform n) = PtrToMapValueOrNull)) (n =? MAP_LOOKUP_ELEM)) (seqZ (-1) 25) = true.
Proof. by vm_compute. Qed.

Section Downlink.
Context (b : Build) (map_base cbase sbase : Z) (rest : memory).
Context (Hplat : platform_ok b map_base cbase sbase rest).
(** Where the data is: beside the map buffer, the context and the stack. *)
Context (lo hi : Z).
Context (Hmap : hi <= map_base \/ map_base + MAP_BUDGET <= lo).
Context (Hctx : hi <= cbase \/ cbase + CONTEXT_SIZE <= lo).
Context (Hstack : hi <= sbase \/ sbase + STACK_SIZE b <= lo).

(** C31: no program can load the data a COMMAND carried for it.  In every state a program
    reaches on the node, with any helpers, a load through any register whose bytes
    include one of that data ends in an error, although the context gives the address
    and the verifier takes it for a pointer. *)
Theorem downlink_unreadable hs prog budget defs fit ctx buffer v i n off p :
  Forall def_u32 defs -> defs_fit fit defs ->
  bytes_ok prog -> len prog < 2 ^ (usize_bits b - 1) -> uN 64 budget -> len ctx = CONTEXT_SIZE -> bytes_ok ctx -> buffer_ok buffer ->
  let e := run_env b cbase sbase prog (regions_at map_base 0 defs) hs budget in
  Forall (helper_ok e) hs -> reachable e (run_mem map_base cbase rest ctx buffer) v -> 0 <= i <= 10 ->
  let addr := eff_addr (rget (reg v) i) off in
  lo < addr + Z.of_nat n -> addr < hi -> exists err, mem_load b n (mem v) (rget (reg v) i) off p = Err err.
Proof using Hplat Hmap Hctx Hstack.
  intros Hu Hf Hp Hlp Hbud Hc Hcok Hb e Hhs Hr Hi addr Hlo Hhi.
  destruct (run_env_ok b map_base cbase sbase rest Hplat prog budget defs ctx buffer fit Hu Hf Hp Hlp Hbud Hc Hcok Hb) as [Henv _].
  pose proof (env_ok_helpers _ _ Henv hs Hhs) as Henv'. change (set_helpers _ hs) with e in Henv'.
  pose proof (inv_reg _ _ _ i (reachable_inv e _ v Henv' Hr) Hi) as [_ Hg]. unfold mem_load, check_access.
  destruct (region (rget (reg v) i)) as [g|]; [|by eexists]. cbn [ok_or res_bind]. specialize (Hg g eq_refl).
  destruct (is_map_descriptor g) eqn:Hd; [by eexists|]. fold addr. destruct (checked_add 64 addr (Z.of_nat n)) as [end_|] eqn:He; [|by eexists].
  apply checked_add_Some in He as [-> _]. cbn [ok_or res_bind].
  destruct (Z.ltb_spec addr (base g)); [by eexists|]. destruct (Z.gtb_spec (addr + Z.of_nat n) (rend g)); [by eexists|]. exfalso.
  destruct Hg as [| |idx _|mp l Hmp Hl Hr'|cpf Hcp]; cbn in *; [lia|lia|done| |by apply elem_of_nil in Hcp].
  destruct Hf as (_ & Hv & _ & Hbu).
  destruct (regions_at_in map_base 0 defs mp Hv Hu ltac:(lia) ltac:(lia) Hmp) as (J1 & J2 & _). lia.
Qed.
End Downlink.

(** ** A program that reads its data *)

(** [r2 = ctx->data_start; r0 = *r2; exit]. *)
Definition reader_code : list Z :=
  [0x79; 0x12; 16; 0; 0; 0; 0; 0; 0x71; 0x20; 0; 0; 0; 0; 0; 0; 0x95; 0; 0; 0; 0; 0; 0; 0].
Definition reader_ctx : list Z := context_bytes (mkSondeContext 0 3300 1 0 32768 32770).
Definition reader_rest : memory := <[32768 := 1]> (<[32769 := 2]> ∅).
Abbreviation reader_env := (run_env firmware_build 16384 20480 reader_code (regions_at demo_base 0 []) [] 100).
Abbreviation reader_mem := (run_mem demo_base 16384 reader_rest reader_ctx (replicate 4096 0)).
Definition reader_vm : VM := match step reader_env (init_vm reader_env reader_mem) with Ok (Continue v) => v | _ => init_vm reader_env reader_mem end.

Lemma reader_reached : reachable reader_env reader_mem reader_vm.
Proof.
  assert (Hc : match step reader_env (init_vm reader_env reader_mem) with Ok (Continue _) => true | _ => false end = true) by by vm_compute.
  eapply steps_step; [apply steps_refl|]. unfold reader_vm.
  destruct (step reader_env (init_vm reader_env reader_mem)) as [[v|]| | |]; done.
Qed.
Lemma reader_points : rget (reg reader_vm) 2 = scalar 32768.
Proof. by vm_compute. Qed.

(** The run ends at the load. *)
Lemma reader_fails : execute_program reader_env 101 reader_mem = Some (Err (NonDereferenceableAccess 1)).
Proof. by vm_compute. Qed.

Lemma reader_platform : platform_ok firmware_build demo_base 16384 20480 reader_rest.
Proof.
  constructor; unfold demo_base; change (STACK_SIZE firmware_build) with 4096; change (usize_bits firmware_build) with 32;
    unfold MAP_BUDGET, CONTEXT_SIZE; try lia; [by left| |].
  - intros a x. unfold reader_rest. rewrite !lookup_insert_Some, lookup_empty. unfold byte_ok. intros [[_ <-]|[_ [[_ <-]|[_ [=]]]]]; lia.
  - intros a Ha. unfold reader_rest. rewrite !lookup_insert_ne by lia. apply lookup_empty.
Qed.

Lemma downlink_unreadable_witness : exists err, mem_load firmware_build 1 (mem reader_vm) (rget (reg reader_vm) 2) 0 1 = Err err.
Proof.
  apply (downlink_unreadable firmware_build demo_base 16384 20480 reader_rest reader_platform 32768 32770 ltac:(right; discriminate)
    ltac:(right; discriminate) ltac:(right; discriminate) [] reader_code 100 [] MAP_BUDGET reader_ctx (replicate 4096 0)).
  - constructor.
  - split_and!; [discriminate|constructor|discriminate|discriminate].
  - apply (bool_decide_eq_true (Forall (fun x => 0 <= x < 256) reader_code)). by vm_compute.
  - reflexivity.
  - by split.
  - reflexivity.
  - apply (bool_decide_eq_true (Forall (fun x => 0 <= x < 256) reader_ctx)). by vm_compute.
  - split; [reflexivity|by apply Forall_replicate].
  - constructor.
  - exact reader_reached.
  - lia.
  - rewrite reader_points. reflexivity.
  - rewrite reader_points. reflexivity.
Defined.
