(* ===== verification/GwDecoder.v ===== *)
(** * Decoders

    [sonde-gateway/src/decoder.rs]: the gateway runs the decoder program of a node's
    program on what the node sends, and collects the readings it reports.  The program
    runs in the interpreter of [sonde-bpf]; its helpers keep their state in a
    thread-local cell and follow raw pointers. *)

From Stdlib Require Import String.
From S2P Require Import Prelude GwPlatform Messages ProgramImage.
From S2P Require Import Ebpf BpfTypes BpfSpill BpfMem BpfAlu BpfExec BpfAdapter.
Open Scope list_scope.
Open Scope Z_scope.

Definition MAX_READINGS : Z := 32.
Definition MAX_NAME_LEN : Z := 64.
Definition DECODER_INSTRUCTION_BUDGET : Z := 100000.
Definition MAX_DECODER_MAP_MEMORY : Z := 64 * 1024.
Definition MAX_DECODER_MAPS : Z := 16.

Inductive DecoderError : Type :=
  | ImageDecodeError (msg : string)
  | ExecutionError (e : BpfError).

Record MapInfo := mkInfo {
  mi_relocated_ptr : Z;
  mi_data_start : Z;
  mi_value_size : Z;
  mi_max_entries : Z;
  read_only : bool
}.

Record DecoderState := mkDecoder { readings : gmap (list Z) Z; d_count : Z; map_infos : list MapInfo }.

(** ** Helpers

    A helper gets the cell, memory and the registers; following a pointer to memory
    that is not live is undefined behaviour. *)

Abbreviation Cell := (option DecoderState).
Abbreviation HelperRun := (Exec (Z * Cell * memory)).

Definition follow (m : memory) (p n : Z) : Exec (list Z) :=
  match load_bytes m p (Z.to_nat n) with Some l => Ok l | None => UB end.

(** A negative [i64] as [u64]. *)
Definition MINUS_1 : Z := as_u64 (-1).
Definition MINUS_2 : Z := as_u64 (-2).

Definition find_map (s : DecoderState) (ptr : Z) : option MapInfo :=
  snd <$> list_find (fun i => mi_relocated_ptr i = ptr) (map_infos s).

Definition helper_emit_reading (c : Cell) (m : memory) (r1 r2 r3 r4 r5 : Z) : HelperRun :=
  if r2 >? MAX_NAME_LEN then Ok (MINUS_1, c, m) else
  match c with
  | None => Ok (MINUS_1, c, m)
  | Some s =>
      if (r2 >? 0) && negb (r1 =? 0) then
        let? name := follow m r1 r2 in
        if from_utf8 name then
          match readings s !! name with
          | Some _ => Ok (0, Some (mkDecoder (<[name := as_i64 r3]> (readings s)) (d_count s) (map_infos s)), m)
          | None =>
              if d_count s >=? MAX_READINGS then Ok (MINUS_2, c, m)
              else Ok (0, Some (mkDecoder (<[name := as_i64 r3]> (readings s)) (d_count s + 1) (map_infos s)), m)
          end
        else Ok (MINUS_1, c, m)
      else Ok (MINUS_1, c, m)
  end.

Section Helpers.
Context (oc : bool).

(** The address of the value of entry [key_index]. *)
Definition value_address (map : MapInfo) (key_index : Z) : Exec Z :=
  arith_u oc 64 (mi_data_start map + key_index * mi_value_size map).

Definition helper_map_lookup (c : Cell) (m : memory) (r1 r2 r3 r4 r5 : Z) : HelperRun :=
  if r2 =? 0 then Ok (0, c, m) else
  match c ≫= (fun s => find_map s r1) with
  | None => Ok (0, c, m)
  | Some map =>
      let? key := follow m r2 4 in
      if from_le_bytes key >=? mi_max_entries map then Ok (0, c, m) else
      let? p := value_address map (from_le_bytes key) in
      Ok (p, c, m)
  end.

Definition helper_map_update (c : Cell) (m : memory) (r1 r2 r3 r4 r5 : Z) : HelperRun :=
  if (r2 =? 0) || (r3 =? 0) then Ok (MINUS_1, c, m) else
  match c ≫= (fun s => find_map s r1) with
  | None => Ok (MINUS_1, c, m)
  | Some map =>
      if read_only map then Ok (MINUS_1, c, m) else
      let? key := follow m r2 4 in
      if from_le_bytes key >=? mi_max_entries map then Ok (MINUS_1, c, m) else
      let? dst := value_address map (from_le_bytes key) in
      let? value := follow m r3 (mi_value_size map) in
      match store_bytes m dst value with
      | Some m' => Ok (0, c, m')
      | None => UB
      end
  end.

Definition helper_trace_printk (c : Cell) (m : memory) (r1 r2 r3 r4 r5 : Z) : HelperRun :=
  if negb (r1 =? 0) && (r2 >? 0) then let? _ := follow m r1 r2 in Ok (0, c, m) else Ok (0, c, m).

Record DecoderHelper := mkDecoderHelper {
  dh_id : Z;
  dh_func : Cell -> memory -> Z -> Z -> Z -> Z -> Z -> HelperRun;
  dh_ret : HelperReturn
}.

Definition decoder_helpers : list DecoderHelper :=
  [mkDecoderHelper 10 helper_map_lookup (MapValueOrNull 1);
   mkDecoderHelper 11 helper_map_update Scalar;
   mkDecoderHelper 16 helper_trace_printk Scalar;
   mkDecoderHelper 18 helper_emit_reading Scalar].
End Helpers.

(** ** The interpreter with these helpers

    [execute_program], with the helper a step calls run on the cell and its result
    given to the interpreter's [step]. *)

Section Run.
Context (e : BpfExec.Env) (table : list DecoderHelper).

Definition next_helper (v : VM) : option DecoderHelper :=
  '(_, i) ← called e v; snd <$> list_find (fun d => dh_id d = as_u32 (imm i)) table.

(** The helper [d] that returned [r] and left [m]. *)
Definition returned (d : DecoderHelper) (r : Z) (m : memory) : HelperDescriptor :=
  mkHelper (dh_id d) (fun _ _ _ _ _ _ => (r, m)) (dh_ret d).

Definition call_with (d : DecoderHelper) (v : VM) (c : Cell) : HelperRun :=
  let r k := value (rget (reg v) k) in dh_func d c (mem v) (r 1) (r 2) (r 3) (r 4) (r 5).

(** One iteration of the loop. *)
Definition step_with (v : VM) (c : Cell) : Exec (Ctl * Cell) :=
  match next_helper v with
  | Some d =>
      let? '(r, c', m) := call_with d v c in
      let? k := step (set_helpers e [returned d r m]) v in
      Ok (k, c')
  | None => let? k := step (set_helpers e []) v in Ok (k, c)
  end.

Fixpoint run_with (fuel : nat) (v : VM) (c : Cell) : option (Exec Cell) :=
  match fuel with
  | O => None
  | S fuel' =>
      match step_with v c with
      | Ok (Continue v', c') => run_with fuel' v' c'
      | Ok (Return _ _, c') => Some (Ok c')
      | Err err => Some (Err err)
      | Panic => Some Panic
      | UB => Some UB
      end
  end.

Definition execute_with (fuel : nat) (m : memory) (c : Cell) : option (Exec Cell) :=
  if negb (len (prog e) mod INSN_SIZE =? 0) then Some (Err (OutOfBounds (num_insns e))) else
  match checked_add 64 (stack_base e) (STACK_SIZE (build e)), checked_add 64 (ctx_base e) (ctx_len e) with
  | Some _, Some _ => run_with fuel (init_vm e m) c
  | _, _ => Some Panic
  end.
End Run.

(** ** Maps *)

Abbreviation DecoderRes := (Res DecoderError).

Definition image_error {A} (msg : string) : DecoderRes A := Err (ImageDecodeError msg).

(** The storage of a map; [total] is that of the maps before it. *)
Definition backing_of (d : MapDef) (initial : option (list Z)) (total : Z) : DecoderRes (list Z * Z) :=
  if ProgramImage.map_type d >? 1 then image_error "unsupported map_type" else
  if negb (ProgramImage.key_size d =? 4) then image_error "unsupported key_size" else
  let? total_size := ok_or (checked_mul 64 (ProgramImage.value_size d) (max_entries d)) (ImageDecodeError "value_size * max_entries overflow") in
  if total_size =? 0 then image_error "zero-size map" else
  let total := saturating_add 64 total total_size in
  if total >? MAX_DECODER_MAP_MEMORY then image_error "decoder map memory exceeds limit" else
  let zeroed := replicate (Z.to_nat total_size) 0 in
  match initial with
  | Some ((_ :: _) as data) =>
      if len data >? total_size then image_error "initial_data size exceeds backing size"
      else Ok (data ++ drop (length data) zeroed, total)
  | _ => Ok (zeroed, total)
  end.

Fixpoint backings (defs : list MapDef) (data : list (list Z)) (i : nat) (total : Z) : DecoderRes (list (list Z)) :=
  match defs with
  | [] => Ok []
  | d :: defs' =>
      let? '(backing, total) := backing_of d (data !! i) total in
      let? rest := backings defs' data (S i) total in
      Ok (backing :: rest)
  end.

(** ** Execution *)

Section Execute.
Context {Value : Type} `{C : Cbor Value}.
(** The build, and where the allocator and the stack put things: the storage of map
    [i], the context buffer and the interpreter's stack; [rest] is other live memory.
    The end of an allocation is an address. *)
Context (b : Build) (addr : nat -> Z) (cbase sbase : Z) (rest : memory).

Definition map_regions (defs : list MapDef) (backs : list (list Z)) : list MapRegion :=
  imap (fun i '(d, backing) => mkMap (addr i) 0 (ProgramImage.value_size d) (addr i) (addr i + len backing)) (zip defs backs).

Definition infos_of (image : ProgramImage) : list MapInfo :=
  imap (fun i d => mkInfo (addr i) (addr i) (ProgramImage.value_size d) (max_entries d) (default false (map_readonly image !! i)))
    (ProgramImage.maps image).

Definition ctx_header_size : Z := 16.
Definition blob_addr : Z := cbase + ctx_header_size.

(** The pointers to the blob and to its end, then the blob. *)
Definition ctx_buf (blob : list Z) : list Z := to_le_bytes 8 blob_addr ++ to_le_bytes 8 (blob_addr + len blob) ++ blob.

Definition data_region (blob : list Z) : Region := mkRegion Context blob_addr (blob_addr + len blob).

Definition decoder_env (image : ProgramImage) (backs : list (list Z)) (blob : list Z) : BpfExec.Env :=
  mkEnv b (bytecode image) cbase (ctx_header_size + len blob) [] (map_regions (ProgramImage.maps image) backs) true
    DECODER_INSTRUCTION_BUDGET [mkCtxPtr 0 (data_region blob); mkCtxPtr 8 (data_region blob)] sbase.

Fixpoint place_maps (i : nat) (backs : list (list Z)) : memory :=
  match backs with
  | [] => rest
  | backing :: backs' => place_bytes (place_maps (S i) backs') (addr i) backing
  end.

Definition decoder_mem (backs : list (list Z)) (blob : list Z) : memory :=
  place_bytes (place_maps 0 backs) cbase (ctx_buf blob).

(** [DecoderStateGuard::install]; dropping the guard empties the cell. *)
Definition installed (image : ProgramImage) : Cell := Some (mkDecoder ∅ 0 (infos_of image)).

Definition take_readings (c : Cell) : gmap (list Z) Z := from_option readings ∅ c.

Definition execute_decoder (fuel : nat) (decoder_image_cbor raw_blob : list Z) : option (DecoderRes (gmap (list Z) Z)) :=
  match image_decode decoder_image_cbor with
  | Err _ => Some (image_error "image")
  | Panic => Some Panic
  | UB => Some UB
  | Ok image =>
      if len (ProgramImage.maps image) >? MAX_DECODER_MAPS then Some (image_error "too many maps") else
      match backings (ProgramImage.maps image) (map_initial_data image) 0 0 with
      | Ok backs =>
          (fun r : Exec Cell => map_err ExecutionError (res_map take_readings r)) <$>
            execute_with (decoder_env image backs raw_blob) (decoder_helpers (overflow_checks b)) fuel
              (decoder_mem backs raw_blob) (installed image)
      | Err err => Some (Err err)
      | Panic => Some Panic
      | UB => Some UB
      end
  end.
End Execute.

(** ** The arguments the verifier promises

    What the prototypes of the decoder platform say of the registers at a call, on a
    memory: a pointer to readable memory with its size, a map, a key of four bytes, and
    a value of the map. *)

Definition readable (m : memory) (p n : Z) : bool := bool_decide (is_Some (load_bytes m p (Z.to_nat n))).

Definition argument_conforms (m : memory) (map : option MapInfo) (regs : list Z) (k : nat) (t : EbpfArgumentType) : bool :=
  match t with
  | DontCare | Anything | ConstSize => true
  | PtrToReadableMem => readable m (regs !!! k) (regs !!! S k)
  | PtrToMap => bool_decide (is_Some map)
  | PtrToMapKey => readable m (regs !!! k) 4
  | PtrToMapValue => readable m (regs !!! k) (from_option mi_value_size 0 map)
  | PtrToWritableMem => false
  end.

Definition call_conforms (c : Cell) (m : memory) (p : HelperPrototype) (regs : list Z) : bool :=
  let map := c ≫= (fun s => find_map s (regs !!! 0%nat)) in
  forallb (fun '(k, t) => argument_conforms m map regs k t) (imap pair (argument_type p)).

(** Every call of the run passes arguments that its prototype promises. *)
Fixpoint calls_conform (e : BpfExec.Env) (table : list DecoderHelper) (fuel : nat) (v : VM) (c : Cell) : bool :=
  match fuel with
  | O => true
  | S fuel' =>
      match next_helper e table v with
      | Some d => call_conforms c (mem v) (get_helper_prototype DecoderPlatform (dh_id d)) ((fun k => value (rget (reg v) k)) <$> [1; 2; 3; 4; 5])
      | None => true
      end &&
      match step_with e table v c with
      | Ok (Continue v', c') => calls_conform e table fuel' v' c'
      | _ => true
      end
  end.
