(* ===== verification/GwDecoderProofs.v ===== *)
(** * Running a decoder

    A run ends, reports a bounded number of readings whatever the program does, and is
    safe when the calls it makes are those the verifier promised. *)

From Stdlib Require Import String.
From S2P Require Import Prelude GwPlatform Messages ProgramImage.
From S2P Require Import Ebpf BpfTypes BpfSpill BpfMem BpfAlu BpfExec BpfInv BpfSafety BpfAdapter BpfNode GwDecoder.
Open Scope list_scope.
Open Scope Z_scope.

(** ** Readings *)

Definition reading_ok (name : list Z) (value : Z) : Prop :=
  1 <= len name <= MAX_NAME_LEN /\ from_utf8 name = true /\ iN 64 value.

Definition cell_ok (c : Cell) : Prop :=
  forall s, c = Some s -> d_count s = Z.of_nat (size (readings s)) /\ d_count s <= MAX_READINGS /\
    map_Forall reading_ok (readings s).

Lemma load_bytes_length m p n l : load_bytes m p n = Some l -> length l = n.
Proof.
  revert p l. induction n as [|n IH]; intros p l; simpl; [by intros [= <-]|].
  destruct (m !! p); [|done]. destruct (load_bytes m (p + 1) n) as [l'|] eqn:Hl; [|done]. intros [= <-]. simpl. by rewrite (IH _ _ Hl).
Qed.

Lemma follow_Ok m p n l : follow m p n = Ok l -> load_bytes m p (Z.to_nat n) = Some l /\ length l = Z.to_nat n.
Proof. unfold follow. destruct (load_bytes _ _ _) as [l'|] eqn:Hl; [|done]. intros [= <-]. split; [done|by eapply load_bytes_length]. Qed.

(** The other helpers leave the cell alone. *)
Lemma helper_cell oc d c m r1 r2 r3 r4 r5 r c' m' :
  d ∈ decoder_helpers oc -> dh_func d c m r1 r2 r3 r4 r5 = Ok (r, c', m') ->
  (cell_ok c -> cell_ok c') /\ forall s', c' = Some s' -> exists s, c = Some s /\ map_infos s' = map_infos s.
Proof.
  assert (Hsame : forall c0 : Cell, (cell_ok c0 -> cell_ok c0) /\ forall s', c0 = Some s' -> exists s, c0 = Some s /\ map_infos s' = map_infos s).
  { intros c0. split; [done|]. intros s' ->. by eexists. }
  unfold decoder_helpers. rewrite !elem_of_cons. intros [-> |[-> |[-> |[-> |[]%elem_of_nil]]]]; simpl.
  - unfold helper_map_lookup. intros H. repeat case_match; simplify_eq; try apply Hsame.
    apply res_bind_Ok in H as (key & _ & H). case_match; simplify_eq; [apply Hsame|].
    apply res_bind_Ok in H as (p & _ & H). simplify_eq. apply Hsame.
  - unfold helper_map_update. intros H. repeat case_match; simplify_eq; try apply Hsame.
    apply res_bind_Ok in H as (key & _ & H). case_match; simplify_eq; [apply Hsame|].
    apply res_bind_Ok in H as (p & _ & H). apply res_bind_Ok in H as (val & _ & H). case_match; simplify_eq. apply Hsame.
  - unfold helper_trace_printk. intros H. case_match; simplify_eq; [|apply Hsame]. apply res_bind_Ok in H as (? & _ & H). simplify_eq. apply Hsame.
  - unfold helper_emit_reading. intros H. destruct (Z.gtb_spec r2 MAX_NAME_LEN) as [|Hmax]; simplify_eq; [apply Hsame|].
    destruct c as [s|]; simplify_eq; [|apply Hsame].
    destruct ((r2 >? 0) && negb (r1 =? 0)) eqn:Hr; simplify_eq; [|apply Hsame]. apply andb_prop in Hr as [Hpos _].
    apply Z.gtb_lt in Hpos. apply res_bind_Ok in H as (name & [_ Hlen]%follow_Ok & H).
    destruct (from_utf8 name) eqn:Hu; simplify_eq; [|apply Hsame].
    assert (Hok : reading_ok name (as_i64 r3)) by (split_and!; [unfold len; lia|unfold len; lia|done|apply (signed_range 64); lia]).
    destruct (readings s !! name) as [old|] eqn:Hold; [|destruct (Z.geb_spec (d_count s) MAX_READINGS)]; simplify_eq; [|apply Hsame|].
    + split; [|intros s' [= <-]; by eexists]. intros Hc s' [= <-]. destruct (Hc s eq_refl) as (Hn & Hm & Hf). cbn [readings d_count].
      split_and!; [rewrite map_size_insert_Some by done; done|done|]. by apply map_Forall_insert_2.
    + split; [|intros s' [= <-]; by eexists]. intros Hc s' [= <-]. destruct (Hc s eq_refl) as (Hn & Hm & Hf). cbn [readings d_count].
      split_and!; [rewrite map_size_insert_None by done; lia|lia|]. by apply map_Forall_insert_2.
Qed.

Lemma next_helper_in e table v d : next_helper e table v = Some d -> d ∈ table.
Proof.
  unfold next_helper. destruct (called e v) as [[w i]|]; cbn; [|done]. intros H. apply fmap_Some in H as ([k d'] & Hf & ->).
  apply list_find_Some in Hf as (Hl & _ & _). by eapply list_elem_of_lookup_2.
Qed.

Section Loop.
Context (e : BpfExec.Env) (oc : bool).
Let table := decoder_helpers oc.

(** One iteration is an iteration of the interpreter, and keeps the readings in order. *)
Lemma step_with_Ok v c k c' :
  step_with e table v c = Ok (k, c') -> (exists hs, step (set_helpers e hs) v = Ok k) /\ (cell_ok c -> cell_ok c').
Proof using .
  unfold step_with. destruct (next_helper e table v) as [d|] eqn:Hn.
  - intros ([[r c1] m] & Hc & H1)%res_bind_Ok. apply res_bind_Ok in H1 as (k' & Hs & H1). injection H1 as <- <-.
    split; [by eexists|]. by apply (helper_cell _ _ _ _ _ _ _ _ _ _ _ _ (next_helper_in _ _ _ _ Hn) Hc).
  - intros (k' & Hs & H1)%res_bind_Ok. injection H1 as <- <-. split; [by eexists|done].
Qed.

Lemma run_with_ends fuel v c :
  0 <= insn_count v <= instruction_budget e -> instruction_budget e < UNLIMITED_BUDGET ->
  instruction_budget e - insn_count v < Z.of_nat fuel -> is_Some (run_with e table fuel v c).
Proof using .
  revert v c. induction fuel as [|fuel IH]; intros v c Hc Hb Hf; [lia|]. cbn [run_with].
  destruct (step_with e table v c) as [[[v'|x m] c']| | |] eqn:Hs; try (by eexists).
  apply step_with_Ok in Hs as [[hs Hs] _]. pose proof (step_count (set_helpers e hs) v v' Hc Hb Hs) as Hk. cbn in Hk. apply IH; lia.
Qed.

Lemma run_with_mono fuel fuel' v c r : (fuel <= fuel')%nat -> run_with e table fuel v c = Some r -> run_with e table fuel' v c = Some r.
Proof using .
  revert fuel' v c. induction fuel as [|fuel IH]; intros fuel' v c Hle; [done|]. destruct fuel' as [|fuel']; [lia|]. cbn [run_with].
  destruct (step_with e table v c) as [[[v'|x m] c']| | |]; try done. apply IH. lia.
Qed.

Lemma run_with_cell fuel v c c' : cell_ok c -> run_with e table fuel v c = Some (Ok c') -> cell_ok c'.
Proof using .
  revert v c. induction fuel as [|fuel IH]; intros v c Hc; [done|]. cbn [run_with].
  destruct (step_with e table v c) as [[[v'|x m] c1]| | |] eqn:Hs; try done.
  - intros Hr. apply (IH v' c1); [|done]. by apply step_with_Ok in Hs as [_ Hs]; apply Hs.
  - intros [= <-]. apply step_with_Ok in Hs as [_ Hs]. by apply Hs.
Qed.
End Loop.

(** ** The interpreter

    With helpers that are functions of their arguments and of memory the run is that of
    [execute_program]. *)

Definition pure_helper (d : HelperDescriptor) : DecoderHelper :=
  mkDecoderHelper (id d) (fun c m r1 r2 r3 r4 r5 => let '(r, m') := func d r1 r2 r3 r4 r5 m in Ok (r, c, m')) (ret d).

Lemma step_with_pure e hs v c : step_with e (pure_helper <$> hs) v c = (let? k := step (set_helpers e hs) v in Ok (k, c)).
Proof.
  unfold step_with, next_helper. destruct (called e v) as [[w i]|] eqn:Hcall; cbn; [|by rewrite (called_none_step e hs v Hcall)].
  assert (Hw : reg w = reg v /\ mem w = mem v) by (unfold called in Hcall; repeat case_match; by simplify_eq).
  destruct Hw as [Hr Hm]. rewrite list_find_fmap. unfold compose. cbn.
  destruct (list_find (fun d => id d = as_u32 (imm i)) hs) as [[k d]|] eqn:Hf; cbn.
  - unfold call_with. cbn. destruct (func d _ _ _ _ _ _) as [r m'] eqn:Hd. cbn.
    enough (step (set_helpers e [returned (pure_helper d) r m']) v = step (set_helpers e hs) v) as -> by done. apply step_helpers. intros w' i' Hc'.
    assert (w' = w /\ i' = i) as [-> ->] by (split; congruence). unfold call_helper. cbn. rewrite Hf. cbn.
    apply list_find_Some in Hf as (_ & Hid & _). rewrite decide_True by done. cbn. by rewrite Hr, Hm, Hd.
  - enough (step (set_helpers e []) v = step (set_helpers e hs) v) as -> by done. apply step_helpers. intros w' i' Hc'. assert (w' = w /\ i' = i) as [-> ->] by (split; congruence).
    unfold call_helper. cbn. by rewrite Hf.
Qed.

Lemma execute_with_pure e hs fuel m c :
  execute_with e (pure_helper <$> hs) fuel m c = res_map (fun _ => c) <$> execute_program (set_helpers e hs) fuel m.
Proof.
  unfold execute_with, execute_program. cbn [set_helpers prog build stack_base ctx_base ctx_len]. change (num_insns (set_helpers e hs)) with (num_insns e).
  case_match; [done|]. case_match; [|done]. case_match; [|done]. change (init_vm (set_helpers e hs) m) with (init_vm e m).
  generalize (init_vm e m). induction fuel as [|fuel IH]; intros v; [done|]. cbn [run_with run]. rewrite step_with_pure.
  destruct (step (set_helpers e hs) v) as [[v'|x m']| | |]; cbn; [apply IH|done..].
Qed.

(** ** Safety *)

Lemma readable_follow m p n : readable m p n = true -> mem_ok m -> exists l, follow m p n = Ok l /\ bytes_ok l /\ length l = Z.to_nat n.
Proof.
  unfold readable. intros [l Hl]%bool_decide_eq_true Hm. exists l. unfold follow. rewrite Hl.
  split_and!; [done|by eapply load_bytes_ok|by eapply load_bytes_length].
Qed.

Section Safe.
Context (e : BpfExec.Env) (m0 : memory) (Henv : env_ok e m0) (infos : list MapInfo).

(** A map the helpers know is one of the interpreter's, with room for its entries. *)
Definition info_ok (i : MapInfo) : Prop :=
  uN 32 (mi_value_size i) /\ uN 32 (mi_max_entries i) /\
  exists mp, mp ∈ BpfExec.maps e /\ data_start mp = mi_data_start i /\
    data_end mp = mi_data_start i + mi_value_size i * mi_max_entries i.

Context (Hinfos : Forall info_ok infos).

Definition knows (c : Cell) : Prop := forall s, c = Some s -> map_infos s = infos.

Lemma found_info c r i : knows c -> (c ≫= (fun s => find_map s r)) = Some i -> info_ok i.
Proof using Hinfos.
  intros Hk. destruct c as [s|]; [|done]. cbn. unfold find_map. intros ([k i'] & Hf & ->)%fmap_Some.
  rewrite (Hk s eq_refl) in Hf. apply list_find_Some in Hf as (Hl & _ & _). by apply (list.Forall_lookup_1 _ _ _ _ Hinfos Hl).
Qed.

Definition in_map (a : Z) : Prop := exists mp, mp ∈ BpfExec.maps e /\ data_start mp <= a < data_end mp.

(** The value of an entry lies within its map. *)
Lemma entry_address oc i k :
  info_ok i -> 0 <= k < mi_max_entries i ->
  exists p, value_address oc i k = Ok p /\ uN 64 p /\ forall a, p <= a < p + mi_value_size i -> in_map a.
Proof using Henv.
  intros ([Hv0 _] & _ & mp & Hin & Hs & He) Hk. pose proof (eo_maps _ _ Henv) as HF. rewrite list.Forall_forall in HF.
  destruct (HF mp Hin) as ((H0 & Hmax & _) & _). assert (2 ^ usize_bits (build e) <= 2 ^ 64) by (destruct (eo_build _ _ Henv) as [-> | ->]; lia).
  assert (Hp : 0 <= k * mi_value_size i <= mi_value_size i * mi_max_entries i - mi_value_size i) by nia.
  exists (mi_data_start i + k * mi_value_size i). unfold value_address. rewrite arith_u_in_range by lia.
  split; [done|]. split; [unfold uN; lia|]. intros a Ha. exists mp. split; [done|lia].
Qed.

Lemma entry_live m p n : mem_inv e m0 m -> (forall a, p <= a < p + n -> in_map a) -> live m p (p + n).
Proof using Henv.
  intros [_ Hf] Hw a Ha. destruct (Hw a Ha) as (mp & Hin & Hr). pose proof (eo_maps _ _ Henv) as HF. rewrite list.Forall_forall in HF.
  destruct (HF mp Hin) as ((_ & _ & Hl) & _). apply (mem_frame_live _ _ _ (data_start mp) (data_end mp) Hf); [by apply start_mem_live|done].
Qed.

(** A helper whose arguments are as its prototype promises returns a [u64], and changes
    only bytes the program may change. *)
Lemma helper_safe oc d c m r1 r2 r3 r4 r5 :
  d ∈ decoder_helpers oc -> knows c -> mem_inv e m0 m ->
  call_conforms c m (get_helper_prototype DecoderPlatform (dh_id d)) [r1; r2; r3; r4; r5] = true ->
  exists r c' m', dh_func d c m r1 r2 r3 r4 r5 = Ok (r, c', m') /\ uN 64 r /\ mem_ok m' /\ mem_frame (writable e) m m'.
Proof using Henv Hinfos.
  intros Hd Hk Hm. pose proof (proj1 Hm) as Hok.
  assert (Hret : forall r (c' : Cell), uN 64 r ->
    exists r' c1 m', Ok (E := BpfTypes.BpfError) (r, c', m) = Ok (r', c1, m') /\ uN 64 r' /\ mem_ok m' /\ mem_frame (writable e) m m').
  { intros r c' Hr. exists r, c', m. split; [done|]. split; [exact Hr|]. split; [exact Hok|apply mem_frame_refl]. }
  assert (H0 : uN 64 0) by (unfold uN; lia). assert (H1 : uN 64 MINUS_1) by apply as_u64_range. assert (H2 : uN 64 MINUS_2) by apply as_u64_range.
  revert Hd. unfold decoder_helpers. rewrite !elem_of_cons. intros [-> |[-> |[-> |[-> |[]%elem_of_nil]]]]; cbn -[helper_map_lookup helper_map_update helper_trace_printk helper_emit_reading readable];
    intros Hc; repeat (apply andb_prop in Hc as [? Hc]).
  - unfold helper_map_lookup. case_match; [by apply Hret|]. destruct (c ≫= _) as [i|] eqn:Hi; [|by apply Hret].
    pose proof (found_info _ _ _ Hk Hi) as Hiok. destruct (readable_follow m r2 4) as (key & -> & Hkb & _); [done..|]. cbn [res_bind].
    pose proof (from_le_bytes_range _ Hkb) as [Hk0 _]. destruct (Z.geb_spec (from_le_bytes key) (mi_max_entries i)); [by apply Hret|].
    destruct (entry_address oc i (from_le_bytes key) Hiok) as (p & -> & Hp & _); [lia|]. by apply Hret.
  - unfold helper_map_update. case_match; [by apply Hret|]. destruct (c ≫= _) as [i|] eqn:Hi; [|by apply Hret].
    pose proof (found_info _ _ _ Hk Hi) as Hiok. destruct (read_only i); [by apply Hret|].
    destruct (readable_follow m r2 4) as (key & -> & Hkb & _); [done..|]. cbn [res_bind].
    pose proof (from_le_bytes_range _ Hkb) as [Hk0 _]. destruct (Z.geb_spec (from_le_bytes key) (mi_max_entries i)); [by apply Hret|].
    destruct (entry_address oc i (from_le_bytes key) Hiok) as (p & -> & Hp & Hw); [lia|]. cbn [res_bind].
    destruct (readable_follow m r3 (mi_value_size i)) as (val & -> & Hvb & Hvl); [done..|]. cbn [res_bind].
    assert (Hlen : len val = mi_value_size i) by (destruct Hiok as ([? _] & _); unfold len; lia).
    destruct (store_bytes_live m p val) as [m' Hs]; [rewrite Hlen; by apply entry_live|]. rewrite Hs. eexists _, _, _. split; [done|].
    split; [done|]. split; [by eapply store_bytes_mem_ok|]. destruct (store_bytes_frame _ _ _ _ Hs) as [L F]. split; [done|].
    intros a Ha. apply F. rewrite Hlen. intros (mp & ? & ?)%Hw. apply Ha. right; right; left. by exists mp.
  - unfold helper_trace_printk. case_match; [|by apply Hret]. destruct (readable_follow m r1 r2) as (l & -> & _); [done..|]. by apply Hret.
  - unfold helper_emit_reading. case_match; [by apply Hret|]. case_match; [|by apply Hret]. case_match; [|by apply Hret].
    destruct (readable_follow m r1 r2) as (l & -> & _); [done..|]. cbn [res_bind]. repeat case_match; by apply Hret.
Qed.

(** The same result, for the memory it was computed in. *)
Definition returned_once (d : DecoderHelper) (m : memory) (r : Z) (m' : memory) : HelperDescriptor :=
  mkHelper (dh_id d) (fun _ _ _ _ _ x => if decide (x = m) then (r, m') else (0, x)) (dh_ret d).

Lemma step_returned d v r m' :
  step (set_helpers e [returned d r m']) v = step (set_helpers e [returned_once d (mem v) r m']) v.
Proof using .
  apply step_helpers. intros w i Hc. apply called_mem in Hc. unfold call_helper. cbn.
  destruct (decide (dh_id d = as_u32 (imm i))); cbn; [|done]. rewrite Hc, decide_True by done. done.
Qed.

Lemma step_with_safe oc v c :
  inv e m0 v -> knows c -> calls_conform e (decoder_helpers oc) 1 v c = true ->
  res_post (fun kc => ctl_ok e m0 kc.1 /\ knows kc.2) (overflow_checks (build e) = true) (step_with e (decoder_helpers oc) v c).
Proof using Henv Hinfos.
  intros Hv Hk Hc. cbn [calls_conform] in Hc. apply andb_prop in Hc as [Hc _]. pose proof (inv_mem e m0 v Hv) as Hm. unfold step_with.
  destruct (next_helper e (decoder_helpers oc) v) as [d|] eqn:Hn.
  - pose proof (next_helper_in _ _ _ _ Hn) as Hd. unfold call_with.
    destruct (helper_safe oc d c (mem v) _ _ _ _ _ Hd Hk Hm Hc) as (r & c' & m' & Hf & Hr & Hmo & Hfr). rewrite Hf. cbn [res_bind].
    rewrite step_returned. eapply (res_post_bind (ctl_ok e m0)).
    + apply (tree_step e m0 Henv); [|done]. constructor; [|constructor]. intros a1 a2 a3 a4 a5 x y m2 Hx. cbn. case_decide; intros [= <- <-]; [by subst|].
      split; [unfold uN; lia|]. split; [done|apply mem_frame_refl].
    + intros k Hctl. split; [done|]. intros s' Hs'. cbn in Hs'. subst c'. destruct (helper_cell _ _ _ _ _ _ _ _ _ _ _ _ Hd Hf) as [_ H]. destruct (H s' eq_refl) as (s & -> & ->). by apply Hk.
  - eapply (res_post_bind (ctl_ok e m0)); [by apply (tree_step e m0 Henv); [constructor|]|]. intros k Hctl. by split.
Qed.

Lemma run_with_safe oc fuel v c r :
  inv e m0 v -> knows c -> calls_conform e (decoder_helpers oc) fuel v c = true -> run_with e (decoder_helpers oc) fuel v c = Some r ->
  res_post (fun _ => True) (overflow_checks (build e) = true) r.
Proof using Henv Hinfos.
  revert v c. induction fuel as [|fuel IH]; intros v c Hv Hk Hc; [done|]. cbn [run_with].
  assert (Hc1 : calls_conform e (decoder_helpers oc) 1 v c = true).
  { cbn [calls_conform] in *. apply andb_prop in Hc as [-> _]. by repeat case_match. }
  pose proof (step_with_safe oc v c Hv Hk Hc1) as Hp. cbn [calls_conform] in Hc. apply andb_prop in Hc as [_ Hc].
  destruct (step_with e (decoder_helpers oc) v c) as [[[v'|x m] c']| | |]; simpl in Hp; try (by intros [= <-]).
  destruct Hp. by apply IH.
Qed.
End Safe.

(** ** Images *)

Definition map_size (d : MapDef) : Z := ProgramImage.value_size d * max_entries d.

Lemma backing_of_Ok d initial total bk total' :
  map_def_ok d -> (forall l, initial = Some l -> bytes_ok l) -> backing_of d initial total = Ok (bk, total') -> len bk = map_size d /\ bytes_ok bk.
Proof.
  intros (_ & _ & [Hv _] & [Hm _]) Hb. unfold backing_of. case_match; [done|]. case_match; [done|].
  intros (ts & [-> _]%ok_or_Ok%checked_mul_Some & Hk)%res_bind_Ok. case_match; [done|]. case_match; [done|].
  assert (Hz : bytes_ok (replicate (Z.to_nat (map_size d)) 0)) by (apply Forall_replicate; unfold byte_ok; lia).
  assert (Hn : 0 <= map_size d) by (unfold map_size; nia).
  assert (Hplain : len (replicate (Z.to_nat (map_size d)) 0) = map_size d) by (unfold len; rewrite length_replicate; lia).
  fold (map_size d) in Hk. destruct initial as [[|x l]|]; [injection Hk as <- _; by split| |injection Hk as <- _; by split].
  destruct (len (x :: l) >? map_size d) eqn:Hg; [discriminate Hk|]. rewrite Z.gtb_ltb in Hg. apply Z.ltb_ge in Hg. injection Hk as <- _. split.
  - change (len ((x :: l) ++ drop (length (x :: l)) (replicate (Z.to_nat (map_size d)) 0)) = map_size d). unfold len in *. rewrite length_app, length_drop. lia.
  - change (bytes_ok ((x :: l) ++ drop (length (x :: l)) (replicate (Z.to_nat (map_size d)) 0))). apply Forall_app. split; [by apply Hb|by apply Forall_drop].
Qed.

Lemma backings_Ok defs data i total backs :
  Forall map_def_ok defs -> Forall bytes_ok data -> backings defs data i total = Ok backs ->
  Forall2 (fun d bk => len bk = map_size d /\ bytes_ok bk) defs backs.
Proof.
  intros Hd Hb. revert i total backs. induction Hd as [|d defs Hd _ IH]; intros i total backs; simpl; [intros [= <-]; constructor|].
  intros ([bk t] & Hbk & H)%res_bind_Ok. apply res_bind_Ok in H as (bks & Hbks & H). injection H as <-. constructor; [|by eapply IH].
  eapply backing_of_Ok; [done| |exact Hbk]. intros l Hl. by apply (list.Forall_lookup_1 _ _ _ _ Hb Hl).
Qed.

(** ** The gateway's memory *)

(** Allocations within the address space of a 64-bit host, none on the stack. *)
Record layout_ok (b : Build) (addr : nat -> Z) (cbase sbase : Z) (rest : memory) (image : ProgramImage) (blob : list Z) : Prop := {
  lo_build : build_ok b;
  lo_bits : usize_bits b = 64;
  lo_ctx : 0 <= cbase /\ cbase + ctx_header_size + len blob < 2 ^ 64;
  lo_stack : 0 <= sbase /\ sbase + STACK_SIZE b < 2 ^ 64;
  lo_ctx_stack : cbase + ctx_header_size + len blob <= sbase \/ sbase + STACK_SIZE b <= cbase;
  lo_maps i d : ProgramImage.maps image !! i = Some d ->
    0 <= addr i /\ addr i + map_size d < 2 ^ 64 /\ (addr i + map_size d <= sbase \/ sbase + STACK_SIZE b <= addr i);
  lo_rest : mem_ok rest;
  lo_rest_stack a : sbase <= a < sbase + STACK_SIZE b -> rest !! a = None
}.

Section Layout.
Context (b : Build) (addr : nat -> Z) (cbase sbase : Z) (rest : memory) (image : ProgramImage) (blob : list Z).
Context (Hlay : layout_ok b addr cbase sbase rest image blob).
Context (Hdefs : Forall map_def_ok (ProgramImage.maps image)) (Hblob : bytes_ok blob).
Context (backs : list (list Z)) (Hbacks : Forall2 (fun d bk => len bk = map_size d /\ bytes_ok bk) (ProgramImage.maps image) backs).

Lemma place_maps_ok i l : Forall bytes_ok l -> mem_ok (place_maps addr rest i l).
Proof using Hlay. intros Hl. revert i. induction Hl; intros i; simpl; [apply Hlay|by apply place_bytes_ok]. Qed.

Lemma place_maps_live i l j bk : l !! j = Some bk -> live (place_maps addr rest i l) (addr (i + j)%nat) (addr (i + j)%nat + len bk).
Proof using .
  revert i j. induction l as [|x l IH]; intros i [|j]; simpl; [done..| |].
  - intros [= ->]. rewrite Nat.add_0_r. apply place_bytes_live.
  - intros Hj a Ha. apply place_bytes_keeps. replace (i + S j)%nat with (S i + j)%nat in Ha by lia. by apply (IH (S i) j Hj).
Qed.

Lemma place_maps_fresh i l a :
  (forall j bk, l !! j = Some bk -> ~ (addr (i + j)%nat <= a < addr (i + j)%nat + len bk)) -> place_maps addr rest i l !! a = rest !! a.
Proof using .
  revert i. induction l as [|x l IH]; intros i Hf; simpl; [done|]. rewrite place_bytes_lookup, decide_False.
  - apply IH. intros j bk Hj. replace (S i + j)%nat with (i + S j)%nat by lia. by apply (Hf (S j)).
  - specialize (Hf 0%nat x eq_refl). by rewrite Nat.add_0_r in Hf.
Qed.

Lemma back_at j bk : backs !! j = Some bk -> exists d, ProgramImage.maps image !! j = Some d /\ len bk = map_size d /\ bytes_ok bk.
Proof using Hbacks. intros Hj. destruct (Forall2_lookup_r _ _ _ _ _ Hbacks Hj) as (d & Hd & ?). by exists d. Qed.

Lemma len_ctx_buf : len (ctx_buf cbase blob) = ctx_header_size + len blob.
Proof using . unfold ctx_buf. rewrite !len_app. unfold len at 1 2. rewrite !length_to_le_bytes. unfold ctx_header_size. lia. Qed.

Lemma region_at mp : mp ∈ map_regions addr (ProgramImage.maps image) backs ->
  exists j d bk, ProgramImage.maps image !! j = Some d /\ backs !! j = Some bk /\ len bk = map_size d /\
    mp = mkMap (addr j) 0 (ProgramImage.value_size d) (addr j) (addr j + map_size d).
Proof using Hbacks.
  unfold map_regions. intros (j & Hj)%list_elem_of_lookup. rewrite list_lookup_imap in Hj. apply fmap_Some in Hj as ([d bk] & Hj & ->).
  apply lookup_zip_Some in Hj as [Hd Hbk]. destruct (back_at j bk Hbk) as (d' & Hd' & Hlen & _). assert (d' = d) as -> by congruence.
  exists j, d, bk. by rewrite Hlen.
Qed.

Lemma decoder_env_ok : bytes_ok (bytecode image) -> len (bytecode image) < 2 ^ 63 ->
  env_ok (decoder_env b addr cbase sbase image backs blob) (decoder_mem addr cbase rest backs blob).
Proof using Hlay Hdefs Hblob Hbacks.
  intros Hbc Hlen. pose proof Hlay as []. pose proof (len_nonneg blob). pose proof len_ctx_buf as Hcl.
  assert (Hbk : Forall bytes_ok backs).
  { apply list.Forall_forall. intros bk (j & Hj)%list_elem_of_lookup. by destruct (back_at j bk Hj) as (? & _ & _ & ?). }
  assert (Hctx : live (decoder_mem addr cbase rest backs blob) cbase (cbase + (ctx_header_size + len blob))).
  { rewrite <- Hcl. apply place_bytes_live. }
  assert (Hptr : forall off, alloc_ok b (decoder_mem addr cbase rest backs blob) (base (cp_region (mkCtxPtr off (data_region cbase blob))))
      (rend (cp_region (mkCtxPtr off (data_region cbase blob)))) /\ forall idx, tag (cp_region (mkCtxPtr off (data_region cbase blob))) = MapDescriptor idx ->
      0 <= idx < len (map_regions addr (ProgramImage.maps image) backs)).
  { intros off. split; [|done]. unfold alloc_ok, blob_addr. cbn [cp_region data_region base rend]. rewrite lo_bits0. unfold blob_addr, ctx_header_size in *.
    split; [lia|]. split; [lia|]. intros a Ha. apply Hctx. unfold ctx_header_size. lia. }
  constructor; cbn [decoder_env build prog instruction_budget stack_base ctx_base ctx_len BpfExec.maps ctx_ptrs helpers]; rewrite ?lo_bits0; try done.
  - apply place_bytes_ok; [by apply place_maps_ok|]. unfold ctx_buf. rewrite !Forall_app. split_and!; [apply to_le_bytes_ok..|done].
  - intros a Ha. unfold decoder_mem. rewrite place_bytes_lookup, decide_False by lia. rewrite place_maps_fresh; [by apply lo_rest_stack0|].
    intros j bk Hj Hin. destruct (back_at j bk Hj) as (d & Hd & Hl & _). destruct (lo_maps0 j d Hd) as (? & ? & ?). simpl in Hin. lia.
  - unfold ctx_header_size. lia.
  - unfold alloc_ok. rewrite lo_bits0. split; [lia|]. split; [lia|]. done.
  - apply list.Forall_forall. intros mp Hmp. destruct (region_at mp Hmp) as (j & d & bk & Hd & Hj & Hl & ->). cbn [data_start data_end relocated_ptr BpfTypes.key_size BpfTypes.value_size].
    destruct (lo_maps0 j d Hd) as (? & ? & ?). pose proof (list.Forall_lookup_1 _ _ _ _ Hdefs Hd) as (_ & _ & Hv & [? _]).
    assert (0 <= map_size d) by (unfold map_size; destruct Hv; nia).
    split; [|split; [unfold uN; lia|split; [unfold uN; lia|done]]]. unfold alloc_ok. rewrite lo_bits0. split; [lia|]. split; [lia|].
    intros a Ha. apply place_bytes_keeps. rewrite <- Hl in Ha. by apply (place_maps_live 0 backs j bk Hj).
  - apply Forall_cons_2; [apply Hptr|]. apply Forall_singleton, Hptr.
Qed.

Lemma infos_ok : Forall (info_ok (decoder_env b addr cbase sbase image backs blob)) (infos_of addr image).
Proof using Hdefs Hbacks.
  apply list.Forall_forall. intros i (j & Hj)%list_elem_of_lookup. unfold infos_of in Hj. rewrite list_lookup_imap in Hj.
  apply fmap_Some in Hj as (d & Hd & ->). pose proof (list.Forall_lookup_1 _ _ _ _ Hdefs Hd) as (_ & _ & Hv & Hm).
  split; [done|]. split; [done|]. destruct (Forall2_lookup_l _ _ _ _ _ Hbacks Hd) as (bk & Hbk & Hl & _).
  exists (mkMap (addr j) 0 (ProgramImage.value_size d) (addr j) (addr j + len bk)). split; [|cbn; by rewrite Hl].
  cbn [decoder_env BpfExec.maps]. unfold map_regions. apply list_elem_of_lookup. exists j. rewrite list_lookup_imap.
  replace (zip _ backs !! j) with (Some (d, bk)); [done|]. symmetry. apply lookup_zip_Some. done.
Qed.
End Layout.

Lemma backings_plain defs data i total : res_post (fun _ => True) False (backings defs data i total).
Proof.
  revert i total. induction defs as [|d defs IH]; intros i total; simpl; [done|].
  apply (res_post_bind (fun _ => True)).
  - unfold backing_of, image_error. case_match; [done|]. case_match; [done|].
    apply (res_post_bind (fun _ => True)); [by destruct (checked_mul _ _ _)|]. intros ts _. by repeat case_match.
  - intros [bk t] _. apply (res_post_bind (fun _ => True)); [apply IH|done].
Qed.

(** ** Execution *)

Section Decoder.
Context {Value : Type} `{C : Cbor Value}.
Context (b : Build) (addr : nat -> Z) (cbase sbase : Z) (rest : memory) (cbor blob : list Z) (image : ProgramImage).
Context (Himage : image_decode cbor = Ok image) (Hbc : bytes_ok (bytecode image)) (Hlen : len (bytecode image) < 2 ^ 63).
Context (Hinit : Forall bytes_ok (map_initial_data image)) (Hblob : bytes_ok blob).
Context (Hlay : layout_ok b addr cbase sbase rest image blob).

(** The calls of the run are those the verifier promised. *)
Definition decoder_conforms (backs : list (list Z)) : bool :=
  let e := decoder_env b addr cbase sbase image backs blob in
  calls_conform e (decoder_helpers (overflow_checks b)) (S (Z.to_nat DECODER_INSTRUCTION_BUDGET))
    (init_vm e (decoder_mem addr cbase rest backs blob)) (installed addr image).

(** The run of a decoder whose maps are allocated. *)
Lemma execute_with_sound backs :
  backings (ProgramImage.maps image) (map_initial_data image) 0 0 = Ok backs ->
  exists r, (forall fuel, DECODER_INSTRUCTION_BUDGET < Z.of_nat fuel ->
      execute_with (decoder_env b addr cbase sbase image backs blob) (decoder_helpers (overflow_checks b)) fuel
        (decoder_mem addr cbase rest backs blob) (installed addr image) = Some r) /\
    (forall c, r = Ok c -> cell_ok c) /\
    (decoder_conforms backs = true -> res_post (fun _ => True) (overflow_checks b = true) r).
Proof using Himage Hbc Hlen Hinit Hblob Hlay.
  intros Hb. pose proof (decoded_image _ _ Himage) as Hdefs. pose proof (backings_Ok _ _ _ _ _ Hdefs Hinit Hb) as Hbacks.
  pose proof (decoder_env_ok b addr cbase sbase rest image blob Hlay Hdefs Hblob backs Hbacks Hbc Hlen) as Henv.
  pose proof (infos_ok b addr cbase sbase image blob Hdefs backs Hbacks) as Hinfos. unfold decoder_conforms.
  set (e := decoder_env b addr cbase sbase image backs blob) in *. set (m := decoder_mem addr cbase rest backs blob) in *.
  assert (Hcell : cell_ok (installed addr image)).
  { intros s [= <-]. cbn [readings d_count]. rewrite map_size_empty. unfold MAX_READINGS. split; [lia|]. split; [lia|]. apply map_Forall_empty. }
  assert (Hrun : exists r, run_with e (decoder_helpers (overflow_checks b)) (S (Z.to_nat DECODER_INSTRUCTION_BUDGET)) (init_vm e m) (installed addr image) = Some r).
  { apply run_with_ends; change (instruction_budget e) with DECODER_INSTRUCTION_BUDGET; change (insn_count (init_vm e m)) with 0;
      unfold DECODER_INSTRUCTION_BUDGET, UNLIMITED_BUDGET; lia. }
  unfold execute_with. case_match; [by eexists|]. destruct Hlay.
  change (build e) with b. change (stack_base e) with sbase. change (ctx_base e) with cbase. change (ctx_len e) with (ctx_header_size + len blob).
  rewrite !checked_add_lt by lia. destruct Hrun as [r Hr]. exists r. split_and!.
  - intros fuel Hf. eapply run_with_mono; [|exact Hr]. unfold DECODER_INSTRUCTION_BUDGET in *. lia.
  - intros c ->. by eapply run_with_cell.
  - intros Hc. eapply (run_with_safe e m Henv _ Hinfos); [by apply init_vm_inv| |exact Hc|exact Hr]. by intros s [= <-].
Qed.

(** C10: a decoder runs within its bounds.  On an image the gateway stored and any blob,
    execution ends, with a result that does not depend on the fuel beyond the budget of
    100000 instructions; readings it returns are at most 32, their names valid UTF-8 of 1 to 64
    bytes and their values [i64], whatever the program does.  If every helper call of
    the run passes what the prototypes of the decoder platform promise, no memory is
    accessed outside live allocations and, built without overflow checks, nothing
    panics. *)
Theorem execute_decoder_sound :
  exists r, (forall fuel, DECODER_INSTRUCTION_BUDGET < Z.of_nat fuel -> execute_decoder b addr cbase sbase rest fuel cbor blob = Some r) /\
    (forall rs, r = Ok rs -> Z.of_nat (size rs) <= MAX_READINGS /\ map_Forall reading_ok rs) /\
    ((forall backs, backings (ProgramImage.maps image) (map_initial_data image) 0 0 = Ok backs -> decoder_conforms backs = true) ->
     r <> UB /\ (overflow_checks b = false -> r <> Panic)).
Proof using Himage Hbc Hlen Hinit Hblob Hlay.
  unfold execute_decoder. rewrite Himage. case_match; [eexists; split; [done|]; split; done|].
  pose proof (backings_plain (ProgramImage.maps image) (map_initial_data image) 0 0) as Hp.
  destruct (backings _ _ 0 0) as [backs|err| |] eqn:Hb; [|eexists; split; [done|]; split; done|done..].
  destruct (execute_with_sound backs Hb) as (r & Hr & Hc & Hs). exists (map_err ExecutionError (res_map take_readings r)). split_and!.
  - intros fuel Hf. by rewrite (Hr fuel Hf).
  - intros rs Hok. destruct r as [c| | |]; simplify_eq/=. destruct c as [s|]; cbn; [|rewrite map_size_empty; unfold MAX_READINGS; split; [lia|apply map_Forall_empty]].
    destruct (Hc _ eq_refl s eq_refl) as (Hn & Hm & Hf). split; [lia|done].
  - intros H1. specialize (Hs (H1 backs eq_refl)). destruct r; try done. cbn in *. split; [done|]. congruence.
Qed.
End Decoder.

(** ** A decoder at work

    A decoder that reports a byte of the blob and a byte of a global variable. *)

From S2P Require Import Frame CborModel CborCompact GwStore GwIngest.

Module DecoderDemo.
#[local] Existing Instance compact_cbor | 0.

(** Report a register as the reading named by one character. *)
Definition report (c : Z) : list RawInst :=
  [mkRawInst 0x72 10 (-8) c; mkRawInst 0xbf 0xa1 0 0; mkRawInst 0x07 1 0 (-8); mkRawInst 0xb7 2 0 1; mkRawInst 0x85 0 0 18].

Definition demo_code : list RawInst :=
  [mkRawInst 0x79 0x16 0 0; mkRawInst 0x71 0x63 0 0] ++ report 116 ++
  [mkRawInst 0x18 0x66 0 0; mkRawInst 0 0 0 0; mkRawInst 0x71 0x63 0 0] ++ report 107 ++ [mkRawInst 0x95 0 0 0].

Definition demo_decoder : ProgramImage := mkImage (bytecode_of demo_code) [mkMapDef 0 4 4 1] [[7; 8; 9; 10]] [true].
Definition demo_cbor : list Z := match encode_deterministic demo_decoder with Ok c => c | _ => [] end.

Definition demo_addr (i : nat) : Z := 1048576 + 65536 * Z.of_nat i.
Lemma demo_readings :
  execute_decoder (host_build false) demo_addr 4096 200000 ∅ (Z.to_nat 100001) demo_cbor [21] = Some (Ok (<[bytes_of "k" := 7]> (<[bytes_of "t" := 21]> ∅))).
Proof. by vm_compute. Qed.

Lemma demo_decodes : image_decode demo_cbor = Ok demo_decoder.
Proof. by vm_compute. Qed.

Lemma demo_backings : backings (ProgramImage.maps demo_decoder) (map_initial_data demo_decoder) 0 0 = Ok [[7; 8; 9; 10]].
Proof. by vm_compute. Qed.

Lemma demo_conforms : decoder_conforms (host_build false) demo_addr 4096 200000 ∅ [21] demo_decoder [[7; 8; 9; 10]] = true.
Proof. by vm_compute. Qed.

Lemma demo_budget : DECODER_INSTRUCTION_BUDGET < Z.of_nat (Z.to_nat 100001).
Proof. unfold DECODER_INSTRUCTION_BUDGET. lia. Qed.

Lemma demo_layout : layout_ok (host_build false) demo_addr 4096 200000 ∅ demo_decoder [21].
Proof.
  constructor; change (STACK_SIZE _) with 4096; unfold ctx_header_size; change (len [21]) with 1.
  - by right.
  - done.
  - lia.
  - lia.
  - lia.
  - intros i d Hd. assert (i = 0%nat /\ d = mkMapDef 0 4 4 1) as [-> ->] by (destruct i as [|[|?]]; simpl in Hd; naive_solver).
    unfold demo_addr, map_size. cbn [ProgramImage.value_size max_entries]. lia.
  - intros a x. by rewrite lookup_empty.
  - intros a _. apply lookup_empty.
Qed.

Lemma execute_decoder_sound_witness :
  exists rs, execute_decoder (host_build false) demo_addr 4096 200000 ∅ (Z.to_nat 100001) demo_cbor [21] = Some (Ok rs) /\ rs !! bytes_of "t" = Some 21 /\ rs !! bytes_of "k" = Some 7 /\
    Z.of_nat (size rs) <= MAX_READINGS.
Proof.
  destruct (execute_decoder_sound (host_build false) demo_addr 4096 200000 ∅ demo_cbor [21] demo_decoder demo_decodes) as (r & Hr & Hb & Hs).
  - apply (bool_decide_eq_true (Forall (fun x => 0 <= x < 256) (bytecode demo_decoder))). by vm_compute.
  - by vm_compute.
  - apply (bool_decide_eq_true (Forall (Forall (fun x => 0 <= x < 256)) (map_initial_data demo_decoder))). by vm_compute.
  - apply (bool_decide_eq_true (Forall (fun x => 0 <= x < 256) [21])). by vm_compute.
  - exact demo_layout.
  - assert (Hsafe : r <> UB).
    { apply Hs. intros backs Hbk. rewrite demo_backings in Hbk. injection Hbk as <-. exact demo_conforms. }
    specialize (Hr (Z.to_nat 100001) demo_budget). pose proof demo_readings as Hd.
    rewrite Hr in Hd. injection Hd as ->. destruct (Hb _ eq_refl) as [Hn _].
    eexists. split; [exact Hr|]. split; [by vm_compute|]. split; [by vm_compute|exact Hn].
Defined.

(** ** Declared maps *)

(** Two arrays of one entry of four and of eight bytes. *)
Definition demo_section : list Z := concat (to_le_bytes 4 <$> [1; 4; 4; 1; 0; 0; 0; 1; 4; 8; 1; 0; 0; 0]).

Lemma map_fds_identify_witness :
  exists ds cache, parse_legacy_maps_section true [] demo_section 28 2 ∅ = Ok (ds, cache) /\ len ds = 2 /\
    forall d d', d ∈ ds -> d' ∈ ds -> (GwElf.original_fd d = GwElf.original_fd d' <-> GwPlatform.key_of d = GwPlatform.key_of d').
Proof.
  destruct (map_fds_identify true demo_section 28 2) as (ds & cache & H1 & H2 & _ & _ & H3); [lia|lia|by vm_compute|by vm_compute|].
  exists ds, cache. by split_and!.
Defined.
End DecoderDemo.
