(* ===== verification/ModemRadio.v ===== *)
(** * Peers, received frames and counters of the modem

    [sonde-modem/src/peer_table.rs]: the table of the twenty radio peers used last.
    [sonde-modem/src/espnow.rs], [RxRing]: the ring of received frames the radio
    callback fills and the main loop drains.  [sonde-modem/src/status.rs]: the
    counters reported to the gateway. *)

From Stdlib Require Import Sorted.
From S2P Require Import Prelude Modem.
Open Scope list_scope.
Open Scope Z_scope.

(** ** Peer table *)

Definition MAX_PEERS : Z := 20.

Record PeerEntry := mkPeer { pe_mac : list Z; last_used : Z }.
Record PeerTable := mkPeers { peers : list PeerEntry; tick : Z }.

Definition peers_new : PeerTable := mkPeers [] 0.

(** The loop that refreshes a known peer. *)
Fixpoint touch (mac : list Z) (now : Z) (es : list PeerEntry) : option (list PeerEntry) :=
  match es with
  | [] => None
  | e :: es =>
      if bool_decide (pe_mac e = mac) then Some (mkPeer (pe_mac e) now :: es)
      else (fun es => e :: es) <$> touch mac now es
  end.

(** [min_by_key]: the index of the first minimum. *)
Fixpoint min_from (i best : nat) (low : Z) (es : list PeerEntry) : nat :=
  match es with
  | [] => best
  | e :: es => if last_used e <? low then min_from (S i) i (last_used e) es else min_from (S i) best low es
  end.

Definition min_by_key (es : list PeerEntry) : option nat :=
  match es with [] => None | e :: es => Some (min_from 1 0 (last_used e) es) end.

Definition ensure_peer (t : PeerTable) (mac : list Z) : Res unit (option (list Z) * PeerTable) :=
  let now := saturating_add 64 (tick t) 1 in
  match touch mac now (peers t) with
  | Some es => Ok (None, mkPeers es now)
  | None =>
      if len (peers t) >=? MAX_PEERS then
        match min_by_key (peers t) with
        | Some lru_idx =>
            let? lru := index (peers t) (Z.of_nat lru_idx) in
            Ok (Some (pe_mac lru), mkPeers (<[lru_idx := mkPeer mac now]> (peers t)) now)
        | None => Panic
        end
      else Ok (None, mkPeers (peers t ++ [mkPeer mac now]) now)
  end.

Definition peers_clear (t : PeerTable) : PeerTable := mkPeers [] 0.
Definition peers_len (t : PeerTable) : Z := len (peers t).
Definition peers_empty (t : PeerTable) : bool := peers_len t =? 0.
Definition contains (t : PeerTable) (mac : list Z) : bool := existsb (fun e => bool_decide (pe_mac e = mac)) (peers t).
Definition all_macs (t : PeerTable) : list (list Z) := pe_mac <$> peers t.

(** ** The ring of received frames *)

Definition RX_RING_CAP : Z := 16.

Record RecvSlot := mkSlot { slot_mac : list Z; slot_rssi : Z; slot_data : list Z; slot_len : Z }.

Definition slot_default : RecvSlot := mkSlot (replicate 6 0) 0 (replicate 250 0) 0.

Record RxRing := mkRing { slots : list RecvSlot; head : Z; tail : Z; count : Z; drop_count : Z }.

Definition ring_default : RxRing := mkRing (replicate 16 slot_default) 0 0 0 0.

(** [data[..n].copy_from_slice(payload)] with [n = payload.len()]. *)
Definition copy_prefix (data payload : list Z) : Res unit (list Z) :=
  let? _ := slice data 0 (len payload) in Ok (payload ++ drop (length payload) data).

Definition ring_push (r : RxRing) (mac : list Z) (rssi : Z) (payload : list Z) : Res unit (bool * RxRing) :=
  if (count r >=? RX_RING_CAP) || (len payload >? ESPNOW_MAX_DATA_SIZE) then Ok (false, r) else
  let? slot := index (slots r) (head r) in
  let? data := copy_prefix (slot_data slot) payload in
  Ok (true, mkRing (<[Z.to_nat (head r) := mkSlot mac rssi data (len payload)]> (slots r))
    ((head r + 1) mod RX_RING_CAP) (tail r) (count r + 1) (drop_count r)).

(** The caller's buffer is the second component. *)
Definition pop_into (r : RxRing) (buf : list Z) : Res unit (option (list Z * Z * Z) * list Z * RxRing) :=
  if count r =? 0 then Ok (None, buf, r) else
  let? slot := index (slots r) (tail r) in
  let? bytes := slice (slot_data slot) 0 (slot_len slot) in
  let? buf := copy_prefix buf bytes in
  Ok (Some (slot_mac slot, slot_rssi slot, slot_len slot), buf,
    mkRing (slots r) (head r) ((tail r + 1) mod RX_RING_CAP) (count r - 1) (drop_count r)).

Definition ring_clear (r : RxRing) : RxRing := mkRing (slots r) 0 0 0 0.

(** ** Counters *)

(** Times are milliseconds since boot. *)
Record ModemCounters := mkCounters { c_tx : Z; c_rx : Z; c_tx_fail : Z; reset_epoch_ms : Z }.

Definition counters_new : ModemCounters := mkCounters 0 0 0 0.
Definition inc_tx (c : ModemCounters) : ModemCounters := mkCounters (wrap 32 (c_tx c + 1)) (c_rx c) (c_tx_fail c) (reset_epoch_ms c).
Definition inc_rx (c : ModemCounters) : ModemCounters := mkCounters (c_tx c) (wrap 32 (c_rx c + 1)) (c_tx_fail c) (reset_epoch_ms c).
Definition inc_tx_fail (c : ModemCounters) : ModemCounters :=
  mkCounters (c_tx c) (c_rx c) (wrap 32 (c_tx_fail c + 1)) (reset_epoch_ms c).
Definition counters_uptime_s (c : ModemCounters) (now_ms : Z) : Z := wrap 32 (Z.max 0 (wrap 64 now_ms - reset_epoch_ms c) / 1000).
Definition counters_reset (c : ModemCounters) (now_ms : Z) : ModemCounters := mkCounters 0 0 0 (wrap 64 now_ms).

(** ** Least recently used

    The reference: the peers in the order of their last use. *)

Definition without (mac : list Z) (l : list (list Z)) : list (list Z) := filter (fun x => x <> mac) l.

Definition lru_step (l : list (list Z)) (mac : list Z) : option (list Z) * list (list Z) :=
  if bool_decide (mac ∈ l) then (None, without mac l ++ [mac])
  else if MAX_PEERS <=? len l then (list.head l, list.tail l ++ [mac]) else (None, l ++ [mac]).

(** The table holds exactly the peers [l], stamped in the order of [l]. *)
Record in_order (t : PeerTable) (l : list (list Z)) : Prop := {
  io_nodup : NoDup l;
  io_len : len l <= MAX_PEERS;
  io_stamped : exists es, es ≡ₚ peers t /\ pe_mac <$> es = l /\ StronglySorted Z.lt (last_used <$> es) /\
    Forall (fun e => last_used e <= tick t) es
}.

Lemma touch_spec mac now es :
  match touch mac now es with
  | None => mac ∉ pe_mac <$> es
  | Some es' => exists e l1 l2, es = l1 ++ e :: l2 /\ pe_mac e = mac /\ es' = l1 ++ mkPeer mac now :: l2
  end.
Proof.
  induction es as [|e es IH]; simpl; [apply not_elem_of_nil|]. case_bool_decide as Hm.
  - exists e, [], es. by rewrite Hm.
  - destruct (touch mac now es) as [es'|]; simpl.
    + destruct IH as (e' & l1 & l2 & -> & He & ->). by exists e', (e :: l1), l2.
    + apply not_elem_of_cons. by split.
Qed.

Lemma min_from_spec es : forall i best low,
  exists j e, min_from i best low es = j /\
    ((j = best /\ Forall (fun x => low <= last_used x) es) \/
     ((i <= j)%nat /\ es !! (j - i)%nat = Some e /\ last_used e < low /\ Forall (fun x => last_used e <= last_used x) es)).
Proof.
  induction es as [|x es IH]; intros i best low; simpl; [exists best, (mkPeer [] 0); split; [done|by left]|].
  destruct (Z.ltb_spec (last_used x) low) as [Hlt|Hge].
  - destruct (IH (S i) i (last_used x)) as (j & e & -> & [[-> HF]|(Hj & He & Hlow & HF)]).
    + exists i, x. split; [done|right]. rewrite Nat.sub_diag. split_and!; [lia|done|lia|]. constructor; [lia|done].
    + exists j, e. split; [done|right]. replace (j - i)%nat with (S (j - S i)) by lia. split_and!; [lia|done|lia|].
      constructor; [lia|done].
  - destruct (IH (S i) best low) as (j & e & -> & [[-> HF]|(Hj & He & Hlow & HF)]).
    + exists best, x. split; [done|left]. split; [done|]. constructor; [lia|done].
    + exists j, e. split; [done|right]. replace (j - i)%nat with (S (j - S i)) by lia. split_and!; [lia|done|lia|].
      constructor; [lia|done].
Qed.

Lemma min_by_key_spec es i :
  min_by_key es = Some i -> exists e l1 l2, es = l1 ++ e :: l2 /\ length l1 = i /\ Forall (fun x => last_used e <= last_used x) es.
Proof.
  destruct es as [|x es]; [done|]. intros [= <-].
  destruct (min_from_spec es 1 0 (last_used x)) as (j & e & -> & [[-> HF]|(Hj & He & Hlow & HF)]).
  - exists x, [], es. split_and!; [done|done|]. constructor; [lia|done].
  - assert (Hl : (x :: es) !! j = Some e) by (destruct j as [|j]; [lia|]; by replace (S j - 1)%nat with j in He by lia).
    apply list_elem_of_split_length in Hl as (l1 & l2 & Heq & Hlen). exists e, l1, l2. split_and!; [done|lia|]. constructor; [lia|done].
Qed.

Lemma without_app mac l l' : without mac (l ++ l') = without mac l ++ without mac l'.
Proof. apply list.filter_app. Qed.

Lemma without_id mac l : mac ∉ l -> without mac l = l.
Proof.
  intros Hm. unfold without. induction l as [|x l IH]; [done|]. apply not_elem_of_cons in Hm as [Hx Hl].
  rewrite filter_cons_True by done. by rewrite IH.
Qed.

(** In a list without duplicates exactly the one occurrence goes. *)
Lemma without_mid mac l1 l2 : NoDup (l1 ++ mac :: l2) -> without mac (l1 ++ mac :: l2) = l1 ++ l2.
Proof.
  intros Hnd. apply list.NoDup_app in Hnd as (_ & H1 & H2). apply list.NoDup_cons in H2 as [H2 _].
  rewrite without_app, without_id by (intros Hin; apply (H1 mac Hin); by left).
  change (mac :: l2) with ([mac] ++ l2). rewrite without_app, (without_id mac l2) by done.
  unfold without at 1. by rewrite filter_cons_False by (intros H; by apply H).
Qed.

Lemma sorted_mid (a b : list Z) x : StronglySorted Z.lt (a ++ x :: b) -> StronglySorted Z.lt (a ++ b).
Proof.
  induction a as [|y a IH]; simpl; intros H; [by apply StronglySorted_inv in H as [? _]|].
  apply StronglySorted_inv in H as [Hs HF]. constructor; [by apply IH|].
  apply Forall_app in HF as [Ha Hb]. apply Forall_app. split; [done|]. by apply Forall_cons_iff in Hb as [_ ?].
Qed.

Lemma sorted_snoc {A} (R : A -> A -> Prop) (a : list A) x : StronglySorted R a -> Forall (fun y => R y x) a -> StronglySorted R (a ++ [x]).
Proof.
  induction 1 as [|y a Hs IH HF]; intros Hx; simpl; [by repeat constructor|]. apply Forall_cons_iff in Hx as [Hy Hx].
  constructor; [by apply IH|]. apply Forall_app. split; [done|]. by constructor.
Qed.

(** The peers [es] and a new one stamped with the new tick. *)
Lemma in_order_push es mac l now ps :
  NoDup (l ++ [mac]) -> len (l ++ [mac]) <= MAX_PEERS -> es ++ [mkPeer mac now] ≡ₚ ps -> pe_mac <$> es = l ->
  StronglySorted Z.lt (last_used <$> es) -> Forall (fun e => last_used e < now) es ->
  in_order (mkPeers ps now) (l ++ [mac]).
Proof.
  intros Hnd Hlen Hp Hl Hs HF. split; [done|done|]. exists (es ++ [mkPeer mac now]). simpl. split_and!; [done|..].
  - by rewrite fmap_app, Hl.
  - rewrite fmap_app. apply sorted_snoc; [done|]. by apply Forall_fmap.
  - apply Forall_app. split; [|by repeat constructor]. eapply List.Forall_impl; [|exact HF]. simpl. lia.
Qed.

Lemma NoDup_snoc {A} (l : list A) x : NoDup l -> x ∉ l -> NoDup (l ++ [x]).
Proof.
  intros Hl Hx. apply list.NoDup_app. split; [done|]. split; [|apply NoDup_singleton]. by intros y Hy ->%list_elem_of_singleton.
Qed.

Lemma insert_mid {A} (l1 l2 : list A) x y : <[length l1 := y]> (l1 ++ x :: l2) = l1 ++ y :: l2.
Proof. rewrite <- (Nat.add_0_r (length l1)). by rewrite insert_app_r. Qed.

Lemma least_is_first es e :
  StronglySorted Z.lt (last_used <$> es) -> e ∈ es -> Forall (fun x => last_used e <= last_used x) es -> list.head es = Some e.
Proof.
  destruct es as [|e0 es']; [by intros _ ?%elem_of_nil|]. intros Hsort Hin Hleast. simpl. f_equal.
  rewrite fmap_cons in Hsort. apply StronglySorted_inv in Hsort as [_ HF]. apply elem_of_cons in Hin as [|Hin]; [done|].
  rewrite Forall_fmap in HF. apply Forall_cons_iff in Hleast as [H1 _].
  pose proof (proj1 (list.Forall_forall _ _) HF e Hin) as H2. simpl in H2. lia.
Qed.

Section Use.
Context (t : PeerTable) (l : list (list Z)) (mac : list Z) (es : list PeerEntry).
Context (Hnd : NoDup l) (Hlen : len l <= MAX_PEERS) (Hp : es ≡ₚ peers t) (Hmacs : pe_mac <$> es = l).
Context (Hsort : StronglySorted Z.lt (last_used <$> es)) (now : Z) (Hnow : Forall (fun e => last_used e < now) es).

Lemma known_peer e l1 l2 :
  peers t = l1 ++ e :: l2 -> pe_mac e = mac -> mac ∈ l /\ in_order (mkPeers (l1 ++ mkPeer mac now :: l2) now) (without mac l ++ [mac]).
Proof using All.
  intros Hps He. assert (Hin : e ∈ es) by (rewrite Hp, Hps; apply elem_of_app; right; by left).
  apply list_elem_of_split in Hin as (a & b & ->). rewrite fmap_app, fmap_cons, He in Hmacs. subst l.
  split; [apply elem_of_app; right; by left|]. rewrite without_mid by done. rewrite Hps in Hp.
  assert (Hab : a ++ b ≡ₚ l1 ++ l2) by (apply (Permutation_cons_inv (a := e)); by rewrite !Permutation_middle).
  rewrite <- fmap_app. eapply in_order_push; [..|reflexivity| |].
  - rewrite fmap_app. eapply NoDup_Permutation_proper; [|exact Hnd]. solve_Permutation.
  - unfold len in *. revert Hlen. rewrite fmap_app, !length_app. simpl. lia.
  - rewrite Hab. solve_Permutation.
  - rewrite fmap_app in *. by eapply sorted_mid.
  - apply Forall_app in Hnow as [Ha Hb]. apply Forall_app. split; [done|]. by apply Forall_cons_iff in Hb as [_ ?].
Qed.

Lemma full_table :
  mac ∉ l -> MAX_PEERS <= len l ->
  exists e l1 l2, min_by_key (peers t) = Some (length l1) /\ peers t = l1 ++ e :: l2 /\ list.head l = Some (pe_mac e) /\
    in_order (mkPeers (l1 ++ mkPeer mac now :: l2) now) (list.tail l ++ [mac]).
Proof using All.
  intros Hn Hfull. destruct (min_by_key (peers t)) as [i|] eqn:Hmin.
  2: { destruct (peers t); [|done]. apply Permutation_nil_r in Hp. subst es l. by vm_compute in Hfull. }
  apply min_by_key_spec in Hmin as (e & l1 & l2 & Hpt & <- & Hleast). rewrite Hpt in Hp. rewrite Hpt, <- Hp in Hleast.
  assert (Hh : list.head es = Some e) by (apply least_is_first; [done|rewrite Hp; apply elem_of_app; right; by left|done]).
  destruct es as [|e0 es']; [done|]. injection Hh as ->. subst l. exists e, l1, l2. split_and!; [done..|].
  apply Permutation_cons_app_inv in Hp. rewrite fmap_cons in *. apply list.NoDup_cons in Hnd as [_ Hnd'].
  apply StronglySorted_inv in Hsort as [Hsort' _]. apply Forall_cons_iff in Hnow as [_ Hnow']. rewrite len_cons in Hlen.
  eapply in_order_push; [..|reflexivity|done|done].
  - apply NoDup_snoc; [done|]. intros Hx. apply Hn. by right.
  - rewrite len_app. change (len [mac]) with 1. simpl. lia.
  - rewrite Hp. solve_Permutation.
Qed.
End Use.

(** One use of a peer, against the reference. *)
Lemma ensure_peer_step t l mac :
  in_order t l -> 0 <= tick t -> tick t + 1 < 2 ^ 64 ->
  exists t', ensure_peer t mac = Ok ((lru_step l mac).1, t') /\ in_order t' (lru_step l mac).2 /\ tick t' = tick t + 1.
Proof.
  intros [Hnd Hlen (es & Hp & Hmacs & Hsort & Htick)] H0 Hmax. unfold ensure_peer, saturating_add, lru_step.
  rewrite Z.min_l by lia. set (now := tick t + 1) in *.
  assert (Hnow : Forall (fun e => last_used e < now) es) by (eapply List.Forall_impl; [|exact Htick]; simpl; unfold now; lia).
  pose proof (touch_spec mac now (peers t)) as Ht. destruct (touch mac now (peers t)) as [ps|].
  - destruct Ht as (e & l1 & l2 & Hps & He & ->).
    destruct (known_peer t l mac es Hnd Hlen Hp Hmacs Hsort now Hnow e l1 l2 Hps He) as [Hin Ho].
    rewrite bool_decide_true by done. by eexists.
  - assert (Hn : mac ∉ l) by (by rewrite <- Hmacs, Hp). rewrite bool_decide_false by done.
    assert (Hps : len (peers t) = len l) by (unfold len; by rewrite <- Hmacs, length_fmap, Hp). rewrite Hps, Z.geb_leb.
    destruct (Z.leb_spec MAX_PEERS (len l)) as [Hfull|Hroom].
    + destruct (full_table t l mac es Hnd Hlen Hp Hmacs Hsort now Hnow Hn Hfull) as (e & l1 & l2 & Hmin & Hpt & Hh & Ho).
      rewrite Hmin, Hpt, index_app_mid by done. cbn [res_bind]. rewrite insert_mid, Hh. by eexists.
    + eexists. split_and!; [done| |done]. eapply in_order_push; [..|exact Hmacs|done|done].
      * by apply NoDup_snoc.
      * rewrite len_app. change (len [mac]) with 1. lia.
      * by rewrite Hp.
Qed.

(** Any sequence of uses. *)
Fixpoint use_peers (t : PeerTable) (macs : list (list Z)) : Res unit (list (option (list Z)) * PeerTable) :=
  match macs with
  | [] => Ok ([], t)
  | m :: macs =>
      let? '(out, t) := ensure_peer t m in
      let? '(outs, t) := use_peers t macs in
      Ok (out :: outs, t)
  end.

Fixpoint lru_run (l : list (list Z)) (macs : list (list Z)) : list (option (list Z)) * list (list Z) :=
  match macs with
  | [] => ([], l)
  | m :: macs => let '(out, l) := lru_step l m in let '(outs, l) := lru_run l macs in (out :: outs, l)
  end.

Lemma use_peers_lru macs : forall t l,
  in_order t l -> 0 <= tick t -> tick t + len macs < 2 ^ 64 ->
  exists t', use_peers t macs = Ok ((lru_run l macs).1, t') /\ in_order t' (lru_run l macs).2.
Proof.
  induction macs as [|m macs IH]; intros t l Ho H0 Hmax; [by exists t|]. rewrite len_cons in Hmax. pose proof (len_nonneg macs).
  destruct (ensure_peer_step t l m Ho H0 ltac:(lia)) as (t1 & E & Ho1 & Ht1). simpl. rewrite E. simpl.
  destruct (lru_step l m) as [out l1]. simpl in *.
  destruct (IH t1 l1 Ho1 ltac:(lia) ltac:(lia)) as (t' & E' & Ho'). rewrite E'. simpl.
  destruct (lru_run l1 macs). by exists t'.
Qed.

Lemma in_order_new : in_order peers_new [].
Proof. split; [constructor|done|]. exists []. split_and!; constructor. Qed.

Lemma in_order_contains t l mac : in_order t l -> contains t mac = bool_decide (mac ∈ l).
Proof.
  intros [_ _ (es & Hp & <- & _)]. unfold contains. apply eq_bool_prop_intro. rewrite bool_decide_spec, list_elem_of_fmap.
  setoid_rewrite Hp. split.
  - intros He%Is_true_eq_true. apply existsb_exists in He as (e & He & Hm). apply bool_decide_eq_true in Hm. exists e.
    by rewrite list_elem_of_In.
  - intros (e & -> & He). apply Is_true_eq_left, existsb_exists. exists e. rewrite <- list_elem_of_In. by rewrite bool_decide_true.
Qed.

(** ** The ring is a queue *)

(** [EspNowDriver::drain_one]: one frame into a fresh buffer. *)
Definition ring_drain_one (r : RxRing) : Res unit (option RecvFrame * RxRing) :=
  let r := mkRing (slots r) (head r) (tail r) (count r) 0 in
  let? '(meta, buf, r) := pop_into r (replicate 250 0) in
  match meta with
  | Some (mac, rssi, n) => let? bytes := slice buf 0 n in Ok (Some (mkRecvFrame mac rssi bytes), r)
  | None => Ok (None, r)
  end.

(** [raw_recv_cb]: what the radio callback does with a frame of [1..250] bytes once
    it holds the ring; a frame that finds no room is counted. *)
Definition ring_receive (r : RxRing) (rf : RecvFrame) : Res unit RxRing :=
  let? '(stored, r) := ring_push r (rf_peer_mac rf) (rssi rf) (rf_frame_data rf) in
  Ok (if stored : bool then r
      else mkRing (slots r) (head r) (tail r) (count r) (saturating_add 32 (drop_count r) 1)).

Definition slot_holds (s : RecvSlot) (rf : RecvFrame) : Prop :=
  slot_mac s = rf_peer_mac rf /\ slot_rssi s = rssi rf /\ slot_len s = len (rf_frame_data rf) /\
  take (length (rf_frame_data rf)) (slot_data s) = rf_frame_data rf.

Record ring_holds (r : RxRing) (q : list RecvFrame) : Prop := {
  rh_slots : len (slots r) = RX_RING_CAP;
  rh_data : Forall (fun s => len (slot_data s) = ESPNOW_MAX_DATA_SIZE) (slots r);
  rh_tail : 0 <= tail r < RX_RING_CAP;
  rh_count : count r = len q /\ len q <= RX_RING_CAP;
  rh_head : head r = (tail r + count r) mod RX_RING_CAP;
  rh_frames : forall (i : nat) rf, q !! i = Some rf ->
    len (rf_frame_data rf) <= ESPNOW_MAX_DATA_SIZE /\
    exists s, slots r !! Z.to_nat ((tail r + Z.of_nat i) mod RX_RING_CAP) = Some s /\ slot_holds s rf
}.

Lemma copy_prefix_Ok data payload :
  len payload <= len data -> copy_prefix data payload = Ok (payload ++ drop (length payload) data).
Proof. intros Hl. unfold copy_prefix. by rewrite slice_Ok by (pose proof (len_nonneg payload); lia). Qed.

Lemma ring_slot r q i : ring_holds r q -> 0 <= i < RX_RING_CAP -> exists s, index (E := unit) (slots r) i = Ok s /\ slots r !! Z.to_nat i = Some s /\ len (slot_data s) = ESPNOW_MAX_DATA_SIZE.
Proof.
  intros [Hs Hd _ _ _ _] Hi. destruct (lookup_lt_is_Some_2 (slots r) (Z.to_nat i)) as [s Hl]; [unfold len in Hs; lia|].
  exists s. split; [apply index_Ok; [lia|done]|]. split; [done|]. by eapply Forall_lookup_1 in Hd.
Qed.

(** Slots of a window of at most sixteen are distinct. *)
Lemma ring_distinct t i j : 0 <= i -> i < j < RX_RING_CAP + i -> (t + i) mod RX_RING_CAP <> (t + j) mod RX_RING_CAP.
Proof.
  unfold RX_RING_CAP. intros Hi Hj He.
  pose proof (Z.div_mod (t + i) 16). pose proof (Z.div_mod (t + j) 16). lia.
Qed.

Lemma ring_push_full r q mac rssi payload :
  ring_holds r q -> RX_RING_CAP <= len q \/ ESPNOW_MAX_DATA_SIZE < len payload -> ring_push r mac rssi payload = Ok (false, r).
Proof.
  intros Hr Hf. unfold ring_push. rewrite (proj1 (rh_count _ _ Hr)), Z.geb_leb, Z.gtb_ltb.
  destruct (Z.leb_spec RX_RING_CAP (len q)); [done|]. by destruct (Z.ltb_spec ESPNOW_MAX_DATA_SIZE (len payload)); [|lia].
Qed.

Lemma ring_push_room r q mac ri payload :
  ring_holds r q -> len q < RX_RING_CAP -> len payload <= ESPNOW_MAX_DATA_SIZE ->
  exists r', ring_push r mac ri payload = Ok (true, r') /\ ring_holds r' (q ++ [mkRecvFrame mac ri payload]).
Proof.
  intros Hr Hq Hp. unfold ring_push. destruct (rh_count _ _ Hr) as [Hc _]. rewrite Hc, Z.geb_leb, Z.gtb_ltb.
  destruct (Z.leb_spec RX_RING_CAP (len q)); [lia|]. destruct (Z.ltb_spec ESPNOW_MAX_DATA_SIZE (len payload)); [lia|]. cbn [orb].
  assert (Hh : 0 <= head r < RX_RING_CAP) by (rewrite (rh_head _ _ Hr); apply Z.mod_pos_bound; done).
  destruct (ring_slot r q (head r) Hr Hh) as (s & Hi & Hs & Hd). rewrite Hi. cbn [res_bind].
  rewrite copy_prefix_Ok by lia. cbn [res_bind]. eexists. split; [done|]. pose proof (len_nonneg q). pose proof (rh_tail _ _ Hr) as Ht.
  split; simpl.
  - unfold len. rewrite length_insert. apply Hr.
  - apply Forall_insert; [apply Hr|]. simpl. unfold len in *. rewrite length_app, length_drop. lia.
  - done.
  - rewrite len_app. change (len [_]) with 1. unfold RX_RING_CAP in *. split; lia.
  - rewrite (rh_head _ _ Hr), Hc. unfold RX_RING_CAP. rewrite Zplus_mod_idemp_l. f_equal. lia.
  - intros i rf Hrf. apply lookup_app_Some in Hrf as [Hrf|[Hle Hrf]].
    + destruct (rh_frames _ _ Hr i rf Hrf) as (Hl & s' & Hs' & Hh'). split; [done|]. exists s'. split; [|done].
      rewrite list_lookup_insert_ne; [done|]. apply lookup_lt_Some in Hrf. intros He. apply Z2Nat.inj in He; [|lia|apply Z.mod_pos_bound; done].
      rewrite (rh_head _ _ Hr), Hc in He. symmetry in He. apply ring_distinct in He; unfold len, RX_RING_CAP in *; lia.
    + destruct (i - length q)%nat eqn:Hi0; [|by apply lookup_lt_Some in Hrf; simpl in Hrf; lia]. injection Hrf as <-. split; [done|].
      eexists. split.
      * replace ((tail r + Z.of_nat i) mod RX_RING_CAP) with (head r).
        2: { rewrite (rh_head _ _ Hr), Hc. unfold len. do 2 f_equal. lia. }
        apply list_lookup_insert_eq. by apply lookup_lt_Some in Hs.
      * repeat split. simpl. by rewrite take_app_length.
Qed.

Lemma ring_drop_count r q n : ring_holds r q -> ring_holds (mkRing (slots r) (head r) (tail r) (count r) n) q.
Proof. intros [H1 H2 H3 H4 H5 H6]. by split. Qed.

Lemma ring_drain_empty r : ring_holds r [] -> exists r', ring_drain_one r = Ok (None, r') /\ ring_holds r' [].
Proof.
  intros Hr. unfold ring_drain_one, pop_into. simpl. rewrite (proj1 (rh_count _ _ Hr)). eexists. split; [done|].
  apply (ring_drop_count r [] 0) in Hr. by rewrite <- (proj1 (rh_count _ _ Hr)).
Qed.

Lemma ring_drain_next r rf q :
  ring_holds r (rf :: q) -> exists r', ring_drain_one r = Ok (Some rf, r') /\ ring_holds r' q.
Proof.
  intros Hr. unfold ring_drain_one, pop_into. cbn [count slots tail head drop_count]. destruct (rh_count _ _ Hr) as [Hc Hle].
  rewrite len_cons in Hc, Hle. pose proof (len_nonneg q). destruct (Z.eqb_spec (count r) 0); [lia|].
  pose proof (rh_tail _ _ Hr) as Ht. destruct (ring_slot r (rf :: q) (tail r) Hr Ht) as (s & Hi & Hs & Hd). rewrite Hi. cbn [res_bind].
  destruct (rh_frames _ _ Hr 0%nat rf eq_refl) as (Hl & s' & Hs' & Hm & Hrs & Hn & Hb).
  rewrite Z.add_0_r, Z.mod_small in Hs' by done. rewrite Hs in Hs'. injection Hs' as <-. pose proof (len_nonneg (rf_frame_data rf)).
  rewrite slice_Ok by lia. cbn [res_bind]. rewrite Z.sub_0_r, Hn. unfold len at 1. rewrite Nat2Z.id. change (Z.to_nat 0) with 0%nat.
  rewrite drop_0, Hb, copy_prefix_Ok by (unfold len at 2; rewrite length_replicate; done). cbn [res_bind]. rewrite slice_app_l by done. cbn [res_bind].
  eexists. split; [by rewrite Hm, Hrs; destruct rf|]. split; simpl.
  - apply Hr.
  - apply Hr.
  - by apply Z.mod_pos_bound.
  - split; lia.
  - rewrite (rh_head _ _ Hr). unfold RX_RING_CAP. rewrite Zplus_mod_idemp_l. f_equal. lia.
  - intros i rf' Hi'. destruct (rh_frames _ _ Hr (S i) rf' Hi') as (Hl' & s' & Hs' & Hh'). split; [done|]. exists s'. split; [|done].
    unfold RX_RING_CAP in *. rewrite Zplus_mod_idemp_l. rewrite <- Hs'. do 3 f_equal. lia.
Qed.

Inductive RingOp : Type := RReceive (rf : RecvFrame) | RDrain | RClear.

(** The ring's answers to a sequence of operations. *)
Fixpoint ring_run (r : RxRing) (ops : list RingOp) : Res unit (list (option RecvFrame)) :=
  match ops with
  | [] => Ok []
  | RReceive rf :: ops => let? r := ring_receive r rf in ring_run r ops
  | RDrain :: ops => let? '(o, r) := ring_drain_one r in let? os := ring_run r ops in Ok (o :: os)
  | RClear :: ops => ring_run (ring_clear r) ops
  end.

(** The reference: a queue of at most sixteen frames of at most 250 bytes; a frame
    that finds no room is dropped. *)
Fixpoint queue_run (q : list RecvFrame) (ops : list RingOp) : list (option RecvFrame) :=
  match ops with
  | [] => []
  | RReceive rf :: ops =>
      queue_run (if (len q <? RX_RING_CAP) && (len (rf_frame_data rf) <=? ESPNOW_MAX_DATA_SIZE) then q ++ [rf] else q) ops
  | RDrain :: ops => match q with [] => None :: queue_run [] ops | rf :: q => Some rf :: queue_run q ops end
  | RClear :: ops => queue_run [] ops
  end.

Lemma ring_clear_holds r q : ring_holds r q -> ring_holds (ring_clear r) [].
Proof. intros [H1 H2 H3 H4 H5 H6]. by split. Qed.

Lemma ring_run_queue ops : forall r q, ring_holds r q -> ring_run r ops = Ok (queue_run q ops).
Proof.
  induction ops as [|[rf| |] ops IH]; intros r q Hr; [done|..]; cbn [ring_run queue_run].
  - unfold ring_receive. destruct (Z.ltb_spec (len q) RX_RING_CAP) as [Hq|Hq]; [destruct (Z.leb_spec (len (rf_frame_data rf)) ESPNOW_MAX_DATA_SIZE) as [Hd|Hd]|].
    + destruct (ring_push_room r q (rf_peer_mac rf) (rssi rf) (rf_frame_data rf) Hr Hq Hd) as (r' & -> & Hr'). cbn [res_bind andb].
      apply IH. by destruct rf.
    + rewrite (ring_push_full r q) by (done || by right). cbn [res_bind andb]. by apply IH, ring_drop_count.
    + rewrite (ring_push_full r q) by (done || by left). cbn [res_bind andb]. by apply IH, ring_drop_count.
  - destruct q as [|rf q].
    + destruct (ring_drain_empty r Hr) as (r' & -> & Hr'). cbn [res_bind]. by rewrite (IH r' []).
    + destruct (ring_drain_next r rf q Hr) as (r' & -> & Hr'). cbn [res_bind]. by rewrite (IH r' q).
  - by apply IH, (ring_clear_holds r q).
Qed.

Lemma ring_holds_default : ring_holds ring_default [].
Proof. split; try done. by repeat constructor. Qed.

(** The modem's radio tables behave as their specifications.  Over any
    sequence of fewer than 2^64 sends, the peer table holds exactly the twenty
    peers used last and evicts, when full, the one used least recently; over any
    interleaving of received frames, drains and resets, the ring of received frames
    answers as a queue of sixteen frames of at most 250 bytes. *)
Lemma radio_tables_refine macs ops :
  len macs < 2 ^ 64 ->
  (exists t, use_peers peers_new macs = Ok ((lru_run [] macs).1, t) /\
     forall mac, contains t mac = bool_decide (mac ∈ (lru_run [] macs).2)) /\
  ring_run ring_default ops = Ok (queue_run [] ops).
Proof.
  intros Hm. split; [|apply ring_run_queue, ring_holds_default].
  destruct (use_peers_lru macs peers_new [] in_order_new) as (t & E & Ho); [done|done|]. exists t. split; [done|].
  intros mac. by apply in_order_contains.
Qed.

