(* ===== verification/ModemBridge.v ===== *)
(** * The modem's bridge (sonde-modem/src/bridge.rs)

    The main loop of the modem firmware: serial frames of the gateway are decoded
    and dispatched to the radio, the BLE server and the display; frames and events
    of these go back over the serial port.  The five hardware traits are classes
    over a state; [poll] is one iteration of the loop. *)

From S2P Require Import Prelude Modem ModemRadio.
Open Scope list_scope.
Open Scope Z_scope.

(** ** Build constants *)

(** A component of the crate's version; anything else stops the build. *)
Fixpoint parse_digits_u8 (val : Z) (s : list Z) : Res unit Z :=
  match s with
  | [] => Ok val
  | b :: s =>
      if (b <? 48) || (b >? 57) then Panic else
      let val := val * 10 + (b - 48) in
      if val >? 255 then Panic else parse_digits_u8 val s
  end.

Definition parse_version_component (s : list Z) : Res unit Z :=
  if len s =? 0 then Panic else parse_digits_u8 0 s.

Definition hex_nibble (c : Z) : Z :=
  if (48 <=? c) && (c <=? 57) then c - 48 else
  if (97 <=? c) && (c <=? 102) then c - 97 + 10 else
  if (65 <=? c) && (c <=? 70) then c - 65 + 10 else 0xFF.

Fixpoint hex_pairs (n : nat) (hex : list Z) : option (list Z) :=
  match n, hex with
  | O, _ => Some []
  | S n, h :: l :: hex =>
      let hi := hex_nibble h in let lo := hex_nibble l in
      if (hi =? 0xFF) || (lo =? 0xFF) then None else
      out ← hex_pairs n hex; Some (Z.lor (Z.shiftl hi 4) lo :: out)
  | _, _ => None
  end.

Definition decode_firmware_commit (hex : list Z) : list Z :=
  if len hex <? 16 then replicate 8 0 else default (replicate 8 0) (hex_pairs 8 hex).

Definition MAX_RX_FRAMES_PER_POLL : nat := 16.
Definition MAX_BLE_EVENTS_PER_POLL : nat := 16.
Definition MAX_DRAIN : nat := 256.
Definition RX_BUF_SIZE : Z := 64.

(** ** The hardware *)

(** The bytes [read] puts into the buffer, and whether the link just came back. *)
Class SerialPort (U : Type) : Type := {
  sp_read : U -> list Z * bool * U;
  sp_write : U -> list Z -> bool * U;
  sp_is_connected : U -> bool
}.

(** [set_channel] returns the reason of a failure.  The counters are shared with the
    driver, which counts in [send] and in its callbacks; what these count is seen at
    the next send or drain. *)
Class Radio (R : Type) : Type := {
  radio_send : R -> ModemCounters -> list Z -> list Z -> bool * R * ModemCounters;
  radio_drain_one : R -> ModemCounters -> option RecvFrame * R * ModemCounters;
  radio_set_channel : R -> Z -> option (list Z) * R;
  radio_channel : R -> Z;
  radio_scan_channels : R -> list (Z * Z * Z) * R;
  radio_mac_address : R -> list Z;
  radio_reset_state : R -> R
}.

Inductive BleEvent : Type :=
  | EvRecv (data : list Z)
  | EvConnected (peer_addr : list Z) (mtu : Z)
  | EvDisconnected (peer_addr : list Z) (reason : Z)
  | EvPairingConfirm (passkey : Z).

Class Ble (B : Type) : Type := {
  ble_enable : B -> B;
  ble_disable : B -> B;
  ble_indicate : B -> list Z -> B;
  ble_pairing_confirm_reply : B -> bool -> B;
  ble_advance_indication : B -> B;
  ble_check_pairing_timeout : B -> B;
  ble_check_encryption_fallback : B -> B;
  ble_drain_event : B -> option BleEvent * B
}.

Class ButtonPoll (T : Type) : Type := button_poll : T -> option Z * T.

Inductive DisplayError : Type := WriteFailed.

Class Display (D : Type) : Type := {
  display_queue_frame : D -> list Z -> D;
  display_reset : D -> D;
  display_poll : D -> option DisplayError * D
}.

(** The stand-ins of builds without the hardware. *)
Inductive NoBle : Type := no_ble.
Inductive NoButton : Type := no_button.
Inductive NoDisplay : Type := no_display.

#[export] Instance no_ble_driver : Ble NoBle := {
  ble_enable b := b;
  ble_disable b := b;
  ble_indicate b _ := b;
  ble_pairing_confirm_reply b _ := b;
  ble_advance_indication b := b;
  ble_check_pairing_timeout b := b;
  ble_check_encryption_fallback b := b;
  ble_drain_event b := (None, b)
}.

#[export] Instance no_button_poll : ButtonPoll NoButton := fun t => (None, t).

#[export] Instance no_display_driver : Display NoDisplay := {
  display_queue_frame d _ := d;
  display_reset d := d;
  display_poll d := (None, d)
}.

(** The milliseconds since boot that [ModemCounters] reads. *)
Class BootClock (K : Type) : Type := elapsed_ms : K -> Z * K.

(** ** The button

    Instants are nanoseconds on a monotonic clock. *)

Definition BUTTON_DEBOUNCE_MS : Z := 30.
Definition BUTTON_LONG_THRESHOLD : Z := 1000000000.

Inductive ButtonState : Type :=
  | Idle
  | DebouncePress (since : Z)
  | Pressed (press_start : Z)
  | DebounceRelease (press_start since : Z).

(** [Instant::duration_since] saturates at zero. *)
Definition since_instant (now earlier : Z) : Z := Z.max 0 (now - earlier).

Definition poll_at (s : ButtonState) (now : Z) (pressed : bool) : option Z * ButtonState :=
  let debounce := BUTTON_DEBOUNCE_MS * 1000000 in
  match s with
  | Idle => (None, if pressed then DebouncePress now else Idle)
  | DebouncePress since =>
      (None,
       if negb pressed then Idle
       else if since_instant now since >=? debounce then Pressed (since + debounce) else DebouncePress since)
  | Pressed press_start => (None, if negb pressed then DebounceRelease press_start now else Pressed press_start)
  | DebounceRelease press_start since =>
      if pressed then (None, Pressed press_start)
      else if since_instant now since >=? debounce then
        let duration := since_instant (since + debounce) press_start in
        (Some (if duration >=? BUTTON_LONG_THRESHOLD then BUTTON_TYPE_LONG else BUTTON_TYPE_SHORT), Idle)
      else (None, DebounceRelease press_start since)
  end.

(** [ButtonScanner] over a source of samples of the clock and the pin. *)
Class ButtonPin (P : Type) : Type := sample : P -> Z * bool * P.

#[export] Instance button_scanner {P} `{ButtonPin P} : ButtonPoll (P * ButtonState) := fun '(p, s) =>
  let '(now, pressed, p) := sample p in
  let '(o, s) := poll_at s now pressed in (o, (p, s)).

(** ** State *)

Record DisplayTransferState := mkTransfer { transfer_id : Z; next_index : Z; framebuffer : list Z }.

Section Bridge.
Context {U R B T D K : Type} `{SerialPort U, Radio R, Ble B, ButtonPoll T, Display D, BootClock K}.
(** [FIRMWARE_VERSION] and [FIRMWARE_COMMIT], constants of the build. *)
Context (FIRMWARE_VERSION FIRMWARE_COMMIT : list Z).

Record Bridge := mkBridge {
  usb : U;
  radio : R;
  ble : B;
  button : T;
  display : D;
  display_transfer : option DisplayTransferState;
  ble_enabled : bool;
  counters : ModemCounters;
  decoder : FrameDecoder;
  clock : K
}.

Definition set_usb (b : Bridge) x := mkBridge x (radio b) (ble b) (button b) (display b) (display_transfer b) (ble_enabled b) (counters b) (decoder b) (clock b).
Definition set_radio (b : Bridge) x := mkBridge (usb b) x (ble b) (button b) (display b) (display_transfer b) (ble_enabled b) (counters b) (decoder b) (clock b).
Definition set_ble (b : Bridge) x := mkBridge (usb b) (radio b) x (button b) (display b) (display_transfer b) (ble_enabled b) (counters b) (decoder b) (clock b).
Definition set_button (b : Bridge) x := mkBridge (usb b) (radio b) (ble b) x (display b) (display_transfer b) (ble_enabled b) (counters b) (decoder b) (clock b).
Definition set_display (b : Bridge) x := mkBridge (usb b) (radio b) (ble b) (button b) x (display_transfer b) (ble_enabled b) (counters b) (decoder b) (clock b).
Definition set_transfer (b : Bridge) x := mkBridge (usb b) (radio b) (ble b) (button b) (display b) x (ble_enabled b) (counters b) (decoder b) (clock b).
Definition set_enabled (b : Bridge) x := mkBridge (usb b) (radio b) (ble b) (button b) (display b) (display_transfer b) x (counters b) (decoder b) (clock b).
Definition set_counters (b : Bridge) x := mkBridge (usb b) (radio b) (ble b) (button b) (display b) (display_transfer b) (ble_enabled b) x (decoder b) (clock b).
Definition set_decoder (b : Bridge) x := mkBridge (usb b) (radio b) (ble b) (button b) (display b) (display_transfer b) (ble_enabled b) (counters b) x (clock b).
Definition set_clock (b : Bridge) x := mkBridge (usb b) (radio b) (ble b) (button b) (display b) (display_transfer b) (ble_enabled b) (counters b) (decoder b) x.

(** [with_ble_button_and_display]; BLE is off from the start. *)
Definition bridge_new (u : U) (r : R) (bl : B) (bt : T) (d : D) (k : K) : Bridge :=
  mkBridge u r (ble_disable bl) bt d None false counters_new decoder_new k.

(** ** Messages to the gateway *)

Definition send_msg (b : Bridge) (msg : ModemMessage) : Res unit (bool * Bridge) :=
  match encode_modem_frame msg with
  | Ok frame => let '(ok, u) := sp_write (usb b) frame in Ok (ok, set_usb b u)
  | Err _ => Ok (false, b)
  | Panic => Panic
  | UB => UB
  end.

(** A message whose fate the caller ignores. *)
Definition send_msg_ (b : Bridge) (msg : ModemMessage) : Res unit Bridge :=
  let? '(_, b) := send_msg b msg in Ok b.

Definition send_event_error (b : Bridge) (error_code : Z) : Res unit Bridge := send_msg_ b (MEventError (mkEventError error_code)).

Definition abort_display_transfer_invalid_frame (b : Bridge) : Res unit Bridge :=
  send_event_error (set_transfer b None) EVENT_ERROR_INVALID_FRAME.

Definition send_modem_ready (b : Bridge) : Res unit Bridge :=
  send_msg_ b (MModemReady (mkModemReady FIRMWARE_VERSION (radio_mac_address (radio b)) FIRMWARE_COMMIT)).

Definition send_display_frame_ack (b : Bridge) (id next : Z) : Res unit Bridge := send_msg_ b (MDisplayFrameAck (mkAck id next)).

(** ** Commands of the gateway *)

Fixpoint drain_events (n : nat) (bl : B) : B :=
  match n with
  | O => bl
  | S n => match ble_drain_event bl with (Some _, bl) => drain_events n bl | (None, bl) => bl end
  end.

Definition handle_reset (b : Bridge) : Res unit Bridge :=
  let b := set_radio b (radio_reset_state (radio b)) in
  let b := set_display b (display_reset (display b)) in
  let b := set_transfer b None in
  let b := set_ble b (drain_events MAX_DRAIN (ble_disable (ble b))) in
  let b := set_enabled b false in
  let '(now, k) := elapsed_ms (clock b) in
  let b := set_counters (set_clock b k) (counters_reset (counters b) now) in
  send_modem_ready (set_decoder b (reset (decoder b))).

Definition handle_send_frame (b : Bridge) (sf : SendFrame) : Bridge :=
  let '(_, r, c) := radio_send (radio b) (counters b) (sf_peer_mac sf) (sf_frame_data sf) in set_counters (set_radio b r) c.

Definition handle_set_channel (b : Bridge) (channel : Z) : Res unit Bridge :=
  let '(failed, r) := radio_set_channel (radio b) channel in
  let b := set_radio b r in
  match failed with
  | None => send_msg_ b (MSetChannelAck channel)
  | Some reason => send_msg_ b (MError (mkModemError MODEM_ERR_CHANNEL_SET_FAILED reason))
  end.

Definition handle_get_status (b : Bridge) : Res unit Bridge :=
  let '(now, k) := elapsed_ms (clock b) in
  send_msg_ (set_clock b k)
    (MStatus (mkModemStatus (radio_channel (radio b)) (counters_uptime_s (counters b) now)
      (c_tx (counters b)) (c_rx (counters b)) (c_tx_fail (counters b)))).

Definition handle_scan_channels (b : Bridge) : Res unit Bridge :=
  let '(results, r) := radio_scan_channels (radio b) in
  send_msg_ (set_radio b r) (MScanResult (mkScanResult ((fun '(ch, count, rssi) => mkScanEntry ch count rssi) <$> results))).

Definition handle_display_frame_begin (b : Bridge) (begin : DisplayFrameBegin) : Res unit Bridge :=
  let b := set_transfer b (Some (mkTransfer (dfb_transfer_id begin) 0 (replicate (Z.to_nat DISPLAY_FRAME_BODY_SIZE) 0))) in
  send_display_frame_ack b (dfb_transfer_id begin) 0.

(** [framebuffer[start..end].copy_from_slice(data)]. *)
Definition copy_range (fb : list Z) (start end_ : Z) (data : list Z) : Res unit (list Z) :=
  let? target := slice fb start end_ in
  if len target =? len data then Ok (list_inserts (Z.to_nat start) data fb) else Panic.

Definition handle_display_frame_chunk (b : Bridge) (chunk : DisplayFrameChunk) : Res unit Bridge :=
  match display_transfer b with
  | None => abort_display_transfer_invalid_frame b
  | Some current =>
      if negb (dfc_transfer_id chunk =? transfer_id current) then abort_display_transfer_invalid_frame b else
      if negb (chunk_index chunk =? next_index current)
      then send_display_frame_ack b (transfer_id current) (next_index current) else
      let start := chunk_index chunk * DISPLAY_FRAME_CHUNK_SIZE in
      let? fb := copy_range (framebuffer current) start (start + DISPLAY_FRAME_CHUNK_SIZE) (chunk_data chunk) in
      let? next := arith_u true 8 (next_index current + 1) in
      let b := set_transfer b (Some (mkTransfer (transfer_id current) next fb)) in
      let? b := send_display_frame_ack b (transfer_id current) next in
      Ok (if next =? DISPLAY_FRAME_CHUNK_COUNT
          then set_transfer (set_display b (display_queue_frame (display b) fb)) None else b)
  end.

Definition handle_ble_indicate (b : Bridge) (data : list Z) : Bridge := set_ble b (ble_indicate (ble b) data).
Definition handle_ble_enable (b : Bridge) : Bridge := set_enabled (set_ble b (ble_enable (ble b))) true.
Definition handle_ble_disable (b : Bridge) : Bridge := set_enabled (set_ble b (ble_disable (ble b))) false.
Definition handle_ble_pairing_confirm_reply (b : Bridge) (reply : BlePairingConfirmReply) : Bridge :=
  set_ble b (ble_pairing_confirm_reply (ble b) (accept reply)).

Definition dispatch (b : Bridge) (msg : ModemMessage) : Res unit Bridge :=
  match msg with
  | MReset => handle_reset b
  | MSendFrame sf => Ok (handle_send_frame b sf)
  | MSetChannel ch => handle_set_channel b ch
  | MGetStatus => handle_get_status b
  | MScanChannels => handle_scan_channels b
  | MDisplayFrameBegin begin => handle_display_frame_begin b begin
  | MDisplayFrameChunk chunk => handle_display_frame_chunk b chunk
  | MBleIndicate ind => Ok (handle_ble_indicate b (bi_ble_data ind))
  | MBleEnable => Ok (handle_ble_enable b)
  | MBleDisable => Ok (handle_ble_disable b)
  | MBlePairingConfirmReply reply => Ok (handle_ble_pairing_confirm_reply b reply)
  | _ => Ok b
  end.

(** ** The main loop *)

(** Whether a malformed frame aborts a display transfer. *)
Definition aborts_display (e : ModemCodecError) : bool :=
  match e with
  | BodyTooShort t _ _ | BodyTooLong t _ _ => (t =? MODEM_MSG_DISPLAY_FRAME_BEGIN) || (t =? MODEM_MSG_DISPLAY_FRAME_CHUNK)
  | InvalidFieldValue t _ _ => t =? MODEM_MSG_DISPLAY_FRAME_CHUNK
  | _ => false
  end.

(** The decode loop; [None] is a run cut short by the fuel. *)
Fixpoint serial_loop (fuel : nat) (b : Bridge) : option (Res unit Bridge) :=
  match fuel with
  | O => None
  | S fuel =>
      let '(r, d) := decode (decoder b) in
      let b := set_decoder b d in
      let continue (r : Res unit Bridge) :=
        match r with Ok b => serial_loop fuel b | Err e => Some (Err e) | Panic => Some Panic | UB => Some UB end in
      match r with
      | Ok (Some msg) => continue (dispatch b msg)
      | Ok None => Some (Ok b)
      | Err EmptyFrame => continue (Ok b)
      | Err (FrameTooLarge _) => Some (Ok (set_decoder b (reset d)))
      | Err e => continue (if aborts_display e then abort_display_transfer_invalid_frame b else Ok b)
      | Panic => Some Panic
      | UB => Some UB
      end
  end.

Fixpoint forward_frames (n : nat) (b : Bridge) : Res unit Bridge :=
  match n with
  | O => Ok b
  | S n =>
      let '(o, r, c) := radio_drain_one (radio b) (counters b) in
      let b := set_counters (set_radio b r) c in
      match o with
      | Some rf =>
          let? '(ok, b) := send_msg b (MRecvFrame rf) in
          forward_frames n (if ok : bool then set_counters b (inc_rx (counters b)) else b)
      | None => Ok b
      end
  end.

Definition event_message (e : BleEvent) : ModemMessage :=
  match e with
  | EvRecv data => MBleRecv (mkBleRecv data)
  | EvConnected a m => MBleConnected (mkBleConnected a m)
  | EvDisconnected a r => MBleDisconnected (mkBleDisconnected a r)
  | EvPairingConfirm p => MBlePairingConfirm (mkPairingConfirm p)
  end.

Fixpoint forward_events (n : nat) (b : Bridge) : Res unit Bridge :=
  match n with
  | O => Ok b
  | S n =>
      match ble_drain_event (ble b) with
      | (Some e, bl) => let? b := send_msg_ (set_ble b bl) (event_message e) in forward_events n b
      | (None, bl) => Ok (set_ble b bl)
      end
  end.

(** What [poll] does after the serial frames. *)
Definition poll_devices (b : Bridge) : Res unit Bridge :=
  let? b := forward_frames MAX_RX_FRAMES_PER_POLL b in
  let b := set_ble b (ble_check_encryption_fallback (ble_check_pairing_timeout (ble_advance_indication (ble b)))) in
  let? b := forward_events MAX_BLE_EVENTS_PER_POLL b in
  let '(pressed, t) := button_poll (button b) in
  let b := set_button b t in
  let? b := match pressed with Some ty => send_msg_ b (MEventButton (mkEventButton ty)) | None => Ok b end in
  let '(e, d) := display_poll (display b) in
  let b := set_display b d in
  match e with Some WriteFailed => send_event_error b EVENT_ERROR_DISPLAY_WRITE_FAILED | None => Ok b end.

(** What [poll] does before decoding. *)
Definition poll_read (b : Bridge) : Res unit Bridge :=
  let '(bytes, reconnected, u) := sp_read (usb b) in
  let b := set_usb b u in
  let? b := if reconnected : bool then send_modem_ready (set_decoder b (reset (decoder b))) else Ok b in
  if len bytes >? RX_BUF_SIZE then Panic else
  Ok (if len bytes >? 0 then set_decoder b (push (decoder b) bytes) else b).

Definition poll (fuel : nat) (b : Bridge) : option (Res unit Bridge) :=
  match poll_read b with
  | Ok b =>
      match serial_loop fuel b with
      | Some (Ok b) => Some (poll_devices b)
      | r => r
      end
  | r => Some r
  end.
End Bridge.

(** [Bridge::new], [with_ble] and [with_ble_and_button]. *)
Definition bridge_host {U R K} (u : U) (r : R) (k : K) : @Bridge U R NoBle NoButton NoDisplay K :=
  mkBridge u r no_ble no_button no_display None false counters_new decoder_new k.
Definition with_ble {U R B K} `{Ble B} (u : U) (r : R) (bl : B) (k : K) : @Bridge U R B NoButton NoDisplay K :=
  mkBridge u r (ble_disable bl) no_button no_display None false counters_new decoder_new k.
Definition with_ble_and_button {U R B T K} `{Ble B} (u : U) (r : R) (bl : B) (t : T) (k : K) : @Bridge U R B T NoDisplay K :=
  mkBridge u r (ble_disable bl) t no_display None false counters_new decoder_new k.
