(* ===== verification/ModemTotal.v ===== *)
(** * The bridge survives every input

    Whatever bytes the gateway's side of the serial line delivers and whatever the
    hardware answers, one iteration of the modem's main loop ends, does not panic,
    and leaves a well-formed state. *)

From S2P Require Import Prelude Modem ModemProofs ModemStream ModemRadio ModemBridge.
Open Scope list_scope.
Open Scope Z_scope.

(** Encoding reports errors; it never panics. *)
Lemma encode_total msg : res_post (fun _ => True) False (encode_modem_frame msg).
Proof.
  unfold encode_modem_frame. apply (res_post_bind (fun _ => True)).
  - destruct msg; simpl; unfold encode_ble_data; repeat case_match; done.
  - intros [t body] _. by case_match.
Qed.

(** A transfer in progress has room for the chunk it expects. *)
Definition transfer_ok (o : option DisplayTransferState) : Prop :=
  match o with
  | Some s => byte_ok (transfer_id s) /\ 0 <= next_index s < DISPLAY_FRAME_CHUNK_COUNT /\ len (framebuffer s) = DISPLAY_FRAME_BODY_SIZE
  | None => True
  end.

(** The port fills at most the buffer it is given. *)
Class SerialTyped (U : Type) `{SerialPort U} : Prop :=
  read_typed : forall u, let '(bytes, _, _) := sp_read u in len bytes <= RX_BUF_SIZE /\ bytes_ok bytes.

Section Total.
Context {U R B T D K : Type} `{SerialTyped U, Radio R, Ble B, ButtonPoll T, Display D, BootClock K}.
Context (FIRMWARE_VERSION FIRMWARE_COMMIT : list Z).

Abbreviation Br := (@Bridge U R B T D K).

Definition bridge_ok (b : Br) : Prop :=
  transfer_ok (display_transfer b) /\ bytes_ok (buf (decoder b)) /\ len (buf (decoder b)) <= DECODER_BUF_CAP.

Lemma set_usb_id (b : Br) : set_usb b (usb b) = b.
Proof. by destruct b. Qed.

(** A message changes nothing but the port. *)
Lemma send_msg_usb (b : Br) msg : exists ok u, send_msg b msg = Ok (ok, set_usb b u).
Proof.
  unfold send_msg. pose proof (encode_total msg) as He. destruct (encode_modem_frame msg) as [frame|e| |]; simpl in He; try done.
  - destruct (sp_write (usb b) frame) as [ok u]. by exists ok, u.
  - exists false, (usb b). by rewrite set_usb_id.
Qed.

Lemma send_msg__usb (b : Br) msg : exists u, send_msg_ b msg = Ok (set_usb b u).
Proof. unfold send_msg_. destruct (send_msg_usb b msg) as (ok & u & ->). by exists u. Qed.

(** The length of a framebuffer is kept by a chunk that fits. *)
Lemma copy_range_Ok fb start data :
  0 <= start -> start + len data <= len fb ->
  copy_range fb start (start + len data) data = Ok (list_inserts (Z.to_nat start) data fb).
Proof.
  intros Hs Hl. pose proof (len_nonneg data). unfold copy_range. rewrite slice_Ok by lia. cbn [res_bind].
  unfold len at 1. rewrite length_take, length_drop.
  destruct (Z.eqb_spec (Z.of_nat (Nat.min (Z.to_nat (start + len data - start)) (length fb - Z.to_nat start))) (len data)) as [|Hn]; [done|].
  exfalso. apply Hn. unfold len in *. lia.
Qed.

(** The chunk that a transfer expects. *)
Lemma chunk_accepted (b : Br) s data :
  display_transfer b = Some s -> transfer_ok (Some s) -> len data = DISPLAY_FRAME_CHUNK_SIZE ->
  let fb := list_inserts (Z.to_nat (next_index s * DISPLAY_FRAME_CHUNK_SIZE)) data (framebuffer s) in
  exists u, handle_display_frame_chunk b (mkChunk (transfer_id s) (next_index s) data) =
    Ok (let b1 := set_usb (set_transfer b (Some (mkTransfer (transfer_id s) (next_index s + 1) fb))) u in
        if next_index s + 1 =? DISPLAY_FRAME_CHUNK_COUNT
        then set_transfer (set_display b1 (display_queue_frame (display b1) fb)) None else b1) /\
    send_display_frame_ack (set_transfer b (Some (mkTransfer (transfer_id s) (next_index s + 1) fb))) (transfer_id s) (next_index s + 1) =
      Ok (set_usb (set_transfer b (Some (mkTransfer (transfer_id s) (next_index s + 1) fb))) u).
Proof.
  intros Hs (_ & Hn & Hf) Hd fb. unfold handle_display_frame_chunk. rewrite Hs. cbn [dfc_transfer_id chunk_index chunk_data].
  rewrite !Z.eqb_refl. cbn [negb]. unfold DISPLAY_FRAME_CHUNK_COUNT, DISPLAY_FRAME_CHUNK_SIZE, DISPLAY_FRAME_BODY_SIZE in *.
  rewrite <- Hd, copy_range_Ok by lia. cbn [res_bind]. rewrite Hd. fold fb.
  rewrite arith_u_in_range by lia. cbn [res_bind]. unfold send_display_frame_ack.
  destruct (send_msg__usb (set_transfer b (Some (mkTransfer (transfer_id s) (next_index s + 1) fb)))
    (MDisplayFrameAck (mkAck (transfer_id s) (next_index s + 1)))) as [u Hu].
  exists u. rewrite Hu. split; done.
Qed.

(** What a command may do to the state: the transfer stays well formed and the
    decoder is left alone, or emptied by a reset. *)
Definition command_keeps (b b' : Br) : Prop :=
  transfer_ok (display_transfer b') /\ (decoder b' = decoder b \/ decoder b' = decoder_new).

Lemma send_keeps (b b0 : Br) msg :
  command_keeps b b0 -> exists b', send_msg_ b0 msg = Ok b' /\ command_keeps b b'.
Proof. intros Hk. destruct (send_msg__usb b0 msg) as [u ->]. by exists (set_usb b0 u). Qed.

Lemma keeps_refl (b : Br) : transfer_ok (display_transfer b) -> command_keeps b b.
Proof. split; [done|by left]. Qed.

Lemma chunk_keeps (b : Br) chunk :
  transfer_ok (display_transfer b) -> msg_ok (MDisplayFrameChunk chunk) ->
  exists b', handle_display_frame_chunk b chunk = Ok b' /\ command_keeps b b'.
Proof.
  intros Hb (_ & _ & Hl & _). destruct (display_transfer b) as [s|] eqn:Hs.
  2: { unfold handle_display_frame_chunk. rewrite Hs. apply send_keeps. split; [done|by left]. }
  destruct (Z.eqb_spec (dfc_transfer_id chunk) (transfer_id s)) as [Hid|Hid].
  2: { unfold handle_display_frame_chunk. rewrite Hs, (proj2 (Z.eqb_neq _ _) Hid). apply send_keeps. split; [done|by left]. }
  destruct (Z.eqb_spec (chunk_index chunk) (next_index s)) as [Hn|Hn].
  2: { unfold handle_display_frame_chunk. rewrite Hs, (proj2 (Z.eqb_eq _ _) Hid), (proj2 (Z.eqb_neq _ _) Hn).
       apply send_keeps, keeps_refl. by rewrite Hs. }
  destruct chunk as [i c data]. simpl in Hid, Hn, Hl. subst i c.
  destruct (chunk_accepted b s data Hs Hb Hl) as (u & -> & _). eexists. split; [done|].
  destruct Hb as (Hi & Hx & Hf). unfold DISPLAY_FRAME_CHUNK_COUNT in *. destruct (Z.eqb_spec (next_index s + 1) 8); split; try done; try by left.
  simpl. split_and!; [done|unfold DISPLAY_FRAME_CHUNK_COUNT; lia..|]. unfold len. by rewrite length_inserts.
Qed.

Lemma dispatch_keeps (b : Br) msg :
  transfer_ok (display_transfer b) -> msg_ok msg ->
  exists b', dispatch FIRMWARE_VERSION FIRMWARE_COMMIT b msg = Ok b' /\ command_keeps b b'.
Proof.
  intros Hb Hm. pose proof (keeps_refl b Hb) as Hr. destruct msg; simpl; try (eexists; split; [done|done]).
  - unfold handle_reset. destruct (elapsed_ms _). apply send_keeps. split; [done|by right].
  - unfold handle_send_frame. destruct (radio_send _ _ _ _) as [[? ?] ?]. eexists. by split.
  - unfold handle_set_channel. destruct (radio_set_channel _ _) as [[reason|] r]; by apply send_keeps.
  - unfold handle_get_status. destruct (elapsed_ms _). by apply send_keeps.
  - unfold handle_scan_channels. destruct (radio_scan_channels _). by apply send_keeps.
  - apply send_keeps. split; [|by left]. split; [exact Hm|]. split; [done|]. by vm_compute.
  - by apply chunk_keeps.
Qed.

Lemma forward_frames_keeps n : forall b : Br, transfer_ok (display_transfer b) ->
  exists b', forward_frames n b = Ok b' /\ transfer_ok (display_transfer b') /\ decoder b' = decoder b.
Proof.
  induction n as [|n IH]; intros b Hb; simpl; [by eexists|]. destruct (radio_drain_one (radio b) (counters b)) as [[[rf|] r] c]; [|by eexists].
  destruct (send_msg_usb (set_counters (set_radio b r) c) (MRecvFrame rf)) as (ok & u & ->). cbn [res_bind].
  set (b0 := set_usb _ u). destruct ok.
  - by destruct (IH (set_counters b0 (inc_rx (counters b0)))) as (b' & -> & Ht & Hd); [|exists b'].
  - by destruct (IH b0) as (b' & -> & Ht & Hd); [|exists b'].
Qed.

Lemma forward_events_keeps n : forall b : Br, transfer_ok (display_transfer b) ->
  exists b', forward_events n b = Ok b' /\ transfer_ok (display_transfer b') /\ decoder b' = decoder b.
Proof.
  induction n as [|n IH]; intros b Hb; simpl; [by eexists|]. destruct (ble_drain_event (ble b)) as [[e|] bl]; [|by eexists].
  destruct (send_msg__usb (set_ble b bl) (event_message e)) as [u ->]. simpl. by apply (IH (set_usb (set_ble b bl) u)).
Qed.

Lemma poll_devices_keeps (b : Br) : transfer_ok (display_transfer b) ->
  exists b', poll_devices b = Ok b' /\ transfer_ok (display_transfer b') /\ decoder b' = decoder b.
Proof.
  intros Hb. unfold poll_devices. destruct (forward_frames_keeps MAX_RX_FRAMES_PER_POLL b Hb) as (b1 & -> & Ht1 & Hd1). cbn [res_bind].
  match goal with |- context [forward_events _ ?x] => destruct (forward_events_keeps MAX_BLE_EVENTS_PER_POLL x Ht1) as (b2 & -> & Ht2 & Hd2) end.
  cbn [res_bind]. rewrite <- Hd1. change (decoder b1) with (decoder (set_ble b1 (ble_check_encryption_fallback (ble_check_pairing_timeout (ble_advance_indication (ble b1)))))).
  rewrite <- Hd2. clear Hd1 Hd2. destruct (button_poll (button b2)) as [[ty|] t].
  - destruct (send_msg__usb (set_button b2 t) (MEventButton (mkEventButton ty))) as [u ->]. cbn [res_bind].
    destruct (display_poll _) as [[[]|] d]; [|by eexists]. unfold send_event_error.
    match goal with |- context [send_msg_ ?x ?m] => destruct (send_msg__usb x m) as [u' ->] end. by eexists.
  - cbn [res_bind]. destruct (display_poll _) as [[[]|] d]; [|by eexists]. unfold send_event_error.
    match goal with |- context [send_msg_ ?x ?m] => destruct (send_msg__usb x m) as [u' ->] end. by eexists.
Qed.

(** ** The decode loop *)

Lemma serial_loop_total fuel : forall b : Br,
  bridge_ok b -> (length (buf (decoder b)) < fuel)%nat ->
  exists b', serial_loop FIRMWARE_VERSION FIRMWARE_COMMIT fuel b = Some (Ok b') /\ bridge_ok b'.
Proof.
  induction fuel as [|fuel IH]; intros b (Ht & Hb & Hl) Hf; [lia|]. cbn [serial_loop]. destruct (decoder b) as [l] eqn:Hd. cbn [buf] in *.
  destruct (decode_view (mkDecoder l) Hb) as [E|[[_ [n E]]|(s & rest & Hs & E)]].
  - rewrite E. eexists. split; [done|]. by repeat split.
  - rewrite E. eexists. split; [done|]. by repeat split.
  - cbn [buf] in E. subst l. rewrite (decode_seg s rest Hs). pose proof (seg_bytes_length s) as Hsl.
    apply Forall_app in Hb as [_ Hbr]. rewrite length_app in Hf. rewrite len_app in Hl. pose proof (len_nonneg (seg_bytes s)).
    assert (Hgo : forall b1 : Br, command_keeps (set_decoder b (mkDecoder rest)) b1 ->
      exists b', serial_loop FIRMWARE_VERSION FIRMWARE_COMMIT fuel b1 = Some (Ok b') /\ bridge_ok b').
    { intros b1 [Ht1 [Hd1|Hd1]]; apply IH; try (rewrite Hd1; simpl; lia); (split; [done|]); rewrite Hd1; [split; [done|simpl; lia]|].
      split; [constructor|done]. }
    assert (Hk : command_keeps (set_decoder b (mkDecoder rest)) (set_decoder b (mkDecoder rest))) by (by apply keeps_refl).
    destruct s as [|t body]; cbn [seg_result]; [by apply Hgo|]. destruct Hs as (Hty & Hbody & _).
    pose proof (decode_typed_post body Hbody t Hty) as Hp. pose proof (decode_typed_errs t body) as He.
    destruct (decode_typed_message t body) as [msg|err| |]; simpl in Hp, He |- *; try done.
    + destruct (dispatch_keeps (set_decoder b (mkDecoder rest)) msg Ht (proj1 Hp)) as (b1 & -> & Hk1). by apply Hgo.
    + destruct (send_keeps (set_decoder b (mkDecoder rest)) (set_transfer (set_decoder b (mkDecoder rest)) None)
        (MEventError (mkEventError EVENT_ERROR_INVALID_FRAME))) as (b1 & Hb1 & Hk1); [split; [done|by left]|].
      unfold abort_display_transfer_invalid_frame, send_event_error. rewrite Hb1. simpl in Hk.
      destruct err; simpl in He; try done; destruct (aborts_display _); by apply Hgo.
Qed.

(** C23: the modem survives everything.  From a well-formed state, whatever bytes
    arrive, whatever the radio, the BLE server, the button and the display answer
    and whichever serial writes fail, one iteration of the main loop ends without a
    panic in a well-formed state: a display transfer in progress has room for its
    next chunk and the decoder's buffer stays bounded.  Fuel beyond the buffer's
    capacity is enough for the decode loop. *)
Theorem bridge_poll_total (b : Br) fuel :
  bridge_ok b -> DECODER_BUF_CAP < Z.of_nat fuel ->
  exists b', poll FIRMWARE_VERSION FIRMWARE_COMMIT fuel b = Some (Ok b') /\ bridge_ok b'.
Proof using All.
  intros (Ht & Hb & Hl) Hf. unfold poll, poll_read. pose proof (read_typed (usb b)) as Hr.
  destruct (sp_read (usb b)) as [[bytes reconnected] u]. destruct Hr as [Hn Hby].
  assert (Hgo : forall b1 : Br, bridge_ok b1 -> exists b', match serial_loop FIRMWARE_VERSION FIRMWARE_COMMIT fuel b1 with
    | Some (Ok b2) => Some (poll_devices b2) | r => r end = Some (Ok b') /\ bridge_ok b').
  { intros b1 Hb1. destruct (serial_loop_total fuel b1 Hb1) as (b2 & -> & Ht2 & Hb2 & Hl2); [destruct Hb1 as (_ & _ & ?); unfold len in *; lia|].
    destruct (poll_devices_keeps b2 Ht2) as (b3 & -> & Ht3 & Hd3). exists b3. split; [done|]. unfold bridge_ok. by rewrite Hd3. }
  assert (Hpush : forall b1 : Br, bridge_ok b1 -> bridge_ok (if len bytes >? 0 then set_decoder b1 (push (decoder b1) bytes) else b1)).
  { intros b1 (Ht1 & Hb1 & Hl1). destruct (len bytes >? 0); [|done]. unfold bridge_ok, push. simpl. split; [done|].
    unfold DECODER_BUF_CAP, RX_BUF_SIZE in *. rewrite Z.gtb_ltb. destruct (Z.ltb_spec 4108 (len (buf (decoder b1)) + len bytes)); simpl.
    - split; [done|lia].
    - rewrite len_app. split; [by apply Forall_app|lia]. }
  destruct reconnected.
  - unfold send_modem_ready. match goal with |- context [send_msg_ ?x ?m] => destruct (send_msg__usb x m) as [u' ->] end. cbn [res_bind].
    rewrite Z.gtb_ltb. destruct (Z.ltb_spec RX_BUF_SIZE (len bytes)); [lia|]. apply Hgo, Hpush. by repeat split.
  - cbn [res_bind]. rewrite Z.gtb_ltb. destruct (Z.ltb_spec RX_BUF_SIZE (len bytes)); [lia|]. apply Hgo, Hpush. by repeat split.
Qed.
End Total.
