(* ===== verification/ModemTransparent.v ===== *)
(** * The bridge is transparent

    Between the gateway's serial port and the air the modem adds and loses
    nothing: every SEND_FRAME of the gateway reaches the radio, in order and
    unchanged, however the bytes are split over polls, and every frame the radio
    hands over reaches the gateway's reader.  The serial port is a script of reads
    and write outcomes, so that it stands for every port; the radio, BLE server,
    button and display are arbitrary, the radio wrapped to record what passes. *)

From S2P Require Import Prelude Modem ModemProofs ModemStream ModemRadio ModemBridge ModemTotal.
Open Scope list_scope.
Open Scope Z_scope.

(** ** A scripted port and a recording radio *)

(** Reads to come, frames written, and the outcomes of the next writes (those
    beyond the list succeed). *)
Record Port := mkPort { incoming : list (list Z); outgoing : list (list Z); outcomes : list bool }.

#[export] Instance port_serial : SerialPort Port := {
  sp_read p := match incoming p with c :: cs => (c, false, mkPort cs (outgoing p) (outcomes p)) | [] => ([], false, p) end;
  sp_write p f :=
    match outcomes p with
    | false :: os => (false, mkPort (incoming p) (outgoing p) os)
    | true :: os => (true, mkPort (incoming p) (outgoing p ++ [f]) os)
    | [] => (true, mkPort (incoming p) (outgoing p ++ [f]) [])
    end;
  sp_is_connected _ := true
}.

Record Spied (R : Type) := mkSpied { inner : R; sent : list (list Z * list Z); drained : list RecvFrame }.
Arguments mkSpied {R}.
Arguments inner {R}.
Arguments sent {R}.
Arguments drained {R}.

#[export] Instance spied_radio {R} `{Radio R} : Radio (Spied R) := {
  radio_send s c mac data :=
    let '(ok, r, c) := radio_send (inner s) c mac data in (ok, mkSpied r (sent s ++ [(mac, data)]) (drained s), c);
  radio_drain_one s c :=
    let '(o, r, c) := radio_drain_one (inner s) c in (o, mkSpied r (sent s) (drained s ++ option_list o), c);
  radio_set_channel s ch := let '(o, r) := radio_set_channel (inner s) ch in (o, mkSpied r (sent s) (drained s));
  radio_channel s := radio_channel (inner s);
  radio_scan_channels s := let '(o, r) := radio_scan_channels (inner s) in (o, mkSpied r (sent s) (drained s));
  radio_mac_address s := radio_mac_address (inner s);
  radio_reset_state s := mkSpied (radio_reset_state (inner s)) (sent s) (drained s)
}.

(** ** Ranges of the Rust types *)

Definition counters_ok (c : ModemCounters) : Prop := uN 32 (c_tx c) /\ uN 32 (c_rx c) /\ uN 32 (c_tx_fail c).

(** What a radio driver promises: an invariant of its state, under which what it
    returns is in range. *)
Class RadioTyped (R : Type) `{Radio R} : Type := {
  rt_inv : R -> Prop;
  rt_mac : forall r, rt_inv r -> mac_ok (radio_mac_address r);
  rt_channel : forall r, rt_inv r -> byte_ok (radio_channel r);
  rt_send : forall r c mac data, rt_inv r -> counters_ok c -> len mac = MAC_SIZE ->
    rt_inv (radio_send r c mac data).1.2 /\ counters_ok (radio_send r c mac data).2;
  rt_drain : forall r c, rt_inv r -> counters_ok c ->
    let '(o, r', c') := radio_drain_one r c in
    rt_inv r' /\ counters_ok c' /\ forall rf, o = Some rf -> msg_ok (MRecvFrame rf);
  rt_set_channel : forall r ch, rt_inv r -> byte_ok ch ->
    let '(o, r') := radio_set_channel r ch in rt_inv r' /\ forall reason, o = Some reason -> bytes_ok reason;
  rt_scan : forall r, rt_inv r ->
    let '(es, r') := radio_scan_channels r in
    rt_inv r' /\ len es <= 170 /\ Forall (fun '(ch, n, s) => scan_entry_ok (mkScanEntry ch n s)) es;
  rt_reset : forall r, rt_inv r -> rt_inv (radio_reset_state r)
}.

Class BleTyped (B : Type) `{Ble B} : Type := {
  bt_inv : B -> Prop;
  bt_enable : forall b, bt_inv b -> bt_inv (ble_enable b);
  bt_disable : forall b, bt_inv b -> bt_inv (ble_disable b);
  bt_indicate : forall b data, bt_inv b -> bt_inv (ble_indicate b data);
  bt_reply : forall b accept, bt_inv b -> bt_inv (ble_pairing_confirm_reply b accept);
  bt_advance : forall b, bt_inv b -> bt_inv (ble_advance_indication b);
  bt_timeout : forall b, bt_inv b -> bt_inv (ble_check_pairing_timeout b);
  bt_fallback : forall b, bt_inv b -> bt_inv (ble_check_encryption_fallback b);
  bt_drain : forall b, bt_inv b ->
    let '(o, b') := ble_drain_event b in bt_inv b' /\ forall e, o = Some e -> msg_ok (event_message e)
}.

Class ButtonTyped (T : Type) `{ButtonPoll T} : Prop :=
  bt_type : forall t ty t', button_poll t = (Some ty, t') -> byte_ok ty.

(** The button scanner reports one of the two kinds of press. *)
#[export] Instance button_scanner_typed {P} `{ButtonPin P} : ButtonTyped (P * ButtonState).
Proof.
  intros [p s] ty t'. unfold button_poll, button_scanner. destruct (sample p) as [[now pressed] p']. unfold poll_at.
  destruct s; try done; repeat case_match; intros; simplify_eq; by vm_compute.
Qed.

(** ** Frames on the wire *)

Definition wire_ok (msg : ModemMessage) : Prop := msg_ok msg /\ canonical msg.

Lemma scan_bytes es : Forall scan_entry_ok es -> bytes_ok (concat (encode_scan_entry <$> es)).
Proof.
  induction 1 as [|e es (H1 & H2 & H3) _ IH]; [constructor|]. cbn [fmap list_fmap concat]. apply Forall_app. split; [|done].
  unfold encode_scan_entry. constructor; [done|]. constructor; [done|]. constructor; [|constructor]. by apply wrap_range.
Qed.

Lemma encode_body_bytes msg t body : msg_ok msg -> encode_body msg = Ok (t, body) -> byte_ok t /\ bytes_ok body.
Proof.
  intros Hok He. destruct msg; simpl in Hok, He; unfold encode_ble_data in He; repeat (case_match; try discriminate); injection He as <- <-.
  all: try (split; [split; [discriminate|reflexivity]|]).
  all: unfold mac_ok in *; repeat match goal with H : _ /\ _ |- _ => destruct H end.
  all: repeat match goal with
    | |- bytes_ok (_ ++ _) => apply Forall_app; split
    | |- bytes_ok (_ :: _) => apply Forall_cons_iff; split
    end; auto with sonde; try (by apply wrap_range); try done.
  all: try (case_match; split; [discriminate|reflexivity]).
  unfold encode_scan_result. apply Forall_cons_iff. split; [by apply wrap_range|]. by apply scan_bytes, Forall_take.
Qed.

(** The frame of a message is a segment that carries it. *)
Lemma wire_segment msg frame :
  wire_ok msg -> encode_modem_frame msg = Ok frame -> exists s, frame = seg_bytes s /\ seg_ok s /\ seg_msg s = Some msg.
Proof.
  intros [Hok Hcan] He. apply encode_frame_layout in He as (t & body & Hb & Hl & ->).
  destruct (encode_body_bytes msg t body Hok Hb) as [Ht Hbody]. exists (SegFrame t body). split; [done|]. split; [done|].
  simpl. by rewrite (decode_encode_body msg t body).
Qed.

Definition encodes (msg : ModemMessage) (frame : list Z) : Prop := encode_modem_frame msg = Ok frame.

Lemma wire_segments msgs frames :
  Forall wire_ok msgs -> Forall2 encodes msgs frames ->
  exists segs, concat frames = stream segs /\ Forall seg_ok segs /\ seg_msgs segs = msgs.
Proof.
  intros Hw Hf. induction Hf as [|msg frame msgs frames He _ IH]; [by exists []|]. apply Forall_cons_iff in Hw as [Hm Hw].
  destruct (wire_segment msg frame Hm He) as (s & -> & Hs & Hmsg). destruct (IH Hw) as (segs & Hc & Hsegs & <-).
  exists (s :: segs). split; [by rewrite stream_cons, <- Hc|]. split; [by constructor|]. unfold seg_msgs. simpl. by rewrite Hmsg.
Qed.

(** What is of interest to the radio. *)
Definition send_of (msg : ModemMessage) : option (list Z * list Z) :=
  match msg with MSendFrame sf => Some (sf_peer_mac sf, sf_frame_data sf) | _ => None end.
Definition recv_of (msg : ModemMessage) : option RecvFrame := match msg with MRecvFrame rf => Some rf | _ => None end.

(** Frames of 1 to 250 bytes; others do not exist on the air. *)
Definition airborne (rf : RecvFrame) : Prop := 1 <= len (rf_frame_data rf) <= ESPNOW_MAX_DATA_SIZE.
#[export] Instance airborne_dec rf : Decision (airborne rf).
Proof. unfold airborne. apply _. Defined.

Lemma encode_airborne rf :
  len (rf_peer_mac rf) = MAC_SIZE ->
  if decide (airborne rf) then exists frame, encode_modem_frame (MRecvFrame rf) = Ok frame
  else exists e, encode_modem_frame (MRecvFrame rf) = Err e.
Proof.
  intros Hm. unfold encode_modem_frame. simpl. rewrite Z.gtb_ltb. pose proof (len_nonneg (rf_frame_data rf)).
  destruct (Z.eqb_spec (len (rf_frame_data rf)) 0); [rewrite decide_False by (unfold airborne; lia); by eexists|].
  destruct (Z.ltb_spec ESPNOW_MAX_DATA_SIZE (len (rf_frame_data rf))); [rewrite decide_False by (unfold airborne; lia); by eexists|].
  rewrite decide_True by (unfold airborne; lia). cbn [res_bind]. rewrite Z.gtb_ltb, len_app, len_cons, Hm.
  unfold SERIAL_MAX_LEN, MAC_SIZE, ESPNOW_MAX_DATA_SIZE in *.
  destruct (Z.ltb_spec 1025 (1 + (6 + (1 + len (rf_frame_data rf))))); [lia|]. by eexists.
Qed.

Section Transparent.
Context {R B T D K : Type} `{RadioTyped R, BleTyped B, ButtonTyped T, Display D, BootClock K}.
Context (FIRMWARE_VERSION FIRMWARE_COMMIT : list Z).

Abbreviation Br := (@Bridge Port (Spied R) B T D K).

(** [faultless]: no write fails.  Then what has been written is the frames of
    messages whose RECV_FRAMEs are [frames]. *)
Context (faultless : bool).

Definition written (u : Port) (frames : list RecvFrame) : Prop :=
  faultless = true ->
  outcomes u = [] /\
  exists msgs, Forall2 encodes msgs (outgoing u) /\ Forall wire_ok msgs /\ omap recv_of msgs = frames.

Record running (b : Br) (reads : list (list Z)) (s : list (list Z * list Z)) : Prop := {
  ru_reads : incoming (usb b) = reads;
  ru_sent : sent (radio b) = s;
  ru_written : written (usb b) (filter airborne (drained (radio b)))
}.

Record sane (b : Br) : Prop := {
  sa_transfer : transfer_ok (display_transfer b);
  sa_counters : counters_ok (counters b);
  sa_radio : rt_inv (inner (radio b));
  sa_ble : bt_inv (ble b)
}.

Lemma sane_usb (b : Br) u : sane b -> sane (set_usb b u).
Proof. intros []. by split. Qed.

Lemma write_written (u : Port) msg frame frames :
  wire_ok msg -> encodes msg frame -> written u frames ->
  exists ok u', sp_write u frame = (ok, u') /\ incoming u' = incoming u /\ written u' (frames ++ option_list (recv_of msg)).
Proof.
  intros Hm He Hw. destruct u as [i o os]. simpl. unfold written in *. simpl in *.
  destruct os as [|[] os]; eexists _, _; (split; [done|]); (split; [done|]); intros Hf; destruct (Hw Hf) as (Ho & msgs & P1 & P2 & P3); try done.
  split; [done|]. exists (msgs ++ [msg]). simpl. split; [apply Forall2_app; [done|by repeat constructor]|].
  split; [apply Forall_app; split; [done|constructor; [done|constructor]]|]. rewrite omap_app, P3. simpl. by destruct (recv_of msg).
Qed.

Lemma send_written (b : Br) msg frames :
  wire_ok msg -> written (usb b) frames ->
  exists ok u, send_msg b msg = Ok (ok, set_usb b u) /\ incoming u = incoming (usb b) /\
    written u (frames ++ match encode_modem_frame msg with Ok _ => option_list (recv_of msg) | _ => [] end).
Proof.
  intros Hm Hw. unfold send_msg. pose proof (encode_total msg) as Ht. destruct (encode_modem_frame msg) as [frame|e| |] eqn:He; simpl in Ht; try done.
  - destruct (write_written (usb b) msg frame frames Hm He Hw) as (ok & u & Hwr & Hi & Hw'). simpl in Hwr. exists ok, u. simpl. by rewrite Hwr.
  - exists false, (usb b). rewrite app_nil_r. by rewrite set_usb_id.
Qed.

(** A message other than RECV_FRAME. *)
Lemma send_running (b : Br) reads s msg :
  running b reads s -> wire_ok msg -> recv_of msg = None ->
  exists u, send_msg_ b msg = Ok (set_usb b u) /\ running (set_usb b u) reads s.
Proof.
  intros [P1 P2 P3] Hm Hn. unfold send_msg_. destruct (send_written b msg _ Hm P3) as (ok & u & -> & Hi & Hw).
  simpl. exists u. split; [done|]. split; simpl; [by rewrite Hi|done|].
  rewrite Hn in Hw. simpl in Hw. destruct (encode_modem_frame msg); by rewrite app_nil_r in Hw.
Qed.

Lemma plain_wire msg : msg_ok msg -> (match msg with MUnknown _ _ | MScanResult _ => False | _ => True end) -> wire_ok msg.
Proof. intros Hm Hp. split; [done|]. by destruct msg. Qed.

(** ** Commands *)

(** A command's outcome: a sane running state with the decoder untouched. *)
Definition carries_on (b : Br) reads s (r : Res unit Br) : Prop :=
  exists b', r = Ok b' /\ running b' reads s /\ sane b' /\ decoder b' = decoder b.

Lemma carries_send (b b0 : Br) reads s msg :
  running b0 reads s -> sane b0 -> decoder b0 = decoder b -> wire_ok msg -> recv_of msg = None ->
  carries_on b reads s (send_msg_ b0 msg).
Proof. intros Hr Hs Hd Hm Hn. destruct (send_running b0 reads s msg Hr Hm Hn) as (u & -> & Hr'). exists (set_usb b0 u). split_and!; [done..|by apply sane_usb|done]. Qed.

Lemma abort_carries (b : Br) reads s :
  running b reads s -> sane b -> carries_on b reads s (abort_display_transfer_invalid_frame b).
Proof. intros [P1 P2 P3] [S1 S2 S3 S10]. apply carries_send; [by split|by split|done|by apply plain_wire|done]. Qed.

Lemma chunk_carries (b : Br) reads s chunk :
  running b reads s -> sane b -> msg_ok (MDisplayFrameChunk chunk) -> carries_on b reads s (handle_display_frame_chunk b chunk).
Proof.
  intros Hr [Ht Hcn Hri Hbi] Hm. unfold handle_display_frame_chunk.
  destruct (display_transfer b) as [x|] eqn:Hx; [|apply abort_carries; [done|]; split; [by rewrite Hx|done..]].
  destruct (Z.eqb_spec (dfc_transfer_id chunk) (transfer_id x)) as [Hid|Hid]; [|apply abort_carries; [done|]; split; [by rewrite Hx|done..]].
  cbn [negb]. pose proof Ht as (Hi & Hn & Hf). unfold DISPLAY_FRAME_CHUNK_COUNT, DISPLAY_FRAME_CHUNK_SIZE, DISPLAY_FRAME_BODY_SIZE in *.
  destruct (Z.eqb_spec (chunk_index chunk) (next_index x)) as [Hc|Hc]; cbn [negb].
  2: { apply carries_send; [done|split; [by rewrite Hx|done..]|done| |done]. apply plain_wire; [|done]. split; [done|]. simpl. unfold uN. lia. }
  destruct Hm as (_ & _ & Hl & _). unfold DISPLAY_FRAME_CHUNK_SIZE in Hl. rewrite <- Hl at 3. rewrite copy_range_Ok by lia. cbn [res_bind].
  rewrite arith_u_in_range by lia. cbn [res_bind]. set (fb := list_inserts _ _ _).
  assert (Hfb : len fb = 1024) by (unfold fb, len; by rewrite length_inserts).
  destruct (send_running (set_transfer b (Some (mkTransfer (transfer_id x) (next_index x + 1) fb))) reads s
    (MDisplayFrameAck (mkAck (transfer_id x) (next_index x + 1)))) as (u & Hs1 & [R1 R2 R3]).
  { destruct Hr. by split. }
  { apply plain_wire; [|done]. split; [done|]. simpl. unfold uN. lia. }
  { done. }
  unfold send_display_frame_ack. rewrite Hs1. cbn [res_bind]. eexists. split; [done|].
  destruct (Z.eqb_spec (next_index x + 1) 8) as [H8|H8]; (split; [by split|]); (split; [|done]); split; try done.
  simpl. split_and!; [done|unfold DISPLAY_FRAME_CHUNK_COUNT; lia..|done].
Qed.

Lemma dispatch_carries (b : Br) reads s msg :
  running b reads s -> sane b -> msg_ok msg -> msg <> MReset ->
  carries_on b reads (s ++ option_list (send_of msg)) (dispatch FIRMWARE_VERSION FIRMWARE_COMMIT b msg).
Proof.
  intros Hr Hs Hm Hne. pose proof Hr as [P1 P2 P3]. pose proof Hs as [S1 S2 S3 S10].
  destruct msg; simpl; rewrite ?app_nil_r; try done; try (eexists; split; [done|]; split; [by split|]; split; [split; simpl; by auto using bt_enable, bt_disable, bt_indicate, bt_reply|done]).
  - unfold handle_send_frame. simpl. pose proof (rt_send (inner (radio b)) (counters b) (sf_peer_mac sf) (sf_frame_data sf) S3 S2) as Hc.
    destruct (radio_send _ _ _ _) as [[ok r] c]. destruct Hc as [Hr' Hc]; [apply Hm|]. eexists. split; [done|].
    split; [split; simpl; [done|by rewrite P2|done]|]. by split.
  - unfold handle_set_channel. simpl. pose proof (rt_set_channel (inner (radio b)) ch S3 Hm) as Hc.
    destruct (radio_set_channel _ _) as [[reason|] r]; destruct Hc as [Hr' Hc];
      (apply carries_send; [by split|by split|done|apply plain_wire; [|done]|done]); [|done].
    split; [by vm_compute|]. by apply Hc.
  - unfold handle_get_status. destruct (elapsed_ms _) as [now k].
    apply carries_send; [by split|by split|done|apply plain_wire; [|done]|done]. destruct S2 as (C1 & C2 & C3).
    simpl. split; [by apply rt_channel|]. split; [|done]. by apply wrap_range.
  - unfold handle_scan_channels. simpl. pose proof (rt_scan (inner (radio b)) S3) as Hc. destruct (radio_scan_channels _) as [es r]. destruct Hc as (Hr' & Hl & HF).
    apply carries_send; [by split|by split|done| |done]. split.
    + simpl. apply Forall_fmap. eapply List.Forall_impl; [|exact HF]. by intros [[? ?] ?].
    + simpl. unfold len. rewrite length_fmap. exact Hl.
  - apply carries_send; [by split| |done|by apply plain_wire|done]. split; [|done..]. split; [exact Hm|]. split; [done|]. by vm_compute.
  - by apply chunk_carries.
Qed.

(** ** The rest of an iteration *)

Lemma frames_carry n : forall (b : Br) reads s,
  running b reads s -> sane b -> carries_on b reads s (forward_frames n b).
Proof.
  induction n as [|n IH]; intros b reads s Hr Hs; [by exists b|]. pose proof Hr as [P1 P2 P3]. pose proof Hs as [S1 S2 S3 S10].
  cbn [forward_frames]. simpl radio_drain_one. pose proof (rt_drain (inner (radio b)) (counters b) S3 S2) as Hcc.
  destruct (radio_drain_one (inner (radio b)) (counters b)) as [[[rf|] r] c]; destruct Hcc as (Hri & Hcc & Hd).
  2: { eexists. split; [done|]. split; [|by split]. split; simpl; [done|done|]. by rewrite app_nil_r. }
  pose proof (Hd rf eq_refl) as Hok. cbv zeta. set (b0 := set_counters _ c).
  assert (Hm : wire_ok (MRecvFrame rf)) by (by apply plain_wire).
  destruct (send_written b0 (MRecvFrame rf) _ Hm P3) as (ok & u & -> & Hi & Hw). cbn [res_bind].
  assert (Hr1 : running (set_usb b0 u) reads s).
  { split; [by rewrite <- P1|done|]. simpl. rewrite list.filter_app. simpl in Hw.
    pose proof (encode_airborne rf (proj1 (proj1 Hok))) as He. destruct (decide (airborne rf)) as [Ha|Ha].
    - destruct He as [f He]. rewrite He in Hw. unfold filter, list_filter. by rewrite decide_True by done.
    - destruct He as [e He]. rewrite He in Hw. unfold filter, list_filter. by rewrite decide_False by done. }
  destruct ok.
  - destruct (IH (set_counters (set_usb b0 u) (inc_rx (counters (set_usb b0 u)))) reads s) as (b' & E & Hr' & Hs' & Hd').
    + destruct Hr1. by split.
    + split; [done| |done..]. destruct Hcc as (C1 & C2 & C3). repeat split; try apply C1; try apply C3; by apply wrap_range.
    + by exists b'.
  - destruct (IH (set_usb b0 u) reads s Hr1) as (b' & E & Hr' & Hs' & Hd'); [by split|]. by exists b'.
Qed.

Lemma events_carry n : forall (b : Br) reads s,
  running b reads s -> sane b -> carries_on b reads s (forward_events n b).
Proof.
  induction n as [|n IH]; intros b reads s Hr Hs; [by exists b|]. pose proof Hr as [P1 P2 P3]. pose proof Hs as [S1 S2 S3 S10].
  cbn [forward_events]. pose proof (bt_drain (ble b) S10) as Hb. destruct (ble_drain_event (ble b)) as [[e|] bl]; destruct Hb as [Hbi Hd].
  2: { eexists. split; [done|]. split; by split. }
  specialize (Hd e eq_refl). destruct (send_running (set_ble b bl) reads s (event_message e)) as (u & -> & Hr1); [by split|..].
  { apply plain_wire; [done|by destruct e]. }
  { by destruct e. }
  cbn [res_bind]. destruct (IH (set_usb (set_ble b bl) u) reads s Hr1) as (b' & E & Hr' & Hs' & Hd'); [by split|]. by exists b'.
Qed.

Lemma devices_carry (b : Br) reads s :
  running b reads s -> sane b -> carries_on b reads s (poll_devices b).
Proof.
  intros Hr Hs. unfold poll_devices. destruct (frames_carry MAX_RX_FRAMES_PER_POLL b reads s Hr Hs) as (b1 & -> & [P1 P2 P3] & [S1 S2 S3 S10] & Hd1).
  cbn [res_bind]. set (b2 := set_ble b1 _).
  destruct (events_carry MAX_BLE_EVENTS_PER_POLL b2 reads s) as (b3 & -> & Hr3 & [S4 S5 S6 S11] & Hd3); [by split|split; simpl; by auto using bt_advance, bt_timeout, bt_fallback|]. cbn [res_bind].
  destruct (button_poll (button b3)) as [pressed t] eqn:Hb.
  assert (Hb4 : carries_on b reads s match pressed with
    | Some ty => send_msg_ (set_button b3 t) (MEventButton (mkEventButton ty)) | None => Ok (set_button b3 t) end).
  { destruct Hr3 as [R1 R2 R3]. destruct pressed as [ty|].
    - apply carries_send; [by split|by split|simpl; by rewrite Hd3, <- Hd1| |done]. apply plain_wire; [|done]. by eapply bt_type.
    - eexists. split; [done|]. split; [by split|]. split; [by split|]. simpl. by rewrite Hd3, <- Hd1. }
  destruct Hb4 as (b4 & -> & [R1 R2 R3] & [S7 S8 S9 S12] & Hd4). cbn [res_bind].
  destruct (display_poll (display b4)) as [[[]|] d].
  - apply carries_send; [by split|by split|done|by apply plain_wire|done].
  - eexists. split; [done|]. split; [by split|]. split; [by split|done].
Qed.

(** ** Streams *)

(** The decode loop on whole segments and the start of another. *)
Lemma serial_loop_stream fuel dn rest p : forall (b : Br) reads s,
  running b reads s -> sane b -> Forall seg_ok dn -> Forall seg_ok rest -> pending p rest ->
  Forall (fun m => m <> MReset) (seg_msgs dn) -> decoder b = mkDecoder (stream dn ++ p) -> (length dn < fuel)%nat ->
  exists b', serial_loop FIRMWARE_VERSION FIRMWARE_COMMIT fuel b = Some (Ok b') /\
    running b' reads (s ++ omap send_of (seg_msgs dn)) /\ sane b' /\ decoder b' = mkDecoder p.
Proof.
  revert dn. induction fuel as [|fuel IH]; intros dn b reads s Hr Hs Hdn Hrest Hp Hne Hd Hf; [lia|]. cbn [serial_loop]. rewrite Hd.
  destruct Hdn as [|g dn Hg Hdn].
  { cbn [stream fmap list_fmap concat app]. rewrite (decode_pending p rest) by done. eexists. split; [done|].
    destruct Hr, Hs. split; [split; simpl; rewrite ?app_nil_r; done|]. by split. }
  rewrite stream_cons, <- app_assoc, decode_seg by done. set (b0 := set_decoder b _).
  assert (Hr0 : running b0 reads s) by (destruct Hr; by split). assert (Hs0 : sane b0) by (destruct Hs; by split).
  assert (Hgo : forall r s', carries_on b0 reads s' r -> Forall (fun m => m <> MReset) (seg_msgs dn) ->
    exists b', match r with Ok b => serial_loop FIRMWARE_VERSION FIRMWARE_COMMIT fuel b | Err e => Some (Err e) | Panic => Some Panic | UB => Some UB end
      = Some (Ok b') /\ running b' reads (s' ++ omap send_of (seg_msgs dn)) /\ sane b' /\ decoder b' = mkDecoder p).
  { intros r s' (b1 & -> & Hr1 & Hs1 & Hd1) Hn1. apply IH; try done. simpl in Hf. lia. }
  destruct g as [|t body]; cbn [seg_result].
  { apply (Hgo (Ok b0)); [|done]. by exists b0. }
  destruct Hg as (Ht & Hb & _). pose proof (decode_typed_post body Hb t Ht) as Hpost. pose proof (decode_typed_errs t body) as He.
  unfold seg_msgs in *. cbn [omap list_omap seg_msg] in Hne |- *.
  destruct (decode_typed_message t body) as [msg|err| |]; simpl in Hpost, He; try done; cbn [res_map res_bind].
  - apply Forall_cons_iff in Hne as [Hm Hn].
    destruct (Hgo _ _ (dispatch_carries b0 reads s msg Hr0 Hs0 (proj1 Hpost) Hm) Hn) as (b' & E & R1 & R2).
    exists b'. split; [exact E|]. split; [|done]. rewrite <- app_assoc in R1. cbn [omap list_omap]. by destruct (send_of msg).
  - pose proof (abort_carries b0 reads s Hr0 Hs0) as Ha. assert (Hk : carries_on b0 reads s (Ok b0)) by (by exists b0).
    destruct err; simpl in He; try done; (destruct (aborts_display _); [by apply Hgo|by apply (Hgo (Ok b0))]).
Qed.

Fixpoint polls (fuel n : nat) (b : Br) : option (Res unit Br) :=
  match n with
  | O => Some (Ok b)
  | S n => match poll FIRMWARE_VERSION FIRMWARE_COMMIT fuel b with Some (Ok b) => polls fuel n b | r => r end
  end.

Lemma polls_stream fuel chunks : 1200 <= Z.of_nat fuel -> forall segs p (b : Br) s,
  running b chunks s -> sane b -> Forall seg_ok segs -> pending p segs -> stream segs = p ++ concat chunks ->
  Forall (fun c => len c <= RX_BUF_SIZE) chunks -> Forall (fun m => m <> MReset) (seg_msgs segs) -> decoder b = mkDecoder p ->
  exists b', polls fuel (length chunks) b = Some (Ok b') /\ running b' [] (s ++ omap send_of (seg_msgs segs)) /\ decoder b' = decoder_new.
Proof.
  intros Hfuel. induction chunks as [|c chunks IH]; intros segs p b s Hr Hs Hsegs Hp E Hc Hne Hd.
  - simpl in E. rewrite app_nil_r in E. exists b. split; [done|]. assert (segs = []) as ->.
    { destruct Hp as [->|(g & segs' & q & -> & Eg & Hq)].
      - destruct segs as [|g segs]; [done|]. rewrite stream_cons in E. pose proof (seg_bytes_length g).
        apply (f_equal length) in E. rewrite length_app in E. simpl in E. lia.
      - rewrite stream_cons, Eg, <- app_assoc in E. rewrite <- (app_nil_r p) in E at 2. apply app_inv_head in E.
        apply app_eq_nil in E as [-> _]. done. }
    destruct Hp as [->|(g & segs' & q & Hnil & _)]; [|done]. simpl. by rewrite app_nil_r.
  - apply Forall_cons_iff in Hc as [Hc Hcs]. cbn [concat] in E. rewrite app_assoc in E.
    destruct (stream_prefix segs (p ++ c) (concat chunks) E) as (dn & rest & p' & -> & Epc & Er & Hp').
    apply Forall_app in Hsegs as Hsplit. destruct Hsplit as [Hdn Hrest]. unfold seg_msgs in Hne. rewrite omap_app in Hne. apply Forall_app in Hne as [Hn1 Hn2].
    pose proof (pending_length _ _ Hsegs Hp) as Hpl. unfold RX_BUF_SIZE in Hc. unfold SERIAL_MAX_FRAME_SIZE in Hpl.
    cbn [length polls]. unfold poll, poll_read. simpl sp_read. rewrite (ru_reads _ _ _ Hr). cbn [res_bind].
    rewrite !Z.gtb_ltb. destruct (Z.ltb_spec RX_BUF_SIZE (len c)); [unfold RX_BUF_SIZE in *; lia|].
    set (b0 := set_usb b _). set (b1 := if 0 <? len c then _ else b0).
    assert (Hd1 : decoder b1 = mkDecoder (stream dn ++ p')).
    { unfold b1. destruct (Z.ltb_spec 0 (len c)) as [Hc0|Hc0].
      - simpl. rewrite Hd. unfold push, DECODER_BUF_CAP. cbn [buf]. rewrite Z.gtb_ltb. by destruct (Z.ltb_spec 4108 (len p + len c)); [lia|rewrite <- Epc].
      - simpl. rewrite Hd. f_equal. rewrite <- Epc. destruct c; [by rewrite app_nil_r|]. rewrite len_cons in Hc0. pose proof (len_nonneg c). lia. }
    assert (Hr1 : running b1 chunks s /\ sane b1) by (destruct Hr, Hs; unfold b1; destruct (0 <? len c); (split; [by split|by split])).
    destruct (serial_loop_stream fuel dn rest p' b1 chunks s) as (b2 & -> & Hr2 & Hs2 & Hd2); try done; [apply Hr1|apply Hr1| |].
    { pose proof (length_stream dn). apply (f_equal len) in Epc. rewrite !len_app in Epc. unfold len in *. lia. }
    destruct (devices_carry b2 _ _ Hr2 Hs2) as (b3 & -> & Hr3 & Hs3 & Hd3).
    destruct (IH rest p' b3 _ Hr3 Hs3 Hrest Hp' Er Hcs Hn2) as (b' & Eb & Hr' & Hd'); [by rewrite Hd3|].
    exists b'. split; [done|]. split; [|done]. unfold seg_msgs. by rewrite !omap_app, app_assoc.
Qed.
End Transparent.

(** C20: the modem adds and loses nothing while it is neither reset nor reconnected.
    Whatever the radio, the BLE server, the button and the display do, feed the modem
    any stream of well-delimited serial frames without RESET, split over polls in any
    way, on a connection that stays up: the frames handed to the radio are those of the
    SEND_FRAME messages, in order and unchanged, whichever serial writes fail.  If no
    serial write fails, the gateway's reader, however its own reads are split, receives
    as RECV_FRAME exactly the frames the bridge took from the radio, in order, each as
    it was received. *)
Theorem bridge_transparent {R B T D K} `{RadioTyped R, BleTyped B, ButtonTyped T, Display D, BootClock K} (version commit : list Z)
    (b : @Bridge Port (Spied R) B T D K) segs fuel :
  transfer_ok (display_transfer b) -> counters_ok (counters b) -> rt_inv (inner (radio b)) -> bt_inv (ble b) -> decoder b = decoder_new ->
  sent (radio b) = [] -> drained (radio b) = [] -> outgoing (usb b) = [] ->
  Forall seg_ok segs -> Forall (fun m => m <> MReset) (seg_msgs segs) ->
  concat (incoming (usb b)) = stream segs -> Forall (fun c => len c <= RX_BUF_SIZE) (incoming (usb b)) ->
  1200 <= Z.of_nat fuel ->
  exists b', polls version commit fuel (length (incoming (usb b))) b = Some (Ok b') /\
    sent (radio b') = omap send_of (seg_msgs segs) /\
    (outcomes (usb b) = [] -> forall reads, concat reads = concat (outgoing (usb b')) -> Forall (fun c => len c <= READ_BUF_SIZE) reads ->
       exists msgs, reader decoder_new reads = Some (Ok (msgs, decoder_new)) /\ omap recv_of msgs = filter airborne (drained (radio b'))).
Proof.
  intros Ht Hcn Hri Hbi Hd Hs0 Hd0 Ho Hsegs Hne Hin Hch Hf.
  destruct (polls_stream version commit (bool_decide (outcomes (usb b) = [])) fuel (incoming (usb b)) Hf segs [] b [])
    as (b' & E & [P1 P2 P3] & Hd'); try done; try (by left).
  { split; [done|done|]. intros Hb%bool_decide_eq_true. split; [done|]. exists []. rewrite Ho, Hd0. by repeat constructor. }
  exists b'. split; [done|]. split; [done|]. intros Hok reads Hr Hrc.
  destruct (P3 (bool_decide_eq_true_2 _ Hok)) as (_ & msgs & Hm & Hw & Hrecv).
  destruct (wire_segments msgs _ Hw Hm) as (segs' & Hst & Hs' & <-). exists (seg_msgs segs'). split; [|done].
  apply reader_stream; [done|by left|by rewrite <- Hst, <- Hr|done].
Qed.
