(* ===== verification/ModemEspNow.v ===== *)
(** * The modem's radio driver (sonde-modem/src/espnow.rs)

    [EspNowDriver] over the ESP-NOW and WiFi stack of the chip, which is a class:
    what its calls answer, and which callbacks it has run since the main loop last
    looked.  The driver is the [Radio] of the bridge and keeps the interface the
    bridge's theorems ask for. *)

From stdpp Require Import strings.
From S2P Require Import Prelude Modem ModemProofs ModemRadio ModemBridge ModemTotal ModemTransparent.
Open Scope list_scope.
Open Scope Z_scope.

Definition ascii_bytes (s : string) : list Z := (fun c => Z.of_N (Ascii.N_of_ascii c)) <$> String.list_ascii_of_string s.

(** ** The stack *)

Record RecvInfo := mkInfo { src_addr : option (list Z); rx_ctrl : option Z }.

(** A run of a callback: the pointers it was given ([None] is null), whether the
    serial line was connected and whether the ring was locked. *)
Inductive Callback : Type :=
  | RecvCb (recv_info : option RecvInfo) (data : option (list Z)) (usb_connected locked : bool)
  | SendCb (delivered : bool).

Class EspStack (S : Type) : Type := {
  es_callbacks : S -> list Callback * S;
  es_del_peer : S -> list Z -> S;
  es_peer_exists : S -> list Z -> bool;
  es_add_peer : S -> list Z -> Z -> S;
  es_send : S -> list Z -> list Z -> bool * S;
  es_set_channel : S -> Z -> bool * S;
  es_scan : S -> option (list (Z * Z)) * S;
  es_mac : S -> list Z
}.

(** ** The driver *)

Record EspNowDriver (S : Type) := mkDriver {
  stack : S;
  peer_table : PeerTable;
  rx_ring : RxRing;
  current_channel : Z;
  contention_drops : Z
}.
Arguments mkDriver {S}.
Arguments stack {S}.
Arguments peer_table {S}.
Arguments rx_ring {S}.
Arguments current_channel {S}.
Arguments contention_drops {S}.

Section Driver.
Context {S : Type} `{EspStack S}.
Abbreviation Dr := (EspNowDriver S).

(** [EspNowDriver::new], once the stack is up. *)
Definition driver_new (s : S) : Dr := mkDriver s peers_new ring_default 1 0.

Definition set_stack (d : Dr) s : Dr := mkDriver s (peer_table d) (rx_ring d) (current_channel d) (contention_drops d).
Definition set_peer_table (d : Dr) t := mkDriver (stack d) t (rx_ring d) (current_channel d) (contention_drops d).
Definition set_ring (d : Dr) r := mkDriver (stack d) (peer_table d) r (current_channel d) (contention_drops d).
Definition set_current_channel (d : Dr) ch := mkDriver (stack d) (peer_table d) (rx_ring d) ch (contention_drops d).
Definition set_contention (d : Dr) n := mkDriver (stack d) (peer_table d) (rx_ring d) (current_channel d) n.

Definition raw_recv_cb (d : Dr) (recv_info : option RecvInfo) (data : option (list Z)) (usb_connected locked : bool) : Res unit Dr :=
  match recv_info, data with
  | Some info, Some payload =>
      if len payload <=? 0 then Ok d else
      match src_addr info with
      | None => Ok d
      | Some src =>
          if len payload >? ESPNOW_MAX_DATA_SIZE then Ok d else
          let rssi := match rx_ctrl info with None => -128 | Some v => as_i8 v end in
          if negb usb_connected then Ok d else
          if locked then Ok (set_contention d (wrap 32 (contention_drops d + 1))) else
          let? r := ring_receive (rx_ring d) (mkRecvFrame src rssi payload) in Ok (set_ring d r)
      end
  | _, _ => Ok d
  end.

Definition run_callback (d : Dr) (c : ModemCounters) (cb : Callback) : Res unit (Dr * ModemCounters) :=
  match cb with
  | RecvCb info data connected locked => let? d := raw_recv_cb d info data connected locked in Ok (d, c)
  | SendCb delivered => Ok (d, if delivered then c else inc_tx_fail c)
  end.

Fixpoint run_callbacks (d : Dr) (c : ModemCounters) (cbs : list Callback) : Res unit (Dr * ModemCounters) :=
  match cbs with
  | [] => Ok (d, c)
  | cb :: cbs => let? '(d, c) := run_callback d c cb in run_callbacks d c cbs
  end.

(** The callbacks that ran before the main loop looks at what they change. *)
Definition catch_up (d : Dr) (c : ModemCounters) : Res unit (Dr * ModemCounters) :=
  let '(cbs, s) := es_callbacks (stack d) in run_callbacks (set_stack d s) c cbs.

Definition clear_all_peers (d : Dr) : Dr :=
  set_peer_table (set_stack d (fold_left es_del_peer (all_macs (peer_table d)) (stack d))) (peers_clear (peer_table d)).

Definition driver_send (d : Dr) (c : ModemCounters) (peer_mac data : list Z) : Res unit (bool * Dr * ModemCounters) :=
  let? '(d, c) := catch_up d c in
  let? '(evicted, t) := ensure_peer (peer_table d) peer_mac in
  let d := set_peer_table d t in
  let s := match evicted with Some mac => es_del_peer (stack d) mac | None => stack d end in
  let s := if es_peer_exists s peer_mac then s else es_add_peer s peer_mac (current_channel d) in
  let c := inc_tx c in
  let '(ok, s) := es_send s peer_mac data in
  Ok (ok, set_stack d s, c).

Definition driver_drain_one (d : Dr) (c : ModemCounters) : Res unit (option RecvFrame * Dr * ModemCounters) :=
  let? '(d, c) := catch_up d c in
  let d := set_contention d 0 in
  let? '(o, r) := ring_drain_one (rx_ring d) in
  Ok (o, set_ring d r, c).

Definition driver_set_channel (d : Dr) (channel : Z) : option (list Z) * Dr :=
  if (channel =? 0) || (channel >? 14) then (Some (ascii_bytes "invalid channel"), d) else
  let '(ok, s) := es_set_channel (stack d) channel in
  let d := set_stack d s in
  if negb ok then (Some (ascii_bytes "ESP-IDF set_channel failed"), d) else
  (None, set_current_channel (clear_all_peers d) channel).

(** [(count, strongest)] of an access point's channel; [i8::MIN] is "none seen". *)
Definition count_ap (channels : list (Z * Z)) (ap : Z * Z) : Res unit (list (Z * Z)) :=
  let '(ch, signal_strength) := ap in
  if (ch >=? 1) && (ch <=? 14) then
    let? '(n, best) := index channels ch in
    Ok (<[Z.to_nat ch := (saturating_add 16 n 1, if signal_strength >? best then signal_strength else best)]> channels)
  else Ok channels.

Fixpoint count_aps (channels : list (Z * Z)) (aps : list (Z * Z)) : Res unit (list (Z * Z)) :=
  match aps with
  | [] => Ok channels
  | ap :: aps => let? channels := count_ap channels ap in count_aps channels aps
  end.

Fixpoint scan_rows (n : nat) (ch : Z) (channels : list (Z * Z)) : Res unit (list (Z * Z * Z)) :=
  match n with
  | O => Ok []
  | Datatypes.S n =>
      let? '(seen, best) := index channels ch in
      let count := Z.min seen 255 in
      let? rows := scan_rows n (ch + 1) channels in
      Ok ((ch, count, if count =? 0 then 0 else best) :: rows)
  end.

Definition driver_scan_channels (d : Dr) : Res unit (list (Z * Z * Z) * Dr) :=
  let '(scan_result, s) := es_scan (stack d) in
  let? channels := count_aps (replicate 15 (0, -128)) (default [] scan_result) in
  let '(_, s) := es_set_channel s (current_channel d) in
  let? rows := scan_rows 14 1 channels in
  Ok (rows, set_stack d s).

(** The counters the callbacks change are reset right after. *)
Definition driver_reset_state (d : Dr) : Res unit Dr :=
  let? '(d, _) := catch_up d counters_new in
  let d := clear_all_peers d in
  let '(_, s) := es_set_channel (stack d) 1 in
  let d := set_current_channel (set_stack d s) 1 in
  Ok (set_ring d (ring_clear (rx_ring d))).

(** The driver as the bridge's radio; a panic would end the firmware. *)
#[export] Instance esp_radio : Radio (Res unit Dr) := {
  radio_send r c mac data :=
    match r with
    | Ok d => match driver_send d c mac data with Ok (ok, d, c) => (ok, Ok d, c) | _ => (false, Panic, c) end
    | _ => (false, Panic, c)
    end;
  radio_drain_one r c :=
    match r with
    | Ok d => match driver_drain_one d c with Ok (o, d, c) => (o, Ok d, c) | _ => (None, Panic, c) end
    | _ => (None, Panic, c)
    end;
  radio_set_channel r ch :=
    match r with Ok d => let '(o, d) := driver_set_channel d ch in (o, Ok d) | _ => (None, Panic) end;
  radio_channel r := match r with Ok d => current_channel d | _ => 1 end;
  radio_scan_channels r :=
    match r with
    | Ok d => match driver_scan_channels d with Ok (rows, d) => (rows, Ok d) | _ => ([], Panic) end
    | _ => ([], Panic)
    end;
  radio_mac_address r := match r with Ok d => es_mac (stack d) | _ => replicate 6 0 end;
  radio_reset_state r := match r with Ok d => driver_reset_state d | _ => Panic end
}.
End Driver.

(** ** The driver keeps the interface *)

(** The table of peers as a set without duplicates. *)
Definition table_ok (t : PeerTable) : Prop := NoDup (all_macs t) /\ len (all_macs t) <= MAX_PEERS.

Lemma table_new_ok : table_ok peers_new.
Proof. split; [constructor|done]. Qed.

(** A use of a peer, whatever the stamps: the peer is in the table afterwards, and
    of the others only the evicted one is gone. *)
Lemma ensure_peer_table t mac :
  table_ok t ->
  exists evicted t', ensure_peer t mac = Ok (evicted, t') /\ table_ok t' /\ mac ∈ all_macs t' /\
    (mac ∈ all_macs t -> evicted = None) /\
    (forall x, x ∈ all_macs t' <-> x = mac \/ (x ∈ all_macs t /\ evicted <> Some x)) /\
    match evicted with Some x => x ∈ all_macs t /\ mac ∉ all_macs t | None => True end.
Proof.
  intros [Hnd Hlen]. unfold ensure_peer. set (now := saturating_add 64 (tick t) 1).
  pose proof (touch_spec mac now (peers t)) as Ht. destruct (touch mac now (peers t)) as [ps|].
  - destruct Ht as (e & l1 & l2 & Hps & He & ->). eexists None, _. split; [done|].
    assert (Hm : all_macs (mkPeers (l1 ++ mkPeer mac now :: l2) now) = all_macs t)
      by (unfold all_macs; rewrite Hps; simpl; by rewrite !fmap_app, !fmap_cons, He).
    unfold table_ok. rewrite Hm. assert (Hin : mac ∈ all_macs t).
    { unfold all_macs. rewrite Hps, fmap_app, fmap_cons, He. set_solver. }
    split_and!; try done. intros x. split; [intros; by right|]. by intros [->|[? _]].
  - assert (Hl : len (peers t) = len (all_macs t)) by (unfold all_macs, len; by rewrite length_fmap).
    rewrite Z.geb_leb. destruct (Z.leb_spec MAX_PEERS (len (peers t))) as [Hfull|Hroom].
    + destruct (min_by_key (peers t)) as [i|] eqn:Hmin; [|by destruct (peers t)].
      apply min_by_key_spec in Hmin as (e & l1 & l2 & Hpt & <- & _). rewrite Hpt, index_app_mid by done. cbn [res_bind]. rewrite insert_mid.
      eexists _, _. split; [done|]. unfold table_ok, all_macs in *. cbn [peers]. rewrite Hpt in *.
      rewrite !fmap_app, !fmap_cons in *. cbn [pe_mac].
      assert (Hnd' : NoDup (pe_mac e :: (pe_mac <$> l1) ++ (pe_mac <$> l2))) by (by rewrite Permutation_middle).
      apply list.NoDup_cons in Hnd' as [He Hnd']. rewrite elem_of_app in He.
      split_and!; [|unfold len in *; rewrite length_app in *; simpl in *; lia|set_solver..].
      rewrite <- Permutation_middle. apply list.NoDup_cons. split; [set_solver|done].
    + eexists None, _. split; [done|]. unfold table_ok, all_macs in *. cbn [peers]. rewrite fmap_app. cbn [fmap list_fmap pe_mac].
      split_and!; [by apply NoDup_snoc|rewrite len_app; change (len [mac]) with 1; lia|set_solver..].
Qed.

Definition frame_ok (rf : RecvFrame) : Prop := msg_ok (MRecvFrame rf).

Definition ring_ok (r : RxRing) : Prop := exists q, ring_holds r q /\ Forall frame_ok q.

Record driver_ok {S} (d : EspNowDriver S) : Prop := {
  dk_peers : table_ok (peer_table d);
  dk_ring : ring_ok (rx_ring d);
  dk_channel : 1 <= current_channel d <= 14
}.

(** What the pointers given to a callback point to. *)
Definition callback_ok (cb : Callback) : Prop :=
  match cb with
  | RecvCb info data _ _ =>
      (forall i src, info = Some i -> src_addr i = Some src -> mac_ok src) /\ (forall bytes, data = Some bytes -> bytes_ok bytes)
  | SendCb _ => True
  end.

(** The ranges of the stack's C types. *)
Class StackTyped (S : Type) `{EspStack S} : Prop := {
  sy_callbacks : forall s, Forall callback_ok (es_callbacks s).1;
  sy_scan : forall s aps s', es_scan s = (Some aps, s') -> Forall (fun ap => iN 8 ap.2) aps;
  sy_mac : forall s, mac_ok (es_mac s)
}.

Lemma ring_receive_ok r rf : ring_ok r -> frame_ok rf -> exists r', ring_receive r rf = Ok r' /\ ring_ok r'.
Proof.
  intros (q & Hr & Hq) Hf. unfold ring_receive.
  destruct (Z.ltb_spec (len q) RX_RING_CAP) as [Hroom|Hfull]; [destruct (Z.leb_spec (len (rf_frame_data rf)) ESPNOW_MAX_DATA_SIZE) as [Hd|Hd]|].
  1: { destruct (ring_push_room r q (rf_peer_mac rf) (rssi rf) (rf_frame_data rf) Hr Hroom Hd) as (r' & -> & Hr'). exists r'. split; [done|].
    eexists. split; [exact Hr'|]. apply Forall_app. split; [done|]. constructor; [by destruct rf|constructor]. }
  all: rewrite (ring_push_full r q) by (done || (by left) || by right); eexists; (split; [done|]); exists q; (split; [|done]); by apply ring_drop_count.
Qed.

Lemma ring_drain_ok r :
  ring_ok r -> exists o r', ring_drain_one r = Ok (o, r') /\ ring_ok r' /\ forall rf, o = Some rf -> frame_ok rf.
Proof.
  intros (q & Hr & Hq). destruct Hq as [|rf q Hf Hq].
  - destruct (ring_drain_empty r Hr) as (r' & -> & Hr'). exists None, r'. split_and!; [done|by exists []|done].
  - destruct (ring_drain_next r rf q Hr) as (r' & -> & Hr'). exists (Some rf), r'. split_and!; [done|by exists q|]. by intros rf' [= <-].
Qed.

Section Typed.
Context {S : Type} `{StackTyped S}.
Abbreviation Dr := (EspNowDriver S).

Lemma recv_cb_ok (d : Dr) info data connected locked :
  driver_ok d -> callback_ok (RecvCb info data connected locked) ->
  exists d', raw_recv_cb d info data connected locked = Ok d' /\ driver_ok d' /\ stack d' = stack d /\ peer_table d' = peer_table d.
Proof.
  intros Hd [Hmac Hby]. unfold raw_recv_cb. destruct info as [i|], data as [bytes|]; try (by exists d).
  destruct (len bytes <=? 0); [by exists d|]. destruct (src_addr i) as [src|] eqn:Hs; [|by exists d].
  destruct (len bytes >? ESPNOW_MAX_DATA_SIZE); [by exists d|]. destruct connected; cbn [negb]; [|by exists d]. destruct Hd as [P1 P2 P3].
  destruct locked; [by eexists|].
  destruct (ring_receive_ok (rx_ring d) (mkRecvFrame src (match rx_ctrl i with None => -128 | Some v => as_i8 v end) bytes) P2) as (r & -> & Hr).
  { split_and!; simpl; [by eapply Hmac| |by apply Hby]. destruct (rx_ctrl i); [by apply signed_range|]. by vm_compute. }
  cbn [res_bind]. by eexists.
Qed.

Lemma run_callbacks_ok cbs : forall (d : Dr) c,
  driver_ok d -> counters_ok c -> Forall callback_ok cbs ->
  exists d' c', run_callbacks d c cbs = Ok (d', c') /\ driver_ok d' /\ counters_ok c' /\ stack d' = stack d /\ peer_table d' = peer_table d.
Proof.
  induction cbs as [|cb cbs IH]; intros d c Hd Hc Hcb; [by exists d, c|]. apply Forall_cons_iff in Hcb as [Hcb Hcbs]. simpl.
  destruct cb as [info data connected locked|[]]; simpl.
  - destruct (recv_cb_ok d info data connected locked Hd Hcb) as (d1 & -> & Hd1 & <- & <-). cbn [res_bind]. by apply IH.
  - by apply IH.
  - apply IH; [done| |done]. destruct Hc as (C1 & C2 & C3). repeat split; try apply C1; try apply C2; by apply wrap_range.
Qed.

Lemma catch_up_ok (d : Dr) c :
  driver_ok d -> counters_ok c ->
  exists d' c', catch_up d c = Ok (d', c') /\ driver_ok d' /\ counters_ok c' /\
    stack d' = (es_callbacks (stack d)).2 /\ peer_table d' = peer_table d.
Proof.
  intros [P1 P2 P3] Hc. unfold catch_up. pose proof (sy_callbacks (stack d)) as Hcb. destruct (es_callbacks (stack d)) as [cbs s].
  by apply (run_callbacks_ok cbs (set_stack d s) c).
Qed.

Lemma inc_tx_ok c : counters_ok c -> counters_ok (inc_tx c).
Proof. intros (C1 & C2 & C3). repeat split; try apply C2; try apply C3; by apply wrap_range. Qed.

Lemma send_ok (d : Dr) c mac data :
  driver_ok d -> counters_ok c ->
  exists ok d' c', driver_send d c mac data = Ok (ok, d', c') /\ driver_ok d' /\ counters_ok c'.
Proof.
  intros Hd Hc. unfold driver_send. destruct (catch_up_ok d c Hd Hc) as (d1 & c1 & -> & [P1 P2 P3] & Hc1 & _). cbn [res_bind].
  destruct (ensure_peer_table (peer_table d1) mac P1) as (ev & t & -> & Ht & _). cbn [res_bind].
  destruct (es_send _ _ _) as [ok s]. eexists _, _, _. split; [done|]. split; [by split|by apply inc_tx_ok].
Qed.

Lemma drain_ok (d : Dr) c :
  driver_ok d -> counters_ok c ->
  exists o d' c', driver_drain_one d c = Ok (o, d', c') /\ driver_ok d' /\ counters_ok c' /\ forall rf, o = Some rf -> frame_ok rf.
Proof.
  intros Hd Hc. unfold driver_drain_one. destruct (catch_up_ok d c Hd Hc) as (d1 & c1 & -> & [P1 P2 P3] & Hc1 & _). cbn [res_bind].
  destruct (ring_drain_ok (rx_ring (set_contention d1 0)) P2) as (o & r & -> & Hr & Ho). cbn [res_bind]. by eexists _, _, _.
Qed.

Lemma set_channel_ok (d : Dr) ch :
  driver_ok d -> byte_ok ch -> driver_ok (driver_set_channel d ch).2 /\ forall reason, (driver_set_channel d ch).1 = Some reason -> bytes_ok reason.
Proof.
  intros [P1 P2 P3] Hch. unfold driver_set_channel. rewrite Z.gtb_ltb.
  assert (Hs : forall s, Forall byte_ok (ascii_bytes s)).
  { intros s. unfold ascii_bytes. apply Forall_fmap, list.Forall_forall. intros a _. simpl. pose proof (Ascii.N_ascii_bounded a). unfold uN. lia. }
  destruct (Z.eqb_spec ch 0); [simpl; split; [done|]; by intros ? [= <-]|]. destruct (Z.ltb_spec 14 ch); [simpl; split; [done|]; by intros ? [= <-]|].
  cbn [orb]. destruct (es_set_channel (stack d) ch) as [[] s]; simpl; [|split; [done|]; by intros ? [= <-]].
  split; [|done]. split; [apply table_new_ok|done|]. simpl. unfold uN in Hch. lia.
Qed.

(** ** The channel survey *)

(** The reference: what a survey says of one channel. *)
Definition survey (aps : list (Z * Z)) (ch : Z) : Z * Z * Z :=
  let heard := (filter (fun ap => ap.1 = ch) aps).*2 in
  (ch, Z.min (len heard) 255, match heard with [] => 0 | x :: xs => fold_left Z.max xs x end).

(** The state of the counting loop after the access points [aps]. *)
Definition counted (aps : list (Z * Z)) (row : Z * Z) (ch : Z) : Prop :=
  let heard := (filter (fun ap => ap.1 = ch) aps).*2 in
  row.1 = Z.min (len heard) 65535 /\ row.2 = fold_left Z.max heard (-128).

Lemma count_ap_step aps channels ap :
  len channels = 15 -> (forall ch, 1 <= ch <= 14 -> exists row, channels !! Z.to_nat ch = Some row /\ counted aps row ch) ->
  exists channels', count_ap channels ap = Ok channels' /\ len channels' = 15 /\
    forall ch, 1 <= ch <= 14 -> exists row, channels' !! Z.to_nat ch = Some row /\ counted (aps ++ [ap]) row ch.
Proof.
  intros Hl Hc. destruct ap as [ch0 sig]. unfold count_ap. rewrite Z.geb_leb.
  assert (Hother : forall ch row, ch0 <> ch -> counted aps row ch -> counted (aps ++ [(ch0, sig)]) row ch).
  { intros ch row Hne Hr. unfold counted. rewrite list.filter_app, filter_cons_False by done. by rewrite filter_nil, app_nil_r. }
  destruct (Z.leb_spec 1 ch0); [destruct (Z.leb_spec ch0 14)|]; cbn [andb].
  2,3: exists channels; split_and!; try done; intros ch Hch; destruct (Hc ch Hch) as (row & Hrow & Hr); exists row; (split; [done|]); apply Hother; [lia|done].
  destruct (Hc ch0 ltac:(lia)) as ([n best] & Hrow & Hn & Hb). simpl in Hn, Hb. rewrite (index_Ok _ _ (n, best)) by (done || lia). cbn [res_bind].
  eexists. split; [done|]. split; [unfold len in *; by rewrite length_insert|]. intros ch Hch. destruct (decide (ch0 = ch)) as [->|Hne].
  - eexists. split; [apply list_lookup_insert_eq; by apply lookup_lt_Some in Hrow|].
    unfold counted. rewrite list.filter_app, filter_cons_True by done. rewrite filter_nil, fmap_app, len_app, fold_left_app. cbn [fmap list_fmap fst snd fold_left].
    change (len [sig]) with 1. unfold saturating_add. simpl fst. simpl snd. rewrite <- Hb, Z.gtb_ltb. split; [lia|]. destruct (Z.ltb_spec best sig); lia.
  - destruct (Hc ch Hch) as (row & Hrow' & Hr). exists row. split; [|by apply Hother]. rewrite list_lookup_insert_ne; [done|]. lia.
Qed.

Lemma count_aps_all aps : forall done_ channels,
  len channels = 15 -> (forall ch, 1 <= ch <= 14 -> exists row, channels !! Z.to_nat ch = Some row /\ counted done_ row ch) ->
  exists channels', count_aps channels aps = Ok channels' /\ len channels' = 15 /\
    forall ch, 1 <= ch <= 14 -> exists row, channels' !! Z.to_nat ch = Some row /\ counted (done_ ++ aps) row ch.
Proof.
  induction aps as [|ap aps IH]; intros done_ channels Hl Hc; simpl; [rewrite app_nil_r; by exists channels|].
  destruct (count_ap_step done_ channels ap Hl Hc) as (ch1 & -> & Hl1 & Hc1). cbn [res_bind].
  destruct (IH (done_ ++ [ap]) ch1 Hl1 Hc1) as (ch2 & -> & Hl2 & Hc2). exists ch2. split_and!; [done..|]. by rewrite <- app_assoc in Hc2.
Qed.

Lemma survey_row aps row ch :
  Forall (fun ap => iN 8 ap.2) aps -> counted aps row ch ->
  (ch, Z.min row.1 255, if Z.min row.1 255 =? 0 then 0 else row.2) = survey aps ch.
Proof.
  intros Ht [Hn Hb]. unfold survey. rewrite Hn, Hb.
  assert (Hh : Forall (iN 8) (filter (fun ap => ap.1 = ch) aps).*2) by (apply Forall_fmap, list.Forall_forall; intros ap [_ Hap]%list_elem_of_filter; by apply (proj1 (list.Forall_forall _ _) Ht)).
  destruct ((filter (fun ap => ap.1 = ch) aps).*2) as [|x xs]; [done|]. rewrite len_cons. pose proof (len_nonneg xs).
  apply Forall_cons_iff in Hh as [Hx _]. unfold iN in Hx. replace (Z.min (Z.min (1 + len xs) 65535) 255) with (Z.min (1 + len xs) 255) by lia.
  rewrite (proj2 (Z.eqb_neq (Z.min (1 + len xs) 255) 0)) by lia. simpl. by rewrite Z.max_r by lia.
Qed.

Lemma scan_rows_survey aps channels : Forall (fun ap => iN 8 ap.2) aps ->
  (forall ch, 1 <= ch <= 14 -> exists row, channels !! Z.to_nat ch = Some row /\ counted aps row ch) ->
  forall n ch, 1 <= ch -> ch + Z.of_nat n <= 15 -> scan_rows n ch channels = Ok (survey aps <$> seqZ ch (Z.of_nat n)).
Proof.
  intros Ht Hc n. induction n as [|n IH]; intros ch H1 Hn; [done|]. cbn [scan_rows].
  destruct (Hc ch ltac:(lia)) as ([k best] & Hrow & Hk). rewrite (index_Ok _ _ (k, best)) by (done || lia). cbn [res_bind].
  rewrite IH by lia. cbn [res_bind]. rewrite (seqZ_cons ch (Z.of_nat (Datatypes.S n))) by lia. cbn [fmap list_fmap].
  pose proof (survey_row aps (k, best) ch Ht Hk) as Hs. simpl in Hs. rewrite Hs. do 2 f_equal. f_equal. f_equal; lia.
Qed.

Lemma scan_ok (d : Dr) :
  exists s, driver_scan_channels d = Ok (survey (default [] (es_scan (stack d)).1) <$> seqZ 1 14, set_stack d s) /\
    s = (es_set_channel (es_scan (stack d)).2 (current_channel d)).2 /\ Forall (fun ap => iN 8 ap.2) (default [] (es_scan (stack d)).1).
Proof.
  unfold driver_scan_channels. destruct (es_scan (stack d)) as [result s] eqn:Hs. cbn [fst snd].
  assert (Ht : Forall (fun ap => iN 8 ap.2) (default [] result)) by (destruct result; [by eapply sy_scan|constructor]).
  destruct (count_aps_all (default [] result) [] (replicate 15 (0, -128))) as (chs & -> & _ & Hc); [done|..].
  { intros ch Hch. exists (0, -128). split; [|done]. apply lookup_replicate_2. lia. }
  cbn [res_bind]. destruct (es_set_channel s (current_channel d)) as [ok s'].
  rewrite (scan_rows_survey (default [] result) chs Ht Hc 14 1) by lia. cbn [res_bind]. by exists s'.
Qed.

Lemma survey_ok aps ch : Forall (fun ap => iN 8 ap.2) aps -> byte_ok ch -> let '(ch, n, s) := survey aps ch in scan_entry_ok (mkScanEntry ch n s).
Proof.
  intros Ht Hch. unfold survey. assert (Hh : Forall (iN 8) (filter (fun ap => ap.1 = ch) aps).*2).
  { apply Forall_fmap, list.Forall_forall. intros ap [_ Hap]%list_elem_of_filter. by apply (proj1 (list.Forall_forall _ _) Ht). }
  destruct ((filter (fun ap => ap.1 = ch) aps).*2) as [|x xs]; split_and!; simpl; try done.
  - unfold uN. rewrite len_cons. pose proof (len_nonneg xs). lia.
  - apply Forall_cons_iff in Hh as [Hx Hxs]. revert x Hx. induction Hxs as [|y xs Hy _ IH]; intros x Hx; simpl; [done|].
    apply IH. unfold iN in *. lia.
Qed.

Lemma reset_ok (d : Dr) : driver_ok d -> exists d', driver_reset_state d = Ok d' /\ driver_ok d'.
Proof.
  intros Hd. unfold driver_reset_state. destruct (catch_up_ok d counters_new Hd) as (d1 & c1 & -> & [P1 (q & Hr & _) P3] & _); [by repeat split|].
  cbn [res_bind]. destruct (es_set_channel _ 1) as [ok s]. eexists. split; [done|]. split; simpl; [apply table_new_ok| |lia].
  exists []. split; [by eapply ring_clear_holds|constructor].
Qed.

(** The driver is a radio as the bridge's theorems ask for. *)
#[export] Instance esp_radio_typed : RadioTyped (Res unit Dr).
Proof using All.
  refine {| rt_inv r := exists d, r = Ok d /\ driver_ok d |}.
  - intros r (d & -> & _). apply sy_mac.
  - intros r (d & -> & [_ _ Hch]). simpl. unfold uN. lia.
  - intros r c mac data (d & -> & Hd) Hc _. simpl. destruct (send_ok d c mac data Hd Hc) as (ok & d' & c' & -> & Hd' & Hc'). simpl. eauto.
  - intros r c (d & -> & Hd) Hc. simpl. destruct (drain_ok d c Hd Hc) as (o & d' & c' & -> & Hd' & Hc' & Ho). eauto.
  - intros r ch (d & -> & Hd) Hch. simpl. destruct (set_channel_ok d ch Hd Hch) as [Hd' Ho]. destruct (driver_set_channel d ch). eauto.
  - intros r (d & -> & [P1 P2 P3]). simpl. destruct (scan_ok d) as (s & -> & _ & Ht). split; [eexists; split; [done|by split]|]. split; [by vm_compute|].
    apply Forall_fmap, list.Forall_forall. intros ch Hch%elem_of_seqZ. apply survey_ok; [done|]. unfold uN. lia.
  - intros r (d & -> & Hd). simpl. destruct (reset_ok d Hd) as (d' & -> & Hd'). eauto.
Defined.
End Typed.

(** ** Peers of the stack

    The stack has its own list of at most twenty peers and refuses to send to
    others: the table exists to keep the two alike. *)

Class StackPeers (S : Type) `{EspStack S} : Type := {
  registered : S -> gset (list Z);
  sr_callbacks : forall s, registered (es_callbacks s).2 = registered s;
  sr_del : forall s m, registered (es_del_peer s m) = registered s ∖ {[m]};
  sr_exists : forall s m, es_peer_exists s m = bool_decide (m ∈ registered s);
  sr_add : forall s m ch, Z.of_nat (size (registered s)) < MAX_PEERS -> registered (es_add_peer s m ch) = {[m]} ∪ registered s;
  sr_send : forall s m data, registered (es_send s m data).2 = registered s;
  sr_channel : forall s ch, registered (es_set_channel s ch).2 = registered s;
  sr_scan : forall s, registered (es_scan s).2 = registered s
}.

Inductive RadioOp : Type := OSend (mac data : list Z) | ODrain | OSetChannel (ch : Z) | OScan | OReset.

(** What the main loop may ask of a radio, in sequence. *)
Definition radio_step {R} `{Radio R} (st : R * ModemCounters) (op : RadioOp) : R * ModemCounters :=
  let '(r, c) := st in
  match op with
  | OSend mac data => let '(_, r, c) := radio_send r c mac data in (r, c)
  | ODrain => let '(_, r, c) := radio_drain_one r c in (r, c)
  | OSetChannel ch => ((radio_set_channel r ch).2, c)
  | OScan => ((radio_scan_channels r).2, c)
  | OReset => (radio_reset_state r, c)
  end.

Definition op_ok (op : RadioOp) : Prop := match op with OSetChannel ch => byte_ok ch | _ => True end.

Section Synced.
Context {S : Type} `{EspStack S} `{!StackTyped S} `{!StackPeers S}.
Abbreviation Dr := (EspNowDriver S).

Definition synced (d : Dr) : Prop := registered (stack d) = list_to_set (all_macs (peer_table d)).

Lemma catch_up_synced (d d' : Dr) c c' : driver_ok d -> counters_ok c -> synced d -> catch_up d c = Ok (d', c') -> synced d'.
Proof using StackTyped0.
  intros Hd Hc Hs E. destruct (catch_up_ok d c Hd Hc) as (d1 & c1 & E1 & _ & _ & Hst & Ht). rewrite E1 in E. injection E as -> ->.
  unfold synced. by rewrite Hst, Ht, sr_callbacks.
Qed.

Lemma fold_del macs : forall s : S, registered (fold_left es_del_peer macs s) = registered s ∖ list_to_set macs.
Proof. induction macs as [|m macs IH]; intros s; simpl; [set_solver|]. rewrite IH, sr_del. set_solver. Qed.

Lemma clear_synced (d : Dr) : synced d -> synced (clear_all_peers d).
Proof. intros Hs. unfold synced, clear_all_peers in *. simpl. rewrite fold_del, Hs. set_solver. Qed.

Lemma send_synced (d : Dr) c mac data :
  driver_ok d -> counters_ok c -> synced d ->
  exists ok d' c', driver_send d c mac data = Ok (ok, d', c') /\ synced d' /\ mac ∈ registered (stack d') /\
    Z.of_nat (size (registered (stack d'))) <= MAX_PEERS.
Proof using StackTyped0.
  intros Hd Hc Hs. unfold driver_send. destruct (catch_up_ok d c Hd Hc) as (d1 & c1 & E1 & Hd1 & Hc1 & _).
  pose proof (catch_up_synced d d1 c c1 Hd Hc Hs E1) as Hs1. rewrite E1. cbn [res_bind]. destruct Hd1 as [[Hnd Hlen] _ _].
  destruct (ensure_peer_table (peer_table d1) mac (conj Hnd Hlen)) as (ev & t & -> & [Hnd' Hlen'] & Hin & Hknown & Hmem & Hev). cbn [res_bind].
  cbn [stack set_peer_table]. set (s1 := match ev with Some x => es_del_peer (stack d1) x | None => stack d1 end).
  set (s2 := if es_peer_exists s1 mac then s1 else _).
  assert (Hs2 : registered s2 = list_to_set (all_macs t)).
  { assert (Hr1 : registered s1 = list_to_set (all_macs (peer_table d1)) ∖ match ev with Some x => {[x]} | None => ∅ end).
    { unfold s1, synced in *. destruct ev; [rewrite sr_del|]; rewrite Hs1; set_solver. }
    assert (Hr2 : {[mac]} ∪ registered s1 = list_to_set (all_macs t)).
    { rewrite Hr1. apply set_eq. intros x. rewrite elem_of_union, elem_of_difference, elem_of_singleton, !elem_of_list_to_set, Hmem.
      destruct ev as [e|]; [rewrite elem_of_singleton; assert (x <> e <-> Some e <> Some x) by (split; congruence)|
        assert (x ∉ (∅ : gset (list Z)) <-> None <> Some x) by (split; [done|]; intros _; apply not_elem_of_empty)]; tauto. }
    unfold s2. rewrite sr_exists. case_bool_decide as Hm; [rewrite <- Hr2; set_solver|].
    rewrite sr_add; [done|]. apply (f_equal size) in Hr2. rewrite size_union, size_singleton, size_list_to_set in Hr2 by (done || set_solver).
    unfold len in Hlen'. lia. }
  destruct (es_send s2 mac data) as [ok s3] eqn:He. pose proof (sr_send s2 mac data) as Hs3. rewrite He in Hs3. simpl in Hs3.
  eexists _, _, _. split; [done|]. unfold synced. simpl. rewrite Hs3, Hs2. split; [done|]. split; [by apply elem_of_list_to_set|].
  rewrite size_list_to_set by done. exact Hlen'.
Qed.

Definition in_sync (st : Res unit Dr * ModemCounters) : Prop :=
  exists d, st.1 = Ok d /\ driver_ok d /\ synced d /\ counters_ok st.2.

Lemma radio_step_synced st op : in_sync st -> op_ok op -> in_sync (radio_step st op).
Proof using StackTyped0.
  destruct st as [r c]. intros (d & Hr & Hd & Hs & Hc) Hop. simpl in Hr, Hc. subst r. destruct op as [mac data| |ch| |]; simpl.
  - destruct (send_ok d c mac data Hd Hc) as (ok & d1 & c1 & E & Hd1 & Hc1). rewrite E.
    destruct (send_synced d c mac data Hd Hc Hs) as (ok' & d1' & c1' & E' & Hs1 & _). rewrite E in E'. injection E' as <- <- <-. by exists d1.
  - destruct (drain_ok d c Hd Hc) as (o & d1 & c1 & E & Hd1 & Hc1 & _). rewrite E. exists d1. split_and!; [done|done| |done].
    unfold driver_drain_one in E. destruct (catch_up d c) as [[d2 c2]| | |] eqn:E2; try done. cbn [res_bind] in E.
    pose proof (catch_up_synced d d2 c c2 Hd Hc Hs E2) as Hs2. destruct (ring_drain_one _) as [[o' r']| | |]; try done. by injection E as <- <- <-.
  - destruct (set_channel_ok d ch Hd Hop) as [Hd1 _]. destruct (driver_set_channel d ch) as [o d1] eqn:E. exists d1. split_and!; try done.
    unfold driver_set_channel in E. destruct ((ch =? 0) || (ch >? 14)); [by injection E as <- <-|].
    pose proof (sr_channel (stack d) ch) as Hsc. destruct (es_set_channel (stack d) ch) as [[] s]; injection E as <- <-; simpl in Hsc.
    + assert (synced (set_stack d s)) by (unfold synced in *; simpl; by rewrite Hsc). by apply clear_synced in H0.
    + unfold synced in *. simpl. by rewrite Hsc.
  - destruct (scan_ok d) as (s & -> & Hst & _). destruct Hd as [P1 P2 P3]. exists (set_stack d s). split_and!; [done|by split| |done].
    unfold synced in *. simpl. by rewrite Hst, sr_channel, sr_scan.
  - destruct (reset_ok d Hd) as (d1 & E & Hd1). rewrite E. exists d1. split_and!; [done|done| |done]. unfold driver_reset_state in E.
    destruct (catch_up d counters_new) as [[d2 c2]| | |] eqn:E2; try done. cbn [res_bind] in E.
    assert (Hs2 : synced d2) by (eapply (catch_up_synced d); [done|..|exact E2]; [by repeat split|done]). apply clear_synced in Hs2.
    pose proof (sr_channel (stack (clear_all_peers d2)) 1) as Hsc. destruct (es_set_channel (stack (clear_all_peers d2)) 1) as [ok s].
    injection E as <-. unfold synced in *. simpl in *. by rewrite Hsc.
Qed.

Lemma radio_steps_synced ops : forall st, in_sync st -> Forall op_ok ops -> in_sync (fold_left radio_step ops st).
Proof using StackTyped0.
  induction ops as [|op ops IH]; intros st Hst Hops; [done|]. apply Forall_cons_iff in Hops as [Hop Hops]. simpl.
  by apply IH; [apply radio_step_synced|].
Qed.

(** The radio driver is always ready to send.  After any sequence of sends,
    drains, channel changes, surveys and resets, with callbacks in between, the
    driver has not panicked, and a frame for any destination is given to the stack
    with that destination registered there; the stack's peers are those of the
    table, at most the twenty it has room for.  A survey reports, of each of the
    channels 1 to 14, how many access points were heard (255 at most) and the
    strongest signal, 0 if there was none. *)
Lemma radio_driver_ready (s : S) c ops mac data :
  registered s = ∅ -> counters_ok c -> Forall op_ok ops ->
  let '(r, c') := fold_left radio_step ops (Ok (driver_new s), c) in
  (exists ok d c'', radio_send r c' mac data = (ok, Ok d, c'') /\ mac ∈ registered (stack d) /\
     registered (stack d) = list_to_set (all_macs (peer_table d)) /\ Z.of_nat (size (registered (stack d))) <= MAX_PEERS) /\
  (exists d d', r = Ok d /\ radio_scan_channels r = (survey (default [] (es_scan (stack d)).1) <$> seqZ 1 14, Ok d')).
Proof using StackTyped0.
  intros Hs Hc Hops. assert (Hst : in_sync (Ok (driver_new s), c)).
  { exists (driver_new s). split_and!; [done| |exact Hs|done].
    split; [apply table_new_ok| |simpl; lia]. exists []. split; [apply ring_holds_default|constructor]. }
  pose proof (radio_steps_synced ops _ Hst Hops) as (d & Hr & Hd & Hsy & Hc').
  destruct (fold_left radio_step ops (Ok (driver_new s), c)) as [r c']. simpl in Hr, Hc'. subst r. split.
  - simpl. destruct (send_synced d c' mac data Hd Hc' Hsy) as (ok & d' & c'' & -> & Hsy' & Hin & Hsz). by eexists _, _, _.
  - simpl. destruct (scan_ok d) as (s' & -> & _). by eexists _, _.
Qed.
End Synced.
