(* ===== verification/ModemPanel.v ===== *)
(** * The modem's display driver (sonde-modem/src/display.rs)

    [EspSsd1306Display] flushes a frame to an SSD1306 panel over I2C, one page per
    iteration of the main loop, and switches the panel off when nothing new has come
    for five minutes; [ModemDisplay] stands in for a display that failed to start.
    The I2C driver and the panel are classes. *)

From S2P Require Import Prelude Modem ModemRadio ModemBridge.
Open Scope list_scope.
Open Scope Z_scope.

(** ** Constants *)

Definition I2C_TIMEOUT_MS : Z := 25.
Definition OLED_ADDR : Z := 0x3C.
(** Nanoseconds. *)
Definition DISPLAY_IDLE_TIMEOUT : Z := 300 * 1000000000.
Definition SSD1306_DISPLAY_OFF : Z := 0xAE.
Definition SSD1306_DISPLAY_ON : Z := 0xAF.

Definition SSD1306_INIT : list Z := [
  SSD1306_DISPLAY_OFF; 0x20; 0x02; 0xB0; 0xC8; 0x00; 0x10; 0x40; 0x81; 0x7F; 0xA1; 0xA6; 0xA8; 0x3F; 0xA4; 0xD3; 0x00;
  0xD5; 0x80; 0xD9; 0xF1; 0xDA; 0x12; 0xDB; 0x20; 0x8D; 0x14; SSD1306_DISPLAY_ON].

Definition i2c_timeout_ticks (TICK_RATE_HZ : Z) : Z :=
  let product := Z.min (I2C_TIMEOUT_MS * Z.max TICK_RATE_HZ 1) (2 ^ 32 - 1) in
  Z.max ((product + 999) / 1000) 1.

(** ** Power *)

Inductive PanelPowerCommand : Type := PcNone | PcWake | PcSleep.

Record IdlePowerState := mkIdle { panel_awake : bool; last_frame_at : option Z }.

Definition idle_default : IdlePowerState := mkIdle false None.
Definition note_frame_accepted_at (i : IdlePowerState) (now : Z) : IdlePowerState := mkIdle (panel_awake i) (Some now).
Definition mark_initialized (i : IdlePowerState) : IdlePowerState := mkIdle true (last_frame_at i).
Definition idle_reset (i : IdlePowerState) : IdlePowerState := i.
Definition mark_wake_succeeded (i : IdlePowerState) : IdlePowerState := mkIdle true (last_frame_at i).
Definition mark_sleep_succeeded (i : IdlePowerState) : IdlePowerState := mkIdle false (last_frame_at i).

Definition desired_command_at (i : IdlePowerState) (now : Z) (flush_pending initialized : bool) : PanelPowerCommand :=
  if flush_pending then if initialized && negb (panel_awake i) then PcWake else PcNone else
  if panel_awake i && match last_frame_at i with Some t => since_instant now t >=? DISPLAY_IDLE_TIMEOUT | None => false end
  then PcSleep else PcNone.

(** ** The bus *)

(** The ESP-IDF calls, each with whether it answered [ESP_OK] (for [i2c_link_create],
    whether a command link was allocated). *)
Class I2c (W : Type) : Type := {
  i2c_link_create : W -> bool * W;
  i2c_start : W -> bool * W;
  i2c_write_byte : W -> Z -> bool * W;
  i2c_write : W -> list Z -> bool * W;
  i2c_stop : W -> bool * W;
  i2c_cmd_begin : W -> Z -> bool * W;
  i2c_link_delete : W -> W
}.

Class Monotonic (C : Type) : Type := instant_now : C -> Z * C.

(** [if err == ESP_OK { err = call }]. *)
Definition and_then {W} (r : bool * W) (call : W -> bool * W) : bool * W := let '(ok, w) := r in if ok then call w else (ok, w).

(** ** The driver *)

Record EspSsd1306Display := mkSsd {
  d_framebuffer : list Z;
  page_buffer : list Z;
  flush_page : Z;
  flush_pending : bool;
  initialized : bool;
  idle_power : IdlePowerState
}.

Definition ssd_new : EspSsd1306Display :=
  mkSsd (replicate (Z.to_nat DISPLAY_FRAME_BODY_SIZE) 0) (replicate 128 0) 0 false false idle_default.

Definition set_flush (d : EspSsd1306Display) (pending : bool) (page : Z) : EspSsd1306Display :=
  mkSsd (d_framebuffer d) (page_buffer d) page pending (initialized d) (idle_power d).
Definition set_power (d : EspSsd1306Display) (init : bool) (i : IdlePowerState) : EspSsd1306Display :=
  mkSsd (d_framebuffer d) (page_buffer d) (flush_page d) (flush_pending d) init i.
Definition set_page_buffer (d : EspSsd1306Display) (b : list Z) : EspSsd1306Display :=
  mkSsd (d_framebuffer d) b (flush_page d) (flush_pending d) (initialized d) (idle_power d).

(** The loop over the eight pixels of a column of a page, from pixel [bit] on. *)
Fixpoint fill_bits (n : nat) (bit : Z) (fb : list Z) (page_y x page_byte : Z) : Res unit Z :=
  match n with
  | O => Ok page_byte
  | S n =>
      let y := page_y + bit in
      let src_index := y * 16 + x / 8 in
      let src_mask := Z.shiftr 0x80 (x mod 8) in
      let? b := index fb src_index in
      fill_bits n (bit + 1) fb page_y x (if negb (Z.land b src_mask =? 0) then Z.lor page_byte (Z.shiftl 1 bit) else page_byte)
  end.

Definition store (buf : list Z) (i v : Z) : Res unit (list Z) := let? _ := index buf i in Ok (<[Z.to_nat i := v]> buf).

Fixpoint fill_columns (n : nat) (x : Z) (fb : list Z) (page_y : Z) (buf : list Z) : Res unit (list Z) :=
  match n with
  | O => Ok buf
  | S n =>
      let? b := fill_bits 8 0 fb page_y x 0 in
      let? buf := store buf x b in
      fill_columns n (x + 1) fb page_y buf
  end.

Definition fill_page_buffer (d : EspSsd1306Display) (page : Z) : Res unit EspSsd1306Display :=
  let? buf := fill_columns 128 0 (d_framebuffer d) (page * 8) (page_buffer d) in Ok (set_page_buffer d buf).

Record ModemDisplay := mkModemDisplay { md_inner : option EspSsd1306Display; pending_error : bool }.

Definition display_new (d : EspSsd1306Display) : ModemDisplay := mkModemDisplay (Some d) false.
Definition display_disabled : ModemDisplay := mkModemDisplay None false.

Section Panel.
Context {W C : Type} `{I2c W} `{Monotonic C} (TICK_RATE_HZ : Z).

Definition write_transaction (w : W) (control : Z) (payload : list Z) : bool * W :=
  match i2c_link_create w with
  | (false, w) => (false, w)
  | (true, w) =>
      let r := i2c_start w in
      let r := and_then r (fun w => i2c_write_byte w (Z.shiftl OLED_ADDR 1)) in
      let r := and_then r (fun w => i2c_write_byte w control) in
      let r := and_then r (fun w => if len payload =? 0 then (true, w) else i2c_write w payload) in
      let r := and_then r i2c_stop in
      let '(ok, w) := and_then r (fun w => i2c_cmd_begin w (i2c_timeout_ticks TICK_RATE_HZ)) in
      (ok, i2c_link_delete w)
  end.

Definition write_commands (w : W) (commands : list Z) : bool * W := write_transaction w 0x00 commands.
Definition write_data (w : W) (data : list Z) : bool * W := write_transaction w 0x40 data.

Definition ssd_queue_frame (d : EspSsd1306Display) (c : C) (fb : list Z) : EspSsd1306Display * C :=
  let '(now, c) := instant_now c in
  (mkSsd fb (page_buffer d) 0 true (initialized d) (note_frame_accepted_at (idle_power d) now), c).

Definition ssd_reset (d : EspSsd1306Display) : EspSsd1306Display :=
  mkSsd (d_framebuffer d) (page_buffer d) 0 false (initialized d) (idle_reset (idle_power d)).

(** One page: its address, then its bytes. *)
Definition flush_one_page (d : EspSsd1306Display) (w : W) : Res unit (option DisplayError * EspSsd1306Display * W) :=
  let page := flush_page d in
  let? d := fill_page_buffer d page in
  let? select := arith_u true 8 (0xB0 + page) in
  let '(ok, w) := write_commands w [select; 0x00; 0x10] in
  if negb ok then Ok (Some WriteFailed, set_flush d false page, w) else
  let '(ok, w) := write_data w (page_buffer d) in
  if negb ok then Ok (Some WriteFailed, set_flush d false page, w) else
  if page =? 7 then Ok (None, set_flush d false page, w) else
  let? next := arith_u true 8 (page + 1) in Ok (None, set_flush d (flush_pending d) next, w).

Definition ssd_poll (d : EspSsd1306Display) (w : W) (now : Z) : Res unit (option DisplayError * EspSsd1306Display * W) :=
  if negb (flush_pending d) then
    match desired_command_at (idle_power d) now false (initialized d) with
    | PcSleep =>
        let '(ok, w) := write_commands w [SSD1306_DISPLAY_OFF] in
        Ok (if ok then (None, set_power d (initialized d) (mark_sleep_succeeded (idle_power d)), w) else (Some WriteFailed, d, w))
    | _ => Ok (None, d, w)
    end
  else if negb (initialized d) then
    let '(ok, w) := write_commands w SSD1306_INIT in
    Ok (if ok then (None, set_power d true (mark_initialized (idle_power d)), w) else (Some WriteFailed, set_flush d false (flush_page d), w))
  else
    match desired_command_at (idle_power d) now true (initialized d) with
    | PcWake =>
        let '(ok, w) := write_commands w [SSD1306_DISPLAY_ON] in
        Ok (if ok then (None, set_power d (initialized d) (mark_wake_succeeded (idle_power d)), w)
            else (Some WriteFailed, set_flush d false (flush_page d), w))
    | _ => flush_one_page d w
    end.

(** ** The bridge's display *)

(** [ModemDisplay] with the bus and the clock; a panic would end the firmware. *)
Abbreviation Dp := (Res unit (ModemDisplay * W * C)).

Definition modem_queue_frame (m : ModemDisplay) (c : C) (fb : list Z) : ModemDisplay * C :=
  match md_inner m with
  | Some d => let '(d, c) := ssd_queue_frame d c fb in (mkModemDisplay (Some d) (pending_error m), c)
  | None => (mkModemDisplay None true, c)
  end.

Definition modem_display_reset (m : ModemDisplay) : ModemDisplay := mkModemDisplay (ssd_reset <$> md_inner m) false.

Definition modem_display_poll (m : ModemDisplay) (w : W) (c : C) : Res unit (option DisplayError * (ModemDisplay * W * C)) :=
  if pending_error m then Ok (Some WriteFailed, (mkModemDisplay (md_inner m) false, w, c)) else
  match md_inner m with
  | Some d =>
      let '(now, c) := instant_now c in
      let? '(e, d, w) := ssd_poll d w now in
      Ok (e, (mkModemDisplay (Some d) false, w, c))
  | None => Ok (None, (m, w, c))
  end.

Definition modem_display : Display Dp := {|
  display_queue_frame r fb := match r with Ok (m, w, c) => let '(m, c) := modem_queue_frame m c fb in Ok (m, w, c) | _ => Panic end;
  display_reset r := match r with Ok (m, w, c) => Ok (modem_display_reset m, w, c) | _ => Panic end;
  display_poll r :=
    match r with
    | Ok (m, w, c) => match modem_display_poll m w c with Ok (e, st) => (e, Ok st) | _ => (None, Panic) end
    | _ => (None, Panic)
    end
|}.
End Panel.

(** ** Pages *)

(** Whether the row-major frame has the pixel [(x, y)] set. *)
Definition frame_pixel (fb : list Z) (x y : Z) : bool := Z.testbit (default 0 (fb !! Z.to_nat (y * 16 + x / 8))) (7 - x mod 8).

Lemma land_bit b n : 0 <= n -> (Z.land b (2 ^ n) =? 0) = negb (Z.testbit b n).
Proof.
  intros Hn. destruct (Z.testbit b n) eqn:Hb; simpl.
  - apply Z.eqb_neq. intros E. apply (f_equal (fun z => Z.testbit z n)) in E.
    by rewrite Z.land_spec, Hb, Z.pow2_bits_true, Z.testbit_0_l in E.
  - apply Z.eqb_eq, Z.bits_inj_0. intros m. rewrite Z.land_spec. destruct (Z.eq_dec n m) as [->|Hne]; [by rewrite Hb|].
    by rewrite Z.pow2_bits_false, andb_false_r.
Qed.

Lemma mask_bit b k : 0 <= k < 8 -> negb (Z.land b (Z.shiftr 0x80 k) =? 0) = Z.testbit b (7 - k).
Proof.
  intros Hk. replace (Z.shiftr 0x80 k) with (2 ^ (7 - k)).
  2: { rewrite Z.shiftr_div_pow2 by lia. change 0x80 with (2 ^ 7). by rewrite Z.pow_sub_r by lia. }
  rewrite land_bit by lia. apply negb_involutive.
Qed.

Lemma fill_bits_spec fb py x : len fb = 1024 -> 0 <= py <= 56 -> 0 <= x < 128 -> forall n bit acc,
  0 <= bit -> bit + Z.of_nat n = 8 ->
  exists r, fill_bits n bit fb py x acc = Ok r /\
    forall i, 0 <= i -> Z.testbit r i = (if (bit <=? i) && (i <? 8) then frame_pixel fb x (py + i) else false) || Z.testbit acc i.
Proof.
  intros Hl Hpy Hx n. induction n as [|n IH]; intros bit acc Hb Hn; cbn [fill_bits].
  - exists acc. split; [done|]. intros i Hi. destruct (Z.leb_spec bit i); [|done]. by destruct (Z.ltb_spec i 8); [lia|].
  - assert (Hx8 : 0 <= x / 8 < 16) by (split; [apply Z.div_pos|apply Z.div_lt_upper_bound]; lia).
    destruct (lookup_lt_is_Some_2 fb (Z.to_nat ((py + bit) * 16 + x / 8))) as [b Hlb]; [unfold len in Hl; lia|].
    rewrite (index_Ok _ _ b) by (done || lia). cbn [res_bind]. rewrite mask_bit by (apply Z.mod_pos_bound; lia).
    assert (Hp : Z.testbit b (7 - x mod 8) = frame_pixel fb x (py + bit)) by (unfold frame_pixel; by rewrite Hlb). rewrite Hp.
    destruct (IH (bit + 1) (if frame_pixel fb x (py + bit) then Z.lor acc (Z.shiftl 1 bit) else acc)) as (r & -> & Hr); [lia..|].
    exists r. split; [done|]. intros i Hi. rewrite Hr by done. rewrite Z.shiftl_1_l.
    assert (Ht : Z.testbit (if frame_pixel fb x (py + bit) then Z.lor acc (2 ^ bit) else acc) i =
      Z.testbit acc i || ((i =? bit) && frame_pixel fb x (py + bit))).
    { destruct (frame_pixel fb x (py + bit)); [|by rewrite andb_false_r, orb_false_r].
      rewrite Z.lor_spec, Z.pow2_bits_eqb, (Z.eqb_sym bit), andb_true_r by lia. done. }
    rewrite Ht. destruct (Z.eqb_spec i bit) as [->|Hne].
    + rewrite (proj2 (Z.leb_gt (bit + 1) bit)), Z.leb_refl, (proj2 (Z.ltb_lt bit 8)) by lia. simpl. apply orb_comm.
    + simpl. rewrite orb_false_r. f_equal. destruct (Z.leb_spec (bit + 1) i), (Z.leb_spec bit i); try lia; done.
Qed.

(** The byte of column [x] of the page whose first row is [py]. *)
Definition column_of (fb : list Z) (py x b : Z) : Prop := forall i, 0 <= i -> Z.testbit b i = (i <? 8) && frame_pixel fb x (py + i).

Lemma fill_columns_spec fb py : len fb = 1024 -> 0 <= py <= 56 -> forall n x buf,
  0 <= x -> x + Z.of_nat n = 128 -> len buf = 128 ->
  (forall i, 0 <= i < x -> exists b, buf !! Z.to_nat i = Some b /\ column_of fb py i b) ->
  exists buf', fill_columns n x fb py buf = Ok buf' /\ len buf' = 128 /\
    forall i, 0 <= i < 128 -> exists b, buf' !! Z.to_nat i = Some b /\ column_of fb py i b.
Proof.
  intros Hl Hpy n. induction n as [|n IH]; intros x buf Hx Hn Hbuf Hdone; cbn [fill_columns].
  - exists buf. split_and!; [done..|]. intros i Hi. apply Hdone. lia.
  - destruct (fill_bits_spec fb py x Hl Hpy ltac:(lia) 8 0 0 ltac:(lia) ltac:(lia)) as (b & -> & Hb). cbn [res_bind]. unfold store.
    destruct (lookup_lt_is_Some_2 buf (Z.to_nat x)) as [old Hold]; [unfold len in Hbuf; lia|].
    rewrite (index_Ok _ _ old) by (done || lia). cbn [res_bind]. apply IH; [lia..|unfold len in *; by rewrite length_insert|].
    intros i Hi. destruct (Z.eq_dec i x) as [->|Hne].
    + exists b. split; [apply list_lookup_insert_eq; unfold len in Hbuf; lia|]. intros j Hj. rewrite Hb by done.
      rewrite Z.testbit_0_l, orb_false_r. destruct (Z.leb_spec 0 j); [|lia]. by destruct (j <? 8).
    + rewrite list_lookup_insert_ne by lia. apply Hdone. lia.
Qed.

(** ** The panel

    What the datasheet says of the transactions the driver sends: after the
    initialisation the panel is lit and addresses its memory by pages; a page is
    selected with column zero, and 128 bytes written then fill it, bit [i] of byte
    [x] being the pixel [i] rows below the top of the page. *)

Class Ssd1306 (G : Type) : Type := {
  ram : G -> Z -> list Z;
  cursor : G -> Z;
  lit : G -> bool;
  receive : G -> list Z -> G;
  rx_init : forall g, let g' := receive g (0x78 :: 0x00 :: SSD1306_INIT) in lit g' = true /\ forall p, ram g' p = ram g p;
  rx_on : forall g, let g' := receive g [0x78; 0x00; SSD1306_DISPLAY_ON] in lit g' = true /\ forall p, ram g' p = ram g p;
  rx_select : forall g page, 0 <= page < 8 ->
    let g' := receive g [0x78; 0x00; 0xB0 + page; 0x00; 0x10] in cursor g' = page /\ lit g' = lit g /\ forall p, ram g' p = ram g p;
  rx_data : forall g bytes, len bytes = 128 ->
    let g' := receive g (0x78 :: 0x40 :: bytes) in
    lit g' = lit g /\ ram g' (cursor g) = bytes /\ forall p, p <> cursor g -> ram g' p = ram g p
}.

(** A command link collects bytes; run without an error, it has sent them. *)
Class PanelBus (W G : Type) `{I2c W} `{Ssd1306 G} : Type := {
  glass : W -> G;
  link : W -> list Z;
  pb_create : forall w w', i2c_link_create w = (true, w') -> link w' = [] /\ glass w' = glass w;
  pb_start : forall w w', i2c_start w = (true, w') -> link w' = link w /\ glass w' = glass w;
  pb_byte : forall w b w', i2c_write_byte w b = (true, w') -> link w' = link w ++ [b] /\ glass w' = glass w;
  pb_write : forall w bs w', i2c_write w bs = (true, w') -> link w' = link w ++ bs /\ glass w' = glass w;
  pb_stop : forall w w', i2c_stop w = (true, w') -> link w' = link w /\ glass w' = glass w;
  pb_begin : forall w t w', i2c_cmd_begin w t = (true, w') -> glass w' = receive (glass w) (link w);
  pb_delete : forall w, glass (i2c_link_delete w) = glass w
}.

Fixpoint display_polls {D} `{Display D} (n : nat) (d : D) : list (option DisplayError) * D :=
  match n with
  | O => ([], d)
  | S n => let '(e, d) := display_poll d in let '(es, d) := display_polls n d in (e :: es, d)
  end.

(** ** Safety *)

Record ssd_ok (d : EspSsd1306Display) : Prop := {
  so_frame : len (d_framebuffer d) = DISPLAY_FRAME_BODY_SIZE;
  so_buffer : len (page_buffer d) = 128;
  so_page : 0 <= flush_page d <= 7
}.

Section Render.
Context {W C G : Type} `{PanelBus W G} `{Monotonic C} (TICK_RATE_HZ : Z).

Lemma transaction_received w control payload w' :
  len payload <> 0 -> write_transaction TICK_RATE_HZ w control payload = (true, w') ->
  glass w' = receive (glass w) (0x78 :: control :: payload).
Proof.
  intros Hp. unfold write_transaction. rewrite (proj2 (Z.eqb_neq (len payload) 0)) by done.
  destruct (i2c_link_create w) as [[] w1] eqn:E1; [|done]. apply pb_create in E1 as [L1 G1].
  destruct (i2c_start w1) as [[] w2] eqn:E2; cbn [and_then]; [|done]. apply pb_start in E2 as [L2 G2].
  destruct (i2c_write_byte w2 _) as [[] w3] eqn:E3; cbn [and_then]; [|done]. apply pb_byte in E3 as [L3 G3].
  destruct (i2c_write_byte w3 _) as [[] w4] eqn:E4; cbn [and_then]; [|done]. apply pb_byte in E4 as [L4 G4].
  destruct (i2c_write w4 _) as [[] w5] eqn:E5; cbn [and_then]; [|done]. apply pb_write in E5 as [L5 G5].
  destruct (i2c_stop w5) as [[] w6] eqn:E6; cbn [and_then]; [|done]. apply pb_stop in E6 as [L6 G6].
  destruct (i2c_cmd_begin w6 _) as [[] w7] eqn:E7; [|done]. apply pb_begin in E7. intros [= <-].
  rewrite pb_delete, E7. f_equal; [congruence|]. by rewrite L6, L5, L4, L3, L2, L1.
Qed.

(** A page filled from the frame. *)
Definition page_shown (fb : list Z) (g : G) (page : Z) : Prop :=
  forall x, 0 <= x < 128 -> exists b, ram g page !! Z.to_nat x = Some b /\ column_of fb (page * 8) x b.

Lemma flush_one_page_step d w :
  ssd_ok d ->
  exists e d' w', flush_one_page TICK_RATE_HZ d w = Ok (e, d', w') /\ ssd_ok d' /\
    (e <> None -> exists v control payload, (write_transaction TICK_RATE_HZ v control payload).1 = false) /\
    (e = None ->
       d_framebuffer d' = d_framebuffer d /\ initialized d' = initialized d /\ idle_power d' = idle_power d /\
       (if flush_page d =? 7 then flush_pending d' = false else flush_pending d' = flush_pending d /\ flush_page d' = flush_page d + 1) /\
       lit (glass w') = lit (glass w) /\ page_shown (d_framebuffer d) (glass w') (flush_page d) /\
       forall p, p <> flush_page d -> ram (glass w') p = ram (glass w) p).
Proof.
  intros [P1 P2 P3]. unfold flush_one_page, fill_page_buffer.
  destruct (fill_columns_spec (d_framebuffer d) (flush_page d * 8) P1 ltac:(lia) 128 0 (page_buffer d)) as (buf & -> & Hl & Hcols); [lia..|done|intros; lia|].
  cbn [res_bind]. rewrite arith_u_in_range by lia. cbn [res_bind]. unfold write_commands, write_data. cbn [page_buffer set_page_buffer].
  destruct (write_transaction TICK_RATE_HZ w 0 _) as [[] w1] eqn:E1; cbn [negb].
  2: { eexists _, _, _. split; [done|]. split; [by split|]. split; [|done]. intros _. exists w, 0. eexists. by rewrite E1. }
  destruct (write_transaction TICK_RATE_HZ w1 0x40 buf) as [[] w2] eqn:E2; cbn [negb].
  2: { eexists _, _, _. split; [done|]. split; [by split|]. split; [|done]. intros _. exists w1, 0x40, buf. by rewrite E2. }
  apply transaction_received in E1; [|done]. apply transaction_received in E2; [|by rewrite Hl].
  destruct (rx_select (glass w) (flush_page d) ltac:(lia)) as (Hc & Hl1 & Hr1). rewrite <- E1 in Hc, Hl1, Hr1.
  destruct (rx_data (glass w1) buf Hl) as (Hl2 & Hr2 & Hr3). rewrite <- E2 in Hl2, Hr2, Hr3. rewrite Hc in Hr2, Hr3.
  assert (Hglass : lit (glass w2) = lit (glass w) /\ page_shown (d_framebuffer d) (glass w2) (flush_page d) /\
    forall p, p <> flush_page d -> ram (glass w2) p = ram (glass w) p).
  { split; [by rewrite Hl2|]. split; [|intros p Hp; by rewrite Hr3, Hr1]. unfold page_shown. by rewrite Hr2. }
  destruct (Z.eqb_spec (flush_page d) 7) as [H7|H7].
  - eexists _, _, _. split; [done|]. split; [by split|]. split; [done|]. by intros _.
  - rewrite arith_u_in_range by lia. cbn [res_bind]. eexists _, _, _. split; [done|]. split; [split; simpl; [done|done|lia]|]. split; [done|]. by intros _.
Qed.

(** Whatever the bus does, a poll does not panic. *)
Lemma ssd_poll_ok d w now : ssd_ok d -> exists e d' w', ssd_poll TICK_RATE_HZ d w now = Ok (e, d', w') /\ ssd_ok d'.
Proof.
  intros Hd. unfold ssd_poll, write_commands. destruct (flush_pending d) eqn:Hf; cbn [negb].
  - destruct (initialized d) eqn:Hi; cbn [negb].
    + destruct (flush_one_page_step d w Hd) as (e & d' & w' & E & Hd' & _). destruct Hd as [P1 P2 P3].
      destruct (desired_command_at _ _ _ _); try (by eexists _, _, _).
      destruct (write_transaction _ _ _ _) as [[] w1]; eexists _, _, _; (split; [done|]); by split.
    + destruct Hd as [P1 P2 P3]. destruct (write_transaction _ _ _ _) as [[] w1]; eexists _, _, _; (split; [done|]); by split.
  - destruct (desired_command_at _ _ _ _); try (by eexists _, _, _).
    destruct Hd as [P1 P2 P3]. destruct (write_transaction _ _ _ _) as [[] w1]; eexists _, _, _; (split; [done|]); by split.
Qed.

(** ** Flushing *)

Abbreviation Dp := (Res unit (ModemDisplay * W * C)).
Abbreviation polls n st := (display_polls (H := modem_display TICK_RATE_HZ) n st).

Lemma polls_S n (d : EspSsd1306Display) (w : W) (c : C) e d' w' :
  ssd_poll TICK_RATE_HZ d w (instant_now c).1 = Ok (e, d', w') ->
  polls (S n) (Ok (display_new d, w, c)) =
    (e :: (polls n (Ok (display_new d', w', (instant_now c).2))).1, (polls n (Ok (display_new d', w', (instant_now c).2))).2).
Proof.
  intros E. cbn [display_polls]. simpl display_poll. unfold modem_display_poll. cbn [pending_error display_new md_inner].
  destruct (instant_now c) as [now c']. simpl in E. rewrite E. cbn [res_bind fst snd]. unfold display_new. by destruct (display_polls _ _).
Qed.

Lemma polls_ok n : forall d w c, ssd_ok d ->
  exists errs d' w' c', polls n (Ok (display_new d, w, c)) = (errs, Ok (display_new d', w', c')) /\ ssd_ok d'.
Proof.
  induction n as [|n IH]; intros d w c Hd; [by eexists _, _, _, _|].
  destruct (ssd_poll_ok d w (instant_now c).1 Hd) as (e & d1 & w1 & E & Hd1). rewrite (polls_S n d w c e d1 w1 E).
  destruct (IH d1 w1 (instant_now c).2 Hd1) as (errs & d' & w' & c' & -> & Hd'). by eexists _, _, _, _.
Qed.

Definition all_well (errs : list (option DisplayError)) : Prop := Forall (fun e => e = None) errs.

Definition some_failed : Prop := exists w control payload, (write_transaction TICK_RATE_HZ w control payload).1 = false.

(** The rest of a flush, from page [flush_page d] on. *)
Lemma flush_rest n : forall d w c,
  ssd_ok d -> flush_pending d = true -> initialized d = true -> panel_awake (idle_power d) = true -> flush_page d + Z.of_nat n = 8 ->
  (forall p, 0 <= p < flush_page d -> page_shown (d_framebuffer d) (glass w) p) ->
  exists errs d' w' c', polls n (Ok (display_new d, w, c)) = (errs, Ok (display_new d', w', c')) /\ ssd_ok d' /\
    (all_well errs -> flush_pending d' = false /\ lit (glass w') = lit (glass w) /\ forall p, 0 <= p < 8 -> page_shown (d_framebuffer d) (glass w') p) /\
    (all_well errs \/ some_failed).
Proof.
  induction n as [|n IH]; intros d w c Hd Hf Hi Ha Hn Hp; [pose proof (so_page _ Hd); lia|].
  destruct (flush_one_page_step d w Hd) as (e & d1 & w1 & E & Hd1 & Herr & Hok).
  assert (E' : ssd_poll TICK_RATE_HZ d w (instant_now c).1 = Ok (e, d1, w1))
    by (unfold ssd_poll, desired_command_at; rewrite Hf, Hi, Ha; exact E).
  rewrite (polls_S n d w c e d1 w1 E'). destruct e as [err|].
  { destruct (polls_ok n d1 w1 (instant_now c).2 Hd1) as (errs & d' & w' & c' & -> & Hd'). eexists _, _, _, _. split; [done|]. split; [done|].
    split; [intros Hw; by apply Forall_cons_iff in Hw as [? _]|]. right. by apply Herr. }
  destruct (Hok eq_refl) as (Hfb & Hi1 & Hip & Hnext & Hlit & Hshown & Hram). clear Hok Herr E E'.
  assert (Hp1 : forall p, 0 <= p <= flush_page d -> page_shown (d_framebuffer d) (glass w1) p).
  { intros p Hpp. destruct (Z.eq_dec p (flush_page d)) as [->|Hne]; [done|]. intros x Hx. rewrite Hram by done. apply Hp; [lia|done]. }
  destruct (Z.eqb_spec (flush_page d) 7) as [H7|H7].
  - destruct n; [|lia]. simpl. eexists _, _, _, _. split; [done|]. split; [done|]. split; [|left; by repeat constructor]. intros _.
    split_and!; [done|done|]. intros p Hpp. apply Hp1. lia.
  - destruct Hnext as [Hf1 Hpg].
    destruct (IH d1 w1 (instant_now c).2) as (errs & d' & w' & c' & -> & Hd' & Hall & Hor); try done; [congruence..| lia | |].
    { intros p Hpp. rewrite Hfb. apply Hp1. lia. }
    rewrite Hfb in Hall. eexists _, _, _, _. split; [done|]. split; [done|]. split.
    + intros Hw. apply Forall_cons_iff in Hw as [_ Hw]. destruct (Hall Hw) as (F1 & F2 & F3). by rewrite F2.
    + destruct Hor as [Hw|]; [left; by constructor|by right].
Qed.

(** The pixel [(x, y)] of the panel. *)
Definition panel_pixel (g : G) (x y : Z) : bool := Z.testbit (default 0 (ram g (y / 8) !! Z.to_nat x)) (y mod 8).

Lemma shown_pixels fb g : (forall p, 0 <= p < 8 -> page_shown fb g p) ->
  forall x y, 0 <= x < 128 -> 0 <= y < 64 -> panel_pixel g x y = frame_pixel fb x y.
Proof.
  intros Hs x y Hx Hy. assert (Hy8 : 0 <= y / 8 < 8) by (split; [apply Z.div_pos|apply Z.div_lt_upper_bound]; lia).
  destruct (Hs (y / 8) Hy8 x Hx) as (b & Hb & Hc). unfold panel_pixel. rewrite Hb. simpl. pose proof (Z.mod_pos_bound y 8 ltac:(lia)) as Hm.
  rewrite Hc by lia. rewrite (proj2 (Z.ltb_lt (y mod 8) 8)) by lia. simpl. f_equal. rewrite (Z.div_mod y 8) at 3 by lia. lia.
Qed.

(** How many polls a frame takes: the panel may have to be initialised or woken. *)
Definition flush_polls (d : EspSsd1306Display) : nat := if initialized d && panel_awake (idle_power d) then 8 else 9.

(** C24: a frame given to the display is what the panel shows.  Whatever the driver
    was doing - nothing, flushing another frame, sleeping -, after a new frame and
    the eight or nine polls it takes (the panel may have to be initialised or woken
    first) the driver has not panicked, and unless one of these polls reported an
    error, which means that a write to the bus failed, the flush is over, the panel
    is lit, and each of its 128 by 64 pixels is that of the frame. *)
Theorem display_renders (d : EspSsd1306Display) (w : W) (c : C) fb :
  ssd_ok d -> (panel_awake (idle_power d) = true -> lit (glass w) = true) -> len fb = DISPLAY_FRAME_BODY_SIZE ->
  exists errs d' w' c',
    polls (flush_polls d) (display_queue_frame (Display := modem_display TICK_RATE_HZ) (Ok (display_new d, w, c)) fb)
      = (errs, Ok (display_new d', w', c')) /\
    (all_well errs -> flush_pending d' = false /\ lit (glass w') = true /\
       forall x y, 0 <= x < 128 -> 0 <= y < 64 -> panel_pixel (glass w') x y = frame_pixel fb x y) /\
    (all_well errs \/ some_failed).
Proof.
  intros [P1 P2 P3] Hlit Hfb. simpl display_queue_frame. unfold modem_queue_frame, ssd_queue_frame. cbn [md_inner display_new].
  destruct (instant_now c) as [t0 c0]. cbn [pending_error display_new]. set (d0 := mkSsd fb _ _ _ _ _). change (mkModemDisplay (Some d0) false) with (display_new d0).
  assert (Hd0 : ssd_ok d0) by (split; simpl; [done|done|lia]).
  assert (Hgo : forall d1 w1 c1, ssd_ok d1 -> d_framebuffer d1 = fb -> flush_pending d1 = true -> initialized d1 = true ->
    panel_awake (idle_power d1) = true -> flush_page d1 = 0 -> lit (glass w1) = true ->
    exists errs d' w' c', polls 8 (Ok (display_new d1, w1, c1)) = (errs, Ok (display_new d', w', c')) /\
      (all_well errs -> flush_pending d' = false /\ lit (glass w') = true /\
         forall x y, 0 <= x < 128 -> 0 <= y < 64 -> panel_pixel (glass w') x y = frame_pixel fb x y) /\ (all_well errs \/ some_failed)).
  { intros d1 w1 c1 Hd1 Hf1 Hp1 Hi1 Ha1 Hpg Hl1. destruct (flush_rest 8 d1 w1 c1) as (errs & d' & w' & c' & E & _ & Hall & Hor); try done; [lia|intros; lia|].
    eexists _, _, _, _. split; [exact E|]. split; [|done]. intros Hw. destruct (Hall Hw) as (F1 & F2 & F3). rewrite Hf1 in F3.
    split_and!; [done|by rewrite F2|]. by apply shown_pixels. }
  unfold flush_polls. destruct (initialized d && panel_awake (idle_power d)) eqn:Hready.
  { apply andb_true_iff in Hready as [Hi Ha]. apply Hgo; try done. by apply Hlit. }
  set (command := if initialized d then [SSD1306_DISPLAY_ON] else SSD1306_INIT).
  destruct (write_transaction TICK_RATE_HZ w 0 command) as [ok w1] eqn:E1.
  set (d1 := if ok : bool then set_power d0 true (mkIdle true (last_frame_at (idle_power d0))) else set_flush d0 false 0).
  assert (Hpoll : ssd_poll TICK_RATE_HZ d0 w (instant_now c0).1 = Ok (if ok then None else Some WriteFailed, d1, w1)).
  { unfold ssd_poll, write_commands, desired_command_at, d1, command in *. cbn [flush_pending initialized negb d0].
    destruct (initialized d) eqn:Hi; cbn [negb andb] in *; [change (panel_awake (idle_power d0)) with (panel_awake (idle_power d)); rewrite Hready; cbn [negb]|];
      rewrite E1; destruct ok; unfold set_power, d0; simpl; by rewrite ?Hi. }
  rewrite (polls_S 8 d0 w c0 _ d1 w1 Hpoll). destruct ok.
  - assert (Hl1 : lit (glass w1) = true).
    { apply transaction_received in E1; [|unfold command; by destruct (initialized d)]. rewrite E1. unfold command.
      destruct (initialized d); [apply rx_on|apply rx_init]. }
    destruct (Hgo d1 w1 (instant_now c0).2) as (errs & d' & w' & c' & -> & Hall & Hor); try done.
    eexists _, _, _, _. split; [done|]. split; [intros Hw; apply Forall_cons_iff in Hw as [_ Hw]; by apply Hall|].
    destruct Hor as [|]; [left; by constructor|by right].
  - destruct (polls_ok 8 d1 w1 (instant_now c0).2) as (errs & d' & w' & c' & -> & _); [split; simpl; [done|done|lia]|].
    eexists _, _, _, _. split; [done|]. split; [intros Hw; by apply Forall_cons_iff in Hw as [? _]|]. right. exists w, 0, command. by rewrite E1.
Qed.
End Render.
