(* ===== verification/ModemBle.v ===== *)
(** * The modem's BLE server (sonde-modem/src/ble.rs)

    [EspBleDriver] over the NimBLE stack, which is a class.  The state is shared
    between the main loop and the callbacks of the stack under a mutex: each
    critical section is an atomic step, callbacks may run whenever the main loop
    takes the lock, and the driver's operations are compositions of such steps.

    The link is encrypted before the operator has compared the numbers; what must
    not happen is that anything of the phone reaches the gateway before the operator
    has accepted. *)

From S2P Require Import Prelude Modem ModemProofs ModemRadio ModemBridge ModemTotal ModemTransparent.
Open Scope list_scope.
Open Scope Z_scope.

(** ** Constants *)

Definition MAX_BLE_EVENT_QUEUE : Z := 32.
Definition MAX_INDICATION_CHUNKS : Z := 64.
(** Nanoseconds. *)
Definition BLE_PAIRING_TIMEOUT : Z := 30 * 1000000000.
Definition BLE_IDLE_TIMEOUT : Z := 60 * 1000000000.

(** [mtu.saturating_sub(3)]. *)
Definition max_indication_payload (mtu : Z) : Z := Z.max 0 (mtu - 3).

(** ** State *)

Record BleState := mkBleState {
  events : list BleEvent;
  indication_queue : list (list Z);
  awaiting_confirm : bool;
  advertising : bool;
  ble_mtu : Z;
  conn_handle : option Z;
  pairing_pending : bool;
  deferred_connected : option (list Z * Z);
  authenticated : bool;
  connection_start : option Z;
  confirm_sent_at : option Z;
  timeout_fired : bool;
  pairing_rejected : bool;
  enc_fallback_err_logged : bool;
  pending_write : option (list Z)
}.

Definition ble_state_new : BleState := mkBleState [] [] false false 0 None false None false None None false false false None.

Definition set_events (s : BleState) x := mkBleState x (indication_queue s) (awaiting_confirm s) (advertising s) (ble_mtu s) (conn_handle s) (pairing_pending s) (deferred_connected s) (authenticated s) (connection_start s) (confirm_sent_at s) (timeout_fired s) (pairing_rejected s) (enc_fallback_err_logged s) (pending_write s).
Definition set_queue (s : BleState) x := mkBleState (events s) x (awaiting_confirm s) (advertising s) (ble_mtu s) (conn_handle s) (pairing_pending s) (deferred_connected s) (authenticated s) (connection_start s) (confirm_sent_at s) (timeout_fired s) (pairing_rejected s) (enc_fallback_err_logged s) (pending_write s).
Definition set_awaiting (s : BleState) x := mkBleState (events s) (indication_queue s) x (advertising s) (ble_mtu s) (conn_handle s) (pairing_pending s) (deferred_connected s) (authenticated s) (connection_start s) (confirm_sent_at s) (timeout_fired s) (pairing_rejected s) (enc_fallback_err_logged s) (pending_write s).
Definition set_advertising (s : BleState) x := mkBleState (events s) (indication_queue s) (awaiting_confirm s) x (ble_mtu s) (conn_handle s) (pairing_pending s) (deferred_connected s) (authenticated s) (connection_start s) (confirm_sent_at s) (timeout_fired s) (pairing_rejected s) (enc_fallback_err_logged s) (pending_write s).
Definition set_mtu (s : BleState) x := mkBleState (events s) (indication_queue s) (awaiting_confirm s) (advertising s) x (conn_handle s) (pairing_pending s) (deferred_connected s) (authenticated s) (connection_start s) (confirm_sent_at s) (timeout_fired s) (pairing_rejected s) (enc_fallback_err_logged s) (pending_write s).
Definition set_conn (s : BleState) x := mkBleState (events s) (indication_queue s) (awaiting_confirm s) (advertising s) (ble_mtu s) x (pairing_pending s) (deferred_connected s) (authenticated s) (connection_start s) (confirm_sent_at s) (timeout_fired s) (pairing_rejected s) (enc_fallback_err_logged s) (pending_write s).
Definition set_pending (s : BleState) x := mkBleState (events s) (indication_queue s) (awaiting_confirm s) (advertising s) (ble_mtu s) (conn_handle s) x (deferred_connected s) (authenticated s) (connection_start s) (confirm_sent_at s) (timeout_fired s) (pairing_rejected s) (enc_fallback_err_logged s) (pending_write s).
Definition set_deferred (s : BleState) x := mkBleState (events s) (indication_queue s) (awaiting_confirm s) (advertising s) (ble_mtu s) (conn_handle s) (pairing_pending s) x (authenticated s) (connection_start s) (confirm_sent_at s) (timeout_fired s) (pairing_rejected s) (enc_fallback_err_logged s) (pending_write s).
Definition set_auth (s : BleState) x := mkBleState (events s) (indication_queue s) (awaiting_confirm s) (advertising s) (ble_mtu s) (conn_handle s) (pairing_pending s) (deferred_connected s) x (connection_start s) (confirm_sent_at s) (timeout_fired s) (pairing_rejected s) (enc_fallback_err_logged s) (pending_write s).
Definition set_start (s : BleState) x := mkBleState (events s) (indication_queue s) (awaiting_confirm s) (advertising s) (ble_mtu s) (conn_handle s) (pairing_pending s) (deferred_connected s) (authenticated s) x (confirm_sent_at s) (timeout_fired s) (pairing_rejected s) (enc_fallback_err_logged s) (pending_write s).
Definition set_sent_at (s : BleState) x := mkBleState (events s) (indication_queue s) (awaiting_confirm s) (advertising s) (ble_mtu s) (conn_handle s) (pairing_pending s) (deferred_connected s) (authenticated s) (connection_start s) x (timeout_fired s) (pairing_rejected s) (enc_fallback_err_logged s) (pending_write s).
Definition set_fired (s : BleState) x := mkBleState (events s) (indication_queue s) (awaiting_confirm s) (advertising s) (ble_mtu s) (conn_handle s) (pairing_pending s) (deferred_connected s) (authenticated s) (connection_start s) (confirm_sent_at s) x (pairing_rejected s) (enc_fallback_err_logged s) (pending_write s).
Definition set_rejected (s : BleState) x := mkBleState (events s) (indication_queue s) (awaiting_confirm s) (advertising s) (ble_mtu s) (conn_handle s) (pairing_pending s) (deferred_connected s) (authenticated s) (connection_start s) (confirm_sent_at s) (timeout_fired s) x (enc_fallback_err_logged s) (pending_write s).
Definition set_err_logged (s : BleState) x := mkBleState (events s) (indication_queue s) (awaiting_confirm s) (advertising s) (ble_mtu s) (conn_handle s) (pairing_pending s) (deferred_connected s) (authenticated s) (connection_start s) (confirm_sent_at s) (timeout_fired s) (pairing_rejected s) x (pending_write s).
Definition set_write (s : BleState) x := mkBleState (events s) (indication_queue s) (awaiting_confirm s) (advertising s) (ble_mtu s) (conn_handle s) (pairing_pending s) (deferred_connected s) (authenticated s) (connection_start s) (confirm_sent_at s) (timeout_fired s) (pairing_rejected s) (enc_fallback_err_logged s) x.

(** Everything about a connection; events and advertising stay. *)
Definition clear_session (s : BleState) : BleState :=
  mkBleState (events s) [] false (advertising s) 0 None false None false None None false false false None.

Definition event_room (s : BleState) : bool := len (events s) <? MAX_BLE_EVENT_QUEUE.
Definition push_event (s : BleState) (e : BleEvent) : BleState := set_events s (events s ++ [e]).
Definition push_if_room (s : BleState) (e : BleEvent) : BleState := if event_room s then push_event s e else s.

(** ** Callbacks of the stack *)

Inductive NotifyTxStatus : Type := SuccessIndicate | ErrorIndicateTimeout | ErrorIndicateFailure | OtherStatus.

(** With the arguments they are given, and the time where they ask for it. *)
Inductive BleCallback : Type :=
  | OnConnect (addr : list Z) (mtu handle connected_count now : Z)
  | OnDisconnect (addr : list Z) (clean : bool)
  | OnConfirmPin (passkey now : Z)
  | OnAuthenticationComplete (ok : bool) (addr : list Z) (mtu handle : Z)
  | OnWrite (data : list Z)
  | OnNotifyTx (status : NotifyTxStatus).

Definition on_connect (s : BleState) (mtu handle now : Z) : BleState :=
  set_start (set_conn (set_mtu (set_advertising s false) mtu) (Some handle)) (Some now).

Definition on_disconnect (s : BleState) (addr : list Z) (clean : bool) : BleState :=
  push_if_room (clear_session s) (EvDisconnected addr (if clean then 0x16 else 0x13)).

Definition on_confirm_pin (s : BleState) (passkey now : Z) : BleState :=
  push_if_room (set_sent_at (set_pending s true) (Some now)) (EvPairingConfirm passkey).

Definition complete_pairing_under_lock (s : BleState) (addr : list Z) : BleState :=
  if pairing_pending s then
    match deferred_connected s with None => set_deferred s (Some (addr, ble_mtu s)) | Some _ => s end
  else if negb (authenticated s) then
    let s := set_sent_at (set_start (set_auth s true) None) None in
    let s := match pending_write s with Some data => push_if_room (set_write s None) (EvRecv data) | None => s end in
    push_if_room s (EvConnected addr (ble_mtu s))
  else s.

(** Whether the callback goes on to disconnect the client. *)
Definition on_authentication_complete (s : BleState) (ok : bool) (addr : list Z) (mtu : Z) : BleState * bool :=
  if negb ok then (s, false) else
  let s := if mtu >? 0 then set_mtu s mtu else s in
  if timeout_fired s then (s, true) else
  if pairing_rejected s then (s, true) else
  if ble_mtu s <? BLE_MTU_MIN then (s, true) else (complete_pairing_under_lock s addr, false).

Definition on_write (s : BleState) (value : list Z) : BleState :=
  if len value =? 0 then s else
  if authenticated s && event_room s then push_event s (EvRecv value) else
  if negb (authenticated s) then set_write s (Some value) else s.

Definition on_notify_tx (s : BleState) (status : NotifyTxStatus) : BleState :=
  match status with
  | SuccessIndicate => set_awaiting s false
  | ErrorIndicateTimeout | ErrorIndicateFailure => set_awaiting (set_queue s []) false
  | OtherStatus => s
  end.

Definition callback_state (s : BleState) (cb : BleCallback) : BleState :=
  match cb with
  | OnConnect _ mtu handle n now => if n >? 1 then s else on_connect s mtu handle now
  | OnDisconnect addr clean => on_disconnect s addr clean
  | OnConfirmPin passkey now => on_confirm_pin s passkey now
  | OnAuthenticationComplete ok addr mtu _ => (on_authentication_complete s ok addr mtu).1
  | OnWrite data => on_write s data
  | OnNotifyTx status => on_notify_tx s status
  end.

(** ** Critical sections of the main loop *)

Definition reply_section (s : BleState) (accept : bool) : BleState :=
  if negb (pairing_pending s) then s else
  let s := set_pending s false in
  if accept then
    match deferred_connected s with
    | None => s
    | Some (addr, mtu) =>
        let s := set_sent_at (set_start (set_auth (set_deferred s None) true) None) None in
        let s := match pending_write s with Some data => push_event (set_write s None) (EvRecv data) | None => s end in
        push_event s (EvConnected addr mtu)
    end
  else set_rejected (set_deferred s None) true.

Definition timed_out (s : BleState) (now : Z) : bool :=
  match confirm_sent_at s, connection_start s with
  | Some sent_at, _ => since_instant now sent_at >=? BLE_PAIRING_TIMEOUT
  | None, Some start => since_instant now start >=? BLE_IDLE_TIMEOUT
  | None, None => false
  end.

(** Also the connection to end, if any. *)
Definition timeout_section (s : BleState) (now : Z) : BleState * option Z :=
  match conn_handle s with
  | Some handle =>
      if authenticated s then (s, None) else
      if timed_out s now then (set_fired (set_deferred (set_pending s false) None) true, Some handle) else (s, None)
  | None => (s, None)
  end.

(** [data.chunks(n)]; the fuel is the length of the data. *)
Fixpoint chunks_of (fuel : nat) (n : Z) (data : list Z) : list (list Z) :=
  match fuel, data with
  | O, _ | _, [] => []
  | S fuel, _ => take (Z.to_nat n) data :: chunks_of fuel n (drop (Z.to_nat n) data)
  end.
Definition data_chunks (n : Z) (data : list Z) : list (list Z) := chunks_of (length data) n data.

(** [None]: there is no room for the chunks. *)
Definition indicate_section (s : BleState) (chunk_size : Z) (data : list Z) : option BleState :=
  let num_chunks := (len data + chunk_size - 1) / chunk_size in
  if len (indication_queue s) + num_chunks >? MAX_INDICATION_CHUNKS then None
  else Some (set_queue s (indication_queue s ++ data_chunks chunk_size data)).

(** The chunk to send next, and to whom. *)
Definition next_chunk_section (s : BleState) : option (list Z * Z) * BleState :=
  if awaiting_confirm s then (None, s) else
  match indication_queue s, conn_handle s with
  | chunk :: q, Some handle => (Some (chunk, handle), set_awaiting (set_queue s q) true)
  | _, _ => (None, s)
  end.

(** The connection to probe for encryption and the time of its passkey. *)
Definition fallback_guard (s : BleState) : option (Z * Z) :=
  if authenticated s || timeout_fired s || pairing_rejected s || bool_decide (is_Some (deferred_connected s)) then None else
  match confirm_sent_at s, conn_handle s with Some sent_at, Some handle => Some (handle, sent_at) | _, _ => None end.

Definition fallback_section (s : BleState) (handle sent_at mtu : Z) (addr : list Z) : BleState :=
  if negb (bool_decide (conn_handle s = Some handle)) || negb (bool_decide (confirm_sent_at s = Some sent_at))
     || authenticated s || timeout_fired s || pairing_rejected s || bool_decide (is_Some (deferred_connected s))
  then s else complete_pairing_under_lock (set_mtu s mtu) addr.

Definition drain_section (s : BleState) : option BleEvent * BleState :=
  match events s with [] => (None, s) | e :: es => (Some e, set_events s es) end.

(** ** The driver *)

Inductive ConnFind : Type := Found (encrypted : bool) (peer_addr : list Z) | NotConnected | FindError.

Class NimbleStack (N : Type) : Type := {
  n_callbacks : N -> list BleCallback * N;
  n_now : N -> Z * N;
  n_disconnect : N -> Z -> N;
  n_security_initiate : N -> Z -> N;
  n_advertise_on_disconnect : N -> bool -> N;
  n_set_data : N -> bool * N;
  n_start : N -> bool * N;
  n_stop : N -> N;
  n_notify : N -> list Z -> Z -> bool * N;
  n_conn_find : N -> Z -> ConnFind * N;
  n_att_mtu : N -> Z -> Z
}.

Record EspBleDriver (N : Type) := mkBle { nimble : N; bstate : BleState }.
Arguments mkBle {N}.
Arguments nimble {N}.
Arguments bstate {N}.

Section BleDriver.
Context {N : Type} `{NimbleStack N}.
Abbreviation Bd := (EspBleDriver N).

(** A callback with its calls into the stack. *)
Definition run_ble_callback (d : Bd) (cb : BleCallback) : Bd :=
  let s := callback_state (bstate d) cb in
  match cb with
  | OnConnect _ _ handle n _ => mkBle (if n >? 1 then n_disconnect (nimble d) handle else n_security_initiate (nimble d) handle) s
  | OnAuthenticationComplete ok addr mtu handle =>
      mkBle (if (on_authentication_complete (bstate d) ok addr mtu).2 then n_disconnect (nimble d) handle else nimble d) s
  | _ => mkBle (nimble d) s
  end.

(** Taking the lock: callbacks may have run before. *)
Definition acquire (d : Bd) : Bd :=
  let '(cbs, n) := n_callbacks (nimble d) in fold_left run_ble_callback cbs (mkBle n (bstate d)).

Definition driver_enable (d : Bd) : Bd :=
  let n := n_advertise_on_disconnect (nimble d) true in
  let '(ok, n) := n_set_data n in
  if negb ok then mkBle n (bstate d) else
  let '(ok, n) := n_start n in
  if negb ok then mkBle n (bstate d) else
  let d := acquire (mkBle n (bstate d)) in
  mkBle (nimble d) (set_advertising (bstate d) true).

Definition driver_disable (d : Bd) : Bd :=
  let n := n_advertise_on_disconnect (nimble d) false in
  let n := n_stop n in
  let d := acquire (mkBle n (bstate d)) in
  let n := match conn_handle (bstate d) with Some handle => n_disconnect (nimble d) handle | None => nimble d end in
  let d := acquire (mkBle n (bstate d)) in
  mkBle (nimble d) (set_advertising (clear_session (bstate d)) false).

Definition send_next_chunk (d : Bd) : Bd :=
  let d := acquire d in
  let '(o, s) := next_chunk_section (bstate d) in
  match o with
  | None => mkBle (nimble d) s
  | Some (chunk, handle) =>
      let '(ok, n) := n_notify (nimble d) chunk handle in
      if ok : bool then mkBle n s else
      let d := acquire (mkBle n s) in mkBle (nimble d) (set_awaiting (bstate d) false)
  end.

Definition driver_indicate (d : Bd) (data : list Z) : Bd :=
  if len data =? 0 then d else
  let d := acquire d in
  let mtu := ble_mtu (bstate d) in
  if mtu =? 0 then d else
  let chunk_size := Z.max (max_indication_payload mtu) 1 in
  let d := acquire d in
  match indicate_section (bstate d) chunk_size data with
  | None => d
  | Some s => send_next_chunk (mkBle (nimble d) s)
  end.

Definition driver_pairing_confirm_reply (d : Bd) (accept : bool) : Bd :=
  let d := acquire d in
  let s := reply_section (bstate d) accept in
  if accept || negb (pairing_pending (bstate d)) then mkBle (nimble d) s else
  mkBle (match conn_handle s with Some handle => n_disconnect (nimble d) handle | None => nimble d end) s.

Definition driver_advance_indication (d : Bd) : Bd :=
  let d := acquire d in
  match indication_queue (bstate d) with
  | _ :: _ => if awaiting_confirm (bstate d) then d else send_next_chunk d
  | [] => d
  end.

Definition driver_drain_event (d : Bd) : option BleEvent * Bd :=
  let d := acquire d in
  let '(o, s) := drain_section (bstate d) in (o, mkBle (nimble d) s).

Definition driver_check_pairing_timeout (d : Bd) : Bd :=
  let d := acquire d in
  let '(now, n) := n_now (nimble d) in
  let '(s, action) := timeout_section (bstate d) now in
  mkBle (match action with Some handle => n_disconnect n handle | None => n end) s.

Definition driver_check_encryption_fallback (d : Bd) : Bd :=
  let d := acquire d in
  match fallback_guard (bstate d) with
  | None => d
  | Some (handle, sent_at) =>
      let '(found, n) := n_conn_find (nimble d) handle in
      let d := mkBle n (bstate d) in
      match found with
      | NotConnected => d
      | FindError => let d := acquire d in mkBle (nimble d) (set_err_logged (bstate d) true)
      | Found encrypted addr =>
          let mtu := n_att_mtu n handle in
          if negb encrypted then d else
          if mtu <? BLE_MTU_MIN then d else
          let d := acquire d in
          mkBle (nimble d) (fallback_section (bstate d) handle sent_at mtu addr)
      end
  end.

#[export] Instance esp_ble : Ble Bd := {
  ble_enable := driver_enable;
  ble_disable := driver_disable;
  ble_indicate := driver_indicate;
  ble_pairing_confirm_reply := driver_pairing_confirm_reply;
  ble_advance_indication := driver_advance_indication;
  ble_check_pairing_timeout := driver_check_pairing_timeout;
  ble_check_encryption_fallback := driver_check_encryption_fallback;
  ble_drain_event := driver_drain_event
}.
End BleDriver.

(** ** Ranges *)

Definition event_ok (e : BleEvent) : Prop := msg_ok (event_message e).

Record ble_ok (s : BleState) : Prop := {
  bo_events : Forall event_ok (events s);
  bo_mtu : uN 16 (ble_mtu s);
  bo_deferred : forall addr m, deferred_connected s = Some (addr, m) -> mac_ok addr /\ uN 16 m;
  bo_write : forall data, pending_write s = Some data -> bytes_ok data
}.

(** The arguments of callbacks. *)
Definition ble_callback_ok (cb : BleCallback) : Prop :=
  match cb with
  | OnConnect addr mtu _ _ _ => mac_ok addr /\ uN 16 mtu
  | OnDisconnect addr _ => mac_ok addr
  | OnConfirmPin passkey _ => uN 32 passkey
  | OnAuthenticationComplete _ addr mtu _ => mac_ok addr /\ uN 16 mtu
  | OnWrite data => bytes_ok data
  | OnNotifyTx _ => True
  end.

Class NimbleTyped (N : Type) `{NimbleStack N} : Prop := {
  nt_callbacks : forall n, Forall ble_callback_ok (n_callbacks n).1;
  nt_mtu : forall n handle, uN 16 (n_att_mtu n handle);
  nt_find : forall n handle e addr n', n_conn_find n handle = (Found e addr, n') -> mac_ok addr
}.

Lemma push_event_ok s e : ble_ok s -> event_ok e -> ble_ok (push_event s e).
Proof. intros [P1 P2 P3 P4] He. split; simpl; try done. apply Forall_app. split; [done|]. by constructor. Qed.

Lemma push_if_room_ok s e : ble_ok s -> event_ok e -> ble_ok (push_if_room s e).
Proof. intros Hs He. unfold push_if_room. destruct (event_room s); [by apply push_event_ok|done]. Qed.

Lemma ble_clear_ok s : ble_ok s -> ble_ok (clear_session s).
Proof. intros [P1 P2 P3 P4]. by split. Qed.

(** A pending write goes out with the events. *)
Lemma flush_ok (push : BleState -> BleEvent -> BleState) s :
  (forall s e, ble_ok s -> event_ok e -> ble_ok (push s e)) -> ble_ok s ->
  ble_ok (match pending_write s with Some data => push (set_write s None) (EvRecv data) | None => s end).
Proof. intros Hp Hs. destruct (pending_write s) as [data|] eqn:Hd; [|done]. destruct Hs as [P1 P2 P3 P4]. apply Hp; [by split|by apply P4]. Qed.

Lemma complete_pairing_ok s addr : ble_ok s -> mac_ok addr -> ble_ok (complete_pairing_under_lock s addr).
Proof.
  intros Hs Ha. unfold complete_pairing_under_lock. destruct (pairing_pending s).
  { destruct (deferred_connected s); [done|]. destruct Hs as [P1 P2 P3 P4]. split; simpl; try done. by intros a m [= <- <-]. }
  destruct (authenticated s); [done|]. cbn [negb]. set (s0 := set_sent_at _ None).
  assert (Hf := flush_ok push_if_room s0 push_if_room_ok). set (s1 := match pending_write s0 with Some _ => _ | None => s0 end) in *.
  assert (Hs1 : ble_ok s1) by (apply Hf; destruct Hs; by split).
  apply push_if_room_ok; [done|]. split; [done|]. apply Hs1.
Qed.

Lemma callback_state_ok s cb : ble_ok s -> ble_callback_ok cb -> ble_ok (callback_state s cb).
Proof.
  intros Hs Hcb. destruct cb as [addr m h n now|addr clean|passkey now|ok addr m h|data|[]]; simpl.
  - destruct (n >? 1); [done|]. destruct Hs, Hcb. by split.
  - apply push_if_room_ok; [by apply ble_clear_ok|]. split; [done|]. by destruct clean.
  - apply push_if_room_ok; [destruct Hs; by split|done].
  - unfold on_authentication_complete. destruct ok; [|done]. cbn [negb]. destruct Hcb as [Ha Hm].
    set (s' := if m >? 0 then _ else s). assert (Hs' : ble_ok s') by (unfold s'; destruct (m >? 0); [destruct Hs; by split|done]).
    destruct (timeout_fired s'); [done|]. destruct (pairing_rejected s'); [done|]. destruct (ble_mtu s' <? BLE_MTU_MIN); [done|].
    by apply complete_pairing_ok.
  - unfold on_write. destruct (len data =? 0); [done|]. destruct (authenticated s && event_room s); [by apply push_event_ok|].
    destruct (authenticated s); [done|]. destruct Hs as [P1 P2 P3 P4]. split; simpl; try done. by intros d [= <-].
  - destruct Hs; by split.
  - destruct Hs; by split.
  - destruct Hs; by split.
  - done.
Qed.

Lemma reply_section_ok s accept : ble_ok s -> ble_ok (reply_section s accept).
Proof.
  intros Hs. unfold reply_section. destruct (pairing_pending s); [|done]. cbn [negb]. destruct accept; [|destruct Hs; by split].
  cbn [deferred_connected set_pending]. destruct (deferred_connected s) as [[addr m]|] eqn:Hd; [|destruct Hs; by split].
  destruct (bo_deferred _ Hs addr m Hd) as [Ha Hm]. apply push_event_ok; [|by split].
  apply (flush_ok push_event); [apply push_event_ok|]. destruct Hs. by split.
Qed.

Lemma timeout_section_ok s now : ble_ok s -> ble_ok (timeout_section s now).1.
Proof.
  intros Hs. unfold timeout_section. destruct (conn_handle s); [|done]. destruct (authenticated s); [done|].
  destruct (timed_out s now); [|done]. destruct Hs. by split.
Qed.

Lemma fallback_section_ok s handle sent_at mtu addr :
  ble_ok s -> uN 16 mtu -> mac_ok addr -> ble_ok (fallback_section s handle sent_at mtu addr).
Proof.
  intros Hs Hm Ha. unfold fallback_section. match goal with |- context [if ?c then _ else _] => destruct c end; [done|].
  apply complete_pairing_ok; [destruct Hs; by split|done].
Qed.

Section BleTypedDriver.
Context {N : Type} `{NimbleTyped N}.
Abbreviation Bd := (EspBleDriver N).

Lemma callbacks_ok cbs : Forall ble_callback_ok cbs -> forall d : Bd, ble_ok (bstate d) -> ble_ok (bstate (fold_left run_ble_callback cbs d)).
Proof.
  induction 1 as [|cb cbs Hc _ IH]; intros d Hd; [done|]. simpl. apply IH.
  pose proof (callback_state_ok (bstate d) cb Hd Hc). by destruct cb.
Qed.

Lemma acquire_ok (d : Bd) : ble_ok (bstate d) -> ble_ok (bstate (acquire d)).
Proof.
  intros Hd. unfold acquire. pose proof (nt_callbacks (nimble d)) as Hcb. destruct (n_callbacks (nimble d)) as [cbs n].
  by apply callbacks_ok.
Qed.

Lemma send_next_chunk_ok (d : Bd) : ble_ok (bstate d) -> ble_ok (bstate (send_next_chunk d)).
Proof.
  intros Hd%acquire_ok. unfold send_next_chunk. destruct (next_chunk_section (bstate (acquire d))) as [o s] eqn:E.
  assert (Hs : ble_ok s).
  { unfold next_chunk_section in E. repeat case_match; simplify_eq; try done. destruct Hd. by split. }
  destruct o as [[chunk handle]|]; [|done]. destruct (n_notify _ _ _) as [[] n]; [done|]. simpl.
  destruct (acquire_ok (mkBle n s) Hs). by split.
Qed.

(** The BLE server is as the bridge's theorems ask for. *)
#[export] Instance esp_ble_typed : BleTyped Bd.
Proof using All.
  refine {| bt_inv d := ble_ok (bstate d) |}; unfold ble_enable, ble_disable, ble_indicate, ble_pairing_confirm_reply, ble_advance_indication,
    ble_check_pairing_timeout, ble_check_encryption_fallback, ble_drain_event; simpl; intros d.
  - intros Hd. unfold driver_enable. destruct (n_set_data _) as [[] n]; [|done]. simpl. destruct (n_start n) as [[] n']; [|done]. simpl.
    destruct (acquire_ok (mkBle n' (bstate d)) Hd). by split.
  - intros Hd. unfold driver_disable. simpl.
    match goal with |- context [acquire (mkBle _ (bstate (acquire ?x)))] => pose proof (acquire_ok x Hd) as H1 end.
    match goal with |- context [clear_session (bstate (acquire ?x))] => pose proof (ble_clear_ok _ (acquire_ok x H1)) as H2 end.
    destruct H2. by split.
  - intros data Hd. unfold driver_indicate. destruct (len data =? 0); [done|]. apply acquire_ok in Hd as H1.
    destruct (ble_mtu _ =? 0); [done|]. apply acquire_ok in H1. destruct (indicate_section _ _ _) as [s|] eqn:E; [|done].
    apply send_next_chunk_ok. unfold indicate_section in E. case_match; simplify_eq. destruct H1. by split.
  - intros accept Hd%acquire_ok. unfold driver_pairing_confirm_reply.
    pose proof (reply_section_ok (bstate (acquire d)) accept Hd). by destruct (accept || _).
  - intros Hd%acquire_ok. unfold driver_advance_indication. destruct (indication_queue _); [done|]. destruct (awaiting_confirm _); [done|].
    by apply send_next_chunk_ok.
  - intros Hd%acquire_ok. unfold driver_check_pairing_timeout. destruct (n_now _) as [now n].
    pose proof (timeout_section_ok (bstate (acquire d)) now Hd). by destruct (timeout_section _ _).
  - intros Hd%acquire_ok. unfold driver_check_encryption_fallback. destruct (fallback_guard _) as [[handle sent_at]|]; [|done].
    destruct (n_conn_find _ _) as [[e addr| |] n] eqn:E; [|done|].
    + apply nt_find in E. destruct e; [|done]. simpl. destruct (_ <? BLE_MTU_MIN); [done|]. simpl.
      apply fallback_section_ok; [by apply acquire_ok|apply nt_mtu|done].
    + simpl. destruct (acquire_ok (mkBle n (bstate (acquire d))) Hd). by split.
  - intros Hd%acquire_ok. unfold driver_drain_event, drain_section.
    destruct (events (bstate (acquire d))) as [|e es] eqn:E; [done|]. destruct Hd as [P1 P2 P3 P4]. rewrite E in P1. apply Forall_cons_iff in P1 as [Pe P1].
    split; [by split|]. by intros e' [= <-].
Defined.
End BleTypedDriver.
