(* ===== verification/ModemBleSafety.v ===== *)
(** * Nothing of a phone passes before the operator's approval

    The critical sections of the BLE server as the steps of a state machine, with
    what the operator has decided about the current connection beside the server's
    own state.  As long as connections follow one another and BLE is disabled only
    between them, nothing a phone writes reaches the gateway before the operator has
    accepted its passkey; [ble_approval_bypassed] says what happens otherwise. *)

From S2P Require Import Prelude Modem ModemProofs ModemRadio ModemBridge ModemTotal ModemTransparent ModemBle.
Open Scope list_scope.
Open Scope Z_scope.

(** ** Steps *)

Inductive BleSection : Type :=
  | SCb (cb : BleCallback)
  | SEnable
  | SDisable
  | SIndicate (chunk_size : Z) (data : list Z)
  | SNext
  | SNotifyFailed
  | SReply (accept : bool)
  | SDrain
  | STimeout (now : Z)
  | SFindFailed
  | SFallback (handle sent_at mtu : Z) (addr : list Z).

Definition section_step (s : BleState) (sec : BleSection) : BleState :=
  match sec with
  | SCb cb => callback_state s cb
  | SEnable => set_advertising s true
  | SDisable => set_advertising (clear_session s) false
  | SIndicate n data => default s (indicate_section s n data)
  | SNext => (next_chunk_section s).2
  | SNotifyFailed => set_awaiting s false
  | SReply accept => reply_section s accept
  | SDrain => (drain_section s).2
  | STimeout now => (timeout_section s now).1
  | SFindFailed => set_err_logged s true
  | SFallback handle sent_at mtu addr => fallback_section s handle sent_at mtu addr
  end.

Definition sections (s : BleState) (secs : list BleSection) : BleState := fold_left section_step secs s.

(** ** The driver's operations are made of steps *)

Inductive BleOp : Type :=
  | OpEnable | OpDisable | OpIndicate (data : list Z) | OpReply (accept : bool) | OpAdvance | OpTimeout | OpFallback | OpDrain.

(** The sections of its own an operation may contain. *)
Definition own (op : BleOp) (sec : BleSection) : bool :=
  match op, sec with
  | _, SCb _ => true
  | OpEnable, SEnable | OpDisable, SDisable | OpIndicate _, SIndicate _ _ | OpTimeout, STimeout _ | OpDrain, SDrain => true
  | (OpIndicate _ | OpAdvance), (SNext | SNotifyFailed) => true
  | OpReply a, SReply b => eqb a b
  | OpFallback, (SFindFailed | SFallback _ _ _ _) => true
  | _, _ => false
  end.

Section Operations.
Context {N : Type} `{NimbleStack N}.
Abbreviation Bd := (EspBleDriver N).

Definition run_op (d : Bd) (op : BleOp) : Bd :=
  match op with
  | OpEnable => ble_enable d
  | OpDisable => ble_disable d
  | OpIndicate data => ble_indicate d data
  | OpReply accept => ble_pairing_confirm_reply d accept
  | OpAdvance => ble_advance_indication d
  | OpTimeout => ble_check_pairing_timeout d
  | OpFallback => ble_check_encryption_fallback d
  | OpDrain => (ble_drain_event d).2
  end.

(** From [s], sections of the operation lead to the state of [d]. *)
Definition reaches (op : BleOp) (s : BleState) (d : Bd) : Prop :=
  exists secs, Forall (fun sec => own op sec = true) secs /\ bstate d = sections s secs.

Lemma reaches_refl op d : reaches op (bstate d) d.
Proof. by exists []. Qed.

Lemma reaches_step op s (d d' : Bd) sec : reaches op s d -> own op sec = true -> bstate d' = section_step (bstate d) sec -> reaches op s d'.
Proof.
  intros (secs & Hf & E) Ho E'. exists (secs ++ [sec]). split; [apply Forall_app; split; [done|by constructor]|].
  unfold sections in *. by rewrite fold_left_app, <- E.
Qed.

Lemma reaches_acquire op s (d : Bd) : reaches op s d -> reaches op s (acquire d).
Proof.
  intros Hd. unfold acquire. destruct (n_callbacks (nimble d)) as [cbs n].
  assert (Hgo : forall d' : Bd, reaches op s d' -> reaches op s (fold_left run_ble_callback cbs d')).
  { induction cbs as [|cb cbs IH]; intros d' Hd'; [done|]. simpl. apply IH.
    eapply (reaches_step op s d' _ (SCb cb)); [done|by destruct op|by destruct cb]. }
  by apply Hgo.
Qed.

Lemma reaches_next op s (d : Bd) : own op SNext = true -> own op SNotifyFailed = true -> reaches op s d -> reaches op s (send_next_chunk d).
Proof.
  intros H1 H2 Hd%reaches_acquire. unfold send_next_chunk. destruct (next_chunk_section (bstate (acquire d))) as [o s'] eqn:E.
  assert (Hs : forall n, reaches op s (mkBle n s')) by (intros n; eapply (reaches_step op s _ _ SNext); [exact Hd|done|simpl; by rewrite E]).
  destruct o as [[chunk handle]|]; [|apply Hs]. destruct (n_notify _ _ _) as [[] n]; [apply Hs|].
  eapply (reaches_step op s _ _ SNotifyFailed); [apply reaches_acquire, Hs|done|done].
Qed.

(** Every operation is a sequence of callbacks and of sections of its own. *)
Lemma operation_sections (d : Bd) op : reaches op (bstate d) (run_op d op).
Proof.
  pose proof (reaches_refl op d) as Hr. pose proof (reaches_acquire op _ d Hr) as Ha. destruct op; simpl.
  - unfold driver_enable. destruct (n_set_data _) as [[] n]; [|exact Hr]. destruct (n_start n) as [[] n']; [|exact Hr]. cbn [negb].
    eapply (reaches_step OpEnable _ _ _ SEnable); [|done|done]. by apply reaches_acquire.
  - unfold driver_disable. eapply (reaches_step OpDisable _ _ _ SDisable); [|done|done]. apply reaches_acquire.
    match goal with |- reaches _ _ (mkBle _ (bstate (acquire ?x))) => pose proof (reaches_acquire OpDisable (bstate d) x Hr) as H1 end. exact H1.
  - unfold driver_indicate. destruct (len data =? 0); [done|]. destruct (ble_mtu _ =? 0); [done|].
    pose proof (reaches_acquire _ _ _ Ha) as Haa. set (n := Z.max _ 1). destruct (indicate_section _ _ _) as [s|] eqn:E; [|done].
    apply reaches_next; [done..|]. eapply (reaches_step _ _ _ _ (SIndicate n data)); [exact Haa|done|]. simpl. by rewrite E.
  - unfold driver_pairing_confirm_reply. destruct (accept || _);
      (eapply (reaches_step _ _ _ _ (SReply accept)); [exact Ha|simpl; by destruct accept|done]).
  - unfold driver_advance_indication. destruct (indication_queue _); [done|]. destruct (awaiting_confirm _); [done|]. by apply reaches_next.
  - unfold driver_check_pairing_timeout. destruct (n_now _) as [now n]. destruct (timeout_section _ now) as [s o] eqn:E.
    eapply (reaches_step _ _ _ _ (STimeout now)); [exact Ha|done|]. simpl. by rewrite E.
  - unfold driver_check_encryption_fallback. destruct (fallback_guard _) as [[handle sent_at]|]; [|done].
    destruct (n_conn_find _ _) as [[[] addr| |] n]; [|exact Ha..|].
    + cbn [negb]. destruct (_ <? BLE_MTU_MIN); [exact Ha|].
      apply (reaches_step OpFallback _ (acquire (mkBle n (bstate (acquire d)))) _ (SFallback handle sent_at (n_att_mtu n handle) addr)); [|done..].
      by apply reaches_acquire.
    + apply (reaches_step OpFallback _ (acquire (mkBle n (bstate (acquire d)))) _ SFindFailed); [|done..]. by apply reaches_acquire.
  - unfold driver_drain_event. destruct (drain_section _) as [o s] eqn:E. eapply (reaches_step _ _ _ _ SDrain); [exact Ha|done|]. simpl. by rewrite E.
Qed.
End Operations.

(** ** What the operator has decided *)

(** No connection; connected; passkey shown and undecided; accepted; rejected;
    paired without a passkey. *)
Inductive Phase : Type := Down | Fresh | Asked | Accepted | Rejected | Secured.

(** [None]: not a step of connections that follow one another, each paired once,
    with BLE disabled only in between. *)
Definition phase_step (p : Phase) (sec : BleSection) : option Phase :=
  match sec with
  | SCb (OnConnect _ _ _ n _) => match p with Down => if n >? 1 then None else Some Fresh | _ => None end
  | SCb (OnDisconnect _ _) => match p with Down => None | _ => Some Down end
  | SCb (OnConfirmPin _ _) => match p with Fresh => Some Asked | _ => None end
  | SCb (OnAuthenticationComplete ok _ _ _) => match p with Down => None | Fresh => Some (if ok then Secured else Fresh) | p => Some p end
  | SCb (OnWrite _) => match p with Down => None | p => Some p end
  | SDisable => match p with Down => Some Down | _ => None end
  | SReply accept => match p with Asked => Some (if accept then Accepted else Rejected) | p => Some p end
  | _ => Some p
  end.

Definition approved (p : Phase) : Prop := p = Accepted \/ p = Secured.

Definition relays (e : BleEvent) : bool := match e with EvRecv _ | EvConnected _ _ => true | _ => false end.

(** The events a step adds. *)
Definition new_events (s s' : BleState) : list BleEvent := drop (length (events s)) (events s').

Inductive run_from (s : BleState) (p : Phase) : list BleSection -> BleState -> Phase -> Prop :=
  | run_nil : run_from s p [] s p
  | run_snoc secs s1 p1 sec p2 : run_from s p secs s1 p1 -> phase_step p1 sec = Some p2 -> run_from s p (secs ++ [sec]) (section_step s1 sec) p2.

(** What the server's state knows of the decision. *)
Definition undecided (s : BleState) : Prop := authenticated s = false /\ deferred_connected s = None /\ confirm_sent_at s = None.

Definition knows (p : Phase) (s : BleState) : Prop :=
  match p with
  | Down => undecided s /\ pairing_pending s = false /\ pairing_rejected s = false /\ timeout_fired s = false /\ conn_handle s = None
  | Fresh => undecided s /\ pairing_pending s = false /\ pairing_rejected s = false
  | Asked => authenticated s = false /\ (pairing_pending s = true \/ timeout_fired s = true)
  | Rejected => authenticated s = false /\ pairing_pending s = false /\ (pairing_rejected s = true \/ timeout_fired s = true)
  | Accepted | Secured => True
  end.

Definition no_relay (s s' : BleState) : Prop := Forall (fun e => relays e = false) (new_events s s').

Lemma no_relay_same s s' : events s' = events s -> no_relay s s'.
Proof. intros E. unfold no_relay, new_events. rewrite E, drop_all. constructor. Qed.

Lemma no_relay_push s s0 e : events s0 = events s -> relays e = false -> no_relay s (push_if_room s0 e).
Proof.
  intros E He. unfold push_if_room. destruct (event_room s0); [|by apply no_relay_same]. unfold no_relay, new_events. simpl.
  rewrite E, drop_app_length. by constructor.
Qed.

(** Pairing completes only in the server's books while the operator has not decided. *)
Lemma complete_pending s addr :
  pairing_pending s = true ->
  let s' := complete_pairing_under_lock s addr in
  events s' = events s /\ authenticated s' = authenticated s /\ pairing_pending s' = true.
Proof. intros Hp. unfold complete_pairing_under_lock. rewrite Hp. by destruct (deferred_connected s). Qed.

(** A step that leaves the fields at stake alone. *)
Lemma knows_same p s s' :
  knows p s -> authenticated s' = authenticated s -> deferred_connected s' = deferred_connected s -> confirm_sent_at s' = confirm_sent_at s ->
  pairing_pending s' = pairing_pending s -> pairing_rejected s' = pairing_rejected s -> timeout_fired s' = timeout_fired s ->
  conn_handle s' = conn_handle s -> knows p s'.
Proof. intros Hk E1 E2 E3 E4 E5 E6 E7. destruct p; simpl in *; unfold undecided in *; rewrite ?E1, ?E2, ?E3, ?E4, ?E5, ?E6, ?E7; done. Qed.

Definition step_sound (s : BleState) (p : Phase) (s' : BleState) : Prop := knows p s' /\ (approved p \/ no_relay s s').

Lemma sound_approved s p s' : approved p -> step_sound s p s'.
Proof. intros Hp. split; [|by left]. by destruct Hp; subst p. Qed.

Lemma sound_same p s s' :
  knows p s -> events s' = events s -> authenticated s' = authenticated s -> deferred_connected s' = deferred_connected s ->
  confirm_sent_at s' = confirm_sent_at s -> pairing_pending s' = pairing_pending s -> pairing_rejected s' = pairing_rejected s ->
  timeout_fired s' = timeout_fired s -> conn_handle s' = conn_handle s -> step_sound s p s'.
Proof. intros. split; [by eapply knows_same|right; by apply no_relay_same]. Qed.

Lemma asked_auth s ok addr mtu : knows Asked s -> step_sound s Asked (on_authentication_complete s ok addr mtu).1.
Proof.
  intros Hk. pose proof Hk as [Ha Hp]. unfold on_authentication_complete. destruct ok; cbn [negb]; [|by apply sound_same].
  set (s1 := if mtu >? 0 then _ else s).
  assert (Hs1 : events s1 = events s /\ authenticated s1 = authenticated s /\ timeout_fired s1 = timeout_fired s /\ pairing_pending s1 = pairing_pending s)
    by (unfold s1; by destruct (mtu >? 0)). destruct Hs1 as (E1 & E2 & E3 & E4).
  assert (Hsame : step_sound s Asked s1) by (split; [split; rewrite ?E2, ?E3, ?E4; done|right; by apply no_relay_same]).
  destruct (timeout_fired s1) eqn:Hf; [done|]. destruct (pairing_rejected s1); [done|]. destruct (ble_mtu s1 <? BLE_MTU_MIN); [done|].
  destruct Hp as [Hp|Hp]; [|congruence]. destruct (complete_pending s1 addr) as (F1 & F2 & F3); [congruence|].
  split; [split; [cbn [fst]; congruence|by left]|right; apply no_relay_same; cbn [fst]; congruence].
Qed.

Lemma rejected_auth s ok addr mtu : knows Rejected s -> step_sound s Rejected (on_authentication_complete s ok addr mtu).1.
Proof.
  intros Hk. pose proof Hk as (Ha & Hp & Hr). unfold on_authentication_complete. destruct ok; cbn [negb]; [|by apply sound_same].
  set (s1 := if mtu >? 0 then _ else s). assert (Hsame : step_sound s Rejected s1) by (unfold s1; destruct (mtu >? 0); by apply sound_same).
  assert (E : timeout_fired s1 = timeout_fired s /\ pairing_rejected s1 = pairing_rejected s) by (unfold s1; by destruct (mtu >? 0)).
  destruct E as [E1 E2]. rewrite E1, E2. destruct Hr as [Hr|Hr]; rewrite Hr; [by destruct (timeout_fired s)|done].
Qed.

Lemma fallback_sound p s handle sent_at mtu addr : knows p s -> step_sound s p (fallback_section s handle sent_at mtu addr).
Proof.
  intros Hk. unfold fallback_section. match goal with |- context [if ?c then _ else _] => destruct c eqn:Hc end; [by apply sound_same|].
  rewrite !orb_false_iff, !negb_false_iff, !bool_decide_eq_true in Hc. destruct Hc as (((((_ & Hs) & Ha) & Hf) & Hr) & _).
  destruct p; try (by apply sound_approved; unfold approved; auto).
  - destruct Hk as ((_ & _ & Hn) & _). congruence.
  - destruct Hk as ((_ & _ & Hn) & _). congruence.
  - destruct Hk as [Ha' [Hp|Hp]]; [|congruence]. destruct (complete_pending (set_mtu s mtu) addr Hp) as (F1 & F2 & F3).
    split; [split; [by rewrite F2|by left]|right; by apply no_relay_same].
  - destruct Hk as (_ & _ & [Hp|Hp]); congruence.
Qed.

Lemma timeout_sound p s now : knows p s -> step_sound s p (timeout_section s now).1.
Proof.
  intros Hk. unfold timeout_section. destruct (conn_handle s) eqn:Hc; [|by apply sound_same]. destruct (authenticated s) eqn:Ha; [by apply sound_same|].
  destruct (timed_out s now); [|by apply sound_same]. split; [|right; by apply no_relay_same]. unfold knows, undecided in *. simpl. destruct p; try done.
  - destruct Hk as (_ & _ & _ & _ & Hn). congruence.
  - naive_solver.
  - split; [done|by right].
  - split_and!; [done..|by right].
Qed.

Lemma reply_sound p p' s accept : knows p s -> phase_step p (SReply accept) = Some p' -> step_sound s p' (reply_section s accept).
Proof.
  intros Hk Hp. unfold reply_section. destruct p; simplify_eq/=; try (by apply sound_approved; unfold approved; auto).
  - destruct Hk as (Hu & Hn & Hk). rewrite Hn. by apply sound_same.
  - destruct Hk as (Hu & Hn & Hk). rewrite Hn. by apply sound_same.
  - destruct accept; [by apply sound_approved; left|]. destruct Hk as [Ha Hk]. destruct (pairing_pending s) eqn:Hn; cbn [negb].
    + split; [|right; by apply no_relay_same]. split_and!; [done..|by left].
    + split; [|right; by apply no_relay_same]. split_and!; [done..|]. destruct Hk; [done|by right].
  - destruct Hk as (Ha & Hn & Hk). rewrite Hn. by apply sound_same.
Qed.

Lemma write_sound p s data : p <> Down -> knows p s -> step_sound s p (on_write s data).
Proof.
  intros Hd Hk. unfold on_write. destruct (len data =? 0); [by apply sound_same|].
  assert (Ha : approved p \/ authenticated s = false).
  { unfold approved. destruct p; simpl in Hk; unfold undecided in Hk; tauto. }
  destruct Ha as [Ha|Ha]; [by apply sound_approved|]. rewrite Ha. by apply sound_same.
Qed.

Lemma callback_sound p p' s cb : knows p s -> phase_step p (SCb cb) = Some p' -> step_sound s p' (callback_state s cb).
Proof.
  intros Hk Hp. destruct cb as [addr m h n now|addr clean|passkey now|ok addr m h|data|st]; simpl.
  - destruct p; try done. simpl in Hp. destruct (n >? 1); [done|]. injection Hp as <-. destruct Hk as (Hu & H1 & H2 & _).
    split; [by split_and!|right; by apply no_relay_same].
  - assert (p' = Down) as -> by (destruct p; simpl in Hp; congruence). split; [|right; by apply no_relay_push].
    unfold on_disconnect, push_if_room. by destruct (event_room _).
  - destruct p; try done. injection Hp as <-. destruct Hk as ((Ha & _) & _). split; [|right; by apply no_relay_push].
    unfold on_confirm_pin, push_if_room. destruct (event_room _); (split; [done|by left]).
  - destruct p; simplify_eq/=; try (by apply sound_approved; unfold approved; auto).
    + destruct ok; [apply sound_approved; by right|by apply sound_same].
    + by apply asked_auth.
    + by apply rejected_auth.
  - assert (p <> Down /\ p' = p) as [Hd ->] by (destruct p; simpl in Hp; split; congruence). by apply write_sound.
  - injection Hp as <-. destruct st; by apply sound_same.
Qed.

Lemma section_sound p p' s sec : knows p s -> phase_step p sec = Some p' -> step_sound s p' (section_step s sec).
Proof.
  intros Hk Hp. destruct sec; [by eapply callback_sound|..]; try (injection Hp as <-; simpl).
  - by apply sound_same.
  - destruct p; try done. injection Hp as <-. split; [done|right; by apply no_relay_same].
  - unfold indicate_section. case_match; by apply sound_same.
  - unfold next_chunk_section. repeat case_match; by apply sound_same.
  - by apply sound_same.
  - by eapply reply_sound.
  - unfold drain_section. destruct (events s) as [|e es] eqn:E; [by apply sound_same|]. split; [by apply (knows_same p s)|].
    right. unfold no_relay, new_events. simpl. rewrite E, drop_ge by (simpl; lia). constructor.
  - by apply timeout_sound.
  - by apply sound_same.
  - by apply fallback_sound.
Qed.

Lemma run_knows secs s p : run_from ble_state_new Down secs s p -> knows p s.
Proof.
  induction 1 as [|secs s1 p1 sec p2 _ IH Hp]; [done|]. by apply (section_sound p1 p2 s1 sec).
Qed.

(** C21: nothing of a phone that was shown a passkey reaches the gateway before the
    operator's approval, while connections follow one another.  In every interleaving of
    callbacks and of the main loop's critical sections in which a connection begins only
    when there is none, pairs at most once and is over before BLE is disabled, a step
    that queues a BLE_CONNECTED or the data of a phone for the gateway happens only when
    the operator has accepted the passkey of this connection, or when the connection was
    paired without one, which needs no approval; time-outs, rejections, late completions
    and the polling fall-back included.  Outside these runs it does not hold: see the
    end of the file. *)
Theorem ble_relay_approved secs s p sec p' :
  run_from ble_state_new Down secs s p -> phase_step p sec = Some p' -> approved p' \/ no_relay s (section_step s sec).
Proof. intros Hr Hp. apply run_knows in Hr. apply (section_sound p p' s sec Hr Hp). Qed.

(** ** Outside the assumption *)

(** C37: what the approval rests on can be forgotten while the link is up.  From every
    state of the server, whatever the operator has decided or not about the connection:
    after the critical section with which [disable] ends, or after the end of any
    connection (it is not compared with the one that is up), a pairing that completes
    with a usable MTU is taken for one without a passkey, BLE_CONNECTED is queued for
    the gateway, and so is what the phone then writes, if the queue of events has
    room. *)
Theorem ble_approval_bypassed s forget addr mtu handle data :
  (forget = SDisable \/ exists other clean, forget = SCb (OnDisconnect other clean)) ->
  BLE_MTU_MIN <= mtu -> data <> [] -> len (events s) + 3 <= MAX_BLE_EVENT_QUEUE ->
  exists s1, s1 = section_step s forget /\
    events (sections s [forget; SCb (OnAuthenticationComplete true addr mtu handle); SCb (OnWrite data)]) =
    events s1 ++ [EvConnected addr mtu; EvRecv data].
Proof.
  intros Hf Hm Hd Hr. eexists. split; [reflexivity|].
  assert (Hs1 : exists ev adv, section_step s forget = mkBleState ev [] false adv 0 None false None false None None false false false None /\ len ev + 2 <= MAX_BLE_EVENT_QUEUE).
  { destruct Hf as [->|(other & clean & ->)].
    - exists (events s), false. split; [reflexivity|]. lia.
    - cbn [section_step callback_state]. unfold on_disconnect, push_if_room. destruct (event_room (clear_session s));
        [exists (events s ++ [EvDisconnected other (if clean then 0x16 else 0x13)]), (advertising s)|exists (events s), (advertising s)]; (split; [reflexivity|]);
        rewrite ?len_app; change (len [_]) with 1; lia. }
  destruct Hs1 as (ev & adv & E & Hev). unfold sections. cbn [fold_left]. rewrite E. pose proof (len_nonneg ev).
  assert (Hroom : forall x, len x + 1 <= MAX_BLE_EVENT_QUEUE -> forall q a c m h p dc au cs sa tf rj el w, event_room (mkBleState x q a c m h p dc au cs sa tf rj el w) = true).
  { intros x Hx *. unfold event_room. apply Z.ltb_lt. simpl. lia. }
  cbn [section_step callback_state]. unfold on_authentication_complete. cbn [negb]. rewrite Z.gtb_ltb, (proj2 (Z.ltb_lt 0 mtu)) by (unfold BLE_MTU_MIN in Hm; lia).
  unfold set_mtu. cbn [timeout_fired pairing_rejected ble_mtu events]. rewrite (proj2 (Z.ltb_ge mtu BLE_MTU_MIN)) by lia.
  unfold complete_pairing_under_lock. cbn [pairing_pending authenticated negb]. unfold set_sent_at, set_start, set_auth. cbn [pending_write fst]. unfold push_if_room.
  cbn. rewrite Hroom by lia. unfold push_event, set_events. cbn. unfold on_write. destruct (Z.eqb_spec (len data) 0) as [H0|_].
  { destruct data; [done|]. rewrite len_cons in H0. pose proof (len_nonneg data). lia. }
  cbn [authenticated andb]. rewrite Hroom by (rewrite len_app; unfold len at 2; simpl; lia). cbn [andb]. unfold push_event, set_events. cbn. by rewrite <- app_assoc.
Qed.

Definition phone : list Z := [1; 2; 3; 4; 5; 6].
Definition other_phone : list Z := [9; 9; 9; 9; 9; 9].

(** The operator has rejected the phone; or is still comparing when a second one is
    turned away. *)
Definition rejected : list BleSection := [SCb (OnConnect phone 247 1 1 0); SCb (OnConfirmPin 123456 5); SReply false].
Definition comparing : list BleSection := [SCb (OnConnect phone 247 1 1 0); SCb (OnConfirmPin 123456 5); SCb (OnConnect other_phone 23 2 2 6)].

Lemma ble_approval_bypassed_witness :
  filter (fun e => relays e = true) (events (sections (sections ble_state_new rejected)
    [SDisable; SCb (OnAuthenticationComplete true phone 247 1); SCb (OnWrite [7])])) = [EvConnected phone 247; EvRecv [7]] /\
  filter (fun e => relays e = true) (events (sections (sections ble_state_new comparing)
    [SCb (OnDisconnect other_phone false); SCb (OnAuthenticationComplete true phone 247 1); SCb (OnWrite [7])])) = [EvConnected phone 247; EvRecv [7]].
Proof.
  split.
  - destruct (ble_approval_bypassed (sections ble_state_new rejected) SDisable phone 247 1 [7]) as (s1 & -> & ->);
      [by left|done|done|vm_compute; discriminate|by vm_compute].
  - destruct (ble_approval_bypassed (sections ble_state_new comparing) (SCb (OnDisconnect other_phone false)) phone 247 1 [7]) as (s1 & -> & ->);
      [right; by eexists _, _|done|done|vm_compute; discriminate|by vm_compute].
Defined.

(** ** Indications *)

Lemma chunks_of_exact fuel : forall n data, 1 <= n -> (length data <= fuel)%nat ->
  concat (chunks_of fuel n data) = data /\ Forall (fun c => 1 <= len c <= n) (chunks_of fuel n data) /\
  len (chunks_of fuel n data) = (len data + n - 1) / n.
Proof.
  induction fuel as [|fuel IH]; intros n data Hn Hf.
  { destruct data; [|simpl in Hf; lia]. simpl. split_and!; [done|constructor|]. change (len (@nil Z)) with 0. symmetry. apply Z.div_small. lia. }
  destruct data as [|x data]; [simpl; split_and!; [done|constructor|]; change (len (@nil Z)) with 0; symmetry; apply Z.div_small; lia|].
  cbn [chunks_of]. set (xs := x :: data) in *. set (k := Z.to_nat n).
  destruct (IH n (drop k xs) Hn) as (H1 & H2 & H3); [rewrite length_drop; unfold xs in *; simpl in *; lia|]. cbn [concat]. rewrite H1, take_drop.
  split; [done|]. assert (Hx : (1 <= length xs)%nat) by (unfold xs; simpl; lia). split.
  - constructor; [|done]. unfold len. rewrite length_take. lia.
  - rewrite len_cons, H3. unfold len in *. rewrite length_drop. destruct (decide (length xs <= k)%nat) as [Hle|Hgt].
    + replace (length xs - k)%nat with 0%nat by lia. change (Z.of_nat 0) with 0. rewrite Z.div_small by lia.
      apply (Z.div_unique _ _ _ (Z.of_nat (length xs) - 1)); lia.
    + replace (Z.of_nat (length xs) + n - 1) with ((Z.of_nat (length xs - k) + n - 1) + 1 * n) by lia. rewrite Z.div_add by lia. lia.
Qed.

(** The chunks handed to the stack, and those accepted for sending. *)
Fixpoint sent_chunks (s : BleState) (secs : list BleSection) : list (list Z) :=
  match secs with
  | [] => []
  | sec :: secs =>
      (match sec with SNext => option_list (fst <$> (next_chunk_section s).1) | _ => [] end) ++ sent_chunks (section_step s sec) secs
  end.

Fixpoint accepted_payloads (s : BleState) (secs : list BleSection) : list (Z * list Z) :=
  match secs with
  | [] => []
  | sec :: secs =>
      (match sec with SIndicate n data => match indicate_section s n data with Some _ => [(n, data)] | None => [] end | _ => [] end) ++
      accepted_payloads (section_step s sec) secs
  end.

(** A step of a connection that lasts and whose indications are confirmed. *)
Definition steady (sec : BleSection) : Prop :=
  match sec with
  | SCb (OnDisconnect _ _) | SDisable | SCb (OnNotifyTx (ErrorIndicateTimeout | ErrorIndicateFailure)) => False
  | SIndicate n _ => 1 <= n
  | _ => True
  end.

Lemma complete_queue s addr : indication_queue (complete_pairing_under_lock s addr) = indication_queue s.
Proof. unfold complete_pairing_under_lock, push_if_room. repeat case_match; done. Qed.

Lemma steady_queue s sec : steady sec ->
  (match sec with SNext => option_list (fst <$> (next_chunk_section s).1) | _ => [] end) ++ indication_queue (section_step s sec) =
  indication_queue s ++ concat ((fun '(n, data) => data_chunks n data) <$>
    (match sec with SIndicate n data => match indicate_section s n data with Some _ => [(n, data)] | None => [] end | _ => [] end)).
Proof.
  intros Hs. destruct sec; simpl; rewrite ?app_nil_r; try done.
  - destruct cb as [| | | | |[]]; simpl in *; try done; unfold on_connect, on_confirm_pin, on_authentication_complete, on_write, push_if_room;
      repeat case_match; simpl; rewrite ?complete_queue; done.
  - unfold indicate_section. case_match; simpl; by rewrite ?app_nil_r.
  - unfold next_chunk_section. repeat case_match; simplify_eq/=; done.
  - unfold reply_section. repeat case_match; done.
  - unfold drain_section. case_match; done.
  - unfold timeout_section. repeat case_match; done.
  - unfold fallback_section. case_match; [done|]. by rewrite complete_queue.
Qed.

Lemma steady_bound s sec : steady sec -> len (indication_queue s) <= MAX_INDICATION_CHUNKS -> len (indication_queue (section_step s sec)) <= MAX_INDICATION_CHUNKS.
Proof.
  intros Hs Hl. pose proof (steady_queue s sec Hs) as Hq. destruct sec; simpl in *; rewrite ?app_nil_r in Hq; try done; try (by rewrite Hq).
  - unfold indicate_section. rewrite Z.gtb_ltb. destruct (Z.ltb_spec MAX_INDICATION_CHUNKS (len (indication_queue s) + (len data + chunk_size - 1) / chunk_size)); [done|].
    simpl. rewrite len_app. unfold data_chunks. destruct (chunks_of_exact (length data) chunk_size data Hs ltac:(lia)) as (_ & _ & ->). lia.
  - apply (f_equal len) in Hq. rewrite len_app in Hq. pose proof (len_nonneg (option_list (fst <$> (next_chunk_section s).1))). lia.
Qed.

(** Indications arrive whole and in order.  While a connection lasts and its
    indications are confirmed, the chunks given to the stack, followed by those still
    queued, are exactly the chunks of the payloads accepted, in order, after those
    queued before; at most 64 are queued; and the chunks of a payload, each of at
    least one byte and at most the size that fits the MTU, make up the payload. *)
Lemma ble_indications_whole secs s :
  Forall steady secs -> len (indication_queue s) <= MAX_INDICATION_CHUNKS ->
  sent_chunks s secs ++ indication_queue (sections s secs) =
    indication_queue s ++ concat ((fun '(n, data) => data_chunks n data) <$> accepted_payloads s secs) /\
  len (indication_queue (sections s secs)) <= MAX_INDICATION_CHUNKS /\
  forall n data, 1 <= n -> concat (data_chunks n data) = data /\ Forall (fun c => 1 <= len c <= n) (data_chunks n data).
Proof.
  intros Hs Hl. split; [|split].
  - clear Hl. revert s. induction Hs as [|sec secs Hsec _ IH]; intros s; [simpl; by rewrite app_nil_r|].
    cbn [sent_chunks accepted_payloads]. rewrite fmap_app, concat_app, <- app_assoc. change (sections s (sec :: secs)) with (sections (section_step s sec) secs).
    rewrite IH, !app_assoc. f_equal. by apply steady_queue.
  - revert s Hl. induction Hs as [|sec secs Hsec _ IH]; intros s Hl; [done|]. apply IH. by apply steady_bound.
  - intros n data Hn. unfold data_chunks. by destruct (chunks_of_exact (length data) n data Hn ltac:(lia)) as (? & ? & _).
Qed.

(** ** Examples *)

(** A phone writes while the operator compares the numbers. *)
Lemma ble_relay_approved_witness :
  exists s, run_from ble_state_new Down [SCb (OnConnect phone 247 1 1 0); SCb (OnConfirmPin 123456 5)] s Asked /\
    no_relay s (section_step s (SCb (OnWrite [7]))).
Proof.
  assert (Hr : run_from ble_state_new Down [SCb (OnConnect phone 247 1 1 0); SCb (OnConfirmPin 123456 5)]
    (sections ble_state_new [SCb (OnConnect phone 247 1 1 0); SCb (OnConfirmPin 123456 5)]) Asked).
  { apply (run_snoc _ _ [SCb (OnConnect phone 247 1 1 0)] _ Fresh); [|done]. by apply (run_snoc _ _ [] _ Down); [constructor|]. }
  eexists. split; [exact Hr|]. destruct (ble_relay_approved _ _ _ (SCb (OnWrite [7])) Asked Hr eq_refl) as [[E|E]|Hn]; [done..|exact Hn].
Defined.

(** Sixteen bytes over an MTU of ten: two chunks sent, one left. *)
Lemma ble_indications_whole_witness :
  let s := set_conn (set_mtu ble_state_new 10) (Some 1) in
  let secs := [SIndicate 7 (replicate 16 1); SNext; SCb (OnNotifyTx SuccessIndicate); SNext] in
  sent_chunks s secs ++ indication_queue (sections s secs) = [replicate 7 1; replicate 7 1; replicate 2 1].
Proof.
  intros s secs. destruct (ble_indications_whole secs s) as [E _]; [|by vm_compute|exact E]. repeat constructor; simpl; lia.
Defined.
