(* ===== verification/GwModem.v ===== *)
(** * The gateway's modem transport (sonde-gateway/src/modem.rs)

    Requests to the modem and the dispatch of its messages to whoever waits for
    them.  A one-shot channel is a [Waiter]; a request registers one, writes its
    frame and waits while the reader task dispatches what arrives.  The serial link
    is a class: what a write does, and which messages the reader dispatches during a
    wait. *)

From S2P Require Import Prelude Modem.
Open Scope list_scope.
Open Scope Z_scope.

(** ** Waiters *)

(** The two ends of a [oneshot] channel whose sender sits in a slot: the slot is
    empty, a receiver waits, the value was sent, the sender was dropped. *)
Inductive Waiter (A : Type) : Type := Vacant | Waiting | Got (a : A) | Closed.
Arguments Vacant {A}.
Arguments Waiting {A}.
Arguments Got {A} a.
Arguments Closed {A}.

(** [slot.take()] followed by [send]: only a waiting receiver gets the value. *)
Definition fulfil {A} (w : Waiter A) (a : A) : Waiter A := match w with Waiting => Got a | w => w end.

(** [slot.take()] with the sender dropped. *)
Definition cancel {A} (w : Waiter A) : Waiter A := match w with Waiting => Closed | w => w end.

Definition is_waiting {A} (w : Waiter A) : bool := match w with Waiting => true | _ => false end.

Inductive GwBleEvent : Type :=
  | GRecv (x : BleRecv)
  | GConnected (x : BleConnected)
  | GDisconnected (x : BleDisconnected)
  | GPairingConfirm (x : BlePairingConfirm)
  | GButton (x : EventButton).

Definition RECV_CAPACITY : Z := 256.
Definition BLE_CAPACITY : Z := 64.

Record UsbEspNowTransport := mkTransport {
  ready_tx : Waiter ModemReady;
  ack_tx : Waiter Z;
  status_slot : Waiter ModemStatus;
  channel_ack_slot : Waiter Z;
  scan_slot : Waiter ScanResult;
  display_ack_slot : Waiter DisplayFrameAck;
  recv_queue : list (list Z * list Z * Z);
  ble_queue : list GwBleEvent;
  next_display_transfer_id : Z;
  warm_reboot_flag : bool
}.

Definition set_ready (t : UsbEspNowTransport) x := mkTransport x (ack_tx t) (status_slot t) (channel_ack_slot t) (scan_slot t) (display_ack_slot t) (recv_queue t) (ble_queue t) (next_display_transfer_id t) (warm_reboot_flag t).
Definition set_ack (t : UsbEspNowTransport) x := mkTransport (ready_tx t) x (status_slot t) (channel_ack_slot t) (scan_slot t) (display_ack_slot t) (recv_queue t) (ble_queue t) (next_display_transfer_id t) (warm_reboot_flag t).
Definition set_status (t : UsbEspNowTransport) x := mkTransport (ready_tx t) (ack_tx t) x (channel_ack_slot t) (scan_slot t) (display_ack_slot t) (recv_queue t) (ble_queue t) (next_display_transfer_id t) (warm_reboot_flag t).
Definition set_channel_ack (t : UsbEspNowTransport) x := mkTransport (ready_tx t) (ack_tx t) (status_slot t) x (scan_slot t) (display_ack_slot t) (recv_queue t) (ble_queue t) (next_display_transfer_id t) (warm_reboot_flag t).
Definition set_scan (t : UsbEspNowTransport) x := mkTransport (ready_tx t) (ack_tx t) (status_slot t) (channel_ack_slot t) x (display_ack_slot t) (recv_queue t) (ble_queue t) (next_display_transfer_id t) (warm_reboot_flag t).
Definition set_display_ack (t : UsbEspNowTransport) x := mkTransport (ready_tx t) (ack_tx t) (status_slot t) (channel_ack_slot t) (scan_slot t) x (recv_queue t) (ble_queue t) (next_display_transfer_id t) (warm_reboot_flag t).
Definition set_recv (t : UsbEspNowTransport) x := mkTransport (ready_tx t) (ack_tx t) (status_slot t) (channel_ack_slot t) (scan_slot t) (display_ack_slot t) x (ble_queue t) (next_display_transfer_id t) (warm_reboot_flag t).
Definition set_ble_queue (t : UsbEspNowTransport) x := mkTransport (ready_tx t) (ack_tx t) (status_slot t) (channel_ack_slot t) (scan_slot t) (display_ack_slot t) (recv_queue t) x (next_display_transfer_id t) (warm_reboot_flag t).
Definition set_next_id (t : UsbEspNowTransport) x := mkTransport (ready_tx t) (ack_tx t) (status_slot t) (channel_ack_slot t) (scan_slot t) (display_ack_slot t) (recv_queue t) (ble_queue t) x (warm_reboot_flag t).
Definition set_warm (t : UsbEspNowTransport) x := mkTransport (ready_tx t) (ack_tx t) (status_slot t) (channel_ack_slot t) (scan_slot t) (display_ack_slot t) (recv_queue t) (ble_queue t) (next_display_transfer_id t) x.

(** The transport when the startup sequence begins. *)
Definition transport_new : UsbEspNowTransport := mkTransport Waiting Waiting Vacant Vacant Vacant Vacant [] [] 0 false.

(** ** Dispatch *)

(** An event for the BLE channel; one that finds it full (for 500 ms) is dropped. *)
Definition ble_send (t : UsbEspNowTransport) (e : GwBleEvent) : UsbEspNowTransport :=
  if len (ble_queue t) <? BLE_CAPACITY then set_ble_queue t (ble_queue t ++ [e]) else t.

(** All waiters but that for MODEM_READY are cancelled. *)
Definition cancel_requests (t : UsbEspNowTransport) : UsbEspNowTransport :=
  mkTransport (ready_tx t) (cancel (ack_tx t)) (cancel (status_slot t)) (cancel (channel_ack_slot t)) (cancel (scan_slot t))
    (cancel (display_ack_slot t)) (recv_queue t) (ble_queue t) (next_display_transfer_id t) (warm_reboot_flag t).

Definition dispatch_message (t : UsbEspNowTransport) (msg : ModemMessage) : UsbEspNowTransport :=
  match msg with
  | MRecvFrame rf =>
      if len (recv_queue t) <? RECV_CAPACITY then set_recv t (recv_queue t ++ [(rf_frame_data rf, rf_peer_mac rf, rssi rf)]) else t
  | MBleRecv x => ble_send t (GRecv x)
  | MBleConnected x => ble_send t (GConnected x)
  | MBleDisconnected x => ble_send t (GDisconnected x)
  | MBlePairingConfirm x => ble_send t (GPairingConfirm x)
  | MEventButton x => ble_send t (GButton x)
  | MModemReady mr => if is_waiting (ready_tx t) then set_ready t (fulfil (ready_tx t) mr) else set_warm (cancel_requests t) true
  | MSetChannelAck ch =>
      if is_waiting (ack_tx t) then set_ack t (fulfil (ack_tx t) ch) else set_channel_ack t (fulfil (channel_ack_slot t) ch)
  | MStatus s => set_status t (fulfil (status_slot t) s)
  | MScanResult sr => set_scan t (fulfil (scan_slot t) sr)
  | MDisplayFrameAck ack => set_display_ack t (fulfil (display_ack_slot t) ack)
  | MError _ => cancel_requests (set_ready t (cancel (ready_tx t)))
  | _ => t
  end.

Definition dispatch_all (t : UsbEspNowTransport) (msgs : list ModemMessage) : UsbEspNowTransport := fold_left dispatch_message msgs t.

(** ** Requests *)

Inductive TransportError : Type :=
  | InProgress
  | BadArgument
  | WriteError
  | ChannelClosed
  | AckMismatch
  | NoAnswer.

(** The link: a write may fail; a wait yields the messages the reader dispatches
    until it is over. *)
Class Link (L : Type) : Type := {
  link_write : L -> list Z -> bool * L;
  link_wait : L -> list ModemMessage * L
}.

Section Requests.
Context {L : Type} `{Link L}.

(** Results with the transport and the link after the request. *)
Abbreviation Out A := (Res TransportError A * UsbEspNowTransport * L)%type.

Definition send_encoded (l : L) (msg : ModemMessage) : Res TransportError unit * L :=
  match encode_modem_frame msg with
  | Ok frame => let '(ok, l) := link_write l frame in (if ok : bool then Ok tt else Err WriteError, l)
  | Err _ => (Err WriteError, l)
  | Panic => (Panic, l)
  | UB => (UB, l)
  end.

(** Writes a request, then dispatches what arrives until the time is up. *)
Definition request (t : UsbEspNowTransport) (l : L) (msg : ModemMessage) : Out unit :=
  let '(r, l) := send_encoded l msg in
  match r with
  | Ok _ => let '(msgs, l) := link_wait l in (Ok tt, dispatch_all t msgs, l)
  | r => (r, t, l)
  end.

(** What the receiver of a waiter sees when the time is up. *)
Definition received {A} (w : Waiter A) : Res TransportError A :=
  match w with Got a => Ok a | Closed => Err ChannelClosed | _ => Err NoAnswer end.

Definition poll_status (t : UsbEspNowTransport) (l : L) : Out ModemStatus :=
  if is_waiting (status_slot t) then (Err InProgress, t, l) else
  let '(r, t, l) := request (set_status t Waiting) l MGetStatus in
  match r with
  | Ok _ => (received (status_slot t), set_status t Vacant, l)
  | Err e => (Err e, set_status t Vacant, l)
  | Panic => (Panic, t, l)
  | UB => (UB, t, l)
  end.

Definition channel_valid (channel : Z) : bool := (1 <=? channel) && (channel <=? 14).

Definition change_channel (t : UsbEspNowTransport) (l : L) (channel : Z) : Out unit :=
  if negb (channel_valid channel) then (Err BadArgument, t, l) else
  if is_waiting (channel_ack_slot t) then (Err InProgress, t, l) else
  let '(r, t, l) := request (set_channel_ack t Waiting) l (MSetChannel channel) in
  (let? _ := r in
   let? ack := received (channel_ack_slot t) in
   if ack =? channel then Ok tt else Err AckMismatch, set_channel_ack t Vacant, l).

Definition scan_channels (t : UsbEspNowTransport) (l : L) : Out ScanResult :=
  if is_waiting (scan_slot t) then (Err InProgress, t, l) else
  let '(r, t, l) := request (set_scan t Waiting) l MScanChannels in
  (let? _ := r in received (scan_slot t), set_scan t Vacant, l).

(** Startup: RESET up to three times on one receiver, five seconds each. *)
Fixpoint reset_loop (retries : nat) (t : UsbEspNowTransport) (l : L) : Out ModemReady :=
  let '(r, t, l) := request t l MReset in
  match r with
  | Ok _ =>
      match ready_tx t, retries with
      | Waiting, S retries => reset_loop retries t l
      | w, _ => (received w, t, l)
      end
  | Err e => (Err e, t, l)
  | Panic => (Panic, t, l)
  | UB => (UB, t, l)
  end.

Definition reset_and_wait (t : UsbEspNowTransport) (l : L) : Out ModemReady := reset_loop 2 t l.

Definition set_channel (t : UsbEspNowTransport) (l : L) (channel : Z) : Out unit :=
  if negb (channel_valid channel) then (Err BadArgument, t, l) else
  let '(r, t, l) := request t l (MSetChannel channel) in
  (let? _ := r in
   let? ack := received (ack_tx t) in
   if ack =? channel then Ok tt else Err AckMismatch, t, l).

(** [UsbEspNowTransport::new]. *)
Definition startup (l : L) (channel : Z) : Out ModemReady :=
  let '(r, t, l) := reset_and_wait transport_new l in
  match r with
  | Ok ready => let '(r, t, l) := set_channel t l channel in (let? _ := r in Ok ready, t, l)
  | r => (r, t, l)
  end.

(** [Transport::send]. *)
Definition transport_send (l : L) (frame peer : list Z) : Res TransportError unit * L :=
  if negb (len peer =? 6) then (Err BadArgument, l) else
  if (len frame =? 0) || (len frame >? ESPNOW_MAX_DATA_SIZE) then (Err BadArgument, l) else
  send_encoded l (MSendFrame (mkSendFrame peer frame)).

(** [Transport::recv] on a frame that has arrived. *)
Definition transport_recv (t : UsbEspNowTransport) : option (list Z * list Z * Z) * UsbEspNowTransport :=
  match recv_queue t with
  | [] => (None, t)
  | x :: q => (Some x, set_recv t q)
  end.

(** ** Display transfers *)

Definition DISPLAY_ACK_MAX_RETRIES : nat := 3.

(** The guard of the slot clears it at the end of every attempt. *)
Fixpoint send_display_message_wait_for_ack (retries : nat) (t : UsbEspNowTransport) (l : L) (msg : ModemMessage) (id expected : Z) : Out unit :=
  if is_waiting (display_ack_slot t) then (Err InProgress, t, l) else
  let '(r, t, l) := request (set_display_ack t Waiting) l msg in
  let w := display_ack_slot t in
  let t := set_display_ack t Vacant in
  match r with
  | Ok _ =>
      match w with
      | Got ack => (if negb (dfa_transfer_id ack =? id) || negb (next_chunk_index ack =? expected) then Err AckMismatch else Ok tt, t, l)
      | Closed => (Err ChannelClosed, t, l)
      | _ => match retries with O => (Err NoAnswer, t, l) | S retries => send_display_message_wait_for_ack retries t l msg id expected end
      end
  | r => (r, t, l)
  end.

Fixpoint send_chunks (n : nat) (t : UsbEspNowTransport) (l : L) (id index : Z) (fb : list Z) : Out unit :=
  match n with
  | O => (Ok tt, t, l)
  | S n =>
      let start := index * DISPLAY_FRAME_CHUNK_SIZE in
      match slice fb start (start + DISPLAY_FRAME_CHUNK_SIZE) with
      | Ok data =>
          let '(r, t, l) := send_display_message_wait_for_ack DISPLAY_ACK_MAX_RETRIES t l (MDisplayFrameChunk (mkChunk id index data)) id (index + 1) in
          match r with Ok _ => send_chunks n t l id (index + 1) fb | r => (r, t, l) end
      | Err e => (Err e, t, l)
      | Panic => (Panic, t, l)
      | UB => (UB, t, l)
      end
  end.

Definition send_display_frame (t : UsbEspNowTransport) (l : L) (fb : list Z) : Out unit :=
  let id := next_display_transfer_id t in
  let t := set_next_id t (wrap 8 (id + 1)) in
  let '(r, t, l) := send_display_message_wait_for_ack DISPLAY_ACK_MAX_RETRIES t l (MDisplayFrameBegin (mkBegin id)) id 0 in
  match r with Ok _ => send_chunks (Z.to_nat DISPLAY_FRAME_CHUNK_COUNT) t l id 0 fb | r => (r, t, l) end.
End Requests.
