(* ===== verification/ModemLink.v ===== *)
(** * Display transfers over a lossy serial line

    The gateway's sender ([GwModem]) against the modem's bridge ([ModemBridge]), with a
    line in between that keeps the order of messages but may lose a message or an
    answer, hold either back for any time, bring chunks of other transfers to the modem
    and acknowledgements of other transfers to the gateway.  The display never shows
    anything but the frame that was sent, and a transfer that is reported complete was
    shown.  Lost messages are made up for by retransmission, with one exception: when
    the acknowledgement of the last chunk is lost, the modem has already forgotten the
    transfer and answers the retransmission with an error. *)

From Stdlib Require Import Sorted.
From S2P Require Import Prelude Modem ModemProofs ModemRadio ModemBridge ModemTotal ModemTransparent GwModem.
Open Scope list_scope.
Open Scope Z_scope.

Lemma inserts_mid {A} (pre mid post new : list A) :
  length new = length mid -> list_inserts (length pre) new (pre ++ mid ++ post) = pre ++ new ++ post.
Proof. intros Hl. rewrite <- (Nat.add_0_r (length pre)), list_inserts_app_r, list_inserts_0_r by done. done. Qed.

(** ** The line *)

(** A display that remembers the frames it was given. *)
Record SpiedDisplay (D : Type) := mkSpiedDisplay { panel : D; queued : list (list Z) }.
Arguments mkSpiedDisplay {D}.
Arguments panel {D}.
Arguments queued {D}.

#[export] Instance spied_display {D} `{Display D} : Display (SpiedDisplay D) := {
  display_queue_frame d fb := mkSpiedDisplay (display_queue_frame (panel d) fb) (queued d ++ [fb]);
  display_reset d := mkSpiedDisplay (display_reset (panel d)) (queued d);
  display_poll d := let '(e, p) := display_poll (panel d) in (e, mkSpiedDisplay p (queued d))
}.

(** What happens from one write of the gateway to the next: whether the write works;
    whether the frame is lost; what strays in from other transfers; how many of the
    frames underway the modem takes, and whether its answers are lost; what else is said
    to the gateway; and how many of the answers on their way it hears. *)
Record Fate := mkFate {
  write_ok : bool;
  lost : bool;
  strays : list (list Z);
  taken : nat;
  answers_lost : bool;
  noise : list ModemMessage;
  heard : nat
}.

(** Everything arrives at once. *)
Definition Delivered : Fate := mkFate true false [] 1 false [] 1.

Definition decoded (frames : list (list Z)) : list ModemMessage :=
  omap (fun f => match decode_modem_frame f with Ok (msg, _) => Some msg | _ => None end) frames.

Section Line.
Context {R B T D K : Type} `{Radio R, Ble B, ButtonPoll T, Display D, BootClock K}.
Context (version commit : list Z).

Abbreviation Br := (@Bridge Port R B T (SpiedDisplay D) K).

(** [underway]: frames on their way to the modem; [late]: answers on their way to the
    gateway; [answer]: what the next wait yields. *)
Record Lossy := mkLossy {
  modem : Br; fates : list Fate; underway : list (list Z); late : list ModemMessage; answer : list ModemMessage
}.

(** The modem takes one frame; the messages it answers. *)
Definition deliver (b : Br) (frame : list Z) : list ModemMessage * Br :=
  match decode_modem_frame frame with
  | Ok (msg, _) =>
      match dispatch version commit (set_usb b (mkPort [] [] [])) msg with
      | Ok b' => (decoded (outgoing (usb b')), b')
      | _ => ([], b)
      end
  | _ => ([], b)
  end.

Fixpoint takes (b : Br) (frames : list (list Z)) : list ModemMessage * Br :=
  match frames with
  | [] => ([], b)
  | f :: fs =>
      let '(a, b) := deliver b f in
      let '(a', b) := takes b fs in
      (a ++ a', b)
  end.

Definition next_fate (l : Lossy) : Fate * list Fate :=
  match fates l with f :: fs => (f, fs) | [] => (Delivered, []) end.

Definition lossy_write (l : Lossy) (frame : list Z) : bool * Lossy :=
  let '(f, rest) := next_fate l in
  if negb (write_ok f) then (false, mkLossy (modem l) rest (underway l) (late l) []) else
  let queue := if lost f then underway l else underway l ++ [frame] in
  let '(answers, b) := takes (modem l) (strays f ++ take (taken f) queue) in
  let coming := late l ++ noise f ++ (if answers_lost f then [] else answers) in
  (true, mkLossy b rest (drop (taken f) queue) (drop (heard f) coming) (take (heard f) coming)).

#[export] Instance lossy_link : Link Lossy := {
  link_write := lossy_write;
  link_wait l := (answer l, mkLossy (modem l) (fates l) (underway l) (late l) [])
}.

(** ** One transfer *)

Context (id : Z) (fb : list Z) (before : list (list Z)) (open_id : option Z).
Context (Hid : byte_ok id) (Hfb : len fb = DISPLAY_FRAME_BODY_SIZE) (Hbytes : bytes_ok fb).

Definition chunk_of (k : Z) : list Z := take 128 (drop (Z.to_nat (k * 128)) fb).

(** Message 0 begins the transfer; message [k] carries chunk [k - 1]. *)
Definition message_at (k : Z) : ModemMessage :=
  if k =? 0 then MDisplayFrameBegin (mkBegin id) else MDisplayFrameChunk (mkChunk id (k - 1) (chunk_of (k - 1))).

Definition filled (k : Z) : list Z := take (Z.to_nat (k * 128)) fb ++ replicate (Z.to_nat (1024 - k * 128)) 0.

(** The modem has taken the messages up to [k] (none for -1: then at most the transfer
    [open_id] is open, one that was begun earlier). *)
Definition progress (b : Br) (k : Z) : Prop :=
  if k =? -1 then queued (display b) = before /\ (forall x, display_transfer b = Some x -> open_id = Some (transfer_id x))
  else if k =? 8 then display_transfer b = None /\ queued (display b) = before ++ [fb]
  else display_transfer b = Some (mkTransfer id k (filled k)) /\ queued (display b) = before.

(** It has taken them, or did and then gave the transfer up. *)
Definition status (b : Br) (k : Z) : Prop :=
  progress b k \/ (0 <= k < 8 /\ display_transfer b = None /\ queued (display b) = before).

Definition ack (k : Z) : ModemMessage := MDisplayFrameAck (mkAck id k).

Lemma frame_chunk_len k : 0 <= k < 8 -> len (chunk_of k) = 128.
Proof using Hfb. intros Hk. unfold chunk_of, len, DISPLAY_FRAME_BODY_SIZE in *. rewrite length_take, length_drop. lia. Qed.

Lemma filled_len k : 0 <= k <= 8 -> len (filled k) = 1024.
Proof using Hfb. intros Hk. unfold filled, len, DISPLAY_FRAME_BODY_SIZE in *. rewrite length_app, length_take, length_replicate. lia. Qed.

Lemma filled_next k : 0 <= k < 8 -> list_inserts (Z.to_nat (k * 128)) (chunk_of k) (filled k) = filled (k + 1).
Proof using Hfb.
  intros Hk. pose proof (frame_chunk_len k Hk) as Hc. unfold filled. unfold len, DISPLAY_FRAME_BODY_SIZE in *.
  set (a := Z.to_nat (k * 128)) in *. assert (Ha : (a + 128 <= length fb)%nat) by lia.
  replace (Z.to_nat (1024 - k * 128)) with (128 + (length fb - a - 128))%nat by lia.
  replace (Z.to_nat ((k + 1) * 128)) with (a + 128)%nat by lia. replace (Z.to_nat (1024 - (k + 1) * 128)) with (length fb - a - 128)%nat by lia.
  rewrite replicate_add, <- take_take_drop, <- app_assoc. fold a. unfold chunk_of. fold a.
  pose proof (inserts_mid (take a fb) (replicate 128 0) (replicate (length fb - a - 128) 0) (take 128 (drop a fb))) as E.
  rewrite <- E by (rewrite length_take, length_drop, length_replicate; lia). f_equal. rewrite length_take. lia.
Qed.

(** ** What the modem answers *)

Lemma message_ok k : 0 <= k <= 8 -> wire_ok (message_at k).
Proof using Hid Hfb Hbytes.
  intros Hk. unfold message_at. destruct (Z.eqb_spec k 0); apply plain_wire; try done. simpl.
  rewrite frame_chunk_len by lia. split; [done|]. split; [unfold uN; lia|]. split; [done|]. by apply Forall_take, Forall_drop.
Qed.

Lemma message_frame k : 0 <= k <= 8 ->
  exists frame, encode_modem_frame (message_at k) = Ok frame /\ decode_modem_frame frame = Ok (message_at k, len frame).
Proof using Hid Hfb Hbytes.
  intros Hk. pose proof (message_ok k Hk) as [Hok Hcan].
  assert (exists frame, encode_modem_frame (message_at k) = Ok frame) as [frame He].
  { unfold encode_modem_frame, message_at. destruct (Z.eqb_spec k 0); [by eexists|]. simpl. rewrite Z.geb_leb.
    destruct (Z.leb_spec DISPLAY_FRAME_CHUNK_COUNT (k - 1)); [unfold DISPLAY_FRAME_CHUNK_COUNT in *; lia|]. cbn [res_bind].
    rewrite !len_cons, frame_chunk_len by lia. by eexists. }
  exists frame. split; [done|]. pose proof (modem_frame_rt (message_at k) frame [] Hok Hcan He) as Hd. by rewrite app_nil_r in Hd.
Qed.

(** An acknowledgement or an error written to the empty port is heard as it is. *)
Lemma heard_message (b : Br) msg :
  wire_ok msg -> (match msg with MDisplayFrameAck _ | MEventError _ => True | _ => False end) ->
  exists frame, send_msg_ (set_usb b (mkPort [] [] [])) msg = Ok (set_usb b (mkPort [] [frame] [])) /\ decoded [frame] = [msg].
Proof.
  intros [Hok Hcan] Hm. assert (exists frame, encode_modem_frame msg = Ok frame) as [frame He] by (destruct msg; try done; by eexists).
  exists frame. unfold send_msg_, send_msg. rewrite He. simpl. split; [by destruct b|].
  pose proof (modem_frame_rt msg frame [] Hok Hcan He) as Hd. rewrite app_nil_r in Hd. by rewrite Hd.
Qed.

Lemma ack_ok k : 0 <= k <= 8 -> wire_ok (ack k).
Proof using Hid. intros Hk. apply plain_wire; [|done]. split; [done|]. simpl. unfold uN. lia. Qed.

(** The modem takes message [k], in order or again. *)
Lemma deliver_step (b : Br) j k frame :
  0 <= k <= 8 -> j = k - 1 \/ j = k -> progress b j -> decode_modem_frame frame = Ok (message_at k, len frame) ->
  exists b', deliver b frame = (if (j =? 8) then [MEventError (mkEventError EVENT_ERROR_INVALID_FRAME)] else [ack k], b') /\ progress b' k.
Proof using Hid Hfb.
  intros Hk Hj Hp Hf. unfold deliver. rewrite Hf. unfold progress in *. unfold message_at. destruct (Z.eqb_spec k 0) as [->|Hk0].
  - (* BEGIN *)
    assert (Hq : queued (display b) = before) by (destruct Hj; subst j; simpl in Hp; apply Hp).
    rewrite (proj2 (Z.eqb_neq j 8)) by lia. cbn [dispatch]. unfold handle_display_frame_begin, send_display_frame_ack.
    destruct (heard_message (set_transfer b (Some (mkTransfer id 0 (replicate (Z.to_nat DISPLAY_FRAME_BODY_SIZE) 0)))) (ack 0)) as (fr & Hs & Hd);
      [by apply ack_ok|done|]. simpl dfb_transfer_id.
    change (set_transfer (set_usb b (mkPort [] [] [])) ?x) with (set_usb (set_transfer b x) (mkPort [] [] [])).
    unfold ack in Hs. rewrite Hs. eexists. split; [by rewrite <- Hd|]. done.
  - cbn [dispatch]. unfold handle_display_frame_chunk. cbn [dfc_transfer_id chunk_index chunk_data].
    rewrite (proj2 (Z.eqb_neq j (-1))) in Hp by lia. rewrite (proj2 (Z.eqb_neq k (-1))) by lia.
    destruct (Z.eqb_spec j 8) as [->|Hj8].
    { (* the transfer is already complete *)
      assert (k = 8) as -> by lia. destruct Hp as [Ht Hq]. cbn [display_transfer set_usb]. rewrite Ht.
      unfold abort_display_transfer_invalid_frame, send_event_error.
      destruct (heard_message (set_transfer b None) (MEventError (mkEventError EVENT_ERROR_INVALID_FRAME))) as (fr & Hs & Hd); [by apply plain_wire|done|].
      change (set_transfer (set_usb b (mkPort [] [] [])) ?x) with (set_usb (set_transfer b x) (mkPort [] [] [])).
      rewrite Hs. eexists. split; [by rewrite <- Hd|]. done. }
    destruct Hp as [Ht Hq]. cbn [display_transfer set_usb]. rewrite Ht. cbn [transfer_id next_index]. rewrite Z.eqb_refl. cbn [negb].
    destruct Hj as [->| ->].
    + (* the expected chunk *)
      rewrite Z.eqb_refl. cbn [negb framebuffer]. unfold DISPLAY_FRAME_CHUNK_SIZE, DISPLAY_FRAME_CHUNK_COUNT.
      pose proof (frame_chunk_len (k - 1) ltac:(lia)) as Hl. pose proof (filled_len (k - 1) ltac:(lia)) as Hfl.
      replace ((k - 1) * 128 + 128) with ((k - 1) * 128 + len (chunk_of (k - 1))) by lia.
      rewrite copy_range_Ok by lia. cbn [res_bind]. rewrite arith_u_in_range by lia. cbn [res_bind].
      rewrite filled_next by lia. replace (k - 1 + 1) with k by lia. unfold send_display_frame_ack.
      destruct (heard_message (set_transfer b (Some (mkTransfer id k (filled k)))) (ack k)) as (fr & Hs & Hd); [apply ack_ok; lia|done|].
      change (set_transfer (set_usb b (mkPort [] [] [])) ?x) with (set_usb (set_transfer b x) (mkPort [] [] [])).
      unfold ack in Hs. rewrite Hs. cbn [res_bind]. eexists. split; [|].
      { f_equal. rewrite <- Hd. by destruct (k =? 8). }
      destruct (Z.eqb_spec k 8) as [->|]; [|done]. split; [done|]. cbn [display set_transfer set_display queued set_usb]. simpl. rewrite Hq.
      do 2 f_equal. unfold filled. rewrite take_ge by (unfold len, DISPLAY_FRAME_BODY_SIZE in *; lia). by rewrite app_nil_r.
    + (* a chunk the modem already has *)
      rewrite (proj2 (Z.eqb_neq (k - 1) k)) by lia. cbn [negb]. unfold send_display_frame_ack.
      destruct (heard_message b (ack k)) as (fr & Hs & Hd); [apply ack_ok; lia|done|]. unfold ack in Hs. rewrite Hs.
      eexists. split; [by rewrite <- Hd|]. by rewrite (proj2 (Z.eqb_neq k 8)) by lia.
Qed.

(** ** Every fate *)

Definition not_ack (m : ModemMessage) : Prop := match m with MDisplayFrameAck _ => False | _ => True end.

(** Not an acknowledgement of this transfer. *)
Definition foreign (m : ModemMessage) : Prop := match m with MDisplayFrameAck a => dfa_transfer_id a <> id | _ => True end.

(** A chunk of a transfer that is neither this one nor the one open before it. *)
Definition stray (frame : list Z) : Prop :=
  exists c n, decode_modem_frame frame = Ok (MDisplayFrameChunk c, n) /\ dfc_transfer_id c <> id /\ open_id <> Some (dfc_transfer_id c).

Definition fate_ok (f : Fate) : Prop := Forall stray (strays f) /\ Forall foreign (noise f).

(** A message the gateway may hear while the modem has progressed to [j]. *)
Definition plausible (j : Z) (m : ModemMessage) : Prop :=
  match m with MDisplayFrameAck a => dfa_transfer_id a = id -> next_chunk_index a <= j | _ => True end.

Lemma plausible_mono j j' m : j <= j' -> plausible j m -> plausible j' m.
Proof. intros Hj. destruct m; simpl; try done. intros Hm Ha. specialize (Hm Ha). lia. Qed.

Lemma plausible_all j j' ms : j <= j' -> Forall (plausible j) ms -> Forall (plausible j') ms.
Proof. intros Hj Hm. eapply List.Forall_impl; [|exact Hm]. intros m. by apply plausible_mono. Qed.

Lemma foreign_plausible j m : foreign m -> plausible j m.
Proof. by destruct m; simpl. Qed.

(** The modem refuses a chunk: it gives up whatever transfer is open. *)
Lemma deliver_refused (b : Br) frame c n :
  decode_modem_frame frame = Ok (MDisplayFrameChunk c, n) -> (forall x, display_transfer b = Some x -> dfc_transfer_id c <> transfer_id x) ->
  exists b', deliver b frame = ([MEventError (mkEventError EVENT_ERROR_INVALID_FRAME)], b') /\ display_transfer b' = None /\ queued (display b') = queued (display b).
Proof.
  intros Hf Hid'. unfold deliver. rewrite Hf. cbn [dispatch]. unfold handle_display_frame_chunk. cbn [display_transfer set_usb].
  destruct (heard_message (set_transfer b None) (MEventError (mkEventError EVENT_ERROR_INVALID_FRAME))) as (fr & Hs & Hd); [by apply plain_wire|done|].
  destruct (display_transfer b) as [x|]; [rewrite (proj2 (Z.eqb_neq _ _)) by (by apply Hid'); cbn [negb]|];
    unfold abort_display_transfer_invalid_frame, send_event_error;
    change (set_transfer (set_usb b (mkPort [] [] [])) ?x) with (set_usb (set_transfer b x) (mkPort [] [] []));
    rewrite Hs; (eexists; split; [by rewrite <- Hd|]; done).
Qed.

Lemma deliver_stray (b : Br) j frame :
  -1 <= j <= 8 -> status b j -> stray frame ->
  exists b', deliver b frame = ([MEventError (mkEventError EVENT_ERROR_INVALID_FRAME)], b') /\ status b' j.
Proof using .
  intros Hj Hst (c & n & Hf & Hne & Hop).
  destruct (deliver_refused b frame c n Hf) as (b' & -> & Ht & Hq).
  { intros x Hx. destruct Hst as [Hp|(_ & Hp & _)]; [|congruence]. unfold progress in Hp. destruct (j =? -1); [destruct Hp as [_ Hp]; intros He; apply Hop; rewrite He; by apply Hp|].
    destruct (j =? 8); destruct Hp as [Hp _]; [congruence|]. rewrite Hp in Hx. by injection Hx as <-. }
  exists b'. split; [done|]. unfold status, progress in *. rewrite Ht, Hq. destruct (Z.eqb_spec j (-1)); [left; split; [|done]; destruct Hst as [[? _]|[? _]]; [done|lia]|].
  destruct (Z.eqb_spec j 8); [left; split; [done|]; destruct Hst as [[_ ?]|[? _]]; [done|lia]|].
  right. split; [lia|]. split; [done|]. by destruct Hst as [[_ ?]|(_ & _ & ?)].
Qed.

(** The modem takes message [o] of the transfer. *)
Lemma deliver_own (b : Br) j o frame :
  0 <= o <= 8 -> j = o - 1 \/ j = o -> status b j -> decode_modem_frame frame = Ok (message_at o, len frame) ->
  exists a b' j', deliver b frame = (a, b') /\ (j' = j \/ j' = o) /\ status b' j' /\ Forall (plausible j') a.
Proof using Hid Hfb.
  intros Ho Hj [Hp|(Hr & Ht & Hq)] Hf.
  - destruct (deliver_step b j o frame Ho Hj Hp Hf) as (b' & -> & Hp'). eexists _, b', o. split; [done|]. split; [by right|]. split; [by left|].
    destruct (j =? 8); (constructor; [|constructor]); simpl; [done|]. intros _. lia.
  - destruct (Z.eqb_spec o 0) as [->|Ho0].
    + assert (Hp : progress b (-1)) by (split; [done|]; by rewrite Ht).
      destruct (deliver_step b (-1) 0 frame ltac:(lia) ltac:(by left) Hp Hf) as (b' & -> & Hp'). eexists _, b', 0. split; [done|]. split; [by right|]. split; [by left|].
      constructor; [|constructor]. simpl. lia.
    + unfold message_at in Hf. rewrite (proj2 (Z.eqb_neq _ _)) in Hf by done. destruct (deliver_refused b frame _ _ Hf) as (b' & -> & Ht' & Hq'); [by rewrite Ht|].
      eexists _, b', j. split; [done|]. split; [by left|]. split; [right; split; [done|]; by rewrite Hq'|]. by repeat constructor.
Qed.

(** The frames underway while message [k] is being sent: copies of it, and before them
    copies of the one before, if the modem has not got further. *)
Definition queue_ok (k j : Z) (os : list Z) : Prop :=
  Forall (fun o => 0 <= o /\ (o = k \/ (o = k - 1 /\ j = k - 1))) os /\ StronglySorted Z.le os.

Definition carries (os : list Z) (frames : list (list Z)) : Prop :=
  Forall2 (fun o frame => decode_modem_frame frame = Ok (message_at o, len frame)) os frames.

Lemma takes_app (b : Br) fs fs' : takes b (fs ++ fs') = let '(a, b) := takes b fs in let '(a', b) := takes b fs' in (a ++ a', b).
Proof.
  revert b. induction fs as [|f fs IH]; intros b; simpl; [by destruct (takes b fs')|]. destruct (deliver b f) as [a b1]. rewrite IH.
  destruct (takes b1 fs) as [a2 b2]. destruct (takes b2 fs') as [a3 b3]. by rewrite app_assoc.
Qed.

Lemma takes_strays fs : forall (b : Br) j, -1 <= j <= 8 -> status b j -> Forall stray fs ->
  exists a b', takes b fs = (a, b') /\ status b' j /\ Forall not_ack a.
Proof using .
  induction fs as [|f fs IH]; intros b j Hj Hst Hs; [by eexists _, b|]. apply Forall_cons_iff in Hs as [Hs Hss]. cbn [takes].
  destruct (deliver_stray b j f Hj Hst Hs) as (b1 & -> & Hst1). destruct (IH b1 j Hj Hst1 Hss) as (a & b' & -> & Hst' & Ha).
  eexists _, b'. split; [done|]. split; [done|]. by constructor.
Qed.

Lemma takes_own k os fs : forall (b : Br) j, 0 <= k <= 8 -> j = k - 1 \/ j = k -> status b j -> carries os fs -> queue_ok k j os ->
  forall n, exists a b' j', takes b (take n fs) = (a, b') /\ j <= j' /\ (j' = k - 1 \/ j' = k) /\ status b' j' /\
    Forall (plausible j') a /\ queue_ok k j' (drop n os) /\ carries (drop n os) (drop n fs).
Proof using Hid Hfb.
  revert os. induction fs as [|f fs IH]; intros os b j Hk Hj Hst Hc Hq n.
  { apply Forall2_nil_inv_r in Hc as ->. exists [], b, j. rewrite take_nil, !drop_nil. split_and!; try done; try lia; by constructor. }
  destruct n as [|n]; [exists [], b, j; split_and!; try done; try lia; by constructor|]. apply Forall2_cons_inv_r in Hc as (o & os' & Hf & Hc & ->). cbn [take takes drop].
  destruct Hq as [Hall Hsort]. apply Forall_cons_iff in Hall as [[Ho0 Ho] Hall]. apply StronglySorted_inv in Hsort as [Hsort Hle].
  destruct (deliver_own b j o f) as (a & b1 & j1 & -> & Hj1 & Hst1 & Ha); [lia|lia|done|done|].
  assert (Hq1 : queue_ok k j1 os').
  { split; [|done]. apply list.Forall_forall. intros x Hx. pose proof (proj1 (list.Forall_forall _ _) Hall x Hx) as [Hx0 Hxk].
    pose proof (proj1 (list.Forall_forall _ _) Hle x Hx). lia. }
  destruct (IH os' b1 j1 Hk ltac:(lia) Hst1 Hc Hq1 n) as (a2 & b2 & j2 & -> & Hj2 & Hr2 & Hst2 & Ha2 & Hq2 & Hc2).
  exists (a ++ a2), b2, j2. split_and!; try done; [lia|]. apply Forall_app. split; [by apply (plausible_all j1)|done].
Qed.

Record on_line (l : Lossy) (k j : Z) : Prop := {
  ol_range : j = k - 1 \/ j = k;
  ol_status : status (modem l) j;
  ol_queue : exists os, carries os (underway l) /\ queue_ok k j os;
  ol_late : Forall (plausible j) (late l);
  ol_fates : Forall fate_ok (fates l)
}.

Lemma next_fate_ok l f rest : Forall fate_ok (fates l) -> next_fate l = (f, rest) -> fate_ok f /\ Forall fate_ok rest.
Proof.
  unfold next_fate. destruct (fates l) as [|f' fs]; intros Hf [= <- <-]; [split; [split|]; by constructor|]. by apply Forall_cons_iff in Hf.
Qed.

(** A message more. *)
Lemma queue_send k j os fs frame (drop_it : bool) :
  0 <= k -> carries os fs -> queue_ok k j os -> decode_modem_frame frame = Ok (message_at k, len frame) ->
  exists os', carries os' (if drop_it then fs else fs ++ [frame]) /\ queue_ok k j os'.
Proof.
  intros Hk Hc [Hall Hsort] Hf. destruct drop_it; [by exists os|]. exists (os ++ [k]). split; [apply Forall2_app; [done|by repeat constructor]|].
  split; [apply Forall_app; split; [done|]; constructor; [|constructor]; lia|].
  apply sorted_snoc; [done|]. eapply List.Forall_impl; [|exact Hall]. intros o [_ Ho]. simpl. lia.
Qed.

(** One write and one wait. *)
Lemma write_on_line l j k frame ok l' :
  0 <= k <= 8 -> on_line l k j -> decode_modem_frame frame = Ok (message_at k, len frame) ->
  lossy_write l frame = (ok, l') -> exists j', on_line l' k j' /\ Forall (plausible j') (answer l').
Proof using Hid Hfb.
  intros Hk [P1 P2 (os & P3 & P4) P5 P6] Hf Hw. unfold lossy_write in Hw. destruct (next_fate l) as [f rest] eqn:Hn.
  destruct (next_fate_ok _ _ _ P6 Hn) as [[Hs Hno] Hrest]. destruct (write_ok f); cbn [negb] in Hw.
  2: { injection Hw as <- <-. exists j. split; [|constructor]. split; try done. by exists os. }
  destruct (queue_send k j os (underway l) frame (lost f) ltac:(lia) P3 P4 Hf) as (os' & Hc & Hq).
  destruct (takes_strays (strays f) (modem l) j ltac:(lia) P2 Hs) as (a1 & b1 & E1 & Hst1 & Ha1).
  destruct (takes_own k os' _ b1 j Hk P1 Hst1 Hc Hq (taken f)) as (a2 & b2 & j2 & E2 & Hle & Hr & Hst2 & Ha2 & Hq2 & Hc2).
  rewrite takes_app, E1, E2 in Hw. injection Hw as <- <-. exists j2.
  assert (Hall : Forall (plausible j2) (late l ++ noise f ++ (if answers_lost f then [] else a1 ++ a2))).
  { repeat (apply Forall_app; split); [by apply (plausible_all j)|eapply List.Forall_impl; [|exact Hno]; intros m; apply foreign_plausible|].
    destruct (answers_lost f); [constructor|]. apply Forall_app. split; [|done]. eapply List.Forall_impl; [|exact Ha1]. by intros []. }
  split; [split; try done|].
  - by exists (drop (taken f) os').
  - by apply Forall_drop.
  - by apply Forall_take.
Qed.

(** The next message. *)
Lemma on_line_next l k : on_line l k k -> on_line l (k + 1) k.
Proof.
  intros [_ P2 (os & P3 & [P4 P4']) P5 P6]. split; try done; [left; lia|]. exists os. split; [done|]. split; [|done].
  eapply List.Forall_impl; [|exact P4]. intros o [? ?]. simpl. lia.
Qed.

(** What a waiting sender may be told. *)
Definition told (j : Z) (w : Waiter DisplayFrameAck) : Prop :=
  match w with Got a => dfa_transfer_id a = id -> next_chunk_index a <= j | _ => True end.

Lemma dispatch_told j t m : plausible j m -> told j (display_ack_slot t) -> told j (display_ack_slot (dispatch_message t m)).
Proof.
  intros Hm Ht. destruct m; simpl; try done; unfold ble_send; repeat case_match; simpl; try done.
  all: by destruct (display_ack_slot t).
Qed.

Lemma dispatch_all_told j msgs : forall t, Forall (plausible j) msgs -> told j (display_ack_slot t) -> told j (display_ack_slot (dispatch_all t msgs)).
Proof.
  induction msgs as [|m msgs IH]; intros t Hm Ht; [done|]. apply Forall_cons_iff in Hm as [Hm Hms]. simpl. apply IH; [done|]. by apply dispatch_told.
Qed.

(** A message of the transfer, with any number of attempts: it is reported
    acknowledged only if the modem has taken it. *)
Lemma message_sent retries : forall t l j k r t' l',
  0 <= k <= 8 -> on_line l k j -> is_waiting (display_ack_slot t) = false ->
  send_display_message_wait_for_ack retries t l (message_at k) id k = (r, t', l') ->
  exists j', on_line l' k j' /\ is_waiting (display_ack_slot t') = false /\ ((exists e, r = Err e) \/ (r = Ok tt /\ j' = k)).
Proof using Hid Hfb Hbytes.
  induction retries as [|retries IH]; intros t l j k r t' l' Hk Hl Ht Hs.
  all: cbn [send_display_message_wait_for_ack] in Hs; rewrite Ht in Hs; unfold request, send_encoded in Hs.
  all: destruct (message_frame k Hk) as (frame & He & Hf); rewrite He in Hs; simpl link_write in Hs.
  all: destruct (lossy_write l frame) as [ok l1] eqn:Hw; destruct (write_on_line l j k frame ok l1 Hk Hl Hf Hw) as (j1 & Hl1 & Ha).
  all: destruct ok; simpl in Hs; [|injection Hs as <- <- <-; exists j1; split_and!; try done; left; by eexists].
  all: assert (Hl2 : on_line (mkLossy (modem l1) (fates l1) (underway l1) (late l1) []) k j1) by (destruct Hl1; by split).
  all: pose proof (dispatch_all_told j1 (answer l1) (set_display_ack t Waiting) Ha I) as Htold.
  all: assert (Hr1 : j1 = k - 1 \/ j1 = k) by (by destruct Hl1).
  all: destruct (display_ack_slot (dispatch_all (set_display_ack t Waiting) (answer l1))) as [| |a|] eqn:Hd; simpl in Htold.
  all: try (injection Hs as <- <- <-; exists j1; split_and!; try done; left; by eexists).
  1: { injection Hs as <- <- <-. exists j1. split_and!; try done. destruct (Z.eqb_spec (dfa_transfer_id a) id) as [Ea|]; [|left; by eexists].
       destruct (Z.eqb_spec (next_chunk_index a) k); [|left; by eexists]. right. split; [done|]. specialize (Htold Ea). lia. }
  1,2: by eapply IH; [exact Hk|exact Hl2| |exact Hs].
  injection Hs as <- <- <-. exists j1. split_and!; try done. destruct (Z.eqb_spec (dfa_transfer_id a) id) as [Ea|]; [|left; by eexists].
  destruct (Z.eqb_spec (next_chunk_index a) k); [|left; by eexists]. right. split; [done|]. specialize (Htold Ea). lia.
Qed.

(** The chunks from [k] on. *)
Lemma chunks_sent n : forall t l k r t' l',
  Z.of_nat n = 8 - k -> 0 <= k -> on_line l k k -> is_waiting (display_ack_slot t) = false ->
  send_chunks n t l id k fb = (r, t', l') ->
  exists j, (-1 <= j <= 8) /\ status (modem l') j /\ ((exists e, r = Err e) \/ (r = Ok tt /\ j = 8)).
Proof using Hid Hfb Hbytes.
  induction n as [|n IH]; intros t l k r t' l' Hn Hk Hl Ht Hs; cbn [send_chunks] in Hs.
  - injection Hs as <- <- <-. exists k. split; [lia|]. split; [apply Hl|]. right. split; [done|lia].
  - unfold DISPLAY_FRAME_CHUNK_SIZE in Hs. rewrite slice_Ok in Hs by (unfold DISPLAY_FRAME_BODY_SIZE in Hfb; lia).
    replace (k * 128 + 128 - k * 128) with 128 in Hs by lia. change (Z.to_nat 128) with 128%nat in Hs. fold (chunk_of k) in Hs.
    assert (Hm : MDisplayFrameChunk (mkChunk id k (chunk_of k)) = message_at (k + 1)).
    { unfold message_at. rewrite (proj2 (Z.eqb_neq (k + 1) 0)) by lia. by replace (k + 1 - 1) with k by lia. }
    rewrite Hm in Hs.
    destruct (send_display_message_wait_for_ack DISPLAY_ACK_MAX_RETRIES t l (message_at (k + 1)) id (k + 1)) as [[r1 t1] l1] eqn:Hs1.
    destruct (message_sent _ t l k (k + 1) r1 t1 l1 ltac:(lia) (on_line_next _ _ Hl) Ht Hs1) as (j & Hl1 & Ht1 & Hr).
    destruct Hr as [[e ->]|[-> ->]].
    + injection Hs as <- <- <-. exists j. split; [destruct Hl1 as [[?|?] _ _ _ _]; lia|]. split; [apply Hl1|]. left. by eexists.
    + by apply (IH t1 l1 (k + 1) r t' l'); [lia|lia|..].
Qed.

(** ** Losses that are made up for *)

(** Messages that have nothing to do with requests. *)
Definition quiet (m : ModemMessage) : Prop := match m with MDisplayFrameAck _ | MError _ | MModemReady _ => False | _ => True end.

(** A loss a retransmission makes up for: any, but the acknowledgement of the last
    message. *)
Definition recoverable (k : Z) (f : Fate) : Prop :=
  write_ok f = true /\ strays f = [] /\ Forall quiet (noise f) /\ (length (noise f) <= heard f)%nat /\
  (lost f = true \/ (lost f = false /\ (1 <= taken f)%nat /\ answers_lost f = true /\ k <> 8)).

Definition arrives (f : Fate) : Prop :=
  write_ok f = true /\ strays f = [] /\ Forall quiet (noise f) /\ (length (noise f) < heard f)%nat /\
  lost f = false /\ (1 <= taken f)%nat /\ answers_lost f = false.

(** Nothing is on its way. *)
Definition clear_line (l : Lossy) : Prop := underway l = [] /\ late l = [].

(** The fates of the attempts at message [k]: at most three losses, then success. *)
Definition retried (k : Z) (g : list Fate) : Prop :=
  exists losses d, g = losses ++ [d] /\ (length losses <= DISPLAY_ACK_MAX_RETRIES)%nat /\ Forall (recoverable k) losses /\ arrives d.

Lemma quiet_waits msgs : forall t, Forall quiet msgs -> display_ack_slot (dispatch_all t msgs) = display_ack_slot t.
Proof.
  induction msgs as [|m msgs IH]; intros t Hm; [done|]. apply Forall_cons_iff in Hm as [Hm Hms]. simpl. rewrite IH by done.
  destruct m; simpl; try done; unfold ble_send; by repeat case_match.
Qed.

(** One attempt whose answers are known. *)
Lemma attempt retries t l k frame l1 :
  encode_modem_frame (message_at k) = Ok frame -> is_waiting (display_ack_slot t) = false -> lossy_write l frame = (true, l1) ->
  let t1 := dispatch_all (set_display_ack t Waiting) (answer l1) in
  let l2 := mkLossy (modem l1) (fates l1) (underway l1) (late l1) [] in
  send_display_message_wait_for_ack retries t l (message_at k) id k =
  match display_ack_slot t1 with
  | Got a => (if negb (dfa_transfer_id a =? id) || negb (next_chunk_index a =? k) then Err AckMismatch else Ok tt, set_display_ack t1 Vacant, l2)
  | Closed => (Err ChannelClosed, set_display_ack t1 Vacant, l2)
  | _ => match retries with
         | O => (Err NoAnswer, set_display_ack t1 Vacant, l2)
         | S retries => send_display_message_wait_for_ack retries (set_display_ack t1 Vacant) l2 (message_at k) id k
         end
  end.
Proof.
  intros He Ht Hw t1 l2. destruct retries; cbn [send_display_message_wait_for_ack]; rewrite Ht; unfold request, send_encoded; rewrite He; simpl link_write;
    rewrite Hw; simpl; fold t1; by destruct (display_ack_slot t1).
Qed.

(** What a write comes to when nothing is on its way. *)
Lemma write_lost l frame f rest :
  clear_line l -> fates l = f :: rest -> write_ok f = true -> strays f = [] -> (length (noise f) <= heard f)%nat -> lost f = true ->
  lossy_write l frame = (true, mkLossy (modem l) rest [] [] (noise f)).
Proof.
  intros [Hu Hl] Hf Hw Hs Hn Hlost. unfold lossy_write, next_fate. rewrite Hf, Hw, Hs, Hlost, Hu, Hl. cbn [negb].
  rewrite take_nil, drop_nil. simpl. destruct (answers_lost f); rewrite app_nil_r, take_ge, drop_ge by lia; done.
Qed.

Lemma write_taken l frame f rest a b' :
  clear_line l -> fates l = f :: rest -> write_ok f = true -> strays f = [] -> lost f = false -> (1 <= taken f)%nat ->
  deliver (modem l) frame = (a, b') -> (length (noise f ++ if answers_lost f then [] else a) <= heard f)%nat ->
  lossy_write l frame = (true, mkLossy b' rest [] [] (noise f ++ if answers_lost f then [] else a)).
Proof.
  intros [Hu Hl] Hf Hw Hs Hlost Ht Hd Hn. unfold lossy_write, next_fate. rewrite Hf, Hw, Hs, Hlost, Hu, Hl. cbn [negb app].
  rewrite (take_ge [frame]), (drop_ge [frame]) by (simpl; lia). cbn [takes]. rewrite Hd, app_nil_r, take_ge, drop_ge by done. done.
Qed.

Lemma message_recovers losses : forall retries t l j k d rest,
  0 <= k <= 8 -> j = k - 1 \/ (j = k /\ k <> 8) -> progress (modem l) j -> clear_line l -> fates l = losses ++ d :: rest ->
  (length losses <= retries)%nat -> Forall (recoverable k) losses -> arrives d -> is_waiting (display_ack_slot t) = false ->
  exists t' l', send_display_message_wait_for_ack retries t l (message_at k) id k = (Ok tt, t', l') /\
    progress (modem l') k /\ clear_line l' /\ fates l' = rest /\ is_waiting (display_ack_slot t') = false.
Proof using Hid Hfb Hbytes.
  induction losses as [|f losses IH]; intros retries t l j k d rest Hk Hj Hp Hlate Hfates Hn Hrec Hd Ht.
  all: destruct (message_frame k Hk) as (frame & He & Hf).
  all: destruct (deliver_step (modem l) j k frame Hk ltac:(destruct Hj as [|[]]; [by left|by right]) Hp Hf) as (b' & Hdel & Hp').
  all: rewrite (proj2 (Z.eqb_neq j 8)) in Hdel by lia.
  - destruct Hd as (Hw & Hst & Hq & Hh & Hlo & Htk & Hal). simpl in Hfates.
    erewrite (attempt retries t l k frame); [|done|done|eapply write_taken; try done; rewrite Hal, length_app; simpl; lia].
    cbn [answer]. rewrite Hal. unfold dispatch_all. rewrite fold_left_app. simpl. fold (dispatch_all (set_display_ack t Waiting) (noise d)).
    rewrite quiet_waits by done. simpl. rewrite !Z.eqb_refl. simpl. eexists _, _. split; [done|]. by split_and!.
  - apply Forall_cons_iff in Hrec as [(Hwf & Hst & Hq & Hh & Ho) Hrec]. destruct retries as [|retries]; [simpl in Hn; lia|]. simpl in Hfates.
    assert (Hw : exists b1 j1, lossy_write l frame = (true, mkLossy b1 (losses ++ d :: rest) [] [] (noise f)) /\
      (j1 = k - 1 \/ (j1 = k /\ k <> 8)) /\ progress b1 j1).
    { destruct Ho as [Ho|(Ho & Htk & Hal & Hk8)].
      - exists (modem l), j. split; [by apply write_lost|done].
      - exists b', k. split; [|by split; [right|]]. erewrite write_taken; try done; rewrite Hal, app_nil_r; done. }
    destruct Hw as (b1 & j1 & Hw & Hj1 & Hp1). erewrite (attempt (S retries) t l k frame) by done.
    cbn [answer modem fates late underway]. rewrite quiet_waits by done. simpl.
    eapply (IH retries _ (mkLossy b1 (losses ++ d :: rest) [] [] []) j1 k d rest); try done. simpl in Hn. lia.
Qed.

(** Once the last message has been taken, the modem answers everything with errors. *)
Definition after_last (frame : list Z) : Prop := decode_modem_frame frame = Ok (message_at 8, len frame) \/ stray frame.

Lemma takes_after_last fs : forall (b : Br), progress b 8 -> Forall after_last fs ->
  exists a b', takes b fs = (a, b') /\ progress b' 8 /\ Forall not_ack a.
Proof using .
  induction fs as [|f fs IH]; intros b Hp Hs; [by eexists _, b|]. apply Forall_cons_iff in Hs as [Hs Hss]. cbn [takes].
  assert (Hc : exists c n, decode_modem_frame f = Ok (MDisplayFrameChunk c, n)) by (destruct Hs as [Hs|(c & n & Hs & _)]; [eexists _, _; exact Hs|by exists c, n]).
  destruct Hc as (c & n & Hf). destruct (deliver_refused b f c n Hf) as (b1 & -> & Ht1 & Hq1); [destruct Hp as [-> _]; done|].
  destruct (IH b1) as (a & b' & -> & Hp' & Ha); [|done|by eexists _, b'; split; [done|]; split; [done|]; by constructor].
  destruct Hp as [_ Hp]. split; [done|]. by rewrite Hq1.
Qed.

(** A line on which nothing says that the last message was taken. *)
Definition silent (l : Lossy) : Prop :=
  progress (modem l) 8 /\ Forall after_last (underway l) /\ Forall not_ack (late l) /\
  Forall (fun f => Forall stray (strays f) /\ Forall not_ack (noise f)) (fates l).

Lemma write_silent l frame ok l1 :
  silent l -> decode_modem_frame frame = Ok (message_at 8, len frame) -> lossy_write l frame = (ok, l1) -> silent l1 /\ Forall not_ack (answer l1).
Proof using .
  intros (Hp & Hu & Hl & Hf) Hfr Hw. unfold lossy_write in Hw. destruct (next_fate l) as [f rest] eqn:Hn.
  assert (Hfo : (Forall stray (strays f) /\ Forall not_ack (noise f)) /\ Forall (fun f => Forall stray (strays f) /\ Forall not_ack (noise f)) rest).
  { unfold next_fate in Hn. destruct (fates l); injection Hn as <- <-; [split; [split|]; by constructor|]. by apply Forall_cons_iff in Hf. }
  destruct Hfo as [[Hs Hno] Hrest]. destruct (write_ok f); cbn [negb] in Hw; [|injection Hw as <- <-; split; [by split_and!|constructor]].
  assert (Hq : Forall after_last (if lost f then underway l else underway l ++ [frame])).
  { destruct (lost f); [done|]. apply Forall_app. split; [done|]. constructor; [by left|constructor]. }
  destruct (takes_after_last (strays f ++ take (taken f) (if lost f then underway l else underway l ++ [frame])) (modem l) Hp) as (a & b' & E & Hp' & Ha).
  { apply Forall_app. split; [eapply List.Forall_impl; [|exact Hs]; intros x Hx; by right|by apply Forall_take]. }
  rewrite E in Hw. injection Hw as <- <-.
  assert (Hc : Forall not_ack (late l ++ noise f ++ (if answers_lost f then [] else a))).
  { repeat (apply Forall_app; split); [done|done|]. by destruct (answers_lost f). }
  split; [|by apply Forall_take]. split_and!; [done|by apply Forall_drop|by apply Forall_drop|done].
Qed.

(** After the last message has been taken and its acknowledgement lost, no
    acknowledgement comes. *)
Lemma final_message_lost retries : forall t l, silent l -> is_waiting (display_ack_slot t) = false ->
  exists e t' l', send_display_message_wait_for_ack retries t l (message_at 8) id 8 = (Err e, t', l') /\ progress (modem l') 8.
Proof using Hid Hfb Hbytes.
  assert (Hnone : forall msgs t, Forall not_ack msgs -> (forall a, display_ack_slot t <> Got a) -> forall a, display_ack_slot (dispatch_all t msgs) <> Got a).
  { induction msgs as [|m msgs IH]; intros t Hm Hd; [done|]. apply Forall_cons_iff in Hm as [Hm Hms]. simpl. apply IH; [done|].
    destruct m; simpl; try done; unfold ble_send; repeat case_match; simpl; try done; by destruct (display_ack_slot t). }
  induction retries as [|retries IH]; intros t l Hl Ht.
  all: destruct (message_frame 8 ltac:(lia)) as (frame & He & Hf).
  all: destruct (lossy_write l frame) as [ok l1] eqn:Hw; destruct (write_silent l frame ok l1 Hl Hf Hw) as [Hl1 Ha1].
  all: destruct ok; [rewrite (attempt _ t l 8 frame l1) by done|].
  all: try (assert (Hng : forall a, display_ack_slot (dispatch_all (set_display_ack t Waiting) (answer l1)) <> Got a) by (by apply Hnone);
    destruct (display_ack_slot (dispatch_all (set_display_ack t Waiting) (answer l1))) as [| |a|]; [..|by destruct (Hng a)|];
    first [by apply IH | eexists _, _, _; split; [done|]; apply Hl1]).
  all: cbn [send_display_message_wait_for_ack]; rewrite Ht; unfold request, send_encoded; rewrite He; simpl link_write; rewrite Hw; eexists _, _, _; split; [done|]; apply Hl1.
Qed.

(** The last message is taken and its acknowledgement lost. *)
Definition ack_lost (f : Fate) : Prop :=
  write_ok f = true /\ strays f = [] /\ Forall quiet (noise f) /\ (length (noise f) <= heard f)%nat /\ lost f = false /\ (1 <= taken f)%nat /\ answers_lost f = true.

(** The last message: lost some times, then taken with its acknowledgement lost. *)
Lemma last_message_fails losses : forall retries t l f rest,
  progress (modem l) 7 -> clear_line l -> fates l = losses ++ f :: rest -> (length losses <= retries)%nat -> Forall (recoverable 8) losses ->
  ack_lost f -> Forall (fun f => Forall stray (strays f) /\ Forall not_ack (noise f)) rest -> is_waiting (display_ack_slot t) = false ->
  exists e t' l', send_display_message_wait_for_ack retries t l (message_at 8) id 8 = (Err e, t', l') /\ progress (modem l') 8.
Proof using Hid Hfb Hbytes.
  induction losses as [|x losses IH]; intros retries t l f rest Hp Hlate Hfates Hn Hrec Ho Hrest Ht.
  all: destruct (message_frame 8 ltac:(lia)) as (frame & He & Hf).
  all: destruct (deliver_step (modem l) 7 8 frame ltac:(lia) ltac:(by left) Hp Hf) as (b' & Hdel & Hp'); simpl in Hdel.
  - destruct Ho as (Hw & Hst & Hq & Hh & Hlo & Htk & Hal). simpl in Hfates.
    erewrite (attempt retries t l 8 frame); [|done|done|eapply write_taken; try done; by rewrite Hal, app_nil_r].
    cbn [answer modem fates late underway]. rewrite Hal, app_nil_r, quiet_waits by done. simpl. destruct retries; [by eexists _, _, _|].
    apply final_message_lost; [|done]. split_and!; try done; constructor.
  - apply Forall_cons_iff in Hrec as [(Hwx & Hstx & Hqx & Hhx & Hox) Hrec]. destruct retries as [|retries]; [simpl in Hn; lia|]. simpl in Hfates.
    assert (Hx : lost x = true) by (by destruct Hox as [|(_ & _ & _ & ?)]).
    erewrite (attempt (S retries) t l 8 frame); [|done|done|by apply write_lost].
    cbn [answer modem fates late underway]. rewrite quiet_waits by done. simpl.
    eapply IH; try done. simpl in Hn. lia.
Qed.

(** The chunk messages [k + 1], ..., each with its group of fates. *)
Fixpoint groups_from (k : Z) (gs : list (list Fate)) : Prop :=
  match gs with [] => True | g :: gs => retried k g /\ groups_from (k + 1) gs end.

Lemma chunk_message k : 0 <= k -> MDisplayFrameChunk (mkChunk id k (chunk_of k)) = message_at (k + 1).
Proof. intros Hk. unfold message_at. rewrite (proj2 (Z.eqb_neq (k + 1) 0)) by lia. by replace (k + 1 - 1) with k by lia. Qed.

Lemma send_chunks_step n t l k :
  0 <= k < 8 ->
  send_chunks (S n) t l id k fb =
  (let '(r, t, l) := send_display_message_wait_for_ack DISPLAY_ACK_MAX_RETRIES t l (message_at (k + 1)) id (k + 1) in
   match r with Ok _ => send_chunks n t l id (k + 1) fb | r => (r, t, l) end).
Proof using Hfb.
  intros Hk. cbn [send_chunks]. unfold DISPLAY_FRAME_CHUNK_SIZE. rewrite slice_Ok by (unfold DISPLAY_FRAME_BODY_SIZE in Hfb; lia).
  replace (k * 128 + 128 - k * 128) with 128 by lia. change (Z.to_nat 128) with 128%nat. fold (chunk_of k). by rewrite chunk_message by lia.
Qed.

Lemma chunks_recover gs : forall n t l k rest,
  0 <= k -> k + len gs <= 8 -> progress (modem l) k -> clear_line l -> fates l = concat gs ++ rest -> groups_from (k + 1) gs ->
  is_waiting (display_ack_slot t) = false ->
  exists t' l', send_chunks (length gs + n) t l id k fb = send_chunks n t' l' id (k + len gs) fb /\
    progress (modem l') (k + len gs) /\ clear_line l' /\ fates l' = rest /\ is_waiting (display_ack_slot t') = false.
Proof using Hid Hfb Hbytes.
  induction gs as [|g gs IH]; intros n t l k rest Hk Hlen Hp Hl Hf Hg Ht.
  - exists t, l. change (len (@nil (list Fate))) with 0. rewrite Z.add_0_r. by split_and!.
  - rewrite len_cons in *. pose proof (len_nonneg gs). destruct Hg as [(losses & d & -> & Hn & Hrec & Hd) Hg]. cbn [length Nat.add].
    rewrite send_chunks_step by lia. cbn [concat] in Hf. rewrite <- !app_assoc in Hf. simpl in Hf.
    destruct (message_recovers losses DISPLAY_ACK_MAX_RETRIES t l k (k + 1) d (concat gs ++ rest)) as (t1 & l1 & -> & Hp1 & Hl1 & Hf1 & Ht1);
      try done; [lia|left; lia|].
    destruct (IH n t1 l1 (k + 1) rest) as (t2 & l2 & E & Hrest); try done; [lia|lia|].
    exists t2, l2. rewrite E. by replace (k + (1 + len gs)) with (k + 1 + len gs) by lia.
Qed.
End Line.

Section Transfers.
Context {R B T D K : Type} `{Radio R, Ble B, ButtonPoll T, Display D, BootClock K}.
Context (version commit : list Z).
Context (t : UsbEspNowTransport) (l : @Lossy R B T D K) (fb : list Z).
Context (Hid : byte_ok (next_display_transfer_id t)) (Hslot : is_waiting (display_ack_slot t) = false).
Context (Hfb : len fb = DISPLAY_FRAME_BODY_SIZE) (Hbytes : bytes_ok fb).
Abbreviation shown l := (queued (display (modem l))).
Abbreviation open_before := (transfer_id <$> display_transfer (modem l)).

(** C22: a display transfer is exact.  Whatever the line loses, in either direction,
    and however long it holds messages and answers back, in order; whatever chunks of
    other transfers reach the modem and whatever acknowledgements of other transfers,
    and other messages, reach the gateway, before or during the transfer; and whichever
    writes fail: the transfer ends.  If it is reported complete, exactly the frame that
    was sent has been given to the display, once; if it fails, either that frame or
    nothing has been by then.  At the start no frame is on its way to the modem, and no
    acknowledgement of an earlier transfer with the same identifier to the gateway; the
    chunks that stray in are not of the transfer the modem had open before. *)
Theorem display_transfer_exact :
  underway l = [] -> Forall (foreign (next_display_transfer_id t)) (late l) ->
  Forall (fate_ok (next_display_transfer_id t) open_before) (fates l) ->
  exists r t' l', send_display_frame (H := lossy_link version commit) t l fb = (r, t', l') /\
    ((r = Ok tt /\ shown l' = shown l ++ [fb]) \/ ((exists e, r = Err e) /\ (shown l' = shown l \/ shown l' = shown l ++ [fb]))).
Proof using Hid Hslot Hfb Hbytes.
  intros Hunder Hlate Hfates. unfold send_display_frame. set (id := next_display_transfer_id t) in *. set (t0 := set_next_id t _).
  destruct (send_display_message_wait_for_ack DISPLAY_ACK_MAX_RETRIES t0 l (MDisplayFrameBegin (mkBegin id)) id 0) as [[r1 t1] l1] eqn:Hs.
  assert (Hl : on_line id fb (shown l) open_before l 0 (-1)).
  { split; [by left|left; split; [done|]; by intros x ->| |eapply List.Forall_impl; [|exact Hlate]; intros m; apply foreign_plausible|done].
    exists []. rewrite Hunder. split; [constructor|]. split; constructor. }
  destruct (message_sent version commit id fb (shown l) open_before Hid Hfb Hbytes DISPLAY_ACK_MAX_RETRIES t0 l (-1) 0 r1 t1 l1) as (j & Hl1 & Ht1 & Hr); try done.
  assert (Hpost : forall (l2 : @Lossy R B T D K) j2, -1 <= j2 <= 8 -> status id fb (shown l) open_before (modem l2) j2 ->
    (j2 = 8 -> shown l2 = shown l ++ [fb]) /\ (shown l2 = shown l \/ shown l2 = shown l ++ [fb])).
  { intros l2 j2 Hj2 [Hp|(? & _ & Hp)]; [|by split; [lia|left]]. unfold progress in Hp. destruct (Z.eqb_spec j2 (-1)) as [->|]; [destruct Hp as [Hp _]; by split; [lia|left]|].
    destruct (Z.eqb_spec j2 8) as [->|]; [destruct Hp as [_ Hp]; split; [done|by right]|]. destruct Hp as [_ Hp]. split; [lia|by left]. }
  destruct Hr as [[e ->]|[-> ->]].
  { eexists _, _, _. split; [done|]. right. split; [by eexists|]. apply (Hpost l1 j); [destruct Hl1 as [[?|?] _ _ _ _]; lia|apply Hl1]. }
  destruct (send_chunks (Z.to_nat DISPLAY_FRAME_CHUNK_COUNT) t1 l1 id 0 fb) as [[r2 t2] l2] eqn:Hc.
  destruct (chunks_sent version commit id fb (shown l) open_before Hid Hfb Hbytes (Z.to_nat DISPLAY_FRAME_CHUNK_COUNT) t1 l1 0 r2 t2 l2) as (j & Hj8 & Hp & Hr); try done.
  eexists _, _, _. split; [done|]. destruct Hr as [[e ->]|[-> ->]]; [right|left]; (split; [by eexists|]); by eapply Hpost.
Qed.

Context (Hclear : clear_line l).

(** The start of a transfer whose first message arrives in the end. *)
Lemma transfer_begins g rest :
  fates l = g ++ rest -> retried 0 g ->
  exists t1 l1, send_display_frame (H := lossy_link version commit) t l fb =
    send_chunks (H := lossy_link version commit) (Z.to_nat DISPLAY_FRAME_CHUNK_COUNT) t1 l1 (next_display_transfer_id t) 0 fb /\
    progress (next_display_transfer_id t) fb (shown l) open_before (modem l1) 0 /\ clear_line l1 /\ fates l1 = rest /\ is_waiting (display_ack_slot t1) = false.
Proof using Hid Hslot Hfb Hbytes Hclear.
  intros Hf (losses & d & -> & Hn & Hrec & Hd). rewrite <- app_assoc in Hf. unfold send_display_frame. set (id := next_display_transfer_id t) in *.
  set (t0 := set_next_id t _).
  destruct (message_recovers version commit id fb (shown l) open_before Hid Hfb Hbytes losses DISPLAY_ACK_MAX_RETRIES t0 l (-1) 0 d rest)
    as (t1 & l1 & E & Hp & Hl1 & Hf1 & Ht1); try done; [by left|split; [done|]; by intros x ->|].
  exists t1, l1. unfold message_at in E. cbn [Z.eqb] in E. rewrite E. by split_and!.
Qed.

(** C34: a display transfer survives losses.  If nothing else is on the line and each of
    the nine messages gets through, with its acknowledgement, after at most three losses
    - of the message or of its acknowledgement, for the last message only of the
    message - then the transfer is reported complete and the frame is given to the
    display. *)
Theorem display_transfer_recovers g gs rest :
  fates l = g ++ concat gs ++ rest -> retried 0 g -> len gs = 8 -> groups_from 1 gs ->
  exists t' l', send_display_frame (H := lossy_link version commit) t l fb = (Ok tt, t', l') /\ shown l' = shown l ++ [fb].
Proof using Hid Hslot Hfb Hbytes Hclear.
  intros Hf Hg Hlen Hgs. destruct (transfer_begins g _ Hf Hg) as (t1 & l1 & -> & Hp & Hl1 & Hf1 & Ht1).
  destruct (chunks_recover version commit _ fb (shown l) open_before Hid Hfb Hbytes gs 0 t1 l1 0 rest) as (t2 & l2 & E & Hp2 & _); try done; [lia|].
  replace (length gs + 0)%nat with (Z.to_nat DISPLAY_FRAME_CHUNK_COUNT) in E by (unfold len in Hlen; unfold DISPLAY_FRAME_CHUNK_COUNT; lia).
  rewrite Hlen in *. exists t2, l2. split; [exact E|]. apply Hp2.
Qed.

(** The loss of the last acknowledgement is not made up for.  If everything goes
    through but the acknowledgement of the last chunk, the transfer fails, whatever
    happens afterwards, although the display has the frame: the modem has closed the
    transfer and answers the retransmissions with an error. *)
Lemma final_ack_loss_fatal g gs losses f rest :
  fates l = g ++ concat gs ++ losses ++ f :: rest -> retried 0 g -> len gs = 7 -> groups_from 1 gs ->
  (length losses <= DISPLAY_ACK_MAX_RETRIES)%nat -> Forall (recoverable 8) losses -> ack_lost f ->
  Forall (fun f => Forall (stray (next_display_transfer_id t) open_before) (strays f) /\ Forall not_ack (noise f)) rest ->
  exists e t' l', send_display_frame (H := lossy_link version commit) t l fb = (Err e, t', l') /\ shown l' = shown l ++ [fb].
Proof using Hid Hslot Hfb Hbytes Hclear.
  intros Hf Hg Hlen Hgs Hn Hrec Ho Hrest. destruct (transfer_begins g _ Hf Hg) as (t1 & l1 & -> & Hp & Hl1 & Hf1 & Ht1).
  destruct (chunks_recover version commit _ fb (shown l) open_before Hid Hfb Hbytes gs 1 t1 l1 0 (losses ++ f :: rest)) as (t2 & l2 & E & Hp2 & Hl2 & Hf2 & Ht2); try done; [lia|].
  replace (length gs + 1)%nat with (Z.to_nat DISPLAY_FRAME_CHUNK_COUNT) in E by (unfold len in Hlen; unfold DISPLAY_FRAME_CHUNK_COUNT; lia).
  rewrite Hlen in *. rewrite E. rewrite send_chunks_step by (done || lia). change (0 + 7 + 1) with 8.
  destruct (last_message_fails version commit (next_display_transfer_id t) fb (shown l) open_before Hid Hfb Hbytes losses DISPLAY_ACK_MAX_RETRIES t2 l2 f rest)
    as (e & t' & l' & -> & Hp'); try done.
  exists e, t', l'. split; [done|]. apply Hp'.
Qed.
End Transfers.
