(* ===== verification/ModemDemo.v ===== *)
(** * The modem on concrete inputs

    A stack, a panel, a port and a clock on which the theorems about the modem's
    firmware and the gateway's transport are exercised. *)

From S2P Require Import Prelude Modem ModemProofs ModemStream ModemRadio ModemBridge ModemTotal ModemTransparent.
From S2P Require Import ModemEspNow ModemPanel ModemBle GwModem ModemLink.
Open Scope list_scope.
Open Scope Z_scope.

(** ** A radio stack: so many copies of one frame arrive; sends succeed *)

Record DemoStack := mkDemoStack { arrivals : nat; known : list (list Z) }.

Definition demo_mac : list Z := [2; 0; 0; 0; 0; 1].
Definition demo_cb : Callback := RecvCb (Some (mkInfo (Some demo_mac) (Some (-40)))) (Some [1; 2; 3]) true false.

#[export] Instance demo_stack : EspStack DemoStack := {
  es_callbacks s := (replicate (arrivals s) demo_cb, mkDemoStack 0 (known s));
  es_del_peer s m := mkDemoStack (arrivals s) (filter (fun x => x <> m) (known s));
  es_peer_exists s m := bool_decide (m ∈ known s);
  es_add_peer s m _ := if bool_decide (Z.of_nat (size (list_to_set (known s) : gset (list Z))) < MAX_PEERS) then mkDemoStack (arrivals s) (m :: known s) else s;
  es_send s _ _ := (true, s);
  es_set_channel s _ := (true, s);
  es_scan s := (Some [(6, -50); (6, -30); (11, -80)], s);
  es_mac _ := [2; 0; 0; 0; 0; 9]
}.

#[export] Instance demo_stack_typed : StackTyped DemoStack.
Proof.
  split.
  - intros s. simpl. apply Forall_replicate. split; [intros i src [= <-] [= <-]|intros bytes [= <-]]; [split|]; try done; by repeat constructor.
  - intros s aps s' [= <- _]. by repeat constructor.
  - intros s. split; [done|]. by repeat constructor.
Qed.

#[export] Instance demo_stack_peers : StackPeers DemoStack.
Proof.
  refine {| registered s := list_to_set (known s) |}; intros; try done; simpl.
  - apply set_eq. intros x. rewrite elem_of_difference, !elem_of_list_to_set, list_elem_of_filter, elem_of_singleton. tauto.
  - apply bool_decide_ext. by rewrite elem_of_list_to_set.
  - by rewrite bool_decide_true.
Defined.

Definition demo_peer : list Z := [2; 0; 0; 0; 0; 2].
Definition demo_ops : list RadioOp := [OSend demo_mac [7]; OScan; ODrain; OSetChannel 6].

(** Frames for two nodes, a change of channel in between. *)
Lemma radio_driver_ready_witness :
  registered (mkDemoStack 2 []) = ∅ /\
  let '(r, c) := fold_left radio_step demo_ops (Ok (driver_new (mkDemoStack 2 [])), counters_new) in
  exists ok d c', radio_send r c demo_peer [8] = (ok, Ok d, c') /\ demo_peer ∈ registered (stack d).
Proof.
  split; [done|].
  pose proof (radio_driver_ready (mkDemoStack 2 []) counters_new demo_ops demo_peer [8] eq_refl ltac:(by repeat split) ltac:(by repeat constructor)) as Hr.
  destruct (fold_left radio_step demo_ops _) as [r c]. destruct Hr as [(ok & d & c' & E & Hin & _) _]. by exists ok, d, c'.
Defined.

(** The survey hears two access points on channel 6 and one on channel 11. *)
Example demo_survey :
  survey [(6, -50); (6, -30); (11, -80)] <$> [1; 6; 11] = [(1, 0, 0); (6, 2, -30); (11, 1, -80)].
Proof. reflexivity. Qed.

(** ** A panel on a bus that never fails *)

Record DemoGlass := mkGlass { g_ram : Z -> list Z; g_cursor : Z; g_lit : bool }.

Definition demo_receive (g : DemoGlass) (bytes : list Z) : DemoGlass :=
  match bytes with
  | [0x78; 0x00; 0xAE] => mkGlass (g_ram g) (g_cursor g) false
  | [0x78; 0x00; 0xAF] => mkGlass (g_ram g) (g_cursor g) true
  | [0x78; 0x00; c; 0x00; 0x10] => mkGlass (g_ram g) (c - 0xB0) (g_lit g)
  | 0x78 :: 0x40 :: data => mkGlass (fun p => if p =? g_cursor g then data else g_ram g p) (g_cursor g) (g_lit g)
  | 0x78 :: 0x00 :: cmds => if bool_decide (cmds = SSD1306_INIT) then mkGlass (g_ram g) (g_cursor g) true else g
  | _ => g
  end.

#[export] Instance demo_glass : Ssd1306 DemoGlass.
Proof.
  refine {| ram := g_ram; cursor := g_cursor; lit := g_lit; receive := demo_receive |}; intros g; try done.
  - intros page Hp. simpl. repeat case_match; try lia; simplify_eq; simpl; split_and!; try done; lia.
  - intros bytes _. simpl. rewrite Z.eqb_refl. split_and!; try done. intros p Hp. by rewrite (proj2 (Z.eqb_neq p _)).
Defined.

Record DemoBus := mkBus { b_link : list Z; b_glass : DemoGlass }.

#[export] Instance demo_i2c : I2c DemoBus := {
  i2c_link_create w := (true, mkBus [] (b_glass w));
  i2c_start w := (true, w);
  i2c_write_byte w b := (true, mkBus (b_link w ++ [b]) (b_glass w));
  i2c_write w bs := (true, mkBus (b_link w ++ bs) (b_glass w));
  i2c_stop w := (true, w);
  i2c_cmd_begin w _ := (true, mkBus (b_link w) (demo_receive (b_glass w) (b_link w)));
  i2c_link_delete w := w
}.

#[export] Instance demo_bus : PanelBus DemoBus DemoGlass.
Proof. refine {| glass := b_glass; link := b_link |}; intros; simplify_eq/=; done. Defined.

#[export] Instance demo_clock : Monotonic unit := fun c => (0, c).

Definition demo_off : DemoBus := mkBus [] (mkGlass (fun _ => replicate 128 0) 0 false).

(** A frame with the first pixel of every byte set. *)
Definition demo_frame : list Z := replicate 1024 0x80.

Lemma display_renders_witness :
  ssd_ok ssd_new /\
  exists errs d' w' c',
    display_polls (H := modem_display 100) (flush_polls ssd_new)
      (display_queue_frame (Display := modem_display 100) (Ok (display_new ssd_new, demo_off, tt)) demo_frame)
      = (errs, Ok (display_new d', w', c')) /\
    (all_well errs -> lit (glass w') = true /\ panel_pixel (glass w') 8 3 = true /\ panel_pixel (glass w') 9 3 = false).
Proof.
  split; [by split|]. destruct (display_renders 100 ssd_new demo_off tt demo_frame) as (errs & d' & w' & c' & E & Hall & _); [by split|done|done|].
  exists errs, d', w', c'. split; [exact E|]. intros Hw. destruct (Hall Hw) as (_ & Hl & Hp).
  split; [done|]. rewrite !Hp by lia. split; reflexivity.
Defined.

(** ** A phone, a button and clocks *)

(** A BLE stack on which a phone connects once. *)
#[export] Instance demo_nimble : NimbleStack bool := {
  n_callbacks n := (if n then [OnConnect demo_mac 247 1 1 0] else [], false);
  n_now n := (0, n);
  n_disconnect n _ := n;
  n_security_initiate n _ := n;
  n_advertise_on_disconnect n _ := n;
  n_set_data n := (true, n);
  n_start n := (true, n);
  n_stop n := n;
  n_notify n _ _ := (true, n);
  n_conn_find n _ := (NotConnected, n);
  n_att_mtu _ _ := 23
}.

#[export] Instance demo_nimble_typed : NimbleTyped bool.
Proof.
  split; [|done|done]. intros []; simpl; [|constructor]. constructor; [|constructor]. split; [|done]. split; [done|]. by repeat constructor.
Qed.

Definition demo_ble : EspBleDriver bool := mkBle true ble_state_new.

Lemma demo_ble_ok : bt_inv (ble_disable demo_ble).
Proof. apply (bt_disable (B := EspBleDriver bool)). split; simpl; [constructor|done|done|done]. Qed.

#[export] Instance demo_pin : ButtonPin unit := fun p => (0, false, p).
#[export] Instance demo_boot : BootClock unit := fun k => (0, k).

Abbreviation DemoRadio := (Res unit (EspNowDriver DemoStack)).
Abbreviation DemoPanel := (Res unit (ModemDisplay * DemoBus * unit)).

#[export] Instance demo_display : Display DemoPanel := modem_display 100.

Definition demo_radio (n : nat) : DemoRadio := Ok (driver_new (mkDemoStack n [])).
Definition demo_panel : DemoPanel := Ok (display_new ssd_new, demo_off, tt).

Lemma demo_radio_ok n : rt_inv (demo_radio n).
Proof.
  exists (driver_new (mkDemoStack n [])). split; [done|]. split; [apply table_new_ok| |simpl; lia].
  exists []. split; [apply ring_holds_default|constructor].
Qed.

(** ** The main loop *)

(** A port on which a request for the status arrives again and again. *)
#[export] Instance demo_serial : SerialPort unit := {
  sp_read u := ([0; 1; MODEM_MSG_GET_STATUS], true, u);
  sp_write u _ := (false, u);
  sp_is_connected _ := true
}.

#[export] Instance demo_serial_typed : SerialTyped unit.
Proof. intros u. simpl. split; [by vm_compute|]. by repeat constructor. Qed.

Lemma bridge_poll_total_witness :
  let b := bridge_new tt (demo_radio 2) demo_ble (tt, Idle) demo_panel tt in
  bridge_ok b /\ exists b', poll [0; 1; 0; 0] (replicate 8 0) (Z.to_nat 4109) b = Some (Ok b') /\ bridge_ok b'.
Proof.
  intros b. assert (Hb : bridge_ok b) by (split; [done|]; split; [constructor|by vm_compute]). split; [done|].
  apply (bridge_poll_total [0; 1; 0; 0] (replicate 8 0) b (Z.to_nat 4109) Hb). unfold DECODER_BUF_CAP. lia.
Defined.

(** A frame for a node arrives in two pieces, an empty frame after it. *)
Definition demo_segments : list Segment := [SegFrame MODEM_MSG_SEND_FRAME (demo_mac ++ [9; 9]); SegEmpty].
Definition demo_port : Port := mkPort [[0; 9; 2]; [2; 0; 0; 0; 0; 1; 9; 9; 0; 0]] [] [].

Lemma bridge_transparent_witness :
  let b := bridge_new demo_port (mkSpied (demo_radio 2) [] []) demo_ble (tt, Idle) demo_panel tt in
  exists b', polls [0; 1; 0; 0] (replicate 8 0) (Z.to_nat 1200) 2 b = Some (Ok b') /\ sent (radio b') = [(demo_mac, [9; 9])] /\
    forall reads, concat reads = concat (outgoing (usb b')) -> Forall (fun c => len c <= READ_BUF_SIZE) reads ->
      exists msgs, reader decoder_new reads = Some (Ok (msgs, decoder_new)) /\ omap recv_of msgs = filter airborne (drained (radio b')).
Proof.
  intros b. assert (Hsegs : Forall seg_ok demo_segments) by (repeat constructor; by vm_compute).
  assert (Hne : Forall (fun m => m <> MReset) (seg_msgs demo_segments)) by (vm_compute; by repeat constructor).
  assert (Hin : concat (incoming demo_port) = stream demo_segments) by reflexivity.
  assert (Hch : Forall (fun c => len c <= RX_BUF_SIZE) (incoming demo_port)) by (by repeat constructor).
  destruct (bridge_transparent [0; 1; 0; 0] (replicate 8 0) b demo_segments (Z.to_nat 1200)
    I ltac:(by repeat split) (demo_radio_ok 2) demo_ble_ok eq_refl eq_refl eq_refl eq_refl Hsegs Hne Hin Hch ltac:(lia)) as (b' & E & Hs & Hr).
  exists b'. split; [exact E|]. split; [exact Hs|]. exact (Hr eq_refl).
Defined.

(** ** Display transfers *)

Definition demo_line (fs : list Fate) (late : list ModemMessage) : @Lossy DemoRadio (EspBleDriver bool) (unit * ButtonState) DemoPanel unit :=
  mkLossy (bridge_new (mkPort [] [] []) (demo_radio 0) demo_ble (tt, Idle) (mkSpiedDisplay demo_panel []) tt) fs [] late [].

Abbreviation demo_transfer fs := (send_display_frame (H := lossy_link [0; 1; 0; 0] (replicate 8 0)) transport_new (demo_line fs []) demo_frame).

Definition Lost : Fate := mkFate true true [] 1 false [] 1.
Definition AckLost : Fate := mkFate true false [] 1 true [] 1.
Definition AckLate : Fate := mkFate true false [] 1 false [] 0.
Definition Held : Fate := mkFate true false [] 0 false [] 1.
Definition Broken : Fate := mkFate false false [] 0 false [] 0.

(** A chunk of another transfer strays in, and an acknowledgement of another. *)
Definition stray_frame : list Z :=
  match encode_modem_frame (MDisplayFrameChunk (mkChunk 7 0 (replicate 128 1))) with Ok f => f | _ => [] end.
Definition Crossed : Fate := mkFate true false [stray_frame] 2 false [MDisplayFrameAck (mkAck 9 1)] 4.

Lemma demo_frame_ok : len demo_frame = DISPLAY_FRAME_BODY_SIZE /\ bytes_ok demo_frame.
Proof. split; [done|]. apply Forall_replicate. by vm_compute. Qed.

(** Losses, delays both ways, strays and a failed write; an acknowledgement of an
    earlier transfer on its way at the start. *)
Lemma display_transfer_exact_witness :
  let l := demo_line [AckLost; Lost; Held; AckLate; Crossed; Delivered; Broken] [MDisplayFrameAck (mkAck 9 0)] in
  exists r t' l', send_display_frame (H := lossy_link [0; 1; 0; 0] (replicate 8 0)) transport_new l demo_frame = (r, t', l') /\
    ((r = Ok tt /\ queued (display (modem l')) = [demo_frame]) \/
     ((exists e, r = Err e) /\ (queued (display (modem l')) = [] \/ queued (display (modem l')) = [demo_frame]))).
Proof.
  intros l. assert (Hs : stray 0 None stray_frame).
  { exists (mkChunk 7 0 (replicate 128 1)), (len stray_frame). split; [by vm_compute|]. split; [discriminate|discriminate]. }
  assert (Hf : Forall (fate_ok 0 None) (fates l)) by (repeat constructor; done).
  assert (Hl : Forall (foreign 0) (late l)) by (repeat constructor; done).
  exact (display_transfer_exact [0; 1; 0; 0] (replicate 8 0) transport_new l demo_frame
    ltac:(by vm_compute) eq_refl (proj1 demo_frame_ok) (proj2 demo_frame_ok) eq_refl Hl Hf).
Defined.

Lemma demo_arrives k : retried k [Delivered].
Proof. exists [], Delivered. split; [done|]. split; [simpl; lia|]. split; [constructor|]. split_and!; try done; by constructor. Qed.

Lemma demo_lost_twice k : k <> 8 -> retried k [AckLost; Lost; Delivered].
Proof.
  intros Hk. exists [AckLost; Lost], Delivered. split; [done|]. split; [unfold DISPLAY_ACK_MAX_RETRIES; simpl; lia|].
  split; [|split_and!; try done; by constructor]. constructor; [split_and!; try done; [by constructor|right; split_and!; done || lia]|].
  constructor; [split_and!; try done; [by constructor|by left]|constructor].
Qed.

Lemma display_transfer_recovers_witness :
  let fs := [AckLost; Lost; Delivered] ++ concat (replicate 8 [Delivered]) in
  exists t' l', demo_transfer fs = (Ok tt, t', l') /\ queued (display (modem l')) = [demo_frame].
Proof.
  intros fs. assert (Hf : fates (demo_line fs []) = [AckLost; Lost; Delivered] ++ concat (replicate 8 [Delivered]) ++ []) by reflexivity.
  assert (Hg : groups_from 1 (replicate 8 [Delivered])) by (repeat (split; [apply demo_arrives|]); exact I).
  exact (display_transfer_recovers [0; 1; 0; 0] (replicate 8 0) transport_new (demo_line fs []) demo_frame
    ltac:(by vm_compute) eq_refl (proj1 demo_frame_ok) (proj2 demo_frame_ok) (conj eq_refl eq_refl) _ _ [] Hf (demo_lost_twice 0 ltac:(lia)) eq_refl Hg).
Defined.

Lemma final_ack_loss_fatal_witness :
  let fs := [Delivered] ++ concat (replicate 7 [Delivered]) ++ [] ++ AckLost :: replicate 3 Delivered in
  exists e t' l', demo_transfer fs = (Err e, t', l') /\ queued (display (modem l')) = [demo_frame].
Proof.
  intros fs. assert (Hg : groups_from 1 (replicate 7 [Delivered])) by (repeat (split; [apply demo_arrives|]); exact I).
  assert (Hrest : Forall (fun f => Forall (stray 0 None) (strays f) /\ Forall not_ack (noise f)) (replicate 3 Delivered)) by (repeat constructor).
  assert (Hal : ack_lost AckLost) by (split_and!; try done; by constructor).
  exact (final_ack_loss_fatal [0; 1; 0; 0] (replicate 8 0) transport_new (demo_line fs []) demo_frame
    ltac:(by vm_compute) eq_refl (proj1 demo_frame_ok) (proj2 demo_frame_ok) (conj eq_refl eq_refl) [Delivered] (replicate 7 [Delivered]) [] AckLost
    (replicate 3 Delivered) eq_refl (demo_arrives 0) eq_refl Hg ltac:(simpl; lia) ltac:(constructor) Hal Hrest).
Defined.
