(* ===== verification/GwSqlite.v ===== *)
(** * The gateway's SQLite storage

    [sonde-gateway/src/sqlite_storage.rs]: the tables, the encryption of keys at
    rest, the node, phone, program and configuration operations of the [Storage]
    trait, the tables of recovered keys and of the pending rotation, and the checks
    [open] makes of a database and a master key.

    A table with a primary key is a finite map; the order in which a query without
    ORDER BY lists its rows is that of [map_to_list].  An operation runs in one
    closure on the connection ([with_conn]): its writes are one transaction or one
    statement, so an error leaves the tables as they were.  Schema migrations (DDL)
    are not modelled: the tables have their current columns.  The [handlers] table,
    last-seen times and [replace_state] are left out.

    Random bytes come from a finite tape, one entry for each call of
    [getrandom::fill]; an exhausted tape is a failing generator.  AES-256-GCM is the
    [AeadProvider] of the frame codec; SHA-256, hexadecimal text and JSON are
    interfaces. *)

From Stdlib Require Import String Ascii.
From stdpp Require Import sorting.
From S2P Require Import Prelude Frame GwStore.
Open Scope list_scope.
Open Scope Z_scope.

(** ** Numbers as text *)

Fixpoint decimal (fuel : nat) (n : Z) (acc : list Z) : list Z :=
  match fuel with
  | O => acc
  | S f => if n <? 10 then (48 + n) :: acc else decimal f (n / 10) ((48 + n mod 10) :: acc)
  end.

(** [to_string] of an unsigned integer of at most 64 bits: at most 20 digits. *)
Definition to_string (n : Z) : list Z := decimal 20 n [].

Fixpoint parse_decimal (limit acc : Z) (s : list Z) : option Z :=
  match s with
  | [] => Some acc
  | c :: s' =>
      if (48 <=? c) && (c <=? 57) then
        let acc' := acc * 10 + (c - 48) in
        if acc' <? limit then parse_decimal limit acc' s' else None
      else None
  end.

(** [str::parse] for [u64] and [i64]: a sign, then at least one digit. *)
Definition parse_unsigned (limit : Z) (s : list Z) : option Z :=
  match s with
  | [] => None
  | c :: s' => if c =? 43 then match s' with [] => None | _ => parse_decimal limit 0 s' end else parse_decimal limit 0 s
  end.

Definition parse_u64 (s : list Z) : option Z := parse_unsigned (2 ^ 64) s.
Definition parse_u32 (s : list Z) : option Z := parse_unsigned (2 ^ 32) s.
Definition parse_i64 (s : list Z) : option Z :=
  match s with
  | c :: ((_ :: _) as s') => if c =? 45 then Z.opp <$> parse_decimal (2 ^ 63 + 1) 0 s' else parse_unsigned (2 ^ 63) s
  | _ => parse_unsigned (2 ^ 63) s
  end.

(** [i64::try_from] of a [u64]. *)
Definition to_i64 (n : Z) : option Z := if n <? 2 ^ 63 then Some n else None.

(** [u64::try_from] of an [i64], and the conversions of a column to [u32] and of a
    [u32] to a narrower type: the value must be in range. *)
Definition to_uint (w n : Z) : option Z := if (0 <=? n) && (n <? 2 ^ w) then Some n else None.

(** ** Libraries *)

Class HexCodec : Type := { hex_encode : list Z -> list Z; hex_decode : list Z -> option (list Z) }.
Class HexLaws (H : HexCodec) : Prop := { hex_back : forall b, hex_decode (hex_encode b) = Some b }.

(** [serde_json] at the type of sensor lists. *)
Class SensorJson : Type := {
  sensors_to_text : list SensorDescriptor -> option (list Z);
  sensors_of_text : list Z -> option (list SensorDescriptor)
}.
Class SensorJsonLaws (J : SensorJson) : Prop := {
  sensors_back : forall l, exists t, sensors_to_text l = Some t /\ sensors_of_text t = Some l
}.

(** ** Tables *)

Record NodeRow := mkNodeRow {
  row_key_hint : Z;
  row_psk : list Z;
  row_assigned : option (list Z);
  row_current : option (list Z);
  row_desired_s : option Z;
  row_schedule_s : Z;
  row_abi : option Z;
  row_battery_mv : option Z;
  row_rf_channel : option Z;
  row_sensors_json : option (list Z);
  row_phone : option Z;
  row_firmware : option (list Z);
  row_key_version : Z;
  row_master_key_id : option (list Z);
  row_epoch : Z
}.

Record PhoneRow := mkPhoneRow {
  ph_key_hint : Z;
  ph_psk : list Z;
  ph_label : list Z;
  ph_issued_s : Z;
  ph_status : string;
  ph_key_version : Z;
  ph_master_key_id : option (list Z);
  ph_epoch : Z
}.

Record ProgramRow := mkProgramRow {
  pg_image : list Z;
  pg_size : Z;
  pg_profile : string;
  pg_abi : option Z;
  pg_filename : option (list Z);
  pg_decoder : option (list Z)
}.

Record IdentityRow := mkIdentityRow {
  id_seed : list Z;
  id_gateway : list Z;
  id_public : list Z;
  id_seed_new : option (list Z)
}.

Record RecoveryRow := mkRecoveryRow {
  rc_psk : list Z;
  rc_master_key_id : list Z;
  rc_epoch : Z;
  rc_received_at : Z
}.

(** The one row of [pending_rotation], and the record the engine reads from it. *)
Record PendingRow := mkPendingRow {
  new_master_key_enc : list Z;
  new_master_key_id : list Z;
  new_epoch : Z;
  started_at : Z;
  phase : string
}.

Record Db := mkDb {
  t_nodes : gmap string NodeRow;
  t_phones : gmap Z PhoneRow;
  (** The counter of AUTOINCREMENT: the largest identifier given so far. *)
  t_phone_seq : Z;
  t_programs : gmap (list Z) ProgramRow;
  t_identity : option IdentityRow;
  t_config : gmap string (list Z);
  t_rotation : option PendingRow;
  t_recovery : gmap (Z * string) RecoveryRow
}.

Definition set_nodes (d : Db) x := mkDb x (t_phones d) (t_phone_seq d) (t_programs d) (t_identity d) (t_config d) (t_rotation d) (t_recovery d).
Definition set_phones (d : Db) x := mkDb (t_nodes d) x (t_phone_seq d) (t_programs d) (t_identity d) (t_config d) (t_rotation d) (t_recovery d).
Definition set_phone_seq (d : Db) x := mkDb (t_nodes d) (t_phones d) x (t_programs d) (t_identity d) (t_config d) (t_rotation d) (t_recovery d).
Definition set_programs (d : Db) x := mkDb (t_nodes d) (t_phones d) (t_phone_seq d) x (t_identity d) (t_config d) (t_rotation d) (t_recovery d).
Definition set_identity (d : Db) x := mkDb (t_nodes d) (t_phones d) (t_phone_seq d) (t_programs d) x (t_config d) (t_rotation d) (t_recovery d).
Definition set_configs (d : Db) x := mkDb (t_nodes d) (t_phones d) (t_phone_seq d) (t_programs d) (t_identity d) x (t_rotation d) (t_recovery d).
Definition set_rotation (d : Db) x := mkDb (t_nodes d) (t_phones d) (t_phone_seq d) (t_programs d) (t_identity d) (t_config d) x (t_recovery d).
Definition set_recovery_rows (d : Db) x := mkDb (t_nodes d) (t_phones d) (t_phone_seq d) (t_programs d) (t_identity d) (t_config d) (t_rotation d) x.

(** ** Closures on the connection *)

Definition Tape : Type := list (list Z).
Definition Tx (A : Type) : Type := Db -> Tape -> (StorageError + A) * (Db * Tape).

#[export] Instance tx_ret : MRet Tx := fun A a d t => (inr a, (d, t)).
#[export] Instance tx_bind : MBind Tx := fun A B k m d t =>
  match m d t with
  | (inl e, x) => (inl e, x)
  | (inr a, (d', t')) => k a d' t'
  end.

Definition tx_fail {A} (msg : string) : Tx A := fun d t => (inl (EInternal msg), (d, t)).
Definition tx_get : Tx Db := fun d t => (inr d, (d, t)).
Definition tx_mod (f : Db -> Db) : Tx unit := fun d t => (inr tt, (f d, t)).
Definition tx_some {A} (o : option A) (msg : string) : Tx A := match o with Some a => mret a | None => tx_fail msg end.
Definition tx_res {A} (r : StorageError + A) : Tx A := fun d t => (r, (d, t)).

(** [getrandom::fill] on a buffer of [n] bytes. *)
Definition fill (n : nat) : Tx (list Z) := fun d t =>
  match t with
  | bs :: t' => (inr (resize n 0 bs), (d, t'))
  | [] => (inl (EInternal "rng"), (d, t))
  end.

(** ** The gateway's identity (gateway_identity.rs) *)

(** Ed25519: the public key of a seed. *)
Class Ed25519 : Type := { ed25519_public : list Z -> list Z }.

Record GatewayIdentity := mkIdentity { seed : list Z; gateway_id : list Z; public_key : list Z }.

Definition from_parts `{Ed25519} (sd gid : list Z) : GatewayIdentity := mkIdentity sd gid (ed25519_public sd).

Section Sqlite.
Context `{Sha256Provider, AeadProvider} `{HexCodec} `{SensorJson}.

(** ** Keys at rest *)

Definition ENCRYPTED_PSK_LEN : Z := 60.

Definition encrypt_blob (master_key aad plain : list Z) : Tx (list Z) :=
  nonce ← fill 12;
  mret (nonce ++ seal master_key nonce aad plain).

Definition decrypt_blob (master_key aad blob : list Z) : StorageError + list Z :=
  if negb (len blob =? ENCRYPTED_PSK_LEN) then inl (EInternal "encrypted blob has wrong length") else
  match open master_key (take 12 blob) aad (drop 12 blob) with
  | None => inl (EInternal "decryption failed - wrong master key or data corruption")
  | Some plain => if len plain =? 32 then inr plain else inl (EInternal "decrypted value is not 32 bytes")
  end.

Definition encrypt_psk (master_key : list Z) (node_id : string) (psk : list Z) : Tx (list Z) :=
  encrypt_blob master_key (bytes_of node_id) psk.
Definition decrypt_psk (master_key : list Z) (node_id : string) (blob : list Z) : StorageError + list Z :=
  decrypt_blob master_key (bytes_of node_id) blob.

Definition seed_aad (gateway_id : list Z) : list Z := bytes_of "sonde-gateway-identity" ++ gateway_id.
Definition encrypt_seed (master_key seed gateway_id : list Z) : Tx (list Z) :=
  encrypt_blob master_key (seed_aad gateway_id) seed.
Definition decrypt_seed (master_key blob gateway_id : list Z) : StorageError + list Z :=
  decrypt_blob master_key (seed_aad gateway_id) blob.

Definition encrypt_phone_psk (master_key : list Z) (phone_id : Z) (psk : list Z) : Tx (list Z) :=
  encrypt_blob master_key (to_string phone_id) psk.
Definition decrypt_phone_psk (master_key : list Z) (phone_id : Z) (blob : list Z) : StorageError + list Z :=
  decrypt_blob master_key (to_string phone_id) blob.

Definition PENDING_ROTATION_AAD : list Z := bytes_of "sonde-pending-rotation".
Definition decrypt_pending_new_key (current_key enc_blob : list Z) : StorageError + list Z :=
  decrypt_blob current_key PENDING_ROTATION_AAD enc_blob.

(** The identifier and epoch new rows are stamped with. *)
Definition read_current_key_metadata : Tx (list Z * Z) :=
  d ← tx_get;
  id_hex ← tx_some (t_config d !! "master_key_id"%string) "master_key_id not initialised in gateway_config";
  epoch_str ← tx_some (t_config d !! "master_key_epoch"%string) "master_key_epoch not initialised in gateway_config";
  id_bytes ← tx_some (hex_decode id_hex) "gateway_config master_key_id is not valid hex";
  if negb (len id_bytes =? 32) then tx_fail "gateway_config master_key_id must be 32 bytes" else
  epoch ← tx_some (parse_i64 epoch_str) "gateway_config master_key_epoch is not a valid i64";
  if epoch <? 1 then tx_fail "gateway_config master_key_epoch must be >= 1" else
  mret (id_bytes, epoch).

(** ** The object *)

(** [strftime('%s', 'now')] is [db_now]. *)
Record SqliteStorage := mkSqlite {
  conn : Db;
  master_key : list Z;
  (** The key being rotated to and its epoch. *)
  rotation_key_state : option (list Z * Z);
  tape : Tape;
  db_now : Z
}.

Definition set_conn (s : SqliteStorage) x t := mkSqlite x (master_key s) (rotation_key_state s) t (db_now s).

Definition with_conn {A} (f : SqliteStorage -> Tx A) : Op SqliteStorage A := fun s =>
  match f s (conn s) (tape s) with
  | (inl e, (_, t)) => (inl e, set_conn s (conn s) t)
  | (inr a, (d, t)) => (inr a, set_conn s d t)
  end.

(** ** Nodes *)

Definition sensors_to_json (l : list SensorDescriptor) : option (list Z) :=
  match l with [] => None | _ => sensors_to_text l end.
Definition sensors_from_json (json : list Z) : list SensorDescriptor := default [] (sensors_of_text json).

(** The key a row of this epoch is encrypted with. *)
Definition row_decrypt_key (mk : list Z) (rk : option (list Z * Z)) (record_epoch : Z) : list Z :=
  match rk with
  | Some (new_key, e) => if record_epoch >=? e then new_key else mk
  | None => mk
  end.

Definition opt_uint (w : Z) (o : option Z) : option (option Z) :=
  match o with None => Some None | Some v => Some <$> to_uint w v end.

Definition row_to_node (mk : list Z) (rk : option (list Z * Z)) (node_id : string) (row : NodeRow) : Tx NodeRecord :=
  record_epoch ← tx_some (to_uint 63 (row_epoch row)) "negative master_key_epoch";
  psk ← tx_res (decrypt_psk (row_decrypt_key mk rk record_epoch) node_id (row_psk row));
  rf_channel ← tx_some (opt_uint 8 (row_rf_channel row)) "rf_channel out of u8 range";
  desired ← tx_some (opt_uint 32 (row_desired_s row)) "integer out of range";
  phone ← tx_some (opt_uint 32 (row_phone row)) "integer out of range";
  key_version ← tx_some (to_uint 63 (row_key_version row)) "negative key_version";
  schedule ← tx_some (to_uint 32 (row_schedule_s row)) "integer out of range";
  key_hint ← tx_some (to_uint 16 (row_key_hint row)) "key_hint out of u16 range";
  abi ← tx_some (opt_uint 32 (row_abi row)) "integer out of range";
  mret (mkNodeRecord node_id key_hint psk (row_assigned row) (row_current row) desired schedule abi (row_firmware row)
    rf_channel (match row_sensors_json row with Some j => sensors_from_json j | None => [] end) phone key_version).

Definition rows_to_nodes (mk : list Z) (rk : option (list Z * Z)) (rows : list (string * NodeRow)) : Tx (list NodeRecord) :=
  foldr (fun '(id, row) (k : Tx (list NodeRecord)) => n ← row_to_node mk rk id row; l ← k; mret (n :: l)) (mret []) rows.

End Sqlite.

Module Sql.
Section Ops.
Context `{Sha256Provider, AeadProvider} `{HexCodec} `{SensorJson} `{Ed25519}.
Abbreviation SqlOp := (Op SqliteStorage).

Definition list_nodes : SqlOp (list NodeRecord) := with_conn (fun s =>
  d ← tx_get; rows_to_nodes (master_key s) (rotation_key_state s) (map_to_list (t_nodes d))).

Definition get_node (node_id : string) : SqlOp (option NodeRecord) := with_conn (fun s =>
  d ← tx_get;
  match t_nodes d !! node_id with
  | None => mret None
  | Some row => n ← row_to_node (master_key s) (rotation_key_state s) node_id row; mret (Some n)
  end).

Definition get_nodes_by_key_hint (h : Z) : SqlOp (list NodeRecord) := with_conn (fun s =>
  d ← tx_get;
  rows_to_nodes (master_key s) (rotation_key_state s)
    (filter (fun x => row_key_hint x.2 = h) (map_to_list (t_nodes d)))).

(** The row an INSERT of a record writes. *)
Definition node_row (n : NodeRecord) (blob : list Z) (key_version : Z) (meta : list Z * Z) : NodeRow :=
  mkNodeRow (nr_key_hint n) blob (assigned_program_hash n) (current_program_hash n) (desired_schedule_interval_s n)
    (schedule_interval_s n) (nr_firmware_abi_version n) None (rf_channel n) (sensors_to_json (sensors n))
    (registered_by_phone_id n) (nr_firmware_version n) key_version (Some meta.1) meta.2.

Definition insert_row (id : string) (row : NodeRow) : Tx unit := tx_mod (fun d => set_nodes d (<[id := row]> (t_nodes d))).

Definition upsert_node (n : NodeRecord) : SqlOp unit := with_conn (fun s =>
  encrypted_psk ← encrypt_psk (master_key s) (nr_id n) (nr_psk n);
  key_version ← tx_some (to_i64 (nr_key_version n)) "key_version exceeds i64::MAX";
  meta ← read_current_key_metadata;
  insert_row (nr_id n) (node_row n encrypted_psk key_version meta)).

Definition insert_node_if_not_exists (n : NodeRecord) : SqlOp bool := with_conn (fun s =>
  encrypted_psk ← encrypt_psk (master_key s) (nr_id n) (nr_psk n);
  key_version ← tx_some (to_i64 (nr_key_version n)) "key_version exceeds i64::MAX";
  meta ← read_current_key_metadata;
  d ← tx_get;
  match t_nodes d !! nr_id n with
  | Some _ => mret false
  | None => insert_row (nr_id n) (node_row n encrypted_psk key_version meta) ;; mret true
  end).

Definition with_firmware (r : NodeRow) (abi : Z) (version : list Z) : NodeRow :=
  mkNodeRow (row_key_hint r) (row_psk r) (row_assigned r) (row_current r) (row_desired_s r) (row_schedule_s r)
    (Some abi) (row_battery_mv r) (row_rf_channel r) (row_sensors_json r) (row_phone r) (Some version)
    (row_key_version r) (row_master_key_id r) (row_epoch r).

Definition with_current (r : NodeRow) (hash : list Z) : NodeRow :=
  mkNodeRow (row_key_hint r) (row_psk r) (row_assigned r) (Some hash) (row_desired_s r) (row_schedule_s r)
    (row_abi r) (row_battery_mv r) (row_rf_channel r) (row_sensors_json r) (row_phone r) (row_firmware r)
    (row_key_version r) (row_master_key_id r) (row_epoch r).

Definition update_node_wake_metadata (id : string) (abi : Z) (version : list Z) : SqlOp unit := with_conn (fun s =>
  d ← tx_get;
  match t_nodes d !! id with
  | None => tx_res (inl (ENotFound ("node `" ++ id ++ "`")))
  | Some r =>
      if bool_decide (row_abi r = Some abi) && bool_decide (row_firmware r = Some version) then mret tt
      else insert_row id (with_firmware r abi version)
  end).

Definition reconcile_current_program_hash (id : string) (hash : list Z) : SqlOp bool := with_conn (fun s =>
  d ← tx_get;
  match t_nodes d !! id with
  | None => tx_res (inl (ENotFound ("node `" ++ id ++ "`")))
  | Some r =>
      if bool_decide (row_assigned r = Some hash) && negb (bool_decide (row_current r = Some hash))
      then insert_row id (with_current r hash) ;; mret true
      else mret false
  end).

Definition delete_node (id : string) : SqlOp unit := with_conn (fun s =>
  tx_mod (fun d => set_nodes d (delete id (t_nodes d)))).
(** ** Phones *)

Definition status_str (st : PhonePskStatus) : string := match st with Active => "active" | Revoked => "revoked" end.
Definition status_of_str (s : string) : option PhonePskStatus :=
  if bool_decide (s = "active"%string) then Some Active
  else if bool_decide (s = "revoked"%string) then Some Revoked else None.

(** A [SystemTime] is in nanoseconds since the epoch. *)
Definition system_time_to_epoch_s (t : Z) : Z := Z.max (- 2 ^ 63 + 1) (Z.min (t / 1000000000) (2 ^ 63 - 1)).
Definition epoch_s_to_system_time (secs : Z) : Z := secs * 1000000000.

Definition row_to_phone (mk : list Z) (rk : option (list Z * Z)) (phone_id : Z) (row : PhoneRow) : Tx PhonePskRecord :=
  record_epoch ← tx_some (to_uint 63 (ph_epoch row)) "negative master_key_epoch";
  psk ← tx_res (decrypt_phone_psk (row_decrypt_key mk rk record_epoch) phone_id (ph_psk row));
  status ← tx_some (status_of_str (ph_status row)) "unknown phone psk status";
  key_hint ← tx_some (to_uint 16 (ph_key_hint row)) "phone_key_hint out of u16 range";
  key_version ← tx_some (to_uint 63 (ph_key_version row)) "negative phone key_version";
  mret (mkPhone phone_id key_hint psk (ph_label row) (epoch_s_to_system_time (ph_issued_s row)) status key_version).

Definition rows_to_phones (mk : list Z) (rk : option (list Z * Z)) (rows : list (Z * PhoneRow)) : Tx (list PhonePskRecord) :=
  foldr (fun '(id, row) (k : Tx (list PhonePskRecord)) => n ← row_to_phone mk rk id row; l ← k; mret (n :: l)) (mret []) rows.

Definition list_phone_psks : SqlOp (list PhonePskRecord) := with_conn (fun s =>
  d ← tx_get; rows_to_phones (master_key s) (rotation_key_state s) (map_to_list (t_phones d))).

Definition get_phone_psks_by_key_hint (h : Z) : SqlOp (list PhonePskRecord) := with_conn (fun s =>
  d ← tx_get;
  rows_to_phones (master_key s) (rotation_key_state s)
    (filter (fun x => ph_key_hint x.2 = h) (map_to_list (t_phones d)))).

(** The INSERT with a placeholder that allots the identifier, then the UPDATE with
    the key encrypted under it. *)
Definition insert_phone (mk : list Z) (meta : list Z * Z) (p : PhonePskRecord) : Tx Z :=
  key_version ← tx_some (to_i64 (phone_key_version p)) "key_version exceeds i64::MAX";
  d ← tx_get;
  let rowid := t_phone_seq d + 1 in
  if rowid >=? 2 ^ 63 then tx_fail "database or disk is full" else
  tx_mod (fun d => set_phone_seq d rowid) ;;
  id ← tx_some (to_uint 32 rowid) "phone_id rowid exceeds u32::MAX";
  encrypted_psk ← encrypt_phone_psk mk id (phone_psk p);
  tx_mod (fun d => set_phones d (<[id := mkPhoneRow (phone_key_hint p) encrypted_psk (phone_label p)
    (system_time_to_epoch_s (issued_at p)) (status_str (phone_status p)) key_version (Some meta.1) meta.2]> (t_phones d))) ;;
  mret id.

Definition label_too_long (p : PhonePskRecord) : bool := len (phone_label p) >? PHONE_LABEL_MAX_BYTES.

Definition store_phone_psk (p : PhonePskRecord) : SqlOp Z := with_conn (fun s =>
  if label_too_long p then tx_fail "phone label exceeds 64-byte limit" else
  tx_some (to_i64 (phone_key_version p)) "key_version exceeds i64::MAX" ;;
  meta ← read_current_key_metadata;
  insert_phone (master_key s) meta p).

Definition with_status (r : PhoneRow) (st : string) : PhoneRow :=
  mkPhoneRow (ph_key_hint r) (ph_psk r) (ph_label r) (ph_issued_s r) st (ph_key_version r) (ph_master_key_id r) (ph_epoch r).

Definition revoke_phone_psk (id : Z) : SqlOp unit := with_conn (fun s =>
  d ← tx_get;
  match t_phones d !! id with
  | None => tx_res (inl (ENotFound "phone_id"))
  | Some r => tx_mod (fun d => set_phones d (<[id := with_status r "revoked"]> (t_phones d)))
  end).

Definition delete_phone_psk (id : Z) : SqlOp unit := with_conn (fun s =>
  tx_mod (fun d => set_phones d (delete id (t_phones d)))).

Definition replace_phone_psks (ps : list PhonePskRecord) : SqlOp unit := with_conn (fun s =>
  if existsb label_too_long ps then tx_fail "phone label exceeds 64-byte limit" else
  meta ← read_current_key_metadata;
  tx_mod (fun d => set_phones d ∅) ;;
  foldr (fun p (k : Tx unit) => insert_phone (master_key s) meta p ;; k) (mret tt) ps).

(** ** Programs and configuration *)

Definition parse_profile (s : string) : option VerificationProfile :=
  if bool_decide (s = "Resident"%string) then Some ResidentProfile
  else if bool_decide (s = "Ephemeral"%string) then Some EphemeralProfile else None.
Definition profile_to_str (p : VerificationProfile) : string :=
  match p with ResidentProfile => "Resident" | EphemeralProfile => "Ephemeral" end.

Definition row_to_program (hash : list Z) (r : ProgramRow) : Tx ProgramRecord :=
  size ← tx_some (to_uint 32 (pg_size r)) "integer out of range";
  abi ← tx_some (opt_uint 32 (pg_abi r)) "integer out of range";
  profile ← tx_some (parse_profile (pg_profile r)) "unknown verification profile";
  mret (mkProgram hash (pg_image r) size profile abi (pg_filename r) (pg_decoder r)).

Definition get_program (hash : list Z) : SqlOp (option ProgramRecord) := with_conn (fun s =>
  d ← tx_get;
  match t_programs d !! hash with
  | None => mret None
  | Some r => p ← row_to_program hash r; mret (Some p)
  end).

Definition store_program (p : ProgramRecord) : SqlOp unit := with_conn (fun s =>
  tx_mod (fun d => set_programs d (<[p_hash p := mkProgramRow (p_image p) (p_size p) (profile_to_str (p_profile p))
    (abi_version p) (normalize_display_filename (source_filename p)) (decoder_image p)]> (t_programs d)))).

Definition delete_program (hash : list Z) : SqlOp unit := with_conn (fun s =>
  tx_mod (fun d => set_programs d (delete hash (t_programs d)))).

Definition list_programs : SqlOp (list ProgramRecord) := with_conn (fun s =>
  d ← tx_get;
  foldr (fun '(h, r) (k : Tx (list ProgramRecord)) => p ← row_to_program h r; l ← k; mret (p :: l)) (mret [])
    (map_to_list (t_programs d))).

(** The INSERTs of [replace_state]: they name fewer columns than those of
    [upsert_node] and [store_program], and a key that is there already is refused. *)
Definition restored_program_row (p : ProgramRecord) : ProgramRow :=
  mkProgramRow (p_image p) (p_size p) (profile_to_str (p_profile p)) (abi_version p)
    (normalize_display_filename (source_filename p)) None.
Definition restored_node_row (n : NodeRecord) (blob : list Z) (key_version : Z) (meta : list Z * Z) : NodeRow :=
  mkNodeRow (nr_key_hint n) blob (assigned_program_hash n) (current_program_hash n) (desired_schedule_interval_s n)
    (schedule_interval_s n) (nr_firmware_abi_version n) None None None None (nr_firmware_version n) key_version
    (Some meta.1) meta.2.

Definition restore_program (p : ProgramRecord) : Tx unit :=
  d ← tx_get;
  match t_programs d !! p_hash p with
  | Some _ => tx_fail "UNIQUE constraint failed: programs.hash"
  | None => tx_mod (fun d => set_programs d (<[p_hash p := restored_program_row p]> (t_programs d)))
  end.
Definition restore_node (mk : list Z) (meta : list Z * Z) (n : NodeRecord) : Tx unit :=
  encrypted_psk ← encrypt_psk mk (nr_id n) (nr_psk n);
  key_version ← tx_some (to_i64 (nr_key_version n)) "key_version exceeds i64::MAX";
  d ← tx_get;
  match t_nodes d !! nr_id n with
  | Some _ => tx_fail "UNIQUE constraint failed: nodes.node_id"
  | None => insert_row (nr_id n) (restored_node_row n encrypted_psk key_version meta)
  end.

Definition replace_state (nodes : list NodeRecord) (programs : list ProgramRecord) : SqlOp unit := with_conn (fun s =>
  meta ← read_current_key_metadata;
  tx_mod (fun d => set_nodes d ∅) ;;
  tx_mod (fun d => set_programs d ∅) ;;
  foldr (fun p (k : Tx unit) => restore_program p ;; k) (mret tt) programs ;;
  foldr (fun n (k : Tx unit) => restore_node (master_key s) meta n ;; k) (mret tt) nodes).

Definition put_config (k : string) (v : list Z) : Tx unit := tx_mod (fun d => set_configs d (<[k := v]> (t_config d))).

Definition get_config (k : string) : SqlOp (option (list Z)) := with_conn (fun s => d ← tx_get; mret (t_config d !! k)).
Definition set_config (k : string) (v : list Z) : SqlOp unit := with_conn (fun s => put_config k v).
Definition set_config_if_absent (k : string) (v : list Z) : SqlOp bool := with_conn (fun s =>
  d ← tx_get;
  match t_config d !! k with
  | Some _ => mret false
  | None => put_config k v ;; mret true
  end).

(** ** Recovered keys *)

Record PendingRecoveryRecord := mkPendingRecovery {
  prr_key_hint : Z;
  prr_node_id : string;
  prr_encrypted_psk : list Z;
  prr_master_key_id : list Z;
  prr_epoch : Z
}.

Definition insert_pending_recovery (key_hint : Z) (node_id : string) (encrypted_psk key_id : list Z) (epoch : Z) : SqlOp unit :=
  with_conn (fun s =>
    if negb (len encrypted_psk =? ENCRYPTED_PSK_LEN) then tx_fail "encrypted_psk must be 60 bytes" else
    if epoch >? 2 ^ 63 - 1 then tx_fail "master_key_epoch exceeds SQLite integer range" else
    tx_mod (fun d => set_recovery_rows d
      (<[(key_hint, node_id) := mkRecoveryRow encrypted_psk key_id epoch (db_now s)]> (t_recovery d)))).

Definition row_to_recovery (x : (Z * string) * RecoveryRow) : Tx PendingRecoveryRecord :=
  key_hint ← tx_some (to_uint 16 x.1.1) "integer out of range";
  epoch ← tx_some (to_uint 63 (rc_epoch x.2)) "integer out of range";
  mret (mkPendingRecovery key_hint x.1.2 (rc_psk x.2) (rc_master_key_id x.2) epoch).

Definition rows_to_recovery (rows : list ((Z * string) * RecoveryRow)) : Tx (list PendingRecoveryRecord) :=
  foldr (fun x (k : Tx (list PendingRecoveryRecord)) => r ← row_to_recovery x; l ← k; mret (r :: l)) (mret []) rows.

(** ORDER BY received_at DESC. *)
Definition newer (x y : (Z * string) * RecoveryRow) : Prop := rc_received_at y.2 <= rc_received_at x.2.
#[export] Instance newer_dec x y : Decision (newer x y).
Proof. unfold newer. apply _. Defined.

Definition lookup_pending_recovery_filtered (key_hint : Z) (key_id : list Z) (max_candidates : Z) :
    SqlOp (list PendingRecoveryRecord) := with_conn (fun s =>
  d ← tx_get;
  rows_to_recovery (take (Z.to_nat max_candidates) (merge_sort newer
    (filter (fun x => x.1.1 = key_hint /\ rc_master_key_id x.2 = key_id) (map_to_list (t_recovery d)))))).

Definition delete_pending_recovery (key_hint : Z) (node_id : string) : SqlOp unit := with_conn (fun s =>
  tx_mod (fun d => set_recovery_rows d (delete (key_hint, node_id) (t_recovery d)))).

Definition purge_pending_recovery : SqlOp Z := with_conn (fun s =>
  d ← tx_get; tx_mod (fun d => set_recovery_rows d ∅) ;; mret (Z.of_nat (size (t_recovery d)))).

Definition expire_pending_recovery (max_age_secs : Z) : SqlOp Z := with_conn (fun s =>
  max_age ← tx_some (to_i64 max_age_secs) "max_age_secs exceeds SQLite integer range";
  d ← tx_get;
  let kept := filter (fun x => ~ (rc_received_at x.2 < db_now s - max_age)) (t_recovery d) in
  tx_mod (fun d => set_recovery_rows d kept) ;;
  mret (Z.of_nat (size (t_recovery d)) - Z.of_nat (size kept))).

(** ** Escrow *)

Record NodeEscrowRecord := mkNodeEscrow {
  esc_node_id : string;
  esc_key_hint : Z;
  esc_encrypted_psk : list Z;
  esc_master_key_id : list Z;
  esc_schedule_s : Z;
  esc_abi : Z;
  esc_firmware : list Z;
  esc_current : list Z;
  esc_assigned : option (list Z);
  esc_battery_mv : Z
}.

Definition row_to_escrow (id : string) (r : NodeRow) : Tx NodeEscrowRecord :=
  key_hint ← tx_some (to_uint 16 (row_key_hint r)) "integer out of range";
  schedule ← tx_some (to_uint 32 (row_schedule_s r)) "integer out of range";
  abi ← tx_some (opt_uint 32 (row_abi r)) "integer out of range";
  battery ← tx_some (opt_uint 32 (row_battery_mv r)) "integer out of range";
  mret (mkNodeEscrow id key_hint (row_psk r) (default [] (row_master_key_id r)) schedule (default 0 abi)
    (default [] (row_firmware r)) (default [] (row_current r)) (row_assigned r) (default 0 battery)).

Definition rows_to_escrow (rows : list (string * NodeRow)) : Tx (list NodeEscrowRecord) :=
  foldr (fun '(id, r) (k : Tx (list NodeEscrowRecord)) => e ← row_to_escrow id r; l ← k; mret (e :: l)) (mret []) rows.

Definition list_node_escrow_state : SqlOp (list NodeEscrowRecord) := with_conn (fun s =>
  d ← tx_get; rows_to_escrow (map_to_list (t_nodes d))).

Definition get_node_escrow_by_id (id : string) : SqlOp (option NodeEscrowRecord) := with_conn (fun s =>
  d ← tx_get;
  match t_nodes d !! id with
  | None => mret None
  | Some r => e ← row_to_escrow id r; mret (Some e)
  end).

(** ** Identity (gateway_identity.rs) *)

Definition load_identity_tx (s : SqliteStorage) : Tx (option GatewayIdentity) :=
  d ← tx_get;
  match t_identity d with
  | None => mret None
  | Some r =>
      if negb (len (id_gateway r) =? 16) then tx_fail "gateway_id is not 16 bytes" else
      seed ← tx_res (decrypt_seed (master_key s) (id_seed r) (id_gateway r));
      let identity := from_parts seed (id_gateway r) in
      if negb (len (id_public r) =? 32) then tx_fail "public_key is not 32 bytes" else
      if negb (bool_decide (id_public r = public_key identity))
      then tx_fail "stored public key does not match derived value" else
      mret (Some identity)
  end.

Definition load_gateway_identity : SqlOp (option GatewayIdentity) := with_conn load_identity_tx.

Definition store_gateway_identity (i : GatewayIdentity) : SqlOp unit := with_conn (fun s =>
  encrypted_seed ← encrypt_seed (master_key s) (seed i) (gateway_id i);
  tx_mod (fun d => set_identity d
    (Some (mkIdentityRow encrypted_seed (gateway_id i) (public_key i) (t_identity d ≫= id_seed_new))))).

(** ** The identifier of the master key and the rotation code *)

(** The rows a repair of the identifier touches. *)
Definition stale_stamp (id : list Z) (epoch : Z) (row_id : option (list Z)) (row_e : Z) : bool :=
  match row_id with None => true | Some i => negb (bool_decide (i = id)) end || (row_e <? epoch).

Definition stamp_node (id : list Z) (epoch : Z) (r : NodeRow) : NodeRow :=
  if stale_stamp id epoch (row_master_key_id r) (row_epoch r) then
    mkNodeRow (row_key_hint r) (row_psk r) (row_assigned r) (row_current r) (row_desired_s r) (row_schedule_s r)
      (row_abi r) (row_battery_mv r) (row_rf_channel r) (row_sensors_json r) (row_phone r) (row_firmware r)
      (row_key_version r) (Some id) epoch
  else r.

Definition stamp_phone (id : list Z) (epoch : Z) (r : PhoneRow) : PhoneRow :=
  if stale_stamp id epoch (ph_master_key_id r) (ph_epoch r) then
    mkPhoneRow (ph_key_hint r) (ph_psk r) (ph_label r) (ph_issued_s r) (ph_status r) (ph_key_version r) (Some id) epoch
  else r.

Definition init_master_key_id : SqlOp (list Z * Z) := with_conn (fun s =>
  let id := hash (master_key s) in
  d ← tx_get;
  let existing_id := t_config d !! "master_key_id"%string in
  let epoch_str := t_config d !! "master_key_epoch"%string in
  '(epoch, stored_epoch_zero) ← match epoch_str with
    | Some t => v ← tx_some (parse_u64 t) "invalid master_key_epoch"; mret (if v =? 0 then (1, true) else (v, false))
    | None => mret (1, false)
    end;
  let stored_matches := bool_decide ((existing_id ≫= hex_decode) = Some id) in
  let needs_update := negb stored_matches || bool_decide (epoch_str = None) || stored_epoch_zero in
  (if needs_update : bool then
    put_config "master_key_id" (hex_encode id) ;;
    put_config "master_key_epoch" (to_string epoch) ;;
    epoch_i64 ← tx_some (to_i64 epoch) "master_key_epoch exceeds i64::MAX";
    tx_mod (fun d => set_nodes d (stamp_node id epoch_i64 <$> t_nodes d)) ;;
    tx_mod (fun d => set_phones d (stamp_phone id epoch_i64 <$> t_phones d))
  else mret tt) ;;
  mret (id, epoch)).

Definition CHARSET : list Z := bytes_of "ABCDEFGHIJKLMNOPQRSTUVWXYZ0123456789".
Definition CODE_LEN : nat := 6.

(** Rejection sampling: the first byte below 252. *)
Fixpoint draw_below_252 (t : Tape) : option (Z * Tape) :=
  match t with
  | [] => None
  | bs :: t' => let b := resize 1 0 bs !!! 0%nat in if b <? 252 then Some (b, t') else draw_below_252 t'
  end.

Definition rotation_char : Tx Z := fun d t =>
  match draw_below_252 t with
  | Some (b, t') => (inr (CHARSET !!! Z.to_nat (b mod 36)), (d, t'))
  | None => (inl (EInternal "rotation_code rng"), (d, []))
  end.

Fixpoint rotation_chars (n : nat) : Tx (list Z) :=
  match n with
  | O => mret []
  | S n' => c ← rotation_char; l ← rotation_chars n'; mret (c :: l)
  end.

Definition generate_rotation_code : Tx (list Z) := rotation_chars CODE_LEN.

Definition init_rotation_code : SqlOp (list Z) := with_conn (fun s =>
  d ← tx_get;
  match t_config d !! "rotation_code"%string with
  | Some code => mret code
  | None => code ← generate_rotation_code; put_config "rotation_code" code ;; mret code
  end).

Definition get_master_key_epoch : SqlOp Z := with_conn (fun s =>
  d ← tx_get;
  match t_config d !! "master_key_epoch"%string with
  | Some t => tx_some (parse_u64 t) "invalid master_key_epoch value"
  | None => mret 0
  end).

(** ** Rotation of the master key *)

(** The new key, encrypted under the current one; recovered keys are purged. *)
Definition write_pending_rotation (new_key new_id : list Z) (epoch : Z) : SqlOp unit := with_conn (fun s =>
  enc_blob ← encrypt_blob (master_key s) PENDING_ROTATION_AAD new_key;
  epoch_i64 ← tx_some (to_i64 epoch) "new_epoch exceeds i64::MAX";
  tx_mod (fun d => set_recovery_rows d ∅) ;;
  d ← tx_get;
  match t_rotation d with
  | Some _ => tx_fail "UNIQUE constraint failed: pending_rotation.id"
  | None => tx_mod (fun d => set_rotation d (Some (mkPendingRow enc_blob new_id epoch_i64 (db_now s) "migrating_psks")))
  end).

Definition read_pending_rotation : SqlOp (option PendingRow) := with_conn (fun s =>
  d ← tx_get;
  match t_rotation d with
  | None => mret None
  | Some p =>
      if negb (len (new_master_key_id p) =? 32) then tx_fail "pending_rotation.new_master_key_id has wrong length" else
      tx_some (to_uint 63 (new_epoch p)) "pending_rotation.new_epoch is negative" ;;
      mret (Some p)
  end).

Definition with_phase (p : PendingRow) (ph : string) : PendingRow :=
  mkPendingRow (new_master_key_enc p) (new_master_key_id p) (new_epoch p) (started_at p) ph.

Definition update_rotation_phase (ph : string) : SqlOp unit := with_conn (fun s =>
  d ← tx_get;
  match t_rotation d with
  | None => tx_fail "no pending_rotation record to update"
  | Some p => tx_mod (fun d => set_rotation d (Some (with_phase p ph)))
  end).

Definition list_unmigrated_node_ids (epoch : Z) : SqlOp (list string) := with_conn (fun s =>
  epoch_i64 ← tx_some (to_i64 epoch) "new_epoch exceeds i64::MAX";
  d ← tx_get;
  mret (filter (fun x => row_epoch x.2 < epoch_i64) (map_to_list (t_nodes d))).*1).

Definition with_psk (r : NodeRow) (blob id : list Z) (epoch : Z) : NodeRow :=
  mkNodeRow (row_key_hint r) blob (row_assigned r) (row_current r) (row_desired_s r) (row_schedule_s r)
    (row_abi r) (row_battery_mv r) (row_rf_channel r) (row_sensors_json r) (row_phone r) (row_firmware r)
    (row_key_version r) (Some id) epoch.

Definition migrate_node_psk (node_id : string) (old_key new_key new_id : list Z) (epoch : Z) : SqlOp unit := with_conn (fun s =>
  epoch_i64 ← tx_some (to_i64 epoch) "new_epoch exceeds i64::MAX";
  d ← tx_get;
  match t_nodes d !! node_id with
  | None => tx_fail "Query returned no rows"
  | Some r =>
      psk ← tx_res (decrypt_psk old_key node_id (row_psk r));
      encrypted ← encrypt_psk new_key node_id psk;
      insert_row node_id (with_psk r encrypted new_id epoch_i64)
  end).

Definition list_unmigrated_phone_ids (epoch : Z) : SqlOp (list Z) := with_conn (fun s =>
  epoch_i64 ← tx_some (to_i64 epoch) "new_epoch exceeds i64::MAX";
  d ← tx_get;
  mret (filter (fun x => ph_epoch x.2 < epoch_i64) (map_to_list (t_phones d))).*1).

Definition with_phone_psk (r : PhoneRow) (blob id : list Z) (epoch : Z) : PhoneRow :=
  mkPhoneRow (ph_key_hint r) blob (ph_label r) (ph_issued_s r) (ph_status r) (ph_key_version r) (Some id) epoch.

Definition migrate_phone_psk (phone_id : Z) (old_key new_key new_id : list Z) (epoch : Z) : SqlOp unit := with_conn (fun s =>
  epoch_i64 ← tx_some (to_i64 epoch) "new_epoch exceeds i64::MAX";
  d ← tx_get;
  match t_phones d !! phone_id with
  | None => tx_fail "Query returned no rows"
  | Some r =>
      psk ← tx_res (decrypt_phone_psk old_key phone_id (ph_psk r));
      encrypted ← encrypt_phone_psk new_key phone_id psk;
      tx_mod (fun d => set_phones d (<[phone_id := with_phone_psk r encrypted new_id epoch_i64]> (t_phones d)))
  end).

Definition rewrap_identity_seed (old_key new_key : list Z) : SqlOp unit := with_conn (fun s =>
  d ← tx_get;
  match t_identity d with
  | None => tx_fail "no gateway_identity row to rewrap"
  | Some r =>
      if negb (len (id_gateway r) =? 16) then tx_fail "gateway_id is not 16 bytes" else
      seed ← tx_res (decrypt_seed old_key (id_seed r) (id_gateway r));
      new_encrypted ← encrypt_seed new_key seed (id_gateway r);
      tx_mod (fun d => set_identity d (Some (mkIdentityRow (id_seed r) (id_gateway r) (id_public r) (Some new_encrypted))))
  end).

(** Promote the rewrapped seed, record the new key's identifier and epoch, draw a
    new code: one transaction.  The pending record stays. *)
Definition commit_rotation (new_id : list Z) (epoch : Z) : SqlOp (list Z) := with_conn (fun s =>
  d ← tx_get;
  match t_identity d with
  | Some (mkIdentityRow _ gid pk (Some seed_new)) =>
      tx_mod (fun d => set_identity d (Some (mkIdentityRow seed_new gid pk None))) ;;
      put_config "master_key_id" (hex_encode new_id) ;;
      put_config "master_key_epoch" (to_string epoch) ;;
      new_code ← generate_rotation_code;
      put_config "rotation_code" new_code ;;
      mret new_code
  | _ => tx_fail "commit_rotation: encrypted_seed_new is NULL"
  end).

Definition delete_pending_rotation : SqlOp unit := with_conn (fun s => tx_mod (fun d => set_rotation d None)).

Definition is_rotation_in_progress : SqlOp bool := with_conn (fun s =>
  d ← tx_get; mret (bool_decide (is_Some (t_rotation d)))).

Definition swap_master_key (k : list Z) (s : SqliteStorage) : SqliteStorage :=
  mkSqlite (conn s) k (rotation_key_state s) (tape s) (db_now s).
Definition set_rotation_new_key (k : list Z) (epoch : Z) (s : SqliteStorage) : SqliteStorage :=
  mkSqlite (conn s) (master_key s) (Some (k, epoch)) (tape s) (db_now s).
Definition clear_rotation_new_key (s : SqliteStorage) : SqliteStorage :=
  mkSqlite (conn s) (master_key s) None (tape s) (db_now s).

(** ** Opening a database *)

(** A transaction of its own. *)
Definition atomically {A} (m : Tx A) : Tx A := fun d t =>
  match m d t with
  | (inl e, (_, t')) => (inl e, (d, t'))
  | x => x
  end.

(** File names written before they were normalised: a path, or a drive letter. *)
Definition legacy_filename (name : list Z) : bool :=
  existsb is_separator name ||
  match name with c :: 58 :: _ => is_ascii_alphabetic c | _ => false end.

Definition normalize_row (r : ProgramRow) : ProgramRow :=
  match pg_filename r with
  | Some name =>
      if legacy_filename name then
        mkProgramRow (pg_image r) (pg_size r) (pg_profile r) (pg_abi r) (normalize_display_filename (Some name)) (pg_decoder r)
      else r
  | None => r
  end.

Definition migrate_program_source_filenames : Tx unit := tx_mod (fun d => set_programs d (normalize_row <$> t_programs d)).

(** Keys stored in the clear by old versions. *)
Definition migrate_legacy_psks (mk : list Z) : Tx unit :=
  d ← tx_get;
  foldr (fun '(id, r) (k : Tx unit) =>
      encrypted ← encrypt_psk mk id (row_psk r);
      insert_row id (mkNodeRow (row_key_hint r) encrypted (row_assigned r) (row_current r) (row_desired_s r)
        (row_schedule_s r) (row_abi r) (row_battery_mv r) (row_rf_channel r) (row_sensors_json r) (row_phone r)
        (row_firmware r) (row_key_version r) (row_master_key_id r) (row_epoch r)) ;; k)
    (mret tt) (filter (fun x => len (row_psk x.2) = 32) (map_to_list (t_nodes d))).

(** The pending new key, if it opens under the current one.  If it does not and the
    rotation is committed, the current key is the new one and the record a marker
    to be removed. *)
Definition load_pending_rotation_key (current_key : list Z) : Tx (option (list Z)) :=
  d ← tx_get;
  match t_rotation d with
  | None => mret None
  | Some p =>
      let enc_blob := new_master_key_enc p in
      if negb (len enc_blob =? ENCRYPTED_PSK_LEN) then tx_fail "pending_rotation.new_master_key_enc has wrong length" else
      match open current_key (take 12 enc_blob) PENDING_ROTATION_AAD (drop 12 enc_blob) with
      | Some plain => if len plain =? 32 then mret (Some plain) else tx_fail "decrypted pending new master key is not 32 bytes"
      | None =>
          let db_epoch := default 0 (t_config d !! "master_key_epoch"%string ≫= parse_u64) in
          if db_epoch =? as_u64 (new_epoch p) then mret None
          else tx_fail "cannot decrypt pending_rotation.new_master_key_enc"
      end
  end.

(** One encrypted row opens under the current key or the pending one. *)
Definition validate_master_key (mk : list Z) (pending_new_key : option (list Z)) : Tx unit :=
  d ← tx_get;
  if bool_decide (Exists (fun x => len (row_psk x.2) <> ENCRYPTED_PSK_LEN /\ len (row_psk x.2) <> 32) (map_to_list (t_nodes d)))
  then tx_fail "master key validation failed - PSK blobs with unexpected lengths" else
  match filter (fun x => len (row_psk x.2) = ENCRYPTED_PSK_LEN) (map_to_list (t_nodes d)) with
  | [] => mret tt
  | (id, r) :: _ =>
      match decrypt_psk mk id (row_psk r) with
      | inr _ => mret tt
      | inl _ =>
          match pending_new_key with
          | Some new_key => tx_res (decrypt_psk new_key id (row_psk r)) ;; mret tt
          | None => tx_fail "master key validation failed - cannot decrypt PSK"
          end
      end
  end.

Definition initial_key_state (pending_new_key : option (list Z)) : Tx (option (list Z * Z)) :=
  match pending_new_key with
  | None => mret None
  | Some new_key =>
      d ← tx_get;
      match t_rotation d with
      | None => mret None
      | Some p =>
          epoch ← tx_some (to_uint 63 (new_epoch p)) "pending_rotation.new_epoch is negative";
          if negb (len (new_master_key_id p) =? 32) then tx_fail "pending_rotation.new_master_key_id has wrong length" else
          mret (Some (new_key, epoch))
      end
  end.

Definition open_checks (mk : list Z) : Tx (option (list Z * Z)) :=
  atomically migrate_program_source_filenames ;;
  atomically (migrate_legacy_psks mk) ;;
  pending_new_key ← load_pending_rotation_key mk;
  validate_master_key mk pending_new_key ;;
  initial_key_state pending_new_key.

(** The database on disk, and the storage object if the checks pass. *)
Definition open_storage (mk : list Z) (now : Z) (d : Db) (t : Tape) : (StorageError + SqliteStorage) * Db :=
  match open_checks mk d t with
  | (inl e, (d', _)) => (inl e, d')
  | (inr ks, (d', t')) => (inr (mkSqlite d' mk ks t' now), d')
  end.
End Ops.
End Sql.
