(* ===== verification/GwRotation.v ===== *)
(** * Rotation of the master key

    [sonde-gateway/src/rotation.rs] (the payload, the rate limiter),
    [rotation_engine.rs] (the pipeline, recovery after a crash, desired state) and
    the part of [run_gateway] ([bin/gateway.rs]) that opens storage, resumes a
    rotation and loads the identity.

    The gateway process runs on a disk that survives it: the database and the key
    of the key provider.  Every operation of storage and every access to the key
    provider is a point at which the process may be stopped, the operation may
    fail, or other tasks of the gateway may use the same storage first: a schedule,
    a list of events that the computation consumes, says which.  Writes of the key
    provider are atomic ([KeyProvider::write_master_key] asks for it). *)

From Stdlib Require Import String.
From S2P Require Import Prelude Frame Messages Session GwStore GwState GwSqlite.
Open Scope list_scope.
Open Scope Z_scope.

(** ** Cryptography of the payload *)

Class RotationCrypto : Type := {
  sha512 : list Z -> list Z;
  x25519_public : list Z -> list Z;
  diffie_hellman : list Z -> list Z -> list Z;
  (** HKDF-SHA-256 with salt, input key and info, 32 bytes out. *)
  hkdf : list Z -> list Z -> list Z -> list Z
}.

Definition LOW_ORDER_POINTS : list (list Z) :=
  let p := 2 ^ 255 - 19 in
  to_le_bytes 32 <$>
  [0; 1;
   325606250916557431795983626356110631294008115727848805560023387167927233504;
   39382357235489614581723060781553021112529911719440698176882885853963445705823;
   p - 1; p; p + 1; 2 * p; 2 * p + 1;
   p + 325606250916557431795983626356110631294008115727848805560023387167927233504;
   p + 39382357235489614581723060781553021112529911719440698176882885853963445705823;
   2 * p - 1].

Definition is_low_order_point (point : list Z) : bool := existsb (fun q => bool_decide (q = point)) LOW_ORDER_POINTS.

(** RFC 7748: three bits cleared, the top bit cleared, the next one set. *)
Definition clamp (scalar : list Z) : list Z :=
  let s0 := <[0%nat := Z.land (scalar !!! 0%nat) 248]> scalar in
  let s1 := <[31%nat := Z.land (s0 !!! 31%nat) 127]> s0 in
  <[31%nat := Z.lor (s1 !!! 31%nat) 64]> s1.

Definition to_x25519 `{RotationCrypto} (i : GatewayIdentity) : option (list Z * list Z) :=
  let secret := clamp (take 32 (sha512 (seed i))) in
  let public := x25519_public secret in
  if is_low_order_point public then None else Some (secret, public).

Definition MIN_PAYLOAD_LEN : Z := 61.
Definition MAX_PAYLOAD_LEN : Z := 1024.
Definition HKDF_SALT : list Z := bytes_of "sonde-rotation-v1".

Inductive RotationError : Type :=
  | RTooShort (n : Z)
  | RTooLarge (n : Z)
  | UnknownVersion (v : Z)
  | LowOrderPoint
  | DecryptionFailed
  | InvalidKeyLength (n : Z)
  | PlaintextParse (msg : string).

Record DecryptedRotation := mkDecrypted { new_master_key : list Z; rotation_code : list Z }.

Section Payload.
Context {Value : Type} `{C : Cbor Value} `{AeadProvider} `{RotationCrypto}.

Definition get_value (m : list (Value * Value)) (key : Z) : option Value :=
  snd <$> find (fun kv => match as_integer kv.1 with Some i => (i =? key) | None => false end) m.

Definition get_bytes (m : list (Value * Value)) (key : Z) (field : string) : Res RotationError (list Z) :=
  match get_value m key with
  | Some v => match as_bytes v with Some b => Ok b | None => Err (PlaintextParse ("`" ++ field ++ "` must be bstr")) end
  | None => Err (PlaintextParse ("missing `" ++ field ++ "`"))
  end.

Definition get_text (m : list (Value * Value)) (key : Z) (field : string) : Res RotationError (list Z) :=
  match get_value m key with
  | Some v => match as_text v with Some t => Ok t | None => Err (PlaintextParse ("`" ++ field ++ "` must be tstr")) end
  | None => Err (PlaintextParse ("missing `" ++ field ++ "`"))
  end.

Definition is_code_char (b : Z) : bool := ((65 <=? b) && (b <=? 90)) || ((48 <=? b) && (b <=? 57)).

Definition parse_rotation_plaintext (plaintext : list Z) : Res RotationError DecryptedRotation :=
  let? value := map_err (fun _ => PlaintextParse "CBOR decode") (from_reader plaintext) in
  let? m := ok_or (as_map value) (PlaintextParse "expected CBOR map") in
  let? new_key := get_bytes m 1 "new_master_key" in
  if negb (len new_key =? 32) then Err (InvalidKeyLength (len new_key)) else
  let? code := get_text m 2 "rotation_code" in
  if negb (len code =? 6) || negb (forallb is_code_char code)
  then Err (PlaintextParse "rotation_code must be 6 characters from [A-Z0-9]") else
  Ok (mkDecrypted new_key code).

Definition decrypt_rotation_payload (payload secret gid : list Z) (current_epoch : Z) : Res RotationError DecryptedRotation :=
  if len payload <? MIN_PAYLOAD_LEN then Err (RTooShort (len payload)) else
  if len payload >? MAX_PAYLOAD_LEN then Err (RTooLarge (len payload)) else
  let version := payload !!! 0%nat in
  if negb (version =? 1) then Err (UnknownVersion version) else
  let ephemeral := take 32 (drop 1 payload) in
  let nonce := take 12 (drop 33 payload) in
  let ciphertext_and_tag := drop 45 payload in
  let shared_secret := diffie_hellman secret ephemeral in
  if forallb (fun b => b =? 0) shared_secret then Err LowOrderPoint else
  let info := gid ++ to_be_bytes 8 current_epoch in
  let derived_key := hkdf HKDF_SALT shared_secret info in
  let? plaintext := ok_or (open derived_key nonce info ciphertext_and_tag) DecryptionFailed in
  parse_rotation_plaintext plaintext.
End Payload.

(** ** The rate limiter *)

(** Instants are in nanoseconds. *)
Record RotationRateLimiter := mkLimiter { l_epoch : Z; failures : list Z }.

Definition limiter_new : RotationRateLimiter := mkLimiter 0 [].
Definition MAX_FAILURES : Z := 3.
Definition WINDOW_NS : Z := 300 * 1000000000.

Definition at_epoch (l : RotationRateLimiter) (epoch : Z) : RotationRateLimiter :=
  if negb (epoch =? l_epoch l) then mkLimiter epoch [] else l.

Definition check (l : RotationRateLimiter) (now epoch : Z) : bool * RotationRateLimiter :=
  let l := at_epoch l epoch in
  let kept := filter (fun t => duration_since now t < WINDOW_NS) (failures l) in
  (len kept <? MAX_FAILURES, mkLimiter (l_epoch l) kept).

Definition record_failure (l : RotationRateLimiter) (now epoch : Z) : RotationRateLimiter :=
  let l := at_epoch l epoch in mkLimiter (l_epoch l) (failures l ++ [now]).

(** ** The process and its surroundings *)

(** What another task of the gateway does to storage. *)
Inductive Task : Type :=
  | TWakeMetadata (id : string) (abi : Z) (version : list Z)
  | TReconcile (id : string) (hash : list Z)
  | TInsertNode (n : NodeRecord)
  | TUpsertNode (n : NodeRecord)
  | TDeleteNode (id : string)
  | TStorePhone (p : PhonePskRecord)
  | TRevokePhone (id : Z)
  | TDeletePhone (id : Z)
  | TStoreProgram (p : ProgramRecord)
  | TDeleteProgram (hash : list Z)
  | TSetConfig (k : string) (v : list Z)
  | TDeleteRecovery (hint : Z) (id : string).

Inductive Event : Type :=
  | Fine              (** the operation goes through *)
  | Fault             (** it fails and changes nothing *)
  | PowerLoss         (** the process stops before it *)
  | Other (t : Task). (** another task goes first *)

Record KeyProvider := mkProvider { kp_key : list Z; kp_writable : bool }.

Record RotationCompleteNotification := mkComplete { rc_new_master_key_id : list Z; rc_new_epoch : Z }.

(** What the engine sends to other parts of the gateway. *)
Inductive Sent : Type :=
  | SRotationComplete (n : RotationCompleteNotification)
  | SStateChanged
  | SActualState (e : Sql.NodeEscrowRecord).

Record World := mkWorld {
  w_sql : SqliteStorage;
  w_provider : KeyProvider;
  w_limiter : RotationRateLimiter;
  w_active : bool;
  (** The identity the engine was built with. *)
  w_identity : GatewayIdentity;
  w_instants : list Z;
  w_events : list Event;
  w_sent : list Sent
}.

Definition set_sql (w : World) x := mkWorld x (w_provider w) (w_limiter w) (w_active w) (w_identity w) (w_instants w) (w_events w) (w_sent w).
Definition set_provider (w : World) x := mkWorld (w_sql w) x (w_limiter w) (w_active w) (w_identity w) (w_instants w) (w_events w) (w_sent w).
Definition set_limiter (w : World) x := mkWorld (w_sql w) (w_provider w) x (w_active w) (w_identity w) (w_instants w) (w_events w) (w_sent w).
Definition set_active (w : World) x := mkWorld (w_sql w) (w_provider w) (w_limiter w) x (w_identity w) (w_instants w) (w_events w) (w_sent w).
Definition set_instants (w : World) x := mkWorld (w_sql w) (w_provider w) (w_limiter w) (w_active w) (w_identity w) x (w_events w) (w_sent w).
Definition set_events (w : World) x := mkWorld (w_sql w) (w_provider w) (w_limiter w) (w_active w) (w_identity w) (w_instants w) x (w_sent w).
Definition add_sent (w : World) x := mkWorld (w_sql w) (w_provider w) (w_limiter w) (w_active w) (w_identity w) (w_instants w) (w_events w) (w_sent w ++ [x]).

(** [None]: the process has stopped. *)
Definition Eng (A : Type) : Type := World -> option (string + A) * World.

#[export] Instance eng_ret : MRet Eng := fun A a w => (Some (inr a), w).
#[export] Instance eng_bind : MBind Eng := fun A B k m w =>
  match m w with
  | (None, w') => (None, w')
  | (Some (inl e), w') => (Some (inl e), w')
  | (Some (inr a), w') => k a w'
  end.

Definition eng_err {A} (msg : string) : Eng A := fun w => (Some (inl msg), w).
Definition eng_get : Eng World := fun w => (Some (inr w), w).
Definition eng_mod (f : World -> World) : Eng unit := fun w => (Some (inr tt), f w).
Definition eng_some {A} (o : option A) (msg : string) : Eng A := match o with Some a => mret a | None => eng_err msg end.

(** The result as a value: [match r { Ok(..) => .., Err(..) => .. }]. *)
Definition try {A} (m : Eng A) : Eng (string + A) := fun w =>
  match m w with
  | (None, w') => (None, w')
  | (Some r, w') => (Some (inr r), w')
  end.

(** [map_err(|e| format!("prefix: {e}"))]. *)
Definition storage_text (e : StorageError) : string :=
  match e with ENotFound m => "not found: " ++ m | EInternal m => "storage error: " ++ m end.

Section Engine.
Context {Value : Type} `{C : Cbor Value}.
Context `{Sha256Provider, AeadProvider} `{HexCodec} `{SensorJson} `{Ed25519} `{RotationCrypto}.

Definition run_task (t : Task) (s : SqliteStorage) : SqliteStorage :=
  match t with
  | TWakeMetadata id abi v => (Sql.update_node_wake_metadata id abi v s).2
  | TReconcile id h => (Sql.reconcile_current_program_hash id h s).2
  | TInsertNode n => (Sql.insert_node_if_not_exists n s).2
  | TUpsertNode n => (Sql.upsert_node n s).2
  | TDeleteNode id => (Sql.delete_node id s).2
  | TStorePhone p => (Sql.store_phone_psk p s).2
  | TRevokePhone id => (Sql.revoke_phone_psk id s).2
  | TDeletePhone id => (Sql.delete_phone_psk id s).2
  | TStoreProgram p => (Sql.store_program p s).2
  | TDeleteProgram h => (Sql.delete_program h s).2
  | TSetConfig k v => (Sql.set_config k v s).2
  | TDeleteRecovery h id => (Sql.delete_pending_recovery h id s).2
  end.

(** Other tasks, then the fate of the next operation; without further events the
    schedule is quiet. *)
Fixpoint advance (l : list Event) (s : SqliteStorage) : Event * list Event * SqliteStorage :=
  match l with
  | [] => (Fine, [], s)
  | Other t :: l' => advance l' (run_task t s)
  | e :: l' => (e, l', s)
  end.

(** An access to storage or to the key provider. *)
Definition point {A} (go : World -> (string + A) * World) : Eng A := fun w =>
  let '(e, l, s) := advance (w_events w) (w_sql w) in
  let w := set_events (set_sql w s) l in
  match e with
  | Fault => (Some (inl "i/o error"%string), w)
  | PowerLoss => (None, w)
  | _ => let '(r, w') := go w in (Some r, w')
  end.

Definition sql {A} (prefix : string) (op : Op SqliteStorage A) : Eng A := point (fun w =>
  match op (w_sql w) with
  | (inl e, s) => (inl (prefix ++ storage_text e)%string, set_sql w s)
  | (inr a, s) => (inr a, set_sql w s)
  end).

(** Changes of the object in memory are no point of failure. *)
Definition in_memory (f : SqliteStorage -> SqliteStorage) : Eng unit := eng_mod (fun w => set_sql w (f (w_sql w))).

Definition load_master_key : Eng (list Z) := point (fun w => (inr (kp_key (w_provider w)), w)).
Definition write_master_key (k : list Z) : Eng unit := point (fun w =>
  if kp_writable (w_provider w) then (inr tt, set_provider w (mkProvider k true))
  else (inl "this key provider does not support writing"%string, w)).

Definition now : Eng Z := fun w =>
  match w_instants w with
  | t :: l => (Some (inr t), set_instants w l)
  | [] => (Some (inr 0), w)
  end.

(** ** The pipeline *)

Fixpoint migrate_nodes (ids : list string) (old_key new_key new_id : list Z) (epoch : Z) : Eng unit :=
  match ids with
  | [] => mret tt
  | id :: ids' =>
      sql "migrate node: " (Sql.migrate_node_psk id old_key new_key new_id epoch) ;;
      migrate_nodes ids' old_key new_key new_id epoch
  end.

Fixpoint migrate_phones (ids : list Z) (old_key new_key new_id : list Z) (epoch : Z) : Eng unit :=
  match ids with
  | [] => mret tt
  | id :: ids' =>
      sql "migrate phone: " (Sql.migrate_phone_psk id old_key new_key new_id epoch) ;;
      migrate_phones ids' old_key new_key new_id epoch
  end.

Definition migrate_all_psks (old_key new_key new_id : list Z) (epoch : Z) : Eng unit :=
  node_ids ← sql "list unmigrated nodes: " (Sql.list_unmigrated_node_ids epoch);
  migrate_nodes node_ids old_key new_key new_id epoch ;;
  phone_ids ← sql "list unmigrated phones: " (Sql.list_unmigrated_phone_ids epoch);
  migrate_phones phone_ids old_key new_key new_id epoch.

Definition read_pending : Eng PendingRow :=
  o ← sql "read pending_rotation: " Sql.read_pending_rotation;
  eng_some o "pending_rotation disappeared".

Definition phase_is (p : PendingRow) (ph : string) : bool := bool_decide (phase p = ph).

Definition execute_rotation_phases (old_key new_key new_id : list Z) (epoch : Z) : Eng unit :=
  pending ← read_pending;
  (if phase_is pending "migrating_psks" then
    migrate_all_psks old_key new_key new_id epoch ;;
    sql "update phase to rewrapping_identity: " (Sql.update_rotation_phase "rewrapping_identity")
  else mret tt) ;;
  pending ← read_pending;
  (if phase_is pending "rewrapping_identity" then
    sql "rewrap identity seed: " (Sql.rewrap_identity_seed old_key new_key) ;;
    sql "update phase to committing: " (Sql.update_rotation_phase "committing")
  else mret tt) ;;
  pending ← read_pending;
  (if phase_is pending "committing" then sql "commit rotation: " (Sql.commit_rotation new_id epoch) ;; mret tt else mret tt).

Fixpoint emit_all (l : list Sql.NodeEscrowRecord) : Eng unit :=
  match l with
  | [] => mret tt
  | e :: l' => eng_mod (fun w => add_sent w (SActualState e)) ;; emit_all l'
  end.

Definition emit_post_rotation_state (epoch : Z) (new_id : list Z) : Eng unit :=
  eng_mod (fun w => add_sent w (SRotationComplete (mkComplete new_id epoch))) ;;
  r ← try (sql "" Sql.list_node_escrow_state);
  match r with
  | inr nodes => emit_all nodes
  | inl _ => mret tt
  end.

(** Steps 4 to 8. *)
Definition execute_rotation (decrypted : DecryptedRotation) (epoch current_epoch : Z) : Eng unit :=
  w ← eng_get;
  let old_key := master_key (w_sql w) in
  let new_key := new_master_key decrypted in
  let new_id := hash new_key in
  sql "prepare failed: " (Sql.write_pending_rotation new_key new_id epoch) ;;
  in_memory (Sql.set_rotation_new_key new_key epoch) ;;
  execute_rotation_phases old_key new_key new_id epoch ;;
  write_master_key new_key ;;
  try (sql "" Sql.delete_pending_rotation) ;;
  in_memory (Sql.swap_master_key new_key) ;;
  in_memory Sql.clear_rotation_new_key ;;
  emit_post_rotation_state epoch new_id.

Definition record_failure_now (epoch : Z) : Eng unit :=
  t ← now;
  eng_mod (fun w => set_limiter w (record_failure (w_limiter w) t epoch)).

Definition rate_check (epoch : Z) : Eng bool :=
  t ← now;
  w ← eng_get;
  let '(b, l) := check (w_limiter w) t epoch in
  eng_mod (fun w => set_limiter w l) ;; mret b.

Definition handle_rotation_payload (payload : list Z) : Eng unit :=
  w ← eng_get;
  if negb (kp_writable (w_provider w)) then eng_err "rotation rejected: key provider is not writable" else
  if w_active w then eng_err "rotation already in progress" else
  db_in_progress ← sql "storage error: " Sql.is_rotation_in_progress;
  if db_in_progress : bool then eng_err "rotation already in progress (pending_rotation exists)" else
  '(_, current_epoch) ← sql "failed to load master_key_epoch: " Sql.init_master_key_id;
  allowed ← rate_check current_epoch;
  if negb allowed then eng_err "rotation attempt rate-limited" else
  '(x25519_secret, _) ← eng_some (to_x25519 (w_identity w)) "X25519 conversion failed";
  match decrypt_rotation_payload payload x25519_secret (gateway_id (w_identity w)) current_epoch with
  | Ok decrypted =>
      stored_code ← sql "failed to load rotation_code: " Sql.init_rotation_code;
      if negb (bool_decide (rotation_code decrypted = stored_code)) then
        record_failure_now current_epoch ;; eng_err "rotation code does not match"
      else
        epoch ← eng_some (checked_add 64 current_epoch 1) "epoch overflow";
        eng_mod (fun w => set_active w true) ;;
        r ← try (execute_rotation decrypted epoch current_epoch);
        eng_mod (fun w => set_active w false) ;;
        match r with inl e => eng_err e | inr _ => mret tt end
  | _ => record_failure_now current_epoch ;; eng_err "rotation payload error"
  end.

(** ** Desired state *)

Record RecoveredPskRecord := mkRecovered { rec_node_id : string; rec_key_hint : Z; rec_encrypted_psk : list Z; rec_master_key_id : list Z }.

Record GatewayDesiredState := mkDesired {
  ds_entity_id : list Z;
  ds_channel : option Z;
  ds_rotation_payload : option (list Z);
  ds_recovered_psks : option (list RecoveredPskRecord)
}.

(** Two lower-case hexadecimal digits a byte. *)
Definition hex_digit (n : Z) : Z := if n <? 10 then 48 + n else 87 + n.
Definition hex_id (b : list Z) : list Z := flat_map (fun x => [hex_digit (x / 16); hex_digit (x mod 16)]) b.

Definition converge_channel (desired : Z) : Eng bool :=
  if negb ((1 <=? desired) && (desired <=? 14)) then mret false else
  r ← try (sql "" (Sql.get_config "espnow_channel"));
  match r with
  | inl _ => mret false
  | inr o =>
      let current := match o with Some v => default 1 (parse_u32 v) | None => 1 end in
      if current =? desired then mret false else
      r ← try (sql "" (Sql.set_config "espnow_channel" (to_string desired)));
      mret (match r with inr _ => true | inl _ => false end)
  end.

Fixpoint insert_recovered (rs : list RecoveredPskRecord) (key_id : list Z) (epoch : Z) : Eng unit :=
  match rs with
  | [] => mret tt
  | r :: rs' =>
      (if negb (bool_decide (rec_master_key_id r = key_id)) then mret tt else
        try (sql "" (Sql.insert_pending_recovery (rec_key_hint r) (rec_node_id r) (rec_encrypted_psk r) key_id epoch)) ;; mret tt) ;;
      insert_recovered rs' key_id epoch
  end.

Definition handle_recovered_psks (rs : list RecoveredPskRecord) : Eng unit :=
  r ← try (sql "" Sql.init_master_key_id);
  match r with
  | inl _ => mret tt
  | inr (key_id, epoch) => insert_recovered rs key_id epoch
  end.

Definition handle_desired_state (ds : GatewayDesiredState) : Eng unit :=
  w ← eng_get;
  if negb (bool_decide (ds_entity_id ds = hex_id (gateway_id (w_identity w)))) then mret tt else
  state_changed ← match ds_channel ds with Some c => converge_channel c | None => mret false end;
  match ds_rotation_payload ds with
  | Some payload => try (handle_rotation_payload payload) ;; mret tt
  | None => mret tt
  end ;;
  (if state_changed : bool then eng_mod (fun w => add_sent w SStateChanged) else mret tt) ;;
  match ds_recovered_psks ds with
  | Some rs => handle_recovered_psks rs
  | None => mret tt
  end.

(** What arrives on the two channels, in the order [select!] takes it. *)
Inductive Message : Type := MSubmit (payload : list Z) | MDesired (ds : GatewayDesiredState).

Fixpoint run (l : list Message) : Eng unit :=
  match l with
  | [] => mret tt
  | MSubmit payload :: l' => try (handle_rotation_payload payload) ;; run l'
  | MDesired ds :: l' => handle_desired_state ds ;; run l'
  end.

(** ** Recovery after a crash *)

Definition complete_of (p : PendingRow) : option RotationCompleteNotification :=
  Some (mkComplete (new_master_key_id p) (new_epoch p)).

(** The rotation is committed: bring the key provider up to date. *)
Definition finish_committed (pending : PendingRow) : Eng (option RotationCompleteNotification) :=
  provider_key ← load_master_key;
  w ← eng_get;
  match decrypt_pending_new_key (master_key (w_sql w)) (new_master_key_enc pending) with
  | inl _ =>
      in_memory (Sql.swap_master_key provider_key) ;;
      sql "delete pending_rotation: " Sql.delete_pending_rotation ;;
      mret (complete_of pending)
  | inr new_key =>
      (if bool_decide (provider_key = new_key) then mret tt else write_master_key new_key) ;;
      sql "delete pending_rotation: " Sql.delete_pending_rotation ;;
      in_memory (Sql.swap_master_key new_key) ;;
      mret (complete_of pending)
  end.

(** The rotation is not committed: continue it. *)
Definition continue_rotation (pending : PendingRow) : Eng (option RotationCompleteNotification) :=
  w ← eng_get;
  let old_key := master_key (w_sql w) in
  match decrypt_pending_new_key old_key (new_master_key_enc pending) with
  | inl e => eng_err ("decrypt pending new key: " ++ storage_text e)
  | inr new_key =>
      in_memory (Sql.set_rotation_new_key new_key (new_epoch pending)) ;;
      execute_rotation_phases old_key new_key (new_master_key_id pending) (new_epoch pending) ;;
      write_master_key new_key ;;
      try (sql "" Sql.delete_pending_rotation) ;;
      in_memory (Sql.swap_master_key new_key) ;;
      in_memory Sql.clear_rotation_new_key ;;
      mret (complete_of pending)
  end.

Definition resume_pending_rotation : Eng (option RotationCompleteNotification) :=
  o ← sql "read pending_rotation at startup: " Sql.read_pending_rotation;
  match o with
  | None => mret None
  | Some pending =>
      db_epoch ← sql "get_master_key_epoch: " Sql.get_master_key_epoch;
      if db_epoch >? new_epoch pending then
        sql "delete stale pending_rotation: " Sql.delete_pending_rotation ;; mret None
      else if db_epoch =? new_epoch pending then finish_committed pending
      else continue_rotation pending
  end.

(** ** Start-up *)

(** [GatewayIdentity::generate]. *)
Definition generate_identity : Eng GatewayIdentity := fun w =>
  let s := w_sql w in
  match (sd ← fill 32; gid ← fill 16; mret (from_parts sd gid)) (conn s) (tape s) with
  | (inl _, (_, t)) => (Some (inl "OS CSPRNG unavailable"%string), set_sql w (set_conn s (conn s) t))
  | (inr i, (_, t)) => (Some (inr i), set_sql w (set_conn s (conn s) t))
  end.

Definition load_or_generate_identity : Eng GatewayIdentity :=
  o ← sql "" Sql.load_gateway_identity;
  match o with
  | Some i => mret i
  | None => i ← generate_identity; sql "" (Sql.store_gateway_identity i) ;; mret i
  end.

(** [run_gateway] once storage is open, up to the tasks it starts: an identity to
    resume with, the rotation resumed, the identity, the identifier of the key, the
    code; then the engine with the identity it reads again.  The ESP-NOW channel, which
    is resolved in between, is [resolve_espnow_channel] of [GwEngine]. *)
Definition start : Eng unit :=
  r ← try (sql "" Sql.load_gateway_identity);
  match r with
  | inr (Some _) => mret tt
  | _ => generate_identity ;; mret tt
  end ;;
  resume_pending_rotation ;;
  load_or_generate_identity ;;
  sql "" Sql.init_master_key_id ;;
  sql "" Sql.init_rotation_code ;;
  o ← sql "" Sql.load_gateway_identity;
  i ← eng_some o "gateway identity missing for rotation engine";
  eng_mod (fun w => mkWorld (w_sql w) (w_provider w) limiter_new false i (w_instants w) (w_events w) (w_sent w)).

(** ** Lives of the process *)

(** What survives the process. *)
Record Disk := mkDisk { disk_db : Db; disk_provider : KeyProvider }.

Definition disk_of (w : World) : Disk := mkDisk (conn (w_sql w)) (w_provider w).

(** What one life of the process meets. *)
Record Life := mkLife {
  life_tape : Tape;
  life_now : Z;
  life_instants : list Z;
  life_events : list Event;
  life_messages : list Message
}.

(** The world after storage is opened with the key of the provider. *)
Definition boot_world (x : Life) (d : Disk) (s : SqliteStorage) : World :=
  mkWorld s (disk_provider d) limiter_new false (mkIdentity [] [] []) (life_instants x) (life_events x) [].

(** Opening storage can fail, and the process stops. *)
Definition open_disk (x : Life) (d : Disk) : World + Disk :=
  match Sql.open_storage (kp_key (disk_provider d)) (life_now x) (disk_db d) (life_tape x) with
  | (inl _, db) => inr (mkDisk db (disk_provider d))
  | (inr s, _) => inl (boot_world x d s)
  end.

Definition live (x : Life) (d : Disk) : option (string + unit) * Disk :=
  match open_disk x d with
  | inr d' => (Some (inl "open"%string), d')
  | inl w => let '(r, w') := (start ;; run (life_messages x)) w in (r, disk_of w')
  end.
End Engine.
