(* ===== verification/GwRotationSafety.v ===== *)
(** * No key is lost in a rotation

    The invariant of the disk through a rotation of the master key: at rest, every
    key in the database is encrypted under the key of the provider; while a
    rotation is pending, every key is encrypted under the old or the new master
    key, the epoch of its row says which, and the new key itself is on disk under
    the old one; when it is committed, everything is encrypted under the new key,
    which the provider may not have yet.  The invariant holds at every point at
    which the process can be stopped, and from each of its states a start of the
    gateway that is not disturbed completes what was begun.

    Both are one proof: the mode [total] of a computation says whether it meets
    faults, or has what it needs to succeed. *)

From Stdlib Require Import String.
From S2P Require Import Prelude Frame Messages Session GwStore GwState GwSqlite GwRotation.
Open Scope list_scope.
Open Scope Z_scope.

(** ** Numbers as text *)

Lemma parse_decimal_digit limit acc n s :
  0 <= n < 10 -> acc * 10 + n < limit -> parse_decimal limit acc ((48 + n) :: s) = parse_decimal limit (acc * 10 + n) s.
Proof.
  intros Hn Hl. simpl. destruct (Z.leb_spec 48 (48 + n)); [|lia]. destruct (Z.leb_spec (48 + n) 57); [|lia]. simpl.
  replace (48 + n - 48) with n by lia. by destruct (Z.ltb_spec (acc * 10 + n) limit); [|lia].
Qed.

(** The digits of [n], read after [acc], then [rest]. *)
Lemma parse_decimal_print limit fuel n rest :
  0 <= n < limit -> n < 10 ^ Z.of_nat fuel ->
  parse_decimal limit 0 (decimal fuel n rest) = parse_decimal limit n rest.
Proof.
  revert n rest. induction fuel as [|f IH]; intros n rest Hn Hf.
  { replace n with 0 by (simpl in Hf; lia). done. }
  simpl decimal. destruct (Z.ltb_spec n 10) as [H10|H10].
  - rewrite parse_decimal_digit by lia. by replace (0 * 10 + n) with n by lia.
  - pose proof (Z.div_mod n 10 ltac:(lia)) as Hdm. pose proof (Z.mod_pos_bound n 10 ltac:(lia)) as Hm.
    rewrite Nat2Z.inj_succ, Z.pow_succ_r in Hf by lia.
    assert (0 <= n / 10 < limit) by (split; [apply Z.div_pos|apply Z.div_lt_upper_bound]; lia).
    rewrite IH by (done || apply Z.div_lt_upper_bound; lia).
    rewrite parse_decimal_digit by lia. f_equal. lia.
Qed.

Lemma decimal_shape fuel n rest : 0 <= n -> exists c s, decimal (S fuel) n rest = c :: s /\ 48 <= c <= 57.
Proof.
  revert n rest. induction fuel as [|f IH]; intros n rest Hn; pose proof (Z.mod_pos_bound n 10 ltac:(lia)).
  - simpl. destruct (Z.ltb_spec n 10); eexists _, _; (split; [done|lia]).
  - change (decimal (S (S f)) n rest) with
      (if n <? 10 then (48 + n) :: rest else decimal (S f) (n / 10) ((48 + n mod 10) :: rest)).
    destruct (Z.ltb_spec n 10); [eexists _, _; (split; [done|lia])|]. apply IH, Z.div_pos; lia.
Qed.

(** [parse] reads what [to_string] writes. *)
Lemma parse_to_string n : uN 64 n -> parse_u64 (to_string n) = Some n.
Proof.
  intros Hn. unfold parse_u64, parse_unsigned, to_string.
  assert (Hp : parse_decimal (2 ^ 64) 0 (decimal 20 n []) = Some n) by (by rewrite parse_decimal_print by (unfold uN in Hn; lia)).
  destruct (decimal_shape 19 n [] (proj1 Hn)) as (c & s & Hd & Hc). rewrite Hd in *.
  by destruct (Z.eqb_spec c 43); [lia|].
Qed.

(** ** What the invariant speaks about *)

(** The encrypted keys and the bookkeeping of rotations. *)
Record KeyTables := mkTables {
  k_nodes : gmap string (list Z * Z);
  k_phones : gmap Z (list Z * Z);
  k_identity : option IdentityRow;
  k_rotation : option PendingRow;
  k_id : option (list Z);
  k_epoch : option (list Z)
}.

Definition tables_of (d : Db) : KeyTables :=
  mkTables ((fun r => (row_psk r, row_epoch r)) <$> t_nodes d) ((fun r => (ph_psk r, ph_epoch r)) <$> t_phones d)
    (t_identity d) (t_rotation d) (t_config d !! "master_key_id"%string) (t_config d !! "master_key_epoch"%string).

(** The same keys on disk and in memory. *)
Definition steady (s s' : SqliteStorage) : Prop :=
  tables_of (conn s') = tables_of (conn s) /\ master_key s' = master_key s /\ rotation_key_state s' = rotation_key_state s.

#[export] Instance steady_preorder : PreOrder steady.
Proof. unfold steady. split; [done|]. intros s1 s2 s3 (-> & -> & ->) (-> & -> & ->). done. Qed.

(** Tasks that write no key: everything but the registration and removal of nodes
    and phones and the two configuration values of the master key. *)
Definition gentle_task (t : Task) : Prop :=
  match t with
  | TWakeMetadata _ _ _ | TReconcile _ _ | TRevokePhone _ | TStoreProgram _ | TDeleteProgram _ | TDeleteRecovery _ _ => True
  | TSetConfig k _ => k <> "master_key_id"%string /\ k <> "master_key_epoch"%string
  | TInsertNode _ | TUpsertNode _ | TDeleteNode _ | TStorePhone _ | TDeletePhone _ => False
  end.
Definition gentle (e : Event) : Prop := match e with Other t => gentle_task t | _ => True end.

Lemma fmap_insert_same {K A B} `{Countable K} (f : A -> B) (m : gmap K A) i x y :
  m !! i = Some x -> f y = f x -> f <$> <[i := y]> m = f <$> m.
Proof. intros Hx Hf. rewrite fmap_insert, Hf, <- fmap_insert. by rewrite insert_id. Qed.

Section Tables.
Context `{Sha256Provider, AeadProvider} `{HexCodec} `{SensorJson} `{Ed25519}.

Lemma run_task_steady t s : gentle_task t -> steady s (run_task t s).
Proof.
  destruct t; simpl; try done; intros Hg; unfold steady;
    unfold Sql.update_node_wake_metadata, Sql.reconcile_current_program_hash, Sql.revoke_phone_psk, Sql.store_program,
      Sql.delete_program, Sql.set_config, Sql.delete_pending_recovery, with_conn, tx_get, mbind, tx_bind; simpl; try done.
  - destruct (t_nodes (conn s) !! id) as [r|] eqn:Hr; simpl; [|done].
    destruct (_ && _); simpl; [done|]. split_and!; [|done..]. unfold tables_of. simpl. f_equal. by eapply fmap_insert_same.
  - destruct (t_nodes (conn s) !! id) as [r|] eqn:Hr; simpl; [|done].
    destruct (_ && _); simpl; [|done]. split_and!; [|done..]. unfold tables_of. simpl. f_equal. by eapply fmap_insert_same.
  - destruct (t_phones (conn s) !! id) as [r|] eqn:Hr; simpl; [|done].
    split_and!; [|done..]. unfold tables_of. simpl. f_equal. by eapply fmap_insert_same.
  - destruct Hg as [Hk1 Hk2]. split_and!; [|done..]. unfold tables_of. simpl. by rewrite !lookup_insert_ne by done.
Qed.

Lemma advance_steady l s e l' s' :
  Forall gentle l -> advance l s = (e, l', s') -> steady s s' /\ Forall gentle l' /\ (l = [] -> e = Fine /\ l' = [] /\ s' = s) /\ (forall t, e <> Other t).
Proof.
  revert s. induction l as [|x l IH]; intros s Hg; simpl; [by intros [= <- <- <-]|].
  apply Forall_cons_1 in Hg as [Hx Hg]. destruct x as [| | |t]; try by intros [= <- <- <-].
  intros Ha. destruct (IH _ Hg Ha) as (Hs & Hl & _ & He). split_and!; [|done..].
  etransitivity; [by apply run_task_steady|done].
Qed.
End Tables.

(** ** The stages of a rotation *)

(** [a] does not open what [b] sealed. *)
Definition rejects `{AeadProvider} (a b : list Z) : Prop := forall nonce aad pt, open a nonce aad (seal b nonce aad pt) = None.

Section Safety.
Context {Value : Type} `{C : Cbor Value}.
Context `{SHA : Sha256Provider} `{AEAD : AeadProvider} `{HEX : HexCodec} `{JSON : SensorJson} `{ED : Ed25519} `{RC : RotationCrypto}.
Context `{SHAL : !Sha256Laws SHA} `{AEADL : !AeadLaws AEAD} `{HEXL : !HexLaws HEX}.

(** The keys of the nodes and of the phones, the seed and the identifier of the
    gateway, and the master keys that may occur. *)
Context (P : gmap string (list Z)) (Q : gmap Z (list Z)) (sd gid : list Z) (MK : list Z -> Prop).
Context (Hgid : len gid = 16) (Hpub : len (ed25519_public sd) = 32).
Context (HMK : forall a b, MK a -> MK b -> a <> b -> rejects a b).
Context (HMK32 : forall a, MK a -> len a = 32).

(** Each row holds the key it should, encrypted under a master key that suits its
    epoch. *)
Definition rows_open {I} `{Countable I} (dec : list Z -> I -> list Z -> StorageError + list Z) (keys : gmap I (list Z))
    (rows : gmap I (list Z * Z)) (suits : Z -> list Z -> Prop) : Prop :=
  forall id, match rows !! id, keys !! id with
             | None, None => True
             | Some (b, ep), Some psk => exists k, suits ep k /\ 0 <= ep < 2 ^ 63 /\ dec k id b = inr psk
             | _, _ => False
             end.

Definition under (k : list Z) (e : Z) (ep : Z) (key : list Z) : Prop := ep <= e /\ key = k.
Definition mixed (old new : list Z) (e : Z) (ep : Z) (key : list Z) : Prop := (ep <= e /\ key = old) \/ (ep = e + 1 /\ key = new).
Definition renewed (new : list Z) (e : Z) (ep : Z) (key : list Z) : Prop := ep = e + 1 /\ key = new.

Definition nodes_open (T : KeyTables) := rows_open decrypt_psk P (k_nodes T).
Definition phones_open (T : KeyTables) := rows_open decrypt_phone_psk Q (k_phones T).

Definition seed_under (k : list Z) (T : KeyTables) : Prop :=
  exists b new, k_identity T = Some (mkIdentityRow b gid (ed25519_public sd) new) /\ decrypt_seed k b gid = inr sd.
Definition seed_rewrapped (k : list Z) (T : KeyTables) : Prop :=
  exists b b', k_identity T = Some (mkIdentityRow b gid (ed25519_public sd) (Some b')) /\ decrypt_seed k b' gid = inr sd.

Definition epoch_ok (e : Z) : Prop := 1 <= e < 2 ^ 63.

(** The pending record: the new key sealed under the old one. *)
Definition record_of (old new : list Z) (e : Z) (ph : string) (T : KeyTables) : Prop :=
  exists nonce at_, length nonce = 12%nat /\
    k_rotation T = Some (mkPendingRow (nonce ++ seal old nonce PENDING_ROTATION_AAD new) (hash new) (e + 1) at_ ph).

Definition rest (k : list Z) (e : Z) (T : KeyTables) : Prop :=
  MK k /\ epoch_ok e /\ nodes_open T (under k e) /\ phones_open T (under k e) /\ seed_under k T /\
  k_rotation T = None /\ k_epoch T = Some (to_string e).

(** A pending rotation, with the state of nodes and phones. *)
Definition pending (old new : list Z) (e : Z) (ph : string) (N F : Z -> list Z -> Prop) (T : KeyTables) : Prop :=
  MK old /\ MK new /\ epoch_ok e /\ epoch_ok (e + 1) /\ nodes_open T N /\ phones_open T F /\ seed_under old T /\
  record_of old new e ph T /\ k_epoch T = Some (to_string e) /\ (k_id T ≫= hex_decode) = Some (hash old).

Definition committed (old new : list Z) (e : Z) (T : KeyTables) : Prop :=
  MK old /\ MK new /\ epoch_ok (e + 1) /\ nodes_open T (renewed new e) /\ phones_open T (renewed new e) /\
  seed_under new T /\ record_of old new e "committing" T /\ k_epoch T = Some (to_string (e + 1)).

(** The keys in memory: the current one, and during a rotation the new one with its
    epoch.  They read a row right if its epoch selects the key it is under. *)
Abbreviation Mem := (list Z * option (list Z * Z))%type.
Definition reads_right (m : Mem) (suits : Z -> list Z -> Prop) : Prop := forall ep k, suits ep k -> row_decrypt_key m.1 m.2 ep = k.

(** A condition on the keys on disk, those in memory and the key provider. *)
Abbreviation Cond := (KeyTables -> Mem -> KeyProvider -> Prop).

Definition resting (k : list Z) (e : Z) : Cond := fun T m p => rest k e T /\ m.1 = k /\ kp_key p = k /\ reads_right m (under k e).
(** The pending record is written, the new key not yet in memory. *)
Definition noted (old new : list Z) (e : Z) (N F : Z -> list Z -> Prop) : Cond := fun T m p =>
  pending old new e "migrating_psks" N F T /\ m.1 = old /\ kp_key p = old /\ kp_writable p = true.
Definition migrating (old new : list Z) (e : Z) (N F : Z -> list Z -> Prop) : Cond := fun T m p =>
  pending old new e "migrating_psks" N F T /\ m.1 = old /\ kp_key p = old /\ kp_writable p = true /\ reads_right m (mixed old new e).
Definition rewrapping (old new : list Z) (e : Z) : Cond := fun T m p =>
  pending old new e "rewrapping_identity" (renewed new e) (renewed new e) T /\ m.1 = old /\ kp_key p = old /\ kp_writable p = true /\
  reads_right m (mixed old new e).
Definition committing (old new : list Z) (e : Z) : Cond := fun T m p =>
  pending old new e "committing" (renewed new e) (renewed new e) T /\ seed_rewrapped new T /\
  m.1 = old /\ kp_key p = old /\ kp_writable p = true /\ reads_right m (mixed old new e).
Definition done_with (old new : list Z) (e : Z) : Cond := fun T m p =>
  committed old new e T /\ (m.1 = old \/ m.1 = new) /\ (kp_key p = old \/ kp_key p = new) /\ kp_writable p = true /\
  reads_right m (renewed new e).

Definition good : Cond := fun T m p =>
  (exists k e, resting k e T m p) \/
  (exists old new e, migrating old new e (mixed old new e) (mixed old new e) T m p \/ rewrapping old new e T m p \/
     committing old new e T m p \/ done_with old new e T m p).

(** What a stopped process leaves. *)
Definition durable (T : KeyTables) (p : KeyProvider) : Prop := exists m, good T m p.

(** ** Rows *)

Lemma decrypt_sealed k aad nonce plain :
  length nonce = 12%nat -> len plain = 32 -> decrypt_blob k aad (nonce ++ seal k nonce aad plain) = inr plain.
Proof.
  intros Hn Hp. unfold decrypt_blob, ENCRYPTED_PSK_LEN.
  assert (Hl : len (nonce ++ seal k nonce aad plain) = 60) by (rewrite len_app, seal_len, Hp; unfold len; rewrite Hn; done).
  rewrite Hl. simpl. rewrite <- Hn, take_app_length, drop_app_length, open_seal. by rewrite Hp.
Qed.

Lemma decrypt_rejected a b aad nonce plain :
  rejects a b -> length nonce = 12%nat -> exists e, decrypt_blob a aad (nonce ++ seal b nonce aad plain) = inl e.
Proof.
  intros Hr Hn. unfold decrypt_blob. destruct (negb _); [by eexists|].
  rewrite <- Hn, take_app_length, drop_app_length, Hr. by eexists.
Qed.

Lemma decrypt_len k aad b plain : decrypt_blob k aad b = inr plain -> len b = 60 /\ len plain = 32.
Proof.
  unfold decrypt_blob, ENCRYPTED_PSK_LEN. destruct (Z.eqb_spec (len b) 60); [|done]. simpl.
  destruct (open _ _ _ _) as [pl|]; [|done]. destruct (Z.eqb_spec (len pl) 32); [|done]. by intros [= <-].
Qed.

Section Unmigrated.
Context {I : Type} `{Countable I}.

(** Every unmigrated row is listed: none is left when the list is empty. *)
Definition unmigrated (rows : gmap I (list Z * Z)) (e : Z) (ids : list I) : Prop :=
  NoDup ids /\ forall id, id ∈ ids <-> exists b ep, rows !! id = Some (b, ep) /\ ep < e + 1.

Lemma unmigrated_step rows e id ids b : unmigrated rows e (id :: ids) -> unmigrated (<[id := (b, e + 1)]> rows) e ids.
Proof.
  intros [Hnd Hu]. apply list.NoDup_cons in Hnd as [Hni Hnd]. split; [done|]. intros j. destruct (decide (j = id)) as [->|Hj].
  - split; [done|]. rewrite lookup_insert_eq. intros (b' & ep & [= <- <-] & Hlt). lia.
  - rewrite lookup_insert_ne by done. rewrite <- Hu, elem_of_cons. naive_solver.
Qed.

(** What the query lists. *)
Lemma unmigrated_list {A} (f : A -> list Z * Z) (t : gmap I A) e :
  unmigrated (f <$> t) e (filter (fun x => (f x.2).2 < e + 1) (map_to_list t)).*1.
Proof.
  split.
  - apply (sublist_NoDup _ (map_to_list t).*1); [apply NoDup_fst_map_to_list|apply fmap_sublist, sublist_filter].
  - intros id. rewrite list_elem_of_fmap. split.
    + intros ([j a] & -> & [Hlt Hin%elem_of_map_to_list]%list_elem_of_filter). simpl in *.
      exists (f a).1, (f a).2. rewrite lookup_fmap, Hin. simpl. split; [by rewrite <- surjective_pairing|done].
    + intros (b & ep & Hl & Hlt). rewrite lookup_fmap in Hl. destruct (t !! id) as [a|] eqn:Ha; [|done]. simpl in Hl. simplify_eq.
      exists (id, a). split; [done|]. apply list_elem_of_filter. split; [simpl; by rewrite Hl|by apply elem_of_map_to_list].
Qed.

Lemma unmigrated_length rows e ids : unmigrated rows e ids -> (length ids <= size rows)%nat.
Proof.
  intros [Hnd Hu]. rewrite <- (size_list_to_set (C := gset I)) by done. rewrite <- size_dom. apply subseteq_size.
  intros id. rewrite elem_of_list_to_set, Hu, elem_of_dom. intros (b & ep & -> & _). by eexists.
Qed.
End Unmigrated.

Section Rows.
Context {I : Type} `{Countable I} (dec : list Z -> I -> list Z -> StorageError + list Z) (keys : gmap I (list Z)).

Lemma rows_weaken rows (S S' : Z -> list Z -> Prop) :
  (forall ep k, S ep k -> S' ep k) -> rows_open dec keys rows S -> rows_open dec keys rows S'.
Proof.
  intros HSS Hr id. specialize (Hr id). destruct (rows !! id) as [[b ep]|]; [|done]. destruct (keys !! id); [|done].
  destruct Hr as (k & ? & ? & ?). eauto.
Qed.

Lemma rows_row rows S id b ep :
  rows_open dec keys rows S -> rows !! id = Some (b, ep) ->
  exists psk k, keys !! id = Some psk /\ S ep k /\ 0 <= ep < 2 ^ 63 /\ dec k id b = inr psk.
Proof. intros Hr Hi. specialize (Hr id). rewrite Hi in Hr. destruct (keys !! id) as [psk|]; [|done]. destruct Hr as (k & ?). eauto. Qed.

Lemma rows_size rows S : rows_open dec keys rows S -> size rows = size keys.
Proof.
  intros Hr. rewrite <- !size_dom. f_equal. apply set_eq. intros id. rewrite !elem_of_dom. specialize (Hr id).
  destruct (rows !! id) as [[b ep]|], (keys !! id) as [psk|]; split; intros [x Hx]; try done; by eexists.
Qed.

Lemma rows_insert rows S id b ep psk k :
  rows_open dec keys rows S -> keys !! id = Some psk -> S ep k -> 0 <= ep < 2 ^ 63 -> dec k id b = inr psk ->
  rows_open dec keys (<[id := (b, ep)]> rows) S.
Proof.
  intros Hr Hk Hs He Hd j. destruct (decide (j = id)) as [->|Hj].
  - rewrite lookup_insert_eq, Hk. by exists k.
  - rewrite lookup_insert_ne by done. apply Hr.
Qed.

Lemma unmigrated_nil rows old new e :
  unmigrated rows e [] -> rows_open dec keys rows (mixed old new e) -> rows_open dec keys rows (renewed new e).
Proof.
  intros [_ Hu] Hr id. pose proof (Hr id) as Hi. destruct (rows !! id) as [[b ep]|] eqn:Hb; [|done].
  destruct (keys !! id) as [psk|]; [|done]. destruct Hi as (k & [[Hle ->]|Hn] & ? & ?); [|by exists k].
  assert (id ∈ @nil I) as ?%elem_of_nil; [|done]. apply Hu. exists b, ep. split; [done|lia].
Qed.

End Rows.

(** ** Computations between stages *)

(** The key a database leads to: its own, or that of the rotation it records. *)
Definition leads_to (T : KeyTables) (k : list Z) (e : Z) : Prop :=
  rest k e T \/ exists old e0 ph, e = e0 + 1 /\ record_of old k e0 ph T.

Section Mode.
Context (total : bool) (Aim : list Z -> Z -> Prop).

(** [n] more draws of random bytes succeed, none of them rejected as a character. *)
Definition supply (n : nat) (t : Tape) : Prop := (n <= length t)%nat /\ Forall (fun bs => resize 1 0 bs !!! 0%nat < 252) t.

(** Without faults and with enough randomness, or with faults and gentle tasks. *)
Definition budget (n : nat) (w : World) : Prop :=
  if total then w_events w = [] /\ supply n (tape (w_sql w)) else Forall gentle (w_events w).

Definition mem_of (s : SqliteStorage) : Mem := (master_key s, rotation_key_state s).
Definition at_ (J : Cond) (w : World) : Prop := J (tables_of (conn (w_sql w))) (mem_of (w_sql w)) (w_provider w).

Definition outcome {A} (m : Eng A) (R : A -> World -> Prop) (E : Cond) (w : World) : Prop :=
  match m w with
  | (Some (inr a), w') => R a w'
  | (Some (inl _), w') => total = false /\ budget 0 w' /\ at_ E w'
  | (None, w') => total = false /\ durable (tables_of (conn (w_sql w'))) (w_provider w')
  end.

(** The usual result: [n] draws left, and a condition. *)
Definition left_ {A} (n : nat) (J : Cond) : A -> World -> Prop := fun _ w => budget n w /\ at_ J w.

Lemma outcome_ret {A} (a : A) R E w : R a w -> outcome (mret a) R E w.
Proof. done. Qed.

Lemma outcome_bind {A B} (m : Eng A) (k : A -> Eng B) R E w :
  outcome m (fun a => outcome (k a) R E) E w -> outcome (m ≫= k) R E w.
Proof. unfold outcome, mbind, eng_bind. by destruct (m w) as [[[e|a]|] w']. Qed.

Lemma outcome_mono {A} (m : Eng A) (R R' : A -> World -> Prop) (E E' : Cond) w :
  outcome m R E w -> (forall a w', R a w' -> R' a w') -> (forall T m p, E T m p -> E' T m p) -> outcome m R' E' w.
Proof.
  unfold outcome. intros Hm HR HE. destruct (m w) as [[[e|a]|] w']; [|by apply HR|done].
  destruct Hm as (Ht & Hb & He). split_and!; [done..|]. by apply HE.
Qed.

Lemma outcome_try {A} (m : Eng A) R E E' w :
  outcome m (fun a => R (inr a)) E w -> (forall e w', total = false -> budget 0 w' -> at_ E w' -> R (inl e) w') ->
  outcome (try m) R E' w.
Proof.
  unfold outcome, try. intros Hm He. destruct (m w) as [[[e|a]|] w']; [|done..].
  destruct Hm as (Ht & Hb & Hc). by apply He.
Qed.

Lemma outcome_in_memory f R E w : R tt (set_sql w (f (w_sql w))) -> outcome (in_memory f) R E w.
Proof. done. Qed.

Lemma outcome_mod f R E w : R tt (f w) -> outcome (eng_mod f) R E w.
Proof. done. Qed.

Lemma budget_le n n' w : (n' <= n)%nat -> budget n w -> budget n' w.
Proof. unfold budget, supply. destruct total; [|done]. intros ? (? & ? & ?). split_and!; [done|lia|done]. Qed.

(** What an access meets. *)
Lemma point_cases {A} (go : World -> (string + A) * World) n J w :
  budget n w -> at_ J w ->
  exists w', budget n w' /\ at_ J w' /\
    ((exists r w'', go w' = (r, w'') /\ point go w = (Some r, w'')) \/
     (total = false /\ exists x, point go w = (Some (inl x), w')) \/
     (total = false /\ point go w = (None, w'))).
Proof.
  intros Hb HJ. unfold point. destruct (advance (w_events w) (w_sql w)) as [[e l] s] eqn:Ha.
  assert (Hg : Forall gentle (w_events w)) by (unfold budget in Hb; destruct total; [by destruct Hb as [-> _]|done]).
  destruct (advance_steady _ _ _ _ _ Hg Ha) as ((HT & Hm & Hrk) & Hl' & Hq & He).
  exists (set_events (set_sql w s) l). split; [|split; [unfold at_, mem_of; simpl; by rewrite HT, Hm, Hrk|]].
  { unfold budget in *. destruct total; simpl; [|done]. destruct Hb as [Hev Hs]. destruct (Hq Hev) as (_ & -> & ->). done. }
  assert (Hf : e <> Fine -> total = false).
  { intros Hne. unfold budget in Hb. destruct total; [|done]. by destruct (Hq (proj1 Hb)) as [-> _]. }
  destruct e as [| | |t]; [|right; left; split; [by apply Hf|by eexists]|right; right; by split; [apply Hf|]|by destruct (He t)].
  left. destruct (go _) as [r w''] eqn:Hgo. by exists r, w''.
Qed.

(** An access: the operation itself, or a fault or the end at this point. *)
Lemma outcome_point {A} (go : World -> (string + A) * World) n J R (E : Cond) w :
  budget n w -> at_ J w -> (forall T m p, J T m p -> E T m p) -> (forall T m p, J T m p -> durable T p) ->
  (forall w', budget n w' -> at_ J w' ->
     match go w' with
     | (inr a, w'') => R a w''
     | (inl _, w'') => total = false /\ budget 0 w'' /\ at_ E w''
     end) ->
  outcome (point go) R E w.
Proof.
  intros Hb HJ HE HD Hgo. unfold outcome.
  destruct (point_cases go n J w Hb HJ) as (w' & Hb' & HJ' & [(r & w'' & Hr & ->)|[[Ht [x ->]]|[Ht ->]]]).
  - specialize (Hgo w' Hb' HJ'). rewrite Hr in Hgo. by destruct r.
  - split_and!; [done| |by apply HE]. eapply budget_le; [|done]. lia.
  - split; [done|by eapply HD].
Qed.

(** An access whose failure does not matter. *)
Lemma outcome_try_point {A} (go : World -> (string + A) * World) n J R (E : Cond) w :
  budget n w -> at_ J w -> (forall T m p, J T m p -> durable T p) ->
  (forall w', budget n w' -> at_ J w' -> R (go w').1 (go w').2) -> (forall x w', budget n w' -> at_ J w' -> R (inl x) w') ->
  outcome (try (point go)) R E w.
Proof.
  intros Hb HJ HD Hgo Hf. unfold outcome, try.
  destruct (point_cases go n J w Hb HJ) as (w' & Hb' & HJ' & [(r & w'' & Hr & ->)|[[Ht [x ->]]|[Ht ->]]]).
  - specialize (Hgo w' Hb' HJ'). by rewrite Hr in Hgo.
  - by apply Hf.
  - split; [done|by eapply HD].
Qed.

(** An operation of storage: its closure. *)
Lemma outcome_sql {A} prefix (f : SqliteStorage -> Tx A) n J R (E : Cond) w :
  budget n w -> at_ J w -> (forall T m p, J T m p -> E T m p) -> (forall T m p, J T m p -> durable T p) ->
  (forall w' r d t, budget n w' -> at_ J w' -> f (w_sql w') (conn (w_sql w')) (tape (w_sql w')) = (r, (d, t)) ->
     match r with
     | inl _ => total = false
     | inr a => R a (set_sql w' (set_conn (w_sql w') d t))
     end) ->
  outcome (sql prefix (with_conn f)) R E w.
Proof.
  intros Hb HJ HE HD Hf. eapply outcome_point; [done..|]. intros w' Hb' HJ'. unfold with_conn.
  destruct (f (w_sql w') (conn (w_sql w')) (tape (w_sql w'))) as [r [d t]] eqn:Hr.
  specialize (Hf w' r d t Hb' HJ' Hr). destruct r as [e|a]; [|done]. split_and!; [done| |by apply HE].
  unfold budget in *. rewrite Hf in *. done.
Qed.

(** A closure that only reads. *)
Lemma outcome_read {A} prefix (f : SqliteStorage -> Tx A) n J (E : Cond) (S : A -> KeyTables -> Prop) w :
  budget n w -> at_ J w -> (forall T m p, J T m p -> E T m p) -> (forall T m p, J T m p -> durable T p) ->
  (forall s t p, J (tables_of (conn s)) (mem_of s) p ->
     exists r, f s (conn s) t = (r, (conn s, t)) /\ match r with inl _ => total = false | inr a => S a (tables_of (conn s)) end) ->
  outcome (sql prefix (with_conn f)) (fun a w' => budget n w' /\ at_ J w' /\ S a (tables_of (conn (w_sql w')))) E w.
Proof.
  intros Hb HJ HE HD Hf. eapply outcome_sql; [done..|]. intros w' r d t Hb' HJ' Hr.
  destruct (Hf (w_sql w') (tape (w_sql w')) (w_provider w') HJ') as (r' & Hr' & Hp). rewrite Hr' in Hr. simplify_eq.
  destruct r; [done|]. by split_and!.
Qed.

(** ** Stages and randomness *)

Lemma good_durable T m p : good T m p -> durable T p.
Proof. by exists m. Qed.

Lemma resting_good k e T m p : resting k e T m p -> good T m p.
Proof. intros. left. by exists k, e. Qed.

Lemma migrating_good old new e (N F : Z -> list Z -> Prop) T m p :
  (forall ep k, N ep k -> mixed old new e ep k) -> (forall ep k, F ep k -> mixed old new e ep k) ->
  migrating old new e N F T m p -> good T m p.
Proof.
  intros HN HF ((H1 & H2 & H3 & H4 & Hn & Hf & H5 & H6 & H7 & H8) & Hm). right. exists old, new, e. left. split; [|done].
  do 4 (split; [done|]). split; [by eapply rows_weaken; [exact HN|]|]. split; [by eapply rows_weaken; [exact HF|]|done].
Qed.

Lemma rewrapping_good old new e T m p : rewrapping old new e T m p -> good T m p.
Proof. intros. right. exists old, new, e. by right; left. Qed.
Lemma committing_good old new e T m p : committing old new e T m p -> good T m p.
Proof. intros. right. exists old, new, e. by right; right; left. Qed.
Lemma done_good old new e T m p : done_with old new e T m p -> good T m p.
Proof. intros. right. exists old, new, e. by right; right; right. Qed.

Lemma renewed_mixed old new e ep k : renewed new e ep k -> mixed old new e ep k.
Proof. by right. Qed.

#[local] Hint Resolve resting_good migrating_good rewrapping_good committing_good done_good good_durable renewed_mixed : core.

Lemma budget_nil n w : budget (S n) w -> tape (w_sql w) = [] -> total = false.
Proof. unfold budget, supply. destruct total; [|done]. intros (_ & Hl & _) Ht. rewrite Ht in Hl. simpl in Hl. lia. Qed.

Lemma budget_cons n w bs d t : budget (S n) w -> tape (w_sql w) = bs :: t -> budget n (set_sql w (set_conn (w_sql w) d t)).
Proof.
  unfold budget, supply. destruct total; [|done]. intros (He & Hl & Hf) Ht. simpl. rewrite Ht in *. simpl in Hl.
  apply list.Forall_cons in Hf as [_ Hf]. split_and!; [done|lia|done].
Qed.

Lemma budget_same n w d : budget n w -> budget n (set_sql w (set_conn (w_sql w) d (tape (w_sql w)))).
Proof. unfold budget. by destruct total. Qed.

(** ** Writes *)

Definition with_node_key (T : KeyTables) (id : string) (x : list Z * Z) : KeyTables :=
  mkTables (<[id := x]> (k_nodes T)) (k_phones T) (k_identity T) (k_rotation T) (k_id T) (k_epoch T).
Definition with_phone_key (T : KeyTables) (id : Z) (x : list Z * Z) : KeyTables :=
  mkTables (k_nodes T) (<[id := x]> (k_phones T)) (k_identity T) (k_rotation T) (k_id T) (k_epoch T).
Definition with_identity (T : KeyTables) (x : option IdentityRow) : KeyTables :=
  mkTables (k_nodes T) (k_phones T) x (k_rotation T) (k_id T) (k_epoch T).
Definition with_rotation (T : KeyTables) (x : option PendingRow) : KeyTables :=
  mkTables (k_nodes T) (k_phones T) (k_identity T) x (k_id T) (k_epoch T).

Lemma tables_set_node d id r : tables_of (set_nodes d (<[id := r]> (t_nodes d))) = with_node_key (tables_of d) id (row_psk r, row_epoch r).
Proof. unfold tables_of, with_node_key. simpl. by rewrite fmap_insert. Qed.
Lemma tables_set_phone d id r : tables_of (set_phones d (<[id := r]> (t_phones d))) = with_phone_key (tables_of d) id (ph_psk r, ph_epoch r).
Proof. unfold tables_of, with_phone_key. simpl. by rewrite fmap_insert. Qed.

Ltac at_now := unfold at_; cbn [set_sql w_sql set_conn conn w_provider].

(** ** Migration of the rows *)

Ltac tx := unfold mbind, tx_bind, mret, tx_ret, tx_get, tx_some, tx_res, tx_fail, tx_mod, to_i64 in *; simpl.

Lemma migrate_node_outcome old new e id ids F n w :
  budget (S n) w -> at_ (fun T m p => migrating old new e (mixed old new e) F T m p /\ unmigrated (k_nodes T) e (id :: ids)) w ->
  (forall ep k, F ep k -> mixed old new e ep k) ->
  outcome (sql "migrate node: " (Sql.migrate_node_psk id old new (hash new) (e + 1)))
    (left_ n (fun T m p => migrating old new e (mixed old new e) F T m p /\ unmigrated (k_nodes T) e ids)) good w.
Proof.
  intros Hb HJ HF. eapply outcome_sql; [exact Hb|exact HJ|intros ??? [? _]; eauto..|].
  clear w Hb HJ. intros w r d t Hb [HJ Hu] Hr. pose proof HJ as ((Ho & Hn & He & He1 & Hno & Hph & Hrest) & Hm).
  destruct (proj1 (proj2 Hu id) ltac:(constructor)) as (b & ep & Hrow & Hlt).
  destruct (rows_row _ _ _ _ _ _ _ Hno Hrow) as (psk & k & HP & Hk & Hep & Hd).
  assert (k = old) as -> by (destruct Hk as [[_ ->]|[-> _]]; [done|lia]).
  destruct (decrypt_len _ _ _ _ Hd) as [_ Hpsk].
  unfold tables_of in Hrow. simpl in Hrow. rewrite lookup_fmap in Hrow.
  destruct (t_nodes (conn (w_sql w)) !! id) as [row|] eqn:Hrow'; [|done]. simpl in Hrow. simplify_eq.
  revert Hr. tx. destruct (Z.ltb_spec (e + 1) (2 ^ 63)) as [_|Hge]; [|unfold epoch_ok in He1; lia]. simpl.
  rewrite Hrow', Hd. unfold encrypt_psk, encrypt_blob, fill. tx.
  destruct (tape (w_sql w)) as [|bs t'] eqn:Ht; simpl; intros [= <- <- <-]; [by eapply budget_nil|].
  set (blob := resize 12 0 bs ++ _).
  assert (Hblob : decrypt_psk new id blob = inr psk) by (by apply decrypt_sealed; [apply length_resize|]).
  split; [by eapply budget_cons|]. at_now. rewrite tables_set_node. split; [|eapply unmigrated_step, Hu].
  split; [|done]. unfold pending, nodes_open. simpl.
  destruct Hrest as (? & ? & ? & ?). split_and!; try done. eapply (rows_insert _ _ _ _ _ _ _ psk new); [done..|by right|unfold epoch_ok in *; lia|done].
Qed.

Lemma migrate_phone_outcome old new e id ids N n w :
  budget (S n) w -> at_ (fun T m p => migrating old new e N (mixed old new e) T m p /\ unmigrated (k_phones T) e (id :: ids)) w ->
  (forall ep k, N ep k -> mixed old new e ep k) ->
  outcome (sql "migrate phone: " (Sql.migrate_phone_psk id old new (hash new) (e + 1)))
    (left_ n (fun T m p => migrating old new e N (mixed old new e) T m p /\ unmigrated (k_phones T) e ids)) good w.
Proof.
  intros Hb HJ HN. eapply outcome_sql; [exact Hb|exact HJ|intros ??? [? _]; eauto..|].
  clear w Hb HJ. intros w r d t Hb [HJ Hu] Hr. pose proof HJ as ((Ho & Hn & He & He1 & Hno & Hph & Hrest) & Hm).
  destruct (proj1 (proj2 Hu id) ltac:(constructor)) as (b & ep & Hrow & Hlt).
  destruct (rows_row _ _ _ _ _ _ _ Hph Hrow) as (psk & k & HP & Hk & Hep & Hd).
  assert (k = old) as -> by (destruct Hk as [[_ ->]|[-> _]]; [done|lia]).
  destruct (decrypt_len _ _ _ _ Hd) as [_ Hpsk].
  unfold tables_of in Hrow. simpl in Hrow. rewrite lookup_fmap in Hrow.
  destruct (t_phones (conn (w_sql w)) !! id) as [row|] eqn:Hrow'; [|done]. simpl in Hrow. simplify_eq.
  revert Hr. tx. destruct (Z.ltb_spec (e + 1) (2 ^ 63)) as [_|Hge]; [|unfold epoch_ok in He1; lia]. simpl.
  rewrite Hrow', Hd. unfold encrypt_phone_psk, encrypt_blob, fill. tx.
  destruct (tape (w_sql w)) as [|bs t'] eqn:Ht; simpl; intros [= <- <- <-]; [by eapply budget_nil|].
  set (blob := resize 12 0 bs ++ _).
  assert (Hblob : decrypt_phone_psk new id blob = inr psk) by (by apply decrypt_sealed; [apply length_resize|]).
  split; [by eapply budget_cons|]. at_now. rewrite tables_set_phone. split; [|eapply unmigrated_step, Hu].
  split; [|done]. unfold pending, phones_open. simpl.
  destruct Hrest as (? & ? & ? & ?). split_and!; try done. eapply (rows_insert _ _ _ _ _ _ _ psk new); [done..|by right|unfold epoch_ok in *; lia|done].
Qed.

Lemma migrate_nodes_outcome old new e ids F n w :
  budget (length ids + n) w ->
  at_ (fun T m p => migrating old new e (mixed old new e) F T m p /\ unmigrated (k_nodes T) e ids) w ->
  (forall ep k, F ep k -> mixed old new e ep k) ->
  outcome (migrate_nodes ids old new (hash new) (e + 1)) (left_ n (migrating old new e (renewed new e) F)) good w.
Proof.
  revert w. induction ids as [|id ids IH]; intros w Hb HJ HF; simpl.
  - apply outcome_ret. split; [done|]. destruct HJ as [((H1 & H2 & H3 & H4 & Hno & Hph & Hrest) & Hm) Hu].
    split; [|done]. do 4 (split; [done|]). split; [|by split]. by eapply unmigrated_nil.
  - apply outcome_bind. eapply outcome_mono; [by apply (migrate_node_outcome old new e id ids F (length ids + n))| |done].
    intros _ w' [Hb' HJ']. by apply IH.
Qed.

Lemma migrate_phones_outcome old new e ids N n w :
  budget (length ids + n) w ->
  at_ (fun T m p => migrating old new e N (mixed old new e) T m p /\ unmigrated (k_phones T) e ids) w ->
  (forall ep k, N ep k -> mixed old new e ep k) ->
  outcome (migrate_phones ids old new (hash new) (e + 1)) (left_ n (migrating old new e N (renewed new e))) good w.
Proof.
  revert w. induction ids as [|id ids IH]; intros w Hb HJ HN; simpl.
  - apply outcome_ret. split; [done|]. destruct HJ as [((H1 & H2 & H3 & H4 & Hno & Hph & Hrest) & Hm) Hu].
    split; [|done]. do 5 (split; [done|]). split; [|done]. by eapply unmigrated_nil.
  - apply outcome_bind. eapply outcome_mono; [by apply (migrate_phone_outcome old new e id ids N (length ids + n))| |done].
    intros _ w' [Hb' HJ']. by apply IH.
Qed.

(** The two lists. *)
Lemma list_nodes_outcome old new e F n w :
  budget n w -> at_ (migrating old new e (mixed old new e) F) w -> (forall ep k, F ep k -> mixed old new e ep k) ->
  outcome (sql "list unmigrated nodes: " (Sql.list_unmigrated_node_ids (e + 1)))
    (fun ids w' => budget n w' /\ at_ (migrating old new e (mixed old new e) F) w' /\
       unmigrated (k_nodes (tables_of (conn (w_sql w')))) e ids) good w.
Proof.
  intros Hb HJ HF. apply outcome_read with (S := fun ids T => unmigrated (k_nodes T) e ids); [done..|eauto|eauto|].
  intros s t p ((_ & _ & _ & He1 & _) & _). tx. destruct (Z.ltb_spec (e + 1) (2 ^ 63)); [|unfold epoch_ok in He1; lia]. simpl.
  eexists. split; [done|]. apply (unmigrated_list (fun r => (row_psk r, row_epoch r))).
Qed.

Lemma list_phones_outcome old new e N n w :
  budget n w -> at_ (migrating old new e N (mixed old new e)) w -> (forall ep k, N ep k -> mixed old new e ep k) ->
  outcome (sql "list unmigrated phones: " (Sql.list_unmigrated_phone_ids (e + 1)))
    (fun ids w' => budget n w' /\ at_ (migrating old new e N (mixed old new e)) w' /\
       unmigrated (k_phones (tables_of (conn (w_sql w')))) e ids) good w.
Proof.
  intros Hb HJ HN. apply outcome_read with (S := fun ids T => unmigrated (k_phones T) e ids); [done..|eauto|eauto|].
  intros s t p ((_ & _ & _ & He1 & _) & _). tx. destruct (Z.ltb_spec (e + 1) (2 ^ 63)); [|unfold epoch_ok in He1; lia]. simpl.
  eexists. split; [done|]. apply (unmigrated_list (fun r => (ph_psk r, ph_epoch r))).
Qed.

Lemma migrate_all_outcome old new e n w :
  budget (size P + size Q + n) w -> at_ (migrating old new e (mixed old new e) (mixed old new e)) w ->
  outcome (migrate_all_psks old new (hash new) (e + 1)) (left_ n (migrating old new e (renewed new e) (renewed new e))) good w.
Proof.
  intros Hb HJ. unfold migrate_all_psks. apply outcome_bind.
  eapply outcome_mono; [by apply (list_nodes_outcome _ _ _ _ _ _ Hb HJ)| |done]. intros ids w1 (Hb1 & HJ1 & Hu1).
  assert (length ids <= size P)%nat.
  { rewrite <- (rows_size decrypt_psk P (k_nodes (tables_of (conn (w_sql w1)))) (mixed old new e)); [by apply (unmigrated_length _ e)|apply HJ1]. }
  apply outcome_bind. eapply outcome_mono;
    [apply (migrate_nodes_outcome old new e ids (mixed old new e) (size Q + n)); [eapply budget_le; [|done]; lia|by split|done]| |done].
  intros _ w2 [Hb2 HJ2]. apply outcome_bind.
  eapply outcome_mono; [apply (list_phones_outcome _ _ _ _ _ _ Hb2 HJ2); eauto| |done]. intros ids' w3 (Hb3 & HJ3 & Hu3).
  assert (length ids' <= size Q)%nat.
  { rewrite <- (rows_size decrypt_phone_psk Q (k_phones (tables_of (conn (w_sql w3)))) (mixed old new e)); [by apply (unmigrated_length _ e)|apply HJ3]. }
  apply migrate_phones_outcome; [eapply budget_le; [|done]; lia|by split|eauto].
Qed.

(** ** The phases *)

Lemma epoch_to_uint e : epoch_ok e -> to_uint 63 e = Some e.
Proof.
  unfold epoch_ok, to_uint. intros He. destruct (Z.leb_spec 0 e); [|lia]. by destruct (Z.ltb_spec e (2 ^ 63)); [|lia].
Qed.

Lemma read_pending_outcome (J : Cond) old new e ph n w :
  budget n w -> at_ J w -> (forall T m p, J T m p -> good T m p) ->
  (forall T m p, J T m p -> record_of old new e ph T /\ epoch_ok (e + 1)) ->
  outcome read_pending (fun pd w' => budget n w' /\ at_ J w' /\ phase pd = ph) good w.
Proof.
  intros Hb HJ HG HR. apply outcome_bind.
  eapply outcome_mono; [apply outcome_read with (J := J) (S := fun o _ => exists pd, o = Some pd /\ phase pd = ph); eauto| |done].
  - intros s t p Hj. destruct (HR _ _ _ Hj) as [(nonce & at0 & _ & Hrot) He]. simpl in Hrot. tx. rewrite Hrot. simpl.
    rewrite hash_len. simpl. rewrite epoch_to_uint by done. simpl. eexists. split; [done|]. by eexists.
  - intros o w' (Hb' & HJ' & pd & -> & Hp). apply outcome_ret. done.
Qed.

Lemma update_phase_outcome (J J' : Cond) prefix old new e ph ph' n w :
  budget n w -> at_ J w -> (forall T m p, J T m p -> good T m p) ->
  (forall T m p, J T m p -> record_of old new e ph T) ->
  (forall T m p x, J T m p -> record_of old new e ph' (with_rotation T x) -> J' (with_rotation T x) m p) ->
  outcome (sql prefix (Sql.update_rotation_phase ph')) (left_ n J') good w.
Proof.
  intros Hb HJ HG HR HJ'. eapply outcome_sql; [done..|eauto|]. clear w Hb HJ. intros w r d t Hb HJ Hr.
  destruct (HR _ _ _ HJ) as (nonce & at0 & Hl & Hrot). simpl in Hrot. revert Hr. tx. rewrite Hrot. simpl. intros [= <- <- <-].
  split; [by apply budget_same|]. at_now. apply (HJ' _ _ _ _ HJ). by exists nonce, at0.
Qed.

Lemma rewrap_outcome old new e n w :
  budget (S n) w -> at_ (rewrapping old new e) w ->
  outcome (sql "rewrap identity seed: " (Sql.rewrap_identity_seed old new))
    (left_ n (fun T m p => rewrapping old new e T m p /\ seed_rewrapped new T)) good w.
Proof.
  intros Hb HJ. eapply outcome_sql; [done..|eauto|eauto|]. clear w Hb HJ. intros w r d t Hb HJ Hr.
  pose proof HJ as ((H1 & H2 & H3 & H4 & Hno & Hph & (b & nw & Hid & Hsd) & Hrest) & Hm). simpl in Hid.
  revert Hr. tx. rewrite Hid. simpl. rewrite Hgid. simpl. rewrite Hsd. unfold encrypt_seed, encrypt_blob, fill. tx.
  destruct (tape (w_sql w)) as [|bs t'] eqn:Ht; simpl; intros [= <- <- <-]; [by eapply budget_nil|].
  set (blob := resize 12 0 bs ++ _). destruct (decrypt_len _ _ _ _ Hsd) as [_ Hs32].
  assert (Hblob : decrypt_seed new blob gid = inr sd) by (by apply decrypt_sealed; [apply length_resize|]).
  split; [by eapply budget_cons|]. at_now. split; [|by exists b, blob]. split; [|done].
  do 6 (split; [done|]). split; [by exists b, (Some blob)|done].
Qed.

Lemma rotation_chars_spec k d t :
  exists r t', Sql.rotation_chars k d t = (r, (d, t')) /\ forall n, supply (k + n) t -> supply n t' /\ exists c, r = inr c.
Proof.
  revert t. induction k as [|k IH]; intros t; simpl; [by exists (inr []), t; split; [|eauto]|].
  tx. unfold Sql.rotation_char. destruct (Sql.draw_below_252 t) as [[b t1]|] eqn:Hd.
  - destruct (IH t1) as (r & t2 & -> & Hs). destruct r as [x|cs]; eexists _, t2; (split; [done|]); intros n Hn;
      (assert (Hs1 : supply (k + n) t1);
       [destruct Hn as [Hl Hf]; destruct t as [|bs t]; [done|]; apply list.Forall_cons in Hf as [Hb Hf]; simpl in Hd;
        destruct (Z.ltb_spec (resize 1 0 bs !!! 0%nat) 252); [|lia]; simplify_eq; split; [simpl in Hl; lia|done]|]);
      destruct (Hs n Hs1) as (Hs' & c & Hc); [done|]; (split; [done|]); by eexists.
  - eexists _, []. split; [done|]. intros n [Hl Hf]. destruct t as [|bs t]; [simpl in Hl; lia|].
    apply list.Forall_cons in Hf as [Hb Hf]. simpl in Hd. destruct (Z.ltb_spec (resize 1 0 bs !!! 0%nat) 252); [done|lia].
Qed.

Opaque Sql.rotation_chars.

Lemma commit_outcome old new e n w :
  budget (6 + n) w -> at_ (committing old new e) w ->
  outcome (sql "commit rotation: " (Sql.commit_rotation (hash new) (e + 1)))
    (left_ n (fun T m p => done_with old new e T m p /\ m.1 = old /\ kp_key p = old)) good w.
Proof.
  intros Hb HJ. eapply outcome_sql; [done..|eauto|eauto|]. clear w Hb HJ. intros w r d t Hb HJ Hr.
  pose proof HJ as ((H1 & H2 & H3 & H4 & Hno & Hph & _ & Hrec & _) & (b & b' & Hid & Hsd) & Hm & Hkp & Hwr & Hrd). simpl in Hid.
  revert Hr. tx. rewrite Hid. simpl. unfold Sql.generate_rotation_code, Sql.CODE_LEN, Sql.put_config. tx.
  match goal with |- context [Sql.rotation_chars 6 ?d ?t] => destruct (rotation_chars_spec 6 d t) as (r' & t' & Hgen & Hsup) end.
  rewrite Hgen.
  destruct r' as [x|code]; simpl; intros [= <- <- <-].
  { unfold budget in Hb. destruct total; [|done]. destruct Hb as [_ Hs]. by destruct (Hsup n Hs) as (_ & c & ?). }
  split; [unfold budget in *; destruct total; [|done]; destruct Hb as [He Hs]; split; [done|]; by apply Hsup in Hs as [? _]|].
  at_now. split; [|done]. split; [|split_and!; [by left|by left|done|intros ep k Hk; by apply Hrd, renewed_mixed]]. do 5 (split; [done|]).
  split; [by exists b', None|]. split; [done|]. unfold tables_of. simpl. by rewrite lookup_insert_ne, lookup_insert_eq by done.
Qed.

Definition begun (old new : list Z) (e : Z) : Cond := fun T m p =>
  migrating old new e (mixed old new e) (mixed old new e) T m p \/ rewrapping old new e T m p \/ committing old new e T m p.
Definition ended (old new : list Z) (e : Z) : Cond := fun T m p => done_with old new e T m p /\ m.1 = old /\ kp_key p = old.

Lemma phase_is_eq pd ph ph' : phase pd = ph -> phase_is pd ph' = bool_decide (ph = ph').
Proof. unfold phase_is. by intros ->. Qed.

Lemma commit_phase old new e n w :
  budget (6 + n) w -> at_ (committing old new e) w ->
  outcome (pd ← read_pending;
    if phase_is pd "committing" then sql "commit rotation: " (Sql.commit_rotation (hash new) (e + 1)) ;; mret tt else mret tt)
    (left_ n (ended old new e)) good w.
Proof.
  intros Hb HJ. apply outcome_bind.
  eapply outcome_mono; [apply (read_pending_outcome (committing old new e) old new e "committing" (6 + n)); eauto; [by intros ??? [Hx _]; split; apply Hx]| |done].
  intros pd w1 (Hb1 & HJ1 & Hp). rewrite (phase_is_eq _ _ _ Hp). simpl. apply outcome_bind.
  eapply outcome_mono; [by apply commit_outcome|by intros|done].
Qed.

Lemma rewrap_phase old new e n w :
  budget (S n) w -> at_ (fun T m p => rewrapping old new e T m p \/ committing old new e T m p) w ->
  outcome (pd ← read_pending;
    if phase_is pd "rewrapping_identity" then
      sql "rewrap identity seed: " (Sql.rewrap_identity_seed old new) ;;
      sql "update phase to committing: " (Sql.update_rotation_phase "committing")
    else mret tt) (left_ n (committing old new e)) good w.
Proof.
  intros Hb [HJ|HJ]; apply outcome_bind.
  - eapply outcome_mono; [apply (read_pending_outcome (rewrapping old new e) old new e "rewrapping_identity" (S n)); eauto; [by intros ??? [Hx _]; split; apply Hx]| |done].
    intros pd w1 (Hb1 & HJ1 & Hp). rewrite (phase_is_eq _ _ _ Hp). simpl. apply outcome_bind.
    eapply outcome_mono; [by apply rewrap_outcome| |done]. intros _ w2 [Hb2 HJ2].
    eapply update_phase_outcome; [exact Hb2|exact HJ2|intros ??? [? _]; eauto|intros ??? [[Hx _] _]; apply Hx|].
    intros T m p x [((H1 & H2 & H3 & H4 & H5 & H6 & H7 & H8 & H9) & Hm) Hs] Hr. by repeat (split; [done|]).
  - eapply outcome_mono; [apply (read_pending_outcome (committing old new e) old new e "committing" (S n)); eauto; [by intros ??? [Hx _]; split; apply Hx]| |done].
    intros pd w1 (Hb1 & HJ1 & Hp). rewrite (phase_is_eq _ _ _ Hp). simpl. apply outcome_ret. split; [|done].
    eapply budget_le; [|done]. lia.
Qed.

Lemma migrate_phase old new e n w :
  budget (size P + size Q + n) w -> at_ (begun old new e) w ->
  outcome (pd ← read_pending;
    if phase_is pd "migrating_psks" then
      migrate_all_psks old new (hash new) (e + 1) ;;
      sql "update phase to rewrapping_identity: " (Sql.update_rotation_phase "rewrapping_identity")
    else mret tt) (left_ n (fun T m p => rewrapping old new e T m p \/ committing old new e T m p)) good w.
Proof.
  assert (Hle : (n <= size P + size Q + n)%nat) by lia.
  intros Hb [HJ|[HJ|HJ]]; apply outcome_bind.
  - eapply outcome_mono; [apply (read_pending_outcome (migrating old new e (mixed old new e) (mixed old new e)) old new e "migrating_psks" (size P + size Q + n)); eauto; [by intros ??? [Hx _]; split; apply Hx]| |done].
    intros pd w1 (Hb1 & HJ1 & Hp). rewrite (phase_is_eq _ _ _ Hp). simpl. apply outcome_bind.
    eapply outcome_mono; [by apply migrate_all_outcome| |done]. intros _ w2 [Hb2 HJ2].
    eapply outcome_mono; [eapply (update_phase_outcome _ (rewrapping old new e)); [exact Hb2|exact HJ2|eauto|intros ??? [Hx _]; apply Hx|]| |done].
    + intros T m p x ((H1 & H2 & H3 & H4 & H5 & H6 & H7 & H8 & H9) & Hm) Hr. by repeat (split; [done|]).
    + intros a w3 [Hb3 HJ3]. split; [done|by left].
  - eapply outcome_mono; [apply (read_pending_outcome (rewrapping old new e) old new e "rewrapping_identity" (size P + size Q + n)); eauto; [by intros ??? [Hx _]; split; apply Hx]| |done].
    intros pd w1 (Hb1 & HJ1 & Hp). rewrite (phase_is_eq _ _ _ Hp). simpl. apply outcome_ret. split; [by eapply budget_le|by left].
  - eapply outcome_mono; [apply (read_pending_outcome (committing old new e) old new e "committing" (size P + size Q + n)); eauto; [by intros ??? [Hx _]; split; apply Hx]| |done].
    intros pd w1 (Hb1 & HJ1 & Hp). rewrite (phase_is_eq _ _ _ Hp). simpl. apply outcome_ret. split; [by eapply budget_le|by right].
Qed.

(** [m; k] as the code writes it, with the first result dropped. *)
Lemma bind_assoc {A B X} (m : Eng A) (k : A -> Eng B) (h : Eng X) w :
  ((m ≫= k) ;; h) w = (m ≫= fun a => k a ;; h) w.
Proof. unfold mbind, eng_bind. by destruct (m w) as [[[x|a]|] w']. Qed.

Lemma outcome_ext {A} (m m' : Eng A) R E w : m w = m' w -> outcome m R E w -> outcome m' R E w.
Proof. unfold outcome. by intros ->. Qed.

Lemma phases_outcome old new e n w :
  budget (size P + size Q + (7 + n)) w -> at_ (begun old new e) w ->
  outcome (execute_rotation_phases old new (hash new) (e + 1)) (left_ n (ended old new e)) good w.
Proof.
  intros Hb HJ. unfold execute_rotation_phases. eapply outcome_ext; [apply bind_assoc|].
  apply outcome_bind. eapply outcome_mono; [by apply (migrate_phase old new e (7 + n))| |done].
  clear w Hb HJ. intros _ w [Hb HJ]. eapply outcome_ext; [apply bind_assoc|].
  apply outcome_bind. eapply outcome_mono; [by apply (rewrap_phase old new e (6 + n))| |done].
  clear w Hb HJ. intros _ w [Hb HJ]. by apply commit_phase.
Qed.

(** ** A whole rotation *)

Lemma budget_any n w : total = false -> budget 0 w -> budget n w.
Proof. unfold budget. by intros ->. Qed.

Definition cleared (new : list Z) (e : Z) : Cond := fun T m p => rest new (e + 1) T /\ kp_key p = new.
Definition provided (old new : list Z) (e : Z) : Cond := fun T m p => done_with old new e T m p /\ kp_key p = new.

Lemma write_pending_outcome k e new n w :
  budget (S n) w -> MK new -> (total = true -> epoch_ok (e + 1)) ->
  at_ (fun T m p => resting k e T m p /\ kp_writable p = true /\ (k_id T ≫= hex_decode) = Some (hash k)) w ->
  outcome (sql "prepare failed: " (Sql.write_pending_rotation new (hash new) (e + 1)))
    (left_ n (noted k new e (mixed k new e) (mixed k new e))) good w.
Proof.
  intros Hb Hnew Htot HJ. eapply outcome_sql; [exact Hb|exact HJ|intros ??? [? _]; eauto..|].
  clear w Hb HJ. intros w r d t Hb (HJ & Hw & Hid) Hr.
  destruct HJ as ((Hk & He & Hno & Hph & Hsd & Hrot & Hep) & Hm & Hkp & _). simpl in Hrot, Hid, Hm.
  revert Hr. unfold encrypt_blob, fill. tx.
  destruct (tape (w_sql w)) as [|bs t'] eqn:Ht; simpl; [intros [= <- <- <-]; by eapply budget_nil|].
  destruct (Z.ltb_spec (e + 1) (2 ^ 63)) as [Hlt|Hge]; simpl.
  2:{ intros [= <- <- <-]. destruct total; [|done]. destruct (Htot eq_refl). lia. }
  rewrite Hrot. simpl. intros [= <- <- <-]. split; [by eapply budget_cons|]. at_now. split; [|done].
  unfold epoch_ok in *. do 2 (split; [done|]). split; [done|]. split; [unfold epoch_ok; lia|].
  assert (Hl : forall ep k', under k e ep k' -> mixed k new e ep k') by (by left).
  split; [by eapply rows_weaken; [exact Hl|]|]. split; [by eapply rows_weaken; [exact Hl|]|].
  split; [done|]. split; [|done]. eexists (resize 12 0 bs), _. split; [apply length_resize|]. simpl. by rewrite Hm.
Qed.

Lemma write_key_outcome old new e n w :
  budget n w -> at_ (done_with old new e) w -> outcome (write_master_key new) (fun _ w' => budget n w' /\ at_ (provided old new e) w' /\ mem_of (w_sql w') = mem_of (w_sql w)) good w.
Proof.
  intros Hb HJ. eapply (outcome_point _ n (fun T m p => done_with old new e T m p /\ m = mem_of (w_sql w))); [done|by split|by intros ??? [? _]; eauto..|].
  intros w' Hb' [(Hc & Hm & Hk & Hw & Hrd) HM]. rewrite Hw. split; [done|]. split; [|done]. split; [|done]. split; [done|].
  split; [done|]. split; [by right|done].
Qed.

Lemma delete_outcome old new e (M : Mem -> Prop) n prefix w :
  budget n w -> at_ (provided old new e) w -> M (mem_of (w_sql w)) ->
  outcome (sql prefix Sql.delete_pending_rotation) (left_ n (fun T m p => cleared new e T m p /\ M m))
    (fun T m p => provided old new e T m p /\ M m) w.
Proof.
  intros Hb HJ HM. eapply (outcome_sql _ _ n (fun T m p => provided old new e T m p /\ M m)); [done|by split|done|intros ??? [[? _] _]; eauto|].
  clear w Hb HJ HM. intros w r d t Hb [[((H1 & H2 & H3 & Hno & Hph & Hsd & Hrec & Hep) & _) Hk] HM]. tx. intros [= <- <- <-].
  split; [by apply budget_same|]. at_now. split; [|done]. split; [|done]. do 2 (split; [done|]).
  assert (Hu : forall ep k, renewed new e ep k -> under new (e + 1) ep k) by (intros ?? [-> ->]; split; [lia|done]).
  split; [by eapply rows_weaken; [exact Hu|exact Hno]|]. split; [by eapply rows_weaken; [exact Hu|exact Hph]|]. done.
Qed.

(** A rotation, or what is left of it once its phases are through. *)
Definition rotated (new : list Z) (e : Z) (n : nat) (w : World) : Prop :=
  budget n w /\ at_ good w /\ (total = true -> at_ (resting new (e + 1)) w).

Lemma finish_outcome {A} old new e n (K : Eng A) R w :
  budget n w -> at_ (ended old new e) w -> (forall w', rotated new e n w' -> outcome K R good w') ->
  outcome (write_master_key new ;; try (sql "" Sql.delete_pending_rotation) ;;
    in_memory (Sql.swap_master_key new) ;; in_memory Sql.clear_rotation_new_key ;; K) R good w.
Proof.
  intros Hb (HJ & Hm & Hk) HK. apply outcome_bind. eapply outcome_mono; [by apply (write_key_outcome old new e n)| |done].
  intros [] w1 (Hb1 & HJ1 & Hm1). apply outcome_bind.
  eapply (outcome_mono _ (fun r w2 => budget n w2 /\
    match r with inr _ => at_ (cleared new e) w2 | inl _ => total = false /\ at_ (provided old new e) w2 end) _ good); [eapply outcome_try| |done].
  { eapply outcome_mono; [by apply (delete_outcome old new e (fun _ => True))| |done]. intros a w2 [Hb2 [HJ2 _]]. done. }
  { intros x w2 Ht Hb2 [HJ2 _]. split; [by apply budget_any|done]. }
  intros r w2 [Hb2 HJ2]. do 2 (apply outcome_bind, outcome_in_memory). apply HK.
  split; [done|]. unfold at_ in *. simpl. destruct r as [x|[]].
  - destruct HJ2 as [Ht ((Hc & _ & Hkp & Hw & _) & Hk2)]. split; [|by rewrite Ht]. eapply (done_good old new e).
    split_and!; [done|by right|done..|]. by intros ep k [_ ->].
  - destruct HJ2 as [Hr Hk2]. assert (Hrest : resting new (e + 1) (tables_of (conn (w_sql w2))) (new, None) (w_provider w2)).
    { split_and!; [done..|]. by intros ep k [_ ->]. }
    split; [by eapply resting_good|done].
Qed.

(** ** Closures that change no key *)

Definition keeps_tables {A} (m : Tx A) (d : Db) : Prop :=
  forall t, exists r d', m d t = (r, (d', t)) /\ tables_of d' = tables_of d.

(** Only reads. *)
Definition reads_only {A} (m : Tx A) : Prop := forall d t, exists r, m d t = (r, (d, t)).

Lemma reads_bind {A B} (m : Tx A) (k : A -> Tx B) : reads_only m -> (forall a, reads_only (k a)) -> reads_only (m ≫= k).
Proof. intros Hm Hk d t. unfold mbind, tx_bind. destruct (Hm d t) as [[x|a] ->]; [by eexists|apply Hk]. Qed.
Lemma reads_ret {A} (a : A) : reads_only (mret a).
Proof. by intros d t; eexists. Qed.
Lemma reads_fail {A} msg : reads_only (tx_fail (A := A) msg).
Proof. by intros d t; eexists. Qed.
Lemma reads_get : reads_only tx_get.
Proof. by intros d t; eexists. Qed.
Lemma reads_res {A} (r : StorageError + A) : reads_only (tx_res r).
Proof. by intros d t; eexists. Qed.
Lemma reads_some {A} (o : option A) msg : reads_only (tx_some o msg).
Proof. destruct o; [apply reads_ret|apply reads_fail]. Qed.

#[local] Hint Resolve reads_bind reads_ret reads_fail reads_get reads_res reads_some : core.

Lemma reads_keeps {A} (m : Tx A) d : reads_only m -> keeps_tables m d.
Proof. intros Hm t. destruct (Hm d t) as [r ->]. by eexists _, d. Qed.

Lemma reads_load_identity s : reads_only (Sql.load_identity_tx s).
Proof.
  apply reads_bind; [auto|]. intros d. case_match; [|auto]. case_match; [auto|].
  apply reads_bind; [auto|]. intros sd'. cbv zeta. repeat case_match; apply reads_ret || apply reads_fail.
Qed.

Lemma reads_escrow rows : reads_only (Sql.rows_to_escrow rows).
Proof.
  induction rows as [|[id r] rows IH]; simpl; [auto|]. apply reads_bind; [|auto]. unfold Sql.row_to_escrow.
  repeat (apply reads_bind; [auto|intros]). auto.
Qed.

Lemma outcome_try_steady {A} prefix (f : SqliteStorage -> Tx A) n J (E : Cond) w :
  budget n w -> at_ J w -> (forall T m p, J T m p -> durable T p) -> (forall s, keeps_tables (f s) (conn s)) ->
  outcome (try (sql prefix (with_conn f))) (left_ n J) E w.
Proof.
  intros Hb HJ HD Hf. eapply outcome_try_point; [done..| |by split]. intros w' Hb' HJ'. unfold with_conn.
  destruct (Hf (w_sql w') (tape (w_sql w'))) as (r & d' & -> & HT). unfold left_, at_, budget in *.
  destruct r; simpl; [done|]. by rewrite HT.
Qed.

(** ** The identifier of the key *)

Definition restamped (e : Z) (m : list Z) (T T' : KeyTables) : Prop :=
  (forall S : Z -> list Z -> Prop, (forall ep k, S ep k -> S e k) -> nodes_open T S -> nodes_open T' S) /\
  (forall S : Z -> list Z -> Prop, (forall ep k, S ep k -> S e k) -> phones_open T S -> phones_open T' S) /\
  k_identity T' = k_identity T /\ k_rotation T' = k_rotation T /\ k_epoch T' = k_epoch T /\ k_id T' = Some (hex_encode (hash m)).

Lemma rows_restamp {I A} `{Countable I} dec keys (f : A -> list Z * Z) (g : A -> A) (t : gmap I A) (S : Z -> list Z -> Prop) e :
  (forall a, f (g a) = f a \/ f (g a) = ((f a).1, e)) -> epoch_ok e -> (forall ep k, S ep k -> S e k) ->
  rows_open dec keys (f <$> t) S -> rows_open dec keys (f <$> (g <$> t)) S.
Proof.
  intros Hg He HS Hr id. specialize (Hr id). rewrite !lookup_fmap in *. destruct (t !! id) as [a|]; simpl in *; [|done].
  destruct (Hg a) as [->| ->]; [done|]. destruct (f a) as [b ep]. destruct (keys !! id); [|done]. simpl.
  destruct Hr as (k & Hk & _ & Hd). exists k. unfold epoch_ok in He. split_and!; [by eapply HS|lia|lia|done].
Qed.

Lemma init_id_outcome prefix (J J' : Cond) e n w :
  budget n w -> at_ J w -> (forall T m p, J T m p -> good T m p) ->
  (forall T m p, J T m p -> k_epoch T = Some (to_string e) /\ epoch_ok e) ->
  (forall T m p, J T m p -> (k_id T ≫= hex_decode) = Some (hash m.1) -> J' T m p) ->
  (forall T T' m p, J T m p -> (k_id T ≫= hex_decode) <> Some (hash m.1) -> restamped e m.1 T T' -> J' T' m p) ->
  outcome (sql prefix Sql.init_master_key_id)
    (fun r w' => r = (hash (master_key (w_sql w')), e) /\ budget n w' /\ at_ J' w') good w.
Proof.
  intros Hb HJ HG He Hsame Hupd. eapply outcome_sql; [done..|eauto|]. clear w Hb HJ. intros w r d t Hb HJ Hr.
  destruct (He _ _ _ HJ) as [Hep Hok]. simpl in Hep. revert Hr. tx. rewrite Hep. tx.
  rewrite parse_to_string by (unfold epoch_ok, uN in *; lia). simpl.
  destruct (Z.eqb_spec e 0); [unfold epoch_ok in Hok; lia|]. simpl.
  case_bool_decide as Hid; simpl.
  - intros [= <- <- <-]. split; [done|]. split; [by apply budget_same|]. apply (Hsame _ _ _ HJ). exact Hid.
  - destruct (Z.ltb_spec e (2 ^ 63)); [|unfold epoch_ok in Hok; lia]. simpl. intros [= <- <- <-].
    split; [done|]. split; [by apply budget_same|]. at_now. eapply (Hupd _ _ _ _ HJ); [exact Hid|].
    split_and!; try done; simpl.
    + intros S HS Hn. apply (rows_restamp _ _ _ (Sql.stamp_node (hash (master_key (w_sql w))) e) _ _ e); [|done..].
      intros a. unfold Sql.stamp_node. destruct (Sql.stale_stamp _ _ _ _); simpl; [by right|by left].
    + intros S HS Hn. apply (rows_restamp _ _ _ (Sql.stamp_phone (hash (master_key (w_sql w))) e) _ _ e); [|done..].
      intros a. unfold Sql.stamp_phone. destruct (Sql.stale_stamp _ _ _ _); simpl; [by right|by left].
    + by rewrite lookup_insert_eq, Hep.
    + by rewrite lookup_insert_ne, lookup_insert_eq by done.
Qed.

(** ** A rotation from its record to its end *)

Definition turned (new : list Z) (e : Z) : Cond := fun T m p => good T m p /\ (total = true -> resting new (e + 1) T m p).

Lemma emit_all_outcome l (R : unit -> World -> Prop) E w :
  (forall w', w_sql w' = w_sql w -> w_provider w' = w_provider w -> w_events w' = w_events w -> R tt w') -> outcome (emit_all l) R E w.
Proof.
  revert w. induction l as [|x l IH]; intros w HR; simpl; [by apply outcome_ret, HR|].
  apply outcome_bind, outcome_mod, IH. intros w' H1 H2 H3. by apply HR.
Qed.

Lemma emit_outcome new e n epoch id w :
  rotated new e n w -> outcome (emit_post_rotation_state epoch id) (fun _ => rotated new e n) good w.
Proof.
  intros (Hb & Hg & Ht). apply outcome_bind, outcome_mod, outcome_bind.
  eapply outcome_mono; [apply (outcome_try_steady _ _ n (turned new e) good)| |done].
  - done.
  - by split.
  - intros T m p [? _]. eauto.
  - intros s. apply reads_keeps, reads_bind; [auto|]. intros d. apply reads_escrow.
  - intros r w1 (Hb1 & Hg1 & Ht1). destruct r as [x|nodes]; [by apply outcome_ret|]. apply emit_all_outcome.
    intros w2 H1 H2 H3. unfold rotated, budget, at_ in *. by rewrite H1, H2, H3.
Qed.

Lemma set_new_key_outcome old new e N F n w :
  budget n w -> at_ (noted old new e N F) w ->
  outcome (in_memory (Sql.set_rotation_new_key new (e + 1))) (left_ n (migrating old new e N F)) good w.
Proof.
  intros Hb (Hp & Hm & Hk & Hw). apply outcome_in_memory. split; [done|]. split_and!; [done..|].
  intros ep k [[Hle ->]|[-> ->]]; unfold mem_of in *; simpl in *; rewrite Z.geb_leb; [|by rewrite Z.leb_refl].
  by destruct (Z.leb_spec (e + 1) ep); [lia|].
Qed.

Lemma execute_rotation_outcome k e dr n w :
  budget (S (size P + size Q + (7 + n))) w -> MK (new_master_key dr) -> (total = true -> epoch_ok (e + 1)) ->
  at_ (fun T m p => resting k e T m p /\ kp_writable p = true /\ (k_id T ≫= hex_decode) = Some (hash k)) w ->
  outcome (execute_rotation dr (e + 1) e) (fun _ => rotated (new_master_key dr) e n) good w.
Proof.
  intros Hb Hnew Htot HJ. unfold execute_rotation. apply outcome_bind. change (outcome eng_get ?R ?E w) with (R w w).
  cbv beta zeta. assert (Hm : master_key (w_sql w) = k) by apply HJ. rewrite Hm.
  apply outcome_bind. eapply outcome_mono; [by apply (write_pending_outcome k e)| |done]. intros a w1 [Hb1 HJ1].
  apply outcome_bind. eapply outcome_mono; [by eapply set_new_key_outcome| |done]. intros b w2 [Hb2 HJ2].
  apply outcome_bind. eapply outcome_mono; [apply (phases_outcome k (new_master_key dr) e n); [done|by left]| |done].
  intros c w3 [Hb3 HJ3]. eapply finish_outcome; [exact Hb3|exact HJ3|]. intros w4 H4. by apply emit_outcome.
Qed.

(** ** Recovery *)

Definition record_is (old new : list Z) (e : Z) (pd : PendingRow) : Prop :=
  new_epoch pd = e + 1 /\ new_master_key_id pd = hash new /\
  exists nonce, length nonce = 12%nat /\ new_master_key_enc pd = nonce ++ seal old nonce PENDING_ROTATION_AAD new.

Lemma pending_opens old new e pd :
  MK old -> MK new -> record_is old new e pd ->
  decrypt_pending_new_key old (new_master_key_enc pd) = inr new /\
  (old <> new -> exists x, decrypt_pending_new_key new (new_master_key_enc pd) = inl x).
Proof.
  intros Ho Hn (_ & _ & nonce & Hl & ->). split; [by apply decrypt_sealed; [|apply HMK32]|].
  intros Hne. apply decrypt_rejected; [|done]. by apply HMK.
Qed.

(** What recovery and start-up lead to. *)
Definition settled : Cond := fun T m p => good T m p /\ (total = true -> exists k e, Aim k e /\ resting k e T m p).

Lemma rotated_settled new e n w : Aim new (e + 1) -> rotated new e n w -> budget n w /\ at_ settled w.
Proof. intros Ha (Hb & Hg & Ht). split; [done|]. split; [done|]. intros Htt. exists new, (e + 1). split; [done|by apply Ht]. Qed.

Lemma continue_outcome old new e pd n w :
  budget (size P + size Q + (7 + n)) w -> at_ (begun old new e) w -> record_is old new e pd -> Aim new (e + 1) ->
  outcome (continue_rotation pd) (left_ n settled) good w.
Proof.
  intros Hb HJ Hpd Ha. unfold continue_rotation. apply outcome_bind. change (outcome eng_get ?R ?E w) with (R w w). cbv beta.
  assert (Hk : MK old /\ MK new /\ master_key (w_sql w) = old /\ reads_right (mem_of (w_sql w)) (mixed old new e)).
  { destruct HJ as [((?&?&?) & ? & ? & ? & ?)|[((?&?&?) & ? & ? & ? & ?)|((?&?&?) & _ & ? & ? & ? & ?)]]; done. }
  destruct Hk as (Ho & Hn & Hm & Hrd). rewrite Hm. destruct (pending_opens old new e pd Ho Hn Hpd) as [-> _].
  destruct Hpd as (-> & -> & _).
  apply outcome_bind, outcome_in_memory. set (w1 := set_sql _ _).
  assert (HJ1 : at_ (begun old new e) w1).
  { assert (Hr1 : reads_right (mem_of (w_sql w1)) (mixed old new e)).
    { intros ep k [[Hle ->]|[-> ->]]; unfold mem_of in *; simpl in *; rewrite Z.geb_leb; [|by rewrite Z.leb_refl].
      by destruct (Z.leb_spec (e + 1) ep); [lia|]. }
    destruct HJ as [(? & ? & ? & ? & _)|[(? & ? & ? & ? & _)|(? & ? & ? & ? & ? & _)]]; [left|right;left|right;right]; by split_and!. }
  apply outcome_bind. eapply outcome_mono; [by apply (phases_outcome old new e n)| |done].
  intros c w3 [Hb3 HJ3]. eapply finish_outcome; [exact Hb3|exact HJ3|]. intros w4 H4. apply outcome_ret. by eapply rotated_settled.
Qed.

(** After a committed rotation the new key in memory reads every row. *)
Lemma swapped_reads m new e ks : reads_right (m, ks) (renewed new e) -> reads_right (new, ks) (under new (e + 1)).
Proof.
  intros Hr ep k [Hle ->]. specialize (Hr (e + 1) new (conj eq_refl eq_refl)). unfold row_decrypt_key in *. simpl in *.
  destruct ks as [[nk ne]|]; [|done]. destruct (Z.geb_spec ep ne); [|done]. by destruct (Z.geb_spec (e + 1) ne); [|lia].
Qed.

(** The committed rotation, from memory with the key of the provider. *)
Lemma finish_committed_outcome old new e pd n w :
  budget n w -> at_ (fun T m p => done_with old new e T m p /\ kp_key p = m.1) w -> record_is old new e pd -> Aim new (e + 1) ->
  outcome (finish_committed pd) (left_ n settled) good w.
Proof.
  intros Hb HJ Hpd Ha. unfold finish_committed, load_master_key. apply outcome_bind.
  eapply (outcome_point _ n (fun T m p => done_with old new e T m p /\ kp_key p = m.1)); [done..|by intros ??? [? _]; eauto|by intros ??? [? _]; eauto|].
  clear w Hb HJ. intros w Hb [HJ Hkm]. apply outcome_bind. change (outcome eng_get ?R ?E w) with (R w w). cbv beta.
  pose proof HJ as ((Ho & Hn & _) & Hm & Hk & Hw & Hrd). unfold mem_of in Hm, Hkm. simpl in Hm, Hkm. rewrite <- Hkm in Hm.
  destruct (pending_opens old new e pd Ho Hn Hpd) as [Hopen Hrej].
  assert (Hto : forall w1, budget n w1 -> at_ (provided old new e) w1 ->
    outcome (sql "delete pending_rotation: " Sql.delete_pending_rotation ;; in_memory (Sql.swap_master_key new) ;; mret (complete_of pd))
      (left_ n settled) good w1).
  { intros w1 Hb1 HJ1. apply outcome_bind.
    eapply outcome_mono; [apply (delete_outcome old new e (fun m => reads_right m (renewed new e))); [done..|apply HJ1]| |by intros ??? [[? _] _]; eauto].
    intros a w2 (Hb2 & (Hr2 & Hk2) & Hrd2). apply outcome_bind, outcome_in_memory, outcome_ret. split; [done|].
    assert (Hrest : at_ (resting new (e + 1)) (set_sql w2 (Sql.swap_master_key new (w_sql w2)))).
    { split_and!; [done..|]. by eapply swapped_reads. }
    split; [by eapply resting_good|]. intros _. by exists new, (e + 1). }
  destruct (decide (old = new)) as [->|Hne].
  - assert (Hmn : master_key (w_sql w) = new) by (rewrite <- Hkm; by destruct Hm). rewrite Hmn, Hopen.
    apply outcome_bind. rewrite bool_decide_true by (by rewrite Hkm, Hmn). apply outcome_ret, Hto; [done|]. split; [done|].
    by rewrite Hkm, Hmn.
  - destruct Hm as [Hm|Hm]; rewrite Hkm in Hm; rewrite Hm.
    + rewrite Hopen. rewrite bool_decide_false by (by rewrite Hkm, Hm). apply outcome_bind.
      eapply outcome_mono; [by apply (write_key_outcome old new e n)| |done]. intros a w1 (Hb1 & HJ1 & _). by apply Hto.
    + destruct (Hrej Hne) as [x ->]. rewrite Hkm, Hm. apply outcome_bind, outcome_in_memory.
      set (w1 := set_sql _ _). assert (Hprov : at_ (provided old new e) w1).
      { split; [|by rewrite <- Hm, <- Hkm]. unfold w1, mem_of. simpl. unfold mem_of in HJ. by rewrite Hm in HJ. }
      apply outcome_bind.
      eapply outcome_mono; [apply (delete_outcome old new e (fun m => m = mem_of (w_sql w1))); done| |by intros ??? [[? _] _]; eauto].
      intros a w2 (Hb2 & (Hr2 & Hk2) & Hm2). apply outcome_ret. split; [done|].
      assert (Hrest : at_ (resting new (e + 1)) w2).
      { split_and!; [done|by rewrite Hm2|done|]. rewrite Hm2. by eapply swapped_reads. }
      split; [by eapply resting_good|]. intros _. by exists new, (e + 1).
Qed.

Lemma good_record T m p :
  good T m p ->
  (exists k e, resting k e T m p) \/
  (exists old new e, begun old new e T m p) \/ (exists old new e, done_with old new e T m p).
Proof.
  intros [?|(old & new & e & [?|[?|[?|?]]])]; [by left|right; left; exists old, new, e..|right; right; by exists old, new, e].
  - by left.
  - by right; left.
  - by right; right.
Qed.

Lemma read_record_outcome (J : Cond) prefix old new e n w :
  budget n w -> at_ J w -> (forall T m p, J T m p -> good T m p) ->
  (forall T m p, J T m p -> exists ph, record_of old new e ph T /\ epoch_ok (e + 1)) ->
  outcome (sql prefix Sql.read_pending_rotation) (fun o w' => budget n w' /\ at_ J w' /\ exists pd, o = Some pd /\ record_is old new e pd) good w.
Proof.
  intros Hb HJ HG HR. apply outcome_read with (J := J) (S := fun o _ => exists pd, o = Some pd /\ record_is old new e pd); eauto.
  intros s t p Hj. destruct (HR _ _ _ Hj) as (ph & (nonce & at0 & Hl & Hrot) & He1). simpl in Hrot. tx. rewrite Hrot. simpl.
  rewrite hash_len. simpl. rewrite epoch_to_uint by done. simpl. eexists. split; [done|]. eexists. split; [done|].
  split_and!; [done..|]. by exists nonce.
Qed.

Lemma read_epoch_outcome (J : Cond) prefix e n w :
  budget n w -> at_ J w -> (forall T m p, J T m p -> good T m p) ->
  (forall T m p, J T m p -> epoch_ok e /\ k_epoch T = Some (to_string e)) ->
  outcome (sql prefix Sql.get_master_key_epoch) (fun x w' => budget n w' /\ at_ J w' /\ x = e) good w.
Proof.
  intros Hb HJ HG HR. apply outcome_read with (J := J) (S := fun x _ => x = e); eauto.
  intros s t p Hj. destruct (HR _ _ _ Hj) as [He Hep]. simpl in Hep. tx. rewrite Hep.
  rewrite parse_to_string by (unfold epoch_ok, uN in *; lia). by eexists.
Qed.

Lemma resume_outcome n w :
  budget (size P + size Q + (7 + n)) w -> at_ (fun T m p => good T m p /\ kp_key p = m.1 /\ forall k e, leads_to T k e -> Aim k e) w ->
  outcome resume_pending_rotation (left_ n settled) good w.
Proof.
  assert (Hle : (n <= size P + size Q + (7 + n))%nat) by lia.
  intros Hb (HG & Hkm & Ha). unfold resume_pending_rotation. apply outcome_bind.
  destruct (good_record _ _ _ HG) as [(k & e & HJ)|[(old & new & e & HJ)|(old & new & e & HJ)]].
  - eapply outcome_mono; [apply outcome_read with (J := resting k e) (E := good) (S := fun o _ => o = None); eauto| |done].
    + intros s t p ((_ & _ & _ & _ & _ & Hrot & _) & _). simpl in Hrot. tx. rewrite Hrot. by eexists.
    + intros o w1 (Hb1 & HJ1 & ->). apply outcome_ret. split; [by eapply budget_le|]. split; [by eapply resting_good|]. intros _. exists k, e. split; [|done]. apply Ha. left. apply HJ.
  - assert (Haim : Aim new (e + 1)).
    { apply Ha. right. destruct HJ as [[Hx _]|[[Hx _]|[Hx _]]]; eexists old, e, _; (split; [done|apply Hx]). }
    assert (Hpend : forall T m p, begun old new e T m p -> good T m p /\ (exists ph, record_of old new e ph T /\ epoch_ok (e + 1)) /\
      epoch_ok e /\ k_epoch T = Some (to_string e)).
    { intros T m p Hx. split; [destruct Hx as [?|[?|?]]; eauto|].
      destruct Hx as [[Hx _]|[[Hx _]|[Hx _]]]; (split; [eexists; split; apply Hx|split; apply Hx]). }
    eapply outcome_mono; [apply (read_record_outcome (begun old new e) _ old new e _ _ Hb HJ); intros ??? [? [? ?]]%Hpend; done| |done].
    intros o w1 (Hb1 & HJ1 & pd & -> & Hpd). apply outcome_bind.
    eapply outcome_mono; [apply (read_epoch_outcome (begun old new e) _ e _ _ Hb1 HJ1); intros ??? [? [? ?]]%Hpend; done| |done].
    intros x w2 (Hb2 & HJ2 & ->). destruct Hpd as (Hpe & Hpd). rewrite Hpe, Z.gtb_ltb.
    destruct (Z.ltb_spec (e + 1) e); [lia|]. destruct (Z.eqb_spec e (e + 1)); [lia|]. by eapply continue_outcome.
  - assert (Haim : Aim new (e + 1)) by (apply Ha; right; eexists old, e, _; split; [done|apply HJ]).
    set (J := (fun T m p => done_with old new e T m p /\ kp_key p = m.1) : Cond). assert (HJ0 : at_ J w) by done.
    assert (Hpend : forall T m p, J T m p -> good T m p /\ (exists ph, record_of old new e ph T /\ epoch_ok (e + 1)) /\
      epoch_ok (e + 1) /\ k_epoch T = Some (to_string (e + 1))).
    { intros T m p [Hx _]. split; [eauto|]. destruct Hx as [Hx _]. split; [eexists; split; apply Hx|split; apply Hx]. }
    eapply outcome_mono; [apply (read_record_outcome J _ old new e _ _ Hb HJ0); intros ??? [? [? ?]]%Hpend; done| |done].
    intros o w1 (Hb1 & HJ1 & pd & -> & Hpd). apply outcome_bind.
    eapply outcome_mono; [apply (read_epoch_outcome J _ (e + 1) _ _ Hb1 HJ1); intros ??? [? [? ?]]%Hpend; done| |done].
    intros x w2 (Hb2 & HJ2 & ->). pose proof Hpd as (Hpe & _). rewrite Hpe, Z.gtb_ltb, Z.ltb_irrefl, Z.eqb_refl.
    eapply finish_committed_outcome; [by eapply budget_le|exact HJ2|done..].
Qed.

(** ** Start-up *)

Lemma settled_good T m p : settled T m p -> good T m p.
Proof. by intros [? _]. Qed.
#[local] Hint Resolve settled_good : core.

Lemma generate_outcome (J : Cond) n w :
  budget (2 + n) w -> at_ J w -> (forall T m p, J T m p -> good T m p) -> outcome generate_identity (left_ n J) good w.
Proof.
  intros Hb HJ HG. unfold outcome, generate_identity, fill. tx.
  destruct (tape (w_sql w)) as [|b1 [|b2 t]] eqn:Ht; simpl.
  - assert (Htt : total = false) by (by eapply budget_nil). split; [done|]. split; [|by apply HG]. unfold budget in *. by destruct total.
  - assert (Htt : total = false) by (unfold budget, supply in Hb; rewrite Ht in Hb; destruct total; [simpl in Hb; lia|done]).
    split; [done|]. split; [|by apply HG]. unfold budget in *. by destruct total.
  - split; [|done]. unfold budget, supply in *. destruct total; [|done]. simpl. rewrite Ht in Hb. simpl in Hb.
    destruct Hb as (He & Hl & Hf). apply list.Forall_cons in Hf as [_ Hf]. apply list.Forall_cons in Hf as [_ Hf].
    split_and!; [done|lia|done].
Qed.

Lemma good_identity T m p : good T m p -> exists b nw, k_identity T = Some (mkIdentityRow b gid (ed25519_public sd) nw).
Proof.
  intros [(k & e & HJ)|[(old & new & e & HJ)|(old & new & e & HJ)]]%good_record.
  - destruct HJ as ((_ & _ & _ & _ & (b & nw & Hid & _) & _) & _). eauto.
  - destruct HJ as [[Hx _]|[[Hx _]|[Hx _]]]; destruct Hx as (_ & _ & _ & _ & _ & _ & (b & nw & Hid & _) & _); eauto.
  - destruct HJ as ((_ & _ & _ & _ & _ & (b & nw & Hid & _) & _) & _). eauto.
Qed.

Lemma load_identity_outcome prefix n w :
  budget n w -> at_ settled w ->
  outcome (sql prefix Sql.load_gateway_identity) (fun o w' => budget n w' /\ at_ settled w' /\ exists i, o = Some i) good w.
Proof.
  intros Hb HJ. apply outcome_read with (J := settled) (S := fun o _ => exists i, o = Some i); eauto.
  intros s t p [HG Ht]. destruct (reads_load_identity s (conn s) t) as [r Hr]. exists r. split; [done|].
  destruct (good_identity _ _ _ HG) as (b & nw & Hid). simpl in Hid. revert Hr. unfold Sql.load_identity_tx. tx. rewrite Hid. simpl.
  rewrite Hgid. simpl. destruct (decrypt_seed (master_key s) b gid) as [x|sd'] eqn:Hd; simpl.
  - intros [= <-]. destruct total; [|done]. destruct (Ht eq_refl) as (k & e & _ & (_ & _ & _ & _ & (b' & nw' & Hid' & Hd') & _) & Hm & _).
    simpl in Hid', Hm. congruence.
  - rewrite Hpub. simpl. case_bool_decide as Hpk; simpl; intros [= <-]; [by eexists|].
    destruct total; [|done]. destruct (Ht eq_refl) as (k & e & _ & (_ & _ & _ & _ & (b' & nw' & Hid' & Hd') & _) & Hm & _).
    simpl in Hid', Hm. congruence.
Qed.

Lemma init_resting_outcome prefix (Pv : KeyProvider -> Prop) k e n w :
  budget n w -> at_ (fun T m p => resting k e T m p /\ Pv p) w ->
  outcome (sql prefix Sql.init_master_key_id) (fun r w' => r = (hash (master_key (w_sql w')), e) /\ budget n w' /\
    at_ (fun T m p => resting k e T m p /\ Pv p /\ (k_id T ≫= hex_decode) = Some (hash k)) w') good w.
Proof.
  intros Hb HJ. apply (init_id_outcome _ (fun T m p => resting k e T m p /\ Pv p)
    (fun T m p => resting k e T m p /\ Pv p /\ (k_id T ≫= hex_decode) = Some (hash k))); [done..|intros ??? [? _]; eauto| | |].
  - intros T m p [((_ & He & _ & _ & _ & _ & Hep) & _) _]. done.
  - intros T m p [HR Hp] Hid. split; [done|]. split; [done|]. destruct HR as (_ & <- & _). done.
  - intros T T' m p [((H1 & H2 & Hno & Hph & (b & nw & Hid & Hsd) & Hrot & Hep) & Hm & Hk & Hrd) Hp] _ (HN & HF & Hi & Hr & He & Hki).
    assert (Hcompat : forall ep k', under k e ep k' -> under k e e k') by (intros ?? [_ ->]; split; [lia|done]).
    split; [|split; [done|by rewrite Hki, <- Hm; simpl; apply hex_back]]. split; [|done]. do 2 (split; [done|]).
    split; [by apply HN|]. split; [by apply HF|]. split; [exists b, nw; by rewrite Hi|]. by rewrite Hr, He.
Qed.

Lemma init_settled_outcome prefix n w :
  budget n w -> at_ settled w -> outcome (sql prefix Sql.init_master_key_id) (fun r w' => budget n w' /\ at_ settled w') good w.
Proof.
  intros Hb [HG Ht].
  assert (Hrest : forall k e, (total = true -> Aim k e) -> at_ (resting k e) w ->
    outcome (sql prefix Sql.init_master_key_id) (fun r w' => budget n w' /\ at_ settled w') good w).
  { intros k e Ha HJ. eapply outcome_mono; [by apply (init_resting_outcome _ (fun _ => True) k e)| |done]. intros r w' (_ & Hb' & HJ' & _).
    split; [done|]. split; [by eapply resting_good|]. intros Htt. exists k, e. split; [by apply Ha|done]. }
  assert (Hset : total = false -> forall w', at_ good w' -> at_ settled w') by (intros Hf w' ?; split; [done|by rewrite Hf]).
  destruct total eqn:Htot; [destruct (Ht eq_refl) as (k & e & Ha & HJ); by eapply Hrest|].
  destruct (good_record _ _ _ HG) as [(k & e & HJ)|[(old & new & e & HJ)|(old & new & e & HJ)]]; [by eapply Hrest|..].
  - eapply outcome_mono; [apply (init_id_outcome _ (begun old new e) (begun old new e) e n)| |done]; try done.
    + intros T m p [?|[?|?]]; eauto.
    + intros T m p [[Hx _]|[[Hx _]|[Hx _]]]; split; apply Hx.
    + intros T T' m p HJ' Hne _. destruct Hne. destruct HJ' as [[Hx [-> _]]|[[Hx [-> _]]|[Hx [_ [-> _]]]]]; apply Hx.
    + intros r w' (_ & Hb' & HJ'). split; [done|]. apply Hset; [done|]. destruct HJ' as [?|[?|?]]; unfold at_; eauto.
  - eapply outcome_mono; [apply (init_id_outcome _ (done_with old new e) (done_with old new e) (e + 1) n)| |done]; eauto.
    + intros T m p [Hx _]; split; apply Hx.
    + intros T T' m p ((H1 & H2 & H3 & Hno & Hph & (b & nw & Hid & Hsd) & (nonce & at0 & Hl & Hrot) & Hep) & Hm) _ (HN & HF & Hi & Hr & He & _).
      assert (Hcompat : forall ep k', renewed new e ep k' -> renewed new e (e + 1) k') by (by intros ?? [_ ->]).
      split; [|done]. do 3 (split; [done|]). split; [by apply HN|]. split; [by apply HF|].
      split; [exists b, nw; by rewrite Hi|]. split; [exists nonce, at0; by rewrite Hr|by rewrite He].
    + intros r w' (_ & Hb' & HJ'). split; [done|]. apply Hset; [done|]. unfold at_; eauto.
Qed.

Lemma tables_set_code d v : tables_of (set_configs d (<["rotation_code"%string := v]> (t_config d))) = tables_of d.
Proof. unfold tables_of. simpl. by rewrite !lookup_insert_ne by done. Qed.

Lemma init_code_outcome (J : Cond) prefix n w :
  budget (6 + n) w -> at_ J w -> (forall T m p, J T m p -> good T m p) ->
  outcome (sql prefix Sql.init_rotation_code) (left_ n J) good w.
Proof.
  intros Hb HJ HG. eapply outcome_sql; [done..|eauto|]. clear w Hb HJ. intros w r d t Hb HJ. tx.
  destruct (t_config (conn (w_sql w)) !! "rotation_code"%string) as [code|] eqn:Hc; simpl.
  - intros [= <- <- <-]. split; [|done]. apply budget_same. eapply budget_le; [|done]. lia.
  - unfold Sql.generate_rotation_code, Sql.CODE_LEN, Sql.put_config. tx.
    destruct (rotation_chars_spec 6 (conn (w_sql w)) (tape (w_sql w))) as (r' & t' & Hgen & Hsup). rewrite Hgen.
    destruct r' as [x|code]; simpl; intros [= <- <- <-].
    { unfold budget in Hb. destruct total; [|done]. destruct Hb as [_ Hs]. by destruct (Hsup n Hs) as (_ & c & ?). }
    split; [unfold budget in *; destruct total; [|done]; destruct Hb as [He Hs]; split; [done|]; by apply Hsup in Hs as [? _]|].
    at_now. by rewrite tables_set_code.
Qed.

Lemma start_outcome n w :
  budget (2 + (size P + size Q + (7 + (6 + n)))) w -> at_ (fun T m p => good T m p /\ kp_key p = m.1 /\ forall k e, leads_to T k e -> Aim k e) w ->
  outcome start (left_ n settled) good w.
Proof.
  set (J := (fun T m p => good T m p /\ kp_key p = m.1 /\ forall k e, leads_to T k e -> Aim k e) : Cond). assert (HJG : forall T m p, J T m p -> good T m p) by (by intros ??? [? _]).
  intros Hb HJ. unfold start. apply outcome_bind.
  eapply outcome_mono; [apply (outcome_try_steady _ _ (2 + (size P + size Q + (7 + (6 + n)))) J good); [done..|eauto|intros s; apply reads_keeps, reads_load_identity]| |done].
  intros r w1 [Hb1 HJ1]. apply outcome_bind.
  assert (Hgen : outcome (match r with inr (Some _) => mret tt | _ => generate_identity ;; mret tt end)
    (left_ (size P + size Q + (7 + (6 + n))) J) good w1).
  { assert (Hg : outcome (generate_identity ;; mret tt) (left_ (A := unit) (size P + size Q + (7 + (6 + n))) J) good w1).
    { apply outcome_bind. eapply outcome_mono; [by apply generate_outcome| |done]. intros i w2 [Hb2 HJ2]. by apply outcome_ret. }
    destruct r as [x|[i|]]; [done| |done]. apply outcome_ret. split; [|done]. eapply budget_le; [|done]. lia. }
  eapply outcome_mono; [exact Hgen| |done]. intros a w2 [Hb2 HJ2]. apply outcome_bind.
  eapply outcome_mono; [by apply (resume_outcome (6 + n))| |done]. intros b w3 [Hb3 HJ3].
  unfold load_or_generate_identity. apply outcome_bind, outcome_bind.
  eapply outcome_mono; [by apply load_identity_outcome| |done]. intros o w4 (Hb4 & HJ4 & i & ->). apply outcome_ret, outcome_bind.
  eapply outcome_mono; [by apply init_settled_outcome| |done]. intros x w5 [Hb5 HJ5]. apply outcome_bind.
  eapply outcome_mono; [apply (init_code_outcome settled _ n); eauto| |done]. intros c w6 [Hb6 HJ6]. apply outcome_bind.
  eapply outcome_mono; [by apply load_identity_outcome| |done]. intros o w7 (Hb7 & HJ7 & i' & ->).
  apply outcome_bind, outcome_ret, outcome_mod. done.
Qed.

(** ** Messages, with faults *)

Section Faults.
Context (Hfaults : total = false).

(** A payload that opens brings one of the master keys. *)
Definition brings (payload : list Z) : Prop := forall secret g e dr,
  decrypt_rotation_payload payload secret g e = Ok dr -> MK (new_master_key dr).

Definition message_ok (x : Message) : Prop :=
  match x with
  | MSubmit payload => brings payload
  | MDesired ds => match ds_rotation_payload ds with Some payload => brings payload | None => True end
  end.

Lemma outcome_err {A} msg (R : A -> World -> Prop) n w : budget n w -> at_ good w -> outcome (eng_err msg) R good w.
Proof using Hfaults. intros Hb HG. split; [done|]. split; [|done]. eapply budget_le; [|done]. lia. Qed.

Lemma now_outcome (R : Z -> World -> Prop) E w :
  (forall t w', w_sql w' = w_sql w -> w_provider w' = w_provider w -> w_events w' = w_events w -> R t w') -> outcome now R E w.
Proof. intros HR. unfold outcome, now. destruct (w_instants w); by apply HR. Qed.

Lemma rate_check_outcome epoch (R : bool -> World -> Prop) E w :
  (forall b w', w_sql w' = w_sql w -> w_provider w' = w_provider w -> w_events w' = w_events w -> R b w') -> outcome (rate_check epoch) R E w.
Proof.
  intros HR. apply outcome_bind, now_outcome. intros t w' H1 H2 H3. apply outcome_bind. change (outcome eng_get ?R ?E w') with (R w' w').
  cbv beta. destruct (check _ _ _) as [b l]. apply outcome_bind, outcome_mod, outcome_ret. by apply HR.
Qed.

Lemma failed_attempt_outcome {A} epoch msg (R : A -> World -> Prop) n w :
  budget n w -> at_ good w -> outcome (record_failure_now epoch ;; eng_err msg) R good w.
Proof using Hfaults.
  intros Hb HG. apply outcome_bind, outcome_bind, now_outcome. intros t w' H1 H2 H3. apply outcome_mod, (outcome_err _ _ n).
  - unfold budget in *. simpl. by rewrite H1, H3.
  - unfold at_ in *. simpl. by rewrite H1, H2.
Qed.

Lemma handle_outcome payload w :
  brings payload -> budget 0 w -> at_ good w -> outcome (handle_rotation_payload payload) (left_ 0 good) good w.
Proof using Hfaults Hpub Hgid HMK HMK32 SHAL AEADL HEXL.
  intros Hbr Hb HG. unfold handle_rotation_payload. apply outcome_bind. change (outcome eng_get ?R ?E w) with (R w w). cbv beta.
  destruct (kp_writable (w_provider w)) eqn:Hw; simpl; [|by eapply outcome_err]. destruct (w_active w); [by eapply outcome_err|].
  set (J := (fun T m p => good T m p /\ kp_writable p = true) : Cond). assert (HJG : forall T m p, J T m p -> good T m p) by (by intros ??? [? _]).
  apply outcome_bind.
  eapply outcome_mono; [apply outcome_read with (n := 0%nat) (J := J) (E := good) (S := fun b T => b = bool_decide (is_Some (k_rotation T))); [done..|eauto|]| |done].
  { intros s t p _. tx. by eexists. }
  intros b w1 (Hb1 & [HG1 Hw1] & ->). case_bool_decide as Hrot; [by eapply outcome_err|].
  destruct (good_record _ _ _ HG1) as [(k & e & HJ)|[(old & new & e & HJ)|(old & new & e & HJ)]].
  2:{ destruct Hrot. destruct HJ as [[Hx _]|[[Hx _]|[Hx _]]]; destruct Hx as (_&_&_&_&_&_&_&(?&?&_&->)&_); by eexists. }
  2:{ destruct Hrot. destruct HJ as ((_&_&_&_&_&_&(?&?&_&->)&_)&_); by eexists. }
  apply outcome_bind.
  eapply outcome_mono; [by apply (init_resting_outcome _ (fun p => kp_writable p = true) k e)| |done].
  intros [id ep] w2 (Hid & Hb2 & HJ2). apply (inj2 pair) in Hid as [_ ->]. apply outcome_bind, rate_check_outcome. intros allowed w3 H1 H2 H3.
  assert (Hb3 : budget 0 w3) by (unfold budget in *; by rewrite H1, H3).
  assert (HJ3 : at_ (fun T m p => resting k e T m p /\ kp_writable p = true /\ (k_id T ≫= hex_decode) = Some (hash k)) w3) by (unfold at_ in *; by rewrite H1, H2).
  assert (HG3 : at_ good w3) by (eapply resting_good; apply HJ3).
  destruct allowed; simpl; [|by eapply outcome_err].
  apply outcome_bind. destruct (to_x25519 (w_identity w)) as [[secret public]|]; simpl; [|by eapply outcome_err]. apply outcome_ret.
  destruct (decrypt_rotation_payload payload secret (gateway_id (w_identity w)) e) as [dr|x| |] eqn:Hd; [|by eapply failed_attempt_outcome..].
  apply outcome_bind. eapply outcome_mono; [eapply (init_code_outcome _ _ 0); [by apply budget_any|exact HJ3|by intros ??? [? _]; eauto]| |done].
  intros code w4 [Hb4 HJ4]. assert (HG4 : at_ good w4) by (eapply resting_good; apply HJ4).
  destruct (negb _); [by eapply failed_attempt_outcome|].
  destruct HJ4 as (Hrest4 & Hx4). assert (He : epoch_ok e) by apply Hrest4.
  rewrite checked_add_lt by (unfold epoch_ok in He; lia). apply outcome_bind, outcome_ret, outcome_bind, outcome_mod, outcome_bind.
  eapply (outcome_mono _ (fun _ => left_ (A := unit) 0 good tt) _ good); [eapply outcome_try| |done].
  - eapply outcome_mono; [apply (execute_rotation_outcome k e dr 0); [by apply budget_any|by eapply Hbr|by rewrite Hfaults|by split]| |done].
    intros [] w5 (Hb5 & HG5 & _). done.
  - by intros.
  - intros r w5 [Hb5 HG5]. apply outcome_bind, outcome_mod. destruct r as [x|[]]; [by eapply outcome_err|by apply outcome_ret].
Qed.

Lemma keeps_set_config k v d : k <> "master_key_id"%string -> k <> "master_key_epoch"%string -> keeps_tables (Sql.put_config k v) d.
Proof. intros H1 H2 t. eexists _, _. split; [done|]. unfold tables_of. simpl. by rewrite !lookup_insert_ne by done. Qed.

Lemma keeps_insert_recovery h id b i e s : keeps_tables ((fun s =>
    if negb (len b =? ENCRYPTED_PSK_LEN) then tx_fail "encrypted_psk must be 60 bytes" else
    if e >? 2 ^ 63 - 1 then tx_fail "master_key_epoch exceeds SQLite integer range" else
    tx_mod (fun d => set_recovery_rows d (<[(h, id) := mkRecoveryRow b i e (db_now s)]> (t_recovery d)))) s) (conn s).
Proof. intros t. destruct (negb _); [by eexists _, _|]. destruct (_ >? _); by eexists _, _. Qed.

Lemma converge_outcome c w : budget 0 w -> at_ good w -> outcome (converge_channel c) (left_ 0 good) good w.
Proof using.
  intros Hb HG. unfold converge_channel. destruct (negb _); [by apply outcome_ret|]. apply outcome_bind.
  eapply outcome_mono; [apply (outcome_try_steady _ _ 0 good good); [done..|eauto|intros s; apply reads_keeps; eauto]| |done].
  intros r w1 [Hb1 HG1]. destruct r as [x|o]; [by apply outcome_ret|]. destruct (_ =? c); [by apply outcome_ret|]. apply outcome_bind.
  eapply outcome_mono; [apply (outcome_try_steady _ _ 0 good good); [done..|eauto|intros s; by apply keeps_set_config]| |done].
  intros r' w2 [Hb2 HG2]. by apply outcome_ret.
Qed.

Lemma insert_recovered_outcome rs id e w : budget 0 w -> at_ good w -> outcome (insert_recovered rs id e) (left_ 0 good) good w.
Proof using.
  revert w. induction rs as [|r rs IH]; intros w Hb HG; simpl; [by apply outcome_ret|]. apply outcome_bind.
  destruct (negb _); [by apply outcome_ret, IH|]. apply outcome_bind.
  eapply outcome_mono; [apply (outcome_try_steady _ _ 0 good good); [done..|eauto|intros s; apply keeps_insert_recovery]| |done].
  intros x w1 [Hb1 HG1]. by apply outcome_ret, IH.
Qed.

Lemma good_settled T m p : good T m p -> settled T m p.
Proof using Hfaults. split; [done|]. by rewrite Hfaults. Qed.

Lemma recovered_outcome rs w : budget 0 w -> at_ good w -> outcome (handle_recovered_psks rs) (left_ 0 good) good w.
Proof using Aim Hfaults HEXL.
  intros Hb HG. unfold handle_recovered_psks. apply outcome_bind.
  eapply (outcome_mono _ (fun _ => left_ (A := unit) 0 good tt) _ good); [eapply outcome_try| |done].
  - eapply outcome_mono; [apply (init_settled_outcome _ 0); [done|by apply good_settled]| |done]. intros r w1 [Hb1 [HG1 _]]. done.
  - by intros.
  - intros [x|[id e]] w1 [Hb1 HG1]; [by apply outcome_ret|by apply insert_recovered_outcome].
Qed.

Lemma desired_outcome ds w :
  message_ok (MDesired ds) -> budget 0 w -> at_ good w -> outcome (handle_desired_state ds) (left_ 0 good) good w.
Proof using Aim Hfaults Hpub Hgid HMK HMK32 SHAL AEADL HEXL.
  intros Hok Hb HG. unfold handle_desired_state. apply outcome_bind. change (outcome eng_get ?R ?E w) with (R w w). cbv beta.
  destruct (negb _); [by apply outcome_ret|]. apply outcome_bind.
  eapply (outcome_mono _ (fun _ => left_ (A := unit) 0 good tt) _ good); [destruct (ds_channel ds); [by apply converge_outcome|by apply outcome_ret]| |done].
  intros changed w1 [Hb1 HG1]. apply outcome_bind.
  eapply (outcome_mono _ (fun _ => left_ (A := unit) 0 good tt) _ good); [| |done].
  { destruct (ds_rotation_payload ds) as [payload|] eqn:Hp; [|by apply outcome_ret]. apply outcome_bind.
    eapply (outcome_mono _ (fun _ => left_ (A := unit) 0 good tt) _ good); [eapply outcome_try; [apply handle_outcome; [|done..]|by intros]| |done].
    - unfold message_ok in Hok. by rewrite Hp in Hok.
    - intros r w2 [Hb2 HG2]. by apply outcome_ret. }
  intros a w2 [Hb2 HG2]. apply outcome_bind.
  eapply (outcome_mono _ (fun _ => left_ (A := unit) 0 good tt) _ good); [destruct changed; [by apply outcome_mod|by apply outcome_ret]| |done].
  intros b w3 [Hb3 HG3]. destruct (ds_recovered_psks ds); [by apply recovered_outcome|by apply outcome_ret].
Qed.

Lemma run_outcome l w : Forall message_ok l -> budget 0 w -> at_ good w -> outcome (run l) (left_ 0 good) good w.
Proof using Aim Hfaults Hpub Hgid HMK HMK32 SHAL AEADL HEXL.
  revert w. induction l as [|x l IH]; intros w Hok Hb HG; simpl; [by apply outcome_ret|].
  apply list.Forall_cons in Hok as [Hx Hok]. destruct x as [payload|ds]; apply outcome_bind.
  - eapply (outcome_mono _ (fun _ => left_ (A := unit) 0 good tt) _ good); [eapply outcome_try; [by apply handle_outcome|by intros]| |done].
    intros r w1 [Hb1 HG1]. by apply IH.
  - eapply outcome_mono; [by apply desired_outcome| |done]. intros a w1 [Hb1 HG1]. by apply IH.
Qed.
End Faults.
End Mode.

(** ** Opening storage *)

#[local] Hint Resolve resting_good migrating_good rewrapping_good committing_good done_good good_durable renewed_mixed : core.

Ltac tx := unfold mbind, tx_bind, mret, tx_ret, tx_get, tx_some, tx_res, tx_fail, tx_mod in *; simpl.

Lemma decrypt_opens k aad b plain :
  decrypt_blob k aad b = inr plain -> len b = ENCRYPTED_PSK_LEN /\ open k (take 12 b) aad (drop 12 b) = Some plain /\ len plain = 32.
Proof.
  intros Hd. destruct (decrypt_len _ _ _ _ Hd) as [Hb Hp]. split_and!; [done| |done]. revert Hd. unfold decrypt_blob, ENCRYPTED_PSK_LEN.
  rewrite Hb. simpl. destruct (open _ _ _ _) as [pl|]; [|done]. destruct (len pl =? 32); congruence.
Qed.

(** Every row is encrypted, so no row is a key in the clear. *)
Lemma nodes_encrypted d S : nodes_open (tables_of d) S -> forall id r, t_nodes d !! id = Some r -> len (row_psk r) = ENCRYPTED_PSK_LEN.
Proof.
  intros Hn id r Hr. destruct (rows_row decrypt_psk P (k_nodes (tables_of d)) S id (row_psk r) (row_epoch r) Hn) as (psk & k & _ & _ & _ & Hd).
  { unfold tables_of. simpl. by rewrite lookup_fmap, Hr. }
  by apply decrypt_len in Hd as [? _].
Qed.

Lemma no_legacy_psks mk d t S : nodes_open (tables_of d) S -> Sql.migrate_legacy_psks mk d t = (inr tt, (d, t)).
Proof.
  intros Hn. unfold Sql.migrate_legacy_psks. tx.
  assert (Hnil : filter (fun x : string * NodeRow => len (row_psk x.2) = 32) (map_to_list (t_nodes d)) = []).
  { apply elem_of_nil_inv. intros [id r] [H32 Hin%elem_of_map_to_list]%list_elem_of_filter. apply (nodes_encrypted _ _ Hn) in Hin.
    unfold ENCRYPTED_PSK_LEN in Hin. simpl in H32. lia. }
  by rewrite Hnil.
Qed.

Lemma validated mk pn d t (S : Z -> list Z -> Prop) :
  nodes_open (tables_of d) S -> (forall ep k, S ep k -> k = mk \/ pn = Some k) ->
  Sql.validate_master_key mk pn d t = (inr tt, (d, t)).
Proof.
  intros Hn HS. unfold Sql.validate_master_key. tx. rewrite bool_decide_eq_false_2.
  2:{ intros ([id r] & Hin%elem_of_map_to_list & Hne & _)%list.Exists_exists. apply Hne. by apply (nodes_encrypted _ _ Hn) in Hin. }
  destruct (filter _ _) as [|[id r] l] eqn:Hf; [done|].
  assert (Hin : (id, r) ∈ filter (fun x : string * NodeRow => len (row_psk x.2) = ENCRYPTED_PSK_LEN) (map_to_list (t_nodes d))) by (rewrite Hf; constructor).
  apply list_elem_of_filter in Hin as [_ Hr%elem_of_map_to_list].
  destruct (rows_row decrypt_psk P (k_nodes (tables_of d)) S id (row_psk r) (row_epoch r) Hn) as (psk & k & _ & Hk & _ & Hd).
  { unfold tables_of. simpl. by rewrite lookup_fmap, Hr. }
  destruct (decrypt_psk mk id (row_psk r)) eqn:Hmk; [|done].
  destruct (HS _ _ Hk) as [->| ->]; [by rewrite Hd in Hmk|by rewrite Hd].
Qed.

(** Under the old key, the pending record gives the new one. *)
Lemma pending_key_loaded old new e ph d t :
  MK new -> record_of old new e ph (tables_of d) -> Sql.load_pending_rotation_key old d t = (inr (Some new), (d, t)).
Proof.
  intros Hn (nonce & at0 & Hl & Hr). unfold Sql.load_pending_rotation_key. tx. simpl in Hr. rewrite Hr. simpl.
  destruct (decrypt_opens _ _ _ _ (decrypt_sealed old PENDING_ROTATION_AAD nonce new Hl (HMK32 _ Hn))) as (Hb & Ho & H32).
  by rewrite Hb, Ho, H32.
Qed.

Lemma pending_key_state old new e ph d t :
  epoch_ok (e + 1) -> record_of old new e ph (tables_of d) ->
  Sql.initial_key_state (Some new) d t = (inr (Some (new, e + 1)), (d, t)).
Proof.
  intros He (nonce & at0 & Hl & Hr). unfold Sql.initial_key_state. tx. simpl in Hr. rewrite Hr. simpl.
  rewrite epoch_to_uint by done. simpl. by rewrite hash_len.
Qed.

(** After the rotation is committed the new key does not open the record, and needs not. *)
Lemma marker_recognised old new e ph d t :
  MK old -> MK new -> new <> old -> epoch_ok (e + 1) -> record_of old new e ph (tables_of d) -> k_epoch (tables_of d) = Some (to_string (e + 1)) ->
  Sql.load_pending_rotation_key new d t = (inr None, (d, t)).
Proof.
  intros Ho Hn Hne He (nonce & at0 & Hl & Hr) Hep. unfold Sql.load_pending_rotation_key. tx. simpl in Hr, Hep. rewrite Hr, Hep. simpl.
  destruct (decrypt_opens _ _ _ _ (decrypt_sealed old PENDING_ROTATION_AAD nonce new Hl (HMK32 _ Hn))) as (Hb & _ & _). rewrite Hb. simpl.
  rewrite <- Hl, take_app_length, drop_app_length, (HMK new old) by done.
  unfold epoch_ok in He. rewrite parse_to_string by (unfold uN; lia). simpl. unfold as_u64.
  rewrite wrap_small by (unfold uN; lia). by rewrite Z.eqb_refl.
Qed.

Definition normalized (d : Db) : Db := set_programs d (Sql.normalize_row <$> t_programs d).

(** What [open] puts in memory beside the key of the provider. *)
Definition key_state_for (T : KeyTables) (p : KeyProvider) (pn : option (list Z)) (ks : option (list Z * Z)) : Prop :=
  good T (kp_key p, ks) p /\ exists S : Z -> list Z -> Prop, nodes_open T S /\ forall ep k, S ep k -> k = kp_key p \/ pn = Some k.

Lemma mixed_reads old new e : reads_right (old, Some (new, e + 1)) (mixed old new e).
Proof.
  intros ep k Hk. unfold row_decrypt_key. simpl. rewrite Z.geb_leb. destruct (Z.leb_spec (e + 1) ep), Hk as [[? ->]|[? ->]]; done || lia.
Qed.

Lemma key_state_pending d t old new e ph p :
  MK new -> epoch_ok (e + 1) -> record_of old new e ph (tables_of d) -> kp_key p = old ->
  key_state_for (tables_of d) p (Some new) (Some (new, e + 1)) ->
  exists pn ks, Sql.load_pending_rotation_key (kp_key p) d t = (inr pn, (d, t)) /\ Sql.initial_key_state pn d t = (inr ks, (d, t)) /\
    key_state_for (tables_of d) p pn ks.
Proof.
  intros Hn He Hr -> Hk. exists (Some new), (Some (new, e + 1)). split; [by eapply pending_key_loaded|]. split; [by eapply pending_key_state|done].
Qed.

Lemma key_state_begun d t old new e p m :
  begun old new e (tables_of d) m p ->
  exists pn ks, Sql.load_pending_rotation_key (kp_key p) d t = (inr pn, (d, t)) /\ Sql.initial_key_state pn d t = (inr ks, (d, t)) /\
    key_state_for (tables_of d) p pn ks.
Proof.
  pose proof (mixed_reads old new e) as Hrd.
  assert (Hm : forall ep k, mixed old new e ep k -> k = old \/ Some new = Some k) by (intros ep k [[_ ->]|[_ ->]]; auto).
  intros [(Hx & _ & Hp & Hw & _)|[(Hx & _ & Hp & Hw & _)|(Hx & Hs & _ & Hp & Hw & _)]]; pose proof Hx as (Ho & Hn & _ & He & Hno & _ & _ & Hr & _);
    (eapply key_state_pending; [exact Hn|exact He|exact Hr|done|]); unfold key_state_for; rewrite Hp; (split; [|eauto]).
  - right. exists old, new, e. left. by split_and!.
  - apply (rewrapping_good old new e). by split_and!.
  - apply (committing_good old new e). by split_and!.
Qed.

Lemma key_state_good d t p :
  durable (tables_of d) p ->
  exists pn ks, Sql.load_pending_rotation_key (kp_key p) d t = (inr pn, (d, t)) /\ Sql.initial_key_state pn d t = (inr ks, (d, t)) /\
    key_state_for (tables_of d) p pn ks.
Proof.
  intros [m HG]. destruct (good_record _ _ _ HG) as [(k & e & HJ)|[(old & new & e & HJ)|(old & new & e & HJ)]].
  - destruct HJ as (Hx & _ & <- & _). exists None, None. pose proof Hx as (_ & _ & Hno & _ & _ & Hr & _).
    split; [unfold Sql.load_pending_rotation_key; tx; simpl in Hr; by rewrite Hr|]. split; [done|]. split.
    + apply (resting_good (kp_key p) e). split_and!; try done. by intros ep k [_ ->].
    + exists (under (kp_key p) e). split; [done|]. intros ep k [_ ->]. by left.
  - by eapply key_state_begun.
  - destruct HJ as (Hx & _ & Hp & Hw & _). pose proof Hx as (Ho & Hn & He & Hno & _ & _ & Hr & Hep).
    destruct (decide (kp_key p = old)) as [Hkp|Hne].
    + eapply key_state_pending; [done..|]. split.
      * apply (done_good old new e). split_and!; try done. intros ep k Hk. rewrite Hkp. by apply mixed_reads, renewed_mixed.
      * exists (renewed new e). split; [done|]. intros ep k [_ ->]. by right.
    + destruct Hp as [?|Hkp]; [done|]. exists None, None.
      split; [rewrite Hkp; eapply (marker_recognised old new e); [done|done|congruence|done..]|]. split; [done|]. unfold key_state_for. rewrite Hkp. split.
      * apply (done_good old new e). split_and!; try done; try by right. by intros ep k [_ ->].
      * exists (renewed new e). split; [done|]. intros ep k [_ ->]. by left.
Qed.

Lemma open_good now d t p :
  durable (tables_of d) p ->
  exists ks, Sql.open_storage (kp_key p) now d t = (inr (mkSqlite (normalized d) (kp_key p) ks t now), normalized d) /\
    good (tables_of d) (kp_key p, ks) p.
Proof.
  intros HD. change (tables_of d) with (tables_of (normalized d)) in HD |- *.
  destruct (key_state_good _ t _ HD) as (pn & ks & Hl & Hi & HG & S & Hno & HS). exists ks. split; [|done].
  unfold Sql.open_storage, Sql.open_checks, Sql.migrate_program_source_filenames, Sql.atomically. tx. fold (normalized d).
  by rewrite (no_legacy_psks _ _ _ S), Hl, (validated _ _ _ _ S), Hi.
Qed.
End Safety.
