(* ===== verification/GwRotationLives.v ===== *)
(** * Lives of a gateway that rotates its master key

    The theorems over whole lives of the process: whatever stops it, and however
    often, a start that is not disturbed ends with every key of nodes and phones and
    the identity readable under the key of the provider; and a rotation that is not
    disturbed ends with the new key in place. *)

From Stdlib Require Import String.
From S2P Require Import Prelude Frame Messages Session GwStore GwState GwSqlite GwRotation GwRotationSafety.
Open Scope list_scope.
Open Scope Z_scope.

(** ** Reading all rows of a table *)

Section Reading.
Context {I R A : Type} `{Countable I} (f : I -> R -> Tx A) (id_of : A -> I) (psk_of : A -> list Z) (keys : gmap I (list Z)).

(** One record for each row that converts. *)
Lemma convert_rows rows d t :
  (forall id r, (id, r) ∈ rows -> exists a, f id r d t = (inr a, (d, t))) ->
  exists l, foldr (fun '(id, r) (k : Tx (list A)) => n ← f id r; l ← k; mret (n :: l)) (mret []) rows d t = (inr l, (d, t)) /\
    Forall2 (fun x a => f x.1 x.2 d t = (inr a, (d, t))) rows l.
Proof.
  unfold mbind, tx_bind, mret, tx_ret. induction rows as [|[id r] rows IH]; intros Hf; [by exists []|].
  destruct (Hf id r ltac:(constructor)) as [a Ha]. destruct IH as (l & Hl & Hall); [intros; apply Hf; by constructor|].
  exists (a :: l). simpl. rewrite Ha, Hl. split; [done|]. by constructor.
Qed.

(** A table whose rows convert to records with the given keys. *)
Lemma convert_table (tab : gmap I R) d t :
  (forall id psk, keys !! id = Some psk -> is_Some (tab !! id)) ->
  (forall id r, tab !! id = Some r -> exists psk n, keys !! id = Some psk /\ f id r d t = (inr n, (d, t)) /\ id_of n = id /\ psk_of n = psk) ->
  exists l, foldr (fun '(id, r) (k : Tx (list A)) => n ← f id r; l ← k; mret (n :: l)) (mret []) (map_to_list tab) d t = (inr l, (d, t)) /\
    forall id psk, keys !! id = Some psk <-> exists n, n ∈ l /\ id_of n = id /\ psk_of n = psk.
Proof.
  intros Hall Hconv. destruct (convert_rows (map_to_list tab) d t) as (l & Hl & Hf2).
  { intros id r Hr%elem_of_map_to_list. destruct (Hconv _ _ Hr) as (psk & n & _ & ? & _). eauto. }
  exists l. split; [done|]. intros id psk. split.
  - intros HP. destruct (Hall _ _ HP) as [r Hr]. destruct (Hconv _ _ Hr) as (psk' & n & HP' & Hn & Hid & Hpsk). simplify_eq.
    apply elem_of_map_to_list, list_elem_of_lookup in Hr as [i Hi]. destruct (Forall2_lookup_l _ _ _ _ _ Hf2 Hi) as (n' & Hi' & Hn').
    simpl in Hn'. rewrite Hn in Hn'. simplify_eq. exists n'. split; [by eapply list_elem_of_lookup_2|done].
  - intros (n & [i Hi]%list_elem_of_lookup & <- & <-). destruct (Forall2_lookup_r _ _ _ _ _ Hf2 Hi) as ([id r] & Hr & Hn).
    apply list_elem_of_lookup_2, elem_of_map_to_list in Hr. destruct (Hconv _ _ Hr) as (psk & n' & HP & Hn' & <- & <-).
    simpl in Hn. rewrite Hn' in Hn. by simplify_eq.
Qed.

(** Every key has its row. *)
Lemma rows_cover {V} dec (g : V -> list Z * Z) (tab : gmap I V) (S : Z -> list Z -> Prop) id psk :
  rows_open dec keys (g <$> tab) S -> keys !! id = Some psk -> is_Some (tab !! id).
Proof. intros Hr Hk. specialize (Hr id). rewrite lookup_fmap, Hk in Hr. destruct (tab !! id); [by eexists|done]. Qed.
End Reading.

Section Lives.
Context {Value : Type} `{C : Cbor Value}.
Context `{SHA : Sha256Provider} `{AEAD : AeadProvider} `{HEX : HexCodec} `{JSON : SensorJson} `{ED : Ed25519} `{RC : RotationCrypto}.
Context `{SHAL : !Sha256Laws SHA} `{AEADL : !AeadLaws AEAD} `{HEXL : !HexLaws HEX}.
Context (P : gmap string (list Z)) (Q : gmap Z (list Z)) (sd gid : list Z) (MK : list Z -> Prop).

(** The columns of a row, its key apart, are in the ranges the record has. *)
Definition node_columns_fit (r : NodeRow) : Prop :=
  is_Some (opt_uint 8 (row_rf_channel r)) /\ is_Some (opt_uint 32 (row_desired_s r)) /\ is_Some (opt_uint 32 (row_phone r)) /\
  is_Some (to_uint 63 (row_key_version r)) /\ is_Some (to_uint 32 (row_schedule_s r)) /\ is_Some (to_uint 16 (row_key_hint r)) /\
  is_Some (opt_uint 32 (row_abi r)).
Definition phone_columns_fit (r : PhoneRow) : Prop :=
  is_Some (Sql.status_of_str (ph_status r)) /\ is_Some (to_uint 16 (ph_key_hint r)) /\ is_Some (to_uint 63 (ph_key_version r)).

(** Storage gives exactly the nodes of [P] and the phones of [Q] with their keys,
    and the identity. *)
Definition serves_nodes (s : SqliteStorage) : Prop :=
  map_Forall (fun _ r => node_columns_fit r) (t_nodes (conn s)) ->
  exists l, (Sql.list_nodes s).1 = inr l /\
    forall id psk, P !! id = Some psk <-> exists n, n ∈ l /\ nr_id n = id /\ nr_psk n = psk.
Definition serves_phones (s : SqliteStorage) : Prop :=
  map_Forall (fun _ r => phone_columns_fit r) (t_phones (conn s)) ->
  exists l, (Sql.list_phone_psks s).1 = inr l /\
    forall id psk, Q !! id = Some psk <-> exists n, n ∈ l /\ phone_id n = id /\ phone_psk n = psk.
Definition serves_identity (s : SqliteStorage) : Prop :=
  (Sql.load_gateway_identity s).1 = inr (Some (from_parts sd gid)).

(** At rest: the key of the provider is the one in memory, no rotation is recorded,
    and everything is readable. *)
Definition in_service (k : list Z) (e : Z) (w : World) : Prop :=
  kp_key (w_provider w) = k /\ master_key (w_sql w) = k /\ t_rotation (conn (w_sql w)) = None /\
  t_config (conn (w_sql w)) !! "master_key_epoch"%string = Some (to_string e) /\
  serves_nodes (w_sql w) /\ serves_phones (w_sql w) /\ serves_identity (w_sql w).

(** Lives of the process, one after the other, on the same disk. *)
Definition lives (xs : list Life) (d : Disk) : Disk := foldl (fun d x => (live x d).2) d xs.

(** A life that may be stopped or meet faults anywhere, and in which other tasks
    register or remove no node and no phone. *)
Definition life_ok (x : Life) : Prop := Forall gentle (life_events x) /\ Forall (message_ok MK) (life_messages x).

(** Enough random bytes for a start that completes a rotation: two draws for an
    identity that is not used, one for each key, one for the seed, six for each code. *)
Definition start_draws : nat := 2 + (size P + size Q + (7 + (6 + 0))).

Definition disk_at_rest (k : list Z) (e : Z) (d : Disk) : Prop :=
  rest P Q sd gid MK k e (tables_of (disk_db d)) /\ kp_key (disk_provider d) = k.

Section Laws.
Context (Hgid : len gid = 16) (Hpub : len (ed25519_public sd) = 32).
Context (HMK : forall a b, MK a -> MK b -> a <> b -> rejects a b).
Context (HMK32 : forall a, MK a -> len a = 32).

(** ** What is at rest is served *)

Ltac tx := unfold mbind, tx_bind, mret, tx_ret, tx_get, tx_some, tx_res, tx_fail, tx_mod in *; simpl.

Lemma node_converts mk rk id r psk d t :
  0 <= row_epoch r < 2 ^ 63 -> decrypt_psk (row_decrypt_key mk rk (row_epoch r)) id (row_psk r) = inr psk -> node_columns_fit r ->
  exists n, row_to_node mk rk id r d t = (inr n, (d, t)) /\ nr_id n = id /\ nr_psk n = psk.
Proof.
  intros He Hd ([? H1] & [? H2] & [? H3] & [? H4] & [? H5] & [? H6] & [? H7]). unfold row_to_node. tx.
  unfold to_uint at 1. destruct (Z.leb_spec 0 (row_epoch r)), (Z.ltb_spec (row_epoch r) (2 ^ 63)); try lia. simpl.
  rewrite Hd, H1, H2, H3, H4, H5, H6, H7. by eexists.
Qed.

Lemma phone_converts mk rk id r psk d t :
  0 <= ph_epoch r < 2 ^ 63 -> decrypt_phone_psk (row_decrypt_key mk rk (ph_epoch r)) id (ph_psk r) = inr psk -> phone_columns_fit r ->
  exists n, Sql.row_to_phone mk rk id r d t = (inr n, (d, t)) /\ phone_id n = id /\ phone_psk n = psk.
Proof.
  intros He Hd ([? H1] & [? H2] & [? H3]). unfold Sql.row_to_phone. tx.
  unfold to_uint at 1. destruct (Z.leb_spec 0 (ph_epoch r)), (Z.ltb_spec (ph_epoch r) (2 ^ 63)); try lia. simpl.
  rewrite Hd, H1, H2, H3. by eexists.
Qed.

Section Served.
Context (k : list Z) (e : Z) (s : SqliteStorage) (p : KeyProvider).
Context (Hrest : resting P Q sd gid MK k e (tables_of (conn s)) (mem_of s) p).

Lemma rest_serves_nodes : serves_nodes s.
Proof using Hrest.
  destruct Hrest as ((_ & _ & Hno & _) & _ & _ & Hrd). intros Hfit.
  destruct (convert_table (row_to_node (master_key s) (rotation_key_state s)) nr_id nr_psk P (t_nodes (conn s)) (conn s) (tape s)) as (l & Hl & Hiff).
  - intros id psk. apply (rows_cover P decrypt_psk (fun r => (row_psk r, row_epoch r)) (t_nodes (conn s)) _ _ _ Hno).
  - intros id r Hr. destruct (rows_row decrypt_psk P _ _ id (row_psk r) (row_epoch r) Hno) as (psk & k' & HP & Hk & He & Hd).
    { simpl. by rewrite lookup_fmap, Hr. }
    apply Hrd in Hk. subst k'. destruct (node_converts _ _ _ _ _ (conn s) (tape s) He Hd (Hfit _ _ Hr)) as (n & ?). eauto 6.
  - exists l. split; [|done]. unfold Sql.list_nodes, with_conn, tx_get, rows_to_nodes. unfold mbind, tx_bind in Hl |- *. by rewrite Hl.
Qed.

Lemma rest_serves_phones : serves_phones s.
Proof using Hrest.
  destruct Hrest as ((_ & _ & _ & Hph & _) & _ & _ & Hrd). intros Hfit.
  destruct (convert_table (Sql.row_to_phone (master_key s) (rotation_key_state s)) phone_id phone_psk Q (t_phones (conn s)) (conn s) (tape s)) as (l & Hl & Hiff).
  - intros id psk. apply (rows_cover Q decrypt_phone_psk (fun r => (ph_psk r, ph_epoch r)) (t_phones (conn s)) _ _ _ Hph).
  - intros id r Hr. destruct (rows_row decrypt_phone_psk Q _ _ id (ph_psk r) (ph_epoch r) Hph) as (psk & k' & HP & Hk & He & Hd).
    { simpl. by rewrite lookup_fmap, Hr. }
    apply Hrd in Hk. subst k'. destruct (phone_converts _ _ _ _ _ (conn s) (tape s) He Hd (Hfit _ _ Hr)) as (n & ?). eauto 6.
  - exists l. split; [|done]. unfold Sql.list_phone_psks, with_conn, tx_get, Sql.rows_to_phones. unfold mbind, tx_bind in Hl |- *. by rewrite Hl.
Qed.

Lemma rest_serves_identity : serves_identity s.
Proof using Hrest Hgid Hpub.
  destruct Hrest as ((_ & _ & _ & _ & (b & nw & Hid & Hd) & _) & Hm & _). simpl in Hid, Hm.
  unfold serves_identity, Sql.load_gateway_identity, with_conn, Sql.load_identity_tx. tx. rewrite Hid. simpl.
  rewrite Hgid. simpl. rewrite Hm, Hd, Hpub. simpl. by rewrite bool_decide_true.
Qed.
End Served.

Lemma rest_in_service k e w : at_ (resting P Q sd gid MK k e) w -> in_service k e w.
Proof using Hgid Hpub.
  intros Hr. pose proof Hr as ((_ & _ & _ & _ & _ & Hrot & Hep) & Hm & Hk & _).
  split_and!; [done..| | |]; [by eapply rest_serves_nodes|by eapply rest_serves_phones|by eapply rest_serves_identity].
Qed.

(** ** One life *)

Abbreviation safe := (fun d => durable P Q sd gid MK (tables_of (disk_db d)) (disk_provider d)).

Lemma boot_good (x : Life) (d : Disk) :
  safe d -> exists s, open_disk x d = inl (boot_world x d s) /\ tape s = life_tape x /\ tables_of (conn s) = tables_of (disk_db d) /\
    good P Q sd gid MK (tables_of (conn s)) (mem_of s) (disk_provider d) /\ kp_key (disk_provider d) = master_key s.
Proof using HMK HMK32 SHAL AEADL.
  intros Hd. destruct (open_good P Q sd gid MK HMK HMK32 (life_now x) _ (life_tape x) _ Hd) as (ks & Ho & HG).
  unfold open_disk. rewrite Ho. by eexists.
Qed.

Lemma live_safe x d : life_ok x -> safe d -> safe (live x d).2.
Proof using HMK HMK32 SHAL AEADL HEXL Hgid Hpub.
  intros [Hev Hmsg] Hd. destruct (boot_good x d Hd) as (s & Ho & _ & HT & HG & Hk). unfold live. rewrite Ho.
  set (w := boot_world x d s). set (Any := fun (_ : list Z) (_ : Z) => True).
  assert (Hout : outcome P Q sd gid MK false (start ;; run (life_messages x)) (left_ (A := unit) false 0 (good P Q sd gid MK)) (good P Q sd gid MK) w).
  { apply outcome_bind. eapply outcome_mono; [apply (start_outcome P Q sd gid MK Hgid Hpub HMK HMK32 false Any 0); done| |done].
    intros [] w1 [Hb1 [HG1 _]]. by apply (run_outcome P Q sd gid MK Hgid Hpub HMK HMK32 false Any). }
  unfold outcome in Hout. destruct ((start ;; run _) w) as [[[z|[]]|] w']; simpl.
  - destruct Hout as (_ & _ & HE). by eexists.
  - destruct Hout as (_ & HE). by eexists.
  - apply Hout.
Qed.

Lemma lives_safe xs d : Forall life_ok xs -> safe d -> safe (lives xs d).
Proof using HMK HMK32 SHAL AEADL HEXL Hgid Hpub.
  revert d. induction xs as [|x xs IH]; intros d Hok Hd; simpl; [done|]. apply list.Forall_cons in Hok as [Hx Hok].
  apply IH; [done|]. by apply live_safe.
Qed.

Lemma at_rest_safe k e d : disk_at_rest k e d -> safe d.
Proof.
  intros [Hr Hk]. exists (k, None). left. exists k, e. split_and!; [done..|]. by intros ep k' [_ ->].
Qed.

(** A start that is not disturbed, from any safe disk. *)
Lemma start_serves x d :
  safe d -> life_events x = [] -> supply start_draws (life_tape x) ->
  exists w0 w k e, open_disk x d = inl w0 /\ start w0 = (Some (inr tt), w) /\
    leads_to P Q sd gid MK (tables_of (disk_db d)) k e /\ MK k /\ in_service k e w.
Proof using HMK HMK32 SHAL AEADL HEXL Hgid Hpub.
  intros Hd Hev Hsup. destruct (boot_good x d Hd) as (s & Ho & Ht & HT & HG & Hk). rewrite <- Ht in Hsup.
  set (w0 := boot_world x d s). pose proof (start_outcome P Q sd gid MK Hgid Hpub HMK HMK32 true (leads_to P Q sd gid MK (tables_of (disk_db d))) 0 w0) as Hout.
  unfold outcome in Hout. destruct (start w0) as [[[z|[]]|] w] eqn:Hst.
  1,3: destruct Hout as [? _]; [done|split_and!; [done..|by intros; rewrite <- HT]|done].
  destruct Hout as (_ & HG' & Hr); [done|split_and!; [done..|by intros; rewrite <- HT]|].
  destruct (Hr eq_refl) as (k & e & Ha & Hrest). exists w0, w, k, e. split_and!; [done..|apply Hrest|by apply rest_in_service].
Qed.

(** ** A rotation that is not disturbed *)

Lemma quiet_sql {A} prefix (op : Op SqliteStorage A) w :
  w_events w = [] ->
  sql prefix op w = (Some (match (op (w_sql w)).1 with inl x => inl (prefix ++ storage_text x)%string | inr a => inr a end), set_sql w (op (w_sql w)).2).
Proof.
  destruct w. simpl. intros ->. unfold sql, point. simpl. by destruct (op w_sql) as [[x|a] s'].
Qed.

Lemma quiet_bind {A B} prefix (op : Op SqliteStorage A) (K : A -> Eng B) w a s :
  w_events w = [] -> op (w_sql w) = (inr a, s) -> (sql prefix op ≫= K) w = K a (set_sql w s).
Proof. intros Hev Hop. unfold mbind, eng_bind. rewrite quiet_sql by done. by rewrite Hop. Qed.

(** The identifier of the key is repaired if need be; the code stays. *)
Lemma init_keeps_code s : t_config (conn (Sql.init_master_key_id s).2) !! "rotation_code"%string = t_config (conn s) !! "rotation_code"%string.
Proof.
  unfold Sql.init_master_key_id, with_conn, Sql.put_config. tx.
  destruct (t_config (conn s) !! "master_key_epoch"%string) as [v|]; simpl.
  - destruct (parse_u64 v) as [x|]; simpl; [|done]. destruct (x =? 0); simpl; destruct (_ || _); simpl; try done.
    + by rewrite !lookup_insert_ne by done.
    + destruct (to_i64 x); simpl; [|done]. by rewrite !lookup_insert_ne by done.
  - destruct (_ || _); simpl; [|done]. by rewrite !lookup_insert_ne by done.
Qed.

Definition rotation_draws : nat := S (size P + size Q + (7 + 0)).

(** What the handler needs of the world. *)
Record ready (k : list Z) (e : Z) (payload : list Z) (dr : DecryptedRotation) (w : World) : Prop := {
  ready_rest : at_ (resting P Q sd gid MK k e) w;
  ready_writable : kp_writable (w_provider w) = true;
  ready_idle : w_active w = false;
  ready_allowed : exists t l, w_instants w = t :: l /\ (check (w_limiter w) t e).1 = true;
  ready_opens : exists secret pub, to_x25519 (w_identity w) = Some (secret, pub) /\
    decrypt_rotation_payload payload secret (gateway_id (w_identity w)) e = Ok dr;
  ready_code : t_config (conn (w_sql w)) !! "rotation_code"%string = Some (rotation_code dr);
  ready_quiet : w_events w = [] /\ supply rotation_draws (tape (w_sql w))
}.

Lemma init_ready k e payload dr w :
  ready k e payload dr w ->
  exists id s, Sql.init_master_key_id (w_sql w) = (inr (id, e), s) /\ ready k e payload dr (set_sql w s) /\
    (k_id (tables_of (conn s)) ≫= hex_decode) = Some (hash k).
Proof using HEXL JSON.
  intros [Hr Hw Hi Ha Ho Hc [Hq Hs]].
  pose proof (init_resting_outcome P Q sd gid MK true "" (fun _ => True) k e rotation_draws w (conj Hq Hs) (conj Hr I)) as Hout.
  unfold outcome in Hout. rewrite quiet_sql in Hout by done. pose proof (init_keeps_code (w_sql w)) as Hkc.
  destruct (Sql.init_master_key_id (w_sql w)) as [[x|[id e']] s]; simpl in Hout, Hkc; [by destruct Hout|].
  destruct Hout as ([= -> ->] & [_ Hs'] & HR & _ & Hid). eexists _, s. split; [done|]. split; [|done].
  constructor; [done..|simpl; congruence|done].
Qed.

(** C19: A rotation request that nothing disturbs is carried through: if storage is
    at rest under master key [k] of epoch [e], the key provider can be written, the
    rate limiter lets the attempt pass, and the payload opens to a new key and the
    stored rotation code, then the handler succeeds, the provider and the process
    hold the new key with epoch [e + 1], no rotation is left pending, and storage
    lists every node and phone with the same key as before and the same identity. *)
Theorem rotation_completes k e payload dr w :
  ready k e payload dr w -> MK (new_master_key dr) -> epoch_ok (e + 1) ->
  exists w', handle_rotation_payload payload w = (Some (inr tt), w') /\ in_service (new_master_key dr) (e + 1) w'.
Proof using SHAL AEADL HEXL Hgid Hpub.
  intros HR Hnew He. destruct (init_ready _ _ _ _ _ HR) as (id & s & Hinit & HR2 & Hid). set (w2 := set_sql w s) in *.
  destruct HR as [(Hrest & _) Hw Hi _ _ _ [Hq _]]. destruct HR2 as [Hr2 _ _ (t & l & Hl & Hal) (secret & pub & Hx & Hd) Hc [_ Hs]].
  assert (Hprog : Sql.is_rotation_in_progress (w_sql w) = (inr false, w_sql w)).
  { destruct Hrest as (_ & _ & _ & _ & _ & Hrot & _). simpl in Hrot. unfold Sql.is_rotation_in_progress, with_conn. tx. rewrite Hrot. by destruct (w_sql w). }
  unfold handle_rotation_payload. unfold mbind at 1, eng_bind at 1, eng_get. rewrite Hw, Hi. simpl.
  rewrite (quiet_bind _ _ _ _ _ _ Hq Hprog). replace (set_sql w (w_sql w)) with w by (by destruct w).
  rewrite (quiet_bind _ _ _ _ _ _ Hq Hinit). fold w2. cbv beta iota.
  set (w3 := set_limiter (set_instants w2 l) (check (w_limiter w) t e).2).
  assert (Hrate : rate_check e w2 = (Some (inr true), w3)).
  { unfold rate_check, now. unfold mbind, eng_bind, mret, eng_ret, eng_get, eng_mod. simpl in Hl |- *. rewrite Hl. simpl.
    simpl in Hal. by rewrite Hal. }
  assert (Hcode : Sql.init_rotation_code (w_sql w3) = (inr (rotation_code dr), w_sql w3)).
  { unfold Sql.init_rotation_code, with_conn. tx. simpl in Hc. rewrite Hc. by destruct s. }
  unfold mbind at 1, eng_bind at 1. rewrite Hrate. simpl. simpl in Hx, Hd. rewrite Hx. unfold mbind at 1, eng_bind at 1. simpl. rewrite Hd.
  rewrite (quiet_bind _ _ _ w3 _ _ Hq Hcode). replace (set_sql w3 (w_sql w3)) with w3 by (by destruct w3).
  rewrite bool_decide_true by done. simpl. rewrite checked_add_lt by (unfold epoch_ok in He; lia).
  pose proof (execute_rotation_outcome P Q sd gid MK Hgid true k e dr 0 (set_active w3 true)) as Hout. unfold outcome in Hout.
  unfold mbind at 1, eng_bind at 1. simpl. unfold mbind at 1, eng_bind at 1. simpl. unfold mbind at 1, eng_bind at 1, try.
  destruct (execute_rotation dr (e + 1) e (set_active w3 true)) as [[[x|[]]|] w4].
  1,3: by destruct Hout as [? _].
  destruct Hout as (_ & _ & Hrest4); [done..|]. eexists. split; [done|]. by apply rest_in_service, Hrest4.
Qed.

(** C7: No crash loses a key.  From a database at rest, take any number of lives of
    the gateway in which rotations are requested and the process is stopped, or an
    access to storage or to the key provider fails, at any points, while other tasks
    write anything but node and phone registrations.  The next start that is not
    disturbed succeeds; it completes the rotation the disk recorded, if any; and
    then the provider holds one of the master keys, under which storage lists
    exactly the nodes and phones there were, with their keys, and the identity. *)
Theorem rotation_crash_safe xs x d k e :
  disk_at_rest k e d -> Forall life_ok xs -> life_events x = [] -> supply start_draws (life_tape x) ->
  exists w0 w k' e', open_disk x (lives xs d) = inl w0 /\ start w0 = (Some (inr tt), w) /\
    leads_to P Q sd gid MK (tables_of (disk_db (lives xs d))) k' e' /\ MK k' /\ in_service k' e' w.
Proof using HMK HMK32 SHAL AEADL HEXL Hgid Hpub.
  intros Hd Hok Hev Hsup. apply start_serves; [|done..]. apply lives_safe; [done|by eapply at_rest_safe].
Qed.
End Laws.
End Lives.
