(* ===== verification/GwRotationDemo.v ===== *)
(** * A gateway that rotates its key, run

    A gateway with one node and one phone under stub libraries: witnesses of the
    theorems about rotation, and the node that registers while a rotation is under
    way. *)

From Stdlib Require Import String.
From S2P Require Import Prelude Frame Messages Session GwStore GwState GwSqlite GwRotation GwRotationSafety GwRotationLives.
From S2P Require Import CborModel CborCompact NodeDemo GwDemo.
Open Scope list_scope.
Open Scope Z_scope.

Module RotationDemo.

(** ** Libraries *)

Definition plain_hex : HexCodec := {| hex_encode := fun b => b; hex_decode := Some |}.
Definition no_json : SensorJson := {| sensors_to_text := fun _ => None; sensors_of_text := fun _ => None |}.
Definition flat_ed25519 : Ed25519 := {| ed25519_public := fun _ => replicate 32 9 |}.
Definition flat_crypto : RotationCrypto := {|
  sha512 := fun b => b ++ b;
  x25519_public := fun b => b;
  diffie_hellman := fun _ _ => replicate 32 1;
  hkdf := fun _ _ _ => replicate 32 0
|}.

#[local] Existing Instance compact_cbor | 0.
#[local] Existing Instance sum_sha | 0.
#[local] Existing Instance keyed_aead | 0.
#[local] Existing Instance plain_hex | 0.
#[local] Existing Instance no_json | 0.
#[local] Existing Instance flat_ed25519 | 0.
#[local] Existing Instance flat_crypto | 0.
#[local] Existing Instance sum_sha_laws | 0.
#[local] Instance plain_hex_laws : HexLaws plain_hex.
Proof. by split. Qed.

(** ** Data *)

Definition K1 : list Z := replicate 32 1.
Definition K2 : list Z := replicate 32 2.
Definition keys (k : list Z) : Prop := k = K1 \/ k = K2.
Definition demo_seed : list Z := replicate 32 5.
Definition demo_gid : list Z := replicate 16 6.
Definition node_psk : list Z := replicate 32 7.
Definition phone_psk : list Z := replicate 32 8.

Definition sealed (k plain : list Z) : list Z := replicate 12 0 ++ plain ++ key_tag k.

Definition demo_row : NodeRow :=
  mkNodeRow 17 (sealed K1 node_psk) None None None 60 None None None None None None 1 (Some (hash K1)) 1.
Definition demo_phone : PhoneRow := mkPhoneRow 18 (sealed K1 phone_psk) [] 0 "active" 1 (Some (hash K1)) 1.
Definition demo_code : list Z := bytes_of "ABC123".
Definition demo_config : gmap string (list Z) :=
  {["master_key_id"%string := hash K1; "master_key_epoch"%string := to_string 1; "rotation_code"%string := demo_code]}.
Definition demo_identity : IdentityRow := mkIdentityRow (sealed K1 demo_seed) demo_gid (replicate 32 9) None.
Definition demo_db (nodes : gmap string NodeRow) (phones : gmap Z PhoneRow) : Db :=
  mkDb nodes phones 1 ∅ (Some demo_identity) demo_config None ∅.
Definition demo_disk : Disk := mkDisk (demo_db {["n1"%string := demo_row]} {[1 := demo_phone]}) (mkProvider K1 true).

Definition plaintext : list Z := cbor_write (CMap [(CInt 1, CBytes K2); (CInt 2, CText demo_code)]).
Definition payload : list Z := [1] ++ replicate 32 3 ++ replicate 12 0 ++ plaintext ++ key_tag (replicate 32 0).

Definition many_bytes : Tape := replicate 40 (replicate 32 0).
Definition a_life (events : list Event) (messages : list Message) : Life := mkLife many_bytes 0 [0; 0; 0; 0] events messages.

(** The accesses of a start, then of a rotation up to the record of its first phase. *)
Definition stopped_life : Life := a_life (replicate 14 Fine ++ [PowerLoss]) [MSubmit payload].

Example stopped_midway :
  let d := (live stopped_life demo_disk).2 in
  kp_key (disk_provider d) = K1 /\ phase <$> t_rotation (disk_db d) = Some "migrating_psks"%string /\
  (row_epoch <$> t_nodes (disk_db d) !! "n1"%string) = Some 2 /\ (ph_epoch <$> t_phones (disk_db d) !! 1) = Some 1.
Proof. vm_compute. done. Qed.

(** ** The hypotheses of the theorems, here *)

Lemma key_tag_apart a b pt : key_tag a <> key_tag b -> open a [] [] (seal b [] [] pt) = None.
Proof. intros Hne. simpl. rewrite length_app, key_tag_len, Nat.add_sub, drop_app_length. by rewrite bool_decide_false. Qed.

Lemma keys_apart a b : keys a -> keys b -> a <> b -> rejects a b.
Proof.
  intros Ha Hb Hne nonce aad pt. change (open a nonce aad (seal b nonce aad pt)) with (open a [] [] (seal b [] [] pt)).
  apply key_tag_apart. by destruct Ha as [-> | ->], Hb as [-> | ->].
Qed.

Lemma keys_32 a : keys a -> len a = 32.
Proof. by intros [-> | ->]. Qed.

Definition demo_P : gmap string (list Z) := {["n1"%string := node_psk]}.
Definition demo_Q : gmap Z (list Z) := {[1 := phone_psk]}.

(** One row, one key. *)
Lemma singleton_open {I} `{Countable I} dec (id : I) b ep psk k (S : Z -> list Z -> Prop) :
  dec k id b = inr psk -> S ep k -> 0 <= ep < 2 ^ 63 -> rows_open dec {[id := psk]} {[id := (b, ep)]} S.
Proof.
  intros Hd HS He j. destruct (decide (j = id)) as [->|Hj]; [|by rewrite !lookup_singleton_ne].
  rewrite !lookup_singleton_eq. by exists k.
Qed.

Lemma demo_at_rest : disk_at_rest demo_P demo_Q demo_seed demo_gid keys K1 1 demo_disk.
Proof.
  split; [|done]. split; [by left|]. split; [done|].
  split; [unfold nodes_open; change (k_nodes _) with (((fun r => (row_psk r, row_epoch r)) <$> ({["n1"%string := demo_row]} : gmap string NodeRow)));
    rewrite map_fmap_singleton; by apply (singleton_open _ _ _ _ _ K1)|].
  split; [unfold phones_open; change (k_phones _) with (((fun r => (ph_psk r, ph_epoch r)) <$> ({[1 := demo_phone]} : gmap Z PhoneRow)));
    rewrite map_fmap_singleton; by apply (singleton_open _ _ _ _ _ K1)|].
  split; [by eexists _, _|]. by split.
Qed.

Lemma payload_brings : brings keys payload.
Proof.
  intros secret g e dr Hd. right.
  assert (decrypt_rotation_payload payload secret g e = Ok (mkDecrypted K2 demo_code)) as Heq by (vm_compute; done).
  rewrite Heq in Hd. by injection Hd as <-.
Qed.

Lemma stopped_life_ok : life_ok keys stopped_life.
Proof. split; [by repeat constructor|]. constructor; [apply payload_brings|constructor]. Qed.

(** The process is stopped between the rows; the next start completes the rotation. *)
Lemma rotation_crash_safe_witness :
  let d := lives [stopped_life] demo_disk in
  (kp_key (disk_provider d) = K1 /\ phase <$> t_rotation (disk_db d) = Some "migrating_psks"%string) /\
  exists w0 w k' e', open_disk (a_life [] []) d = inl w0 /\ GwRotation.start w0 = (Some (inr tt), w) /\
    leads_to demo_P demo_Q demo_seed demo_gid keys (tables_of (disk_db d)) k' e' /\ keys k' /\
    in_service demo_P demo_Q demo_seed demo_gid k' e' w.
Proof.
  split; [by vm_compute|].
  apply (rotation_crash_safe (ED := flat_ed25519) demo_P demo_Q demo_seed demo_gid keys eq_refl eq_refl keys_apart keys_32 [stopped_life] (a_life [] []) demo_disk K1 1).
  - apply demo_at_rest.
  - constructor; [apply stopped_life_ok|constructor].
  - done.
  - split; [vm_compute; lia|]. by apply Forall_replicate.
Defined.

(** The gateway at rest, before a rotation. *)
Definition demo_world : World :=
  mkWorld (mkSqlite (disk_db demo_disk) K1 None many_bytes 0) (mkProvider K1 true) limiter_new false
    (from_parts demo_seed demo_gid) [0; 0] [] [].

Lemma demo_ready : ready demo_P demo_Q demo_seed demo_gid keys K1 1 payload (mkDecrypted K2 demo_code) demo_world.
Proof.
  constructor; try done.
  - split; [apply demo_at_rest|]. split; [done|]. split; [done|]. by intros ep k [_ ->].
  - by exists 0, [0].
  - eexists _, _. split; vm_compute; reflexivity.
  - split; [done|]. split; [vm_compute; lia|]. by apply Forall_replicate.
Qed.

Lemma rotation_completes_witness : exists w',
  handle_rotation_payload payload demo_world = (Some (inr tt), w') /\ in_service demo_P demo_Q demo_seed demo_gid K2 2 w'.
Proof.
  apply (rotation_completes (ED := flat_ed25519) demo_P demo_Q demo_seed demo_gid keys eq_refl eq_refl K1 1 payload (mkDecrypted K2 demo_code)).
  - apply demo_ready.
  - by right.
  - done.
Defined.

(** ** A node registers while the keys are migrated *)

Definition late_node : NodeRecord := mkNodeRecord "late" 19 (replicate 32 4) None None None 60 None None None [] None 1.
Definition empty_disk : Disk := mkDisk (demo_db ∅ ∅) (mkProvider K1 true).
Definition late_life : Life := a_life (replicate 12 Fine ++ [Other (TInsertNode late_node)]) [MSubmit payload].
Definition late_disk : Disk := (live late_life empty_disk).2.

(** A node that registers after the engine has listed the rows to migrate keeps
    its key under the old master key.  Nothing fails in this life: the process goes
    on, the rotation is complete and no longer recorded, the provider holds the new
    key and the node is in the table; but no later start gets past opening storage,
    which finds a row it cannot decrypt. *)
Lemma late_registration_locks_out :
  (live late_life empty_disk).1 = Some (inr tt) /\ kp_key (disk_provider late_disk) = K2 /\
  t_rotation (disk_db late_disk) = None /\ is_Some (t_nodes (disk_db late_disk) !! "late"%string) /\
  forall x, exists d, open_disk x late_disk = inr d.
Proof.
  split; [by vm_compute|]. split; [by vm_compute|]. split; [by vm_compute|]. split; [vm_compute; by eexists|].
  intros x. unfold open_disk. eexists. vm_compute. reflexivity.
Qed.
End RotationDemo.
