(* ===== verification/GwBundle.v ===== *)
(** * State bundles

    The encrypted CBOR bundle with which an operator moves the state of a gateway
    ([sonde-gateway/src/state_bundle.rs]): the encoders of nodes, programs, the
    identity, phones and handlers, their decoders, and the two functions that
    encrypt and decrypt a bundle; and what [SqliteStorage] keeps of an imported one
    ([GwSqlite.Sql.replace_state]).

    A decoder of the source is a loop over the pairs of a map with mutable
    variables; here the variables are a record and the loop is [fold_map].  Times
    are nanoseconds since the epoch, durations nanoseconds.  Buffers are zeroed
    after use in the source, which no caller can observe. *)

From Stdlib Require Import String.
From S2P Require Import Prelude Frame Messages BoardLayout GwStore GwState GwSqlite GwRotation GwRotationSafety.
Open Scope list_scope.
Open Scope Z_scope.

(** ** Constants *)

Definition MAGIC : list Z := bytes_of "SNDESTAT".
Definition FORMAT_VERSION : Z := 1.
Definition PBKDF2_ITERATIONS : Z := 100000.
Definition SALT_LEN : nat := 16.
Definition NONCE_LEN : nat := 12.
Definition HEADER_LEN : Z := 8 + 4 + Z.of_nat SALT_LEN + Z.of_nat NONCE_LEN.
Definition GCM_TAG_LEN : Z := 16.

Definition ROOT_KEY_VERSION : Z := 1.
Definition ROOT_KEY_NODES : Z := 2.
Definition ROOT_KEY_PROGRAMS : Z := 3.
Definition ROOT_KEY_IDENTITY : Z := 4.
Definition ROOT_KEY_PHONE_PSKS : Z := 5.
Definition ROOT_KEY_HANDLERS : Z := 6.
Definition NODE_KEY_ID : Z := 1.
Definition NODE_KEY_HINT : Z := 2.
Definition NODE_KEY_PSK : Z := 3.
Definition NODE_KEY_ASSIGNED_HASH : Z := 4.
Definition NODE_KEY_CURRENT_HASH : Z := 5.
Definition NODE_KEY_SCHEDULE : Z := 6.
Definition NODE_KEY_FW_ABI : Z := 7.
Definition NODE_KEY_BATTERY : Z := 8.
Definition NODE_KEY_LAST_SEEN : Z := 9.
Definition NODE_KEY_RF_CHANNEL : Z := 10.
Definition NODE_KEY_SENSORS : Z := 11.
Definition NODE_KEY_REGISTERED_BY : Z := 12.
Definition NODE_KEY_BATTERY_HISTORY : Z := 13.
Definition NODE_KEY_FW_VERSION : Z := 14.
Definition NODE_KEY_DESIRED_SCHEDULE : Z := 15.
Definition NODE_KEY_KEY_VERSION : Z := 16.
Definition PROG_KEY_HASH : Z := 1.
Definition PROG_KEY_IMAGE : Z := 2.
Definition PROG_KEY_SIZE : Z := 3.
Definition PROG_KEY_PROFILE : Z := 4.
Definition PROG_KEY_ABI : Z := 5.
Definition PROG_KEY_SRC_FILENAME : Z := 6.
Definition PROG_KEY_DECODER_IMAGE : Z := 7.
Definition IDENT_KEY_SEED : Z := 1.
Definition IDENT_KEY_GATEWAY_ID : Z := 2.
Definition PHONE_KEY_HINT : Z := 1.
Definition PHONE_KEY_PSK : Z := 2.
Definition PHONE_KEY_LABEL : Z := 3.
Definition PHONE_KEY_ISSUED_AT : Z := 4.
Definition PHONE_KEY_STATUS : Z := 5.
Definition PHONE_KEY_KEY_VERSION : Z := 6.
Definition HANDLER_KEY_MATCHERS : Z := 1.
Definition HANDLER_KEY_COMMAND : Z := 2.
Definition HANDLER_KEY_ARGS : Z := 3.
Definition HANDLER_KEY_REPLY_TIMEOUT_MS : Z := 4.
Definition HANDLER_KEY_WORKING_DIR : Z := 5.

Inductive BundleError : Type :=
  | EmptyPassphrase
  | BEncode (msg : string)
  | BDecode (msg : string)
  | Crypto
  | Rng
  | InvalidMagic
  | UnsupportedVersion (version : Z)
  | Truncated.

Abbreviation Bun := (Res BundleError).

(** Nodes, programs, identity, phones and handlers. *)
Definition FullState : Type :=
  (list NodeRecord * list ProgramRecord * option GatewayIdentity * list PhonePskRecord * list HandlerConfig)%type.

(** ** Libraries and the language *)

(** [pbkdf2_hmac] with SHA-256 into 32 bytes: passphrase, salt, iterations. *)
Class Pbkdf2 : Type := { pbkdf2_hmac : list Z -> list Z -> Z -> list Z }.

(** [i64::try_from] of a CBOR integer. *)
Definition try_i64 (x : Z) : option Z := if (- 2 ^ 63 <=? x) && (x <? 2 ^ 63) then Some x else None.

(** [getrandom::fill]. *)
Definition getrandom (n : nat) (t : Tape) : Bun (list Z * Tape) :=
  match t with bs :: t' => Ok (resize n 0 bs, t') | [] => Err Rng end.

(** [{b:02x}]. *)
Definition hex_digit (d : Z) : Z := if d <? 10 then 48 + d else 87 + d.
Definition hex_byte (b : Z) : list Z := [hex_digit (b / 16); hex_digit (b mod 16)].
Definition hex_of (bs : list Z) : list Z := concat (hex_byte <$> bs).

(** [char::to_digit(16)]. *)
Definition to_digit (c : Z) : option Z :=
  if (48 <=? c) && (c <=? 57) then Some (c - 48)
  else if (97 <=? c) && (c <=? 102) then Some (c - 87)
  else if (65 <=? c) && (c <=? 70) then Some (c - 55) else None.

(** [u8::from_str_radix] of two characters: a plus sign may come first. *)
Definition u8_of_hex (c d : Z) : option Z :=
  if c =? 43 then to_digit d else a ← to_digit c; b ← to_digit d; Some (16 * a + b).

Fixpoint hex_pairs (s : list Z) : option (list Z) :=
  match s with
  | c :: d :: s' => b ← u8_of_hex c d; l ← hex_pairs s'; Some (b :: l)
  | _ => Some []
  end.

Definition is_ascii (s : list Z) : bool := forallb (fun c => c <? 128) s.

Definition parse_hex_str (s : list Z) : Res string (list Z) :=
  if negb (is_ascii s) then Err ("hex string contains non-ASCII characters: " ++ string_of s)%string else
  if negb (Z.even (len s)) then Err ("hex string has odd length: " ++ string_of s)%string else
  ok_or (hex_pairs s) ("invalid hex character in: " ++ string_of s)%string.

(** [Display] and [from_str_value] of a status. *)
Definition status_text (s : PhonePskStatus) : list Z := bytes_of (Sql.status_str s).
Definition from_str_value (s : list Z) : option PhonePskStatus := Sql.status_of_str (string_of s).

(** [as_millis] and [from_millis]. *)
Definition as_millis (ns : Z) : Z := ns / 1000000.
Definition from_millis (ms : Z) : Z := ms * 1000000.

(** [iter().map(f).collect::<Result<Vec<_>, _>>()]. *)
Fixpoint collect {A B E} (f : A -> Res E B) (l : list A) : Res E (list B) :=
  match l with
  | [] => Ok []
  | x :: l' => let? y := f x in let? ys := collect f l' in Ok (y :: ys)
  end.

Section Codec.
Context {Value : Type} `{C : Cbor Value} `{CS : !CborStream C}.
Context `{Ed25519}.

(** ** Encoding *)

Definition opt_bytes_val (v : option (list Z)) : Value := match v with Some b => VBytes b | None => VNull end.
Definition opt_u32_val (v : option Z) : Value := match v with Some n => VInteger n | None => VNull end.
Definition opt_text_val (v : option (list Z)) : Value := match v with Some s => VText s | None => VNull end.

Definition sensor_to_cbor (s : SensorDescriptor) : Value :=
  VMap ([(VInteger 1, VInteger (sensor_type s)); (VInteger 2, VInteger (sensor_id s))] ++
        match label s with Some l => [(VInteger 3, VText l)] | None => [] end).

Definition sensors_to_cbor (ss : list SensorDescriptor) : Value :=
  match ss with [] => VNull | _ => VArray (sensor_to_cbor <$> ss) end.

Definition node_to_cbor (n : NodeRecord) : Value :=
  VMap
    [(VInteger NODE_KEY_ID, VText (bytes_of (nr_id n)));
     (VInteger NODE_KEY_HINT, VInteger (nr_key_hint n));
     (VInteger NODE_KEY_PSK, VBytes (nr_psk n));
     (VInteger NODE_KEY_ASSIGNED_HASH, opt_bytes_val (assigned_program_hash n));
     (VInteger NODE_KEY_CURRENT_HASH, opt_bytes_val (current_program_hash n));
     (VInteger NODE_KEY_SCHEDULE, VInteger (schedule_interval_s n));
     (VInteger NODE_KEY_DESIRED_SCHEDULE, opt_u32_val (desired_schedule_interval_s n));
     (VInteger NODE_KEY_FW_ABI, opt_u32_val (nr_firmware_abi_version n));
     (VInteger NODE_KEY_RF_CHANNEL, opt_u32_val (rf_channel n));
     (VInteger NODE_KEY_SENSORS, sensors_to_cbor (sensors n));
     (VInteger NODE_KEY_REGISTERED_BY, opt_u32_val (registered_by_phone_id n));
     (VInteger NODE_KEY_FW_VERSION, opt_text_val (nr_firmware_version n));
     (VInteger NODE_KEY_KEY_VERSION, VInteger (nr_key_version n))].

Definition profile_u8 (p : VerificationProfile) : Z := match p with ResidentProfile => 1 | EphemeralProfile => 2 end.

Definition program_to_cbor (p : ProgramRecord) : Value :=
  VMap
    [(VInteger PROG_KEY_HASH, VBytes (p_hash p));
     (VInteger PROG_KEY_IMAGE, VBytes (p_image p));
     (VInteger PROG_KEY_SIZE, VInteger (p_size p));
     (VInteger PROG_KEY_PROFILE, VInteger (profile_u8 (p_profile p)));
     (VInteger PROG_KEY_ABI, opt_u32_val (abi_version p));
     (VInteger PROG_KEY_SRC_FILENAME, opt_text_val (source_filename p));
     (VInteger PROG_KEY_DECODER_IMAGE, opt_bytes_val (decoder_image p))].

Definition identity_to_cbor (i : GatewayIdentity) : Value :=
  VMap [(VInteger IDENT_KEY_SEED, VBytes (seed i)); (VInteger IDENT_KEY_GATEWAY_ID, VBytes (gateway_id i))].

(** Whole seconds; 0 before the epoch. *)
Definition issued_at_s (t : Z) : Z := if t <? 0 then 0 else default 0 (try_i64 (t / 1000000000)).

Definition phone_psk_to_cbor (p : PhonePskRecord) : Value :=
  VMap
    [(VInteger PHONE_KEY_HINT, VInteger (phone_key_hint p));
     (VInteger PHONE_KEY_PSK, VBytes (phone_psk p));
     (VInteger PHONE_KEY_LABEL, VText (phone_label p));
     (VInteger PHONE_KEY_ISSUED_AT, VInteger (issued_at_s (issued_at p)));
     (VInteger PHONE_KEY_STATUS, VText (status_text (phone_status p)));
     (VInteger PHONE_KEY_KEY_VERSION, VInteger (phone_key_version p))].

Definition matcher_text (m : ProgramMatcher) : list Z := match m with Any => bytes_of "*" | Hash bs => hex_of bs end.

Definition handler_config_to_cbor (h : HandlerConfig) : Value :=
  VMap
    ([(VInteger HANDLER_KEY_MATCHERS, VArray ((fun m => VText (matcher_text m)) <$> matchers h));
      (VInteger HANDLER_KEY_COMMAND, VText (bytes_of (command h)))] ++
     match args h with [] => [] | l => [(VInteger HANDLER_KEY_ARGS, VArray ((fun a => VText (bytes_of a)) <$> l))] end ++
     match reply_timeout h with
     | Some t => [(VInteger HANDLER_KEY_REPLY_TIMEOUT_MS, VInteger (Z.min (as_millis t) (2 ^ 63 - 1)))]
     | None => []
     end ++
     match working_dir h with Some d => [(VInteger HANDLER_KEY_WORKING_DIR, VText (bytes_of d))] | None => [] end).

(** The root map: the last three entries only where there is something to say. *)
Definition root_to_cbor (st : FullState) : Value :=
  let '(nodes, programs, identity, phone_psks, handler_configs) := st in
  VMap
    ([(VInteger ROOT_KEY_VERSION, VInteger FORMAT_VERSION);
      (VInteger ROOT_KEY_NODES, VArray (node_to_cbor <$> nodes));
      (VInteger ROOT_KEY_PROGRAMS, VArray (program_to_cbor <$> programs))] ++
     match identity with Some i => [(VInteger ROOT_KEY_IDENTITY, identity_to_cbor i)] | None => [] end ++
     match phone_psks with [] => [] | l => [(VInteger ROOT_KEY_PHONE_PSKS, VArray (phone_psk_to_cbor <$> l))] end ++
     match handler_configs with [] => [] | l => [(VInteger ROOT_KEY_HANDLERS, VArray (handler_config_to_cbor <$> l))] end).

Definition encode_cbor (st : FullState) : Bun (list Z) := map_err BEncode (into_writer (root_to_cbor st)).

(** ** Decoding *)

(** The fields the decoders read, with the messages of a value of another type
    and of one out of range. *)
Definition int_field (w : Z) (v : Value) (range ty : string) : Bun Z :=
  match as_integer v with Some i => ok_or (try_u w i) (BDecode range) | None => Err (BDecode ty) end.
Definition i64_field (v : Value) (range ty : string) : Bun Z :=
  match as_integer v with Some i => ok_or (try_i64 i) (BDecode range) | None => Err (BDecode ty) end.
Definition text_field (v : Value) (ty : string) : Bun (list Z) := ok_or (as_text v) (BDecode ty).
Definition bytes_field (v : Value) (ty : string) : Bun (list Z) := ok_or (as_bytes v) (BDecode ty).
Definition array_field (v : Value) (ty : string) : Bun (list Value) := ok_or (as_array v) (BDecode ty).
Definition fixed_field (n : Z) (v : Value) (size ty : string) : Bun (list Z) :=
  let? b := bytes_field v ty in if negb (len b =? n) then Err (BDecode size) else Ok b.

Definition opt_bytes_from_cbor (v : Value) (field : string) : Bun (option (list Z)) :=
  if is_null v then Ok None else
  match as_bytes v with Some b => Ok (Some b) | None => Err (BDecode (field ++ " must be bytes or null")) end.

(** A text or null, as [program_from_cbor] and [node_from_cbor] read it inline. *)
Definition opt_text_from_cbor (v : Value) (field : string) : Bun (option (list Z)) :=
  if is_null v then Ok None else
  match as_text v with Some s => Ok (Some s) | None => Err (BDecode (field ++ " must be text or null")) end.

Definition opt_u_from_cbor (w : Z) (v : Value) (field range : string) : Bun (option Z) :=
  if is_null v then Ok None else
  res_map Some (int_field w v (field ++ range) (field ++ " must be integer or null")).
Definition opt_u32_from_cbor (v : Value) (field : string) : Bun (option Z) := opt_u_from_cbor 32 v field " out of range".
Definition opt_i64_from_cbor (v : Value) (field : string) : Bun (option Z) :=
  if is_null v then Ok None else
  res_map Some (i64_field v (field ++ " out of range") (field ++ " must be integer or null")).

(** The loop over a map: pairs whose key is no integer, or none of an [i64], are
    passed over. *)
Fixpoint fold_map {A} (step : Z -> Value -> A -> Bun A) (m : list (Value * Value)) (a : A) : Bun A :=
  match m with
  | [] => Ok a
  | (k, v) :: m' =>
      match as_integer k ≫= try_i64 with
      | Some key => let? a' := step key v a in fold_map step m' a'
      | None => fold_map step m' a
      end
  end.

(** An assignment under [if let Some(x)]: otherwise the variable is kept. *)
Definition or_keep {A} (new old : option A) : option A := match new with Some _ => new | None => old end.

(** A sensor: type, identifier, label. *)
Definition sensor_step (key : Z) (v : Value) (a : option Z * option Z * option (list Z)) :
    Bun (option Z * option Z * option (list Z)) :=
  let '(st, si, lb) := a in
  Ok (if key =? 1 then (match as_integer v with Some i => try_u 8 i | None => st end, si, lb)
      else if key =? 2 then (st, match as_integer v with Some i => try_u 8 i | None => si end, lb)
      else if key =? 3 then (st, si, or_keep (as_text v) lb)
      else a).

(** Items that are no sensors are passed over. *)
Fixpoint sensors_from_cbor (arr : list Value) (acc : list SensorDescriptor) : Bun (list SensorDescriptor) :=
  match arr with
  | [] => Ok acc
  | item :: arr' =>
      match as_map item with
      | None => sensors_from_cbor arr' acc
      | Some m =>
          let? '(st, si, lb) := fold_map sensor_step m (None, None, None) in
          sensors_from_cbor arr'
            (match st, si with Some t, Some i => acc ++ [mkSensor t i lb] | _, _ => acc end)
      end
  end.

Record NodeAcc := mkNodeAcc {
  na_node_id : option string;
  na_key_hint : option Z;
  na_psk : option (list Z);
  na_assigned : option (option (list Z));
  na_current : option (option (list Z));
  na_desired : option (option Z);
  na_schedule : option Z;
  na_abi : option (option Z);
  na_channel : option Z;
  na_sensors : list SensorDescriptor;
  na_phone : option Z;
  na_firmware : option (list Z);
  na_key_version : Z
}.

Definition set_na_node_id (a : NodeAcc) x := mkNodeAcc x (na_key_hint a) (na_psk a) (na_assigned a) (na_current a) (na_desired a) (na_schedule a) (na_abi a) (na_channel a) (na_sensors a) (na_phone a) (na_firmware a) (na_key_version a).
Definition set_na_key_hint (a : NodeAcc) x := mkNodeAcc (na_node_id a) x (na_psk a) (na_assigned a) (na_current a) (na_desired a) (na_schedule a) (na_abi a) (na_channel a) (na_sensors a) (na_phone a) (na_firmware a) (na_key_version a).
Definition set_na_psk (a : NodeAcc) x := mkNodeAcc (na_node_id a) (na_key_hint a) x (na_assigned a) (na_current a) (na_desired a) (na_schedule a) (na_abi a) (na_channel a) (na_sensors a) (na_phone a) (na_firmware a) (na_key_version a).
Definition set_na_assigned (a : NodeAcc) x := mkNodeAcc (na_node_id a) (na_key_hint a) (na_psk a) x (na_current a) (na_desired a) (na_schedule a) (na_abi a) (na_channel a) (na_sensors a) (na_phone a) (na_firmware a) (na_key_version a).
Definition set_na_current (a : NodeAcc) x := mkNodeAcc (na_node_id a) (na_key_hint a) (na_psk a) (na_assigned a) x (na_desired a) (na_schedule a) (na_abi a) (na_channel a) (na_sensors a) (na_phone a) (na_firmware a) (na_key_version a).
Definition set_na_desired (a : NodeAcc) x := mkNodeAcc (na_node_id a) (na_key_hint a) (na_psk a) (na_assigned a) (na_current a) x (na_schedule a) (na_abi a) (na_channel a) (na_sensors a) (na_phone a) (na_firmware a) (na_key_version a).
Definition set_na_schedule (a : NodeAcc) x := mkNodeAcc (na_node_id a) (na_key_hint a) (na_psk a) (na_assigned a) (na_current a) (na_desired a) x (na_abi a) (na_channel a) (na_sensors a) (na_phone a) (na_firmware a) (na_key_version a).
Definition set_na_abi (a : NodeAcc) x := mkNodeAcc (na_node_id a) (na_key_hint a) (na_psk a) (na_assigned a) (na_current a) (na_desired a) (na_schedule a) x (na_channel a) (na_sensors a) (na_phone a) (na_firmware a) (na_key_version a).
Definition set_na_channel (a : NodeAcc) x := mkNodeAcc (na_node_id a) (na_key_hint a) (na_psk a) (na_assigned a) (na_current a) (na_desired a) (na_schedule a) (na_abi a) x (na_sensors a) (na_phone a) (na_firmware a) (na_key_version a).
Definition set_na_sensors (a : NodeAcc) x := mkNodeAcc (na_node_id a) (na_key_hint a) (na_psk a) (na_assigned a) (na_current a) (na_desired a) (na_schedule a) (na_abi a) (na_channel a) x (na_phone a) (na_firmware a) (na_key_version a).
Definition set_na_phone (a : NodeAcc) x := mkNodeAcc (na_node_id a) (na_key_hint a) (na_psk a) (na_assigned a) (na_current a) (na_desired a) (na_schedule a) (na_abi a) (na_channel a) (na_sensors a) x (na_firmware a) (na_key_version a).
Definition set_na_firmware (a : NodeAcc) x := mkNodeAcc (na_node_id a) (na_key_hint a) (na_psk a) (na_assigned a) (na_current a) (na_desired a) (na_schedule a) (na_abi a) (na_channel a) (na_sensors a) (na_phone a) x (na_key_version a).
Definition set_na_key_version (a : NodeAcc) x := mkNodeAcc (na_node_id a) (na_key_hint a) (na_psk a) (na_assigned a) (na_current a) (na_desired a) (na_schedule a) (na_abi a) (na_channel a) (na_sensors a) (na_phone a) (na_firmware a) x.

Definition node_acc_new : NodeAcc := mkNodeAcc None None None None None None None None None [] None None 0.

Definition node_step (key : Z) (v : Value) (a : NodeAcc) : Bun NodeAcc :=
  if key =? NODE_KEY_ID then let? s := text_field v "node_id must be text" in Ok (set_na_node_id a (Some (string_of s)))
  else if key =? NODE_KEY_HINT then
    let? h := int_field 16 v "key_hint out of range" "key_hint must be integer" in Ok (set_na_key_hint a (Some h))
  else if key =? NODE_KEY_PSK then
    let? b := fixed_field 32 v "psk must be 32 bytes" "psk must be bytes" in Ok (set_na_psk a (Some b))
  else if key =? NODE_KEY_ASSIGNED_HASH then
    let? h := opt_bytes_from_cbor v "assigned_program_hash" in Ok (set_na_assigned a (Some h))
  else if key =? NODE_KEY_CURRENT_HASH then
    let? h := opt_bytes_from_cbor v "current_program_hash" in Ok (set_na_current a (Some h))
  else if key =? NODE_KEY_SCHEDULE then
    let? i := int_field 32 v "schedule_interval_s out of range" "schedule_interval_s must be integer" in
    Ok (set_na_schedule a (Some i))
  else if key =? NODE_KEY_DESIRED_SCHEDULE then
    let? d := opt_u32_from_cbor v "desired_schedule_interval_s" in Ok (set_na_desired a (Some d))
  else if key =? NODE_KEY_FW_ABI then
    let? x := opt_u32_from_cbor v "firmware_abi_version" in Ok (set_na_abi a (Some x))
  else if key =? NODE_KEY_BATTERY then Ok a
  else if key =? NODE_KEY_LAST_SEEN then let? _ := opt_i64_from_cbor v "last_seen_epoch_s" in Ok a
  else if key =? NODE_KEY_RF_CHANNEL then
    let? c := opt_u_from_cbor 8 v "rf_channel" " out of u8 range" in Ok (set_na_channel a (or_keep c (na_channel a)))
  else if key =? NODE_KEY_SENSORS then
    match as_array v with
    | Some arr => let? ss := sensors_from_cbor arr (na_sensors a) in Ok (set_na_sensors a ss)
    | None => Ok a
    end
  else if key =? NODE_KEY_REGISTERED_BY then
    let? p := opt_u_from_cbor 32 v "registered_by_phone_id" " out of u32 range" in
    Ok (set_na_phone a (or_keep p (na_phone a)))
  else if key =? NODE_KEY_BATTERY_HISTORY then Ok a
  else if key =? NODE_KEY_FW_VERSION then
    let? s := opt_text_from_cbor v "firmware_version" in Ok (set_na_firmware a (or_keep s (na_firmware a)))
  else if key =? NODE_KEY_KEY_VERSION then
    let? k := int_field 64 v "key_version out of range" "key_version must be integer" in Ok (set_na_key_version a k)
  else Ok a.

(** [None] passes, a hash must be 32 bytes. *)
Definition check_hash (h : option (option (list Z))) (field : string) : Bun unit :=
  match h with
  | Some (Some h) =>
      if negb (len h =? 32) then Err (BDecode (field ++ " must be 32 bytes, got " ++ string_of (to_string (len h)))) else Ok tt
  | _ => Ok tt
  end.

Definition flatten {A} (o : option (option A)) : option A := o ≫= id.

Definition node_from_cbor (v : Value) : Bun NodeRecord :=
  let? m := ok_or (as_map v) (BDecode "node entry must be a CBOR map") in
  let? a := fold_map node_step m node_acc_new in
  let? id := ok_or (na_node_id a) (BDecode "missing node_id in node entry") in
  let? hint := ok_or (na_key_hint a) (BDecode "missing key_hint in node entry") in
  let? psk := ok_or (na_psk a) (BDecode "missing psk in node entry") in
  let schedule := default 60 (na_schedule a) in
  let? _ := check_hash (na_assigned a) "assigned_program_hash" in
  let? _ := check_hash (na_current a) "current_program_hash" in
  Ok (mkNodeRecord id hint psk (flatten (na_assigned a)) (flatten (na_current a))
        (match na_desired a with Some d => d | None => Some schedule end) schedule (flatten (na_abi a))
        (na_firmware a) (na_channel a) (na_sensors a) (na_phone a) (na_key_version a)).

Record ProgAcc := mkProgAcc {
  pa_hash : option (list Z);
  pa_image : option (list Z);
  pa_size : option Z;
  pa_profile : option Z;
  pa_abi : option (option Z);
  pa_filename : option (list Z);
  pa_decoder : option (list Z)
}.

Definition set_pa_hash (a : ProgAcc) x := mkProgAcc x (pa_image a) (pa_size a) (pa_profile a) (pa_abi a) (pa_filename a) (pa_decoder a).
Definition set_pa_image (a : ProgAcc) x := mkProgAcc (pa_hash a) x (pa_size a) (pa_profile a) (pa_abi a) (pa_filename a) (pa_decoder a).
Definition set_pa_size (a : ProgAcc) x := mkProgAcc (pa_hash a) (pa_image a) x (pa_profile a) (pa_abi a) (pa_filename a) (pa_decoder a).
Definition set_pa_profile (a : ProgAcc) x := mkProgAcc (pa_hash a) (pa_image a) (pa_size a) x (pa_abi a) (pa_filename a) (pa_decoder a).
Definition set_pa_abi (a : ProgAcc) x := mkProgAcc (pa_hash a) (pa_image a) (pa_size a) (pa_profile a) x (pa_filename a) (pa_decoder a).
Definition set_pa_filename (a : ProgAcc) x := mkProgAcc (pa_hash a) (pa_image a) (pa_size a) (pa_profile a) (pa_abi a) x (pa_decoder a).
Definition set_pa_decoder (a : ProgAcc) x := mkProgAcc (pa_hash a) (pa_image a) (pa_size a) (pa_profile a) (pa_abi a) (pa_filename a) x.

Definition prog_acc_new : ProgAcc := mkProgAcc None None None None None None None.

Definition program_step (key : Z) (v : Value) (a : ProgAcc) : Bun ProgAcc :=
  if key =? PROG_KEY_HASH then let? b := bytes_field v "hash must be bytes" in Ok (set_pa_hash a (Some b))
  else if key =? PROG_KEY_IMAGE then let? b := bytes_field v "image must be bytes" in Ok (set_pa_image a (Some b))
  else if key =? PROG_KEY_SIZE then
    let? n := int_field 32 v "size out of range" "size must be integer" in Ok (set_pa_size a (Some n))
  else if key =? PROG_KEY_PROFILE then
    let? n := int_field 32 v "verification_profile out of range" "verification_profile must be integer" in
    Ok (set_pa_profile a (Some n))
  else if key =? PROG_KEY_ABI then let? x := opt_u32_from_cbor v "abi_version" in Ok (set_pa_abi a (Some x))
  else if key =? PROG_KEY_SRC_FILENAME then let? s := opt_text_from_cbor v "source_filename" in Ok (set_pa_filename a s)
  else if key =? PROG_KEY_DECODER_IMAGE then let? b := opt_bytes_from_cbor v "decoder_image" in Ok (set_pa_decoder a b)
  else Ok a.

Definition profile_of (n : Z) : Bun VerificationProfile :=
  if n =? 1 then Ok ResidentProfile else if n =? 2 then Ok EphemeralProfile
  else Err (BDecode ("unknown verification_profile value: " ++ string_of (to_string n))).

Definition program_from_cbor (v : Value) : Bun ProgramRecord :=
  let? m := ok_or (as_map v) (BDecode "program entry must be a CBOR map") in
  let? a := fold_map program_step m prog_acc_new in
  let? hash := ok_or (pa_hash a) (BDecode "missing hash in program entry") in
  let? image := ok_or (pa_image a) (BDecode "missing image in program entry") in
  let? size := ok_or (pa_size a) (BDecode "missing size in program entry") in
  let? profile_int := ok_or (pa_profile a) (BDecode "missing verification_profile in program entry") in
  if negb (len hash =? 32) then
    Err (BDecode ("program hash must be 32 bytes, got " ++ string_of (to_string (len hash)))) else
  let? image_len := ok_or (try_u 32 (len image))
    (BDecode ("program image too large: " ++ string_of (to_string (len image)) ++ " bytes")) in
  if negb (size =? image_len) then
    Err (BDecode ("program size field (" ++ string_of (to_string size) ++ ") does not match image length (" ++
      string_of (to_string image_len) ++ ")")) else
  let? profile := profile_of profile_int in
  Ok (mkProgram hash image size profile (flatten (pa_abi a)) (pa_filename a) (pa_decoder a)).

Definition identity_step (key : Z) (v : Value) (a : option (list Z) * option (list Z)) : Bun (option (list Z) * option (list Z)) :=
  if key =? IDENT_KEY_SEED then
    let? b := fixed_field 32 v "seed must be 32 bytes" "seed must be bytes" in Ok (Some b, a.2)
  else if key =? IDENT_KEY_GATEWAY_ID then
    let? b := fixed_field 16 v "gateway_id must be 16 bytes" "gateway_id must be bytes" in Ok (a.1, Some b)
  else Ok a.

Definition identity_from_cbor (v : Value) : Bun GatewayIdentity :=
  let? m := ok_or (as_map v) (BDecode "identity must be a CBOR map") in
  let? '(sd, gid) := fold_map identity_step m (None, None) in
  let? sd := ok_or sd (BDecode "missing seed in identity") in
  let? gid := ok_or gid (BDecode "missing gateway_id in identity") in
  Ok (from_parts sd gid).

Record PhoneAcc := mkPhoneAcc {
  fa_hint : option Z;
  fa_psk : option (list Z);
  fa_label : option (list Z);
  fa_issued : option Z;
  fa_status : option PhonePskStatus;
  fa_key_version : Z
}.

Definition set_fa_hint (a : PhoneAcc) x := mkPhoneAcc x (fa_psk a) (fa_label a) (fa_issued a) (fa_status a) (fa_key_version a).
Definition set_fa_psk (a : PhoneAcc) x := mkPhoneAcc (fa_hint a) x (fa_label a) (fa_issued a) (fa_status a) (fa_key_version a).
Definition set_fa_label (a : PhoneAcc) x := mkPhoneAcc (fa_hint a) (fa_psk a) x (fa_issued a) (fa_status a) (fa_key_version a).
Definition set_fa_issued (a : PhoneAcc) x := mkPhoneAcc (fa_hint a) (fa_psk a) (fa_label a) x (fa_status a) (fa_key_version a).
Definition set_fa_status (a : PhoneAcc) x := mkPhoneAcc (fa_hint a) (fa_psk a) (fa_label a) (fa_issued a) x (fa_key_version a).
Definition set_fa_key_version (a : PhoneAcc) x := mkPhoneAcc (fa_hint a) (fa_psk a) (fa_label a) (fa_issued a) (fa_status a) x.

Definition phone_acc_new : PhoneAcc := mkPhoneAcc None None None None None 0.

Definition label_field (v : Value) : Bun (list Z) :=
  let? s := text_field v "label must be text" in
  if len s >? PHONE_LABEL_MAX_BYTES then
    Err (BDecode ("phone label exceeds 64-byte limit: " ++ string_of (to_string (len s)) ++ " bytes")) else Ok s.

Definition phone_step (key : Z) (v : Value) (a : PhoneAcc) : Bun PhoneAcc :=
  if key =? PHONE_KEY_HINT then
    let? h := int_field 16 v "phone_key_hint out of range" "phone_key_hint must be integer" in Ok (set_fa_hint a (Some h))
  else if key =? PHONE_KEY_PSK then
    let? b := fixed_field 32 v "phone psk must be 32 bytes" "phone psk must be bytes" in Ok (set_fa_psk a (Some b))
  else if key =? PHONE_KEY_LABEL then let? s := label_field v in Ok (set_fa_label a (Some s))
  else if key =? PHONE_KEY_ISSUED_AT then
    let? t := i64_field v "issued_at out of range" "issued_at must be integer" in Ok (set_fa_issued a (Some t))
  else if key =? PHONE_KEY_STATUS then
    let? s := text_field v "status must be text" in
    let? st := ok_or (from_str_value s) (BDecode ("unknown phone psk status: " ++ string_of s)) in
    Ok (set_fa_status a (Some st))
  else if key =? PHONE_KEY_KEY_VERSION then
    let? k := int_field 64 v "phone key_version out of range" "phone key_version must be integer" in Ok (set_fa_key_version a k)
  else Ok a.

(** The identifier is given by storage.  A [SystemTime] holds [i64] seconds: the
    addition to the epoch does not overflow. *)
Definition phone_psk_from_cbor (v : Value) : Bun PhonePskRecord :=
  let? m := ok_or (as_map v) (BDecode "phone_psk entry must be a CBOR map") in
  let? a := fold_map phone_step m phone_acc_new in
  let? hint := ok_or (fa_hint a) (BDecode "missing phone_key_hint") in
  let? psk := ok_or (fa_psk a) (BDecode "missing phone psk") in
  let? lb := ok_or (fa_label a) (BDecode "missing phone label") in
  let? issued := ok_or (fa_issued a) (BDecode "missing phone issued_at") in
  let? status := ok_or (fa_status a) (BDecode "missing phone status") in
  Ok (mkPhone 0 hint psk lb (if issued >=? 0 then issued * 1000000000 else 0) status (fa_key_version a)).

Fixpoint matchers_from_cbor (arr : list Value) (acc : list ProgramMatcher) : Bun (list ProgramMatcher) :=
  match arr with
  | [] => Ok acc
  | item :: arr' =>
      let? s := text_field item "handler matcher entries must be text values" in
      if bool_decide (s = bytes_of "*") then matchers_from_cbor arr' (acc ++ [Any]) else
      let? bs := map_err (fun e => BDecode ("invalid hex in handler matcher: " ++ e)) (parse_hex_str s) in
      if negb (len bs =? 32) then
        Err (BDecode ("handler matcher hash must be 32 bytes, got " ++ string_of (to_string (len bs)))) else
      matchers_from_cbor arr' (acc ++ [Hash bs])
  end.

Record HandlerAcc := mkHandlerAcc {
  ha_matchers : list ProgramMatcher;
  ha_command : option string;
  ha_args : list string;
  ha_timeout : option Z;
  ha_dir : option string
}.

Definition set_ha_matchers (a : HandlerAcc) x := mkHandlerAcc x (ha_command a) (ha_args a) (ha_timeout a) (ha_dir a).
Definition set_ha_command (a : HandlerAcc) x := mkHandlerAcc (ha_matchers a) x (ha_args a) (ha_timeout a) (ha_dir a).
Definition set_ha_args (a : HandlerAcc) x := mkHandlerAcc (ha_matchers a) (ha_command a) x (ha_timeout a) (ha_dir a).
Definition set_ha_timeout (a : HandlerAcc) x := mkHandlerAcc (ha_matchers a) (ha_command a) (ha_args a) x (ha_dir a).
Definition set_ha_dir (a : HandlerAcc) x := mkHandlerAcc (ha_matchers a) (ha_command a) (ha_args a) (ha_timeout a) x.

Definition handler_acc_new : HandlerAcc := mkHandlerAcc [] None [] None None.

Definition handler_step (key : Z) (v : Value) (a : HandlerAcc) : Bun HandlerAcc :=
  if key =? HANDLER_KEY_MATCHERS then
    let? arr := array_field v "handler matchers field must be an array" in
    let? ms := matchers_from_cbor arr (ha_matchers a) in Ok (set_ha_matchers a ms)
  else if key =? HANDLER_KEY_COMMAND then
    let? s := text_field v "handler command must be text" in Ok (set_ha_command a (Some (string_of s)))
  else if key =? HANDLER_KEY_ARGS then
    match as_array v with
    | Some arr => Ok (set_ha_args a (ha_args a ++ (string_of <$> omap as_text arr)))
    | None => Ok a
    end
  else if key =? HANDLER_KEY_REPLY_TIMEOUT_MS then
    match as_integer v ≫= try_u 64 with
    | Some ms => if ms >? 0 then Ok (set_ha_timeout a (Some (from_millis ms))) else Ok a
    | None => Ok a
    end
  else if key =? HANDLER_KEY_WORKING_DIR then
    match as_text v with Some s => Ok (set_ha_dir a (Some (string_of s))) | None => Ok a end
  else Ok a.

Definition handler_config_from_cbor (v : Value) : Bun HandlerConfig :=
  let? m := ok_or (as_map v) (BDecode "handler entry must be a CBOR map") in
  let? a := fold_map handler_step m handler_acc_new in
  let? cmd := ok_or (ha_command a) (BDecode "missing command in handler entry") in
  Ok (mkHandlerConfig (ha_matchers a) cmd (ha_args a) (ha_timeout a) (ha_dir a)).

Record RootAcc := mkRootAcc {
  ra_version : option Z;
  ra_nodes : option (list Value);
  ra_programs : option (list Value);
  ra_identity : option Value;
  ra_phones : option (list Value);
  ra_handlers : option (list Value)
}.

Definition set_ra_version (a : RootAcc) x := mkRootAcc x (ra_nodes a) (ra_programs a) (ra_identity a) (ra_phones a) (ra_handlers a).
Definition set_ra_nodes (a : RootAcc) x := mkRootAcc (ra_version a) x (ra_programs a) (ra_identity a) (ra_phones a) (ra_handlers a).
Definition set_ra_programs (a : RootAcc) x := mkRootAcc (ra_version a) (ra_nodes a) x (ra_identity a) (ra_phones a) (ra_handlers a).
Definition set_ra_identity (a : RootAcc) x := mkRootAcc (ra_version a) (ra_nodes a) (ra_programs a) x (ra_phones a) (ra_handlers a).
Definition set_ra_phones (a : RootAcc) x := mkRootAcc (ra_version a) (ra_nodes a) (ra_programs a) (ra_identity a) x (ra_handlers a).
Definition set_ra_handlers (a : RootAcc) x := mkRootAcc (ra_version a) (ra_nodes a) (ra_programs a) (ra_identity a) (ra_phones a) x.

Definition root_acc_new : RootAcc := mkRootAcc None None None None None None.

Definition root_step (key : Z) (v : Value) (a : RootAcc) : Bun RootAcc :=
  if key =? ROOT_KEY_VERSION then
    let? n := int_field 32 v "version out of range" "version must be integer" in Ok (set_ra_version a (Some n))
  else if key =? ROOT_KEY_NODES then let? l := array_field v "nodes must be array" in Ok (set_ra_nodes a (Some l))
  else if key =? ROOT_KEY_PROGRAMS then let? l := array_field v "programs must be array" in Ok (set_ra_programs a (Some l))
  else if key =? ROOT_KEY_IDENTITY then Ok (set_ra_identity a (Some v))
  else if key =? ROOT_KEY_PHONE_PSKS then let? l := array_field v "phone_psks must be array" in Ok (set_ra_phones a (Some l))
  else if key =? ROOT_KEY_HANDLERS then let? l := array_field v "handlers must be array" in Ok (set_ra_handlers a (Some l))
  else Ok a.

(** [map(f).transpose()]. *)
Definition transpose {A B E} (f : A -> Res E B) (o : option A) : Res E (option B) :=
  match o with Some x => res_map Some (f x) | None => Ok None end.

Definition decode_cbor (data : list Z) : Bun FullState :=
  let? root := map_err BDecode (from_reader data) in
  let? m := ok_or (as_map root) (BDecode "root must be a CBOR map") in
  let? a := fold_map root_step m root_acc_new in
  let? version := ok_or (ra_version a) (BDecode "missing version field") in
  if negb (version =? FORMAT_VERSION) then Err (UnsupportedVersion version) else
  let? nodes_arr := ok_or (ra_nodes a) (BDecode "missing nodes field") in
  let? programs_arr := ok_or (ra_programs a) (BDecode "missing programs field") in
  let? nodes := collect node_from_cbor nodes_arr in
  let? programs := collect program_from_cbor programs_arr in
  let? identity := transpose identity_from_cbor (ra_identity a) in
  let? phone_psks := collect phone_psk_from_cbor (default [] (ra_phones a)) in
  let? handler_configs := collect handler_config_from_cbor (default [] (ra_handlers a)) in
  Ok (nodes, programs, identity, phone_psks, handler_configs).

(** ** Encryption *)

Context `{AeadProvider} `{Pbkdf2}.

Definition derive_key (passphrase salt : list Z) : list Z := pbkdf2_hmac passphrase salt PBKDF2_ITERATIONS.

Definition encrypt_state_full (st : FullState) (passphrase : list Z) (rng : Tape) : Bun (list Z) :=
  match passphrase with
  | [] => Err EmptyPassphrase
  | _ =>
      let? plaintext := encode_cbor st in
      let? '(salt, rng) := getrandom SALT_LEN rng in
      let? '(nonce, rng) := getrandom NONCE_LEN rng in
      Ok (MAGIC ++ to_le_bytes 4 FORMAT_VERSION ++ salt ++ nonce ++ seal (derive_key passphrase salt) nonce [] plaintext)
  end.

Definition decrypt_state_full (bundle passphrase : list Z) : Bun FullState :=
  match passphrase with
  | [] => Err EmptyPassphrase
  | _ =>
      if len bundle <? HEADER_LEN + GCM_TAG_LEN then Err Truncated else
      if negb (bool_decide (take 8 bundle = MAGIC)) then Err InvalidMagic else
      let version := from_le_bytes (take 4 (drop 8 bundle)) in
      if negb (version =? FORMAT_VERSION) then Err (UnsupportedVersion version) else
      let salt := take 16 (drop 12 bundle) in
      let nonce := take 12 (drop 28 bundle) in
      let? plaintext := ok_or (open (derive_key passphrase salt) nonce [] (drop (Z.to_nat HEADER_LEN) bundle)) Crypto in
      decode_cbor plaintext
  end.

Definition encrypt_state (nodes : list NodeRecord) (programs : list ProgramRecord) (passphrase : list Z) (rng : Tape) :
    Bun (list Z) := encrypt_state_full (nodes, programs, None, [], []) passphrase rng.

Definition decrypt_state (bundle passphrase : list Z) : Bun (list NodeRecord * list ProgramRecord) :=
  let? '(nodes, programs, _, _, _) := decrypt_state_full bundle passphrase in Ok (nodes, programs).
End Codec.

(** ** Well-formed state *)

(** The ranges of the types, and what the decoders ask of the lengths. *)
Definition opt_ok {A} (P : A -> Prop) (o : option A) : Prop := match o with Some x => P x | None => True end.
Definition hash_ok32 (h : list Z) : Prop := len h = 32.

Definition sensor_wf (s : SensorDescriptor) : Prop := uN 8 (sensor_type s) /\ uN 8 (sensor_id s).

Record node_wf (n : NodeRecord) : Prop := {
  nw_hint : uN 16 (nr_key_hint n);
  nw_psk : len (nr_psk n) = 32;
  nw_assigned : opt_ok hash_ok32 (assigned_program_hash n);
  nw_current : opt_ok hash_ok32 (current_program_hash n);
  nw_desired : opt_ok (uN 32) (desired_schedule_interval_s n);
  nw_schedule : uN 32 (schedule_interval_s n);
  nw_abi : opt_ok (uN 32) (nr_firmware_abi_version n);
  nw_channel : opt_ok (uN 8) (rf_channel n);
  nw_sensors : Forall sensor_wf (sensors n);
  nw_phone : opt_ok (uN 32) (registered_by_phone_id n);
  nw_key_version : uN 64 (nr_key_version n)
}.

Record program_wf (p : ProgramRecord) : Prop := {
  pw_hash : len (p_hash p) = 32;
  pw_size : p_size p = len (p_image p);
  pw_range : uN 32 (p_size p);
  pw_abi : opt_ok (uN 32) (abi_version p)
}.

Definition identity_wf `{Ed25519} (i : GatewayIdentity) : Prop :=
  len (seed i) = 32 /\ len (gateway_id i) = 16 /\ public_key i = ed25519_public (seed i).

Record phone_wf (p : PhonePskRecord) : Prop := {
  fw_hint : uN 16 (phone_key_hint p);
  fw_psk : len (phone_psk p) = 32;
  fw_label : len (phone_label p) <= PHONE_LABEL_MAX_BYTES;
  fw_key_version : uN 64 (phone_key_version p)
}.

Definition matcher_wf (m : ProgramMatcher) : Prop := match m with Any => True | Hash h => len h = 32 /\ bytes_ok h end.
Definition handler_wf (h : HandlerConfig) : Prop := Forall matcher_wf (matchers h) /\ opt_ok (fun t => 0 <= t) (reply_timeout h).

Definition state_wf `{Ed25519} (st : FullState) : Prop :=
  let '(nodes, programs, identity, phones, handlers) := st in
  Forall node_wf nodes /\ Forall program_wf programs /\ opt_ok identity_wf identity /\
  Forall phone_wf phones /\ Forall handler_wf handlers.

(** What a bundle keeps of a phone: whole seconds, and no identifier. *)
Definition bundled_phone (p : PhonePskRecord) : PhonePskRecord :=
  mkPhone 0 (phone_key_hint p) (phone_psk p) (phone_label p) (issued_at_s (issued_at p) * 1000000000)
    (phone_status p) (phone_key_version p).

(** What it keeps of a handler: a timeout in whole milliseconds, none if below one. *)
Definition bundled_timeout (t : Z) : option Z :=
  if t <? 1000000 then None else Some (from_millis (Z.min (as_millis t) (2 ^ 63 - 1))).
Definition bundled_handler (h : HandlerConfig) : HandlerConfig :=
  mkHandlerConfig (matchers h) (command h) (args h) (reply_timeout h ≫= bundled_timeout) (working_dir h).

Definition bundled (st : FullState) : FullState :=
  let '(nodes, programs, identity, phones, handlers) := st in
  (nodes, programs, identity, bundled_phone <$> phones, bundled_handler <$> handlers).

(** ** Strings and hexadecimal *)

Lemma string_of_bytes_of s : string_of (bytes_of s) = s.
Proof.
  unfold string_of, bytes_of. rewrite map_map. induction s as [|c s IH]; [done|]. simpl.
  rewrite N2Z.id, Ascii.ascii_N_embedding. f_equal. exact IH.
Qed.

Lemma to_digit_hex d : 0 <= d < 16 -> to_digit (hex_digit d) = Some d /\ (hex_digit d <? 128) = true /\ hex_digit d <> 43.
Proof.
  intros Hd. unfold to_digit, hex_digit. destruct (Z.ltb_spec d 10); split_and!; try (apply Z.ltb_lt; lia); try lia;
    repeat match goal with |- context [?a <=? ?b] => destruct (Z.leb_spec a b); cbn [andb]; try lia end; f_equal; lia.
Qed.

Lemma hex_pairs_of bs : bytes_ok bs -> hex_pairs (hex_of bs) = Some bs /\ is_ascii (hex_of bs) = true.
Proof.
  intros Hbs. induction Hbs as [|b bs Hb _ [IH1 IH2]]; [done|]. unfold hex_of in *.
  destruct (to_digit_hex (b / 16)) as (D1 & A1 & P1); [split; [apply Z.div_pos|apply Z.div_lt_upper_bound]; unfold uN in Hb; lia|].
  destruct (to_digit_hex (b mod 16)) as (D2 & A2 & _); [apply Z.mod_pos_bound; lia|].
  cbn -[hex_digit Z.div Z.modulo]. unfold u8_of_hex. rewrite (proj2 (Z.eqb_neq _ _) P1), D1. cbn -[hex_digit Z.div Z.modulo Z.mul Z.add].
  rewrite D2. cbn -[hex_digit Z.div Z.modulo Z.mul Z.add]. rewrite IH1. cbn -[hex_digit Z.div Z.modulo Z.mul Z.add].
  unfold is_ascii in *. cbn -[hex_digit Z.div Z.modulo Z.ltb]. rewrite A1, A2, IH2. split; [|done].
  do 2 f_equal. pose proof (Z.div_mod b 16). lia.
Qed.

Lemma len_hex_of bs : len (hex_of bs) = 2 * len bs.
Proof. unfold hex_of. induction bs as [|b bs IH]; [done|]. cbn [fmap list_fmap concat hex_byte app]. rewrite !len_cons, IH. lia. Qed.

Lemma parse_hex_of bs : bytes_ok bs -> parse_hex_str (hex_of bs) = Ok bs.
Proof.
  intros Hbs. destruct (hex_pairs_of bs Hbs) as [H1 H2]. unfold parse_hex_str.
  rewrite H1, H2, len_hex_of, Z.even_mul. done.
Qed.

(** The asterisk of a catch-all is no hash. *)
Lemma hex_not_star bs : len bs = 32 -> hex_of bs <> bytes_of "*".
Proof. intros Hl He. pose proof (len_hex_of bs) as Hh. rewrite He in Hh. change (len (bytes_of "*")) with 1 in Hh. lia. Qed.

(** ** Round trips *)

Section Laws.
Context {Value : Type} `{C : Cbor Value} `{L : !CborLaws C} `{CS : !CborStream C} `{CL : !CborStreamLaws CS}.
Context `{ED : Ed25519}.

Lemma fold_map_cons {A} (step : Z -> Value -> A -> Bun A) k v m a :
  0 <= k < 2 ^ 63 -> fold_map step ((VInteger k, v) :: m) a = (let? a' := step k v a in fold_map step m a').
Proof using L.
  intros [H0 H1]. cbn [fold_map]. rewrite as_integer_eq. cbn [mbind option_bind]. unfold try_i64.
  by rewrite (proj2 (Z.leb_le _ _)), (proj2 (Z.ltb_lt _ _) H1) by lia.
Qed.

Ltac next_pair := rewrite fold_map_cons by (vm_compute; split; [discriminate|reflexivity]).

Lemma int_field_val w x range ty : uN w x -> int_field w (VInteger x) range ty = Ok x.
Proof using L. intros Hx. unfold int_field. by rewrite as_integer_eq, try_u_Some. Qed.

Lemma text_field_val s ty : text_field (VText s) ty = Ok s.
Proof using L. unfold text_field. by rewrite as_text_eq. Qed.

Lemma bytes_field_val b ty : bytes_field (VBytes b) ty = Ok b.
Proof using L. unfold bytes_field. by rewrite as_bytes_eq. Qed.

Lemma array_field_val l ty : array_field (VArray l) ty = Ok l.
Proof using L. unfold array_field. by rewrite as_array_eq. Qed.

Lemma fixed_field_val n b size ty : len b = n -> fixed_field n (VBytes b) size ty = Ok b.
Proof using L. intros Hb. unfold fixed_field. rewrite bytes_field_val. cbn. by rewrite Hb, Z.eqb_refl. Qed.

Lemma opt_bytes_val_back o field : opt_bytes_from_cbor (opt_bytes_val o) field = Ok o.
Proof using L CL. unfold opt_bytes_from_cbor. destruct o; cbn; [by rewrite bytes_not_null, as_bytes_eq|by rewrite null_is_null]. Qed.

Lemma opt_text_val_back o field : opt_text_from_cbor (opt_text_val o) field = Ok o.
Proof using L CL. unfold opt_text_from_cbor. destruct o; cbn; [by rewrite text_not_null, as_text_eq|by rewrite null_is_null]. Qed.

Lemma opt_u_val_back w o field range : opt_ok (uN w) o -> opt_u_from_cbor w (opt_u32_val o) field range = Ok o.
Proof using L CL.
  unfold opt_u_from_cbor. destruct o; cbn [opt_ok opt_u32_val]; intros Ho; [|by rewrite null_is_null].
  by rewrite integer_not_null, int_field_val.
Qed.

Lemma collect_fmap {A B} (enc : A -> Value) (dec : Value -> Bun B) (f : A -> B) (P : A -> Prop) l :
  (forall x, P x -> dec (enc x) = Ok (f x)) -> Forall P l -> collect dec (enc <$> l) = Ok (f <$> l).
Proof. intros Hd Hl. induction Hl as [|x l Hx _ IH]; [done|]. cbn. rewrite Hd by done. cbn. by rewrite IH. Qed.

Lemma sensors_back ss acc :
  Forall sensor_wf ss -> sensors_from_cbor (sensor_to_cbor <$> ss) acc = Ok (acc ++ ss).
Proof using L.
  intros Hs. revert acc. induction Hs as [|[t i lb] ss [Ht Hi] _ IH]; intros acc; [by rewrite app_nil_r|].
  cbn [fmap list_fmap sensors_from_cbor]. unfold sensor_to_cbor at 1. rewrite as_map_eq. cbn [app].
  do 2 (next_pair; unfold sensor_step at 1; cbn -[fold_map try_u]; rewrite as_integer_eq, try_u_Some by done).
  destruct lb as [lb|]; cbn -[fold_map];
    [next_pair; unfold sensor_step at 1; cbn -[fold_map]; rewrite as_text_eq|]; cbn; rewrite IH, <- app_assoc; done.
Qed.

Lemma sensors_field ss a :
  Forall sensor_wf ss -> na_sensors a = [] -> node_step NODE_KEY_SENSORS (sensors_to_cbor ss) a = Ok (set_na_sensors a ss).
Proof using L CL.
  intros Hs Ha. unfold node_step. cbn -[sensors_from_cbor sensors_to_cbor]. rewrite Ha. destruct ss as [|s ss].
  - cbn. rewrite null_not_array. destruct a. cbn in *. by subst.
  - change (sensors_to_cbor (s :: ss)) with (VArray (sensor_to_cbor <$> s :: ss)). rewrite as_array_eq.
    by rewrite sensors_back.
Qed.

(** A field of a record: the step of its key, and the value back. *)
Ltac field_back :=
  first [rewrite text_field_val | rewrite bytes_field_val | rewrite array_field_val | rewrite int_field_val by done
        | rewrite fixed_field_val by done | rewrite opt_bytes_val_back | rewrite opt_text_val_back
        | unfold opt_u32_from_cbor; rewrite opt_u_val_back by done | rewrite opt_u_val_back by done].
Tactic Notation "map_field" reference(step) := next_pair; unfold step at 1; cbn -[fold_map try_u]; field_back; cbn -[fold_map].

Lemma or_keep_None {A} (o : option A) : or_keep o None = o.
Proof. by destruct o. Qed.

Lemma check_hash_ok h field : opt_ok hash_ok32 h -> check_hash (Some h) field = Ok tt.
Proof. destruct h as [h|]; [|done]. cbn. unfold hash_ok32. by intros ->. Qed.

Lemma node_back n : node_wf n -> node_from_cbor (node_to_cbor n) = Ok n.
Proof using L CL.
  intros [? ? ? ? ? ? ? ? Hss ? ?]. unfold node_from_cbor, node_to_cbor. rewrite as_map_eq. cbn [res_bind ok_or].
  do 9 map_field node_step. next_pair. rewrite sensors_field by done. cbn -[fold_map]. do 3 map_field node_step.
  cbn -[check_hash or_keep string_of bytes_of]. rewrite !or_keep_None, string_of_bytes_of, !check_hash_ok by done. by destruct n.
Qed.

Lemma program_back p : program_wf p -> program_from_cbor (program_to_cbor p) = Ok p.
Proof using L CL.
  intros [Hh Hs Hr ?]. unfold program_from_cbor, program_to_cbor. rewrite as_map_eq. cbn [res_bind ok_or].
  assert (uN 32 (profile_u8 (p_profile p))) by (unfold uN; destruct (p_profile p); simpl; lia).
  do 7 map_field program_step. cbn -[try_u]. rewrite Hh, Hs in *. cbn -[try_u]. rewrite try_u_Some by done. cbn.
  rewrite Z.eqb_refl. cbn. destruct p as [? ? ? [] ? ? ?]; cbn in *; by subst.
Qed.

Lemma identity_back i : identity_wf i -> identity_from_cbor (identity_to_cbor i) = Ok i.
Proof using L.
  intros (? & ? & Hp). unfold identity_from_cbor, identity_to_cbor. rewrite as_map_eq. cbn [res_bind ok_or].
  do 2 map_field identity_step. cbn. unfold from_parts. destruct i. cbn in *. by rewrite Hp.
Qed.

Lemma issued_at_s_range t : 0 <= issued_at_s t < 2 ^ 63.
Proof.
  unfold issued_at_s, try_i64. destruct (Z.ltb_spec t 0); [lia|]. destruct (_ && _) eqn:Hb; cbn [default]; [|lia].
  apply andb_prop in Hb as [_ ?%Z.ltb_lt]. split; [apply Z.div_pos; lia|done].
Qed.

Lemma status_back st : from_str_value (status_text st) = Some st.
Proof. by destruct st. Qed.

Lemma label_back s : len s <= PHONE_LABEL_MAX_BYTES -> label_field (VText s) = Ok s.
Proof using L. intros Hl. unfold label_field. rewrite text_field_val. cbn [res_bind]. by rewrite Z.gtb_ltb, (proj2 (Z.ltb_ge _ _)). Qed.

Lemma i64_field_val x range ty : - 2 ^ 63 <= x < 2 ^ 63 -> i64_field (VInteger x) range ty = Ok x.
Proof using L.
  intros [H0 H1]. unfold i64_field, try_i64. by rewrite as_integer_eq, (proj2 (Z.leb_le _ _) H0), (proj2 (Z.ltb_lt _ _) H1).
Qed.

Lemma phone_back p : phone_wf p -> phone_psk_from_cbor (phone_psk_to_cbor p) = Ok (bundled_phone p).
Proof using L.
  intros [? ? Hl ?]. unfold phone_psk_from_cbor, phone_psk_to_cbor. rewrite as_map_eq. cbn [res_bind ok_or].
  pose proof (issued_at_s_range (issued_at p)) as Hi.
  do 2 map_field phone_step. next_pair. unfold phone_step at 1. cbn -[fold_map label_field]. rewrite label_back by done.
  cbn -[fold_map]. next_pair. unfold phone_step at 1. cbn -[fold_map i64_field]. rewrite i64_field_val by lia.
  cbn -[fold_map]. next_pair. unfold phone_step at 1. cbn -[fold_map from_str_value status_text]. rewrite text_field_val.
  cbn -[fold_map from_str_value status_text]. rewrite status_back. cbn -[fold_map]. map_field phone_step.
  cbn -[issued_at_s]. by rewrite Z.geb_leb, (proj2 (Z.leb_le _ _)) by lia.
Qed.

Lemma matchers_back ms acc :
  Forall matcher_wf ms -> matchers_from_cbor ((fun m => VText (matcher_text m)) <$> ms) acc = Ok (acc ++ ms).
Proof using L.
  intros Hms. revert acc. induction Hms as [|m ms Hm _ IH]; intros acc; [by rewrite app_nil_r|].
  cbn -[bytes_of parse_hex_str]. rewrite text_field_val. cbn -[bytes_of parse_hex_str]. destruct m as [|h].
  - rewrite bool_decide_true by done. by rewrite IH, <- app_assoc.
  - destruct Hm as [Hl Hb]. cbn -[bytes_of parse_hex_str]. rewrite bool_decide_false by by apply hex_not_star.
    rewrite parse_hex_of by done. cbn. rewrite Hl. cbn. by rewrite IH, <- app_assoc.
Qed.

Lemma args_back (l : list string) : string_of <$> omap as_text ((fun a => VText (bytes_of a)) <$> l) = l.
Proof using L. induction l as [|a l IH]; [done|]. cbn -[string_of bytes_of]. rewrite as_text_eq. cbn -[string_of bytes_of].
  by rewrite string_of_bytes_of, IH. Qed.

(** The entries that are left out where there is nothing to say. *)
Lemma args_entry l rest a : ha_args a = [] ->
  fold_map handler_step
    (match l with [] => [] | x :: l' => [(VInteger HANDLER_KEY_ARGS, VArray ((fun s => VText (bytes_of s)) <$> x :: l'))] end ++ rest) a =
  fold_map handler_step rest (set_ha_args a l).
Proof using L.
  intros Ha. destruct l as [|s l]; cbn [app]; [destruct a; cbn in *; by subst|].
  next_pair. unfold handler_step at 1. cbn -[fold_map fmap omap string_of]. by rewrite as_array_eq, args_back, Ha.
Qed.

Lemma bundled_timeout_eq t : 0 <= t ->
  bundled_timeout t = (let ms := Z.min (as_millis t) (2 ^ 63 - 1) in if ms >? 0 then Some (from_millis ms) else None) /\
  uN 64 (Z.min (as_millis t) (2 ^ 63 - 1)).
Proof.
  intros Ht. unfold bundled_timeout, as_millis, uN. pose proof (Z.div_pos t 1000000 ltac:(lia) ltac:(lia)).
  pose proof (Z.div_mod t 1000000). pose proof (Z.mod_pos_bound t 1000000). split; [|lia]. cbn zeta.
  rewrite Z.gtb_ltb. destruct (Z.ltb_spec t 1000000), (Z.ltb_spec 0 (Z.min (t / 1000000) (2 ^ 63 - 1))); lia || done.
Qed.

Lemma timeout_entry t rest a : ha_timeout a = None -> opt_ok (fun t => 0 <= t) t ->
  fold_map handler_step
    (match t with
     | Some t => [(VInteger HANDLER_KEY_REPLY_TIMEOUT_MS, VInteger (Z.min (as_millis t) (2 ^ 63 - 1)))]
     | None => []
     end ++ rest) a = fold_map handler_step rest (set_ha_timeout a (t ≫= bundled_timeout)).
Proof using L.
  intros Ha Ht. destruct t as [t|]; cbn [app mbind option_bind]; [|destruct a; cbn in *; by subst].
  destruct (bundled_timeout_eq t Ht) as [-> Hr]. next_pair. unfold handler_step at 1. cbn -[fold_map try_u Z.pow Z.min as_millis].
  rewrite as_integer_eq. cbn -[fold_map try_u Z.pow Z.min as_millis]. rewrite try_u_Some by done.
  destruct (_ >? 0); [done|]. cbn [res_bind]. destruct a; cbn in *; by subst.
Qed.

Lemma dir_entry d a : ha_dir a = None ->
  fold_map handler_step (match d with Some d => [(VInteger HANDLER_KEY_WORKING_DIR, VText (bytes_of d))] | None => [] end) a =
  Ok (set_ha_dir a d).
Proof using L.
  intros Ha. destruct d as [d|]; [|destruct a; cbn in *; by subst].
  next_pair. unfold handler_step at 1. cbn -[fold_map string_of bytes_of]. by rewrite as_text_eq, string_of_bytes_of.
Qed.

Lemma handler_back h : handler_wf h -> handler_config_from_cbor (handler_config_to_cbor h) = Ok (bundled_handler h).
Proof using L.
  intros [Hm Ht]. destruct h as [ms cmd l t d]. unfold handler_config_from_cbor, handler_config_to_cbor.
  cbn [matchers command args reply_timeout working_dir] in *.
  rewrite as_map_eq. cbn [res_bind ok_or app]. next_pair.
  change (handler_step HANDLER_KEY_MATCHERS ?v ?a) with
    (let? arr := array_field v "handler matchers field must be an array" in
     let? ms := matchers_from_cbor arr (ha_matchers a) in Ok (set_ha_matchers a ms)).
  rewrite array_field_val. cbn [res_bind]. rewrite matchers_back by done. cbn [res_bind]. next_pair.
  change (handler_step HANDLER_KEY_COMMAND ?v ?a) with
    (let? s := text_field v "handler command must be text" in Ok (set_ha_command a (Some (string_of s)))).
  rewrite text_field_val. cbn [res_bind]. rewrite args_entry, timeout_entry, dir_entry by done.
  cbn -[string_of bytes_of]. by rewrite string_of_bytes_of.
Qed.

(** The root. *)
Lemma identity_entry i rest a : ra_identity a = None ->
  fold_map root_step (match i with Some i => [(VInteger ROOT_KEY_IDENTITY, identity_to_cbor i)] | None => [] end ++ rest) a =
  fold_map root_step rest (set_ra_identity a (identity_to_cbor <$> i)).
Proof using L. intros Ha. destruct i as [i|]; cbn [app]; [by next_pair|]. destruct a; cbn in *; by subst. Qed.

(** An array that is left out when empty reads as none. *)
Definition some_array {A} (enc : A -> Value) (l : list A) : option (list Value) := match l with [] => None | _ => Some (enc <$> l) end.

Lemma default_some_array {A} (enc : A -> Value) l : default [] (some_array enc l) = enc <$> l.
Proof. by destruct l. Qed.

Lemma phones_entry ps rest a : ra_phones a = None ->
  fold_map root_step
    (match ps with [] => [] | l => [(VInteger ROOT_KEY_PHONE_PSKS, VArray (phone_psk_to_cbor <$> l))] end ++ rest) a =
  fold_map root_step rest (set_ra_phones a (some_array phone_psk_to_cbor ps)).
Proof using L.
  intros Ha. destruct ps as [|p ps]; cbn [app]; [destruct a; cbn in *; by subst|].
  next_pair. unfold root_step at 1. cbn -[fold_map fmap]. by rewrite array_field_val.
Qed.

Lemma handlers_entry hs a : ra_handlers a = None ->
  fold_map root_step
    (match hs with [] => [] | l => [(VInteger ROOT_KEY_HANDLERS, VArray (handler_config_to_cbor <$> l))] end) a =
  Ok (set_ra_handlers a (some_array handler_config_to_cbor hs)).
Proof using L.
  intros Ha. destruct hs as [|h hs]; [destruct a; cbn in *; by subst|].
  next_pair. unfold root_step at 1. cbn -[fold_map fmap]. by rewrite array_field_val.
Qed.

Lemma fold_root st :
  let '(nodes, programs, identity, phones, handlers) := st in
  exists m, as_map (root_to_cbor st) = Some m /\
  fold_map root_step m root_acc_new =
  Ok (mkRootAcc (Some FORMAT_VERSION) (Some (node_to_cbor <$> nodes)) (Some (program_to_cbor <$> programs))
        (identity_to_cbor <$> identity) (some_array phone_psk_to_cbor phones) (some_array handler_config_to_cbor handlers)).
Proof using L.
  destruct st as [[[[nodes programs] identity] phones] handlers]. eexists. split; [apply as_map_eq|]. cbn [app]. next_pair.
  unfold root_step at 1. cbn -[fold_map fmap try_u app]. rewrite int_field_val by (unfold uN; vm_compute; split; congruence).
  cbn -[fold_map fmap app]. do 2 (next_pair; unfold root_step at 1; cbn -[fold_map fmap app]; rewrite array_field_val; cbn -[fold_map fmap app]).
  by rewrite identity_entry, phones_entry, handlers_entry.
Qed.

Lemma decode_encode_cbor st b : state_wf st -> encode_cbor st = Ok b -> decode_cbor b = Ok (bundled st).
Proof using L CL.
  unfold encode_cbor. destruct (into_writer _) as [b'| | |] eqn:Hw; cbn; try done. intros Hst [= <-].
  unfold decode_cbor. rewrite (reader_writer _ _ Hw). cbn [map_err res_bind]. pose proof (fold_root st) as Hf.
  destruct st as [[[[nodes programs] identity] phones] handlers]. destruct Hf as (m & Hm & Hf), Hst as (Hn & Hp & Hi & Hph & Hh).
  rewrite Hm. cbn [ok_or res_bind]. rewrite Hf. cbn [res_bind ok_or ra_version ra_nodes ra_programs ra_identity ra_phones ra_handlers].
  rewrite Z.eqb_refl. cbn [negb]. rewrite !default_some_array.
  rewrite (collect_fmap _ _ id node_wf nodes), (collect_fmap _ _ id program_wf programs) by auto using node_back, program_back.
  rewrite (collect_fmap _ _ bundled_phone phone_wf phones) by auto using phone_back.
  rewrite (collect_fmap _ _ bundled_handler handler_wf handlers) by auto using handler_back. rewrite !list_fmap_id.
  destruct identity as [i|]; cbn [res_bind res_map fmap option_fmap option_map transpose]; [rewrite (identity_back i) by done|]; done.
Qed.

(** ** What the decoders return *)

Lemma fold_map_inv {A} (P : A -> Prop) (step : Z -> Value -> A -> Bun A) m a a' :
  (forall k v a a', P a -> step k v a = Ok a' -> P a') -> P a -> fold_map step m a = Ok a' -> P a'.
Proof.
  intros Hs. revert a. induction m as [|[k v] m IH]; intros a Ha; cbn [fold_map]; [by intros [= <-]|].
  destruct (_ ≫= _); [|by apply IH]. intros (a1 & H1 & H2)%res_bind_Ok. eauto.
Qed.

Lemma collect_inv {A B} (P : B -> Prop) (f : A -> Bun B) l l' :
  (forall x y, f x = Ok y -> P y) -> collect f l = Ok l' -> Forall P l'.
Proof.
  intros Hf. revert l'. induction l as [|x l IH]; intros l'; cbn [collect]; [by intros [= <-]|].
  intros (y & Hy & (ys & Hys & [= <-])%res_bind_Ok)%res_bind_Ok. eauto.
Qed.

Lemma try_u_uN w x y : try_u w x = Some y -> uN w y.
Proof. unfold try_u, uN. destruct (_ && _) eqn:Hb; [|done]. intros [= <-]. apply andb_prop in Hb as [?%Z.leb_le ?%Z.ltb_lt]. done. Qed.

Lemma int_field_Ok w v range ty x : int_field w v range ty = Ok x -> uN w x.
Proof. unfold int_field. destruct (as_integer v); [|done]. intros Hx%ok_or_Ok. by eapply try_u_uN. Qed.

Lemma fixed_field_Ok n v size ty b : fixed_field n v size ty = Ok b -> len b = n.
Proof. unfold fixed_field. intros (b' & _ & Hb)%res_bind_Ok. destruct (Z.eqb_spec (len b') n); [|done]. injection Hb as <-. done. Qed.

Lemma opt_u_Ok w v field range o : opt_u_from_cbor w v field range = Ok o -> opt_ok (uN w) o.
Proof.
  unfold opt_u_from_cbor. destruct (is_null v); [by intros [= <-]|]. unfold res_map.
  intros (x & Hx%int_field_Ok & [= <-])%res_bind_Ok. done.
Qed.

Lemma or_keep_ok {A} (P : A -> Prop) n o : opt_ok P n -> opt_ok P o -> opt_ok P (or_keep n o).
Proof. by destruct n. Qed.

Lemma sensors_Ok arr acc ss : Forall sensor_wf acc -> sensors_from_cbor arr acc = Ok ss -> Forall sensor_wf ss.
Proof.
  revert acc. induction arr as [|item arr IH]; intros acc Ha; cbn [sensors_from_cbor]; [by intros [= <-]|].
  destruct (as_map item) as [m|]; [|by apply IH]. intros ([[st si] lb] & Hm & Hr)%res_bind_Ok. revert Hr. apply IH.
  apply (fold_map_inv (fun x => opt_ok (uN 8) x.1.1 /\ opt_ok (uN 8) x.1.2)) in Hm as [H1 H2]; [|clear|done].
  - destruct st, si; try done. apply Forall_app. split; [done|]. by constructor.
  - intros k v [[st si] lb] a' [H1 H2]. unfold sensor_step. intros [= <-]. cbn in *.
    repeat (case_match; cbn; try done); split; try done; destruct (try_u 8 _) eqn:Ht; cbn; try done; by eapply try_u_uN.
Qed.

(** The variables of the loop of [node_from_cbor]; the lengths of hashes are checked after it. *)
Definition node_acc_wf (a : NodeAcc) : Prop :=
  opt_ok (uN 16) (na_key_hint a) /\ opt_ok hash_ok32 (na_psk a) /\ opt_ok (opt_ok (uN 32)) (na_desired a) /\
  opt_ok (uN 32) (na_schedule a) /\ opt_ok (opt_ok (uN 32)) (na_abi a) /\ opt_ok (uN 8) (na_channel a) /\
  Forall sensor_wf (na_sensors a) /\ opt_ok (uN 32) (na_phone a) /\ uN 64 (na_key_version a).

Ltac step_cases := repeat match goal with |- context [if ?k =? ?c then _ else _] => destruct (Z.eqb_spec k c) end.
Ltac field_ok :=
  repeat match goal with
  | H : int_field _ _ _ _ = Ok _ |- _ => apply int_field_Ok in H
  | H : fixed_field _ _ _ _ = Ok _ |- _ => apply fixed_field_Ok in H
  | H : opt_u_from_cbor _ _ _ _ = Ok _ |- _ => apply opt_u_Ok in H
  | H : opt_u32_from_cbor _ _ = Ok _ |- _ => apply opt_u_Ok in H
  end.

Lemma node_step_wf k v a a' : node_acc_wf a -> node_step k v a = Ok a' -> node_acc_wf a'.
Proof.
  intros Ha. unfold node_step. step_cases; try (by intros [= <-]);
    try (intros (x & Hx & [= <-])%res_bind_Ok; field_ok; destruct Ha as (? & ? & ? & ? & ? & ? & ? & ? & ?);
         unfold node_acc_wf; split_and!; cbn; by auto using or_keep_ok).
  destruct (as_array v); [|by intros [= <-]]. intros (x & Hx & [= <-])%res_bind_Ok.
  destruct Ha as (? & ? & ? & ? & ? & ? & ? & ? & ?). apply sensors_Ok in Hx; [|done]. unfold node_acc_wf. by split_and!.
Qed.

Lemma check_hash_Ok h field : check_hash h field = Ok tt -> opt_ok hash_ok32 (flatten h).
Proof. destruct h as [[h|]|]; cbn; [|done..]. unfold hash_ok32. destruct (Z.eqb_spec (len h) 32); done. Qed.

Lemma node_decoded v n : node_from_cbor v = Ok n -> node_wf n.
Proof.
  unfold node_from_cbor. intros (m & _ & (a & Ha & H)%res_bind_Ok)%res_bind_Ok.
  apply (fold_map_inv node_acc_wf) in Ha as (A1 & A2 & A3 & A4 & A5 & A6 & A7 & A8 & A9); [|apply node_step_wf|by unfold node_acc_wf; split_and!].
  apply res_bind_Ok in H as (id & _ & (hint & E1%ok_or_Ok & (psk & E2%ok_or_Ok & H)%res_bind_Ok)%res_bind_Ok).
  apply res_bind_Ok in H as ([] & E3%check_hash_Ok & ([] & E4%check_hash_Ok & [= <-])%res_bind_Ok).
  rewrite E1 in A1. rewrite E2 in A2.
  assert (uN 32 (default 60 (na_schedule a))) by (destruct (na_schedule a); [done|by vm_compute]).
  split; cbn; try done; [by destruct (na_desired a)|by destruct (na_abi a)].
Qed.

Definition prog_acc_wf (a : ProgAcc) : Prop := opt_ok (uN 32) (pa_size a) /\ opt_ok (opt_ok (uN 32)) (pa_abi a).

Lemma program_step_wf k v a a' : prog_acc_wf a -> program_step k v a = Ok a' -> prog_acc_wf a'.
Proof.
  intros [? ?]. unfold program_step. step_cases; try (by intros [= <-]);
    intros (x & Hx & [= <-])%res_bind_Ok; field_ok; by split.
Qed.

Lemma program_decoded v p : program_from_cbor v = Ok p -> program_wf p.
Proof.
  unfold program_from_cbor. intros (m & _ & (a & Ha & H)%res_bind_Ok)%res_bind_Ok.
  apply (fold_map_inv prog_acc_wf) in Ha as [A1 A2]; [|apply program_step_wf|done].
  apply res_bind_Ok in H as (h & _ & (im & _ & (sz & E1%ok_or_Ok & (pr & _ & H)%res_bind_Ok)%res_bind_Ok)%res_bind_Ok).
  rewrite E1 in A1. destruct (Z.eqb_spec (len h) 32) as [Hh|]; [cbn [negb] in H|done].
  apply res_bind_Ok in H as (il & Hil%ok_or_Ok & H). destruct (Z.eqb_spec sz il) as [->|]; [cbn [negb] in H|done].
  apply res_bind_Ok in H as (profile & _ & [= <-]). unfold try_u in Hil. destruct (_ && _); [|done]. injection Hil as <-.
  split; cbn; try done. by destruct (pa_abi a).
Qed.

Lemma identity_decoded v i : identity_from_cbor v = Ok i -> identity_wf i.
Proof.
  unfold identity_from_cbor. intros (m & _ & ([sd gid] & Ha & H)%res_bind_Ok)%res_bind_Ok.
  apply (fold_map_inv (fun x => opt_ok (fun b => len b = 32) x.1 /\ opt_ok (fun b => len b = 16) x.2)) in Ha as [A1 A2]; [|clear|done].
  - apply res_bind_Ok in H as (s & ->%ok_or_Ok & (g & ->%ok_or_Ok & [= <-])%res_bind_Ok). done.
  - intros k v a a' [? ?]. unfold identity_step. step_cases; try (by intros [= <-]);
      intros (x & Hx & [= <-])%res_bind_Ok; field_ok; done.
Qed.

Definition phone_acc_wf (a : PhoneAcc) : Prop :=
  opt_ok (uN 16) (fa_hint a) /\ opt_ok hash_ok32 (fa_psk a) /\
  opt_ok (fun s => len s <= PHONE_LABEL_MAX_BYTES) (fa_label a) /\ uN 64 (fa_key_version a).

Lemma label_field_Ok v s : label_field v = Ok s -> len s <= PHONE_LABEL_MAX_BYTES.
Proof.
  unfold label_field. intros (t & _ & Ht)%res_bind_Ok. rewrite Z.gtb_ltb in Ht. destruct (Z.ltb_spec PHONE_LABEL_MAX_BYTES (len t)); [done|].
  by injection Ht as <-.
Qed.

Lemma phone_step_wf k v a a' : phone_acc_wf a -> phone_step k v a = Ok a' -> phone_acc_wf a'.
Proof.
  intros (? & ? & ? & ?). unfold phone_step. step_cases; try (by intros [= <-]; unfold phone_acc_wf; split_and!);
    intros (x & Hx & Hr)%res_bind_Ok; field_ok; try apply label_field_Ok in Hx; try apply res_bind_Ok in Hr as (y & _ & Hr);
    injection Hr as <-; unfold phone_acc_wf; by split_and!.
Qed.

Lemma phone_decoded v p : phone_psk_from_cbor v = Ok p -> phone_wf p.
Proof.
  unfold phone_psk_from_cbor. intros (m & _ & (a & Ha & H)%res_bind_Ok)%res_bind_Ok.
  apply (fold_map_inv phone_acc_wf) in Ha as (A1 & A2 & A3 & A4); [|apply phone_step_wf|by unfold phone_acc_wf; split_and!].
  apply res_bind_Ok in H as (h & E1%ok_or_Ok & (k & E2%ok_or_Ok & (l & E3%ok_or_Ok & H)%res_bind_Ok)%res_bind_Ok).
  apply res_bind_Ok in H as (t & _ & (st & _ & [= <-])%res_bind_Ok). rewrite E1 in A1. rewrite E2 in A2. rewrite E3 in A3. by split.
Qed.

Lemma to_digit_range c d : to_digit c = Some d -> 0 <= d < 16.
Proof.
  unfold to_digit. repeat match goal with |- context [?a <=? ?b] => destruct (Z.leb_spec a b) end; cbn [andb]; try done; intros [= <-]; lia.
Qed.

Lemma u8_of_hex_range c d b : u8_of_hex c d = Some b -> uN 8 b.
Proof.
  unfold u8_of_hex, uN. destruct (c =? 43); [intros ?%to_digit_range; lia|].
  destruct (to_digit c) as [x|] eqn:Hx; cbn; [|done]. destruct (to_digit d) as [y|] eqn:Hy; cbn; [|done].
  intros [= <-]. apply to_digit_range in Hx, Hy. lia.
Qed.

Lemma hex_pairs_ok n s bs : (length s <= n)%nat -> hex_pairs s = Some bs -> bytes_ok bs.
Proof.
  revert s bs. induction n as [|n IH]; intros [|c [|d s]] bs Hl; cbn [length hex_pairs] in *; try lia; try (intros [= <-]; by constructor).
  destruct (u8_of_hex c d) as [b|] eqn:Hb; cbn; [|done]. destruct (hex_pairs s) as [l|] eqn:Hs; cbn; [|done].
  intros [= <-]. constructor; [by eapply u8_of_hex_range|]. eapply IH; [|done]. lia.
Qed.

Lemma parse_hex_ok s bs : parse_hex_str s = Ok bs -> bytes_ok bs.
Proof. unfold parse_hex_str. repeat (case_match; try done). intros Hb%ok_or_Ok. by eapply hex_pairs_ok. Qed.

Lemma matchers_Ok arr acc ms : Forall matcher_wf acc -> matchers_from_cbor arr acc = Ok ms -> Forall matcher_wf ms.
Proof.
  revert acc. induction arr as [|item arr IH]; intros acc Ha; cbn [matchers_from_cbor]; [by intros [= <-]|].
  intros (s & _ & H)%res_bind_Ok. case_bool_decide.
  { revert H. apply IH, Forall_app. split; [done|by constructor]. }
  apply res_bind_Ok in H as (bs & Hb & H). destruct (parse_hex_str s) as [bs'| | |] eqn:Hs; try done. injection Hb as ->.
  destruct (Z.eqb_spec (len bs) 32); [|done]. revert H. apply IH, Forall_app. split; [done|]. constructor; [|done].
  split; [done|by eapply parse_hex_ok].
Qed.

Definition handler_acc_wf (a : HandlerAcc) : Prop :=
  Forall matcher_wf (ha_matchers a) /\ opt_ok (fun t => 0 <= t) (ha_timeout a).

Lemma handler_step_wf k v a a' : handler_acc_wf a -> handler_step k v a = Ok a' -> handler_acc_wf a'.
Proof.
  intros [H1 H2]. unfold handler_step. step_cases.
  - intros (arr & _ & (ms & Hm & [= <-])%res_bind_Ok)%res_bind_Ok. split; [|done]. by eapply matchers_Ok.
  - by intros (s & _ & [= <-])%res_bind_Ok.
  - destruct (as_array v); by intros [= <-].
  - destruct (as_integer v ≫= try_u 64) as [ms|]; [|by intros [= <-]]. rewrite Z.gtb_ltb.
    destruct (Z.ltb_spec 0 ms); intros [= <-]; split; try done. cbn. unfold from_millis. lia.
  - destruct (as_text v); by intros [= <-].
  - by intros [= <-].
Qed.

Lemma handler_decoded v h : handler_config_from_cbor v = Ok h -> handler_wf h.
Proof.
  unfold handler_config_from_cbor. intros (m & _ & (a & Ha & (cmd & _ & [= <-])%res_bind_Ok)%res_bind_Ok)%res_bind_Ok.
  by apply (fold_map_inv handler_acc_wf) in Ha as [? ?]; [|apply handler_step_wf|].
Qed.

Lemma decoded_wf b st : decode_cbor b = Ok st -> state_wf st.
Proof.
  unfold decode_cbor. intros (root & _ & (m & _ & (a & _ & (v & _ & H)%res_bind_Ok)%res_bind_Ok)%res_bind_Ok)%res_bind_Ok.
  destruct (negb _); [done|]. apply res_bind_Ok in H as (na & _ & (pa & _ & (ns & Hn & (ps & Hp & H)%res_bind_Ok)%res_bind_Ok)%res_bind_Ok).
  apply res_bind_Ok in H as (i & Hi & (ph & Hph & (hs & Hh & [= <-])%res_bind_Ok)%res_bind_Ok). split_and!.
  - eapply collect_inv; [apply node_decoded|done].
  - eapply collect_inv; [apply program_decoded|done].
  - destruct (ra_identity a); cbn in Hi; [|by injection Hi as <-].
    apply res_bind_Ok in Hi as (x & Hx%identity_decoded & [= <-]). done.
  - eapply collect_inv; [apply phone_decoded|done].
  - eapply collect_inv; [apply handler_decoded|done].
Qed.

(** ** Encryption *)

Context `{AE : AeadProvider} `{HA : !AeadLaws AE} `{KD : Pbkdf2}.

(** The regions of a bundle. *)
Lemma bundle_regions salt nonce rest :
  let b := MAGIC ++ to_le_bytes 4 FORMAT_VERSION ++ resize SALT_LEN 0 salt ++ resize NONCE_LEN 0 nonce ++ rest in
  take 8 b = MAGIC /\ from_le_bytes (take 4 (drop 8 b)) = FORMAT_VERSION /\ take 16 (drop 12 b) = resize SALT_LEN 0 salt /\
  take 12 (drop 28 b) = resize NONCE_LEN 0 nonce /\ drop (Z.to_nat HEADER_LEN) b = rest /\ len b = 40 + len rest.
Proof.
  set (s := resize SALT_LEN 0 salt). set (n := resize NONCE_LEN 0 nonce).
  assert (length s = 16%nat) as Hs by apply length_resize. assert (length n = 12%nat) as Hn by apply length_resize.
  clearbody s n. cbn zeta. split; [done|]. split; [done|].
  rewrite !(app_assoc MAGIC). set (hd := MAGIC ++ to_le_bytes 4 FORMAT_VERSION).
  assert (length hd = 12%nat) as Hh by done. clearbody hd.
  split; [by rewrite (drop_app_length' hd), take_app_length' by done|].
  rewrite !(app_assoc hd). split; [by rewrite (drop_app_length' (hd ++ s)), take_app_length' by (rewrite ?length_app; lia)|].
  rewrite !(app_assoc (hd ++ s)). split; [by rewrite drop_app_length' by (rewrite !length_app, Hh, Hs, Hn; reflexivity)|].
  unfold len. rewrite !length_app. lia.
Qed.

(** Without a passphrase nothing is written and nothing is read. *)
Lemma empty_passphrase st rng b : encrypt_state_full st [] rng = Err EmptyPassphrase /\ decrypt_state_full b [] = Err EmptyPassphrase.
Proof. done. Qed.

Lemma decrypted_wf b passphrase st : decrypt_state_full b passphrase = Ok st -> state_wf st.
Proof.
  unfold decrypt_state_full. destruct passphrase; [done|]. repeat (case_match; try done).
  intros (plain & _ & Hd)%res_bind_Ok. by eapply decoded_wf.
Qed.

Lemma encrypt_decrypt st passphrase salt nonce rng plain :
  state_wf st -> passphrase <> [] -> into_writer (root_to_cbor st) = Ok plain ->
  exists b, encrypt_state_full st passphrase (salt :: nonce :: rng) = Ok b /\ decrypt_state_full b passphrase = Ok (bundled st).
Proof using L CL HA.
  intros Hst Hp Hw. destruct passphrase as [|c pass]; [done|]. unfold encrypt_state_full, decrypt_state_full.
  assert (encode_cbor st = Ok plain) as He by (unfold encode_cbor; by rewrite Hw). rewrite He. cbn [res_bind getrandom].
  set (ct := seal _ _ _ _). destruct (bundle_regions salt nonce ct) as (R1 & R2 & R3 & R4 & R5 & R6).
  eexists. split; [done|]. rewrite R1, R2, R3, R4, R5, R6. unfold ct. rewrite seal_len, open_seal.
  rewrite (proj2 (Z.ltb_ge _ _)) by (pose proof (len_nonneg plain); change (HEADER_LEN + GCM_TAG_LEN) with 56; unfold AEAD_TAG_SIZE; lia).
  rewrite bool_decide_true by done. rewrite Z.eqb_refl. cbn [negb ok_or res_bind]. by apply decode_encode_cbor.
Qed.

(** C39: A well-formed state, written to a bundle with a passphrase, is read back from
    it with that passphrase (the writing fails only if the CBOR writer does): the same
    nodes, programs and identity; phones with the time of their registration in whole
    seconds and without their identifiers, which storage gives anew; handlers with
    timeouts in whole milliseconds.  Whatever the bytes of a bundle, what is read from
    it is well-formed: hints, channels, sizes and versions in the ranges of their
    types, keys and hashes of 32 bytes, sizes that are those of the images, labels of
    at most 64 bytes. *)
Theorem bundle_codec_exact :
  (forall st passphrase salt nonce rng, state_wf st -> passphrase <> [] ->
     (exists b, encrypt_state_full st passphrase (salt :: nonce :: rng) = Ok b /\
                decrypt_state_full b passphrase = Ok (bundled st)) \/
     (forall plain, into_writer (root_to_cbor st) <> Ok plain)) /\
  (forall b passphrase st, decrypt_state_full b passphrase = Ok st -> state_wf st).
Proof using L CL HA.
  split; [|apply decrypted_wf]. intros st pass salt nonce rng Hst Hp.
  destruct (into_writer (root_to_cbor st)) as [plain| | |] eqn:Hw; [left|by right..]. by eapply encrypt_decrypt.
Qed.
End Laws.

(** ** Import into SQLite *)

(** What is left of a node and of a program. *)
Definition without_pairing (n : NodeRecord) : NodeRecord :=
  mkNodeRecord (nr_id n) (nr_key_hint n) (nr_psk n) (assigned_program_hash n) (current_program_hash n)
    (desired_schedule_interval_s n) (schedule_interval_s n) (nr_firmware_abi_version n) (nr_firmware_version n)
    None [] None (nr_key_version n).
Definition without_decoder (p : ProgramRecord) : ProgramRecord :=
  mkProgram (p_hash p) (p_image p) (p_size p) (p_profile p) (abi_version p)
    (normalize_display_filename (source_filename p)) None.

Lemma parse_decimal_bound limit acc s x : 0 <= acc < limit -> parse_decimal limit acc s = Some x -> 0 <= x < limit.
Proof.
  revert acc. induction s as [|c s IH]; intros acc Ha; cbn [parse_decimal]; [by intros [= <-]|].
  destruct (Z.leb_spec 48 c), (Z.leb_spec c 57); try done. cbn [andb]. destruct (Z.ltb_spec (acc * 10 + (c - 48)) limit); [|done].
  apply IH. lia.
Qed.

Lemma parse_unsigned_bound limit s x : 0 < limit -> parse_unsigned limit s = Some x -> 0 <= x < limit.
Proof. intros Hl. unfold parse_unsigned. repeat (case_match; try done); intros Hx; eapply parse_decimal_bound; try done; lia. Qed.

Lemma parse_i64_bound s x : parse_i64 s = Some x -> x < 2 ^ 63.
Proof.
  unfold parse_i64. destruct s as [|c [|d s]]; try (by intros []%parse_unsigned_bound).
  destruct (c =? 45); [|by intros []%parse_unsigned_bound].
  destruct (parse_decimal _ _ _) as [y|] eqn:Hy; [|done]. cbn. intros [= <-]. apply parse_decimal_bound in Hy; lia.
Qed.

Section SqlImport.
Context `{SH : Sha256Provider} `{AE : AeadProvider} `{HA : !AeadLaws AE} `{HX : HexCodec} `{SJ : SensorJson}.

Lemma tx_bind_Ok {A B} (m : Tx A) (k : A -> Tx B) d t b x :
  mbind k m d t = (inr b, x) -> exists a d' t', m d t = (inr a, (d', t')) /\ k a d' t' = (inr b, x).
Proof. unfold mbind, tx_bind. destruct (m d t) as [[e|a] [d' t']]; [done|]. intros Hk. by exists a, d', t'. Qed.

Lemma with_conn_Ok {A} (f : SqliteStorage -> Tx A) s a s' :
  with_conn f s = (inr a, s') -> exists d t, f s (conn s) (tape s) = (inr a, (d, t)) /\ s' = set_conn s d t.
Proof. unfold with_conn. destruct (f s _ _) as [[e|x] [d t]]; [done|]. intros [= <- <-]. by exists d, t. Qed.

Lemma tx_some_Ok {A} (o : option A) msg d t a x : tx_some o msg d t = (inr a, x) -> o = Some a /\ x = (d, t).
Proof. destruct o; [|done]. by intros [= <- <-]. Qed.

Lemma metadata_epoch d t meta x : read_current_key_metadata d t = (inr meta, x) -> 1 <= meta.2 < 2 ^ 63 /\ x = (d, t).
Proof.
  unfold read_current_key_metadata. intros (d0 & ? & ? & [= <- <- <-] & H)%tx_bind_Ok.
  apply tx_bind_Ok in H as (? & ? & ? & (_ & [= -> ->])%tx_some_Ok & H).
  apply tx_bind_Ok in H as (? & ? & ? & (_ & [= -> ->])%tx_some_Ok & H).
  apply tx_bind_Ok in H as (? & ? & ? & (_ & [= -> ->])%tx_some_Ok & H). destruct (negb _); [done|].
  apply tx_bind_Ok in H as (e & ? & ? & (He%parse_i64_bound & [= -> ->])%tx_some_Ok & H).
  destruct (Z.ltb_spec e 1); [done|]. injection H as <- <-. done.
Qed.

Lemma elem_of_Forall {A} (P : A -> Prop) l x : Forall P l -> x ∈ l -> P x.
Proof. intros Hl Hx. by eapply list.Forall_forall in Hx. Qed.

(** The rows after the loops of [replace_state]: those that were there, and those of
    the records, no key twice. *)
Lemma restored_programs ps d t d' t' :
  foldr (fun p (k : Tx unit) => Sql.restore_program p ;; k) (mret tt) ps d t = (inr tt, (d', t')) ->
  t_nodes d' = t_nodes d /\
  (forall p, p ∈ ps -> t_programs d' !! p_hash p = Some (Sql.restored_program_row p)) /\
  (forall h, h ∉ (p_hash <$> ps) -> t_programs d' !! h = t_programs d !! h) /\
  (forall h r, t_programs d !! h = Some r -> t_programs d' !! h = Some r).
Proof.
  revert d t. induction ps as [|p ps IH]; intros d t; cbn [foldr].
  { intros [= <- <-]. split_and!; try done. by intros p ?%list.elem_of_nil. }
  intros (? & d1 & t1 & Hp & Hr)%tx_bind_Ok. apply IH in Hr as (H1 & H2 & H3 & H4).
  unfold Sql.restore_program in Hp. apply tx_bind_Ok in Hp as (d0 & ? & ? & [= <- <- <-] & Hp).
  destruct (t_programs d !! p_hash p) eqn:Hn; [done|]. injection Hp as <- <- <-. split_and!; [done| | |].
  - intros q [->|Hq]%list.elem_of_cons; [|by apply H2]. apply H4. apply lookup_insert_eq.
  - intros h Hh. rewrite fmap_cons in Hh. apply not_elem_of_cons in Hh as [Hne Hh]. rewrite H3 by done. by apply lookup_insert_ne.
  - intros h r Hh. apply H4. cbn. rewrite lookup_insert_ne; [done|]. intros <-. congruence.
Qed.

Lemma restored_nodes mk meta ns d t d' t' :
  foldr (fun n (k : Tx unit) => Sql.restore_node mk meta n ;; k) (mret tt) ns d t = (inr tt, (d', t')) ->
  t_programs d' = t_programs d /\
  (forall n, n ∈ ns -> exists nonce, length nonce = 12%nat /\ nr_key_version n < 2 ^ 63 /\
     t_nodes d' !! nr_id n =
     Some (Sql.restored_node_row n (nonce ++ seal mk nonce (bytes_of (nr_id n)) (nr_psk n)) (nr_key_version n) meta)) /\
  (forall id, id ∉ (nr_id <$> ns) -> t_nodes d' !! id = t_nodes d !! id) /\
  (forall id r, t_nodes d !! id = Some r -> t_nodes d' !! id = Some r).
Proof.
  revert d t. induction ns as [|n ns IH]; intros d t; cbn [foldr].
  { intros [= <- <-]. split_and!; try done. by intros n ?%list.elem_of_nil. }
  intros (? & d1 & t1 & Hn & Hr)%tx_bind_Ok. apply IH in Hr as (H1 & H2 & H3 & H4).
  unfold Sql.restore_node in Hn. apply tx_bind_Ok in Hn as (blob & d2 & t2 & Hb & Hn).
  unfold encrypt_psk, encrypt_blob in Hb. apply tx_bind_Ok in Hb as (nonce & d3 & t3 & Hf & Hb).
  unfold fill in Hf. destruct t as [|bs t]; [done|]. injection Hf as <- <- <-. injection Hb as <- <- <-.
  apply tx_bind_Ok in Hn as (kv & ? & ? & (Hkv & [= -> ->])%tx_some_Ok & Hn).
  unfold to_i64 in Hkv. destruct (Z.ltb_spec (nr_key_version n) (2 ^ 63)); [|done]. injection Hkv as <-.
  apply tx_bind_Ok in Hn as (d0 & ? & ? & [= <- <- <-] & Hn).
  destruct (t_nodes d !! nr_id n) eqn:Hnew; [done|]. injection Hn as <- <- <-. split_and!; [done| | |].
  - intros q [->|Hq]%list.elem_of_cons; [|by apply H2]. exists (resize 12 0 bs). split; [apply length_resize|]. split; [done|].
    apply H4. apply lookup_insert_eq.
  - intros h Hh. rewrite fmap_cons in Hh. apply not_elem_of_cons in Hh as [Hne Hh]. rewrite H3 by done. by apply lookup_insert_ne.
  - intros h r Hh. apply H4. cbn. rewrite lookup_insert_ne; [done|]. intros <-. congruence.
Qed.

Lemma to_uint_uN w x : uN w x -> to_uint w x = Some x.
Proof. intros Hx. unfold to_uint. fold (try_u w x). by apply try_u_Some. Qed.

Lemma opt_uint_ok w o : opt_ok (uN w) o -> opt_uint w o = Some o.
Proof. destruct o as [x|]; [|done]. cbn. intros Hx. by rewrite to_uint_uN. Qed.

(** A row as [replace_state] wrote it, read. *)
Lemma read_restored_node mk n nonce meta d t :
  node_wf n -> nr_key_version n < 2 ^ 63 -> length nonce = 12%nat -> 1 <= meta.2 < 2 ^ 63 ->
  row_to_node mk None (nr_id n)
    (Sql.restored_node_row n (nonce ++ seal mk nonce (bytes_of (nr_id n)) (nr_psk n)) (nr_key_version n) meta) d t =
  (inr (without_pairing n), (d, t)).
Proof using HA.
  intros [Hh Hp _ _ Hd Hs Ha _ _ _ Hk] Hkv Hn Hm. unfold row_to_node. cbn [Sql.restored_node_row row_epoch row_psk row_rf_channel row_desired_s
    row_phone row_key_version row_schedule_s row_key_hint row_abi row_assigned row_current row_firmware row_sensors_json opt_uint].
  unfold mbind, tx_bind. rewrite to_uint_uN by (unfold uN; lia). cbn [tx_some mret tx_ret row_decrypt_key].
  unfold decrypt_psk. rewrite decrypt_sealed by done. cbn [tx_res tx_some mret tx_ret].
  rewrite !opt_uint_ok by done. cbn [tx_some mret tx_ret]. rewrite (to_uint_uN 63) by (unfold uN in *; lia).
  cbn [tx_some mret tx_ret]. rewrite !to_uint_uN by done. done.
Qed.

Lemma read_restored_program p d t :
  program_wf p -> Sql.row_to_program (p_hash p) (Sql.restored_program_row p) d t = (inr (without_decoder p), (d, t)).
Proof.
  intros [_ _ Hr Ha]. unfold Sql.row_to_program, mbind, tx_bind. cbn [Sql.restored_program_row pg_size pg_abi pg_profile pg_image pg_filename pg_decoder].
  rewrite to_uint_uN, opt_uint_ok by done. by destruct p as [? ? ? [] ? ? ?].
Qed.

(** C40: Importing nodes and programs into SQLite: when it succeeds, storage holds
    exactly the nodes and programs of the bundle under their identifiers, with their
    keys, programs and schedules; but every node has lost its radio channel, its
    sensors and the phone that registered it, and every program its decoder, which
    the bundle carries and the other operations of storage keep. *)
Theorem import_drops_fields s nodes programs s' :
  rotation_key_state s = None -> Forall node_wf nodes -> Forall program_wf programs ->
  Sql.replace_state nodes programs s = (inr tt, s') ->
  (forall n, n ∈ nodes -> (Sql.get_node (nr_id n) s').1 = inr (Some (without_pairing n))) /\
  (forall id, id ∉ (nr_id <$> nodes) -> (Sql.get_node id s').1 = inr None) /\
  (forall p, p ∈ programs -> (Sql.get_program (p_hash p) s').1 = inr (Some (without_decoder p))) /\
  (forall h, h ∉ (p_hash <$> programs) -> (Sql.get_program h s').1 = inr None).
Proof using HA.
  intros Hrk Hns Hps. unfold Sql.replace_state at 1. intros (d' & t' & Htx & ->)%with_conn_Ok.
  apply tx_bind_Ok in Htx as (meta & ? & ? & (Hm & [= -> ->])%metadata_epoch & Htx).
  do 2 (apply tx_bind_Ok in Htx as ([] & ? & ? & [= <- <-] & Htx)).
  apply tx_bind_Ok in Htx as ([] & d1 & t1 & (P1 & P2 & P3 & _)%restored_programs & (N1 & N2 & N3 & _)%restored_nodes).
  cbn [conn master_key rotation_key_state set_conn tape] in *. split_and!; unfold Sql.get_node, Sql.get_program, with_conn, tx_get, mbind, tx_bind;
    cbn [conn master_key rotation_key_state set_conn tape].
  - intros n Hn. destruct (N2 n Hn) as (nonce & Hl & Hkv & ->). rewrite Hrk, read_restored_node; [done|by eapply elem_of_Forall|done..].
  - intros id Hid. rewrite N3, P1 by done. done.
  - intros p Hp. rewrite N1, (P2 p Hp), read_restored_program; [done|by eapply elem_of_Forall].
  - intros h Hh. rewrite N1, P3 by done. done.
Qed.
End SqlImport.

(** ** A bundle, written, read and imported *)

From S2P Require Import CborModel CborCompact GwDemo GwRotationDemo.

Module BundleDemo.
Import StubProviders RotationDemo.
#[local] Existing Instance compact_cbor | 0.
#[local] Existing Instance plain_hex | 0.
#[local] Existing Instance no_json | 0.
#[local] Existing Instance flat_ed25519 | 0.
#[local] Instance flat_pbkdf2 : Pbkdf2 := {| pbkdf2_hmac := fun _ _ _ => replicate 32 1 |}.

Definition paired_node : NodeRecord :=
  mkNodeRecord "n1" 17 (replicate 32 7) (Some (replicate 32 4)) None (Some 60) 60 (Some 2) (Some [49]) (Some 6)
    [mkSensor 1 72 (Some [116])] (Some 1) 3.
Definition decoding_program : ProgramRecord :=
  mkProgram (replicate 32 4) [1; 2; 3] 3 ResidentProfile (Some 2) (Some (bytes_of "a.elf")) (Some [9; 9]).
Definition demo_state : FullState :=
  ([paired_node], [decoding_program], Some (from_parts (replicate 32 5) (replicate 16 6)),
   [mkPhone 1 18 (replicate 32 8) [112] 1700000000500000000 Active 0],
   [mkHandlerConfig [Any; Hash (replicate 32 171)] "run" ["-v"%string] (Some 1500500000) None]).

Lemma demo_node_wf : node_wf paired_node.
Proof. split; try (vm_compute; split; congruence); try done. repeat constructor; discriminate. Qed.

Lemma demo_program_wf : program_wf decoding_program.
Proof. split; try (vm_compute; split; congruence); done. Qed.

Lemma demo_state_wf : state_wf demo_state.
Proof.
  split_and!; [apply Forall_singleton, demo_node_wf|apply Forall_singleton, demo_program_wf|done| |].
  - apply Forall_singleton. split; try (vm_compute; split; congruence); try done.
  - apply Forall_singleton. split; [|done]. constructor; [done|]. apply Forall_singleton. split; [done|].
    by apply Forall_replicate.
Qed.

(** The time and the timeout lose their fractions. *)
Lemma bundle_codec_exact_witness :
  exists b, encrypt_state_full demo_state [112] [[1]; [2]] = Ok b /\ decrypt_state_full b [112] = Ok (bundled demo_state) /\
    state_wf (bundled demo_state) /\ issued_at <$> (bundled demo_state).1.2 = [1700000000000000000] /\
    reply_timeout <$> (bundled demo_state).2 = [Some 1500000000].
Proof.
  destruct bundle_codec_exact as [Hr Hw].
  destruct (Hr demo_state [112] [1] [2] [] demo_state_wf ltac:(discriminate)) as [(b & He & Hd)|Hf].
  - exists b. split; [exact He|]. split; [exact Hd|]. split; [exact (Hw b [112] _ Hd)|]. split; reflexivity.
  - exfalso. destruct (into_writer (root_to_cbor demo_state)) as [plain| | |] eqn:Hp; [exact (Hf plain eq_refl)|discriminate Hp..].
Defined.

Definition fresh : SqliteStorage := mkSqlite (demo_db ∅ ∅) K1 None many_bytes 0.
Definition imported : SqliteStorage := (Sql.replace_state [paired_node] [decoding_program] fresh).2.

Lemma import_drops_fields_witness :
  (Sql.get_node "n1" imported).1 = inr (Some (without_pairing paired_node)) /\ sensors paired_node <> [] /\
  (Sql.get_program (replicate 32 4) imported).1 = inr (Some (without_decoder decoding_program)) /\
  decoder_image decoding_program <> None.
Proof.
  destruct (import_drops_fields fresh [paired_node] [decoding_program] imported) as (Hn & _ & Hp & _).
  - reflexivity.
  - apply Forall_singleton, demo_node_wf.
  - apply Forall_singleton, demo_program_wf.
  - vm_compute. reflexivity.
  - split; [apply (Hn paired_node); by left|]. split; [discriminate|]. split; [apply (Hp decoding_program); by left|discriminate].
Defined.
End BundleDemo.
